(* ===== verification/_CoqProject ===== *)
-Q . S2P
Prelude.v
CText.v
Sshbuf.v
SshbufRefs.v
Channel.v
ChannelSpec.v
ChannelPair.v
Poly1305.v
ChachaPoly.v
Mac.v
Cipher.v
PacketState.v
Packet.v
PacketSend.v
PacketRecv.v
PacketKeys.v
PacketRekey.v
SftpCommon.v
Match.v
AddrMatch.v
KexNames.v
Kex.v
KexSpec.v
AuthOpts.v
AuthLists.v
Monitor.v
SignedData.v
MonitorSafe.v
Transport.v
World.v
LsFile.v
AmqpUrl.v
AmqpMem.v
AmqpCodec.v
AmqpTable.v
AmqpPools.v
AmqpFraming.v
AmqpConn.v
AmqpTime.v
AmqpSocket.v
AmqpStream.v
AmqpTcp.v
AmqpLogin.v
MqNotify.v
MqWire.v
MqConfig.v
Handles.v
SftpServer.v
SftpReplies.v
MainLoop.v
SftpEvents.v
SftpAccess.v
SftpUpload.v
SftpNotify.v
