(* ===== verification/Prelude.v ===== *)
(** * LocalEGA-inbox: a verification of the inbox of the Local EGA

    The inbox is the SFTP server of OpenSSH (src/src/openssh), changed so that
    every upload, removal and renaming of a file is announced to a message
    broker (src/src/mq-*.c), through a copy of rabbitmq-c (src/src/rabbitmq-c).
    sshd reads the configuration of the broker once (load_mq_config); each
    sftp-server process serves one client: it reads packets from stdin,
    dispatches them to handlers, which make system calls and append replies to
    a buffer for stdout; closing a file that was written, removing and renaming
    call mq_send_upload, mq_send_remove and mq_send_rename, which log in to the
    broker when that was not done yet and publish a JSON message.  The bytes of
    stdin and stdout travel through a channel of sshd (channels.c, nchan.c), in
    packets that sshd compresses, encrypts and authenticates (packet.c,
    cipher.c, mac.c) under keys that the key exchange agrees on (kex.c).  Before
    that the client has to be authenticated: an unprivileged process talks to
    it, and asks the privileged monitor (monitor.c), which alone decides.

    ** How the code is modelled

    A C integer is a [Z] with its wrap-around written out; a byte string is a
    list of [Z]; memory is kept where the code's correctness depends on it (the
    blocks of buffers and pools, the array of handles, the options that point
    into one buffer, the URL that is parsed in place).  A function that changes
    state and may fail is a computation in the state and error monad [SE] below;
    out-of-bounds accesses, null pointers, failed assertions and other undefined
    steps are values ([Segv], [Fault]), not assumed away.  What the code calls
    outside of src/ is a parameter: a class whose methods are the calls
    ([World], [Allocator], [Heap], [JsonC], [Sha256], [Resolver], [Clock],
    [Net]; for the transport [EvpMd], [EvpCipher], [Zlib], [Umac] and
    [PktEnv], the last for the clock, random numbers, select, read and write;
    [Calendar] for strptime and mktime; [MonEnv] for what the monitor asks),
    with a separate class for what the documentation of that code promises
    ([HeapTotal], [ResolverOk], [StreamNet], [EvpMdOk], [EvpOk], [UmacOk],
    [RandOk]) where a theorem needs it; these are laws of single calls ([EvpOk]
    says of each call of OpenSSL what it does to a context, and that cipher.c
    makes the right calls is proved).  A corrupted sshbuf, for which the code
    raises SIGSEGV, is an error code here; [shared_buffers_safe] shows that it
    does not occur.  [SshKeys] and some fields of [MonEnv]
    stand for parts of OpenSSH that are not modelled (key objects, files of
    authorized keys, the lookup of a user); the theorems about the monitor hold
    whatever these answer.

    ** The files

    - Prelude (this file): integers, lists of bytes, the monad and its laws,
      tactics.  CText: the text functions of the C library that are used.
    - Sshbuf: openssh/sshbuf.c, sshbuf.h, sshbuf-getput-basic.c.  SshbufRefs:
      buffers that share their bytes, with parents and reference counts.
    - Channel: nchan.c and the part of channels.c that serves an open channel.
      ChannelSpec: the channel protocol without buffers; ChannelPair: channels
      take only its steps, and what two of them do to each other.
    - Poly1305: poly1305.c; ChachaPoly: chacha.c, cipher-chachapoly.c.
      Mac: digest-openssl.c, hmac.c, mac.c.  Cipher: cipher.c.
    - PacketState: the structures of packet.c and kex.h.  Packet: packet.c.
      PacketSend, PacketRecv: one packet, and any number of them, from sender to
      receiver.  PacketKeys: new keys taken into use.  PacketRekey: packets
      during a key exchange, and refused packets.
    - KexNames: lists of algorithm names in kex.c, sshkey.c, cipher.c, mac.c.
      Kex: the rest of kex.c, and dispatch.c.  KexSpec: proposals, choice and
      keys on both sides.  Transport: key exchange and packet layer together.
    - AuthOpts: auth-options.c (options of keys), with the functions of misc.c
      and openbsd-compat/strtonum.c it calls.  AuthLists: the lists of required
      authentication methods in auth2.c.
    - Monitor: monitor.c up to the end of authentication, its messages
      (monitor_wrap.c), auth-passwd.c, auth-pam.c as the monitor uses it, and
      what they call in auth.c, auth2.c and msg.c.  SignedData: what a signature
      is over.  MonitorSafe: who is authenticated.
    - SftpCommon: openssh/sftp-common.c (attributes); LsFile: its ls_file, with
      openbsd-compat/strmode.c, pwcache.c, fmt_scaled.c.
    - Match: openssh/match.c; AddrMatch: openssh/addrmatch.c and the functions
      of match.c that call it.
    - World: the calls to the system and to libraries, with the trace a run
      leaves.
    - Handles: the handle table of openssh/sftp-server.c.  SftpServer: its
      handlers, dispatch and main loop.
    - SftpReplies: one reply per request.  MainLoop: the rounds of the loop.
      SftpEvents: which calls a handler makes.  SftpAccess: read-only mode and
      permitted requests.  SftpUpload: the checksum of an upload.  SftpNotify:
      what is announced.
    - MqNotify: mq-notify.c, mq-checksum.c.  MqConfig: mq-config.c.
    - AmqpUrl: rabbitmq-c/amqp_url.c.
    - AmqpMem: the pools of amqp_mem.c.  AmqpPools: the pools of the channels.
      AmqpCodec: the integers of the wire, amqp_private.h.  AmqpTable:
      amqp_table.c.  AmqpFraming: amqp_framing.c.  AmqpConn: frames, in
      amqp_connection.c.  AmqpTime: amqp_time.c.  AmqpSocket: amqp_socket.c, the
      sending part of amqp_connection.c, the requests of amqp_api.c.
    - AmqpStream: these over a stream socket.  AmqpTcp: amqp_tcp_socket.c and
      the opening of sockets in amqp_socket.c, a stream socket above the system
      calls.  AmqpLogin: the login dialogue, and the life of a connection.
      MqWire: a notification from mq-notify.c to the bytes on the wire.

    Interfaces: the decoders of tables and methods use memory through
    [EntryMem], the connection through [ChannelMem]; the pools implement both
    ([pool_mem_ok], [channel_mem_ok]), and the theorems about decoders and
    connections are proved against the interfaces.  The connection uses the
    socket through [Net]; [StreamNet] is what a stream promises, and the TCP
    class keeps it ([tcp_stream]) when the system calls do what POSIX says
    ([StreamSys]).  The packet layer uses a pair of cipher contexts through
    [CryptPair], which every cipher of the table implements
    ([every_cipher_pairs], with OpenSSL's through [EvpPair] and [GcmPair]).

    ** What the theorems show

    - The server: a packet is answered once, with its identifier
      ([process_answers_packet]); the loop keeps its buffers sane for ever
      ([server_loop_sound]); nothing is served before an init packet; a
      read-only server changes nothing; handles implement a finite map
      ([handle_table_correct]).
    - The announcements: closing an upload announces the SHA-256 of what was
      written ([upload_announces_digest_of_writes]); removals and renames are
      announced exactly when they happened ([remove_announced_iff_removed],
      [rename_announced_iff_moved]); a notification is published once, with a
      text that describes its operation, unless the server is not logged in and
      the broker refuses the login ([mq_send_publishes_once]); a process logs in
      once ([mq_session_protocol]).  The configuration is what the lines of its
      file say, and the parts of the URL in it ([load_mq_config_loads]).
    - The broker, over connections without heartbeats: a notification goes over the wire as frames from which a
      receiver gets the same message ([notification_on_the_wire],
      [publish_received]); frames come out in order however the bytes are cut
      ([frames_received_in_order]); a request gets its reply
      ([rpc_returns_reply]); opening a socket leaves no descriptor behind when
      it fails ([open_socket_no_leak]).
    - The wire format: tables with keys of at most 255 bytes, methods and
      properties are read back as they were written; decoding arbitrary bytes
      ends with a value of the right type or an error, without leaks
      ([amqp_decode_table_safe], [amqp_decode_method_safe]); encoding never
      writes outside its buffer
      ([amqp_encode_table_bounds]); pools never hand out memory twice
      ([pool_regions_disjoint], [channel_pools_separate]).
    - The transport: HMAC, Poly1305 and chacha20-poly1305 compute what their
      definitions say ([hmac_correct], [poly1305_auth_correct],
      [chachapoly_roundtrip]); messages sent through the packet layer arrive in
      order and unchanged in every mode of the keys, however the bytes are cut,
      as long as no key exchange becomes due ([packets_delivered]); during a key
      exchange they wait, and after its NEWKEYS message they are sent under the
      new keys, in their order ([rekey_keeps_order]); every cipher of the table
      decrypts what it encrypted ([every_cipher_pairs]); a packet with a wrong MAC over its cipher
      text is not decrypted ([etm_checked_first]); both sides choose the same
      algorithms and derive the same keys ([sides_agree], [derive_key_correct]),
      and exchange and packet layer compose ([exchange_delivers]).
    - Channels: data arrives in order ([channel_delivers_in_order]), within the
      windows, and two channels never reach a fatal error
      ([channel_pair_safe]).
    - Authentication: the options of a key mean what its text says
      ([authopt_parse_correct]), parsing ends ([authopt_parse_terminates]), they
      cross to the other process unchanged ([authopt_roundtrip]) and merging
      them with others keeps the restrictions ([merge_restricts]), an expiry time
      apart ([merge_loses_expiry]); the required methods are required, in the
      order of one list whose methods are enabled ([required_methods_enforced]);
      whatever the unprivileged process sends, the monitor lets a user in only
      after a right password, a signature of an allowed key or PAM's device, the
      required methods and the account check ([login_backed]); the data of a
      signature is a request of this session and user and nothing else
      ([signed_data_bound]).  PAM's
      device may have refused the user ([refused_by_pam_logs_in]).
    - Buffers, also shared ones, attributes, patterns, address lists, algorithm
      lists, the URL and the configuration: refinement of an abstract buffer,
      round trips, decision procedures, termination.
    - Theorems whose names say so ([..._crashes], [..._accepts_...],
      [..._loses_...], [..._wraps] and others) show what goes wrong.

    ** Bounds and fuel

    Loops that the source bounds by data are structural, or have fuel that a
    theorem shows to be enough: the directory stream ([dir_left]), the
    extensions of attributes (the bytes left), the parts of a URL (the bytes of
    its memory), the growing buffer of the configuration (2 + log2 of what the
    file needs), nested tables (one more than the bytes), the two flag words of
    properties, the body of a message (its length).  Loops of the connection run
    until the peer or the clock ends them; over a stream socket the fuel is a
    bound on the bytes and on how often the socket makes its caller wait
    ([rounds]), and every theorem holds for all larger fuel.  The heap of
    rabbitmq-c has fewer than 2^38 blocks in play; frames are below 2^30 bytes.
    The loop over input packets has the bytes of the input as fuel, the loop
    that makes a key longer one more than the bytes needed: both are shown to be
    enough.  The loops around select and zlib run until the parameters end them
    ([max_rounds], a field of [PktEnv]), those of the monitor until its child
    does ([mon_rounds], of [MonEnv]; the theorem is about what holds when the
    monitor returns, for any number of rounds).  Output buffers of a connection hold
    less than 2^27 bytes, as sshbuf limits them.

    ** What is not modelled

    The rest of OpenSSH: sshd's processes, the unprivileged side of the
    authentication dialogue, the monitor after authentication, key objects and
    signatures, the key exchange methods (which hand a secret and a hash to
    kex.c), opening and multiplexing of channels, forwarding, client programs.
    Compression in the delivery theorems (it is modelled in Packet).  Log lines.
    The cleanup that fatal() runs.  In rabbitmq-c: TLS and consuming messages;
    for mq-notify.c the library is calls of the [World] with any answer.  The
    theorems of AmqpStream are about connections without heartbeats; heartbeats
    are modelled in AmqpSocket. *)

From stdpp Require Export base list strings.
From Stdlib Require Export ZArith Lia.

#[global] Open Scope Z_scope.

Declare Scope c_scope.
Delimit Scope c_scope with c.

(** ** Machine integers

    A C integer is a [Z]; the conversions of the source are written out. *)

Definition u8 (z : Z) : Z := z mod 2 ^ 8.
Definition u16 (z : Z) : Z := z mod 2 ^ 16.
Definition u32 (z : Z) : Z := z mod 2 ^ 32.
Definition u64 (z : Z) : Z := z mod 2 ^ 64.
Definition i32 (z : Z) : Z := (z + 2 ^ 31) mod 2 ^ 32 - 2 ^ 31.
Definition i64 (z : Z) : Z := (z + 2 ^ 63) mod 2 ^ 64 - 2 ^ 63.

(** A C condition on an integer: zero is false. *)
Definition truthy (z : Z) : bool := negb (z =? 0).

(** A byte is a [Z] between 0 and 255. *)
Definition is_u8 (b : Z) : Prop := 0 <= b < 256.
Definition is_u8b (b : Z) : bool := (0 <=? b) && (b <? 256).

(** The bytes of a string literal. *)
Fixpoint str (s : string) : list Z :=
  match s with
  | EmptyString => []
  | String a s' => Z.of_N (Ascii.N_of_ascii a) :: str s'
  end.

(** ** Arrays of bytes with [Z] offsets, as [memcpy] and pointers address them *)

Definition zlen {A} (l : list A) : Z := Z.of_nat (length l).
Definition ztake {A} (n : Z) (l : list A) : list A := take (Z.to_nat n) l.
Definition zdrop {A} (n : Z) (l : list A) : list A := drop (Z.to_nat n) l.
Definition zslice {A} (off n : Z) (l : list A) : list A := ztake n (zdrop off l).
Definition zwrite {A} (off : Z) (src l : list A) : list A :=
  ztake off l ++ src ++ zdrop (off + zlen src) l.
Definition zfill (n : Z) : list Z := replicate (Z.to_nat n) 0.
Definition znth (l : list Z) (i : Z) : Z := nth (Z.to_nat i) l 0.

(** A C string occupies its bytes up to the first zero. *)
Fixpoint cstr (l : list Z) : list Z :=
  match l with
  | [] => []
  | b :: l' => if b =? 0 then [] else b :: cstr l'
  end.
Definition no_nul (l : list Z) : Prop := Forall (fun b => b <> 0) l.
Definition bytes_eqb (a b : list Z) : bool := bool_decide (a = b).

(** ** Formatted output *)

(** The decimal digits of a number, as "%u" and "%llu" print it. *)
Fixpoint dec_digits (fuel : nat) (n : Z) (acc : list Z) : list Z :=
  match fuel with
  | O => acc
  | S fuel' =>
      let acc := 48 + n mod 10 :: acc in
      if n / 10 =? 0 then acc else dec_digits fuel' (n / 10) acc
  end.
Definition dec (n : Z) : list Z := dec_digits (S (Z.to_nat (Z.log2 n))) n [].
(** "%lld" *)
Definition dec_signed (n : Z) : list Z := if n <? 0 then 45 :: dec (- n) else dec n.
(** "%8s" and "%-8s": blanks up to a width, on the left and on the right. *)
Definition pad_left (w : Z) (s : list Z) : list Z := replicate (Z.to_nat (w - zlen s)) 32 ++ s.
Definition pad_right (w : Z) (s : list Z) : list Z := s ++ replicate (Z.to_nat (w - zlen s)) 32.
(** snprintf into a buffer of [size] bytes keeps [size - 1] characters. *)
Definition snprintf (size : Z) (out : list Z) : list Z := ztake (size - 1) out.

(** ** A state and error monad

    [SE S E A]: a computation on a state [S] that either returns an [A] or
    stops with an [E]; the state reached so far survives the error. *)

Definition SE (S E A : Type) : Type := S -> (E + A) * S.

#[global] Instance SE_ret S E : MRet (SE S E) := fun A a s => (inr a, s).
#[global] Instance SE_bind S E : MBind (SE S E) := fun A B k m s =>
  match m s with
  | (inl e, s') => (inl e, s')
  | (inr a, s') => k a s'
  end.

Section SE_ops.
Context {S E : Type}.

Definition throw {A} (e : E) : SE S E A := fun s => (inl e, s).
Definition gets {A} (f : S -> A) : SE S E A := fun s => (inr (f s), s).
Definition modify (f : S -> S) : SE S E () := fun s => (inr tt, f s).
Definition guard_or (c : bool) (e : E) : SE S E () := if c then mret tt else throw e.
Definition when (c : bool) (m : SE S E ()) : SE S E () := if c then m else mret tt.

(** [m] reports its error as a value. *)
Definition try_ {A} (m : SE S E A) : SE S E (E + A) := fun s =>
  let '(r, s') := m s in (inr r, s').

Fixpoint mfold {A B} (f : B -> A -> SE S E B) (l : list A) (b : B) : SE S E B :=
  match l with
  | [] => mret b
  | a :: l' => b' ← f b a; mfold f l' b'
  end.

(** [m] keeps the invariant [I], whatever it returns. *)
Definition preserves {A} (I : S -> Prop) (m : SE S E A) : Prop :=
  forall s, I s -> I (snd (m s)).

(** Started in [P], [m] ends in a state and result that [Q] accepts. *)
Definition spec {A} (P : S -> Prop) (m : SE S E A) (Q : E + A -> S -> Prop) : Prop :=
  forall s, P s -> Q (fst (m s)) (snd (m s)).
End SE_ops.

(** ** Integer lemmas *)

Create HintDb cdb.
Create HintDb inv.
Create Rewrite HintDb zlist.

Lemma u8_id z : 0 <= z < 2 ^ 8 -> u8 z = z.
Proof. apply Z.mod_small. Qed.
Lemma u16_id z : 0 <= z < 2 ^ 16 -> u16 z = z.
Proof. apply Z.mod_small. Qed.
Lemma u32_id z : 0 <= z < 2 ^ 32 -> u32 z = z.
Proof. apply Z.mod_small. Qed.
Lemma u64_id z : 0 <= z < 2 ^ 64 -> u64 z = z.
Proof. apply Z.mod_small. Qed.
Lemma i32_id z : - 2 ^ 31 <= z < 2 ^ 31 -> i32 z = z.
Proof. intros. unfold i32. rewrite Z.mod_small; lia. Qed.
Lemma u32_range z : 0 <= u32 z < 2 ^ 32.
Proof. apply Z.mod_pos_bound. lia. Qed.
Lemma u64_range z : 0 <= u64 z < 2 ^ 64.
Proof. apply Z.mod_pos_bound. lia. Qed.
Lemma i32_range z : - 2 ^ 31 <= i32 z < 2 ^ 31.
Proof. unfold i32. pose proof (Z.mod_pos_bound (z + 2 ^ 31) (2 ^ 32)). lia. Qed.

(** The bytes a macro such as POKE_U32 stores, as quotients. *)
Lemma land_255 z : Z.land z 255 = z mod 256.
Proof. apply (Z.land_ones z 8). lia. Qed.

Lemma shiftr_land_255 z n : 0 <= n -> Z.land (Z.shiftr z n) 255 = (z / 2 ^ n) mod 256.
Proof. intros. rewrite land_255, Z.shiftr_div_pow2 by done. done. Qed.

(** A high part shifted over a low part is their sum. *)
Lemma lor_shiftl_add a b n :
  0 <= n -> 0 <= b < 2 ^ n -> Z.lor (Z.shiftl a n) b = a * 2 ^ n + b.
Proof.
  intros Hn Hb.
  assert (Hd : Z.land (Z.shiftl a n) b = 0).
  { apply Z.bits_inj'. intros i Hi. rewrite Z.land_spec, Z.bits_0.
    destruct (Z.lt_ge_cases i n) as [Hlt|Hge].
    - by rewrite Z.shiftl_spec_low.
    - destruct (Z.eq_dec b 0) as [->|]; [by rewrite Z.bits_0, andb_false_r|].
      rewrite (Z.bits_above_log2 b i); [apply andb_false_r|lia|].
      apply Z.log2_lt_pow2; [lia|]. eapply Z.lt_le_trans; [apply Hb|].
      apply Z.pow_le_mono_r; lia. }
  rewrite <- Z.shiftl_mul_pow2 by done.
  by rewrite Z.add_nocarry_lxor, Z.lxor_lor.
Qed.

(** ** Lists with [Z] offsets *)

Section zlists.
Context {A : Type}.
Implicit Types l src : list A.

Lemma zlen_nonneg l : 0 <= zlen l.
Proof. unfold zlen. lia. Qed.
Lemma zlen_nil : zlen (@nil A) = 0.
Proof. done. Qed.
Lemma zlen_cons a l : zlen (a :: l) = 1 + zlen l.
Proof. unfold zlen. simpl. lia. Qed.
Lemma zlen_app l src : zlen (l ++ src) = zlen l + zlen src.
Proof. unfold zlen. rewrite length_app. lia. Qed.
Lemma zlen_ztake n l : 0 <= n <= zlen l -> zlen (ztake n l) = n.
Proof. unfold zlen, ztake. rewrite length_take. lia. Qed.
Lemma zlen_ztake_le n l : zlen (ztake n l) <= zlen l.
Proof. unfold zlen, ztake. rewrite length_take. lia. Qed.
Lemma zlen_zdrop n l : 0 <= n <= zlen l -> zlen (zdrop n l) = zlen l - n.
Proof. unfold zlen, zdrop. rewrite length_drop. lia. Qed.
Lemma zlen_zslice off n l : 0 <= off -> 0 <= n -> off + n <= zlen l -> zlen (zslice off n l) = n.
Proof. intros. unfold zslice. rewrite zlen_ztake; [done|]. rewrite zlen_zdrop; lia. Qed.
Lemma zlen_zwrite off src l :
  0 <= off -> off + zlen src <= zlen l -> zlen (zwrite off src l) = zlen l.
Proof.
  intros. pose proof (zlen_nonneg src). unfold zwrite.
  rewrite !zlen_app, zlen_ztake, zlen_zdrop by lia. lia.
Qed.
Lemma zlen_0_nil l : zlen l = 0 -> l = [].
Proof. destruct l; [done|]. unfold zlen. simpl. lia. Qed.

Lemma ztake_all n l : zlen l <= n -> ztake n l = l.
Proof. intros. apply take_ge. unfold zlen in *. lia. Qed.
Lemma ztake_0 n l : n <= 0 -> ztake n l = [].
Proof. intros. unfold ztake. by replace (Z.to_nat n) with 0%nat by lia. Qed.
Lemma zdrop_0 n l : n <= 0 -> zdrop n l = l.
Proof. intros. unfold zdrop. by replace (Z.to_nat n) with 0%nat by lia. Qed.
Lemma zdrop_all n l : zlen l <= n -> zdrop n l = [].
Proof. intros. apply drop_ge. unfold zlen in *. lia. Qed.
Lemma zdrop_zdrop n m l : 0 <= n -> 0 <= m -> zdrop m (zdrop n l) = zdrop (n + m) l.
Proof. intros. unfold zdrop. rewrite drop_drop. f_equal. lia. Qed.
Lemma ztake_ztake n m l : n <= m -> ztake n (ztake m l) = ztake n l.
Proof. intros. unfold ztake. rewrite take_take. f_equal. lia. Qed.
Lemma zdrop_ztake n m l : 0 <= n -> zdrop n (ztake m l) = ztake (m - n) (zdrop n l).
Proof.
  intros. unfold ztake, zdrop. destruct (decide (0 <= m)) as [Hm|Hm].
  - rewrite skipn_firstn_comm. f_equal. lia.
  - replace (Z.to_nat m) with 0%nat by lia. rewrite take_0, drop_nil.
    by replace (Z.to_nat (m - n)) with 0%nat by lia.
Qed.
Lemma ztake_app_l n l src : n <= zlen l -> ztake n (l ++ src) = ztake n l.
Proof. intros. apply take_app_le. unfold zlen in *. lia. Qed.
Lemma ztake_app_r n l src : zlen l <= n -> ztake n (l ++ src) = l ++ ztake (n - zlen l) src.
Proof.
  intros. unfold ztake, zlen in *. rewrite take_app_ge by lia. do 2 f_equal. lia.
Qed.
Lemma zdrop_app_l n l src : n <= zlen l -> zdrop n (l ++ src) = zdrop n l ++ src.
Proof. intros. apply drop_app_le. unfold zlen in *. lia. Qed.
Lemma zdrop_app_r n l src : zlen l <= n -> zdrop n (l ++ src) = zdrop (n - zlen l) src.
Proof. intros. unfold zdrop, zlen in *. rewrite drop_app_ge by lia. f_equal. lia. Qed.
Lemma ztake_zdrop n l : ztake n l ++ zdrop n l = l.
Proof. apply take_drop. Qed.
Lemma ztake_app_exact l src n : n = zlen l -> ztake n (l ++ src) = l.
Proof. intros ->. rewrite ztake_app_l, ztake_all by lia. done. Qed.
Lemma zdrop_app_exact l src n : n = zlen l -> zdrop n (l ++ src) = src.
Proof. intros ->. rewrite zdrop_app_r, zdrop_0 by lia. done. Qed.

Lemma ztake_zwrite off src l n :
  n <= off -> off <= zlen l -> ztake n (zwrite off src l) = ztake n l.
Proof.
  intros. unfold zwrite. destruct (decide (n <= 0)); [by rewrite !ztake_0 by lia|].
  rewrite ztake_app_l, ztake_ztake; [done|lia|]. rewrite zlen_ztake; lia.
Qed.
Lemma ztake_zwrite_end off src l :
  0 <= off -> off + zlen src <= zlen l ->
  ztake (off + zlen src) (zwrite off src l) = ztake off l ++ src.
Proof.
  intros. pose proof (zlen_nonneg src). unfold zwrite. rewrite app_assoc.
  apply ztake_app_exact. rewrite zlen_app, zlen_ztake; lia.
Qed.
Lemma Forall_ztake (P : A -> Prop) n l : Forall P l -> Forall P (ztake n l).
Proof. apply Forall_take. Qed.
Lemma Forall_zdrop (P : A -> Prop) n l : Forall P l -> Forall P (zdrop n l).
Proof. apply Forall_drop. Qed.
Lemma Forall_zwrite (P : A -> Prop) off src l :
  Forall P src -> Forall P l -> Forall P (zwrite off src l).
Proof. intros. unfold zwrite. rewrite !Forall_app. auto using Forall_ztake, Forall_zdrop. Qed.
End zlists.

Lemma zlen_zfill n : 0 <= n -> zlen (zfill n) = n.
Proof. intros. unfold zlen, zfill. rewrite length_replicate. lia. Qed.
Lemma Forall_zfill n : Forall is_u8 (zfill n).
Proof. apply Forall_replicate. unfold is_u8. lia. Qed.

#[export] Hint Rewrite @zlen_nil @zlen_cons @zlen_app : zlist.
#[export] Hint Rewrite @zlen_ztake @zlen_zdrop @zlen_zwrite @zlen_zslice using lia : zlist.
#[export] Hint Resolve zlen_nonneg Forall_ztake Forall_zdrop Forall_zwrite Forall_zfill : cdb.

(** Put every list length in the context in linear form, with its sign. *)
Ltac zlen_facts :=
  repeat match goal with
  | |- context [zlen ?l] =>
      lazymatch goal with H : 0 <= zlen l |- _ => fail | _ => pose proof (zlen_nonneg l) end
  | _ : context [zlen ?l] |- _ =>
      lazymatch goal with H : 0 <= zlen l |- _ => fail | _ => pose proof (zlen_nonneg l) end
  end.
Ltac zlia := autorewrite with zlist in *; zlen_facts; lia.

(** ** C strings *)

Lemma cstr_no_nul l : no_nul (cstr l).
Proof.
  induction l as [|b l IH]; simpl; [constructor|].
  destruct (Z.eqb_spec b 0); constructor; done.
Qed.
Lemma cstr_id l : no_nul l -> cstr l = l.
Proof.
  induction 1 as [|b l Hb _ IH]; simpl; [done|].
  destruct (Z.eqb_spec b 0); [done|]. by rewrite IH.
Qed.
Lemma cstr_app_nul l l' : no_nul l -> cstr (l ++ 0 :: l') = l.
Proof.
  induction 1 as [|b l Hb _ IH]; simpl; [done|].
  destruct (Z.eqb_spec b 0); [done|]. by rewrite IH.
Qed.
Lemma zlen_cstr l : zlen (cstr l) <= zlen l.
Proof.
  induction l as [|b l IH]; simpl; [done|].
  destruct (b =? 0); rewrite ?zlen_cons, ?zlen_nil; zlen_facts; lia.
Qed.
Lemma bytes_eqb_eq a b : bytes_eqb a b = true <-> a = b.
Proof. apply bool_decide_eq_true. Qed.
Lemma bytes_eqb_refl a : bytes_eqb a a = true.
Proof. by apply bytes_eqb_eq. Qed.
Lemma bytes_eqb_neq a b : bytes_eqb a b = false <-> a <> b.
Proof. apply bool_decide_eq_false. Qed.

(** ** The state and error monad: laws and rules *)

Section SE_laws.
Context {S E : Type}.

Lemma SE_bind_ret_l {A B} (a : A) (k : A -> SE S E B) s : (mret a ≫= k) s = k a s.
Proof. done. Qed.
Lemma SE_bind_ret_r {A} (m : SE S E A) s : (m ≫= mret) s = m s.
Proof. unfold mbind, SE_bind. by destruct (m s) as [[e|a] s']. Qed.
Lemma gets_bind {A B} (f : S -> A) (k : A -> SE S E B) s : (gets f ≫= k) s = k (f s) s.
Proof. done. Qed.
Lemma gets_to {A B} (f : S -> A) v (k : A -> SE S E B) s : f s = v -> (gets f ≫= k) s = k v s.
Proof. by intros <-. Qed.
Lemma modify_bind {B} (f : S -> S) (k : () -> SE S E B) s : (modify f ≫= k) s = k tt (f s).
Proof. done. Qed.
Lemma SE_bind_assoc {A B C} (m : SE S E A) (k : A -> SE S E B) (h : B -> SE S E C) s :
  ((m ≫= k) ≫= h) s = (m ≫= (fun a => k a ≫= h)) s.
Proof. unfold mbind, SE_bind. by destruct (m s) as [[e|a] s']. Qed.

(** One step of a computation whose head is known. *)
Lemma SE_bind_ok {A B} (m : SE S E A) (k : A -> SE S E B) s a s' :
  m s = (inr a, s') -> (m ≫= k) s = k a s'.
Proof. unfold mbind, SE_bind. by intros ->. Qed.
Lemma SE_bind_err {A B} (m : SE S E A) (k : A -> SE S E B) s e s' :
  m s = (inl e, s') -> (m ≫= k) s = (inl e, s').
Proof. unfold mbind, SE_bind. by intros ->. Qed.
Lemma SE_bind_inv {A B} (m : SE S E A) (k : A -> SE S E B) s b s'' :
  (m ≫= k) s = (inr b, s'') -> exists a s', m s = (inr a, s') /\ k a s' = (inr b, s'').
Proof. unfold mbind, SE_bind. destruct (m s) as [[e|a] s']; [done|eauto]. Qed.

Lemma preserves_ret {A} (I : S -> Prop) (a : A) : preserves I (mret a : SE S E A).
Proof. by intros s. Qed.
Lemma preserves_bind {A B} (I : S -> Prop) (m : SE S E A) (k : A -> SE S E B) :
  preserves I m -> (forall a, preserves I (k a)) -> preserves I (m ≫= k).
Proof.
  intros Hm Hk s Hs. specialize (Hm s Hs). unfold mbind, SE_bind.
  destruct (m s) as [[e|a] s']; simpl in *; [done|]. by apply Hk.
Qed.
Lemma preserves_throw {A} (I : S -> Prop) e : preserves I (throw e : SE S E A).
Proof. by intros s. Qed.
Lemma preserves_gets {A} (I : S -> Prop) (f : S -> A) : preserves I (gets f : SE S E A).
Proof. by intros s. Qed.
Lemma preserves_modify (I : S -> Prop) f :
  (forall s, I s -> I (f s)) -> preserves I (modify f : SE S E ()).
Proof. intros H s. apply H. Qed.
Lemma preserves_when (I : S -> Prop) c (m : SE S E ()) :
  preserves I m -> preserves I (when c m).
Proof. intros H. destruct c; [exact H|apply preserves_ret]. Qed.
Lemma preserves_if {A} (I : S -> Prop) (c : bool) (m n : SE S E A) :
  preserves I m -> preserves I n -> preserves I (if c then m else n).
Proof. by destruct c. Qed.
Lemma preserves_try {A} (I : S -> Prop) (m : SE S E A) :
  preserves I m -> preserves I (try_ m).
Proof. intros H s Hs. unfold try_. specialize (H s Hs). by destruct (m s). Qed.
Lemma preserves_mfold {A B} (I : S -> Prop) (f : B -> A -> SE S E B) l b :
  (forall b a, preserves I (f b a)) -> preserves I (mfold f l b).
Proof.
  intros Hf. revert b. induction l as [|a l IH]; intros b; simpl.
  - apply preserves_ret.
  - by apply preserves_bind.
Qed.

Lemma spec_bind {A B} (P : S -> Prop) (m : SE S E A) (k : A -> SE S E B)
    (R : E + A -> S -> Prop) (Q : E + B -> S -> Prop) :
  spec P m R -> (forall e s, R (inl e) s -> Q (inl e) s) ->
  (forall a, spec (R (inr a)) (k a) Q) -> spec P (m ≫= k) Q.
Proof.
  intros Hm He Hk s Hs. specialize (Hm s Hs). unfold mbind, SE_bind.
  destruct (m s) as [[e|a] s']; simpl in *; [by apply He|]. by apply Hk.
Qed.
Lemma spec_mono {A} (P P' : S -> Prop) (m : SE S E A) (Q Q' : E + A -> S -> Prop) :
  spec P' m Q' -> (forall s, P s -> P' s) -> (forall r s, Q' r s -> Q r s) -> spec P m Q.
Proof. intros Hm HP HQ s Hs. apply HQ, Hm, HP, Hs. Qed.
End SE_laws.

#[export] Hint Resolve preserves_ret preserves_throw preserves_gets : inv.

(** Run a computation on a state whose shape is known. *)
Ltac unfold_SE := unfold mbind, SE_bind, mret, SE_ret, modify, gets, throw; cbn.

(** Walk through a computation and leave the preservation goals of its steps. *)
Ltac preserve_step :=
  lazymatch goal with
  | |- preserves _ (mret _) => apply preserves_ret
  | |- preserves _ (_ ≫= _) => apply preserves_bind; [|intros ?]
  | |- preserves _ (throw _) => apply preserves_throw
  | |- preserves _ (gets _) => apply preserves_gets
  | |- preserves _ (when _ _) => apply preserves_when
  | |- preserves _ (try_ _) => apply preserves_try
  | |- preserves _ (match ?x with _ => _ end) => destruct x
  end.
Ltac preserve := repeat (preserve_step || solve [eauto with inv]).
