(* ===== verification/CText.v ===== *)
(** * Text functions of the C library

    What the configuration, the broker URL and the messages use of ctype.h,
    strings.h, strtol, sscanf and sprintf, in the C locale. *)

From S2P Require Import Prelude.

(** ** Characters *)

Definition isspace (c : Z) : bool := ((9 <=? c) && (c <=? 13)) || (c =? 32).
Definition isdigit (c : Z) : bool := (48 <=? c) && (c <=? 57).
Definition lower (c : Z) : Z := if (65 <=? c) && (c <=? 90) then c + 32 else c.
(** !strcasecmp(a, b) *)
Definition strcaseeq (a b : list Z) : bool := bytes_eqb (map lower a) (map lower b).

Fixpoint skip_space (s : list Z) : list Z :=
  match s with
  | c :: s' => if isspace c then skip_space s' else s
  | [] => []
  end.

(** ** Hexadecimal numbers *)

Definition hex_digit (d : Z) : Z := if d <? 10 then 48 + d else 87 + d.
(** sprintf(p, "%02x", b) for an unsigned char. *)
Definition hex2 (b : Z) : list Z := [hex_digit (b / 16); hex_digit (b mod 16)].

Definition hexval (c : Z) : option Z :=
  if isdigit c then Some (c - 48)
  else if (97 <=? c) && (c <=? 102) then Some (c - 87)
  else if (65 <=? c) && (c <=? 70) then Some (c - 55)
  else None.

(** sscanf(s, "%2x%n", &val, &chars): white space is skipped, then at most two
    characters are an optional sign, an optional 0x and hexadecimal digits.
    [None] when nothing is converted; else the unsigned value and the number
    of characters used. *)
Definition sscanf_2x (s : list Z) : option (Z * Z) :=
  let t := skip_space s in
  let skipped := zlen s - zlen t in
  match t with
  | [] => None
  | c :: t' =>
      if (c =? 43) || (c =? 45) then
        d ← (d ← head t'; hexval d);
        mret (u32 (if c =? 45 then - d else d), skipped + 2)
      else
        d ← hexval c;
        match t' with
        | c2 :: _ =>
            if (c =? 48) && ((c2 =? 120) || (c2 =? 88)) then None
            else match hexval c2 with
                 | Some d2 => Some (d * 16 + d2, skipped + 2)
                 | None => Some (d, skipped + 1)
                 end
        | [] => Some (d, skipped + 1)
        end
  end.

(** ** strtol(s, &end, 10) *)

Definition LONG_MAX : Z := 2 ^ 63 - 1.
Definition LONG_MIN : Z := - 2 ^ 63.

(** The digits at the front of [s]: how many, and their number. *)
Fixpoint digits (s : list Z) (acc n : Z) : Z * Z :=
  match s with
  | c :: s' => if isdigit c then digits s' (acc * 10 + (c - 48)) (n + 1) else (acc, n)
  | [] => (acc, n)
  end.
(** The value, out of range saturated, and the characters used: none when
    there is no digit. *)
Definition strtol (s : list Z) : Z * Z :=
  let t := skip_space s in
  let skipped := zlen s - zlen t in
  let '(neg, t', signs) :=
    match t with
    | c :: t' => if c =? 45 then (true, t', 1) else if c =? 43 then (false, t', 1) else (false, t, 0)
    | [] => (false, t, 0)
    end in
  let '(v, n) := digits t' 0 0 in
  if n =? 0 then (0, 0)
  else (Z.max LONG_MIN (Z.min LONG_MAX (if neg : bool then - v else v)), skipped + signs + n).

(** ** strtoul(s, &end, 10) *)

Definition ULONG_MAX : Z := 2 ^ 64 - 1.

(** A number out of range gives ULONG_MAX; a minus sign negates the value as
    an unsigned number. *)
Definition strtoul (s : list Z) : Z * Z :=
  let t := skip_space s in
  let skipped := zlen s - zlen t in
  let '(neg, t', signs) :=
    match t with
    | c :: t' => if c =? 45 then (true, t', 1) else if c =? 43 then (false, t', 1) else (false, t, 0)
    | [] => (false, t, 0)
    end in
  let '(v, n) := digits t' 0 0 in
  if n =? 0 then (0, 0)
  else (if ULONG_MAX <? v then ULONG_MAX else if neg : bool then u64 (- v) else v, skipped + signs + n).

(** ** Lemmas *)

Lemma skip_space_suffix s : exists pre, s = pre ++ skip_space s.
Proof.
  induction s as [|c s [pre IH]]; simpl; [by exists []|].
  destruct (isspace c); [|by exists []]. exists (c :: pre). simpl. by f_equal.
Qed.
Lemma zlen_skip_space s : zlen (skip_space s) <= zlen s.
Proof.
  destruct (skip_space_suffix s) as [pre Hp]. rewrite Hp at 2. rewrite zlen_app.
  pose proof (zlen_nonneg pre). lia.
Qed.

(** sscanf stays within its string. *)
Lemma sscanf_2x_used s val chars : sscanf_2x s = Some (val, chars) -> 0 <= chars <= zlen s.
Proof.
  unfold sscanf_2x. pose proof (zlen_skip_space s). zlen_facts.
  destruct (skip_space s) as [|c [|c2 t']]; [done| |]; simpl; intros Heq.
  - destruct (_ || _); [done|]. destruct (hexval c); [|done]. injection Heq as _ <-. zlia.
  - destruct (_ || _).
    + destruct (hexval c2); [|done]. injection Heq as _ <-. zlia.
    + destruct (hexval c); [|done]. simpl in Heq. destruct (_ && _); [done|].
      destruct (hexval c2); injection Heq as _ <-; zlia.
Qed.

(** What sprintf writes, sscanf reads. *)
Lemma hexval_digit d : 0 <= d < 16 -> hexval (hex_digit d) = Some d.
Proof.
  intros. unfold hexval, isdigit, hex_digit. destruct (Z.ltb_spec d 10).
  - rewrite (proj2 (Z.leb_le 48 _)), (proj2 (Z.leb_le _ 57)) by lia. simpl. f_equal. lia.
  - rewrite (proj2 (Z.leb_gt _ 57)), andb_false_r by lia.
    rewrite (proj2 (Z.leb_le 97 _)), (proj2 (Z.leb_le _ 102)) by lia. simpl. f_equal. lia.
Qed.
Lemma hex_digit_range d : 0 <= d < 16 -> 48 <= hex_digit d <= 102 /\ hex_digit d <> 88.
Proof. intros. unfold hex_digit. destruct (Z.ltb_spec d 10); lia. Qed.
Lemma sscanf_hex2 b s : 0 <= b < 256 -> sscanf_2x (hex2 b ++ s) = Some (b, 2).
Proof.
  intros Hb. pose proof (Z.div_mod b 16 ltac:(lia)). pose proof (Z.mod_pos_bound b 16 ltac:(lia)).
  assert (Hd : 0 <= b / 16 < 16) by (split; [apply Z.div_pos|apply Z.div_lt_upper_bound]; lia).
  pose proof (hex_digit_range _ Hd). pose proof (hex_digit_range (b mod 16) ltac:(lia)).
  assert (Hsp : isspace (hex_digit (b / 16)) = false).
  { unfold isspace. rewrite (proj2 (Z.leb_gt _ 13)), (proj2 (Z.eqb_neq _ 32)) by lia.
    by rewrite andb_false_r. }
  unfold sscanf_2x, hex2. simpl. rewrite Hsp, Z.sub_diag.
  rewrite (proj2 (Z.eqb_neq _ 43)), (proj2 (Z.eqb_neq _ 45)) by lia. simpl.
  rewrite !hexval_digit by lia. simpl.
  rewrite (proj2 (Z.eqb_neq (hex_digit (b mod 16)) 120)), (proj2 (Z.eqb_neq (hex_digit (b mod 16)) 88)) by lia.
  rewrite andb_false_r. do 2 f_equal. lia.
Qed.

(** ** Decimal numbers *)

Definition num (ds : list Z) : Z := foldl (fun a c => a * 10 + (c - 48)) 0 ds.
Definition is_number (ds : list Z) : Prop := Forall (fun c => isdigit c = true) ds /\ ds <> [].
Definition no_digit_next (s : list Z) : Prop := forall c, head s = Some c -> isdigit c = false.

Lemma isdigit_digit d : 0 <= d < 10 -> isdigit (48 + d) = true.
Proof. intros. unfold isdigit. rewrite !(proj2 (Z.leb_le _ _)) by lia. done. Qed.
Lemma digits_run ds s acc k :
  Forall (fun c => isdigit c = true) ds -> no_digit_next s ->
  digits (ds ++ s) acc k = (foldl (fun a c => a * 10 + (c - 48)) acc ds, k + zlen ds).
Proof.
  intros Hd Hs. revert acc k. induction Hd as [|c ds Hc _ IH]; intros acc k.
  - rewrite zlen_nil, Z.add_0_r. destruct s as [|c s]; [done|]. simpl. by rewrite (Hs c).
  - simpl. rewrite Hc, IH, zlen_cons. f_equal. lia.
Qed.

Lemma dec_digits_spec fuel n acc :
  0 <= n < 2 ^ Z.of_nat (S fuel) ->
  exists ds, dec_digits (S fuel) n acc = ds ++ acc /\ is_number ds /\ num ds = n.
Proof.
  revert n acc. induction fuel as [|fuel IH]; intros n acc Hn;
    pose proof (Z.div_mod n 10 ltac:(lia)); pose proof (Z.mod_pos_bound n 10 ltac:(lia));
    assert (Hlast : isdigit (48 + n mod 10) = true) by (by apply isdigit_digit);
    assert (Hone : n / 10 = 0 -> is_number [48 + n mod 10] /\ num [48 + n mod 10] = n)
      by (intros; split; [by repeat constructor|unfold num; simpl; lia]).
  { change (2 ^ Z.of_nat 1) with 2 in Hn. assert (Hz : n / 10 = 0) by (apply Z.div_small; lia).
    exists [48 + n mod 10]. cbn [dec_digits]. rewrite Hz. auto. }
  remember (S fuel) as f. cbn [dec_digits]. cbv zeta.
  destruct (Z.eqb_spec (n / 10) 0) as [Hz|Hz]; [exists [48 + n mod 10]; auto|].
  subst f. destruct (IH (n / 10) (48 + n mod 10 :: acc)) as (ds & -> & [Hd Hne] & Hval).
  { split; [apply Z.div_pos; lia|]. apply Z.div_lt_upper_bound; [lia|].
    rewrite Nat2Z.inj_succ, Z.pow_succ_r in Hn by lia. lia. }
  exists (ds ++ [48 + n mod 10]). rewrite <- app_assoc. split_and!; [done| |].
  - split; [apply Forall_app; split; [done|by repeat constructor]|by destruct ds].
  - unfold num in *. rewrite foldl_app. simpl. lia.
Qed.
Lemma dec_number n : 0 <= n -> is_number (dec n) /\ num (dec n) = n.
Proof.
  intros Hn. unfold dec. destruct (dec_digits_spec (Z.to_nat (Z.log2 n)) n []) as (ds & -> & ? & ?).
  - rewrite Nat2Z.inj_succ, Z2Nat.id by apply Z.log2_nonneg. split; [done|].
    destruct (Z.eq_dec n 0) as [->|]; [done|]. apply Z.log2_spec. lia.
  - by rewrite app_nil_r.
Qed.

(** A digit is no blank and no sign. *)
Lemma isdigit_range c : isdigit c = true -> 48 <= c <= 57.
Proof. unfold isdigit. lia. Qed.
Lemma isdigit_not_space c : isdigit c = true -> isspace c = false.
Proof. unfold isdigit, isspace. lia. Qed.

(** strtol reads what "%u" printed, up to what follows. *)
Lemma strtol_dec n s :
  0 <= n <= LONG_MAX -> no_digit_next s -> strtol (dec n ++ s) = (n, zlen (dec n)).
Proof.
  intros Hn Hs. destruct (dec_number n) as [[Hd Hne] Hv]; [lia|].
  destruct (dec n) as [|c ds] eqn:E; [done|]. pose proof Hd as [Hc Hds]%Forall_cons.
  pose proof (isdigit_range c Hc). unfold strtol. cbn [app skip_space].
  rewrite isdigit_not_space, Z.sub_diag by done.
  rewrite (proj2 (Z.eqb_neq c 45)), (proj2 (Z.eqb_neq c 43)) by lia.
  change (c :: ds ++ s) with ((c :: ds) ++ s). rewrite digits_run by done.
  change (foldl _ 0 (c :: ds)) with (num (c :: ds)). rewrite Hv.
  rewrite zlen_cons. rewrite (proj2 (Z.eqb_neq _ 0)) by (zlen_facts; lia).
  unfold LONG_MIN, LONG_MAX in *. f_equal; lia.
Qed.
Lemma dec_no_nul n : 0 <= n -> no_nul (dec n).
Proof.
  intros Hn. destruct (dec_number n Hn) as [[Hd _] _]. eapply Forall_impl; [exact Hd|].
  intros c Hc%isdigit_range. simpl in *. lia.
Qed.
