(* ===== verification/Sshbuf.v ===== *)
(** * The SSH buffer: sshbuf.c, sshbuf.h and sshbuf-getput-basic.c

    A [sshbuf] is a growable block of bytes with a consumed prefix.  The
    model keeps the block itself ([b_mem], the [b_alloc] bytes at [cd]), the
    two data pointers as addresses, the four sizes, the read-only flag, the
    reference count and the parent.  A C function that returns 0 or a
    negative SSH_ERR code and changes its buffer is a computation
    [SE sshbuf Z]; [inl r] is the code [r] it returns.

    After the definitions come the abstract buffer (a list of pending bytes
    and a capacity), the well-formedness invariant, and one specification
    per operation that says what the operation does to the pending bytes. *)

From S2P Require Import Prelude.

(** ** Constants (ssherr.h, sshbuf.h) *)

Definition SSH_ERR_INTERNAL_ERROR : Z := -1.
Definition SSH_ERR_ALLOC_FAIL : Z := -2.
Definition SSH_ERR_MESSAGE_INCOMPLETE : Z := -3.
Definition SSH_ERR_INVALID_FORMAT : Z := -4.
Definition SSH_ERR_BIGNUM_IS_NEGATIVE : Z := -5.
Definition SSH_ERR_STRING_TOO_LARGE : Z := -6.
Definition SSH_ERR_BIGNUM_TOO_LARGE : Z := -7.
Definition SSH_ERR_NO_BUFFER_SPACE : Z := -9.
Definition SSH_ERR_INVALID_ARGUMENT : Z := -10.
Definition SSH_ERR_BUFFER_READ_ONLY : Z := -49.

Definition SSHBUF_SIZE_MAX : Z := 0x8000000.
Definition SSHBUF_REFS_MAX : Z := 0x100000.
Definition SSHBUF_MAX_BIGNUM : Z := 16384 / 8.
Definition SSHBUF_SIZE_INIT : Z := 256.
Definition SSHBUF_SIZE_INC : Z := 256.
Definition SSHBUF_PACK_MIN : Z := 8192.

(** ROUNDUP of misc.h, on [size_t]. *)
Definition ROUNDUP (x y : Z) : Z := u64 (u64 (x + (y - 1)) / y * y).

(** [((const u_char * )p)[i]]. *)
Definition u_char_at (p : list Z) (i : Z) : Z := u8 (znth p i).

(** PEEK_U64, PEEK_U32, PEEK_U16: big-endian reads at a pointer. *)
Definition PEEK_U64 (p : list Z) : Z :=
  Z.lor (Z.shiftl (u_char_at p 0) 56) (Z.lor (Z.shiftl (u_char_at p 1) 48)
  (Z.lor (Z.shiftl (u_char_at p 2) 40) (Z.lor (Z.shiftl (u_char_at p 3) 32)
  (Z.lor (Z.shiftl (u_char_at p 4) 24) (Z.lor (Z.shiftl (u_char_at p 5) 16)
  (Z.lor (Z.shiftl (u_char_at p 6) 8) (u_char_at p 7))))))).
Definition PEEK_U32 (p : list Z) : Z :=
  Z.lor (Z.shiftl (u_char_at p 0) 24) (Z.lor (Z.shiftl (u_char_at p 1) 16)
  (Z.lor (Z.shiftl (u_char_at p 2) 8) (u_char_at p 3))).
Definition PEEK_U16 (p : list Z) : Z := Z.lor (Z.shiftl (u_char_at p 0) 8) (u_char_at p 1).

(** POKE_U64, POKE_U32, POKE_U16: the bytes they store. *)
Definition POKE_U64 (v : Z) : list Z :=
  let v := u64 v in
  [Z.land (Z.shiftr v 56) 0xff; Z.land (Z.shiftr v 48) 0xff; Z.land (Z.shiftr v 40) 0xff;
   Z.land (Z.shiftr v 32) 0xff; Z.land (Z.shiftr v 24) 0xff; Z.land (Z.shiftr v 16) 0xff;
   Z.land (Z.shiftr v 8) 0xff; Z.land v 0xff].
Definition POKE_U32 (v : Z) : list Z :=
  let v := u32 v in
  [Z.land (Z.shiftr v 24) 0xff; Z.land (Z.shiftr v 16) 0xff; Z.land (Z.shiftr v 8) 0xff;
   Z.land v 0xff].
Definition POKE_U16 (v : Z) : list Z :=
  let v := u16 v in [Z.land (Z.shiftr v 8) 0xff; Z.land v 0xff].

Arguments POKE_U16 : simpl never.
Arguments POKE_U32 : simpl never.
Arguments POKE_U64 : simpl never.

(** ** The allocator

    [heap_alloc n] is the address [malloc] or [calloc] returns for [n]
    bytes, [None] for NULL; [page_size] is [getpagesize()].  The theorems
    hold for every allocator; those that promise success say when. *)
Class Allocator := { heap_alloc : Z -> option Z; page_size : Z }.

(** The allocator grants every request a buffer may make. *)
Class AllocTotal `{Allocator} : Prop :=
  alloc_total : forall n, 0 <= n <= SSHBUF_SIZE_MAX -> is_Some (heap_alloc n).

(** strdup: [None] when the copy cannot be allocated. *)
Definition strdup `{Allocator} (s : list Z) : option (list Z) :=
  _ ← heap_alloc (zlen s + 1); Some s.

Record sshbuf := mk_sshbuf {
  b_d : option Z;
  b_cd : option Z;
  b_mem : list Z;
  b_off : Z;
  b_size : Z;
  b_max_size : Z;
  b_alloc : Z;
  b_readonly : bool;
  b_refcount : Z;
  b_parent : option Z
}.

(** Assignments to the fields. *)
Definition set_off_size (off size : Z) (b : sshbuf) : sshbuf :=
  mk_sshbuf (b_d b) (b_cd b) (b_mem b) off size (b_max_size b) (b_alloc b)
    (b_readonly b) (b_refcount b) (b_parent b).
Definition set_mem (m : list Z) (b : sshbuf) : sshbuf :=
  mk_sshbuf (b_d b) (b_cd b) m (b_off b) (b_size b) (b_max_size b) (b_alloc b)
    (b_readonly b) (b_refcount b) (b_parent b).
Definition set_block (p : Z) (m : list Z) (alloc : Z) (b : sshbuf) : sshbuf :=
  mk_sshbuf (Some p) (Some p) m (b_off b) (b_size b) (b_max_size b) alloc
    (b_readonly b) (b_refcount b) (b_parent b).
Definition set_max (max : Z) (b : sshbuf) : sshbuf :=
  mk_sshbuf (b_d b) (b_cd b) (b_mem b) (b_off b) (b_size b) max (b_alloc b)
    (b_readonly b) (b_refcount b) (b_parent b).
Definition set_refcount (n : Z) (b : sshbuf) : sshbuf :=
  mk_sshbuf (b_d b) (b_cd b) (b_mem b) (b_off b) (b_size b) (b_max_size b) (b_alloc b)
    (b_readonly b) n (b_parent b).
Definition set_parent_ptr (p : option Z) (b : sshbuf) : sshbuf :=
  mk_sshbuf (b_d b) (b_cd b) (b_mem b) (b_off b) (b_size b) (b_max_size b) (b_alloc b)
    (b_readonly b) (b_refcount b) p.

Section Sshbuf.
Context `{Allocator}.

(** recallocarray(ptr, old, new, 1): a block of [new] bytes that starts with
    the old ones, zeros after them; [None] is NULL.  A small shrink stays in
    place and cannot fail. *)
Definition recallocarray (ptr : option Z) (old_mem : list Z) (oldsize newsize : Z)
    : option (Z * list Z) :=
  match ptr with
  | None => p ← heap_alloc newsize; mret (p, zfill newsize)
  | Some q =>
      if (newsize <=? oldsize) && (oldsize - newsize <? oldsize / 2) &&
         (oldsize - newsize <? page_size)
      then Some (q, ztake newsize old_mem)
      else
        p ← heap_alloc newsize;
        mret (p, if oldsize <? newsize then ztake oldsize old_mem ++ zfill (newsize - oldsize)
                 else ztake newsize old_mem)
  end.

(** sshbuf_check_sanity: 0, or SSH_ERR_INTERNAL_ERROR on corrupted fields (the
    code then raises SIGSEGV first). *)
Definition sshbuf_check_sanity (b : sshbuf) : Z :=
  if (negb (b_readonly b) && negb (bool_decide (b_d b = b_cd b))) ||
     (b_refcount b <? 1) || (SSHBUF_REFS_MAX <? b_refcount b) ||
     bool_decide (b_cd b = None) ||
     (SSHBUF_SIZE_MAX <? b_max_size b) || (b_max_size b <? b_alloc b) ||
     (b_alloc b <? b_size b) || (b_size b <? b_off b)
  then SSH_ERR_INTERNAL_ERROR else 0.

Definition sshbuf_maybe_pack (b : sshbuf) (force : bool) : sshbuf :=
  if (b_off b =? 0) || b_readonly b || (1 <? b_refcount b) then b
  else if force || ((SSHBUF_PACK_MIN <=? b_off b) && (b_size b / 2 <=? b_off b))
  then set_off_size 0 (b_size b - b_off b)
         (set_mem (zwrite 0 (zslice (b_off b) (b_size b - b_off b) (b_mem b)) (b_mem b)) b)
  else b.

(** sizeof(struct sshbuf) *)
Definition sizeof_sshbuf : Z := 72.
(** sshbuf_new: NULL when the structure or the block cannot be allocated. *)
Definition sshbuf_new : option sshbuf :=
  _ ← heap_alloc sizeof_sshbuf;
  p ← heap_alloc SSHBUF_SIZE_INIT;
  mret (mk_sshbuf (Some p) (Some p) (zfill SSHBUF_SIZE_INIT) 0 0 SSHBUF_SIZE_MAX
          SSHBUF_SIZE_INIT false 1 None).

(** sshbuf_from: a read-only buffer over the [len] bytes at address [blob]. *)
Definition sshbuf_from (blob : option Z) (bytes : list Z) (len : Z) : option sshbuf :=
  if bool_decide (blob = None) || (SSHBUF_SIZE_MAX <? len) then None
  else _ ← heap_alloc sizeof_sshbuf; mret (mk_sshbuf None blob (ztake len bytes) 0 len len len true 1 None).

Definition sshbuf_len (b : sshbuf) : Z :=
  if truthy (sshbuf_check_sanity b) then 0 else b_size b - b_off b.

Definition sshbuf_avail (b : sshbuf) : Z :=
  if truthy (sshbuf_check_sanity b) || b_readonly b || (1 <? b_refcount b) then 0
  else b_max_size b - (b_size b - b_off b).

(** sshbuf_ptr: the bytes from the returned pointer to the end of the block. *)
Definition sshbuf_ptr (b : sshbuf) : list Z :=
  if truthy (sshbuf_check_sanity b) then [] else zdrop (b_off b) (b_mem b).

Definition sshbuf_check_reserve (b : sshbuf) (len : Z) : Z :=
  let r := sshbuf_check_sanity b in
  if truthy r then r
  else if b_readonly b || (1 <? b_refcount b) then SSH_ERR_BUFFER_READ_ONLY
  else if (b_max_size b <? len) || (b_max_size b - len <? b_size b - b_off b)
  then SSH_ERR_NO_BUFFER_SPACE
  else 0.

(** sshbuf_reset.  Its check of a corrupted buffer, whose code it ignores, would
    raise SIGSEGV; buffers in use are never corrupted (shared_buffers_safe). *)
Definition sshbuf_reset (b : sshbuf) : sshbuf :=
  if b_readonly b || (1 <? b_refcount b) then set_off_size (b_size b) (b_size b) b
  else
    let b := set_off_size 0 0 b in
    let b :=
      if b_alloc b =? SSHBUF_SIZE_INIT then b
      else match recallocarray (b_d b) (b_mem b) (b_alloc b) SSHBUF_SIZE_INIT with
           | Some (p, m) => set_block p m SSHBUF_SIZE_INIT b
           | None => b
           end in
    set_mem (zwrite 0 (zfill SSHBUF_SIZE_INIT) (b_mem b)) b.

Definition sshbuf_set_max_size (max_size : Z) : SE sshbuf Z () := fun b =>
  let r := sshbuf_check_sanity b in
  if truthy r then (inl r, b)
  else if max_size =? b_max_size b then (inr tt, b)
  else if b_readonly b || (1 <? b_refcount b) then (inl SSH_ERR_BUFFER_READ_ONLY, b)
  else if SSHBUF_SIZE_MAX <? max_size then (inl SSH_ERR_NO_BUFFER_SPACE, b)
  else
    let finish b :=
      if max_size <? b_alloc b then (inl SSH_ERR_NO_BUFFER_SPACE, b)
      else (inr tt, set_max max_size b) in
    let b := sshbuf_maybe_pack b (max_size <? b_size b) in
    if (max_size <? b_alloc b) && (b_size b <? max_size) then
      let rlen := if b_size b <? SSHBUF_SIZE_INIT then SSHBUF_SIZE_INIT
                  else ROUNDUP (b_size b) SSHBUF_SIZE_INC in
      let rlen := if max_size <? rlen then max_size else rlen in
      match recallocarray (b_d b) (b_mem b) (b_alloc b) rlen with
      | None => (inl SSH_ERR_ALLOC_FAIL, b)
      | Some (p, m) => finish (set_block p m rlen b)
      end
    else finish b.

Definition sshbuf_allocate (len : Z) : SE sshbuf Z () := fun b =>
  let r := sshbuf_check_reserve b len in
  if truthy r then (inl r, b)
  else
    let b := sshbuf_maybe_pack b (b_max_size b <? u64 (b_size b + len)) in
    if u64 (len + b_size b) <=? b_alloc b then (inr tt, b)
    else
      let need := u64 (len + b_size b - b_alloc b) in
      let rlen := ROUNDUP (u64 (b_alloc b + need)) SSHBUF_SIZE_INC in
      let rlen := if b_max_size b <? rlen then u64 (b_alloc b + need) else rlen in
      match recallocarray (b_d b) (b_mem b) (b_alloc b) rlen with
      | None => (inl SSH_ERR_ALLOC_FAIL, b)
      | Some (p, m) =>
          let b := set_block p m rlen b in
          let r := sshbuf_check_reserve b len in
          if r <? 0 then (inl r, b) else (inr tt, b)
      end.

(** sshbuf_reserve: the offset [*dpp - buf->d] of the reserved room. *)
Definition sshbuf_reserve (len : Z) : SE sshbuf Z Z :=
  _ ← sshbuf_allocate len;
  dp ← gets b_size;
  _ ← modify (fun b => set_off_size (b_off b) (u64 (b_size b + len)) b);
  mret dp.

Definition sshbuf_consume (len : Z) : SE sshbuf Z () := fun b =>
  let r := sshbuf_check_sanity b in
  if truthy r then (inl r, b)
  else if len =? 0 then (inr tt, b)
  else if sshbuf_len b <? len then (inl SSH_ERR_MESSAGE_INCOMPLETE, b)
  else
    let off := b_off b + len in
    (inr tt, if off =? b_size b then set_off_size 0 0 b else set_off_size off (b_size b) b).

Definition sshbuf_consume_end (len : Z) : SE sshbuf Z () := fun b =>
  let r := sshbuf_check_sanity b in
  if truthy r then (inl r, b)
  else if len =? 0 then (inr tt, b)
  else if sshbuf_len b <? len then (inl SSH_ERR_MESSAGE_INCOMPLETE, b)
  else (inr tt, set_off_size (b_off b) (b_size b - len) b).

(** ** sshbuf-getput-basic.c: reading *)

Definition sshbuf_get (len : Z) : SE sshbuf Z (list Z) :=
  p ← gets sshbuf_ptr; _ ← sshbuf_consume len; mret (ztake len p).
Definition sshbuf_get_u64 : SE sshbuf Z Z :=
  p ← gets sshbuf_ptr; _ ← sshbuf_consume 8; mret (PEEK_U64 p).
Definition sshbuf_get_u32 : SE sshbuf Z Z :=
  p ← gets sshbuf_ptr; _ ← sshbuf_consume 4; mret (PEEK_U32 p).
Definition sshbuf_get_u16 : SE sshbuf Z Z :=
  p ← gets sshbuf_ptr; _ ← sshbuf_consume 2; mret (PEEK_U16 p).
Definition sshbuf_get_u8 : SE sshbuf Z Z :=
  p ← gets sshbuf_ptr; _ ← sshbuf_consume 1; mret (znth p 0).

(** sshbuf_peek_string_direct: the pointer after the length, and the length. *)
Definition sshbuf_peek_string_direct (b : sshbuf) : Z + (list Z * Z) :=
  let p := sshbuf_ptr b in
  if sshbuf_len b <? 4 then inl SSH_ERR_MESSAGE_INCOMPLETE
  else
    let len := PEEK_U32 p in
    if SSHBUF_SIZE_MAX - 4 <? len then inl SSH_ERR_STRING_TOO_LARGE
    else if sshbuf_len b - 4 <? len then inl SSH_ERR_MESSAGE_INCOMPLETE
    else inr (zdrop 4 p, len).

Definition sshbuf_get_string_direct : SE sshbuf Z (list Z * Z) := fun b =>
  match sshbuf_peek_string_direct b with
  | inl r => (inl r, b)
  | inr (p, len) =>
      match sshbuf_consume (len + 4) b with
      | (inl _, b') => (inl SSH_ERR_INTERNAL_ERROR, b')
      | (inr _, b') => (inr (p, len), b')
      end
  end.
Definition sshbuf_skip_string : SE sshbuf Z () :=
  _ ← sshbuf_get_string_direct; mret tt.

(** The copy into a fresh block of [len + 1] bytes. *)
Definition malloc_copy (p : list Z) (len : Z) : SE sshbuf Z (list Z) :=
  match heap_alloc (len + 1) with
  | None => throw SSH_ERR_ALLOC_FAIL
  | Some _ => mret (ztake len p)
  end.

Definition sshbuf_get_string : SE sshbuf Z (list Z) :=
  '(p, len) ← sshbuf_get_string_direct; malloc_copy p len.

(** memchr(p, 0, len): the offset of the first zero byte. *)
Fixpoint memchr0 (l : list Z) : option Z :=
  match l with
  | [] => None
  | b :: l' => if b =? 0 then Some 0 else i ← memchr0 l'; mret (1 + i)
  end.

Definition sshbuf_get_cstring : SE sshbuf Z (list Z) := fun b =>
  match sshbuf_peek_string_direct b with
  | inl r => (inl r, b)
  | inr (p, len) =>
      let nul_inside := match memchr0 (ztake len p) with
                        | Some z => z <? len - 1
                        | None => false
                        end in
      if (0 <? len) && nul_inside then (inl SSH_ERR_INVALID_FORMAT, b)
      else match sshbuf_skip_string b with
           | (inl _, b') => (inl (-1), b')
           | (inr _, b') => malloc_copy p len b'
           end
  end.

(** ** sshbuf-getput-basic.c: writing *)

Definition poke (dp : Z) (bytes : list Z) : SE sshbuf Z () :=
  modify (fun b => set_mem (zwrite dp bytes (b_mem b)) b).

Definition sshbuf_put (v : list Z) (len : Z) : SE sshbuf Z () :=
  p ← sshbuf_reserve len;
  when (truthy len) (poke p (ztake len v)).
Definition sshbuf_putb (v : sshbuf) : SE sshbuf Z () :=
  sshbuf_put (sshbuf_ptr v) (sshbuf_len v).
Definition sshbuf_put_u64 (val : Z) : SE sshbuf Z () :=
  p ← sshbuf_reserve 8; poke p (POKE_U64 val).
Definition sshbuf_put_u32 (val : Z) : SE sshbuf Z () :=
  p ← sshbuf_reserve 4; poke p (POKE_U32 val).
Definition sshbuf_put_u16 (val : Z) : SE sshbuf Z () :=
  p ← sshbuf_reserve 2; poke p (POKE_U16 val).
Definition sshbuf_put_u8 (val : Z) : SE sshbuf Z () :=
  p ← sshbuf_reserve 1; poke p [u8 val].

Definition sshbuf_put_string (v : list Z) (len : Z) : SE sshbuf Z () :=
  if SSHBUF_SIZE_MAX - 4 <? len then throw SSH_ERR_NO_BUFFER_SPACE
  else
    d ← sshbuf_reserve (len + 4);
    _ ← poke d (POKE_U32 len);
    when (truthy len) (poke (d + 4) (ztake len v)).
Definition sshbuf_put_cstring (v : option (list Z)) : SE sshbuf Z () :=
  match v with
  | None => sshbuf_put_string [] 0
  | Some s => sshbuf_put_string (cstr s) (zlen (cstr s))
  end.
Definition sshbuf_put_stringb (v : sshbuf) : SE sshbuf Z () :=
  sshbuf_put_string (sshbuf_ptr v) (sshbuf_len v).

(** sshbuf_get_stringb: the next string of [buf] copied into [v]. *)
Definition sshbuf_get_stringb : SE (sshbuf * sshbuf) Z () := fun '(buf, v) =>
  match sshbuf_peek_string_direct buf with
  | inl r => (inl r, (buf, v))
  | inr _ =>
      match sshbuf_get_u32 buf with
      | (inl r, buf) => (inl r, (buf, v))
      | (inr len, buf) =>
          match sshbuf_reserve len v with
          | (inl r, v) => (inl r, (buf, v))
          | (inr p, v) =>
              match sshbuf_get len buf with
              | (inl r, buf) => (inl r, (buf, v))
              | (inr bytes, buf) => (inr tt, (buf, snd (poke p bytes v)))
              end
          end
      end
  end.

(** sshbuf_putfv, on the text [vsnprintf] produces ([None]: it failed). *)
Definition sshbuf_putfv (out : option (list Z)) : SE sshbuf Z () :=
  match out with
  | None => throw SSH_ERR_INVALID_ARGUMENT
  | Some text =>
      let len := zlen text in
      if len =? 0 then mret tt
      else
        p ← sshbuf_reserve (len + 1);
        _ ← poke p (text ++ [0]);
        sshbuf_consume_end 1
  end.

Fixpoint skip_zeros (l : list Z) : list Z :=
  match l with
  | [] => []
  | b :: l' => if b =? 0 then skip_zeros l' else l
  end.

Definition sshbuf_put_bignum2_bytes (v : list Z) : SE sshbuf Z () :=
  if SSHBUF_SIZE_MAX - 5 <? zlen v then throw SSH_ERR_NO_BUFFER_SPACE
  else
    let s := skip_zeros v in
    let len := zlen s in
    let prepend := if (0 <? len) && truthy (Z.land (znth s 0) 0x80) then 1 else 0 in
    d ← sshbuf_reserve (len + 4 + prepend);
    _ ← poke d (POKE_U32 (len + prepend));
    _ ← when (truthy prepend) (poke (d + 4) [0]);
    when (truthy len) (poke (d + 4 + prepend) s).

Definition sshbuf_get_bignum2_bytes_direct : SE sshbuf Z (list Z) := fun b =>
  match sshbuf_peek_string_direct b with
  | inl r => (inl r, b)
  | inr (p, olen) =>
      let d := ztake olen p in
      if truthy olen && truthy (Z.land (znth d 0) 0x80)
      then (inl SSH_ERR_BIGNUM_IS_NEGATIVE, b)
      else if (SSHBUF_MAX_BIGNUM + 1 <? olen) ||
              ((olen =? SSHBUF_MAX_BIGNUM + 1) && truthy (znth d 0))
      then (inl SSH_ERR_BIGNUM_TOO_LARGE, b)
      else match sshbuf_consume (olen + 4) b with
           | (inl _, b') => (inl SSH_ERR_INTERNAL_ERROR, b')
           | (inr _, b') => (inr (skip_zeros d), b')
           end
  end.

End Sshbuf.

(** ** The abstract buffer

    What the rest of the program relies on: a queue of pending bytes that
    holds at most [cap] of them.  Bytes are appended at the end and taken
    from the front; a refused operation leaves the queue as it was. *)

Record abuf := mk_abuf { pending : list Z; cap : Z }.

Definition a_put (data : list Z) : SE abuf Z () := fun a =>
  if cap a <? zlen (pending a) + zlen data then (inl SSH_ERR_NO_BUFFER_SPACE, a)
  else (inr tt, mk_abuf (pending a ++ data) (cap a)).
Definition a_take (n : Z) : SE abuf Z (list Z) := fun a =>
  if zlen (pending a) <? n then (inl SSH_ERR_MESSAGE_INCOMPLETE, a)
  else (inr (ztake n (pending a)), mk_abuf (zdrop n (pending a)) (cap a)).
Definition a_get_string : SE abuf Z (list Z) := fun a =>
  let c := pending a in
  if zlen c <? 4 then (inl SSH_ERR_MESSAGE_INCOMPLETE, a)
  else if SSHBUF_SIZE_MAX - 4 <? PEEK_U32 c then (inl SSH_ERR_STRING_TOO_LARGE, a)
  else if zlen c - 4 <? PEEK_U32 c then (inl SSH_ERR_MESSAGE_INCOMPLETE, a)
  else (inr (zslice 4 (PEEK_U32 c) c), mk_abuf (zdrop (4 + PEEK_U32 c) c) (cap a)).

(** ** Well-formed buffers and their contents *)

Record buf_wf (b : sshbuf) : Prop := {
  wf_cd : b_cd b <> None;
  wf_dcd : b_readonly b = false -> b_d b = b_cd b;
  wf_refs : 1 <= b_refcount b <= SSHBUF_REFS_MAX;
  wf_off : 0 <= b_off b <= b_size b;
  wf_size : b_size b <= b_alloc b;
  wf_alloc : b_alloc b <= b_max_size b;
  wf_max : b_max_size b <= SSHBUF_SIZE_MAX;
  wf_mem : zlen (b_mem b) = b_alloc b
}.

(** A well-formed buffer its owner may write to. *)
Record buf_rw (b : sshbuf) : Prop := {
  rw_wf : buf_wf b;
  rw_readonly : b_readonly b = false;
  rw_refs : b_refcount b = 1
}.

Definition contents (b : sshbuf) : list Z := zslice (b_off b) (b_size b - b_off b) (b_mem b).
Definition abs (b : sshbuf) : abuf := mk_abuf (contents b) (b_max_size b).

(** [m] on a writable buffer does what [a] does on its pending bytes. *)
Definition Refines {A} (m : SE sshbuf Z A) (a : SE abuf Z A) : Prop :=
  forall b, buf_rw b ->
    fst (m b) = fst (a (abs b)) /\ abs (snd (m b)) = snd (a (abs b)) /\ buf_rw (snd (m b)).

Lemma Refines_ret {A} (x : A) : Refines (mret x) (mret x).
Proof. by intros b Hb. Qed.
Lemma Refines_throw {A} e : Refines (throw e : SE sshbuf Z A) (throw e).
Proof. by intros b Hb. Qed.
Lemma Refines_bind {A B} (m : SE sshbuf Z A) (a : SE abuf Z A) k h :
  Refines m a -> (forall x, Refines (k x) (h x : SE abuf Z B)) -> Refines (m ≫= k) (a ≫= h).
Proof.
  intros Hm Hk b Hb. destruct (Hm b Hb) as (Hr & Ha & Hb'). unfold mbind, SE_bind.
  destruct (m b) as [[e|x] b'], (a (abs b)) as [[e'|x'] a']; simpl in *; simplify_eq; [done|].
  apply Hk, Hb'.
Qed.
Lemma Refines_ext {A} (m : SE sshbuf Z A) (a a' : SE abuf Z A) :
  Refines m a -> (forall b, buf_rw b -> a (abs b) = a' (abs b)) -> Refines m a'.
Proof. intros Hm Heq b Hb. rewrite <- Heq by done. by apply Hm. Qed.

(** ** Big-endian integers *)

(** The value of a big-endian byte string, and the bytes of a value. *)
Fixpoint be_val (acc : Z) (l : list Z) : Z :=
  match l with [] => acc | b :: l' => be_val (acc * 256 + b) l' end.
Fixpoint be_bytes (n : nat) (v : Z) : list Z :=
  match n with O => [] | S n' => be_bytes n' (v / 256) ++ [v mod 256] end.

Lemma length_be_bytes n v : length (be_bytes n v) = n.
Proof. revert v. induction n; intros; simpl; [done|]. rewrite length_app, IHn. simpl. lia. Qed.

Lemma be_val_snoc acc l b : be_val acc (l ++ [b]) = be_val acc l * 256 + b.
Proof. revert acc. induction l; simpl; done. Qed.

Lemma be_bytes_u8 n v : Forall is_u8 (be_bytes n v).
Proof.
  revert v. induction n; intros; simpl; [constructor|]. apply Forall_app. split; [done|].
  constructor; [|constructor]. unfold is_u8. pose proof (Z.mod_pos_bound v 256). lia.
Qed.

Lemma be_val_bytes n v : be_val 0 (be_bytes n v) = v mod 2 ^ (8 * Z.of_nat n).
Proof.
  revert v. induction n as [|n IH]; intros v; simpl; [by rewrite Z.mod_1_r|].
  rewrite be_val_snoc, IH.
  replace (8 * Z.of_nat (S n)) with (8 + 8 * Z.of_nat n) by lia.
  rewrite Z.pow_add_r by lia. change (2 ^ 8) with 256.
  rewrite Z.rem_mul_r by lia. lia.
Qed.

Lemma be_val_range acc l :
  0 <= acc -> Forall is_u8 l ->
  acc * 2 ^ (8 * zlen l) <= be_val acc l < (acc + 1) * 2 ^ (8 * zlen l).
Proof.
  intros Hacc Hl. revert acc Hacc.
  induction Hl as [|b l Hb Hl IH]; intros acc Hacc; simpl; [unfold zlen; simpl; lia|].
  unfold is_u8 in Hb. rewrite zlen_cons. pose proof (zlen_nonneg l).
  replace (8 * (1 + zlen l)) with (8 + 8 * zlen l) by lia.
  rewrite Z.pow_add_r by lia. change (2 ^ 8) with 256.
  specialize (IH (acc * 256 + b) ltac:(lia)).
  pose proof (Z.pow_pos_nonneg 2 (8 * zlen l)). nia.
Qed.

(** The macros read and write that value. *)
Lemma u8_is_u8 z : is_u8 (u8 z).
Proof. apply Z.mod_pos_bound. lia. Qed.
Ltac peek_val :=
  unfold PEEK_U16, PEEK_U32, PEEK_U64;
  repeat match goal with
  | |- context [u_char_at ?p ?i] =>
      let H := fresh "Hu" in
      pose proof (u8_is_u8 (znth p i)) as H; unfold is_u8 in H;
      change (u_char_at p i) with (u8 (znth p i));
      generalize dependent (u8 (znth p i)); intros
  end;
  cbn [be_val];
  repeat match goal with
  | |- context [Z.lor (Z.shiftl ?a ?k) ?b] =>
      lazymatch b with context [Z.lor _ _] => fail | _ => rewrite (lor_shiftl_add a b k) by lia end
  end; lia.

Lemma PEEK_U16_val p : PEEK_U16 p = be_val 0 [u_char_at p 0; u_char_at p 1].
Proof. peek_val. Qed.
Lemma PEEK_U32_val p :
  PEEK_U32 p = be_val 0 [u_char_at p 0; u_char_at p 1; u_char_at p 2; u_char_at p 3].
Proof. peek_val. Qed.
Lemma PEEK_U64_val p :
  PEEK_U64 p = be_val 0 [u_char_at p 0; u_char_at p 1; u_char_at p 2; u_char_at p 3;
                         u_char_at p 4; u_char_at p 5; u_char_at p 6; u_char_at p 7].
Proof. peek_val. Qed.

Lemma POKE_U32_bytes v : POKE_U32 v = be_bytes 4 (u32 v).
Proof.
  unfold POKE_U32, be_bytes. cbn [app].
  rewrite !shiftr_land_255, land_255, !Z.div_div by lia. done.
Qed.
Lemma POKE_U16_bytes v : POKE_U16 v = be_bytes 2 (u16 v).
Proof. unfold POKE_U16, be_bytes. cbn [app]. rewrite !shiftr_land_255, land_255 by lia. done. Qed.
Lemma POKE_U64_bytes v : POKE_U64 v = be_bytes 8 (u64 v).
Proof.
  unfold POKE_U64, be_bytes. cbn [app].
  rewrite !shiftr_land_255, land_255, !Z.div_div by lia. done.
Qed.

Lemma u_char_at_id p i b : znth p i = b -> is_u8 b -> u_char_at p i = b.
Proof. unfold u_char_at. intros ->. apply u8_id. Qed.
Ltac peek_poke n v :=
  pose proof (be_bytes_u8 n v) as Hu; pose proof (be_val_bytes n v) as Hv;
  cbn [be_bytes app] in *; rewrite !Forall_cons in Hu; destruct_and!;
  unfold u_char_at, znth; cbv [Z.to_nat Pos.to_nat Pos.iter_op Nat.add nth];
  rewrite !u8_id by done; rewrite Hv; apply Z.mod_small.

Lemma PEEK_POKE_U32 v rest : PEEK_U32 (POKE_U32 v ++ rest) = u32 v.
Proof. rewrite POKE_U32_bytes, PEEK_U32_val. peek_poke 4%nat (u32 v). apply u32_range. Qed.
Lemma PEEK_POKE_U64 v rest : PEEK_U64 (POKE_U64 v ++ rest) = u64 v.
Proof. rewrite POKE_U64_bytes, PEEK_U64_val. peek_poke 8%nat (u64 v). apply u64_range. Qed.
Lemma PEEK_POKE_U16 v rest : PEEK_U16 (POKE_U16 v ++ rest) = u16 v.
Proof.
  rewrite POKE_U16_bytes, PEEK_U16_val. peek_poke 2%nat (u16 v). apply Z.mod_pos_bound. lia.
Qed.

Lemma zlen_POKE_U32 v : zlen (POKE_U32 v) = 4.
Proof. done. Qed.
Lemma zlen_POKE_U64 v : zlen (POKE_U64 v) = 8.
Proof. done. Qed.
Lemma zlen_POKE_U16 v : zlen (POKE_U16 v) = 2.
Proof. done. Qed.
#[export] Hint Rewrite zlen_POKE_U32 zlen_POKE_U64 zlen_POKE_U16 : zlist.

(** What the macros read is in range, whatever the block holds. *)
Lemma PEEK_U32_range l : 0 <= PEEK_U32 l < 2 ^ 32.
Proof.
  rewrite PEEK_U32_val. pose proof (be_val_range 0 [u_char_at l 0; u_char_at l 1; u_char_at l 2; u_char_at l 3]
    ltac:(lia) ltac:(repeat constructor; apply u8_is_u8)). unfold zlen in *. simpl in *. lia.
Qed.

Lemma znth_ztake i n l : 0 <= i < n -> znth (ztake n l) i = znth l i.
Proof.
  intros. unfold znth, ztake. rewrite nth_firstn.
  destruct (Nat.ltb_spec (Z.to_nat i) (Z.to_nat n)); [done|lia].
Qed.

(** Only the first four bytes matter. *)
Lemma PEEK_U32_ztake n l : 4 <= n -> PEEK_U32 (ztake n l) = PEEK_U32 l.
Proof.
  intros. unfold PEEK_U32, u_char_at. rewrite !znth_ztake by lia. done.
Qed.

(** ** What the operations do to the pending bytes *)

Lemma sanity_ok b : buf_wf b -> sshbuf_check_sanity b = 0.
Proof.
  intros [Hcd Hd Hr Ho Hs Ha Hm _]. unfold sshbuf_check_sanity.
  repeat match goal with
  | |- context [?x <? ?y] => rewrite (proj2 (Z.ltb_ge x y)) by lia
  end.
  rewrite (bool_decide_eq_false_2 (b_cd b = None)) by done.
  destruct (b_readonly b); simpl; [done|]. by rewrite bool_decide_eq_true_2 by auto.
Qed.

Lemma zlen_contents b : buf_wf b -> zlen (contents b) = b_size b - b_off b.
Proof. intros []. unfold contents. rewrite zlen_zslice; lia. Qed.

Lemma sshbuf_len_contents b : buf_wf b -> sshbuf_len b = zlen (contents b).
Proof. intros Hb. unfold sshbuf_len. by rewrite sanity_ok, zlen_contents. Qed.

Lemma sshbuf_ptr_contents b :
  buf_wf b -> sshbuf_ptr b = contents b ++ zdrop (b_size b) (b_mem b).
Proof.
  intros Hb. unfold sshbuf_ptr, contents, zslice. rewrite sanity_ok by done. simpl.
  rewrite <- (ztake_zdrop (b_size b - b_off b) (zdrop (b_off b) (b_mem b))) at 1.
  destruct Hb. rewrite zdrop_zdrop by lia. do 2 f_equal. lia.
Qed.

Lemma check_reserve_rw b len :
  buf_rw b -> 0 <= len ->
  sshbuf_check_reserve b len =
  if b_max_size b <? zlen (contents b) + len then SSH_ERR_NO_BUFFER_SPACE else 0.
Proof.
  intros [Hwf Hro Hrc] Hlen. unfold sshbuf_check_reserve.
  rewrite sanity_ok, Hro, Hrc, zlen_contents by done. simpl.
  destruct Hwf. destruct (Z.ltb_spec (b_max_size b) len); simpl;
    [|destruct (Z.ltb_spec (b_max_size b - len) (b_size b - b_off b))];
    destruct (Z.ltb_spec (b_max_size b) (b_size b - b_off b + len)); done || lia.
Qed.

Lemma pack_rw b force :
  buf_rw b ->
  let b' := sshbuf_maybe_pack b force in
  buf_rw b' /\ abs b' = abs b /\ b_alloc b' = b_alloc b /\ b_size b' <= b_size b /\
  (force = true -> b_off b' = 0).
Proof.
  intros Hb. pose proof Hb as [Hwf Hro Hrc]. unfold sshbuf_maybe_pack. rewrite Hro, Hrc. simpl.
  destruct (Z.eqb_spec (b_off b) 0) as [H0|H0]; simpl; [split_and!; done|].
  destruct (force || _) eqn:Hf; simpl; [|split_and!; by destruct force].
  pose proof (zlen_contents b Hwf) as Hc.
  destruct Hwf as [Hcd Hd Hr Ho Hs Ha Hm Hl]. unfold contents in Hc.
  assert (zlen (zwrite 0 (zslice (b_off b) (b_size b - b_off b) (b_mem b)) (b_mem b)) = b_alloc b)
    by (rewrite zlen_zwrite; lia).
  split_and!; try done; simpl; [| |lia].
  - repeat split; simpl; try done; lia.
  - unfold abs, contents. simpl. f_equal. unfold zslice at 1. rewrite zdrop_0, Z.sub_0_r by lia.
    rewrite <- Hc at 1. rewrite <- (Z.add_0_l (zlen _)). rewrite ztake_zwrite_end by lia.
    by rewrite ztake_0 by lia.
Qed.

Lemma recallocarray_ok `{Allocator} p m old new :
  zlen m = old -> 0 <= new -> forall q m', recallocarray (Some p) m old new = Some (q, m') ->
  zlen m' = new /\ ztake (Z.min old new) m' = ztake (Z.min old new) m.
Proof.
  intros Hm Hn q m'. unfold recallocarray. zlen_facts. destruct (_ && _ && _) eqn:Hc.
  - intros [= <- <-]. apply andb_prop in Hc as [[?%Z.leb_le ?]%andb_prop ?].
    rewrite zlen_ztake, ztake_ztake by lia. done.
  - destruct (heap_alloc new); simpl; [|done]. intros [= <- <-].
    destruct (Z.ltb_spec old new); simpl.
    + rewrite zlen_app, zlen_ztake, zlen_zfill, Z.min_l by lia. split; [lia|].
      rewrite ztake_app_l by (rewrite zlen_ztake; lia). by rewrite ztake_ztake by lia.
    + rewrite zlen_ztake, ztake_ztake by lia. done.
Qed.

Lemma recallocarray_fails `{Allocator} p m old new :
  recallocarray (Some p) m old new = None -> heap_alloc new = None.
Proof.
  unfold recallocarray. destruct (_ && _ && _); [done|]. by destruct (heap_alloc new).
Qed.

(** Moving the block keeps the pending bytes. *)
Lemma set_block_rw b p m new :
  buf_rw b -> b_size b <= new <= b_max_size b -> zlen m = new ->
  ztake (b_size b) m = ztake (b_size b) (b_mem b) ->
  buf_rw (set_block p m new b) /\ abs (set_block p m new b) = abs b.
Proof.
  intros [Hwf Hro Hrc] Hnew Hm Ht. destruct Hwf. split.
  - repeat split; simpl; try done; try lia.
  - unfold abs, contents. simpl. f_equal. unfold zslice.
    replace (b_size b - b_off b) with (b_size b - b_off b) by done.
    rewrite <- !zdrop_ztake by lia. by rewrite Ht.
Qed.

Lemma ROUNDUP_bounds x : 0 <= x < 2 ^ 63 -> x <= ROUNDUP x SSHBUF_SIZE_INC <= x + 255.
Proof.
  unfold ROUNDUP, SSHBUF_SIZE_INC. intros. rewrite (u64_id (x + (256 - 1))) by lia.
  rewrite u64_id; Z.div_mod_to_equations; lia.
Qed.

(** The block is moved to [rlen] bytes: enough, and within the maximum. *)
Lemma grow_rw `{Allocator} b rlen :
  buf_rw b -> b_size b <= rlen <= b_max_size b ->
  match recallocarray (b_d b) (b_mem b) (b_alloc b) rlen with
  | None => heap_alloc rlen = None
  | Some (p, m) => buf_rw (set_block p m rlen b) /\ abs (set_block p m rlen b) = abs b
  end.
Proof.
  intros Hb Hrlen. pose proof (rw_wf _ Hb) as Hwf.
  destruct (b_d b) as [q|] eqn:Hq.
  2:{ destruct Hwf as [Hcd Hd]. rewrite <- Hd in Hcd by apply Hb. done. }
  destruct (recallocarray (Some q) (b_mem b) (b_alloc b) rlen) as [[p m]|] eqn:Hre.
  2:{ by eapply recallocarray_fails. }
  destruct (recallocarray_ok q (b_mem b) (b_alloc b) rlen) with (q := p) (m' := m)
    as [Hml Hmt]; [apply Hwf|destruct Hwf; lia|done|].
  apply set_block_rw; [done..|].
  apply (f_equal (ztake (b_size b))) in Hmt. destruct Hwf. by rewrite !ztake_ztake in Hmt by lia.
Qed.

(** The size sshbuf_allocate asks for, without the wrap-around. *)
Lemma allocate_rlen b len :
  buf_wf b -> 0 <= len -> b_alloc b < len + b_size b <= b_max_size b ->
  let need := u64 (len + b_size b - b_alloc b) in
  let r := ROUNDUP (u64 (b_alloc b + need)) SSHBUF_SIZE_INC in
  len + b_size b <= (if b_max_size b <? r then u64 (b_alloc b + need) else r) <= b_max_size b.
Proof.
  intros [] Hlen Hr. unfold SSHBUF_SIZE_MAX in *. cbv zeta.
  rewrite (u64_id (len + b_size b - b_alloc b)) by lia.
  replace (b_alloc b + (len + b_size b - b_alloc b)) with (len + b_size b) by lia.
  rewrite (u64_id (len + b_size b)) by lia.
  pose proof (ROUNDUP_bounds (len + b_size b)).
  destruct (Z.ltb_spec (b_max_size b) (ROUNDUP (len + b_size b) SSHBUF_SIZE_INC)); lia.
Qed.

(** sshbuf_allocate finds room for [len] more bytes, or says why not. *)
Lemma allocate_rw `{Allocator} b len :
  buf_rw b -> 0 <= len < 2 ^ 62 ->
  let b' := snd (sshbuf_allocate len b) in
  buf_rw b' /\ abs b' = abs b /\
  match fst (sshbuf_allocate len b) with
  | inr _ => b_size b' + len <= b_alloc b'
  | inl r =>
      (r = SSH_ERR_NO_BUFFER_SPACE /\ b_max_size b < zlen (contents b) + len) \/
      (r = SSH_ERR_ALLOC_FAIL /\ exists n, 0 <= n <= SSHBUF_SIZE_MAX /\ heap_alloc n = None)
  end.
Proof.
  intros Hb Hlen. unfold sshbuf_allocate. rewrite check_reserve_rw by (done || lia).
  destruct (Z.ltb_spec (b_max_size b) (zlen (contents b) + len)) as [Hsp|Hsp]; simpl; [by auto|].
  destruct (pack_rw b (b_max_size b <? u64 (b_size b + len)) Hb) as (Hb1 & Habs & Hal & Hsz & Hf).
  set (b1 := sshbuf_maybe_pack b _) in *. clearbody b1.
  pose proof (rw_wf _ Hb) as Hwf. pose proof (rw_wf _ Hb1) as Hwf1.
  injection Habs as Hc1 Hm1.
  pose proof (zlen_contents _ Hwf1) as Hl1. rewrite Hc1 in Hl1.
  pose proof (wf_max _ Hwf1) as Hbig. unfold SSHBUF_SIZE_MAX in Hbig.
  assert (Hroom : b_size b1 + len <= b_max_size b1).
  { destruct Hwf, Hwf1. rewrite u64_id in Hf by (unfold SSHBUF_SIZE_MAX in *; lia).
    destruct (Z.ltb_spec (b_max_size b) (b_size b + len)); [specialize (Hf eq_refl)|]; lia. }
  rewrite (u64_id (len + b_size b1)) by (destruct Hwf1; lia).
  destruct (Z.leb_spec (len + b_size b1) (b_alloc b1)) as [Hfit|Hfit]; simpl.
  { split; [done|]. unfold abs. rewrite Hc1, Hm1. split; [done|]. lia. }
  pose proof (allocate_rlen b1 len Hwf1 ltac:(lia) ltac:(lia)) as Hrlen.
  cbv zeta in Hrlen. set (rlen := if _ <? _ then _ else _) in *. clearbody rlen.
  pose proof (grow_rw b1 rlen Hb1 ltac:(lia)) as Hgrow.
  destruct (recallocarray _ _ _ rlen) as [[p m]|]; simpl.
  - destruct Hgrow as [Hb2 Habs2]. rewrite check_reserve_rw by (done || lia).
    injection Habs2 as Hc2. assert (Hm2 : b_max_size (set_block p m rlen b1) = b_max_size b1) by done.
    rewrite Hc2, Hm2, Hc1, Hm1.
    destruct (Z.ltb_spec (b_max_size b) (zlen (contents b) + len)); [lia|]. simpl.
    split; [done|]. unfold abs. rewrite Hc2, Hm2, Hc1, Hm1. split; [done|]. lia.
  - unfold abs. rewrite Hc1, Hm1. split; [done|]. split; [done|]. right. split; [done|].
    exists rlen. split; [destruct Hwf1; unfold SSHBUF_SIZE_MAX; lia|done].
Qed.

(** [m] appends [data] to the pending bytes, or fails for one of the two
    reasons there are and leaves them alone. *)
Definition Puts `{Allocator} (m : SE sshbuf Z ()) (data : list Z) : Prop :=
  forall b, buf_rw b ->
    let b' := snd (m b) in
    buf_rw b' /\
    match fst (m b) with
    | inr _ => abs b' = mk_abuf (contents b ++ data) (b_max_size b)
    | inl r =>
        abs b' = abs b /\
        ((r = SSH_ERR_NO_BUFFER_SPACE /\ b_max_size b < zlen (contents b) + zlen data) \/
         (r = SSH_ERR_ALLOC_FAIL /\ exists n, 0 <= n <= SSHBUF_SIZE_MAX /\ heap_alloc n = None))
    end.

(** The room sshbuf_reserve hands out is filled by [w]. *)
Lemma Puts_reserve `{Allocator} (w : Z -> SE sshbuf Z ()) data :
  zlen data < 2 ^ 62 ->
  (forall b p, 0 <= p -> p + zlen data <= zlen (b_mem b) ->
     w p b = (inr tt, set_mem (zwrite p data (b_mem b)) b)) ->
  Puts (p ← sshbuf_reserve (zlen data); w p) data.
Proof.
  intros Hlen Hw b Hb. pose proof (zlen_nonneg data) as Hd.
  pose proof (allocate_rw b (zlen data) Hb ltac:(lia)) as (Hb1 & Habs & Hr).
  unfold sshbuf_reserve, mbind, SE_bind. destruct (sshbuf_allocate _ b) as [[r|[]] b1]; simpl in *.
  { done. }
  pose proof (rw_wf _ Hb1) as Hwf. injection Habs as Hc Hm.
  rewrite u64_id by (destruct Hwf; unfold SSHBUF_SIZE_MAX in *; lia).
  rewrite Hw by (simpl; destruct Hwf; lia). simpl.
  assert (Hl : zlen (zwrite (b_size b1) data (b_mem b1)) = b_alloc b1)
    by (destruct Hwf; rewrite zlen_zwrite; lia).
  split; [destruct Hb1, Hwf; repeat split; simpl; try done; lia|].
  unfold abs. rewrite <- Hm. f_equal. rewrite <- Hc. unfold contents, zslice. simpl.
  destruct Hwf. rewrite <- !zdrop_ztake by lia. rewrite ztake_zwrite_end by lia.
  rewrite zdrop_app_l by (rewrite zlen_ztake; lia). done.
Qed.

Lemma Puts_refines `{AllocTotal} m data : Puts m data -> Refines m (a_put data).
Proof.
  intros Hm b Hb. destruct (Hm b Hb) as [Hb' Hr]. unfold a_put. simpl.
  pose proof (zlen_contents _ (rw_wf _ Hb')) as Hl.
  destruct (m b) as [[r|[]] b']; simpl in *.
  - destruct Hr as [Habs [[-> Hs]|[_ (n & Hn & HN)]]].
    + rewrite (proj2 (Z.ltb_lt _ _)) by done. done.
    + destruct (alloc_total n Hn) as [? Hs]. by rewrite Hs in HN.
  - injection Hr as Hc Hm'. rewrite Hc, zlen_app in Hl.
    destruct (rw_wf _ Hb'). rewrite (proj2 (Z.ltb_ge _ _)) by lia.
    unfold abs. simpl. by rewrite Hc, Hm'.
Qed.

Lemma Puts_preserves `{Allocator} m data : Puts m data -> preserves buf_rw m.
Proof. intros Hm b Hb. apply Hm, Hb. Qed.

Lemma zwrite_adjacent {A} p (x y l : list A) :
  0 <= p -> p + zlen x + zlen y <= zlen l ->
  zwrite (p + zlen x) y (zwrite p x l) = zwrite p (x ++ y) l.
Proof.
  intros Hp Hl. pose proof (zlen_nonneg x). pose proof (zlen_nonneg y).
  unfold zwrite at 1. rewrite ztake_zwrite_end by lia.
  unfold zwrite. rewrite zlen_app, <- !app_assoc. do 3 f_equal.
  rewrite zdrop_app_r by (rewrite zlen_ztake; lia). rewrite zlen_ztake by lia.
  rewrite zdrop_app_r by lia. rewrite zdrop_zdrop by lia. f_equal. lia.
Qed.

Section puts.
Context `{Allocator}.

Lemma Puts_poke data n : zlen data = n -> n < 2 ^ 62 ->
  Puts (p ← sshbuf_reserve n; poke p data) data.
Proof. intros <- ?. by apply Puts_reserve. Qed.

Lemma Puts_u8 v : Puts (sshbuf_put_u8 v) [u8 v].
Proof. by apply Puts_poke. Qed.
Lemma Puts_u16 v : Puts (sshbuf_put_u16 v) (POKE_U16 v).
Proof. by apply Puts_poke. Qed.
Lemma Puts_u32 v : Puts (sshbuf_put_u32 v) (POKE_U32 v).
Proof. by apply Puts_poke. Qed.
Lemma Puts_u64 v : Puts (sshbuf_put_u64 v) (POKE_U64 v).
Proof. by apply Puts_poke. Qed.

Lemma zwrite_nil {A} p (l : list A) : 0 <= p -> zwrite p [] l = l.
Proof. intros. unfold zwrite. rewrite zlen_nil, Z.add_0_r. apply ztake_zdrop. Qed.

Lemma Puts_put v len :
  0 <= len < 2 ^ 62 -> len <= zlen v -> Puts (sshbuf_put v len) (ztake len v).
Proof.
  intros Hl Hv. unfold sshbuf_put.
  assert (Hz : zlen (ztake len v) = len) by (rewrite zlen_ztake; lia).
  rewrite <- Hz at 1. apply Puts_reserve; [lia|]. intros b p Hp Hb.
  unfold truthy. destruct (Z.eqb_spec len 0) as [->|]; simpl; [|done].
  rewrite (ztake_0 0) by lia. rewrite zwrite_nil by done. by destruct b.
Qed.

Lemma Puts_string v len :
  0 <= len <= zlen v -> Puts (sshbuf_put_string v len) (POKE_U32 len ++ ztake len v).
Proof.
  intros Hl. unfold sshbuf_put_string. destruct (Z.ltb_spec (SSHBUF_SIZE_MAX - 4) len) as [Hbig|Hbig].
  { intros b Hb. simpl. split; [done|]. split; [done|]. left. split; [done|].
    pose proof (wf_max _ (rw_wf _ Hb)). zlia. }
  assert (Hz : zlen (POKE_U32 len ++ ztake len v) = len + 4) by zlia.
  rewrite <- Hz at 1. apply Puts_reserve; [unfold SSHBUF_SIZE_MAX in *; lia|].
  intros b p Hp Hb. unfold mbind, SE_bind, poke, when, truthy, modify.
  destruct (Z.eqb_spec len 0) as [->|]; cbn [negb].
  - by rewrite (ztake_0 0), app_nil_r by lia.
  - change (p + 4) with (p + zlen (POKE_U32 len)). unfold set_mem. simpl.
    rewrite zwrite_adjacent by zlia. done.
Qed.

Lemma Puts_cstring s : Puts (sshbuf_put_cstring (Some s)) (POKE_U32 (zlen (cstr s)) ++ cstr s).
Proof.
  pose proof (Puts_string (cstr s) (zlen (cstr s)) ltac:(zlia)) as Hp.
  by rewrite ztake_all in Hp by lia.
Qed.

Lemma Puts_stringb v :
  buf_wf v -> Puts (sshbuf_put_stringb v) (POKE_U32 (zlen (contents v)) ++ contents v).
Proof.
  intros Hv. unfold sshbuf_put_stringb. rewrite sshbuf_len_contents, sshbuf_ptr_contents by done.
  pose proof (Puts_string (contents v ++ zdrop (b_size v) (b_mem v)) (zlen (contents v))
    ltac:(zlia)) as Hp.
  by rewrite ztake_app_exact in Hp by done.
Qed.
End puts.

Lemma set_off_size_rw b off size :
  buf_rw b -> 0 <= off <= size -> size <= b_alloc b -> buf_rw (set_off_size off size b).
Proof. intros [[] ? ?] ??. repeat split; simpl; try done; lia. Qed.

Lemma consume_rw b n :
  buf_rw b -> 0 <= n ->
  sshbuf_consume n b =
    (if zlen (contents b) <? n then (inl SSH_ERR_MESSAGE_INCOMPLETE, b)
     else (inr tt, snd (sshbuf_consume n b))) /\
  (n <= zlen (contents b) ->
   buf_rw (snd (sshbuf_consume n b)) /\
   abs (snd (sshbuf_consume n b)) = mk_abuf (zdrop n (contents b)) (b_max_size b)).
Proof.
  intros Hb Hn. pose proof (rw_wf _ Hb) as Hwf. pose proof (zlen_contents _ Hwf) as Hl.
  pose proof (zlen_nonneg (contents b)). unfold sshbuf_consume. rewrite sanity_ok, sshbuf_len_contents by done. simpl.
  destruct (Z.eqb_spec n 0) as [->|Hn0].
  { rewrite (proj2 (Z.ltb_ge _ _)) by lia. split; [done|]. intros _. split; [done|].
    by rewrite zdrop_0 by lia. }
  destruct (Z.ltb_spec (zlen (contents b)) n); [split; [done|lia]|]. split; [done|]. intros _.
  destruct Hwf. simpl. destruct (Z.eqb_spec (b_off b + n) (b_size b)) as [He|He].
  - split; [apply set_off_size_rw; lia || done|]. unfold abs. simpl. f_equal.
    rewrite (zdrop_all n) by lia. unfold contents. simpl. by apply ztake_0.
  - split; [apply set_off_size_rw; lia || done|]. unfold abs, contents. simpl. f_equal.
    unfold zslice. rewrite zdrop_ztake, zdrop_zdrop by lia. f_equal. lia.
Qed.

(** A reader that looks at the first [n] bytes and consumes them. *)
Lemma Refines_read {A} n (f : list Z -> A) :
  0 <= n -> (forall p, f (ztake n p) = f p) ->
  Refines (p ← gets sshbuf_ptr; _ ← sshbuf_consume n; mret (f p))
          (l ← a_take n; mret (f l)).
Proof.
  intros Hn Hf b Hb. destruct (consume_rw b n Hb Hn) as [Hc Ha].
  unfold mbind, SE_bind, a_take. simpl. destruct (Z.ltb_spec (zlen (contents b)) n).
  { rewrite Hc. done. }
  destruct (Ha ltac:(lia)) as [Hb' Habs]. rewrite Hc. simpl. split_and!; [|done..].
  rewrite <- (Hf (sshbuf_ptr b)), sshbuf_ptr_contents by apply Hb. by rewrite ztake_app_l by lia.
Qed.

Lemma u_char_at_ztake n l i : 0 <= i < n -> u_char_at (ztake n l) i = u_char_at l i.
Proof. intros. unfold u_char_at. by rewrite znth_ztake. Qed.

Lemma Refines_get_u8 : Refines sshbuf_get_u8 (l ← a_take 1; mret (znth l 0)).
Proof. apply (Refines_read 1 (fun l => znth l 0)); [lia|]. intros. by rewrite znth_ztake. Qed.
Lemma Refines_get_u16 : Refines sshbuf_get_u16 (l ← a_take 2; mret (PEEK_U16 l)).
Proof. apply Refines_read; [lia|]. intros. unfold PEEK_U16. by rewrite !u_char_at_ztake. Qed.
Lemma Refines_get_u32 : Refines sshbuf_get_u32 (l ← a_take 4; mret (PEEK_U32 l)).
Proof. apply Refines_read; [lia|]. intros. by apply PEEK_U32_ztake. Qed.
Lemma Refines_get_u64 : Refines sshbuf_get_u64 (l ← a_take 8; mret (PEEK_U64 l)).
Proof. apply Refines_read; [lia|]. intros. unfold PEEK_U64. by rewrite !u_char_at_ztake. Qed.
Lemma Refines_get n : 0 <= n -> Refines (sshbuf_get n) (a_take n).
Proof.
  intros Hn. eapply Refines_ext.
  - apply (Refines_read n (ztake n)); [done|]. intros. by rewrite ztake_ztake by lia.
  - intros b Hb. unfold mbind, SE_bind, a_take. simpl. destruct (_ <? _); [done|].
    simpl. by rewrite ztake_ztake by lia.
Qed.

(** A pointer and a length that delimit the bytes [s]. *)
Definition delimits (r : Z + (list Z * Z)) (r' : Z + list Z) : Prop :=
  match r, r' with
  | inl e, inl e' => e = e'
  | inr (p, len), inr s => s = ztake len p /\ len = zlen s /\ 0 <= len <= SSHBUF_SIZE_MAX - 4
  | _, _ => False
  end.

Lemma peek_string_rw b :
  buf_rw b -> delimits (sshbuf_peek_string_direct b) (fst (a_get_string (abs b))).
Proof.
  intros Hb. pose proof (rw_wf _ Hb) as Hwf.
  unfold sshbuf_peek_string_direct, a_get_string. rewrite sshbuf_len_contents by done. simpl.
  destruct (Z.ltb_spec (zlen (contents b)) 4) as [|H4]; [done|].
  assert (Hp : PEEK_U32 (sshbuf_ptr b) = PEEK_U32 (contents b)).
  { rewrite sshbuf_ptr_contents by done.
    rewrite <- (PEEK_U32_ztake 4), ztake_app_l, PEEK_U32_ztake; lia || done. }
  rewrite Hp. pose proof (PEEK_U32_range (contents b)).
  destruct (Z.ltb_spec (SSHBUF_SIZE_MAX - 4) (PEEK_U32 (contents b))); [done|].
  destruct (Z.ltb_spec (zlen (contents b) - 4) (PEEK_U32 (contents b))); [done|]. simpl.
  rewrite sshbuf_ptr_contents by done. unfold zslice. rewrite zdrop_app_l by lia.
  rewrite ztake_app_l by (rewrite zlen_zdrop; lia). split; [done|]. rewrite zlen_ztake; [lia|].
  rewrite zlen_zdrop; lia.
Qed.

Lemma get_string_direct_rw b :
  buf_rw b ->
  let o := sshbuf_get_string_direct b in
  let a := a_get_string (abs b) in
  delimits (fst o) (fst a) /\ abs (snd o) = snd a /\ buf_rw (snd o).
Proof.
  intros Hb. pose proof (peek_string_rw b Hb) as Hp. unfold sshbuf_get_string_direct.
  unfold a_get_string in *. simpl in *.
  destruct (Z.ltb_spec (zlen (contents b)) 4); simpl in *.
  { by destruct (sshbuf_peek_string_direct b) as [|[]]; simpl in *. }
  destruct (Z.ltb_spec (SSHBUF_SIZE_MAX - 4) (PEEK_U32 (contents b))); simpl in *.
  { by destruct (sshbuf_peek_string_direct b) as [|[]]; simpl in *. }
  destruct (Z.ltb_spec (zlen (contents b) - 4) (PEEK_U32 (contents b))); simpl in *.
  { by destruct (sshbuf_peek_string_direct b) as [|[]]; simpl in *. }
  destruct (sshbuf_peek_string_direct b) as [|[p len]]; simpl in *; [done|].
  destruct Hp as (Hs & Hlen & Hr). pose proof (PEEK_U32_range (contents b)).
  assert (Hl : len = PEEK_U32 (contents b)) by (rewrite Hlen, zlen_zslice; lia).
  destruct (consume_rw b (len + 4) Hb ltac:(lia)) as [Heq Hc]. rewrite Heq.
  rewrite (proj2 (Z.ltb_ge _ _)) by lia. simpl. destruct Hc as [Hb' ->]; [lia|].
  split; [exact (conj Hs (conj Hlen Hr))|]. split; [|done]. do 2 f_equal. lia.
Qed.

Lemma delimits_copy `{AllocTotal} p len s b :
  delimits (inr (p, len)) (inr s) -> malloc_copy p len b = (inr s, b).
Proof.
  intros (-> & Hl & Hr). unfold malloc_copy.
  destruct (alloc_total (len + 1)) as [q ->]; [lia|]. done.
Qed.

Lemma Refines_get_string `{AllocTotal} : Refines sshbuf_get_string a_get_string.
Proof.
  intros b Hb. destruct (get_string_direct_rw b Hb) as (Hd & Ha & Hb').
  unfold sshbuf_get_string, mbind, SE_bind.
  destruct (sshbuf_get_string_direct b) as [[r|[p len]] b1]; simpl in *;
    destruct (fst (a_get_string (abs b))) as [r'|s] eqn:Hf; try done.
  - simpl in Hd. by subst.
  - by rewrite (delimits_copy p len s).
Qed.

(** memchr finds a zero before the last byte exactly when one is there. *)
Lemma memchr0_spec l :
  match memchr0 l with
  | Some i => 0 <= i < zlen l /\ cstr l = ztake i l
  | None => cstr l = l
  end.
Proof.
  induction l as [|b l IH]; simpl; [done|].
  destruct (Z.eqb_spec b 0); simpl; [rewrite zlen_cons; zlen_facts; split; [lia|done]|].
  destruct (memchr0 l) as [i|]; simpl.
  - destruct IH as [Hi ->]. rewrite zlen_cons. split; [lia|].
    unfold ztake. by replace (Z.to_nat (1 + i)) with (S (Z.to_nat i)) by lia.
  - by rewrite IH.
Qed.

(** sshbuf_get_cstring: a string with no zero byte but possibly its last. *)
Definition a_get_cstring : SE abuf Z (list Z) := fun a =>
  match a_get_string a with
  | (inl r, a') => (inl r, a')
  | (inr s, a') =>
      if zlen (cstr s) <? zlen s - 1 then (inl SSH_ERR_INVALID_FORMAT, a) else (inr s, a')
  end.

Lemma nul_inside_cstr s :
  (0 <? zlen s) && match memchr0 s with Some z => z <? zlen s - 1 | None => false end
  = (zlen (cstr s) <? zlen s - 1).
Proof.
  pose proof (memchr0_spec s) as Hm. pose proof (zlen_nonneg s). destruct (memchr0 s) as [i|].
  - destruct Hm as [Hi ->]. rewrite zlen_ztake by lia.
    by rewrite (proj2 (Z.ltb_lt 0 (zlen s))) by lia.
  - rewrite Hm, andb_false_r. symmetry. apply Z.ltb_ge. lia.
Qed.

Lemma Refines_get_cstring `{AllocTotal} : Refines sshbuf_get_cstring a_get_cstring.
Proof.
  intros b Hb. pose proof (peek_string_rw b Hb) as Hp.
  destruct (get_string_direct_rw b Hb) as (Hd & Ha & Hb').
  unfold sshbuf_get_cstring, a_get_cstring, sshbuf_skip_string, mbind, SE_bind.
  assert (Herr : forall r, fst (a_get_string (abs b)) = inl r -> snd (a_get_string (abs b)) = abs b).
  { intros r. unfold a_get_string. by repeat case_match. }
  destruct (a_get_string (abs b)) as [[r|s] a'];
    destruct (sshbuf_peek_string_direct b) as [|[p len]]; simpl in *; try done.
  { subst. by rewrite (Herr _ eq_refl). }
  destruct Hp as (Hs & -> & Hr). rewrite <- nul_inside_cstr, <- Hs.
  destruct ((0 <? zlen s) && _); simpl; [done|].
  destruct (sshbuf_get_string_direct b) as [[r'|[p' len']] b1]; simpl in *; [done|].
  by rewrite (delimits_copy p (zlen s) s) by exact (conj Hs (conj eq_refl Hr)).
Qed.

(** ** The invariant under every operation, whatever the allocator does *)

Lemma consume_preserves n : 0 <= n -> preserves buf_rw (sshbuf_consume n).
Proof.
  intros Hn b Hb. destruct (consume_rw b n Hb Hn) as [Heq Hc].
  destruct (Z.ltb_spec (zlen (contents b)) n); [by rewrite Heq|]. by apply Hc.
Qed.

Lemma read_preserves {A} n (f : list Z -> A) :
  0 <= n -> preserves buf_rw (p ← gets sshbuf_ptr; _ ← sshbuf_consume n; mret (f p)).
Proof. intros. preserve. by apply consume_preserves. Qed.

Lemma get_string_direct_preserves : preserves buf_rw sshbuf_get_string_direct.
Proof. intros b Hb. by apply get_string_direct_rw. Qed.

Lemma malloc_copy_preserves `{Allocator} p len : preserves buf_rw (malloc_copy p len).
Proof. unfold malloc_copy. preserve. Qed.

Lemma get_string_preserves `{Allocator} : preserves buf_rw sshbuf_get_string.
Proof.
  apply preserves_bind; [apply get_string_direct_preserves|].
  intros [p len]. apply malloc_copy_preserves.
Qed.

Lemma get_cstring_preserves `{Allocator} : preserves buf_rw sshbuf_get_cstring.
Proof.
  intros b Hb. unfold sshbuf_get_cstring.
  destruct (sshbuf_peek_string_direct b) as [r|[p len]]; [done|].
  destruct ((0 <? len) && _); [done|].
  pose proof (preserves_bind buf_rw _ (fun _ => mret tt : SE sshbuf Z ())
    get_string_direct_preserves (fun _ => preserves_ret _ _) b Hb) as Hs.
  fold sshbuf_skip_string in Hs.
  destruct (sshbuf_skip_string b) as [[r|[]] b']; simpl in *; [done|].
  by apply malloc_copy_preserves.
Qed.

Lemma sshbuf_new_total `{AllocTotal} : is_Some sshbuf_new.
Proof.
  unfold sshbuf_new. destruct (alloc_total sizeof_sshbuf) as [? ->]; [unfold sizeof_sshbuf, SSHBUF_SIZE_MAX; lia|].
  destruct (alloc_total SSHBUF_SIZE_INIT) as [? ->]; [unfold SSHBUF_SIZE_INIT, SSHBUF_SIZE_MAX; lia|]. by eexists.
Qed.
Lemma sshbuf_new_rw `{Allocator} b :
  sshbuf_new = Some b -> buf_rw b /\ abs b = mk_abuf [] SSHBUF_SIZE_MAX.
Proof.
  unfold sshbuf_new. destruct (heap_alloc sizeof_sshbuf); simpl; [|done]. destruct (heap_alloc _) as [p|]; simpl; [|done]. intros [= <-].
  split; [|done]. repeat split; simpl; try done; unfold SSHBUF_REFS_MAX, SSHBUF_SIZE_MAX; lia.
Qed.

(** sshbuf_reset empties a buffer whose maximum is at least the initial size. *)
Lemma reset_rw `{Allocator} b :
  is_Some (heap_alloc SSHBUF_SIZE_INIT) -> buf_rw b -> SSHBUF_SIZE_INIT <= b_max_size b ->
  buf_rw (sshbuf_reset b) /\ abs (sshbuf_reset b) = mk_abuf [] (b_max_size b).
Proof.
  intros [q Hq] Hb Hmax. pose proof Hb as [Hwf Hro Hrc]. unfold sshbuf_reset. rewrite Hro, Hrc.
  cbn [orb]. replace (1 <? 1) with false by done.
  pose proof (set_off_size_rw b 0 0 Hb ltac:(lia) ltac:(destruct Hwf; lia)) as Hb0.
  set (b0 := set_off_size 0 0 b) in *.
  assert (H0 : b_size b0 = 0 /\ b_off b0 = 0 /\ b_max_size b0 = b_max_size b) by done.
  clearbody b0. destruct H0 as (Hs0 & Ho0 & Hm0).
  set (b1 := if _ =? _ then b0 else _).
  assert (Hb1 : buf_rw b1 /\ b_size b1 = 0 /\ b_off b1 = 0 /\ b_max_size b1 = b_max_size b /\
                b_alloc b1 = SSHBUF_SIZE_INIT).
  { subst b1. destruct (Z.eqb_spec (b_alloc b0) SSHBUF_SIZE_INIT); [done|].
    pose proof (grow_rw b0 SSHBUF_SIZE_INIT Hb0) as Hg.
    unfold SSHBUF_SIZE_INIT in *. specialize (Hg ltac:(lia)).
    destruct (recallocarray _ _ _ _) as [[p m]|]; [|congruence]. by destruct Hg. }
  clearbody b1. destruct Hb1 as ([Hwf1 Hro1 Hrc1] & Hs1 & Ho1 & Hm1 & Ha1). destruct Hwf1.
  assert (zlen (zwrite 0 (zfill SSHBUF_SIZE_INIT) (b_mem b1)) = b_alloc b1)
    by (rewrite zlen_zwrite; rewrite ?zlen_zfill; unfold SSHBUF_SIZE_INIT in *; lia).
  split; [repeat split; simpl; try done; lia|].
  unfold abs, contents. simpl. rewrite Hs1, Ho1, Hm1. done.
Qed.

(** ** Runs of operations

    The operations the server performs on its buffers, as data, with the
    concrete and the abstract execution of each. *)

Inductive buf_op :=
  | PutU8 (v : Z) | PutU16 (v : Z) | PutU32 (v : Z) | PutU64 (v : Z)
  | Put (v : list Z) | PutString (v : list Z) | PutCString (v : list Z)
  | GetU8 | GetU16 | GetU32 | GetU64 | GetString | GetCString | Get (n : N)
  | Consume (n : N) | Reset.

Inductive buf_val := VUnit | VInt (z : Z) | VBytes (l : list Z).

Definition vmap {S A} (f : A -> buf_val) (m : SE S Z A) : SE S Z buf_val := x ← m; mret (f x).
Definition vunit (_ : ()) : buf_val := VUnit.

Definition exec_op `{Allocator} (o : buf_op) : SE sshbuf Z buf_val :=
  match o with
  | PutU8 v => vmap vunit (sshbuf_put_u8 v)
  | PutU16 v => vmap vunit (sshbuf_put_u16 v)
  | PutU32 v => vmap vunit (sshbuf_put_u32 v)
  | PutU64 v => vmap vunit (sshbuf_put_u64 v)
  | Put v => vmap vunit (sshbuf_put v (zlen v))
  | PutString v => vmap vunit (sshbuf_put_string v (zlen v))
  | PutCString v => vmap vunit (sshbuf_put_cstring (Some v))
  | GetU8 => vmap VInt sshbuf_get_u8
  | GetU16 => vmap VInt sshbuf_get_u16
  | GetU32 => vmap VInt sshbuf_get_u32
  | GetU64 => vmap VInt sshbuf_get_u64
  | GetString => vmap VBytes sshbuf_get_string
  | GetCString => vmap VBytes sshbuf_get_cstring
  | Get n => vmap VBytes (sshbuf_get (Z.of_N n))
  | Consume n => vmap vunit (sshbuf_consume (Z.of_N n))
  | Reset => vmap vunit (modify sshbuf_reset)
  end.

Definition spec_op (o : buf_op) : SE abuf Z buf_val :=
  match o with
  | PutU8 v => vmap vunit (a_put [u8 v])
  | PutU16 v => vmap vunit (a_put (POKE_U16 v))
  | PutU32 v => vmap vunit (a_put (POKE_U32 v))
  | PutU64 v => vmap vunit (a_put (POKE_U64 v))
  | Put v => vmap vunit (a_put v)
  | PutString v => vmap vunit (a_put (POKE_U32 (zlen v) ++ v))
  | PutCString v => vmap vunit (a_put (POKE_U32 (zlen (cstr v)) ++ cstr v))
  | GetU8 => vmap VInt (l ← a_take 1; mret (znth l 0))
  | GetU16 => vmap VInt (l ← a_take 2; mret (PEEK_U16 l))
  | GetU32 => vmap VInt (l ← a_take 4; mret (PEEK_U32 l))
  | GetU64 => vmap VInt (l ← a_take 8; mret (PEEK_U64 l))
  | GetString => vmap VBytes a_get_string
  | GetCString => vmap VBytes a_get_cstring
  | Get n => vmap VBytes (a_take (Z.of_N n))
  | Consume n => vmap vunit (_ ← a_take (Z.of_N n); mret tt)
  | Reset => vmap vunit (modify (fun a => mk_abuf [] (cap a)))
  end.

(** A raw put is limited by the address space. *)
Definition op_ok (o : buf_op) : Prop :=
  match o with Put v => zlen v < 2 ^ 62 | _ => True end.

(** Every operation of a run is executed; its code or value is recorded. *)
Fixpoint run_ops {S} (exec : buf_op -> SE S Z buf_val) (ops : list buf_op) (s : S)
    : list (Z + buf_val) * S :=
  match ops with
  | [] => ([], s)
  | o :: ops' =>
      let '(r, s') := exec o s in
      let '(rs, s'') := run_ops exec ops' s' in (r :: rs, s'')
  end.

Lemma Refines_vmap {A} (f : A -> buf_val) m a : Refines m a -> Refines (vmap f m) (vmap f a).
Proof. intros Hm. apply Refines_bind; [done|]. intros. apply Refines_ret. Qed.

Lemma Refines_consume n : 0 <= n -> Refines (sshbuf_consume n) (_ ← a_take n; mret tt).
Proof.
  intros Hn b Hb. pose proof (Refines_read n (fun _ => tt) Hn ltac:(done) b Hb) as Hr.
  assert (Heq : (p ← gets sshbuf_ptr; _ ← sshbuf_consume n; mret ((fun _ : list Z => tt) p)) b
                = sshbuf_consume n b).
  { unfold mbind, SE_bind. simpl. by destruct (sshbuf_consume n b) as [[r|[]] b']. }
  cbv beta in *. by rewrite Heq in Hr.
Qed.

Create HintDb refines.
Create HintDb codec.
#[export] Hint Resolve Puts_refines Puts_u8 Puts_u16 Puts_u32 Puts_u64 Puts_cstring
  Refines_get_u8 Refines_get_u16 Refines_get_u32 Refines_get_u64 Refines_get_string
  Refines_get_cstring Refines_vmap Refines_ret Refines_throw : refines.

(** A buffer of at least the initial size, as the server makes them. *)
Definition std (b : sshbuf) : Prop := buf_rw b /\ SSHBUF_SIZE_INIT <= b_max_size b.

Lemma a_put_cap c data : preserves (fun a => cap a = c) (a_put data).
Proof. intros a Ha. unfold a_put. by destruct (_ <? _). Qed.
Lemma a_take_cap c n : preserves (fun a => cap a = c) (a_take n).
Proof. intros a Ha. unfold a_take. by destruct (_ <? _). Qed.
Lemma a_get_string_cap c : preserves (fun a => cap a = c) a_get_string.
Proof. intros a Ha. unfold a_get_string. by repeat destruct (_ <? _). Qed.
Lemma a_get_cstring_cap c : preserves (fun a => cap a = c) a_get_cstring.
Proof.
  intros a Ha. pose proof (a_get_string_cap c a Ha) as H. unfold a_get_cstring.
  destruct (a_get_string a) as [[r|s] a']; [done|]. by destruct (_ <? _).
Qed.
#[local] Hint Resolve a_put_cap a_take_cap a_get_string_cap a_get_cstring_cap : inv.

Lemma a_cap o a : cap (snd (spec_op o a)) = cap a.
Proof.
  enough (preserves (fun a' => cap a' = cap a) (spec_op o)) as Hp by (by apply Hp).
  destruct o; simpl; unfold vmap; preserve. by apply preserves_modify.
Qed.

Lemma exec_op_refines `{AllocTotal} o b :
  op_ok o -> std b ->
  fst (exec_op o b) = fst (spec_op o (abs b)) /\ abs (snd (exec_op o b)) = snd (spec_op o (abs b)) /\
  buf_rw (snd (exec_op o b)).
Proof.
  intros Ho [Hb Hmax].
  destruct o as [| | | |v|v| | | | | | | |n|n|];
    try solve [apply Refines_vmap; [eauto with refines|done]].
  - apply Refines_vmap; [|done]. apply Puts_refines. simpl in Ho. pose proof (zlen_nonneg v).
    pose proof (Puts_put v (zlen v) ltac:(lia) ltac:(lia)) as Hp. by rewrite ztake_all in Hp by lia.
  - apply Refines_vmap; [|done]. apply Puts_refines. pose proof (zlen_nonneg v).
    pose proof (Puts_string v (zlen v) ltac:(lia)) as Hp. by rewrite ztake_all in Hp by lia.
  - apply Refines_vmap; [|done]. apply Refines_get. lia.
  - apply Refines_vmap; [|done]. apply Refines_consume. lia.
  - destruct (reset_rw b (alloc_total SSHBUF_SIZE_INIT ltac:(done)) Hb Hmax) as [Hb' Ha].
    split; [done|]. split; [exact Ha|exact Hb'].
Qed.

Lemma run_ops_sim `{AllocTotal} ops b :
  Forall op_ok ops -> std b ->
  fst (run_ops exec_op ops b) = fst (run_ops spec_op ops (abs b)) /\
  abs (snd (run_ops exec_op ops b)) = snd (run_ops spec_op ops (abs b)) /\
  buf_rw (snd (run_ops exec_op ops b)).
Proof.
  intros Hops. revert b. induction Hops as [|o ops Ho Hops IH]; intros b Hb; simpl.
  { by destruct Hb. }
  destruct (exec_op_refines o b Ho Hb) as (Hr & Ha & Hrw).
  pose proof (a_cap o (abs b)) as Hcap. rewrite <- Ha in Hcap. simpl in Hcap.
  assert (Hb' : std (snd (exec_op o b))) by (destruct Hb; split; [done|lia]).
  destruct (IH _ Hb') as (IHr & IHa & IHw).
  destruct (exec_op o b) as [r b'], (spec_op o (abs b)) as [r' a']. simpl in *. subst.
  destruct (run_ops exec_op ops b') as [rs b''].
  destruct (run_ops spec_op ops (abs b')) as [rs' a'']. simpl in *. by subst.
Qed.

(** ** Codes the operations never return

    A sane buffer never reaches the "shouldn't happen" branches. *)

Definition rw_max (c : Z) (b : sshbuf) : Prop := buf_rw b /\ b_max_size b = c.
Definition no_internal {A} (m : SE sshbuf Z A) : Prop :=
  forall c, spec (rw_max c) m (fun r b => r <> inl SSH_ERR_INTERNAL_ERROR /\ rw_max c b).

Lemma no_internal_bind {A B} (m : SE sshbuf Z A) (k : A -> SE sshbuf Z B) :
  no_internal m -> (forall a, no_internal (k a)) -> no_internal (m ≫= k).
Proof.
  intros Hm Hk c. apply (spec_bind _ _ _ _ _ (Hm c)).
  - intros e s [He Hs]. split; [|done]. contradict He. by simplify_eq.
  - intros a. apply (spec_mono _ (rw_max c) _ _ _ (Hk a c)); [|done]. by intros s [_ Hs].
Qed.
Lemma no_internal_ret {A} (a : A) : no_internal (mret a).
Proof. by intros c b Hb. Qed.

Lemma Puts_no_internal `{Allocator} m data : Puts m data -> no_internal m.
Proof.
  intros Hm c b [Hb Hc]. destruct (Hm b Hb) as [Hb' Hr].
  destruct (m b) as [[r|[]] b']; simpl in *.
  - destruct Hr as [[= _ Ha] [[-> _]|[-> _]]];
      (split; [done|]); (split; [done|congruence]).
  - injection Hr as _ Ha. split; [done|]. split; [done|congruence].
Qed.
Lemma Refines_no_internal {A} (m : SE sshbuf Z A) a :
  Refines m a -> (forall x, fst (a x) <> inl SSH_ERR_INTERNAL_ERROR) ->
  (forall c, preserves (fun x => cap x = c) a) -> no_internal m.
Proof.
  intros Hm Ha Hcap c b [Hb Hc]. destruct (Hm b Hb) as (-> & Habs & Hb').
  split; [done|]. split; [done|]. specialize (Hcap c (abs b) Hc). by rewrite <- Habs in Hcap.
Qed.

Lemma read_no_internal {A} n (f : list Z -> A) :
  0 <= n -> (forall p, f (ztake n p) = f p) ->
  no_internal (p ← gets sshbuf_ptr; _ ← sshbuf_consume n; mret (f p)).
Proof.
  intros Hn Hf. apply (Refines_no_internal _ _ (Refines_read n f Hn Hf)).
  - intros x. unfold mbind, SE_bind, a_take. by destruct (_ <? _).
  - intros c. preserve.
Qed.

Lemma get_string_direct_no_internal : no_internal sshbuf_get_string_direct.
Proof.
  intros c b [Hb Hc]. destruct (get_string_direct_rw b Hb) as (Hd & Ha & Hb').
  pose proof (a_get_string_cap c (abs b) Hc) as Hcap. rewrite <- Ha in Hcap.
  split; [|by split]. unfold a_get_string in Hd.
  destruct (sshbuf_get_string_direct b) as [[r|[p len]] b']; simpl in *; [|done].
  intros [= ->]. by repeat destruct (_ <? _).
Qed.
Lemma malloc_copy_no_internal `{Allocator} p len : no_internal (malloc_copy p len).
Proof. intros c b Hb. unfold malloc_copy. by destruct (heap_alloc _). Qed.
Lemma get_string_no_internal `{Allocator} : no_internal sshbuf_get_string.
Proof.
  apply no_internal_bind; [apply get_string_direct_no_internal|].
  intros [p len]. apply malloc_copy_no_internal.
Qed.
Lemma get_cstring_no_internal `{Allocator} : no_internal sshbuf_get_cstring.
Proof.
  intros c b Hbc. pose proof Hbc as [Hb Hc]. pose proof (peek_string_rw b Hb) as Hp.
  pose proof (get_string_direct_no_internal c b Hbc) as [_ Hbc'].
  destruct (get_string_direct_rw b Hb) as (Hd & _ & _).
  unfold sshbuf_get_cstring, sshbuf_skip_string, a_get_string, mbind, SE_bind in *.
  destruct (sshbuf_peek_string_direct b) as [r|[p len]]; simpl in *.
  { split; [|done]. intros [= ->]. by repeat destruct (_ <? _). }
  destruct ((0 <? len) && _); [done|].
  destruct (sshbuf_get_string_direct b) as [[r'|[p' len']] b']; simpl in *.
  - by repeat destruct (_ <? _).
  - by apply malloc_copy_no_internal.
Qed.

#[export] Hint Resolve Puts_no_internal no_internal_ret get_string_no_internal
  get_cstring_no_internal read_no_internal : refines.

Lemma exec_op_no_internal `{Allocator} o b :
  is_Some (heap_alloc SSHBUF_SIZE_INIT) -> op_ok o -> std b ->
  fst (exec_op o b) <> inl SSH_ERR_INTERNAL_ERROR /\ std (snd (exec_op o b)).
Proof.
  intros Hal Ho [Hb Hmax].
  assert (Hn : o = Reset \/ no_internal (exec_op o)).
  { destruct o as [| | | |v|v| | | | | | | |n|n|]; [..|by left]; right; simpl;
      (apply no_internal_bind; [|intros; apply no_internal_ret]); eauto with refines.
    - apply (Puts_no_internal _ (ztake (zlen v) v)), Puts_put; simpl in Ho; zlen_facts; lia.
    - apply (Puts_no_internal _ (POKE_U32 (zlen v) ++ ztake (zlen v) v)), Puts_string. zlen_facts; lia.
    - apply read_no_internal; [lia|]. intros. by rewrite znth_ztake.
    - apply read_no_internal; [lia|]. intros. unfold PEEK_U16. by rewrite !u_char_at_ztake.
    - apply read_no_internal; [lia|]. intros. by apply PEEK_U32_ztake.
    - apply read_no_internal; [lia|]. intros. unfold PEEK_U64. by rewrite !u_char_at_ztake.
    - apply read_no_internal; [lia|]. intros. by rewrite ztake_ztake by lia.
    - apply (Refines_no_internal _ _ (Refines_consume _ (N2Z.is_nonneg n))).
      + intros x. unfold mbind, SE_bind, a_take. by destruct (_ <? _).
      + intros c. preserve. }
  destruct Hn as [->|Hn].
  - destruct (reset_rw b Hal Hb Hmax) as [Hb' Ha]. split; [done|]. split; [done|].
    simpl. by replace (b_max_size (sshbuf_reset b)) with (b_max_size b) by (by injection Ha).
  - destruct (Hn _ b (conj Hb eq_refl)) as [Hc [Hb' Hm]]. split; [done|]. split; [done|]. lia.
Qed.

Lemma run_ops_no_internal `{Allocator} ops b :
  is_Some (heap_alloc SSHBUF_SIZE_INIT) -> Forall op_ok ops -> std b ->
  Forall (fun r => r <> inl SSH_ERR_INTERNAL_ERROR) (fst (run_ops exec_op ops b)) /\
  std (snd (run_ops exec_op ops b)).
Proof.
  intros Hal Hops. revert b. induction Hops as [|o ops Ho Hops IH]; intros b Hb; simpl.
  { by split; [constructor|]. }
  destruct (exec_op_no_internal o b Hal Ho Hb) as [Hr Hb'].
  destruct (exec_op o b) as [r b']. simpl in *. destruct (IH b' Hb') as [Hrs Hb''].
  destruct (run_ops exec_op ops b') as [rs b'']. simpl in *. split; [by constructor|done].
Qed.

(** ** Strings put in order come out in that order *)

Definition put_strings `{Allocator} (vs : list (list Z)) : SE sshbuf Z () :=
  mfold (fun _ v => sshbuf_put_string v (zlen v)) vs tt.
Fixpoint get_strings `{Allocator} (n : nat) : SE sshbuf Z (list (list Z)) :=
  match n with
  | O => mret []
  | S n' => v ← sshbuf_get_string; vs ← get_strings n'; mret (v :: vs)
  end.

Definition enc_string (v : list Z) : list Z := POKE_U32 (zlen v) ++ v.
Definition enc_strings (vs : list (list Z)) : list Z := concat (map enc_string vs).

Lemma put_string_ok `{AllocTotal} b v :
  buf_rw b -> zlen (contents b) + zlen (enc_string v) <= b_max_size b ->
  exists b', sshbuf_put_string v (zlen v) b = (inr tt, b') /\ buf_rw b' /\
    abs b' = mk_abuf (contents b ++ enc_string v) (b_max_size b).
Proof.
  intros Hb Hl. pose proof (zlen_nonneg v).
  pose proof (Puts_string v (zlen v) ltac:(lia)) as Hp. rewrite ztake_all in Hp by lia.
  destruct (Puts_refines _ _ Hp b Hb) as (Hr & Ha & Hb'). unfold a_put in *.
  fold (enc_string v) in Hr, Ha. cbn [abs pending cap] in Hr, Ha.
  rewrite (proj2 (Z.ltb_ge _ _)) in Hr, Ha by lia.
  destruct (sshbuf_put_string v (zlen v) b) as [r b']. simpl in *. subst. eauto.
Qed.

Lemma put_strings_ok `{AllocTotal} vs b :
  buf_rw b -> zlen (contents b) + zlen (enc_strings vs) <= b_max_size b ->
  exists b', put_strings vs b = (inr tt, b') /\ buf_rw b' /\
    abs b' = mk_abuf (contents b ++ enc_strings vs) (b_max_size b).
Proof.
  revert b. induction vs as [|v vs IH]; intros b Hb Hl.
  { exists b. by rewrite app_nil_r. }
  change (enc_strings (v :: vs)) with (enc_string v ++ enc_strings vs) in *.
  rewrite zlen_app in Hl. pose proof (zlen_nonneg (enc_strings vs)).
  destruct (put_string_ok b v Hb ltac:(lia)) as (b1 & E1 & Hb1 & [= Hc1 Hm1]).
  destruct (IH b1 Hb1) as (b2 & E2 & Hb2 & Ha2); [rewrite Hc1, zlen_app; lia|].
  exists b2. unfold put_strings in *. simpl. rewrite (SE_bind_ok _ _ _ _ _ E1), E2.
  split_and!; [done..|]. by rewrite Ha2, Hc1, Hm1, <- app_assoc.
Qed.

Lemma get_string_ok `{AllocTotal} b v rest :
  buf_rw b -> contents b = enc_string v ++ rest ->
  exists b', sshbuf_get_string b = (inr v, b') /\ buf_rw b' /\ abs b' = mk_abuf rest (b_max_size b).
Proof.
  intros Hb Hc. destruct (Refines_get_string b Hb) as (Hr & Ha & Hb').
  assert (Hv : zlen v <= SSHBUF_SIZE_MAX - 4).
  { pose proof (zlen_contents _ (rw_wf _ Hb)) as Hl. rewrite Hc in Hl. unfold enc_string in Hl.
    destruct (rw_wf _ Hb). zlia. }
  assert (Hp : PEEK_U32 (contents b) = zlen v).
  { rewrite Hc. unfold enc_string. rewrite <- app_assoc, PEEK_POKE_U32.
    apply u32_id. pose proof (zlen_nonneg v). unfold SSHBUF_SIZE_MAX in Hv. lia. }
  assert (Hlen : zlen (contents b) = 4 + zlen v + zlen rest) by (rewrite Hc; unfold enc_string; zlia).
  assert (Hd : zdrop 4 (contents b) = v ++ rest)
    by (rewrite Hc; unfold enc_string; rewrite <- app_assoc; by apply zdrop_app_exact).
  unfold a_get_string in *. cbn [abs pending cap] in *. rewrite !Hp in Hr, Ha.
  zlen_facts. rewrite !(proj2 (Z.ltb_ge _ _)) in Hr, Ha by lia. cbn [fst snd] in *.
  destruct (sshbuf_get_string b) as [r b']. cbn [fst snd] in *. subst r. exists b'.
  split_and!; [|done|].
  - do 2 f_equal. unfold zslice. rewrite Hd. by apply ztake_app_exact.
  - rewrite Ha. f_equal. rewrite <- zdrop_zdrop, Hd by lia. by apply zdrop_app_exact.
Qed.

Lemma get_strings_ok `{AllocTotal} vs b rest :
  buf_rw b -> contents b = enc_strings vs ++ rest ->
  exists b', get_strings (length vs) b = (inr vs, b') /\ buf_rw b' /\ contents b' = rest.
Proof.
  revert b. induction vs as [|v vs IH]; intros b Hb Hc; simpl in *; [by exists b|].
  change (enc_strings (v :: vs)) with (enc_string v ++ enc_strings vs) in Hc.
  rewrite <- app_assoc in Hc.
  destruct (get_string_ok b v _ Hb Hc) as (b1 & E1 & Hb1 & [= Hc1 _]).
  destruct (IH b1 Hb1 Hc1) as (b2 & E2 & Hb2 & Hc2). exists b2.
  by rewrite (SE_bind_ok _ _ _ _ _ E1), (SE_bind_ok _ _ _ _ _ E2).
Qed.

(** ** Multi-precision integers *)

(** The zero byte that keeps the number from looking negative. *)
Definition bignum_pad (s : list Z) : list Z :=
  if (0 <? zlen s) && truthy (Z.land (znth s 0) 0x80) then [0] else [].

Lemma zlen_skip_zeros v : zlen (skip_zeros v) <= zlen v.
Proof.
  induction v as [|b v IH]; simpl; [done|]. rewrite zlen_cons.
  destruct (b =? 0); rewrite ?zlen_cons; lia.
Qed.

Lemma Puts_bignum2 `{Allocator} v :
  zlen v <= SSHBUF_SIZE_MAX - 5 ->
  let s := skip_zeros v in
  Puts (sshbuf_put_bignum2_bytes v) (POKE_U32 (zlen s + zlen (bignum_pad s)) ++ bignum_pad s ++ s).
Proof.
  intros Hv s. pose proof (zlen_skip_zeros v) as Hs. fold s in Hs.
  unfold sshbuf_put_bignum2_bytes. fold s. rewrite (proj2 (Z.ltb_ge _ _)) by done.
  assert (Hpre : (if (0 <? zlen s) && truthy (Z.land (znth s 0) 0x80) then 1 else 0)
                 = zlen (bignum_pad s)) by (unfold bignum_pad; by destruct (_ && _)).
  rewrite Hpre. set (pre := bignum_pad s) in *.
  assert (Hpre0 : pre = [] \/ pre = [0]) by (subst pre; unfold bignum_pad; destruct (_ && _); auto).
  clearbody pre s.
  assert (Hz : zlen (POKE_U32 (zlen s + zlen pre) ++ pre ++ s) = zlen s + 4 + zlen pre) by zlia.
  rewrite <- Hz. apply Puts_reserve.
  { rewrite Hz. unfold SSHBUF_SIZE_MAX in Hv. destruct Hpre0 as [-> | ->]; zlia. }
  intros b p Hp Hb. rewrite Hz in Hb.
  unfold mbind, SE_bind, poke, modify, when, truthy, set_mem. zlen_facts.
  set (h := POKE_U32 (zlen s + zlen pre)). assert (Hh : zlen h = 4) by done. clearbody h.
  replace (p + 4) with (p + zlen h) by lia.
  destruct Hpre0 as [-> | ->]; destruct (Z.eqb_spec (zlen s) 0) as [Hs0|Hs0]; simpl;
    rewrite ?(zlen_0_nil s Hs0); rewrite ?app_nil_r; try done.
  - change (zlen []) with 0 in *. rewrite Z.add_0_r, zwrite_adjacent by lia. done.
  - change (zlen [0]) with 1 in *. rewrite zwrite_adjacent by (change (zlen [0]) with 1; lia). done.
  - change (zlen [0]) with 1 in *. rewrite zwrite_adjacent by (change (zlen [0]) with 1; lia).
    replace (p + zlen h + 1) with (p + zlen (h ++ [0])) by zlia.
    rewrite zwrite_adjacent by zlia. by rewrite <- app_assoc.
Qed.

Lemma skip_zeros_head s b l : skip_zeros s = b :: l -> b <> 0.
Proof.
  induction s as [|a s IH]; simpl; [done|]. destruct (Z.eqb_spec a 0); [done|]. by intros [= <- _].
Qed.
Lemma skip_zeros_idem v : skip_zeros (skip_zeros v) = skip_zeros v.
Proof.
  destruct (skip_zeros v) as [|b l] eqn:E; [done|]. pose proof (skip_zeros_head _ _ _ E).
  simpl. by rewrite (proj2 (Z.eqb_neq b 0)).
Qed.

(** What sshbuf_get_bignum2_bytes_direct reads from an encoded number. *)
Lemma get_bignum2_ok `{AllocTotal} b v rest :
  let s := skip_zeros v in
  buf_rw b -> zlen s <= SSHBUF_MAX_BIGNUM ->
  contents b = enc_string (bignum_pad s ++ s) ++ rest ->
  exists b', sshbuf_get_bignum2_bytes_direct b = (inr s, b') /\ buf_rw b' /\ contents b' = rest.
Proof.
  intros s Hb Hs Hc. set (d := bignum_pad s ++ s) in *.
  destruct (get_string_ok b d rest Hb Hc) as (b' & Hg & Hb' & [= Hc' _]).
  pose proof (peek_string_rw b Hb) as Hp.
  destruct (Refines_get_string b Hb) as (Hr & _ & _). rewrite Hg in Hr. simpl in Hr.
  rewrite <- Hr in Hp. unfold sshbuf_get_bignum2_bytes_direct.
  unfold sshbuf_get_string, sshbuf_get_string_direct, mbind, SE_bind in Hg.
  destruct (sshbuf_peek_string_direct b) as [r|[p olen]]; [done|].
  destruct Hp as (Hd & Hl & Hrange). rewrite <- Hd.
  assert (Hmsb : truthy olen && truthy (Z.land (znth d 0) 0x80) = false /\
    (SSHBUF_MAX_BIGNUM + 1 <? olen) || ((olen =? SSHBUF_MAX_BIGNUM + 1) && truthy (znth d 0)) = false /\
    skip_zeros d = s).
  { rewrite Hl. unfold d, bignum_pad. destruct (Z.ltb_spec 0 (zlen s)) as [Hs0|Hs0]; simpl.
    - destruct (truthy (Z.land (znth s 0) 128)) eqn:Ht; simpl.
      + unfold znth. simpl. change (truthy 0) with false. rewrite !andb_false_r, orb_false_r.
        rewrite zlen_cons. split_and!; [done|apply Z.ltb_ge; lia|apply skip_zeros_idem].
      + rewrite Ht, andb_false_r.
        rewrite (proj2 (Z.ltb_ge _ _)), (proj2 (Z.eqb_neq _ _)) by lia.
        split_and!; [done..|apply skip_zeros_idem].
    - rewrite (zlen_0_nil s) by (zlen_facts; lia). done. }
  destruct Hmsb as (-> & -> & ->).
  destruct (sshbuf_consume (olen + 4) b) as [[r|[]] b1]; [done|].
  unfold malloc_copy in Hg. destruct (heap_alloc (olen + 1)); [|done].
  injection Hg as _ ->. by exists b'.
Qed.

(** ** Composite writers and readers

    The codecs built on the buffer: [Appends m data] says [m] is a sequence
    of puts that adds [data] when there is room; [Parses m x enc] says that
    [m], run on pending bytes that start with [enc], returns [x] and
    consumes exactly [enc]. *)

Definition Appends `{Allocator} (m : SE sshbuf Z ()) (data : list Z) : Prop :=
  forall b, buf_rw b ->
    let b' := snd (m b) in
    buf_rw b' /\ b_max_size b' = b_max_size b /\
    match fst (m b) with
    | inr _ => contents b' = contents b ++ data
    | inl r =>
        (r = SSH_ERR_NO_BUFFER_SPACE /\ b_max_size b < zlen (contents b) + zlen data) \/
        (r = SSH_ERR_ALLOC_FAIL /\ exists n, 0 <= n <= SSHBUF_SIZE_MAX /\ heap_alloc n = None)
    end.

Definition Parses {E A} (m : SE sshbuf E A) (x : A) (enc : list Z) : Prop :=
  forall b rest, buf_rw b -> contents b = enc ++ rest ->
    exists b', m b = (inr x, b') /\ buf_rw b' /\ abs b' = mk_abuf rest (b_max_size b).

Section codecs.
Context `{Allocator}.

Lemma Puts_Appends m data : Puts m data -> Appends m data.
Proof.
  intros Hm b Hb. destruct (Hm b Hb) as [Hb' Hr]. split; [done|].
  destruct (m b) as [[r|[]] b']; simpl in *.
  - destruct Hr as [[= _ ->] Hr]. done.
  - injection Hr as -> ->. done.
Qed.
Lemma Appends_ret : Appends (mret tt) [].
Proof. intros b Hb. split; [done|]. split; [done|]. by rewrite app_nil_r. Qed.
Lemma Appends_bind m d1 (k : () -> SE sshbuf Z ()) d2 :
  Appends m d1 -> Appends (k tt) d2 -> Appends (m ≫= k) (d1 ++ d2).
Proof.
  intros Hm Hk b Hb. destruct (Hm b Hb) as (Hb1 & Hm1 & Hr1). unfold mbind, SE_bind.
  pose proof (zlen_nonneg d2). rewrite zlen_app.
  destruct (m b) as [[r|[]] b1]; simpl in *.
  - split; [done|]. split; [done|]. destruct Hr1 as [[-> Hl]|Hl]; [left; split; [done|lia]|by right].
  - destruct (Hk b1 Hb1) as (Hb2 & Hm2 & Hr2). split; [done|]. split; [congruence|].
    destruct (k tt b1) as [[r|[]] b2]; simpl in *; rewrite Hr1 in Hr2.
    + rewrite zlen_app, Hm1 in Hr2. destruct Hr2 as [[-> Hl]|Hl]; [left; split; [done|lia]|by right].
    + by rewrite Hr2, app_assoc.
Qed.
Lemma Appends_when c m d : Appends m d -> Appends (when c m) (if c then d else []).
Proof. intros Hm. destruct c; [done|apply Appends_ret]. Qed.

Lemma Appends_preserves m data : Appends m data -> preserves buf_rw m.
Proof. intros Hm b Hb. apply Hm, Hb. Qed.

(** With memory and room there is no failure. *)
Lemma Appends_ok `{!AllocTotal} m data b :
  Appends m data -> buf_rw b -> zlen (contents b) + zlen data <= b_max_size b ->
  exists b', m b = (inr tt, b') /\ buf_rw b' /\ abs b' = mk_abuf (contents b ++ data) (b_max_size b).
Proof.
  intros Hm Hb Hl. destruct (Hm b Hb) as (Hb' & Hm' & Hr).
  destruct (m b) as [[r|[]] b']; simpl in *.
  - destruct Hr as [[_ ?]|[_ (n & Hn & HN)]]; [lia|].
    destruct (alloc_total n Hn) as [? Hs]. by rewrite Hs in HN.
  - exists b'. unfold abs. by rewrite Hr, Hm'.
Qed.

Lemma Parses_ret {E A} (x : A) : Parses (mret x : SE sshbuf E A) x [].
Proof. intros b rest Hb Hc. exists b. unfold abs. by rewrite Hc. Qed.
Lemma Parses_bind {E A B} (m : SE sshbuf E A) x e1 (k : A -> SE sshbuf E B) y e2 :
  Parses m x e1 -> Parses (k x) y e2 -> Parses (m ≫= k) y (e1 ++ e2).
Proof.
  intros Hm Hk b rest Hb Hc. rewrite <- app_assoc in Hc.
  destruct (Hm b _ Hb Hc) as (b1 & E1 & Hb1 & [= Hc1 Hm1]).
  destruct (Hk b1 rest Hb1 Hc1) as (b2 & E2 & Hb2 & Ha2).
  exists b2. by rewrite (SE_bind_ok _ _ _ _ _ E1), Ha2, Hm1.
Qed.

Lemma Parses_read {A} n (f : list Z -> A) m enc x :
  Refines m (l ← a_take n; mret (f l)) -> zlen enc = n -> 0 <= n -> f enc = x -> Parses m x enc.
Proof.
  intros Hm Hn H0 <- b rest Hb Hc. destruct (Hm b Hb) as (Hr & Ha & Hb').
  unfold mbind, SE_bind, a_take in *. simpl in *. rewrite Hc in *.
  rewrite (proj2 (Z.ltb_ge _ _)) in Hr, Ha by zlia. simpl in *.
  rewrite ztake_app_exact in Hr by done. rewrite zdrop_app_exact in Ha by done.
  destruct (m b) as [r b']. simpl in *. subst. eauto.
Qed.
End codecs.

Lemma Parses_u8 v : Parses sshbuf_get_u8 v [v].
Proof. by apply (Parses_read 1 (fun l => znth l 0) _ [v] v Refines_get_u8). Qed.
Lemma Parses_u32 v : 0 <= v < 2 ^ 32 -> Parses sshbuf_get_u32 v (POKE_U32 v).
Proof.
  intros. apply (Parses_read 4 PEEK_U32 _ _ _ Refines_get_u32); [done..|].
  rewrite <- (app_nil_r (POKE_U32 v)), PEEK_POKE_U32. by apply u32_id.
Qed.
Lemma Parses_u64 v : 0 <= v < 2 ^ 64 -> Parses sshbuf_get_u64 v (POKE_U64 v).
Proof.
  intros. apply (Parses_read 8 PEEK_U64 _ _ _ Refines_get_u64); [done..|].
  rewrite <- (app_nil_r (POKE_U64 v)), PEEK_POKE_U64. by apply u64_id.
Qed.
Lemma Parses_string `{AllocTotal} v : Parses sshbuf_get_string v (enc_string v).
Proof. intros b rest. apply get_string_ok. Qed.

(** A string without an inner zero byte is accepted by sshbuf_get_cstring. *)
Lemma get_cstring_ok `{AllocTotal} v :
  zlen v - 1 <= zlen (cstr v) -> Parses sshbuf_get_cstring v (enc_string v).
Proof.
  intros Hv b rest Hb Hc. destruct (get_string_ok b v rest Hb Hc) as (b1 & E1 & Hb1 & Ha1).
  destruct (Refines_get_string b Hb) as (Hr & Ha & _). rewrite E1 in Hr, Ha. simpl in Hr, Ha.
  destruct (Refines_get_cstring b Hb) as (Hr' & Ha' & Hb'). unfold a_get_cstring in *.
  destruct (a_get_string (abs b)) as [r a']. simpl in Hr, Ha. subst r a'.
  rewrite (proj2 (Z.ltb_ge _ _)) in Hr', Ha' by done. simpl in *.
  destruct (sshbuf_get_cstring b) as [r' b']. simpl in *. subst r'. exists b'. by rewrite Ha'.
Qed.
Lemma Parses_cstring `{AllocTotal} v : no_nul v -> Parses sshbuf_get_cstring v (enc_string v).
Proof. intros. apply get_cstring_ok. rewrite cstr_id by done. lia. Qed.

#[export] Hint Resolve Puts_Appends Appends_ret Appends_bind Appends_when Parses_ret
  Parses_u8 Parses_u32 Parses_u64 Parses_string Parses_cstring : codec.
#[export] Hint Resolve Puts_u8 Puts_u16 Puts_u32 Puts_u64 Puts_cstring : codec.

(** ** Properties *)

(** C6: starting from sshbuf_new, every sequence of put, get, consume and
    reset operations on the concrete buffer (packing, growing, shrinking,
    offsets) returns exactly the codes and values of a plain bounded queue of
    bytes, and ends with that queue's bytes pending. *)
Theorem sshbuf_simulates_queue `{AllocTotal} (ops : list buf_op) (b : sshbuf) :
  sshbuf_new = Some b -> Forall op_ok ops ->
  fst (run_ops exec_op ops b) = fst (run_ops spec_op ops (mk_abuf [] SSHBUF_SIZE_MAX)) /\
  contents (snd (run_ops exec_op ops b))
    = pending (snd (run_ops spec_op ops (mk_abuf [] SSHBUF_SIZE_MAX))).
Proof.
  intros Hn Hops. destruct (sshbuf_new_rw b Hn) as [Hb Ha].
  assert (Hstd : std b) by (split; [done|]; injection Ha as _ ->; done).
  destruct (run_ops_sim ops b Hops Hstd) as (Hr & Ha' & _). rewrite Ha in *.
  split; [done|]. by rewrite <- Ha'.
Qed.

(** An allocator that always succeeds. *)
Definition demo_heap : Allocator := {| heap_alloc := fun _ => Some 4096; page_size := 4096 |}.
Lemma demo_heap_total : @AllocTotal demo_heap.
Proof. intros n _. by exists 4096. Qed.

Definition demo_ops : list buf_op :=
  [PutU32 7; PutString [104; 105]; GetU32; PutU8 300; GetString; GetU8; GetU8; Reset].
Lemma sshbuf_simulates_queue_witness :
  fst (run_ops (@exec_op demo_heap) demo_ops
    (mk_sshbuf (Some 4096) (Some 4096) (zfill 256) 0 0 SSHBUF_SIZE_MAX 256 false 1 None))
  = fst (run_ops spec_op demo_ops (mk_abuf [] SSHBUF_SIZE_MAX)).
Proof.
  refine (proj1 (@sshbuf_simulates_queue demo_heap demo_heap_total demo_ops _ _ _)).
  - reflexivity.
  - repeat constructor.
Defined.

(** Strings written with sshbuf_put_string are read back by
    sshbuf_get_string one by one, in order and byte for byte, as long as
    together with their lengths they fit the buffer; nothing is left over. *)
Theorem sshbuf_strings_roundtrip `{AllocTotal} (vs : list (list Z)) (b : sshbuf) :
  buf_rw b -> contents b = [] -> zlen (enc_strings vs) <= b_max_size b ->
  exists b', (_ ← put_strings vs; get_strings (length vs)) b = (inr vs, b') /\ contents b' = [].
Proof.
  intros Hb Hc Hl.
  destruct (put_strings_ok vs b Hb) as (b1 & E1 & Hb1 & [= Hc1 _]); [rewrite Hc; zlia|].
  rewrite Hc, app_nil_l in Hc1.
  destruct (get_strings_ok vs b1 [] Hb1) as (b2 & E2 & Hb2 & Hc2); [by rewrite app_nil_r|].
  exists b2. by rewrite (SE_bind_ok _ _ _ _ _ E1).
Qed.

Definition demo_buf : sshbuf :=
  mk_sshbuf (Some 4096) (Some 4096) (zfill 256) 0 0 SSHBUF_SIZE_MAX 256 false 1 None.
Lemma demo_buf_rw : buf_rw demo_buf.
Proof. by apply (@sshbuf_new_rw demo_heap). Qed.

Lemma sshbuf_strings_roundtrip_witness :
  exists b', (_ ← @put_strings demo_heap [[1; 0; 2]; []; [255]]; @get_strings demo_heap 3) demo_buf
    = (inr [[1; 0; 2]; []; [255]], b') /\ contents b' = [].
Proof.
  refine (@sshbuf_strings_roundtrip demo_heap demo_heap_total [[1; 0; 2]; []; [255]] demo_buf _ _ _).
  - exact demo_buf_rw.
  - reflexivity.
  - vm_compute. discriminate.
Defined.

(** Whatever the allocator answers, no operation on a buffer made by
    sshbuf_new ever reports SSH_ERR_INTERNAL_ERROR, and the buffer stays
    sane: the "shouldn't happen" branches and the SIGSEGV of
    sshbuf_check_sanity are unreachable. *)
Theorem sshbuf_internal_error_unreachable `{Allocator} (ops : list buf_op) (b : sshbuf) :
  sshbuf_new = Some b -> Forall op_ok ops ->
  Forall (fun r => r <> inl SSH_ERR_INTERNAL_ERROR) (fst (run_ops exec_op ops b)) /\
  sshbuf_check_sanity (snd (run_ops exec_op ops b)) = 0.
Proof.
  intros Hn Hops. destruct (sshbuf_new_rw b Hn) as [Hb Ha].
  assert (Hstd : std b) by (split; [done|]; injection Ha as _ ->; done).
  assert (Hal : is_Some (heap_alloc SSHBUF_SIZE_INIT))
    by (unfold sshbuf_new in Hn; destruct (heap_alloc sizeof_sshbuf), (heap_alloc SSHBUF_SIZE_INIT); [eauto|done..]).
  destruct (run_ops_no_internal ops b Hal Hops Hstd) as [Hr Hs]. split; [done|].
  apply sanity_ok. by destruct Hs as [[? _ _] _].
Qed.

(** An allocator that only grants small blocks. *)
Definition stingy_heap : Allocator :=
  {| heap_alloc := fun n => if n <=? 256 then Some 4096 else None; page_size := 4096 |}.
Lemma sshbuf_internal_error_unreachable_witness :
  sshbuf_check_sanity (snd (run_ops (@exec_op stingy_heap)
    [PutString (zfill 300); PutU8 1; GetU64; Reset] demo_buf)) = 0.
Proof.
  refine (proj2 (@sshbuf_internal_error_unreachable stingy_heap _ demo_buf _ _)).
  - reflexivity.
  - repeat constructor.
Defined.

(** A multi-precision number written with sshbuf_put_bignum2_bytes is
    read back by sshbuf_get_bignum2_bytes_direct without its leading zeros;
    the padding byte added for a set top bit never reaches the caller and
    never makes the reader refuse the number. *)
Theorem sshbuf_bignum2_roundtrip `{AllocTotal} (v : list Z) (b : sshbuf) :
  buf_rw b -> contents b = [] -> zlen v + 5 <= b_max_size b ->
  zlen (skip_zeros v) <= SSHBUF_MAX_BIGNUM ->
  exists b', (_ ← sshbuf_put_bignum2_bytes v; sshbuf_get_bignum2_bytes_direct) b
             = (inr (skip_zeros v), b') /\ contents b' = [].
Proof.
  intros Hb Hc Hl Hs. pose proof (wf_max _ (rw_wf _ Hb)) as Hmax.
  pose proof (Puts_bignum2 v ltac:(lia)) as Hp. cbv zeta in Hp. set (s := skip_zeros v) in *.
  assert (Hpad : zlen (bignum_pad s) <= 1) by (unfold bignum_pad; by destruct (_ && _)).
  pose proof (zlen_skip_zeros v) as Hsv. fold s in Hsv.
  destruct (Puts_refines _ _ Hp b Hb) as (Hr & Ha & Hb1). unfold a_put in *.
  cbn [abs pending cap] in Hr, Ha. rewrite Hc in *.
  rewrite (proj2 (Z.ltb_ge _ _)) in Hr, Ha by zlia.
  destruct (sshbuf_put_bignum2_bytes v b) as [r b1] eqn:E1. cbn [fst snd] in *. subst r.
  injection Ha as Hc1 _.
  destruct (get_bignum2_ok b1 v [] Hb1 Hs) as (b2 & E2 & Hb2 & Hc2).
  { rewrite app_nil_r, Hc1. unfold enc_string. rewrite zlen_app. fold s. by rewrite Z.add_comm. }
  exists b2. by rewrite (SE_bind_ok _ _ _ _ _ E1).
Qed.

Lemma sshbuf_bignum2_roundtrip_witness :
  exists b', (_ ← @sshbuf_put_bignum2_bytes demo_heap [0; 0; 200; 1];
              sshbuf_get_bignum2_bytes_direct) demo_buf = (inr [200; 1], b') /\ contents b' = [].
Proof.
  refine (@sshbuf_bignum2_roundtrip demo_heap demo_heap_total [0; 0; 200; 1] demo_buf _ _ _ _).
  - exact demo_buf_rw.
  - reflexivity.
  - vm_compute. discriminate.
  - vm_compute. discriminate.
Defined.

(** Sshbuf_reset corrupts a buffer whose maximum sshbuf_set_max_size
    lowered below the initial allocation: it enlarges the block to 256 bytes
    past max_size, and every later sanity check fails. *)
Theorem sshbuf_reset_corrupts_small_buffers :
  exists b, sshbuf_check_sanity b = 0 /\
    (exists b0, @sshbuf_new demo_heap = Some b0 /\
       @sshbuf_set_max_size demo_heap 100 b0 = (inr tt, b)) /\
    sshbuf_check_sanity (@sshbuf_reset demo_heap b) = SSH_ERR_INTERNAL_ERROR.
Proof.
  eexists. split; [|split; [eexists; split; [reflexivity|vm_compute; reflexivity]|]];
    vm_compute; reflexivity.
Qed.
