(* ===== verification/SshbufRefs.v ===== *)
(** * Buffers that share their bytes: sshbuf_new, sshbuf_from, sshbuf_fromb,
      sshbuf_froms, sshbuf_set_parent and sshbuf_free

    Sshbuf.v looks at one buffer that owns its block.  Here the structures
    and the blocks live in one memory, a buffer may be a read-only view of
    another one's bytes, and the reference counts decide when a structure and
    its block are freed.  Reading or freeing what was freed is a [fault], and
    so is the SIGSEGV that sshbuf_check_sanity raises on a corrupted structure.

    The operations on one buffer are those of Sshbuf.v, run on the structure
    and the block in memory ([on_buf]).

    The second half is about clients: who holds a buffer may use it and frees
    it once.  As long as views are taken of buffers that own their block, no
    client can make a fault happen, a view keeps its bytes whatever is done to
    other buffers, and nothing is left when the last handle is given back.
    Views of views are not protected ([nested_view_dangles]). *)

From stdpp Require Import gmap.
From S2P Require Import Prelude Sshbuf.

(** ** Memory *)

(** A pointer into a block: the block's address and an offset. *)
Definition ptr : Type := Z * Z.

(** struct sshbuf, without its unused [dont_free]. *)
Record hdr := mk_hdr {
  h_d : option ptr;
  h_cd : option ptr;
  h_off : Z;
  h_size : Z;
  h_max_size : Z;
  h_alloc : Z;
  h_readonly : bool;
  h_refcount : Z;
  h_parent : option Z
}.

(** The structures and the data blocks, by address. *)
Record mem := mk_mem { bufs : gmap Z hdr; blocks : gmap Z (list Z) }.

Inductive fault := Dangling (p : Z) | Sigsegv | StackOverflow.

(** The allocator: the address of a new object of [n] bytes. *)
Class Malloc := {
  malloc : mem -> Z -> option Z;
  malloc_page : Z;
  malloc_fresh : forall s n p, malloc s n = Some p -> bufs s !! p = None /\ blocks s !! p = None
}.

(** The allocator as one call of an operation sees it. *)
Definition alloc_in `{Malloc} (s : mem) : Allocator :=
  {| heap_alloc := malloc s; page_size := malloc_page |}.

(** The structure with the bytes [m] it sees, as Sshbuf.v has it, and back. *)
Definition to_sshbuf (h : hdr) (m : list Z) : sshbuf :=
  mk_sshbuf (fst <$> h_d h) (fst <$> h_cd h) m (h_off h) (h_size h) (h_max_size h) (h_alloc h)
    (h_readonly h) (h_refcount h) (h_parent h).
Definition moved (old : option ptr) (a : option Z) : option ptr :=
  if bool_decide (fst <$> old = a) then old else (fun k => (k, 0)) <$> a.
Definition of_sshbuf (h : hdr) (b : sshbuf) : hdr :=
  mk_hdr (moved (h_d h) (b_d b)) (moved (h_cd h) (b_cd b)) (b_off b) (b_size b) (b_max_size b)
    (b_alloc b) (b_readonly b) (b_refcount b) (b_parent b).

Definition bytes_at (s : mem) (h : hdr) : option (list Z) :=
  '(k, o) ← h_cd h; bytes ← blocks s !! k; Some (ztake (h_alloc h) (zdrop o bytes)).

Definition set_bufs (f : gmap Z hdr -> gmap Z hdr) (s : mem) : mem := mk_mem (f (bufs s)) (blocks s).
Definition set_blocks (f : gmap Z (list Z) -> gmap Z (list Z)) (s : mem) : mem :=
  mk_mem (bufs s) (f (blocks s)).

Definition load (p : Z) : SE mem fault hdr := fun s =>
  match bufs s !! p with Some h => (inr h, s) | None => (inl (Dangling p), s) end.
Definition update (p : Z) (f : hdr -> hdr) : SE mem fault () :=
  h ← load p; modify (set_bufs (insert p (f h))).

(** What an operation left in the structure and the block goes back to memory;
    a block that was moved is freed. *)
Definition write_back (p : Z) (h : hdr) (b : sshbuf) (s : mem) : mem :=
  set_bufs (insert p (of_sshbuf h b))
    (match b_readonly b, fst <$> h_d h, b_d b with
     | false, Some k, Some k' =>
         set_blocks (fun bl => <[k' := b_mem b]> (if k =? k' then bl else delete k bl)) s
     | _, _, _ => s
     end).

(** An operation of Sshbuf.v on the buffer at [p]; its code or value (also the
    code of a corrupted buffer, for which the source raises SIGSEGV). *)
Definition on_buf `{Malloc} {A} (p : Z) (m : Allocator -> SE sshbuf Z A) : SE mem fault (Z + A) :=
  fun s =>
  match bufs s !! p with
  | None => (inl (Dangling p), s)
  | Some h =>
      match bytes_at s h with
      | None => (inl (Dangling p), s)
      | Some bytes =>
          let '(r, b) := m (alloc_in s) (to_sshbuf h bytes) in (inr r, write_back p h b s)
      end
  end.

(** ** The operations *)

(** sshbuf_check_sanity on the structure at [p]: the process dies when it is
    corrupted. *)
Definition check_sanity (p : Z) : SE mem fault hdr :=
  h ← load p;
  if truthy (sshbuf_check_sanity (to_sshbuf h [])) then throw Sigsegv else mret h.

Definition zero_hdr : hdr := mk_hdr None None 0 0 0 0 false 0 None.

Section operations.
Context `{Malloc}.

(** calloc of a structure. *)
Definition calloc_hdr : SE mem fault (option Z) := fun s =>
  match malloc s sizeof_sshbuf with
  | None => (inr None, s)
  | Some p => (inr (Some p), set_bufs (insert p zero_hdr) s)
  end.
Definition calloc_block (n : Z) : SE mem fault (option Z) := fun s =>
  match malloc s n with
  | None => (inr None, s)
  | Some k => (inr (Some k), set_blocks (insert k (zfill n)) s)
  end.
Definition free_hdr (p : Z) : SE mem fault () := modify (set_bufs (delete p)).
Definition free_block (k : Z) : SE mem fault () := fun s =>
  match blocks s !! k with
  | None => (inl (Dangling k), s)
  | Some _ => (inr tt, set_blocks (delete k) s)
  end.

Definition new_buf : SE mem fault (option Z) :=
  ret ← calloc_hdr;
  match ret with
  | None => mret None
  | Some p =>
      k ← calloc_block SSHBUF_SIZE_INIT;
      match k with
      | None => _ ← free_hdr p; mret None
      | Some k =>
          _ ← update p (fun _ => mk_hdr (Some (k, 0)) (Some (k, 0)) 0 0 SSHBUF_SIZE_MAX
                                   SSHBUF_SIZE_INIT false 1 None);
          mret (Some p)
      end
  end.

Definition from_blob (blob : option ptr) (len : Z) : SE mem fault (option Z) :=
  if bool_decide (blob = None) || (SSHBUF_SIZE_MAX <? len) then mret None
  else
    ret ← calloc_hdr;
    match ret with
    | None => mret None
    | Some p =>
        _ ← update p (fun _ => mk_hdr None blob 0 len len len true 1 None);
        mret (Some p)
    end.

Definition set_parent (child parent : Z) : SE mem fault () :=
  _ ← check_sanity child;
  _ ← check_sanity parent;
  _ ← update child (fun h => mk_hdr (h_d h) (h_cd h) (h_off h) (h_size h) (h_max_size h) (h_alloc h)
                               (h_readonly h) (h_refcount h) (Some parent));
  update parent (fun h => mk_hdr (h_d h) (h_cd h) (h_off h) (h_size h) (h_max_size h) (h_alloc h)
                            (h_readonly h) (u32 (h_refcount h + 1)) (h_parent h)).

(** buf->cd + buf->off + [n]. *)
Definition data_ptr (h : hdr) (n : Z) : option ptr :=
  (fun '(k, o) => (k, o + h_off h + n)) <$> h_cd h.

Definition fromb (buf : Z) : SE mem fault (option Z) :=
  h ← check_sanity buf;
  ret ← from_blob (data_ptr h 0) (h_size h - h_off h);
  match ret with
  | None => mret None
  | Some c => _ ← set_parent c buf; mret (Some c)
  end.

(** The recursion follows the parents; every level of it is a stack frame. *)
Fixpoint free_rec (fuel : nat) (buf : option Z) : SE mem fault () :=
  match buf, fuel with
  | None, _ => mret tt
  | Some _, O => throw StackOverflow
  | Some p, S fuel' =>
      h ← check_sanity p;
      _ ← free_rec fuel' (h_parent h);
      _ ← update p (fun h => mk_hdr (h_d h) (h_cd h) (h_off h) (h_size h) (h_max_size h) (h_alloc h)
                               (h_readonly h) (h_refcount h) None);
      _ ← update p (fun h => mk_hdr (h_d h) (h_cd h) (h_off h) (h_size h) (h_max_size h) (h_alloc h)
                               (h_readonly h) (u32 (h_refcount h - 1)) (h_parent h));
      h ← load p;
      if 0 <? h_refcount h then mret tt
      else
        _ ← (if h_readonly h then mret tt
             else match h_d h with
                  | Some (k, _) => free_block k
                  | None => mret tt
                  end);
        free_hdr p
  end.

(** A chain of parents without a cycle is no longer than the structures. *)
Definition free_buf (buf : option Z) : SE mem fault () := fun s =>
  free_rec (S (size (bufs s))) buf s.

(** sshbuf_froms: the code, or the new buffer over the next string of [buf]. *)
Definition froms (buf : Z) : SE mem fault (Z + Z) :=
  peeked ← on_buf buf (fun _ => fun b => (sshbuf_peek_string_direct b, b));
  match peeked with
  | inl r => mret (inl r)
  | inr (_, len) =>
      h ← load buf;
      ret ← from_blob (data_ptr h 4) len;
      match ret with
      | None => mret (inl SSH_ERR_ALLOC_FAIL)
      | Some c =>
          r ← on_buf buf (fun _ => sshbuf_consume (len + 4));
          match r with
          | inl r => _ ← free_buf (Some c); mret (inl r)
          | inr _ => _ ← set_parent c buf; mret (inr c)
          end
      end
  end.
End operations.

(** ** Clients *)

Inductive call :=
  | CNew
  | CFromb (p : Z)
  | CFroms (p : Z)
  | COp (p : Z) (o : buf_op)
  | CFree (p : Z).

(** A call; the handle of the buffer it makes. *)
Definition exec_call `{Malloc} (c : call) : SE mem fault (option Z) :=
  match c with
  | CNew => new_buf
  | CFromb p => fromb p
  | CFroms p => r ← froms p; mret (match r with inl _ => None | inr c => Some c end)
  | COp p o => _ ← on_buf p (fun al => @exec_op al o); mret None
  | CFree p => _ ← free_buf (Some p); mret None
  end.

(** The handles the client holds after the call. *)
Definition handles (c : call) (r : option Z) (own : gset Z) : gset Z :=
  let own := match c with CFree p => own ∖ {[p]} | _ => own end in
  match r with Some q => own ∪ {[q]} | None => own end.

(** What a client may call: operations on the buffers it holds, and views of
    those among them that own their block, fewer than SSHBUF_REFS_MAX of each. *)
Definition may_view (s : mem) (p : Z) : Prop :=
  match bufs s !! p with
  | Some h => h_readonly h = false /\ h_refcount h < SSHBUF_REFS_MAX
  | None => False
  end.
Definition allowed (s : mem) (own : gset Z) (c : call) : Prop :=
  match c with
  | CNew => True
  | CFromb p | CFroms p => p ∈ own /\ may_view s p
  | COp p o => p ∈ own /\ op_ok o
  | CFree p => p ∈ own
  end.

(** The memories and handles that calls can lead to. *)
Inductive reach `{Malloc} : mem -> gset Z -> Prop :=
  | reach_empty : reach (mk_mem ∅ ∅) ∅
  | reach_call s own c r s' :
      reach s own -> allowed s own c -> exec_call c s = (inr r, s') ->
      reach s' (handles c r own).

(** What the holder of [p] reads. *)
Definition reads (s : mem) (p : Z) : option (list Z) :=
  h ← bufs s !! p; bytes ← bytes_at s h; Some (contents (to_sshbuf h bytes)).

(** ** What one operation may change

    A buffer that is shared or read-only keeps its block as it is; one that is
    not keeps its block or gets a new one from the allocator. *)

Definition sane (b : sshbuf) : Prop :=
  buf_wf b /\
  (b_readonly b = false -> SSHBUF_SIZE_INIT <= b_alloc b /\ b_max_size b = SSHBUF_SIZE_MAX).

Record keeps `{Allocator} (b b' : sshbuf) : Prop := {
  k_sane : sane b';
  k_readonly : b_readonly b' = b_readonly b;
  k_refcount : b_refcount b' = b_refcount b;
  k_parent : b_parent b' = b_parent b;
  k_max : b_max_size b' = b_max_size b;
  k_block :
    (b_mem b' = b_mem b /\ b_d b' = b_d b /\ b_cd b' = b_cd b /\ b_alloc b' = b_alloc b) \/
    (b_readonly b = false /\ b_refcount b = 1 /\
     (b_d b' = b_d b \/ exists n, is_Some (heap_alloc n) /\ b_d b' = heap_alloc n))
}.

Definition Keeps `{Allocator} {A} (m : SE sshbuf Z A) : Prop :=
  forall b, sane b -> keeps b (snd (m b)).

Section keeps.
Context `{Allocator}.

Lemma keeps_buf_refl b : sane b -> keeps b b.
Proof. intros Hb. split; [done..|]. by left. Qed.

Lemma keeps_buf_trans b1 b2 b3 : keeps b1 b2 -> keeps b2 b3 -> keeps b1 b3.
Proof.
  intros [S1 R1 C1 P1 M1 B1] [S2 R2 C2 P2 M2 B2]. split; try congruence.
  destruct B2 as [(Em & Ed & Ec & Ea)|(Hro & Hrc & Ed)]; [by rewrite Em, Ed, Ec, Ea|].
  right. split; [congruence|]. split; [congruence|].
  destruct Ed as [->|Ed]; [|by right].
  destruct B1 as [(Em & Ed & Ec & Ea)|(_ & _ & Ed)]; auto.
Qed.

Lemma Keeps_bind {A B} (m : SE sshbuf Z A) (k : A -> SE sshbuf Z B) :
  Keeps m -> (forall a, Keeps (k a)) -> Keeps (m ≫= k).
Proof.
  intros Hm Hk b Hb. specialize (Hm b Hb). unfold mbind, SE_bind.
  destruct (m b) as [[e|a] b']; simpl in *; [done|].
  eapply keeps_buf_trans; [done|]. apply Hk, (k_sane _ _ Hm).
Qed.
Lemma Keeps_same {A} (m : SE sshbuf Z A) : (forall b, snd (m b) = b) -> Keeps m.
Proof. intros Hm b Hb. rewrite Hm. by apply keeps_buf_refl. Qed.
Lemma Keeps_vmap {A} (f : A -> buf_val) m : Keeps m -> Keeps (vmap f m).
Proof. intros Hm. apply Keeps_bind; [done|]. intros a. by apply Keeps_same. Qed.

(** Only the window moves, within the block. *)
Lemma keeps_window b off size :
  sane b -> 0 <= off <= size -> size <= b_alloc b -> keeps b (set_off_size off size b).
Proof.
  intros [[Hcd Hd Hr Ho Hs Ha Hm Hl] Hi] ??. split; try done.
  by left.
Qed.

Lemma Keeps_consume n : 0 <= n -> Keeps (sshbuf_consume n).
Proof.
  intros Hn b Hb. pose proof Hb as [Hwf _]. unfold sshbuf_consume.
  rewrite sanity_ok by done. simpl.
  destruct (Z.eqb_spec n 0); [by apply keeps_buf_refl|].
  rewrite sshbuf_len_contents, zlen_contents by done.
  destruct (Z.ltb_spec (b_size b - b_off b) n); [by apply keeps_buf_refl|].
  destruct Hwf. simpl. destruct (_ =? _); apply keeps_window; done || lia.
Qed.

Lemma Keeps_read {A} n (f : list Z -> A) :
  0 <= n -> Keeps (p ← gets sshbuf_ptr; _ ← sshbuf_consume n; mret (f p)).
Proof.
  intros. apply Keeps_bind; [by apply Keeps_same|]. intros p.
  apply Keeps_bind; [by apply Keeps_consume|]. intros. by apply Keeps_same.
Qed.

(** The length of a string is never negative. *)
Lemma peek_string_len b p len :
  sshbuf_peek_string_direct b = inr (p, len) -> 0 <= len /\ len + 4 <= sshbuf_len b.
Proof.
  unfold sshbuf_peek_string_direct. pose proof (PEEK_U32_range (sshbuf_ptr b)).
  destruct (Z.ltb_spec (sshbuf_len b) 4); [done|].
  destruct (Z.ltb_spec (SSHBUF_SIZE_MAX - 4) (PEEK_U32 (sshbuf_ptr b))); [done|].
  destruct (Z.ltb_spec (sshbuf_len b - 4) (PEEK_U32 (sshbuf_ptr b))); [done|].
  intros [= _ <-]. lia.
Qed.

Lemma Keeps_get_string_direct : Keeps sshbuf_get_string_direct.
Proof.
  intros b Hb. unfold sshbuf_get_string_direct.
  destruct (sshbuf_peek_string_direct b) as [r|[p len]] eqn:Hp; [by apply keeps_buf_refl|].
  apply peek_string_len in Hp. pose proof (Keeps_consume (len + 4) ltac:(lia) b Hb) as Hk.
  by destruct (sshbuf_consume _ b) as [[|] ?].
Qed.

Lemma Keeps_malloc_copy p len : Keeps (malloc_copy p len).
Proof. apply Keeps_same. intros b. unfold malloc_copy. by destruct (heap_alloc _). Qed.

Lemma Keeps_get_string : Keeps sshbuf_get_string.
Proof.
  apply Keeps_bind; [apply Keeps_get_string_direct|]. intros [p len]. apply Keeps_malloc_copy.
Qed.

Lemma Keeps_get_cstring : Keeps sshbuf_get_cstring.
Proof.
  intros b Hb. unfold sshbuf_get_cstring.
  destruct (sshbuf_peek_string_direct b) as [r|[p len]]; [by apply keeps_buf_refl|].
  destruct ((0 <? len) && _); [by apply keeps_buf_refl|].
  assert (Hs : Keeps sshbuf_skip_string).
  { apply Keeps_bind; [apply Keeps_get_string_direct|]. intros. by apply Keeps_same. }
  specialize (Hs b Hb). destruct (sshbuf_skip_string b) as [[r|[]] b']; simpl in *; [done|].
  eapply keeps_buf_trans; [done|]. apply Keeps_malloc_copy, (k_sane _ _ Hs).
Qed.

(** The fields packing leaves alone. *)
Lemma pack_fields b force :
  let b' := sshbuf_maybe_pack b force in
  b_d b' = b_d b /\ b_cd b' = b_cd b /\ b_alloc b' = b_alloc b /\ b_max_size b' = b_max_size b /\
  b_readonly b' = b_readonly b /\ b_refcount b' = b_refcount b /\ b_parent b' = b_parent b.
Proof. unfold sshbuf_maybe_pack. by repeat case_match. Qed.

(** The block is where it was, or where the allocator put the new one. *)
Lemma recallocarray_addr q m old new p m' :
  recallocarray (Some q) m old new = Some (p, m') -> p = q \/ heap_alloc new = Some p.
Proof.
  unfold recallocarray. destruct (_ && _ && _); [intros [= <- _]; by left|].
  destruct (heap_alloc new); simpl; [|done]. intros [= <- _]. by right.
Qed.

Lemma not_rw_reserve b len :
  sane b -> b_readonly b = true \/ b_refcount b <> 1 ->
  sshbuf_check_reserve b len = SSH_ERR_BUFFER_READ_ONLY.
Proof.
  intros [Hwf _] Hn. unfold sshbuf_check_reserve. rewrite sanity_ok by done. simpl.
  destruct Hn as [->|Hn]; [done|]. destruct Hwf.
  rewrite (proj2 (Z.ltb_lt 1 (b_refcount b))) by lia. by rewrite orb_true_r.
Qed.

Lemma sane_rw_dec b : sane b -> buf_rw b \/ (b_readonly b = true \/ b_refcount b <> 1).
Proof.
  intros [Hwf _]. destruct (b_readonly b) eqn:Hro; [by right; left|].
  destruct (Z.eq_dec (b_refcount b) 1); [left|by right; right]. by split.
Qed.

Lemma rlen_grows b len :
  buf_wf b -> 0 <= len < 2 ^ 62 -> b_alloc b < u64 (len + b_size b) ->
  let need := u64 (len + b_size b - b_alloc b) in
  let r := ROUNDUP (u64 (b_alloc b + need)) SSHBUF_SIZE_INC in
  b_alloc b <= (if b_max_size b <? r then u64 (b_alloc b + need) else r).
Proof.
  intros [] Hlen Hfit. unfold SSHBUF_SIZE_MAX in *. cbv zeta.
  rewrite (u64_id (len + _)) in Hfit by lia. rewrite (u64_id (len + b_size b - b_alloc b)) by lia.
  rewrite (u64_id (b_alloc b + _)) by lia.
  pose proof (ROUNDUP_bounds (b_alloc b + (len + b_size b - b_alloc b)) ltac:(lia)).
  case_match; lia.
Qed.

Lemma Keeps_allocate len : 0 <= len < 2 ^ 62 -> Keeps (sshbuf_allocate len).
Proof.
  intros Hlen b Hb. destruct (sane_rw_dec b Hb) as [Hrw|Hn].
  2:{ unfold sshbuf_allocate. rewrite not_rw_reserve by done. by apply keeps_buf_refl. }
  destruct (allocate_rw b len Hrw Hlen) as (Hb' & [= _ Hmax] & _).
  pose proof Hrw as [Hwf Hro Hrc]. destruct Hb as [_ Hi]. specialize (Hi Hro) as [Hi Hm].
  enough (b_parent (snd (sshbuf_allocate len b)) = b_parent b /\
          b_alloc b <= b_alloc (snd (sshbuf_allocate len b)) /\
          let d := b_d (snd (sshbuf_allocate len b)) in
          (d = b_d b \/ exists n, is_Some (heap_alloc n) /\ d = heap_alloc n)) as (Hp & Ha & Hd).
  { destruct Hb' as [Hwf' Hro' Hrc']. split; [|congruence..|by right].
    split; [done|]. intros _. split; lia. }
  unfold sshbuf_allocate in *. destruct (truthy _); [simpl; auto with lia|].
  destruct (pack_rw b (b_max_size b <? u64 (b_size b + len)) Hrw) as (Hb1 & _ & _ & Hsz & Hf).
  pose proof (pack_fields b (b_max_size b <? u64 (b_size b + len)))
    as (Ed & _ & Ea & Em & _ & _ & Ep).
  set (b1 := sshbuf_maybe_pack b _) in *. clearbody b1.
  destruct (Z.leb_spec (u64 (len + b_size b1)) (b_alloc b1)) as [Hfit|Hfit].
  { simpl. rewrite Ed, Ea, Ep. auto with lia. }
  destruct (recallocarray _ _ _ _) as [[p m]|] eqn:Hre; [|simpl; rewrite Ed, Ea, Ep; auto with lia].
  pose proof (rlen_grows b1 len (rw_wf _ Hb1) Hlen Hfit) as Hbig. cbv zeta in Hbig.
  clear Hb' Hmax.
  assert (Hq : exists q, b_d b1 = Some q).
  { destruct (rw_wf _ Hb1) as [Hcd Hdc]. rewrite <- (Hdc (rw_readonly _ Hb1)) in Hcd.
    destruct (b_d b1); [eauto|done]. }
  destruct Hq as [q Hq]. rewrite Hq in Hre. apply recallocarray_addr in Hre.
  assert (Hd : Some p = b_d b \/ exists n, is_Some (heap_alloc n) /\ Some p = heap_alloc n).
  { rewrite <- Ed, Hq. destruct Hre as [->|Hre]; [by left|right; eauto]. }
  destruct (_ <? 0); simpl; rewrite Ep; auto with lia.
Qed.

(** Filling the room that sshbuf_reserve made. *)
Lemma Keeps_reserve (w : Z -> SE sshbuf Z ()) data :
  zlen data < 2 ^ 62 ->
  (forall b p, 0 <= p -> p + zlen data <= zlen (b_mem b) ->
     w p b = (inr tt, set_mem (zwrite p data (b_mem b)) b)) ->
  Keeps (p ← sshbuf_reserve (zlen data); w p).
Proof.
  intros Hlen Hw b Hb. pose proof (zlen_nonneg data) as Hd.
  pose proof (Keeps_allocate (zlen data) ltac:(lia) b Hb) as Hk.
  destruct (sane_rw_dec b Hb) as [Hrw|Hn].
  2:{ unfold sshbuf_reserve, sshbuf_allocate, mbind, SE_bind. rewrite not_rw_reserve by done.
      by apply keeps_buf_refl. }
  destruct (Puts_reserve w data Hlen Hw b Hrw) as [Hb' _].
  destruct (allocate_rw b (zlen data) Hrw ltac:(lia)) as (Hb1 & _ & Hr).
  unfold sshbuf_reserve, mbind, SE_bind in *.
  destruct (sshbuf_allocate _ b) as [[r|[]] b1]; simpl in *; [done|].
  pose proof (rw_wf _ Hb1) as Hwf. rewrite Hw in * by (simpl; destruct Hwf; lia). simpl in *.
  destruct Hk as [Sk Rk Ck Pk Mk Bk]. destruct Hrw as [_ Hro Hrc].
  split; simpl; try done.
  - split; [apply Hb'|]. apply Sk.
  - right. split; [done|]. split; [done|]. destruct Bk as [(_ & Ed & _)|(_ & _ & Ed)]; auto.
Qed.

(** Zeros over the first bytes of a block that is long enough. *)
Lemma keeps_zero b :
  sane b -> b_readonly b = false -> b_refcount b = 1 ->
  keeps b (set_mem (zwrite 0 (zfill SSHBUF_SIZE_INIT) (b_mem b)) b).
Proof.
  intros [[Hcd Hd Hr Ho Hs Ha Hm Hl] Hi] Hro Hrc. specialize (Hi Hro) as [Hi Hm'].
  assert (Hz : zlen (zwrite 0 (zfill SSHBUF_SIZE_INIT) (b_mem b)) = b_alloc b).
  { rewrite zlen_zwrite; [done|lia|]. rewrite zlen_zfill; unfold SSHBUF_SIZE_INIT in *; lia. }
  split; try done. right. auto.
Qed.

(** A block of the initial size, when the allocator grants it. *)
Lemma keeps_shrink b :
  sane b -> b_readonly b = false -> b_refcount b = 1 -> b_size b <= SSHBUF_SIZE_INIT ->
  match recallocarray (b_d b) (b_mem b) (b_alloc b) SSHBUF_SIZE_INIT with
  | Some (p, m) => keeps b (set_block p m SSHBUF_SIZE_INIT b)
  | None => True
  end.
Proof.
  intros [Hwf Hi] Hro Hrc Hsz. specialize (Hi Hro) as [Hi Hm].
  pose proof (grow_rw b SSHBUF_SIZE_INIT (Build_buf_rw _ Hwf Hro Hrc)) as Hg.
  unfold SSHBUF_SIZE_INIT, SSHBUF_SIZE_MAX in *. specialize (Hg ltac:(lia)).
  destruct (b_d b) as [q|] eqn:Hq.
  2:{ destruct Hwf as [Hcd Hdc]. by rewrite <- (Hdc Hro), Hq in Hcd. }
  destruct (recallocarray _ _ _ _) as [[p m]|] eqn:Hre; [|done].
  destruct Hg as [[Hwf' Hro' Hrc'] _]. apply recallocarray_addr in Hre.
  split; try done. right. split; [done|]. split; [done|]. simpl. rewrite Hq.
  destruct Hre as [->|Hre]; [by left|right; eauto].
Qed.

Lemma Keeps_reset : Keeps (modify sshbuf_reset).
Proof.
  intros b Hb. pose proof Hb as [Hwf _]. simpl. unfold sshbuf_reset.
  destruct (b_readonly b || (1 <? b_refcount b)) eqn:Hs.
  { destruct Hwf. apply keeps_window; done || lia. }
  apply orb_false_elim in Hs as [Hro Hrc%Z.ltb_ge].
  assert (Hrc1 : b_refcount b = 1) by (destruct Hwf; lia).
  pose proof (keeps_window b 0 0 Hb ltac:(lia) ltac:(destruct Hwf; lia)) as Hk.
  eapply keeps_buf_trans; [exact Hk|].
  assert (Hs0 : b_size (set_off_size 0 0 b) <= SSHBUF_SIZE_INIT) by done.
  set (b0 := set_off_size 0 0 b) in *.
  rewrite <- (k_readonly _ _ Hk) in Hro. rewrite <- (k_refcount _ _ Hk) in Hrc1.
  apply k_sane in Hk. clearbody b0. clear Hb Hwf Hrc b.
  destruct (_ =? SSHBUF_SIZE_INIT); [by apply keeps_zero|].
  pose proof (keeps_shrink b0 Hk Hro Hrc1 Hs0) as Hk1.
  destruct (recallocarray _ _ _ _) as [[p m]|]; [|by apply keeps_zero].
  eapply keeps_buf_trans; [exact Hk1|]. by apply keeps_zero; [apply (k_sane _ _ Hk1)|..].
Qed.

Lemma Keeps_poke data n : zlen data = n -> n < 2 ^ 62 ->
  Keeps (p ← sshbuf_reserve n; poke p data).
Proof. intros <- ?. by apply Keeps_reserve. Qed.

Lemma Keeps_put v : zlen v < 2 ^ 62 -> Keeps (sshbuf_put v (zlen v)).
Proof.
  intros Hv. apply Keeps_reserve; [done|]. intros b p Hp Hb. rewrite ztake_all by lia.
  unfold truthy. destruct (Z.eqb_spec (zlen v) 0) as [Hz|]; simpl; [|done].
  apply zlen_0_nil in Hz as ->. rewrite zwrite_nil by done. by destruct b.
Qed.

Lemma Keeps_put_string v : Keeps (sshbuf_put_string v (zlen v)).
Proof.
  unfold sshbuf_put_string. destruct (Z.ltb_spec (SSHBUF_SIZE_MAX - 4) (zlen v)).
  { by apply Keeps_same. }
  assert (Hz : zlen (POKE_U32 (zlen v) ++ v) = zlen v + 4) by zlia.
  rewrite <- Hz at 1. apply Keeps_reserve; [unfold SSHBUF_SIZE_MAX in *; lia|].
  intros b p Hp Hb. rewrite ztake_all by lia. unfold mbind, SE_bind, poke, when, truthy, modify.
  destruct (Z.eqb_spec (zlen v) 0) as [Hz0|]; cbn [negb].
  - apply zlen_0_nil in Hz0 as ->. by rewrite app_nil_r.
  - change (p + 4) with (p + zlen (POKE_U32 (zlen v))). unfold set_mem. simpl.
    rewrite zwrite_adjacent by zlia. done.
Qed.

(** Every operation on a buffer respects sharing. *)
Lemma Keeps_op o : op_ok o -> Keeps (exec_op o).
Proof.
  destruct o as [| | | |v|v|v| | | | | | |n|n|]; simpl; intros Ho; apply Keeps_vmap;
    try solve [by apply Keeps_poke | by apply Keeps_read].
  - by apply Keeps_put.
  - apply Keeps_put_string.
  - apply Keeps_put_string.
  - apply Keeps_get_string.
  - apply Keeps_get_cstring.
  - apply Keeps_read. lia.
  - apply Keeps_consume. lia.
  - apply Keeps_reset.
Qed.
End keeps.

(** ** The invariant of the memory *)

(** The structures whose parent is [p]. *)
Definition children (m : gmap Z hdr) (p : Z) : Z :=
  Z.of_nat (size (filter (fun kv : Z * hdr => h_parent kv.2 = Some p) m)).

Definition b2z (P : Prop) `{Decision P} : Z := if decide P then 1 else 0.

Lemma b2z_iff P Q `{Decision P, Decision Q} : (P <-> Q) -> b2z P = b2z Q.
Proof. intros HPQ. unfold b2z. repeat case_decide; done || tauto. Qed.
Lemma b2z_True P `{Decision P} : P -> b2z P = 1.
Proof. intros HP. unfold b2z. by rewrite decide_True. Qed.
Lemma b2z_False P `{Decision P} : ~ P -> b2z P = 0.
Proof. intros HP. unfold b2z. by rewrite decide_False. Qed.

Lemma children_new m c h p :
  m !! c = None -> children (<[c := h]> m) p = children m p + b2z (h_parent h = Some p).
Proof.
  intros Hc. unfold children, b2z. destruct (decide (h_parent h = Some p)).
  - rewrite map_filter_insert_True, map_size_insert_None by (done || by apply map_lookup_filter_None; left).
    lia.
  - rewrite map_filter_insert_False, delete_id by done. lia.
Qed.

Lemma children_update m c h h' p :
  m !! c = Some h -> h_parent h' = h_parent h -> children (<[c := h']> m) p = children m p.
Proof.
  intros Hc Hp. unfold children. f_equal. destruct (decide (h_parent h = Some p)).
  - rewrite map_filter_insert_True by (simpl; congruence).
    apply map_size_insert_Some. exists h. by apply map_lookup_filter_Some.
  - rewrite map_filter_insert_False, map_filter_delete, delete_id; [done| |simpl; congruence].
    apply map_lookup_filter_None. right. intros h0 Hh0. simpl. congruence.
Qed.

Lemma children_delete m c h p :
  m !! c = Some h -> children (delete c m) p = children m p - b2z (h_parent h = Some p).
Proof.
  intros Hc. pose proof (children_new (delete c m) c h p (lookup_delete_eq _ _)) as Hn.
  rewrite insert_delete_id in Hn by done. lia.
Qed.

Lemma children_nonneg m p : 0 <= children m p.
Proof. unfold children. lia. Qed.

Lemma children_pos m c h p : m !! c = Some h -> h_parent h = Some p -> 1 <= children m p.
Proof.
  intros Hc Hp. pose proof (children_delete m c h p Hc) as Hd.
  pose proof (children_nonneg (delete c m) p). unfold b2z in Hd.
  rewrite decide_True in Hd by done. lia.
Qed.

(** Without children of its own, [p] is nobody's parent. *)
Lemma children_none m p : children m p = 0 <-> (forall c h, m !! c = Some h -> h_parent h <> Some p).
Proof.
  split.
  - intros H0 c h Hc Hp. pose proof (children_pos m c h p Hc Hp). lia.
  - intros Hn. unfold children. enough (filter (fun kv : Z * hdr => h_parent kv.2 = Some p) m = ∅) as -> by done.
    apply map_empty. intros c. apply map_lookup_filter_None. right. intros h Hc. by apply (Hn c).
Qed.

(** A buffer that owns its block, and a view of one. *)
Definition root_ok (s : mem) (h : hdr) : Prop :=
  exists k bytes, h_d h = Some (k, 0) /\ h_cd h = Some (k, 0) /\ blocks s !! k = Some bytes /\
    h_parent h = None /\ sane (to_sshbuf h bytes).
Definition view_ok (s : mem) (h : hdr) : Prop :=
  exists q hq k o bytes, h_parent h = Some q /\ bufs s !! q = Some hq /\ h_readonly hq = false /\
    h_cd hq = Some (k, 0) /\ h_d h = None /\ h_cd h = Some (k, o) /\ blocks s !! k = Some bytes /\
    0 <= o /\ o + h_alloc h <= zlen bytes /\ h_refcount h = 1 /\
    sane (to_sshbuf h (ztake (h_alloc h) (zdrop o bytes))).

(** [x] is a reference that is neither a handle nor a child. *)
Record good_with (s : mem) (own : gset Z) (x : option Z) : Prop := {
  g_root : forall p h, bufs s !! p = Some h -> h_readonly h = false -> root_ok s h;
  g_view : forall p h, bufs s !! p = Some h -> h_readonly h = true -> view_ok s h /\ p ∈ own;
  g_refs : forall p h, bufs s !! p = Some h ->
    h_refcount h = b2z (p ∈ own) + children (bufs s) p + b2z (x = Some p);
  g_own : forall p, p ∈ own -> is_Some (bufs s !! p);
  g_inj : forall p q hp hq k, bufs s !! p = Some hp -> bufs s !! q = Some hq ->
    h_d hp = Some (k, 0) -> h_d hq = Some (k, 0) -> p = q;
  g_blk : forall k, is_Some (blocks s !! k) ->
    exists p h, bufs s !! p = Some h /\ h_d h = Some (k, 0)
}.
Abbreviation good s own := (good_with s own None).

Lemma elem_of_snoc (own : gset Z) p q : q ∈ own ∪ {[p]} <-> q ∈ own \/ q = p.
Proof. set_solver. Qed.

Section invariant.
Implicit Types (s : mem) (own : gset Z) (x : option Z).

(** Every structure sees a block, and that block has one owner. *)
Lemma block_of s own x c h :
  good_with s own x -> bufs s !! c = Some h ->
  exists k o bytes r hr,
    h_cd h = Some (k, o) /\ blocks s !! k = Some bytes /\ 0 <= o /\ o + h_alloc h <= zlen bytes /\
    sane (to_sshbuf h (ztake (h_alloc h) (zdrop o bytes))) /\
    bufs s !! r = Some hr /\ h_readonly hr = false /\ h_d hr = Some (k, 0) /\
    (r = c \/ h_parent h = Some r).
Proof.
  intros Hg Hc. destruct (h_readonly h) eqn:Hro.
  - destruct (g_view _ _ _ Hg c h Hc Hro)
      as [(q & hq & k & o & bytes & Hp & Hq & Hqr & Hqc & _ & Hcd & Hk & Ho & Ha & _ & Hs) _].
    destruct (g_root _ _ _ Hg q hq Hq Hqr) as (k' & b' & Hd' & Hcd' & _).
    assert (k' = k) as -> by congruence. exists k, o, bytes, q, hq. split_and!; auto.
  - destruct (g_root _ _ _ Hg c h Hc Hro) as (k & bytes & Hd & Hcd & Hk & _ & Hs).
    pose proof (wf_mem _ (proj1 Hs)) as Hl. simpl in Hl.
    exists k, 0, bytes, c, h. rewrite zdrop_0, ztake_all by lia. split_and!; auto; lia.
Qed.

Lemma bytes_at_ok s own x c h :
  good_with s own x -> bufs s !! c = Some h ->
  exists bytes, bytes_at s h = Some bytes /\ sane (to_sshbuf h bytes).
Proof.
  intros Hg Hc. destruct (block_of s own x c h Hg Hc)
    as (k & o & bytes & r & hr & Hcd & Hk & _ & _ & Hs & _).
  unfold bytes_at. rewrite Hcd. simpl. rewrite Hk. simpl. eauto.
Qed.

Lemma root_bytes s h k bytes :
  h_cd h = Some (k, 0) -> blocks s !! k = Some bytes -> sane (to_sshbuf h bytes) ->
  bytes_at s h = Some bytes.
Proof.
  intros Hcd Hk [Hs _]. pose proof (wf_mem _ Hs) as Hl. simpl in Hl.
  unfold bytes_at. rewrite Hcd. simpl. rewrite Hk. simpl. by rewrite zdrop_0, ztake_all by lia.
Qed.

(** The block of another buffer, unless that is a view of this one. *)
Lemma other_block s own x p h k c hc k' o :
  good_with s own x -> bufs s !! p = Some h -> h_d h = Some (k, 0) ->
  bufs s !! c = Some hc -> c <> p -> h_parent hc <> Some p -> h_cd hc = Some (k', o) -> k' <> k.
Proof.
  intros Hg Hp Hd Hc Hne Hpar Hcd ->.
  destruct (block_of s own x c hc Hg Hc) as (k' & o' & b & r & hr & Hcd' & _ & _ & _ & _ & Hr & _ & Hdr & Hrc).
  assert (k' = k) as -> by congruence.
  pose proof (g_inj _ _ _ Hg r p hr h k Hr Hp Hdr Hd) as ->. by destruct Hrc.
Qed.

(** A structure with a new window or count over the same block. *)
Lemma good_replace s own x own' x' p h h' bytes :
  good_with s own x -> bufs s !! p = Some h -> bytes_at s h = Some bytes ->
  h_d h' = h_d h -> h_cd h' = h_cd h -> h_alloc h' = h_alloc h ->
  h_readonly h' = h_readonly h -> h_parent h' = h_parent h ->
  sane (to_sshbuf h' bytes) ->
  (h_readonly h = true -> h_refcount h' = 1 /\ p ∈ own') ->
  (forall q, q <> p -> (q ∈ own' <-> q ∈ own) /\ (x' = Some q <-> x = Some q)) ->
  h_refcount h' = b2z (p ∈ own') + children (bufs s) p + b2z (x' = Some p) ->
  good_with (set_bufs (insert p h') s) own' x'.
Proof.
  intros Hg Hp Hb Ed Ec Ea Er Ep Hs Hv Ho Hrc.
  assert (Hlook : forall q hq, <[p := h']> (bufs s) !! q = Some hq ->
            exists hq0, bufs s !! q = Some hq0 /\ h_readonly hq = h_readonly hq0 /\
                        h_d hq = h_d hq0 /\ h_cd hq = h_cd hq0).
  { intros q hq [[<- <-]|[? ?]]%lookup_insert_Some; eauto. }
  split; simpl.
  - intros q hq [[<- <-]|[Hne Hq]]%lookup_insert_Some Hro; [|by apply (g_root _ _ _ Hg q)].
    rewrite Er in Hro. destruct (g_root _ _ _ Hg p h Hp Hro) as (k & b & Hd & Hcd & Hk & Hpar & Hsn).
    exists k, b. rewrite (root_bytes s h k b) in Hb by done. simplify_eq.
    split_and!; try done; congruence.
  - intros q hq [[<- <-]|[Hne Hq]]%lookup_insert_Some Hro.
    + rewrite Er in Hro. split; [|by apply Hv].
      destruct (g_view _ _ _ Hg p h Hp Hro)
        as [(q & hq & k & o & b & Hpar & Hq & Hqr & Hqc & Hd & Hcd & Hk & Ho0 & Ha & Hrf & Hsn) _].
      assert (Hqp : q <> p) by (intros ->; congruence).
      exists q, hq, k, o, b. unfold bytes_at in Hb. rewrite Hcd in Hb. simpl in Hb.
      rewrite Hk in Hb. simpl in Hb. injection Hb as <-. simpl. rewrite lookup_insert_ne by done.
      rewrite Ea, Ed, Ec, Ep. split_and!; try done. by apply Hv.
    + destruct (g_view _ _ _ Hg q hq Hq Hro)
        as [(r & hr & k & o & b & Hpar & Hr & Hrr & Hrc' & Hd & Hcd & Hrest) Hin].
      split; [|by apply Ho].
      destruct (decide (r = p)) as [->|Hrp].
      * exists p, h', k, o, b. simpl. rewrite lookup_insert_eq. simplify_eq.
        rewrite Er, Ec. done.
      * exists r, hr, k, o, b. simpl. by rewrite lookup_insert_ne.
  - intros q hq Hq. rewrite (children_update _ p h) by done.
    apply lookup_insert_Some in Hq as [[<- <-]|[Hne Hq]]; [done|].
    rewrite (g_refs _ _ _ Hg q hq Hq). destruct (Ho q ltac:(done)) as [Hi Hx].
    by rewrite (b2z_iff _ _ Hi), (b2z_iff _ _ Hx).
  - intros q Hq. destruct (decide (q = p)) as [->|Hne]; [by rewrite lookup_insert_eq|].
    rewrite lookup_insert_ne by done. apply (g_own _ _ _ Hg). by apply (Ho q).
  - intros q r hq hr k (hq0 & Hq & _ & -> & _)%Hlook (hr0 & Hr & _ & -> & _)%Hlook.
    by apply (g_inj _ _ _ Hg).
  - intros k Hk. destruct (g_blk _ _ _ Hg k Hk) as (q & hq & Hq & Hd).
    destruct (decide (q = p)) as [->|Hne].
    + exists p, h'. rewrite lookup_insert_eq. split; [done|]. congruence.
    + exists q, hq. by rewrite lookup_insert_ne.
Qed.

(** A new buffer with its own block. *)
Lemma good_new_root s own p h k bytes :
  good s own -> bufs s !! p = None -> blocks s !! k = None ->
  h_d h = Some (k, 0) -> h_cd h = Some (k, 0) -> h_readonly h = false -> h_parent h = None ->
  h_refcount h = 1 -> sane (to_sshbuf h bytes) ->
  good (mk_mem (<[p := h]> (bufs s)) (<[k := bytes]> (blocks s))) (own ∪ {[p]}).
Proof.
  intros Hg Hp Hk Ed Ec Er Ep Hrc Hs.
  assert (Hpo : p ∉ own) by (intros [? Hx]%(g_own _ _ _ Hg); congruence).
  assert (Hch : children (bufs s) p = 0).
  { apply children_none. intros c hc Hc Hpar. destruct (h_readonly hc) eqn:Hro.
    - destruct (g_view _ _ _ Hg c hc Hc Hro) as [(q & hq & _ & _ & _ & Hq1 & Hq2 & _) _]. congruence.
    - destruct (g_root _ _ _ Hg c hc Hc Hro) as (_ & _ & _ & _ & _ & Hn & _). congruence. }
  assert (Hblk : forall k' b, blocks s !! k' = Some b -> <[k := bytes]> (blocks s) !! k' = Some b).
  { intros k' b Hb. rewrite lookup_insert_ne; [done|]. congruence. }
  split; simpl.
  - intros q hq [[<- <-]|[Hne Hq]]%lookup_insert_Some Hro.
    + exists k, bytes. simpl. by rewrite lookup_insert_eq.
    + destruct (g_root _ _ _ Hg q hq Hq Hro) as (k' & b & ? & ? & Hb & ?).
      exists k', b. simpl. by rewrite (Hblk k' b).
  - intros q hq [[<- <-]|[Hne Hq]]%lookup_insert_Some Hro; [congruence|].
    destruct (g_view _ _ _ Hg q hq Hq Hro)
      as [(r & hr & k' & o & b & Hpar & Hr & Hrr & Hrc' & Hd & Hcd & Hb & Hrest) Hin].
    split; [|set_solver]. exists r, hr, k', o, b. simpl.
    by rewrite lookup_insert_ne, (Hblk k' b) by congruence.
  - intros q hq Hq. rewrite (children_new _ p h) by done. rewrite Ep.
    rewrite (b2z_False (None = Some q)) by done.
    apply lookup_insert_Some in Hq as [[<- <-]|[Hne Hq]].
    + rewrite b2z_True by set_solver. lia.
    + rewrite (g_refs _ _ _ Hg q hq Hq), (b2z_iff (q ∈ own ∪ {[p]}) (q ∈ own)) by set_solver.
      rewrite (b2z_False (None = Some q)) by done. lia.
  - intros q [Hq| ->]%elem_of_snoc; [|by rewrite lookup_insert_eq].
    rewrite lookup_insert_ne by set_solver. by apply (g_own _ _ _ Hg).
  - assert (Hnew : forall q hq, bufs s !! q = Some hq -> h_d hq <> Some (k, 0)).
    { intros q hq Hq Hd. destruct (h_readonly hq) eqn:Hro.
      - destruct (g_view _ _ _ Hg q hq Hq Hro) as [(? & ? & ? & ? & ? & ? & ? & ? & ? & Hd' & _) _]. congruence.
      - destruct (g_root _ _ _ Hg q hq Hq Hro) as (? & ? & Hd' & _ & Hb & _). congruence. }
    intros q r hq hr k' [[<- <-]|[? Hq]]%lookup_insert_Some [[<- <-]|[? Hr]]%lookup_insert_Some Hd1 Hd2.
    + done.
    + destruct (Hnew r hr Hr). congruence.
    + destruct (Hnew q hq Hq). congruence.
    + by eapply (g_inj _ _ _ Hg).
  - intros k' [b Hb]. apply lookup_insert_Some in Hb as [[<- <-]|[Hne Hb]].
    + exists p, h. by rewrite lookup_insert_eq.
    + destruct (g_blk _ _ _ Hg k' (mk_is_Some _ _ Hb)) as (q & hq & Hq & Hd).
      exists q, hq. by rewrite lookup_insert_ne by congruence.
Qed.

(** A view takes up the spare reference of its parent. *)
Lemma good_add_view s own p h c v k o bytes :
  good_with s own (Some p) -> bufs s !! p = Some h -> h_readonly h = false ->
  bufs s !! c = None -> h_cd h = Some (k, 0) -> blocks s !! k = Some bytes ->
  h_d v = None -> h_cd v = Some (k, o) -> 0 <= o -> o + h_alloc v <= zlen bytes ->
  h_refcount v = 1 -> h_readonly v = true -> h_parent v = Some p ->
  sane (to_sshbuf v (ztake (h_alloc v) (zdrop o bytes))) ->
  good (set_bufs (insert c v) s) (own ∪ {[c]}).
Proof.
  intros Hg Hp Hpr Hc Hcd Hk Ed Ec Ho Hl Hrc Hro Hpar Hs.
  assert (Hco : c ∉ own) by (intros [? Hx]%(g_own _ _ _ Hg); congruence).
  assert (Hcp : p <> c) by congruence.
  assert (Hch : children (bufs s) c = 0).
  { apply children_none. intros q hq Hq Hqp. destruct (h_readonly hq) eqn:Hqr.
    - destruct (g_view _ _ _ Hg q hq Hq Hqr) as [(? & ? & ? & ? & ? & ? & ? & _) _]. congruence.
    - destruct (g_root _ _ _ Hg q hq Hq Hqr) as (? & ? & ? & ? & ? & ? & _). congruence. }
  split; simpl.
  - intros q hq [[<- <-]|[Hne Hq]]%lookup_insert_Some Hqr; [congruence|].
    by apply (g_root _ _ _ Hg q).
  - intros q hq [[<- <-]|[Hne Hq]]%lookup_insert_Some Hqr.
    + split; [|set_solver]. exists p, h, k, o, bytes. simpl. by rewrite lookup_insert_ne.
    + destruct (g_view _ _ _ Hg q hq Hq Hqr) as [(r & hr & k' & o' & b & Hpr' & Hr & Hrest) Hin].
      split; [|set_solver]. exists r, hr, k', o', b. simpl. by rewrite lookup_insert_ne by congruence.
  - intros q hq Hq. rewrite (children_new _ c v), Hpar by done.
    rewrite (b2z_False (None = Some q)) by done.
    apply lookup_insert_Some in Hq as [[<- <-]|[Hne Hq]].
    + rewrite (b2z_True (c ∈ _)) by set_solver. rewrite b2z_False by congruence. lia.
    + rewrite (g_refs _ _ _ Hg q hq Hq), (b2z_iff (q ∈ own ∪ {[c]}) (q ∈ own)) by set_solver. lia.
  - intros q [Hq| ->]%elem_of_snoc; [|by rewrite lookup_insert_eq].
    rewrite lookup_insert_ne by set_solver. by apply (g_own _ _ _ Hg).
  - intros q r hq hr k' [[<- <-]|[? Hq]]%lookup_insert_Some [[<- <-]|[? Hr]]%lookup_insert_Some Hd1 Hd2;
      try congruence. by eapply (g_inj _ _ _ Hg).
  - intros k' Hb. destruct (g_blk _ _ _ Hg k' Hb) as (q & hq & Hq & Hd).
    exists q, hq. by rewrite lookup_insert_ne by congruence.
Qed.

(** A view that goes away leaves a spare reference to its parent. *)
Lemma good_remove_view s own c v q :
  good s own -> bufs s !! c = Some v -> h_readonly v = true -> h_parent v = Some q ->
  good_with (set_bufs (delete c) s) (own ∖ {[c]}) (Some q).
Proof.
  intros Hg Hc Hro Hpar.
  assert (Hkeep : forall p h, delete c (bufs s) !! p = Some h -> p <> c /\ bufs s !! p = Some h).
  { intros p h [? ?]%lookup_delete_Some. done. }
  split; simpl.
  - intros p h [_ Hp]%Hkeep. by apply (g_root _ _ _ Hg p).
  - intros p h [Hne Hp]%Hkeep Hpr.
    destruct (g_view _ _ _ Hg p h Hp Hpr) as [(r & hr & k & o & b & Hpr' & Hr & Hrr & Hrest) Hin].
    split; [|set_solver]. exists r, hr, k, o, b. simpl. by rewrite lookup_delete_ne by congruence.
  - intros p h [Hne Hp]%Hkeep. rewrite (g_refs _ _ _ Hg p h Hp), (children_delete _ c v), Hpar by done.
    rewrite (b2z_iff (p ∈ own ∖ {[c]}) (p ∈ own)) by set_solver.
    rewrite (b2z_False (None = Some p)) by done. lia.
  - intros p [Hp Hne]%elem_of_difference. rewrite lookup_delete_ne by set_solver.
    by apply (g_own _ _ _ Hg).
  - intros p r hp hr k [_ Hp]%Hkeep [_ Hr]%Hkeep. by apply (g_inj _ _ _ Hg).
  - intros k Hk. destruct (g_blk _ _ _ Hg k Hk) as (p & h & Hp & Hd).
    exists p, h. rewrite lookup_delete_ne; [done|]. intros <-.
    destruct (g_view _ _ _ Hg c v Hc Hro) as [(? & ? & ? & ? & ? & ? & ? & ? & ? & Hd' & _) _].
    congruence.
Qed.

(** The last reference to a buffer frees it and its block. *)
Lemma good_remove_root s own p h k :
  good_with s own (Some p) -> bufs s !! p = Some h -> h_readonly h = false ->
  h_refcount h = 1 -> h_d h = Some (k, 0) ->
  good (mk_mem (delete p (bufs s)) (delete k (blocks s))) own.
Proof.
  intros Hg Hp Hro Hrc Hd. pose proof (g_refs _ _ _ Hg p h Hp) as Hrefs.
  pose proof (children_nonneg (bufs s) p) as Hcn.
  rewrite (b2z_True (Some p = Some p)) in Hrefs by done.
  assert (Hpo : p ∉ own).
  { intros Hi. rewrite b2z_True in Hrefs by done. lia. }
  rewrite b2z_False in Hrefs by done. assert (Hch : children (bufs s) p = 0) by lia.
  rewrite children_none in Hch.
  assert (Hpar : h_parent h = None) by (by destruct (g_root _ _ _ Hg p h Hp Hro) as (? & ? & ? & ? & ? & ? & _)).
  assert (Hblk : forall c hc k' o b, bufs s !! c = Some hc -> c <> p -> h_cd hc = Some (k', o) ->
            blocks s !! k' = Some b -> delete k (blocks s) !! k' = Some b).
  { intros c hc k' o b Hc Hne Hcd Hb. rewrite lookup_delete_ne; [done|].
    intros <-. exact (other_block s own (Some p) p h k c hc k o Hg Hp Hd Hc Hne (Hch c hc Hc) Hcd eq_refl). }
  split; simpl.
  - intros q hq [Hne Hq]%lookup_delete_Some Hqr.
    destruct (g_root _ _ _ Hg q hq Hq Hqr) as (k' & b & Hd' & Hcd' & Hb & Hrest).
    exists k', b. simpl. by rewrite (Hblk q hq k' 0 b).
  - intros q hq [Hne Hq]%lookup_delete_Some Hqr.
    destruct (g_view _ _ _ Hg q hq Hq Hqr)
      as [(r & hr & k' & o & b & Hpr' & Hr & Hrr & Hrcd & Hdn & Hcd & Hb & Hrest) Hin].
    split; [|done]. exists r, hr, k', o, b. simpl. rewrite (Hblk q hq k' o b) by done.
    rewrite lookup_delete_ne; [done|]. intros <-. by apply (Hch q hq).
  - intros q hq [Hne Hq]%lookup_delete_Some.
    rewrite (g_refs _ _ _ Hg q hq Hq), (children_delete _ p h), Hpar by done.
    rewrite !(b2z_False (None = Some q)) by done. rewrite (b2z_False (Some p = Some q)) by congruence. lia.
  - intros q Hq. rewrite lookup_delete_ne by set_solver. by apply (g_own _ _ _ Hg).
  - intros q r hq hr k' [_ Hq]%lookup_delete_Some [_ Hr]%lookup_delete_Some. by apply (g_inj _ _ _ Hg).
  - intros k' [b [Hne Hb]%lookup_delete_Some].
    destruct (g_blk _ _ _ Hg k' (mk_is_Some _ _ Hb)) as (q & hq & Hq & Hdq).
    exists q, hq. rewrite lookup_delete_ne by congruence. done.
Qed.

(** An unshared buffer with a new window, bytes and block. *)
Lemma good_new_block s own p h h' k k' bytes' :
  good s own -> bufs s !! p = Some h -> h_readonly h = false -> p ∈ own -> h_refcount h = 1 ->
  h_d h = Some (k, 0) -> (k' = k \/ blocks s !! k' = None) ->
  h_d h' = Some (k', 0) -> h_cd h' = Some (k', 0) -> h_readonly h' = false ->
  h_refcount h' = 1 -> h_parent h' = None -> sane (to_sshbuf h' bytes') ->
  good (mk_mem (<[p := h']> (bufs s))
          (<[k' := bytes']> (if k =? k' then blocks s else delete k (blocks s)))) own.
Proof.
  intros Hg Hp Hro Hpo Hrc Hd Hk' Ed Ec Er Erc Ep Hs.
  pose proof (g_refs _ _ _ Hg p h Hp) as Hrefs.
  rewrite (b2z_True (p ∈ own)), (b2z_False (None = Some p)) in Hrefs by done.
  assert (Hch : children (bufs s) p = 0) by lia. rewrite children_none in Hch.
  assert (Hpar : h_parent h = None) by (by destruct (g_root _ _ _ Hg p h Hp Hro) as (? & ? & ? & ? & ? & ? & _)).
  set (bl := <[k' := bytes']> _).
  assert (Hblk : forall c hc k1 o b, bufs s !! c = Some hc -> c <> p -> h_cd hc = Some (k1, o) ->
            blocks s !! k1 = Some b -> bl !! k1 = Some b).
  { intros c hc k1 o b Hc Hne Hcd Hb.
    assert (k1 <> k) by (eapply (other_block s own None p h k c hc); eauto).
    subst bl. rewrite lookup_insert_ne by (destruct Hk'; congruence).
    destruct (k =? k'); [done|]. by rewrite lookup_delete_ne. }
  split; simpl.
  - intros q hq [[<- <-]|[Hne Hq]]%lookup_insert_Some Hqr.
    + exists k', bytes'. subst bl. simpl. by rewrite lookup_insert_eq.
    + destruct (g_root _ _ _ Hg q hq Hq Hqr) as (k1 & b & Hd' & Hcd' & Hb & Hrest).
      exists k1, b. simpl. by rewrite (Hblk q hq k1 0 b) by auto.
  - intros q hq [[<- <-]|[Hne Hq]]%lookup_insert_Some Hqr; [congruence|].
    destruct (g_view _ _ _ Hg q hq Hq Hqr)
      as [(r & hr & k1 & o & b & Hpr' & Hr & Hrr & Hrcd & Hdn & Hcd & Hb & Hrest) Hin].
    split; [|done]. exists r, hr, k1, o, b. simpl. rewrite (Hblk q hq k1 o b) by auto.
    rewrite lookup_insert_ne; [done|]. intros <-. by apply (Hch q hq).
  - intros q hq Hq. rewrite (children_update _ p h) by congruence.
    apply lookup_insert_Some in Hq as [[<- <-]|[Hne Hq]]; [|by apply (g_refs _ _ _ Hg)].
    rewrite <- (g_refs _ _ _ Hg p h Hp). congruence.
  - intros q Hq. destruct (decide (q = p)) as [->|Hne]; [by rewrite lookup_insert_eq|].
    rewrite lookup_insert_ne by done. by apply (g_own _ _ _ Hg).
  - assert (Hnew : forall q hq, bufs s !! q = Some hq -> q <> p -> h_d hq <> Some (k', 0)).
    { intros q hq Hq Hne Hdq. destruct (h_readonly hq) eqn:Hqr.
      - destruct (g_view _ _ _ Hg q hq Hq Hqr) as [(? & ? & ? & ? & ? & ? & ? & ? & ? & Hd' & _) _]. congruence.
      - destruct (g_root _ _ _ Hg q hq Hq Hqr) as (? & ? & Hd' & _ & Hb & _).
        destruct Hk' as [->|Hk']; [|congruence]. by destruct (g_inj _ _ _ Hg q p hq h k Hq Hp Hdq Hd). }
    intros q r hq hr k1 [[<- <-]|[? Hq]]%lookup_insert_Some [[<- <-]|[? Hr]]%lookup_insert_Some Hd1 Hd2.
    + done.
    + destruct (Hnew r hr Hr); congruence.
    + destruct (Hnew q hq Hq); congruence.
    + by eapply (g_inj _ _ _ Hg).
  - intros k1 [b Hb]. subst bl. apply lookup_insert_Some in Hb as [[<- <-]|[Hne Hb]].
    + exists p, h'. by rewrite lookup_insert_eq.
    + assert (Hb' : blocks s !! k1 = Some b /\ k1 <> k).
      { destruct (Z.eqb_spec k k'); [subst; split; [done|congruence]|].
        apply lookup_delete_Some in Hb as [? ?]. done. }
      destruct Hb' as [Hb' Hk1]. destruct (g_blk _ _ _ Hg k1 (mk_is_Some _ _ Hb')) as (q & hq & Hq & Hdq).
      exists q, hq. rewrite lookup_insert_ne by congruence. done.
Qed.
End invariant.

(** ** The calls keep the invariant *)

Lemma reads_ext s s' c h h' :
  bufs s !! c = Some h -> bufs s' !! c = Some h' ->
  h_cd h' = h_cd h -> h_off h' = h_off h -> h_size h' = h_size h -> h_alloc h' = h_alloc h ->
  (forall k o, h_cd h = Some (k, o) -> blocks s' !! k = blocks s !! k) ->
  reads s' c = reads s c.
Proof.
  intros Hc Hc' Ec Eo Es Ea Hb. unfold reads. rewrite Hc, Hc'. simpl.
  assert (bytes_at s' h' = bytes_at s h) as ->.
  { unfold bytes_at. rewrite Ec, Ea. destruct (h_cd h) as [[k o]|]; simpl; [|done]. by rewrite (Hb k o). }
  destruct (bytes_at s h); simpl; [|done]. unfold contents. simpl. by rewrite Eo, Es.
Qed.

(** What a call may do to the buffers other than [p]. *)
Definition spares (own : gset Z) (p : Z) (s s' : mem) : Prop :=
  forall c, c ∈ own -> c <> p -> reads s' c = reads s c.

(** A structure was replaced, the blocks stay. *)
Lemma spares_insert own p h s : spares own p s (set_bufs (insert p h) s).
Proof. intros c _ Hne. unfold reads. simpl. by rewrite lookup_insert_ne. Qed.

Lemma spares_trans own p s1 s2 s3 : spares own p s1 s2 -> spares own p s2 s3 -> spares own p s1 s3.
Proof. intros H1 H2 c Hc Hne. by rewrite H2, H1. Qed.

Lemma moved_same old : moved old (fst <$> old) = old.
Proof. unfold moved. by rewrite bool_decide_eq_true_2. Qed.
Lemma moved_to old k' : moved (Some (old, 0)) (Some k') = Some (k', 0).
Proof. unfold moved. case_bool_decide; simpl in *; congruence. Qed.

(** The structures that sshbuf_from and sshbuf_set_parent write. *)
Definition view_hdr (k o len : Z) (parent : option Z) : hdr :=
  mk_hdr None (Some (k, o)) 0 len len len true 1 parent.
Definition with_refcount (n : Z) (h : hdr) : hdr :=
  mk_hdr (h_d h) (h_cd h) (h_off h) (h_size h) (h_max_size h) (h_alloc h) (h_readonly h) n (h_parent h).
Definition window (off size : Z) (h : hdr) : hdr :=
  mk_hdr (h_d h) (h_cd h) off size (h_max_size h) (h_alloc h) (h_readonly h) (h_refcount h) (h_parent h).

Lemma update_ok s p f h : bufs s !! p = Some h -> update p f s = (inr tt, set_bufs (insert p (f h)) s).
Proof. intros Hp. unfold update, load, mbind, SE_bind. by rewrite Hp. Qed.
Lemma load_ok s p h : bufs s !! p = Some h -> load p s = (inr h, s).
Proof. intros Hp. unfold load. by rewrite Hp. Qed.
Lemma check_sanity_ok s p h bytes :
  bufs s !! p = Some h -> buf_wf (to_sshbuf h bytes) -> check_sanity p s = (inr h, s).
Proof.
  intros Hp Hs. unfold check_sanity, load, mbind, SE_bind. rewrite Hp.
  change (sshbuf_check_sanity (to_sshbuf h [])) with (sshbuf_check_sanity (to_sshbuf h bytes)).
  by rewrite sanity_ok.
Qed.

Lemma view_sane k o len par bytes :
  0 <= len <= SSHBUF_SIZE_MAX -> zlen bytes = len -> sane (to_sshbuf (view_hdr k o len par) bytes).
Proof. intros. split; [|done]. split; simpl; try done; unfold SSHBUF_REFS_MAX; lia. Qed.

(** One more view of the [len] bytes at [o] in the block of [p]. *)
Lemma good_view s own p h k o len c :
  good s own -> p ∈ own -> bufs s !! p = Some h -> h_readonly h = false ->
  h_refcount h < SSHBUF_REFS_MAX -> h_cd h = Some (k, 0) ->
  0 <= o -> 0 <= len -> o + len <= h_alloc h -> bufs s !! c = None ->
  good (set_bufs (fun m => <[p := with_refcount (h_refcount h + 1) h]> (<[c := view_hdr k o len (Some p)]> m)) s)
    (own ∪ {[c]}).
Proof.
  intros Hg Hpo Hp Hro Hrc Hcd Ho Hl Hol Hc.
  destruct (g_root _ _ _ Hg p h Hp Hro) as (k0 & bytes & Hd & Hcd0 & Hk & Hpar & Hs).
  assert (k0 = k) as -> by congruence.
  pose proof (wf_mem _ (proj1 Hs)) as Hlen. simpl in Hlen.
  assert (Hg1 : good_with (set_bufs (insert p (with_refcount (h_refcount h + 1) h)) s) own (Some p)).
  { apply (good_replace s own None own (Some p) p h _ bytes); try done.
    - by apply (root_bytes s h k).
    - destruct Hs as [[] Hi]. split; [|done]. split; simpl in *; try done; lia.
    - congruence.
    - intros q Hne. split; [done|]. split; congruence.
    - simpl. rewrite (g_refs _ _ _ Hg p h Hp). rewrite (b2z_True (Some p = Some p)) by done.
      rewrite (b2z_False (None = Some p)) by done. lia. }
  pose proof (wf_max _ (proj1 Hs)) as Hmx. pose proof (wf_alloc _ (proj1 Hs)) as Hmx'. simpl in Hmx, Hmx'.
  pose proof (good_add_view _ own p (with_refcount (h_refcount h + 1) h) c (view_hdr k o len (Some p))
    k o bytes Hg1) as Hadd. simpl in Hadd. unfold set_bufs in *. simpl in *.
  rewrite insert_insert_ne by congruence. apply Hadd; try done.
  - by rewrite lookup_insert_eq.
  - by rewrite lookup_insert_ne by congruence.
  - lia.
  - apply view_sane; [lia|]. rewrite zlen_ztake; [done|]. rewrite zlen_zdrop; lia.
Qed.

(** The other buffers do not notice: their windows and blocks are the same. *)
Lemma reads_view s p h n c v q :
  bufs s !! p = Some h -> bufs s !! c = None -> q <> c ->
  reads (set_bufs (fun m => <[p := with_refcount n h]> (<[c := v]> m)) s) q = reads s q.
Proof.
  intros Hp Hc Hne. destruct (bufs s !! q) as [hq|] eqn:Hq.
  - destruct (decide (q = p)) as [->|Hqp].
    + apply (reads_ext _ _ p h (with_refcount n h)); simpl; try done. by rewrite lookup_insert_eq.
    + apply (reads_ext _ _ q hq hq); simpl; try done. by rewrite !lookup_insert_ne.
  - unfold reads. simpl. rewrite Hq, !lookup_insert_ne by congruence. by rewrite Hq.
Qed.

Section calls.
Context `{Malloc}.
Implicit Types (s : mem) (own : gset Z).

Lemma on_buf_ok {A} (m : Allocator -> SE sshbuf Z A) s own p :
  good s own -> p ∈ own -> (forall al, @Keeps al A (m al)) ->
  exists r s', on_buf p m s = (inr r, s') /\ good s' own /\ spares own p s s'.
Proof.
  intros Hg Hpo Hm. destruct (g_own _ _ _ Hg p Hpo) as [h Hp].
  destruct (bytes_at_ok s own None p h Hg Hp) as (bytes & Hb & Hs).
  unfold on_buf. rewrite Hp, Hb. specialize (Hm (alloc_in s) _ Hs).
  destruct (m (alloc_in s) (to_sshbuf h bytes)) as [r b] eqn:Hmb. simpl in Hm.
  exists r, (write_back p h b s). split; [done|].
  destruct Hm as [Sk Rk Ck Pk Mk Bk]. simpl in *.
  (* the block stays *)
  assert (Hstay : b_mem b = bytes /\ b_d b = fst <$> h_d h /\ b_cd b = fst <$> h_cd h /\
                  b_alloc b = h_alloc h ->
            good (set_bufs (insert p (of_sshbuf h b)) s) own /\
            spares own p s (set_bufs (insert p (of_sshbuf h b)) s)).
  { intros (Em & Ed & Ec & Ea). split; [|apply spares_insert].
    apply (good_replace s own None own None p h _ bytes); simpl; try done.
    - rewrite Ed. apply moved_same.
    - rewrite Ec. apply moved_same.
    - rewrite <- Em. replace (to_sshbuf (of_sshbuf h b) (b_mem b)) with b; [done|].
      destruct b; unfold to_sshbuf, of_sshbuf; simpl in *. rewrite Ed, Ec, !moved_same. done.
    - intros Hro. rewrite Ck. destruct (g_view _ _ _ Hg p h Hp Hro)
        as [(? & ? & ? & ? & ? & ? & ? & ? & ? & ? & ? & ? & ? & ? & ? & _) ?]. done.
    - rewrite Ck. apply (g_refs _ _ _ Hg p h Hp). }
  unfold write_back. rewrite Rk. destruct (h_readonly h) eqn:Hro.
  { destruct Bk as [Bk|[? _]]; [by apply Hstay|done]. }
  destruct (g_root _ _ _ Hg p h Hp Hro) as (k & bytes0 & Hd & Hcd & Hk & Hpar & Hs0).
  rewrite (root_bytes s h k bytes0) in Hb by done. injection Hb as ->.
  rewrite Hd. simpl.
  destruct Bk as [Bk|(_ & Hrc & Hbd)].
  { pose proof Bk as (Em & Ed & _ & _). rewrite Ed, Hd, Em. simpl. rewrite Z.eqb_refl.
    unfold set_blocks, set_bufs. simpl. rewrite (insert_id (blocks s)) by done. exact (Hstay Bk). }
  assert (Hk' : exists k', b_d b = Some k' /\ (k' = k \/ blocks s !! k' = None)).
  { destruct Hbd as [Ed|(n & [k' Hn] & Ed)].
    - exists k. rewrite Ed, Hd. auto.
    - exists k'. rewrite Ed. split; [done|]. right. by apply (malloc_fresh s n). }
  destruct Hk' as (k' & Ed & Hk'). rewrite Ed.
  assert (Ec : b_cd b = Some k') by (rewrite <- Ed; symmetry; apply (wf_dcd _ (proj1 Sk)); done).
  assert (Hob : of_sshbuf h b = mk_hdr (Some (k', 0)) (Some (k', 0)) (b_off b) (b_size b) (b_max_size b)
                  (b_alloc b) false 1 None).
  { unfold of_sshbuf. rewrite Ed, Ec, Hd, Hcd, !moved_to, Ck, Pk, Hrc, Hpar, Rk. done. }
  rewrite Hob. split.
  - apply (good_new_block s own p h _ k k' (b_mem b)); try done.
    enough (to_sshbuf (mk_hdr (Some (k', 0)) (Some (k', 0)) (b_off b) (b_size b) (b_max_size b)
                  (b_alloc b) false 1 None) (b_mem b) = b) as -> by done.
    destruct b; unfold to_sshbuf; simpl in *. congruence.
  - intros c Hco Hne. destruct (g_own _ _ _ Hg c Hco) as [hc Hc].
    apply (reads_ext _ _ c hc hc); simpl; [done|by rewrite lookup_insert_ne|done..|].
    intros k1 o Hcdc. assert (k1 <> k).
    { apply (other_block s own None p h k c hc k1 o); try done.
      pose proof (g_refs _ _ _ Hg p h Hp) as Hrefs.
      rewrite (b2z_True (p ∈ own)), (b2z_False (None = Some p)) in Hrefs by done.
      assert (Hch : children (bufs s) p = 0) by lia. rewrite children_none in Hch. by apply (Hch c). }
    assert (k1 <> k').
    { destruct Hk' as [->|Hk']; [done|]. intros ->.
      destruct (block_of s own None c hc Hg Hc) as (k2 & o2 & b2 & _ & _ & Hcd2 & Hb2 & _). congruence. }
    rewrite lookup_insert_ne by done. destruct (k =? k'); [done|]. by rewrite lookup_delete_ne.
Qed.

(** What a call with result [r] promises to a client that holds [own]. *)
Definition fulfils (own : gset Z) (touched : Z -> Prop) (c : call) (s : mem) : Prop :=
  exists r s', exec_call c s = (inr r, s') /\ good s' (handles c r own) /\
    (forall q, q ∈ own -> ~ touched q -> reads s' q = reads s q).

Lemma new_ok s own : good s own -> fulfils own (fun _ => False) CNew s.
Proof.
  intros Hg. unfold fulfils. simpl. unfold new_buf, calloc_hdr, mbind, SE_bind.
  destruct (malloc s sizeof_sshbuf) as [p|] eqn:Hp.
  2:{ exists None, s. done. }
  apply malloc_fresh in Hp as [Hp _]. set (s1 := set_bufs (insert p zero_hdr) s).
  unfold calloc_block. destruct (malloc s1 SSHBUF_SIZE_INIT) as [k|] eqn:Hk.
  2:{ exists None, s. simpl. unfold free_hdr, modify, set_bufs. simpl. rewrite delete_insert_id by done. by destruct s. }
  apply malloc_fresh in Hk as [_ Hk].
  rewrite (update_ok _ p _ zero_hdr) by (simpl; by rewrite lookup_insert_eq).
  eexists (Some p), _. split; [done|]. simpl. unfold set_bufs, set_blocks. simpl.
  rewrite insert_insert_eq. split.
  - by apply good_new_root.
  - intros q Hq _. destruct (g_own _ _ _ Hg q Hq) as [hq Hhq].
    apply (reads_ext _ _ q hq hq); simpl; try done.
    + rewrite lookup_insert_ne; [done|]. congruence.
    + intros k' o Hcd. destruct (block_of s own None q hq Hg Hhq) as (k1 & ? & b & ? & ? & Hcd1 & Hb & _).
      rewrite lookup_insert_ne; [done|]. simpl in Hk. congruence.
Qed.

(** sshbuf_from over bytes in a block. *)
Lemma from_blob_ok s k o len :
  len <= SSHBUF_SIZE_MAX ->
  (malloc s sizeof_sshbuf = None /\ from_blob (Some (k, o)) len s = (inr None, s)) \/
  exists c, bufs s !! c = None /\
    from_blob (Some (k, o)) len s = (inr (Some c), set_bufs (insert c (view_hdr k o len None)) s).
Proof.
  intros Hlen. unfold from_blob. rewrite bool_decide_eq_false_2 by done.
  rewrite (proj2 (Z.ltb_ge _ _)) by done. simpl. unfold calloc_hdr, mbind, SE_bind.
  destruct (malloc s sizeof_sshbuf) as [c|] eqn:Hc; [right|by left].
  apply malloc_fresh in Hc as [Hc _]. exists c. split; [done|].
  rewrite (update_ok _ c _ zero_hdr) by (simpl; by rewrite lookup_insert_eq).
  unfold set_bufs. simpl. by rewrite insert_insert_eq.
Qed.

Lemma set_parent_ok s k o len c p h bytes :
  0 <= len <= SSHBUF_SIZE_MAX -> c <> p -> bufs s !! c = Some (view_hdr k o len None) ->
  bufs s !! p = Some h -> buf_wf (to_sshbuf h bytes) ->
  set_parent c p s =
    (inr tt, set_bufs (fun m => <[p := with_refcount (h_refcount h + 1) h]>
                                 (<[c := view_hdr k o len (Some p)]> m)) s).
Proof.
  intros Hlen Hne Hc Hp Hs. pose proof (wf_refs _ Hs) as Hr. simpl in Hr.
  pose proof (view_sane k o len None (zfill len) Hlen ltac:(apply zlen_zfill; lia)) as [Hv _].
  unfold set_parent.
  rewrite (SE_bind_ok _ _ _ _ _ (check_sanity_ok s c _ _ Hc Hv)).
  rewrite (SE_bind_ok _ _ _ _ _ (check_sanity_ok s p _ _ Hp Hs)).
  rewrite (SE_bind_ok _ _ _ _ _ (update_ok s c _ _ Hc)).
  rewrite (update_ok _ p _ h) by (simpl; by rewrite lookup_insert_ne).
  rewrite u32_id by (unfold SSHBUF_REFS_MAX in *; lia). done.
Qed.

(** The bytes of a new view. *)
Lemma view_reads s p h n c k o len par bytes :
  c <> p -> blocks s !! k = Some bytes -> 0 <= len ->
  reads (set_bufs (fun m => <[p := with_refcount n h]> (<[c := view_hdr k o len par]> m)) s) c =
  Some (ztake len (zdrop o bytes)).
Proof.
  intros Hne Hk Hl. unfold reads. simpl. rewrite lookup_insert_ne, lookup_insert_eq by done. simpl.
  unfold bytes_at. simpl. rewrite Hk. simpl. unfold contents, zslice. simpl.
  rewrite Z.sub_0_r, (zdrop_0 0), ztake_ztake by lia. done.
Qed.

Lemma root_reads s own p h :
  good s own -> bufs s !! p = Some h -> h_readonly h = false ->
  exists k bytes, h_cd h = Some (k, 0) /\ blocks s !! k = Some bytes /\ sane (to_sshbuf h bytes) /\
    reads s p = Some (zslice (h_off h) (h_size h - h_off h) bytes).
Proof.
  intros Hg Hp Hro. destruct (g_root _ _ _ Hg p h Hp Hro) as (k & bytes & Hd & Hcd & Hk & Hpar & Hs).
  exists k, bytes. split_and!; try done. unfold reads. rewrite Hp. simpl.
  by rewrite (root_bytes s h k bytes).
Qed.

(** A view of all the bytes of a buffer: the buffer stays as it was, the view
    has the same bytes. *)
Lemma fromb_ok s own p :
  good s own -> allowed s own (CFromb p) ->
  fulfils own (fun _ => False) (CFromb p) s /\
  (forall c s', exec_call (CFromb p) s = (inr (Some c), s') -> reads s' c = reads s p).
Proof.
  intros Hg [Hpo Hv]. unfold may_view in Hv. destruct (bufs s !! p) as [h|] eqn:Hp; [|done].
  destruct Hv as [Hro Hrc]. destruct (root_reads s own p h Hg Hp Hro) as (k & bytes & Hcd & Hk & Hs & Hrd).
  pose proof (proj1 Hs) as Hwf. pose proof Hwf as []. simpl in *.
  unfold fulfils. simpl. unfold fromb. rewrite (SE_bind_ok _ _ _ _ _ (check_sanity_ok s p h bytes Hp Hwf)).
  unfold data_ptr. rewrite Hcd. simpl. rewrite Z.add_0_r.
  destruct (from_blob_ok s k (h_off h) (h_size h - h_off h) ltac:(lia)) as [[_ E]|(c & Hc & E)];
    rewrite (SE_bind_ok _ _ _ _ _ E); [split; [exists None, s; done|done]|].
  assert (Hcp : c <> p) by congruence.
  pose proof (set_parent_ok (set_bufs (insert c (view_hdr k (h_off h) (h_size h - h_off h) None)) s)
    k (h_off h) (h_size h - h_off h) c p h bytes ltac:(lia) Hcp
    ltac:(simpl; by rewrite lookup_insert_eq) ltac:(simpl; by rewrite lookup_insert_ne) Hwf) as Hset.
  unfold set_bufs in Hset. simpl in Hset. rewrite insert_insert_eq in Hset.
  rewrite (SE_bind_ok _ _ _ _ _ Hset). simpl. split.
  - eexists _, _. split; [done|]. split.
    + apply (good_view s own p h k); try done; lia.
    + intros q Hq _. apply (reads_view s p h); try done.
      intros ->. destruct (g_own _ _ _ Hg c Hq). congruence.
  - intros c' s' [= <- <-]. rewrite Hrd. apply (view_reads s p h); try done. lia.
Qed.

Lemma zslice_contents b n m :
  buf_wf b -> 0 <= n -> 0 <= m -> n + m <= b_size b - b_off b ->
  zslice n m (contents b) = ztake m (zdrop (b_off b + n) (b_mem b)).
Proof.
  intros [] ???. unfold contents, zslice. by rewrite zdrop_ztake, zdrop_zdrop, ztake_ztake by lia.
Qed.

(** Consuming moves the window only. *)
Lemma consume_window b n :
  buf_wf b -> 0 < n <= sshbuf_len b ->
  exists off size, 0 <= off <= size /\ size <= b_size b /\
    sshbuf_consume n b = (inr tt, set_off_size off size b) /\
    zslice off (size - off) (b_mem b) = zdrop n (contents b).
Proof.
  intros Hwf Hn. rewrite sshbuf_len_contents, zlen_contents in Hn by done.
  unfold sshbuf_consume. rewrite sanity_ok by done. simpl.
  rewrite sshbuf_len_contents, zlen_contents by done.
  destruct (Z.eqb_spec n 0); [lia|]. rewrite (proj2 (Z.ltb_ge _ _)) by lia.
  pose proof (zlen_contents b Hwf) as Hc. destruct Hwf.
  destruct (Z.eqb_spec (b_off b + n) (b_size b)) as [He|He].
  - exists 0, 0. split_and!; try done; try lia. rewrite zdrop_all by lia. by apply ztake_0.
  - exists (b_off b + n), (b_size b). split_and!; try done; try lia.
    unfold contents, zslice. rewrite zdrop_ztake, zdrop_zdrop by lia. f_equal. lia.
Qed.

(** The same for a buffer in memory that owns its block. *)
Lemma on_buf_window {A} (m : Allocator -> SE sshbuf Z A) s p h k bytes r off size :
  bufs s !! p = Some h -> h_readonly h = false -> h_d h = Some (k, 0) -> h_cd h = Some (k, 0) ->
  blocks s !! k = Some bytes -> sane (to_sshbuf h bytes) ->
  m (alloc_in s) (to_sshbuf h bytes) = (r, set_off_size off size (to_sshbuf h bytes)) ->
  on_buf p m s = (inr r, set_bufs (insert p (window off size h)) s).
Proof.
  intros Hp Hro Hd Hcd Hk Hs Hm. unfold on_buf.
  rewrite Hp, (root_bytes s h k bytes), Hm by done. f_equal.
  unfold write_back. simpl. rewrite Hro, Hd. simpl. rewrite Z.eqb_refl.
  unfold set_blocks, set_bufs. simpl. rewrite (insert_id (blocks s)) by done.
  unfold of_sshbuf, window. simpl. by rewrite !moved_same.
Qed.

(** A view of the next string: the buffer is advanced past it. *)
Lemma froms_ok s own p :
  good s own -> allowed s own (CFroms p) ->
  fulfils own (fun q => q = p) (CFroms p) s /\
  (forall c s', exec_call (CFroms p) s = (inr (Some c), s') ->
     exists b len, reads s p = Some b /\ len = PEEK_U32 b /\ 4 + len <= zlen b /\
       reads s' c = Some (zslice 4 len b) /\ reads s' p = Some (zdrop (4 + len) b)).
Proof.
  intros Hg [Hpo Hv]. unfold may_view in Hv. destruct (bufs s !! p) as [h|] eqn:Hp; [|done].
  destruct Hv as [Hro Hrc].
  destruct (g_root _ _ _ Hg p h Hp Hro) as (k & bytes & Hd & Hcd & Hk & Hpar & Hs).
  pose proof (proj1 Hs) as Hwf. set (b := to_sshbuf h bytes) in *.
  assert (Hrd : reads s p = Some (contents b)).
  { unfold reads. rewrite Hp. simpl. by rewrite (root_bytes s h k bytes). }
  unfold fulfils. simpl. unfold froms.
  assert (Hpk : on_buf p (fun _ b => (sshbuf_peek_string_direct b, b)) s = (inr (sshbuf_peek_string_direct b), s)).
  { rewrite (on_buf_window _ s p h k bytes (sshbuf_peek_string_direct b) (h_off h) (h_size h)) by done.
    unfold set_bufs. rewrite insert_id; [by destruct s|]. by destruct h. }
  rewrite !SE_bind_assoc, (SE_bind_ok _ _ _ _ _ Hpk).
  destruct (sshbuf_peek_string_direct b) as [e|[pp len]] eqn:Hpeek.
  { split; [exists None, s; done|done]. }
  pose proof (peek_string_len _ _ _ Hpeek) as [Hl0 Hl4].
  destruct (consume_window b (len + 4) Hwf ltac:(lia)) as (off & size & Ho & Hsz & Hcons & Hrest).
  rewrite (sshbuf_len_contents b Hwf), (zlen_contents b Hwf) in Hl4. pose proof Hwf as []. simpl in *.
  rewrite !SE_bind_assoc, (SE_bind_ok _ _ _ _ _ (load_ok s p h Hp)).
  unfold data_ptr. rewrite Hcd. simpl.
  destruct (from_blob_ok s k (h_off h + 4) len ltac:(lia)) as [[_ E]|(c & Hc & E)];
    rewrite !SE_bind_assoc, (SE_bind_ok _ _ _ _ _ E); [split; [exists None, s; done|done]|].
  assert (Hcp : c <> p) by congruence.
  set (s1 := set_bufs (insert c (view_hdr k (h_off h + 4) len None)) s).
  assert (Hp1 : bufs s1 !! p = Some h) by (simpl; by rewrite lookup_insert_ne).
  pose proof (on_buf_window (fun _ => sshbuf_consume (len + 4)) s1 p h k bytes (inr tt) off size
    Hp1 Hro Hd Hcd Hk Hs Hcons) as Hon.
  rewrite !SE_bind_assoc, (SE_bind_ok _ _ _ _ _ Hon).
  set (hw := window off size h) in *.
  assert (Hsw : sane (to_sshbuf hw bytes)).
  { destruct Hs as [_ Hi]. split; [|done]. split; simpl; try done; lia. }
  pose proof (set_parent_ok (set_bufs (insert p hw) s1) k (h_off h + 4) len c p hw bytes ltac:(lia) Hcp
    ltac:(simpl; by rewrite lookup_insert_ne, lookup_insert_eq)
    ltac:(simpl; by rewrite lookup_insert_eq) (proj1 Hsw)) as Hset.
  rewrite !SE_bind_assoc, (SE_bind_ok _ _ _ _ _ Hset).
  set (sw := set_bufs (insert p hw) s).
  assert (Hpw : bufs sw !! p = Some hw) by (simpl; by rewrite lookup_insert_eq).
  assert (Hcw : bufs sw !! c = None) by (simpl; by rewrite lookup_insert_ne).
  assert (Hgw : good sw own).
  { apply (good_replace s own None own None p h hw bytes); try done.
    - by apply (root_bytes s h k).
    - simpl. congruence.
    - simpl. apply (g_refs _ _ _ Hg p h Hp). }
  set (s2 := set_bufs _ (set_bufs (insert p hw) s1)).
  assert (Hs2 : s2 = set_bufs (fun m => <[p := with_refcount (h_refcount hw + 1) hw]>
                      (<[c := view_hdr k (h_off h + 4) len (Some p)]> m)) sw).
  { unfold s2, sw, s1, set_bufs. simpl. f_equal. apply map_eq. intros i.
    destruct (decide (i = p)) as [->|]; [by rewrite !lookup_insert_eq|].
    destruct (decide (i = c)) as [->|].
    - by rewrite !(lookup_insert_ne _ p c), !lookup_insert_eq by done.
    - by rewrite !lookup_insert_ne by done. }
  rewrite Hs2. clear Hs2 s2.
  assert (Hro' : forall q, q <> c -> q <> p -> reads sw q = reads s q).
  { intros q _ Hq. unfold reads. simpl. by rewrite lookup_insert_ne. }
  split.
  - eexists (Some c), _. split; [done|]. split.
    + apply (good_view sw own p hw k); try done; simpl; lia.
    + intros q Hq Hqp. assert (q <> c) by (intros ->; destruct (g_own _ _ _ Hg c Hq); congruence).
      rewrite (reads_view sw p hw) by done. by apply Hro'.
  - intros c' s' [= <- <-].
    exists (contents b), len. unfold sshbuf_peek_string_direct in Hpeek.
    rewrite (sshbuf_len_contents b Hwf), (zlen_contents b Hwf) in Hpeek. simpl in Hpeek.
    destruct (_ <? 4) eqn:E4; [done|]. apply Z.ltb_ge in E4.
    assert (Hpk4 : PEEK_U32 (sshbuf_ptr b) = PEEK_U32 (contents b)).
    { rewrite sshbuf_ptr_contents by done.
      rewrite <- (PEEK_U32_ztake 4), ztake_app_l, PEEK_U32_ztake; [done|lia|rewrite zlen_contents by done; simpl; lia|lia]. }
    rewrite Hpk4 in Hpeek. repeat case_match; simplify_eq.
    split; [done|]. split; [done|]. rewrite zlen_contents by done. simpl. split; [lia|]. split.
    + rewrite (view_reads sw p hw _ c k _ _ _ bytes) by (done || lia). f_equal.
      symmetry. apply (zslice_contents b); done || (simpl; lia).
    + rewrite (reads_view sw p hw) by done. unfold reads. rewrite Hpw. simpl.
      rewrite (root_bytes sw hw k bytes) by done. simpl. rewrite Z.add_comm, <- Hrest. done.
Qed.

(** Giving up a reference to the buffer [p] with block [k]. *)
Definition release (p k : Z) (h : hdr) (s : mem) : mem :=
  if h_refcount h =? 1 then mk_mem (delete p (bufs s)) (delete k (blocks s))
  else set_bufs (insert p (with_refcount (h_refcount h - 1) h)) s.

Lemma free_root_exec fuel s p h k bytes :
  bufs s !! p = Some h -> h_readonly h = false -> h_d h = Some (k, 0) -> h_parent h = None ->
  blocks s !! k = Some bytes -> buf_wf (to_sshbuf h bytes) ->
  free_rec (S fuel) (Some p) s = (inr tt, release p k h s).
Proof.
  intros Hp Hro Hd Hpar Hk Hwf. cbn [free_rec].
  rewrite (SE_bind_ok _ _ _ _ _ (check_sanity_ok s p h bytes Hp Hwf)), Hpar.
  rewrite (SE_bind_ok _ _ s tt s) by (by destruct fuel).
  rewrite (SE_bind_ok _ _ _ _ _ (update_ok s p _ h Hp)).
  assert (Hid : mk_hdr (h_d h) (h_cd h) (h_off h) (h_size h) (h_max_size h) (h_alloc h)
                  (h_readonly h) (h_refcount h) None = h) by (destruct h; simpl in *; congruence).
  rewrite Hid. unfold set_bufs at 1. rewrite insert_id by done.
  replace (mk_mem (bufs s) (blocks s)) with s by (by destruct s).
  rewrite (SE_bind_ok _ _ _ _ _ (update_ok s p _ h Hp)).
  pose proof (wf_refs _ Hwf) as Hr. simpl in Hr. unfold SSHBUF_REFS_MAX in Hr.
  rewrite u32_id by lia. change (mk_hdr _ _ _ _ _ _ _ _ _) with (with_refcount (h_refcount h - 1) h).
  erewrite SE_bind_ok by (apply load_ok; simpl; by rewrite lookup_insert_eq).
  unfold release. simpl. rewrite Hro, Hd.
  destruct (Z.eqb_spec (h_refcount h) 1) as [H1|H1].
  - rewrite H1. simpl. unfold free_block, mbind, SE_bind. simpl. rewrite Hk.
    unfold free_hdr, modify, set_blocks, set_bufs. simpl. by rewrite delete_insert_eq.
  - rewrite (proj2 (Z.ltb_lt _ _)) by lia. done.
Qed.

(** It leaves the invariant and what every handle reads. *)
Lemma release_good s own p h k bytes :
  good_with s own (Some p) -> bufs s !! p = Some h -> h_readonly h = false ->
  h_d h = Some (k, 0) -> blocks s !! k = Some bytes -> sane (to_sshbuf h bytes) ->
  good (release p k h s) own /\ (forall c, c ∈ own -> reads (release p k h s) c = reads s c).
Proof.
  intros Hg Hp Hro Hd Hk Hs. pose proof (g_refs _ _ _ Hg p h Hp) as Hrefs.
  rewrite (b2z_True (Some p = Some p)) in Hrefs by done.
  pose proof (children_nonneg (bufs s) p) as Hch. unfold release.
  destruct (Z.eqb_spec (h_refcount h) 1) as [H1|H1].
  - split; [by apply (good_remove_root s own p h k)|].
    assert (Hpo : p ∉ own) by (intros Hi; rewrite b2z_True in Hrefs by done; lia).
    rewrite b2z_False in Hrefs by done.
    assert (Hc0 : children (bufs s) p = 0) by lia. rewrite children_none in Hc0.
    intros c Hc. destruct (g_own _ _ _ Hg c Hc) as [hc Hhc].
    assert (Hcp : c <> p) by set_solver.
    apply (reads_ext _ _ c hc hc); simpl; try done; [by rewrite lookup_delete_ne|].
    intros k' o Hcd. rewrite lookup_delete_ne; [done|].
    intros <-. exact (other_block s own (Some p) p h k c hc k o Hg Hp Hd Hhc Hcp (Hc0 c hc Hhc) Hcd eq_refl).
  - destruct (g_root _ _ _ Hg p h Hp Hro) as (k0 & b0 & Hd0 & Hcd & Hk0 & Hpar & _).
    assert (k0 = k) as -> by congruence. split.
    + apply (good_replace s own (Some p) own None p h _ bytes); try done.
      * by apply (root_bytes s h k).
      * destruct Hs as [[] Hi]. split; [|done]. split; simpl in *; try done.
        unfold b2z in Hrefs. case_decide; lia.
      * congruence.
      * intros q Hne. split; [done|]. split; congruence.
      * simpl. rewrite Hrefs, (b2z_False (None = Some p)) by done. lia.
    + intros c Hc. destruct (decide (c = p)) as [->|Hne].
      * apply (reads_ext _ _ p h (with_refcount (h_refcount h - 1) h)); simpl; try done.
        by rewrite lookup_insert_eq.
      * unfold reads. simpl. by rewrite lookup_insert_ne.
Qed.

Lemma free_view_exec fuel s c v q h k bytes :
  bufs s !! c = Some v -> h_readonly v = true -> h_parent v = Some q -> h_refcount v = 1 ->
  buf_wf (to_sshbuf v bytes) -> bufs s !! q = Some h -> h_readonly h = false ->
  h_d h = Some (k, 0) -> h_parent h = None -> is_Some (blocks s !! k) ->
  (forall b, blocks s !! k = Some b -> buf_wf (to_sshbuf h b)) ->
  free_rec (S (S fuel)) (Some c) s = (inr tt, release q k h (set_bufs (delete c) s)).
Proof.
  intros Hc Hro Hpar Hrc Hwf Hq Hqr Hqd Hqp [b Hk] Hqwf. specialize (Hqwf b Hk).
  assert (Hne : c <> q) by congruence.
  change (free_rec (S (S fuel)) (Some c) s) with
    ((h ← check_sanity c; _ ← free_rec (S fuel) (h_parent h);
      _ ← update c (fun h => mk_hdr (h_d h) (h_cd h) (h_off h) (h_size h) (h_max_size h) (h_alloc h)
                               (h_readonly h) (h_refcount h) None);
      _ ← update c (fun h => mk_hdr (h_d h) (h_cd h) (h_off h) (h_size h) (h_max_size h) (h_alloc h)
                               (h_readonly h) (u32 (h_refcount h - 1)) (h_parent h));
      h ← load c;
      if 0 <? h_refcount h then mret tt
      else _ ← (if h_readonly h then mret tt
             else match h_d h with
                  | Some (k, _) => free_block k
                  | None => mret tt
                  end);
        free_hdr c) s).
  rewrite (SE_bind_ok _ _ _ _ _ (check_sanity_ok s c v bytes Hc Hwf)), Hpar.
  rewrite (SE_bind_ok _ _ _ _ _ (free_root_exec fuel s q h k b Hq Hqr Hqd Hqp Hk Hqwf)).
  assert (Hrel : bufs (release q k h s) !! c = Some v).
  { unfold release. destruct (_ =? 1); simpl;
      [by rewrite lookup_delete_ne|by rewrite lookup_insert_ne]. }
  rewrite (SE_bind_ok _ _ _ _ _ (update_ok _ c _ v Hrel)).
  erewrite SE_bind_ok by (apply update_ok; simpl; by rewrite lookup_insert_eq).
  erewrite SE_bind_ok by (apply load_ok; simpl; by rewrite lookup_insert_eq).
  simpl. rewrite Hrc, Hro. change (u32 (1 - 1)) with 0. simpl.
  unfold mbind, SE_bind, mret, SE_ret, free_hdr, modify. f_equal.
  unfold release, set_bufs. destruct (_ =? 1); simpl; f_equal.
  - rewrite insert_insert_eq, delete_insert_eq. apply delete_delete.
  - rewrite insert_insert_eq, delete_insert_eq. by rewrite delete_insert_ne.
Qed.

Lemma free_ok s own p :
  good s own -> p ∈ own -> fulfils own (fun q => q = p) (CFree p) s.
Proof.
  intros Hg Hpo. destruct (g_own _ _ _ Hg p Hpo) as [h Hp].
  assert (Hsz : exists n, size (bufs s) = S n).
  { destruct (size (bufs s)) eqn:E; [|eauto]. apply map_size_empty_iff in E. rewrite E in Hp. done. }
  destruct Hsz as [n Hn]. unfold fulfils. cbn [exec_call handles]. unfold free_buf.
  destruct (h_readonly h) eqn:Hro.
  - destruct (g_view _ _ _ Hg p h Hp Hro)
      as [(q & hq & k & o & b & Hpar & Hq & Hqr & Hqc & Hd & Hcd & Hk & Ho & Ha & Hrc & Hs) _].
    destruct (g_root _ _ _ Hg q hq Hq Hqr) as (k0 & b0 & Hqd & Hqc0 & Hk0 & Hqp & Hqs).
    assert (k0 = k) as -> by congruence. assert (b0 = b) as -> by congruence.
    pose proof (free_view_exec n s p h q hq k _ Hp Hro Hpar Hrc (proj1 Hs) Hq Hqr Hqd Hqp
      (mk_is_Some _ _ Hk) ltac:(intros; simplify_eq; apply Hqs)) as Hex.
    pose proof (good_remove_view s own p h q Hg Hp Hro Hpar) as Hg1.
    destruct (release_good (set_bufs (delete p) s) (own ∖ {[p]}) q hq k b Hg1) as [Hg2 Hr2]; try done.
    { simpl. rewrite lookup_delete_ne; [done|]. congruence. }
    eexists None, _. split; [by erewrite SE_bind_ok by (cbv beta; rewrite Hn; exact Hex)|]. split; [done|].
    intros c Hc Hne. rewrite Hr2 by set_solver. unfold reads. simpl. by rewrite lookup_delete_ne by congruence.
  - destruct (g_root _ _ _ Hg p h Hp Hro) as (k & b & Hd & Hcd & Hk & Hpar & Hs).
    assert (Hg1 : good_with s (own ∖ {[p]}) (Some p)).
    { split; try apply Hg.
      - intros c v Hc Hv. destruct (g_view _ _ _ Hg c v Hc Hv) as [Hvw Hco]. split; [done|].
        assert (c <> p) by congruence. set_solver.
      - intros c v Hc. rewrite (g_refs _ _ _ Hg c v Hc). rewrite (b2z_False (None = Some c)) by done.
        destruct (decide (c = p)) as [->|Hne].
        + rewrite (b2z_True (p ∈ own)), (b2z_False (p ∈ own ∖ _)), b2z_True by set_solver. lia.
        + rewrite (b2z_iff (c ∈ own ∖ {[p]}) (c ∈ own)) by set_solver.
          rewrite (b2z_False (Some p = Some c)) by congruence. lia.
      - intros c Hc. apply (g_own _ _ _ Hg). set_solver. }
    destruct (release_good s (own ∖ {[p]}) p h k b Hg1) as [Hg2 Hr2]; try done.
    pose proof (free_root_exec (size (bufs s)) s p h k b Hp Hro Hd Hpar Hk (proj1 Hs)) as Hex.
    eexists None, _. split; [by erewrite SE_bind_ok by (cbv beta; exact Hex)|]. split; [done|].
    intros c Hc Hne. apply Hr2. set_solver.
Qed.
End calls.

(** ** What clients get *)

(** The buffer whose contents a call changes or that it frees. *)
Definition touches (c : call) (q : Z) : Prop :=
  match c with
  | CNew | CFromb _ => False
  | CFroms p | COp p _ | CFree p => q = p
  end.

Lemma call_ok `{Malloc} s own c :
  good s own -> allowed s own c -> fulfils own (touches c) c s.
Proof.
  intros Hg Ha. destruct c as [|p|p|p o|p]; simpl in *.
  - by apply new_ok.
  - by apply fromb_ok.
  - by apply froms_ok.
  - destruct Ha as [Hp Ho].
    destruct (on_buf_ok (fun al => @exec_op al o) s own p Hg Hp) as (r & s' & He & Hg' & Hs).
    { intros al. by apply Keeps_op. }
    exists None, s'. split; [cbn [exec_call]; by rewrite (SE_bind_ok _ _ _ _ _ He)|]. split; [done|].
    intros q Hq Hne. by apply Hs.
  - by apply free_ok.
Qed.

Lemma good_empty : good (mk_mem ∅ ∅) ∅.
Proof.
  split; simpl; try (intros * Hx; by rewrite lookup_empty in Hx); try set_solver.
Qed.

Lemma reach_good `{Malloc} s own : reach s own -> good s own.
Proof.
  induction 1 as [|s own c r s' Hr IH Ha He]; [apply good_empty|].
  destruct (call_ok s own c IH Ha) as (r1 & s1 & He1 & Hg1 & _). congruence.
Qed.

(** C27: a client that uses only the buffers it holds, frees each once and takes
    views of buffers that own their bytes never makes a buffer function touch
    freed memory or die of a corrupted structure, whatever the allocator does;
    a call changes what is read through one buffer only, the one it is made
    on, so a view keeps its bytes while its parent is written to or freed. *)
Theorem shared_buffers_safe `{Malloc} s own c :
  reach s own -> allowed s own c ->
  exists r s', exec_call c s = (inr r, s') /\ reach s' (handles c r own) /\
    forall q, q ∈ own -> ~ touches c q -> is_Some (reads s q) /\ reads s' q = reads s q.
Proof.
  intros Hr Ha. pose proof (reach_good s own Hr) as Hg.
  destruct (call_ok s own c Hg Ha) as (r & s' & He & _ & Hq). exists r, s'.
  split; [done|]. split; [by apply (reach_call s own c)|].
  intros q Hqo Hn. split; [|by apply Hq]. destruct (g_own _ _ _ Hg q Hqo) as [h Hh].
  destruct (bytes_at_ok s own None q h Hg Hh) as (b & Hb & _).
  unfold reads. rewrite Hh. simpl. rewrite Hb. simpl. eauto.
Qed.

(** When the client has given back all its buffers, every structure and
    every block has been freed: reference counts neither leak nor free early. *)
Theorem shared_buffers_freed `{Malloc} s : reach s ∅ -> s = mk_mem ∅ ∅.
Proof.
  intros Hr. apply reach_good in Hr as Hg.
  assert (Hb : bufs s = ∅).
  { apply map_empty. intros p. destruct (bufs s !! p) as [h|] eqn:Hp; [|done]. exfalso.
    destruct (h_readonly h) eqn:Hro; [by destruct (g_view _ _ _ Hg p h Hp Hro)|].
    destruct (g_root _ _ _ Hg p h Hp Hro) as (k & b & _ & _ & _ & _ & Hs).
    pose proof (wf_refs _ (proj1 Hs)) as Hrc. simpl in Hrc.
    rewrite (g_refs _ _ _ Hg p h Hp) in Hrc. rewrite !b2z_False in Hrc by set_solver.
    enough (children (bufs s) p = 0) by lia. apply children_none.
    intros c v Hc Hpar. destruct (h_readonly v) eqn:Hv.
    - by destruct (g_view _ _ _ Hg c v Hc Hv).
    - destruct (g_root _ _ _ Hg c v Hc Hv) as (? & ? & ? & ? & ? & Hn & _). congruence. }
  destruct s as [m bl]. simpl in *. subst. f_equal. apply map_empty. intros k.
  destruct (bl !! k) as [b|] eqn:Hk; [|done].
  destruct (g_blk _ _ _ Hg k (mk_is_Some _ _ Hk)) as (p & h & Hp & _). simpl in Hp. by rewrite lookup_empty in Hp.
Qed.

(** ** Witnesses and what goes wrong *)

(** An allocator that never fails. *)
#[local, program] Instance demo_malloc : Malloc :=
  {| malloc := fun s _ => Some (fresh (dom (bufs s) ∪ dom (blocks s)));
     malloc_page := 4096 |}.
Next Obligation.
  intros s n p [= <-]. pose proof (is_fresh (dom (bufs s) ∪ dom (blocks s))) as Hf.
  rewrite <- !not_elem_of_dom. set_solver.
Qed.

(** Handles for a program that does not look for NULL. *)
Definition or_null (r : option Z) : Z := default 0 r.

(** A view of a view outlives the two buffers below it. *)
Definition nested_views : SE mem fault (Z + Z) :=
  a ← new_buf; let a := or_null a in
  _ ← on_buf a (fun al => @sshbuf_put_u8 al 7);
  b ← fromb a; let b := or_null b in
  c ← fromb b; let c := or_null c in
  _ ← free_buf (Some b);
  _ ← free_buf (Some a);
  on_buf c (fun _ => sshbuf_get_u8).

(** Freeing a view of a view takes the protection from the view below it. *)
Definition nested_views_in_order : SE mem fault (Z + Z) :=
  a ← new_buf; let a := or_null a in
  _ ← on_buf a (fun al => @sshbuf_put_u8 al 7);
  b ← fromb a; let b := or_null b in
  c ← fromb b; let c := or_null c in
  _ ← free_buf (Some c);
  _ ← free_buf (Some a);
  on_buf b (fun _ => sshbuf_get_u8).

(** With one level of views the same order of calls is harmless. *)
Definition plain_view : SE mem fault (Z + Z) :=
  a ← new_buf; let a := or_null a in
  _ ← on_buf a (fun al => @sshbuf_put_u8 al 7);
  b ← fromb a; let b := or_null b in
  _ ← free_buf (Some a);
  on_buf b (fun _ => sshbuf_get_u8).

Definition is_dangling {A} (r : fault + A) : bool :=
  match r with inl (Dangling _) => true | _ => false end.

(** sshbuf_free gives up the reference to the parent before it knows whether
    the buffer itself is still needed: a view of a view is left without the
    bytes it points to, in either order of freeing. *)
Theorem nested_view_dangles :
  is_dangling (fst (nested_views (mk_mem ∅ ∅))) = true /\
  is_dangling (fst (nested_views_in_order (mk_mem ∅ ∅))) = true /\
  fst (plain_view (mk_mem ∅ ∅)) = inr (inr 7).
Proof. vm_compute. done. Qed.

(** The check of the count is made before it is raised: the view that brings it
    to SSHBUF_REFS_MAX + 1 is made, and then the parent cannot be used or
    freed any more. *)
Theorem too_many_views_kill `{Malloc} s own p h c s' :
  good s own -> p ∈ own -> bufs s !! p = Some h -> h_readonly h = false ->
  h_refcount h = SSHBUF_REFS_MAX -> fromb p s = (inr (Some c), s') ->
  fst (free_buf (Some p) s') = inl Sigsegv.
Proof.
  intros Hg Hpo Hp Hro Hrc. destruct (root_reads s own p h Hg Hp Hro) as (k & bytes & Hcd & Hk & Hs & Hrd).
  pose proof (proj1 Hs) as Hwf. pose proof Hwf as []. simpl in *.
  unfold fromb. rewrite (SE_bind_ok _ _ _ _ _ (check_sanity_ok s p h bytes Hp Hwf)).
  unfold data_ptr. rewrite Hcd. simpl.
  destruct (from_blob_ok s k (h_off h + 0) (h_size h - h_off h) ltac:(lia)) as [[_ E]|(c' & Hc & E)];
    rewrite Z.add_0_r in E; rewrite Z.add_0_r, (SE_bind_ok _ _ _ _ _ E); [done|].
  assert (Hcp : c' <> p) by congruence.
  pose proof (set_parent_ok (set_bufs (insert c' (view_hdr k (h_off h) (h_size h - h_off h) None)) s)
    k (h_off h) (h_size h - h_off h) c' p h bytes ltac:(lia) Hcp
    ltac:(simpl; by rewrite lookup_insert_eq) ltac:(simpl; by rewrite lookup_insert_ne) Hwf) as Hset.
  rewrite (SE_bind_ok _ _ _ _ _ Hset). intros [= <- <-].
  unfold free_buf. cbn [free_rec]. unfold check_sanity, load, mbind, SE_bind. simpl.
  rewrite lookup_insert_eq. unfold sshbuf_check_sanity. simpl. rewrite Hrc.
  change (SSHBUF_REFS_MAX <? SSHBUF_REFS_MAX + 1) with true. by rewrite !orb_true_r.
Qed.

Definition demo_mem : mem := snd (exec_call CNew (mk_mem ∅ ∅)).
Definition demo_buf : Z := or_null (match fst (exec_call CNew (mk_mem ∅ ∅)) with inr r => r | inl _ => None end).

Lemma demo_reach : reach demo_mem {[demo_buf]}.
Proof.
  assert (He : exec_call CNew (mk_mem ∅ ∅) = (inr (Some demo_buf), demo_mem)).
  { unfold demo_mem. rewrite (surjective_pairing (exec_call CNew _)) at 1. f_equal. }
  pose proof (reach_call _ _ CNew _ _ reach_empty I He) as Hr. simpl in Hr.
  by rewrite (left_id_L ∅ (∪)) in Hr.
Qed.

Lemma shared_buffers_safe_witness :
  exists r s', exec_call (CFromb demo_buf) demo_mem = (inr r, s') /\
    reach s' (handles (CFromb demo_buf) r {[demo_buf]}) /\
    forall q, q ∈ ({[demo_buf]} : gset Z) -> ~ touches (CFromb demo_buf) q ->
      is_Some (reads demo_mem q) /\ reads s' q = reads demo_mem q.
Proof.
  apply shared_buffers_safe; [apply demo_reach|]. split; [set_solver|].
  vm_compute. done.
Defined.

Lemma shared_buffers_freed_witness :
  snd (exec_call (CFree demo_buf) demo_mem) = mk_mem ∅ ∅.
Proof.
  apply shared_buffers_freed.
  assert (He : exec_call (CFree demo_buf) demo_mem =
               (inr None, snd (exec_call (CFree demo_buf) demo_mem))).
  { rewrite (surjective_pairing (exec_call (CFree demo_buf) _)) at 1. f_equal. }
  pose proof (reach_call _ _ (CFree demo_buf) _ _ demo_reach ltac:(simpl; set_solver) He) as Hr.
  replace (handles (CFree demo_buf) None {[demo_buf]}) with (∅ : gset Z) in Hr by (simpl; set_solver).
  exact Hr.
Defined.
