(* ===== verification/Channel.v ===== *)
(** * One SSH channel: openssh/nchan.c and the part of channels.c that serves an
      open channel

    An SFTP session reaches the server through a channel of sshd: bytes of the
    server's stdout are read into [c_input] and sent as CHANNEL_DATA, bytes of
    CHANNEL_DATA are put into [c_output] and written to its stdin.  The state
    is the channel with its two half-states, flags, windows and buffers, the
    messages handed to the packet layer and not yet received by the peer
    ([out]), and the calls made on descriptors ([calls]).

    The results of read, write and tcgetattr are arguments of the handlers
    that make the calls, the fields of a received packet are arguments of the
    handler that parses it ([None]: it does not parse).  Handlers that
    channel_register_filter and channel_register_cleanup install, the bug
    compatibility bits of the peer and the packet layer are parameters
    ([ChanEnv]).  Log lines and the highest descriptor for select are left
    out. *)

From S2P Require Import Prelude Sshbuf.

(** ** Constants (channels.h, compat.h, ssh2.h) *)

Definition SSH_CHANNEL_OPENING : Z := 3.
Definition SSH_CHANNEL_OPEN : Z := 4.
Definition SSH_CHANNEL_X11_OPEN : Z := 7.
Definition SSH_CHANNEL_LARVAL : Z := 10.
Definition SSH_CHANNEL_ZOMBIE : Z := 14.
Definition SSH_CHANNEL_RDYNAMIC_OPEN : Z := 21.
Definition SSH_CHANNEL_RDYNAMIC_FINISH : Z := 22.

Definition CHAN_INPUT_OPEN : Z := 0.
Definition CHAN_INPUT_WAIT_DRAIN : Z := 1.
Definition CHAN_INPUT_WAIT_OCLOSE : Z := 2.
Definition CHAN_INPUT_CLOSED : Z := 3.
Definition CHAN_OUTPUT_OPEN : Z := 0.
Definition CHAN_OUTPUT_WAIT_DRAIN : Z := 1.
Definition CHAN_OUTPUT_WAIT_IEOF : Z := 2.
Definition CHAN_OUTPUT_CLOSED : Z := 3.

Definition CHAN_CLOSE_SENT : Z := 0x01.
Definition CHAN_CLOSE_RCVD : Z := 0x02.
Definition CHAN_EOF_SENT : Z := 0x04.
Definition CHAN_EOF_RCVD : Z := 0x08.
Definition CHAN_LOCAL : Z := 0x10.

Definition CHAN_EXTENDED_IGNORE : Z := 0.
Definition CHAN_EXTENDED_READ : Z := 1.
Definition CHAN_EXTENDED_WRITE : Z := 2.

Definition CHAN_RBUF : Z := 16 * 1024.
Definition SSH2_EXTENDED_DATA_STDERR : Z := 1.
Definition SSH_BUG_EXTEOF : Z := 0x00200000.
Definition SSH_NEW_OPENSSH : Z := 0x04000000.

(** ** The state *)

Record Channel := mk_channel {
  c_type : Z;
  c_remote_id : Z;
  c_have_remote_id : bool;
  c_istate : Z;
  c_ostate : Z;
  c_flags : Z;
  c_rfd : Z;
  c_wfd : Z;
  c_efd : Z;
  c_sock : Z;
  c_isatty : bool;
  c_force_drain : bool;
  c_input : sshbuf;
  c_output : sshbuf;
  c_extended : sshbuf;
  c_remote_window : Z;
  c_remote_maxpacket : Z;
  c_local_window : Z;
  c_local_window_max : Z;
  c_local_consumed : Z;
  c_local_maxpacket : Z;
  c_extended_usage : Z;
  c_ctype : list Z;
  c_detach_user : bool;
  c_detach_close : bool;
  c_datagram : bool
}.

(** The messages of the channel protocol, without the recipient's number. *)
Inductive msg :=
  | CHANNEL_DATA (data : list Z)
  | CHANNEL_EXTENDED_DATA (code : Z) (data : list Z)
  | CHANNEL_EOF
  | CHANNEL_CLOSE
  | CHANNEL_WINDOW_ADJUST (n : Z)
  | CHANNEL_REQUEST (name : list Z) (reply : bool)
  | MSG_IGNORE (n : Z).

Inductive how := SHUT_RD | SHUT_WR.
(** The descriptor's role: c->rfd and c->wfd, or c->efd. *)
Inductive role := Main | Ext.
Inductive call :=
  | CRead (k : role) (fd : Z) (data : list Z)
  | CWrite (k : role) (fd : Z) (data : list Z)
  | CWriteFailed (fd : Z)
  | CShutdown (fd : Z) (h : how)
  | CClose (fd : Z).

Record st := mk_st { ch : Channel; out : list msg; calls : list call }.

(** The process ends: fatal(), or a disconnect of the whole connection. *)
Inductive stop := Fatal | Disconnect.
Abbreviation CH := (SE st stop).

(** The result of read or write: bytes or a count, or the error EINTR, EAGAIN
    or another one. *)
Inductive errno := EINTR | EAGAIN | EOTHER.
Inductive read_result := RData (data : list Z) | RError (e : errno).
Inductive write_result := WCount (n : Z) | WError (e : errno).

(** The descriptors select reported. *)
Record fdsets := mk_fdsets { readset : list Z; writeset : list Z }.
Definition FD_ISSET (fd : Z) (l : list Z) : bool := bool_decide (fd ∈ l).

(** What is outside of the channel: whether the packet layer takes a message,
    the filters of the channel, the callback that detaches its user, and the
    compatibility bits of the peer. *)
Class ChanEnv := {
  pkt_sends : list msg -> msg -> bool;
  input_filter : option (Channel -> list Z -> bool * Channel);
  output_filter : option (Channel -> option (list Z) * Channel);
  detach_user : Channel -> Channel;
  datafellows : Z
}.

(** ** Assignments *)

Definition set_type (t : Z) (c : Channel) : Channel :=
  mk_channel t (c_remote_id c) (c_have_remote_id c) (c_istate c) (c_ostate c) (c_flags c)
    (c_rfd c) (c_wfd c) (c_efd c) (c_sock c) (c_isatty c) (c_force_drain c)
    (c_input c) (c_output c) (c_extended c) (c_remote_window c) (c_remote_maxpacket c)
    (c_local_window c) (c_local_window_max c) (c_local_consumed c) (c_local_maxpacket c)
    (c_extended_usage c) (c_ctype c) (c_detach_user c) (c_detach_close c) (c_datagram c).
Definition set_states (i o : Z) (c : Channel) : Channel :=
  mk_channel (c_type c) (c_remote_id c) (c_have_remote_id c) i o (c_flags c)
    (c_rfd c) (c_wfd c) (c_efd c) (c_sock c) (c_isatty c) (c_force_drain c)
    (c_input c) (c_output c) (c_extended c) (c_remote_window c) (c_remote_maxpacket c)
    (c_local_window c) (c_local_window_max c) (c_local_consumed c) (c_local_maxpacket c)
    (c_extended_usage c) (c_ctype c) (c_detach_user c) (c_detach_close c) (c_datagram c).
Definition set_flags (f : Z) (c : Channel) : Channel :=
  mk_channel (c_type c) (c_remote_id c) (c_have_remote_id c) (c_istate c) (c_ostate c) f
    (c_rfd c) (c_wfd c) (c_efd c) (c_sock c) (c_isatty c) (c_force_drain c)
    (c_input c) (c_output c) (c_extended c) (c_remote_window c) (c_remote_maxpacket c)
    (c_local_window c) (c_local_window_max c) (c_local_consumed c) (c_local_maxpacket c)
    (c_extended_usage c) (c_ctype c) (c_detach_user c) (c_detach_close c) (c_datagram c).
Definition set_fds (r w e sock : Z) (c : Channel) : Channel :=
  mk_channel (c_type c) (c_remote_id c) (c_have_remote_id c) (c_istate c) (c_ostate c) (c_flags c)
    r w e sock (c_isatty c) (c_force_drain c)
    (c_input c) (c_output c) (c_extended c) (c_remote_window c) (c_remote_maxpacket c)
    (c_local_window c) (c_local_window_max c) (c_local_consumed c) (c_local_maxpacket c)
    (c_extended_usage c) (c_ctype c) (c_detach_user c) (c_detach_close c) (c_datagram c).
Definition set_bufs (i o e : sshbuf) (c : Channel) : Channel :=
  mk_channel (c_type c) (c_remote_id c) (c_have_remote_id c) (c_istate c) (c_ostate c) (c_flags c)
    (c_rfd c) (c_wfd c) (c_efd c) (c_sock c) (c_isatty c) (c_force_drain c)
    i o e (c_remote_window c) (c_remote_maxpacket c)
    (c_local_window c) (c_local_window_max c) (c_local_consumed c) (c_local_maxpacket c)
    (c_extended_usage c) (c_ctype c) (c_detach_user c) (c_detach_close c) (c_datagram c).
Definition set_windows (rw lw lc : Z) (c : Channel) : Channel :=
  mk_channel (c_type c) (c_remote_id c) (c_have_remote_id c) (c_istate c) (c_ostate c) (c_flags c)
    (c_rfd c) (c_wfd c) (c_efd c) (c_sock c) (c_isatty c) (c_force_drain c)
    (c_input c) (c_output c) (c_extended c) rw (c_remote_maxpacket c)
    lw (c_local_window_max c) lc (c_local_maxpacket c)
    (c_extended_usage c) (c_ctype c) (c_detach_user c) (c_detach_close c) (c_datagram c).
Definition set_istate (i : Z) (c : Channel) : Channel := set_states i (c_ostate c) c.
Definition set_ostate (o : Z) (c : Channel) : Channel := set_states (c_istate c) o c.
Definition set_input (b : sshbuf) (c : Channel) : Channel := set_bufs b (c_output c) (c_extended c) c.
Definition set_output (b : sshbuf) (c : Channel) : Channel := set_bufs (c_input c) b (c_extended c) c.
Definition set_extended (b : sshbuf) (c : Channel) : Channel := set_bufs (c_input c) (c_output c) b c.

Definition on_ch (f : Channel -> Channel) : CH () :=
  modify (fun s => mk_st (f (ch s)) (out s) (calls s)).
Definition get {A} (f : Channel -> A) : CH A := gets (fun s => f (ch s)).
Definition syscall (k : call) : CH () :=
  modify (fun s => mk_st (ch s) (out s) (calls s ++ [k])).

(** A condition on flag bits. *)
Definition has (flags bits : Z) : bool := truthy (Z.land flags bits).
Definition add_flag (bits : Z) : CH () := on_ch (fun c => set_flags (Z.lor (c_flags c) bits) c).

Section Channel.
Context `{Allocator, ChanEnv}.

(** sshpkt_start ... sshpkt_send; a failure is fatal. *)
Definition send_msg (m : msg) : CH () := fun s =>
  if pkt_sends (out s) m then (inr tt, mk_st (ch s) (out s ++ [m]) (calls s)) else (inl Fatal, s).

Definition need_remote_id : CH () :=
  ok ← get c_have_remote_id; guard_or ok Fatal.

(** An operation on one of the buffers that must succeed. *)
Definition on_input {A} (m : SE sshbuf Z A) : CH A := fun s =>
  let '(r, b) := m (c_input (ch s)) in
  let s := mk_st (set_input b (ch s)) (out s) (calls s) in
  match r with inl _ => (inl Fatal, s) | inr a => (inr a, s) end.
Definition on_output {A} (m : SE sshbuf Z A) : CH A := fun s =>
  let '(r, b) := m (c_output (ch s)) in
  let s := mk_st (set_output b (ch s)) (out s) (calls s) in
  match r with inl _ => (inl Fatal, s) | inr a => (inr a, s) end.
Definition on_extended {A} (m : SE sshbuf Z A) : CH A := fun s =>
  let '(r, b) := m (c_extended (ch s)) in
  let s := mk_st (set_extended b (ch s)) (out s) (calls s) in
  match r with inl _ => (inl Fatal, s) | inr a => (inr a, s) end.

Definition CHANNEL_EFD_INPUT_ACTIVE (c : Channel) : bool :=
  (c_extended_usage c =? CHAN_EXTENDED_READ) &&
  (negb (c_efd c =? -1) || (0 <? sshbuf_len (c_extended c))).
Definition CHANNEL_EFD_OUTPUT_ACTIVE (c : Channel) : bool :=
  (c_extended_usage c =? CHAN_EXTENDED_WRITE) && negb (c_efd c =? -1) &&
  (negb (has (c_flags c) (Z.lor CHAN_EOF_RCVD CHAN_CLOSE_RCVD)) || (0 <? sshbuf_len (c_extended c))).

(** ** nchan.c *)

Definition chan_set_istate (next : Z) : CH () :=
  i ← get c_istate;
  _ ← guard_or (negb ((CHAN_INPUT_CLOSED <? i) || (CHAN_INPUT_CLOSED <? next))) Fatal;
  on_ch (set_istate next).
Definition chan_set_ostate (next : Z) : CH () :=
  o ← get c_ostate;
  _ ← guard_or (negb ((CHAN_OUTPUT_CLOSED <? o) || (CHAN_OUTPUT_CLOSED <? next))) Fatal;
  on_ch (set_ostate next).

(** channel_close_fd on c->rfd, c->wfd and c->efd. *)
Definition close_rfd : CH () :=
  fd ← get c_rfd;
  when (negb (fd =? -1)) (_ ← syscall (CClose fd); on_ch (fun c => set_fds (-1) (c_wfd c) (c_efd c) (c_sock c) c)).
Definition close_wfd : CH () :=
  fd ← get c_wfd;
  when (negb (fd =? -1)) (_ ← syscall (CClose fd); on_ch (fun c => set_fds (c_rfd c) (-1) (c_efd c) (c_sock c) c)).
Definition close_efd : CH () :=
  fd ← get c_efd;
  when (negb (fd =? -1)) (_ ← syscall (CClose fd); on_ch (fun c => set_fds (c_rfd c) (c_wfd c) (-1) (c_sock c) c)).

Definition chan_shutdown_write : CH () :=
  _ ← on_ch (fun c => set_output (sshbuf_reset (c_output c)) c);
  c ← get id;
  if c_type c =? SSH_CHANNEL_LARVAL then mret tt
  else if negb (c_sock c =? -1) then syscall (CShutdown (c_sock c) SHUT_WR)
  else close_wfd.
Definition chan_shutdown_read : CH () :=
  c ← get id;
  if c_type c =? SSH_CHANNEL_LARVAL then mret tt
  else if negb (c_sock c =? -1) then syscall (CShutdown (c_sock c) SHUT_RD)
  else close_rfd.

Definition chan_read_failed : CH () :=
  i ← get c_istate;
  if i =? CHAN_INPUT_OPEN then _ ← chan_shutdown_read; chan_set_istate CHAN_INPUT_WAIT_DRAIN
  else mret tt.

Definition chan_send_eof2 : CH () :=
  i ← get c_istate;
  if i =? CHAN_INPUT_WAIT_DRAIN then
    _ ← need_remote_id; _ ← send_msg CHANNEL_EOF; add_flag CHAN_EOF_SENT
  else mret tt.

Definition chan_send_close2 : CH () :=
  c ← get id;
  if negb (c_ostate c =? CHAN_OUTPUT_CLOSED) || negb (c_istate c =? CHAN_INPUT_CLOSED) then mret tt
  else if has (c_flags c) CHAN_CLOSE_SENT then mret tt
  else _ ← need_remote_id; _ ← send_msg CHANNEL_CLOSE; add_flag CHAN_CLOSE_SENT.

Definition chan_send_eow2 : CH () :=
  o ← get c_ostate;
  if o =? CHAN_OUTPUT_CLOSED then mret tt
  else if negb (has datafellows SSH_NEW_OPENSSH) then mret tt
  else _ ← need_remote_id; send_msg (CHANNEL_REQUEST (str "eow@openssh.com") false).

Definition chan_ibuf_empty : CH () :=
  c ← get id;
  if truthy (sshbuf_len (c_input c)) then mret tt
  else if c_istate c =? CHAN_INPUT_WAIT_DRAIN then
    _ ← when (negb (has (c_flags c) (Z.lor CHAN_CLOSE_SENT CHAN_LOCAL))) chan_send_eof2;
    chan_set_istate CHAN_INPUT_CLOSED
  else mret tt.

Definition chan_obuf_empty : CH () :=
  c ← get id;
  if truthy (sshbuf_len (c_output c)) then mret tt
  else if c_ostate c =? CHAN_OUTPUT_WAIT_DRAIN then
    _ ← chan_shutdown_write; chan_set_ostate CHAN_OUTPUT_CLOSED
  else mret tt.

Definition chan_rcvd_eow : CH () :=
  i ← get c_istate;
  if i =? CHAN_INPUT_OPEN then _ ← chan_shutdown_read; chan_set_istate CHAN_INPUT_CLOSED
  else mret tt.

Definition chan_rcvd_ieof : CH () :=
  _ ← add_flag CHAN_EOF_RCVD;
  o ← get c_ostate;
  _ ← when (o =? CHAN_OUTPUT_OPEN) (chan_set_ostate CHAN_OUTPUT_WAIT_DRAIN);
  c ← get id;
  when ((c_ostate c =? CHAN_OUTPUT_WAIT_DRAIN) && (sshbuf_len (c_output c) =? 0) &&
        negb (CHANNEL_EFD_OUTPUT_ACTIVE c)) chan_obuf_empty.

Definition chan_rcvd_oclose : CH () :=
  c ← get id;
  _ ← when (negb (has (c_flags c) CHAN_LOCAL)) (add_flag CHAN_CLOSE_RCVD);
  if c_type c =? SSH_CHANNEL_LARVAL then
    _ ← chan_set_ostate CHAN_OUTPUT_CLOSED; chan_set_istate CHAN_INPUT_CLOSED
  else
    _ ← when (c_ostate c =? CHAN_OUTPUT_OPEN) (chan_set_ostate CHAN_OUTPUT_WAIT_DRAIN);
    if c_istate c =? CHAN_INPUT_OPEN then
      _ ← chan_shutdown_read; chan_set_istate CHAN_INPUT_CLOSED
    else if c_istate c =? CHAN_INPUT_WAIT_DRAIN then
      _ ← when (negb (has (c_flags c) CHAN_LOCAL)) chan_send_eof2;
      chan_set_istate CHAN_INPUT_CLOSED
    else mret tt.

Definition chan_write_failed : CH () :=
  c ← get id;
  if (c_ostate c =? CHAN_OUTPUT_OPEN) || (c_ostate c =? CHAN_OUTPUT_WAIT_DRAIN) then
    _ ← chan_shutdown_write;
    _ ← when (bytes_eqb (c_ctype c) (str "session")) chan_send_eow2;
    chan_set_ostate CHAN_OUTPUT_CLOSED
  else mret tt.

Definition chan_mark_dead : CH () := on_ch (set_type SSH_CHANNEL_ZOMBIE).

Definition chan_is_dead (do_send : bool) : CH bool :=
  c ← get id;
  if c_type c =? SSH_CHANNEL_ZOMBIE then mret true
  else if negb (c_istate c =? CHAN_INPUT_CLOSED) || negb (c_ostate c =? CHAN_OUTPUT_CLOSED)
  then mret false
  else if has datafellows SSH_BUG_EXTEOF && (c_extended_usage c =? CHAN_EXTENDED_WRITE) &&
          negb (c_efd c =? -1) && (0 <? sshbuf_len (c_extended c)) then mret false
  else if has (c_flags c) CHAN_LOCAL then mret true
  else if negb (has (c_flags c) CHAN_CLOSE_SENT) && negb do_send && has (c_flags c) CHAN_CLOSE_RCVD
  then mret true
  else
    _ ← when (negb (has (c_flags c) CHAN_CLOSE_SENT) && do_send) chan_send_close2;
    f ← get c_flags;
    mret (has f CHAN_CLOSE_SENT && has f CHAN_CLOSE_RCVD).

(** ** channels.c: the handlers of an open channel *)

(** channel_pre_open: the descriptors to wait for. *)
Definition channel_pre_open : CH fdsets :=
  c ← get id;
  let rd := (c_istate c =? CHAN_INPUT_OPEN) && (0 <? c_remote_window c) &&
            (sshbuf_len (c_input c) <? c_remote_window c) &&
            (sshbuf_check_reserve (c_input c) CHAN_RBUF =? 0) in
  let o := (c_ostate c =? CHAN_OUTPUT_OPEN) || (c_ostate c =? CHAN_OUTPUT_WAIT_DRAIN) in
  let wr := o && (0 <? sshbuf_len (c_output c)) in
  _ ← when (o && negb wr && (c_ostate c =? CHAN_OUTPUT_WAIT_DRAIN) &&
            negb (CHANNEL_EFD_OUTPUT_ACTIVE c)) chan_obuf_empty;
  c' ← get id;
  let e := negb (c_efd c' =? -1) && negb ((c_istate c' =? CHAN_INPUT_CLOSED) &&
           (c_ostate c' =? CHAN_OUTPUT_CLOSED)) in
  let ew := e && (c_extended_usage c' =? CHAN_EXTENDED_WRITE) && (0 <? sshbuf_len (c_extended c')) in
  let er := e && negb ew && negb (has (c_flags c') CHAN_EOF_SENT) &&
            ((c_extended_usage c' =? CHAN_EXTENDED_READ) ||
             (c_extended_usage c' =? CHAN_EXTENDED_IGNORE)) &&
            (sshbuf_len (c_extended c') <? c_remote_window c') in
  mret (mk_fdsets ((if rd then [c_rfd c] else []) ++ (if er then [c_efd c'] else []))
                  ((if wr then [c_wfd c] else []) ++ (if ew then [c_efd c'] else []))).

(** What channel_handle_rfd and channel_handle_wfd do when the descriptor is
    at its end. *)
Definition fd_failed (failed : CH ()) : CH Z :=
  t ← get c_type;
  _ ← (if negb (t =? SSH_CHANNEL_OPEN) then chan_mark_dead else failed);
  mret (-1).

Definition channel_handle_rfd (fds : fdsets) (r : read_result) : CH Z :=
  c ← get id;
  let force := c_isatty c && c_detach_close c && negb (c_istate c =? CHAN_INPUT_CLOSED) in
  if (c_rfd c =? -1) || (negb force && negb (FD_ISSET (c_rfd c) (readset fds))) then mret 1
  else
    match r with
    | RError EINTR => mret 1
    | RError EAGAIN => if force then fd_failed chan_read_failed else mret 1
    | RError EOTHER | RData [] => fd_failed chan_read_failed
    | RData data =>
        _ ← syscall (CRead Main (c_rfd c) data);
        match input_filter with
        | Some f =>
            let '(ok, c') := f c data in
            _ ← on_ch (fun _ => c');
            _ ← when (negb ok) chan_read_failed;
            mret 1
        | None =>
            _ ← on_input (if c_datagram c then sshbuf_put_string data (zlen data)
                          else sshbuf_put data (zlen data));
            mret 1
        end
    end.

(** write(): [echo] is what tcgetattr says of a terminal, whether an answer is
    to be faked. *)
Definition channel_handle_wfd (fds : fdsets) (w : write_result) (echo : bool) : CH Z :=
  c ← get id;
  if (c_wfd c =? -1) || negb (FD_ISSET (c_wfd c) (writeset fds)) || (sshbuf_len (c_output c) =? 0)
  then mret 1
  else
    let olen := sshbuf_len (c_output c) in
    let finish :=
      _ ← on_ch (fun c => set_windows (c_remote_window c) (c_local_window c)
                   (u32 (c_local_consumed c + (olen - sshbuf_len (c_output c)))) c);
      mret 1 in
    let failed := (_ ← syscall (CWriteFailed (c_wfd c)); fd_failed chan_write_failed) in
    let plain buf :=
      match w with
      | WError EINTR | WError EAGAIN => mret 1
      | WError EOTHER => failed
      | WCount n =>
          if n <=? 0 then failed
          else
            _ ← syscall (CWrite Main (c_wfd c) (ztake n buf));
            _ ← when (c_isatty c && (1 <=? zlen buf) && negb (znth buf 0 =? 13) && echo)
                  (send_msg (MSG_IGNORE (4 + n)));
            _ ← on_output (sshbuf_consume n);
            finish
      end in
    let datagram buf :=
      match w with
      | WError EINTR | WError EAGAIN => mret 1
      | WError EOTHER => failed
      | WCount n =>
          if n <=? 0 then failed
          else _ ← syscall (CWrite Main (c_wfd c) (ztake n buf)); finish
      end in
    match output_filter with
    | Some f =>
        let '(buf, c') := f c in
        _ ← on_ch (fun _ => c');
        match buf with
        | None => fd_failed chan_write_failed
        | Some buf => if c_datagram c then datagram buf else plain buf
        end
    | None =>
        if c_datagram c then buf ← on_output sshbuf_get_string; datagram buf
        else plain (ztake olen (sshbuf_ptr (c_output c)))
    end.

Definition channel_handle_efd_write (fds : fdsets) (w : write_result) : CH Z :=
  c ← get id;
  if negb (FD_ISSET (c_efd c) (writeset fds)) || (sshbuf_len (c_extended c) =? 0) then mret 1
  else
    match w with
    | WError EINTR | WError EAGAIN => mret 1
    | WError EOTHER => _ ← close_efd; mret 1
    | WCount n =>
        if n <=? 0 then _ ← close_efd; mret 1
        else
          _ ← syscall (CWrite Ext (c_efd c) (ztake n (sshbuf_ptr (c_extended c))));
          _ ← on_extended (sshbuf_consume n);
          _ ← on_ch (fun c => set_windows (c_remote_window c) (c_local_window c)
                       (u32 (c_local_consumed c + n)) c);
          mret 1
    end.

Definition channel_handle_efd_read (fds : fdsets) (r : read_result) : CH Z :=
  c ← get id;
  if negb (c_detach_close c) && negb (FD_ISSET (c_efd c) (readset fds)) then mret 1
  else
    match r with
    | RError EINTR => mret 1
    | RError EAGAIN => if c_detach_close c then _ ← close_efd; mret 1 else mret 1
    | RError EOTHER | RData [] => _ ← close_efd; mret 1
    | RData data =>
        _ ← syscall (CRead Ext (c_efd c) data);
        if c_extended_usage c =? CHAN_EXTENDED_IGNORE then mret 1
        else _ ← on_extended (sshbuf_put data (zlen data)); mret 1
    end.

Definition channel_handle_efd (fds : fdsets) (r : read_result) (w : write_result) : CH Z :=
  c ← get id;
  if c_efd c =? -1 then mret 1
  else if c_extended_usage c =? CHAN_EXTENDED_WRITE then channel_handle_efd_write fds w
  else if (c_extended_usage c =? CHAN_EXTENDED_READ) || (c_extended_usage c =? CHAN_EXTENDED_IGNORE)
  then channel_handle_efd_read fds r
  else mret 1.

Definition channel_check_window : CH Z :=
  c ← get id;
  if (c_type c =? SSH_CHANNEL_OPEN) &&
     negb (has (c_flags c) (Z.lor CHAN_CLOSE_SENT CHAN_CLOSE_RCVD)) &&
     ((u32 (c_local_maxpacket c * 3) <? u32 (c_local_window_max c - c_local_window c)) ||
      (c_local_window c <? c_local_window_max c / 2)) &&
     (0 <? c_local_consumed c) then
    _ ← need_remote_id;
    _ ← send_msg (CHANNEL_WINDOW_ADJUST (c_local_consumed c));
    _ ← on_ch (fun c => set_windows (c_remote_window c)
                 (u32 (c_local_window c + c_local_consumed c)) 0 c);
    mret 1
  else mret 1.

(** The results of the calls one round may make. *)
Record io := mk_io { io_rfd : read_result; io_wfd : write_result; io_echo : bool;
                     io_efd_r : read_result; io_efd_w : write_result }.

Definition channel_post_open (fds : fdsets) (x : io) : CH () :=
  _ ← channel_handle_rfd fds (io_rfd x);
  _ ← channel_handle_wfd fds (io_wfd x) (io_echo x);
  _ ← channel_handle_efd fds (io_efd_r x) (io_efd_w x);
  _ ← channel_check_window;
  mret tt.

(** channel_close_fds: every descriptor once. *)
Definition channel_close_fds : CH () :=
  c ← get id;
  let sock := c_sock c in let rfd := c_rfd c in let wfd := c_wfd c in let efd := c_efd c in
  _ ← when (negb (sock =? -1))
        (_ ← syscall (CClose sock); on_ch (fun c => set_fds (c_rfd c) (c_wfd c) (c_efd c) (-1) c));
  _ ← when (negb (rfd =? sock)) close_rfd;
  _ ← when (negb (wfd =? sock) && negb (wfd =? rfd)) close_wfd;
  when (negb (efd =? sock) && negb (efd =? rfd) && negb (efd =? wfd)) close_efd.

(** channel_garbage_collect: whether the channel is freed, after its
    descriptors were closed. *)
Definition channel_garbage_collect : CH bool :=
  c ← get id;
  let last := (dead ← chan_is_dead true;
               if (dead : bool) then _ ← channel_close_fds; mret true else mret false) in
  if c_detach_user c then
    dead ← chan_is_dead (c_detach_close c);
    if negb dead then mret false
    else
      _ ← on_ch detach_user;
      still ← get c_detach_user;
      if (still : bool) then mret false else last
  else last.

Definition channel_output_poll_input_open : CH () :=
  c ← get id;
  let len := sshbuf_len (c_input c) in
  if len =? 0 then
    when ((c_istate c =? CHAN_INPUT_WAIT_DRAIN) && negb (CHANNEL_EFD_INPUT_ACTIVE c)) chan_ibuf_empty
  else
    _ ← need_remote_id;
    if c_datagram c then
      '(pkt, plen) ← on_input sshbuf_get_string_direct;
      if (c_remote_window c <? plen) || (c_remote_maxpacket c <? plen) then mret tt
      else
        _ ← send_msg (CHANNEL_DATA (ztake plen pkt));
        on_ch (fun c => set_windows (u32 (c_remote_window c - plen)) (c_local_window c)
                 (c_local_consumed c) c)
    else
      let len := if c_remote_window c <? len then c_remote_window c else len in
      let len := if c_remote_maxpacket c <? len then c_remote_maxpacket c else len in
      if len =? 0 then mret tt
      else
        _ ← send_msg (CHANNEL_DATA (ztake len (sshbuf_ptr (c_input c))));
        _ ← on_input (sshbuf_consume len);
        on_ch (fun c => set_windows (u32 (c_remote_window c - len)) (c_local_window c)
                 (c_local_consumed c) c).

Definition channel_output_poll_extended_read : CH () :=
  c ← get id;
  let len := sshbuf_len (c_extended c) in
  if len =? 0 then mret tt
  else
    let len := if c_remote_window c <? len then c_remote_window c else len in
    let len := if c_remote_maxpacket c <? len then c_remote_maxpacket c else len in
    if len =? 0 then mret tt
    else
      _ ← need_remote_id;
      _ ← send_msg (CHANNEL_EXTENDED_DATA SSH2_EXTENDED_DATA_STDERR
                      (ztake len (sshbuf_ptr (c_extended c))));
      _ ← on_extended (sshbuf_consume len);
      on_ch (fun c => set_windows (u32 (c_remote_window c - len)) (c_local_window c)
               (c_local_consumed c) c).

(** channel_output_poll, for one channel. *)
Definition channel_output_poll : CH () :=
  c ← get id;
  if negb (c_type c =? SSH_CHANNEL_OPEN) then mret tt
  else if has (c_flags c) (Z.lor CHAN_CLOSE_SENT CHAN_CLOSE_RCVD) then mret tt
  else
    _ ← when ((c_istate c =? CHAN_INPUT_OPEN) || (c_istate c =? CHAN_INPUT_WAIT_DRAIN))
          channel_output_poll_input_open;
    c ← get id;
    when (negb (has (c_flags c) CHAN_EOF_SENT) && (c_extended_usage c =? CHAN_EXTENDED_READ))
      channel_output_poll_extended_read.

(** ** channels.c: messages for the channel *)

Definition channel_input_data (parsed : option (list Z)) : CH () :=
  c ← get id;
  if negb (c_type c =? SSH_CHANNEL_OPEN) && negb (c_type c =? SSH_CHANNEL_RDYNAMIC_OPEN) &&
     negb (c_type c =? SSH_CHANNEL_RDYNAMIC_FINISH) && negb (c_type c =? SSH_CHANNEL_X11_OPEN)
  then mret tt
  else
    match parsed with
    | None => throw Fatal
    | Some data =>
        let win_len := if c_datagram c then zlen data + 4 else zlen data in
        if negb (c_ostate c =? CHAN_OUTPUT_OPEN) then
          on_ch (fun c => set_windows (c_remote_window c) (u32 (c_local_window c - win_len))
                   (u32 (c_local_consumed c + win_len)) c)
        else if c_local_maxpacket c <? win_len then mret tt
        else if c_local_window c <? win_len then mret tt
        else
          _ ← on_ch (fun c => set_windows (c_remote_window c) (u32 (c_local_window c - win_len))
                       (c_local_consumed c) c);
          on_output (if c_datagram c then sshbuf_put_string data (zlen data)
                     else sshbuf_put data (zlen data))
    end.

(** A failure to append is only logged here. *)
Definition channel_input_extended_data (tcode : option Z) (parsed : option (list Z)) : CH () :=
  c ← get id;
  if negb (c_type c =? SSH_CHANNEL_OPEN) then mret tt
  else
    _ ← guard_or (negb (has (c_flags c) CHAN_EOF_RCVD) || has datafellows SSH_BUG_EXTEOF) Disconnect;
    match tcode with
    | None => throw Disconnect
    | Some tcode =>
        if (c_efd c =? -1) || negb (c_extended_usage c =? CHAN_EXTENDED_WRITE) ||
           negb (tcode =? SSH2_EXTENDED_DATA_STDERR) then mret tt
        else
          match parsed with
          | None => throw Disconnect
          | Some data =>
              if c_local_window c <? zlen data then mret tt
              else
                _ ← on_ch (fun c => set_extended (snd (sshbuf_put data (zlen data) (c_extended c))) c);
                on_ch (fun c => set_windows (c_remote_window c) (u32 (c_local_window c - zlen data))
                         (c_local_consumed c) c)
          end
    end.

Definition channel_input_ieof : CH () :=
  _ ← chan_rcvd_ieof;
  c ← get id;
  when (c_force_drain c && (c_istate c =? CHAN_INPUT_OPEN))
    (_ ← on_ch (set_istate CHAN_INPUT_WAIT_DRAIN);
     when (sshbuf_len (c_input c) =? 0) chan_ibuf_empty).

Definition channel_input_oclose : CH () := chan_rcvd_oclose.

Definition channel_input_window_adjust (parsed : option Z) : CH () :=
  match parsed with
  | None => throw Disconnect
  | Some adjust =>
      w ← get c_remote_window;
      let new_rwin := u32 (w + adjust) in
      if new_rwin <? w then throw Fatal
      else on_ch (fun c => set_windows new_rwin (c_local_window c) (c_local_consumed c) c)
  end.

(** The dispatch of messages for the channel (dispatch_set in serverloop.c).  Of
    channel requests only eow@openssh.com concerns the channel itself
    (server_input_channel_req); the others belong to the session. *)
Definition channel_input (m : msg) : CH () :=
  match m with
  | CHANNEL_DATA d => channel_input_data (Some d)
  | CHANNEL_EXTENDED_DATA code d => channel_input_extended_data (Some code) (Some d)
  | CHANNEL_EOF => channel_input_ieof
  | CHANNEL_CLOSE => channel_input_oclose
  | CHANNEL_WINDOW_ADJUST n => channel_input_window_adjust (Some n)
  | CHANNEL_REQUEST name _ =>
      if bytes_eqb name (str "eow@openssh.com") then chan_rcvd_eow else mret tt
  | MSG_IGNORE _ => mret tt
  end.

(** channel_handler with CHAN_PRE for an open channel, and with CHAN_POST: the
    handler, then garbage collection; whether the channel was freed. *)
Definition channel_pre : CH (fdsets * bool) :=
  fds ← channel_pre_open; freed ← channel_garbage_collect; mret (fds, freed).
Definition channel_post (fds : fdsets) (x : io) : CH bool :=
  _ ← channel_post_open fds x; channel_garbage_collect.
End Channel.
