(* ===== verification/ChannelSpec.v ===== *)
(** * What the two ends of an SSH channel promise each other

    The channel protocol without buffers, descriptors and flag words: an end
    is a sending half, a receiving half and two close flags; its steps are
    the events of RFC 4254, section 5.  A pair of ends with the messages
    between them keeps the invariant [pair_ok]: windows are never exceeded,
    nothing follows a CLOSE and no data follows an EOF, and what one end
    writes to its process is what the other end read from its own.

    ChannelPair.v shows that Channel.v takes only these steps. *)

From S2P Require Import Prelude Sshbuf Channel.

(** ** Ends *)

(** The sending half: its state (CHAN_INPUT_OPEN and so on), whether EOF was sent, the bytes
    that wait to be sent, those of stderr, the peer's window, and all bytes
    read so far. *)
Record sender := mk_snd {
  s_st : Z; s_eof : bool; s_buf : list Z; s_ext : list Z; s_rw : Z; s_read : list Z }.
(** The receiving half: its state (CHAN_OUTPUT_OPEN and so on), whether EOF was received, the
    bytes that wait to be written, those of stderr, the window, what was
    consumed of it, all bytes written so far, and whether writing failed. *)
Record receiver := mk_rcv {
  r_st : Z; r_eof : bool; r_buf : list Z; r_ext : list Z; r_lw : Z; r_lc : Z;
  r_written : list Z; r_err : bool }.
Record ep := mk_ep { e_s : sender; e_r : receiver; e_cs : bool; e_cr : bool }.

Definition eow : msg := CHANNEL_REQUEST (str "eow@openssh.com") false.

(** What an end does by itself, with the messages it sends; [maxp] is the
    largest packet the peer takes. *)
Inductive estep (maxp : Z) : ep -> list msg -> ep -> Prop :=
  | E_read eof buf ext rw rd r cs cr d :
      estep maxp (mk_ep (mk_snd 0 eof buf ext rw rd) r cs cr) []
                 (mk_ep (mk_snd 0 eof (buf ++ d) ext rw (rd ++ d)) r cs cr)
  | E_read_end eof buf ext rw rd r cs cr :
      estep maxp (mk_ep (mk_snd 0 eof buf ext rw rd) r cs cr) []
                 (mk_ep (mk_snd 1 eof buf ext rw rd) r cs cr)
  | E_ext st eof buf ext ext' rw rd r cs cr :
      estep maxp (mk_ep (mk_snd st eof buf ext rw rd) r cs cr) []
                 (mk_ep (mk_snd st eof buf ext' rw rd) r cs cr)
  | E_send_data st eof buf ext rw rd r n :
      st = 0 \/ st = 1 -> 0 < n <= zlen buf -> n <= rw -> n <= maxp ->
      estep maxp (mk_ep (mk_snd st eof buf ext rw rd) r false false) [CHANNEL_DATA (ztake n buf)]
                 (mk_ep (mk_snd st eof (zdrop n buf) ext (rw - n) rd) r false false)
  | E_send_ext st buf ext rw rd r n :
      0 < n <= zlen ext -> n <= rw -> n <= maxp ->
      estep maxp (mk_ep (mk_snd st false buf ext rw rd) r false false)
                 [CHANNEL_EXTENDED_DATA SSH2_EXTENDED_DATA_STDERR (ztake n ext)]
                 (mk_ep (mk_snd st false buf (zdrop n ext) (rw - n) rd) r false false)
  | E_send_eof eof ext rw rd r cr :
      estep maxp (mk_ep (mk_snd 1 eof [] ext rw rd) r false cr) [CHANNEL_EOF]
                 (mk_ep (mk_snd 3 true [] ext rw rd) r false cr)
  | E_write s st eof buf ext lw lc wr err cs cr n ms :
      st = 0 \/ st = 1 -> 0 < n <= zlen buf -> ms = [] \/ (exists k, ms = [MSG_IGNORE k]) ->
      estep maxp (mk_ep s (mk_rcv st eof buf ext lw lc wr err) cs cr) ms
                 (mk_ep s (mk_rcv st eof (zdrop n buf) ext lw (lc + n) (wr ++ ztake n buf) err) cs cr)
  | E_write_failed s st eof buf ext lw lc wr err cs cr ms :
      st = 0 \/ st = 1 -> ms = [] \/ ms = [eow] ->
      estep maxp (mk_ep s (mk_rcv st eof buf ext lw lc wr err) cs cr) ms
                 (mk_ep s (mk_rcv 3 eof [] ext lw lc wr true) cs cr)
  | E_ext_write s st eof buf ext lw lc wr err cs cr n :
      0 < n <= zlen ext ->
      estep maxp (mk_ep s (mk_rcv st eof buf ext lw lc wr err) cs cr) []
                 (mk_ep s (mk_rcv st eof buf (zdrop n ext) lw (lc + n) wr err) cs cr)
  | E_drained s eof ext lw lc wr err cs cr :
      estep maxp (mk_ep s (mk_rcv 1 eof [] ext lw lc wr err) cs cr) []
                 (mk_ep s (mk_rcv 3 eof [] ext lw lc wr err) cs cr)
  | E_adjust s st eof buf ext lw lc wr err :
      0 < lc ->
      estep maxp (mk_ep s (mk_rcv st eof buf ext lw lc wr err) false false) [CHANNEL_WINDOW_ADJUST lc]
                 (mk_ep s (mk_rcv st eof buf ext (lw + lc) 0 wr err) false false)
  | E_close s r cr :
      s_st s = 3 -> r_st r = 3 ->
      estep maxp (mk_ep s r false cr) [CHANNEL_CLOSE] (mk_ep s r true cr).

(** What an end does with a message; [maxp] is the largest packet it takes. *)
Inductive erecv (maxp : Z) : ep -> msg -> list msg -> ep -> Prop :=
  | R_data s eof buf ext lw lc wr err cs cr d :
      zlen d <= maxp -> zlen d <= lw ->
      erecv maxp (mk_ep s (mk_rcv 0 eof buf ext lw lc wr err) cs cr) (CHANNEL_DATA d) []
                 (mk_ep s (mk_rcv 0 eof (buf ++ d) ext (lw - zlen d) lc wr err) cs cr)
  | R_data_dropped s st eof buf ext lw lc wr err cs cr d :
      st <> 0 ->
      erecv maxp (mk_ep s (mk_rcv st eof buf ext lw lc wr err) cs cr) (CHANNEL_DATA d) []
                 (mk_ep s (mk_rcv st eof buf ext (lw - zlen d) (lc + zlen d) wr err) cs cr)
  | R_ext s st buf ext lw lc wr err cs cr k d :
      zlen d <= lw ->
      erecv maxp (mk_ep s (mk_rcv st false buf ext lw lc wr err) cs cr) (CHANNEL_EXTENDED_DATA k d) []
                 (mk_ep s (mk_rcv st false buf (ext ++ d) (lw - zlen d) lc wr err) cs cr)
  | R_ext_ignored s r cs cr k d :
      r_eof r = false ->
      erecv maxp (mk_ep s r cs cr) (CHANNEL_EXTENDED_DATA k d) [] (mk_ep s r cs cr)
  | R_eof s st eof buf ext lw lc wr err cs cr :
      erecv maxp (mk_ep s (mk_rcv st eof buf ext lw lc wr err) cs cr) CHANNEL_EOF []
                 (mk_ep s (mk_rcv (if st =? 0 then 1 else st) true buf ext lw lc wr err) cs cr)
  | R_close_open eof buf ext rw rd st eof' buf' ext' lw lc wr err cs cr :
      erecv maxp (mk_ep (mk_snd 0 eof buf ext rw rd) (mk_rcv st eof' buf' ext' lw lc wr err) cs cr)
                 CHANNEL_CLOSE []
                 (mk_ep (mk_snd 3 eof buf ext rw rd)
                        (mk_rcv (if st =? 0 then 1 else st) eof' buf' ext' lw lc wr err) cs true)
  | R_close_drain eof buf ext rw rd st eof' buf' ext' lw lc wr err cs cr :
      erecv maxp (mk_ep (mk_snd 1 eof buf ext rw rd) (mk_rcv st eof' buf' ext' lw lc wr err) cs cr)
                 CHANNEL_CLOSE [CHANNEL_EOF]
                 (mk_ep (mk_snd 3 true buf ext rw rd)
                        (mk_rcv (if st =? 0 then 1 else st) eof' buf' ext' lw lc wr err) cs true)
  | R_close_closed s st eof' buf' ext' lw lc wr err cs cr :
      s_st s = 3 ->
      erecv maxp (mk_ep s (mk_rcv st eof' buf' ext' lw lc wr err) cs cr) CHANNEL_CLOSE []
                 (mk_ep s (mk_rcv (if st =? 0 then 1 else st) eof' buf' ext' lw lc wr err) cs true)
  | R_adjust st eof buf ext rw rd r cs cr n :
      0 <= n ->
      erecv maxp (mk_ep (mk_snd st eof buf ext rw rd) r cs cr) (CHANNEL_WINDOW_ADJUST n) []
                 (mk_ep (mk_snd st eof buf ext (rw + n) rd) r cs cr)
  | R_eow st eof buf ext rw rd r cs cr :
      erecv maxp (mk_ep (mk_snd st eof buf ext rw rd) r cs cr) eow []
                 (mk_ep (mk_snd (if st =? 0 then 3 else st) eof buf ext rw rd) r cs cr)
  | R_ignore e k : erecv maxp e (MSG_IGNORE k) [] e.

(** ** Messages under way *)

#[global] Instance msg_eq_dec : EqDecision msg.
Proof. solve_decision. Defined.

(** The order of messages the receiver still has to see: nothing after CLOSE, no
    data and no second EOF after EOF; the flags afterwards. *)
Fixpoint legal (eof close : bool) (q : list msg) : option (bool * bool) :=
  match q with
  | [] => Some (eof, close)
  | m :: q' =>
      if close then None
      else match m with
           | CHANNEL_DATA _ | CHANNEL_EXTENDED_DATA _ _ => if eof then None else legal eof close q'
           | CHANNEL_EOF => if eof then None else legal true close q'
           | CHANNEL_CLOSE => legal eof true q'
           | CHANNEL_REQUEST name reply =>
               if bool_decide (m = eow) then legal eof close q' else None
           | CHANNEL_WINDOW_ADJUST n => if 0 <=? n then legal eof close q' else None
           | MSG_IGNORE _ => legal eof close q'
           end
  end.

(** The bytes, the window they take and the window they give. *)
Fixpoint datas (q : list msg) : list Z :=
  match q with
  | [] => []
  | CHANNEL_DATA d :: q' => d ++ datas q'
  | _ :: q' => datas q'
  end.
Fixpoint takes (q : list msg) : Z :=
  match q with
  | [] => 0
  | CHANNEL_DATA d :: q' | CHANNEL_EXTENDED_DATA _ d :: q' => zlen d + takes q'
  | _ :: q' => takes q'
  end.
Fixpoint gives (q : list msg) : Z :=
  match q with
  | [] => 0
  | CHANNEL_WINDOW_ADJUST n :: q' => n + gives q'
  | _ :: q' => gives q'
  end.
Definition fits (maxp : Z) (m : msg) : Prop :=
  match m with CHANNEL_DATA d => zlen d <= maxp | _ => True end.


Lemma legal_app e c q q' :
  legal e c (q ++ q') = '(e', c') ← legal e c q; legal e' c' q'.
Proof.
  revert e c. induction q as [|m q IH]; intros e c; simpl; [done|].
  destruct c; [done|]. destruct m; simpl; rewrite ?IH; repeat case_match; done.
Qed.
Lemma datas_app q q' : datas (q ++ q') = datas q ++ datas q'.
Proof. induction q as [|m q IH]; simpl; [done|]. destruct m; simpl; rewrite IH, ?app_assoc; done. Qed.
Lemma takes_app q q' : takes (q ++ q') = takes q + takes q'.
Proof. induction q as [|m q IH]; simpl; [lia|]. destruct m; simpl; lia. Qed.
Lemma gives_app q q' : gives (q ++ q') = gives q + gives q'.
Proof. induction q as [|m q IH]; simpl; [lia|]. destruct m; simpl; lia. Qed.
Lemma takes_nonneg q : 0 <= takes q.
Proof. induction q as [|m q IH]; simpl; [done|]. destruct m; zlen_facts; lia. Qed.

(** After CLOSE nothing comes, after EOF no data. *)
Lemma legal_closed e q r : legal e true q = Some r -> q = [] /\ r = (e, true).
Proof. destruct q; simpl; [|done]. by intros [= <-]. Qed.
Lemma legal_eof c q r : legal true c q = Some r -> datas q = [] /\ takes q = 0 /\ r.1 = true.
Proof.
  revert c. induction q as [|m q IH]; intros c; simpl; [intros [= <-]; done|].
  destruct c; [done|]. destruct m; try done; repeat case_match; try done; apply IH.
Qed.
Lemma legal_gives e c q r : legal e c q = Some r -> 0 <= gives q.
Proof.
  revert e c. induction q as [|m q IH]; intros e c; simpl; [done|].
  destruct c; [done|]. destruct m; try done; repeat case_match; try done; intros Hl;
    specialize (IH _ _ Hl); try apply Z.leb_le in H; lia.
Qed.
(** Flags are never taken back. *)
Lemma legal_mono e c q e' c' : legal e c q = Some (e', c') -> (e = true -> e' = true) /\ (c = true -> c' = true).
Proof.
  revert e c. induction q as [|m q IH]; intros e c; simpl; [intros [= <- <-]; done|].
  destruct c; [done|]. destruct m; try done; repeat case_match; try done; intros Hl;
    destruct (IH _ _ Hl); naive_solver.
Qed.
#[export] Hint Rewrite datas_app takes_app gives_app : zlist.

(** ** The invariant *)

(** One end, with a window of [w] bytes. *)
Record local_ok (w : Z) (e : ep) : Prop := {
  l_s : s_st (e_s e) = 0 \/ s_st (e_s e) = 1 \/ s_st (e_s e) = 3;
  l_r : r_st (e_r e) = 0 \/ r_st (e_r e) = 1 \/ r_st (e_r e) = 3;
  l_rw : 0 <= s_rw (e_s e);
  l_lw : 0 <= r_lw (e_r e);
  l_lc : 0 <= r_lc (e_r e);
  l_win : r_lw (e_r e) + r_lc (e_r e) + zlen (r_buf (e_r e)) + zlen (r_ext (e_r e)) <= w;
  l_cs : e_cs e = true -> s_st (e_s e) = 3 /\ r_st (e_r e) = 3;
  l_cr : e_cr e = true -> s_st (e_s e) = 3 /\ r_st (e_r e) <> 0;
  l_es : s_eof (e_s e) = true -> s_st (e_s e) = 3 /\ (e_cr e = false -> s_buf (e_s e) = []);
  l_er : r_eof (e_r e) = true -> r_st (e_r e) <> 0;
  l_drain : r_st (e_r e) = 1 -> r_eof (e_r e) = true \/ e_cr e = true;
  l_done : r_st (e_r e) = 3 -> r_err (e_r e) = false -> r_eof (e_r e) = true \/ e_cr e = true;
  l_err : r_err (e_r e) = true -> r_st (e_r e) = 3;
  l_empty : r_st (e_r e) = 3 -> r_buf (e_r e) = []
}.

(** The bytes from [x] to [y]. *)
Definition stream_ok (x y : ep) (qx : list msg) : Prop :=
  exists sent, s_read (e_s x) = sent ++ s_buf (e_s x) /\
    (if r_st (e_r y) =? 3 then
       exists lost, sent = r_written (e_r y) ++ lost /\ (r_err (e_r y) = false -> lost = [])
     else sent = r_written (e_r y) ++ r_buf (e_r y) ++ datas qx).

(** [x] sends to [y], which takes packets up to [maxp]: [qx] are the messages
    from [x] to [y], [qy] those back. *)
Record dir_ok (maxp : Z) (x y : ep) (qx qy : list msg) : Prop := {
  d_legal : legal (r_eof (e_r y)) (e_cr y) qx = Some (s_eof (e_s x), e_cs x);
  d_win : s_rw (e_s x) + takes qx + gives qy <= r_lw (e_r y);
  d_fits : Forall (fits maxp) qx;
  d_stream : stream_ok x y qx
}.

Record pair_ok (wx mx wy my : Z) (x y : ep) (qx qy : list msg) : Prop := {
  p_x : local_ok wx x;
  p_y : local_ok wy y;
  p_xy : dir_ok my x y qx qy;
  p_yx : dir_ok mx y x qy qx
}.

Lemma pair_sym wx mx wy my x y qx qy :
  pair_ok wx mx wy my x y qx qy -> pair_ok wy my wx mx y x qy qx.
Proof. by intros []. Qed.

(** Once EOF or CLOSE was received, no data is under way. *)
Lemma no_data maxp w x y qx qy :
  dir_ok maxp x y qx qy -> local_ok w y -> r_st (e_r y) = 1 -> datas qx = [].
Proof.
  intros Hd Hl H1. pose proof (d_legal _ _ _ _ _ Hd) as Hlg.
  destruct (l_drain _ _ Hl H1) as [E|E]; rewrite E in Hlg.
  - by apply legal_eof in Hlg as [? _].
  - by apply legal_closed in Hlg as [-> _].
Qed.

(** A receiver that is done without an error has heard of the end of the data. *)
Lemma sender_done maxp w w' x y qx qy :
  local_ok w x -> local_ok w' y -> dir_ok maxp x y qx qy ->
  r_st (e_r y) = 3 -> r_err (e_r y) = false -> s_st (e_s x) = 3.
Proof.
  intros Hx Hy Hd H3 He. pose proof (d_legal _ _ _ _ _ Hd) as Hlg.
  apply legal_mono in Hlg as [Hle Hlc].
  destruct (l_done _ _ Hy H3 He) as [E|E].
  - by apply (l_es _ _ Hx), Hle.
  - by apply (l_cs _ _ Hx), Hlc.
Qed.

(** A step of [x] keeps [x] in order. *)
Lemma estep_local maxp w x ms x' : estep maxp x ms x' -> local_ok w x -> local_ok w x'.
Proof.
  destruct 1; intros []; simpl in *; split; simpl; autorewrite with zlist in *; zlen_facts;
    try solve [done | lia | naive_solver | intros; simplify_eq; naive_solver lia].
Qed.

(** ... and the bytes it sends. *)
Lemma estep_out maxp w w' x ms x' y qx qy :
  estep maxp x ms x' -> local_ok w x -> local_ok w' y -> dir_ok maxp x y qx qy ->
  dir_ok maxp x' y (qx ++ ms) qy.
Proof.
  intros Hst Hl Hly Hdir. pose proof Hdir as [Hlg Hw Hf (sent & Hrd & Hs)].
  pose proof (l_cs _ _ Hl) as Hcs. pose proof (l_es _ _ Hl) as Hes.
  assert (Hstr : forall buf', datas ms = [] -> s_buf (e_s x') = buf' -> s_read (e_s x') = sent ++ buf' ->
            stream_ok x' y (qx ++ ms)).
  { intros buf' Hd Hb Hr. exists sent. rewrite Hb. split; [done|].
    rewrite datas_app, Hd, app_nil_r. done. }
  split.
  - rewrite legal_app, Hlg. simpl. destruct Hst; simpl in *; try done.
    + destruct eof; [|done]. destruct (Hes eq_refl). lia.
    + destruct eof; [|done]. destruct (Hes eq_refl). lia.
    + destruct H1 as [->|[k ->]]; simpl; [done|]. destruct cs; [|done]. destruct (Hcs eq_refl); lia.
    + destruct H0 as [->| ->]; simpl; [done|]. destruct cs; [|done]. destruct (Hcs eq_refl); lia.
    + by rewrite (proj2 (Z.leb_le 0 lc)) by lia.
  - rewrite takes_app. destruct Hst; simpl in *; autorewrite with zlist; try lia.
    + destruct H1 as [->|[k ->]]; simpl; lia.
    + destruct H0 as [->| ->]; simpl; lia.
  - apply Forall_app. split; [done|]. destruct Hst; try solve [repeat constructor].
    + constructor; [|constructor]. simpl. rewrite zlen_ztake by lia. done.
    + destruct H1 as [->|[k ->]]; repeat constructor.
    + destruct H0 as [->| ->]; repeat constructor.
  - destruct Hst; simpl in *; try (by eapply Hstr).
    + eapply Hstr; [done..|]. rewrite Hrd. by rewrite app_assoc.
    + exists (sent ++ ztake n buf). simpl. rewrite <- app_assoc, ztake_zdrop. split; [done|].
      destruct (Z.eqb_spec (r_st (e_r y)) 3); [|rewrite Hs, datas_app; simpl; by rewrite app_nil_r, !app_assoc].
      destruct Hs as (lost & -> & Hlost). exists (lost ++ ztake n buf). split; [by rewrite app_assoc|].
      intros Herr. exfalso. pose proof (sender_done _ _ _ _ _ _ _ Hl Hly Hdir) as Hd. simpl in Hd.
      specialize (Hd ltac:(done) Herr). lia.
    + destruct H1 as [->|[k ->]]; by eapply Hstr.
    + destruct H0 as [->| ->]; by eapply Hstr.
Qed.

(** ... and those it receives. *)
Lemma estep_in maxp maxp' w x ms x' y qx qy :
  estep maxp x ms x' -> local_ok w x -> dir_ok maxp' y x qy qx -> dir_ok maxp' y x' qy (qx ++ ms).
Proof.
  intros Hst Hl Hdir. pose proof Hdir as [Hlg Hw Hf Hstr].
  assert (Hsame : e_r x' = e_r x -> stream_ok y x' qy) by (intros E; unfold stream_ok; by rewrite E).
  split; [by destruct Hst| |done|].
  - rewrite gives_app. destruct Hst; simpl in *; try lia.
    + destruct H1 as [->|[k ->]]; simpl; lia.
    + destruct H0 as [->| ->]; simpl; lia.
  - destruct Hst; try (by apply Hsame); destruct Hstr as (sent & Hrd & Hs); exists sent;
      (split; [exact Hrd|]); simpl in *.
    + rewrite (proj2 (Z.eqb_neq st 3)) in * by lia.
      rewrite Hs, <- app_assoc. f_equal. by rewrite app_assoc, ztake_zdrop.
    + rewrite (proj2 (Z.eqb_neq st 3)) in Hs by lia. rewrite Hs. by eexists.
    + destruct (st =? 3); done.
    + rewrite (no_data maxp' w y _ qy qx Hdir Hl eq_refl) in Hs. simpl in Hs.
      exists []. split; [by rewrite Hs|done].
    + destruct (st =? 3); done.
Qed.

(** A message from [y] is taken off the queue: [x] stays in order ... *)
Lemma erecv_local maxp w w' x m ms x' y qx qy :
  erecv maxp x m ms x' -> local_ok w x -> local_ok w' y -> 0 <= gives qx ->
  dir_ok maxp y x (m :: qy) qx -> local_ok w x'.
Proof.
  intros Hst Hl Hly Hg [_ Hw _ _].
  pose proof (l_rw _ _ Hly) as Hrw. pose proof (takes_nonneg qy) as Ht. clear Hly.
  destruct Hst; simpl in Hw; destruct Hl; simpl in *;
    try match goal with |- context [?st =? 0] => destruct (Z.eqb_spec st 0) end;
    split; simpl; autorewrite with zlist in *; zlen_facts;
    try solve [done | lia | intros; simplify_eq; intuition (try lia; try done)].
Qed.

(** ... and so do the bytes it receives ... *)
Lemma erecv_in maxp w x m ms x' y qx qy :
  erecv maxp x m ms x' -> local_ok w x -> dir_ok maxp y x (m :: qy) qx ->
  dir_ok maxp y x' qy (qx ++ ms).
Proof.
  intros Hst Hl Hdir. pose proof Hdir as [Hlg Hw Hf Hstr].
  apply Forall_cons in Hf as [Hm Hf].
  assert (Hcr : e_cr x = false).
  { simpl in Hlg. by destruct (e_cr x). }
  assert (Hsame : e_r x' = e_r x -> datas (m :: qy) = datas qy -> stream_ok y x' qy).
  { intros E Ed. unfold stream_ok in *. by rewrite E, <- Ed. }
  assert (Hnd : r_st (e_r x) = 1 -> datas (m :: qy) = []) by exact (no_data maxp w y x (m :: qy) qx Hdir Hl).
  split; [| |done|].
  - simpl in Hlg. rewrite Hcr in Hlg. destruct Hst; simpl in *; subst; repeat case_match; try done. by rewrite Hcr.
  - rewrite gives_app. destruct Hst; simpl in *; zlen_facts; lia.
  - destruct Hst; try (by apply Hsame); destruct Hstr as (sent & Hrd & Hs); exists sent;
      (split; [exact Hrd|]); simpl in *.
    + by rewrite Hs, <- app_assoc.
    + destruct (Z.eqb_spec st 3); [done|]. destruct (l_r _ _ Hl) as [?|[H1|?]]; simpl in *; [lia| |lia].
      destruct (app_eq_nil _ _ (Hnd H1)) as [-> Hdq]. rewrite Hdq in *. done.
    + done.
    + destruct (Z.eqb_spec st 0); [subst; done|]. done.
    + destruct (Z.eqb_spec st 0); [subst; done|]. done.
    + destruct (Z.eqb_spec st 0); [subst; done|]. done.
    + destruct (Z.eqb_spec st 0); [subst; done|]. done.
Qed.

(** ... and those it sends. *)
Lemma erecv_out maxp maxp' w x m ms x' y qx qy :
  erecv maxp' x m ms x' -> local_ok w x -> dir_ok maxp x y qx (m :: qy) ->
  dir_ok maxp x' y (qx ++ ms) qy.
Proof.
  intros Hst Hl [Hlg Hw Hf (sent & Hrd & Hs)].
  pose proof (l_cs _ _ Hl) as Hcs. pose proof (l_es _ _ Hl) as Hes.
  assert (Hms : datas ms = [] /\ takes ms = 0) by (by destruct Hst).
  destruct Hms as [Hd Ht]. split.
  - rewrite legal_app, Hlg. simpl. destruct Hst; simpl in *; try done.
    destruct cs; [by destruct (Hcs eq_refl); lia|]. destruct eof; [by destruct (Hes eq_refl); lia|done].
  - rewrite takes_app, Ht. destruct Hst; simpl in *; lia.
  - apply Forall_app. split; [done|]. destruct Hst; repeat constructor.
  - exists sent. rewrite datas_app, Hd, app_nil_r. destruct Hst; done.
Qed.

(** The pair keeps its invariant under a step of [x] and a message to [x]. *)
Lemma pair_step wx mx wy my x ms x' y qx qy :
  pair_ok wx mx wy my x y qx qy -> estep my x ms x' -> pair_ok wx mx wy my x' y (qx ++ ms) qy.
Proof.
  intros [Hx Hy Hxy Hyx] Hst. split; [by eapply estep_local|done|by eapply estep_out|by eapply estep_in].
Qed.
Lemma pair_recv wx mx wy my x m ms x' y qx qy :
  pair_ok wx mx wy my x y qx (m :: qy) -> erecv mx x m ms x' ->
  pair_ok wx mx wy my x' y (qx ++ ms) qy.
Proof.
  intros [Hx Hy Hxy Hyx] Hst. pose proof (legal_gives _ _ _ _ (d_legal _ _ _ _ _ Hxy)).
  split; [by eapply erecv_local|done|by eapply erecv_out|by eapply erecv_in].
Qed.

(** Runs of steps. *)
Inductive esteps (maxp : Z) : ep -> list msg -> ep -> Prop :=
  | esteps_nil x : esteps maxp x [] x
  | esteps_cons x ms x' ms' x'' :
      estep maxp x ms x' -> esteps maxp x' ms' x'' -> esteps maxp x (ms ++ ms') x''.

Lemma esteps_one maxp x ms x' : estep maxp x ms x' -> esteps maxp x ms x'.
Proof. intros Hs. rewrite <- (app_nil_r ms). eapply esteps_cons; [done|constructor]. Qed.
Lemma esteps_app maxp x ms x' ms' x'' :
  esteps maxp x ms x' -> esteps maxp x' ms' x'' -> esteps maxp x (ms ++ ms') x''.
Proof.
  induction 1 as [|x ms1 x1 ms2 x2 Hs _ IH]; intros H2; [done|].
  rewrite <- app_assoc. eapply esteps_cons; [done|]. by apply IH.
Qed.
Lemma pair_steps wx mx wy my x ms x' y qx qy :
  esteps my x ms x' -> pair_ok wx mx wy my x y qx qy -> pair_ok wx mx wy my x' y (qx ++ ms) qy.
Proof.
  intros Hs. revert qx. induction Hs as [|x ms1 x1 ms2 x2 Hs _ IH]; intros qx Hp.
  - by rewrite app_nil_r.
  - rewrite app_assoc. apply IH. by eapply pair_step.
Qed.

(** What an end may rely on when a message arrives. *)
Lemma pair_msg wx mx wy my x y qx m qy :
  pair_ok wx mx wy my x y qx (m :: qy) ->
  e_cr x = false /\
  match m with
  | CHANNEL_DATA d => zlen d <= mx /\ zlen d <= r_lw (e_r x) /\ r_eof (e_r x) = false
  | CHANNEL_EXTENDED_DATA _ d => zlen d <= r_lw (e_r x) /\ r_eof (e_r x) = false
  | CHANNEL_EOF => r_eof (e_r x) = false
  | CHANNEL_WINDOW_ADJUST n => 0 <= n /\ s_rw (e_s x) + n <= wy
  | CHANNEL_REQUEST name reply => m = eow
  | CHANNEL_CLOSE | MSG_IGNORE _ => True
  end.
Proof.
  intros [Hx Hy Hxy Hyx]. destruct Hyx as [Hlg Hw Hf _]. destruct Hxy as [Hlg' Hw' _ _].
  apply Forall_cons in Hf as [Hm _]. simpl in Hlg.
  destruct (e_cr x); [done|]. split; [done|].
  pose proof (takes_nonneg qy). pose proof (takes_nonneg qx).
  pose proof (legal_gives _ _ _ _ Hlg'). destruct Hx, Hy.
  destruct m; simpl in *; try done; repeat case_match; try done; zlen_facts.
  - split_and!; [done|lia|done].
  - split; [lia|done].
  - split; [lia|]. pose proof (legal_gives _ _ _ _ Hlg). lia.
  - by match goal with H : bool_decide _ = true |- _ => apply bool_decide_eq_true in H end.
Qed.
