(* ===== verification/ChannelPair.v ===== *)
(** * Two sshd channels that talk to each other

    The handlers of Channel.v take only the steps of ChannelSpec.v
    ([good_run]): each handler runs to its end without fatal() or a disconnect,
    and what it does to the channel and sends is a run of protocol steps.
    From that follows what a pair of such channels does, whatever the
    processes at both ends read and write and however the messages are
    delayed: see the theorems at the end of the file. *)

From S2P Require Import Prelude Sshbuf Channel ChannelSpec.

(** ** Flag words *)

Lemma truthy_lor a b : truthy (Z.lor a b) = truthy a || truthy b.
Proof.
  unfold truthy. destruct (Z.eqb_spec (Z.lor a b) 0) as [E|E].
  - apply Z.lor_eq_0_iff in E as [-> ->]. done.
  - destruct (Z.eqb_spec a 0) as [->|]; [|done]. destruct (Z.eqb_spec b 0) as [->|]; done.
Qed.
Lemma has_lor f a b : has f (Z.lor a b) = has f a || has f b.
Proof. unfold has. rewrite Z.land_lor_distr_r. apply truthy_lor. Qed.
Lemma lor_has f b x : has (Z.lor f b) x = has f x || truthy (Z.land b x).
Proof. unfold has. rewrite Z.land_lor_distr_l. apply truthy_lor. Qed.

(** ** A channel as an end of the protocol *)

Fixpoint main_reads (l : list call) : list Z :=
  match l with
  | [] => []
  | CRead Main _ d :: l' => d ++ main_reads l'
  | _ :: l' => main_reads l'
  end.
Fixpoint main_writes (l : list call) : list Z :=
  match l with
  | [] => []
  | CWrite Main _ d :: l' => d ++ main_writes l'
  | _ :: l' => main_writes l'
  end.
Definition write_failed (l : list call) : bool :=
  existsb (fun k => match k with CWriteFailed _ => true | _ => false end) l.

Lemma main_reads_app l l' : main_reads (l ++ l') = main_reads l ++ main_reads l'.
Proof. induction l as [|[[] ? ?|[] ? ?| | |] l IH]; simpl; rewrite ?IH, ?app_assoc; done. Qed.
Lemma main_writes_app l l' : main_writes (l ++ l') = main_writes l ++ main_writes l'.
Proof. induction l as [|[[] ? ?|[] ? ?| | |] l IH]; simpl; rewrite ?IH, ?app_assoc; done. Qed.
Lemma write_failed_app l l' : write_failed (l ++ l') = write_failed l || write_failed l'.
Proof. apply existsb_app. Qed.

Definition ext_writes (c : Channel) : bool := c_extended_usage c =? CHAN_EXTENDED_WRITE.

Definition end_of (s : st) : ep :=
  let c := ch s in
  let ext := contents (c_extended c) in
  mk_ep
    (mk_snd (c_istate c) (has (c_flags c) CHAN_EOF_SENT) (contents (c_input c))
       (if ext_writes c then [] else ext) (c_remote_window c) (main_reads (calls s)))
    (mk_rcv (c_ostate c) (has (c_flags c) CHAN_EOF_RCVD) (contents (c_output c))
       (if ext_writes c then ext else []) (c_local_window c) (c_local_consumed c)
       (main_writes (calls s)) (write_failed (calls s)))
    (has (c_flags c) CHAN_CLOSE_SENT) (has (c_flags c) CHAN_CLOSE_RCVD).

(** ** The state of one end *)

(** Windows are at most this large: the data that waits to be written fits into
    a buffer, and so does one more read. *)
Definition WINDOW_LIMIT : Z := SSHBUF_SIZE_MAX - CHAN_RBUF.

Definition big (b : sshbuf) : Prop := buf_rw b /\ b_max_size b = SSHBUF_SIZE_MAX.

(** An open channel that carries a stream and whose session is not forced to
    close. *)
Record cok (s : st) : Prop := {
  k_type : c_type (ch s) = SSH_CHANNEL_OPEN;
  k_id : c_have_remote_id (ch s) = true;
  k_datagram : c_datagram (ch s) = false;
  k_detach : c_detach_close (ch s) = false;
  k_notlocal : has (c_flags (ch s)) CHAN_LOCAL = false;
  k_input : big (c_input (ch s));
  k_output : big (c_output (ch s));
  k_extended : big (c_extended (ch s));
  k_maxp : 0 <= c_remote_maxpacket (ch s);
  k_fds : c_efd (ch s) = -1 \/ c_efd (ch s) <> c_rfd (ch s);
  k_wmax : c_local_window_max (ch s) <= WINDOW_LIMIT;
  k_rw : c_remote_window (ch s) <= WINDOW_LIMIT;
  k_local : local_ok (c_local_window_max (ch s)) (end_of s)
}.

(** What the handlers never change. *)
Definition same_limits (s s' : st) : Prop :=
  c_remote_maxpacket (ch s') = c_remote_maxpacket (ch s) /\
  c_local_window_max (ch s') = c_local_window_max (ch s) /\
  c_local_maxpacket (ch s') = c_local_maxpacket (ch s).

(** A computation that ran to its end from [s] by steps of the protocol. *)
Definition good_run {A} (s : st) (r : (stop + A) * st) : Prop :=
  exists a s' ms, r = (inr a, s') /\ out s' = out s ++ ms /\ same_limits s s' /\
    esteps (c_remote_maxpacket (ch s)) (end_of s) ms (end_of s') /\ cok s'.

(** The outside does its part: messages are taken, there are no filters, and
    detaching the user of a channel only clears the callback. *)
Definition set_detach (b : bool) (c : Channel) : Channel :=
  mk_channel (c_type c) (c_remote_id c) (c_have_remote_id c) (c_istate c) (c_ostate c) (c_flags c)
    (c_rfd c) (c_wfd c) (c_efd c) (c_sock c) (c_isatty c) (c_force_drain c)
    (c_input c) (c_output c) (c_extended c) (c_remote_window c) (c_remote_maxpacket c)
    (c_local_window c) (c_local_window_max c) (c_local_consumed c) (c_local_maxpacket c)
    (c_extended_usage c) (c_ctype c) b (c_detach_close c) (c_datagram c).
Class ChanEnvOk `{ChanEnv} : Prop := {
  pkt_ok : forall q m, pkt_sends q m = true;
  no_input_filter : input_filter = None;
  no_output_filter : output_filter = None;
  detach_ok : forall c, exists b, detach_user c = set_detach b c
}.

Lemma same_limits_refl s : same_limits s s.
Proof. done. Qed.
Lemma same_limits_trans s1 s2 s3 : same_limits s1 s2 -> same_limits s2 s3 -> same_limits s1 s3.
Proof. unfold same_limits. intuition congruence. Qed.

Lemma good_ret {A} s (a : A) : cok s -> good_run s (inr a, s).
Proof. intros Hs. exists a, s, []. rewrite app_nil_r. split_and!; done || constructor. Qed.

Lemma good_bind {A B} (m : CH A) (k : A -> CH B) s :
  good_run s (m s) -> (forall a s', m s = (inr a, s') -> cok s' -> same_limits s s' -> good_run s' (k a s')) ->
  good_run s ((m ≫= k) s).
Proof.
  intros (a & s' & ms & Hm & Ho & Hl & Hs & Hc) Hk. rewrite (SE_bind_ok _ _ _ _ _ Hm).
  destruct (Hk a s' Hm Hc Hl) as (b & s'' & ms' & Hm' & Ho' & Hl' & Hs' & Hc').
  exists b, s'', (ms ++ ms'). split; [done|]. split; [by rewrite Ho', Ho, app_assoc|].
  split; [by eapply same_limits_trans|]. split; [|done].
  eapply esteps_app; [done|]. by destruct Hl as (<- & _).
Qed.

Lemma good_when (c : bool) (m : CH ()) s : cok s -> good_run s (m s) -> good_run s (when c m s).
Proof. intros Hc Hm. destruct c; [done|by apply good_ret]. Qed.

(** The computation reaches [s'] in one step of the protocol. *)
Lemma good_step {A} s s' ms (a : A) :
  cok s -> out s' = out s ++ ms -> same_limits s s' ->
  estep (c_remote_maxpacket (ch s)) (end_of s) ms (end_of s') ->
  (local_ok (c_local_window_max (ch s')) (end_of s') -> cok s') ->
  good_run s (inr a, s').
Proof.
  intros Hc Ho Hl Hst Hk. exists a, s', ms. split_and!; try done.
  - by apply esteps_one.
  - apply Hk. destruct Hl as (_ & -> & _). by eapply estep_local; [|apply (k_local _ Hc)].
Qed.

(** ... or in none, when the end looks the same. *)
Lemma good_same {A} s s' (a : A) :
  cok s -> out s' = out s -> same_limits s s' -> end_of s' = end_of s ->
  (local_ok (c_local_window_max (ch s')) (end_of s') -> cok s') ->
  good_run s (inr a, s').
Proof.
  intros Hc Ho Hl He Hk. exists a, s', []. rewrite app_nil_r, He. split_and!; try done.
  - constructor.
  - apply Hk. destruct Hl as (_ & -> & _). rewrite He. apply Hc.
Qed.

(** ** Buffers *)

Section buffers.
Context `{AllocTotal}.

Lemma big_len b : big b -> sshbuf_len b = zlen (contents b).
Proof. intros [Hb _]. apply sshbuf_len_contents, Hb. Qed.
Lemma big_ptr b n : big b -> n <= zlen (contents b) -> ztake n (sshbuf_ptr b) = ztake n (contents b).
Proof. intros [Hb _] Hn. rewrite sshbuf_ptr_contents by apply Hb. by apply ztake_app_l. Qed.
Lemma big_reset b : big b -> big (sshbuf_reset b) /\ contents (sshbuf_reset b) = [].
Proof.
  intros [Hb Hm]. destruct (reset_rw b (alloc_total SSHBUF_SIZE_INIT ltac:(done)) Hb) as [Hb' [= Ha Hm']].
  { rewrite Hm. done. }
  split; [|done]. split; [done|congruence].
Qed.
Lemma big_consume b n :
  big b -> 0 <= n <= zlen (contents b) ->
  exists b', sshbuf_consume n b = (inr tt, b') /\ big b' /\ contents b' = zdrop n (contents b).
Proof.
  intros [Hb Hm] Hn. destruct (consume_rw b n Hb ltac:(lia)) as [He Hc].
  rewrite (proj2 (Z.ltb_ge _ _)) in He by lia. destruct (Hc ltac:(lia)) as [Hb' [= Ha Hm']].
  eexists. split; [exact He|]. split; [|done]. split; [done|congruence].
Qed.
Lemma big_put b d :
  big b -> zlen (contents b) + zlen d <= SSHBUF_SIZE_MAX ->
  exists b', sshbuf_put d (zlen d) b = (inr tt, b') /\ big b' /\ contents b' = contents b ++ d.
Proof.
  intros [Hb Hm] Hd. zlen_facts. unfold SSHBUF_SIZE_MAX in Hd.
  pose proof (Puts_put d (zlen d) ltac:(lia) ltac:(lia)) as Hp. rewrite ztake_all in Hp by lia.
  destruct (Puts_refines _ _ Hp b Hb) as (Hr & Ha & Hb').
  unfold a_put in Hr, Ha. simpl in Hr, Ha. rewrite Hm in Hr, Ha. unfold SSHBUF_SIZE_MAX in Hr, Ha.
  rewrite (proj2 (Z.ltb_ge _ _)) in Hr, Ha by lia.
  destruct (sshbuf_put d (zlen d) b) as [r b']. simpl in *. subst. injection Ha as Hc Hm'.
  exists b'. split; [done|]. split; [|done]. by split.
Qed.
Lemma big_room b n :
  big b -> 0 <= n -> sshbuf_check_reserve b n = 0 -> zlen (contents b) + n <= SSHBUF_SIZE_MAX.
Proof.
  intros [Hb Hm] Hn Hr. rewrite check_reserve_rw, Hm in Hr by done.
  destruct (Z.ltb_spec SSHBUF_SIZE_MAX (zlen (contents b) + n)); [done|lia].
Qed.
End buffers.

(** ** Calls that move no bytes *)

Definition quiet (ks : list call) : Prop :=
  main_reads ks = [] /\ main_writes ks = [] /\ write_failed ks = false.
Lemma quiet_app l ks : quiet ks ->
  main_reads (l ++ ks) = main_reads l /\ main_writes (l ++ ks) = main_writes l /\
  write_failed (l ++ ks) = write_failed l.
Proof.
  intros (Hr & Hw & Hf). rewrite main_reads_app, main_writes_app, write_failed_app, Hr, Hw, Hf.
  by rewrite !app_nil_r, orb_false_r.
Qed.

(** [s] with other descriptors and more calls. *)
Definition with_fds (r w e sock : Z) (ks : list call) (s : st) : st :=
  mk_st (set_fds r w e sock (ch s)) (out s) (calls s ++ ks).

Lemma end_of_fds r w e sock ks s : quiet ks -> end_of (with_fds r w e sock ks s) = end_of s.
Proof. intros Hq. unfold end_of. simpl. by destruct (quiet_app (calls s) ks Hq) as (-> & -> & ->). Qed.

Lemma cok_fds r w e sock ks s :
  quiet ks -> r = c_rfd (ch s) \/ r = -1 -> e = c_efd (ch s) \/ e = -1 -> cok s ->
  cok (with_fds r w e sock ks s).
Proof. intros Hq Hr He []. split; simpl; try done; [lia|]. by rewrite end_of_fds. Qed.

Section handlers.
Context `{AllocTotal, ChanEnvOk}.

Ltac ch_id s := change (id (ch s)) with (ch s).

Lemma get_bind {A B} (f : Channel -> A) (k : A -> CH B) s : (get f ≫= k) s = k (f (ch s)) s.
Proof. done. Qed.
Lemma on_ch_bind {B} f (k : () -> CH B) s : (on_ch f ≫= k) s = k tt (mk_st (f (ch s)) (out s) (calls s)).
Proof. done. Qed.
Lemma syscall_bind {B} x (k : () -> CH B) s :
  (syscall x ≫= k) s = k tt (mk_st (ch s) (out s) (calls s ++ [x])).
Proof. done. Qed.
Lemma send_msg_ok m s : send_msg m s = (inr tt, mk_st (ch s) (out s ++ [m]) (calls s)).
Proof. unfold send_msg. by rewrite pkt_ok. Qed.
Lemma send_bind {B} m (k : () -> CH B) s :
  (send_msg m ≫= k) s = k tt (mk_st (ch s) (out s ++ [m]) (calls s)).
Proof. by rewrite (SE_bind_ok _ _ _ _ _ (send_msg_ok m s)). Qed.
Lemma id_bind {B} (k : () -> CH B) s : c_have_remote_id (ch s) = true -> (need_remote_id ≫= k) s = k tt s.
Proof. intros Hi. unfold need_remote_id. rewrite SE_bind_assoc, get_bind, Hi. done. Qed.

Lemma st_fds_id s : mk_st (ch s) (out s) (calls s) = with_fds (c_rfd (ch s)) (c_wfd (ch s)) (c_efd (ch s)) (c_sock (ch s)) [] s.
Proof. unfold with_fds. rewrite app_nil_r. by destruct s as [[] ? ?]. Qed.

(** Closing a descriptor, or shutting a socket down. *)
Lemma close_rfd_eq s : exists r ks, quiet ks /\ (r = c_rfd (ch s) \/ r = -1) /\
  close_rfd s = (inr tt, with_fds r (c_wfd (ch s)) (c_efd (ch s)) (c_sock (ch s)) ks s).
Proof.
  unfold close_rfd. rewrite get_bind. unfold when. destruct (negb _).
  - exists (-1), [CClose (c_rfd (ch s))]. split; [done|]. split; [by right|done].
  - exists (c_rfd (ch s)), []. split; [done|]. split; [by left|]. rewrite <- st_fds_id. by destruct s.
Qed.
Lemma close_wfd_eq s : exists w ks, quiet ks /\
  close_wfd s = (inr tt, with_fds (c_rfd (ch s)) w (c_efd (ch s)) (c_sock (ch s)) ks s).
Proof.
  unfold close_wfd. rewrite get_bind. unfold when. destruct (negb _).
  - by exists (-1), [CClose (c_wfd (ch s))].
  - exists (c_wfd (ch s)), []. split; [done|]. rewrite <- st_fds_id. by destruct s.
Qed.
Lemma close_efd_eq s : exists e ks, quiet ks /\ (e = c_efd (ch s) \/ e = -1) /\
  close_efd s = (inr tt, with_fds (c_rfd (ch s)) (c_wfd (ch s)) e (c_sock (ch s)) ks s).
Proof.
  unfold close_efd. rewrite get_bind. unfold when. destruct (negb _).
  - exists (-1), [CClose (c_efd (ch s))]. split; [done|]. split; [by right|done].
  - exists (c_efd (ch s)), []. split; [done|]. split; [by left|]. rewrite <- st_fds_id. by destruct s.
Qed.

Lemma shutdown_read_eq s : exists r ks, quiet ks /\ (r = c_rfd (ch s) \/ r = -1) /\
  chan_shutdown_read s = (inr tt, with_fds r (c_wfd (ch s)) (c_efd (ch s)) (c_sock (ch s)) ks s).
Proof.
  unfold chan_shutdown_read. rewrite get_bind. ch_id s.
  destruct (_ =? SSH_CHANNEL_LARVAL).
  { exists (c_rfd (ch s)), []. split; [done|]. split; [by left|]. rewrite <- st_fds_id. by destruct s. }
  destruct (negb _); [|apply close_rfd_eq].
  exists (c_rfd (ch s)), [CShutdown (c_sock (ch s)) SHUT_RD]. split; [done|]. split; [by left|].
  unfold with_fds, syscall, modify. by destruct s as [[] ? ?].
Qed.

(** The output is thrown away. *)
Definition no_output (s : st) : st :=
  mk_st (set_output (sshbuf_reset (c_output (ch s))) (ch s)) (out s) (calls s).
Lemma shutdown_write_eq s : exists w ks, quiet ks /\
  chan_shutdown_write s =
    (inr tt, with_fds (c_rfd (ch s)) w (c_efd (ch s)) (c_sock (ch s)) ks (no_output s)).
Proof.
  unfold chan_shutdown_write. rewrite on_ch_bind, get_bind.
  change (mk_st (set_output _ _) _ _) with (no_output s). ch_id (no_output s).
  destruct (_ =? SSH_CHANNEL_LARVAL).
  { exists (c_wfd (ch s)), []. split; [done|]. unfold with_fds. rewrite app_nil_r. by destruct s as [[] ? ?]. }
  destruct (negb _).
  - exists (c_wfd (ch s)), [CShutdown (c_sock (ch s)) SHUT_WR]. split; [done|].
    unfold with_fds, syscall, modify. by destruct s as [[] ? ?].
  - destruct (close_wfd_eq (no_output s)) as (w & ks & Hq & He). by exists w, ks.
Qed.

(** Changing a half-state. *)
Lemma set_istate_eq s n :
  c_istate (ch s) <= 3 -> n <= 3 ->
  chan_set_istate n s = (inr tt, mk_st (set_istate n (ch s)) (out s) (calls s)).
Proof.
  intros Hi Hn. unfold chan_set_istate. rewrite get_bind.
  rewrite (proj2 (Z.ltb_ge CHAN_INPUT_CLOSED (c_istate (ch s)))) by done.
  by rewrite (proj2 (Z.ltb_ge CHAN_INPUT_CLOSED n)) by done.
Qed.
Lemma set_ostate_eq s n :
  c_ostate (ch s) <= 3 -> n <= 3 ->
  chan_set_ostate n s = (inr tt, mk_st (set_ostate n (ch s)) (out s) (calls s)).
Proof.
  intros Hi Hn. unfold chan_set_ostate. rewrite get_bind.
  rewrite (proj2 (Z.ltb_ge CHAN_OUTPUT_CLOSED (c_ostate (ch s)))) by done.
  by rewrite (proj2 (Z.ltb_ge CHAN_OUTPUT_CLOSED n)) by done.
Qed.
Lemma cok_states s : cok s ->
  (c_istate (ch s) = 0 \/ c_istate (ch s) = 1 \/ c_istate (ch s) = 3) /\
  (c_ostate (ch s) = 0 \/ c_ostate (ch s) = 1 \/ c_ostate (ch s) = 3).
Proof. intros Hc. pose proof (k_local _ Hc) as []. done. Qed.

Lemma good_read_failed s : cok s -> good_run s (chan_read_failed s).
Proof.
  intros Hc. destruct (cok_states s Hc) as [Hi _]. unfold chan_read_failed. rewrite get_bind.
  destruct (Z.eqb_spec (c_istate (ch s)) CHAN_INPUT_OPEN) as [E0|E0]; [|by apply good_ret].
  destruct (shutdown_read_eq s) as (r & ks & Hq & Hr & He). rewrite (SE_bind_ok _ _ _ _ _ He).
  rewrite set_istate_eq by (simpl; unfold CHAN_INPUT_WAIT_DRAIN; lia).
  apply (good_step s _ [] _ Hc); [by rewrite app_nil_r|done| |].
  - destruct (quiet_app (calls s) ks Hq) as (E1 & E2 & E3). unfold end_of. simpl.
    rewrite E1, E2, E3, E0. apply E_read_end.
  - intros Hlok. destruct Hc. split; simpl in *; try done. lia.
Qed.

Lemma good_ibuf_empty s : cok s -> good_run s (chan_ibuf_empty s).
Proof.
  intros Hc. unfold chan_ibuf_empty. rewrite get_bind. ch_id s.
  rewrite big_len by apply Hc. unfold truthy.
  destruct (Z.eqb_spec (zlen (contents (c_input (ch s)))) 0) as [Hz|Hz]; [|by apply good_ret]. simpl.
  destruct (Z.eqb_spec (c_istate (ch s)) CHAN_INPUT_WAIT_DRAIN) as [E1'|E1']; [|by apply good_ret].
  assert (Hcs : has (c_flags (ch s)) CHAN_CLOSE_SENT = false).
  { destruct (has _ CHAN_CLOSE_SENT) eqn:E; [|done]. pose proof (l_cs _ _ (k_local _ Hc) E) as [Hx _].
    simpl in Hx. rewrite E1' in Hx. done. }
  rewrite has_lor, Hcs, (k_notlocal _ Hc). simpl. unfold chan_send_eof2.
  rewrite SE_bind_assoc, get_bind, E1'. simpl. rewrite SE_bind_assoc, id_bind by apply Hc.
  rewrite SE_bind_assoc, send_bind. unfold add_flag. rewrite on_ch_bind.
  rewrite set_istate_eq by (simpl; rewrite ?E1'; done). apply zlen_0_nil in Hz.
  apply (good_step s _ [CHANNEL_EOF] _ Hc); [done|done| |].
  - unfold end_of. simpl. rewrite !lor_has, Hcs, Hz, E1'. simpl. rewrite !orb_true_r, !orb_false_r.
    apply E_send_eof.
  - intros Hlok. destruct Hc. split; simpl in *; try done.
    rewrite lor_has. by rewrite k_notlocal0.
Qed.

Lemma good_obuf_empty s : cok s -> good_run s (chan_obuf_empty s).
Proof.
  intros Hc. unfold chan_obuf_empty. rewrite get_bind. ch_id s.
  rewrite big_len by apply Hc. unfold truthy.
  destruct (Z.eqb_spec (zlen (contents (c_output (ch s)))) 0) as [Hz|Hz]; [|by apply good_ret]. simpl.
  destruct (Z.eqb_spec (c_ostate (ch s)) CHAN_OUTPUT_WAIT_DRAIN) as [E1'|E1']; [|by apply good_ret].
  destruct (shutdown_write_eq s) as (w & ks & Hq & He). rewrite (SE_bind_ok _ _ _ _ _ He).
  rewrite set_ostate_eq by (simpl; rewrite ?E1'; done). apply zlen_0_nil in Hz.
  destruct (big_reset _ (k_output _ Hc)) as [Hb Hb0].
  apply (good_step s _ [] _ Hc); [by rewrite app_nil_r|done| |].
  - destruct (quiet_app (calls s) ks Hq) as (E1 & E2 & E3). unfold end_of. simpl.
    rewrite E1, E2, E3, Hb0, Hz, E1'. apply E_drained.
  - intros Hlok. destruct Hc. by split.
Qed.

(** write() failed: the output is closed, and a session's peer is told. *)
Lemma good_wfd_failed s fd :
  cok s -> c_ostate (ch s) = 0 \/ c_ostate (ch s) = 1 ->
  good_run s ((_ ← syscall (CWriteFailed fd); fd_failed chan_write_failed) s).
Proof.
  intros Hc Ho. rewrite syscall_bind. unfold fd_failed. rewrite get_bind. simpl.
  rewrite (k_type _ Hc). simpl. unfold chan_write_failed. rewrite SE_bind_assoc, get_bind. simpl.
  replace ((c_ostate (ch s) =? CHAN_OUTPUT_OPEN) || (c_ostate (ch s) =? CHAN_OUTPUT_WAIT_DRAIN)) with true
    by (by destruct Ho as [-> | ->]).
  set (s1 := mk_st (ch s) (out s) (calls s ++ [CWriteFailed fd])).
  destruct (shutdown_write_eq s1) as (w & ks & Hq & He).
  rewrite SE_bind_assoc, (SE_bind_ok _ _ _ _ _ He). set (s2 := with_fds _ _ _ _ _ _).
  assert (Hs2 : c_ostate (ch s2) = c_ostate (ch s) /\ c_have_remote_id (ch s2) = true /\
                calls s2 = calls s ++ [CWriteFailed fd] ++ ks /\ out s2 = out s /\
                ch s2 = set_fds (c_rfd (ch s)) w (c_efd (ch s)) (c_sock (ch s))
                          (set_output (sshbuf_reset (c_output (ch s))) (ch s))).
  { split_and!; try done; [apply Hc|]. simpl. by rewrite <- app_assoc. }
  clearbody s2. destruct Hs2 as (Eo & Eid & Ek & Eu & Ech).
  assert (Hw : exists ms, (ms = [] \/ ms = [eow]) /\
            forall k : () -> CH Z, ((when (bytes_eqb (c_ctype (ch s)) (str "session")) chan_send_eow2) ≫= k) s2 =
              k tt (mk_st (ch s2) (out s2 ++ ms) (calls s2))).
  { unfold when. destruct (bytes_eqb _ _).
    - unfold chan_send_eow2. destruct (negb (has datafellows SSH_NEW_OPENSSH)) eqn:Hn.
      + exists []. split; [by left|]. intros k. rewrite SE_bind_assoc, get_bind, Eo.
        rewrite (proj2 (Z.eqb_neq _ _)) by (unfold CHAN_OUTPUT_CLOSED; lia). rewrite app_nil_r.
        by destruct s2.
      + exists [eow]. split; [by right|]. intros k. rewrite SE_bind_assoc, get_bind, Eo.
        rewrite (proj2 (Z.eqb_neq _ _)) by (unfold CHAN_OUTPUT_CLOSED; lia).
        rewrite SE_bind_assoc, id_bind, send_bind by done. done.
    - exists []. split; [by left|]. intros k. rewrite app_nil_r. by destruct s2. }
  destruct Hw as (ms & Hms & Hw). rewrite SE_bind_assoc, Hw.
  erewrite SE_bind_ok by (apply set_ostate_eq; simpl; rewrite ?Eo; lia || done).
  destruct (big_reset _ (k_output _ Hc)) as [Hb Hb0].
  apply (good_step s _ ms _ Hc); [simpl; by rewrite Eu|simpl; rewrite Ech; done| |].
  - unfold end_of. simpl. rewrite Ek, Ech. simpl. rewrite Hb0.
    rewrite !main_reads_app, !main_writes_app, !write_failed_app. simpl.
    destruct Hq as (Q1 & Q2 & Q3). rewrite Q1, Q2, !app_nil_r, orb_true_r.
    by apply E_write_failed.
  - simpl. rewrite Ech. intros Hlok. destruct Hc. split; simpl in *; try done.
Qed.

(** CLOSE is sent when both halves are closed. *)
Lemma good_send_close s : cok s -> good_run s (chan_send_close2 s).
Proof.
  intros Hc. unfold chan_send_close2. rewrite get_bind. ch_id s.
  destruct (Z.eqb_spec (c_ostate (ch s)) CHAN_OUTPUT_CLOSED) as [Eo|Eo]; [|by apply good_ret].
  destruct (Z.eqb_spec (c_istate (ch s)) CHAN_INPUT_CLOSED) as [Ei|Ei]; [|by apply good_ret]. simpl.
  destruct (has _ CHAN_CLOSE_SENT) eqn:Ecs; [by apply good_ret|].
  rewrite id_bind by apply Hc. rewrite send_bind. unfold add_flag.
  apply (good_step s _ [CHANNEL_CLOSE] _ Hc); [done|done| |].
  - unfold end_of. simpl. rewrite !lor_has, Ecs. simpl. rewrite !orb_false_r.
    by apply E_close.
  - intros Hlok. destruct Hc. split; simpl in *; try done. rewrite lor_has. by rewrite k_notlocal0.
Qed.

Lemma good_is_dead s b : cok s -> good_run s (chan_is_dead b s).
Proof.
  intros Hc. unfold chan_is_dead. rewrite get_bind. ch_id s. rewrite (k_type _ Hc), (k_notlocal _ Hc). simpl.
  repeat match goal with |- good_run s ((if ?c then _ else _) s) => destruct c; [by apply good_ret|] end.
  apply good_bind.
  - unfold when. destruct (_ && _); [by apply good_send_close|by apply good_ret].
  - intros [] s' _ Hc' _. by apply good_ret.
Qed.

(** A dead channel has sent and received CLOSE. *)
Definition both_closed (s : st) : Prop := e_cs (end_of s) = true /\ e_cr (end_of s) = true.
Lemma is_dead_closed s s' : cok s -> chan_is_dead true s = (inr true, s') -> both_closed s'.
Proof.
  intros Hc. unfold chan_is_dead. rewrite get_bind. ch_id s. rewrite (k_type _ Hc), (k_notlocal _ Hc).
  destruct (SSH_CHANNEL_OPEN =? SSH_CHANNEL_ZOMBIE) eqn:Hz; [done|].
  destruct (_ || _); [done|]. destruct (_ && _ && _ && _); [done|].
  rewrite andb_false_r. simpl.
  intros (a & s1 & _ & Hr)%SE_bind_inv. rewrite get_bind in Hr. injection Hr as Hf <-.
  apply andb_prop in Hf. exact Hf.
Qed.

Lemma good_detach s : cok s -> good_run s (on_ch detach_user s).
Proof.
  intros Hc. destruct (detach_ok (ch s)) as [b Hb]. unfold on_ch, modify. rewrite Hb.
  apply (good_same s _ _ Hc); try done. intros Hlok. destruct Hc. by split.
Qed.

Lemma good_close_fds s : cok s -> good_run s (channel_close_fds s).
Proof.
  intros Hc. unfold channel_close_fds. rewrite get_bind. ch_id s.
  assert (Hfds : forall s r w e k ks, cok s -> quiet ks -> r = c_rfd (ch s) \/ r = -1 ->
            e = c_efd (ch s) \/ e = -1 -> good_run s (inr tt, with_fds r w e k ks s)).
  { intros s1 r w e k ks Hc1 Hq Hr He. apply (good_same s1); try done; [by apply end_of_fds|].
    intros _. by apply cok_fds. }
  apply good_bind.
  { unfold when. destruct (negb _); [|by apply good_ret]. apply (Hfds s _ _ _ (-1) [CClose (c_sock (ch s))]);
      (done || by left). }
  intros _ s1 _ Hc1 _. apply good_bind.
  { unfold when. destruct (negb _); [|by apply good_ret].
    destruct (close_rfd_eq s1) as (r & ks & Hq & Hr & ->). apply Hfds; auto. }
  intros _ s2 _ Hc2 _. apply good_bind.
  { unfold when. destruct (_ && _); [|by apply good_ret].
    destruct (close_wfd_eq s2) as (w & ks & Hq & ->). apply Hfds; auto. }
  intros _ s3 _ Hc3 _. unfold when. destruct (_ && _); [|by apply good_ret].
  destruct (close_efd_eq s3) as (e & ks & Hq & He & ->). apply Hfds; auto.
Qed.

(** close_fds leaves the flags. *)
Lemma close_fds_flags f : preserves (fun s => c_flags (ch s) = f) channel_close_fds.
Proof.
  unfold channel_close_fds, close_rfd, close_wfd, close_efd, get, syscall, on_ch. preserve;
    by apply preserves_modify.
Qed.

Lemma good_gc s : cok s -> good_run s (channel_garbage_collect s).
Proof.
  intros Hc. unfold channel_garbage_collect. rewrite get_bind. ch_id s.
  assert (Hlast : forall s1, cok s1 -> good_run s1 ((dead ← chan_is_dead true;
            if (dead : bool) then _ ← channel_close_fds; mret true else mret false) s1)).
  { intros s1 Hc1. apply good_bind; [by apply good_is_dead|]. intros [] s2 _ Hc2 _; [|by apply good_ret].
    apply good_bind; [by apply good_close_fds|]. intros. by apply good_ret. }
  destruct (c_detach_user (ch s)); [|by apply Hlast].
  apply good_bind; [by apply good_is_dead|]. intros [] s1 _ Hc1 _; simpl; [|by apply good_ret].
  apply good_bind; [by apply good_detach|]. intros _ s2 _ Hc2 _. rewrite get_bind.
  destruct (c_detach_user (ch s2)); [by apply good_ret|by apply Hlast].
Qed.

Lemma gc_closed s s' : cok s -> channel_garbage_collect s = (inr true, s') -> both_closed s'.
Proof.
  intros Hc. unfold channel_garbage_collect. rewrite get_bind. ch_id s.
  assert (Hlast : forall s1, cok s1 -> (dead ← chan_is_dead true;
            if (dead : bool) then _ ← channel_close_fds; mret true else mret false) s1 = (inr true, s') ->
            both_closed s').
  { intros s1 Hc1 (dead & s2 & Hd & Hr)%SE_bind_inv. destruct dead; [|done].
    pose proof (is_dead_closed s1 s2 Hc1 Hd) as Hb.
    apply SE_bind_inv in Hr as ([] & s3 & Hf & [= <-]).
    pose proof (close_fds_flags (c_flags (ch s2)) s2 eq_refl) as Hp.
    rewrite Hf in Hp. simpl in Hp. unfold both_closed, end_of in *. simpl in *. by rewrite Hp. }
  destruct (c_detach_user (ch s)); [|by apply Hlast].
  intros (d & s1 & Hd & Hr)%SE_bind_inv. destruct d; [|done]. simpl in Hr.
  destruct (good_is_dead s (c_detach_close (ch s)) Hc) as (? & ? & ? & E & _ & _ & _ & Hc1).
  rewrite Hd in E. injection E as <- <-.
  apply SE_bind_inv in Hr as ([] & s2 & Hd2 & Hr).
  destruct (good_detach s1 Hc1) as (? & ? & ? & E2 & _ & _ & _ & Hc2). rewrite Hd2 in E2. injection E2 as <- <-.
  rewrite get_bind in Hr. destruct (c_detach_user (ch s2)); [done|]. by apply (Hlast s2).
Qed.

Lemma good_check_window s : cok s -> good_run s (channel_check_window s).
Proof.
  intros Hc. unfold channel_check_window. rewrite get_bind. ch_id s. rewrite has_lor.
  destruct (_ && negb (_ || _) && _ && (0 <? c_local_consumed (ch s))) eqn:Hif; [|by apply good_ret].
  apply andb_prop in Hif as [[[_ Hf]%andb_prop _]%andb_prop Hlc%Z.ltb_lt].
  apply negb_true_iff, orb_false_elim in Hf as [Hcs Hcr].
  rewrite id_bind by apply Hc. rewrite send_bind, on_ch_bind. simpl.
  pose proof (k_local _ Hc) as [_ _ _ Hlw0 _ Hwin _ _ _ _ _ _ _ _]. pose proof (k_wmax _ Hc) as Hwm.
  simpl in *. unfold WINDOW_LIMIT, SSHBUF_SIZE_MAX, CHAN_RBUF in Hwm. zlen_facts.
  rewrite u32_id by lia.
  apply (good_step s _ [CHANNEL_WINDOW_ADJUST (c_local_consumed (ch s))] _ Hc); [done|done| |].
  - unfold end_of. simpl. rewrite Hcs, Hcr. by apply E_adjust.
  - intros Hlok. destruct Hc. by split.
Qed.

(** What a read of c->rfd puts into the buffer. *)
Definition reads_fit (r : read_result) : Prop :=
  match r with RData d => zlen d <= CHAN_RBUF | RError _ => True end.
Definition writes_fit (w : write_result) (l : list Z) : Prop :=
  match w with WCount n => n <= zlen l | WError _ => True end.

(** What channel_pre_open and select promise of the descriptors. *)
Definition rfd_selected (s : st) (fds : fdsets) : Prop :=
  c_rfd (ch s) <> -1 -> FD_ISSET (c_rfd (ch s)) (readset fds) = true ->
  c_istate (ch s) = 0 /\ zlen (contents (c_input (ch s))) + CHAN_RBUF <= SSHBUF_SIZE_MAX.
Definition efd_selected (s : st) (fds : fdsets) : Prop :=
  c_efd (ch s) <> -1 -> ext_writes (ch s) = false -> FD_ISSET (c_efd (ch s)) (readset fds) = true ->
  zlen (contents (c_extended (ch s))) <= WINDOW_LIMIT.

Lemma good_fd_failed s : cok s -> good_run s (fd_failed chan_read_failed s).
Proof.
  intros Hc. unfold fd_failed. rewrite get_bind, (k_type _ Hc). simpl.
  apply good_bind; [by apply good_read_failed|]. intros. by apply good_ret.
Qed.

Lemma good_handle_rfd s fds r :
  cok s -> rfd_selected s fds -> reads_fit r -> good_run s (channel_handle_rfd fds r s).
Proof.
  intros Hc Hsel Hr. unfold channel_handle_rfd. rewrite get_bind. ch_id s.
  rewrite (k_detach _ Hc), (k_datagram _ Hc), no_input_filter, andb_false_r. simpl.
  destruct (Z.eqb_spec (c_rfd (ch s)) (-1)) as [|Hfd]; [by apply good_ret|]. simpl.
  destruct (FD_ISSET _ _) eqn:Hset; [|by apply good_ret]. simpl.
  destruct (Hsel Hfd Hset) as [Hi Hroom].
  destruct r as [[|b d]|[| |]]; try (by apply good_ret); try (by apply good_fd_failed).
  simpl in Hr. set (data := b :: d) in *. rewrite syscall_bind.
  destruct (big_put (c_input (ch s)) data (k_input _ Hc) ltac:(lia)) as (b' & Hput & Hb' & Hcb).
  unfold on_input at 1, mbind at 1, SE_bind at 1. simpl. rewrite Hput.
  apply (good_step s _ [] _ Hc); [by rewrite app_nil_r|done| |].
  - unfold end_of. simpl. rewrite main_reads_app, main_writes_app, write_failed_app, Hcb, Hi.
    simpl. rewrite !app_nil_r, orb_false_r. fold data. apply E_read.
  - intros Hlok. destruct Hc. by split.
Qed.

Lemma good_handle_wfd s fds w echo :
  cok s -> writes_fit w (contents (c_output (ch s))) -> good_run s (channel_handle_wfd fds w echo s).
Proof.
  intros Hc Hw. unfold channel_handle_wfd. rewrite get_bind. ch_id s.
  rewrite (k_datagram _ Hc), no_output_filter, big_len by apply Hc.
  destruct (_ || _ || (zlen _ =? 0)) eqn:Hif; [by apply good_ret|].
  apply orb_false_elim in Hif as [_ Hne%Z.eqb_neq].
  rewrite big_ptr, ztake_all by (apply Hc || lia).
  set (buf := contents (c_output (ch s))) in *.
  assert (Ho : c_ostate (ch s) = 0 \/ c_ostate (ch s) = 1).
  { destruct (cok_states s Hc) as [_ [?|[?|H3]]]; [by left|by right|].
    pose proof (l_empty _ _ (k_local _ Hc) H3) as Hnil. simpl in Hnil. unfold buf in Hne. rewrite Hnil in Hne. done. }
  destruct w as [n|[| |]]; try (by apply good_ret); [|by apply good_wfd_failed].
  simpl in Hw. destruct (Z.leb_spec n 0) as [Hn|Hn]; [by apply good_wfd_failed|].
  rewrite syscall_bind.
  destruct (big_consume (c_output (ch s)) n (k_output _ Hc) ltac:(fold buf; lia)) as (b' & Hcon & Hb' & Hcb).
  fold buf in Hcb.
  assert (Hecho : forall (c : bool), exists ms, (ms = [] \/ exists k, ms = [MSG_IGNORE k]) /\
            forall (k : () -> CH Z) s1, (when c (send_msg (MSG_IGNORE (4 + n))) ≫= k) s1 =
              k tt (mk_st (ch s1) (out s1 ++ ms) (calls s1))).
  { intros [].
    - exists [MSG_IGNORE (4 + n)]. split; [eauto|]. intros. apply send_bind.
    - exists []. split; [by left|]. intros. rewrite app_nil_r. by destruct s1. }
  destruct (Hecho (c_isatty (ch s) && (1 <=? zlen buf) && negb (znth buf 0 =? 13) && echo))
    as (ms & Hms & Heq). rewrite Heq. clear Heq Hecho.
  unfold on_output, mbind, SE_bind. simpl. rewrite Hcon. simpl.
  rewrite big_len by done. rewrite Hcb, zlen_zdrop by lia.
  pose proof (k_local _ Hc) as [_ _ _ Hlw0 Hlc0 Hwin _ _ _ _ _ _ _ _]. pose proof (k_wmax _ Hc) as Hwm.
  simpl in *. unfold WINDOW_LIMIT, SSHBUF_SIZE_MAX, CHAN_RBUF in Hwm. fold buf in Hwin. zlen_facts.
  rewrite u32_id by lia. replace (zlen buf - (zlen buf - n)) with n by lia.
  apply (good_step s _ ms _ Hc); [done|done| |].
  - unfold end_of. simpl. rewrite main_reads_app, main_writes_app, write_failed_app, Hcb.
    simpl. rewrite !app_nil_r, orb_false_r. fold buf. apply E_write; [done|lia|done].
  - intros Hlok. destruct Hc. by split.
Qed.

Lemma good_close_efd s : cok s -> good_run s ((_ ← close_efd; mret 1) s).
Proof.
  intros Hc. destruct (close_efd_eq s) as (e & ks & Hq & He & Hx). rewrite (SE_bind_ok _ _ _ _ _ Hx).
  apply (good_same s); try done; [by apply end_of_fds|]. intros _. apply cok_fds; auto.
Qed.

Lemma good_handle_efd_write s fds w :
  cok s -> ext_writes (ch s) = true -> writes_fit w (contents (c_extended (ch s))) ->
  good_run s (channel_handle_efd_write fds w s).
Proof.
  intros Hc Hu Hw. unfold channel_handle_efd_write. rewrite get_bind. ch_id s.
  rewrite big_len by apply Hc.
  destruct (_ || (zlen _ =? 0)); [by apply good_ret|].
  destruct w as [n|[| |]]; try (by apply good_ret); [|by apply good_close_efd].
  simpl in Hw. destruct (Z.leb_spec n 0) as [Hn|Hn]; [by apply good_close_efd|].
  rewrite syscall_bind.
  destruct (big_consume (c_extended (ch s)) n (k_extended _ Hc) ltac:(lia)) as (b' & Hcon & Hb' & Hcb).
  unfold on_extended, mbind, SE_bind. simpl. rewrite Hcon. simpl.
  pose proof (k_local _ Hc) as [_ _ _ Hlw0 Hlc0 Hwin _ _ _ _ _ _ _ _]. pose proof (k_wmax _ Hc) as Hwm.
  simpl in *. rewrite Hu in Hwin. unfold WINDOW_LIMIT, SSHBUF_SIZE_MAX, CHAN_RBUF in Hwm. zlen_facts.
  rewrite u32_id by lia.
  apply (good_step s _ [] _ Hc); [by rewrite app_nil_r|done| |].
  - unfold end_of, ext_writes in *. simpl. rewrite main_reads_app, main_writes_app, write_failed_app, Hcb, Hu.
    simpl. rewrite !app_nil_r, orb_false_r. apply E_ext_write. lia.
  - intros Hlok. destruct Hc. by split.
Qed.

Lemma good_handle_efd_read s fds r :
  cok s -> ext_writes (ch s) = false -> c_efd (ch s) <> -1 -> efd_selected s fds -> reads_fit r ->
  good_run s (channel_handle_efd_read fds r s).
Proof.
  intros Hc Hu Hfd Hsel Hr. unfold channel_handle_efd_read. rewrite get_bind. ch_id s.
  rewrite (k_detach _ Hc). simpl. destruct (FD_ISSET _ _) eqn:Hset; [|by apply good_ret]. simpl.
  specialize (Hsel Hfd Hu Hset).
  destruct r as [[|b d]|[| |]]; try (by apply good_ret); try (by apply good_close_efd).
  simpl in Hr. set (data := b :: d) in *. rewrite syscall_bind.
  assert (Hread : forall ext', end_of (mk_st (set_extended ext' (ch s)) (out s) (calls s ++ [CRead Ext (c_efd (ch s)) data])) =
            mk_ep (mk_snd (c_istate (ch s)) (has (c_flags (ch s)) CHAN_EOF_SENT) (contents (c_input (ch s)))
                     (contents ext') (c_remote_window (ch s)) (main_reads (calls s)))
                  (e_r (end_of s)) (e_cs (end_of s)) (e_cr (end_of s))).
  { intros ext'. unfold end_of, ext_writes in *. simpl.
    rewrite main_reads_app, main_writes_app, write_failed_app. simpl. by rewrite !app_nil_r, orb_false_r, Hu. }
  destruct (_ =? CHAN_EXTENDED_IGNORE).
  - apply (good_same s _ _ Hc); [done|done| |].
    + unfold end_of. simpl. rewrite main_reads_app, main_writes_app, write_failed_app. simpl.
      by rewrite !app_nil_r, orb_false_r.
    + intros Hlok. destruct Hc. by split.
  - unfold WINDOW_LIMIT in Hsel.
    destruct (big_put (c_extended (ch s)) data (k_extended _ Hc) ltac:(lia)) as (b' & Hput & Hb' & Hcb).
    unfold on_extended, mbind, SE_bind. simpl. rewrite Hput.
    apply (good_step s _ [] _ Hc); [by rewrite app_nil_r|done| |].
    + simpl. rewrite Hread. unfold end_of. rewrite Hu. apply E_ext.
    + intros Hlok. destruct Hc. by split.
Qed.

Lemma good_handle_efd s fds r w :
  cok s -> efd_selected s fds -> reads_fit r -> writes_fit w (contents (c_extended (ch s))) ->
  good_run s (channel_handle_efd fds r w s).
Proof.
  intros Hc Hsel Hr Hw. unfold channel_handle_efd. rewrite get_bind. ch_id s.
  destruct (Z.eqb_spec (c_efd (ch s)) (-1)) as [|Hfd]; [by apply good_ret|].
  destruct (c_extended_usage (ch s) =? CHAN_EXTENDED_WRITE) eqn:Hu; [by apply good_handle_efd_write|].
  destruct (_ || _); [by apply good_handle_efd_read|by apply good_ret].
Qed.

(** What the first handlers of a round leave to the later ones. *)
Definition ext_part (c : Channel) := (c_extended c, c_efd c, c_extended_usage c).
Definition out_part (c : Channel) := (c_output c, ext_part c).

Lemma preserves_on_ch (I : Channel -> Prop) f :
  (forall c, I c -> I (f c)) -> preserves (fun s => I (ch s)) (on_ch f).
Proof. intros Hf. apply preserves_modify. intros s. apply Hf. Qed.
Lemma preserves_syscall (I : Channel -> Prop) k : preserves (fun s => I (ch s)) (syscall k).
Proof. by apply preserves_modify. Qed.
Lemma preserves_send (I : Channel -> Prop) m : preserves (fun s => I (ch s)) (send_msg m).
Proof. intros s Hs. unfold send_msg. by destruct (pkt_sends _ _). Qed.
Lemma preserves_on_input {A} (I : Channel -> Prop) (m : SE sshbuf Z A) :
  (forall b c, I c -> I (set_input b c)) -> preserves (fun s => I (ch s)) (on_input m).
Proof. intros Hi s Hs. unfold on_input. destruct (m _) as [[?|?] b]; by apply Hi. Qed.
Lemma preserves_on_output {A} (I : Channel -> Prop) (m : SE sshbuf Z A) :
  (forall b c, I c -> I (set_output b c)) -> preserves (fun s => I (ch s)) (on_output m).
Proof. intros Hi s Hs. unfold on_output. destruct (m _) as [[?|?] b]; by apply Hi. Qed.

Ltac frame I :=
  preserve; first [by apply (preserves_on_ch I)|by apply (preserves_syscall I)|by apply (preserves_send I)
    |by apply (preserves_on_input I)|by apply (preserves_on_output I)].

Lemma rfd_frame v fds r :
  preserves (fun s => out_part (ch s) = v) (channel_handle_rfd fds r).
Proof.
  unfold channel_handle_rfd. rewrite no_input_filter.
  unfold fd_failed, chan_mark_dead, chan_read_failed, chan_shutdown_read, chan_set_istate, close_rfd, get,
    guard_or. frame (fun c => out_part c = v).
Qed.
Lemma wfd_frame v fds w echo :
  preserves (fun s => ext_part (ch s) = v) (channel_handle_wfd fds w echo).
Proof.
  unfold channel_handle_wfd. rewrite no_output_filter.
  unfold fd_failed, chan_mark_dead, chan_write_failed, chan_shutdown_write, chan_send_eow2,
    need_remote_id, chan_set_ostate, close_wfd, get, guard_or. frame (fun c => ext_part c = v).
Qed.

(** The results of the calls of one round fit what was asked for. *)
Definition io_ok (s : st) (x : io) : Prop :=
  reads_fit (io_rfd x) /\ writes_fit (io_wfd x) (contents (c_output (ch s))) /\
  reads_fit (io_efd_r x) /\ writes_fit (io_efd_w x) (contents (c_extended (ch s))).

Lemma good_post_open s fds x :
  cok s -> rfd_selected s fds -> efd_selected s fds -> io_ok s x ->
  good_run s (channel_post_open fds x s).
Proof.
  intros Hc Hr He (Hx1 & Hx2 & Hx3 & Hx4). unfold channel_post_open.
  apply good_bind; [by apply good_handle_rfd|]. intros a1 s1 Hs1 Hc1 _.
  pose proof (rfd_frame (out_part (ch s)) fds (io_rfd x) s eq_refl) as Hf1. rewrite Hs1 in Hf1.
  unfold out_part, ext_part in Hf1. injection Hf1 as Fo Fx Fe Fu.
  apply good_bind; [apply good_handle_wfd; [done|by rewrite Fo]|]. intros a2 s2 Hs2 Hc2 _.
  pose proof (wfd_frame (ext_part (ch s1)) fds (io_wfd x) (io_echo x) s1 eq_refl) as Hf2. rewrite Hs2 in Hf2.
  unfold ext_part in Hf2. injection Hf2 as Gx Ge Gu.
  apply good_bind.
  { apply good_handle_efd; [done| |done|by rewrite Gx, Fx].
    unfold efd_selected, ext_writes in *. by rewrite Ge, Gu, Gx, Fe, Fu, Fx. }
  intros a3 s3 _ Hc3 _. apply good_bind; [by apply good_check_window|]. intros. by apply good_ret.
Qed.

(** channel_pre_open: the descriptors it asks for are those the later handlers
    may use. *)
Definition sub_fds (fds fds' : fdsets) : Prop :=
  incl (readset fds') (readset fds) /\ incl (writeset fds') (writeset fds).

Lemma FD_ISSET_incl fd l l' : incl l' l -> FD_ISSET fd l' = true -> FD_ISSET fd l = true.
Proof.
  unfold FD_ISSET. rewrite !bool_decide_eq_true. intros Hi Hin.
  apply list_elem_of_In, Hi, list_elem_of_In, Hin.
Qed.

(** What obuf_empty leaves. *)
Definition in_part (c : Channel) := (c_istate c, c_input c, c_rfd c, c_remote_window c, ext_part c).
Lemma obuf_frame v : preserves (fun s => in_part (ch s) = v) chan_obuf_empty.
Proof.
  unfold chan_obuf_empty, chan_shutdown_write, chan_set_ostate, close_wfd, get, guard_or. frame (fun c => in_part c = v).
Qed.

Lemma good_pre_open s :
  cok s -> good_run s (channel_pre_open s) /\
  forall fds s' fds', channel_pre_open s = (inr fds, s') -> sub_fds fds fds' ->
    rfd_selected s' fds' /\ efd_selected s' fds'.
Proof.
  intros Hc. unfold channel_pre_open. rewrite get_bind. ch_id s.
  set (rd := (c_istate (ch s) =? _) && _ && _ && _). set (wr := (_ || _) && _).
  set (m := when _ chan_obuf_empty).
  assert (Hm : good_run s (m s)) by (apply good_when; [done|by apply good_obuf_empty]).
  assert (Hmf : preserves (fun s1 => in_part (ch s1) = in_part (ch s)) m) by (unfold m, when; preserve; apply obuf_frame).
  split.
  - apply good_bind; [done|]. intros _ s1 _ Hc1 _. rewrite get_bind. by apply good_ret.
  - intros fds s' fds' (a & s1 & Hs1 & Hr)%SE_bind_inv [Hsub _]. rewrite get_bind in Hr.
    specialize (Hmf s eq_refl). rewrite Hs1 in Hmf. unfold in_part, ext_part in Hmf. simpl in Hmf.
    injection Hmf as Fi Fin Fr Fw Fx Fe Fu. simpl in Hr. injection Hr as Hfds <-. subst fds. simpl in Hsub.
    destruct Hm as (? & ? & ? & E & _ & _ & _ & Hc1). rewrite Hs1 in E. injection E as <- <-.
    set (er := _ && (sshbuf_len (c_extended (ch s1)) <? _)) in *.
    split.
    + intros Hfd Hset. apply (FD_ISSET_incl _ _ _ Hsub) in Hset. unfold FD_ISSET in Hset.
      apply bool_decide_eq_true, elem_of_app in Hset.
      assert (Hrd : rd = true).
      { destruct rd; [done|]. destruct Hset as [Hin|Hin]; [by apply elem_of_nil in Hin|].
        destruct er eqn:Her; [|by apply elem_of_nil in Hin]. apply list_elem_of_singleton in Hin.
        destruct (k_fds _ Hc1); congruence. }
      unfold rd in Hrd. apply andb_prop in Hrd as [[[Hi%Z.eqb_eq _]%andb_prop _]%andb_prop Hres%Z.eqb_eq].
      rewrite Fi, Fin. split; [done|]. apply big_room; [apply Hc|done|done].
    + intros Hfd Hu Hset. apply (FD_ISSET_incl _ _ _ Hsub) in Hset. unfold FD_ISSET in Hset.
      apply bool_decide_eq_true, elem_of_app in Hset.
      assert (Her : er = true).
      { destruct er; [done|]. destruct Hset as [Hin|Hin]; [|by apply elem_of_nil in Hin].
        destruct rd; [|by apply elem_of_nil in Hin]. apply list_elem_of_singleton in Hin.
        destruct (k_fds _ Hc1); congruence. }
      unfold er in Her. apply andb_prop in Her as [_ Hlt%Z.ltb_lt].
      rewrite big_len in Hlt by apply Hc1. pose proof (k_rw _ Hc1). lia.
Qed.

(** ** Sending *)

(** The bytes that may go into one packet. *)
Lemma packet_len len rw maxp :
  0 < len -> 0 <= rw -> 0 <= maxp ->
  let n := if rw <? len then rw else len in
  let n := if maxp <? n then maxp else n in
  0 <= n /\ n <= len /\ n <= rw /\ n <= maxp.
Proof.
  intros Hl Hr Hm. cbv zeta. destruct (Z.ltb_spec rw len);
    [destruct (Z.ltb_spec maxp rw)|destruct (Z.ltb_spec maxp len)]; lia.
Qed.

Lemma good_poll_input s :
  cok s -> has (c_flags (ch s)) CHAN_CLOSE_SENT = false -> has (c_flags (ch s)) CHAN_CLOSE_RCVD = false ->
  c_istate (ch s) = 0 \/ c_istate (ch s) = 1 -> good_run s (channel_output_poll_input_open s).
Proof.
  intros Hc Hcs Hcr Hi. unfold channel_output_poll_input_open. rewrite get_bind. ch_id s.
  rewrite big_len by apply Hc. destruct (Z.eqb_spec (zlen (contents (c_input (ch s)))) 0) as [Hz|Hz].
  { apply good_when; [done|by apply good_ibuf_empty]. }
  rewrite id_bind by apply Hc. rewrite (k_datagram _ Hc). cbv zeta.
  pose proof (l_rw _ _ (k_local _ Hc)) as Hrw. simpl in Hrw. zlen_facts.
  destruct (packet_len (zlen (contents (c_input (ch s)))) _ _ ltac:(lia) Hrw (k_maxp _ Hc)) as (Hn0 & Hn1 & Hn2 & Hn3).
  set (n := if _ <? (if _ <? _ then _ else _) then _ else _) in *. clearbody n.
  destruct (Z.eqb_spec n 0) as [|Hn]; [by apply good_ret|].
  rewrite send_bind, big_ptr by (apply Hc || done).
  destruct (big_consume (c_input (ch s)) n (k_input _ Hc) ltac:(lia)) as (b' & Hcon & Hb' & Hcb).
  unfold on_input at 1, mbind at 1, SE_bind at 1. simpl. rewrite Hcon. simpl.
  pose proof (k_rw _ Hc) as Hlim. unfold WINDOW_LIMIT, SSHBUF_SIZE_MAX, CHAN_RBUF in Hlim.
  unfold on_ch, modify. simpl. rewrite u32_id by lia.
  apply (good_step s _ [CHANNEL_DATA (ztake n (contents (c_input (ch s))))] _ Hc); [done|done| |].
  - unfold end_of. simpl. rewrite Hcb, Hcs, Hcr. apply E_send_data; [done|lia|done|done].
  - intros Hlok. destruct Hc. split; simpl in *; try done. lia.
Qed.

Lemma good_poll_ext s :
  cok s -> has (c_flags (ch s)) CHAN_CLOSE_SENT = false -> has (c_flags (ch s)) CHAN_CLOSE_RCVD = false ->
  has (c_flags (ch s)) CHAN_EOF_SENT = false -> ext_writes (ch s) = false ->
  good_run s (channel_output_poll_extended_read s).
Proof.
  intros Hc Hcs Hcr Hes Hu. unfold channel_output_poll_extended_read. rewrite get_bind. ch_id s.
  rewrite big_len by apply Hc. destruct (Z.eqb_spec (zlen (contents (c_extended (ch s)))) 0) as [Hz|Hz].
  { by apply good_ret. }
  cbv zeta. pose proof (l_rw _ _ (k_local _ Hc)) as Hrw. simpl in Hrw. zlen_facts.
  destruct (packet_len (zlen (contents (c_extended (ch s)))) _ _ ltac:(lia) Hrw (k_maxp _ Hc)) as (Hn0 & Hn1 & Hn2 & Hn3).
  set (n := if _ <? (if _ <? _ then _ else _) then _ else _) in *. clearbody n.
  destruct (Z.eqb_spec n 0) as [|Hn]; [by apply good_ret|].
  rewrite id_bind by apply Hc. rewrite send_bind, big_ptr by (apply Hc || done).
  destruct (big_consume (c_extended (ch s)) n (k_extended _ Hc) ltac:(lia)) as (b' & Hcon & Hb' & Hcb).
  unfold on_extended at 1, mbind at 1, SE_bind at 1. simpl. rewrite Hcon. simpl.
  pose proof (k_rw _ Hc) as Hlim. unfold WINDOW_LIMIT, SSHBUF_SIZE_MAX, CHAN_RBUF in Hlim.
  unfold on_ch, modify. simpl. rewrite u32_id by lia.
  apply (good_step s _ [CHANNEL_EXTENDED_DATA SSH2_EXTENDED_DATA_STDERR (ztake n (contents (c_extended (ch s))))] _ Hc);
    [done|done| |].
  - unfold end_of, ext_writes in *. simpl. rewrite Hcb, Hcs, Hcr, Hes, Hu. apply E_send_ext; [lia|done|done].
  - intros Hlok. destruct Hc. split; simpl in *; try done. lia.
Qed.

(** Nothing but EOF_SENT changes among the flags while sending. *)
Definition close_flags (c : Channel) :=
  (has (c_flags c) CHAN_CLOSE_SENT, has (c_flags c) CHAN_CLOSE_RCVD, c_extended_usage c).
Lemma poll_input_frame v : preserves (fun s => close_flags (ch s) = v) channel_output_poll_input_open.
Proof.
  unfold channel_output_poll_input_open, chan_ibuf_empty, chan_send_eof2, chan_set_istate, need_remote_id,
    add_flag, get, guard_or.
  preserve; first [by apply (preserves_send (fun c => close_flags c = v))
    |by apply (preserves_on_input (fun c => close_flags c = v))|apply (preserves_on_ch (fun c => close_flags c = v))];
    intros c Hc; rewrite <- Hc; unfold close_flags; simpl; by rewrite ?lor_has, ?orb_false_r.
Qed.

Lemma good_poll s : cok s -> good_run s (channel_output_poll s).
Proof.
  intros Hc. unfold channel_output_poll. rewrite get_bind. ch_id s. rewrite (k_type _ Hc), has_lor. simpl.
  destruct (has (c_flags (ch s)) CHAN_CLOSE_SENT) eqn:Hcs; [by apply good_ret|].
  destruct (has (c_flags (ch s)) CHAN_CLOSE_RCVD) eqn:Hcr; [by apply good_ret|]. simpl.
  set (m := when _ channel_output_poll_input_open).
  assert (Hm : good_run s (m s)).
  { unfold m, when. destruct (_ || _) eqn:Hi; [|by apply good_ret]. apply good_poll_input; try done.
    apply orb_prop in Hi as [Hi%Z.eqb_eq|Hi%Z.eqb_eq]; auto. }
  assert (Hmf : preserves (fun s1 => close_flags (ch s1) = close_flags (ch s)) m)
    by (unfold m, when; preserve; apply poll_input_frame).
  apply good_bind; [done|]. intros a s1 Hs1 Hc1 _. rewrite get_bind. ch_id s1.
  specialize (Hmf s eq_refl). rewrite Hs1 in Hmf. unfold close_flags in Hmf. simpl in Hmf.
  injection Hmf as Fs Fr Fu. unfold when.
  destruct (negb (has (c_flags (ch s1)) CHAN_EOF_SENT) && _) eqn:Hif; [|by apply good_ret].
  apply andb_prop in Hif as [Hes%negb_true_iff Hu%Z.eqb_eq]. apply good_poll_ext; try congruence.
  unfold ext_writes. by rewrite Hu.
Qed.

(** ** Receiving *)

(** The message was handled: the protocol's reaction to it, then own steps. *)
Definition good_recv (s : st) (m : msg) (r : (stop + ()) * st) : Prop :=
  exists s' ms1 e1 ms2, r = (inr tt, s') /\ out s' = out s ++ ms1 ++ ms2 /\ same_limits s s' /\
    erecv (c_local_maxpacket (ch s)) (end_of s) m ms1 e1 /\
    esteps (c_remote_maxpacket (ch s)) e1 ms2 (end_of s') /\ cok s'.

(** The invariant of the pair carries over to the end that takes [m]. *)
Definition lands (s : st) (m : msg) : Prop :=
  forall ms e1, erecv (c_local_maxpacket (ch s)) (end_of s) m ms e1 ->
    local_ok (c_local_window_max (ch s)) e1.

(** The reaction is all there is to do. *)
Lemma recv_done s s' m ms :
  cok s -> lands s m -> out s' = out s ++ ms -> same_limits s s' ->
  erecv (c_local_maxpacket (ch s)) (end_of s) m ms (end_of s') ->
  (local_ok (c_local_window_max (ch s')) (end_of s') -> cok s') ->
  good_recv s m (inr tt, s').
Proof.
  intros Hc Hl Ho Hlim He Hk. exists s', ms, (end_of s'), []. rewrite app_nil_r.
  split_and!; try done; [constructor|]. apply Hk. destruct Hlim as (_ & -> & _). by eapply Hl.
Qed.
(** ... or more follows. *)
Lemma recv_then s s' m ms (r : (stop + ()) * st) :
  cok s -> lands s m -> out s' = out s ++ ms -> same_limits s s' ->
  erecv (c_local_maxpacket (ch s)) (end_of s) m ms (end_of s') ->
  (local_ok (c_local_window_max (ch s')) (end_of s') -> cok s') ->
  (cok s' -> good_run s' r) -> good_recv s m r.
Proof.
  intros Hc Hl Ho Hlim He Hk Hr. pose proof Hlim as (Elim & Ew & _).
  assert (Hc' : cok s') by (apply Hk; rewrite Ew; by eapply Hl).
  destruct (Hr Hc') as ([] & s'' & ms2 & -> & Ho2 & Hlim2 & Hst & Hc2).
  exists s'', ms, (end_of s'), ms2. split_and!; try done.
  - by rewrite Ho2, Ho, app_assoc.
  - by eapply same_limits_trans.
  - by rewrite <- Elim.
Qed.

Lemma recv_data s d :
  cok s -> lands s (CHANNEL_DATA d) -> zlen d <= c_local_maxpacket (ch s) ->
  zlen d <= c_local_window (ch s) -> good_recv s (CHANNEL_DATA d) (channel_input_data (Some d) s).
Proof.
  intros Hc Hl Hmp Hlw. unfold channel_input_data. rewrite get_bind. ch_id s.
  rewrite (k_type _ Hc), (k_datagram _ Hc). simpl.
  pose proof (k_local _ Hc) as [_ _ _ Hlw0 Hlc0 Hwin _ _ _ _ _ _ _ _]. pose proof (k_wmax _ Hc) as Hwm.
  simpl in *. unfold WINDOW_LIMIT, CHAN_RBUF in Hwm. zlen_facts.
  assert (Hs : SSHBUF_SIZE_MAX < 2 ^ 32) by done.
  destruct (Z.eqb_spec (c_ostate (ch s)) CHAN_OUTPUT_OPEN) as [Eo|Eo]; simpl.
  - rewrite !(proj2 (Z.ltb_ge _ _)) by done. rewrite on_ch_bind. simpl. rewrite u32_id by lia.
    destruct (big_put (c_output (ch s)) d (k_output _ Hc)) as (b' & Hput & Hb' & Hcb).
    { destruct (ext_writes (ch s)); zlen_facts; lia. }
    unfold on_output. simpl. rewrite Hput.
    apply (recv_done s _ _ [] Hc Hl); [by rewrite app_nil_r|done| |].
    + unfold end_of. simpl. rewrite Hcb, Eo. by apply R_data.
    + intros Hlok. destruct Hc. by split.
  - unfold on_ch, modify. simpl. rewrite !u32_id by (destruct (ext_writes (ch s)); zlen_facts; lia).
    apply (recv_done s _ _ [] Hc Hl); [by rewrite app_nil_r|done| |].
    + unfold end_of. simpl. by apply R_data_dropped.
    + intros Hlok. destruct Hc. by split.
Qed.

Lemma recv_ext s k d :
  cok s -> lands s (CHANNEL_EXTENDED_DATA k d) -> zlen d <= c_local_window (ch s) ->
  has (c_flags (ch s)) CHAN_EOF_RCVD = false ->
  good_recv s (CHANNEL_EXTENDED_DATA k d) (channel_input_extended_data (Some k) (Some d) s).
Proof.
  intros Hc Hl Hlw Her. unfold channel_input_extended_data. rewrite get_bind. ch_id s.
  rewrite (k_type _ Hc), Her. simpl. unfold mbind, SE_bind. simpl.
  destruct (_ || _ || _) eqn:Hif.
  { apply (recv_done s s _ [] Hc Hl); [by rewrite app_nil_r|done|by apply R_ext_ignored|done]. }
  apply orb_false_elim in Hif as [[_ Hu%negb_false_iff]%orb_false_elim _].
  rewrite (proj2 (Z.ltb_ge _ _)) by done. simpl.
  pose proof (k_local _ Hc) as [_ _ _ Hlw0 Hlc0 Hwin _ _ _ _ _ _ _ _]. pose proof (k_wmax _ Hc) as Hwm.
  simpl in *. unfold ext_writes in Hwin. rewrite Hu in Hwin. unfold WINDOW_LIMIT, CHAN_RBUF in Hwm. zlen_facts.
  assert (Hs : SSHBUF_SIZE_MAX < 2 ^ 32) by done.
  destruct (big_put (c_extended (ch s)) d (k_extended _ Hc) ltac:(lia)) as (b' & Hput & Hb' & Hcb).
  rewrite Hput. unfold on_ch, modify. simpl. rewrite u32_id by lia.
  apply (recv_done s _ _ [] Hc Hl); [by rewrite app_nil_r|done| |].
  - unfold end_of, ext_writes in *. simpl. rewrite Hcb, Hu, Her. by apply R_ext.
  - intros Hlok. destruct Hc. by split.
Qed.

Lemma recv_adjust s n :
  cok s -> lands s (CHANNEL_WINDOW_ADJUST n) -> 0 <= n -> c_remote_window (ch s) + n <= WINDOW_LIMIT ->
  good_recv s (CHANNEL_WINDOW_ADJUST n) (channel_input_window_adjust (Some n) s).
Proof.
  intros Hc Hl Hn Hw. unfold channel_input_window_adjust. rewrite get_bind.
  pose proof (l_rw _ _ (k_local _ Hc)) as Hrw. simpl in Hrw.
  assert (Hs : WINDOW_LIMIT < 2 ^ 32) by done. rewrite u32_id by lia.
  rewrite (proj2 (Z.ltb_ge _ _)) by lia.
  apply (recv_done s _ _ [] Hc Hl); [by rewrite app_nil_r|done| |].
  - unfold end_of. simpl. by apply R_adjust.
  - intros Hlok. destruct Hc. by split.
Qed.

Lemma recv_eow s : cok s -> lands s eow -> good_recv s eow (chan_rcvd_eow s).
Proof.
  intros Hc Hl. unfold chan_rcvd_eow. rewrite get_bind.
  destruct (Z.eqb_spec (c_istate (ch s)) CHAN_INPUT_OPEN) as [E0|E0].
  - destruct (shutdown_read_eq s) as (r & ks & Hq & Hr & He). rewrite (SE_bind_ok _ _ _ _ _ He).
    rewrite set_istate_eq by (simpl; rewrite ?E0; done).
    apply (recv_done s _ _ [] Hc Hl); [by rewrite app_nil_r|done| |].
    + destruct (quiet_app (calls s) ks Hq) as (E1 & E2 & E3).
      pose proof (R_eow (c_local_maxpacket (ch s)) 0 (has (c_flags (ch s)) CHAN_EOF_SENT)) as Hx. simpl in Hx.
      unfold end_of. simpl. rewrite E1, E2, E3, E0. apply Hx.
    + intros Hlok. destruct Hc. split; simpl in *; try done. lia.
  - apply (recv_done s s _ [] Hc Hl); [by rewrite app_nil_r|done| |done].
    pose proof (R_eow (c_local_maxpacket (ch s)) (c_istate (ch s)) (has (c_flags (ch s)) CHAN_EOF_SENT)) as Hx.
    rewrite (proj2 (Z.eqb_neq _ _)) in Hx by done. apply Hx.
Qed.

Lemma recv_close s : cok s -> lands s CHANNEL_CLOSE -> good_recv s CHANNEL_CLOSE (channel_input_oclose s).
Proof.
  intros Hc Hl. unfold channel_input_oclose, chan_rcvd_oclose. rewrite get_bind. ch_id s.
  rewrite (k_notlocal _ Hc), (k_type _ Hc). simpl. unfold add_flag. rewrite on_ch_bind.
  destruct (cok_states s Hc) as [Hi Ho].
  set (o' := if c_ostate (ch s) =? 0 then 1 else c_ostate (ch s)).
  set (s1 := mk_st (set_ostate o' (set_flags (Z.lor (c_flags (ch s)) CHAN_CLOSE_RCVD) (ch s))) (out s) (calls s)).
  assert (Hw : forall k : () -> CH (),
    (when (c_ostate (ch s) =? CHAN_OUTPUT_OPEN) (chan_set_ostate CHAN_OUTPUT_WAIT_DRAIN) ≫= k)
      (mk_st (set_flags (Z.lor (c_flags (ch s)) CHAN_CLOSE_RCVD) (ch s)) (out s) (calls s)) = k tt s1).
  { intros k. unfold when, s1, o'. change CHAN_OUTPUT_OPEN with 0.
    destruct (Z.eqb_spec (c_ostate (ch s)) 0) as [E|E].
    - erewrite SE_bind_ok by (apply set_ostate_eq; simpl; lia || done). done.
    - rewrite SE_bind_ret_l. by destruct s as [[] ? ?]. }
  rewrite Hw. clear Hw.
  assert (Hf : forall b, has (Z.lor (c_flags (ch s)) CHAN_CLOSE_RCVD) b =
                has (c_flags (ch s)) b || truthy (Z.land CHAN_CLOSE_RCVD b)) by (intros; apply lor_has).
  destruct (Z.eqb_spec (c_istate (ch s)) CHAN_INPUT_OPEN) as [E0|E0];
    [|destruct (Z.eqb_spec (c_istate (ch s)) CHAN_INPUT_WAIT_DRAIN) as [E1|E1]].
  - destruct (shutdown_read_eq s1) as (r & ks & Hq & Hr & He). rewrite (SE_bind_ok _ _ _ _ _ He).
    rewrite set_istate_eq by (simpl; rewrite ?E0; done).
    apply (recv_done s _ _ [] Hc Hl); [by rewrite app_nil_r|done| |].
    + destruct (quiet_app (calls s) ks Hq) as (Q1 & Q2 & Q3). unfold end_of. simpl.
      rewrite Q1, Q2, Q3, !Hf, E0. simpl. rewrite !orb_false_r, orb_true_r. apply R_close_open.
    + intros Hlok. destruct Hc. split; simpl in *; try done; [by rewrite Hf, k_notlocal0|lia].
  - simpl. unfold chan_send_eof2. rewrite SE_bind_assoc, get_bind. simpl. rewrite E1. simpl.
    rewrite SE_bind_assoc, id_bind by apply Hc. rewrite SE_bind_assoc, send_bind. unfold add_flag.
    rewrite on_ch_bind. rewrite set_istate_eq by (simpl; rewrite ?E1; done).
    apply (recv_done s _ _ [CHANNEL_EOF] Hc Hl); [done|done| |].
    + unfold end_of. simpl. rewrite !(lor_has _ CHAN_EOF_SENT), !Hf, E1. simpl.
      rewrite !orb_false_r, !orb_true_r. apply R_close_drain.
    + intros Hlok. destruct Hc. split; simpl in *; try done. by rewrite lor_has, Hf, k_notlocal0.
  - apply (recv_done s s1 _ [] Hc Hl); [by rewrite app_nil_r|done| |].
    + unfold end_of. simpl. rewrite !Hf. simpl. rewrite !orb_false_r, orb_true_r. apply R_close_closed.
      simpl. unfold CHAN_INPUT_OPEN, CHAN_INPUT_WAIT_DRAIN in *. lia.
    + intros Hlok. destruct Hc. split; simpl in *; try done. by rewrite Hf, k_notlocal0.
Qed.

(** The input is closed by force when the peer's has ended. *)
Lemma good_force_drain s (c : bool) :
  cok s -> good_run s ((when (c && (c_istate (ch s) =? CHAN_INPUT_OPEN))
    (_ ← on_ch (set_istate CHAN_INPUT_WAIT_DRAIN);
     when (sshbuf_len (c_input (ch s)) =? 0) chan_ibuf_empty)) s).
Proof.
  intros Hc. unfold when at 1. destruct (_ && _) eqn:Hif; [|by apply good_ret].
  apply andb_prop in Hif as [_ E0%Z.eqb_eq]. apply good_bind.
  - apply (good_step s _ [] _ Hc); [by rewrite app_nil_r|done| |].
    + unfold end_of. simpl. rewrite E0. apply E_read_end.
    + intros Hlok. destruct Hc. by split.
  - intros _ s1 _ Hc1 _. apply good_when; [done|by apply good_ibuf_empty].
Qed.

Lemma recv_eof s : cok s -> lands s CHANNEL_EOF -> good_recv s CHANNEL_EOF (channel_input_ieof s).
Proof.
  intros Hc Hl. unfold channel_input_ieof, chan_rcvd_ieof, add_flag.
  rewrite SE_bind_assoc, on_ch_bind, SE_bind_assoc, get_bind.
  set (o' := if c_ostate (ch s) =? 0 then 1 else c_ostate (ch s)).
  set (s1 := mk_st (set_ostate o' (set_flags (Z.lor (c_flags (ch s)) CHAN_EOF_RCVD) (ch s))) (out s) (calls s)).
  assert (Hw : forall k : () -> CH (),
    (when (c_ostate (ch s) =? CHAN_OUTPUT_OPEN) (chan_set_ostate CHAN_OUTPUT_WAIT_DRAIN) ≫= k)
      (mk_st (set_flags (Z.lor (c_flags (ch s)) CHAN_EOF_RCVD) (ch s)) (out s) (calls s)) = k tt s1).
  { intros k. unfold when, s1, o'. change CHAN_OUTPUT_OPEN with 0.
    destruct (Z.eqb_spec (c_ostate (ch s)) 0) as [E|E].
    - erewrite SE_bind_ok by (apply set_ostate_eq; simpl; lia || done). done.
    - rewrite SE_bind_ret_l. by destruct s as [[] ? ?]. }
  simpl c_ostate at 1. rewrite SE_bind_assoc, Hw. clear Hw.
  apply (recv_then s s1 _ [] _ Hc Hl); [by rewrite app_nil_r|done| | |].
  - unfold end_of. simpl. rewrite !lor_has. simpl. rewrite !orb_false_r, orb_true_r. apply R_eof.
  - intros Hlok. destruct Hc. split; simpl in *; try done. by rewrite lor_has, k_notlocal0.
  - intros Hc1. rewrite SE_bind_assoc, get_bind. apply good_bind.
    + apply good_when; [done|by apply good_obuf_empty].
    + intros _ s2 _ Hc2 _. rewrite get_bind. by apply good_force_drain.
Qed.
End handlers.

(** ** Two ends and the messages between them *)

Record party := mk_party { p_st : st; p_freed : bool }.

(** What the server loop does with a channel: a round of select, sending what
    is buffered, taking the next message off the connection. *)
Inductive action := Round (ready : fdsets) (x : io) | Poll | Recv.

Definition meet (l l' : list Z) : list Z := filter (fun fd => fd ∈ l') l.

Section system.
Context `{Allocator, ChanEnv}.

(** One round: the channel is asked for its descriptors, those that are ready
    are served. *)
Definition round (ready : fdsets) (x : io) : CH bool :=
  '(fds, freed) ← channel_pre;
  if (freed : bool) then mret true
  else channel_post (mk_fdsets (meet (readset fds) (readset ready)) (meet (writeset fds) (writeset ready))) x.

(** The action of one end, with the messages from the other end: the end and
    the messages that are left.  A message for a channel that was freed
    disconnects (channel_from_packet_id). *)
Definition act (k : action) (p : party) (q : list msg) : stop + (party * list msg) :=
  if p_freed p then
    match k, q with Recv, _ :: _ => inl Disconnect | _, _ => inr (p, q) end
  else
    match k with
    | Round ready x =>
        match round ready x (p_st p) with
        | (inl e, _) => inl e
        | (inr freed, s) => inr (mk_party s freed, q)
        end
    | Poll =>
        match channel_output_poll (p_st p) with
        | (inl e, _) => inl e
        | (inr _, s) => inr (mk_party s false, q)
        end
    | Recv =>
        match q with
        | [] => inr (p, q)
        | m :: q' =>
            match channel_input m (p_st p) with
            | (inl e, _) => inl e
            | (inr _, s) => inr (mk_party s false, q')
            end
        end
    end.

Definition set_queue (q : list msg) (p : party) : party :=
  mk_party (mk_st (ch (p_st p)) q (calls (p_st p))) (p_freed p).

(** What read and write may answer. *)
Definition possible (k : action) (p : party) : Prop :=
  match k with
  | Round _ x => forall fs s, channel_pre (p_st p) = (inr fs, s) -> io_ok s x
  | Poll | Recv => True
  end.

(** Both ends after an action of the left or the right one. *)
Definition act_left (k : action) (w : party * party) : stop + (party * party) :=
  let '(a, b) := w in
  match act k a (out (p_st b)) with
  | inl e => inl e
  | inr (a', q) => inr (a', set_queue q b)
  end.
Definition act_right (k : action) (w : party * party) : stop + (party * party) :=
  let '(a, b) := w in
  match act k b (out (p_st a)) with
  | inl e => inl e
  | inr (b', q) => inr (set_queue q a, b')
  end.

(** A channel that was just opened by both ends. *)
Record opened (s : st) (peer : st) : Prop := {
  o_type : c_type (ch s) = SSH_CHANNEL_OPEN;
  o_id : c_have_remote_id (ch s) = true;
  o_datagram : c_datagram (ch s) = false;
  o_detach : c_detach_close (ch s) = false;
  o_states : c_istate (ch s) = CHAN_INPUT_OPEN /\ c_ostate (ch s) = CHAN_OUTPUT_OPEN /\ c_flags (ch s) = 0;
  o_bufs : Some (c_input (ch s)) = sshbuf_new /\ Some (c_output (ch s)) = sshbuf_new /\
           Some (c_extended (ch s)) = sshbuf_new;
  o_fds : c_efd (ch s) = -1 \/ c_efd (ch s) <> c_rfd (ch s);
  o_local : 0 <= c_local_window (ch s) /\ c_local_window_max (ch s) = c_local_window (ch s) /\
            c_local_consumed (ch s) = 0 /\ c_local_window_max (ch s) <= WINDOW_LIMIT;
  o_remote : c_remote_window (ch s) = c_local_window (ch peer) /\
             c_remote_maxpacket (ch s) = c_local_maxpacket (ch peer) /\ 0 <= c_remote_maxpacket (ch s);
  o_clean : out s = [] /\ calls s = []
}.

(** The worlds that actions of both ends lead to. *)
Inductive reach : party * party -> Prop :=
  | reach_open a b : opened a b -> opened b a -> reach (mk_party a false, mk_party b false)
  | reach_left w k w' : reach w -> possible k (fst w) -> act_left k w = inr w' -> reach w'
  | reach_right w k w' : reach w -> possible k (snd w) -> act_right k w = inr w' -> reach w'.
End system.

(** ** The invariant of the pair *)

Record inv (a b : party) : Prop := {
  i_a : cok (p_st a);
  i_b : cok (p_st b);
  i_ab : c_remote_maxpacket (ch (p_st a)) = c_local_maxpacket (ch (p_st b));
  i_ba : c_remote_maxpacket (ch (p_st b)) = c_local_maxpacket (ch (p_st a));
  i_pair : pair_ok (c_local_window_max (ch (p_st a))) (c_local_maxpacket (ch (p_st a)))
             (c_local_window_max (ch (p_st b))) (c_local_maxpacket (ch (p_st b)))
             (end_of (p_st a)) (end_of (p_st b)) (out (p_st a)) (out (p_st b));
  i_freed_a : p_freed a = true -> both_closed (p_st a);
  i_freed_b : p_freed b = true -> both_closed (p_st b)
}.

Lemma inv_sym a b : inv a b -> inv b a.
Proof. intros []. split; try done. by apply pair_sym. Qed.

Section system_ok.
Context `{AllocTotal, ChanEnvOk}.

Lemma new_big b : Some b = sshbuf_new -> big b /\ contents b = [].
Proof.
  intros Hb. destruct (sshbuf_new_rw b (eq_sym Hb)) as [Hrw [= Hc Hm]]. split; [|done]. by split.
Qed.

Lemma opened_end a b : opened a b ->
  end_of a = mk_ep (mk_snd 0 false [] [] (c_local_window (ch b)) [])
                   (mk_rcv 0 false [] [] (c_local_window (ch a)) 0 [] false) false false.
Proof.
  intros []. unfold end_of. destruct o_states0 as (-> & -> & ->). destruct o_bufs0 as (B1 & B2 & B3).
  apply new_big in B1 as [_ ->], B2 as [_ ->], B3 as [_ ->]. destruct o_clean0 as [_ ->].
  destruct o_local0 as (_ & _ & -> & _). destruct o_remote0 as (-> & _).
  by destruct (ext_writes (ch a)).
Qed.

Lemma opened_cok a b : opened a b -> opened b a -> cok a.
Proof.
  intros Ho Ho'. pose proof (opened_end a b Ho) as He.
  destruct Ho. destruct o_bufs0 as (B1 & B2 & B3).
  apply new_big in B1 as [B1 _], B2 as [B2 _], B3 as [B3 _].
  destruct o_states0 as (_ & _ & Ef). destruct o_local0 as (L1 & L2 & L3 & L4).
  destruct o_remote0 as (R1 & R2 & R3). destruct (o_local _ _ Ho') as (M1 & M2 & _ & M4).
  split; try done.
  - by rewrite Ef.
  - rewrite R1, <- M2. done.
  - rewrite He. split; simpl; try done; auto; unfold zlen; simpl; lia.
Qed.

Lemma inv_open a b : opened a b -> opened b a -> inv (mk_party a false) (mk_party b false).
Proof.
  intros Ha Hb. pose proof (opened_cok a b Ha Hb) as Ca. pose proof (opened_cok b a Hb Ha) as Cb.
  destruct (o_remote _ _ Ha) as (Ra1 & Ra2 & _). destruct (o_remote _ _ Hb) as (Rb1 & Rb2 & _).
  split; simpl; try done.
  destruct (o_clean _ _ Ha) as [-> _]. destruct (o_clean _ _ Hb) as [-> _].
  split; [apply Ca|apply Cb| |]; rewrite (opened_end a b Ha), (opened_end b a Hb);
    (split; simpl; [done|lia|constructor|by exists []]).
Qed.

Lemma cok_queue s q : cok s -> cok (mk_st (ch s) q (calls s)).
Proof. intros []. by split. Qed.

(** Own steps of the left end. *)
Lemma inv_run {A} a b (r : (stop + A) * st) f :
  inv a b -> good_run (p_st a) r -> (f = true -> both_closed (snd r)) ->
  exists x, r = (inr x, snd r) /\ inv (mk_party (snd r) f) b.
Proof.
  intros [Ca Cb Eab Eba Hp Fa Fb] (x & s' & ms & -> & Ho & (L1 & L2 & L3) & Hst & Hc) Hf.
  exists x. split; [done|]. split; simpl; try done; try congruence.
  rewrite L2, L3, Ho. rewrite Eab in Hst. by eapply pair_steps.
Qed.

(** A message for the left end. *)
Lemma inv_lands a b m q :
  inv a b -> out (p_st b) = m :: q -> lands (p_st a) m.
Proof.
  intros [Ca Cb Eab Eba [Hx Hy Hxy Hyx] Fa Fb] Hq ms e1 He. rewrite Hq in *.
  eapply erecv_local; [done|done|exact Hy| |exact Hyx].
  exact (legal_gives _ _ _ _ (d_legal _ _ _ _ _ Hxy)).
Qed.

Lemma inv_recv a b m q r :
  inv a b -> out (p_st b) = m :: q -> good_recv (p_st a) m r ->
  exists s', r = (inr tt, s') /\ inv (mk_party s' false) (set_queue q b).
Proof.
  intros [Ca Cb Eab Eba Hp Fa Fb] Hq (s' & ms1 & e1 & ms2 & -> & Ho & (L1 & L2 & L3) & He & Hst & Hc).
  exists s'. split; [done|]. split; simpl; try done; try congruence; [by apply cok_queue|].
  rewrite L2, L3, Ho, app_assoc. rewrite Eab in Hst. rewrite Hq in Hp.
  change (end_of (mk_st (ch (p_st b)) q (calls (p_st b)))) with (end_of (p_st b)).
  eapply pair_steps; [done|]. by eapply pair_recv.
Qed.

Lemma good_input s m wx wy my y qx qy :
  cok s -> lands s m -> wy <= WINDOW_LIMIT ->
  pair_ok wx (c_local_maxpacket (ch s)) wy my (end_of s) y qx (m :: qy) ->
  good_recv s m (channel_input m s).
Proof.
  intros Hc Hl Hw Hp. destruct (pair_msg _ _ _ _ _ _ _ _ _ Hp) as [_ Hm].
  destruct m as [d|k d| | |n|name rep|n]; simpl in Hm; simpl.
  - destruct Hm as (H1' & H2' & _). by apply recv_data.
  - destruct Hm as (H1' & H2'). by apply recv_ext.
  - by apply recv_eof.
  - by apply recv_close.
  - destruct Hm as [H1' H2']. apply recv_adjust; try done. lia.
  - injection Hm as -> ->. rewrite bytes_eqb_refl. by apply recv_eow.
  - apply (recv_done s s _ [] Hc Hl); [by rewrite app_nil_r|done|apply R_ignore|done].
Qed.

(** A round. *)
Lemma meet_incl l l' : incl (meet l l') l.
Proof. intros fd Hin. apply list_elem_of_In, list_elem_of_filter in Hin as [_ Hin]. by apply list_elem_of_In. Qed.

(** What garbage collection leaves when the channel lives on. *)
Definition sel_part (c : Channel) := (c_istate c, c_input c, c_rfd c, ext_part c).
Lemma is_dead_frame v b : preserves (fun s => sel_part (ch s) = v) (chan_is_dead b).
Proof.
  unfold chan_is_dead, chan_send_close2, need_remote_id, add_flag, get, guard_or.
  preserve; first [by apply (preserves_send (fun c => sel_part c = v))|by apply (preserves_on_ch (fun c => sel_part c = v))].
Qed.
Lemma gc_frame s s' : channel_garbage_collect s = (inr false, s') -> sel_part (ch s') = sel_part (ch s).
Proof.
  unfold channel_garbage_collect. rewrite get_bind.
  assert (Hlast : forall s1, (dead ← chan_is_dead true;
            if (dead : bool) then _ ← channel_close_fds; mret true else mret false) s1 = (inr false, s') ->
            sel_part (ch s') = sel_part (ch s1)).
  { intros s1 (d & s2 & Hd & Hr)%SE_bind_inv. pose proof (is_dead_frame _ true s1 eq_refl) as Hf.
    rewrite Hd in Hf. destruct d; [|injection Hr as <-; done].
    by apply SE_bind_inv in Hr as (? & ? & _ & [=]). }
  destruct (c_detach_user _); [|by apply Hlast].
  intros (d & s1 & Hd & Hr)%SE_bind_inv.
  pose proof (is_dead_frame _ (c_detach_close (id (ch s))) s eq_refl) as Hf. rewrite Hd in Hf. simpl in Hf.
  destruct d; simpl in Hr; [|injection Hr as <-; done].
  rewrite on_ch_bind, get_bind in Hr. simpl in Hr. destruct (detach_ok (ch s1)) as [b Hb]. rewrite Hb in Hr.
  simpl in Hr. rewrite <- Hf. destruct b; [injection Hr as <-; done|]. by rewrite (Hlast _ Hr).
Qed.

Lemma good_round s ready x :
  cok s -> (forall fs s1, channel_pre s = (inr fs, s1) -> io_ok s1 x) ->
  good_run s (round ready x s) /\
  (forall s', round ready x s = (inr true, s') -> both_closed s').
Proof.
  intros Hc Hio. unfold round. destruct (good_pre_open s Hc) as [Hpre Hsel].
  pose proof Hpre as (fds & s1 & ms & Hp1 & _ & _ & _ & Hc1).
  pose proof (good_gc s1 Hc1) as Hgc. pose proof Hgc as (freed & s2 & ms2 & Hg2 & _ & _ & _ & Hc2).
  assert (Hch : channel_pre s = (inr (fds, freed), s2)).
  { unfold channel_pre. rewrite (SE_bind_ok _ _ _ _ _ Hp1), (SE_bind_ok _ _ _ _ _ Hg2). done. }
  assert (Hgpre : good_run s (channel_pre s)).
  { unfold channel_pre. apply good_bind; [done|]. intros fds' s1' E _ _. rewrite Hp1 in E. injection E as <- <-.
    apply good_bind; [done|]. intros. by apply good_ret. }
  specialize (Hio _ _ Hch). destruct freed.
  - split.
    + apply good_bind; [done|]. intros [? ?] ? E _ _. rewrite Hch in E. injection E as <- <- <-. by apply good_ret.
    + rewrite (SE_bind_ok _ _ _ _ _ Hch). intros s' [= <-]. by apply (gc_closed s1).
  - set (fds' := mk_fdsets (meet (readset fds) (readset ready)) (meet (writeset fds) (writeset ready))).
    destruct (Hsel fds s1 fds' Hp1 (conj (meet_incl _ _) (meet_incl _ _))) as [Hr He].
    pose proof (gc_frame s1 s2 Hg2) as Hf. unfold sel_part, ext_part in Hf.
    injection Hf as F1 F2 F3 F4 F5 F6.
    assert (Hpost : good_run s2 (channel_post_open fds' x s2)).
    { apply good_post_open; try done.
      - unfold rfd_selected in *. by rewrite F1, F2, F3.
      - unfold efd_selected, ext_writes in *. by rewrite F4, F5, F6. }
    assert (Hgp : good_run s2 (channel_post fds' x s2)).
    { apply good_bind; [done|]. intros _ s3 _ Hc3 _. by apply good_gc. }
    split.
    + apply good_bind; [done|]. intros [? ?] ? E _ _. rewrite Hch in E. injection E as <- <- <-. done.
    + rewrite (SE_bind_ok _ _ _ _ _ Hch). intros s' (u & s3 & Hs3 & Hg3)%SE_bind_inv.
      destruct Hpost as (? & ? & ? & E & _ & _ & _ & Hc3). fold fds' in Hs3. rewrite Hs3 in E. injection E as <- <-.
      by apply (gc_closed s3).
Qed.

(** A channel that was freed gets no more messages. *)
Lemma freed_quiet a b : inv a b -> p_freed a = true -> out (p_st b) = [].
Proof.
  intros Hi Hf. destruct (i_freed_a _ _ Hi Hf) as [_ Hcr].
  pose proof (d_legal _ _ _ _ _ (p_yx _ _ _ _ _ _ _ _ (i_pair _ _ Hi))) as Hlg.
  rewrite Hcr in Hlg. by apply legal_closed in Hlg as [-> _].
Qed.

Lemma set_queue_id b : set_queue (out (p_st b)) b = b.
Proof. by destruct b as [[] ?]. Qed.

Lemma act_left_ok a b k :
  inv a b -> possible k a -> exists a' b', act_left k (a, b) = inr (a', b') /\ inv a' b'.
Proof.
  intros Hi Hp. unfold act_left, act. destruct (p_freed a) eqn:Hf.
  { rewrite (freed_quiet a b Hi Hf). exists a, (set_queue [] b).
    split; [by destruct k|]. rewrite <- (freed_quiet a b Hi Hf), set_queue_id. done. }
  destruct k as [ready x| |].
  - destruct (good_round (p_st a) ready x (i_a _ _ Hi) Hp) as [Hg Hd].
    pose proof Hg as (freed & s' & ms & E & _). rewrite E in *.
    destruct (inv_run a b _ freed Hi Hg) as (_ & _ & Hi').
    { intros ->. by apply Hd. }
    exists (mk_party s' freed), b. rewrite set_queue_id. done.
  - pose proof (good_poll (p_st a) (i_a _ _ Hi)) as Hg. pose proof Hg as (u & s' & ms & E & _). rewrite E in *.
    destruct (inv_run a b _ false Hi Hg) as (_ & _ & Hi'); [done|].
    exists (mk_party s' false), b. rewrite set_queue_id. done.
  - destruct (out (p_st b)) as [|m q] eqn:Hq.
    { exists a, (set_queue [] b). split; [done|]. rewrite <- Hq, set_queue_id. done. }
    pose proof (i_pair _ _ Hi) as Hpair. rewrite Hq in Hpair.
    pose proof (good_input (p_st a) m _ _ _ _ _ _ (i_a _ _ Hi) (inv_lands a b m q Hi Hq)
      (k_wmax _ (i_b _ _ Hi)) Hpair) as Hg.
    destruct (inv_recv a b m q _ Hi Hq Hg) as (s' & -> & Hi').
    exists (mk_party s' false), (set_queue q b). done.
Qed.

Lemma act_right_ok a b k :
  inv a b -> possible k b -> exists a' b', act_right k (a, b) = inr (a', b') /\ inv a' b'.
Proof.
  intros Hi Hp. destruct (act_left_ok b a k (inv_sym _ _ Hi) Hp) as (b' & a' & E & Hi').
  exists a', b'. split; [|by apply inv_sym]. unfold act_left in E. unfold act_right.
  destruct (act k b _) as [e|[b1 q]]; [done|]. by injection E as -> ->.
Qed.

Lemma reach_inv w : reach w -> inv (fst w) (snd w).
Proof.
  induction 1 as [a b Ha Hb|[a b] k w' _ IH Hp E|[a b] k w' _ IH Hp E].
  - by apply inv_open.
  - destruct (act_left_ok a b k IH Hp) as (a' & b' & E' & Hi). rewrite E in E'. by injection E' as ->.
  - destruct (act_right_ok a b k IH Hp) as (a' & b' & E' & Hi). rewrite E in E'. by injection E' as ->.
Qed.
End system_ok.

(** ** What the channel gives to the processes at its ends *)

(** Bytes come out as they went in; when the output ended because the peer's
    input ended, they are all there. *)
Definition delivers (a b : party) : Prop :=
  let sa := p_st a in let sb := p_st b in
  (exists rest, main_reads (calls sa) = main_writes (calls sb) ++ rest) /\
  (c_ostate (ch sb) = CHAN_OUTPUT_CLOSED -> has (c_flags (ch sb)) CHAN_EOF_RCVD = true ->
   has (c_flags (ch sb)) CHAN_CLOSE_SENT = false -> write_failed (calls sb) = false ->
   main_writes (calls sb) = main_reads (calls sa)).

Lemma inv_delivers a b : inv a b -> delivers a b.
Proof.
  intros Hi. pose proof (i_pair _ _ Hi) as [Hx Hy Hxy Hyx].
  destruct Hxy as [Hlg _ _ (sent & Hrd & Hs)]. simpl in Hrd, Hs, Hlg. split.
  - rewrite Hrd. destruct (_ =? 3); [destruct Hs as (lost & -> & _)|rewrite Hs];
      rewrite <- !app_assoc; eauto.
  - intros Ho Her Hcs Hwf. rewrite Ho in Hs. simpl in Hs. destruct Hs as (lost & -> & Hl).
    rewrite (Hl Hwf), app_nil_r in Hrd. rewrite Her in Hlg. apply legal_mono in Hlg as [He _].
    destruct (l_es _ _ Hx (He eq_refl)) as [_ Hbuf]. simpl in Hbuf.
    destruct (has (c_flags (ch (p_st a))) CHAN_CLOSE_RCVD) eqn:Hcr.
    + pose proof (d_legal _ _ _ _ _ Hyx) as Hlg'. simpl in Hlg'. rewrite Hcr in Hlg'.
      apply legal_closed in Hlg' as [_ [= _ Hx']]. congruence.
    + rewrite Hrd, Hbuf by done. by rewrite app_nil_r.
Qed.

(** C16: two channels opened with each other never bring their processes down:
    whatever is read, written and refused at both ends, and however late
    messages arrive, no handler reaches fatal() or disconnects (no window
    overflows, no data comes after EOF or CLOSE, no message names a channel
    that was freed). *)
Theorem channel_pair_safe `{AllocTotal, ChanEnvOk} w k :
  reach w ->
  (possible k (fst w) -> exists w', act_left k w = inr w' /\ reach w') /\
  (possible k (snd w) -> exists w', act_right k w = inr w' /\ reach w').
Proof.
  intros Hr. pose proof (reach_inv w Hr) as Hi. destruct w as [a b]. split; intros Hp.
  - destruct (act_left_ok a b k Hi Hp) as (a' & b' & E & _). exists (a', b'). split; [done|].
    by apply (reach_left (a, b) k).
  - destruct (act_right_ok a b k Hi Hp) as (a' & b' & E & _). exists (a', b'). split; [done|].
    by apply (reach_right (a, b) k).
Qed.

(** C15: What an end writes to its process is a prefix of what the other end
    read from its own, in both directions, at every moment; and when an end
    has closed its output after the peer's EOF, while it has not sent CLOSE yet
    (CHAN_CLOSE_SENT is not set) and no write has failed, it has written every
    byte. *)
Theorem channel_delivers_in_order `{AllocTotal, ChanEnvOk} a b :
  reach (a, b) -> delivers a b /\ delivers b a.
Proof.
  intros Hr. pose proof (reach_inv _ Hr) as Hi. split; apply inv_delivers; [done|by apply inv_sym].
Qed.

(** The bytes of [a] that [b] has not consumed fit the window of [b]. *)
Definition within_window (a b : party) : Prop :=
  let ca := ch (p_st a) in let cb := ch (p_st b) in
  0 <= c_remote_window ca /\
  c_remote_window ca + takes (out (p_st a)) <= c_local_window cb /\
  zlen (contents (c_output cb)) + c_local_window cb <= c_local_window_max cb /\
  Forall (fits (c_local_maxpacket cb)) (out (p_st a)).

Lemma inv_window a b : inv a b -> within_window a b.
Proof.
  intros Hi. pose proof (i_pair _ _ Hi) as [Hx Hy Hxy Hyx].
  pose proof (legal_gives _ _ _ _ (d_legal _ _ _ _ _ Hyx)) as Hg.
  destruct Hxy as [_ Hw Hf _]. destruct Hx, Hy. simpl in *. unfold within_window. zlen_facts.
  split_and!; [done|lia|lia|done].
Qed.

(** Flow control holds between the two ends: the window an end believes to
    have and the bytes under way never exceed the window of its peer, whose
    unwritten bytes stay below its maximum, and no packet is larger than the
    peer takes; so no data is ever dropped for exceeding a limit. *)
Theorem channel_flow_control `{AllocTotal, ChanEnvOk} a b :
  reach (a, b) -> within_window a b /\ within_window b a.
Proof.
  intros Hr. pose proof (reach_inv _ Hr) as Hi. split; apply inv_window; [done|by apply inv_sym].
Qed.

(** The windows, and whether a write has failed, over a failed write. *)
Lemma wfd_failed_frame `{ChanEnv, Allocator} v :
  preserves (fun s => (c_local_window (ch s), c_local_consumed (ch s)) = v) (fd_failed chan_write_failed) /\
  preserves (fun s => write_failed (calls s) = true) (fd_failed chan_write_failed).
Proof.
  set (I := fun c => (c_local_window c, c_local_consumed c) = v).
  unfold fd_failed, chan_mark_dead, chan_write_failed, chan_shutdown_write, chan_send_eow2,
    need_remote_id, chan_set_ostate, close_wfd, get, guard_or. split.
  - preserve; first [by apply (preserves_on_ch I)|by apply (preserves_syscall I)|by apply (preserves_send I)].
  - preserve; try (by apply preserves_modify).
    + apply preserves_modify. intros s Hs. simpl. by rewrite write_failed_app, Hs.
    + apply preserves_modify. intros s Hs. simpl. by rewrite write_failed_app, Hs.
    + intros s Hs. unfold send_msg. by destruct (pkt_sends _ _).
Qed.

(** The output that is thrown away when a write fails is neither given back to
    the window nor counted as consumed: the peer never gets that part of its
    window back. *)
Theorem write_failure_forgets_window `{AllocTotal, ChanEnvOk} s fd r s' :
  cok s -> c_ostate (ch s) = CHAN_OUTPUT_OPEN \/ c_ostate (ch s) = CHAN_OUTPUT_WAIT_DRAIN ->
  (_ ← syscall (CWriteFailed fd); fd_failed chan_write_failed) s = (inr r, s') ->
  contents (c_output (ch s')) = [] /\
  c_local_window (ch s') + c_local_consumed (ch s') = c_local_window (ch s) + c_local_consumed (ch s).
Proof.
  intros Hc Ho E. destruct (good_wfd_failed s fd Hc Ho) as (? & ? & ? & E' & _ & _ & _ & Hc').
  rewrite E in E'. injection E' as <- <-. rewrite syscall_bind in E.
  set (s1 := mk_st (ch s) (out s) (calls s ++ [CWriteFailed fd])) in *.
  destruct (wfd_failed_frame (c_local_window (ch s), c_local_consumed (ch s))) as [Hf1 Hf2].
  specialize (Hf1 s1 eq_refl). specialize (Hf2 s1). rewrite E in Hf1, Hf2. injection Hf1 as -> ->.
  split; [|done]. pose proof (k_local _ Hc') as Hl. apply (l_empty _ _ Hl), (l_err _ _ Hl), Hf2.
  simpl. rewrite write_failed_app. apply orb_true_r.
Qed.

(** ** Witnesses *)

#[local] Instance demo_alloc : Allocator := {| heap_alloc _ := Some 4096; page_size := 4096 |}.
#[local] Instance demo_alloc_total : AllocTotal.
Proof. intros n Hn. by exists 4096. Defined.
#[local] Instance demo_env : ChanEnv :=
  {| pkt_sends _ _ := true; input_filter := None; output_filter := None;
     detach_user := set_detach false; datafellows := SSH_NEW_OPENSSH |}.
#[local] Instance demo_env_ok : ChanEnvOk.
Proof. split; try done. intros c. by exists false. Defined.

Definition empty_buf : sshbuf :=
  mk_sshbuf (Some 4096) (Some 4096) (zfill SSHBUF_SIZE_INIT) 0 0 SSHBUF_SIZE_MAX SSHBUF_SIZE_INIT false 1 None.
(** A session of sshd, and the client's end of it. *)
Definition demo_st (usage : Z) : st :=
  mk_st (mk_channel SSH_CHANNEL_OPEN 0 true CHAN_INPUT_OPEN CHAN_OUTPUT_OPEN 0 5 6 7 (-1) false false
           empty_buf empty_buf empty_buf (64 * 32768) 32768 (64 * 32768) (64 * 32768) 0 32768
           usage (str "session") false false false) [] [].
Definition demo_a : party := mk_party (demo_st CHAN_EXTENDED_READ) false.
Definition demo_b : party := mk_party (demo_st CHAN_EXTENDED_WRITE) false.

Lemma demo_opened u u' : opened (demo_st u) (demo_st u').
Proof. split; try done; right; done. Qed.
Lemma demo_pair_reach : reach (demo_a, demo_b).
Proof. apply reach_open; apply demo_opened. Qed.

(** One end reads five bytes and sends them, the other takes and writes them. *)
Definition demo_io (d : list Z) (n : Z) : io :=
  mk_io (RData d) (WCount n) false (RError EAGAIN) (WError EAGAIN).
Definition after (r : stop + (party * party)) : party * party :=
  match r with inr w => w | inl _ => (demo_a, demo_b) end.
Definition demo_1 := after (act_left (Round (mk_fdsets [5] []) (demo_io (str "hello") 0)) (demo_a, demo_b)).
Definition demo_2 := after (act_left Poll demo_1).
Definition demo_3 := after (act_right Recv demo_2).
Definition demo_4 := after (act_right (Round (mk_fdsets [] [6]) (demo_io [] 5)) demo_3).

Lemma demo_run : reach demo_4 /\ main_writes (calls (p_st (snd demo_4))) = str "hello".
Proof.
  assert (R1 : reach demo_1).
  { apply (reach_left (demo_a, demo_b) (Round (mk_fdsets [5] []) (demo_io (str "hello") 0))); [apply demo_pair_reach| |].
    - intros fs s E. vm_compute in E. injection E as <- <-. vm_compute. done.
    - vm_compute. reflexivity. }
  assert (R2 : reach demo_2).
  { apply (reach_left demo_1 Poll); [done|done|]. vm_compute. reflexivity. }
  assert (R3 : reach demo_3).
  { apply (reach_right demo_2 Recv); [done|done|]. vm_compute. reflexivity. }
  split; [|vm_compute; reflexivity].
  apply (reach_right demo_3 (Round (mk_fdsets [] [6]) (demo_io [] 5))); [done| |vm_compute; reflexivity].
  intros fs s E. vm_compute in E. injection E as <- <-. vm_compute. done.
Qed.

Lemma channel_pair_safe_witness : exists w', act_right Poll demo_4 = inr w' /\ reach w'.
Proof. apply (channel_pair_safe demo_4 Poll); [apply demo_run|done]. Defined.
Lemma channel_delivers_in_order_witness :
  delivers (fst demo_4) (snd demo_4) /\ delivers (snd demo_4) (fst demo_4).
Proof. apply channel_delivers_in_order. rewrite <- surjective_pairing. apply demo_run. Defined.
Lemma channel_flow_control_witness :
  within_window (fst demo_4) (snd demo_4) /\ within_window (snd demo_4) (fst demo_4).
Proof. apply channel_flow_control. rewrite <- surjective_pairing. apply demo_run. Defined.
