(* ===== verification/Poly1305.v ===== *)
(** * The one-time authenticator of the transport: openssh/poly1305.c

    poly1305_auth keeps its accumulator in five 26-bit limbs, multiplies with
    64-bit products, carries only partly between blocks and reduces at the
    end without a branch.  The reference it is compared with evaluates the
    polynomial of the message in the integers modulo 2^130 - 5. *)

From stdpp Require Import list.
From S2P Require Import Prelude Sshbuf.

Definition POLY1305_KEYLEN : Z := 32.
Definition POLY1305_TAGLEN : Z := 16.

Definition mul32x32_64 (a b : Z) : Z := u64 (a * b).
Definition U8TO32_LE (p : list Z) : Z :=
  Z.lor (Z.lor (Z.lor (u_char_at p 0) (u32 (Z.shiftl (u_char_at p 1) 8)))
    (u32 (Z.shiftl (u_char_at p 2) 16))) (u32 (Z.shiftl (u_char_at p 3) 24)).
Definition U32TO8_LE (v : Z) : list Z :=
  [v mod 256; Z.shiftr v 8 mod 256; Z.shiftr v 16 mod 256; Z.shiftr v 24 mod 256].

(** The five limbs of an accumulator or of the multiplier. *)
Record limbs := L { l0 : Z; l1 : Z; l2 : Z; l3 : Z; l4 : Z }.

(** clamp key; precompute multipliers *)
Definition multipliers (key : list Z) : limbs :=
  let t0 := U8TO32_LE key in
  let t1 := U8TO32_LE (zdrop 4 key) in
  let t2 := U8TO32_LE (zdrop 8 key) in
  let t3 := U8TO32_LE (zdrop 12 key) in
  let r0 := Z.land t0 0x3ffffff in
  let t0 := Z.lor (Z.shiftr t0 26) (u32 (Z.shiftl t1 6)) in
  let r1 := Z.land t0 0x3ffff03 in
  let t1 := Z.lor (Z.shiftr t1 20) (u32 (Z.shiftl t2 12)) in
  let r2 := Z.land t1 0x3ffc0ff in
  let t2 := Z.lor (Z.shiftr t2 14) (u32 (Z.shiftl t3 18)) in
  let r3 := Z.land t2 0x3f03fff in
  let t3 := Z.shiftr t3 8 in
  let r4 := Z.land t3 0x00fffff in
  L r0 r1 r2 r3 r4.

(** A block of 16 bytes is added; [hibit] is 1 << 24 for a full block. *)
Definition add_block (m : list Z) (hibit : Z) (h : limbs) : limbs :=
  let t0 := U8TO32_LE m in
  let t1 := U8TO32_LE (zdrop 4 m) in
  let t2 := U8TO32_LE (zdrop 8 m) in
  let t3 := U8TO32_LE (zdrop 12 m) in
  let wide hi lo := Z.lor (u64 (Z.shiftl hi 32)) lo in
  L (u32 (l0 h + Z.land t0 0x3ffffff))
    (u32 (l1 h + Z.land (Z.shiftr (wide t1 t0) 26) 0x3ffffff))
    (u32 (l2 h + Z.land (Z.shiftr (wide t2 t1) 20) 0x3ffffff))
    (u32 (l3 h + Z.land (Z.shiftr (wide t3 t2) 14) 0x3ffffff))
    (u32 (l4 h + Z.lor (Z.shiftr t3 8) hibit)).

(** The chain of carries over the five sums t[0] to t[4]. *)
Definition carry_chain (t0 t1 t2 t3 t4 : Z) : limbs :=
  let h0 := Z.land (u32 t0) 0x3ffffff in
  let c := Z.shiftr t0 26 in
  let t1 := u64 (t1 + c) in
  let h1 := Z.land (u32 t1) 0x3ffffff in
  let b := u32 (Z.shiftr t1 26) in
  let t2 := u64 (t2 + b) in
  let h2 := Z.land (u32 t2) 0x3ffffff in
  let b := u32 (Z.shiftr t2 26) in
  let t3 := u64 (t3 + b) in
  let h3 := Z.land (u32 t3) 0x3ffffff in
  let b := u32 (Z.shiftr t3 26) in
  let t4 := u64 (t4 + b) in
  let h4 := Z.land (u32 t4) 0x3ffffff in
  let b := u32 (Z.shiftr t4 26) in
  let h0 := u32 (h0 + u32 (b * 5)) in
  L h0 h1 h2 h3 h4.
(** from the label poly1305_donna_mul *)
Definition donna_mul (r h : limbs) : limbs :=
  let '(L r0 r1 r2 r3 r4) := r in
  let '(L h0 h1 h2 h3 h4) := h in
  let s1 := u32 (r1 * 5) in
  let s2 := u32 (r2 * 5) in
  let s3 := u32 (r3 * 5) in
  let s4 := u32 (r4 * 5) in
  let t0 := u64 (mul32x32_64 h0 r0 + mul32x32_64 h1 s4 + mul32x32_64 h2 s3 + mul32x32_64 h3 s2 + mul32x32_64 h4 s1) in
  let t1 := u64 (mul32x32_64 h0 r1 + mul32x32_64 h1 r0 + mul32x32_64 h2 s4 + mul32x32_64 h3 s3 + mul32x32_64 h4 s2) in
  let t2 := u64 (mul32x32_64 h0 r2 + mul32x32_64 h1 r1 + mul32x32_64 h2 r0 + mul32x32_64 h3 s4 + mul32x32_64 h4 s3) in
  let t3 := u64 (mul32x32_64 h0 r3 + mul32x32_64 h1 r2 + mul32x32_64 h2 r1 + mul32x32_64 h3 r0 + mul32x32_64 h4 s4) in
  let t4 := u64 (mul32x32_64 h0 r4 + mul32x32_64 h1 r3 + mul32x32_64 h2 r2 + mul32x32_64 h3 r1 + mul32x32_64 h4 r0) in
  carry_chain t0 t1 t2 t3 t4.

(** for (j = 0; j < inlen; j++) mp[j] = m[j]; mp[j++] = 1; and zeros up to 16 *)
Definition pad_block (m : list Z) : list Z := m ++ [1] ++ zfill (15 - zlen m).

(** The gotos between poly1305_donna_16bytes and poly1305_donna_finish; a
    round takes 16 bytes or is the last one. *)
Fixpoint donna_blocks (fuel : nat) (r : limbs) (m : list Z) (h : limbs) : limbs :=
  match fuel with
  | O => h
  | S fuel' =>
      if zlen m <? 16 then
        if zlen m =? 0 then h else donna_mul r (add_block (pad_block m) 0 h)
      else donna_blocks fuel' r (zdrop 16 m) (donna_mul r (add_block (ztake 16 m) (Z.shiftl 1 24) h))
  end.

(** from the label poly1305_donna_finish: the carries *)
Definition donna_carry (h : limbs) : limbs :=
  let '(L h0 h1 h2 h3 h4) := h in
  let b := Z.shiftr h0 26 in
  let h0 := Z.land h0 0x3ffffff in
  let h1 := u32 (h1 + b) in
  let b := Z.shiftr h1 26 in
  let h1 := Z.land h1 0x3ffffff in
  let h2 := u32 (h2 + b) in
  let b := Z.shiftr h2 26 in
  let h2 := Z.land h2 0x3ffffff in
  let h3 := u32 (h3 + b) in
  let b := Z.shiftr h3 26 in
  let h3 := Z.land h3 0x3ffffff in
  let h4 := u32 (h4 + b) in
  let b := Z.shiftr h4 26 in
  let h4 := Z.land h4 0x3ffffff in
  let h0 := u32 (h0 + u32 (b * 5)) in
  let b := Z.shiftr h0 26 in
  let h0 := Z.land h0 0x3ffffff in
  let h1 := u32 (h1 + b) in
  L h0 h1 h2 h3 h4.
(** h - p when that is not negative, chosen with masks *)
Definition donna_reduce (h : limbs) : limbs :=
  let '(L h0 h1 h2 h3 h4) := h in
  let g0 := u32 (h0 + 5) in
  let b := Z.shiftr g0 26 in
  let g0 := Z.land g0 0x3ffffff in
  let g1 := u32 (h1 + b) in
  let b := Z.shiftr g1 26 in
  let g1 := Z.land g1 0x3ffffff in
  let g2 := u32 (h2 + b) in
  let b := Z.shiftr g2 26 in
  let g2 := Z.land g2 0x3ffffff in
  let g3 := u32 (h3 + b) in
  let b := Z.shiftr g3 26 in
  let g3 := Z.land g3 0x3ffffff in
  let g4 := u32 (h4 + b - Z.shiftl 1 26) in
  let b := u32 (Z.shiftr g4 31 - 1) in
  let nb := u32 (Z.lnot b) in
  let pick x y := Z.lor (Z.land x nb) (Z.land y b) in
  L (pick h0 g0) (pick h1 g1) (pick h2 g2) (pick h3 g3) (pick h4 g4).
(** The tag: the low 128 bits, with the second half of the key added. *)
Definition donna_tag (key : list Z) (h : limbs) : list Z :=
  let '(L h0 h1 h2 h3 h4) := h in
  let f0 := u64 (Z.lor h0 (u32 (Z.shiftl h1 26)) + U8TO32_LE (zdrop 16 key)) in
  let f1 := u64 (Z.lor (Z.shiftr h1 6) (u32 (Z.shiftl h2 20)) + U8TO32_LE (zdrop 20 key)) in
  let f2 := u64 (Z.lor (Z.shiftr h2 12) (u32 (Z.shiftl h3 14)) + U8TO32_LE (zdrop 24 key)) in
  let f3 := u64 (Z.lor (Z.shiftr h3 18) (u32 (Z.shiftl h4 8)) + U8TO32_LE (zdrop 28 key)) in
  let f1 := u64 (f1 + Z.shiftr f0 32) in
  let f2 := u64 (f2 + Z.shiftr f1 32) in
  let f3 := u64 (f3 + Z.shiftr f2 32) in
  U32TO8_LE f0 ++ U32TO8_LE f1 ++ U32TO8_LE f2 ++ U32TO8_LE f3.

Definition poly1305_auth (m key : list Z) : list Z :=
  let h := donna_blocks (S (length m)) (multipliers key) m (L 0 0 0 0 0) in
  donna_tag key (donna_reduce (donna_carry h)).

(** ** The reference *)

Fixpoint le_val (bytes : list Z) : Z := match bytes with [] => 0 | b :: bs => b + 256 * le_val bs end.
Fixpoint le_bytes (n : nat) (v : Z) : list Z :=
  match n with O => [] | S n' => v mod 256 :: le_bytes n' (v / 256) end.

Definition prime : Z := 2 ^ 130 - 5.
Definition clamp (r : Z) : Z := Z.land r 0x0ffffffc0ffffffc0ffffffc0fffffff.
(** Every block of at most 16 bytes gets a 1 behind it. *)
Fixpoint poly_eval (fuel : nat) (r : Z) (m : list Z) (acc : Z) : Z :=
  match fuel, m with
  | S fuel', _ :: _ => poly_eval fuel' r (zdrop 16 m) ((acc + le_val (ztake 16 m ++ [1])) * r mod prime)
  | _, _ => acc
  end.
Definition poly1305 (m key : list Z) : list Z :=
  let r := clamp (le_val (ztake 16 key)) in
  let s := le_val (zslice 16 16 key) in
  le_bytes 16 (poly_eval (S (length m)) r m 0 + s).

(** ** Words and limbs as numbers *)

Lemma land_limb x : Z.land x 0x3ffffff = x mod 2 ^ 26.
Proof. apply (Z.land_ones x 26). lia. Qed.
Lemma shiftr_div x n : 0 <= n -> Z.shiftr x n = x / 2 ^ n.
Proof. apply Z.shiftr_div_pow2. Qed.

Lemma le_val_app a b : le_val (a ++ b) = le_val a + 2 ^ (8 * zlen a) * le_val b.
Proof.
  induction a as [|x a IH]; cbn [app le_val]; [change (zlen (@nil Z)) with 0; lia|].
  rewrite IH, zlen_cons. zlen_facts. replace (8 * (1 + zlen a)) with (8 + 8 * zlen a) by lia. rewrite Z.pow_add_r by lia. lia.
Qed.
Lemma le_val_range a : Forall is_u8 a -> 0 <= le_val a < 2 ^ (8 * zlen a).
Proof.
  induction 1 as [|x a Hx _ IH]; [done|]. cbn [le_val]. rewrite zlen_cons. zlen_facts. unfold is_u8 in Hx.
  replace (8 * (1 + zlen a)) with (8 + 8 * zlen a) by lia. rewrite Z.pow_add_r by lia. lia.
Qed.
Lemma u32_shiftl x n : 0 <= x < 256 -> 0 <= n <= 24 -> u32 (Z.shiftl x n) = Z.shiftl x n.
Proof.
  intros Hx Hn. apply u32_id. rewrite Z.shiftl_mul_pow2 by lia.
  assert (2 ^ n <= 2 ^ 24) by (apply Z.pow_le_mono_r; lia). pose proof (Z.pow_pos_nonneg 2 n). nia.
Qed.
Lemma word_val a b c d :
  is_u8 a -> is_u8 b -> is_u8 c -> is_u8 d ->
  Z.lor (Z.lor (Z.lor a (u32 (Z.shiftl b 8))) (u32 (Z.shiftl c 16))) (u32 (Z.shiftl d 24)) = le_val [a; b; c; d].
Proof.
  unfold is_u8. intros Ha Hb Hc Hd. rewrite !u32_shiftl by lia. cbn [le_val].
  rewrite (Z.lor_comm a), (lor_shiftl_add b a 8) by lia.
  rewrite (Z.lor_comm (_ + _) (Z.shiftl c 16)), (lor_shiftl_add c) by lia.
  rewrite (Z.lor_comm (_ + _) (Z.shiftl d 24)), (lor_shiftl_add d) by lia. lia.
Qed.
(** Four bytes at an offset of a byte string. *)
Lemma U8TO32_LE_val k (m : list Z) :
  Forall is_u8 m -> 0 <= k -> k + 4 <= zlen m -> U8TO32_LE (zdrop k m) = le_val (zslice k 4 m).
Proof.
  intros Hm Hk Hl. unfold zslice. assert (Hz : 4 <= zlen (zdrop k m)) by (rewrite zlen_zdrop; lia).
  pose proof (Forall_zdrop _ k _ Hm) as Hf. destruct (zdrop k m) as [|a [|b [|c [|d p]]]]; try (rewrite ?zlen_cons in Hz; change (zlen (@nil Z)) with 0 in Hz; lia).
  rewrite !Forall_cons in Hf. destruct Hf as (Ha & Hb & Hc & Hd & _). unfold U8TO32_LE, u_char_at.
  change (znth (a :: b :: c :: d :: p) 0) with a. change (znth (a :: b :: c :: d :: p) 1) with b.
  change (znth (a :: b :: c :: d :: p) 2) with c. change (znth (a :: b :: c :: d :: p) 3) with d.
  unfold is_u8 in *. rewrite !u8_id by lia. by apply word_val.
Qed.
Lemma zslice_val_range k n (m : list Z) :
  Forall is_u8 m -> 0 <= k -> 0 <= n -> k + n <= zlen m -> 0 <= le_val (zslice k n m) < 2 ^ (8 * n).
Proof.
  intros Hm Hk Hn Hl. pose proof (le_val_range (zslice k n m) ltac:(by apply Forall_ztake, Forall_zdrop)) as Hr.
  by rewrite zlen_zslice in Hr.
Qed.
Lemma le_val_slice k n (m : list Z) :
  0 <= k -> 0 <= n -> k + n <= zlen m -> le_val (zdrop k m) = le_val (zslice k n m) + 2 ^ (8 * n) * le_val (zdrop (k + n) m).
Proof.
  intros Hk Hn Hl. rewrite <- (ztake_zdrop n (zdrop k m)) at 1. rewrite le_val_app, zdrop_zdrop by lia.
  change (ztake n (zdrop k m)) with (zslice k n m). by rewrite zlen_zslice by lia.
Qed.
(** The number of 16 bytes by its four words. *)
Lemma le_val_words (m : list Z) k :
  0 <= k -> k + 16 <= zlen m ->
  le_val (zslice k 16 m) = le_val (zslice k 4 m) + 2 ^ 32 * le_val (zslice (k + 4) 4 m) +
    2 ^ 64 * le_val (zslice (k + 8) 4 m) + 2 ^ 96 * le_val (zslice (k + 12) 4 m).
Proof.
  intros Hk Hl. pose proof (le_val_slice k 16 m ltac:(lia) ltac:(lia) ltac:(lia)) as Hw.
  rewrite (le_val_slice k 4), (le_val_slice (k + 4) 4), (le_val_slice (k + 4 + 4) 4), (le_val_slice (k + 4 + 4 + 4) 4) in Hw by lia.
  replace (k + 4 + 4 + 4 + 4) with (k + 16) in Hw by lia. replace (k + 4 + 4 + 4) with (k + 12) in Hw by lia.
  replace (k + 4 + 4) with (k + 8) in Hw by lia. lia.
Qed.

(** ** Values of limbs *)

Definition val (h : limbs) : Z := l0 h + 2 ^ 26 * l1 h + 2 ^ 52 * l2 h + 2 ^ 78 * l3 h + 2 ^ 104 * l4 h.
(** The bits of two words from bit [k] of the lower one on. *)
Lemma wide_limb hi lo k :
  0 <= hi < 2 ^ 32 -> 0 <= lo < 2 ^ 32 -> 6 <= k <= 26 ->
  Z.land (Z.shiftr (Z.lor (u64 (Z.shiftl hi 32)) lo) k) 0x3ffffff = lo / 2 ^ k + 2 ^ (32 - k) * (hi mod 2 ^ (k - 6)).
Proof.
  intros Hh Hl Hk. rewrite land_limb, shiftr_div, u64_id, lor_shiftl_add by (rewrite ?Z.shiftl_mul_pow2; lia).
  replace (hi * 2 ^ 32) with (hi * 2 ^ (32 - k) * 2 ^ k) by (rewrite <- Z.mul_assoc, <- Z.pow_add_r by lia; f_equal; f_equal; lia).
  rewrite Z.div_add_l by lia.
  assert (Hq : 0 <= lo / 2 ^ k < 2 ^ (32 - k)).
  { split; [apply Z.div_pos; lia|]. apply Z.div_lt_upper_bound; [lia|]. rewrite <- Z.pow_add_r by lia. replace (k + (32 - k)) with 32 by lia. lia. }
  rewrite (Z.div_mod hi (2 ^ (k - 6))) at 1 by lia.
  pose proof (Z.mod_pos_bound hi (2 ^ (k - 6)) ltac:(lia)) as Hm.
  set (q := hi / 2 ^ (k - 6)). set (r := hi mod 2 ^ (k - 6)) in *.
  assert (Hp : 2 ^ (k - 6) * 2 ^ (32 - k) = 2 ^ 26) by (rewrite <- Z.pow_add_r by lia; f_equal; lia).
  replace ((2 ^ (k - 6) * q + r) * 2 ^ (32 - k) + lo / 2 ^ k) with (lo / 2 ^ k + 2 ^ (32 - k) * r + q * 2 ^ 26) by (rewrite <- Hp; ring).
  rewrite Z.mod_add by lia. apply Z.mod_small. nia.
Qed.
(** The limbs of four words. *)
Lemma limbs_of_words t0 t1 t2 t3 :
  0 <= t0 < 2 ^ 32 -> 0 <= t1 < 2 ^ 32 -> 0 <= t2 < 2 ^ 32 -> 0 <= t3 < 2 ^ 32 ->
  t0 mod 2 ^ 26 + 2 ^ 26 * (t0 / 2 ^ 26 + 2 ^ 6 * (t1 mod 2 ^ 20)) + 2 ^ 52 * (t1 / 2 ^ 20 + 2 ^ 12 * (t2 mod 2 ^ 14)) +
    2 ^ 78 * (t2 / 2 ^ 14 + 2 ^ 18 * (t3 mod 2 ^ 8)) + 2 ^ 104 * (t3 / 2 ^ 8) =
  t0 + 2 ^ 32 * t1 + 2 ^ 64 * t2 + 2 ^ 96 * t3.
Proof.
  intros _ _ _ _. pose proof (Z.div_mod t0 (2 ^ 26)). pose proof (Z.div_mod t1 (2 ^ 20)).
  pose proof (Z.div_mod t2 (2 ^ 14)). pose proof (Z.div_mod t3 (2 ^ 8)). lia.
Qed.

(** Between blocks: the lowest limb keeps the carry of the others. *)
Definition bounded (h : limbs) : Prop :=
  0 <= l0 h <= 42 * 2 ^ 26 /\ 0 <= l1 h < 2 ^ 26 /\ 0 <= l2 h < 2 ^ 26 /\ 0 <= l3 h < 2 ^ 26 /\ 0 <= l4 h < 2 ^ 26.
(** With a block added. *)
Definition loaded (h : limbs) : Prop :=
  0 <= l0 h <= 43 * 2 ^ 26 /\ 0 <= l1 h <= 2 * 2 ^ 26 /\ 0 <= l2 h <= 2 * 2 ^ 26 /\ 0 <= l3 h <= 2 * 2 ^ 26 /\
  0 <= l4 h <= 3 * 2 ^ 25.
(** The clamped multiplier. *)
Definition clamped (r : limbs) : Prop :=
  0 <= l0 r < 2 ^ 26 /\ 0 <= l1 r < 2 ^ 26 /\ 0 <= l2 r < 2 ^ 26 /\ 0 <= l3 r <= 0x3f03fff /\ 0 <= l4 r < 2 ^ 20.

Lemma add_block_ok m hibit h :
  Forall is_u8 m -> zlen m = 16 -> hibit = 0 \/ hibit = 2 ^ 24 -> bounded h ->
  loaded (add_block m hibit h) /\ val (add_block m hibit h) = val h + le_val m + 2 ^ 104 * hibit.
Proof.
  intros Hm Hl Hb (H0 & H1 & H2 & H3 & H4). pose proof (le_val_words m 0 ltac:(lia) ltac:(lia)) as Hw.
  assert (Hs : zslice 0 16 m = m) by (unfold zslice; rewrite zdrop_0 by lia; apply ztake_all; lia). rewrite Hs in Hw.
  assert (W0 : U8TO32_LE m = le_val (zslice 0 4 m)) by (rewrite <- U8TO32_LE_val, zdrop_0 by (done || lia); done).
  unfold add_block. rewrite W0, !U8TO32_LE_val by (done || lia).
  change (0 + 4) with 4 in Hw. change (0 + 8) with 8 in Hw. change (0 + 12) with 12 in Hw.
  pose proof (zslice_val_range 0 4 m Hm ltac:(lia) ltac:(lia) ltac:(lia)) as R0.
  pose proof (zslice_val_range 4 4 m Hm ltac:(lia) ltac:(lia) ltac:(lia)) as R1.
  pose proof (zslice_val_range 8 4 m Hm ltac:(lia) ltac:(lia) ltac:(lia)) as R2.
  pose proof (zslice_val_range 12 4 m Hm ltac:(lia) ltac:(lia) ltac:(lia)) as R3.
  revert Hw R0 R1 R2 R3. generalize (le_val (zslice 0 4 m)), (le_val (zslice 4 4 m)), (le_val (zslice 8 4 m)), (le_val (zslice 12 4 m)).
  change (8 * 4) with 32. intros t0 t1 t2 t3 Hw R0 R1 R2 R3. rewrite Hw. clear Hw Hs Hm Hl.
  pose proof (limbs_of_words t0 t1 t2 t3 R0 R1 R2 R3) as Hv.
  rewrite !wide_limb, land_limb, shiftr_div by lia.
  change (2 ^ (32 - 26)) with (2 ^ 6). change (2 ^ (32 - 20)) with (2 ^ 12). change (2 ^ (32 - 14)) with (2 ^ 18).
  change (2 ^ (26 - 6)) with (2 ^ 20). change (2 ^ (20 - 6)) with (2 ^ 14). change (2 ^ (14 - 6)) with (2 ^ 8).
  assert (Hlor : Z.lor (t3 / 2 ^ 8) hibit = t3 / 2 ^ 8 + hibit).
  { destruct Hb as [->| ->]; [by rewrite Z.lor_0_r, Z.add_0_r|]. rewrite Z.lor_comm. change (2 ^ 24) with (Z.shiftl 1 24).
    rewrite lor_shiftl_add; [|lia|]; [|split; [apply Z.div_pos; lia|apply Z.div_lt_upper_bound; lia]]. rewrite Z.shiftl_mul_pow2; lia. }
  rewrite Hlor.
  assert (B0 : 0 <= t0 mod 2 ^ 26 < 2 ^ 26) by (apply Z.mod_pos_bound; lia).
  assert (forall t k, 0 <= t < 2 ^ 32 -> 0 <= k <= 32 -> 0 <= t / 2 ^ k < 2 ^ (32 - k)) as Hdiv.
  { intros t k Ht Hk. split; [apply Z.div_pos; lia|]. apply Z.div_lt_upper_bound; [lia|]. rewrite <- Z.pow_add_r by lia.
    replace (k + (32 - k)) with 32 by lia. lia. }
  pose proof (Hdiv t0 26 R0 ltac:(lia)) as D0. pose proof (Hdiv t1 20 R1 ltac:(lia)) as D1.
  pose proof (Hdiv t2 14 R2 ltac:(lia)) as D2. pose proof (Hdiv t3 8 R3 ltac:(lia)) as D3.
  pose proof (Z.mod_pos_bound t1 (2 ^ 20) ltac:(lia)) as E1. pose proof (Z.mod_pos_bound t2 (2 ^ 14) ltac:(lia)) as E2.
  pose proof (Z.mod_pos_bound t3 (2 ^ 8) ltac:(lia)) as E3.
  change (32 - 26) with 6 in D0. change (32 - 20) with 12 in D1. change (32 - 14) with 18 in D2. change (32 - 8) with 24 in D3.
  rewrite !u32_id by (destruct Hb; lia). unfold loaded, val. cbn [l0 l1 l2 l3 l4].
  split; [destruct Hb; lia|]. rewrite <- Hv. ring.
Qed.

(** ** Multiplication *)

Lemma mul_le a b A B : 0 <= a <= A -> 0 <= b <= B -> 0 <= a * b <= A * B.
Proof. intros. split; [apply Z.mul_nonneg_nonneg; lia|apply Z.mul_le_mono_nonneg; lia]. Qed.
(** A carry: the limb and what goes to the next one. *)
Lemma carry_ok t : 0 <= t < 2 ^ 64 -> Z.land (u32 t) 0x3ffffff + 2 ^ 26 * Z.shiftr t 26 = t /\ 0 <= Z.land (u32 t) 0x3ffffff < 2 ^ 26.
Proof.
  intros Ht. rewrite land_limb, shiftr_div by lia. unfold u32.
  replace (t mod 2 ^ 32 mod 2 ^ 26) with (t mod 2 ^ 26).
  - pose proof (Z.div_mod t (2 ^ 26)). pose proof (Z.mod_pos_bound t (2 ^ 26)). lia.
  - change (2 ^ 32) with (2 ^ 26 * 2 ^ 6). rewrite Z.rem_mul_r by lia.
    rewrite (Z.mul_comm (2 ^ 26)), Z.mod_add, Z.mod_mod by lia. done.
Qed.
(** The five sums are the product modulo the prime: 2^130 is 5. *)
Lemma product_mod r0 r1 r2 r3 r4 h0 h1 h2 h3 h4 :
  val (L h0 h1 h2 h3 h4) * val (L r0 r1 r2 r3 r4) =
  (h0 * r0 + h1 * (r4 * 5) + h2 * (r3 * 5) + h3 * (r2 * 5) + h4 * (r1 * 5)) +
  2 ^ 26 * (h0 * r1 + h1 * r0 + h2 * (r4 * 5) + h3 * (r3 * 5) + h4 * (r2 * 5)) +
  2 ^ 52 * (h0 * r2 + h1 * r1 + h2 * r0 + h3 * (r4 * 5) + h4 * (r3 * 5)) +
  2 ^ 78 * (h0 * r3 + h1 * r2 + h2 * r1 + h3 * r0 + h4 * (r4 * 5)) +
  2 ^ 104 * (h0 * r4 + h1 * r3 + h2 * r2 + h3 * r1 + h4 * r0) +
  prime * ((h1 * r4 + h2 * r3 + h3 * r2 + h4 * r1) + 2 ^ 26 * (h2 * r4 + h3 * r3 + h4 * r2) +
           2 ^ 52 * (h3 * r4 + h4 * r3) + 2 ^ 78 * (h4 * r4)).
Proof. unfold val, prime. cbn [l0 l1 l2 l3 l4]. ring. Qed.

(** A sum of five products that fits 64 bits. *)
Lemma dot5 a1 b1 a2 b2 a3 b3 a4 b4 a5 b5 A1 B1 A2 B2 A3 B3 A4 B4 A5 B5 :
  0 <= a1 <= A1 -> 0 <= b1 <= B1 -> 0 <= a2 <= A2 -> 0 <= b2 <= B2 -> 0 <= a3 <= A3 -> 0 <= b3 <= B3 ->
  0 <= a4 <= A4 -> 0 <= b4 <= B4 -> 0 <= a5 <= A5 -> 0 <= b5 <= B5 ->
  A1 * B1 + A2 * B2 + A3 * B3 + A4 * B4 + A5 * B5 < 2 ^ 64 ->
  u64 (mul32x32_64 a1 b1 + mul32x32_64 a2 b2 + mul32x32_64 a3 b3 + mul32x32_64 a4 b4 + mul32x32_64 a5 b5) =
    a1 * b1 + a2 * b2 + a3 * b3 + a4 * b4 + a5 * b5 /\
  0 <= a1 * b1 + a2 * b2 + a3 * b3 + a4 * b4 + a5 * b5 <= A1 * B1 + A2 * B2 + A3 * B3 + A4 * B4 + A5 * B5.
Proof.
  intros Ha1 Hb1 Ha2 Hb2 Ha3 Hb3 Ha4 Hb4 Ha5 Hb5 Hs. unfold mul32x32_64.
  pose proof (mul_le _ _ _ _ Ha1 Hb1). pose proof (mul_le _ _ _ _ Ha2 Hb2). pose proof (mul_le _ _ _ _ Ha3 Hb3).
  pose proof (mul_le _ _ _ _ Ha4 Hb4). pose proof (mul_le _ _ _ _ Ha5 Hb5). clear Ha1 Hb1 Ha2 Hb2 Ha3 Hb3 Ha4 Hb4 Ha5 Hb5.
  rewrite !(u64_id (_ * _)) by lia. rewrite u64_id by lia. lia.
Qed.

(** One step of the chain of carries. *)
Lemma carry_step t c :
  0 <= t -> 0 <= c -> t + c < 2 ^ 58 ->
  exists h b, Z.land (u32 (u64 (t + c))) 0x3ffffff = h /\ u32 (Z.shiftr (u64 (t + c)) 26) = b /\
    h + 2 ^ 26 * b = t + c /\ 0 <= h < 2 ^ 26 /\ 0 <= b.
Proof.
  intros Ht Hc Hs. rewrite (u64_id (t + c)) by lia. destruct (carry_ok (t + c)) as [He Hr]; [lia|].
  exists (Z.land (u32 (t + c)) 0x3ffffff), (Z.shiftr (t + c) 26).
  rewrite (u32_id (Z.shiftr (t + c) 26)) by lia. repeat split; lia.
Qed.
Lemma carry_chain_ok t0 t1 t2 t3 t4 :
  0 <= t0 < 2 ^ 59 -> 0 <= t1 < 126 * 2 ^ 51 -> 0 <= t2 < 126 * 2 ^ 51 -> 0 <= t3 < 126 * 2 ^ 51 ->
  0 <= t4 < 131 * 2 ^ 48 ->
  bounded (carry_chain t0 t1 t2 t3 t4) /\
  exists k, t0 + 2 ^ 26 * t1 + 2 ^ 52 * t2 + 2 ^ 78 * t3 + 2 ^ 104 * t4 = val (carry_chain t0 t1 t2 t3 t4) + k * prime.
Proof.
  intros H0 H1 H2 H3 H4. unfold carry_chain. destruct (carry_ok t0) as [E0 R0]; [lia|].
  revert E0 R0. generalize (Z.land (u32 t0) 0x3ffffff), (Z.shiftr t0 26). intros h0 c E0 R0.
  destruct (carry_step t1 c) as (h1 & b1 & E1 & B1 & S1 & R1 & N1); [lia..|]. rewrite E1, B1. clear E1 B1.
  destruct (carry_step t2 b1) as (h2 & b2 & E2 & B2 & S2 & R2 & N2); [lia..|]. rewrite E2, B2. clear E2 B2.
  destruct (carry_step t3 b2) as (h3 & b3 & E3 & B3 & S3 & R3 & N3); [lia..|]. rewrite E3, B3. clear E3 B3.
  destruct (carry_step t4 b3) as (h4 & b4 & E4 & B4 & S4 & R4 & N4); [lia..|]. rewrite E4, B4. clear E4 B4.
  rewrite (u32_id (b4 * 5)), u32_id by lia. unfold bounded, val, prime. cbn [l0 l1 l2 l3 l4].
  split; [lia|]. exists b4. lia.
Qed.

(** Every product and sum fits its 64 bits, every carry but the first its 32
    bits, and the accumulator is bounded again. *)
Lemma donna_mul_ok r h :
  clamped r -> loaded h ->
  bounded (donna_mul r h) /\ exists k, val (donna_mul r h) = val h * val r - k * prime.
Proof.
  destruct r as [r0 r1 r2 r3 r4], h as [h0 h1 h2 h3 h4]. unfold clamped, loaded. cbn [l0 l1 l2 l3 l4].
  intros (R0 & R1 & R2 & R3 & R4) (H0 & H1 & H2 & H3 & H4). rewrite product_mod. unfold donna_mul.
  rewrite !(u32_id (_ * 5)) by lia.
  destruct (dot5 h0 r0 h1 (r4 * 5) h2 (r3 * 5) h3 (r2 * 5) h4 (r1 * 5) (43 * 2 ^ 26) (2 ^ 26) (2 * 2 ^ 26) (5 * 2 ^ 20)
    (2 * 2 ^ 26) (5 * 0x3f03fff) (2 * 2 ^ 26) (5 * 2 ^ 26) (3 * 2 ^ 25) (5 * 2 ^ 26)) as [-> T0]; [lia..|].
  destruct (dot5 h0 r1 h1 r0 h2 (r4 * 5) h3 (r3 * 5) h4 (r2 * 5) (43 * 2 ^ 26) (2 ^ 26) (2 * 2 ^ 26) (2 ^ 26)
    (2 * 2 ^ 26) (5 * 2 ^ 20) (2 * 2 ^ 26) (5 * 0x3f03fff) (3 * 2 ^ 25) (5 * 2 ^ 26)) as [-> T1]; [lia..|].
  destruct (dot5 h0 r2 h1 r1 h2 r0 h3 (r4 * 5) h4 (r3 * 5) (43 * 2 ^ 26) (2 ^ 26) (2 * 2 ^ 26) (2 ^ 26)
    (2 * 2 ^ 26) (2 ^ 26) (2 * 2 ^ 26) (5 * 2 ^ 20) (3 * 2 ^ 25) (5 * 0x3f03fff)) as [-> T2]; [lia..|].
  destruct (dot5 h0 r3 h1 r2 h2 r1 h3 r0 h4 (r4 * 5) (43 * 2 ^ 26) (2 ^ 26) (2 * 2 ^ 26) (2 ^ 26)
    (2 * 2 ^ 26) (2 ^ 26) (2 * 2 ^ 26) (2 ^ 26) (3 * 2 ^ 25) (5 * 2 ^ 20)) as [-> T3]; [lia..|].
  destruct (dot5 h0 r4 h1 r3 h2 r2 h3 r1 h4 r0 (43 * 2 ^ 26) (2 ^ 20) (2 * 2 ^ 26) 0x3f03fff
    (2 * 2 ^ 26) (2 ^ 26) (2 * 2 ^ 26) (2 ^ 26) (3 * 2 ^ 25) (2 ^ 26)) as [-> T4]; [lia..|].
  destruct (carry_chain_ok
    (h0 * r0 + h1 * (r4 * 5) + h2 * (r3 * 5) + h3 * (r2 * 5) + h4 * (r1 * 5))
    (h0 * r1 + h1 * r0 + h2 * (r4 * 5) + h3 * (r3 * 5) + h4 * (r2 * 5))
    (h0 * r2 + h1 * r1 + h2 * r0 + h3 * (r4 * 5) + h4 * (r3 * 5))
    (h0 * r3 + h1 * r2 + h2 * r1 + h3 * r0 + h4 * (r4 * 5))
    (h0 * r4 + h1 * r3 + h2 * r2 + h3 * r1 + h4 * r0)) as [Hb [k Hk]]; [lia..|].
  split; [exact Hb|]. rewrite Hk. lazymatch goal with |- context [prime * ?K] => exists (k + K) end. ring.
Qed.

(** ** Blocks *)

Lemma prime_pos : 0 < prime.
Proof. done. Qed.
Lemma poly_step r h v :
  clamped r -> loaded h -> v mod prime = val h mod prime ->
  bounded (donna_mul r h) /\ val (donna_mul r h) mod prime = v * val r mod prime.
Proof.
  intros Hr Hh Hv. destruct (donna_mul_ok r h Hr Hh) as [Hb [k Hk]]. split; [done|].
  rewrite Hk, <- Z.add_opp_r, <- Z.mul_opp_l, Z.mod_add by done. rewrite Z.mul_mod, <- Hv, <- Z.mul_mod by done. done.
Qed.
Lemma le_val_zfill n : le_val (zfill n) = 0.
Proof. unfold zfill. induction (Z.to_nat n) as [|k IH]; [done|]. cbn [replicate le_val]. by rewrite IH. Qed.
Lemma mod_add_same a b c n : n <> 0 -> a mod n = b mod n -> (a + c) mod n = (b + c) mod n.
Proof. intros Hn E. by rewrite Z.add_mod, E, <- Z.add_mod. Qed.
Lemma block_step r m hibit h acc v :
  clamped r -> Forall is_u8 m -> zlen m = 16 -> hibit = 0 \/ hibit = 2 ^ 24 -> bounded h -> acc mod prime = val h mod prime ->
  v = le_val m + 2 ^ 104 * hibit ->
  bounded (donna_mul r (add_block m hibit h)) /\
  (acc + v) * val r mod prime = val (donna_mul r (add_block m hibit h)) mod prime.
Proof.
  intros Hr Hm Hl Hb Hh Ha ->. destruct (add_block_ok m hibit h Hm Hl Hb Hh) as [Hload Hval].
  destruct (poly_step r (add_block m hibit h) (acc + (le_val m + 2 ^ 104 * hibit)) Hr Hload) as [Hb' E]; [|done].
  rewrite Hval, <- Z.add_assoc. by apply mod_add_same.
Qed.
Lemma donna_blocks_ok fuel r m h acc :
  clamped r -> Forall is_u8 m -> (length m < fuel)%nat -> bounded h -> acc mod prime = val h mod prime -> 0 <= acc < prime ->
  bounded (donna_blocks fuel r m h) /\
  poly_eval fuel (val r) m acc = val (donna_blocks fuel r m h) mod prime.
Proof.
  intros Hr. revert m h acc. induction fuel as [|fuel IH]; intros m h acc Hm Hf Hh Ha Hacc; [lia|].
  cbn [donna_blocks]. destruct (Z.ltb_spec (zlen m) 16) as [Hlt|Hge].
  - destruct (Z.eqb_spec (zlen m) 0) as [Hz|Hz].
    + rewrite (zlen_0_nil _ Hz). cbn [poly_eval]. split; [done|]. rewrite <- Ha. by rewrite Z.mod_small.
    + zlen_facts. assert (Hp : zlen (pad_block m) = 16).
      { unfold pad_block. rewrite !zlen_app, zlen_zfill by lia. change (zlen [1]) with 1. lia. }
      assert (Hv : le_val (ztake 16 m ++ [1]) = le_val (pad_block m) + 2 ^ 104 * 0).
      { rewrite ztake_all by lia. unfold pad_block. rewrite (app_assoc m), (le_val_app (m ++ [1])), le_val_zfill. lia. }
      assert (Hf8 : Forall is_u8 (pad_block m)).
      { unfold pad_block. rewrite !Forall_app. split; [done|]. split; [by repeat constructor|apply Forall_zfill]. }
      destruct (block_step r (pad_block m) 0 h acc _ Hr Hf8 Hp (or_introl eq_refl) Hh Ha Hv) as [Hb E].
      split; [done|]. destruct m as [|x m]; [done|]. cbn [poly_eval]. rewrite zdrop_all by lia.
      assert (Hn : forall f a, poly_eval f (val r) [] a = a) by (intros [|f] a; done). rewrite Hn. exact E.
  - assert (Ht : zlen (ztake 16 m) = 16) by (apply zlen_ztake; lia).
    assert (Hv : le_val (ztake 16 m ++ [1]) = le_val (ztake 16 m) + 2 ^ 104 * 2 ^ 24).
    { rewrite le_val_app, Ht. cbn [le_val]. lia. }
    destruct (block_step r (ztake 16 m) (2 ^ 24) h acc _ Hr (Forall_ztake _ 16 m Hm) Ht (or_intror eq_refl) Hh Ha Hv) as [Hb E].
    change (Z.shiftl 1 24) with (2 ^ 24).
    destruct m as [|x m]; [change (zlen (@nil Z)) with 0 in Hge; lia|]. cbn [poly_eval].
    apply IH; [by apply Forall_zdrop| |done| |].
    + unfold zdrop. rewrite length_drop. change (Z.to_nat 16) with 16%nat. cbn [length] in *. lia.
    + rewrite Z.mod_mod by done. exact E.
    + apply Z.mod_pos_bound. done.
Qed.

(** ** The end *)

Definition reduced (h : limbs) : Prop :=
  0 <= l0 h < 2 ^ 26 /\ 0 <= l1 h < 2 ^ 26 /\ 0 <= l2 h < 2 ^ 26 /\ 0 <= l3 h < 2 ^ 26 /\ 0 <= l4 h < 2 ^ 26.

Lemma split_limb x : exists h b, Z.land x 0x3ffffff = h /\ Z.shiftr x 26 = b /\ h + 2 ^ 26 * b = x /\ 0 <= h < 2 ^ 26.
Proof.
  exists (x mod 2 ^ 26), (x / 2 ^ 26). rewrite land_limb, shiftr_div by lia.
  pose proof (Z.div_mod x (2 ^ 26)). pose proof (Z.mod_pos_bound x (2 ^ 26)). lia.
Qed.
(** Names for the two parts of the sum [x]. *)
Ltac split_sum x h b :=
  let E := fresh in let F := fresh in let S := fresh "S" in let R := fresh "R" in
  destruct (split_limb x) as (h & b & E & F & S & R); rewrite ?E, ?F; clear E F.

Lemma donna_carry_ok h :
  bounded h -> reduced (donna_carry h) /\ val (donna_carry h) mod prime = val h mod prime.
Proof.
  destruct h as [h0 h1 h2 h3 h4]. unfold bounded. cbn [l0 l1 l2 l3 l4]. intros (H0 & H1 & H2 & H3 & H4). unfold donna_carry.
  split_sum h0 g0 b0. rewrite (u32_id (h1 + b0)) by lia. split_sum (h1 + b0) g1 b1.
  rewrite (u32_id (h2 + b1)) by lia. split_sum (h2 + b1) g2 b2. rewrite (u32_id (h3 + b2)) by lia. split_sum (h3 + b2) g3 b3.
  rewrite (u32_id (h4 + b3)) by lia. split_sum (h4 + b3) g4 b4. rewrite (u32_id (b4 * 5)), (u32_id (g0 + b4 * 5)) by lia.
  split_sum (g0 + b4 * 5) f0 b5. rewrite (u32_id (g1 + b5)) by lia. unfold reduced, val. cbn [l0 l1 l2 l3 l4].
  assert (Hb4 : 0 <= b4 <= 1) by lia. split; [lia|].
  replace (h0 + 2 ^ 26 * h1 + 2 ^ 52 * h2 + 2 ^ 78 * h3 + 2 ^ 104 * h4)
    with (f0 + 2 ^ 26 * (g1 + b5) + 2 ^ 52 * g2 + 2 ^ 78 * g3 + 2 ^ 104 * g4 + b4 * prime) by (unfold prime; lia).
  by rewrite Z.mod_add.
Qed.

Lemma val_range h : reduced h -> 0 <= val h < 2 ^ 130.
Proof. unfold reduced, val. lia. Qed.
(** A mask of ones or of zeros chooses. *)
Lemma land_ones32 x : 0 <= x < 2 ^ 32 -> Z.land x (2 ^ 32 - 1) = x.
Proof. intros Hx. change (2 ^ 32 - 1) with (Z.ones 32). rewrite Z.land_ones by lia. by apply Z.mod_small. Qed.
Lemma donna_reduce_ok h :
  reduced h -> reduced (donna_reduce h) /\ val (donna_reduce h) = val h mod prime.
Proof.
  intros Hr. pose proof (val_range h Hr) as Hv. destruct h as [h0 h1 h2 h3 h4]. unfold reduced, val in Hr, Hv |- *. cbn [l0 l1 l2 l3 l4] in Hr, Hv |- *.
  destruct Hr as (H0 & H1 & H2 & H3 & H4). unfold donna_reduce.
  rewrite (u32_id (h0 + 5)) by lia. split_sum (h0 + 5) g0 b0. rewrite (u32_id (h1 + b0)) by lia. split_sum (h1 + b0) g1 b1.
  rewrite (u32_id (h2 + b1)) by lia. split_sum (h2 + b1) g2 b2. rewrite (u32_id (h3 + b2)) by lia. split_sum (h3 + b2) g3 b3.
  change (Z.shiftl 1 26) with (2 ^ 26). rewrite (shiftr_div _ 31) by lia.
  destruct (Z.lt_ge_cases (h4 + b3) (2 ^ 26)) as [Hlt|Hge].
  - assert (Hg : u32 (h4 + b3 - 2 ^ 26) = h4 + b3 - 2 ^ 26 + 2 ^ 32).
    { unfold u32. symmetry. apply (Z.mod_unique _ _ (-1)); lia. }
    rewrite Hg. assert (Hq : (h4 + b3 - 2 ^ 26 + 2 ^ 32) / 2 ^ 31 = 1).
    { symmetry. apply (Z.div_unique _ _ _ (h4 + b3 - 2 ^ 26 + 2 ^ 31)); lia. }
    rewrite Hq. change (u32 (1 - 1)) with 0. change (u32 (Z.lnot 0)) with (2 ^ 32 - 1). cbn [l0 l1 l2 l3 l4].
    rewrite !Z.land_0_r, !Z.lor_0_r, !land_ones32 by lia. split; [lia|]. symmetry. apply Z.mod_small. unfold prime. lia.
  - assert (Hg : u32 (h4 + b3 - 2 ^ 26) = h4 + b3 - 2 ^ 26) by (apply u32_id; lia).
    rewrite Hg. rewrite (Z.div_small (h4 + b3 - 2 ^ 26)) by lia. change (u32 (0 - 1)) with (2 ^ 32 - 1).
    change (u32 (Z.lnot (2 ^ 32 - 1))) with 0. cbn [l0 l1 l2 l3 l4]. rewrite !Z.land_0_r, !Z.lor_0_l, !land_ones32 by lia.
    split; [lia|]. apply (Z.mod_unique _ _ 1); unfold prime; lia.
Qed.

(** The upper part of one limb and the lower part of the next make a word. *)
Lemma word_of lo hi k :
  0 <= k <= 32 -> 0 <= lo < 2 ^ k -> 0 <= hi -> Z.lor lo (u32 (Z.shiftl hi k)) = lo + 2 ^ k * (hi mod 2 ^ (32 - k)).
Proof.
  intros Hk Hl Hh. assert (E : u32 (Z.shiftl hi k) = Z.shiftl (hi mod 2 ^ (32 - k)) k).
  { rewrite !Z.shiftl_mul_pow2 by lia. unfold u32. replace (2 ^ 32) with (2 ^ (32 - k) * 2 ^ k) by (rewrite <- Z.pow_add_r by lia; f_equal; lia).
    apply Z.mul_mod_distr_r; lia. }
  rewrite E, Z.lor_comm, lor_shiftl_add by lia. lia.
Qed.

Lemma le_bytes_app n m v : le_bytes (n + m) v = le_bytes n v ++ le_bytes m (v / 256 ^ Z.of_nat n).
Proof.
  revert v. induction n as [|n IH]; intros v; [by rewrite Z.div_1_r|]. cbn [Nat.add le_bytes app]. rewrite IH. f_equal. f_equal. f_equal.
  rewrite Z.div_div by lia. f_equal. rewrite Nat2Z.inj_succ, Z.pow_succ_r by lia. done.
Qed.
Lemma le_bytes_mod n v q : le_bytes n (v + 256 ^ Z.of_nat n * q) = le_bytes n v.
Proof.
  revert v q. induction n as [|n IH]; intros v q; [done|]. cbn [le_bytes]. rewrite Nat2Z.inj_succ, Z.pow_succ_r by lia. f_equal.
  - rewrite <- Z.mul_assoc, Z.mul_comm. by rewrite Z.mod_add.
  - rewrite <- Z.mul_assoc, (Z.mul_comm 256), Z.div_add by lia. apply IH.
Qed.
Lemma U32TO8_LE_bytes v : U32TO8_LE v = le_bytes 4 v.
Proof. unfold U32TO8_LE. cbn [le_bytes]. rewrite !shiftr_div, !Z.div_div by lia. done. Qed.

(** Four words with their carries are the bytes of the sum. *)
Lemma words_bytes a0 a1 a2 a3 q :
  U32TO8_LE a0 ++ U32TO8_LE (a1 + a0 / 2 ^ 32) ++ U32TO8_LE (a2 + (a1 + a0 / 2 ^ 32) / 2 ^ 32) ++
    U32TO8_LE (a3 + (a2 + (a1 + a0 / 2 ^ 32) / 2 ^ 32) / 2 ^ 32) =
  le_bytes 16 (a0 + 2 ^ 32 * (a1 + 2 ^ 32 * (a2 + 2 ^ 32 * (a3 + 2 ^ 32 * q)))).
Proof.
  assert (H : forall n a x, le_bytes (4 + n) (a + 2 ^ 32 * x) = U32TO8_LE a ++ le_bytes n (x + a / 2 ^ 32)).
  { intros n a x. rewrite le_bytes_app, U32TO8_LE_bytes. change (256 ^ Z.of_nat 4) with (2 ^ 32).
    rewrite (le_bytes_mod 4 a x : le_bytes 4 (a + 2 ^ 32 * x) = _). f_equal. f_equal. rewrite (Z.mul_comm (2 ^ 32)), Z.div_add by lia. lia. }
  change 16%nat with (4 + (4 + (4 + (4 + 0))))%nat. rewrite H. f_equal. rewrite <- Z.add_assoc, (Z.add_comm (2 ^ 32 * _)), Z.add_assoc, H. f_equal.
  rewrite <- Z.add_assoc, (Z.add_comm (2 ^ 32 * _)), Z.add_assoc, H. f_equal.
  rewrite <- Z.add_assoc, (Z.add_comm (2 ^ 32 * _)), Z.add_assoc, H. cbn [le_bytes]. by rewrite app_nil_r.
Qed.
Lemma div32 x : 0 <= x < 2 ^ 33 -> 0 <= x / 2 ^ 32 <= 1.
Proof. intros Hx. pose proof (Z.div_mod x (2 ^ 32)). pose proof (Z.mod_pos_bound x (2 ^ 32)). lia. Qed.
Lemma donna_tag_ok key h :
  reduced h -> Forall is_u8 key -> zlen key = 32 ->
  donna_tag key h = le_bytes 16 (val h + le_val (zslice 16 16 key)).
Proof.
  destruct h as [h0 h1 h2 h3 h4]. unfold reduced, val. cbn [l0 l1 l2 l3 l4]. intros (H0 & H1 & H2 & H3 & H4) Hk Hl. unfold donna_tag.
  rewrite (le_val_words key 16) by lia. change (16 + 4) with 20. change (16 + 8) with 24. change (16 + 12) with 28.
  rewrite !U8TO32_LE_val by (done || lia).
  pose proof (zslice_val_range 16 4 key Hk ltac:(lia) ltac:(lia) ltac:(lia)) as R0.
  pose proof (zslice_val_range 20 4 key Hk ltac:(lia) ltac:(lia) ltac:(lia)) as R1.
  pose proof (zslice_val_range 24 4 key Hk ltac:(lia) ltac:(lia) ltac:(lia)) as R2.
  pose proof (zslice_val_range 28 4 key Hk ltac:(lia) ltac:(lia) ltac:(lia)) as R3.
  revert R0 R1 R2 R3. change (8 * 4) with 32.
  generalize (le_val (zslice 16 4 key)), (le_val (zslice 20 4 key)), (le_val (zslice 24 4 key)), (le_val (zslice 28 4 key)).
  intros k0 k1 k2 k3 R0 R1 R2 R3. rewrite !(shiftr_div h1), !(shiftr_div h2), !(shiftr_div h3) by lia.
  pose proof (Z.div_mod h1 (2 ^ 6) ltac:(lia)) as D1. pose proof (Z.mod_pos_bound h1 (2 ^ 6) ltac:(lia)) as M1.
  pose proof (Z.div_mod h2 (2 ^ 12) ltac:(lia)) as D2. pose proof (Z.mod_pos_bound h2 (2 ^ 12) ltac:(lia)) as M2.
  pose proof (Z.div_mod h3 (2 ^ 18) ltac:(lia)) as D3. pose proof (Z.mod_pos_bound h3 (2 ^ 18) ltac:(lia)) as M3.
  pose proof (Z.div_mod h4 (2 ^ 24) ltac:(lia)) as D4. pose proof (Z.mod_pos_bound h4 (2 ^ 24) ltac:(lia)) as M4.
  rewrite !word_of by lia. change (32 - 26) with 6. change (32 - 20) with 12. change (32 - 14) with 18. change (32 - 8) with 24.
  revert D1 D2 D3 D4 M1 M2 M3 M4. generalize (h1 / 2 ^ 6), (h2 / 2 ^ 12), (h3 / 2 ^ 18), (h4 / 2 ^ 24).
  generalize (h1 mod 2 ^ 6), (h2 mod 2 ^ 12), (h3 mod 2 ^ 18), (h4 mod 2 ^ 24).
  intros m1 m2 m3 m4 q1 q2 q3 q4 D1 D2 D3 D4 M1 M2 M3 M4.
  set (a0 := h0 + 2 ^ 26 * m1 + k0). set (a1 := q1 + 2 ^ 20 * m2 + k1). set (a2 := q2 + 2 ^ 14 * m3 + k2). set (a3 := q3 + 2 ^ 8 * m4 + k3).
  assert (0 <= a0 < 2 ^ 33 - 1 /\ 0 <= a1 < 2 ^ 33 - 1 /\ 0 <= a2 < 2 ^ 33 - 1 /\ 0 <= a3 < 2 ^ 33 - 1) as (A0 & A1 & A2 & A3)
    by (subst a0 a1 a2 a3; lia).
  replace (h0 + 2 ^ 26 * h1 + 2 ^ 52 * h2 + 2 ^ 78 * h3 + 2 ^ 104 * h4 + (k0 + 2 ^ 32 * k1 + 2 ^ 64 * k2 + 2 ^ 96 * k3))
    with (a0 + 2 ^ 32 * (a1 + 2 ^ 32 * (a2 + 2 ^ 32 * (a3 + 2 ^ 32 * q4)))) by (subst a0 a1 a2 a3; lia).
  clearbody a0 a1 a2 a3. rewrite <- words_bytes, !(u64_id a0), !(u64_id a1), !(u64_id a2), !(u64_id a3), !(shiftr_div _ 32) by lia.
  pose proof (div32 a0 ltac:(lia)). rewrite !(u64_id (a1 + a0 / 2 ^ 32)) by lia.
  pose proof (div32 (a1 + a0 / 2 ^ 32) ltac:(lia)). rewrite !(u64_id (a2 + (a1 + a0 / 2 ^ 32) / 2 ^ 32)) by lia.
  pose proof (div32 (a2 + (a1 + a0 / 2 ^ 32) / 2 ^ 32) ltac:(lia)). rewrite u64_id by lia. done.
Qed.

(** ** The multiplier *)

(** Masking two fields side by side. *)
Lemma land_fields n a b c d :
  0 <= n -> 0 <= a < 2 ^ n -> 0 <= c < 2 ^ n ->
  Z.land (a + 2 ^ n * b) (c + 2 ^ n * d) = Z.land a c + 2 ^ n * Z.land b d.
Proof.
  intros Hn Ha Hc.
  assert (Hac : 0 <= Z.land a c < 2 ^ n).
  { split; [apply Z.land_nonneg; lia|]. destruct (Z.eq_dec (Z.land a c) 0) as [->|Hz]; [lia|].
    assert (0 <= Z.land a c) by (apply Z.land_nonneg; lia). apply Z.log2_lt_pow2; [lia|].
    eapply Z.le_lt_trans; [apply Z.log2_land; lia|]. destruct (Z.eq_dec a 0) as [->|Ha0]; [by rewrite Z.land_0_l in Hz|].
    eapply Z.le_lt_trans; [apply Z.le_min_l|]. apply Z.log2_lt_pow2; lia. }
  assert (E : forall x y, 0 <= x < 2 ^ n -> x + 2 ^ n * y = Z.lor (Z.shiftl y n) x).
  { intros x y Hx. rewrite lor_shiftl_add by lia. lia. }
  rewrite !E by lia. apply Z.bits_inj'. intros i Hi. rewrite !Z.land_spec, !Z.lor_spec, Z.land_spec.
  assert (Hhigh : forall x, 0 <= x < 2 ^ n -> n <= i -> Z.testbit x i = false).
  { intros x Hx Hni. destruct (Z.eq_dec x 0) as [->|]; [apply Z.bits_0|]. apply Z.bits_above_log2; [lia|].
    eapply Z.lt_le_trans; [|exact Hni]. apply Z.log2_lt_pow2; lia. }
  destruct (Z.lt_ge_cases i n) as [Hlt|Hge].
  - rewrite !Z.shiftl_spec_low by lia. done.
  - rewrite !Z.shiftl_spec, !Z.land_spec, !Hhigh by lia. by rewrite !orb_false_r.
Qed.
Lemma val_land a b :
  reduced a -> reduced b ->
  val (L (Z.land (l0 a) (l0 b)) (Z.land (l1 a) (l1 b)) (Z.land (l2 a) (l2 b)) (Z.land (l3 a) (l3 b)) (Z.land (l4 a) (l4 b))) =
  Z.land (val a) (val b).
Proof.
  unfold reduced, val. intros (A0 & A1 & A2 & A3 & _) (B0 & B1 & B2 & B3 & _). cbn [l0 l1 l2 l3 l4].
  assert (Hornr : forall x0 x1 x2 x3 x4, x0 + 2 ^ 26 * x1 + 2 ^ 52 * x2 + 2 ^ 78 * x3 + 2 ^ 104 * x4 =
    x0 + 2 ^ 26 * (x1 + 2 ^ 26 * (x2 + 2 ^ 26 * (x3 + 2 ^ 26 * x4)))) by (intros; lia).
  rewrite !Hornr, !land_fields by lia. done.
Qed.
(** A mask within a limb sees the limb only. *)
Lemma land_mask x m : 0 <= m < 2 ^ 26 -> Z.land x m = Z.land (x mod 2 ^ 26) m.
Proof.
  intros Hm. assert (E : m = Z.land (Z.ones 26) m).
  { rewrite Z.land_comm, Z.land_ones by lia. symmetry. by apply Z.mod_small. }
  rewrite E at 1. by rewrite Z.land_assoc, Z.land_ones by lia.
Qed.
Lemma land_le x m : 0 <= m -> 0 <= x -> 0 <= Z.land x m <= m.
Proof.
  intros Hm Hx. split; [apply Z.land_nonneg; lia|].
  assert (Hd : Z.land (Z.ldiff m x) (Z.land m x) = 0).
  { apply Z.bits_inj'. intros i Hi. rewrite !Z.land_spec, Z.ldiff_spec, Z.bits_0. by destruct (Z.testbit m i), (Z.testbit x i). }
  assert (E : Z.ldiff m x + Z.land m x = m).
  { rewrite Z.add_nocarry_lxor, Z.lxor_lor by done. apply Z.lor_ldiff_and. }
  assert (0 <= Z.ldiff m x) by (apply Z.ldiff_nonneg; lia). rewrite Z.land_comm. lia.
Qed.
Lemma multipliers_ok key :
  Forall is_u8 key -> zlen key = 32 -> clamped (multipliers key) /\ val (multipliers key) = clamp (le_val (ztake 16 key)).
Proof.
  intros Hk Hl. pose proof (le_val_words key 0 ltac:(lia) ltac:(lia)) as Hw.
  assert (Hs : zslice 0 16 key = ztake 16 key) by (unfold zslice; by rewrite zdrop_0 by lia). rewrite Hs in Hw.
  change (0 + 4) with 4 in Hw. change (0 + 8) with 8 in Hw. change (0 + 12) with 12 in Hw.
  assert (W0 : U8TO32_LE key = le_val (zslice 0 4 key)) by (rewrite <- U8TO32_LE_val, zdrop_0 by (done || lia); done).
  unfold multipliers. rewrite W0, !U8TO32_LE_val by (done || lia).
  pose proof (zslice_val_range 0 4 key Hk ltac:(lia) ltac:(lia) ltac:(lia)) as R0.
  pose proof (zslice_val_range 4 4 key Hk ltac:(lia) ltac:(lia) ltac:(lia)) as R1.
  pose proof (zslice_val_range 8 4 key Hk ltac:(lia) ltac:(lia) ltac:(lia)) as R2.
  pose proof (zslice_val_range 12 4 key Hk ltac:(lia) ltac:(lia) ltac:(lia)) as R3.
  rewrite Hw. clear Hw Hs W0 Hk Hl. revert R0 R1 R2 R3. change (8 * 4) with 32.
  generalize (le_val (zslice 0 4 key)), (le_val (zslice 4 4 key)), (le_val (zslice 8 4 key)), (le_val (zslice 12 4 key)).
  intros t0 t1 t2 t3 R0 R1 R2 R3. rewrite <- (limbs_of_words t0 t1 t2 t3 R0 R1 R2 R3), !shiftr_div by lia.
  assert (D0 : 0 <= t0 / 2 ^ 26 < 2 ^ 6) by (split; [apply Z.div_pos; lia|apply Z.div_lt_upper_bound; lia]).
  assert (D1 : 0 <= t1 / 2 ^ 20 < 2 ^ 12) by (split; [apply Z.div_pos; lia|apply Z.div_lt_upper_bound; lia]).
  assert (D2 : 0 <= t2 / 2 ^ 14 < 2 ^ 18) by (split; [apply Z.div_pos; lia|apply Z.div_lt_upper_bound; lia]).
  assert (D3 : 0 <= t3 / 2 ^ 8 < 2 ^ 24) by (split; [apply Z.div_pos; lia|apply Z.div_lt_upper_bound; lia]).
  rewrite (word_of (t0 / 2 ^ 26) t1 6), (word_of (t1 / 2 ^ 20) t2 12), (word_of (t2 / 2 ^ 14) t3 18) by lia.
  assert (Hlow : forall q t k, 0 <= k <= 26 -> 0 <= q < 2 ^ k ->
    (q + 2 ^ k * (t mod 2 ^ (32 - k))) mod 2 ^ 26 = q + 2 ^ k * (t mod 2 ^ (26 - k))).
  { intros q t k Hk Hq. pose proof (Z.mod_pos_bound t (2 ^ (26 - k)) ltac:(lia)).
    assert (Hp : 2 ^ k * 2 ^ (26 - k) = 2 ^ 26) by (rewrite <- Z.pow_add_r by lia; f_equal; lia).
    replace (2 ^ (32 - k)) with (2 ^ (26 - k) * 2 ^ 6) by (rewrite <- Z.pow_add_r by lia; f_equal; lia).
    rewrite Z.rem_mul_r by lia. symmetry. apply (Z.mod_unique _ _ (t / 2 ^ (26 - k) mod 2 ^ 6)); [nia|]. rewrite <- Hp. ring. }
  rewrite (land_mask (t0 / _ + _)), (land_mask (t1 / _ + _)), (land_mask (t2 / _ + _)), !Hlow by lia. rewrite (land_mask t0) by lia.
  change (26 - 6) with 20. change (26 - 12) with 14. change (26 - 18) with 8.
  pose proof (Z.mod_pos_bound t0 (2 ^ 26) ltac:(lia)). pose proof (Z.mod_pos_bound t1 (2 ^ 20) ltac:(lia)).
  pose proof (Z.mod_pos_bound t2 (2 ^ 14) ltac:(lia)). pose proof (Z.mod_pos_bound t3 (2 ^ 8) ltac:(lia)).
  set (K := L (t0 mod 2 ^ 26) (t0 / 2 ^ 26 + 2 ^ 6 * (t1 mod 2 ^ 20)) (t1 / 2 ^ 20 + 2 ^ 12 * (t2 mod 2 ^ 14))
    (t2 / 2 ^ 14 + 2 ^ 18 * (t3 mod 2 ^ 8)) (t3 / 2 ^ 8)).
  assert (HK : reduced K) by (unfold reduced; cbn [l0 l1 l2 l3 l4 K]; lia).
  set (C := L 0x3ffffff 0x3ffff03 0x3ffc0ff 0x3f03fff 0xfffff).
  split.
  - unfold clamped. cbn [l0 l1 l2 l3 l4]. repeat split; try (apply Z.land_nonneg; lia);
      (eapply Z.le_lt_trans; [apply land_le; lia|lia]) || (apply land_le; lia).
  - change (val (L (Z.land (l0 K) (l0 C)) (Z.land (l1 K) (l1 C)) (Z.land (l2 K) (l2 C)) (Z.land (l3 K) (l3 C)) (Z.land (l4 K) (l4 C)))
      = clamp (val K)).
    rewrite val_land; [reflexivity|done|]. unfold reduced, C. cbn [l0 l1 l2 l3 l4]. lia.
Qed.

(** Blocks, carries, the reduction and the tag together. *)
Lemma poly1305_auth_eq (m key : list Z) :
  Forall is_u8 m -> Forall is_u8 key -> zlen key = 32 -> poly1305_auth m key = poly1305 m key.
Proof.
  intros Hm Hk Hl. destruct (multipliers_ok key Hk Hl) as [Hr Hv]. unfold poly1305_auth, poly1305. rewrite <- Hv.
  destruct (donna_blocks_ok (S (length m)) (multipliers key) m (L 0 0 0 0 0) 0 Hr Hm) as [Hb ->]; [lia|done|done|done|].
  destruct (donna_carry_ok _ Hb) as [Hc Ec]. destruct (donna_reduce_ok _ Hc) as [Hd Ed].
  rewrite donna_tag_ok by done. by rewrite Ed, Ec.
Qed.
Lemma zlen_poly1305 m key : zlen (poly1305 m key) = 16.
Proof. reflexivity. Qed.
Lemma poly1305_bytes m key : Forall is_u8 (poly1305 m key).
Proof. unfold poly1305. cbn [le_bytes]. repeat constructor; unfold is_u8; apply Z.mod_pos_bound; lia. Qed.

(** C17: poly1305_auth computes Poly1305: for every key of 32 bytes and every
    message, the limbs, the partial carries and the masked final subtraction
    give the 16 bytes of the polynomial of the message, evaluated at the
    clamped first half of the key modulo 2^130 - 5, plus the second half; no
    32-bit or 64-bit operation on the way overflows into the result. *)
Theorem poly1305_auth_correct (m key : list Z) :
  Forall is_u8 m -> Forall is_u8 key -> zlen key = 32 -> poly1305_auth m key = poly1305 m key.
Proof. apply poly1305_auth_eq. Qed.

(** The example of RFC 8439. *)
Definition demo_key : list Z :=
  [0x85; 0xd6; 0xbe; 0x78; 0x57; 0x55; 0x6d; 0x33; 0x7f; 0x44; 0x52; 0xfe; 0x42; 0xd5; 0x06; 0xa8;
   0x01; 0x03; 0x80; 0x8a; 0xfb; 0x0d; 0xb2; 0xfd; 0x4a; 0xbf; 0xf6; 0xaf; 0x41; 0x49; 0xf5; 0x1b].
Lemma poly1305_auth_correct_witness :
  poly1305 (str "Cryptographic Forum Research Group") demo_key =
    [0xa8; 0x06; 0x1d; 0xc1; 0x30; 0x51; 0x36; 0xc6; 0xc2; 0x2b; 0x8b; 0xaf; 0x0c; 0x01; 0x27; 0xa9].
Proof.
  rewrite <- poly1305_auth_correct; [vm_compute; reflexivity|..|reflexivity]; repeat (constructor; [by vm_compute|]); constructor.
Defined.
