(* ===== verification/ChachaPoly.v ===== *)
(** * Encryption and authentication of packets: openssh/chacha.c and
      openssh/cipher-chachapoly.c

    chacha_encrypt_bytes works block by block on 32-bit words, with the last
    partial block copied through a temporary buffer; what it does is compared
    with the key stream of the cipher, added byte by byte.  chachapoly_crypt
    encrypts the length of a packet with one key and its body with another,
    and authenticates both (Poly1305.v).

    Buffers are lists of bytes; the function's buffers do not overlap. *)

From stdpp Require Import list.
From S2P Require Import Prelude Sshbuf Poly1305.

(** ** chacha.c *)

(** struct chacha_ctx: input[16]. *)
Abbreviation chacha_ctx := (list Z).
Definition word (x : chacha_ctx) (i : nat) : Z := default 0 (x !! i).

Definition U32V (v : Z) : Z := Z.land v 0xFFFFFFFF.
Definition U8V (v : Z) : Z := Z.land v 0xFF.
Definition ROTL32 (v n : Z) : Z := Z.lor (U32V (Z.shiftl v n)) (Z.shiftr v (32 - n)).
Definition U8TO32_LITTLE (p : list Z) : Z := U8TO32_LE p.
Definition U32TO8_LITTLE (v : Z) : list Z :=
  [U8V v; U8V (Z.shiftr v 8); U8V (Z.shiftr v 16); U8V (Z.shiftr v 24)].
Definition XOR (v w : Z) : Z := Z.lxor v w.
Definition PLUS (v w : Z) : Z := U32V (v + w).
Definition PLUSONE (v : Z) : Z := PLUS v 1.

Definition QUARTERROUND (a b c d : nat) (x : list Z) : list Z :=
  let x := <[a := PLUS (word x a) (word x b)]> x in
  let x := <[d := ROTL32 (XOR (word x d) (word x a)) 16]> x in
  let x := <[c := PLUS (word x c) (word x d)]> x in
  let x := <[b := ROTL32 (XOR (word x b) (word x c)) 12]> x in
  let x := <[a := PLUS (word x a) (word x b)]> x in
  let x := <[d := ROTL32 (XOR (word x d) (word x a)) 8]> x in
  let x := <[c := PLUS (word x c) (word x d)]> x in
  <[b := ROTL32 (XOR (word x b) (word x c)) 7]> x.

Definition sigma : list Z := str "expand 32-byte k".
Definition tau : list Z := str "expand 16-byte k".

(** Four words at [p], into the context from [i] on. *)
Definition load4 (i : nat) (p : list Z) (x : chacha_ctx) : chacha_ctx :=
  <[(i + 3)%nat := U8TO32_LITTLE (zdrop 12 p)]> (<[(i + 2)%nat := U8TO32_LITTLE (zdrop 8 p)]>
    (<[(i + 1)%nat := U8TO32_LITTLE (zdrop 4 p)]> (<[i := U8TO32_LITTLE p]> x))).
Definition chacha_keysetup (k : list Z) (kbits : Z) (x : chacha_ctx) : chacha_ctx :=
  let x := load4 4 k x in
  let '(k, constants) := if kbits =? 256 then (zdrop 16 k, sigma) else (k, tau) in
  let x := load4 8 k x in
  load4 0 constants x.
(** [counter] may be NULL. *)
Definition chacha_ivsetup (iv : list Z) (counter : option (list Z)) (x : chacha_ctx) : chacha_ctx :=
  let x := <[12%nat := match counter with None => 0 | Some c => U8TO32_LITTLE c end]> x in
  let x := <[13%nat := match counter with None => 0 | Some c => U8TO32_LITTLE (zdrop 4 c) end]> x in
  let x := <[14%nat := U8TO32_LITTLE iv]> x in
  <[15%nat := U8TO32_LITTLE (zdrop 4 iv)]> x.

(** The eight quarter rounds, and the loop around them. *)
Definition double_round (x : list Z) : list Z :=
  let x := QUARTERROUND 0 4 8 12 x in
  let x := QUARTERROUND 1 5 9 13 x in
  let x := QUARTERROUND 2 6 10 14 x in
  let x := QUARTERROUND 3 7 11 15 x in
  let x := QUARTERROUND 0 5 10 15 x in
  let x := QUARTERROUND 1 6 11 12 x in
  let x := QUARTERROUND 2 7 8 13 x in
  QUARTERROUND 3 4 9 14 x.
Fixpoint rounds (n : nat) (x : list Z) : list Z :=
  match n with O => x | S n' => double_round (rounds n' x) end.

(** One block: the words x0 to x15 exclusive-or'ed with the 64 bytes at m. *)
Definition block_words (j m : list Z) : list Z :=
  let x := zip_with PLUS (rounds 10 j) j in
  imap (fun i v => XOR v (U8TO32_LITTLE (zdrop (4 * Z.of_nat i) m))) x.
Definition next_counter (j : list Z) : list Z :=
  let j := <[12%nat := PLUSONE (word j 12)]> j in
  if word j 12 =? 0 then <[13%nat := PLUSONE (word j 13)]> j else j.

(** The loop; a round takes 64 bytes or is the last one.  tmp holds zeros where
    the source leaves it unset: these bytes are encrypted and dropped. *)
Fixpoint encrypt_loop (fuel : nat) (j m : list Z) : list Z * list Z :=
  match fuel with
  | O => (j, [])
  | S fuel' =>
      let bytes := zlen m in
      let src := if bytes <? 64 then m ++ zfill (64 - bytes) else m in
      let c := concat (map U32TO8_LITTLE (block_words j src)) in
      let j := next_counter j in
      if bytes <=? 64 then (j, ztake bytes c)
      else let '(j', rest) := encrypt_loop fuel' j (zdrop 64 m) in (j', c ++ rest)
  end.
(** The context after it, and the bytes written to c. *)
Definition chacha_encrypt_bytes (x : chacha_ctx) (m : list Z) : chacha_ctx * list Z :=
  if zlen m =? 0 then (x, [])
  else
    let '(j, c) := encrypt_loop (S (length m)) x m in
    (<[13%nat := word j 13]> (<[12%nat := word j 12]> x), c).

(** ** cipher-chachapoly.c *)

Record chachapoly_ctx := mk_chachapoly { main_ctx : chacha_ctx; header_ctx : chacha_ctx }.

Definition SSH_ERR_MAC_INVALID : Z := -30.

(** [inl] is the code returned. *)
Definition chachapoly_init (key : list Z) (keylen : Z) : Z + chachapoly_ctx :=
  if negb (keylen =? 32 + 32) then inl SSH_ERR_INVALID_ARGUMENT
  else inr (mk_chachapoly (chacha_keysetup key 256 (zfill 16)) (chacha_keysetup (zdrop 32 key) 256 (zfill 16))).

Definition one : list Z := [1; 0; 0; 0; 0; 0; 0; 0].

(** timingsafe_bcmp: zero when the bytes agree. *)
Fixpoint timingsafe_bcmp (b1 b2 : list Z) (ret : Z) : Z :=
  match b1, b2 with
  | x :: b1', y :: b2' => timingsafe_bcmp b1' b2' (Z.lor ret (Z.lxor x y))
  | _, _ => if ret =? 0 then 0 else 1
  end.

(** The code and [dest]; [src] has [aadlen] + [len] bytes, and the tag behind
    them when decrypting.  The length authenticated is a sum of two u_int. *)
Definition chachapoly_crypt (seqnr : Z) (dest src : list Z) (len aadlen : Z) (do_encrypt : bool)
    (ctx : chachapoly_ctx) : (Z * list Z) * chachapoly_ctx :=
  let seqbuf := POKE_U64 seqnr in
  let '(main, poly_key) := chacha_encrypt_bytes (chacha_ivsetup seqbuf None (main_ctx ctx)) (zfill POLY1305_KEYLEN) in
  let body_len := u32 (aadlen + len) in
  if negb do_encrypt &&
     negb (timingsafe_bcmp (poly1305_auth (ztake body_len src) poly_key)
             (zslice (aadlen + len) POLY1305_TAGLEN src) 0 =? 0)
  then ((SSH_ERR_MAC_INVALID, dest), mk_chachapoly main (header_ctx ctx))
  else
    let '(header, dest) :=
      if aadlen =? 0 then (header_ctx ctx, dest)
      else let '(header, c) := chacha_encrypt_bytes (chacha_ivsetup seqbuf None (header_ctx ctx)) (ztake aadlen src) in
           (header, zwrite 0 c dest) in
    let '(main, c) := chacha_encrypt_bytes (chacha_ivsetup seqbuf (Some one) main) (zslice aadlen len src) in
    let dest := zwrite aadlen c dest in
    let dest := if do_encrypt then zwrite (aadlen + len) (poly1305_auth (ztake body_len dest) poly_key) dest else dest in
    ((0, dest), mk_chachapoly main header).

Definition chachapoly_get_length (seqnr : Z) (cp : list Z) (len : Z) (ctx : chachapoly_ctx) : (Z + Z) * chachapoly_ctx :=
  if len <? 4 then (inl SSH_ERR_MESSAGE_INCOMPLETE, ctx)
  else
    let seqbuf := POKE_U64 seqnr in
    let '(header, buf) := chacha_encrypt_bytes (chacha_ivsetup seqbuf None (header_ctx ctx)) (ztake 4 cp) in
    (inr (PEEK_U32 buf), mk_chachapoly (main_ctx ctx) header).

(** ** Words and bytes *)

Lemma U32V_mod v : U32V v = v mod 2 ^ 32.
Proof. apply (Z.land_ones v 32). lia. Qed.
Lemma U8V_mod v : U8V v = v mod 256.
Proof. apply (Z.land_ones v 8). lia. Qed.
Lemma U32TO8_LITTLE_bytes v : U32TO8_LITTLE v = le_bytes 4 v.
Proof. unfold U32TO8_LITTLE. cbn [le_bytes]. rewrite !U8V_mod, !shiftr_div, !Z.div_div by lia. done. Qed.
Lemma le_bytes_val l : Forall is_u8 l -> le_bytes (length l) (le_val l) = l.
Proof.
  induction 1 as [|x l Hx _ IH]; [done|]. cbn [length le_bytes le_val]. unfold is_u8 in Hx. f_equal.
  - rewrite (Z.mul_comm 256), Z.mod_add by lia. by apply Z.mod_small.
  - rewrite (Z.mul_comm 256), Z.div_add by lia. by rewrite Z.div_small, Z.add_0_l.
Qed.
Lemma U8V_lxor v w n : U8V (Z.shiftr (Z.lxor v w) n) = Z.lxor (U8V (Z.shiftr v n)) (U8V (Z.shiftr w n)).
Proof.
  rewrite Z.shiftr_lxor. unfold U8V. apply Z.bits_inj'. intros i Hi. rewrite !Z.land_spec, !Z.lxor_spec, !Z.land_spec.
  by destruct (Z.testbit 255 i); rewrite ?andb_true_r, ?andb_false_r.
Qed.
Lemma U32TO8_xor v w : U32TO8_LITTLE (XOR v w) = zip_with Z.lxor (U32TO8_LITTLE v) (U32TO8_LITTLE w).
Proof.
  unfold U32TO8_LITTLE, XOR. cbn [zip_with]. rewrite <- !U8V_lxor. f_equal.
  rewrite <- (Z.shiftr_0_r v) at 2. rewrite <- (Z.shiftr_0_r w) at 2. rewrite <- U8V_lxor, Z.shiftr_0_r. done.
Qed.
Lemma U32TO8_of_bytes (m : list Z) : Forall is_u8 m -> 4 <= zlen m -> U32TO8_LITTLE (U8TO32_LITTLE m) = ztake 4 m.
Proof.
  intros Hm Hl. unfold U8TO32_LITTLE. rewrite <- (zdrop_0 0 m) at 1 by lia. rewrite U8TO32_LE_val by (done || lia).
  unfold zslice. rewrite zdrop_0 by lia. rewrite U32TO8_LITTLE_bytes.
  rewrite <- (le_bytes_val (ztake 4 m)) at 2 by (by apply Forall_ztake). f_equal.
  pose proof (zlen_ztake 4 m ltac:(lia)) as Hz. unfold zlen in Hz. lia.
Qed.

(** ** The key stream *)

Definition block (j : list Z) : list Z := concat (map U32TO8_LITTLE (zip_with PLUS (rounds 10 j) j)).
(** The 64-bit block counter in words 12 and 13. *)
Definition counter (j : list Z) : Z := word j 12 + 2 ^ 32 * word j 13.
Definition at_counter (n : Z) (j : list Z) : list Z := <[13%nat := n / 2 ^ 32 mod 2 ^ 32]> (<[12%nat := n mod 2 ^ 32]> j).
Fixpoint stream (blocks : nat) (j : list Z) : list Z :=
  match blocks with O => [] | S k => block j ++ stream k (at_counter (counter j + 1) j) end.

Definition ctx_ok (j : list Z) : Prop := length j = 16%nat /\ Forall (fun w => 0 <= w < 2 ^ 32) j.

Lemma block_xor x (m : list Z) :
  Forall is_u8 m -> 4 * zlen x <= zlen m ->
  concat (map U32TO8_LITTLE (imap (fun i v => XOR v (U8TO32_LITTLE (zdrop (4 * Z.of_nat i) m))) x)) =
  zip_with Z.lxor (concat (map U32TO8_LITTLE x)) m.
Proof.
  revert m. induction x as [|v x IH]; intros m Hm Hl; [done|]. rewrite zlen_cons in Hl. zlen_facts.
  rewrite imap_cons. cbn [map concat]. rewrite zdrop_0, U32TO8_xor, U32TO8_of_bytes by (done || lia).
  assert (E : map U32TO8_LITTLE (imap ((fun i v => XOR v (U8TO32_LITTLE (zdrop (4 * Z.of_nat i) m))) ∘ S) x) =
    map U32TO8_LITTLE (imap (fun i v => XOR v (U8TO32_LITTLE (zdrop (4 * Z.of_nat i) (zdrop 4 m)))) x)).
  { f_equal. apply imap_ext. intros i w _. cbn. rewrite zdrop_zdrop by lia. do 3 f_equal. lia. }
  rewrite E, IH; [|by apply Forall_zdrop|rewrite zlen_zdrop; lia].
  rewrite <- (ztake_zdrop 4 m) at 3. rewrite zip_with_app; [done|].
  pose proof (zlen_ztake 4 m ltac:(lia)) as Hz. unfold zlen in Hz. cbn [U32TO8_LITTLE length]. lia.
Qed.

Lemma word_insert_eq i v (x : list Z) : (i < length x)%nat -> word (<[i := v]> x) i = v.
Proof. intros Hi. unfold word. by rewrite list_lookup_insert_eq. Qed.
Lemma word_insert_ne i k v (x : list Z) : i <> k -> word (<[i := v]> x) k = word x k.
Proof. intros Hne. unfold word. by rewrite list_lookup_insert_ne. Qed.
Lemma word_insert_id i (x : list Z) : (i < length x)%nat -> <[i := word x i]> x = x.
Proof. intros Hi. apply list_insert_id. unfold word. by apply lookup_lt_is_Some_2 in Hi as [w ->]. Qed.
Lemma word_range x i : ctx_ok x -> 0 <= word x i < 2 ^ 32.
Proof.
  intros [_ Hf]. unfold word. destruct (x !! i) as [w|] eqn:E; [|done]. by apply (Forall_lookup_1 _ _ _ _ Hf E).
Qed.
Lemma ctx_ok_insert x i v : ctx_ok x -> 0 <= v < 2 ^ 32 -> ctx_ok (<[i := v]> x).
Proof. intros [Hl Hf] Hv. split; [by rewrite length_insert|by apply Forall_insert]. Qed.
Lemma ctx_ok_at n x : ctx_ok x -> ctx_ok (at_counter n x).
Proof. intros Hx. unfold at_counter. apply ctx_ok_insert; [apply ctx_ok_insert; [done|]|]; apply Z.mod_pos_bound; lia. Qed.

Lemma counter_at n x : ctx_ok x -> counter (at_counter n x) = n mod 2 ^ 64.
Proof.
  intros [Hl _]. unfold counter, at_counter. rewrite (word_insert_ne 13 12) by done. rewrite !word_insert_eq by (rewrite ?length_insert; lia).
  change (2 ^ 64) with (2 ^ 32 * 2 ^ 32). by rewrite Z.rem_mul_r by lia.
Qed.
Lemma at_at n k x : at_counter n (at_counter k x) = at_counter n x.
Proof.
  unfold at_counter. rewrite (list_insert_insert_ne _ 12 13) by done. rewrite list_insert_insert_eq. f_equal. by rewrite list_insert_insert_eq.
Qed.
Lemma at_mod n k x : at_counter (n mod 2 ^ 64 + k) x = at_counter (n + k) x.
Proof.
  unfold at_counter. pose proof (Z.div_mod n (2 ^ 64) ltac:(lia)) as Hd.
  assert (E : n + k = (n mod 2 ^ 64 + k) + (2 ^ 32 * (n / 2 ^ 64)) * 2 ^ 32) by lia. f_equal; [|f_equal].
  - rewrite E, Z.div_add by lia. rewrite (Z.mul_comm (2 ^ 32)), Z.mod_add by lia. done.
  - rewrite E, Z.mod_add by lia. done.
Qed.
Lemma counter_range x : ctx_ok x -> 0 <= counter x < 2 ^ 64.
Proof. intros Hx. unfold counter. pose proof (word_range x 12 Hx). pose proof (word_range x 13 Hx). lia. Qed.
Lemma next_counter_at x : ctx_ok x -> next_counter x = at_counter (counter x + 1) x.
Proof.
  intros Hx. pose proof Hx as [Hl _]. pose proof (word_range x 12 Hx) as R12. pose proof (word_range x 13 Hx) as R13.
  unfold next_counter, at_counter, counter, PLUSONE, PLUS. rewrite !U32V_mod.
  rewrite word_insert_eq by lia. rewrite (word_insert_ne 12 13) by done.
  set (lo := word x 12) in *. set (hi := word x 13) in *.
  assert (Elo : (lo + 2 ^ 32 * hi + 1) mod 2 ^ 32 = (lo + 1) mod 2 ^ 32).
  { replace (lo + 2 ^ 32 * hi + 1) with (lo + 1 + hi * 2 ^ 32) by lia. by rewrite Z.mod_add. }
  assert (Ehi : (lo + 2 ^ 32 * hi + 1) / 2 ^ 32 = (lo + 1) / 2 ^ 32 + hi).
  { replace (lo + 2 ^ 32 * hi + 1) with (lo + 1 + hi * 2 ^ 32) by lia. by rewrite Z.div_add. }
  rewrite Elo, Ehi. destruct (Z.eqb_spec ((lo + 1) mod 2 ^ 32) 0) as [E0|E0].
  - assert (lo + 1 = 2 ^ 32) as E1.
    { destruct (Z.eq_dec (lo + 1) (2 ^ 32)); [done|]. rewrite Z.mod_small in E0 by lia. lia. }
    rewrite E1. change (2 ^ 32 / 2 ^ 32) with 1. by rewrite (Z.add_comm 1 hi).
  - assert (lo + 1 < 2 ^ 32) as E1.
    { destruct (Z.eq_dec (lo + 1) (2 ^ 32)) as [E|]; [rewrite E in E0; done|lia]. }
    rewrite (Z.div_small (lo + 1)), Z.add_0_l, (Z.mod_small hi) by lia. subst hi.
    rewrite <- (word_insert_ne 12 13 ((lo + 1) mod 2 ^ 32) x) by done. symmetry. apply word_insert_id. rewrite length_insert. lia.
Qed.

Lemma length_QUARTERROUND a b c d x : length (QUARTERROUND a b c d x) = length x.
Proof. unfold QUARTERROUND. by rewrite !length_insert. Qed.
Lemma length_double_round x : length (double_round x) = length x.
Proof. unfold double_round. cbv zeta. rewrite 8!length_QUARTERROUND. reflexivity. Qed.
#[local] Opaque double_round.
Lemma length_rounds n x : length (rounds n x) = length x.
Proof. induction n as [|n IH]; [reflexivity|]. cbn [rounds]. rewrite length_double_round. exact IH. Qed.
Lemma length_concat_words ws : length (concat (map U32TO8_LITTLE ws)) = (4 * length ws)%nat.
Proof. induction ws as [|w ws IH]; [done|]. cbn [map concat length]. rewrite length_app, IH. cbn [U32TO8_LITTLE length]. lia. Qed.
Lemma zlen_block j : length j = 16%nat -> zlen (block j) = 64.
Proof.
  intros Hl. unfold zlen, block. pose proof (length_rounds 10 j) as Hr. revert Hr. generalize (rounds 10 j). intros x Hr.
  rewrite length_concat_words, length_zip_with_l_eq by done. lia.
Qed.
Lemma block_bytes j : Forall is_u8 (block j).
Proof.
  unfold block. generalize (zip_with PLUS (rounds 10 j) j). intros ws.
  induction ws as [|w ws IH]; [constructor|]. cbn [map concat]. apply Forall_app. split; [|done].
  rewrite U32TO8_LITTLE_bytes. repeat constructor; unfold is_u8; apply Z.mod_pos_bound; lia.
Qed.
Lemma stream_bytes n j : Forall is_u8 (stream n j).
Proof. revert j. induction n as [|n IH]; intros j; [constructor|]. cbn [stream]. apply Forall_app. split; [apply block_bytes|done]. Qed.
Lemma zlen_stream n j : length j = 16%nat -> zlen (stream n j) = 64 * Z.of_nat n.
Proof.
  revert j. induction n as [|n IH]; intros j Hl; [done|]. cbn [stream]. rewrite zlen_app, zlen_block, IH; [lia| |done].
  unfold at_counter. by rewrite !length_insert.
Qed.
#[local] Opaque rounds.

Lemma block_words_xor j (m : list Z) :
  ctx_ok j -> Forall is_u8 m -> 64 <= zlen m -> concat (map U32TO8_LITTLE (block_words j m)) = zip_with Z.lxor (block j) m.
Proof.
  intros [Hl _] Hm Hz. unfold block_words, block. pose proof (length_rounds 10 j) as Hr. revert Hr. generalize (rounds 10 j). intros x Hr.
  apply block_xor; [done|]. unfold zlen at 1. rewrite length_zip_with_l_eq by done. lia.
Qed.
Lemma zip_with_lxor_comm (a b : list Z) : zip_with Z.lxor a b = zip_with Z.lxor b a.
Proof. revert b. induction a as [|x a IH]; intros [|y b]; [done..|]. cbn [zip_with]. by rewrite IH, Z.lxor_comm. Qed.
Lemma zip_with_take_app (a b c : list Z) :
  zlen a <= zlen b -> ztake (zlen a) (zip_with Z.lxor b (a ++ c)) = zip_with Z.lxor a b.
Proof.
  revert b. induction a as [|x a IH]; intros b Hl; [by destruct b|].
  destruct b as [|y b]; [rewrite zlen_cons in Hl; change (zlen (@nil Z)) with 0 in Hl; zlen_facts; lia|].
  rewrite !zlen_cons in Hl. zlen_facts. cbn [app zip_with]. rewrite zlen_cons. unfold ztake.
  replace (Z.to_nat (1 + zlen a)) with (S (Z.to_nat (zlen a))) by lia. cbn [take]. rewrite Z.lxor_comm. f_equal. apply (IH b). lia.
Qed.
Lemma zip_with_app_l (a s s' : list Z) (n : Z) :
  zlen s = n -> n <= zlen a -> zip_with Z.lxor a (s ++ s') = zip_with Z.lxor s a ++ zip_with Z.lxor (zdrop n a) s'.
Proof.
  intros Hs Ha. rewrite <- (ztake_zdrop n a) at 1. rewrite zip_with_app.
  - f_equal. rewrite zip_with_lxor_comm. revert Hs Ha. unfold zlen, ztake. intros <- Ha. rewrite Nat2Z.id.
    revert s Ha. induction a as [|x a IH]; intros s Ha; [by destruct s|]. destruct s as [|y s]; [done|]. cbn [length take zip_with] in *. f_equal. apply IH. lia.
  - unfold zlen, ztake in *. rewrite length_take. lia.
Qed.
(** The number of blocks that [n] bytes need. *)
Definition blocks_of (n : Z) : Z := (n + 63) / 64.
Lemma blocks_of_step n : 64 < n -> blocks_of n = 1 + blocks_of (n - 64).
Proof. intros Hn. unfold blocks_of. replace (n + 63) with (n - 64 + 63 + 1 * 64) by lia. rewrite Z.div_add by lia. lia. Qed.
Lemma blocks_of_small n : 0 < n <= 64 -> blocks_of n = 1.
Proof. intros Hn. unfold blocks_of. symmetry. apply (Z.div_unique _ _ _ (n - 1)); lia. Qed.
Lemma blocks_of_nonneg n : 0 <= n -> 0 <= blocks_of n /\ n <= 64 * blocks_of n.
Proof. intros Hn. unfold blocks_of. pose proof (Z.div_mod (n + 63) 64). pose proof (Z.mod_pos_bound (n + 63) 64). lia. Qed.

Lemma encrypt_loop_ok fuel j m :
  ctx_ok j -> Forall is_u8 m -> 0 < zlen m -> (length m < fuel)%nat ->
  encrypt_loop fuel j m =
    (at_counter (counter j + blocks_of (zlen m)) j, zip_with Z.lxor m (stream (Z.to_nat (blocks_of (zlen m))) j)).
Proof.
  revert j m. induction fuel as [|fuel IH]; intros j m Hj Hm Hz Hf; [lia|]. cbn [encrypt_loop].
  rewrite (next_counter_at j Hj). destruct (Z.leb_spec (zlen m) 64) as [Hle|Hgt].
  - rewrite blocks_of_small by lia. change (Z.to_nat 1) with 1%nat. cbn [stream]. rewrite app_nil_r. f_equal.
    destruct Hj as [Hl Hw]. pose proof (zlen_block j Hl) as Hb.
    set (src := if zlen m <? 64 then m ++ zfill (64 - zlen m) else m).
    assert (Hs : src = m ++ zfill (64 - zlen m)).
    { subst src. destruct (Z.ltb_spec (zlen m) 64); [done|]. replace (64 - zlen m) with 0 by lia. by rewrite app_nil_r. }
    rewrite Hs, block_words_xor by (done || (apply Forall_app; split; [done|apply Forall_zfill]) || (rewrite zlen_app, zlen_zfill by lia; lia)).
    apply zip_with_take_app. lia.
  - rewrite (proj2 (Z.ltb_ge _ _)) by lia. rewrite block_words_xor by (done || lia).
    rewrite IH; [|by apply ctx_ok_at|by apply Forall_zdrop|rewrite zlen_zdrop; lia|].
    2:{ unfold zdrop. rewrite length_drop. change (Z.to_nat 64) with 64%nat. unfold zlen in *. lia. }
    rewrite zlen_zdrop by lia. rewrite (blocks_of_step (zlen m)) by lia. pose proof (blocks_of_nonneg (zlen m - 64) ltac:(lia)).
    rewrite counter_at, at_at, at_mod by done. rewrite Z.add_assoc. f_equal.
    replace (Z.to_nat (1 + blocks_of (zlen m - 64))) with (S (Z.to_nat (blocks_of (zlen m - 64)))) by lia. cbn [stream].
    symmetry. apply zip_with_app_l; [|lia]. apply zlen_block. apply Hj.
Qed.

(** The stream of a context, long enough for [n] bytes. *)
Definition keystream (n : Z) (x : list Z) : list Z := stream (Z.to_nat (blocks_of n)) x.

Lemma chacha_xor x m :
  ctx_ok x -> Forall is_u8 m ->
  chacha_encrypt_bytes x m = (at_counter (counter x + blocks_of (zlen m)) x, zip_with Z.lxor m (keystream (zlen m) x)).
Proof.
  intros Hx Hm. unfold chacha_encrypt_bytes, keystream. zlen_facts. destruct (Z.eqb_spec (zlen m) 0) as [Hz|Hz].
  - rewrite Hz. change (blocks_of 0) with 0. rewrite (zlen_0_nil _ Hz). cbn [zip_with]. f_equal. rewrite Z.add_0_r.
    unfold at_counter. pose proof (word_range x 12 Hx) as R12. pose proof (word_range x 13 Hx) as R13. unfold counter.
    rewrite (Z.mul_comm (2 ^ 32)), Z.div_add, Z.mod_add, (Z.div_small (word x 12)), Z.add_0_l, !Z.mod_small by lia.
    destruct Hx as [Hl _]. rewrite (word_insert_id 12) by lia. by rewrite word_insert_id by lia.
  - rewrite encrypt_loop_ok by (done || lia). f_equal. destruct Hx as [Hl _]. unfold at_counter.
    rewrite (word_insert_ne 13 12) by done. rewrite !word_insert_eq by (rewrite ?length_insert; lia). done.
Qed.

(** ** Contexts with one key *)

Definition same_key (x y : list Z) : Prop := ctx_ok x /\ ctx_ok y /\ take 12 x = take 12 y.
Lemma same_key_refl x : ctx_ok x -> same_key x x.
Proof. done. Qed.
Lemma same_key_sym x y : same_key x y -> same_key y x.
Proof. intros (Hx & Hy & E). done. Qed.
Lemma same_key_trans x y z : same_key x y -> same_key y z -> same_key x z.
Proof. intros (Hx & _ & E) (_ & Hz & E'). split; [done|]. split; [done|congruence]. Qed.
Lemma same_key_insert x y i v : same_key x y -> (12 <= i)%nat -> 0 <= v < 2 ^ 32 -> same_key (<[i := v]> x) y.
Proof. intros (Hx & Hy & E) Hi Hv. split; [by apply ctx_ok_insert|]. split; [done|]. by rewrite take_insert_ge by lia. Qed.
Lemma U8TO32_LE_range p : 0 <= U8TO32_LE p < 2 ^ 32.
Proof.
  assert (Hu : forall i, is_u8 (u_char_at p i)) by (intros i; apply Z.mod_pos_bound; lia). unfold U8TO32_LE.
  rewrite word_val by done. pose proof (le_val_range [u_char_at p 0; u_char_at p 1; u_char_at p 2; u_char_at p 3] ltac:(repeat (constructor; [apply Hu|]); constructor)) as Hr.
  exact Hr.
Qed.
Lemma same_key_ivsetup iv c x y : same_key x y -> same_key (chacha_ivsetup iv c x) y.
Proof.
  intros Hs. unfold chacha_ivsetup, U8TO32_LITTLE. repeat apply same_key_insert; try done; try lia; try apply U8TO32_LE_range;
    destruct c; try apply U8TO32_LE_range; done.
Qed.
Lemma same_key_at n x y : same_key x y -> same_key (at_counter n x) y.
Proof. intros Hs. unfold at_counter. repeat apply same_key_insert; try done; try lia; apply Z.mod_pos_bound; lia. Qed.
(** The key is all that setting up an initialisation vector keeps. *)
Lemma ivsetup_same_key iv c x y : same_key x y -> chacha_ivsetup iv c x = chacha_ivsetup iv c y.
Proof.
  intros ([Hx _] & [Hy _] & E). unfold chacha_ivsetup.
  do 16 (destruct x as [|? x]; [cbn in Hx; lia|]). destruct x; [|cbn in Hx; lia].
  do 16 (destruct y as [|? y]; [cbn in Hy; lia|]). destruct y; [|cbn in Hy; lia].
  cbn [take] in E. injection E as -> -> -> -> -> -> -> -> -> -> -> ->. reflexivity.
Qed.
Lemma keystream_long n x : ctx_ok x -> 0 <= n -> n <= zlen (keystream n x).
Proof.
  intros [Hl _] Hn. unfold keystream. rewrite zlen_stream by done. pose proof (blocks_of_nonneg n Hn). lia.
Qed.
Lemma zlen_xor (a b : list Z) : zlen a <= zlen b -> zlen (zip_with Z.lxor a b) = zlen a.
Proof. unfold zlen. intros H. rewrite length_zip_with_l by lia. done. Qed.
Lemma xor_twice (m k : list Z) : zlen m <= zlen k -> zip_with Z.lxor (zip_with Z.lxor m k) k = m.
Proof.
  revert k. induction m as [|x m IH]; intros k Hl; [done|]. destruct k as [|y k]; [rewrite zlen_cons in Hl; change (zlen (@nil Z)) with 0 in Hl; zlen_facts; lia|].
  rewrite !zlen_cons in Hl. cbn [zip_with]. rewrite IH by lia. by rewrite Z.lxor_assoc, Z.lxor_nilpotent, Z.lxor_0_r.
Qed.
Lemma lxor_u8 a b : is_u8 a -> is_u8 b -> is_u8 (Z.lxor a b).
Proof.
  unfold is_u8. intros Ha Hb. assert (0 <= Z.lxor a b) by (apply Z.lxor_nonneg; lia). split; [done|].
  destruct (Z.eq_dec (Z.lxor a b) 0) as [->|Hz]; [lia|]. change 256 with (2 ^ 8). apply Z.log2_lt_pow2; [lia|].
  eapply Z.le_lt_trans; [apply Z.log2_lxor; lia|].
  assert (Hlog : forall x, 0 <= x < 256 -> Z.log2 x < 8).
  { intros x Hx. destruct (Z.eq_dec x 0) as [->|]; [done|]. apply Z.log2_lt_pow2; lia. }
  pose proof (Hlog a Ha). pose proof (Hlog b Hb). lia.
Qed.
Lemma xor_bytes (a b : list Z) : Forall is_u8 a -> Forall is_u8 b -> Forall is_u8 (zip_with Z.lxor a b).
Proof. intros Ha. revert b. induction Ha as [|x a Hx _ IH]; intros b Hb; [constructor|]. destruct Hb as [|y b Hy Hb]; [constructor|]. constructor; [by apply lxor_u8|auto]. Qed.
Lemma bcmp_zero a b ret : length a = length b -> (timingsafe_bcmp a b ret =? 0) = bool_decide (ret = 0 /\ a = b).
Proof.
  revert b ret. induction a as [|x a IH]; intros [|y b] ret Hl; try done.
  - cbn. destruct (Z.eqb_spec ret 0); case_bool_decide; naive_solver.
  - cbn [timingsafe_bcmp]. rewrite IH by (cbn in Hl; lia). apply bool_decide_ext. rewrite Z.lor_eq_0_iff, Z.lxor_eq_0_iff. naive_solver.
Qed.

(** ** Packets *)

Definition same_keys (x y : chachapoly_ctx) : Prop :=
  same_key (main_ctx x) (main_ctx y) /\ same_key (header_ctx x) (header_ctx y).

(** The key of the authenticator, the cipher text and the tag of a packet. *)
Definition poly_key_of (ctx : chachapoly_ctx) (seqnr : Z) : list Z :=
  zip_with Z.lxor (zfill 32) (keystream 32 (chacha_ivsetup (POKE_U64 seqnr) None (main_ctx ctx))).
Definition header_stream (ctx : chachapoly_ctx) (seqnr n : Z) : list Z :=
  keystream n (chacha_ivsetup (POKE_U64 seqnr) None (header_ctx ctx)).
Definition body_stream (ctx : chachapoly_ctx) (seqnr n : Z) : list Z :=
  keystream n (chacha_ivsetup (POKE_U64 seqnr) (Some one) (main_ctx ctx)).
(** What encryption and decryption both do to the two parts. *)
Definition crypted (ctx : chachapoly_ctx) (seqnr aadlen len : Z) (src : list Z) : list Z :=
  zip_with Z.lxor (ztake aadlen src) (header_stream ctx seqnr aadlen) ++
  zip_with Z.lxor (zslice aadlen len src) (body_stream ctx seqnr len).

Lemma same_keys_streams x y seqnr : same_keys x y ->
  poly_key_of x seqnr = poly_key_of y seqnr /\
  (forall n, header_stream x seqnr n = header_stream y seqnr n) /\ (forall n, body_stream x seqnr n = body_stream y seqnr n).
Proof.
  intros [Hm Hh]. unfold poly_key_of, header_stream, body_stream.
  rewrite (ivsetup_same_key _ None _ _ Hm), (ivsetup_same_key _ (Some one) _ _ Hm), (ivsetup_same_key _ None _ _ Hh). done.
Qed.
Lemma poly_key_ok ctx seqnr : ctx_ok (main_ctx ctx) -> Forall is_u8 (poly_key_of ctx seqnr) /\ zlen (poly_key_of ctx seqnr) = 32.
Proof.
  intros Hc. split; [apply xor_bytes; [apply Forall_zfill|apply stream_bytes]|]. unfold poly_key_of. rewrite zlen_xor; [done|].
  apply (keystream_long 32); [|lia]. apply (same_key_ivsetup _ _ _ _ (same_key_refl _ Hc)).
Qed.
Section packet.
Context (ctx : chachapoly_ctx) (seqnr len aadlen : Z).
Context (Hctx : same_keys ctx ctx) (Hlen : 0 <= len) (Haad : 0 <= aadlen) (Hsum : aadlen + len + 16 < 2 ^ 32).

Lemma zlen_crypted src : aadlen + len <= zlen src -> zlen (crypted ctx seqnr aadlen len src) = aadlen + len.
Proof.
  intros Hs. destruct Hctx as [Hm Hh]. unfold crypted, header_stream, body_stream. rewrite zlen_app, !zlen_xor.
  - rewrite zlen_ztake, zlen_zslice by lia. done.
  - rewrite zlen_zslice by lia. apply keystream_long; [apply (same_key_ivsetup _ _ _ _ Hm)|lia].
  - rewrite zlen_ztake by lia. apply keystream_long; [apply (same_key_ivsetup _ _ _ _ Hh)|lia].
Qed.
Lemma crypted_bytes src : Forall is_u8 src -> Forall is_u8 (crypted ctx seqnr aadlen len src).
Proof.
  intros Hs. apply Forall_app. split; apply xor_bytes; try apply stream_bytes; [by apply Forall_ztake|by apply Forall_ztake, Forall_zdrop].
Qed.
(** Doing it twice gives the text back. *)
Lemma crypted_twice src rest :
  zlen src = aadlen + len -> crypted ctx seqnr aadlen len (crypted ctx seqnr aadlen len src ++ rest) = src.
Proof.
  intros Hs. destruct Hctx as [Hm Hh].
  set (c1 := zip_with Z.lxor (ztake aadlen src) (header_stream ctx seqnr aadlen)).
  set (c2 := zip_with Z.lxor (zslice aadlen len src) (body_stream ctx seqnr len)).
  assert (Z1 : zlen (ztake aadlen src) <= zlen (header_stream ctx seqnr aadlen)).
  { rewrite zlen_ztake by lia. apply keystream_long; [apply (same_key_ivsetup _ _ _ _ Hh)|lia]. }
  assert (Z2 : zlen (zslice aadlen len src) <= zlen (body_stream ctx seqnr len)).
  { rewrite zlen_zslice by lia. apply keystream_long; [apply (same_key_ivsetup _ _ _ _ Hm)|lia]. }
  assert (L1 : zlen c1 = aadlen) by (subst c1; rewrite zlen_xor, zlen_ztake by lia; done).
  assert (L2 : zlen c2 = len) by (subst c2; rewrite zlen_xor, zlen_zslice by lia; done).
  unfold crypted at 1. change (crypted ctx seqnr aadlen len src) with (c1 ++ c2). rewrite <- app_assoc.
  rewrite (ztake_app_exact c1) by done. unfold zslice at 1. rewrite (zdrop_app_exact c1), (ztake_app_exact c2) by done.
  subst c1 c2. rewrite !xor_twice by done. unfold zslice. rewrite <- (ztake_zdrop aadlen src) at 3. f_equal.
  apply ztake_all. rewrite zlen_zdrop by lia. lia.
Qed.
(** The two writes of the crypted parts. *)
Lemma crypt_writes src dest :
  aadlen + len <= zlen src -> aadlen + len <= zlen dest ->
  let c1 := zip_with Z.lxor (ztake aadlen src) (header_stream ctx seqnr aadlen) in
  let c2 := zip_with Z.lxor (zslice aadlen len src) (body_stream ctx seqnr len) in
  ztake (aadlen + len) (zwrite aadlen c2 (zwrite 0 c1 dest)) = crypted ctx seqnr aadlen len src /\
  zlen (zwrite aadlen c2 (zwrite 0 c1 dest)) = zlen dest.
Proof.
  intros Hs Hd c1 c2. destruct Hctx as [Hm Hh].
  assert (L1 : zlen c1 = aadlen).
  { subst c1. rewrite zlen_xor; rewrite zlen_ztake by lia; [done|]. apply keystream_long; [apply (same_key_ivsetup _ _ _ _ Hh)|lia]. }
  assert (L2 : zlen c2 = len).
  { subst c2. rewrite zlen_xor; rewrite zlen_zslice by lia; [done|]. apply keystream_long; [apply (same_key_ivsetup _ _ _ _ Hm)|lia]. }
  assert (L3 : zlen (zwrite 0 c1 dest) = zlen dest) by (apply zlen_zwrite; lia).
  split; [|rewrite zlen_zwrite; lia].
  pose proof (ztake_zwrite_end aadlen c2 (zwrite 0 c1 dest) ltac:(lia) ltac:(lia)) as E. rewrite L2 in E. rewrite E. unfold crypted. fold c1 c2. f_equal.
  pose proof (ztake_zwrite_end 0 c1 dest ltac:(lia) ltac:(lia)) as E1. rewrite L1, Z.add_0_l, (ztake_0 0 dest) in E1 by lia. exact E1.
Qed.
Lemma crypt_eq (dest src : list Z) (do_encrypt : bool) :
  Forall is_u8 src -> aadlen + len <= zlen src -> aadlen + len <= zlen dest ->
  (do_encrypt = false -> aadlen + len + 16 <= zlen src) -> (do_encrypt = true -> aadlen + len + 16 <= zlen dest) ->
  exists ctx' out, same_keys ctx' ctx /\
    let n := aadlen + len in
    let refused := negb do_encrypt && negb (bool_decide (poly1305 (ztake n src) (poly_key_of ctx seqnr) = zslice n 16 src)) in
    chachapoly_crypt seqnr dest src len aadlen do_encrypt ctx = ((if refused then SSH_ERR_MAC_INVALID else 0, out), ctx') /\
    if refused then out = dest
    else zlen out = zlen dest /\ ztake n out = crypted ctx seqnr aadlen len src /\
      (do_encrypt = true -> ztake (n + 16) out = crypted ctx seqnr aadlen len src ++
        poly1305 (crypted ctx seqnr aadlen len src) (poly_key_of ctx seqnr)).
Proof.
  intros Hsrc Hs Hd Hsd Hde. pose proof Hctx as [Hm Hh]. destruct (poly_key_ok ctx seqnr (proj1 Hm)) as [Hk8 Hk32].
  unfold chachapoly_crypt. change (zfill POLY1305_KEYLEN) with (zfill 32). change POLY1305_TAGLEN with 16.
  pose proof (same_key_ivsetup (POKE_U64 seqnr) None _ _ Hm) as Hm1. rewrite chacha_xor by (apply Hm1 || apply Forall_zfill).
  change (zlen (zfill 32)) with 32. change (zip_with Z.lxor (zfill 32) _) with (poly_key_of ctx seqnr).
  set (m1 := at_counter _ _). assert (Km1 : same_key m1 (main_ctx ctx)) by (by apply same_key_at).
  rewrite (u32_id (aadlen + len)) by lia.
  assert (Hauth : forall p, Forall is_u8 p -> poly1305_auth p (poly_key_of ctx seqnr) = poly1305 p (poly_key_of ctx seqnr))
    by (intros p Hp; by apply poly1305_auth_eq).
  rewrite (Hauth (ztake _ src)) by (by apply Forall_ztake).
  set (refused := negb do_encrypt && negb (bool_decide _)).
  assert (Hr : negb do_encrypt && negb (timingsafe_bcmp (poly1305 (ztake (aadlen + len) src) (poly_key_of ctx seqnr))
    (zslice (aadlen + len) 16 src) 0 =? 0) = refused).
  { subst refused. destruct do_encrypt; [done|]. cbn [negb andb]. f_equal. rewrite bcmp_zero.
    - apply bool_decide_ext. naive_solver.
    - pose proof (zlen_poly1305 (ztake (aadlen + len) src) (poly_key_of ctx seqnr)) as Z1.
      pose proof (zlen_zslice (aadlen + len) 16 src ltac:(lia) ltac:(lia) ltac:(auto)) as Z2. unfold zlen in Z1, Z2. lia. }
  rewrite Hr. destruct refused.
  { eexists (mk_chachapoly m1 (header_ctx ctx)), dest. by split. }
  pose proof (same_key_ivsetup (POKE_U64 seqnr) None _ _ Hh) as Hh1.
  rewrite (ivsetup_same_key (POKE_U64 seqnr) (Some one) m1 (main_ctx ctx) Km1).
  pose proof (same_key_ivsetup (POKE_U64 seqnr) (Some one) _ _ Hm) as Hm2.
  rewrite (chacha_xor (chacha_ivsetup _ (Some one) _)) by (apply Hm2 || by apply Forall_ztake, Forall_zdrop).
  rewrite zlen_zslice by lia. set (m2 := at_counter _ _). fold (body_stream ctx seqnr len).
  assert (Km2 : same_key m2 (main_ctx ctx)) by (by apply same_key_at).
  destruct (crypt_writes src dest Hs Hd) as [Hw Hz].
  set (c1 := zip_with Z.lxor (ztake aadlen src) (header_stream ctx seqnr aadlen)) in *.
  set (c2 := zip_with Z.lxor (zslice aadlen len src) (body_stream ctx seqnr len)) in *.
  assert (Hhd : exists hd, same_key hd (header_ctx ctx) /\
    (if aadlen =? 0 then (header_ctx ctx, dest)
     else let '(header, c) := chacha_encrypt_bytes (chacha_ivsetup (POKE_U64 seqnr) None (header_ctx ctx)) (ztake aadlen src) in
          (header, zwrite 0 c dest)) = (hd, zwrite 0 c1 dest)).
  { destruct (Z.eqb_spec aadlen 0) as [Ha|Ha].
    - exists (header_ctx ctx). split; [done|]. f_equal. subst c1. rewrite Ha. rewrite ztake_0 by lia. done.
    - rewrite chacha_xor by (apply Hh1 || by apply Forall_ztake). rewrite zlen_ztake by lia. eexists. split; [|reflexivity]. by apply same_key_at. }
  destruct Hhd as (hd & Khd & ->). set (d := zwrite aadlen c2 (zwrite 0 c1 dest)) in *.
  eexists (mk_chachapoly m2 hd), _. split; [by split|]. split; [reflexivity|].
  destruct do_encrypt; [|done]. specialize (Hde eq_refl). rewrite Hw, Hauth by (by apply crypted_bytes).
  set (tag := poly1305 _ _). assert (Ht : zlen tag = 16) by apply zlen_poly1305.
  rewrite zlen_zwrite by lia. split; [done|]. split; [by rewrite ztake_zwrite by lia|]. intros _.
  pose proof (ztake_zwrite_end (aadlen + len) tag d ltac:(lia) ltac:(lia)) as E. rewrite Ht in E. by rewrite E, Hw.
Qed.
End packet.

Lemma zslice_app_exact (a b : list Z) n k : n = zlen a -> k = zlen b -> zslice n k (a ++ b) = b.
Proof. intros -> ->. unfold zslice. rewrite zdrop_app_exact by done. by apply ztake_all. Qed.
Lemma ctx_ok_load4 i p x : ctx_ok x -> ctx_ok (load4 i p x).
Proof. intros Hx. unfold load4, U8TO32_LITTLE. repeat apply ctx_ok_insert; try done; apply U8TO32_LE_range. Qed.
Lemma ctx_ok_keysetup k kbits x : ctx_ok x -> ctx_ok (chacha_keysetup k kbits x).
Proof. intros Hx. unfold chacha_keysetup. destruct (kbits =? 256); by repeat apply ctx_ok_load4. Qed.
(** The contexts that chachapoly_init sets up are good for packets. *)
Lemma chachapoly_init_keys key ctx : chachapoly_init key 64 = inr ctx -> same_keys ctx ctx.
Proof.
  assert (H0 : ctx_ok (zfill 16)) by (split; [done|]; apply (Forall_impl is_u8); [apply Forall_zfill|unfold is_u8; lia]).
  intros [= <-]. split; apply same_key_refl; by apply ctx_ok_keysetup.
Qed.
Lemma same_keys_sym x y : same_keys x y -> same_keys y x.
Proof. intros [Hm Hh]. split; by apply same_key_sym. Qed.
Lemma same_keys_trans x y z : same_keys x y -> same_keys y z -> same_keys x z.
Proof. intros [Hm Hh] [Hm' Hh']. split; by eapply same_key_trans. Qed.
Lemma same_keys_refl_l x y : same_keys x y -> same_keys x x.
Proof. intros H. exact (same_keys_trans _ _ _ H (same_keys_sym _ _ H)). Qed.
Lemma same_keys_refl_r x y : same_keys x y -> same_keys y y.
Proof. intros H. exact (same_keys_trans _ _ _ (same_keys_sym _ _ H) H). Qed.
Lemma crypted_same x y seqnr aadlen len src : same_keys x y -> crypted x seqnr aadlen len src = crypted y seqnr aadlen len src.
Proof. intros Hk. destruct (same_keys_streams x y seqnr Hk) as (_ & E1 & E2). unfold crypted. by rewrite E1, E2. Qed.
(** The encrypted length of a packet is its first four bytes. *)
Lemma ztake_crypted ctx seqnr len src :
  same_keys ctx ctx -> 4 <= zlen src ->
  ztake 4 (crypted ctx seqnr 4 len src) = zip_with Z.lxor (ztake 4 src) (header_stream ctx seqnr 4).
Proof.
  intros [_ Hh] Hs. unfold crypted. apply ztake_app_exact. rewrite zlen_xor; rewrite zlen_ztake by lia; [done|].
  apply keystream_long; [apply (same_key_ivsetup _ _ _ _ Hh)|lia].
Qed.
Lemma get_length_ok tx rx seqnr src cp :
  same_keys tx rx -> Forall is_u8 src -> 4 <= zlen src ->
  ztake 4 cp = zip_with Z.lxor (ztake 4 src) (header_stream tx seqnr 4) ->
  exists rx1, chachapoly_get_length seqnr (ztake 4 cp) 4 rx = (inr (PEEK_U32 (ztake 4 src)), rx1) /\ same_keys tx rx1.
Proof.
  intros Hk Hs Hz E. destruct (same_keys_streams _ _ seqnr Hk) as (_ & Ehd & _). destruct Hk as [Hm Hh].
  pose proof (same_key_ivsetup (POKE_U64 seqnr) None _ _ (same_key_sym _ _ Hh)) as Hh1.
  unfold chachapoly_get_length. rewrite (proj2 (Z.ltb_ge 4 4)) by lia. rewrite ztake_ztake, E by lia.
  rewrite chacha_xor by (apply Hh1 || (apply xor_bytes; [by apply Forall_ztake|apply stream_bytes])).
  assert (Zk : zlen (ztake 4 src) <= zlen (header_stream tx seqnr 4)).
  { rewrite zlen_ztake by lia. apply keystream_long; [|lia]. apply (same_key_ivsetup _ _ _ _ (same_key_refl _ (proj1 Hh))). }
  rewrite zlen_xor by done. rewrite zlen_ztake by lia. fold (header_stream rx seqnr 4). rewrite <- Ehd, xor_twice by done.
  eexists. split; [reflexivity|]. split; [done|]. apply same_key_sym, same_key_at, Hh1.
Qed.

(** ** What the cipher promises *)

(** Chacha_encrypt_bytes exclusive-ors the message with the key stream from
    the context's block counter on, whatever the length, and leaves the counter
    at the first block not used, with the carry into the upper word. *)
Theorem chacha_encrypt_correct x m :
  ctx_ok x -> Forall is_u8 m ->
  chacha_encrypt_bytes x m = (at_counter (counter x + blocks_of (zlen m)) x, zip_with Z.lxor m (keystream (zlen m) x)) /\
  zlen (keystream (zlen m) x) = 64 * blocks_of (zlen m) /\ zlen m <= 64 * blocks_of (zlen m) /\
  counter (at_counter (counter x + blocks_of (zlen m)) x) = (counter x + blocks_of (zlen m)) mod 2 ^ 64.
Proof.
  intros Hx Hm. zlen_facts. pose proof (blocks_of_nonneg (zlen m) ltac:(lia)). split; [by apply chacha_xor|].
  split; [|split; [lia|by apply counter_at]]. unfold keystream. rewrite zlen_stream by apply Hx. lia.
Qed.

(** C18: A packet that one side encrypts under a sequence number, the other side,
    with the same keys and number, decrypts to what was sent, whatever state
    earlier packets left the contexts in; the length in its first four bytes can
    be read before the rest has arrived; and the keys still agree afterwards. *)
Theorem chachapoly_roundtrip tx rx seqnr len aadlen src dest dest' :
  same_keys tx rx -> 0 <= len -> 0 <= aadlen -> aadlen + len + 16 < 2 ^ 32 ->
  Forall is_u8 src -> zlen src = aadlen + len -> aadlen + len + 16 <= zlen dest -> aadlen + len <= zlen dest' ->
  exists tx' rx' out plain,
    chachapoly_crypt seqnr dest src len aadlen true tx = ((0, out), tx') /\
    chachapoly_crypt seqnr dest' (ztake (aadlen + len + 16) out) len aadlen false rx = ((0, plain), rx') /\
    ztake (aadlen + len) plain = src /\ same_keys tx' rx' /\
    (aadlen = 4 -> exists rx1,
      chachapoly_get_length seqnr (ztake 4 out) 4 rx = (inr (PEEK_U32 (ztake 4 src)), rx1) /\ same_keys tx rx1).
Proof.
  intros Hk Hl Ha Hsum Hsrc Hs Hd Hd'.
  pose proof (same_keys_refl_l _ _ Hk) as Htx. pose proof (same_keys_refl_r _ _ Hk) as Hrx.
  destruct (same_keys_streams _ _ seqnr Hk) as (Ekey & Ehd & Ebody).
  destruct (crypt_eq tx seqnr len aadlen Htx Hl Ha Hsum dest src true) as (tx' & out & Ktx & Eenc & Hz & _ & Hout);
    [done|lia|lia|done|done|]. specialize (Hout eq_refl).
  set (c := crypted tx seqnr aadlen len src) in *. set (tag := poly1305 c (poly_key_of tx seqnr)) in *.
  assert (Zc : zlen c = aadlen + len) by (apply zlen_crypted; [done..|lia]).
  assert (Zt : zlen tag = 16) by apply zlen_poly1305.
  assert (Hc : Forall is_u8 c) by (by apply crypted_bytes).
  assert (Ht : Forall is_u8 tag) by apply poly1305_bytes.
  destruct (crypt_eq rx seqnr len aadlen Hrx Hl Ha Hsum dest' (c ++ tag) false) as (rx' & plain & Krx & Edec & Hrest);
    [by apply Forall_app|rewrite zlen_app; lia|lia|rewrite zlen_app; lia|done|].
  rewrite <- Ekey in Edec, Hrest. rewrite (ztake_app_exact c), (zslice_app_exact c tag) in Edec, Hrest by done.
  rewrite (bool_decide_true (poly1305 c _ = _)) in Edec, Hrest by done. cbn [negb andb] in Edec, Hrest.
  destruct Hrest as (_ & Hplain & _).
  exists tx', rx', out, plain. split; [exact Eenc|]. rewrite Hout. split; [exact Edec|]. split.
  { rewrite Hplain. rewrite <- (crypted_same tx rx seqnr aadlen len _ Hk). by apply crypted_twice. }
  split; [apply (same_keys_trans _ _ _ Ktx), (same_keys_trans _ _ _ Hk), same_keys_sym, Krx|].
  intros ->. eapply get_length_ok; [done|done|lia|]. rewrite <- (ztake_ztake 4 (4 + len + 16) out), Hout by lia.
  rewrite ztake_app_l by lia. subst c. apply ztake_crypted; [done|lia].
Qed.

(** A packet is decrypted exactly when the tag behind it is the Poly1305 tag
    of the whole cipher text, the encrypted length included, under the key of
    this sequence number; otherwise the code is SSH_ERR_MAC_INVALID and nothing
    is written to the destination. *)
Theorem chachapoly_rejects rx seqnr len aadlen packet dest :
  same_keys rx rx -> 0 <= len -> 0 <= aadlen -> aadlen + len + 16 < 2 ^ 32 ->
  Forall is_u8 packet -> aadlen + len + 16 <= zlen packet -> aadlen + len <= zlen dest ->
  let result := fst (chachapoly_crypt seqnr dest packet len aadlen false rx) in
  if bool_decide (poly1305 (ztake (aadlen + len) packet) (poly_key_of rx seqnr) = zslice (aadlen + len) 16 packet)
  then fst result = 0 /\ ztake (aadlen + len) (snd result) = crypted rx seqnr aadlen len packet
  else result = (SSH_ERR_MAC_INVALID, dest).
Proof.
  intros Hk Hl Ha Hsum Hp Hz Hd.
  destruct (crypt_eq rx seqnr len aadlen Hk Hl Ha Hsum dest packet false) as (rx' & out & _ & E & Hrest); [done|lia|lia|done|done|].
  cbv zeta. rewrite E. cbn [fst snd negb andb] in *. destruct (bool_decide _); cbn [negb] in *; [|by rewrite Hrest].
  split; [done|apply Hrest].
Qed.

(** Witnesses: the contexts of the key 0, 1, ... 63, and a packet of 9 bytes. *)
Definition demo_chacha : chachapoly_ctx :=
  let key := map Z.of_nat (seq 0 64) in
  mk_chachapoly (chacha_keysetup key 256 (zfill 16)) (chacha_keysetup (zdrop 32 key) 256 (zfill 16)).
Definition demo_plain : list Z := [0; 0; 0; 5; 104; 101; 108; 108; 111].
Definition demo_sent : list Z := snd (fst (chachapoly_crypt 7 (zfill 25) demo_plain 5 4 true demo_chacha)).
Lemma demo_chacha_keys : same_keys demo_chacha demo_chacha.
Proof. apply (chachapoly_init_keys (map Z.of_nat (seq 0 64))). reflexivity. Qed.

Lemma chacha_encrypt_correct_witness :
  ctx_ok (main_ctx demo_chacha) /\ counter (fst (chacha_encrypt_bytes (main_ctx demo_chacha) (zfill 65))) = 2.
Proof.
  assert (H : ctx_ok (main_ctx demo_chacha)) by apply demo_chacha_keys. split; [exact H|].
  destruct (chacha_encrypt_correct (main_ctx demo_chacha) (zfill 65) H (Forall_zfill 65)) as (-> & _ & _ & E).
  cbn [fst]. rewrite E. vm_compute. reflexivity.
Defined.
Lemma chachapoly_roundtrip_witness : exists rx' plain,
  chachapoly_crypt 7 (zfill 9) (ztake 25 demo_sent) 5 4 false demo_chacha = ((0, plain), rx') /\ ztake 9 plain = demo_plain.
Proof.
  destruct (chachapoly_roundtrip demo_chacha demo_chacha 7 5 4 demo_plain (zfill 25) (zfill 9) demo_chacha_keys)
    as (tx' & rx' & out & plain & E & E' & H & _); try lia; [repeat (constructor; [done|]); constructor|done|done|done|].
  exists rx', plain. unfold demo_sent. rewrite E. split; [exact E'|exact H].
Defined.
Lemma demo_plain_forged :
  bool_decide (poly1305 (ztake (4 + 5) (demo_plain ++ zfill 16)) (poly_key_of demo_chacha 8) =
    zslice (4 + 5) 16 (demo_plain ++ zfill 16)) = false.
Proof. vm_compute. reflexivity. Qed.
Lemma chachapoly_rejects_witness :
  fst (chachapoly_crypt 8 (zfill 9) (demo_plain ++ zfill 16) 5 4 false demo_chacha) = (SSH_ERR_MAC_INVALID, zfill 9).
Proof.
  assert (Hp : Forall is_u8 (demo_plain ++ zfill 16)).
  { apply Forall_app. split; [repeat (constructor; [done|]); constructor|apply Forall_zfill]. }
  assert (Hz : 4 + 5 + 16 <= zlen (demo_plain ++ zfill 16)) by (rewrite zlen_app, zlen_zfill by lia; change (zlen demo_plain) with 9; lia).
  pose proof (chachapoly_rejects demo_chacha 8 5 4 (demo_plain ++ zfill 16) (zfill 9) demo_chacha_keys
    ltac:(lia) ltac:(lia) ltac:(lia) Hp Hz ltac:(rewrite zlen_zfill; lia)) as H.
  cbv zeta in H. rewrite demo_plain_forged in H. exact H.
Defined.
