(* ===== verification/Mac.v ===== *)
(** * Message authentication codes: openssh/digest-openssl.c, hmac.c and mac.c

    The digests themselves are OpenSSL's ([EvpMd], with what its documentation
    promises in [EvpMdOk]).  hmac.c keeps two contexts that have absorbed the
    padded key and copies one of them for every message; what it computes is
    compared with the definition of HMAC.  mac.c chooses between HMAC and UMAC
    (umac.c, seen through the interface [Umac]), truncates and compares.

    A function that writes through a pointer returns the bytes written. *)

From stdpp Require Import list.
From S2P Require Import Prelude Sshbuf Poly1305 ChachaPoly.

Definition SSH_ERR_LIBCRYPTO_ERROR : Z := -22.
Definition UINT_MAX : Z := 2 ^ 32 - 1.

(** ** digest-openssl.c *)

Definition SSH_DIGEST_MAX_LENGTH : Z := 64.
Definition SSH_DIGEST_MD5 : Z := 0.
Definition SSH_DIGEST_SHA1 : Z := 1.
Definition SSH_DIGEST_SHA256 : Z := 2.
Definition SSH_DIGEST_SHA384 : Z := 3.
Definition SSH_DIGEST_SHA512 : Z := 4.
Definition SSH_DIGEST_MAX : Z := 5.

(** OpenSSL's message digests.  The EVP_MD that an entry of [digests] names is
    given by the entry's number; EVP_DigestFinal_ex sets the length to that of
    the bytes it wrote. *)
Class EvpMd := {
  EVP_MD_CTX : Type;
  sizeof_EVP_MD_CTX : Z;
  EVP_MD_CTX_init : EVP_MD_CTX;
  EVP_DigestInit_ex : EVP_MD_CTX -> Z -> bool * EVP_MD_CTX;
  EVP_MD_CTX_block_size : EVP_MD_CTX -> Z;
  EVP_MD_CTX_copy_ex : EVP_MD_CTX -> EVP_MD_CTX -> bool * EVP_MD_CTX;
  EVP_DigestUpdate : EVP_MD_CTX -> list Z -> bool * EVP_MD_CTX;
  EVP_DigestFinal_ex : EVP_MD_CTX -> bool * list Z * EVP_MD_CTX;
  EVP_Digest : list Z -> Z -> bool * list Z
}.

Record ssh_digest := mk_digest { dg_id : Z; dg_name : list Z; dg_len : Z }.
Definition digests : list ssh_digest :=
  [mk_digest SSH_DIGEST_MD5 (str "MD5") 16;
   mk_digest SSH_DIGEST_SHA1 (str "SHA1") 20;
   mk_digest SSH_DIGEST_SHA256 (str "SHA256") 32;
   mk_digest SSH_DIGEST_SHA384 (str "SHA384") 48;
   mk_digest SSH_DIGEST_SHA512 (str "SHA512") 64;
   mk_digest (-1) [] 0].

Definition ssh_digest_by_alg (alg : Z) : option ssh_digest :=
  if (alg <? 0) || (SSH_DIGEST_MAX <=? alg) then None
  else
    d ← digests !! Z.to_nat alg;
    if negb (dg_id d =? alg) then None else Some d.
Definition ssh_digest_bytes (alg : Z) : Z :=
  match ssh_digest_by_alg alg with None => 0 | Some d => dg_len d end.

Section Digest.
Context `{Allocator, EvpMd}.

Record ssh_digest_ctx := mk_dctx { d_alg : Z; d_mdctx : EVP_MD_CTX }.

Definition ssh_digest_blocksize (ctx : ssh_digest_ctx) : Z := EVP_MD_CTX_block_size (d_mdctx ctx).

Definition ssh_digest_start (alg : Z) : option ssh_digest_ctx :=
  _ ← ssh_digest_by_alg alg;
  _ ← heap_alloc (8 + sizeof_EVP_MD_CTX);
  let '(ok, c) := EVP_DigestInit_ex EVP_MD_CTX_init alg in
  if ok then Some (mk_dctx alg c) else None.

(** The code, and the context copied to. *)
Definition ssh_digest_copy_state (from to : ssh_digest_ctx) : Z * ssh_digest_ctx :=
  if negb (d_alg from =? d_alg to) then (SSH_ERR_INVALID_ARGUMENT, to)
  else
    let '(ok, c) := EVP_MD_CTX_copy_ex (d_mdctx to) (d_mdctx from) in
    (if ok then 0 else SSH_ERR_LIBCRYPTO_ERROR, mk_dctx (d_alg to) c).

Definition ssh_digest_update (ctx : ssh_digest_ctx) (m : list Z) : Z * ssh_digest_ctx :=
  let '(ok, c) := EVP_DigestUpdate (d_mdctx ctx) m in
  (if ok then 0 else SSH_ERR_LIBCRYPTO_ERROR, mk_dctx (d_alg ctx) c).

(** The code, the bytes put at [d] (room for [dlen]), and the context. *)
Definition ssh_digest_final (ctx : ssh_digest_ctx) (dlen : Z) : (Z * list Z) * ssh_digest_ctx :=
  match ssh_digest_by_alg (d_alg ctx) with
  | None => ((SSH_ERR_INVALID_ARGUMENT, []), ctx)
  | Some dg =>
      if (UINT_MAX <? dlen) || (dlen <? dg_len dg) then ((SSH_ERR_INVALID_ARGUMENT, []), ctx)
      else
        let '(ok, d, c) := EVP_DigestFinal_ex (d_mdctx ctx) in
        let ctx := mk_dctx (d_alg ctx) c in
        if negb ok then ((SSH_ERR_LIBCRYPTO_ERROR, []), ctx)
        else if negb (zlen d =? dg_len dg) then ((SSH_ERR_INTERNAL_ERROR, d), ctx)
        else ((0, d), ctx)
  end.

Definition ssh_digest_memory (alg : Z) (m : list Z) (dlen : Z) : Z * list Z :=
  match ssh_digest_by_alg alg with
  | None => (SSH_ERR_INVALID_ARGUMENT, [])
  | Some dg =>
      if UINT_MAX <? dlen then (SSH_ERR_INVALID_ARGUMENT, [])
      else if dlen <? dg_len dg then (SSH_ERR_INVALID_ARGUMENT, [])
      else
        let '(ok, d) := EVP_Digest m alg in
        if ok then (0, d) else (SSH_ERR_LIBCRYPTO_ERROR, [])
  end.

(** ** hmac.c *)

Record ssh_hmac_ctx := mk_hmac {
  h_alg : Z;
  h_ictx : ssh_digest_ctx;
  h_octx : ssh_digest_ctx;
  h_digest : ssh_digest_ctx;
  h_buf : list Z;
  h_buf_len : Z
}.

Definition ssh_hmac_bytes (alg : Z) : Z := ssh_digest_bytes alg.

Definition ssh_hmac_start (alg : Z) : option ssh_hmac_ctx :=
  _ ← heap_alloc 48;
  ictx ← ssh_digest_start alg;
  octx ← ssh_digest_start alg;
  digest ← ssh_digest_start alg;
  let buf_len := ssh_digest_blocksize ictx in
  _ ← heap_alloc buf_len;
  Some (mk_hmac alg ictx octx digest (zfill buf_len) buf_len).

(** for (i = 0; i < ctx->buf_len; i++) ctx->buf[i] ^= c *)
Definition xor_buf (c : Z) (buf : list Z) : list Z := map (fun b => Z.lxor b c) buf.

Definition ssh_hmac_init (ctx : ssh_hmac_ctx) (key : option (list Z)) (klen : Z) : Z * ssh_hmac_ctx :=
  let restart ctx :=
    let '(r, d) := ssh_digest_copy_state (h_ictx ctx) (h_digest ctx) in
    (if r <? 0 then -1 else 0, mk_hmac (h_alg ctx) (h_ictx ctx) (h_octx ctx) d (h_buf ctx) (h_buf_len ctx)) in
  match key with
  | None => restart ctx
  | Some key =>
      let '(r, bytes) := if klen <=? h_buf_len ctx then (0, ztake klen key)
                         else ssh_digest_memory (h_alg ctx) (ztake klen key) (h_buf_len ctx) in
      if r <? 0 then (-1, ctx)
      else
        let ibuf := xor_buf 0x36 (zwrite 0 bytes (h_buf ctx)) in
        let '(r1, ictx) := ssh_digest_update (h_ictx ctx) ibuf in
        if r1 <? 0 then (-1, mk_hmac (h_alg ctx) ictx (h_octx ctx) (h_digest ctx) ibuf (h_buf_len ctx))
        else
          let obuf := xor_buf (Z.lxor 0x36 0x5c) ibuf in
          let '(r2, octx) := ssh_digest_update (h_octx ctx) obuf in
          if r2 <? 0 then (-1, mk_hmac (h_alg ctx) ictx octx (h_digest ctx) obuf (h_buf_len ctx))
          else restart (mk_hmac (h_alg ctx) ictx octx (h_digest ctx) (zfill (h_buf_len ctx)) (h_buf_len ctx))
  end.

Definition ssh_hmac_update (ctx : ssh_hmac_ctx) (m : list Z) : Z * ssh_hmac_ctx :=
  let '(r, d) := ssh_digest_update (h_digest ctx) m in
  (r, mk_hmac (h_alg ctx) (h_ictx ctx) (h_octx ctx) d (h_buf ctx) (h_buf_len ctx)).

Definition ssh_hmac_final (ctx : ssh_hmac_ctx) (dlen : Z) : (Z * list Z) * ssh_hmac_ctx :=
  let len := ssh_digest_bytes (h_alg ctx) in
  let set d buf := mk_hmac (h_alg ctx) (h_ictx ctx) (h_octx ctx) d buf (h_buf_len ctx) in
  if dlen <? len then ((-1, []), ctx)
  else
    let '((r, inner), d) := ssh_digest_final (h_digest ctx) len in
    let buf := zwrite 0 inner (h_buf ctx) in
    if negb (r =? 0) then ((-1, []), set d buf)
    else
      let '(r, d) := ssh_digest_copy_state (h_octx ctx) d in
      if r <? 0 then ((-1, []), set d buf)
      else
        let '(r, d) := ssh_digest_update d (ztake len buf) in
        if r <? 0 then ((-1, []), set d buf)
        else
          let '((r, out), d) := ssh_digest_final d dlen in
          ((if r <? 0 then -1 else 0, out), set d buf).
End Digest.

(** ** mac.c *)

Definition SSH_DIGEST : Z := 1.
Definition SSH_UMAC : Z := 2.
Definition SSH_UMAC128 : Z := 3.

Record macalg := mk_macalg {
  ma_name : list Z; ma_type : Z; ma_alg : Z; ma_truncatebits : Z; ma_key_len : Z; ma_len : Z; ma_etm : bool
}.
Definition macs : list macalg :=
  [mk_macalg (str "hmac-sha1") SSH_DIGEST SSH_DIGEST_SHA1 0 0 0 false;
   mk_macalg (str "hmac-sha1-96") SSH_DIGEST SSH_DIGEST_SHA1 96 0 0 false;
   mk_macalg (str "hmac-sha2-256") SSH_DIGEST SSH_DIGEST_SHA256 0 0 0 false;
   mk_macalg (str "hmac-sha2-512") SSH_DIGEST SSH_DIGEST_SHA512 0 0 0 false;
   mk_macalg (str "hmac-md5") SSH_DIGEST SSH_DIGEST_MD5 0 0 0 false;
   mk_macalg (str "hmac-md5-96") SSH_DIGEST SSH_DIGEST_MD5 96 0 0 false;
   mk_macalg (str "umac-64@openssh.com") SSH_UMAC 0 0 128 64 false;
   mk_macalg (str "umac-128@openssh.com") SSH_UMAC128 0 0 128 128 false;
   mk_macalg (str "hmac-sha1-etm@openssh.com") SSH_DIGEST SSH_DIGEST_SHA1 0 0 0 true;
   mk_macalg (str "hmac-sha1-96-etm@openssh.com") SSH_DIGEST SSH_DIGEST_SHA1 96 0 0 true;
   mk_macalg (str "hmac-sha2-256-etm@openssh.com") SSH_DIGEST SSH_DIGEST_SHA256 0 0 0 true;
   mk_macalg (str "hmac-sha2-512-etm@openssh.com") SSH_DIGEST SSH_DIGEST_SHA512 0 0 0 true;
   mk_macalg (str "hmac-md5-etm@openssh.com") SSH_DIGEST SSH_DIGEST_MD5 0 0 0 true;
   mk_macalg (str "hmac-md5-96-etm@openssh.com") SSH_DIGEST SSH_DIGEST_MD5 96 0 0 true;
   mk_macalg (str "umac-64-etm@openssh.com") SSH_UMAC 0 0 128 64 true;
   mk_macalg (str "umac-128-etm@openssh.com") SSH_UMAC128 0 0 128 128 true].

(** umac.c and its 128-bit variant. *)
Class Umac := {
  umac_ctx : Type;
  umac_new : list Z -> option umac_ctx;
  umac_update : umac_ctx -> list Z -> umac_ctx;
  umac_final : umac_ctx -> list Z -> list Z * umac_ctx;
  umac128_new : list Z -> option umac_ctx;
  umac128_update : umac_ctx -> list Z -> umac_ctx;
  umac128_final : umac_ctx -> list Z -> list Z * umac_ctx
}.

Section Mac.
Context `{Allocator, EvpMd, Umac}.

Record sshmac := mk_mac {
  m_name : list Z;
  m_enabled : bool;
  m_mac_len : Z;
  m_key : option (list Z);
  m_key_len : Z;
  m_type : Z;
  m_etm : bool;
  m_hmac : option ssh_hmac_ctx;
  m_umac : option umac_ctx
}.
(** What calloc leaves. *)
Definition zero_mac : sshmac := mk_mac [] false 0 None 0 0 false None None.
Definition set_mac_enabled (e : bool) (m : sshmac) : sshmac :=
  mk_mac (m_name m) e (m_mac_len m) (m_key m) (m_key_len m) (m_type m) (m_etm m) (m_hmac m) (m_umac m).
Definition set_mac_key (k : option (list Z)) (klen : Z) (m : sshmac) : sshmac :=
  mk_mac (m_name m) (m_enabled m) (m_mac_len m) k klen (m_type m) (m_etm m) (m_hmac m) (m_umac m).
Definition set_mac_name (n : list Z) (m : sshmac) : sshmac :=
  mk_mac n (m_enabled m) (m_mac_len m) (m_key m) (m_key_len m) (m_type m) (m_etm m) (m_hmac m) (m_umac m).
Definition set_mac_ctx (h : option ssh_hmac_ctx) (u : option umac_ctx) (m : sshmac) : sshmac :=
  mk_mac (m_name m) (m_enabled m) (m_mac_len m) (m_key m) (m_key_len m) (m_type m) (m_etm m) h u.

Definition mac_setup_by_alg (mac : sshmac) (a : macalg) : Z * sshmac :=
  let trunc len := if negb (ma_truncatebits a =? 0) then ma_truncatebits a / 8 else len in
  if ma_type a =? SSH_DIGEST then
    match ssh_hmac_start (ma_alg a) with
    | None => (SSH_ERR_ALLOC_FAIL,
        mk_mac (m_name mac) (m_enabled mac) (m_mac_len mac) (m_key mac) (m_key_len mac) (ma_type a) (m_etm mac) None (m_umac mac))
    | Some c =>
        let n := ssh_hmac_bytes (ma_alg a) in
        (0, mk_mac (m_name mac) (m_enabled mac) (trunc n) (m_key mac) n (ma_type a) (ma_etm a) (Some c) (m_umac mac))
    end
  else (0, mk_mac (m_name mac) (m_enabled mac) (trunc (ma_len a / 8)) (m_key mac) (ma_key_len a / 8) (ma_type a) (ma_etm a)
             (m_hmac mac) None).

(** The loop over [macs]; with [mac] = NULL only the name is looked up. *)
Fixpoint find_mac (name : list Z) (l : list macalg) : option macalg :=
  match l with
  | [] => None
  | a :: l' => if bytes_eqb name (ma_name a) then Some a else find_mac name l'
  end.
Definition mac_setup (mac : sshmac) (name : list Z) : Z * sshmac :=
  match find_mac name macs with
  | None => (SSH_ERR_INVALID_ARGUMENT, mac)
  | Some a => mac_setup_by_alg mac a
  end.
Definition mac_setup_null (name : list Z) : Z :=
  match find_mac name macs with None => SSH_ERR_INVALID_ARGUMENT | Some _ => 0 end.

Definition mac_init (mac : sshmac) : Z * sshmac :=
  match m_key mac with
  | None => (SSH_ERR_INVALID_ARGUMENT, mac)
  | Some key =>
      if m_type mac =? SSH_DIGEST then
        match m_hmac mac with
        | None => (SSH_ERR_INVALID_ARGUMENT, mac)
        | Some c =>
            let '(r, c) := ssh_hmac_init c (Some key) (m_key_len mac) in
            (if r <? 0 then SSH_ERR_INVALID_ARGUMENT else 0, set_mac_ctx (Some c) (m_umac mac) mac)
        end
      else if m_type mac =? SSH_UMAC then
        let u := umac_new key in
        (if u is Some _ then 0 else SSH_ERR_ALLOC_FAIL, set_mac_ctx (m_hmac mac) u mac)
      else if m_type mac =? SSH_UMAC128 then
        let u := umac128_new key in
        (if u is Some _ then 0 else SSH_ERR_ALLOC_FAIL, set_mac_ctx (m_hmac mac) u mac)
      else (SSH_ERR_INVALID_ARGUMENT, mac)
  end.

(** The calls on the HMAC context, in a condition of [||]: the first that is
    negative ends it. *)
Fixpoint hmac_feed (chunks : list (list Z)) (c : ssh_hmac_ctx) : (Z * list Z) * ssh_hmac_ctx :=
  match chunks with
  | [] => ssh_hmac_final c SSH_DIGEST_MAX_LENGTH
  | m :: chunks' =>
      let '(r, c) := ssh_hmac_update c m in if r <? 0 then ((-1, []), c) else hmac_feed chunks' c
  end.
Definition hmac_of (c : ssh_hmac_ctx) (chunks : list (list Z)) : (Z * list Z) * ssh_hmac_ctx :=
  let '(r, c) := ssh_hmac_init c None 0 in
  if r <? 0 then ((-1, []), c) else hmac_feed chunks c.

(** The code and the bytes put at [digest], which has room for [dlen];
    [None] is NULL.  A NULL context is a crash, which the callers exclude: here
    it is the code -1000. *)
Definition NULL_CONTEXT : Z := -1000.
Definition mac_compute (mac : sshmac) (seqno : Z) (data : list Z) (dlen : option Z) : (Z * list Z) * sshmac :=
  if SSH_DIGEST_MAX_LENGTH <? m_mac_len mac then ((SSH_ERR_INTERNAL_ERROR, []), mac)
  else
    let copy (m : list Z) := match dlen with None => [] | Some n => ztake (Z.min n (m_mac_len mac)) m end in
    if m_type mac =? SSH_DIGEST then
      match m_hmac mac with
      | None => ((NULL_CONTEXT, []), mac)
      | Some c =>
          let '((r, d), c) := hmac_of c [POKE_U32 seqno; data] in
          let mac := set_mac_ctx (Some c) (m_umac mac) mac in
          if r <? 0 then ((SSH_ERR_LIBCRYPTO_ERROR, []), mac) else ((0, copy d), mac)
      end
    else if m_type mac =? SSH_UMAC then
      match m_umac mac with
      | None => ((NULL_CONTEXT, []), mac)
      | Some u =>
          let '(d, u) := umac_final (umac_update u data) (POKE_U64 seqno) in
          ((0, copy d), set_mac_ctx (m_hmac mac) (Some u) mac)
      end
    else if m_type mac =? SSH_UMAC128 then
      match m_umac mac with
      | None => ((NULL_CONTEXT, []), mac)
      | Some u =>
          let '(d, u) := umac128_final (umac128_update u data) (POKE_U64 seqno) in
          ((0, copy d), set_mac_ctx (m_hmac mac) (Some u) mac)
      end
    else ((SSH_ERR_INVALID_ARGUMENT, []), mac).

Definition mac_check (mac : sshmac) (seqno : Z) (data theirmac : list Z) (mlen : Z) : Z * sshmac :=
  if mlen <? m_mac_len mac then (SSH_ERR_INVALID_ARGUMENT, mac)
  else
    let '((r, ourmac), mac) := mac_compute mac seqno data (Some SSH_DIGEST_MAX_LENGTH) in
    if negb (r =? 0) then (r, mac)
    else if negb (timingsafe_bcmp ourmac (ztake (m_mac_len mac) theirmac) 0 =? 0) then (SSH_ERR_MAC_INVALID, mac)
    else (0, mac).

Definition mac_clear (mac : sshmac) : sshmac := set_mac_ctx None None mac.
End Mac.

(** ** What OpenSSL promises *)

(** A context holds the bytes given to it since it was initialised; the final
    call gives their digest, whose length is that of the algorithm. *)
Class EvpMdOk `{EvpMd} := {
  md_hash : Z -> list Z -> list Z;
  md_block : Z -> Z;
  md_holds : Z -> EVP_MD_CTX -> list Z -> Prop;
  md_init_ok : forall alg c, 0 <= alg < SSH_DIGEST_MAX ->
    exists c', EVP_DigestInit_ex c alg = (true, c') /\ md_holds alg c' [];
  md_block_ok : forall alg c l, md_holds alg c l -> EVP_MD_CTX_block_size c = md_block alg;
  md_copy_ok : forall alg c l to, md_holds alg c l ->
    exists c', EVP_MD_CTX_copy_ex to c = (true, c') /\ md_holds alg c' l;
  md_update_ok : forall alg c l m, md_holds alg c l ->
    exists c', EVP_DigestUpdate c m = (true, c') /\ md_holds alg c' (l ++ m);
  md_final_ok : forall alg c l, md_holds alg c l -> exists c', EVP_DigestFinal_ex c = (true, md_hash alg l, c');
  md_digest_ok : forall alg m, 0 <= alg < SSH_DIGEST_MAX -> EVP_Digest m alg = (true, md_hash alg m);
  md_hash_len : forall alg l, 0 <= alg < SSH_DIGEST_MAX -> zlen (md_hash alg l) = ssh_digest_bytes alg;
  md_hash_u8 : forall alg l, Forall is_u8 (md_hash alg l);
  md_block_range : forall alg, 0 <= alg < SSH_DIGEST_MAX -> ssh_digest_bytes alg <= md_block alg <= 4096;
  md_ctx_size : 0 <= sizeof_EVP_MD_CTX <= 4096
}.

Section Hmac.
Context {al : Allocator} {altot : @AllocTotal al} {md : EvpMd} {mdok : @EvpMdOk md}.

(** The key, hashed when it is longer than a block, filled with zeros. *)
Definition hmac_key (alg : Z) (key : list Z) : list Z :=
  let k := if zlen key <=? md_block alg then key else md_hash alg key in k ++ zfill (md_block alg - zlen k).
(** HMAC, as RFC 2104 defines it. *)
Definition hmac (alg : Z) (key m : list Z) : list Z :=
  md_hash alg (xor_buf 0x5c (hmac_key alg key) ++ md_hash alg (xor_buf 0x36 (hmac_key alg key) ++ m)).

Definition holds (alg : Z) (c : ssh_digest_ctx) (l : list Z) : Prop := d_alg c = alg /\ md_holds alg (d_mdctx c) l.

Lemma digest_by_alg alg : 0 <= alg < SSH_DIGEST_MAX -> exists d, ssh_digest_by_alg alg = Some d /\ dg_len d = ssh_digest_bytes alg.
Proof.
  unfold SSH_DIGEST_MAX. intros Ha. assert (Hc : alg = 0 \/ alg = 1 \/ alg = 2 \/ alg = 3 \/ alg = 4) by lia.
  destruct Hc as [->|[->|[->|[->| ->]]]]; eexists; (split; [vm_compute; reflexivity|reflexivity]).
Qed.
Lemma digest_bytes_range alg : 0 <= alg < SSH_DIGEST_MAX -> 16 <= ssh_digest_bytes alg <= 64.
Proof.
  unfold SSH_DIGEST_MAX. intros Ha. assert (Hc : alg = 0 \/ alg = 1 \/ alg = 2 \/ alg = 3 \/ alg = 4) by lia.
  destruct Hc as [->|[->|[->|[->| ->]]]]; vm_compute; split; discriminate.
Qed.
Lemma digest_start_ok alg : 0 <= alg < SSH_DIGEST_MAX -> exists c, ssh_digest_start alg = Some c /\ holds alg c [].
Proof.
  intros Ha. destruct (digest_by_alg alg Ha) as (d & E & _). destruct (md_init_ok alg EVP_MD_CTX_init Ha) as (c & Ei & Hc).
  destruct (alloc_total (8 + sizeof_EVP_MD_CTX)) as [p Ep]; [pose proof md_ctx_size; unfold SSHBUF_SIZE_MAX; lia|].
  exists (mk_dctx alg c). unfold ssh_digest_start. rewrite E. cbn. rewrite Ep. cbn. rewrite Ei. by split.
Qed.
Lemma digest_copy_ok alg from to l : holds alg from l -> d_alg to = alg ->
  exists c, ssh_digest_copy_state from to = (0, c) /\ holds alg c l.
Proof.
  intros [Ha Hh] Ht. destruct (md_copy_ok alg _ _ (d_mdctx to) Hh) as (c & E & Hc). exists (mk_dctx alg c).
  unfold ssh_digest_copy_state. rewrite Ha, Ht, Z.eqb_refl, E. by split.
Qed.
Lemma digest_update_ok alg c l m : holds alg c l -> exists c', ssh_digest_update c m = (0, c') /\ holds alg c' (l ++ m).
Proof.
  intros [Ha Hh]. destruct (md_update_ok alg _ _ m Hh) as (c' & E & Hc). exists (mk_dctx alg c').
  unfold ssh_digest_update. rewrite E, Ha. by split.
Qed.
Lemma digest_final_ok alg c l dlen : 0 <= alg < SSH_DIGEST_MAX -> holds alg c l -> ssh_digest_bytes alg <= dlen <= UINT_MAX ->
  exists c', ssh_digest_final c dlen = ((0, md_hash alg l), c') /\ d_alg c' = alg.
Proof.
  intros Hr [Ha Hh] Hd. destruct (digest_by_alg alg Hr) as (d & E & El). destruct (md_final_ok alg _ _ Hh) as (c' & Ef).
  exists (mk_dctx alg c'). unfold ssh_digest_final. rewrite Ha, E, El.
  rewrite (proj2 (Z.ltb_ge UINT_MAX dlen)), (proj2 (Z.ltb_ge dlen _)), Ef by lia. cbn [orb negb].
  by rewrite md_hash_len, Z.eqb_refl by done.
Qed.
Lemma digest_memory_ok alg m dlen : 0 <= alg < SSH_DIGEST_MAX -> ssh_digest_bytes alg <= dlen <= UINT_MAX ->
  ssh_digest_memory alg m dlen = (0, md_hash alg m).
Proof.
  intros Hr Hd. destruct (digest_by_alg alg Hr) as (d & E & El). unfold ssh_digest_memory. rewrite E, El.
  rewrite (proj2 (Z.ltb_ge UINT_MAX dlen)), (proj2 (Z.ltb_ge dlen _)) by lia. by rewrite md_digest_ok.
Qed.

(** A context whose two digests have absorbed the key. *)
Record hmac_ready (alg : Z) (key : list Z) (c : ssh_hmac_ctx) : Prop := {
  hr_alg : h_alg c = alg;
  hr_ictx : holds alg (h_ictx c) (xor_buf 0x36 (hmac_key alg key));
  hr_octx : holds alg (h_octx c) (xor_buf 0x5c (hmac_key alg key));
  hr_digest : d_alg (h_digest c) = alg;
  hr_buf : zlen (h_buf c) = md_block alg;
  hr_buf_len : h_buf_len c = md_block alg
}.

Lemma zwrite_zfill (k : list Z) n : zlen k <= n -> zwrite 0 k (zfill n) = k ++ zfill (n - zlen k).
Proof.
  intros Hk. zlen_facts. unfold zwrite. rewrite ztake_0 by lia. cbn [app]. rewrite Z.add_0_l. f_equal. unfold zfill, zdrop.
  rewrite drop_replicate. f_equal. lia.
Qed.
Lemma xor_buf_twice (l : list Z) : xor_buf (Z.lxor 0x36 0x5c) (xor_buf 0x36 l) = xor_buf 0x5c l.
Proof. unfold xor_buf. rewrite map_map. apply map_ext. intros b. by rewrite Z.lxor_assoc, <- (Z.lxor_assoc 0x36), Z.lxor_nilpotent, Z.lxor_0_l. Qed.
Lemma hmac_restart_ok alg key c : hmac_ready alg key c ->
  exists c', ssh_hmac_init c None 0 = (0, c') /\ hmac_ready alg key c' /\ holds alg (h_digest c') (xor_buf 0x36 (hmac_key alg key)).
Proof.
  intros [Ha Hi Ho Hd Hb Hl]. destruct (digest_copy_ok _ _ (h_digest c) _ Hi Hd) as (d & E & Hh).
  unfold ssh_hmac_init. rewrite E. eexists. split; [reflexivity|]. split; [|done]. split; try done. apply Hh.
Qed.
Lemma hmac_start_ok alg key : 0 <= alg < SSH_DIGEST_MAX ->
  exists c0 c1, ssh_hmac_start alg = Some c0 /\ ssh_hmac_init c0 (Some key) (zlen key) = (0, c1) /\ hmac_ready alg key c1.
Proof.
  intros Ha. pose proof (md_block_range alg Ha) as Hb. pose proof (digest_bytes_range alg Ha) as Hd.
  destruct (alloc_total 48) as [p Ep]; [unfold SSHBUF_SIZE_MAX; lia|].
  destruct (alloc_total (md_block alg)) as [q Eq]; [unfold SSHBUF_SIZE_MAX; lia|].
  destruct (digest_start_ok alg Ha) as (c & Ec & Hc). pose proof (md_block_ok alg _ _ (proj2 Hc)) as Hbs.
  exists (mk_hmac alg c c c (zfill (md_block alg)) (md_block alg)).
  set (k := if zlen key <=? md_block alg then key else md_hash alg key).
  assert (Hk : zlen k <= md_block alg).
  { subst k. destruct (Z.leb_spec (zlen key) (md_block alg)); [done|]. rewrite md_hash_len by done. lia. }
  assert (Hbuf : zwrite 0 k (zfill (md_block alg)) = hmac_key alg key).
  { unfold hmac_key. fold k. zlen_facts. apply (zwrite_zfill k). lia. }
  assert (Hbytes : (if zlen key <=? md_block alg then (0, ztake (zlen key) key)
                    else ssh_digest_memory alg (ztake (zlen key) key) (md_block alg)) = (0, k)).
  { subst k. rewrite (ztake_all (zlen key)) by lia. destruct (zlen key <=? md_block alg); [done|]. apply digest_memory_ok; [done|].
    unfold UINT_MAX. lia. }
  destruct (digest_update_ok alg c [] (xor_buf 0x36 (hmac_key alg key)) Hc) as (ci & Ei & Hi).
  destruct (digest_update_ok alg c [] (xor_buf 0x5c (hmac_key alg key)) Hc) as (co & Eo & Ho).
  destruct (digest_copy_ok alg ci c _ Hi (proj1 Hc)) as (cd & Ed & Hcd).
  eexists. split; [|split].
  - unfold ssh_hmac_start. rewrite Ep. cbn. rewrite !Ec. cbn. unfold ssh_digest_blocksize. rewrite Hbs, Eq. reflexivity.
  - unfold ssh_hmac_init. cbn [h_buf_len h_alg h_buf h_ictx h_octx h_digest]. rewrite Hbytes, Hbuf, xor_buf_twice, Ei. cbn [Z.ltb Z.compare].
    rewrite Eo. cbn [Z.ltb Z.compare h_ictx h_digest]. rewrite Ed. reflexivity.
  - split; try done; [apply Hcd|]. cbn. apply zlen_zfill. lia.
Qed.
Lemma hmac_final_ok alg key c m : 0 <= alg < SSH_DIGEST_MAX -> hmac_ready alg key c ->
  holds alg (h_digest c) (xor_buf 0x36 (hmac_key alg key) ++ m) ->
  exists c', ssh_hmac_final c SSH_DIGEST_MAX_LENGTH = ((0, hmac alg key m), c') /\ hmac_ready alg key c'.
Proof.
  intros Ha [Hal Hi Ho Hd Hb Hl] Hm. pose proof (digest_bytes_range alg Ha) as Hn. pose proof (md_block_range alg Ha) as Hbl.
  unfold ssh_hmac_final, SSH_DIGEST_MAX_LENGTH. rewrite Hal, (proj2 (Z.ltb_ge 64 _)) by lia.
  destruct (digest_final_ok alg _ _ (ssh_digest_bytes alg) Ha Hm) as (d1 & E1 & A1); [unfold UINT_MAX; lia|]. rewrite E1. cbn [Z.eqb negb].
  destruct (digest_copy_ok alg _ d1 _ Ho A1) as (d2 & E2 & H2). rewrite E2. cbn [Z.ltb Z.compare].
  set (inner := md_hash alg _). assert (Zi : zlen inner = ssh_digest_bytes alg) by (by apply md_hash_len).
  assert (Et : ztake (ssh_digest_bytes alg) (zwrite 0 inner (h_buf c)) = inner).
  { pose proof (ztake_zwrite_end 0 inner (h_buf c) ltac:(lia) ltac:(lia)) as E. rewrite Zi, Z.add_0_l, (ztake_0 0) in E by lia. exact E. }
  rewrite Et. destruct (digest_update_ok alg d2 _ inner H2) as (d3 & E3 & H3). rewrite E3. cbn [Z.ltb Z.compare].
  destruct (digest_final_ok alg d3 _ 64 Ha H3) as (d4 & E4 & A4); [unfold UINT_MAX; lia|]. rewrite E4. cbn [Z.ltb Z.compare].
  eexists. split; [reflexivity|]. split; try done. cbn. rewrite zlen_zwrite; lia.
Qed.
Lemma hmac_feed_ok alg key chunks c m : 0 <= alg < SSH_DIGEST_MAX -> hmac_ready alg key c ->
  holds alg (h_digest c) (xor_buf 0x36 (hmac_key alg key) ++ m) ->
  exists c', hmac_feed chunks c = ((0, hmac alg key (m ++ concat chunks)), c') /\ hmac_ready alg key c'.
Proof.
  intros Ha. revert c m. induction chunks as [|x chunks IH]; intros c m Hc Hm.
  - cbn [concat hmac_feed]. rewrite app_nil_r. by apply hmac_final_ok.
  - cbn [hmac_feed concat]. unfold ssh_hmac_update. destruct (digest_update_ok alg _ _ x Hm) as (d & E & Hd). rewrite E. cbn [Z.ltb Z.compare].
    rewrite app_assoc. apply IH; [|by rewrite app_assoc]. destruct Hc. split; try done. apply Hd.
Qed.
Lemma hmac_of_ok alg key chunks c : 0 <= alg < SSH_DIGEST_MAX -> hmac_ready alg key c ->
  exists c', hmac_of c chunks = ((0, hmac alg key (concat chunks)), c') /\ hmac_ready alg key c'.
Proof.
  intros Ha Hc. destruct (hmac_restart_ok _ _ _ Hc) as (c1 & E & H1 & Hd). unfold hmac_of. rewrite E. cbn [Z.ltb Z.compare].
  apply (hmac_feed_ok alg key chunks c1 [] Ha H1). by rewrite app_nil_r.
Qed.
End Hmac.

(** What umac.c promises: a tag of the key, the bytes since the last tag and
    the nonce. *)
Class UmacOk `{Umac} := {
  umac_tag : list Z -> list Z -> list Z -> list Z;
  umac128_tag : list Z -> list Z -> list Z -> list Z;
  umac_holds : list Z -> umac_ctx -> list Z -> Prop;
  umac128_holds : list Z -> umac_ctx -> list Z -> Prop;
  umac_new_ok : forall key, exists c, umac_new key = Some c /\ umac_holds key c [];
  umac_update_ok : forall key c l m, umac_holds key c l -> umac_holds key (umac_update c m) (l ++ m);
  umac_final_ok : forall key c l nonce, umac_holds key c l ->
    exists c', umac_final c nonce = (umac_tag key l nonce, c') /\ umac_holds key c' [];
  umac128_new_ok : forall key, exists c, umac128_new key = Some c /\ umac128_holds key c [];
  umac128_update_ok : forall key c l m, umac128_holds key c l -> umac128_holds key (umac128_update c m) (l ++ m);
  umac128_final_ok : forall key c l nonce, umac128_holds key c l ->
    exists c', umac128_final c nonce = (umac128_tag key l nonce, c') /\ umac128_holds key c' [];
  umac_tag_len : forall key l nonce, zlen (umac_tag key l nonce) = 8;
  umac128_tag_len : forall key l nonce, zlen (umac128_tag key l nonce) = 16;
  umac_tag_u8 : forall key l nonce, Forall is_u8 (umac_tag key l nonce);
  umac128_tag_u8 : forall key l nonce, Forall is_u8 (umac128_tag key l nonce)
}.

Section MacOk.
Context {al : Allocator} {altot : @AllocTotal al} {md : EvpMd} {mdok : @EvpMdOk md} {um : Umac} {umok : @UmacOk um}.

(** The untruncated code of a packet. *)
Definition mac_tag (type alg : Z) (key : list Z) (seqno : Z) (data : list Z) : list Z :=
  if type =? SSH_DIGEST then hmac alg key (POKE_U32 seqno ++ data)
  else if type =? SSH_UMAC then umac_tag key data (POKE_U64 seqno)
  else umac128_tag key data (POKE_U64 seqno).
Definition tag_len (type alg : Z) : Z := if type =? SSH_DIGEST then ssh_digest_bytes alg else if type =? SSH_UMAC then 8 else 16.

(** A MAC that mac_init has keyed. *)
Record mac_ready (alg : Z) (key : list Z) (m : sshmac) : Prop := {
  mr_type : (m_type m = SSH_DIGEST /\ 0 <= alg < SSH_DIGEST_MAX /\ exists c, m_hmac m = Some c /\ hmac_ready alg key c) \/
            (m_type m = SSH_UMAC /\ exists u, m_umac m = Some u /\ umac_holds key u []) \/
            (m_type m = SSH_UMAC128 /\ exists u, m_umac m = Some u /\ umac128_holds key u []);
  mr_len : 0 < m_mac_len m <= tag_len (m_type m) alg
}.
(** The fields that computing a code leaves alone. *)
Definition same_mac (m m' : sshmac) : Prop :=
  m_mac_len m' = m_mac_len m /\ m_type m' = m_type m /\ m_etm m' = m_etm m /\ m_enabled m' = m_enabled m /\ m_key m' = m_key m /\
  m_key_len m' = m_key_len m /\ m_name m' = m_name m.
Definition mac_out (alg : Z) (key : list Z) (m : sshmac) (seqno : Z) (data : list Z) : list Z :=
  ztake (m_mac_len m) (mac_tag (m_type m) alg key seqno data).

Lemma tag_len_range alg key m : mac_ready alg key m -> 8 <= tag_len (m_type m) alg <= 64.
Proof.
  intros [[(-> & Ha & _)|[[-> _]|[-> _]]] _]; cbn; [|lia..]. pose proof (digest_bytes_range alg Ha). lia.
Qed.
Lemma zlen_mac_tag alg key m seqno data : mac_ready alg key m -> zlen (mac_tag (m_type m) alg key seqno data) = tag_len (m_type m) alg.
Proof.
  intros [[(-> & Ha & _)|[[-> _]|[-> _]]] _]; cbn; [by apply md_hash_len|apply umac_tag_len|apply umac128_tag_len].
Qed.
Lemma zlen_mac_out alg key m seqno data : mac_ready alg key m -> zlen (mac_out alg key m seqno data) = m_mac_len m.
Proof. intros Hm. unfold mac_out. rewrite zlen_ztake; [done|]. rewrite (zlen_mac_tag alg key m) by done. destruct Hm as [_ Hl]. lia. Qed.
Lemma mac_out_bytes alg key m seqno data : Forall is_u8 (mac_out alg key m seqno data).
Proof.
  apply Forall_ztake. unfold mac_tag. destruct (_ =? _); [apply md_hash_u8|]. destruct (_ =? _); [apply umac_tag_u8|apply umac128_tag_u8].
Qed.

Lemma mac_compute_ok alg key m seqno data dlen : mac_ready alg key m -> m_mac_len m <= dlen ->
  exists m', mac_compute m seqno data (Some dlen) = ((0, mac_out alg key m seqno data), m') /\ mac_ready alg key m' /\ same_mac m m'.
Proof.
  intros Hm Hd. pose proof (tag_len_range _ _ _ Hm) as Ht. destruct Hm as [Htype Hlen].
  unfold mac_compute, mac_out, SSH_DIGEST_MAX_LENGTH. rewrite (proj2 (Z.ltb_ge 64 _)), Z.min_r by lia.
  destruct Htype as [(Et & Ha & c & Ec & Hc)|[(Et & u & Eu & Hu)|(Et & u & Eu & Hu)]]; rewrite !Et in *; cbn [Z.eqb Pos.eqb SSH_DIGEST SSH_UMAC SSH_UMAC128].
  - rewrite Ec. destruct (hmac_of_ok alg key [POKE_U32 seqno; data] c Ha Hc) as (c' & E & Hc'). rewrite E. cbn [Z.ltb Z.compare concat].
    rewrite app_nil_r. eexists. split; [unfold mac_tag; reflexivity|]. split; [|done]. split; [|by rewrite <- Et in Hlen]. left. eauto.
  - rewrite Eu. destruct (umac_final_ok key _ _ (POKE_U64 seqno) (umac_update_ok key u [] data Hu)) as (c' & E & Hc'). rewrite E.
    eexists. split; [reflexivity|]. split; [|done]. split; [|by rewrite <- Et in Hlen]. right; left. eauto.
  - rewrite Eu. destruct (umac128_final_ok key _ _ (POKE_U64 seqno) (umac128_update_ok key u [] data Hu)) as (c' & E & Hc'). rewrite E.
    eexists. split; [reflexivity|]. split; [|done]. split; [|by rewrite <- Et in Hlen]. right; right. eauto.
Qed.
Lemma mac_check_ok alg key m seqno data theirs mlen : mac_ready alg key m -> m_mac_len m <= mlen -> m_mac_len m <= zlen theirs ->
  exists m', mac_check m seqno data theirs mlen =
    (if bool_decide (ztake (m_mac_len m) theirs = mac_out alg key m seqno data) then 0 else SSH_ERR_MAC_INVALID, m') /\
    mac_ready alg key m' /\ same_mac m m'.
Proof.
  intros Hm Hl Hz. pose proof (tag_len_range _ _ _ Hm) as Ht. pose proof (mr_len _ _ _ Hm) as Hr.
  destruct (mac_compute_ok alg key m seqno data SSH_DIGEST_MAX_LENGTH Hm) as (m' & E & Hm' & Hs); [unfold SSH_DIGEST_MAX_LENGTH; lia|].
  exists m'. split; [|done]. unfold mac_check. rewrite (proj2 (Z.ltb_ge mlen _)), E by lia. cbn [Z.eqb negb].
  destruct Hs as (Es & _). rewrite Es.
  rewrite bcmp_zero.
  - rewrite (bool_decide_ext (0 = 0 /\ mac_out alg key m seqno data = ztake (m_mac_len m) theirs) (ztake (m_mac_len m) theirs = mac_out alg key m seqno data))
      by naive_solver. by destruct (bool_decide _).
  - pose proof (zlen_mac_out alg key m seqno data Hm) as Z1. pose proof (zlen_ztake (m_mac_len m) theirs ltac:(lia)) as Z2. unfold zlen in Z1, Z2. lia.
Qed.

(** Setting up a MAC by name and keying it. *)
Lemma find_mac_in name a : find_mac name macs = Some a -> a ∈ macs.
Proof.
  generalize macs. intros l. induction l as [|x l IH]; [done|]. cbn. destruct (bytes_eqb name (ma_name x)).
  - intros [= ->]. apply list_elem_of_here.
  - intros Hf. apply list_elem_of_further. by apply IH.
Qed.
Lemma macs_sane : Forall (fun a =>
  (ma_type a = SSH_DIGEST /\ 0 <= ma_alg a < SSH_DIGEST_MAX /\
   (ma_truncatebits a = 0 \/ ma_truncatebits a = 96 /\ 12 <= ssh_digest_bytes (ma_alg a))) \/
  (ma_truncatebits a = 0 /\ ma_key_len a = 128 /\ (ma_type a = SSH_UMAC /\ ma_len a = 64 \/ ma_type a = SSH_UMAC128 /\ ma_len a = 128))) macs.
Proof.
  unfold macs. repeat (constructor; [first [left; split; [reflexivity|]; split; [by vm_compute|];
    first [left; reflexivity|right; split; [reflexivity|by vm_compute]]|
    right; split; [reflexivity|]; split; [reflexivity|]; first [left; done|right; done]]|]). constructor.
Qed.
Lemma hmac_init_key c key klen : ssh_hmac_init c (Some (ztake klen key)) klen = ssh_hmac_init c (Some key) klen.
Proof. unfold ssh_hmac_init. by rewrite ztake_ztake by done. Qed.
Lemma mac_setup_ok name a : find_mac name macs = Some a ->
  exists m, mac_setup zero_mac name = (0, m) /\ m_etm m = ma_etm a /\ m_enabled m = false /\
    0 < m_key_len m <= 64 /\ 0 < m_mac_len m <= 64 /\
    forall key, m_key_len m <= zlen key -> exists m' key', mac_init (set_mac_key (Some key) (m_key_len m) m) = (0, m') /\
      mac_ready (ma_alg a) key' m' /\ m_etm m' = ma_etm a /\ m_mac_len m' = m_mac_len m /\ m_enabled m' = m_enabled m.
Proof.
  intros Hf. pose proof (find_mac_in _ _ Hf) as Hin.
  pose proof (proj1 (Forall_forall _ _) macs_sane a Hin) as Hs. cbn beta in Hs. unfold mac_setup. rewrite Hf. unfold mac_setup_by_alg.
  destruct Hs as [(Et & Ha & Htr)|(Etr & Ekl & Ht)].
  - rewrite Et. cbn [SSH_DIGEST Z.eqb Pos.eqb]. pose proof (digest_bytes_range _ Ha) as Hb.
    destruct (hmac_start_ok (ma_alg a) [] Ha) as (c0 & _ & E0 & _). rewrite E0. eexists. split; [reflexivity|].
    cbn [m_etm m_enabled m_key_len m_mac_len]. split; [done|]. split; [done|]. unfold ssh_hmac_bytes. split; [lia|].
    assert (Hl : 0 < (if negb (ma_truncatebits a =? 0) then ma_truncatebits a / 8 else ssh_digest_bytes (ma_alg a)) <= ssh_digest_bytes (ma_alg a)).
    { destruct Htr as [->|[-> Hge]]; cbn [Z.eqb negb]; [lia|]. change (96 / 8) with 12. lia. }
    split; [lia|]. intros key Hk. cbn [m_key_len] in Hk.
    assert (Zk : zlen (ztake (ssh_digest_bytes (ma_alg a)) key) = ssh_digest_bytes (ma_alg a)) by (apply zlen_ztake; lia).
    destruct (hmac_start_ok (ma_alg a) (ztake (ssh_digest_bytes (ma_alg a)) key) Ha) as (c0' & c1 & E0' & E1 & Hr). rewrite E0 in E0'. injection E0' as <-.
    unfold mac_init, set_mac_key. cbn [m_key m_type m_hmac m_key_len]. cbn [SSH_DIGEST Z.eqb Pos.eqb]. rewrite Zk, hmac_init_key in E1. rewrite E1. cbn [Z.ltb Z.compare].
    eexists _, _. split; [reflexivity|]. split; [|done]. split; cbn [m_type set_mac_ctx m_mac_len m_hmac]; [left; eauto|].
    unfold tag_len. cbn [SSH_DIGEST Z.eqb Pos.eqb]. exact Hl.
  - rewrite Etr, Ekl. cbn [Z.eqb negb]. change (128 / 8) with 16.
    destruct Ht as [[Et El]|[Et El]]; rewrite Et, El; cbn [SSH_DIGEST SSH_UMAC SSH_UMAC128 Z.eqb Pos.eqb];
      (eexists; split; [reflexivity|]; cbn [m_etm m_enabled m_key_len m_mac_len]; split; [done|]; split; [done|];
       change (64 / 8) with 8; change (128 / 8) with 16; split; [lia|]; split; [lia|]; intros key Hk).
    + destruct (umac_new_ok key) as (u & Eu & Hu). unfold mac_init, set_mac_key. cbn [m_key m_type SSH_DIGEST SSH_UMAC Z.eqb Pos.eqb]. rewrite Eu.
      eexists _, key. split; [reflexivity|]. split; [|done]. split; [right; left; cbn; eauto|cbn; lia].
    + destruct (umac128_new_ok key) as (u & Eu & Hu). unfold mac_init, set_mac_key.
      cbn [m_key m_type SSH_DIGEST SSH_UMAC SSH_UMAC128 Z.eqb Pos.eqb]. rewrite Eu.
      eexists _, key. split; [reflexivity|]. split; [|done]. split; [right; right; cbn; eauto|cbn; lia].
Qed.

(** C20: An HMAC context that was started for one of the digests and given a key
    of any length computes HMAC: every message given to it in pieces, the
    context being reset in between, gets the code of the concatenated pieces
    under that key. *)
Theorem hmac_correct alg key msgs : 0 <= alg < SSH_DIGEST_MAX ->
  exists c0 c1, ssh_hmac_start alg = Some c0 /\ ssh_hmac_init c0 (Some key) (zlen key) = (0, c1) /\
    let run := foldl (fun '(c, outs) chunks => let '(r, c') := hmac_of c chunks in (c', outs ++ [r])) (c1, []) msgs in
    snd run = map (fun chunks => (0, hmac alg key (concat chunks))) msgs.
Proof.
  intros Ha. destruct (hmac_start_ok alg key Ha) as (c0 & c1 & E0 & E1 & Hr). exists c0, c1. split; [done|]. split; [done|].
  assert (Hrun : forall outs c, hmac_ready alg key c ->
    snd (foldl (fun '(c, outs) chunks => let '(r, c') := hmac_of c chunks in (c', outs ++ [r])) (c, outs) msgs)
    = outs ++ map (fun chunks => (0, hmac alg key (concat chunks))) msgs).
  { clear E1 Hr E0. induction msgs as [|m msgs IH]; intros outs c Hc; cbn [foldl map]; [by rewrite app_nil_r|].
    destruct (hmac_of_ok alg key m c Ha Hc) as (c' & -> & Hc'). rewrite IH by done. by rewrite <- app_assoc. }
  cbv zeta. by rewrite Hrun.
Qed.
End MacOk.

(** ** A concrete library *)

(** A context is the algorithm and the bytes; the digest repeats the sum of
    the bytes. *)
Definition demo_hash (alg : Z) (l : list Z) : list Z :=
  replicate (Z.to_nat (ssh_digest_bytes alg)) (foldr Z.add 0 l mod 256).
Definition demo_evp_md : EvpMd := {|
  EVP_MD_CTX := Z * list Z;
  sizeof_EVP_MD_CTX := 48;
  EVP_MD_CTX_init := (0, []);
  EVP_DigestInit_ex _ alg := (true, (alg, []));
  EVP_MD_CTX_block_size c := if fst c <? 3 then 64 else 128;
  EVP_MD_CTX_copy_ex _ from := (true, from);
  EVP_DigestUpdate c m := (true, (fst c, snd c ++ m));
  EVP_DigestFinal_ex c := (true, demo_hash (fst c) (snd c), c);
  EVP_Digest m alg := (true, demo_hash alg m) |}.
Lemma demo_hash_u8 alg l : Forall is_u8 (demo_hash alg l).
Proof. unfold demo_hash. apply Forall_replicate. apply Z.mod_pos_bound. lia. Qed.
Definition demo_evp_md_ok : @EvpMdOk demo_evp_md.
Proof.
  refine {| md_hash := demo_hash : Z -> list Z -> list Z;
            md_block := fun alg => if alg <? 3 then 64 else 128;
            md_holds := fun alg (c : @EVP_MD_CTX demo_evp_md) l => c = (alg, l) |}.
  - intros alg c _. by exists (alg, []).
  - by intros alg c l ->.
  - intros alg c l to ->. by exists (alg, l).
  - intros alg c l m ->. by exists (alg, l ++ m).
  - intros alg c l ->. by exists (alg, l).
  - done.
  - intros alg l Ha. unfold demo_hash, zlen. rewrite length_replicate. pose proof (digest_bytes_range alg Ha). lia.
  - apply demo_hash_u8.
  - unfold SSH_DIGEST_MAX. intros alg Ha. assert (Hc : alg = 0 \/ alg = 1 \/ alg = 2 \/ alg = 3 \/ alg = 4) by lia.
    destruct Hc as [->|[->|[->|[->| ->]]]]; vm_compute; split; discriminate.
  - cbn. lia.
Defined.

Lemma hmac_correct_witness :
  exists c0 c1, @ssh_hmac_start demo_heap demo_evp_md 2 = Some c0 /\ ssh_hmac_init c0 (Some [1; 2; 3]) 3 = (0, c1) /\
    fst (hmac_of c1 [[4]; [5]]) = (0, @hmac demo_evp_md demo_evp_md_ok 2 [1; 2; 3] [4; 5]).
Proof.
  destruct (@hmac_correct demo_heap demo_heap_total demo_evp_md demo_evp_md_ok 2 [1; 2; 3] [[[4]; [5]]]) as (c0 & c1 & E0 & E1 & E).
  { vm_compute. split; [discriminate|reflexivity]. }
  exists c0, c1. split; [exact E0|]. split; [exact E1|]. cbn [foldl snd app] in E. destruct (hmac_of c1 [[4]; [5]]) as [r c']. cbn in E.
  injection E as E. exact E.
Defined.
