(* ===== verification/Cipher.v ===== *)
(** * The ciphers of the transport: openssh/cipher.c

    A table names the ciphers; a context is the chacha20-poly1305 of
    ChachaPoly.v, the null cipher, or a context of OpenSSL ([EvpCipher]).
    The code is the one compiled with OpenSSL.

    [CryptPair] is what the packet layer needs of the two contexts at the ends
    of one direction, whatever the cipher; it is implemented by
    chacha20-poly1305 and by the null cipher, and by OpenSSL's ciphers when
    they keep [EvpPair]. *)

From stdpp Require Import list.
From S2P Require Import Prelude Sshbuf Poly1305 ChachaPoly Mac.

(** ** The table *)

Inductive evp_type :=
  | EVP_des_ede3_cbc | EVP_aes_128_cbc | EVP_aes_192_cbc | EVP_aes_256_cbc
  | EVP_aes_128_ctr | EVP_aes_192_ctr | EVP_aes_256_ctr | EVP_aes_128_gcm | EVP_aes_256_gcm.

Definition CFLAG_CBC : Z := Z.shiftl 1 0.
Definition CFLAG_CHACHAPOLY : Z := Z.shiftl 1 1.
Definition CFLAG_AESCTR : Z := Z.shiftl 1 2.
Definition CFLAG_NONE : Z := Z.shiftl 1 3.
Definition CFLAG_INTERNAL : Z := CFLAG_NONE.

Record sshcipher := mk_cipher {
  ci_name : list Z;
  ci_block_size : Z;
  ci_key_len : Z;
  ci_iv_len : Z;
  ci_auth_len : Z;
  ci_flags : Z;
  ci_evptype : option evp_type
}.
Definition ciphers : list sshcipher :=
  [mk_cipher (str "3des-cbc") 8 24 0 0 CFLAG_CBC (Some EVP_des_ede3_cbc);
   mk_cipher (str "aes128-cbc") 16 16 0 0 CFLAG_CBC (Some EVP_aes_128_cbc);
   mk_cipher (str "aes192-cbc") 16 24 0 0 CFLAG_CBC (Some EVP_aes_192_cbc);
   mk_cipher (str "aes256-cbc") 16 32 0 0 CFLAG_CBC (Some EVP_aes_256_cbc);
   mk_cipher (str "rijndael-cbc@lysator.liu.se") 16 32 0 0 CFLAG_CBC (Some EVP_aes_256_cbc);
   mk_cipher (str "aes128-ctr") 16 16 0 0 0 (Some EVP_aes_128_ctr);
   mk_cipher (str "aes192-ctr") 16 24 0 0 0 (Some EVP_aes_192_ctr);
   mk_cipher (str "aes256-ctr") 16 32 0 0 0 (Some EVP_aes_256_ctr);
   mk_cipher (str "aes128-gcm@openssh.com") 16 16 12 16 0 (Some EVP_aes_128_gcm);
   mk_cipher (str "aes256-gcm@openssh.com") 16 32 12 16 0 (Some EVP_aes_256_gcm);
   mk_cipher (str "chacha20-poly1305@openssh.com") 8 64 0 16 CFLAG_CHACHAPOLY None;
   mk_cipher (str "none") 8 0 0 0 CFLAG_NONE None].

Definition flag (c : sshcipher) (bits : Z) : bool := truthy (Z.land (ci_flags c) bits).

Definition cipher_blocksize (c : sshcipher) : Z := ci_block_size c.
Definition cipher_keylen (c : sshcipher) : Z := ci_key_len c.
Definition cipher_seclen (c : sshcipher) : Z :=
  if bytes_eqb (str "3des-cbc") (ci_name c) then 14 else cipher_keylen c.
Definition cipher_authlen (c : sshcipher) : Z := ci_auth_len c.
Definition cipher_ivlen (c : sshcipher) : Z :=
  if negb (ci_iv_len c =? 0) || flag c CFLAG_CHACHAPOLY then ci_iv_len c else ci_block_size c.
Definition cipher_is_cbc (c : sshcipher) : bool := flag c CFLAG_CBC.

Fixpoint find_cipher (name : list Z) (l : list sshcipher) : option sshcipher :=
  match l with
  | [] => None
  | c :: l' => if bytes_eqb (ci_name c) name then Some c else find_cipher name l'
  end.
Definition cipher_by_name (name : list Z) : option sshcipher := find_cipher name ciphers.

(** The loops of cipher_alg_list and its like: the names with [sep] between
    them, in a block that realloc makes longer; NULL when it fails, or when
    there is no name. *)
Fixpoint grow_list {al : Allocator} (sep : Z) (ret : option (list Z)) (names : list (list Z)) : option (list Z) :=
  match names with
  | [] => ret
  | n :: names' =>
      let pre := match ret with None => [] | Some r => r ++ [sep] end in
      match heap_alloc (zlen pre + zlen n + 2) with
      | None => None
      | Some _ => grow_list sep (Some (pre ++ n)) names'
      end
  end.
Definition cipher_alg_list {al : Allocator} (sep : Z) (auth_only : bool) : option (list Z) :=
  grow_list sep None (map ci_name (List.filter (fun c =>
    negb (flag c CFLAG_INTERNAL) && negb (auth_only && (ci_auth_len c =? 0))) ciphers)).

(** ** OpenSSL's ciphers *)

(** EVP_CipherInit, EVP_CIPHER_CTX_ctrl (one method for each command) and the
    three uses of EVP_Cipher: additional data, text, and the end. *)
Class EvpCipher := {
  EVP_CIPHER_CTX : Type;
  EVP_CIPHER_CTX_new : option EVP_CIPHER_CTX;
  EVP_CipherInit_type : EVP_CIPHER_CTX -> evp_type -> option (list Z) -> bool -> bool * EVP_CIPHER_CTX;
  EVP_CipherInit_key : EVP_CIPHER_CTX -> list Z -> bool * EVP_CIPHER_CTX;
  EVP_CTRL_GCM_SET_IV_FIXED : EVP_CIPHER_CTX -> option (list Z) -> bool * EVP_CIPHER_CTX;
  EVP_CTRL_GCM_IV_GEN : EVP_CIPHER_CTX -> Z -> bool * EVP_CIPHER_CTX;
  EVP_CTRL_GCM_SET_TAG : EVP_CIPHER_CTX -> list Z -> bool * EVP_CIPHER_CTX;
  EVP_CTRL_GCM_GET_TAG : EVP_CIPHER_CTX -> Z -> bool * list Z * EVP_CIPHER_CTX;
  EVP_CIPHER_CTX_key_length : EVP_CIPHER_CTX -> Z;
  EVP_CIPHER_CTX_set_key_length : EVP_CIPHER_CTX -> Z -> bool * EVP_CIPHER_CTX;
  EVP_Cipher_aad : EVP_CIPHER_CTX -> list Z -> Z * EVP_CIPHER_CTX;
  EVP_Cipher : EVP_CIPHER_CTX -> list Z -> Z * list Z * EVP_CIPHER_CTX;
  EVP_Cipher_final : EVP_CIPHER_CTX -> Z * EVP_CIPHER_CTX
}.

Section Cipher.
Context `{Allocator, EvpCipher}.

(** struct sshcipher_ctx; [cc_evp] is NULL for the ciphers of the table that
    are not OpenSSL's. *)
Record sshcipher_ctx := mk_cc {
  cc_plaintext : bool;
  cc_encrypt : bool;
  cc_evp : option EVP_CIPHER_CTX;
  cc_cp : chachapoly_ctx;
  cc_cipher : sshcipher
}.
Definition zero_cp : chachapoly_ctx := mk_chachapoly (zfill 16) (zfill 16).
Definition set_cp (cp : chachapoly_ctx) (cc : sshcipher_ctx) : sshcipher_ctx :=
  mk_cc (cc_plaintext cc) (cc_encrypt cc) (cc_evp cc) cp (cc_cipher cc).
Definition set_evp (e : EVP_CIPHER_CTX) (cc : sshcipher_ctx) : sshcipher_ctx :=
  mk_cc (cc_plaintext cc) (cc_encrypt cc) (Some e) (cc_cp cc) (cc_cipher cc).

Definition cipher_ctx_is_plaintext (cc : sshcipher_ctx) : bool := cc_plaintext cc.

(** From the call of evptype on: the EVP context, or the code. *)
Definition evp_open (cipher : sshcipher) (type : evp_type) (key : list Z) (keylen : Z) (iv : option (list Z))
    (do_encrypt : bool) : Z + EVP_CIPHER_CTX :=
  match EVP_CIPHER_CTX_new with
  | None => inl SSH_ERR_ALLOC_FAIL
  | Some e =>
      let '(ok, e) := EVP_CipherInit_type e type iv do_encrypt in
      if negb ok then inl SSH_ERR_LIBCRYPTO_ERROR
      else
        let '(ok, e) := if cipher_authlen cipher =? 0 then (true, e) else EVP_CTRL_GCM_SET_IV_FIXED e iv in
        if negb ok then inl SSH_ERR_LIBCRYPTO_ERROR
        else
          let klen := EVP_CIPHER_CTX_key_length e in
          let '(ok, e) := if (0 <? klen) && negb (keylen =? klen) then EVP_CIPHER_CTX_set_key_length e keylen else (true, e) in
          if negb ok then inl SSH_ERR_LIBCRYPTO_ERROR
          else
            let '(ok, e) := EVP_CipherInit_key e (ztake keylen key) in
            if negb ok then inl SSH_ERR_LIBCRYPTO_ERROR else inr e
  end.

(** The context, or the code.  struct sshcipher_ctx has 416 bytes. *)
Definition cipher_init (cipher : sshcipher) (key : list Z) (keylen : Z) (iv : option (list Z)) (ivlen : Z)
    (do_encrypt : bool) : Z + sshcipher_ctx :=
  match heap_alloc 416 with
  | None => inl SSH_ERR_ALLOC_FAIL
  | Some _ =>
      let cc := mk_cc (flag cipher CFLAG_NONE) do_encrypt None zero_cp cipher in
      if (keylen <? cipher_keylen cipher) || (bool_decide (iv <> None) && (ivlen <? cipher_ivlen cipher))
      then inl SSH_ERR_INVALID_ARGUMENT
      else if flag cipher CFLAG_CHACHAPOLY then
        match chachapoly_init key keylen with inl r => inl r | inr cp => inr (set_cp cp cc) end
      else if flag cipher CFLAG_NONE then inr cc
      else
        match ci_evptype cipher with
        | None => inl NULL_CONTEXT
        | Some type =>
            match evp_open cipher type key keylen iv do_encrypt with inl r => inl r | inr e => inr (set_evp e cc) end
        end
  end.

(** The branch of OpenSSL: the steps in order, each with its code. *)
Definition evp_crypt (cc : sshcipher_ctx) (e : EVP_CIPHER_CTX) (dest src : list Z) (len aadlen authlen : Z)
    : (Z * list Z) * EVP_CIPHER_CTX :=
  let fail r dest e := ((r, dest), e) in
  let auth := negb (authlen =? 0) in
  if auth && negb (authlen =? cipher_authlen (cc_cipher cc)) then fail SSH_ERR_INVALID_ARGUMENT dest e
  else
    let '(ok, e) := if auth then EVP_CTRL_GCM_IV_GEN e 1 else (true, e) in
    if negb ok then fail SSH_ERR_LIBCRYPTO_ERROR dest e
    else
      let '(ok, e) := if auth && negb (cc_encrypt cc) then EVP_CTRL_GCM_SET_TAG e (zslice (aadlen + len) authlen src) else (true, e) in
      if negb ok then fail SSH_ERR_LIBCRYPTO_ERROR dest e
      else
        let '(r, e) := if negb (aadlen =? 0) && auth then EVP_Cipher_aad e (ztake aadlen src) else (0, e) in
        if r <? 0 then fail SSH_ERR_LIBCRYPTO_ERROR dest e
        else
          let dest := zwrite 0 (ztake aadlen src) dest in
          if negb (len mod ci_block_size (cc_cipher cc) =? 0) then fail SSH_ERR_INVALID_ARGUMENT dest e
          else
            let '(r, text, e) := EVP_Cipher e (zslice aadlen len src) in
            if r <? 0 then fail SSH_ERR_LIBCRYPTO_ERROR dest e
            else
              let dest := zwrite aadlen text dest in
              if negb auth then fail 0 dest e
              else
                let '(r, e) := EVP_Cipher_final e in
                if r <? 0 then fail (if cc_encrypt cc then SSH_ERR_LIBCRYPTO_ERROR else SSH_ERR_MAC_INVALID) dest e
                else if negb (cc_encrypt cc) then fail 0 dest e
                else
                  let '(ok, tag, e) := EVP_CTRL_GCM_GET_TAG e authlen in
                  if negb ok then fail SSH_ERR_LIBCRYPTO_ERROR dest e
                  else fail 0 (zwrite (aadlen + len) tag dest) e.

Definition cipher_crypt (cc : sshcipher_ctx) (seqnr : Z) (dest src : list Z) (len aadlen authlen : Z)
    : (Z * list Z) * sshcipher_ctx :=
  if flag (cc_cipher cc) CFLAG_CHACHAPOLY then
    let '(r, cp) := chachapoly_crypt seqnr dest src len aadlen (cc_encrypt cc) (cc_cp cc) in (r, set_cp cp cc)
  else if flag (cc_cipher cc) CFLAG_NONE then ((0, zwrite 0 (ztake (u32 (aadlen + len)) src) dest), cc)
  else
    match cc_evp cc with
    | None => ((NULL_CONTEXT, dest), cc)
    | Some e => let '(r, e) := evp_crypt cc e dest src len aadlen authlen in (r, set_evp e cc)
    end.

Definition cipher_get_length (cc : sshcipher_ctx) (seqnr : Z) (cp : list Z) (len : Z) : (Z + Z) * sshcipher_ctx :=
  if flag (cc_cipher cc) CFLAG_CHACHAPOLY then
    let '(r, cx) := chachapoly_get_length seqnr cp len (cc_cp cc) in (r, set_cp cx cc)
  else if len <? 4 then (inl SSH_ERR_MESSAGE_INCOMPLETE, cc)
  else (inr (PEEK_U32 cp), cc).

(** ** What the packet layer needs *)

(** The contexts at the two ends of a direction, for a cipher with blocks of
    [bs] bytes and a tag of [authlen] bytes (0: none).  [R] relates them before
    and after every packet.  A packet is [src]: four bytes of length, then the
    rest; the bytes sent for it are [wire]. *)
Class CryptPair (bs authlen : Z) (R : sshcipher_ctx -> sshcipher_ctx -> Prop) : Prop := {
  pair_sizes : 8 <= bs <= 16 /\ 0 <= authlen <= 16;
  (** The length is set apart: its four bytes, then [len] bytes in whole
      blocks, then the tag. *)
  pair_apart : forall tx rx seqnr src dest len,
    R tx rx -> Forall is_u8 src -> 0 <= len <= 2 ^ 20 -> len mod bs = 0 -> zlen src = 4 + len ->
    zlen dest = 4 + len + authlen ->
    exists tx' wire,
      cipher_crypt tx seqnr dest src len 4 authlen = ((0, wire), tx') /\
      zlen wire = 4 + len + authlen /\ Forall is_u8 wire /\
      exists rx1, R tx rx1 /\
        (forall cp n, 4 <= n -> ztake 4 cp = ztake 4 wire -> cipher_get_length rx seqnr cp n = (inr (PEEK_U32 src), rx1)) /\
        forall cp dest', Forall is_u8 cp -> ztake (4 + len + authlen) cp = wire -> zlen dest' = 4 + len ->
          exists rx', cipher_crypt rx1 seqnr dest' cp len 4 authlen = ((0, src), rx') /\ R tx' rx';
  pair_short : forall tx rx seqnr cp n, R tx rx -> n < 4 -> cipher_get_length rx seqnr cp n = (inl SSH_ERR_MESSAGE_INCOMPLETE, rx);
  (** The length is part of the text: the first block is decrypted on its own,
      under some other sequence number. *)
  pair_whole : forall tx rx seqnr src dest len,
    authlen = 0 -> R tx rx -> Forall is_u8 src -> bs <= len <= 2 ^ 20 -> len mod bs = 0 -> zlen src = len -> zlen dest = len ->
    exists tx' wire,
      cipher_crypt tx seqnr dest src len 0 0 = ((0, wire), tx') /\ zlen wire = len /\ Forall is_u8 wire /\
      forall seqnr1 cp dest1, Forall is_u8 cp -> ztake bs cp = ztake bs wire -> zlen dest1 = bs ->
        exists rx1, cipher_crypt rx seqnr1 dest1 cp bs 0 0 = ((0, ztake bs src), rx1) /\
          forall cp' dest2, Forall is_u8 cp' -> ztake (len - bs) cp' = zdrop bs wire -> zlen dest2 = len - bs ->
            exists rx', cipher_crypt rx1 seqnr dest2 cp' (len - bs) 0 0 = ((0, zdrop bs src), rx') /\ R tx' rx'
}.
End Cipher.

(** ** chacha20-poly1305 *)

Definition chachapoly_cipher : sshcipher :=
  mk_cipher (str "chacha20-poly1305@openssh.com") 8 64 0 16 CFLAG_CHACHAPOLY None.
Definition none_cipher : sshcipher := mk_cipher (str "none") 8 0 0 0 CFLAG_NONE None.

Section Pairs.
Context {al : Allocator} {ev : EvpCipher}.

Definition chacha_paired (tx rx : sshcipher_ctx) : Prop :=
  cc_cipher tx = chachapoly_cipher /\ cc_cipher rx = chachapoly_cipher /\ cc_encrypt tx = true /\ cc_encrypt rx = false /\
  same_keys (cc_cp tx) (cc_cp rx).

Lemma split_cp (n : Z) (cp wire : list Z) : ztake n cp = wire -> cp = wire ++ zdrop n cp.
Proof. intros <-. symmetry. apply ztake_zdrop. Qed.

#[export] Instance chacha_pair : CryptPair 8 16 chacha_paired.
Proof.
  split; [lia| | |intros; lia].
  - intros tx rx seqnr src dest len (Ht & Hr & Et & Er & Hk) Hsrc Hl _ Hs Hd.
    pose proof (same_keys_refl_l _ _ Hk) as Htx. pose proof (same_keys_refl_r _ _ Hk) as Hrx.
    destruct (same_keys_streams _ _ seqnr Hk) as (Ekey & _).
    destruct (crypt_eq (cc_cp tx) seqnr len 4 Htx ltac:(lia) ltac:(lia) ltac:(lia) dest src true) as (tx' & out & Ktx & Eenc & Hz & _ & Hout);
      [done|lia|lia|done|lia|]. specialize (Hout eq_refl).
    set (c := crypted (cc_cp tx) seqnr 4 len src) in *. set (tag := poly1305 c (poly_key_of (cc_cp tx) seqnr)) in *.
    assert (Zc : zlen c = 4 + len) by (apply zlen_crypted; [done|lia..]). assert (Zt : zlen tag = 16) by apply zlen_poly1305.
    assert (Hc : Forall is_u8 c) by (by apply crypted_bytes). assert (Hw : out = c ++ tag) by (rewrite <- Hout; symmetry; apply ztake_all; lia).
    exists (set_cp tx' tx), (c ++ tag). split; [|split; [rewrite zlen_app; lia|split; [apply Forall_app; split; [done|apply poly1305_bytes]|]]].
    { unfold cipher_crypt. rewrite Ht, Et. change (flag chachapoly_cipher CFLAG_CHACHAPOLY) with true. cbv iota. cbn [negb andb] in Eenc. by rewrite Eenc, Hw. }
    assert (H4 : ztake 4 (c ++ tag) = zip_with Z.lxor (ztake 4 src) (header_stream (cc_cp tx) seqnr 4)).
    { rewrite ztake_app_l by lia. subst c. apply ztake_crypted; [done|lia]. }
    destruct (get_length_ok (cc_cp tx) (cc_cp rx) seqnr src (c ++ tag) Hk Hsrc ltac:(lia) H4) as (rx1 & Eget & Hk1).
    exists (set_cp rx1 rx). split; [done|]. split.
    + intros cp n Hn E4. unfold cipher_get_length. rewrite Hr. change (flag chachapoly_cipher CFLAG_CHACHAPOLY) with true. cbv iota.
      assert (E : chachapoly_get_length seqnr cp n (cc_cp rx) = chachapoly_get_length seqnr (ztake 4 (c ++ tag)) 4 (cc_cp rx)).
      { unfold chachapoly_get_length. rewrite (proj2 (Z.ltb_ge n 4)), (proj2 (Z.ltb_ge 4 4)) by lia. rewrite <- E4, ztake_ztake by lia. done. }
      rewrite E, Eget. by rewrite PEEK_U32_ztake by lia.
    + intros cp dest' Hcp Ew Hd'. pose proof (same_keys_refl_r _ _ Hk1) as Hrx1.
      destruct (same_keys_streams _ _ seqnr Hk1) as (Ekey1 & _).
      assert (Ecp : cp = c ++ tag ++ zdrop (4 + len + 16) cp) by (rewrite app_assoc; by apply split_cp).
      destruct (crypt_eq rx1 seqnr len 4 Hrx1 ltac:(lia) ltac:(lia) ltac:(lia) dest' cp false) as (rx' & plain & Krx & Edec & Hrest).
      { done. } { rewrite Ecp, zlen_app. zlen_facts. lia. } { lia. } { intros _. rewrite Ecp, !zlen_app. zlen_facts. lia. } { done. }
      assert (Et1 : ztake (4 + len) cp = c) by (rewrite Ecp; apply ztake_app_exact; lia).
      assert (Et2 : zslice (4 + len) 16 cp = tag).
      { unfold zslice. rewrite Ecp. rewrite (zdrop_app_exact c) by lia. apply ztake_app_exact. lia. }
      rewrite <- Ekey1, Et1, Et2 in Edec, Hrest. rewrite (bool_decide_true (poly1305 c _ = _)) in Edec, Hrest by done.
      cbn [negb andb] in Edec, Hrest. destruct Hrest as (Hz' & Hplain & _).
      exists (set_cp rx' (set_cp rx1 rx)). split.
      * unfold cipher_crypt. cbn [set_cp cc_cipher cc_encrypt cc_cp]. rewrite Hr, Er. change (flag chachapoly_cipher CFLAG_CHACHAPOLY) with true. cbv iota.
        rewrite Edec. do 3 f_equal. rewrite <- (ztake_all (4 + len) plain) by lia. rewrite Hplain.
        rewrite <- (crypted_same _ _ seqnr 4 len _ Hk1), Ecp. apply crypted_twice; [done|lia..].
      * repeat (split; [done|]). apply (same_keys_trans _ (cc_cp tx)); [done|]. apply (same_keys_trans _ rx1); [done|]. by apply same_keys_sym.
  - intros tx rx seqnr cp n (_ & Hr & _) Hn. unfold cipher_get_length. rewrite Hr. change (flag chachapoly_cipher CFLAG_CHACHAPOLY) with true. cbv iota.
    unfold chachapoly_get_length. rewrite (proj2 (Z.ltb_lt n 4)) by lia. by destruct rx.
Qed.

(** ** The null cipher *)

Definition none_paired (tx rx : sshcipher_ctx) : Prop := cc_cipher tx = none_cipher /\ cc_cipher rx = none_cipher.

Lemma zwrite_all (l dest : list Z) : zlen l = zlen dest -> zwrite 0 l dest = l.
Proof. intros E. unfold zwrite. rewrite ztake_0, zdrop_all by lia. cbn. by rewrite app_nil_r. Qed.
Lemma none_crypt cc seqnr dest src n len aadlen authlen : cc_cipher cc = none_cipher -> n = aadlen + len -> 0 <= n < 2 ^ 32 ->
  n <= zlen src -> zlen dest = n -> cipher_crypt cc seqnr dest src len aadlen authlen = ((0, ztake n src), cc).
Proof.
  intros Hc -> Hn Hs Hd. unfold cipher_crypt. rewrite Hc. change (flag none_cipher CFLAG_CHACHAPOLY) with false.
  change (flag none_cipher CFLAG_NONE) with true. cbv iota. rewrite u32_id by lia. rewrite zwrite_all; [done|]. rewrite zlen_ztake; lia.
Qed.
#[export] Instance none_pair : CryptPair 8 0 none_paired.
Proof.
  split; [lia| | |].
  - intros tx rx seqnr src dest len [Ht Hr] Hsrc Hl _ Hs Hd. exists tx, src.
    rewrite (none_crypt tx seqnr dest src (4 + len)) by (done || lia). rewrite (ztake_all _ src) by lia. split; [done|]. split; [lia|]. split; [done|].
    exists rx. split; [done|]. split.
    + intros cp n Hn E4. unfold cipher_get_length. rewrite Hr. change (flag none_cipher CFLAG_CHACHAPOLY) with false. cbv iota.
      rewrite (proj2 (Z.ltb_ge n 4)) by lia. rewrite <- (PEEK_U32_ztake 4 cp), E4, PEEK_U32_ztake by lia. done.
    + intros cp dest' _ Ew Hd'. exists rx. split; [|done]. replace (4 + len + 0) with (4 + len) in Ew by lia.
      assert (4 + len <= zlen cp) by (pose proof (f_equal zlen Ew) as E; rewrite Hs in E; unfold ztake, zlen in *; rewrite length_take in E; lia).
      rewrite (none_crypt rx seqnr dest' cp (4 + len)) by (done || lia). by rewrite Ew.
  - intros tx rx seqnr cp n [_ Hr] Hn. unfold cipher_get_length. rewrite Hr. change (flag none_cipher CFLAG_CHACHAPOLY) with false. cbv iota.
    by rewrite (proj2 (Z.ltb_lt n 4)) by lia.
  - intros tx rx seqnr src dest len _ [Ht Hr] Hsrc Hl _ Hs Hd. exists tx, src.
    rewrite (none_crypt tx seqnr dest src len) by (done || lia). rewrite (ztake_all _ src) by lia. split; [done|]. split; [lia|]. split; [done|].
    assert (Hlong : forall n (cp w : list Z), 0 <= n -> ztake n cp = w -> zlen w = n -> n <= zlen cp).
    { intros n cp w Hn <- E. unfold ztake, zlen in *. rewrite length_take in E. lia. }
    intros seqnr1 cp dest1 _ Eb Hd1. exists rx. split.
    + rewrite (none_crypt rx seqnr1 dest1 cp 8); try done; try lia; [by rewrite Eb|]. apply (Hlong 8 cp _ ltac:(lia) Eb). rewrite zlen_ztake; lia.
    + intros cp' dest2 _ Eb' Hd2. exists rx. split; [|done].
      rewrite (none_crypt rx seqnr dest2 cp' (len - 8)); try done; try lia; [by rewrite Eb'|].
      apply (Hlong (len - 8) cp' _ ltac:(lia) Eb'). rewrite zlen_zdrop; lia.
Qed.
End Pairs.

(** ** OpenSSL's ciphers *)

(** What the manual of OpenSSL promises of two contexts with the same cipher,
    key and initialisation vector: text decrypts to what was encrypted, in one
    call or in two, and the contexts stay in step. *)
Class EvpPair `{EvpCipher} (bs : Z) (Rv : EVP_CIPHER_CTX -> EVP_CIPHER_CTX -> Prop) : Prop :=
  evp_text : forall e d a, Rv e d -> Forall is_u8 a -> zlen a mod bs = 0 ->
    exists r c e', EVP_Cipher e a = (r, c, e') /\ 0 <= r /\ zlen c = zlen a /\ Forall is_u8 c /\
      (exists r' d', EVP_Cipher d c = (r', a, d') /\ 0 <= r' /\ Rv e' d') /\
      (bs <= zlen a -> exists r1 d1 r2 d2,
        EVP_Cipher d (ztake bs c) = (r1, ztake bs a, d1) /\ 0 <= r1 /\
        EVP_Cipher d1 (zdrop bs c) = (r2, zdrop bs a, d2) /\ 0 <= r2 /\ Rv e' d2).
(** The same of the authenticated mode: the tag that one side reads is accepted
    by the other. *)
Class GcmPair `{EvpCipher} (bs : Z) (Rv : EVP_CIPHER_CTX -> EVP_CIPHER_CTX -> Prop) : Prop :=
  gcm_text : forall e d aad a, Rv e d -> Forall is_u8 aad -> Forall is_u8 a -> zlen a mod bs = 0 ->
    exists e1 r2 e2 r3 c e3 r4 e4 tag e5,
      EVP_CTRL_GCM_IV_GEN e 1 = (true, e1) /\ EVP_Cipher_aad e1 aad = (r2, e2) /\ 0 <= r2 /\
      EVP_Cipher e2 a = (r3, c, e3) /\ 0 <= r3 /\ EVP_Cipher_final e3 = (r4, e4) /\ 0 <= r4 /\
      EVP_CTRL_GCM_GET_TAG e4 16 = (true, tag, e5) /\
      zlen c = zlen a /\ Forall is_u8 c /\ zlen tag = 16 /\ Forall is_u8 tag /\
      exists d1 d2 s3 d3 s4 d4 s5 d5,
        EVP_CTRL_GCM_IV_GEN d 1 = (true, d1) /\ EVP_CTRL_GCM_SET_TAG d1 tag = (true, d2) /\
        EVP_Cipher_aad d2 aad = (s3, d3) /\ 0 <= s3 /\ EVP_Cipher d3 c = (s4, a, d4) /\ 0 <= s4 /\
        EVP_Cipher_final d4 = (s5, d5) /\ 0 <= s5 /\ Rv e5 d5.

Section EvpPairs.
Context {al : Allocator} {ev : EvpCipher}.
Variable cipher : sshcipher.
Hypothesis Hevp : flag cipher CFLAG_CHACHAPOLY = false /\ flag cipher CFLAG_NONE = false.

Definition evp_paired (Rv : EVP_CIPHER_CTX -> EVP_CIPHER_CTX -> Prop) (tx rx : sshcipher_ctx) : Prop :=
  cc_cipher tx = cipher /\ cc_cipher rx = cipher /\ cc_encrypt tx = true /\ cc_encrypt rx = false /\
  exists e d, cc_evp tx = Some e /\ cc_evp rx = Some d /\ Rv e d.

Lemma cipher_crypt_evp cc e seqnr dest src len aadlen authlen : cc_cipher cc = cipher -> cc_evp cc = Some e ->
  cipher_crypt cc seqnr dest src len aadlen authlen =
    let '(r, e) := evp_crypt cc e dest src len aadlen authlen in (r, set_evp e cc).
Proof. intros Hc He. destruct Hevp as [E1 E2]. unfold cipher_crypt. by rewrite Hc, E1, E2, He. Qed.
Lemma get_length_evp cc seqnr cp n : cc_cipher cc = cipher ->
  cipher_get_length cc seqnr cp n = (if n <? 4 then inl SSH_ERR_MESSAGE_INCOMPLETE else inr (PEEK_U32 cp), cc).
Proof. intros Hc. destruct Hevp as [E1 _]. unfold cipher_get_length. rewrite Hc, E1. by destruct (n <? 4). Qed.

(** The text written behind the copied length. *)
Lemma zwrite_behind (a t d : list Z) n : n = zlen a -> zwrite n t (a ++ d) = (a ++ t) ++ zdrop (zlen t) d.
Proof.
  intros ->. zlen_facts. unfold zwrite. rewrite (ztake_app_exact a) by done. rewrite (zdrop_app_r _ a) by lia.
  rewrite <- app_assoc. do 3 f_equal. lia.
Qed.
Lemma zwrite_start (a dest : list Z) : zwrite 0 a dest = a ++ zdrop (zlen a) dest.
Proof. unfold zwrite. by rewrite ztake_0 by lia. Qed.
Lemma zwrite_two (a t dest : list Z) n : n = zlen a -> zlen dest = zlen a + zlen t -> zwrite n t (zwrite 0 a dest) = a ++ t.
Proof.
  intros -> Hd. zlen_facts. rewrite zwrite_start, zwrite_behind, zdrop_zdrop, zdrop_all by lia. apply app_nil_r.
Qed.
(** One call without a tag. *)
Lemma evp_crypt_plain cc e dest src len aadlen text r e' :
  cc_cipher cc = cipher -> cc_evp cc = Some e -> 0 <= aadlen -> 0 <= len -> aadlen + len <= zlen src ->
  len mod ci_block_size cipher = 0 -> zlen dest = aadlen + len -> zlen text = len ->
  EVP_Cipher e (zslice aadlen len src) = (r, text, e') -> 0 <= r ->
  forall seqnr, cipher_crypt cc seqnr dest src len aadlen 0 = ((0, ztake aadlen src ++ text), set_evp e' cc).
Proof.
  intros Hc He Ha Hl Hs Hm Hd Ht Ecip Hr seqnr. rewrite (cipher_crypt_evp cc e) by done. unfold evp_crypt. cbn [Z.eqb negb andb].
  rewrite andb_false_r. cbn [Z.ltb Z.compare]. rewrite Hc, Hm. cbn [Z.eqb negb]. rewrite Ecip, (proj2 (Z.ltb_ge r 0)) by lia.
  rewrite zwrite_two; [done|rewrite zlen_ztake; lia|]. rewrite zlen_ztake; lia.
Qed.
Lemma zslice_0 n (l : list Z) : zslice 0 n l = ztake n l.
Proof. unfold zslice. by rewrite zdrop_0 by lia. Qed.
Lemma ztake_eq_long n (cp w : list Z) : 0 <= n -> ztake n cp = w -> zlen w = n -> n <= zlen cp.
Proof. intros Hn <- E. unfold ztake, zlen in *. rewrite length_take in E. lia. Qed.
Lemma ztake_app_cases n k (cp a t : list Z) : 0 <= k -> ztake (k + n) cp = a ++ t -> zlen a = k -> zlen t = n -> ztake k cp = a /\ zslice k n cp = t.
Proof.
  intros Hk E Ea Et. split.
  - rewrite <- (ztake_ztake k (k + n) cp), E by (zlen_facts; lia). by apply ztake_app_exact.
  - unfold zslice. pose proof (zdrop_ztake k (k + n) cp ltac:(lia)) as E'. replace (k + n - k) with n in E' by lia. rewrite <- E', E. by apply zdrop_app_exact.
Qed.

Lemma evp_pair bs Rv : EvpPair bs Rv -> ci_block_size cipher = bs -> 8 <= bs <= 16 -> CryptPair bs 0 (evp_paired Rv).
Proof.
  intros Hp Hbs Hr. split; [lia| | |].
  - intros tx rx seqnr src dest len (Ht & Hrx & Et & Er & e & d & Ee & Ed & HR) Hsrc Hl Hm Hs Hd.
    assert (Zs : zlen (zslice 4 len src) = len) by (rewrite zlen_zslice; lia).
    destruct (evp_text e d (zslice 4 len src) HR) as (r & c & e' & E & Hr0 & Zc & Hc & (r' & d' & E' & Hr' & HR') & _);
      [by apply Forall_ztake, Forall_zdrop|by rewrite Zs|]. rewrite Zs in Zc.
    exists (set_evp e' tx), (ztake 4 src ++ c).
    rewrite (evp_crypt_plain tx e dest src len 4 c r e') by (done || lia || by rewrite Hbs). split; [done|].
    assert (Z4 : zlen (ztake 4 src) = 4) by (rewrite zlen_ztake; lia).
    split; [rewrite zlen_app; lia|]. split; [apply Forall_app; split; [by apply Forall_ztake|done]|].
    exists rx. split; [repeat (split; [done|]); eauto|]. split.
    + intros cp n Hn E4. rewrite get_length_evp by done. rewrite (proj2 (Z.ltb_ge n 4)) by lia.
      rewrite (ztake_app_exact (ztake 4 src)) in E4 by lia. rewrite <- (PEEK_U32_ztake 4 cp), E4, PEEK_U32_ztake by lia. done.
    + intros cp dest' _ Ew Hd'. replace (4 + len + 0) with (4 + len) in Ew by lia. destruct (ztake_app_cases len 4 cp _ c ltac:(lia) Ew Z4 Zc) as [E1 E2].
      pose proof (ztake_eq_long (4 + len) cp _ ltac:(lia) Ew) as Hlong. rewrite zlen_app in Hlong.
      exists (set_evp d' rx). split; [|repeat (split; [done|]); cbn; eauto].
      rewrite (evp_crypt_plain rx d dest' cp len 4 (zslice 4 len src) r' d') by (done || lia || (by rewrite Hbs) || (by rewrite E2)).
      rewrite E1. unfold zslice. rewrite (ztake_all len) by (rewrite zlen_zdrop; lia). by rewrite ztake_zdrop.
  - intros tx rx seqnr cp n (_ & Hrx & _) Hn. rewrite get_length_evp by done. by rewrite (proj2 (Z.ltb_lt n 4)).
  - intros tx rx seqnr src dest len _ (Ht & Hrx & Et & Er & e & d & Ee & Ed & HR) Hsrc Hl Hm Hs Hd.
    destruct (evp_text e d src HR Hsrc) as (r & c & e' & E & Hr0 & Zc & Hc & _ & Hsplit); [by rewrite Hs|].
    destruct Hsplit as (r1 & d1 & r2 & d2 & E1 & H1 & E2 & H2 & HR'); [lia|].
    exists (set_evp e' tx), c. rewrite (evp_crypt_plain tx e dest src len 0 c r e') by (done || lia || (by rewrite Hbs) || (rewrite zslice_0, ztake_all by lia; done)).
    rewrite ztake_0 by lia. split; [done|]. split; [lia|]. split; [done|]. intros seqnr1 cp dest1 _ Eb Hd1.
    pose proof (ztake_eq_long bs cp _ ltac:(lia) Eb) as Hlong. rewrite zlen_ztake in Hlong by lia.
    exists (set_evp d1 rx). split.
    { rewrite (evp_crypt_plain rx d dest1 cp bs 0 (ztake bs src) r1 d1);
        [by rewrite ztake_0 by lia|done|done|lia|lia|lia|rewrite Hbs; apply Z.mod_same; lia|lia|rewrite zlen_ztake; lia|by rewrite zslice_0, Eb|done]. }
    intros cp' dest2 _ Eb' Hd2. pose proof (ztake_eq_long (len - bs) cp' _ ltac:(lia) Eb') as Hlong'. rewrite zlen_zdrop in Hlong' by lia.
    exists (set_evp d2 (set_evp d1 rx)). split; [|repeat (split; [done|]); cbn; eauto].
    rewrite (evp_crypt_plain (set_evp d1 rx) d1 dest2 cp' (len - bs) 0 (zdrop bs src) r2 d2);
      [by rewrite ztake_0 by lia|done|done|lia|lia|lia| |lia|rewrite zlen_zdrop; lia|by rewrite zslice_0, Eb'|done].
    rewrite Hbs. replace (len - bs) with (len + (-1) * bs) by lia. rewrite Z.mod_add by lia. done.
Qed.

Lemma gcm_pair bs Rv : GcmPair bs Rv -> ci_block_size cipher = bs -> ci_auth_len cipher = 16 -> 8 <= bs <= 16 ->
  CryptPair bs 16 (evp_paired Rv).
Proof.
  intros Hp Hbs Hauth Hr. split; [lia| | |intros; lia].
  - intros tx rx seqnr src dest len (Ht & Hrx & Et & Er & e & d & Ee & Ed & HR) Hsrc Hl Hm Hs Hd.
    assert (Zs : zlen (zslice 4 len src) = len) by (rewrite zlen_zslice; lia).
    assert (Z4 : zlen (ztake 4 src) = 4) by (rewrite zlen_ztake; lia).
    destruct (gcm_text e d (ztake 4 src) (zslice 4 len src) HR) as
      (e1 & r2 & e2 & r3 & c & e3 & r4 & e4 & tag & e5 & F1 & F2 & L2 & F3 & L3 & F4 & L4 & F5 & Zc & Hc & Ztag & Htag &
       d1 & d2 & s3 & d3 & s4 & d4 & s5 & d5 & G1 & G2 & G3 & M3 & G4 & M4 & G5 & M5 & HR');
      [by apply Forall_ztake|by apply Forall_ztake, Forall_zdrop|by rewrite Zs|]. rewrite Zs in Zc.
    exists (set_evp e5 tx), ((ztake 4 src ++ c) ++ tag). split.
    { rewrite (cipher_crypt_evp tx e) by done. unfold evp_crypt, cipher_authlen. rewrite Ht, Hauth, Et. cbn [Z.eqb Pos.eqb negb andb].
      rewrite F1. cbn [negb]. rewrite F2, (proj2 (Z.ltb_ge r2 0)) by lia. rewrite Hbs, Hm. cbn [Z.eqb negb].
      rewrite F3, (proj2 (Z.ltb_ge r3 0)), F4, (proj2 (Z.ltb_ge r4 0)), F5 by lia. cbn [negb]. f_equal. f_equal.
      rewrite zwrite_start, zwrite_behind, zwrite_behind by (rewrite ?zlen_app; lia).
      rewrite !zdrop_zdrop, zdrop_all by lia. apply app_nil_r. }
    split; [rewrite !zlen_app; lia|]. split; [repeat (apply Forall_app; split; try done); by apply Forall_ztake|].
    exists rx. split; [repeat (split; [done|]); eauto|]. split.
    + intros cp n Hn E4. rewrite get_length_evp by done. rewrite (proj2 (Z.ltb_ge n 4)) by lia.
      rewrite <- app_assoc, (ztake_app_exact (ztake 4 src)) in E4 by lia. rewrite <- (PEEK_U32_ztake 4 cp), E4, PEEK_U32_ztake by lia. done.
    + intros cp dest' _ Ew Hd'. assert (Zac : zlen (ztake 4 src ++ c) = 4 + len) by (rewrite zlen_app; lia).
      destruct (ztake_app_cases 16 (4 + len) cp _ tag ltac:(lia) Ew Zac Ztag) as [E1 E2].
      destruct (ztake_app_cases len 4 cp _ c ltac:(lia) E1 Z4 Zc) as [E3 E4].
      exists (set_evp d5 rx). split; [|repeat (split; [done|]); cbn; eauto].
      rewrite (cipher_crypt_evp rx d) by done. unfold evp_crypt, cipher_authlen. rewrite Hrx, Hauth, Er. cbn [Z.eqb Pos.eqb negb andb].
      rewrite G1. cbn [negb]. rewrite E2, G2. cbn [negb]. rewrite E3, G3, (proj2 (Z.ltb_ge s3 0)) by lia. rewrite Hbs, Hm. cbn [Z.eqb negb].
      rewrite E4, G4, (proj2 (Z.ltb_ge s4 0)), G5, (proj2 (Z.ltb_ge s5 0)) by lia. cbn [negb]. do 2 f_equal.
      rewrite zwrite_two by lia. f_equal. unfold zslice. rewrite (ztake_all len) by (rewrite zlen_zdrop; lia). apply ztake_zdrop.
  - intros tx rx seqnr cp n (_ & Hrx & _) Hn. rewrite get_length_evp by done. by rewrite (proj2 (Z.ltb_lt n 4)).
Qed.
End EvpPairs.

(** ** Every cipher of the table *)

(** The manual of OpenSSL on the ciphers: the bytes of key and initialisation
    vector they take, the blocks they work in, and which are authenticated. *)
Definition evp_key_len (t : evp_type) : Z :=
  match t with
  | EVP_aes_128_cbc | EVP_aes_128_ctr | EVP_aes_128_gcm => 16
  | EVP_des_ede3_cbc | EVP_aes_192_cbc | EVP_aes_192_ctr => 24
  | EVP_aes_256_cbc | EVP_aes_256_ctr | EVP_aes_256_gcm => 32
  end.
Definition evp_is_gcm (t : evp_type) : bool := match t with EVP_aes_128_gcm | EVP_aes_256_gcm => true | _ => false end.
Definition evp_block_len (t : evp_type) : Z := match t with EVP_des_ede3_cbc => 8 | _ => 16 end.
Definition evp_iv_len (t : evp_type) : Z := if evp_is_gcm t then 12 else evp_block_len t.

(** What it says of the calls that open a context.  [evp_started e t iv enc
    fixed]: [e] was given the cipher, the vector and the direction, and with
    [fixed] the vector as the fixed part for GCM; [evp_ready e t key iv enc]: it
    was given the key as well.  Two contexts with the same key and vector, one
    for each direction, are in step ([evp_R]). *)
Class EvpOk `{EvpCipher} := {
  evp_started : EVP_CIPHER_CTX -> evp_type -> list Z -> bool -> bool -> Prop;
  evp_ready : EVP_CIPHER_CTX -> evp_type -> list Z -> list Z -> bool -> Prop;
  evp_R : evp_type -> EVP_CIPHER_CTX -> EVP_CIPHER_CTX -> Prop;
  evp_new : is_Some EVP_CIPHER_CTX_new;
  evp_init : forall e t iv enc, EVP_CIPHER_CTX_new = Some e -> evp_iv_len t <= zlen iv ->
    exists e', EVP_CipherInit_type e t (Some iv) enc = (true, e') /\ evp_started e' t iv enc false;
  evp_fixed : forall e t iv enc, evp_started e t iv enc false -> evp_is_gcm t = true ->
    exists e', EVP_CTRL_GCM_SET_IV_FIXED e (Some iv) = (true, e') /\ evp_started e' t iv enc true;
  evp_key_length : forall e t iv enc fixed, evp_started e t iv enc fixed -> EVP_CIPHER_CTX_key_length e = evp_key_len t;
  evp_set_key : forall e t iv enc key, evp_started e t iv enc (evp_is_gcm t) -> zlen key = evp_key_len t ->
    exists e', EVP_CipherInit_key e key = (true, e') /\ evp_ready e' t key iv enc;
  evp_in_step : forall t key iv e d, evp_ready e t key iv true -> evp_ready d t key iv false -> evp_R t e d;
  evp_R_text : forall t, evp_is_gcm t = false -> EvpPair (evp_block_len t) (evp_R t);
  evp_R_gcm : forall t, evp_is_gcm t = true -> GcmPair (evp_block_len t) (evp_R t)
}.

Section Table.
Context {al : Allocator} {altot : @AllocTotal al} {ev : EvpCipher} {evok : @EvpOk ev}.

Definition crypt_R (c : sshcipher) : sshcipher_ctx -> sshcipher_ctx -> Prop :=
  if flag c CFLAG_CHACHAPOLY then chacha_paired else if flag c CFLAG_NONE then none_paired
  else match ci_evptype c with Some t => evp_paired c (evp_R t) | None => fun _ _ => False end.

(** The table agrees with OpenSSL about the ciphers it names. *)
Lemma ciphers_sane : Forall (fun c => c = chachapoly_cipher \/ c = none_cipher \/
  flag c CFLAG_CHACHAPOLY = false /\ flag c CFLAG_NONE = false /\ exists t, ci_evptype c = Some t /\
  cipher_keylen c = evp_key_len t /\ cipher_ivlen c = evp_iv_len t /\ ci_block_size c = evp_block_len t /\ ci_auth_len c = (if evp_is_gcm t then 16 else 0)) ciphers.
Proof.
  unfold ciphers. repeat (constructor; [first [left; reflexivity|right; left; reflexivity|
    right; right; do 2 (split; [reflexivity|]); eexists; repeat (split; [reflexivity|]); reflexivity]|]).
  constructor.
Qed.
Lemma find_cipher_in name c : cipher_by_name name = Some c -> c ∈ ciphers.
Proof.
  unfold cipher_by_name. generalize ciphers. intros l. induction l as [|x l IH]; [done|]. cbn. destruct (bytes_eqb (ci_name x) name).
  - intros [= ->]. apply list_elem_of_here.
  - intros Hf. apply list_elem_of_further. by apply IH.
Qed.

Lemma crypt_R_pair c : c ∈ ciphers -> CryptPair (ci_block_size c) (ci_auth_len c) (crypt_R c).
Proof.
  intros Hin. pose proof (proj1 (Forall_forall _ _) ciphers_sane c Hin) as Hk. unfold crypt_R.
  destruct Hk as [->|[->|(E1 & E2 & t & Et & _ & _ & Hb & Ha)]]; [apply chacha_pair|apply none_pair|]. rewrite E1, E2, Et, Ha.
  assert (Hr : 8 <= ci_block_size c <= 16) by (rewrite Hb; destruct t; cbn; lia).
  destruct (evp_is_gcm t) eqn:Eg; [apply gcm_pair|apply evp_pair]; try done; rewrite Hb; [by apply evp_R_gcm|by apply evp_R_text].
Qed.
(** The calls of cipher_init open a context with this cipher, key, vector and
    direction. *)
Lemma evp_open_ready c t key iv enc : ci_auth_len c = (if evp_is_gcm t then 16 else 0) -> cipher_keylen c = evp_key_len t ->
  evp_key_len t <= zlen key -> evp_iv_len t <= zlen iv ->
  exists e, evp_open c t key (cipher_keylen c) (Some iv) enc = inr e /\ evp_ready e t (ztake (cipher_keylen c) key) iv enc.
Proof.
  intros Ha Hk Hkey Hi. unfold evp_open, cipher_authlen. destruct evp_new as [e0 E0]. rewrite E0. destruct (evp_init e0 t iv enc E0 Hi) as (e1 & -> & H1). cbn [negb].
  assert (H2 : exists e2, (if ci_auth_len c =? 0 then (true, e1) else EVP_CTRL_GCM_SET_IV_FIXED e1 (Some iv)) = (true, e2) /\ evp_started e2 t iv enc (evp_is_gcm t)).
  { rewrite Ha. destruct (evp_is_gcm t) eqn:Eg; cbn [Z.eqb]; [by apply evp_fixed|by exists e1]. }
  destruct H2 as (e2 & -> & H2). cbn [negb]. rewrite (evp_key_length _ _ _ _ _ H2), Hk, Z.eqb_refl, andb_false_r. cbn [negb].
  destruct (evp_set_key e2 t iv enc (ztake (evp_key_len t) key) H2) as (e3 & -> & H3); [apply zlen_ztake; split; [by destruct t|done]|]. by exists e3.
Qed.
Lemma ciphers_keylen : Forall (fun c => 0 <= cipher_keylen c) ciphers.
Proof. unfold ciphers. repeat (constructor; [done|]). constructor. Qed.

(** Contexts for the two sides, from the first bytes of the key. *)
Lemma cipher_init_R c key iv : c ∈ ciphers -> cipher_keylen c <= zlen key -> cipher_ivlen c <= zlen iv ->
  exists tx rx, cipher_init c key (cipher_keylen c) (Some iv) (cipher_ivlen c) true = inr tx /\
    cipher_init c key (cipher_keylen c) (Some iv) (cipher_ivlen c) false = inr rx /\ crypt_R c tx rx /\ cc_cipher tx = c /\ cc_cipher rx = c.
Proof.
  intros Hin Hk Hi. pose proof (proj1 (Forall_forall _ _) ciphers_sane c Hin) as Hkind.
  pose proof (proj1 (Forall_forall _ _) ciphers_keylen c Hin) as Hk0. cbv beta in Hk0.
  destruct (alloc_total 416) as [p Ep]; [unfold SSHBUF_SIZE_MAX; lia|].
  unfold cipher_init, crypt_R. rewrite Ep, !Z.ltb_irrefl, andb_false_r. cbn [orb].
  destruct Hkind as [->|[->|(E1 & E2 & t & Et & Ek & Ei & _ & Ea)]].
  - change (flag chachapoly_cipher CFLAG_CHACHAPOLY) with true. cbv iota. change (cipher_keylen chachapoly_cipher) with 64.
    destruct (chachapoly_init key 64) as [r|cp] eqn:E; [done|]. pose proof (chachapoly_init_keys key cp E) as Hs.
    eexists _, _. split; [reflexivity|]. split; [reflexivity|]. done.
  - change (flag none_cipher CFLAG_CHACHAPOLY) with false. change (flag none_cipher CFLAG_NONE) with true. cbv iota.
    eexists _, _. split; [reflexivity|]. split; [reflexivity|]. done.
  - rewrite E1, E2, Et. rewrite Ek in Hk. rewrite Ei in Hi. destruct (evp_open_ready c t key iv true Ea Ek Hk Hi) as (e & -> & He).
    destruct (evp_open_ready c t key iv false Ea Ek Hk Hi) as (d & -> & Hd). pose proof (evp_in_step _ _ _ _ _ He Hd) as HR.
    eexists _, _. split; [reflexivity|]. split; [reflexivity|]. split; [|done]. repeat (split; [done|]). cbn. eauto.
Qed.

(** C19: Whatever cipher of the table the two sides agree on, contexts opened
    with the same key and initialisation vector keep the interface of the
    packet layer, with the block size and the tag length of the table: what one
    side encrypts the other decrypts, packet after packet.  Of OpenSSL it is
    assumed what its calls do one by one ([EvpOk]): that cipher_init makes them
    with this cipher, key, vector and direction, and in the right order, is
    proved, as is that the sizes of the table are those of the ciphers. *)
Theorem every_cipher_pairs name c key iv :
  cipher_by_name name = Some c -> cipher_keylen c <= zlen key -> cipher_ivlen c <= zlen iv ->
  exists tx rx R, cipher_init c key (cipher_keylen c) (Some iv) (cipher_ivlen c) true = inr tx /\
    cipher_init c key (cipher_keylen c) (Some iv) (cipher_ivlen c) false = inr rx /\
    R tx rx /\ CryptPair (cipher_blocksize c) (cipher_authlen c) R.
Proof.
  intros Hn Hk Hi. pose proof (find_cipher_in _ _ Hn) as Hin. destruct (cipher_init_R c key iv Hin Hk Hi) as (tx & rx & Et & Er & HR & _).
  exists tx, rx, (crypt_R c). split; [done|]. split; [done|]. split; [done|]. by apply crypt_R_pair.
Qed.
End Table.

(** ** A concrete library *)

(** A context is the length of the key and its first byte; text is
    exclusive-or'ed with it, and the tag of a message is always the same. *)
Definition demo_evp : EvpCipher := {|
  EVP_CIPHER_CTX := Z * Z;
  EVP_CIPHER_CTX_new := Some (0, 0);
  EVP_CipherInit_type _ t _ _ := (true, (evp_key_len t, 0));
  EVP_CipherInit_key e key := (true, (e.1, u8 (znth key 0)));
  EVP_CTRL_GCM_SET_IV_FIXED e _ := (true, e);
  EVP_CTRL_GCM_IV_GEN e _ := (true, e);
  EVP_CTRL_GCM_SET_TAG e _ := (true, e);
  EVP_CTRL_GCM_GET_TAG e n := (true, zfill n, e);
  EVP_CIPHER_CTX_key_length e := e.1;
  EVP_CIPHER_CTX_set_key_length e n := (true, (n, e.2));
  EVP_Cipher_aad e _ := (0, e);
  EVP_Cipher e a := (0, map (Z.lxor (u8 e.2)) a, e);
  EVP_Cipher_final e := (0, e) |}.

Lemma xor_map_twice k (a : list Z) : map (Z.lxor k) (map (Z.lxor k) a) = a.
Proof. rewrite map_map. rewrite <- (map_id a) at 2. apply map_ext. intros x. by rewrite <- Z.lxor_assoc, Z.lxor_nilpotent, Z.lxor_0_l. Qed.
Lemma xor_map_u8 k a : is_u8 k -> Forall is_u8 a -> Forall is_u8 (map (Z.lxor k) a).
Proof. intros Hk. induction 1; constructor; [by apply lxor_u8|done]. Qed.
Lemma zlen_map {A B} (f : A -> B) l : zlen (map f l) = zlen l.
Proof. unfold zlen. by rewrite length_map. Qed.

Definition demo_evp_ok : @EvpOk demo_evp.
Proof.
  refine {| evp_started := fun (e : @EVP_CIPHER_CTX demo_evp) t _ _ _ => e.1 = evp_key_len t;
            evp_ready := fun (e : @EVP_CIPHER_CTX demo_evp) t key _ _ => e = (evp_key_len t, u8 (znth key 0));
            evp_R := fun _ (e d : @EVP_CIPHER_CTX demo_evp) => e = d |}.
  - by eexists.
  - intros e t iv enc _ _. by eexists.
  - intros e t iv enc He _. by exists e.
  - by intros e t iv enc fixed.
  - intros e t iv enc key He _. eexists. split; [reflexivity|]. by rewrite He.
  - by intros t key iv e d -> ->.
  - intros t _ e d a <- Ha Hm. pose proof (xor_map_u8 (u8 e.2) a (u8_is_u8 _) Ha) as Hu.
    exists 0, (map (Z.lxor (u8 e.2)) a), e. split; [done|]. split; [done|]. split; [apply zlen_map|]. split; [done|]. split.
    + exists 0, e. cbn. by rewrite xor_map_twice.
    + intros _. exists 0, e, 0, e. cbn. unfold ztake, zdrop. rewrite <- !fmap_take, <- !fmap_drop. by rewrite !xor_map_twice.
  - intros t _ e d aad a <- _ Ha Hm. pose proof (xor_map_u8 (u8 e.2) a (u8_is_u8 _) Ha) as Hu.
    exists e, 0, e, 0, (map (Z.lxor (u8 e.2)) a), e, 0, e, (zfill 16), e. repeat (split; [done|]). split; [apply zlen_map|].
    split; [done|]. split; [done|]. split; [apply Forall_zfill|]. exists e, e, 0, e, 0, e, 0, e. cbn. by rewrite xor_map_twice.
Defined.

Lemma every_cipher_pairs_witness : exists tx rx R,
  @cipher_init demo_heap demo_evp chachapoly_cipher (zfill 64) 64 (Some []) 0 true = inr tx /\
  @cipher_init demo_heap demo_evp chachapoly_cipher (zfill 64) 64 (Some []) 0 false = inr rx /\ R tx rx /\ CryptPair 8 16 R.
Proof.
  exact (@every_cipher_pairs demo_heap demo_heap_total demo_evp demo_evp_ok (str "chacha20-poly1305@openssh.com") chachapoly_cipher
    (zfill 64) [] eq_refl ltac:(by vm_compute) ltac:(by vm_compute)).
Defined.
