(* ===== verification/PacketState.v ===== *)
(** * The state of the packet layer: openssh/packet.c and kex.h

    struct session_state, struct kex, the keys of a direction, and the
    assignments to their fields.  What belongs to one direction (the keys, the
    cipher context, the counters, the compression) is one record, as
    ssh_set_newkeys selects it by its mode.  The contexts of the digests, of
    UMAC, of OpenSSL's ciphers and of zlib are those of the parameters. *)

From stdpp Require Import list.
From S2P Require Import Prelude Sshbuf Poly1305 ChachaPoly Mac Cipher.

(** ** zlib *)

Definition Z_OK : Z := 0.
Definition Z_STREAM_ERROR : Z := -2.
Definition Z_DATA_ERROR : Z := -3.
Definition Z_MEM_ERROR : Z := -4.
Definition Z_BUF_ERROR : Z := -5.
(** deflate and inflate take the bytes at next_in and the room at next_out, and
    give the status, the bytes written and the bytes not yet read. *)
Class Zlib := {
  z_stream : Type;
  z_zero : z_stream;
  deflateInit : z_stream -> Z -> Z * z_stream;
  deflateEnd : z_stream -> z_stream;
  deflate : z_stream -> list Z -> Z -> Z * list Z * list Z * z_stream;
  inflateInit : z_stream -> Z * z_stream;
  inflateEnd : z_stream -> z_stream;
  inflate : z_stream -> list Z -> Z -> Z * list Z * list Z * z_stream
}.

(** ** kex.h *)

Definition COMP_NONE : Z := 0.
Definition COMP_ZLIB : Z := 1.
Definition COMP_DELAYED : Z := 2.
Definition KEX_INIT_SENT : Z := 1.
Definition KEX_COOKIE_LEN : Z := 16.
Inductive mode := MODE_IN | MODE_OUT.

Record sshenc := mk_enc {
  e_name : list Z;
  e_cipher : sshcipher;
  e_enabled : bool;
  e_key_len : Z;
  e_iv_len : Z;
  e_block_size : Z;
  e_key : option (list Z);
  e_iv : option (list Z)
}.
Record sshcomp := mk_comp { c_type : Z; c_enabled : bool; c_name : list Z }.

Section State.
Context {md : EvpMd} {um : Umac} {ev : EvpCipher} {zl : Zlib}.

Record newkeys := mk_newkeys { nk_enc : sshenc; nk_mac : sshmac; nk_comp : sshcomp }.
Definition set_nk_mac (m : sshmac) (k : newkeys) : newkeys := mk_newkeys (nk_enc k) m (nk_comp k).
Definition set_comp_enabled (k : newkeys) : newkeys :=
  mk_newkeys (nk_enc k) (nk_mac k) (mk_comp (c_type (nk_comp k)) true (c_name (nk_comp k))).

(** One direction: state->newkeys[mode], the cipher context, struct
    packet_state, the limit on blocks, and the compression stream. *)
Record dir := mk_dir {
  d_newkeys : option newkeys;
  d_ctx : option sshcipher_ctx;
  d_seqnr : Z;
  d_packets : Z;
  d_blocks : Z;
  d_bytes : Z;
  d_max_blocks : Z;
  d_z : z_stream;
  d_z_started : bool;
  d_z_failures : Z
}.
Definition set_d_newkeys (v : option newkeys) (d : dir) : dir :=
  mk_dir v (d_ctx d) (d_seqnr d) (d_packets d) (d_blocks d) (d_bytes d) (d_max_blocks d) (d_z d)
    (d_z_started d) (d_z_failures d).
Definition set_d_ctx (v : option sshcipher_ctx) (d : dir) : dir :=
  mk_dir (d_newkeys d) v (d_seqnr d) (d_packets d) (d_blocks d) (d_bytes d) (d_max_blocks d) (d_z d)
    (d_z_started d) (d_z_failures d).
Definition set_d_seqnr (v : Z) (d : dir) : dir :=
  mk_dir (d_newkeys d) (d_ctx d) v (d_packets d) (d_blocks d) (d_bytes d) (d_max_blocks d) (d_z d)
    (d_z_started d) (d_z_failures d).
Definition set_d_packets (v : Z) (d : dir) : dir :=
  mk_dir (d_newkeys d) (d_ctx d) (d_seqnr d) v (d_blocks d) (d_bytes d) (d_max_blocks d) (d_z d)
    (d_z_started d) (d_z_failures d).
Definition set_d_blocks (v : Z) (d : dir) : dir :=
  mk_dir (d_newkeys d) (d_ctx d) (d_seqnr d) (d_packets d) v (d_bytes d) (d_max_blocks d) (d_z d)
    (d_z_started d) (d_z_failures d).
Definition set_d_bytes (v : Z) (d : dir) : dir :=
  mk_dir (d_newkeys d) (d_ctx d) (d_seqnr d) (d_packets d) (d_blocks d) v (d_max_blocks d) (d_z d)
    (d_z_started d) (d_z_failures d).
Definition set_d_max_blocks (v : Z) (d : dir) : dir :=
  mk_dir (d_newkeys d) (d_ctx d) (d_seqnr d) (d_packets d) (d_blocks d) (d_bytes d) v (d_z d) (d_z_started d)
    (d_z_failures d).
Definition set_d_z (v : z_stream) (d : dir) : dir :=
  mk_dir (d_newkeys d) (d_ctx d) (d_seqnr d) (d_packets d) (d_blocks d) (d_bytes d) (d_max_blocks d) v
    (d_z_started d) (d_z_failures d).
Definition set_d_z_started (v : bool) (d : dir) : dir :=
  mk_dir (d_newkeys d) (d_ctx d) (d_seqnr d) (d_packets d) (d_blocks d) (d_bytes d) (d_max_blocks d) (d_z d) v
    (d_z_failures d).
Definition set_d_z_failures (v : Z) (d : dir) : dir :=
  mk_dir (d_newkeys d) (d_ctx d) (d_seqnr d) (d_packets d) (d_blocks d) (d_bytes d) (d_max_blocks d) (d_z d)
    (d_z_started d) v.

(** struct kex, less the callbacks and the state of the key exchange methods. *)
Record kex := mk_kex {
  k_session_id : option (list Z);
  k_newkeys_in : option newkeys;
  k_newkeys_out : option newkeys;
  k_we_need : Z;
  k_dh_need : Z;
  k_server : bool;
  k_name : option (list Z);
  k_hostkey_alg : option (list Z);
  k_hostkey_type : Z;
  k_hostkey_nid : Z;
  k_kex_type : Z;
  k_server_sig_algs : option (list Z);
  k_ext_info_c : bool;
  k_my : sshbuf;
  k_peer : sshbuf;
  k_done : bool;
  k_flags : Z;
  k_hash_alg : Z;
  k_ec_nid : Z;
  k_failed_choice : option (list Z)
}.
Definition set_k_session_id (v : option (list Z)) (k : kex) : kex :=
  mk_kex v (k_newkeys_in k) (k_newkeys_out k) (k_we_need k) (k_dh_need k) (k_server k) (k_name k)
    (k_hostkey_alg k) (k_hostkey_type k) (k_hostkey_nid k) (k_kex_type k) (k_server_sig_algs k)
    (k_ext_info_c k) (k_my k) (k_peer k) (k_done k) (k_flags k) (k_hash_alg k) (k_ec_nid k)
    (k_failed_choice k).
Definition set_k_newkeys_in (v : option newkeys) (k : kex) : kex :=
  mk_kex (k_session_id k) v (k_newkeys_out k) (k_we_need k) (k_dh_need k) (k_server k) (k_name k)
    (k_hostkey_alg k) (k_hostkey_type k) (k_hostkey_nid k) (k_kex_type k) (k_server_sig_algs k)
    (k_ext_info_c k) (k_my k) (k_peer k) (k_done k) (k_flags k) (k_hash_alg k) (k_ec_nid k)
    (k_failed_choice k).
Definition set_k_newkeys_out (v : option newkeys) (k : kex) : kex :=
  mk_kex (k_session_id k) (k_newkeys_in k) v (k_we_need k) (k_dh_need k) (k_server k) (k_name k)
    (k_hostkey_alg k) (k_hostkey_type k) (k_hostkey_nid k) (k_kex_type k) (k_server_sig_algs k)
    (k_ext_info_c k) (k_my k) (k_peer k) (k_done k) (k_flags k) (k_hash_alg k) (k_ec_nid k)
    (k_failed_choice k).
Definition set_k_we_need (v : Z) (k : kex) : kex :=
  mk_kex (k_session_id k) (k_newkeys_in k) (k_newkeys_out k) v (k_dh_need k) (k_server k) (k_name k)
    (k_hostkey_alg k) (k_hostkey_type k) (k_hostkey_nid k) (k_kex_type k) (k_server_sig_algs k)
    (k_ext_info_c k) (k_my k) (k_peer k) (k_done k) (k_flags k) (k_hash_alg k) (k_ec_nid k)
    (k_failed_choice k).
Definition set_k_dh_need (v : Z) (k : kex) : kex :=
  mk_kex (k_session_id k) (k_newkeys_in k) (k_newkeys_out k) (k_we_need k) v (k_server k) (k_name k)
    (k_hostkey_alg k) (k_hostkey_type k) (k_hostkey_nid k) (k_kex_type k) (k_server_sig_algs k)
    (k_ext_info_c k) (k_my k) (k_peer k) (k_done k) (k_flags k) (k_hash_alg k) (k_ec_nid k)
    (k_failed_choice k).
Definition set_k_server (v : bool) (k : kex) : kex :=
  mk_kex (k_session_id k) (k_newkeys_in k) (k_newkeys_out k) (k_we_need k) (k_dh_need k) v (k_name k)
    (k_hostkey_alg k) (k_hostkey_type k) (k_hostkey_nid k) (k_kex_type k) (k_server_sig_algs k)
    (k_ext_info_c k) (k_my k) (k_peer k) (k_done k) (k_flags k) (k_hash_alg k) (k_ec_nid k)
    (k_failed_choice k).
Definition set_k_name (v : option (list Z)) (k : kex) : kex :=
  mk_kex (k_session_id k) (k_newkeys_in k) (k_newkeys_out k) (k_we_need k) (k_dh_need k) (k_server k) v
    (k_hostkey_alg k) (k_hostkey_type k) (k_hostkey_nid k) (k_kex_type k) (k_server_sig_algs k)
    (k_ext_info_c k) (k_my k) (k_peer k) (k_done k) (k_flags k) (k_hash_alg k) (k_ec_nid k)
    (k_failed_choice k).
Definition set_k_hostkey_alg (v : option (list Z)) (k : kex) : kex :=
  mk_kex (k_session_id k) (k_newkeys_in k) (k_newkeys_out k) (k_we_need k) (k_dh_need k) (k_server k)
    (k_name k) v (k_hostkey_type k) (k_hostkey_nid k) (k_kex_type k) (k_server_sig_algs k) (k_ext_info_c k)
    (k_my k) (k_peer k) (k_done k) (k_flags k) (k_hash_alg k) (k_ec_nid k) (k_failed_choice k).
Definition set_k_hostkey_type (v : Z) (k : kex) : kex :=
  mk_kex (k_session_id k) (k_newkeys_in k) (k_newkeys_out k) (k_we_need k) (k_dh_need k) (k_server k)
    (k_name k) (k_hostkey_alg k) v (k_hostkey_nid k) (k_kex_type k) (k_server_sig_algs k) (k_ext_info_c k)
    (k_my k) (k_peer k) (k_done k) (k_flags k) (k_hash_alg k) (k_ec_nid k) (k_failed_choice k).
Definition set_k_hostkey_nid (v : Z) (k : kex) : kex :=
  mk_kex (k_session_id k) (k_newkeys_in k) (k_newkeys_out k) (k_we_need k) (k_dh_need k) (k_server k)
    (k_name k) (k_hostkey_alg k) (k_hostkey_type k) v (k_kex_type k) (k_server_sig_algs k) (k_ext_info_c k)
    (k_my k) (k_peer k) (k_done k) (k_flags k) (k_hash_alg k) (k_ec_nid k) (k_failed_choice k).
Definition set_k_kex_type (v : Z) (k : kex) : kex :=
  mk_kex (k_session_id k) (k_newkeys_in k) (k_newkeys_out k) (k_we_need k) (k_dh_need k) (k_server k)
    (k_name k) (k_hostkey_alg k) (k_hostkey_type k) (k_hostkey_nid k) v (k_server_sig_algs k) (k_ext_info_c k)
    (k_my k) (k_peer k) (k_done k) (k_flags k) (k_hash_alg k) (k_ec_nid k) (k_failed_choice k).
Definition set_k_server_sig_algs (v : option (list Z)) (k : kex) : kex :=
  mk_kex (k_session_id k) (k_newkeys_in k) (k_newkeys_out k) (k_we_need k) (k_dh_need k) (k_server k)
    (k_name k) (k_hostkey_alg k) (k_hostkey_type k) (k_hostkey_nid k) (k_kex_type k) v (k_ext_info_c k)
    (k_my k) (k_peer k) (k_done k) (k_flags k) (k_hash_alg k) (k_ec_nid k) (k_failed_choice k).
Definition set_k_ext_info_c (v : bool) (k : kex) : kex :=
  mk_kex (k_session_id k) (k_newkeys_in k) (k_newkeys_out k) (k_we_need k) (k_dh_need k) (k_server k)
    (k_name k) (k_hostkey_alg k) (k_hostkey_type k) (k_hostkey_nid k) (k_kex_type k) (k_server_sig_algs k) v
    (k_my k) (k_peer k) (k_done k) (k_flags k) (k_hash_alg k) (k_ec_nid k) (k_failed_choice k).
Definition set_k_my (v : sshbuf) (k : kex) : kex :=
  mk_kex (k_session_id k) (k_newkeys_in k) (k_newkeys_out k) (k_we_need k) (k_dh_need k) (k_server k)
    (k_name k) (k_hostkey_alg k) (k_hostkey_type k) (k_hostkey_nid k) (k_kex_type k) (k_server_sig_algs k)
    (k_ext_info_c k) v (k_peer k) (k_done k) (k_flags k) (k_hash_alg k) (k_ec_nid k) (k_failed_choice k).
Definition set_k_peer (v : sshbuf) (k : kex) : kex :=
  mk_kex (k_session_id k) (k_newkeys_in k) (k_newkeys_out k) (k_we_need k) (k_dh_need k) (k_server k)
    (k_name k) (k_hostkey_alg k) (k_hostkey_type k) (k_hostkey_nid k) (k_kex_type k) (k_server_sig_algs k)
    (k_ext_info_c k) (k_my k) v (k_done k) (k_flags k) (k_hash_alg k) (k_ec_nid k) (k_failed_choice k).
Definition set_k_done (v : bool) (k : kex) : kex :=
  mk_kex (k_session_id k) (k_newkeys_in k) (k_newkeys_out k) (k_we_need k) (k_dh_need k) (k_server k)
    (k_name k) (k_hostkey_alg k) (k_hostkey_type k) (k_hostkey_nid k) (k_kex_type k) (k_server_sig_algs k)
    (k_ext_info_c k) (k_my k) (k_peer k) v (k_flags k) (k_hash_alg k) (k_ec_nid k) (k_failed_choice k).
Definition set_k_flags (v : Z) (k : kex) : kex :=
  mk_kex (k_session_id k) (k_newkeys_in k) (k_newkeys_out k) (k_we_need k) (k_dh_need k) (k_server k)
    (k_name k) (k_hostkey_alg k) (k_hostkey_type k) (k_hostkey_nid k) (k_kex_type k) (k_server_sig_algs k)
    (k_ext_info_c k) (k_my k) (k_peer k) (k_done k) v (k_hash_alg k) (k_ec_nid k) (k_failed_choice k).
Definition set_k_hash_alg (v : Z) (k : kex) : kex :=
  mk_kex (k_session_id k) (k_newkeys_in k) (k_newkeys_out k) (k_we_need k) (k_dh_need k) (k_server k)
    (k_name k) (k_hostkey_alg k) (k_hostkey_type k) (k_hostkey_nid k) (k_kex_type k) (k_server_sig_algs k)
    (k_ext_info_c k) (k_my k) (k_peer k) (k_done k) (k_flags k) v (k_ec_nid k) (k_failed_choice k).
Definition set_k_ec_nid (v : Z) (k : kex) : kex :=
  mk_kex (k_session_id k) (k_newkeys_in k) (k_newkeys_out k) (k_we_need k) (k_dh_need k) (k_server k)
    (k_name k) (k_hostkey_alg k) (k_hostkey_type k) (k_hostkey_nid k) (k_kex_type k) (k_server_sig_algs k)
    (k_ext_info_c k) (k_my k) (k_peer k) (k_done k) (k_flags k) (k_hash_alg k) v (k_failed_choice k).
Definition set_k_failed_choice (v : option (list Z)) (k : kex) : kex :=
  mk_kex (k_session_id k) (k_newkeys_in k) (k_newkeys_out k) (k_we_need k) (k_dh_need k) (k_server k)
    (k_name k) (k_hostkey_alg k) (k_hostkey_type k) (k_hostkey_nid k) (k_kex_type k) (k_server_sig_algs k)
    (k_ext_info_c k) (k_my k) (k_peer k) (k_done k) (k_flags k) (k_hash_alg k) (k_ec_nid k) v.

(** struct session_state with the fields of struct ssh that the packet layer
    uses.  [s_queue] is the list of packets kept back, [s_discard_mac] whether
    packet_discard_mac points to the MAC of the input keys, [s_now] the time
    monotime returns, [s_tick] how many calls were made to the system, [s_wire]
    the bytes that write has taken. *)
Record ssh := mk_ssh {
  s_in : dir;
  s_out : dir;
  s_input : sshbuf;
  s_output : sshbuf;
  s_outgoing : sshbuf;
  s_incoming : sshbuf;
  s_comp_buf : option sshbuf;
  s_queue : list (Z * sshbuf);
  s_kex : option kex;
  s_rekeying : bool;
  s_rekey_limit : Z;
  s_rekey_interval : Z;
  s_rekey_time : Z;
  s_after_auth : bool;
  s_server_side : bool;
  s_mux : bool;
  s_extra_pad : Z;
  s_packlen : Z;
  s_discard : Z;
  s_discard_mac : bool;
  s_discard_already : Z;
  s_keep_alive : Z;
  s_timeout_ms : Z;
  s_compat : Z;
  s_now : Z;
  s_tick : Z;
  s_wire : list Z
}.
Definition set_s_in (v : dir) (s : ssh) : ssh :=
  mk_ssh v (s_out s) (s_input s) (s_output s) (s_outgoing s) (s_incoming s) (s_comp_buf s) (s_queue s)
    (s_kex s) (s_rekeying s) (s_rekey_limit s) (s_rekey_interval s) (s_rekey_time s) (s_after_auth s)
    (s_server_side s) (s_mux s) (s_extra_pad s) (s_packlen s) (s_discard s) (s_discard_mac s)
    (s_discard_already s) (s_keep_alive s) (s_timeout_ms s) (s_compat s) (s_now s) (s_tick s) (s_wire s).
Definition set_s_out (v : dir) (s : ssh) : ssh :=
  mk_ssh (s_in s) v (s_input s) (s_output s) (s_outgoing s) (s_incoming s) (s_comp_buf s) (s_queue s)
    (s_kex s) (s_rekeying s) (s_rekey_limit s) (s_rekey_interval s) (s_rekey_time s) (s_after_auth s)
    (s_server_side s) (s_mux s) (s_extra_pad s) (s_packlen s) (s_discard s) (s_discard_mac s)
    (s_discard_already s) (s_keep_alive s) (s_timeout_ms s) (s_compat s) (s_now s) (s_tick s) (s_wire s).
Definition set_s_input (v : sshbuf) (s : ssh) : ssh :=
  mk_ssh (s_in s) (s_out s) v (s_output s) (s_outgoing s) (s_incoming s) (s_comp_buf s) (s_queue s) (s_kex s)
    (s_rekeying s) (s_rekey_limit s) (s_rekey_interval s) (s_rekey_time s) (s_after_auth s) (s_server_side s)
    (s_mux s) (s_extra_pad s) (s_packlen s) (s_discard s) (s_discard_mac s) (s_discard_already s)
    (s_keep_alive s) (s_timeout_ms s) (s_compat s) (s_now s) (s_tick s) (s_wire s).
Definition set_s_output (v : sshbuf) (s : ssh) : ssh :=
  mk_ssh (s_in s) (s_out s) (s_input s) v (s_outgoing s) (s_incoming s) (s_comp_buf s) (s_queue s) (s_kex s)
    (s_rekeying s) (s_rekey_limit s) (s_rekey_interval s) (s_rekey_time s) (s_after_auth s) (s_server_side s)
    (s_mux s) (s_extra_pad s) (s_packlen s) (s_discard s) (s_discard_mac s) (s_discard_already s)
    (s_keep_alive s) (s_timeout_ms s) (s_compat s) (s_now s) (s_tick s) (s_wire s).
Definition set_s_outgoing (v : sshbuf) (s : ssh) : ssh :=
  mk_ssh (s_in s) (s_out s) (s_input s) (s_output s) v (s_incoming s) (s_comp_buf s) (s_queue s) (s_kex s)
    (s_rekeying s) (s_rekey_limit s) (s_rekey_interval s) (s_rekey_time s) (s_after_auth s) (s_server_side s)
    (s_mux s) (s_extra_pad s) (s_packlen s) (s_discard s) (s_discard_mac s) (s_discard_already s)
    (s_keep_alive s) (s_timeout_ms s) (s_compat s) (s_now s) (s_tick s) (s_wire s).
Definition set_s_incoming (v : sshbuf) (s : ssh) : ssh :=
  mk_ssh (s_in s) (s_out s) (s_input s) (s_output s) (s_outgoing s) v (s_comp_buf s) (s_queue s) (s_kex s)
    (s_rekeying s) (s_rekey_limit s) (s_rekey_interval s) (s_rekey_time s) (s_after_auth s) (s_server_side s)
    (s_mux s) (s_extra_pad s) (s_packlen s) (s_discard s) (s_discard_mac s) (s_discard_already s)
    (s_keep_alive s) (s_timeout_ms s) (s_compat s) (s_now s) (s_tick s) (s_wire s).
Definition set_s_comp_buf (v : option sshbuf) (s : ssh) : ssh :=
  mk_ssh (s_in s) (s_out s) (s_input s) (s_output s) (s_outgoing s) (s_incoming s) v (s_queue s) (s_kex s)
    (s_rekeying s) (s_rekey_limit s) (s_rekey_interval s) (s_rekey_time s) (s_after_auth s) (s_server_side s)
    (s_mux s) (s_extra_pad s) (s_packlen s) (s_discard s) (s_discard_mac s) (s_discard_already s)
    (s_keep_alive s) (s_timeout_ms s) (s_compat s) (s_now s) (s_tick s) (s_wire s).
Definition set_s_queue (v : list (Z * sshbuf)) (s : ssh) : ssh :=
  mk_ssh (s_in s) (s_out s) (s_input s) (s_output s) (s_outgoing s) (s_incoming s) (s_comp_buf s) v (s_kex s)
    (s_rekeying s) (s_rekey_limit s) (s_rekey_interval s) (s_rekey_time s) (s_after_auth s) (s_server_side s)
    (s_mux s) (s_extra_pad s) (s_packlen s) (s_discard s) (s_discard_mac s) (s_discard_already s)
    (s_keep_alive s) (s_timeout_ms s) (s_compat s) (s_now s) (s_tick s) (s_wire s).
Definition set_s_kex (v : option kex) (s : ssh) : ssh :=
  mk_ssh (s_in s) (s_out s) (s_input s) (s_output s) (s_outgoing s) (s_incoming s) (s_comp_buf s) (s_queue s)
    v (s_rekeying s) (s_rekey_limit s) (s_rekey_interval s) (s_rekey_time s) (s_after_auth s)
    (s_server_side s) (s_mux s) (s_extra_pad s) (s_packlen s) (s_discard s) (s_discard_mac s)
    (s_discard_already s) (s_keep_alive s) (s_timeout_ms s) (s_compat s) (s_now s) (s_tick s) (s_wire s).
Definition set_s_rekeying (v : bool) (s : ssh) : ssh :=
  mk_ssh (s_in s) (s_out s) (s_input s) (s_output s) (s_outgoing s) (s_incoming s) (s_comp_buf s) (s_queue s)
    (s_kex s) v (s_rekey_limit s) (s_rekey_interval s) (s_rekey_time s) (s_after_auth s) (s_server_side s)
    (s_mux s) (s_extra_pad s) (s_packlen s) (s_discard s) (s_discard_mac s) (s_discard_already s)
    (s_keep_alive s) (s_timeout_ms s) (s_compat s) (s_now s) (s_tick s) (s_wire s).
Definition set_s_rekey_limit (v : Z) (s : ssh) : ssh :=
  mk_ssh (s_in s) (s_out s) (s_input s) (s_output s) (s_outgoing s) (s_incoming s) (s_comp_buf s) (s_queue s)
    (s_kex s) (s_rekeying s) v (s_rekey_interval s) (s_rekey_time s) (s_after_auth s) (s_server_side s)
    (s_mux s) (s_extra_pad s) (s_packlen s) (s_discard s) (s_discard_mac s) (s_discard_already s)
    (s_keep_alive s) (s_timeout_ms s) (s_compat s) (s_now s) (s_tick s) (s_wire s).
Definition set_s_rekey_interval (v : Z) (s : ssh) : ssh :=
  mk_ssh (s_in s) (s_out s) (s_input s) (s_output s) (s_outgoing s) (s_incoming s) (s_comp_buf s) (s_queue s)
    (s_kex s) (s_rekeying s) (s_rekey_limit s) v (s_rekey_time s) (s_after_auth s) (s_server_side s) (s_mux s)
    (s_extra_pad s) (s_packlen s) (s_discard s) (s_discard_mac s) (s_discard_already s) (s_keep_alive s)
    (s_timeout_ms s) (s_compat s) (s_now s) (s_tick s) (s_wire s).
Definition set_s_rekey_time (v : Z) (s : ssh) : ssh :=
  mk_ssh (s_in s) (s_out s) (s_input s) (s_output s) (s_outgoing s) (s_incoming s) (s_comp_buf s) (s_queue s)
    (s_kex s) (s_rekeying s) (s_rekey_limit s) (s_rekey_interval s) v (s_after_auth s) (s_server_side s)
    (s_mux s) (s_extra_pad s) (s_packlen s) (s_discard s) (s_discard_mac s) (s_discard_already s)
    (s_keep_alive s) (s_timeout_ms s) (s_compat s) (s_now s) (s_tick s) (s_wire s).
Definition set_s_after_auth (v : bool) (s : ssh) : ssh :=
  mk_ssh (s_in s) (s_out s) (s_input s) (s_output s) (s_outgoing s) (s_incoming s) (s_comp_buf s) (s_queue s)
    (s_kex s) (s_rekeying s) (s_rekey_limit s) (s_rekey_interval s) (s_rekey_time s) v (s_server_side s)
    (s_mux s) (s_extra_pad s) (s_packlen s) (s_discard s) (s_discard_mac s) (s_discard_already s)
    (s_keep_alive s) (s_timeout_ms s) (s_compat s) (s_now s) (s_tick s) (s_wire s).
Definition set_s_server_side (v : bool) (s : ssh) : ssh :=
  mk_ssh (s_in s) (s_out s) (s_input s) (s_output s) (s_outgoing s) (s_incoming s) (s_comp_buf s) (s_queue s)
    (s_kex s) (s_rekeying s) (s_rekey_limit s) (s_rekey_interval s) (s_rekey_time s) (s_after_auth s) v
    (s_mux s) (s_extra_pad s) (s_packlen s) (s_discard s) (s_discard_mac s) (s_discard_already s)
    (s_keep_alive s) (s_timeout_ms s) (s_compat s) (s_now s) (s_tick s) (s_wire s).
Definition set_s_mux (v : bool) (s : ssh) : ssh :=
  mk_ssh (s_in s) (s_out s) (s_input s) (s_output s) (s_outgoing s) (s_incoming s) (s_comp_buf s) (s_queue s)
    (s_kex s) (s_rekeying s) (s_rekey_limit s) (s_rekey_interval s) (s_rekey_time s) (s_after_auth s)
    (s_server_side s) v (s_extra_pad s) (s_packlen s) (s_discard s) (s_discard_mac s) (s_discard_already s)
    (s_keep_alive s) (s_timeout_ms s) (s_compat s) (s_now s) (s_tick s) (s_wire s).
Definition set_s_extra_pad (v : Z) (s : ssh) : ssh :=
  mk_ssh (s_in s) (s_out s) (s_input s) (s_output s) (s_outgoing s) (s_incoming s) (s_comp_buf s) (s_queue s)
    (s_kex s) (s_rekeying s) (s_rekey_limit s) (s_rekey_interval s) (s_rekey_time s) (s_after_auth s)
    (s_server_side s) (s_mux s) v (s_packlen s) (s_discard s) (s_discard_mac s) (s_discard_already s)
    (s_keep_alive s) (s_timeout_ms s) (s_compat s) (s_now s) (s_tick s) (s_wire s).
Definition set_s_packlen (v : Z) (s : ssh) : ssh :=
  mk_ssh (s_in s) (s_out s) (s_input s) (s_output s) (s_outgoing s) (s_incoming s) (s_comp_buf s) (s_queue s)
    (s_kex s) (s_rekeying s) (s_rekey_limit s) (s_rekey_interval s) (s_rekey_time s) (s_after_auth s)
    (s_server_side s) (s_mux s) (s_extra_pad s) v (s_discard s) (s_discard_mac s) (s_discard_already s)
    (s_keep_alive s) (s_timeout_ms s) (s_compat s) (s_now s) (s_tick s) (s_wire s).
Definition set_s_discard (v : Z) (s : ssh) : ssh :=
  mk_ssh (s_in s) (s_out s) (s_input s) (s_output s) (s_outgoing s) (s_incoming s) (s_comp_buf s) (s_queue s)
    (s_kex s) (s_rekeying s) (s_rekey_limit s) (s_rekey_interval s) (s_rekey_time s) (s_after_auth s)
    (s_server_side s) (s_mux s) (s_extra_pad s) (s_packlen s) v (s_discard_mac s) (s_discard_already s)
    (s_keep_alive s) (s_timeout_ms s) (s_compat s) (s_now s) (s_tick s) (s_wire s).
Definition set_s_discard_mac (v : bool) (s : ssh) : ssh :=
  mk_ssh (s_in s) (s_out s) (s_input s) (s_output s) (s_outgoing s) (s_incoming s) (s_comp_buf s) (s_queue s)
    (s_kex s) (s_rekeying s) (s_rekey_limit s) (s_rekey_interval s) (s_rekey_time s) (s_after_auth s)
    (s_server_side s) (s_mux s) (s_extra_pad s) (s_packlen s) (s_discard s) v (s_discard_already s)
    (s_keep_alive s) (s_timeout_ms s) (s_compat s) (s_now s) (s_tick s) (s_wire s).
Definition set_s_discard_already (v : Z) (s : ssh) : ssh :=
  mk_ssh (s_in s) (s_out s) (s_input s) (s_output s) (s_outgoing s) (s_incoming s) (s_comp_buf s) (s_queue s)
    (s_kex s) (s_rekeying s) (s_rekey_limit s) (s_rekey_interval s) (s_rekey_time s) (s_after_auth s)
    (s_server_side s) (s_mux s) (s_extra_pad s) (s_packlen s) (s_discard s) (s_discard_mac s) v
    (s_keep_alive s) (s_timeout_ms s) (s_compat s) (s_now s) (s_tick s) (s_wire s).
Definition set_s_keep_alive (v : Z) (s : ssh) : ssh :=
  mk_ssh (s_in s) (s_out s) (s_input s) (s_output s) (s_outgoing s) (s_incoming s) (s_comp_buf s) (s_queue s)
    (s_kex s) (s_rekeying s) (s_rekey_limit s) (s_rekey_interval s) (s_rekey_time s) (s_after_auth s)
    (s_server_side s) (s_mux s) (s_extra_pad s) (s_packlen s) (s_discard s) (s_discard_mac s)
    (s_discard_already s) v (s_timeout_ms s) (s_compat s) (s_now s) (s_tick s) (s_wire s).
Definition set_s_timeout_ms (v : Z) (s : ssh) : ssh :=
  mk_ssh (s_in s) (s_out s) (s_input s) (s_output s) (s_outgoing s) (s_incoming s) (s_comp_buf s) (s_queue s)
    (s_kex s) (s_rekeying s) (s_rekey_limit s) (s_rekey_interval s) (s_rekey_time s) (s_after_auth s)
    (s_server_side s) (s_mux s) (s_extra_pad s) (s_packlen s) (s_discard s) (s_discard_mac s)
    (s_discard_already s) (s_keep_alive s) v (s_compat s) (s_now s) (s_tick s) (s_wire s).
Definition set_s_compat (v : Z) (s : ssh) : ssh :=
  mk_ssh (s_in s) (s_out s) (s_input s) (s_output s) (s_outgoing s) (s_incoming s) (s_comp_buf s) (s_queue s)
    (s_kex s) (s_rekeying s) (s_rekey_limit s) (s_rekey_interval s) (s_rekey_time s) (s_after_auth s)
    (s_server_side s) (s_mux s) (s_extra_pad s) (s_packlen s) (s_discard s) (s_discard_mac s)
    (s_discard_already s) (s_keep_alive s) (s_timeout_ms s) v (s_now s) (s_tick s) (s_wire s).
Definition set_s_now (v : Z) (s : ssh) : ssh :=
  mk_ssh (s_in s) (s_out s) (s_input s) (s_output s) (s_outgoing s) (s_incoming s) (s_comp_buf s) (s_queue s)
    (s_kex s) (s_rekeying s) (s_rekey_limit s) (s_rekey_interval s) (s_rekey_time s) (s_after_auth s)
    (s_server_side s) (s_mux s) (s_extra_pad s) (s_packlen s) (s_discard s) (s_discard_mac s)
    (s_discard_already s) (s_keep_alive s) (s_timeout_ms s) (s_compat s) v (s_tick s) (s_wire s).
Definition set_s_tick (v : Z) (s : ssh) : ssh :=
  mk_ssh (s_in s) (s_out s) (s_input s) (s_output s) (s_outgoing s) (s_incoming s) (s_comp_buf s) (s_queue s)
    (s_kex s) (s_rekeying s) (s_rekey_limit s) (s_rekey_interval s) (s_rekey_time s) (s_after_auth s)
    (s_server_side s) (s_mux s) (s_extra_pad s) (s_packlen s) (s_discard s) (s_discard_mac s)
    (s_discard_already s) (s_keep_alive s) (s_timeout_ms s) (s_compat s) (s_now s) v (s_wire s).
Definition set_s_wire (v : list Z) (s : ssh) : ssh :=
  mk_ssh (s_in s) (s_out s) (s_input s) (s_output s) (s_outgoing s) (s_incoming s) (s_comp_buf s) (s_queue s)
    (s_kex s) (s_rekeying s) (s_rekey_limit s) (s_rekey_interval s) (s_rekey_time s) (s_after_auth s)
    (s_server_side s) (s_mux s) (s_extra_pad s) (s_packlen s) (s_discard s) (s_discard_mac s)
    (s_discard_already s) (s_keep_alive s) (s_timeout_ms s) (s_compat s) (s_now s) (s_tick s) v.

Definition get_dir (m : mode) (s : ssh) : dir := match m with MODE_IN => s_in s | MODE_OUT => s_out s end.
Definition set_dir (m : mode) (d : dir) (s : ssh) : ssh :=
  match m with MODE_IN => set_s_in d s | MODE_OUT => set_s_out d s end.
Definition kex_newkeys (m : mode) (k : kex) : option newkeys := match m with MODE_IN => k_newkeys_in k | MODE_OUT => k_newkeys_out k end.
Definition set_kex_newkeys (m : mode) (n : option newkeys) (k : kex) : kex :=
  match m with MODE_IN => set_k_newkeys_in n k | MODE_OUT => set_k_newkeys_out n k end.
End State.
