(* ===== verification/Packet.v ===== *)
(** * Packets of the SSH transport: openssh/packet.c, and the KEXINIT messages
      of kex.c that it sends

    A packet is built in [s_outgoing] (sshpkt_start, sshpkt_put...), finished
    by ssh_packet_send2_wrapped (padding, compression, MAC, encryption) and
    appended to [s_output], from which write takes it; received bytes are put
    into [s_input] and ssh_packet_read_poll2 takes packets out of it into
    [s_incoming].  While keys are being exchanged other packets wait in
    [s_queue].

    An error code is an exception with the state reached so far; a NULL pointer
    that the code would follow and a loop that the fuel of the environment does
    not end are separate exceptions.  Not modelled: log lines, the hook for
    fuzzing, fd_sets. *)

From stdpp Require Import list.
From S2P Require Import Prelude Sshbuf Poly1305 ChachaPoly Mac Cipher PacketState.

(** ** Constants *)

Definition PACKET_MAX_SIZE : Z := 256 * 1024.
Definition MAX_PACKETS : Z := 2 ^ 31.

Definition SSH_MSG_NONE : Z := 0.
Definition SSH2_MSG_MIN : Z := 1.
Definition SSH2_MSG_LOCAL_MIN : Z := 192.
Definition SSH2_MSG_TRANSPORT_MIN : Z := 1.
Definition SSH2_MSG_TRANSPORT_MAX : Z := 49.
Definition SSH2_MSG_CONNECTION_MIN : Z := 80.
Definition SSH2_MSG_CONNECTION_MAX : Z := 127.
Definition SSH2_MSG_DISCONNECT : Z := 1.
Definition SSH2_MSG_IGNORE : Z := 2.
Definition SSH2_MSG_UNIMPLEMENTED : Z := 3.
Definition SSH2_MSG_DEBUG : Z := 4.
Definition SSH2_MSG_SERVICE_REQUEST : Z := 5.
Definition SSH2_MSG_SERVICE_ACCEPT : Z := 6.
Definition SSH2_MSG_EXT_INFO : Z := 7.
Definition SSH2_MSG_KEXINIT : Z := 20.
Definition SSH2_MSG_NEWKEYS : Z := 21.
Definition SSH2_MSG_USERAUTH_SUCCESS : Z := 52.
Definition SSH2_DISCONNECT_PROTOCOL_ERROR : Z := 2.

Definition SSH_ERR_UNEXPECTED_TRAILING_DATA : Z := -23.
Definition SSH_ERR_SYSTEM_ERROR : Z := -24.
Definition SSH_ERR_DISCONNECTED : Z := -29.
Definition SSH_ERR_NEED_REKEY : Z := -39.
Definition SSH_ERR_CONN_CLOSED : Z := -52.
Definition SSH_ERR_CONN_TIMEOUT : Z := -53.
Definition SSH_ERR_CONN_CORRUPT : Z := -54.
Definition SSH_ERR_PROTOCOL_ERROR : Z := -55.

Definition SSH_BUG_DEBUG : Z := 0x40.
Definition SSH_BUG_NOREKEY : Z := 0x8000.

(** ** The system *)

Inductive io_error := IO_EINTR | IO_EAGAIN | IO_OTHER.
(** write: how many bytes it took; read: the bytes; select: ready, timed out,
    or an error after some milliseconds. *)
Inductive write_res := Wrote (n : Z) | WriteError (e : io_error).
Inductive read_res := Read (bytes : list Z) | ReadError (e : io_error).
Inductive select_res := Ready | TimedOut | SelectError (e : io_error) (elapsed : Z).

(** The answers of the system at its [n]-th call; [max_rounds] bounds how often
    the loops that wait for the system go round. *)
Class PktEnv := {
  arc4random_buf : Z -> Z -> list Z;
  sys_write : Z -> list Z -> write_res;
  sys_read : Z -> read_res;
  sys_select : Z -> option Z -> select_res;
  max_rounds : nat
}.

(** Why a function does not return normally: its code, a NULL pointer, or a
    loop that goes on. *)
Inductive stop := Err (r : Z) | Segv | Hang.

Section Packet.
Context {al : Allocator} {md : EvpMd} {um : Umac} {ev : EvpCipher} {zl : Zlib} {env : PktEnv}.

Abbreviation PK := (SE ssh stop).

Definition fail {A} (r : Z) : PK A := throw (Err r).
(** A code that is 0 on success. *)
Definition check (r : Z) : PK () := if r =? 0 then mret tt else fail r.

(** The code that a function returns, 0 for success. *)
Definition code (m : PK ()) : PK Z := fun s =>
  match m s with
  | (inl (Err r), s') => (inr r, s')
  | (inl e, s') => (inl e, s')
  | (inr _, s') => (inr 0, s')
  end.

(** An operation on one of the buffers; a corrupted one, for which the source
    raises SIGSEGV, is an error code. *)
Definition on_buf {A} (get : ssh -> sshbuf) (set : sshbuf -> ssh -> ssh) (m : SE sshbuf Z A) : PK A := fun s =>
  let '(r, b) := m (get s) in
  match r with inl e => (inl (Err e), set b s) | inr a => (inr a, set b s) end.
Definition on_input {A} (m : SE sshbuf Z A) : PK A := on_buf s_input set_s_input m.
Definition on_output {A} (m : SE sshbuf Z A) : PK A := on_buf s_output set_s_output m.
Definition on_outgoing {A} (m : SE sshbuf Z A) : PK A := on_buf s_outgoing set_s_outgoing m.
Definition on_incoming {A} (m : SE sshbuf Z A) : PK A := on_buf s_incoming set_s_incoming m.
Definition reset_buf : SE sshbuf Z () := modify sshbuf_reset.

(** The compression buffer, which must have been allocated. *)
Definition on_comp_buf {A} (m : SE sshbuf Z A) : PK A := fun s =>
  match s_comp_buf s with
  | None => (inl Segv, s)
  | Some b =>
      let '(r, b) := m b in
      let s := set_s_comp_buf (Some b) s in
      match r with inl e => (inl (Err e), s) | inr a => (inr a, s) end
  end.

Definition on_dir (m : mode) (f : dir -> dir) : PK () := modify (fun s => set_dir m (f (get_dir m s)) s).
Definition tick : PK Z := n ← gets s_tick; _ ← modify (set_s_tick (n + 1)); mret n.

(** sshbuf_mutable_ptr: whether it is not NULL; the pointer is at b_off. *)
Definition mutable_ptr (b : sshbuf) : bool :=
  negb (truthy (sshbuf_check_sanity b) || b_readonly b || (1 <? b_refcount b)).

Definition ssh_packet_is_rekeying (s : ssh) : bool :=
  s_rekeying s || match s_kex s with None => false | Some k => negb (k_done k) end.

(** ** Compression *)

Definition ssh_packet_init_compression : PK () :=
  b ← gets s_comp_buf;
  match b with
  | Some _ => mret tt
  | None => match sshbuf_new with
            | None => fail SSH_ERR_ALLOC_FAIL
            | Some b => modify (set_s_comp_buf (Some b))
            end
  end.

Definition start_compression (m : mode) (init : z_stream -> Z * z_stream) (end_ : z_stream -> z_stream) : PK () :=
  d ← gets (get_dir m);
  let z := if d_z_started d then end_ (d_z d) else d_z d in
  let '(r, z) := init z in
  _ ← on_dir m (set_d_z z);
  if r =? Z_OK then on_dir m (set_d_z_started true)
  else if r =? Z_MEM_ERROR then fail SSH_ERR_ALLOC_FAIL
  else fail SSH_ERR_INTERNAL_ERROR.
Definition start_compression_out (level : Z) : PK () :=
  if (level <? 1) || (9 <? level) then fail SSH_ERR_INVALID_ARGUMENT
  else start_compression MODE_OUT (fun z => deflateInit z level) deflateEnd.
Definition start_compression_in : PK () := start_compression MODE_IN inflateInit inflateEnd.

(** The do-while loop of compress_buffer; [rest] is at next_in. *)
Fixpoint compress_loop (fuel : nat) (rest : list Z) : PK () :=
  match fuel with
  | O => throw Hang
  | S fuel' =>
      d ← gets s_out;
      let '(status, out, rest, z) := deflate (d_z d) rest 4096 in
      _ ← on_dir MODE_OUT (set_d_z z);
      if status =? Z_MEM_ERROR then fail SSH_ERR_ALLOC_FAIL
      else if status =? Z_OK then
        _ ← on_comp_buf (sshbuf_put out (zlen out));
        if 4096 - zlen out =? 0 then compress_loop fuel' rest else mret tt
      else
        _ ← on_dir MODE_OUT (fun d => set_d_z_failures (d_z_failures d + 1) d);
        fail SSH_ERR_INVALID_FORMAT
  end.
(** compress_buffer(ssh, state->outgoing_packet, state->compression_buffer) *)
Definition compress_buffer : PK () :=
  s ← gets id;
  if negb (d_z_started (s_out s)) then fail SSH_ERR_INTERNAL_ERROR
  else if sshbuf_len (s_outgoing s) =? 0 then mret tt
  else if negb (mutable_ptr (s_outgoing s)) then fail SSH_ERR_INTERNAL_ERROR
  else compress_loop max_rounds (ztake (sshbuf_len (s_outgoing s)) (sshbuf_ptr (s_outgoing s))).

Fixpoint uncompress_loop (fuel : nat) (rest : list Z) : PK () :=
  match fuel with
  | O => throw Hang
  | S fuel' =>
      d ← gets s_in;
      let '(status, out, rest, z) := inflate (d_z d) rest 4096 in
      _ ← on_dir MODE_IN (set_d_z z);
      if status =? Z_OK then
        _ ← on_comp_buf (sshbuf_put out (zlen out)); uncompress_loop fuel' rest
      else if status =? Z_BUF_ERROR then mret tt
      else if status =? Z_DATA_ERROR then fail SSH_ERR_INVALID_FORMAT
      else if status =? Z_MEM_ERROR then fail SSH_ERR_ALLOC_FAIL
      else
        _ ← on_dir MODE_IN (fun d => set_d_z_failures (d_z_failures d + 1) d);
        fail SSH_ERR_INTERNAL_ERROR
  end.
(** uncompress_buffer(ssh, state->incoming_packet, state->compression_buffer) *)
Definition uncompress_buffer : PK () :=
  s ← gets id;
  if negb (d_z_started (s_in s)) then fail SSH_ERR_INTERNAL_ERROR
  else if negb (mutable_ptr (s_incoming s)) then fail SSH_ERR_INTERNAL_ERROR
  else uncompress_loop max_rounds (ztake (sshbuf_len (s_incoming s)) (sshbuf_ptr (s_incoming s))).

(** ** Keys *)

Definition ssh_clear_newkeys (m : mode) : PK () :=
  modify (fun s => match s_kex s with None => s | Some k => set_s_kex (Some (set_kex_newkeys m None k)) s end).

(** comp->enabled = 1 once its stream is started; the type asks for it. *)
Definition enable_compression (m : mode) : PK () :=
  _ ← ssh_packet_init_compression;
  _ ← match m with MODE_OUT => start_compression_out 6 | MODE_IN => start_compression_in end;
  on_dir m (fun d => set_d_newkeys (set_comp_enabled <$> d_newkeys d) d).

Definition ssh_set_newkeys (m : mode) : PK () :=
  s ← gets id;
  _ ← when (bool_decide (d_newkeys (get_dir m s) <> None)) (on_dir m (fun d => set_d_ctx None (set_d_newkeys None d)));
  _ ← on_dir m (fun d => set_d_packets 0 (set_d_blocks 0 d));
  match s_kex s with
  | None => throw Segv
  | Some k =>
      match kex_newkeys m k with
      | None => _ ← on_dir m (set_d_newkeys None); fail SSH_ERR_INTERNAL_ERROR
      | Some nk =>
          _ ← on_dir m (set_d_newkeys (Some nk));
          _ ← modify (set_s_kex (Some (set_kex_newkeys m None k)));
          let enc := nk_enc nk in
          let '(r, mac) := if cipher_authlen (e_cipher enc) =? 0 then mac_init (nk_mac nk) else (0, nk_mac nk) in
          _ ← on_dir m (set_d_newkeys (Some (set_nk_mac mac nk)));
          _ ← check r;
          let mac := set_mac_enabled true mac in
          _ ← on_dir m (set_d_newkeys (Some (set_nk_mac mac nk)));
          match cipher_init (e_cipher enc) (default [] (e_key enc)) (e_key_len enc) (e_iv enc) (e_iv_len enc)
                  (match m with MODE_OUT => true | MODE_IN => false end) with
          | inl r => _ ← on_dir m (set_d_ctx None); fail r
          | inr cc =>
              _ ← on_dir m (set_d_ctx (Some cc));
              let comp := nk_comp nk in
              _ ← when (((c_type comp =? COMP_ZLIB) || ((c_type comp =? COMP_DELAYED) && s_after_auth s)) && negb (c_enabled comp))
                    (enable_compression m);
              let bs := e_block_size enc in
              let max := if 16 <=? bs then u64 (Z.shiftl 1 (bs * 2)) else Z.shiftl 1 30 / bs in
              let max := if truthy (s_rekey_limit s) then Z.min max (s_rekey_limit s / bs) else max in
              on_dir m (set_d_max_blocks max)
          end
      end
  end.

(** The #define ROUNDUP of misc.h, on u_int. *)
Definition ROUNDUP32 (x y : Z) : Z := u32 (u32 (x + (y - 1)) / y * y).

(** [None]: state->newkeys[MODE_OUT] is NULL. *)
Definition ssh_packet_need_rekeying (s : ssh) (outbound_packet_len : Z) : option bool :=
  if negb (s_after_auth s) then Some false
  else if bool_decide (s_kex s = None) || ssh_packet_is_rekeying s then Some false
  else if truthy (Z.land (s_compat s) SSH_BUG_NOREKEY) then Some false
  else if (d_packets (s_out s) =? 0) && (d_packets (s_in s) =? 0) then Some false
  else if truthy (s_rekey_interval s) && (s_rekey_time s + s_rekey_interval s <=? s_now s) then Some true
  else if (MAX_PACKETS <? d_packets (s_out s)) || (MAX_PACKETS <? d_packets (s_in s)) then Some true
  else
    nk ← d_newkeys (s_out s);
    let out_blocks := ROUNDUP32 outbound_packet_len (e_block_size (nk_enc nk)) in
    Some ((truthy (d_max_blocks (s_out s)) && (d_max_blocks (s_out s) <? u64 (d_blocks (s_out s) + out_blocks))) ||
          (truthy (d_max_blocks (s_in s)) && (d_max_blocks (s_in s) <? d_blocks (s_in s)))).
Definition need_rekeying (n : Z) : PK bool :=
  r ← gets (fun s => ssh_packet_need_rekeying s n);
  match r with Some b => mret b | None => throw Segv end.

(** for (mode = 0; mode < MODE_MAX; mode++): MODE_IN, then MODE_OUT *)
Definition delayed_compress (m : mode) : PK () :=
  nk ← gets (fun s => d_newkeys (get_dir m s));
  match nk with
  | None => mret tt
  | Some nk => when (negb (c_enabled (nk_comp nk)) && (c_type (nk_comp nk) =? COMP_DELAYED)) (enable_compression m)
  end.
Definition ssh_packet_enable_delayed_compress : PK () :=
  _ ← modify (set_s_after_auth true);
  _ ← delayed_compress MODE_IN; delayed_compress MODE_OUT.

(** ** Sending *)

(** What the keys of a direction mean for a packet. *)
Definition k_authlen (nk : option newkeys) : Z :=
  match nk with Some k => cipher_authlen (e_cipher (nk_enc k)) | None => 0 end.
Definition k_mac (nk : option newkeys) : option sshmac :=
  match nk with Some k => if truthy (k_authlen nk) then None else Some (nk_mac k) | None => None end.
Definition k_block_size (nk : option newkeys) : Z := match nk with Some k => e_block_size (nk_enc k) | None => 8 end.
Definition k_mac_enabled (nk : option newkeys) : bool := match k_mac nk with Some m => m_enabled m | None => false end.
Definition k_etm (nk : option newkeys) : bool := match k_mac nk with Some m => m_enabled m && m_etm m | None => false end.
Definition k_aadlen (nk : option newkeys) : Z := if k_etm nk || truthy (k_authlen nk) then 4 else 0.
Definition k_comp_enabled (nk : option newkeys) : bool := match nk with Some k => c_enabled (nk_comp k) | None => false end.
Definition k_mac_len (nk : option newkeys) : Z :=
  match k_mac nk with Some m => if m_enabled m then m_mac_len m else 0 | None => 0 end.

(** mac_compute on the MAC of a direction. *)
Definition dir_mac_compute (m : mode) (seqno : Z) (data : list Z) (dlen : option Z) : PK (list Z) :=
  d ← gets (get_dir m);
  match d_newkeys d with
  | None => throw Segv
  | Some nk =>
      let '((r, digest), mac) := mac_compute (nk_mac nk) seqno data dlen in
      _ ← on_dir m (set_d_newkeys (Some (set_nk_mac mac nk)));
      if r =? NULL_CONTEXT then throw Segv else (_ ← check r; mret digest)
  end.
Definition dir_mac_check (m : mode) (seqno : Z) (data theirmac : list Z) (mlen : Z) : PK Z :=
  d ← gets (get_dir m);
  match d_newkeys d with
  | None => throw Segv
  | Some nk =>
      let '(r, mac) := mac_check (nk_mac nk) seqno data theirmac mlen in
      _ ← on_dir m (set_d_newkeys (Some (set_nk_mac mac nk)));
      if r =? NULL_CONTEXT then throw Segv else mret r
  end.
(** cipher_crypt from [src] into the [n] bytes reserved at [dp] of a buffer. *)
Definition crypt_into (m : mode) (get : ssh -> sshbuf) (set : sshbuf -> ssh -> ssh) (dp n seqnr : Z) (src : list Z)
    (len aadlen authlen : Z) : PK () :=
  s ← gets id;
  match d_ctx (get_dir m s) with
  | None => throw Segv
  | Some cc =>
      let '((r, dest), cc) := cipher_crypt cc seqnr (zslice dp n (b_mem (get s))) src len aadlen authlen in
      _ ← on_dir m (set_d_ctx (Some cc));
      _ ← on_buf get set (poke dp dest);
      if r =? NULL_CONTEXT then throw Segv else check r
  end.

(** state->extra_pad = ROUNDUP(state->extra_pad, block_size), an u_char. *)
Definition round_pad (block_size extra_pad : Z) : Z := u8 ((extra_pad + (block_size - 1)) / block_size * block_size).
(** The padding of [len] bytes, with state->extra_pad. *)
Definition pad_length (len block_size extra_pad : Z) : Z + Z :=
  let padlen := u8 (block_size - len mod block_size) in
  let padlen := if padlen <? 4 then u8 (padlen + block_size) else padlen in
  if truthy extra_pad then
    let extra := round_pad block_size extra_pad in
    if extra <? extra_pad then inl SSH_ERR_INVALID_ARGUMENT
    else
      let tmp := u8 (u32 (len + padlen) mod extra) in
      if extra <? tmp then inl SSH_ERR_INVALID_ARGUMENT
      else
        let pad := u8 (extra - tmp) in
        let padlen' := u8 (padlen + pad) in
        if padlen' <? padlen then inl SSH_ERR_INVALID_ARGUMENT else inr padlen'
  else inr padlen.

(** The payload replaced by its compression, behind five zero bytes. *)
Definition compress_outgoing : PK () :=
  _ ← on_outgoing (sshbuf_consume 5);
  _ ← on_comp_buf reset_buf;
  _ ← compress_buffer;
  _ ← on_outgoing reset_buf;
  _ ← on_outgoing (sshbuf_put (zfill 5) 5);
  b ← gets s_comp_buf;
  match b with None => throw Segv | Some b => on_outgoing (sshbuf_putb b) end.

(** EtM: the MAC over the bytes of the cipher text at [cp]. *)
Definition etm_code (seqnr cp len : Z) : PK (list Z) :=
  out ← gets (fun s => zslice cp len (b_mem (s_output s)));
  dir_mac_compute MODE_OUT seqnr out (Some SSH_DIGEST_MAX_LENGTH).

(** Random bytes, or zeros when nothing is encrypted. *)
Definition padding_bytes (nk : option newkeys) (padlen : Z) : PK (list Z) :=
  cc ← gets (fun s => d_ctx (s_out s));
  match nk with
  | None => mret (zfill padlen)
  | Some _ =>
      match cc with
      | None => throw Segv
      | Some cc => if cipher_ctx_is_plaintext cc then mret (zfill padlen) else (n ← tick; mret (arc4random_buf n padlen))
      end
  end.
(** The padding and the two length fields; the length of the packet. *)
Definition pad_outgoing (nk : option newkeys) : PK Z :=
  let block_size := k_block_size nk in
  len ← gets (fun s => u32 (sshbuf_len (s_outgoing s)));
  extra ← gets s_extra_pad;
  padlen ← match pad_length (u32 (len - k_aadlen nk)) block_size extra with
           | inl r => _ ← modify (set_s_extra_pad (round_pad block_size extra)); fail r
           | inr p => mret p
           end;
  _ ← modify (set_s_extra_pad 0);
  dp ← on_outgoing (sshbuf_reserve padlen);
  padding ← padding_bytes nk padlen;
  _ ← on_outgoing (poke dp padding);
  len ← gets (fun s => u32 (sshbuf_len (s_outgoing s)));
  ok ← gets (fun s => mutable_ptr (s_outgoing s));
  _ ← guard_or ok (Err SSH_ERR_INTERNAL_ERROR);
  off ← gets (fun s => b_off (s_outgoing s));
  _ ← on_outgoing (poke off (POKE_U32 (u32 (len - 4))));
  _ ← on_outgoing (poke (off + 4) [padlen]);
  mret len.

(** The MAC and the encryption, into the output. *)
Definition seal_outgoing (nk : option newkeys) (len : Z) : PK () :=
  let authlen := k_authlen nk in
  let aadlen := k_aadlen nk in
  seqnr ← gets (fun s => d_seqnr (s_out s));
  plain ← gets (fun s => ztake len (sshbuf_ptr (s_outgoing s)));
  macbuf ← (if k_mac_enabled nk && negb (k_etm nk) then dir_mac_compute MODE_OUT seqnr plain (Some SSH_DIGEST_MAX_LENGTH)
            else mret []);
  n ← gets (fun s => sshbuf_len (s_outgoing s) + authlen);
  cp ← on_output (sshbuf_reserve n);
  _ ← crypt_into MODE_OUT s_output set_s_output cp n seqnr plain (u32 (len - aadlen)) aadlen authlen;
  when (k_mac_enabled nk)
    (macbuf ← (if k_etm nk then etm_code seqnr cp len else mret macbuf);
     on_output (sshbuf_put macbuf (k_mac_len nk))).

(** The counters, and what a message of this type changes. *)
Definition count_sent (block_size len type : Z) : PK () :=
  _ ← on_dir MODE_OUT (fun d => set_d_seqnr (u32 (d_seqnr d + 1)) d);
  _ ← on_dir MODE_OUT (fun d => set_d_packets (u32 (d_packets d + 1)) d);
  s ← gets id;
  _ ← guard_or (negb ((d_packets (s_out s) =? 0) && negb (truthy (Z.land (s_compat s) SSH_BUG_NOREKEY)))) (Err SSH_ERR_NEED_REKEY);
  _ ← on_dir MODE_OUT (fun d => set_d_bytes (u64 (d_bytes d + len)) (set_d_blocks (u64 (d_blocks d + len / block_size)) d));
  _ ← on_outgoing reset_buf;
  if type =? SSH2_MSG_NEWKEYS then ssh_set_newkeys MODE_OUT
  else if (type =? SSH2_MSG_USERAUTH_SUCCESS) && s_server_side s then ssh_packet_enable_delayed_compress
  else mret tt.

Definition ssh_packet_send2_wrapped : PK () :=
  nk ← gets (fun s => d_newkeys (s_out s));
  type ← gets (fun s => u_char_at (sshbuf_ptr (s_outgoing s)) 5);
  _ ← when (k_comp_enabled nk) compress_outgoing;
  len ← pad_outgoing nk;
  _ ← seal_outgoing nk len;
  count_sent (k_block_size nk) len type.

Definition ssh_packet_type_is_kex (type : Z) : bool :=
  (SSH2_MSG_TRANSPORT_MIN <=? type) && (type <=? SSH2_MSG_TRANSPORT_MAX) && negb (type =? SSH2_MSG_SERVICE_REQUEST) &&
  negb (type =? SSH2_MSG_SERVICE_ACCEPT) && negb (type =? SSH2_MSG_EXT_INFO).

(** The loop that sends the queue after NEWKEYS; [rekex] is kex_start_rekex. *)
Fixpoint send_queue (rekex : PK ()) (q : list (Z * sshbuf)) : PK () :=
  match q with
  | [] => mret tt
  | (_, payload) :: q' =>
      again ← need_rekeying (sshbuf_len payload);
      if (again : bool) then rekex
      else
        _ ← modify (fun s => set_s_queue q' (set_s_outgoing payload s));
        _ ← ssh_packet_send2_wrapped;
        send_queue rekex q'
  end.
Definition send2_body (rekex : PK ()) : PK () :=
  s ← gets id;
  if sshbuf_len (s_outgoing s) <? 6 then fail SSH_ERR_INTERNAL_ERROR
  else
    let type := u_char_at (sshbuf_ptr (s_outgoing s)) 5 in
    let kex := ssh_packet_type_is_kex type in
    need_rekey ← (if kex then mret false else need_rekeying (sshbuf_len (s_outgoing s)));
    if (need_rekey || s_rekeying s) && negb kex then
      match heap_alloc 32 with
      | None => fail SSH_ERR_ALLOC_FAIL
      | Some _ =>
          _ ← modify (fun s => set_s_queue (s_queue s ++ [(type, s_outgoing s)]) s);
          match sshbuf_new with
          | None => fail SSH_ERR_ALLOC_FAIL
          | Some b => _ ← modify (set_s_outgoing b); when need_rekey rekex
          end
      end
    else
      _ ← when (type =? SSH2_MSG_KEXINIT) (modify (set_s_rekeying true));
      _ ← ssh_packet_send2_wrapped;
      when (type =? SSH2_MSG_NEWKEYS)
        (_ ← modify (fun s => set_s_rekey_time (s_now s) (set_s_rekeying false s));
         q ← gets s_queue; send_queue rekex q).

(** ** Building and sending messages *)

Definition sshpkt_start (type : Z) : PK () :=
  _ ← on_outgoing reset_buf; on_outgoing (sshbuf_put [0; 0; 0; 0; 0; u8 type] 6).
Definition sshpkt_put (v : list Z) (len : Z) : PK () := on_outgoing (sshbuf_put v len).
Definition sshpkt_putb (b : sshbuf) : PK () := on_outgoing (sshbuf_putb b).
Definition sshpkt_put_u8 (val : Z) : PK () := on_outgoing (sshbuf_put_u8 val).
Definition sshpkt_put_u32 (val : Z) : PK () := on_outgoing (sshbuf_put_u32 val).
Definition sshpkt_put_u64 (val : Z) : PK () := on_outgoing (sshbuf_put_u64 val).
Definition sshpkt_put_string (v : list Z) (len : Z) : PK () := on_outgoing (sshbuf_put_string v len).
Definition sshpkt_put_cstring (v : list Z) : PK () := on_outgoing (sshbuf_put_cstring (Some v)).
Definition sshpkt_put_stringb (v : sshbuf) : PK () := on_outgoing (sshbuf_put_stringb v).

Definition ssh_packet_send_mux : PK () :=
  s ← gets id;
  if bool_decide (s_kex s <> None) then fail SSH_ERR_INTERNAL_ERROR
  else
    let len := sshbuf_len (s_outgoing s) in
    if len <? 6 then fail SSH_ERR_INTERNAL_ERROR
    else if negb (mutable_ptr (s_outgoing s)) then throw Segv
    else
      let type := u_char_at (sshbuf_ptr (s_outgoing s)) 5 in
      _ ← when ((SSH2_MSG_CONNECTION_MIN <=? type) && (type <=? SSH2_MSG_CONNECTION_MAX))
            (_ ← on_outgoing (poke (b_off (s_outgoing s)) (POKE_U32 (u32 (len - 4))));
             b ← gets s_outgoing; on_output (sshbuf_putb b));
      on_outgoing reset_buf.

Definition send_body (rekex : PK ()) : PK () :=
  m ← gets s_mux; if (m : bool) then ssh_packet_send_mux else send2_body rekex.

(** kex_send_kexinit and kex_start_rekex; [send] is sshpkt_send. *)
Definition send_kexinit (send : PK ()) : PK () :=
  k ← gets s_kex;
  match k with
  | None => fail SSH_ERR_INTERNAL_ERROR
  | Some k =>
      if truthy (Z.land (k_flags k) KEX_INIT_SENT) then mret tt
      else
        let k := set_k_done false k in
        _ ← modify (set_s_kex (Some k));
        if sshbuf_len (k_my k) <? KEX_COOKIE_LEN then fail SSH_ERR_INVALID_FORMAT
        else if negb (mutable_ptr (k_my k)) then fail SSH_ERR_INTERNAL_ERROR
        else
          n ← tick;
          let my := set_mem (zwrite (b_off (k_my k)) (arc4random_buf n KEX_COOKIE_LEN) (b_mem (k_my k))) (k_my k) in
          _ ← modify (set_s_kex (Some (set_k_my my k)));
          _ ← sshpkt_start SSH2_MSG_KEXINIT;
          _ ← sshpkt_putb my;
          _ ← send;
          modify (fun s => set_s_kex ((fun k => set_k_flags (Z.lor (k_flags k) KEX_INIT_SENT) k) <$> s_kex s) s)
  end.
Definition start_rekex (send : PK ()) : PK () :=
  k ← gets s_kex;
  match k with
  | None => fail SSH_ERR_INTERNAL_ERROR
  | Some k =>
      if negb (k_done k) then fail SSH_ERR_INTERNAL_ERROR
      else _ ← modify (set_s_kex (Some (set_k_done false k))); send_kexinit send
  end.

(** A KEXINIT packet never starts another key exchange ([send2_kexinit]), so
    that the recursion of ssh_packet_send2 through kex_start_rekex ends after
    one step. *)
Definition kex_start_rekex : PK () := start_rekex (send_body (throw Hang)).
Definition kex_send_kexinit : PK () := send_kexinit (send_body (throw Hang)).
Definition ssh_packet_send2 : PK () := send2_body kex_start_rekex.
Definition sshpkt_send : PK () := send_body kex_start_rekex.

Definition sshpkt_disconnect (msg : list Z) : PK () :=
  _ ← sshpkt_start SSH2_MSG_DISCONNECT;
  _ ← sshpkt_put_u32 SSH2_DISCONNECT_PROTOCOL_ERROR;
  _ ← sshpkt_put_cstring (snprintf 1024 msg);
  _ ← sshpkt_put_cstring [];
  sshpkt_send.

(** The loop of sshpkt_msg_ignore, [i] bytes having been put. *)
Fixpoint ignore_bytes (n : nat) (i rnd : Z) : PK () :=
  match n with
  | O => mret tt
  | S n' =>
      rnd ← (if i mod 4 =? 0 then (t ← tick; mret (PEEK_U32 (arc4random_buf t 4))) else mret rnd);
      _ ← sshpkt_put_u8 (Z.land (u8 rnd) 0xff);
      ignore_bytes n' (i + 1) (Z.shiftr rnd 8)
  end.
Definition sshpkt_msg_ignore (nbytes : Z) : PK () :=
  _ ← sshpkt_start SSH2_MSG_IGNORE;
  _ ← sshpkt_put_u32 nbytes;
  ignore_bytes (Z.to_nat nbytes) 0 0.
Definition sshpkt_add_padding (pad : Z) : PK () := modify (set_s_extra_pad (u8 pad)).

(** ** Writing and waiting *)

Definition ssh_packet_write_poll : PK () :=
  s ← gets id;
  let len := sshbuf_len (s_output s) in
  if 0 <? len then
    let data := ztake len (sshbuf_ptr (s_output s)) in
    n ← tick;
    match sys_write n data with
    | WriteError IO_EINTR | WriteError IO_EAGAIN => mret tt
    | WriteError IO_OTHER => fail SSH_ERR_SYSTEM_ERROR
    | Wrote k =>
        if k =? 0 then fail SSH_ERR_CONN_CLOSED
        else
          _ ← modify (fun s => set_s_wire (s_wire s ++ ztake k data) s);
          on_output (sshbuf_consume k)
    end
  else mret tt.
Definition ssh_packet_have_data_to_write (s : ssh) : bool := negb (sshbuf_len (s_output s) =? 0).
Definition ssh_packet_not_very_much_data_to_write (interactive : bool) (s : ssh) : bool :=
  if interactive then sshbuf_len (s_output s) <? 16384 else sshbuf_len (s_output s) <? 128 * 1024.

(** The inner loop around select: whether it timed out.  An error other than an
    interruption ends it when [on_error] is [None] (writing) and is an error of
    the caller otherwise (reading). *)
Fixpoint select_loop (fuel : nat) (on_error : option Z) (ms_remain : Z) : PK bool :=
  match fuel with
  | O => throw Hang
  | S fuel' =>
      timeout ← gets s_timeout_ms;
      n ← tick;
      match sys_select n (if 0 <? timeout then Some ms_remain else None) with
      | Ready => mret false
      | TimedOut => mret true
      | SelectError IO_OTHER _ => match on_error with None => mret false | Some r => fail r end
      | SelectError _ elapsed =>
          if timeout =? -1 then select_loop fuel' on_error ms_remain
          else if ms_remain - elapsed <=? 0 then mret true
          else select_loop fuel' on_error (ms_remain - elapsed)
      end
  end.
(** ms_remain is 0 before the first round with a timeout. *)
Definition wait_select (on_error : option Z) : PK () :=
  timeout ← gets s_timeout_ms;
  timed_out ← select_loop max_rounds on_error (if 0 <? timeout then timeout else 0);
  guard_or (negb timed_out) (Err SSH_ERR_CONN_TIMEOUT).

Fixpoint write_wait_loop (fuel : nat) : PK () :=
  match fuel with
  | O => throw Hang
  | S fuel' =>
      more ← gets ssh_packet_have_data_to_write;
      if (more : bool) then
        _ ← wait_select None; _ ← ssh_packet_write_poll; write_wait_loop fuel'
      else mret tt
  end.
(** The fd_set has one bit per descriptor; a block of 128 bytes. *)
Definition ssh_packet_write_wait : PK () :=
  match heap_alloc 128 with
  | None => fail SSH_ERR_ALLOC_FAIL
  | Some _ => _ ← ssh_packet_write_poll; write_wait_loop max_rounds
  end.

(** ** Reading *)

(** while (sshbuf_len(state->incoming_packet) < dlen) ... *)
Fixpoint fill_incoming (fuel : nat) (dlen : Z) : PK () :=
  match fuel with
  | O => throw Hang
  | S fuel' =>
      n ← gets (fun s => sshbuf_len (s_incoming s));
      if n <? dlen then _ ← on_incoming (sshbuf_put (replicate 1024 97) 1024); fill_incoming fuel' dlen
      else mret tt
  end.
Definition ssh_packet_stop_discard : PK () :=
  s ← gets id;
  _ ← when (s_discard_mac s)
        (let dlen := if s_discard_already s <? PACKET_MAX_SIZE then PACKET_MAX_SIZE - s_discard_already s else PACKET_MAX_SIZE in
         _ ← fill_incoming (Z.to_nat (PACKET_MAX_SIZE / 1024 + 1)) dlen;
         data ← gets (fun s => ztake dlen (sshbuf_ptr (s_incoming s)));
         _ ← code (_ ← dir_mac_compute MODE_IN (d_seqnr (s_in s)) data None; mret tt); mret tt);
  fail SSH_ERR_MAC_INVALID.

Definition ssh_packet_start_discard (mac_already discard : Z) : PK () :=
  s ← gets id;
  let nk := d_newkeys (s_in s) in
  let cbc := match nk with Some k => cipher_is_cbc (e_cipher (nk_enc k)) | None => false end in
  let etm := match k_mac nk with Some m => m_etm m | None => false end in
  if negb cbc || etm then
    _ ← sshpkt_disconnect (str "Packet corrupt"); fail SSH_ERR_MAC_INVALID
  else
    _ ← when (k_mac_enabled nk) (modify (fun s => set_s_discard_already mac_already (set_s_discard_mac true s)));
    let have := sshbuf_len (s_input s) in
    if discard <=? have then ssh_packet_stop_discard
    else modify (set_s_discard (discard - have)).

(** The type, and the sequence number when a packet was taken. *)
Definition ssh_packet_read_poll2_mux : PK (Z * option Z) :=
  s ← gets id;
  if bool_decide (s_kex s <> None) then fail SSH_ERR_INTERNAL_ERROR
  else
    let cp := sshbuf_ptr (s_input s) in
    let go : PK (Z * option Z) :=
      packlen ← gets s_packlen;
      let need := u32 (packlen + 4) in
      if sshbuf_len (s_input s) <? need then mret (SSH_MSG_NONE, None)
      else
        _ ← on_incoming reset_buf;
        _ ← on_incoming (sshbuf_put (zdrop 4 cp) packlen);
        _ ← on_input (sshbuf_consume need);
        _ ← on_incoming sshbuf_get_u8;
        type ← on_incoming sshbuf_get_u8;
        _ ← modify (set_s_packlen 0);
        mret (type, None) in
    if s_packlen s =? 0 then
      if sshbuf_len (s_input s) <? 4 + 1 then mret (SSH_MSG_NONE, None)
      else
        let packlen := PEEK_U32 cp in
        _ ← modify (set_s_packlen packlen);
        if (packlen <? 4 + 1) || (PACKET_MAX_SIZE <? packlen) then fail SSH_ERR_MESSAGE_INCOMPLETE else go
    else go.

(** cipher_get_length on the input: [None] when it fails. *)
Definition get_length : PK (option Z) :=
  s ← gets id;
  match d_ctx (s_in s) with
  | None => throw Segv
  | Some cc =>
      let '(r, cc) := cipher_get_length cc (d_seqnr (s_in s)) (sshbuf_ptr (s_input s)) (u32 (sshbuf_len (s_input s))) in
      _ ← on_dir MODE_IN (set_d_ctx (Some cc));
      mret (match r with inl _ => None | inr n => Some n end)
  end.
Definition bad_length (packlen : Z) : bool := (packlen <? 1 + 4) || (PACKET_MAX_SIZE <? packlen).

(** state->packlen, from an encrypted or a clear length; [false] when the
    function returns without a packet. *)
Definition read_length (aadlen block_size : Z) : PK bool :=
  s ← gets id;
  if negb (s_packlen s =? 0) then mret true
  else if negb (aadlen =? 0) then
    n ← get_length;
    match n with
    | None => mret false
    | Some packlen =>
        _ ← modify (set_s_packlen packlen);
        if bad_length packlen then _ ← sshpkt_disconnect (str "Packet corrupt"); fail SSH_ERR_CONN_CORRUPT
        else _ ← on_incoming reset_buf; mret true
    end
  else if sshbuf_len (s_input s) <? block_size then mret false
  else
    _ ← on_incoming reset_buf;
    cp ← on_incoming (sshbuf_reserve block_size);
    _ ← crypt_into MODE_IN s_incoming set_s_incoming cp block_size (d_seqnr (s_out s))
          (ztake block_size (sshbuf_ptr (s_input s))) block_size 0 0;
    packlen ← gets (fun s => PEEK_U32 (sshbuf_ptr (s_incoming s)));
    _ ← modify (set_s_packlen packlen);
    if bad_length packlen then _ ← ssh_packet_start_discard 0 PACKET_MAX_SIZE; mret false
    else _ ← on_input (sshbuf_consume block_size); mret true.

(** The MAC over the clear text; [false] when the rest is discarded. *)
Definition check_plain_mac (need block_size maclen : Z) : PK bool :=
  s ← gets id;
  r ← dir_mac_check MODE_IN (d_seqnr (s_in s)) (ztake (sshbuf_len (s_incoming s)) (sshbuf_ptr (s_incoming s)))
        (ztake maclen (sshbuf_ptr (s_input s))) maclen;
  if r =? 0 then mret true
  else if negb (r =? SSH_ERR_MAC_INVALID) then fail r
  else if PACKET_MAX_SIZE <? need + block_size then fail SSH_ERR_INTERNAL_ERROR
  else
    _ ← ssh_packet_start_discard (sshbuf_len (s_incoming s)) (PACKET_MAX_SIZE - need - block_size); mret false.

(** From the checks on the padding to the end. *)
Definition finish_packet (nk : option newkeys) (seqnr : Z) : PK (Z * option Z) :=
  s ← gets id;
  let padlen := u_char_at (sshbuf_ptr (s_incoming s)) 4 in
  if padlen <? 4 then
    _ ← sshpkt_disconnect (str "Corrupted padlen " ++ dec padlen ++ str " on input.");
    _ ← ssh_packet_write_wait;
    fail SSH_ERR_CONN_CORRUPT
  else
    _ ← on_incoming (sshbuf_consume (4 + 1));
    _ ← on_incoming (sshbuf_consume_end padlen);
    _ ← when (k_comp_enabled nk)
          (_ ← on_comp_buf reset_buf;
           _ ← uncompress_buffer;
           _ ← on_incoming reset_buf;
           b ← gets s_comp_buf;
           match b with None => throw Segv | Some b => on_incoming (sshbuf_putb b) end);
    type ← on_incoming sshbuf_get_u8;
    if (type <? SSH2_MSG_MIN) || (SSH2_MSG_LOCAL_MIN <=? type) then
      _ ← sshpkt_disconnect (str "Invalid ssh2 packet type: " ++ dec type);
      _ ← ssh_packet_write_wait;
      fail SSH_ERR_PROTOCOL_ERROR
    else
      r ← (if (type =? SSH2_MSG_USERAUTH_SUCCESS) && negb (s_server_side s) then code ssh_packet_enable_delayed_compress
           else mret 0);
      _ ← modify (set_s_packlen 0);
      again ← need_rekeying 0;
      _ ← (if (again : bool) then kex_start_rekex else check r);
      mret (type, Some seqnr).

(** The packet of [need] more bytes decrypted into [s_incoming] and taken out of
    the input, its MAC checked; [false] when the rest is discarded. *)
Definition open_packet (nk : option newkeys) (need : Z) : PK bool :=
  let authlen := k_authlen nk in
  let maclen := k_mac_len nk in
  let aadlen := k_aadlen nk in
  seqnr ← gets (fun s => d_seqnr (s_in s));
  cp ← gets (fun s => sshbuf_ptr (s_input s));
  _ ← when (k_etm nk)
        (r ← dir_mac_check MODE_IN seqnr (ztake (aadlen + need) cp) (zslice (aadlen + need + authlen) maclen cp) maclen;
         check r);
  dp ← on_incoming (sshbuf_reserve (aadlen + need));
  _ ← crypt_into MODE_IN s_incoming set_s_incoming dp (aadlen + need) seqnr (ztake (aadlen + need + authlen) cp)
        need aadlen authlen;
  _ ← on_input (sshbuf_consume (aadlen + need + authlen));
  if k_mac_enabled nk then
    good ← (if k_etm nk then mret true else check_plain_mac need (k_block_size nk) maclen);
    _ ← when good (on_input (sshbuf_consume (match k_mac nk with Some m => m_mac_len m | None => 0 end)));
    mret good
  else mret true.
Definition count_received (block_size packlen : Z) : PK () :=
  _ ← on_dir MODE_IN (fun d => set_d_seqnr (u32 (d_seqnr d + 1)) d);
  _ ← on_dir MODE_IN (fun d => set_d_packets (u32 (d_packets d + 1)) d);
  s ← gets id;
  _ ← guard_or (negb ((d_packets (s_in s) =? 0) && negb (truthy (Z.land (s_compat s) SSH_BUG_NOREKEY)))) (Err SSH_ERR_NEED_REKEY);
  on_dir MODE_IN (fun d => set_d_bytes (u64 (d_bytes d + u32 (packlen + 4)))
                             (set_d_blocks (u64 (d_blocks d + u32 (packlen + 4) / block_size)) d)).
(** What follows the length: the rest of the packet, if it has arrived. *)
Definition take_packet (nk : option newkeys) : PK (Z * option Z) :=
  let none : PK (Z * option Z) := mret (SSH_MSG_NONE, None) in
  let block_size := k_block_size nk in
  let aadlen := k_aadlen nk in
  packlen ← gets s_packlen;
  let need := if negb (aadlen =? 0) then packlen else u32 (4 + packlen - block_size) in
  if negb (need mod block_size =? 0) then
    _ ← ssh_packet_start_discard 0 (PACKET_MAX_SIZE - block_size); none
  else
    have ← gets (fun s => sshbuf_len (s_input s));
    if have <? u32 (aadlen + need + k_authlen nk + k_mac_len nk) then none
    else
      seqnr ← gets (fun s => d_seqnr (s_in s));
      ok ← open_packet nk need;
      if negb ok then none
      else _ ← count_received block_size packlen; finish_packet nk seqnr.
Definition ssh_packet_read_poll2 : PK (Z * option Z) :=
  s ← gets id;
  if s_mux s then ssh_packet_read_poll2_mux
  else if truthy (s_discard s) then mret (SSH_MSG_NONE, None)
  else
    let nk := d_newkeys (s_in s) in
    ok ← read_length (k_aadlen nk) (k_block_size nk);
    if negb ok then mret (SSH_MSG_NONE, None) else take_packet nk.

Definition sshpkt_get (len : Z) : PK (list Z) := on_incoming (sshbuf_get len).
Definition sshpkt_get_u8 : PK Z := on_incoming sshbuf_get_u8.
Definition sshpkt_get_u32 : PK Z := on_incoming sshbuf_get_u32.
Definition sshpkt_get_u64 : PK Z := on_incoming sshbuf_get_u64.
Definition sshpkt_get_string : PK (list Z) := on_incoming sshbuf_get_string.
Definition sshpkt_get_string_direct : PK (list Z * Z) := on_incoming sshbuf_get_string_direct.
Definition sshpkt_get_cstring : PK (list Z) := on_incoming sshbuf_get_cstring.
Definition sshpkt_get_end : PK () :=
  n ← gets (fun s => sshbuf_len (s_incoming s));
  if 0 <? n then fail SSH_ERR_UNEXPECTED_TRAILING_DATA else mret tt.
Definition ssh_packet_remaining (s : ssh) : Z := sshbuf_len (s_incoming s).

(** The loop that answers messages of the transport itself; a round takes a
    packet out of the input. *)
Fixpoint poll_loop (fuel : nat) : PK (Z * option Z) :=
  match fuel with
  | O => throw Hang
  | S fuel' =>
      '(type, seqnr) ← ssh_packet_read_poll2;
      _ ← when (truthy type) (modify (set_s_keep_alive 0));
      if type =? SSH2_MSG_IGNORE then poll_loop fuel'
      else if type =? SSH2_MSG_DEBUG then
        _ ← sshpkt_get_u8; _ ← sshpkt_get_string; _ ← sshpkt_get_string_direct; poll_loop fuel'
      else if type =? SSH2_MSG_DISCONNECT then
        _ ← sshpkt_get_u32; _ ← sshpkt_get_string; fail SSH_ERR_DISCONNECTED
      else if type =? SSH2_MSG_UNIMPLEMENTED then
        _ ← sshpkt_get_u32; poll_loop fuel'
      else mret (type, seqnr)
  end.
Definition ssh_packet_read_poll_seqnr : PK (Z * option Z) :=
  n ← gets (fun s => sshbuf_len (s_input s)); poll_loop (S (Z.to_nat n)).

Definition ssh_packet_process_incoming (buf : list Z) (len : Z) : PK () :=
  s ← gets id;
  if truthy (s_discard s) then
    _ ← modify (set_s_keep_alive 0);
    _ ← when (s_discard s <=? len) ssh_packet_stop_discard;
    modify (fun s => set_s_discard (u32 (s_discard s - len)) s)
  else on_input (sshbuf_put buf len).

(** The loop of ssh_packet_read_seqnr: packets, or more bytes from the socket. *)
Fixpoint read_loop (fuel : nat) : PK (Z * option Z) :=
  match fuel with
  | O => throw Hang
  | S fuel' =>
      '(type, seqnr) ← ssh_packet_read_poll_seqnr;
      if negb (type =? SSH_MSG_NONE) then mret (type, seqnr)
      else
        _ ← wait_select (Some SSH_ERR_SYSTEM_ERROR);
        n ← tick;
        match sys_read n with
        | ReadError _ => fail SSH_ERR_SYSTEM_ERROR
        | Read [] => fail SSH_ERR_CONN_CLOSED
        | Read bytes =>
            let bytes := ztake 8192 bytes in
            _ ← ssh_packet_process_incoming bytes (zlen bytes); read_loop fuel'
        end
  end.
Definition ssh_packet_read_seqnr : PK (Z * option Z) :=
  match heap_alloc 128 with
  | None => fail SSH_ERR_ALLOC_FAIL
  | Some _ => _ ← ssh_packet_write_wait; read_loop max_rounds
  end.
Definition ssh_packet_read_expect (expected_type : Z) : PK () :=
  '(type, _) ← ssh_packet_read_seqnr;
  if negb (type =? expected_type) then
    _ ← sshpkt_disconnect (str "Protocol error: expected packet type " ++ dec expected_type ++ str ", got " ++ dec type);
    fail SSH_ERR_PROTOCOL_ERROR
  else mret tt.

(** ssh_packet_send_debug; a failure is fatal, which is the caller's exception. *)
Definition ssh_packet_send_debug (msg : list Z) : PK () :=
  compat ← gets s_compat;
  if truthy (Z.land compat SSH_BUG_DEBUG) then mret tt
  else
    _ ← sshpkt_start SSH2_MSG_DEBUG;
    _ ← sshpkt_put_u8 0;
    _ ← sshpkt_put_cstring (snprintf 1024 msg);
    _ ← sshpkt_put_cstring [];
    _ ← sshpkt_send;
    ssh_packet_write_wait.

(** ** Settings *)

Definition INT_MAX : Z := 2 ^ 31 - 1.
Definition ssh_packet_set_timeout (timeout count : Z) : PK () :=
  modify (set_s_timeout_ms
    (if (timeout <=? 0) || (count <=? 0) then -1
     else if INT_MAX / 1000 / count <? timeout then INT_MAX
     else timeout * count * 1000)).
Definition ssh_packet_set_mux : PK () := modify (fun s => set_s_rekeying false (set_s_mux true s)).
Definition ssh_packet_set_server : PK () := modify (set_s_server_side true).
Definition ssh_packet_set_authenticated : PK () := modify (set_s_after_auth true).
Definition ssh_packet_set_rekey_limits (bytes seconds : Z) : PK () :=
  modify (fun s => set_s_rekey_interval seconds (set_s_rekey_limit bytes s)).
Definition ssh_packet_get_rekey_timeout (s : ssh) : Z :=
  let seconds := s_rekey_time s + s_rekey_interval s - s_now s in if seconds <=? 0 then 1 else seconds.
Definition ssh_packet_inc_alive_timeouts : PK Z :=
  n ← gets s_keep_alive; _ ← modify (set_s_keep_alive (n + 1)); mret (n + 1).
Definition ssh_packet_set_alive_timeouts (ka : Z) : PK () := modify (set_s_keep_alive ka).
Definition ssh_packet_get_bytes (s : ssh) : Z * Z := (d_bytes (s_in s), d_bytes (s_out s)).

(** ssh_alloc_session_state and ssh_packet_set_connection: the state of a new
    connection, with the null cipher in both directions. *)
Definition new_dir (cc : sshcipher_ctx) : dir := mk_dir None (Some cc) 0 0 0 0 0 z_zero false 0.
Definition ssh_packet_set_connection : option ssh :=
  b ← sshbuf_new;
  match cipher_by_name (str "none") with
  | None => None
  | Some none =>
      match cipher_init none [] 0 None 0 true, cipher_init none [] 0 None 0 false with
      | inr tx, inr rx =>
          Some (mk_ssh (new_dir rx) (new_dir tx) b b b b None [] None true 0 0 0 false false false 0 0 0 false 0 0 (-1) 0 0 0 [])
      | _, _ => None
      end
  end.
End Packet.
