(* ===== verification/PacketSend.v ===== *)
(** * One packet from the sender's state to the wire

    What ssh_packet_send2_wrapped appends to the output, for every mode of the
    keys (no keys, encrypt-and-MAC, encrypt-then-MAC, authenticated
    encryption), and what the receiver at the other end will be able to do
    with it ([Reads]). *)

From stdpp Require Import list.
From S2P Require Import Prelude Sshbuf Poly1305 ChachaPoly Mac Cipher PacketState Packet.

(** ** Buffers of the packet layer *)

Section Bufs.
Context {al : Allocator} {altot : @AllocTotal al}.

(** A writable buffer of the usual maximum that holds [c]. *)
Definition bufc (b : sshbuf) (c : list Z) : Prop := buf_rw b /\ contents b = c /\ b_max_size b = SSHBUF_SIZE_MAX.

Lemma bufc_len b c : bufc b c -> sshbuf_len b = zlen c.
Proof. intros (Hb & <- & _). apply sshbuf_len_contents, Hb. Qed.
Lemma bufc_ptr b c n : bufc b c -> n <= zlen c -> ztake n (sshbuf_ptr b) = ztake n c.
Proof. intros (Hb & <- & _) Hn. rewrite sshbuf_ptr_contents by apply Hb. by apply ztake_app_l. Qed.
Lemma bufc_char b c i : bufc b c -> 0 <= i < zlen c -> u_char_at (sshbuf_ptr b) i = u_char_at c i.
Proof.
  intros Hb Hi. rewrite <- (u_char_at_ztake (zlen c) (sshbuf_ptr b)), <- (u_char_at_ztake (zlen c) c) by lia. by rewrite (bufc_ptr b c) by (done || lia).
Qed.
Lemma bufc_mutable b c : bufc b c -> mutable_ptr b = true.
Proof. intros ([Hw Hr Hc] & _). unfold mutable_ptr. by rewrite sanity_ok, Hr, Hc. Qed.
Lemma bufc_abs b c : buf_rw b -> abs b = mk_abuf c SSHBUF_SIZE_MAX -> bufc b c.
Proof. intros Hb [= Hc Hm]. done. Qed.
Lemma bufc_max b c : bufc b c -> zlen c <= SSHBUF_SIZE_MAX.
Proof. intros ([Hw _ _] & <- & Hm). rewrite zlen_contents by done. destruct Hw. lia. Qed.

Lemma buf_put_ok b c v n : bufc b c -> 0 <= n <= zlen v -> zlen c + n <= SSHBUF_SIZE_MAX ->
  exists b', sshbuf_put v n b = (inr tt, b') /\ bufc b' (c ++ ztake n v).
Proof.
  intros (Hb & Hc & Hm) Hn Hr. assert (Hz : zlen (ztake n v) = n) by (by apply zlen_ztake).
  destruct (Appends_ok (sshbuf_put v n) (ztake n v) b) as (b' & E & Hb' & Ha); [apply Puts_Appends, Puts_put; unfold SSHBUF_SIZE_MAX in *; zlen_facts; lia|done| |].
  { rewrite Hz, Hc, Hm. done. }
  exists b'. split; [done|]. apply bufc_abs; [done|]. by rewrite Ha, Hc, Hm.
Qed.
Lemma buf_consume_ok b c n : bufc b c -> 0 <= n <= zlen c -> exists b', sshbuf_consume n b = (inr tt, b') /\ bufc b' (zdrop n c).
Proof.
  intros (Hb & Hc & Hm) Hn. destruct (consume_rw b n Hb ltac:(lia)) as [E Ha]. rewrite Hc in *. destruct (Ha ltac:(lia)) as [Hb' Habs].
  rewrite (proj2 (Z.ltb_ge _ _)) in E by lia. eexists. split; [exact E|]. apply bufc_abs; [done|]. by rewrite Habs, Hm.
Qed.
Lemma buf_consume_end_ok b c n : bufc b c -> 0 <= n <= zlen c -> exists b', sshbuf_consume_end n b = (inr tt, b') /\ bufc b' (ztake (zlen c - n) c).
Proof.
  intros Hbc Hn. pose proof Hbc as (Hb & Hc & Hm). pose proof (zlen_contents b (rw_wf b Hb)) as Hz. rewrite Hc in Hz.
  unfold sshbuf_consume_end. rewrite sanity_ok by apply Hb. cbn [truthy Z.eqb negb]. destruct (Z.eqb_spec n 0) as [->|].
  { exists b. split; [done|]. by rewrite Z.sub_0_r, ztake_all by lia. }
  rewrite (bufc_len b c Hbc), (proj2 (Z.ltb_ge _ _)) by lia. eexists. split; [reflexivity|].
  pose proof (rw_wf b Hb) as Hw. split; [apply set_off_size_rw; destruct Hw; try done; lia|]. split; [|done].
  unfold contents at 1. cbn [set_off_size b_off b_size b_mem]. rewrite Hz. rewrite <- Hc. unfold contents, zslice. rewrite ztake_ztake by lia. f_equal. lia.
Qed.
Lemma buf_reset_ok b c : bufc b c -> bufc (sshbuf_reset b) [].
Proof.
  intros (Hb & Hc & Hm). destruct (reset_rw b) as [Hb' Ha]; [apply alloc_total; unfold SSHBUF_SIZE_INIT, SSHBUF_SIZE_MAX; lia|done| |].
  { rewrite Hm. done. } apply bufc_abs; [done|]. by rewrite Ha, Hm.
Qed.
Lemma buf_new_ok : exists b, sshbuf_new = Some b /\ bufc b [].
Proof.
  destruct sshbuf_new_total as [b E]. exists b. split; [done|]. destruct (sshbuf_new_rw b E) as [Hb Ha]. by apply bufc_abs.
Qed.
Lemma buf_get_u8_ok b v c : bufc b (v :: c) -> exists b', sshbuf_get_u8 b = (inr v, b') /\ bufc b' c.
Proof.
  intros (Hb & Hc & Hm). destruct (Parses_u8 v b c Hb Hc) as (b' & E & Hb' & Ha). exists b'. split; [done|].
  apply bufc_abs; [done|]. by rewrite Ha, Hm.
Qed.
(** Writing inside of a window, and at a distance from the front. *)
Lemma zwrite_window off size k (v mem : list Z) : 0 <= off -> 0 <= k -> off + k + zlen v <= size -> size <= zlen mem ->
  zslice off (size - off) (zwrite (off + k) v mem) = zwrite k v (zslice off (size - off) mem).
Proof.
  intros Ho Hk Hl Hs. zlen_facts. set (a := ztake off mem). set (w := zslice off (size - off) mem). set (z := zdrop size mem).
  assert (Za : zlen a = off) by (apply zlen_ztake; lia). assert (Zw : zlen w = size - off) by (apply zlen_zslice; lia).
  assert (E : mem = a ++ w ++ z).
  { subst a w z. unfold zslice. rewrite <- (ztake_zdrop off mem) at 1. f_equal. rewrite <- (ztake_zdrop (size - off) (zdrop off mem)) at 1. f_equal.
    rewrite zdrop_zdrop by lia. f_equal. lia. }
  assert (E2 : zwrite (off + k) v mem = a ++ zwrite k v w ++ z).
  { rewrite E at 1. unfold zwrite. rewrite (ztake_app_r _ a), (zdrop_app_r _ a) by lia. rewrite ztake_app_l, zdrop_app_l by lia.
    rewrite <- !app_assoc. repeat f_equal; lia. }
  unfold zslice at 1. rewrite E2, (zdrop_app_exact a) by lia. apply ztake_app_exact. rewrite zlen_zwrite; lia.
Qed.
Lemma buf_poke_ok b c k v : bufc b c -> 0 <= k -> k + zlen v <= zlen c ->
  exists b', poke (b_off b + k) v b = (inr tt, b') /\ bufc b' (zwrite k v c) /\ b_off b' = b_off b.
Proof.
  intros (Hb & Hc & Hm) Hk Hl. eexists. split; [reflexivity|]. split; [|done]. pose proof (zlen_contents b (rw_wf b Hb)) as Hz. rewrite Hc in Hz.
  pose proof (rw_wf b Hb) as []. zlen_facts. split; [|split; [|done]].
  - destruct Hb as [[] ? ?]. repeat split; try done; cbn; try lia. rewrite zlen_zwrite; lia.
  - unfold contents at 1. cbn [set_mem b_off b_size b_mem]. rewrite <- Hc. apply zwrite_window; lia.
Qed.
(** Room at the end: the bytes that happen to be there. *)
Lemma buf_reserve_ok b c n : bufc b c -> 0 <= n -> zlen c + n <= SSHBUF_SIZE_MAX ->
  exists b' junk, sshbuf_reserve n b = (inr (b_off b' + zlen c), b') /\ bufc b' (c ++ junk) /\ zlen junk = n /\
    zslice (b_off b' + zlen c) n (b_mem b') = junk.
Proof.
  intros (Hb & Hc & Hm) Hn Hr. pose proof (allocate_rw b n Hb ltac:(unfold SSHBUF_SIZE_MAX in *; zlen_facts; lia)) as (Hb1 & Habs & Hres).
  unfold sshbuf_reserve, mbind, SE_bind. destruct (sshbuf_allocate n b) as [[r|[]] b1]; cbn [fst snd] in *.
  { exfalso. destruct Hres as [[_ Hl]|[_ (k & Hk & HN)]]; [rewrite Hc, Hm in Hl; lia|]. destruct (alloc_total k Hk) as [? Hs]. by rewrite Hs in HN. }
  injection Habs as Hc1 Hm1. rewrite Hc in Hc1. rewrite Hm in Hm1. pose proof (zlen_contents b1 (rw_wf b1 Hb1)) as Hz. rewrite Hc1 in Hz.
  pose proof (rw_wf b1 Hb1) as [_ _ _ Ho Hs Ha Hx Hmem]. zlen_facts.
  cbn [gets modify]. rewrite u64_id by (unfold SSHBUF_SIZE_MAX in *; lia).
  exists (set_off_size (b_off b1) (b_size b1 + n) b1), (zslice (b_size b1) n (b_mem b1)). cbn [set_off_size b_off b_mem].
  replace (b_off b1 + zlen c) with (b_size b1) by lia. split; [reflexivity|]. split; [|split; [rewrite zlen_zslice; lia|done]].
  split; [apply set_off_size_rw; try done; lia|]. split; [|done]. unfold contents. cbn [set_off_size b_off b_size b_mem].
  rewrite <- Hc1. unfold contents, zslice. rewrite <- !zdrop_ztake by lia.
  replace (b_off b1 + (b_size b1 + n - b_off b1)) with (b_size b1 + n) by lia. replace (b_off b1 + (b_size b1 - b_off b1)) with (b_size b1) by lia.
  rewrite <- (ztake_zdrop (b_size b1) (ztake (b_size b1 + n) (b_mem b1))) at 1. rewrite ztake_ztake by lia.
  rewrite zdrop_app_l by (rewrite zlen_ztake; lia). f_equal. rewrite zdrop_ztake by lia. f_equal. lia.
Qed.
End Bufs.

Lemma u_char_at_app (a b : list Z) i : zlen a = i -> u_char_at (a ++ b) i = u_char_at b 0.
Proof.
  intros <-. unfold u_char_at, znth, zlen. rewrite Nat2Z.id. rewrite app_nth2 by lia. by rewrite Nat.sub_diag.
Qed.

(** ** Padding *)

Lemma pad_length_ok len bs extra p : 0 <= len < 2 ^ 31 -> 8 <= bs <= 16 -> 0 <= extra < 256 ->
  pad_length len bs extra = inr p -> 4 <= p <= 255 /\ (len + p) mod bs = 0.
Proof.
  intros Hl Hb He. unfold pad_length. pose proof (Z.mod_pos_bound len bs ltac:(lia)) as Hm. rewrite (u8_id (bs - len mod bs)) by (unfold is_u8; lia).
  set (p0 := if _ <? 4 then _ else _).
  assert (Hp0 : 4 <= p0 < 32 /\ (len + p0) mod bs = 0).
  { subst p0. pose proof (Z.div_mod len bs ltac:(lia)) as Hd. destruct (Z.ltb_spec (bs - len mod bs) 4).
    - rewrite u8_id by (unfold is_u8; lia). split; [lia|]. replace (len + (bs - len mod bs + bs)) with ((len / bs + 2) * bs) by lia. apply Z.mod_mul. lia.
    - split; [lia|]. replace (len + (bs - len mod bs)) with ((len / bs + 1) * bs) by lia. apply Z.mod_mul. lia. }
  clearbody p0. destruct Hp0 as [Hp0 Hmod]. unfold truthy. destruct (Z.eqb_spec extra 0) as [->|Hne]; cbn [negb]; [intros [= <-]; split; [lia|done]|].
  set (v := (extra + (bs - 1)) / bs * bs). pose proof (Z.div_mod (extra + (bs - 1)) bs ltac:(lia)) as Hd.
  pose proof (Z.mod_pos_bound (extra + (bs - 1)) bs ltac:(lia)) as Hr. assert (Hv : extra <= v < 272) by (subst v; lia).
  unfold round_pad. fold v. destruct (Z.ltb_spec (u8 v) extra) as [|Hge]; [done|].
  assert (Ev : u8 v = v).
  { destruct (Z.lt_ge_cases v 256); [apply u8_id; unfold is_u8; lia|]. exfalso. revert Hge. unfold u8. rewrite <- (Z.mod_unique v (2 ^ 8) 1 (v - 256)) by lia. lia. }
  rewrite Ev. rewrite (u32_id (len + p0)) by lia. pose proof (Z.mod_pos_bound (len + p0) v ltac:(lia)) as Ht.
  assert (v < 256) by (pose proof (Z.mod_pos_bound v (2 ^ 8) ltac:(lia)); unfold u8 in Ev; lia).
  rewrite (u8_id (_ mod v)) by (unfold is_u8; lia). rewrite (proj2 (Z.ltb_ge v _)) by lia. rewrite (u8_id (v - _)) by (unfold is_u8; lia).
  set (q := v - (len + p0) mod v) in *. destruct (Z.ltb_spec (u8 (p0 + q)) p0) as [|Hge2]; [done|]. intros [= <-].
  assert (Eq : u8 (p0 + q) = p0 + q).
  { destruct (Z.lt_ge_cases (p0 + q) 256); [apply u8_id; unfold is_u8; lia|]. exfalso. revert Hge2. unfold u8. rewrite <- (Z.mod_unique (p0 + q) (2 ^ 8) 1 (p0 + q - 256)) by lia. lia. }
  rewrite Eq. assert (p0 + q < 256) by (pose proof (Z.mod_pos_bound (p0 + q) (2 ^ 8) ltac:(lia)); unfold u8 in Eq; lia). split; [lia|].
  pose proof (Z.div_mod (len + p0) v ltac:(lia)) as Hdv.
  replace (len + (p0 + q)) with (((len + p0) / v + 1) * ((extra + (bs - 1)) / bs) * bs) by (subst v q; lia). apply Z.mod_mul. lia.
Qed.
Lemma pad_length_plain len bs : 0 <= len -> 8 <= bs <= 16 -> exists p, pad_length len bs 0 = inr p.
Proof. intros Hl Hb. unfold pad_length. cbn [truthy Z.eqb negb]. eauto. Qed.

(** ** Two ends of a direction *)

(** The random bytes of the padding are bytes. *)
Class RandOk `{PktEnv} : Prop := rand_ok : forall t n, 0 <= n -> zlen (arc4random_buf t n) = n /\ Forall is_u8 (arc4random_buf t n).

Section Ends.
Context {al : Allocator} {altot : @AllocTotal al} {md : EvpMd} {mdok : @EvpMdOk md} {um : Umac} {umok : @UmacOk um}
  {ev : EvpCipher} {zl : Zlib} {env : PktEnv}.

(** The keys agree: block size, tag, MAC; nothing is compressed. *)
Record keys_match (o i : option newkeys) : Prop := {
  km_bs : k_block_size i = k_block_size o;
  km_auth : k_authlen i = k_authlen o;
  km_on : k_mac_enabled i = k_mac_enabled o;
  km_etm : k_etm i = k_etm o;
  km_len : k_mac_len i = k_mac_len o;
  km_comp : k_comp_enabled o = false /\ k_comp_enabled i = false;
  km_mac : k_mac_enabled o = true -> exists alg key ko ki, o = Some ko /\ i = Some ki /\
    mac_ready alg key (nk_mac ko) /\ mac_ready alg key (nk_mac ki) /\ same_mac (nk_mac ko) (nk_mac ki)
}.
(** The sender's side [o] and the receiver's side [i] are in step. *)
Definition paired (o i : dir) : Prop :=
  keys_match (d_newkeys o) (d_newkeys i) /\ d_seqnr i = d_seqnr o /\ 0 <= d_seqnr o < 2 ^ 32 /\
  exists R cct ccr, d_ctx o = Some cct /\ d_ctx i = Some ccr /\ R cct ccr /\
    CryptPair (k_block_size (d_newkeys o)) (k_authlen (d_newkeys o)) R.

(** The state of a direction after a packet of [n] bytes. *)
Definition advance (d : dir) (nk : option newkeys) (cc : sshcipher_ctx) (n : Z) : dir :=
  mk_dir nk (Some cc) (u32 (d_seqnr d + 1)) (u32 (d_packets d + 1)) (u64 (d_blocks d + n / k_block_size (d_newkeys d)))
    (u64 (d_bytes d + n)) (d_max_blocks d) (d_z d) (d_z_started d) (d_z_failures d).

(** A packet with its length, the length of its padding, and the padding. *)
Definition frame (body padding : list Z) : list Z :=
  POKE_U32 (1 + zlen body + zlen padding) ++ [zlen padding] ++ body ++ padding.
(** The MAC of a direction, on the packet or on the cipher text. *)
Definition mac_of (i : dir) (seqno : Z) (plain crypt tag : list Z) (nk' : option newkeys) : Prop :=
  if k_mac_enabled (d_newkeys i) then
    exists nk m', d_newkeys i = Some nk /\ nk' = Some (set_nk_mac m' nk) /\
      mac_check (nk_mac nk) seqno (if k_etm (d_newkeys i) then crypt else plain) tag (k_mac_len (d_newkeys i)) = (0, m')
  else nk' = d_newkeys i /\ tag = [].

(** What a receiver with the context [cc] can do with [crypt]: get [plain] out
    of it, in the two steps of ssh_packet_read_poll2, and go on with a context
    that [next] describes. *)
Definition ReadsCrypt (cc : sshcipher_ctx) (seqnr aadlen bs authlen : Z) (plain crypt : list Z) (next : sshcipher_ctx -> Prop) : Prop :=
  if aadlen =? 0 then
    authlen = 0 /\
    forall seqnr1 dest1, zlen dest1 = bs ->
      exists rx1, cipher_crypt cc seqnr1 dest1 (ztake bs crypt) bs 0 0 = ((0, ztake bs plain), rx1) /\
        forall dest2, zlen dest2 = zlen plain - bs -> exists rx',
          cipher_crypt rx1 seqnr dest2 (zdrop bs crypt) (zlen plain - bs) 0 0 = ((0, zdrop bs plain), rx') /\ next rx'
  else
    exists rx1,
      (forall cp n, n < 4 -> cipher_get_length cc seqnr cp n = (inl SSH_ERR_MESSAGE_INCOMPLETE, cc)) /\
      (forall cp n, 4 <= n -> ztake 4 cp = ztake 4 crypt -> cipher_get_length cc seqnr cp n = (inr (zlen plain - 4), rx1)) /\
      forall dest, zlen dest = zlen plain -> exists rx',
        cipher_crypt rx1 seqnr dest crypt (zlen plain - 4) 4 authlen = ((0, plain), rx') /\ next rx'.

(** What the receiver [i] can do with the bytes [wire]: take [body] out of
    them, with states that [next] describes. *)
Definition Reads (i : dir) (wire body : list Z) (next : dir -> Prop) : Prop :=
  let nk := d_newkeys i in
  let bs := k_block_size nk in
  exists padding crypt tag cc,
    let plain := frame body padding in
    4 <= zlen padding <= 255 /\ 1 <= zlen body <= 2 ^ 18 - 300 /\ Forall is_u8 plain /\ (zlen plain - k_aadlen nk) mod bs = 0 /\
    wire = crypt ++ tag /\ zlen crypt = zlen plain + k_authlen nk /\ zlen tag = k_mac_len nk /\
    k_comp_enabled nk = false /\ 8 <= bs <= 16 /\ 0 <= k_authlen nk <= 16 /\ k_mac_len nk <= 64 /\
    d_ctx i = Some cc /\
    ReadsCrypt cc (d_seqnr i) (k_aadlen nk) bs (k_authlen nk) plain crypt (fun rx' => exists nk',
      mac_of i (d_seqnr i) plain (ztake (zlen plain) crypt) tag nk' /\ next (advance i nk' rx' (zlen plain))).

(** The sender's view of its own state. *)
Definition snd_upd (o : dir) (out og : sshbuf) (e t : Z) (s : ssh) : ssh :=
  mk_ssh (s_in s) o (s_input s) out og (s_incoming s) (s_comp_buf s) (s_queue s) (s_kex s) (s_rekeying s) (s_rekey_limit s)
    (s_rekey_interval s) (s_rekey_time s) (s_after_auth s) (s_server_side s) (s_mux s) e (s_packlen s) (s_discard s)
    (s_discard_mac s) (s_discard_already s) (s_keep_alive s) (s_timeout_ms s) (s_compat s) (s_now s) t (s_wire s).
Lemma snd_upd_id s : s = snd_upd (s_out s) (s_output s) (s_outgoing s) (s_extra_pad s) (s_tick s) s.
Proof. by destruct s. Qed.

Lemma snd_outgoing {A} (m : SE sshbuf Z A) o out og e t s a og' : m og = (inr a, og') ->
  on_outgoing m (snd_upd o out og e t s) = (inr a, snd_upd o out og' e t s).
Proof. intros E. unfold on_outgoing, on_buf. cbn [snd_upd s_outgoing]. by rewrite E. Qed.
Lemma snd_output {A} (m : SE sshbuf Z A) o out og e t s a out' : m out = (inr a, out') ->
  on_output m (snd_upd o out og e t s) = (inr a, snd_upd o out' og e t s).
Proof. intros E. unfold on_output, on_buf. cbn [snd_upd s_output]. by rewrite E. Qed.
Lemma snd_dir f o out og e t s : on_dir MODE_OUT f (snd_upd o out og e t s) = (inr tt, snd_upd (f o) out og e t s).
Proof. done. Qed.
Lemma snd_crypt o out og e t s cc seqnr dp n src len aad auth dest' cc' out' :
  d_ctx o = Some cc -> cipher_crypt cc seqnr (zslice dp n (b_mem out)) src len aad auth = ((0, dest'), cc') ->
  poke dp dest' out = (inr tt, out') ->
  crypt_into MODE_OUT s_output set_s_output dp n seqnr src len aad auth (snd_upd o out og e t s) =
    (inr tt, snd_upd (set_d_ctx (Some cc') o) out' og e t s).
Proof.
  intros Ec Ecr Ep. unfold crypt_into. rewrite gets_bind. cbn [id get_dir snd_upd s_out s_output]. rewrite Ec, Ecr.
  rewrite (SE_bind_ok _ _ _ _ _ (snd_dir _ _ _ _ _ _ _)). unfold on_buf. rewrite (SE_bind_ok _ _ _ tt (snd_upd (set_d_ctx (Some cc') o) out' og e t s)); [done|].
  cbn [snd_upd s_output]. by rewrite Ep.
Qed.
Lemma snd_mac o out og e t s nk seqno data digest m' :
  d_newkeys o = Some nk -> mac_compute (nk_mac nk) seqno data (Some SSH_DIGEST_MAX_LENGTH) = ((0, digest), m') ->
  dir_mac_compute MODE_OUT seqno data (Some SSH_DIGEST_MAX_LENGTH) (snd_upd o out og e t s) =
    (inr digest, snd_upd (set_d_newkeys (Some (set_nk_mac m' nk)) o) out og e t s).
Proof.
  intros En Em. unfold dir_mac_compute. rewrite gets_bind. cbn [get_dir snd_upd s_out]. rewrite En, Em.
  by rewrite (SE_bind_ok _ _ _ _ _ (snd_dir _ _ _ _ _ _ _)).
Qed.

Lemma zlen_frame body padding : zlen (frame body padding) = 5 + zlen body + zlen padding.
Proof. unfold frame. rewrite !zlen_app, zlen_POKE_U32, zlen_cons. change (zlen (@nil Z)) with 0. lia. Qed.
Lemma frame_bytes body padding : zlen padding < 256 -> Forall is_u8 body -> Forall is_u8 padding -> Forall is_u8 (frame body padding).
Proof.
  intros Hp Hb Hq. unfold frame. apply Forall_app. split; [rewrite POKE_U32_bytes; apply be_bytes_u8|]. apply Forall_app. split.
  - constructor; [|constructor]. unfold is_u8. zlen_facts. lia.
  - by apply Forall_app.
Qed.
Lemma aadlen_cases nk : k_aadlen nk = 0 \/ k_aadlen nk = 4.
Proof. unfold k_aadlen. destruct (_ || _); auto. Qed.

Lemma padding_ok `{!RandOk} o out og e t s cc p : d_ctx o = Some cc -> 0 <= p ->
  exists padding t', zlen padding = p /\ Forall is_u8 padding /\
    padding_bytes (d_newkeys o) p (snd_upd o out og e t s) = (inr padding, snd_upd o out og e t' s).
Proof.
  intros Hcc Hp. unfold padding_bytes. rewrite (gets_to _ (Some cc)) by done.
  pose proof (Forall_zfill p) as Hf. assert (Hz : zlen (zfill p) = p) by (by apply zlen_zfill).
  destruct (d_newkeys o); [|by exists (zfill p), t]. destruct (cipher_ctx_is_plaintext cc); [by exists (zfill p), t|].
  destruct (rand_ok t p Hp) as [Z1 F1]. by exists (arc4random_buf t p), (t + 1).
Qed.
Lemma pad_outgoing_ok `{!RandOk} o out og e t s hdr body p cc :
  bufc og (hdr ++ body) -> zlen hdr = 5 -> zlen body <= 2 ^ 18 -> 1 <= zlen body -> 0 <= e < 256 ->
  8 <= k_block_size (d_newkeys o) <= 16 -> d_ctx o = Some cc ->
  pad_length (5 + zlen body - k_aadlen (d_newkeys o)) (k_block_size (d_newkeys o)) e = inr p ->
  exists og' t' padding,
    pad_outgoing (d_newkeys o) (snd_upd o out og e t s) = (inr (zlen (frame body padding)), snd_upd o out og' 0 t' s) /\
    bufc og' (frame body padding) /\ zlen padding = p /\ Forall is_u8 padding.
Proof.
  intros Hog Hh Hb Hb1 He Hbs Hcc Hpad. set (nk := d_newkeys o) in *.
  assert (Hz : zlen (hdr ++ body) = 5 + zlen body) by (rewrite zlen_app; lia). zlen_facts.
  pose proof (aadlen_cases nk) as Haad.
  destruct (pad_length_ok (5 + zlen body - k_aadlen nk) _ _ _ ltac:(lia) Hbs He Hpad) as [Hp _].
  destruct (buf_reserve_ok og (hdr ++ body) p Hog ltac:(lia)) as (og1 & junk & Er & Hog1 & Hj & _); [unfold SSHBUF_SIZE_MAX; lia|].
  unfold pad_outgoing. rewrite (gets_to _ (5 + zlen body)); [|cbn; rewrite (bufc_len og _ Hog), Hz; apply u32_id; lia].
  rewrite (gets_to _ e) by done. rewrite (u32_id (_ - k_aadlen nk)) by lia. rewrite Hpad, SE_bind_ret_l, modify_bind.
  change (set_s_extra_pad 0 _) with (snd_upd o out og 0 t s). rewrite (SE_bind_ok _ _ _ _ _ (snd_outgoing _ _ _ _ _ _ _ _ _ Er)).
  destruct (padding_ok o out og1 0 t s cc p Hcc ltac:(lia)) as (padding & t' & Zp & Fp & Epad).
  destruct (buf_poke_ok og1 ((hdr ++ body) ++ junk) (zlen (hdr ++ body)) padding Hog1 ltac:(lia)) as (og2 & E2 & Hog2 & Eo2); [rewrite (zlen_app (hdr ++ body)); lia|].
  assert (C2 : zwrite (zlen (hdr ++ body)) padding ((hdr ++ body) ++ junk) = (hdr ++ body) ++ padding).
  { unfold zwrite. rewrite (ztake_app_exact (hdr ++ body)) by done. f_equal. rewrite zdrop_all; [apply app_nil_r|]. rewrite (zlen_app (hdr ++ body)). lia. }
  rewrite C2 in Hog2. assert (Z2 : zlen ((hdr ++ body) ++ padding) = 5 + zlen body + p) by (rewrite (zlen_app (hdr ++ body)); lia).
  destruct (buf_poke_ok og2 _ 0 (POKE_U32 (1 + zlen body + zlen padding)) Hog2 ltac:(lia)) as (og3 & E3 & Hog3 & Eo3); [rewrite zlen_POKE_U32; lia|].
  rewrite Z.add_0_r in E3.
  assert (C3 : zwrite 0 (POKE_U32 (1 + zlen body + zlen padding)) ((hdr ++ body) ++ padding) =
    POKE_U32 (1 + zlen body + zlen padding) ++ zdrop 4 ((hdr ++ body) ++ padding)).
  { unfold zwrite. by rewrite ztake_0 by lia. }
  rewrite C3 in Hog3.
  destruct (buf_poke_ok og3 _ 4 [zlen padding] Hog3 ltac:(lia)) as (og4 & E4 & Hog4 & _).
  { rewrite zlen_app, zlen_POKE_U32, zlen_zdrop by lia. rewrite zlen_cons. change (zlen (@nil Z)) with 0. lia. }
  assert (C4 : zwrite 4 [zlen padding] (POKE_U32 (1 + zlen body + zlen padding) ++ zdrop 4 ((hdr ++ body) ++ padding)) = frame body padding).
  { unfold zwrite, frame. rewrite (ztake_app_exact (POKE_U32 _)) by (by rewrite zlen_POKE_U32). f_equal. f_equal.
    change (4 + zlen [zlen padding]) with 5. rewrite (zdrop_app_r 5 (POKE_U32 _)) by (rewrite zlen_POKE_U32; lia). rewrite zlen_POKE_U32, zdrop_zdrop by lia.
    rewrite <- app_assoc. apply zdrop_app_exact. lia. }
  rewrite C4 in Hog4. rewrite Eo3, Eo2 in E4. rewrite Eo2 in E3.
  exists og4, t', padding. split; [|done]. rewrite (zlen_frame body padding), Zp.
  rewrite (SE_bind_ok _ _ _ _ _ Epad). rewrite (SE_bind_ok _ _ _ _ _ (snd_outgoing _ _ _ _ _ _ _ _ _ E2)).
  rewrite (gets_to _ (5 + zlen body + p)); [|cbn; rewrite (bufc_len og2 _ Hog2), Z2; apply u32_id; lia].
  rewrite (gets_to _ true); [|cbn; by rewrite (bufc_mutable og2 _ Hog2)]. cbn [guard_or]. rewrite SE_bind_ret_l.
  rewrite (gets_to _ (b_off og1)) by done. replace (5 + zlen body + p - 4) with (1 + zlen body + p) by lia. rewrite (u32_id (1 + _ + _)) by lia.
  rewrite <- Zp. rewrite (SE_bind_ok _ _ _ _ _ (snd_outgoing _ _ _ _ _ _ _ _ _ E3)).
  by rewrite (SE_bind_ok _ _ _ _ _ (snd_outgoing _ _ _ _ _ _ _ _ _ E4)).
Qed.

(** ** The MAC *)

(** Nothing the packet layer asks of the keys depends on the contexts of the MAC. *)
Lemma keys_set_mac k m : same_mac (nk_mac k) m ->
  let k' := Some (set_nk_mac m k) in
  k_block_size k' = k_block_size (Some k) /\ k_authlen k' = k_authlen (Some k) /\ k_mac_enabled k' = k_mac_enabled (Some k) /\
  k_etm k' = k_etm (Some k) /\ k_mac_len k' = k_mac_len (Some k) /\ k_comp_enabled k' = k_comp_enabled (Some k).
Proof.
  intros (E1 & E2 & E3 & E4 & _). unfold k_mac_enabled, k_etm, k_mac_len, k_mac, k_authlen. cbn.
  destruct (truthy _); cbn; rewrite ?E1, ?E3, ?E4; done.
Qed.
Lemma mac_enabled_keys nk : k_mac_enabled nk = true ->
  exists k, nk = Some k /\ k_authlen nk = 0 /\ m_enabled (nk_mac k) = true /\ k_mac_len nk = m_mac_len (nk_mac k) /\ k_etm nk = m_etm (nk_mac k).
Proof.
  unfold k_mac_enabled, k_mac_len, k_etm, k_mac, k_authlen. destruct nk as [k|]; [|done]. unfold truthy.
  destruct (Z.eqb_spec (cipher_authlen (e_cipher (nk_enc k))) 0) as [E|]; [|done]. cbn. intros Hm. exists k. by rewrite Hm.
Qed.
Lemma mac_len_off nk : k_mac_enabled nk = false -> k_mac_len nk = 0 /\ k_etm nk = false.
Proof. unfold k_mac_enabled, k_mac_len, k_etm. destruct (k_mac nk) as [m|]; [|done]. by intros ->. Qed.
Lemma same_mac_trans a b c : same_mac a b -> same_mac b c -> same_mac a c.
Proof. intros (?&?&?&?&?&?&?) (?&?&?&?&?&?&?). unfold same_mac. by repeat split; congruence. Qed.
Lemma same_mac_sym a b : same_mac a b -> same_mac b a.
Proof. intros (?&?&?&?&?&?&?). unfold same_mac. by repeat split; congruence. Qed.

(** The code that one side computes the other side accepts. *)
Lemma mac_step o i seqno data : keys_match o i -> k_mac_enabled o = true ->
  exists ko ki tag mo mi, o = Some ko /\ i = Some ki /\
    mac_compute (nk_mac ko) seqno data (Some SSH_DIGEST_MAX_LENGTH) = ((0, tag), mo) /\
    zlen tag = k_mac_len o /\ 0 < k_mac_len o <= 64 /\ Forall is_u8 tag /\
    mac_check (nk_mac ki) seqno data tag (k_mac_len i) = (0, mi) /\
    keys_match (Some (set_nk_mac mo ko)) (Some (set_nk_mac mi ki)).
Proof.
  intros [Kbs Kauth Kon Ketm Klen Kcomp Kmac] Hon. destruct (Kmac Hon) as (alg & key & ko & ki & -> & -> & Ro & Ri & Hs).
  destruct (mac_enabled_keys _ Hon) as (k & [= <-] & Ha & He & Hl & Ht). pose proof (tag_len_range _ _ _ Ro) as Hrange.
  pose proof (mr_len _ _ _ Ro) as Hml.
  destruct (mac_compute_ok alg key (nk_mac ko) seqno data SSH_DIGEST_MAX_LENGTH Ro) as (mo & Eo & Ro' & So); [unfold SSH_DIGEST_MAX_LENGTH; lia|].
  pose proof Hs as (Hslen & Hstype & _).
  assert (Eout : mac_out alg key (nk_mac ki) seqno data = mac_out alg key (nk_mac ko) seqno data) by (unfold mac_out; by rewrite Hslen, Hstype).
  pose proof (zlen_mac_out alg key (nk_mac ko) seqno data Ro) as Zout.
  destruct (mac_check_ok alg key (nk_mac ki) seqno data (mac_out alg key (nk_mac ko) seqno data) (k_mac_len (Some ki)) Ri) as (mi & Ei & Ri' & Si);
    [rewrite Klen, Hl; lia|lia|].
  exists ko, ki, (mac_out alg key (nk_mac ko) seqno data), mo, mi. rewrite Hl. split; [done|]. split; [done|]. split; [exact Eo|]. split; [lia|].
  split; [lia|]. split; [apply mac_out_bytes|]. split.
  { rewrite Ei, Eout, Hslen, ztake_all by lia. by rewrite bool_decide_true. }
  destruct (keys_set_mac ko mo So) as (A1 & A2 & A3 & A4 & A5 & A6). destruct (keys_set_mac ki mi Si) as (B1 & B2 & B3 & B4 & B5 & B6).
  split; try congruence.
  intros _. exists alg, key, (set_nk_mac mo ko), (set_nk_mac mi ki). repeat (split; [done|]).
  cbn [set_nk_mac nk_mac]. apply (same_mac_trans _ (nk_mac ki)); [|done]. apply (same_mac_trans _ (nk_mac ko)); [by apply same_mac_sym|done].
Qed.

(** ** Encryption *)

Lemma ReadsCrypt_mono cc seqnr aadlen bs authlen plain crypt (P Q : sshcipher_ctx -> Prop) :
  (forall rx, P rx -> Q rx) -> ReadsCrypt cc seqnr aadlen bs authlen plain crypt P -> ReadsCrypt cc seqnr aadlen bs authlen plain crypt Q.
Proof.
  intros HPQ. unfold ReadsCrypt. destruct (aadlen =? 0).
  - intros [Ha Hr]. split; [done|]. intros seqnr1 dest1 Hd. destruct (Hr seqnr1 dest1 Hd) as (rx1 & E & Hr1). exists rx1. split; [done|].
    intros dest2 Hd2. destruct (Hr1 dest2 Hd2) as (rx' & E' & Hp). eauto.
  - intros (rx1 & H1 & H2 & H3). exists rx1. split; [done|]. split; [done|]. intros dest Hd. destruct (H3 dest Hd) as (rx' & E' & Hp). eauto.
Qed.
Lemma Reads_mono i wire body (P Q : dir -> Prop) : (forall i', P i' -> Q i') -> Reads i wire body P -> Reads i wire body Q.
Proof.
  intros HPQ (padding & crypt & tag & cc & H). exists padding, crypt, tag, cc. cbv zeta in *.
  repeat match type of H with _ /\ _ => let H' := fresh in destruct H as [H' H]; split; [exact H'|] end.
  revert H. apply ReadsCrypt_mono. intros rx (nk' & Hm & Hp). eauto.
Qed.

Lemma crypt_reads bs authlen R cct ccr seqnr aadlen plain dest : CryptPair bs authlen R -> R cct ccr -> Forall is_u8 plain ->
  aadlen = 0 /\ authlen = 0 \/ aadlen = 4 -> 5 <= zlen plain <= 2 ^ 20 -> (zlen plain - aadlen) mod bs = 0 ->
  PEEK_U32 plain = zlen plain - 4 -> zlen dest = zlen plain + authlen ->
  exists tx' crypt, cipher_crypt cct seqnr dest plain (zlen plain - aadlen) aadlen authlen = ((0, crypt), tx') /\
    zlen crypt = zlen plain + authlen /\ Forall is_u8 crypt /\
    ReadsCrypt ccr seqnr aadlen bs authlen plain crypt (R tx').
Proof.
  intros HC HR Hp Haad Hl Hm Hpeek Hd. destruct (pair_sizes (bs := bs) (authlen := authlen) (R := R)) as [Hbs Hauth]. destruct Haad as [[-> ->]| ->].
  - rewrite Z.sub_0_r in *. rewrite Z.add_0_r in *.
    assert (Hle : bs <= zlen plain <= 2 ^ 20).
    { split; [|lia]. destruct (Z.lt_ge_cases (zlen plain) bs); [|done]. rewrite Z.mod_small in Hm by lia. lia. }
    destruct (pair_whole (R := R) cct ccr seqnr plain dest (zlen plain) eq_refl HR Hp Hle Hm eq_refl Hd) as (tx' & crypt & E & Zc & Hc & Hr).
    exists tx', crypt. split; [done|]. split; [done|]. split; [done|]. unfold ReadsCrypt. cbn [Z.eqb]. split; [done|].
    intros seqnr1 dest1 Hd1. destruct (Hr seqnr1 (ztake bs crypt) dest1) as (rx1 & E1 & Hr1); [by apply Forall_ztake|by rewrite ztake_ztake by lia|done|].
    exists rx1. split; [done|]. intros dest2 Hd2. apply Hr1; [by apply Forall_zdrop| |done]. apply ztake_all. rewrite zlen_zdrop; lia.
  - destruct (pair_apart (bs := bs) (authlen := authlen) (R := R) cct ccr seqnr plain dest (zlen plain - 4) HR Hp ltac:(lia) Hm ltac:(lia) ltac:(lia)) as (tx' & crypt & E & Zc & Hc & rx1 & HR1 & Hg & Hr).
    exists tx', crypt. split; [done|]. split; [lia|]. split; [done|]. unfold ReadsCrypt. cbn [Z.eqb]. exists rx1. split.
    { intros cp n Hn. by apply (pair_short (R := R) cct). }
    split; [intros cp n Hn Ecp; rewrite <- Hpeek; by apply Hg|]. intros dest' Hd'. apply Hr; [done| |lia]. apply ztake_all. lia.
Qed.

Lemma slice_contents b c k n : bufc b c -> 0 <= k -> 0 <= n -> k + n <= zlen c -> zslice (b_off b + k) n (b_mem b) = zslice k n c.
Proof.
  intros (Hb & <- & _) Hk Hn Hl. pose proof (zlen_contents b (rw_wf b Hb)) as Hz. rewrite Hz in Hl. pose proof (rw_wf b Hb) as [].
  unfold contents, zslice. rewrite zdrop_ztake, zdrop_zdrop, ztake_ztake by lia. done.
Qed.

Lemma frame_peek body padding : zlen body <= 2 ^ 18 -> zlen padding <= 255 -> PEEK_U32 (frame body padding) = zlen (frame body padding) - 4.
Proof. intros Hb Hp. zlen_facts. unfold frame at 1. rewrite PEEK_POKE_U32, zlen_frame, u32_id by lia. lia. Qed.

(** Encrypting behind what the output already holds. *)
Lemma seal_crypt o out og e t s W plain bs R cct ccr :
  bufc out W -> bufc og plain -> d_ctx o = Some cct -> R cct ccr -> CryptPair bs (k_authlen (d_newkeys o)) R ->
  Forall is_u8 plain -> (k_aadlen (d_newkeys o) = 0 -> k_authlen (d_newkeys o) = 0) -> 5 <= zlen plain <= 2 ^ 20 ->
  (zlen plain - k_aadlen (d_newkeys o)) mod bs = 0 -> PEEK_U32 plain = zlen plain - 4 -> zlen W + zlen plain + 16 <= SSHBUF_SIZE_MAX ->
  exists tx' crypt out1 out2 cp, let n := zlen plain + k_authlen (d_newkeys o) in
    sshbuf_reserve n out = (inr cp, out1) /\ cp = b_off out2 + zlen W /\ bufc out2 (W ++ crypt) /\
    zlen crypt = n /\ ReadsCrypt ccr (d_seqnr o) (k_aadlen (d_newkeys o)) bs (k_authlen (d_newkeys o)) plain crypt (R tx') /\
    forall nk', crypt_into MODE_OUT s_output set_s_output cp n (d_seqnr o) plain (u32 (zlen plain - k_aadlen (d_newkeys o))) (k_aadlen (d_newkeys o)) (k_authlen (d_newkeys o))
        (snd_upd (set_d_newkeys nk' o) out1 og e t s) =
      (inr tt, snd_upd (set_d_ctx (Some tx') (set_d_newkeys nk' o)) out2 og e t s).
Proof.
  intros Hout Hog Hcc HR HC Hp Haa Hl Hm Hpeek Hroom. destruct (pair_sizes (bs := bs) (authlen := k_authlen (d_newkeys o)) (R := R)) as [Hbs Hauth].
  pose proof (aadlen_cases (d_newkeys o)) as Haad. set (aadlen := k_aadlen (d_newkeys o)) in *. set (authlen := k_authlen (d_newkeys o)) in *. zlen_facts.
  destruct (buf_reserve_ok out W (zlen plain + authlen) Hout ltac:(lia) ltac:(lia)) as (out1 & junk & Er & Hout1 & Hj & Eslice).
  destruct (crypt_reads bs authlen R cct ccr (d_seqnr o) aadlen plain junk HC HR Hp) as (tx' & crypt & Ec & Zc & Hc & Hreads); [|lia|done|done|done|].
  { destruct Haad as [E|E]; [left; auto|by right]. }
  destruct (buf_poke_ok out1 (W ++ junk) (zlen W) crypt Hout1 ltac:(lia)) as (out2 & Ep & Hout2 & Eo2); [rewrite zlen_app; lia|].
  assert (C2 : zwrite (zlen W) crypt (W ++ junk) = W ++ crypt).
  { unfold zwrite. rewrite (ztake_app_exact W) by done. f_equal. rewrite zdrop_all; [apply app_nil_r|]. rewrite zlen_app. lia. }
  rewrite C2 in Hout2. exists tx', crypt, out1, out2, (b_off out1 + zlen W). cbv zeta. split; [done|]. split; [by rewrite Eo2|]. split; [done|].
  split; [done|]. split; [done|]. intros nk'. apply (snd_crypt _ _ _ _ _ _ cct _ _ _ _ _ _ _ crypt); [done| |done]. rewrite Eslice.
  rewrite u32_id by (destruct Haad; lia). exact Ec.
Qed.

Lemma seal_outgoing_ok o i out og e t s W body padding :
  paired o i -> bufc out W -> bufc og (frame body padding) -> 4 <= zlen padding <= 255 -> 1 <= zlen body <= 2 ^ 18 - 300 ->
  Forall is_u8 body -> Forall is_u8 padding ->
  (zlen (frame body padding) - k_aadlen (d_newkeys o)) mod k_block_size (d_newkeys o) = 0 ->
  zlen W + zlen (frame body padding) + 80 <= SSHBUF_SIZE_MAX ->
  exists nk' cc' out' wire,
    seal_outgoing (d_newkeys o) (zlen (frame body padding)) (snd_upd o out og e t s) =
      (inr tt, snd_upd (set_d_ctx (Some cc') (set_d_newkeys nk' o)) out' og e t s) /\
    bufc out' (W ++ wire) /\ zlen (frame body padding) <= zlen wire <= zlen (frame body padding) + 80 /\
    Reads i wire body (paired (advance o nk' cc' (zlen (frame body padding)))).
Proof.
  intros (HK & Hseq & Hsr & R & cct & ccr & Ht & Hr & HR & HC) Hout Hog Hpad Hbody Fb Fp Hm Hroom.
  pose proof (frame_bytes body padding ltac:(lia) Fb Fp) as Fplain. pose proof (frame_peek body padding ltac:(lia) ltac:(lia)) as Hpeek.
  pose proof (zlen_frame body padding) as Zf. set (plain := frame body padding) in *. pose proof HK as [Kbs Kauth Kon Ketm Klen [Kco Kci] Kmac].
  assert (Kaad : k_aadlen (d_newkeys i) = k_aadlen (d_newkeys o)) by (unfold k_aadlen; by rewrite Ketm, Kauth).
  set (nk := d_newkeys o) in *. set (bs := k_block_size nk) in *.
  destruct (pair_sizes (bs := bs) (authlen := k_authlen nk) (R := R)) as [Hbs Hauth].
  assert (Haa : k_aadlen nk = 0 -> k_authlen nk = 0).
  { unfold k_aadlen, truthy. destruct (Z.eqb_spec (k_authlen nk) 0); [done|]. by rewrite orb_true_r. }
  destruct (seal_crypt o out og e t s W plain bs R cct ccr Hout Hog Ht HR HC Fplain Haa ltac:(lia) Hm Hpeek ltac:(lia))
    as (tx' & crypt & out1 & out2 & cp & Er & Ecp & Hout2 & Zc & Hreads & Ecrypt). fold nk in Er, Zc, Hreads, Ecrypt.
  assert (Eid : set_d_newkeys nk o = o) by (subst nk; by destruct o). pose proof (Ecrypt nk) as Ecrypt0. rewrite Eid in Ecrypt0.
  assert (Hpair : forall nk1 nk2 rx', keys_match nk1 nk2 -> R tx' rx' -> k_block_size nk1 = bs -> k_authlen nk1 = k_authlen nk ->
    paired (advance o nk1 tx' (zlen plain)) (advance i nk2 rx' (zlen plain))).
  { intros nk1 nk2 rx' HK' HR' E1 E2. split; [done|]. split; [cbn; by rewrite Hseq|]. split; [cbn; apply Z.mod_pos_bound; lia|].
    exists R, tx', rx'. cbn [advance d_ctx d_newkeys]. by rewrite E1, E2. }
  assert (Hread : forall tag nk1, zlen tag = k_mac_len nk -> k_mac_len nk <= 64 ->
    (forall rx', R tx' rx' -> exists nk2, mac_of i (d_seqnr i) plain (ztake (zlen plain) crypt) tag nk2 /\
      paired (advance o nk1 tx' (zlen plain)) (advance i nk2 rx' (zlen plain))) ->
    Reads i (crypt ++ tag) body (paired (advance o nk1 tx' (zlen plain)))).
  { intros tag nk1 Ztag Hml Hnext. exists padding, crypt, tag, ccr. cbv zeta. fold plain. rewrite Kbs, Kauth, Kaad, Klen, Hseq. fold bs.
    repeat (split; [done || lia|]). revert Hreads. apply ReadsCrypt_mono. intros rx HRx. rewrite <- Hseq. by apply Hnext. }
  unfold seal_outgoing. rewrite (gets_to _ (d_seqnr o)) by done.
  rewrite (gets_to _ plain); [|cbn; rewrite (bufc_ptr og plain) by (done || lia); by apply ztake_all].
  assert (Elen : forall o' out', (fun s0 => sshbuf_len (s_outgoing s0) + k_authlen nk) (snd_upd o' out' og e t s) = zlen plain + k_authlen nk)
    by (intros; cbn; by rewrite (bufc_len og plain)).
  destruct (k_mac_enabled nk) eqn:Hon.
  2:{ (* no MAC *)
    destruct (mac_len_off nk Hon) as [Hml Het]. rewrite Het. cbn [andb]. rewrite SE_bind_ret_l, (gets_to _ _ _ _ (Elen _ _)).
    rewrite (SE_bind_ok _ _ _ _ _ (snd_output _ _ _ _ _ _ _ _ _ Er)).
    rewrite (SE_bind_ok _ _ _ _ _ Ecrypt0). cbn [when].
    exists nk, tx', out2, (crypt ++ []). rewrite app_nil_r, Eid. split; [done|]. split; [done|]. split; [lia|].
    rewrite <- (app_nil_r crypt). apply Hread; [by rewrite Hml|lia|]. intros rx' HRx. exists (d_newkeys i). split.
    { unfold mac_of. rewrite Kon. done. } by apply Hpair. }
  destruct (mac_enabled_keys nk Hon) as (ko0 & Enk & Hauth0 & _).
  destruct (k_etm nk) eqn:Het; cbn [negb andb].
  - (* encrypt then MAC *)
    destruct (mac_step nk (d_newkeys i) (d_seqnr o) (ztake (zlen plain) crypt) HK Hon) as (ko & ki & tag & mo & mi & Eo & Ei & Em & Zt & Hml & Ftag & Echk & HK').
    assert (Eslice : zslice cp (zlen plain) (b_mem out2) = ztake (zlen plain) crypt).
    { rewrite Ecp. zlen_facts. pose proof (zlen_app W crypt). rewrite (slice_contents out2 (W ++ crypt)) by (done || lia).
      unfold zslice. by rewrite (zdrop_app_exact W) by done. }
    destruct (buf_put_ok out2 (W ++ crypt) tag (k_mac_len nk) Hout2 ltac:(lia)) as (out3 & Eput & Hout3); [rewrite zlen_app; lia|].
    rewrite ztake_all in Hout3 by lia. rewrite SE_bind_ret_l, (gets_to _ _ _ _ (Elen _ _)).
    rewrite (SE_bind_ok _ _ _ _ _ (snd_output _ _ _ _ _ _ _ _ _ Er)).
    rewrite (SE_bind_ok _ _ _ _ _ Ecrypt0). cbn [when].
    exists (Some (set_nk_mac mo ko)), tx', out3, (crypt ++ tag). split.
    { unfold etm_code. rewrite SE_bind_assoc. rewrite (gets_to _ (ztake (zlen plain) crypt)) by (cbn; by rewrite Eslice).
      rewrite (SE_bind_ok _ _ _ _ _ (snd_mac (set_d_ctx (Some tx') o) out2 og e t s ko (d_seqnr o) _ tag mo Eo Em)).
      by rewrite (snd_output _ _ _ _ _ _ _ _ _ Eput). }
    split; [by rewrite app_assoc|]. split; [rewrite zlen_app; lia|]. apply Hread; [lia|lia|]. intros rx' HRx.
    exists (Some (set_nk_mac mi ki)). split.
    { unfold mac_of. rewrite Kon, Ketm, Hseq. exists ki, mi. done. }
    destruct (mac_enabled_keys nk Hon) as (k & Ek & _). apply Hpair; [done|done| |].
    + rewrite Eo in Ek. injection Ek as <-. subst bs. by rewrite Eo.
    + by rewrite Eo.
  - (* MAC of the packet *)
    destruct (mac_step nk (d_newkeys i) (d_seqnr o) plain HK Hon) as (ko & ki & tag & mo & mi & Eo & Ei & Em & Zt & Hml & Ftag & Echk & HK').
    destruct (buf_put_ok out2 (W ++ crypt) tag (k_mac_len nk) Hout2 ltac:(lia)) as (out3 & Eput & Hout3); [rewrite zlen_app; lia|].
    rewrite ztake_all in Hout3 by lia.
    rewrite (SE_bind_ok _ _ _ _ _ (snd_mac o out og e t s ko (d_seqnr o) plain tag mo Eo Em)).
    rewrite (gets_to _ _ _ _ (Elen _ _)). rewrite (SE_bind_ok _ _ _ _ _ (snd_output _ _ _ _ _ _ _ _ _ Er)).
    rewrite (SE_bind_ok _ _ _ _ _ (Ecrypt (Some (set_nk_mac mo ko)))). cbn [when]. rewrite SE_bind_ret_l.
    exists (Some (set_nk_mac mo ko)), tx', out3, (crypt ++ tag). split; [by rewrite (snd_output _ _ _ _ _ _ _ _ _ Eput)|].
    split; [by rewrite app_assoc|]. split; [rewrite zlen_app; lia|]. apply Hread; [lia|lia|]. intros rx' HRx.
    exists (Some (set_nk_mac mi ki)). split.
    { unfold mac_of. rewrite Kon, Ketm, Hseq. exists ki, mi. done. }
    apply Hpair; [done|done| |]; subst bs; by rewrite Eo.
Qed.

(** ** A whole packet *)

(** The types that change neither the keys nor the compression, and do not
    start a key exchange. *)
Definition ordinary (type : Z) : Prop := type <> SSH2_MSG_KEXINIT /\ type <> SSH2_MSG_NEWKEYS /\ type <> SSH2_MSG_USERAUTH_SUCCESS.

(** What follows when a message of a type was sent. *)
Definition after_sent (s : ssh) (type : Z) : SE ssh stop () :=
  if type =? SSH2_MSG_NEWKEYS then ssh_set_newkeys MODE_OUT
  else if (type =? SSH2_MSG_USERAUTH_SUCCESS) && s_server_side s then ssh_packet_enable_delayed_compress else mret tt.
Lemma after_ordinary s type : ordinary type -> after_sent s type = mret tt.
Proof. intros (_ & Hn & Hu). unfold after_sent. by rewrite (proj2 (Z.eqb_neq _ _) Hn), (proj2 (Z.eqb_neq _ _) Hu). Qed.
Lemma count_sent_ok o out og e t s nk cc bs len type c :
  bufc og c -> bs = k_block_size (d_newkeys o) -> 0 <= d_packets o < 2 ^ 32 - 1 ->
  count_sent bs len type (snd_upd (set_d_ctx (Some cc) (set_d_newkeys nk o)) out og e t s) =
    after_sent s type (snd_upd (advance o nk cc len) out (sshbuf_reset og) e t s).
Proof.
  intros Hog -> Hp. unfold count_sent. rewrite (SE_bind_ok _ _ _ _ _ (snd_dir _ _ _ _ _ _ _)).
  rewrite (SE_bind_ok _ _ _ _ _ (snd_dir _ _ _ _ _ _ _)). rewrite gets_bind. cbn [id snd_upd s_out d_packets set_d_packets set_d_seqnr set_d_ctx set_d_newkeys].
  rewrite (u32_id (d_packets o + 1)) by lia. rewrite (proj2 (Z.eqb_neq (d_packets o + 1) 0)) by lia. cbn [andb negb guard_or]. rewrite SE_bind_ret_l.
  rewrite (SE_bind_ok _ _ _ _ _ (snd_dir _ _ _ _ _ _ _)). rewrite (SE_bind_ok _ _ _ _ _ (snd_outgoing reset_buf _ _ _ _ _ _ _ _ eq_refl)).
  unfold after_sent. f_equal. unfold advance. cbn. by rewrite (u32_id (d_packets o + 1)) by lia.
Qed.

Lemma wrapped_sent `{!RandOk} o i out og e t s W hdr body p :
  paired o i -> bufc out W -> bufc og (hdr ++ body) -> zlen hdr = 5 -> 1 <= zlen body <= 2 ^ 18 - 300 -> Forall is_u8 body -> 0 <= e < 256 ->
  pad_length (5 + zlen body - k_aadlen (d_newkeys o)) (k_block_size (d_newkeys o)) e = inr p ->
  0 <= d_packets o < 2 ^ 32 - 1 -> zlen W + zlen body + 400 <= SSHBUF_SIZE_MAX ->
  exists o' out' og' t' wire,
    ssh_packet_send2_wrapped (snd_upd o out og e t s) = after_sent s (u_char_at body 0) (snd_upd o' out' og' 0 t' s) /\ bufc out' (W ++ wire) /\ bufc og' [] /\
    zlen wire <= zlen body + 400 /\ Reads i wire body (paired o') /\ d_packets o' = d_packets o + 1.
Proof.
  intros Hpair Hout Hog Hh Hb Fb He Hpad Hpk Hroom. pose proof Hpair as (HK & _ & _ & R & cct & ccr & Ht & _ & _ & HC).
  destruct (pair_sizes (bs := k_block_size (d_newkeys o)) (authlen := k_authlen (d_newkeys o)) (R := R)) as [Hbs _].
  pose proof (aadlen_cases (d_newkeys o)) as Haad.
  destruct (pad_outgoing_ok o out og e t s hdr body p cct Hog Hh ltac:(lia) ltac:(lia) He Hbs Ht Hpad) as (og1 & t1 & padding & Ep & Hog1 & Zp & Fp).
  destruct (pad_length_ok (5 + zlen body - k_aadlen (d_newkeys o)) _ _ _ ltac:(lia) Hbs He Hpad) as [Hp Hmod].
  pose proof (zlen_frame body padding) as Zf.
  destruct (seal_outgoing_ok o i out og1 0 t1 s W body padding Hpair Hout Hog1 ltac:(lia) Hb Fb Fp) as (nk' & cc' & out' & wire & Es & Hout' & Zw & Hr).
  { rewrite <- Hmod. f_equal. lia. }
  { lia. }
  exists (advance o nk' cc' (zlen (frame body padding))), out', (sshbuf_reset og1), t1, wire.
  split; [|split; [done|split; [by apply (buf_reset_ok _ (frame body padding))|split; [lia|split; [done|cbn; apply u32_id; lia]]]]].
  unfold ssh_packet_send2_wrapped. rewrite (gets_to _ (d_newkeys o)) by done.
  assert (Ety : u_char_at (hdr ++ body) 5 = u_char_at body 0).
  { apply u_char_at_app. lia. }
  rewrite (gets_to _ (u_char_at body 0)); [|cbn; rewrite (bufc_char og _ 5 Hog) by (rewrite zlen_app; lia); done].
  rewrite (proj1 (km_comp _ _ HK)). cbn [when]. rewrite SE_bind_ret_l. rewrite (SE_bind_ok _ _ _ _ _ Ep), (SE_bind_ok _ _ _ _ _ Es).
  by apply (count_sent_ok _ _ _ _ _ _ _ _ _ _ _ (frame body padding)).
Qed.
Lemma wrapped_ok `{!RandOk} o i out og e t s W hdr body p :
  paired o i -> bufc out W -> bufc og (hdr ++ body) -> zlen hdr = 5 -> 1 <= zlen body <= 2 ^ 18 - 300 -> Forall is_u8 body -> 0 <= e < 256 ->
  pad_length (5 + zlen body - k_aadlen (d_newkeys o)) (k_block_size (d_newkeys o)) e = inr p ->
  0 <= d_packets o < 2 ^ 32 - 1 -> zlen W + zlen body + 400 <= SSHBUF_SIZE_MAX -> ordinary (u_char_at body 0) ->
  exists o' out' og' t' wire,
    ssh_packet_send2_wrapped (snd_upd o out og e t s) = (inr tt, snd_upd o' out' og' 0 t' s) /\ bufc out' (W ++ wire) /\ bufc og' [] /\
    zlen wire <= zlen body + 400 /\ Reads i wire body (paired o') /\ d_packets o' = d_packets o + 1.
Proof.
  intros Hpair Hout Hog Hh Hb Fb He Hpad Hpk Hroom Hty. destruct (wrapped_sent o i out og e t s W hdr body p) as (o' & out' & og' & t' & wire & E & Hrest); try done.
  exists o', out', og', t', wire. by rewrite E, after_ordinary.
Qed.

(** ** Messages *)

(** A message as its callers build it: sshpkt_start, sshpkt_put, sshpkt_send. *)
Definition send_message (p : Z * list Z) : SE ssh stop () :=
  _ ← sshpkt_start p.1; _ ← sshpkt_put p.2 (zlen p.2); sshpkt_send.
Fixpoint send_messages (ps : list (Z * list Z)) : SE ssh stop () :=
  match ps with [] => mret tt | p :: ps => _ ← send_message p; send_messages ps end.

Definition body_of (p : Z * list Z) : list Z := p.1 :: p.2.
Definition message_ok (p : Z * list Z) : Prop :=
  is_u8 p.1 /\ ordinary p.1 /\ Forall is_u8 p.2 /\ zlen p.2 <= 2 ^ 18 - 301.
(** No key exchange is under way, and none can become due. *)
Definition quiet (s : ssh) : Prop :=
  s_mux s = false /\ s_rekeying s = false /\
  (s_after_auth s = false \/ s_kex s = None \/ truthy (Z.land (s_compat s) SSH_BUG_NOREKEY) = true).

Lemma quiet_need s n : quiet s -> ssh_packet_need_rekeying s n = Some false.
Proof.
  intros (_ & Hr & H). unfold ssh_packet_need_rekeying. destruct H as [->|[Hk|Hb]]; [done| |].
  - rewrite Hk, bool_decide_true by done. by destruct (negb _).
  - rewrite Hb. destruct (negb (s_after_auth s)); [done|]. by destruct (_ || ssh_packet_is_rekeying s).
Qed.

(** sshpkt_send of an ordinary message: finished and appended to the output. *)
Lemma pkt_send_body_ok `{!RandOk} rekex o i out og t s W hdr body :
  s_mux s = false -> s_rekeying s = false -> (forall n, ssh_packet_need_rekeying (snd_upd o out og 0 t s) n = Some false) ->
  paired o i -> bufc out W -> bufc og (hdr ++ body) -> zlen hdr = 5 -> 1 <= zlen body <= 2 ^ 18 - 300 -> Forall is_u8 body ->
  0 <= d_packets o < 2 ^ 32 - 1 -> zlen W + zlen body + 400 <= SSHBUF_SIZE_MAX -> ordinary (u_char_at body 0) ->
  exists o' out' og' t' wire,
    send_body rekex (snd_upd o out og 0 t s) = (inr tt, snd_upd o' out' og' 0 t' s) /\ bufc out' (W ++ wire) /\ bufc og' [] /\
    zlen wire <= zlen body + 400 /\ Reads i wire body (paired o') /\ d_packets o' = d_packets o + 1.
Proof.
  intros Hmux Hrk Hneed Hpair Hout Hog Hh Hb Fb Hpk Hroom Hty. pose proof Hpair as (_ & _ & _ & R & cct & ccr & _ & _ & _ & HC).
  destruct (pair_sizes (bs := k_block_size (d_newkeys o)) (authlen := k_authlen (d_newkeys o)) (R := R)) as [Hbs _].
  pose proof (aadlen_cases (d_newkeys o)) as Haad.
  destruct (pad_length_plain (5 + zlen body - k_aadlen (d_newkeys o)) _ ltac:(lia) Hbs) as [p Hpad].
  destruct (wrapped_ok o i out og 0 t s W hdr body p Hpair Hout Hog Hh Hb Fb ltac:(lia) Hpad Hpk Hroom Hty) as (o' & out' & og' & t' & wire & E & Hrest).
  exists o', out', og', t', wire. split; [|done]. unfold send_body. rewrite (gets_to _ false) by done. unfold send2_body. rewrite gets_bind. cbn [id].
  assert (Hz : zlen (hdr ++ body) = 5 + zlen body) by (rewrite zlen_app; lia).
  change (s_outgoing (snd_upd o out og 0 t s)) with og. rewrite (bufc_len og _ Hog), (proj2 (Z.ltb_ge _ _)) by lia.
  rewrite (bufc_char og _ 5 Hog), (u_char_at_app hdr body) by (done || lia). cbv zeta.
  change (s_rekeying (snd_upd o out og 0 t s)) with (s_rekeying s). rewrite Hrk.
  rewrite (SE_bind_ok _ _ _ false (snd_upd o out og 0 t s)); [|destruct (ssh_packet_type_is_kex _); [done|unfold need_rekeying; by rewrite (gets_to _ (Some false)) by apply Hneed]].
  cbn [orb andb]. destruct Hty as (Hk & Hn & _). rewrite (proj2 (Z.eqb_neq _ _) Hk), (proj2 (Z.eqb_neq _ _) Hn). cbn [when]. rewrite SE_bind_ret_l.
  by rewrite (SE_bind_ok _ _ _ _ _ E).
Qed.

Lemma send_message_ok `{!RandOk} o i out og t s W c p :
  message_ok p -> quiet s -> paired o i -> bufc out W -> bufc og c -> 0 <= d_packets o < 2 ^ 32 - 1 ->
  zlen W + zlen (body_of p) + 400 <= SSHBUF_SIZE_MAX ->
  exists o' out' og' t' wire,
    send_message p (snd_upd o out og 0 t s) = (inr tt, snd_upd o' out' og' 0 t' s) /\ bufc out' (W ++ wire) /\ bufc og' [] /\
    zlen wire <= zlen (body_of p) + 400 /\ Reads i wire (body_of p) (paired o') /\ d_packets o' = d_packets o + 1.
Proof.
  intros (Hu & Hty & Hf & Hz) Hq Hpair Hout Hog Hpk Hroom. destruct p as [type v]. cbn [fst snd] in *. unfold body_of in *. cbn [fst snd] in *.
  rewrite zlen_cons in Hroom. zlen_facts. pose proof (buf_reset_ok og c Hog) as Hog0.
  destruct (buf_put_ok (sshbuf_reset og) [] [0; 0; 0; 0; 0; u8 type] 6 Hog0) as (og1 & E1 & Hog1); [by change (0 <= 6 <= 6)|done|].
  rewrite u8_id in Hog1 by done. change ([] ++ ztake 6 _) with ([0; 0; 0; 0; 0] ++ [type]) in Hog1.
  destruct (buf_put_ok og1 _ v (zlen v) Hog1 ltac:(lia)) as (og2 & E2 & Hog2); [change (6 + zlen v <= 0x8000000); lia|].
  rewrite ztake_all, <- app_assoc in Hog2 by lia. cbn [app] in Hog2. change ([0; 0; 0; 0; 0; type] ++ v) with ([0; 0; 0; 0; 0] ++ type :: v) in Hog2.
  destruct (pkt_send_body_ok kex_start_rekex o i out og2 t s W [0; 0; 0; 0; 0] (type :: v)) as (o' & out' & og' & t' & wire & E & Hrest); try done.
  { apply Hq. } { apply Hq. } { intros n. by apply quiet_need. } { rewrite zlen_cons. lia. } { by constructor. } { rewrite zlen_cons. lia. }
  { rewrite (u_char_at_id _ _ type) by done. done. }
  exists o', out', og', t', wire. split; [|done]. unfold send_message, sshpkt_start, sshpkt_put, sshpkt_send. cbn [fst snd].
  rewrite SE_bind_assoc. rewrite (SE_bind_ok _ _ _ _ _ (snd_outgoing reset_buf _ _ _ _ _ _ _ _ eq_refl)).
  rewrite (SE_bind_ok _ _ _ _ _ (snd_outgoing _ _ _ _ _ _ _ _ _ E1)). by rewrite (SE_bind_ok _ _ _ _ _ (snd_outgoing _ _ _ _ _ _ _ _ _ E2)).
Qed.

(** ** Streams of packets *)

(** Without bytes there is no packet. *)
Definition Waits (i : dir) : Prop := exists cc, d_ctx i = Some cc /\ 8 <= k_block_size (d_newkeys i) /\
  forall cp n, n < 4 -> cipher_get_length cc (d_seqnr i) cp n = (inl SSH_ERR_MESSAGE_INCOMPLETE, cc).
Lemma paired_Waits o i : paired o i -> Waits i.
Proof.
  intros (HK & Hseq & _ & R & cct & ccr & _ & Hr & HR & HC). exists ccr. split; [done|]. rewrite (km_bs _ _ HK).
  destruct (pair_sizes (bs := k_block_size (d_newkeys o)) (authlen := k_authlen (d_newkeys o)) (R := R)) as [Hbs _]. split; [lia|].
  intros cp n Hn. by apply (pair_short (bs := k_block_size (d_newkeys o)) (authlen := k_authlen (d_newkeys o)) (R := R) cct).
Qed.

(** The bytes [W] are packets with the bodies [ps] for the receiver [i]. *)
Fixpoint Stream (ps : list (list Z)) (i : dir) (W : list Z) : Prop :=
  match ps with
  | [] => W = [] /\ Waits i
  | b :: ps => exists w W', W = w ++ W' /\ Reads i w b (fun i' => Stream ps i' W')
  end.

Lemma Reads_inhabited i w b P : Reads i w b P -> exists i', P i'.
Proof.
  intros (padding & crypt & tag & cc & Hp & Hb & _ & Hm & _ & _ & _ & _ & Hbs & _ & _ & _ & Hr). revert Hr. unfold ReadsCrypt.
  pose proof (zlen_frame b padding) as Zf. pose proof (aadlen_cases (d_newkeys i)) as Haad. set (bs := k_block_size (d_newkeys i)) in *.
  destruct (Z.eqb_spec (k_aadlen (d_newkeys i)) 0) as [E|E].
  - intros [_ H1]. destruct (H1 0 (zfill bs)) as (rx1 & _ & H2); [apply zlen_zfill; lia|].
    assert (bs <= zlen (frame b padding)).
    { destruct (Z.lt_ge_cases (zlen (frame b padding)) bs); [|done]. rewrite E, Z.sub_0_r, Z.mod_small in Hm by lia. lia. }
    destruct (H2 (zfill (zlen (frame b padding) - bs))) as (rx' & _ & nk' & _ & HP); [apply zlen_zfill; lia|]. eauto.
  - intros (rx1 & _ & _ & H3). destruct (H3 (zfill (zlen (frame b padding)))) as (rx' & _ & nk' & _ & HP); [apply zlen_zfill; lia|]. eauto.
Qed.

Definition wire_room (ps : list (Z * list Z)) : Z := foldr (fun p n => zlen (body_of p) + 400 + n) 0 ps.
Lemma wire_room_nonneg ps : 0 <= wire_room ps.
Proof. unfold wire_room. induction ps as [|p ps IH]; cbn; zlen_facts; lia. Qed.

(** The messages sent, as the bytes that the output has got. *)
Lemma send_messages_ok `{!RandOk} ps : forall o i out og t s W c,
  Forall message_ok ps -> quiet s -> paired o i -> bufc out W -> bufc og c -> 0 <= d_packets o -> d_packets o + zlen ps < 2 ^ 32 ->
  zlen W + wire_room ps <= SSHBUF_SIZE_MAX ->
  exists o' out' og' t' W',
    send_messages ps (snd_upd o out og 0 t s) = (inr tt, snd_upd o' out' og' 0 t' s) /\ bufc out' (W ++ W') /\ (exists c', bufc og' c') /\
    Stream (body_of <$> ps) i W'.
Proof.
  induction ps as [|p ps IH]; intros o i out og t s W c Hps Hq Hpair Hout Hog Hpk Hlim Hroom.
  { exists o, out, og, t, []. rewrite app_nil_r. split; [done|]. split; [done|]. split; [by exists c|]. split; [done|by apply (paired_Waits o)]. }
  inversion Hps as [|? ? Hp Hps']; subst. pose proof (wire_room_nonneg ps) as Hw. rewrite zlen_cons in Hlim. change (wire_room (p :: ps)) with (zlen (body_of p) + 400 + wire_room ps) in Hroom.
  zlen_facts. destruct (send_message_ok o i out og t s W c p Hp Hq Hpair Hout Hog ltac:(lia) ltac:(lia)) as (o1 & out1 & og1 & t1 & w & E1 & Hout1 & Hog1 & Zw & Hr & Epk).
  assert (HIH : forall i', paired o1 i' -> _) by (intros i' Hi'; apply (IH o1 i' out1 og1 t1 s (W ++ w) [] Hps' Hq Hi' Hout1 Hog1 ltac:(lia) ltac:(lia)); rewrite zlen_app; lia).
  destruct (Reads_inhabited _ _ _ _ Hr) as [i1 Hi1]. destruct (HIH i1 Hi1) as (o' & out' & og' & t' & W' & E & Hout' & Hog' & _).
  exists o', out', og', t', (w ++ W'). cbn [send_messages]. rewrite (SE_bind_ok _ _ _ _ _ E1). split; [done|]. split; [by rewrite app_assoc|].
  split; [done|]. cbn [fmap list_fmap Stream]. exists w, W'. split; [done|]. revert Hr. apply Reads_mono. intros i' Hi'.
  destruct (HIH i' Hi') as (o2 & out2 & og2 & t2 & W2 & E2 & Hout2 & _ & HS). rewrite E in E2. injection E2 as <- <- <- <-.
  destruct Hout' as (_ & C1 & _), Hout2 as (_ & C2 & _). rewrite C1 in C2. apply app_inv_head in C2. by subst W2.
Qed.
End Ends.
