(* ===== verification/PacketRecv.v ===== *)
(** * Packets out of the bytes that arrive

    ssh_packet_read_poll2 takes a packet in two steps (its length, then the
    rest) and may be called with any part of it in the input.  What it makes of
    the bytes that a paired sender wrote ([Stream]), however they are cut into
    pieces, and the delivery of all messages in order. *)

From stdpp Require Import list.
From S2P Require Import Prelude Sshbuf Poly1305 ChachaPoly Mac Cipher PacketState Packet PacketSend.

Lemma app_cut {A} (a rest w b : list A) : a ++ rest = w ++ b -> zlen w <= zlen a -> exists a', a = w ++ a' /\ b = a' ++ rest.
Proof.
  intros E Hl. unfold zlen in Hl. exists (drop (length w) a).
  assert (Ht : take (length w) a = w) by (rewrite <- (take_app_le a rest), E by lia; apply take_app_length).
  split; [by rewrite <- Ht at 1; rewrite take_drop|]. rewrite <- (drop_app_le a rest) by lia. by rewrite E, drop_app_length.
Qed.

Section Recv.
Context {al : Allocator} {altot : @AllocTotal al} {md : EvpMd} {mdok : @EvpMdOk md} {um : Umac} {umok : @UmacOk um}
  {ev : EvpCipher} {zl : Zlib} {env : PktEnv}.

Lemma bufc_slice b c k n : bufc b c -> 0 <= k -> 0 <= n -> k + n <= zlen c -> zslice k n (sshbuf_ptr b) = zslice k n c.
Proof.
  intros Hb Hk Hn Hl. unfold zslice. replace n with (k + n - k) by lia. rewrite <- (zdrop_ztake k (k + n) (sshbuf_ptr b)), <- (zdrop_ztake k (k + n) c) by lia.
  by rewrite (bufc_ptr b c) by done.
Qed.

(** The receiver's view of its own state. *)
Definition rcv_upd (i : dir) (inp inc : sshbuf) (pk ka : Z) (s : ssh) : ssh :=
  mk_ssh i (s_out s) inp (s_output s) (s_outgoing s) inc (s_comp_buf s) (s_queue s) (s_kex s) (s_rekeying s) (s_rekey_limit s)
    (s_rekey_interval s) (s_rekey_time s) (s_after_auth s) (s_server_side s) (s_mux s) (s_extra_pad s) pk (s_discard s)
    (s_discard_mac s) (s_discard_already s) ka (s_timeout_ms s) (s_compat s) (s_now s) (s_tick s) (s_wire s).
Lemma rcv_upd_id s : s = rcv_upd (s_in s) (s_input s) (s_incoming s) (s_packlen s) (s_keep_alive s) s.
Proof. by destruct s. Qed.

Lemma rcv_input {A} (m : SE sshbuf Z A) i inp inc pk ka s a inp' : m inp = (inr a, inp') ->
  on_input m (rcv_upd i inp inc pk ka s) = (inr a, rcv_upd i inp' inc pk ka s).
Proof. intros E. unfold on_input, on_buf. cbn [rcv_upd s_input]. by rewrite E. Qed.
Lemma rcv_incoming {A} (m : SE sshbuf Z A) i inp inc pk ka s a inc' : m inc = (inr a, inc') ->
  on_incoming m (rcv_upd i inp inc pk ka s) = (inr a, rcv_upd i inp inc' pk ka s).
Proof. intros E. unfold on_incoming, on_buf. cbn [rcv_upd s_incoming]. by rewrite E. Qed.
Lemma rcv_dir f i inp inc pk ka s : on_dir MODE_IN f (rcv_upd i inp inc pk ka s) = (inr tt, rcv_upd (f i) inp inc pk ka s).
Proof. done. Qed.
Lemma rcv_crypt i inp inc pk ka s cc seqnr dp n src len aad auth dest' cc' inc' :
  d_ctx i = Some cc -> cipher_crypt cc seqnr (zslice dp n (b_mem inc)) src len aad auth = ((0, dest'), cc') ->
  poke dp dest' inc = (inr tt, inc') ->
  crypt_into MODE_IN s_incoming set_s_incoming dp n seqnr src len aad auth (rcv_upd i inp inc pk ka s) =
    (inr tt, rcv_upd (set_d_ctx (Some cc') i) inp inc' pk ka s).
Proof.
  intros Ec Ecr Ep. unfold crypt_into. rewrite gets_bind. cbn [id get_dir rcv_upd s_in s_incoming]. rewrite Ec, Ecr.
  rewrite (SE_bind_ok _ _ _ _ _ (rcv_dir _ _ _ _ _ _ _)). unfold on_buf. rewrite (SE_bind_ok _ _ _ tt (rcv_upd (set_d_ctx (Some cc') i) inp inc' pk ka s)); [done|].
  cbn [rcv_upd s_incoming]. by rewrite Ep.
Qed.
Lemma rcv_mac i inp inc pk ka s nk seqno data tag mlen m' :
  d_newkeys i = Some nk -> mac_check (nk_mac nk) seqno data tag mlen = (0, m') ->
  dir_mac_check MODE_IN seqno data tag mlen (rcv_upd i inp inc pk ka s) =
    (inr 0, rcv_upd (set_d_newkeys (Some (set_nk_mac m' nk)) i) inp inc pk ka s).
Proof.
  intros En Em. unfold dir_mac_check. rewrite gets_bind. cbn [get_dir rcv_upd s_in]. rewrite En, Em.
  by rewrite (SE_bind_ok _ _ _ _ _ (rcv_dir _ _ _ _ _ _ _)).
Qed.

(** Decrypting behind what [s_incoming] already holds. *)
Lemma rcv_decrypt i inp inc pk ka s C seqnr src n len aad auth cc plain (P : sshcipher_ctx -> Prop) :
  bufc inc C -> zlen C + n <= SSHBUF_SIZE_MAX -> d_ctx i = Some cc -> zlen plain = n ->
  (forall dest, zlen dest = n -> exists rx', cipher_crypt cc seqnr dest src len aad auth = ((0, plain), rx') /\ P rx') ->
  exists inc1 inc' dp rx', sshbuf_reserve n inc = (inr dp, inc1) /\
    crypt_into MODE_IN s_incoming set_s_incoming dp n seqnr src len aad auth (rcv_upd i inp inc1 pk ka s) =
      (inr tt, rcv_upd (set_d_ctx (Some rx') i) inp inc' pk ka s) /\
    bufc inc' (C ++ plain) /\ P rx'.
Proof.
  intros Hinc Hroom Hcc Zp Hd. zlen_facts.
  destruct (buf_reserve_ok inc C n Hinc ltac:(lia) Hroom) as (inc1 & junk & Er & Hinc1 & Hj & Eslice).
  destruct (Hd junk Hj) as (rx' & Ec & HP).
  destruct (buf_poke_ok inc1 (C ++ junk) (zlen C) plain Hinc1 ltac:(lia)) as (inc2 & Ep & Hinc2 & _); [rewrite zlen_app; lia|].
  assert (C2 : zwrite (zlen C) plain (C ++ junk) = C ++ plain).
  { unfold zwrite. rewrite (ztake_app_exact C) by done. f_equal. rewrite zdrop_all; [apply app_nil_r|]. rewrite zlen_app. lia. }
  rewrite C2 in Hinc2. exists inc1, inc2, (b_off inc1 + zlen C), rx'. split; [done|]. split; [|done].
  apply (rcv_crypt _ _ _ _ _ _ cc _ _ _ _ _ _ _ plain); [done| |done]. by rewrite Eslice.
Qed.

(** The rest of a packet, all of whose bytes are in the input. *)
Lemma open_ok i inp inc pk ka s C crypt tag I' plain2 need cc (P : sshcipher_ctx -> option newkeys -> Prop) :
  let nk := d_newkeys i in
  bufc inp (crypt ++ tag ++ I') -> bufc inc C -> d_ctx i = Some cc -> zlen plain2 = k_aadlen nk + need ->
  zlen crypt = zlen plain2 + k_authlen nk -> zlen tag = k_mac_len nk -> 0 <= k_authlen nk -> zlen C + zlen plain2 <= SSHBUF_SIZE_MAX ->
  (forall dest, zlen dest = zlen plain2 -> exists rx', cipher_crypt cc (d_seqnr i) dest crypt need (k_aadlen nk) (k_authlen nk) = ((0, plain2), rx') /\
    exists nk', mac_of i (d_seqnr i) (C ++ plain2) (ztake (zlen plain2) crypt) tag nk' /\ P rx' nk') ->
  exists inp' inc' rx' nk',
    open_packet nk need (rcv_upd i inp inc pk ka s) =
      (inr true, rcv_upd (set_d_ctx (Some rx') (set_d_newkeys nk' i)) inp' inc' pk ka s) /\
    bufc inp' I' /\ bufc inc' (C ++ plain2) /\ P rx' nk'.
Proof.
  intros nk Hinp Hinc Hcc Zp Zc Zt Hauth Hroom Hd.
  assert (Zi : zlen (crypt ++ tag ++ I') = zlen crypt + zlen tag + zlen I') by (rewrite !zlen_app; lia). zlen_facts.
  assert (Hnk : forall nk', d_ctx (set_d_newkeys nk' i) = Some cc) by done.
  destruct (buf_consume_ok inp _ (zlen crypt) Hinp ltac:(lia)) as (inp1 & E1 & Hinp1). rewrite (zdrop_app_exact crypt) in Hinp1 by done.
  destruct (buf_consume_ok inp1 _ (zlen tag) Hinp1) as (inp2 & E2 & Hinp2); [rewrite zlen_app; lia|]. rewrite (zdrop_app_exact tag) in Hinp2 by done.
  unfold open_packet. fold nk. rewrite (gets_to _ (d_seqnr i)) by done. rewrite (gets_to _ (sshbuf_ptr inp)) by done.
  rewrite <- Zp. rewrite <- Zc. rewrite (bufc_ptr inp _ (zlen crypt) Hinp), (ztake_app_exact crypt) by (done || lia).
  unfold mac_of in Hd. fold nk in Hd. destruct (k_mac_enabled nk) eqn:Hon.
  2:{ destruct (mac_len_off nk Hon) as [Hml Het]. rewrite Het. cbn [when]. rewrite SE_bind_ret_l.
    destruct (rcv_decrypt i inp inc pk ka s C (d_seqnr i) crypt (zlen plain2) need (k_aadlen nk) (k_authlen nk) cc plain2 _ Hinc Hroom Hcc eq_refl Hd)
      as (inc1 & inc' & dp & rx' & Er & Ecr & Hinc' & nk' & (-> & ->) & HP).
    rewrite (SE_bind_ok _ _ _ _ _ (rcv_incoming _ _ _ _ _ _ _ _ _ Er)), (SE_bind_ok _ _ _ _ _ Ecr), (SE_bind_ok _ _ _ _ _ (rcv_input _ _ _ _ _ _ _ _ _ E1)).
    exists inp1, inc', rx', nk. split; [|done]. unfold mret, SE_ret. unfold nk. by destruct i. }
  assert (Eml : (match k_mac nk with Some m => m_mac_len m | None => 0 end) = zlen tag).
  { rewrite Zt. revert Hon. unfold k_mac_enabled, k_mac_len. by destruct (k_mac nk) as [m|]; [intros ->|]. }
  rewrite Eml. destruct (k_etm nk) eqn:Het; cbn [when].
  - (* the MAC of the cipher text first *)
    rewrite (bufc_slice inp _ (zlen crypt) (k_mac_len nk) Hinp) by lia. rewrite (bufc_ptr inp _ (zlen plain2) Hinp) by lia.
    replace (zslice (zlen crypt) (k_mac_len nk) (crypt ++ tag ++ I')) with tag
      by (unfold zslice; rewrite (zdrop_app_exact crypt) by done; symmetry; by apply ztake_app_exact).
    rewrite ztake_app_l by lia.
    destruct (rcv_decrypt i inp inc pk ka s C (d_seqnr i) crypt (zlen plain2) need (k_aadlen nk) (k_authlen nk) cc plain2 _ Hinc Hroom Hcc eq_refl Hd)
      as (_ & _ & _ & _ & _ & _ & _ & _ & (ki & m' & Eki & _ & Em) & _).
    rewrite SE_bind_assoc, (SE_bind_ok _ _ _ _ _ (rcv_mac _ _ _ _ _ _ _ _ _ _ _ _ Eki Em)). unfold check at 1. cbn [Z.eqb]. rewrite SE_bind_ret_l.
    destruct (rcv_decrypt (set_d_newkeys (Some (set_nk_mac m' ki)) i) inp inc pk ka s C (d_seqnr i) crypt (zlen plain2) need (k_aadlen nk) (k_authlen nk) cc plain2 _ Hinc Hroom Hcc eq_refl Hd)
      as (inc1 & inc' & dp & rx' & Er & Ecr & Hinc' & nk' & (ki2 & m2 & Eki2 & -> & Em2) & HP).
    assert (ki2 = ki) as -> by congruence. rewrite Em in Em2. injection Em2 as <-.
    rewrite (SE_bind_ok _ _ _ _ _ (rcv_incoming _ _ _ _ _ _ _ _ _ Er)), (SE_bind_ok _ _ _ _ _ Ecr), (SE_bind_ok _ _ _ _ _ (rcv_input _ _ _ _ _ _ _ _ _ E1)).
    rewrite SE_bind_ret_l. cbn [when]. rewrite (SE_bind_ok _ _ _ _ _ (rcv_input _ _ _ _ _ _ _ _ _ E2)).
    by exists inp2, inc', rx', (Some (set_nk_mac m' ki)).
  - (* the MAC of the packet afterwards *)
    rewrite SE_bind_ret_l.
    destruct (rcv_decrypt i inp inc pk ka s C (d_seqnr i) crypt (zlen plain2) need (k_aadlen nk) (k_authlen nk) cc plain2 _ Hinc Hroom Hcc eq_refl Hd)
      as (inc1 & inc' & dp & rx' & Er & Ecr & Hinc' & nk' & (ki & m' & Eki & -> & Em) & HP).
    rewrite (SE_bind_ok _ _ _ _ _ (rcv_incoming _ _ _ _ _ _ _ _ _ Er)), (SE_bind_ok _ _ _ _ _ Ecr), (SE_bind_ok _ _ _ _ _ (rcv_input _ _ _ _ _ _ _ _ _ E1)).
    unfold check_plain_mac. rewrite SE_bind_assoc, gets_bind. cbn [id rcv_upd s_in s_incoming s_input d_seqnr set_d_ctx].
    rewrite (bufc_len inc' _ Hinc'), (bufc_ptr inc' _ _ Hinc'), ztake_all by lia.
    rewrite (bufc_ptr inp1 _ _ Hinp1), <- Zt, (ztake_app_exact tag) by (rewrite ?zlen_app; lia || done).
    rewrite <- Zt in Em. rewrite SE_bind_assoc, (SE_bind_ok _ _ _ _ _ (rcv_mac (set_d_ctx (Some rx') i) _ _ _ _ _ ki _ _ _ _ _ Eki Em)). cbn [Z.eqb].
    rewrite SE_bind_ret_l. cbn [when]. rewrite (SE_bind_ok _ _ _ _ _ (rcv_input _ _ _ _ _ _ _ _ _ E2)).
    by exists inp2, inc', rx', (Some (set_nk_mac m' ki)).
Qed.

Lemma count_received_ok i inp inc pk ka s nk cc bs n :
  bs = k_block_size (d_newkeys i) -> 0 <= d_packets i < 2 ^ 32 - 1 -> 4 <= n < 2 ^ 32 ->
  count_received bs (n - 4) (rcv_upd (set_d_ctx (Some cc) (set_d_newkeys nk i)) inp inc pk ka s) =
    (inr tt, rcv_upd (advance i nk cc n) inp inc pk ka s).
Proof.
  intros -> Hp Hn. unfold count_received. rewrite (SE_bind_ok _ _ _ _ _ (rcv_dir _ _ _ _ _ _ _)).
  rewrite (SE_bind_ok _ _ _ _ _ (rcv_dir _ _ _ _ _ _ _)). rewrite gets_bind. cbn [id rcv_upd s_in d_packets set_d_packets set_d_seqnr set_d_ctx set_d_newkeys].
  rewrite (u32_id (d_packets i + 1)) by lia. rewrite (proj2 (Z.eqb_neq (d_packets i + 1) 0)) by lia. cbn [andb negb guard_or]. rewrite SE_bind_ret_l.
  rewrite rcv_dir. unfold advance. cbn. rewrite (u32_id (d_packets i + 1)), (u32_id (n - 4 + 4)) by lia. by replace (n - 4 + 4) with n by lia.
Qed.

(** The types that ssh_packet_read_poll2 accepts and that change nothing. *)
Definition receivable (type : Z) : Prop := SSH2_MSG_MIN <= type < SSH2_MSG_LOCAL_MIN /\ ordinary type.

Lemma finish_ok i inp inc pk ka s nk seqnr type v padding :
  bufc inc (frame (type :: v) padding) -> 4 <= zlen padding <= 255 -> k_comp_enabled nk = false -> receivable type -> quiet s ->
  exists inc', finish_packet nk seqnr (rcv_upd i inp inc pk ka s) = (inr (type, Some seqnr), rcv_upd i inp inc' 0 ka s) /\ bufc inc' v.
Proof.
  intros Hinc Hp Hc [Hr (_ & _ & Hu)] Hq. unfold SSH2_MSG_MIN, SSH2_MSG_LOCAL_MIN in Hr. pose proof (zlen_frame (type :: v) padding) as Zf. rewrite zlen_cons in Zf. zlen_facts.
  set (hdr := POKE_U32 (1 + zlen (type :: v) + zlen padding)) in *.
  assert (Zh : zlen hdr = 4) by apply zlen_POKE_U32.
  assert (Ef : frame (type :: v) padding = (hdr ++ [zlen padding]) ++ (type :: v) ++ padding) by (unfold frame; by rewrite <- app_assoc).
  assert (Z5 : zlen (hdr ++ [zlen padding]) = 5) by (rewrite zlen_app, Zh; done).
  destruct (buf_consume_ok inc _ 5 Hinc ltac:(lia)) as (inc1 & E1 & Hinc1). rewrite Ef in Hinc1. rewrite (zdrop_app_exact (hdr ++ [zlen padding])) in Hinc1 by done.
  assert (Zb : zlen ((type :: v) ++ padding) = 1 + zlen v + zlen padding) by (rewrite zlen_app, zlen_cons; lia).
  destruct (buf_consume_end_ok inc1 _ (zlen padding) Hinc1 ltac:(lia)) as (inc2 & E2 & Hinc2).
  rewrite Zb in Hinc2. rewrite (ztake_app_exact (type :: v)) in Hinc2 by (rewrite zlen_cons; lia).
  destruct (buf_get_u8_ok inc2 type v Hinc2) as (inc3 & E3 & Hinc3). exists inc3. split; [|done].
  unfold finish_packet. rewrite gets_bind. cbn [id]. change (s_incoming (rcv_upd i inp inc pk ka s)) with inc.
  assert (Epad : u_char_at (sshbuf_ptr inc) 4 = zlen padding).
  { rewrite (bufc_char inc _ 4 Hinc) by lia. unfold frame. fold hdr. rewrite u_char_at_app by done. apply u_char_at_id; [done|unfold is_u8; lia]. }
  rewrite Epad, (proj2 (Z.ltb_ge (zlen padding) 4)) by lia.
  rewrite (SE_bind_ok _ _ _ _ _ (rcv_incoming _ _ _ _ _ _ _ _ _ E1)), (SE_bind_ok _ _ _ _ _ (rcv_incoming _ _ _ _ _ _ _ _ _ E2)).
  rewrite Hc. cbn [when]. rewrite SE_bind_ret_l, (SE_bind_ok _ _ _ _ _ (rcv_incoming _ _ _ _ _ _ _ _ _ E3)).
  unfold SSH2_MSG_MIN, SSH2_MSG_LOCAL_MIN. rewrite (proj2 (Z.ltb_ge type 1)), (proj2 (Z.leb_gt 192 type)) by lia. cbn [orb].
  rewrite (proj2 (Z.eqb_neq _ _) Hu). cbn [andb]. rewrite SE_bind_ret_l, modify_bind. unfold need_rekeying. rewrite SE_bind_assoc.
  change (set_s_packlen 0 (rcv_upd i inp inc3 pk ka s)) with (rcv_upd i inp inc3 0 ka s).
  rewrite (gets_to _ (Some false)) by (by apply quiet_need). rewrite SE_bind_ret_l. done.
Qed.

(** The length of a packet is known, the rest has not been taken: [inc] holds
    the part decrypted so far, [W] the bytes from the front of the input on. *)
Definition Mid (ps : list (list Z)) (i : dir) (W inc : list Z) (pk : Z) : Prop :=
  let nk := d_newkeys i in
  exists b ps' padding plain2 crypt tag cc W',
    let plain := frame b padding in
    ps = b :: ps' /\ plain = inc ++ plain2 /\ W = crypt ++ tag ++ W' /\ d_ctx i = Some cc /\ pk = zlen plain - 4 /\
    zlen inc = (if k_aadlen nk =? 0 then k_block_size nk else 0) /\
    4 <= zlen padding <= 255 /\ 1 <= zlen b <= 2 ^ 18 - 300 /\ (zlen plain - k_aadlen nk) mod k_block_size nk = 0 /\
    zlen crypt = zlen plain2 + k_authlen nk /\ zlen tag = k_mac_len nk /\
    k_comp_enabled nk = false /\ 8 <= k_block_size nk <= 16 /\ 0 <= k_authlen nk <= 16 /\ k_mac_len nk <= 64 /\
    forall dest, zlen dest = zlen plain2 -> exists rx',
      cipher_crypt cc (d_seqnr i) dest crypt (zlen plain2 - k_aadlen nk) (k_aadlen nk) (k_authlen nk) = ((0, plain2), rx') /\
      exists nk', mac_of i (d_seqnr i) plain (ztake (zlen plain2) crypt) tag nk' /\ Stream ps' (advance i nk' rx' (zlen plain)) W'.

Lemma take_ok i inp inc ka s I rest C pk ps :
  Mid ps i (I ++ rest) C pk -> bufc inp I -> bufc inc C -> quiet s -> 0 <= d_packets i < 2 ^ 32 - 1 ->
  Forall (fun b => exists type v, b = type :: v /\ receivable type) ps ->
  (take_packet (d_newkeys i) (rcv_upd i inp inc pk ka s) = (inr (SSH_MSG_NONE, None), rcv_upd i inp inc pk ka s) /\ rest <> []) \/
  exists type v ps' i' inp' inc' I', ps = (type :: v) :: ps' /\
    take_packet (d_newkeys i) (rcv_upd i inp inc pk ka s) = (inr (type, Some (d_seqnr i)), rcv_upd i' inp' inc' 0 ka s) /\
    bufc inp' I' /\ bufc inc' v /\ Stream ps' i' (I' ++ rest) /\ d_packets i' = d_packets i + 1 /\
    zlen I' + (if k_aadlen (d_newkeys i) =? 0 then 0 else 1) <= zlen I.
Proof.
  intros (b & ps' & padding & plain2 & crypt & tag & cc & W' & Eps & Epl & EW & Hcc & Hpk & Zinc & Hpad & Hb & Hm & Zc & Zt & Hco & Hbs & Hauth & Hml & Hd) Hinp Hinc Hq Hpkts Hty.
  set (nk := d_newkeys i) in *. pose proof (zlen_frame b padding) as Zf. set (plain := frame b padding) in *. pose proof (aadlen_cases nk) as Haad.
  assert (Zp : zlen plain = zlen C + zlen plain2) by (by rewrite Epl, zlen_app). zlen_facts.
  assert (Hneed : (if negb (k_aadlen nk =? 0) then pk else u32 (4 + pk - k_block_size nk)) = zlen plain2 - k_aadlen nk /\
    (zlen plain2 - k_aadlen nk) mod k_block_size nk = 0).
  { destruct (Z.eqb_spec (k_aadlen nk) 0) as [E|E]; cbn [negb]; cbn iota in Zinc.
    - rewrite u32_id by lia. split; [lia|]. replace (zlen plain2 - k_aadlen nk) with (zlen plain - k_aadlen nk + (-1) * k_block_size nk) by lia. by rewrite Z.mod_add by lia.
    - destruct Haad; [done|]. split; [lia|]. rewrite <- Hm. f_equal. lia. }
  destruct Hneed as [Hneed Hnmod]. set (need := zlen plain2 - k_aadlen nk) in *.
  unfold take_packet. rewrite (gets_to _ pk) by done. rewrite Hneed, Hnmod. cbn [Z.eqb negb]. rewrite (gets_to _ (zlen I)) by (cbn; by apply bufc_len).
  rewrite u32_id by (destruct Haad; lia). replace (k_aadlen nk + need + k_authlen nk + k_mac_len nk) with (zlen crypt + zlen tag) by lia.
  destruct (Z.ltb_spec (zlen I) (zlen crypt + zlen tag)) as [Hlt|Hge].
  { left. split; [done|]. intros ->. rewrite app_nil_r in EW. rewrite EW, !zlen_app in Hlt. zlen_facts. lia. }
  right. rewrite app_assoc in EW. destruct (app_cut I rest (crypt ++ tag) W' EW) as (I' & EI & ->); [rewrite zlen_app; lia|].
  rewrite <- app_assoc in EI. subst I ps. inversion Hty as [|? ? (type & v & -> & Hrec) _]; subst.
  destruct (open_ok i inp inc (zlen plain - 4) ka s C crypt tag I' plain2 need cc
    (fun rx' nk' => Stream ps' (advance i nk' rx' (zlen plain)) (I' ++ rest)) Hinp Hinc Hcc ltac:(fold nk; lia) Zc Zt ltac:(fold nk; lia))
    as (inp1 & inc1 & rx' & nk' & Eo & Hinp1 & Hinc1 & HS); [unfold SSHBUF_SIZE_MAX; lia|rewrite <- Epl; exact Hd|].
  rewrite <- Epl in Hinc1. destruct (finish_ok (advance i nk' rx' (zlen plain)) inp1 inc1 (zlen plain - 4) ka s nk (d_seqnr i) type v padding Hinc1 Hpad Hco Hrec Hq) as (inc2 & Ef & Hinc2).
  exists type, v, ps', (advance i nk' rx' (zlen plain)), inp1, inc2, I'. split; [done|]. split.
  - rewrite (gets_to _ (d_seqnr i)) by done. fold nk in Eo. rewrite (SE_bind_ok _ _ _ _ _ Eo). cbn [negb].
    rewrite (SE_bind_ok _ _ _ tt (rcv_upd (advance i nk' rx' (zlen plain)) inp1 inc1 (zlen plain - 4) ka s)); [done|].
    apply count_received_ok; [done|done|lia].
  - split; [done|]. split; [done|]. split; [done|]. split; [cbn; apply u32_id; lia|]. fold nk. rewrite !zlen_app. zlen_facts.
    destruct (Z.eqb_spec (k_aadlen nk) 0); lia.
Qed.

(** The sizes of a packet that can be read. *)
Lemma length_good body padding : 4 <= zlen padding <= 255 -> 1 <= zlen body <= 2 ^ 18 - 300 -> bad_length (zlen (frame body padding) - 4) = false.
Proof.
  intros Hp Hb. unfold bad_length, PACKET_MAX_SIZE. pose proof (zlen_frame body padding).
  by rewrite (proj2 (Z.ltb_ge _ _)), (proj2 (Z.ltb_ge _ _)) by lia.
Qed.

(** The length, which stays encrypted in the input. *)
Lemma length_apart_ok i inp inc ka s I rest C b ps :
  Stream (b :: ps) i (I ++ rest) -> bufc inp I -> bufc inc C -> k_aadlen (d_newkeys i) = 4 ->
  (read_length 4 (k_block_size (d_newkeys i)) (rcv_upd i inp inc 0 ka s) = (inr false, rcv_upd i inp inc 0 ka s) /\ rest <> []) \/
  exists cc inc' pk, read_length 4 (k_block_size (d_newkeys i)) (rcv_upd i inp inc 0 ka s) = (inr true, rcv_upd (set_d_ctx (Some cc) i) inp inc' pk ka s) /\
    bufc inc' [] /\ Mid (b :: ps) (set_d_ctx (Some cc) i) (I ++ rest) [] pk /\ pk <> 0.
Proof.
  intros (w & W' & EW & padding & crypt & tag & cc & Hp & Hb & Fp & Hm & -> & Zc & Zt & Hco & Hbs & Hauth & Hml & Hcc & Hr) Hinp Hinc Haad.
  unfold ReadsCrypt in Hr. rewrite Haad in Hr. cbn [Z.eqb] in Hr. destruct Hr as (rx1 & Hshort & Hlen & Hd).
  pose proof (zlen_frame b padding) as Zf. pose proof (bufc_max inp I Hinp) as Hmax. unfold SSHBUF_SIZE_MAX in Hmax. zlen_facts.
  unfold read_length. rewrite gets_bind. cbn [id]. change (s_packlen (rcv_upd i inp inc 0 ka s)) with 0. cbn [Z.eqb negb]. unfold get_length.
  rewrite SE_bind_assoc, gets_bind. cbn [id rcv_upd s_in s_input]. rewrite Hcc, (bufc_len inp I Hinp), u32_id by lia.
  destruct (Z.lt_ge_cases (zlen I) 4) as [Hlt|Hge].
  - left. rewrite (Hshort _ _ Hlt). rewrite SE_bind_assoc. change (mk_ssh i _ _ _ _ _ _ _ _ _ _ _ _ _ _ _ _ _ _ _ _ _ _ _ _ _ _) with (rcv_upd i inp inc 0 ka s).
    rewrite (SE_bind_ok _ _ _ _ _ (rcv_dir _ _ _ _ _ _ _)), SE_bind_ret_l. split; [unfold mret, SE_ret; rewrite <- Hcc; by destruct i|].
    intros ->. rewrite app_nil_r in EW. rewrite EW, !zlen_app in Hlt. zlen_facts. lia.
  - right. rewrite (Hlen _ _ Hge); [|rewrite (bufc_ptr inp I 4 Hinp Hge), <- (ztake_app_l 4 I rest), EW, <- app_assoc by lia; apply ztake_app_l; lia].
    rewrite SE_bind_assoc. change (mk_ssh i _ _ _ _ _ _ _ _ _ _ _ _ _ _ _ _ _ _ _ _ _ _ _ _ _ _) with (rcv_upd i inp inc 0 ka s).
    rewrite (SE_bind_ok _ _ _ _ _ (rcv_dir _ _ _ _ _ _ _)), SE_bind_ret_l, modify_bind, (length_good b padding Hp Hb).
    change (set_s_packlen (zlen (frame b padding) - 4) (rcv_upd (set_d_ctx (Some rx1) i) inp inc 0 ka s)) with (rcv_upd (set_d_ctx (Some rx1) i) inp inc (zlen (frame b padding) - 4) ka s).
    rewrite (SE_bind_ok _ _ _ _ _ (rcv_incoming reset_buf _ _ _ _ _ _ _ _ eq_refl)).
    exists rx1, (sshbuf_reset inc), (zlen (frame b padding) - 4). split; [done|]. split; [by apply (buf_reset_ok _ C)|]. split; [|lia].
    exists b, ps, padding, (frame b padding), crypt, tag, rx1, W'. cbv zeta. cbn [d_newkeys set_d_ctx d_ctx d_seqnr app].
    rewrite Haad in *. cbn [Z.eqb]. repeat (split; [done || (by rewrite app_assoc)|]). exact Hd.
Qed.

(** The length in the first block, which is decrypted on its own. *)
Lemma length_inside_ok i inp inc ka s I rest C b ps :
  Stream (b :: ps) i (I ++ rest) -> bufc inp I -> bufc inc C -> k_aadlen (d_newkeys i) = 0 ->
  (read_length 0 (k_block_size (d_newkeys i)) (rcv_upd i inp inc 0 ka s) = (inr false, rcv_upd i inp inc 0 ka s) /\ rest <> []) \/
  exists cc inp' inc' I' C' pk, read_length 0 (k_block_size (d_newkeys i)) (rcv_upd i inp inc 0 ka s) = (inr true, rcv_upd (set_d_ctx (Some cc) i) inp' inc' pk ka s) /\
    bufc inp' I' /\ bufc inc' C' /\ Mid (b :: ps) (set_d_ctx (Some cc) i) (I' ++ rest) C' pk /\ pk <> 0 /\ zlen I' + 1 <= zlen I.
Proof.
  intros (w & W' & EW & padding & crypt & tag & cc & Hp & Hb & Fp & Hm & -> & Zc & Zt & Hco & Hbs & Hauth & Hml & Hcc & Hr) Hinp Hinc Haad.
  unfold ReadsCrypt in Hr. rewrite Haad in Hr. cbn [Z.eqb] in Hr. destruct Hr as (Ha0 & Hr). rewrite Haad, Z.sub_0_r in Hm.
  pose proof (zlen_frame b padding) as Zf. set (bs := k_block_size (d_newkeys i)) in *. set (plain := frame b padding) in *.
  assert (Hle : bs <= zlen plain). { destruct (Z.lt_ge_cases (zlen plain) bs); [|done]. rewrite Z.mod_small in Hm by lia. lia. }
  zlen_facts. unfold read_length. rewrite gets_bind. cbn [id]. change (s_packlen (rcv_upd i inp inc 0 ka s)) with 0. cbn [Z.eqb negb].
  change (s_input (rcv_upd i inp inc 0 ka s)) with inp. rewrite (bufc_len inp I Hinp). destruct (Z.ltb_spec (zlen I) bs) as [Hlt|Hge].
  { left. split; [done|]. intros ->. rewrite app_nil_r in EW. rewrite EW, !zlen_app in Hlt. zlen_facts. lia. }
  right. assert (Et : ztake bs I = ztake bs crypt).
  { rewrite <- (ztake_app_l bs I rest), EW, <- app_assoc by lia. apply ztake_app_l. lia. }
  assert (Zb : zlen (ztake bs plain) = bs) by (apply zlen_ztake; lia).
  destruct (rcv_decrypt i inp (sshbuf_reset inc) 0 ka s [] (d_seqnr (s_out s)) (ztake bs crypt) bs bs 0 0 cc (ztake bs plain) _ (buf_reset_ok _ _ Hinc) ltac:(change (bs <= 0x8000000); lia) Hcc Zb (Hr (d_seqnr (s_out s))))
    as (inc1 & inc' & dp & rx1 & Er & Ecr & Hinc' & Hd).
  destruct (buf_consume_ok inp I bs Hinp ltac:(lia)) as (inp1 & E1 & Hinp1).
  rewrite (SE_bind_ok _ _ _ _ _ (rcv_incoming reset_buf _ _ _ _ _ _ _ _ eq_refl)), (SE_bind_ok _ _ _ _ _ (rcv_incoming _ _ _ _ _ _ _ _ _ Er)).
  rewrite (bufc_ptr inp I bs Hinp Hge), Et. change (s_out (rcv_upd i inp inc 0 ka s)) with (s_out s). rewrite (SE_bind_ok _ _ _ _ _ Ecr). cbn [app] in Hinc'.
  assert (Epk : PEEK_U32 (sshbuf_ptr inc') = zlen plain - 4).
  { rewrite <- (PEEK_U32_ztake bs), (bufc_ptr inc' _ bs Hinc') by lia. rewrite ztake_ztake, PEEK_U32_ztake by lia. apply frame_peek; lia. }
  rewrite (gets_to _ (zlen plain - 4)) by exact Epk. rewrite modify_bind. subst plain. rewrite (length_good b padding Hp Hb). set (plain := frame b padding) in *.
  change (set_s_packlen _ (rcv_upd (set_d_ctx (Some rx1) i) inp inc' 0 ka s)) with (rcv_upd (set_d_ctx (Some rx1) i) inp inc' (zlen plain - 4) ka s).
  rewrite (SE_bind_ok _ _ _ _ _ (rcv_input _ _ _ _ _ _ _ _ _ E1)).
  exists rx1, inp1, inc', (zdrop bs I), (ztake bs plain), (zlen plain - 4). split; [done|]. split; [done|]. split; [done|].
  split; [|split; [lia|rewrite zlen_zdrop; lia]].
  assert (Ew : zdrop bs I ++ rest = zdrop bs crypt ++ tag ++ W').
  { rewrite <- (zdrop_app_l bs I rest), EW, <- app_assoc by lia. apply zdrop_app_l. lia. }
  assert (Zd : zlen (zdrop bs plain) = zlen plain - bs) by (apply zlen_zdrop; lia).
  exists b, ps, padding, (zdrop bs plain), (zdrop bs crypt), tag, rx1, W'. cbv zeta. cbn [d_newkeys set_d_ctx d_ctx d_seqnr].
  fold plain bs. rewrite Haad, Ha0, Z.sub_0_r, Zd, Z.sub_0_r, (zlen_zdrop bs crypt) by lia. cbn [Z.eqb]. split; [done|]. split; [by rewrite ztake_zdrop|].
  repeat (split; [done || lia|]). intros dest Hz. destruct (Hd dest Hz) as (rx' & Ec & nk' & Hmac & HS). exists rx'. split; [done|]. exists nk'. split; [|done].
  revert Hmac. unfold mac_of. cbn [d_newkeys set_d_ctx]. replace (k_etm (d_newkeys i)) with false; [done|].
  revert Haad. unfold k_aadlen. by destruct (k_etm _).
Qed.

(** ** One call *)

(** The packets [ps] are still to come out of the bytes [W], of which the input
    is the front; [pk] is state->packlen. *)
Definition Rcv (ps : list (list Z)) (i : dir) (W C : list Z) (pk : Z) : Prop :=
  if pk =? 0 then Stream ps i W else Mid ps i W C pk.
Definition bodies_ok (ps : list (list Z)) : Prop := Forall (fun b => exists type v, b = type :: v /\ receivable type) ps.

(** What a call did: nothing that shows, when bytes are missing or no packet is
    to come, or one packet taken. *)
Definition polled (ps : list (list Z)) (i : dir) (I rest : list Z) (pk ka : Z) (s : ssh) (res : (stop + Z * option Z) * ssh) : Prop :=
  (exists i' inp' inc' I' C' pk', res = (inr (SSH_MSG_NONE, None), rcv_upd i' inp' inc' pk' ka s) /\ bufc inp' I' /\ bufc inc' C' /\
    Rcv ps i' (I' ++ rest) C' pk' /\ d_packets i' = d_packets i /\ zlen I' <= zlen I /\ (rest = [] -> ps = [])) \/
  (exists type v ps' i' inp' inc' I', ps = (type :: v) :: ps' /\ res = (inr (type, Some (d_seqnr i)), rcv_upd i' inp' inc' 0 ka s) /\
    bufc inp' I' /\ bufc inc' v /\ Stream ps' i' (I' ++ rest) /\ d_packets i' = d_packets i + 1 /\
    zlen I' + 1 <= zlen I + (if pk =? 0 then 0 else 1)).

Lemma idle_ok i inp inc ka s I rest C : Stream [] i (I ++ rest) -> bufc inp I -> bufc inc C ->
  read_length (k_aadlen (d_newkeys i)) (k_block_size (d_newkeys i)) (rcv_upd i inp inc 0 ka s) = (inr false, rcv_upd i inp inc 0 ka s).
Proof.
  intros (EW & cc & Hcc & Hbs & Hshort) Hinp Hinc. apply app_nil in EW as [-> ->]. unfold read_length. rewrite gets_bind. cbn [id].
  change (s_packlen (rcv_upd i inp inc 0 ka s)) with 0. change (s_input (rcv_upd i inp inc 0 ka s)) with inp. cbn [Z.eqb negb].
  destruct (aadlen_cases (d_newkeys i)) as [-> | ->]; cbn [Z.eqb negb].
  - rewrite (bufc_len inp [] Hinp). change (zlen (@nil Z)) with 0. by rewrite (proj2 (Z.ltb_lt _ _)) by lia.
  - unfold get_length. rewrite SE_bind_assoc, gets_bind. cbn [id rcv_upd s_in s_input]. rewrite Hcc, (bufc_len inp [] Hinp). change (u32 (zlen (@nil Z))) with 0.
    rewrite Hshort by lia. rewrite SE_bind_assoc. change (mk_ssh i _ _ _ _ _ _ _ _ _ _ _ _ _ _ _ _ _ _ _ _ _ _ _ _ _ _) with (rcv_upd i inp inc 0 ka s).
    rewrite (SE_bind_ok _ _ _ _ _ (rcv_dir _ _ _ _ _ _ _)), SE_bind_ret_l. unfold mret, SE_ret. rewrite <- Hcc. by destruct i.
Qed.

Lemma read_poll2_ok i inp inc ka s I rest C pk ps :
  Rcv ps i (I ++ rest) C pk -> bufc inp I -> bufc inc C -> quiet s -> s_discard s = 0 -> 0 <= d_packets i < 2 ^ 32 - 1 -> bodies_ok ps ->
  polled ps i I rest pk ka s (ssh_packet_read_poll2 (rcv_upd i inp inc pk ka s)).
Proof.
  intros HR Hinp Hinc Hq Hdis Hpk Hty. unfold ssh_packet_read_poll2. rewrite gets_bind. cbn [id].
  change (s_mux (rcv_upd i inp inc pk ka s)) with (s_mux s). rewrite (proj1 Hq). change (s_discard (rcv_upd i inp inc pk ka s)) with (s_discard s). rewrite Hdis.
  change (truthy 0) with false. cbn iota. change (s_in (rcv_upd i inp inc pk ka s)) with i. unfold Rcv in HR. pose proof (aadlen_cases (d_newkeys i)) as Haad.
  destruct (Z.eqb_spec pk 0) as [->|Hne].
  2:{ rewrite (SE_bind_ok _ _ _ true (rcv_upd i inp inc pk ka s)).
    2:{ unfold read_length. rewrite gets_bind. cbn [id]. change (s_packlen (rcv_upd i inp inc pk ka s)) with pk. by rewrite (proj2 (Z.eqb_neq pk 0) Hne). }
    cbn [negb]. destruct (take_ok i inp inc ka s I rest C pk ps HR Hinp Hinc Hq Hpk Hty) as [[-> Hrest]|(type & v & ps' & i' & inp' & inc' & I' & Eps & -> & H1 & H2 & H3 & H4 & H5)].
    - left. exists i, inp, inc, I, C, pk. unfold Rcv. rewrite (proj2 (Z.eqb_neq pk 0) Hne). repeat (split; [done|]). done.
    - right. exists type, v, ps', i', inp', inc', I'. rewrite (proj2 (Z.eqb_neq pk 0) Hne). repeat (split; [done|]). destruct (_ =? 0); lia. }
  destruct ps as [|b ps].
  { rewrite (SE_bind_ok _ _ _ _ _ (idle_ok i inp inc ka s I rest C HR Hinp Hinc)). cbn [negb]. left. by exists i, inp, inc, I, C, 0. }
  assert (Hstuck : rest <> [] -> polled (b :: ps) i I rest 0 ka s (inr (SSH_MSG_NONE, None), rcv_upd i inp inc 0 ka s)).
  { intros Hrest. left. exists i, inp, inc, I, C, 0. repeat (split; [done|]). done. }
  assert (Htake : forall cc inp' inc' I' C' pk', bufc inp' I' -> bufc inc' C' -> Mid (b :: ps) (set_d_ctx (Some cc) i) (I' ++ rest) C' pk' -> pk' <> 0 ->
    zlen I' + (if k_aadlen (d_newkeys i) =? 0 then 1 else 0) <= zlen I ->
    polled (b :: ps) i I rest 0 ka s (take_packet (d_newkeys i) (rcv_upd (set_d_ctx (Some cc) i) inp' inc' pk' ka s))).
  { intros cc inp1 inc1 I1 C1 pk1 Hinp1 Hinc1 HM Hne Hlen.
    destruct (take_ok (set_d_ctx (Some cc) i) inp1 inc1 ka s I1 rest C1 pk1 (b :: ps) HM Hinp1 Hinc1 Hq Hpk Hty)
      as [[E Hrest]|(type & v & ps' & i' & inp' & inc' & I' & Eps & E & H1 & H2 & H3 & H4 & H5)]; cbn [d_newkeys set_d_ctx] in E; rewrite E.
    - left. exists (set_d_ctx (Some cc) i), inp1, inc1, I1, C1, pk1. unfold Rcv. rewrite (proj2 (Z.eqb_neq pk1 0) Hne). repeat (split; [done|]).
      split; [destruct (_ =? 0); lia|done].
    - right. exists type, v, ps', i', inp', inc', I'. repeat (split; [done|]). cbn [d_newkeys set_d_ctx Z.eqb] in *. destruct (_ =? 0); lia. }
  destruct Haad as [Ha|Ha]; rewrite Ha in *.
  - destruct (length_inside_ok i inp inc ka s I rest C b ps HR Hinp Hinc Ha) as [[E Hrest]|(cc & inp' & inc' & I' & C' & pk' & E & H1 & H2 & H3 & H4 & H5)];
      rewrite (SE_bind_ok _ _ _ _ _ E); cbn [negb]; [by apply Hstuck|]. by apply (Htake cc inp' inc' I' C').
  - destruct (length_apart_ok i inp inc ka s I rest C b ps HR Hinp Hinc Ha) as [[E Hrest]|(cc & inc' & pk' & E & H2 & H3 & H4)];
      rewrite (SE_bind_ok _ _ _ _ _ E); cbn [negb]; [by apply Hstuck|]. apply (Htake cc inp inc' I []); try done. cbn [Z.eqb]. lia.
Qed.

(** ** All packets *)

(** The types that ssh_packet_read_poll_seqnr hands to its caller. *)
Definition deliverable (type : Z) : Prop := SSH2_MSG_DEBUG < type < SSH2_MSG_LOCAL_MIN /\ ordinary type.
Definition for_caller (p : Z * list Z) : Prop := message_ok p /\ deliverable p.1.

(** What a caller does after bytes have arrived: it takes messages until there
    is none. *)
Fixpoint drain (fuel : nat) : SE ssh stop (list (Z * list Z)) :=
  match fuel with
  | O => throw Hang
  | S fuel' =>
      '(type, _) ← ssh_packet_read_poll_seqnr;
      if type =? SSH_MSG_NONE then mret []
      else v ← gets (fun s => contents (s_incoming s)); rest ← drain fuel'; mret ((type, v) :: rest)
  end.
(** Bytes arriving in pieces, with all messages taken after each of them. *)
Fixpoint receive (pieces : list (list Z)) : SE ssh stop (list (Z * list Z)) :=
  match pieces with
  | [] => mret []
  | c :: pieces' =>
      _ ← ssh_packet_process_incoming c (zlen c);
      n ← gets (fun s => sshbuf_len (s_input s));
      got ← drain (S (S (Z.to_nat n)));
      rest ← receive pieces';
      mret (got ++ rest)
  end.

Lemma for_caller_bodies ps : Forall for_caller ps -> bodies_ok (body_of <$> ps).
Proof.
  intros H. apply Forall_fmap. apply (Forall_impl _ _ _ H). intros [type v] [_ [Hd Ho]]. exists type, v. split; [done|]. split; [|done].
  cbn [fst] in Hd. unfold SSH2_MSG_DEBUG, SSH2_MSG_MIN in *. lia.
Qed.

Lemma read_poll_seqnr_ok i inp inc ka s I rest C pk ps :
  Rcv (body_of <$> ps) i (I ++ rest) C pk -> bufc inp I -> bufc inc C -> quiet s -> s_discard s = 0 -> 0 <= d_packets i < 2 ^ 32 - 1 -> Forall for_caller ps ->
  exists ka', polled (body_of <$> ps) i I rest pk ka' s (ssh_packet_read_poll_seqnr (rcv_upd i inp inc pk ka s)).
Proof.
  intros HR Hinp Hinc Hq Hdis Hpk Hty. unfold ssh_packet_read_poll_seqnr. rewrite gets_bind. cbn [poll_loop].
  destruct (read_poll2_ok i inp inc ka s I rest C pk _ HR Hinp Hinc Hq Hdis Hpk (for_caller_bodies _ Hty))
    as [(i' & inp' & inc' & I' & C' & pk' & E & H)|(type & v & ps' & i' & inp' & inc' & I' & Eps & E & H)]; rewrite (SE_bind_ok _ _ _ _ _ E).
  - exists ka. left. by exists i', inp', inc', I', C', pk'.
  - exists 0. right. exists type, v, ps', i', inp', inc', I'. split; [done|]. split; [|done].
    destruct ps as [|p ps]; [done|]. injection Eps as <- <- _. inversion Hty as [|? ? (_ & Hd & _) _]; subst.
    unfold SSH2_MSG_DEBUG, SSH2_MSG_LOCAL_MIN in Hd. unfold truthy. rewrite (proj2 (Z.eqb_neq p.1 0)) by lia. cbn [negb when]. rewrite modify_bind.
    unfold SSH2_MSG_IGNORE, SSH2_MSG_DEBUG, SSH2_MSG_DISCONNECT, SSH2_MSG_UNIMPLEMENTED. by rewrite !(proj2 (Z.eqb_neq p.1 _)) by lia.
Qed.

(** Some of the messages are taken, all of them if no bytes are missing. *)
Lemma drain_ok fuel : forall i inp inc ka s I rest C pk ps,
  Rcv (body_of <$> ps) i (I ++ rest) C pk -> bufc inp I -> bufc inc C -> quiet s -> s_discard s = 0 ->
  0 <= d_packets i -> d_packets i + zlen ps < 2 ^ 32 - 1 -> Forall for_caller ps ->
  zlen I + (if pk =? 0 then 0 else 1) < Z.of_nat fuel ->
  exists done left i' inp' inc' I' C' pk' ka', ps = done ++ left /\
    drain fuel (rcv_upd i inp inc pk ka s) = (inr done, rcv_upd i' inp' inc' pk' ka' s) /\ bufc inp' I' /\ bufc inc' C' /\
    Rcv (body_of <$> left) i' (I' ++ rest) C' pk' /\ 0 <= d_packets i' /\ d_packets i' + zlen left < 2 ^ 32 - 1 /\ zlen I' <= zlen I /\ (rest = [] -> left = []).
Proof.
  induction fuel as [|fuel IH]; intros i inp inc ka s I rest C pk ps HR Hinp Hinc Hq Hdis Hp0 Hp1 Hty Hf; zlen_facts; [destruct (pk =? 0); lia|].
  cbn [drain]. destruct (read_poll_seqnr_ok i inp inc ka s I rest C pk ps HR Hinp Hinc Hq Hdis ltac:(lia) Hty)
    as (ka' & [(i' & inp' & inc' & I' & C' & pk' & E & H1 & H2 & H3 & H4 & H5 & H6)|(type & v & ps' & i' & inp' & inc' & I' & Eps & E & H1 & H2 & H3 & H4 & H5)]);
    rewrite (SE_bind_ok _ _ _ _ _ E).
  - exists [], ps, i', inp', inc', I', C', pk', ka'. repeat (split; [done || lia|]). intros Hr. by apply (fmap_nil_inv body_of), H6.
  - destruct ps as [|p ps]; [done|]. injection Eps as <- <- <-. inversion Hty as [|? ? Hp Hty']; subst. rewrite zlen_cons in Hp1.
    pose proof Hp as (_ & Hd & _). unfold SSH2_MSG_DEBUG in Hd. unfold SSH_MSG_NONE. rewrite (proj2 (Z.eqb_neq p.1 0)) by lia.
    rewrite (gets_to _ p.2) by apply H2.
    destruct (IH i' inp' inc' ka' s I' rest p.2 0 ps) as (dn & left & i2 & inp2 & inc2 & I2 & C2 & pk2 & ka2 & -> & E2 & K1 & K2 & K3 & K4 & K5 & K6 & K7); try done; try lia.
    { cbn [Z.eqb]. destruct (pk =? 0); lia. }
    rewrite (SE_bind_ok _ _ _ _ _ E2). exists (p :: dn), left, i2, inp2, inc2, I2, C2, pk2, ka2. split; [done|]. split; [by destruct p|].
    repeat (split; [done|]). split; [destruct (pk =? 0); lia|done].
Qed.

Lemma receive_ok pieces : forall i inp inc ka s I C pk ps,
  Rcv (body_of <$> ps) i (I ++ concat pieces) C pk -> bufc inp I -> bufc inc C -> quiet s -> s_discard s = 0 ->
  0 <= d_packets i -> d_packets i + zlen ps < 2 ^ 32 - 1 -> Forall for_caller ps ->
  zlen I + zlen (concat pieces) <= SSHBUF_SIZE_MAX -> (concat pieces = [] -> ps = []) ->
  exists r, receive pieces (rcv_upd i inp inc pk ka s) = (inr ps, r).
Proof.
  induction pieces as [|c pieces IH]; intros i inp inc ka s I C pk ps HR Hinp Hinc Hq Hdis Hp0 Hp1 Hty Hroom Hlast.
  { rewrite Hlast by done. by eexists. }
  cbn [concat] in *. rewrite zlen_app in Hroom. zlen_facts. cbn [receive]. unfold ssh_packet_process_incoming at 1.
  destruct (buf_put_ok inp I c (zlen c) Hinp ltac:(lia) ltac:(lia)) as (inp1 & E1 & Hinp1). rewrite ztake_all in Hinp1 by lia.
  rewrite SE_bind_assoc, gets_bind. cbn [id]. change (s_discard (rcv_upd i inp inc pk ka s)) with (s_discard s). rewrite Hdis. change (truthy 0) with false. cbn iota.
  rewrite (SE_bind_ok _ _ _ _ _ (rcv_input _ _ _ _ _ _ _ _ _ E1)). rewrite (gets_to _ (zlen (I ++ c))) by (by apply (bufc_len inp1 (I ++ c))).
  rewrite app_assoc in HR. assert (Zi : zlen (I ++ c) = zlen I + zlen c) by apply zlen_app.
  destruct (drain_ok (S (S (Z.to_nat (zlen (I ++ c))))) i inp1 inc ka s (I ++ c) (concat pieces) C pk ps)
    as (dn & left & i' & inp' & inc' & I' & C' & pk' & ka' & -> & E & K1 & K2 & K3 & K4 & K5 & K6 & K7); try done.
  { destruct (pk =? 0); lia. }
  rewrite (SE_bind_ok _ _ _ _ _ E). apply Forall_app in Hty as [_ Hty].
  destruct (IH i' inp' inc' ka' s I' C' pk' left) as [r Er]; try done; [lia|]. rewrite (SE_bind_ok _ _ _ _ _ Er). by eexists.
Qed.

(** ** Both ends *)

(** Ends between two packets, with room for [n] more under the present keys. *)
Definition idle_sender (s : ssh) (n : Z) : Prop :=
  quiet s /\ s_extra_pad s = 0 /\ bufc (s_output s) [] /\ (exists c, bufc (s_outgoing s) c) /\
  0 <= d_packets (s_out s) /\ d_packets (s_out s) + n < 2 ^ 32 - 1.
Definition idle_receiver (r : ssh) (n : Z) : Prop :=
  quiet r /\ s_discard r = 0 /\ s_packlen r = 0 /\ bufc (s_input r) [] /\ (exists c, bufc (s_incoming r) c) /\
  0 <= d_packets (s_in r) /\ d_packets (s_in r) + n < 2 ^ 32 - 1.
(** What is sent by [s] arrives at [r] in pieces of any size. *)
Definition delivers (s r : ssh) (ps : list (Z * list Z)) : Prop :=
  exists s', send_messages ps s = (inr tt, s') /\
    forall pieces, concat pieces = contents (s_output s') -> exists r', receive pieces r = (inr ps, r').

Lemma Stream_nil ps i : Stream ps i [] -> ps = [].
Proof.
  destruct ps as [|b ps]; [done|]. intros (w & W' & E & padding & crypt & tag & cc & Hp & Hb & _ & _ & -> & Zc & _ & _ & _ & Ha & _).
  apply (f_equal zlen) in E. rewrite !zlen_app in E. change (zlen (@nil Z)) with 0 in E. pose proof (zlen_frame b padding). zlen_facts. lia.
Qed.
Lemma paired_delivers `{!RandOk} s r ps :
  paired (s_out s) (s_in r) -> idle_sender s (zlen ps) -> idle_receiver r (zlen ps) -> Forall for_caller ps ->
  wire_room ps <= SSHBUF_SIZE_MAX -> delivers s r ps.
Proof.
  intros Hpair (Hqs & Hpad & Hout & (c & Hog) & Hs0 & Hs1) (Hqr & Hdis & Hpk & Hinp & (ci & Hinc) & Hr0 & Hr1) Hps Hroom.
  rewrite (snd_upd_id s), Hpad. assert (Hm : Forall message_ok ps) by (apply (Forall_impl _ _ _ Hps); by intros ? []).
  destruct (send_messages_ok ps (s_out s) (s_in r) (s_output s) (s_outgoing s) (s_tick s) s [] c Hm Hqs Hpair Hout Hog Hs0 ltac:(lia) Hroom)
    as (o' & out' & og' & t' & W & E & Hout' & _ & HS). exists (snd_upd o' out' og' 0 t' s). split; [done|].
  cbn [s_output snd_upd]. destruct Hout' as (Hw & EC & Emx). rewrite EC. cbn [app]. intros pieces EW. rewrite (rcv_upd_id r), Hpk.
  apply (receive_ok pieces _ _ _ _ _ [] ci); try done.
  - unfold Rcv. cbn [Z.eqb app]. by rewrite EW.
  - rewrite EW. pose proof (bufc_max out' ([] ++ W) (conj Hw (conj EC Emx))). cbn [app] in *. change (zlen (@nil Z)) with 0. lia.
  - rewrite EW. intros ->. by apply (fmap_nil_inv body_of), (Stream_nil _ (s_in r)).
Qed.

(** C10: Messages sent through the packet layer arrive at the other end, in
    order and with the bytes they were sent with, if the two ends of the
    direction are in step (keys that agree, the same sequence number, cipher
    contexts that belong together): for every mode of the keys (plain, MAC over
    the text, MAC over the cipher text, authenticated encryption), and however
    the bytes are cut into pieces on their way.  No call fails, and nothing else
    is handed to the receiver's caller.  This is for ends that no key exchange
    interrupts ([quiet]: none is under way, and none becomes due because the user
    is not authenticated yet, there is no struct kex, or the peer cannot do it),
    for keys that do not compress, for the messages that a caller gets as they
    are ([for_caller]: types 5 to 191 but not KEXINIT, NEWKEYS and
    USERAUTH_SUCCESS, of less than 2^18 - 300 bytes), with nothing in the buffers
    before, and as long as the packets fit into the output buffer and their count
    under these keys stays below 2^32 - 1. *)
Theorem packets_delivered `{!RandOk} s r ps :
  paired (s_out s) (s_in r) -> idle_sender s (zlen ps) -> idle_receiver r (zlen ps) -> Forall for_caller ps ->
  wire_room ps <= SSHBUF_SIZE_MAX ->
  exists s', send_messages ps s = (inr tt, s') /\
    forall pieces, concat pieces = contents (s_output s') -> exists r', receive pieces r = (inr ps, r').
Proof. apply paired_delivers. Qed.
End Recv.

(** ** A concrete connection *)

Definition demo_umac : Umac := {|
  umac_ctx := list Z * list Z;
  umac_new key := Some (key, []);
  umac_update c m := (c.1, c.2 ++ m);
  umac_final c nonce := (zfill 8, (c.1, []));
  umac128_new key := Some (key, []);
  umac128_update c m := (c.1, c.2 ++ m);
  umac128_final c nonce := (zfill 16, (c.1, [])) |}.
Definition demo_umac_ok : @UmacOk demo_umac.
Proof.
  refine {| umac_tag := fun _ _ _ => zfill 8; umac128_tag := fun _ _ _ => zfill 16;
    umac_holds := fun key (c : @umac_ctx demo_umac) l => c = (key, l); umac128_holds := fun key (c : @umac_ctx demo_umac) l => c = (key, l) |}.
  1,4: intros key; by eexists.
  1,3: by intros key c l m ->.
  1,2: intros key c l nonce ->; by eexists.
  all: intros; first [reflexivity|apply Forall_zfill].
Defined.
Definition demo_zlib : Zlib := {|
  z_stream := unit;
  z_zero := tt;
  deflateInit _ _ := (0, tt);
  deflateEnd _ := tt;
  deflate _ l _ := (0, l, [], tt);
  inflateInit _ := (0, tt);
  inflateEnd _ := tt;
  inflate _ l _ := (0, l, [], tt) |}.
Definition demo_env : PktEnv := {|
  arc4random_buf _ n := zfill n;
  sys_write _ l := Wrote (zlen l);
  sys_read _ := Read [];
  sys_select _ _ := Ready;
  max_rounds := 10%nat |}.
Lemma demo_env_rand : @RandOk demo_env.
Proof. intros t n Hn. split; [by apply zlen_zfill|apply Forall_zfill]. Qed.

(** A connection before any key, with nothing to exchange. *)
Section Demo.
#[local] Existing Instances demo_heap demo_evp_md demo_umac demo_evp demo_zlib demo_env demo_heap_total demo_evp_md_ok demo_umac_ok demo_env_rand.

Definition demo_conn : ssh :=
  set_s_rekeying false (mk_ssh (new_dir (mk_cc true false None zero_cp none_cipher)) (new_dir (mk_cc true true None zero_cp none_cipher))
    demo_buf demo_buf demo_buf demo_buf None [] None true 0 0 0 false false false 0 0 0 false 0 0 (-1) 0 0 0 []).
Lemma demo_conn_new : set_s_rekeying false <$> ssh_packet_set_connection = Some demo_conn.
Proof. reflexivity. Qed.
Lemma demo_buf_empty : bufc demo_buf [].
Proof. split; [apply demo_buf_rw|done]. Qed.
Lemma demo_conn_paired : paired (s_out demo_conn) (s_in demo_conn).
Proof.
  split; [by split|]. split; [done|]. split; [done|]. eexists none_paired, _, _. split; [reflexivity|]. split; [reflexivity|]. split; [done|]. apply none_pair.
Qed.
Lemma demo_conn_quiet : quiet demo_conn.
Proof. split; [done|]. split; [done|]. by left. Qed.
Lemma demo_for_caller type v : deliverable type -> Forall is_u8 v -> zlen v <= 1000 -> for_caller (type, v).
Proof.
  intros Hd Hv Hl. pose proof Hd as [Ht Ho]. unfold SSH2_MSG_DEBUG, SSH2_MSG_LOCAL_MIN in Ht. split; [|done]. split; [unfold is_u8; cbn; lia|]. split; [done|]. split; [done|]. cbn [snd]. lia.
Qed.

Lemma packets_delivered_witness :
  exists s', send_messages [(5, [1; 2; 3]); (90, [])] demo_conn = (inr tt, s') /\
    forall pieces, concat pieces = contents (s_output s') -> exists r', receive pieces demo_conn = (inr [(5, [1; 2; 3]); (90, [])], r').
Proof.
  apply (packets_delivered demo_conn demo_conn [(5, [1; 2; 3]); (90, [])]).
  - exact demo_conn_paired.
  - split; [exact demo_conn_quiet|]. split; [done|]. split; [apply demo_buf_empty|]. split; [exists []; apply demo_buf_empty|by vm_compute].
  - split; [exact demo_conn_quiet|]. do 2 (split; [done|]). split; [apply demo_buf_empty|]. split; [exists []; apply demo_buf_empty|by vm_compute].
  - repeat apply Forall_cons_2; try apply Forall_nil_2; apply demo_for_caller; try done; repeat apply Forall_cons_2; try apply Forall_nil_2; done.
  - by vm_compute.
Defined.
End Demo.
