(* ===== verification/PacketKeys.v ===== *)
(** * New keys taken into use

    ssh_set_newkeys at the two ends of a direction: with the same keys in both
    struct kex the ends are [paired] afterwards, whatever cipher and MAC of the
    tables the keys are for.  With PacketRecv this is the delivery of messages
    under the keys. *)

From stdpp Require Import list.
From S2P Require Import Prelude Sshbuf Poly1305 ChachaPoly Mac Cipher PacketState Packet PacketSend PacketRecv.

Section Keys.
Context {al : Allocator} {altot : @AllocTotal al} {md : EvpMd} {mdok : @EvpMdOk md} {um : Umac} {umok : @UmacOk um}
  {ev : EvpCipher} {evok : @EvpOk ev} {zl : Zlib} {env : PktEnv}.

(** Keys as kex_choose_conf and kex_derive_keys leave them: sizes of the table,
    enough key material, a MAC that starts if the cipher needs one, and no
    compression that would begin with the keys. *)
Record keys_ok (after_auth : bool) (nk : newkeys) : Prop := {
  ko_cipher : e_cipher (nk_enc nk) ∈ ciphers;
  ko_sizes : e_block_size (nk_enc nk) = cipher_blocksize (e_cipher (nk_enc nk)) /\
    e_key_len (nk_enc nk) = cipher_keylen (e_cipher (nk_enc nk)) /\ e_iv_len (nk_enc nk) = cipher_ivlen (e_cipher (nk_enc nk));
  ko_key : exists key iv, e_key (nk_enc nk) = Some key /\ e_iv (nk_enc nk) = Some iv /\
    cipher_keylen (e_cipher (nk_enc nk)) <= zlen key /\ cipher_ivlen (e_cipher (nk_enc nk)) <= zlen iv;
  ko_mac : cipher_authlen (e_cipher (nk_enc nk)) = 0 ->
    exists alg key m', mac_init (nk_mac nk) = (0, m') /\ mac_ready alg key m';
  ko_comp : c_enabled (nk_comp nk) = false /\ c_type (nk_comp nk) <> COMP_ZLIB /\ (c_type (nk_comp nk) = COMP_DELAYED -> after_auth = false)
}.

(** The MAC that ssh_set_newkeys leaves, and the limit on blocks. *)
Definition mac_started (nk : newkeys) : sshmac :=
  set_mac_enabled true (if cipher_authlen (e_cipher (nk_enc nk)) =? 0 then snd (mac_init (nk_mac nk)) else nk_mac nk).
Definition block_limit (s : ssh) (bs : Z) : Z :=
  let max := if 16 <=? bs then u64 (Z.shiftl 1 (bs * 2)) else Z.shiftl 1 30 / bs in
  if truthy (s_rekey_limit s) then Z.min max (s_rekey_limit s / bs) else max.
(** A direction with new keys: the counters start again, all but the sequence
    number and the number of bytes. *)
Definition fresh_dir (nk : newkeys) (cc : sshcipher_ctx) (max : Z) (d : dir) : dir :=
  mk_dir (Some (set_nk_mac (mac_started nk) nk)) (Some cc) (d_seqnr d) 0 0 (d_bytes d) max (d_z d) (d_z_started d) (d_z_failures d).

Lemma set_newkeys_ok m s k nk cc :
  s_kex s = Some k -> kex_newkeys m k = Some nk -> keys_ok (s_after_auth s) nk ->
  cipher_init (e_cipher (nk_enc nk)) (default [] (e_key (nk_enc nk))) (e_key_len (nk_enc nk)) (e_iv (nk_enc nk)) (e_iv_len (nk_enc nk))
    (match m with MODE_OUT => true | MODE_IN => false end) = inr cc ->
  ssh_set_newkeys m s = (inr tt, set_dir m (fresh_dir nk cc (block_limit s (e_block_size (nk_enc nk))) (get_dir m s))
    (set_s_kex (Some (set_kex_newkeys m None k)) s)).
Proof.
  intros Hk Hnk [Hci Hsz Hkey Hmac [Hce [Hcz Hcd]]] Hinit.
  assert (Hr : exists mac, (if cipher_authlen (e_cipher (nk_enc nk)) =? 0 then mac_init (nk_mac nk) else (0, nk_mac nk)) = (0, mac) /\
    mac_started nk = set_mac_enabled true mac).
  { unfold mac_started. destruct (Z.eqb_spec (cipher_authlen (e_cipher (nk_enc nk))) 0) as [E|E]; [|eauto].
    destruct (Hmac E) as (alg & key & m' & Em & _). rewrite Em. eauto. }
  destruct Hr as (mac & Hr & Hms).
  assert (Hcomp : ((c_type (nk_comp nk) =? COMP_ZLIB) || ((c_type (nk_comp nk) =? COMP_DELAYED) && s_after_auth s)) && negb (c_enabled (nk_comp nk)) = false).
  { rewrite (proj2 (Z.eqb_neq _ _) Hcz). cbn [orb]. destruct (Z.eqb_spec (c_type (nk_comp nk)) COMP_DELAYED) as [E|E]; [|done]. by rewrite (Hcd E). }
  unfold ssh_set_newkeys. rewrite gets_bind. cbn [id].
  rewrite (SE_bind_ok _ _ _ tt (if bool_decide (d_newkeys (get_dir m s) <> None)
    then set_dir m (set_d_ctx None (set_d_newkeys None (get_dir m s))) s else s)) by (by destruct (bool_decide _)).
  unfold on_dir. rewrite modify_bind, Hk, Hnk, !modify_bind, Hr, modify_bind. unfold check. cbn [Z.eqb]. rewrite SE_bind_ret_l, modify_bind, Hinit.
  rewrite modify_bind, Hcomp. cbn [when]. rewrite SE_bind_ret_l. unfold modify. f_equal. unfold fresh_dir. rewrite Hms.
  destruct (bool_decide _), m; by destruct s as [[] []].
Qed.

(** The sender's and the receiver's side of a direction, with the same keys. *)
Lemma newkeys_paired s r ks kr nk :
  s_kex s = Some ks -> s_kex r = Some kr -> kex_newkeys MODE_OUT ks = Some nk -> kex_newkeys MODE_IN kr = Some nk ->
  keys_ok (s_after_auth s) nk -> keys_ok (s_after_auth r) nk -> d_seqnr (s_in r) = d_seqnr (s_out s) -> 0 <= d_seqnr (s_out s) < 2 ^ 32 ->
  exists o i,
    ssh_set_newkeys MODE_OUT s = (inr tt, set_dir MODE_OUT o (set_s_kex (Some (set_kex_newkeys MODE_OUT None ks)) s)) /\
    ssh_set_newkeys MODE_IN r = (inr tt, set_dir MODE_IN i (set_s_kex (Some (set_kex_newkeys MODE_IN None kr)) r)) /\
    paired o i /\ d_packets o = 0 /\ d_packets i = 0.
Proof.
  intros Hks Hkr Hns Hnr Hos Hor Hseq Hrange. pose proof Hos as [Hci (Ebs & Ekl & Eil) (key & iv & Ek & Ei & Zk & Zi) Hmac [Hce _]].
  destruct (cipher_init_R _ key iv Hci Zk Zi) as (tx & rx & Et & Er & HR & _).
  assert (Hdef : default [] (e_key (nk_enc nk)) = key) by (by rewrite Ek).
  eexists _, _. split; [apply (set_newkeys_ok MODE_OUT s ks nk tx); try done; by rewrite Hdef, Ekl, Eil, Ei|].
  split; [apply (set_newkeys_ok MODE_IN r kr nk rx); try done; by rewrite Hdef, Ekl, Eil, Ei|]. split; [|done].
  assert (Ea : k_authlen (Some (set_nk_mac (mac_started nk) nk)) = cipher_authlen (e_cipher (nk_enc nk))) by done.
  split; [|split; [done|split; [done|]]].
  - split; try done. cbn [d_newkeys fresh_dir]. unfold k_mac_enabled, k_mac. rewrite Ea. unfold truthy.
    destruct (Z.eqb_spec (cipher_authlen (e_cipher (nk_enc nk))) 0) as [E|E]; cbn [negb]; [|done]. intros _.
    destruct (Hmac E) as (alg & mkey & m' & Em & Hm). unfold mac_started. rewrite E, Em. cbn [Z.eqb snd].
    assert (Hm' : mac_ready alg mkey (set_mac_enabled true m')) by (destruct Hm; by split). eexists alg, mkey, _, _. done.
  - exists (crypt_R (e_cipher (nk_enc nk))), tx, rx. cbn [d_newkeys fresh_dir d_ctx]. repeat (split; [done|]). rewrite Ea.
    unfold k_block_size. cbn [nk_enc set_nk_mac]. rewrite Ebs. by apply crypt_R_pair.
Qed.
End Keys.
