(* ===== verification/PacketRekey.v ===== *)
(** * Packets while keys are being exchanged, and packets that are refused

    From its own KEXINIT message to its NEWKEYS message a side sends nothing
    but messages of the transport; the others wait and are sent, in order, under
    the new keys.  A packet whose MAC over the cipher text is wrong is refused
    before anything of it is decrypted.  The test for the limit on blocks counts
    bytes. *)

From stdpp Require Import list.
From S2P Require Import Prelude Sshbuf Poly1305 ChachaPoly Mac Cipher PacketState Packet PacketSend PacketRecv PacketKeys.

Section Rekey.
Context {al : Allocator} {altot : @AllocTotal al} {md : EvpMd} {mdok : @EvpMdOk md} {um : Umac} {umok : @UmacOk um}
  {ev : EvpCipher} {evok : @EvpOk ev} {zl : Zlib} {env : PktEnv}.

(** A KEXINIT message starts no other key exchange: the recursion of
    ssh_packet_send2 through kex_start_rekex has one level. *)
Lemma send2_kexinit r r' s : u_char_at (sshbuf_ptr (s_outgoing s)) 5 = SSH2_MSG_KEXINIT -> send2_body r s = send2_body r' s.
Proof.
  intros Ht. unfold send2_body. rewrite !gets_bind. cbn [id]. destruct (_ <? 6); [done|]. rewrite Ht. cbv zeta.
  change (ssh_packet_type_is_kex SSH2_MSG_KEXINIT) with true. cbn iota. rewrite !SE_bind_ret_l. cbn [negb]. rewrite !andb_false_r. done.
Qed.

(** While [s_rekeying] is set no further exchange is due. *)
Lemma rekeying_need s n : s_rekeying s = true -> ssh_packet_need_rekeying s n = Some false.
Proof.
  intros Hr. unfold ssh_packet_need_rekeying, ssh_packet_is_rekeying. rewrite Hr. destruct (negb (s_after_auth s)); [done|]. cbn [orb]. by rewrite orb_true_r.
Qed.

(** A buffer in which a message waits: five bytes for its header, its type, its
    data. *)
Definition waits (p : Z * list Z) (q : Z * sshbuf) : Prop := q.1 = p.1 /\ bufc q.2 ([0; 0; 0; 0; 0] ++ body_of p).
Definition for_connection (p : Z * list Z) : Prop := message_ok p /\ ssh_packet_type_is_kex p.1 = false.

Lemma started_message og c p : is_u8 p.1 -> zlen p.2 <= 2 ^ 18 - 301 -> bufc og c -> exists og1 og2,
  sshbuf_put [0; 0; 0; 0; 0; u8 p.1] 6 (sshbuf_reset og) = (inr tt, og1) /\ sshbuf_put p.2 (zlen p.2) og1 = (inr tt, og2) /\
  bufc og2 ([0; 0; 0; 0; 0] ++ body_of p).
Proof.
  intros Hu Hz Hog. destruct p as [type v]. cbn [fst snd] in *. zlen_facts. pose proof (buf_reset_ok og c Hog) as Hog0.
  destruct (buf_put_ok (sshbuf_reset og) [] [0; 0; 0; 0; 0; u8 type] 6 Hog0) as (og1 & E1 & Hog1); [by change (0 <= 6 <= 6)|done|].
  rewrite u8_id in Hog1 by done. change ([] ++ ztake 6 _) with ([0; 0; 0; 0; 0] ++ [type]) in Hog1.
  destruct (buf_put_ok og1 _ v (zlen v) Hog1 ltac:(lia)) as (og2 & E2 & Hog2); [change (6 + zlen v <= 0x8000000); lia|].
  rewrite ztake_all in Hog2 by lia. exists og1, og2. split; [done|]. split; [done|]. by rewrite <- app_assoc in Hog2.
Qed.

Lemma send_waits o out og e t s c p : s_rekeying s = true -> s_mux s = false -> for_connection p -> bufc og c ->
  exists og1 og', send_message p (snd_upd o out og e t s) = (inr tt, snd_upd o out og' e t (set_s_queue (s_queue s ++ [(p.1, og1)]) s)) /\
    waits p (p.1, og1) /\ bufc og' [].
Proof.
  intros Hr Hm [Hp Hk] Hog. destruct (started_message og c p ltac:(apply Hp) ltac:(apply Hp) Hog) as (og1 & og2 & E1 & E2 & Hog2). destruct buf_new_ok as (nb & En & Hnb).
  exists og2, nb. split; [|done]. unfold send_message, sshpkt_start, sshpkt_put, sshpkt_send.
  rewrite SE_bind_assoc. rewrite (SE_bind_ok _ _ _ _ _ (snd_outgoing reset_buf _ _ _ _ _ _ _ _ eq_refl)).
  rewrite (SE_bind_ok _ _ _ _ _ (snd_outgoing _ _ _ _ _ _ _ _ _ E1)), (SE_bind_ok _ _ _ _ _ (snd_outgoing _ _ _ _ _ _ _ _ _ E2)).
  unfold send_body. rewrite (gets_to _ false) by done. unfold send2_body. rewrite gets_bind. cbn [id]. change (s_outgoing (snd_upd o out og2 e t s)) with og2.
  assert (Zb : zlen ([0; 0; 0; 0; 0] ++ body_of p) = 6 + zlen p.2).
  { unfold body_of. rewrite zlen_app, (zlen_cons p.1). change (zlen [0; 0; 0; 0; 0]) with 5. lia. }
  pose proof (zlen_nonneg p.2). rewrite (bufc_len og2 _ Hog2), (proj2 (Z.ltb_ge _ _)) by lia. rewrite (bufc_char og2 _ 5 Hog2) by lia. rewrite (u_char_at_app [0; 0; 0; 0; 0]) by done.
  assert (Et : u_char_at (body_of p) 0 = p.1) by (apply u_char_at_id; [done|apply Hp]). rewrite Et. cbv zeta. rewrite Hk. cbn iota.
  change (s_rekeying (snd_upd o out og2 e t s)) with (s_rekeying s). rewrite Hr.
  rewrite (SE_bind_ok _ _ _ false (snd_upd o out og2 e t s)); [|unfold need_rekeying; by rewrite (gets_to _ (Some false)) by (by apply rekeying_need)].
  cbn [orb andb negb]. destruct (alloc_total 32) as [pp ->]; [unfold SSHBUF_SIZE_MAX; lia|]. rewrite modify_bind, En. done.
Qed.

(** Messages wait in the order they were sent, and the output stays as it is. *)
Lemma send_all_wait ps : forall o out og e t s c, s_rekeying s = true -> s_mux s = false -> Forall for_connection ps -> bufc og c ->
  exists og' qs, send_messages ps (snd_upd o out og e t s) = (inr tt, snd_upd o out og' e t (set_s_queue (s_queue s ++ qs) s)) /\ Forall2 waits ps qs /\ exists c', bufc og' c'.
Proof.
  induction ps as [|p ps IH]; intros o out og e t s c Hr Hm Hps Hog; cbn [send_messages].
  { exists og, []. split; [|split; [constructor|by exists c]]. rewrite app_nil_r. by destruct s. }
  apply Forall_cons_1 in Hps as [Hp Hps]. destruct (send_waits o out og e t s c p Hr Hm Hp Hog) as (og1 & og' & E & Hw & Hog').
  rewrite (SE_bind_ok _ _ _ _ _ E). destruct (IH o out og' e t (set_s_queue (s_queue s ++ [(p.1, og1)]) s) [] Hr Hm Hps Hog') as (og2 & qs & E2 & Hqs & Hog2).
  exists og2, ((p.1, og1) :: qs). split; [|split; [by constructor|done]]. rewrite E2. cbn [set_s_queue s_queue]. by rewrite <- app_assoc.
Qed.

(** No exchange of keys becomes due: the user is not authenticated yet, or the
    exchange that is under way is not done. *)
Definition unhurried (s : ssh) : Prop :=
  s_after_auth s = false \/ (exists k, s_kex s = Some k /\ k_done k = false) \/ s_kex s = None \/ truthy (Z.land (s_compat s) SSH_BUG_NOREKEY) = true.
Lemma unhurried_need s n : unhurried s -> ssh_packet_need_rekeying s n = Some false.
Proof.
  unfold ssh_packet_need_rekeying, ssh_packet_is_rekeying. intros [->|[(k & -> & ->)|[->|Hb]]]; [done|by destruct (negb _); rewrite ?orb_true_r|by destruct (negb _)|].
  rewrite Hb. destruct (negb (s_after_auth s)); [done|]. by destruct (_ || _).
Qed.
(** The queue sent under keys that a receiver shares. *)
Lemma send_queue_ok `{!RandOk} rekex ps : forall qs o i out og t s W,
  Forall2 waits ps qs -> Forall for_connection ps -> unhurried s -> paired o i -> bufc out W -> 0 <= d_packets o -> d_packets o + zlen ps < 2 ^ 32 ->
  zlen W + wire_room ps <= SSHBUF_SIZE_MAX ->
  exists o' out' og' t' W' q', send_queue rekex qs (snd_upd o out og 0 t s) = (inr tt, snd_upd o' out' og' 0 t' (set_s_queue q' s)) /\
    q' = (match qs with [] => s_queue s | _ => [] end) /\ bufc out' (W ++ W') /\ Stream (body_of <$> ps) i W'.
Proof.
  induction ps as [|p ps IH]; intros qs o i out og t s W Hqs Hps Hq Hpair Hout Hp0 Hp1 Hroom; inversion Hqs as [|? [ty pl] ? qs' [_ Hpl] Hqs']; subst; cbn [send_queue].
  { exists o, out, og, t, [], (s_queue s). rewrite app_nil_r. split; [by destruct s|]. split; [done|]. split; [done|]. split; [done|by apply (paired_Waits o)]. }
  apply Forall_cons_1 in Hps as [[Hp Hk] Hps]. cbn [snd] in Hpl. pose proof (wire_room_nonneg ps) as Hw. rewrite zlen_cons in Hp1.
  change (wire_room (p :: ps)) with (zlen (body_of p) + 400 + wire_room ps) in Hroom. pose proof Hp as (Hu & Hty & Hf & Hz).
  assert (Zb : zlen (body_of p) = 1 + zlen p.2) by apply zlen_cons. pose proof (zlen_nonneg p.2). zlen_facts.
  unfold need_rekeying at 1. rewrite SE_bind_assoc. rewrite (gets_to _ (Some false)) by (by apply unhurried_need). rewrite SE_bind_ret_l, modify_bind.
  change (set_s_queue qs' (set_s_outgoing pl (snd_upd o out og 0 t s))) with (snd_upd o out pl 0 t (set_s_queue qs' s)).
  pose proof Hpair as (_ & _ & _ & R & cct & ccr & _ & _ & _ & HC).
  destruct (pair_sizes (bs := k_block_size (d_newkeys o)) (authlen := k_authlen (d_newkeys o)) (R := R)) as [Hbs _]. pose proof (aadlen_cases (d_newkeys o)) as Haad.
  destruct (pad_length_plain (5 + zlen (body_of p) - k_aadlen (d_newkeys o)) _ ltac:(lia) Hbs) as [pl_ Hpad].
  destruct (wrapped_ok o i out pl 0 t (set_s_queue qs' s) W [0; 0; 0; 0; 0] (body_of p) pl_) as (o1 & out1 & og1 & t1 & w & E1 & Hout1 & Hog1 & Zw & Hr & Epk); try done; try lia.
  { by constructor. } { rewrite (u_char_at_id _ _ p.1) by done. done. }
  rewrite (SE_bind_ok _ _ _ _ _ E1).
  assert (HIH : forall i', paired o1 i' -> _) by (intros i' Hi'; apply (IH qs' o1 i' out1 og1 t1 (set_s_queue qs' s) (W ++ w) Hqs' Hps Hq Hi' Hout1 ltac:(lia) ltac:(lia)); rewrite zlen_app; lia).
  destruct (Reads_inhabited _ _ _ _ Hr) as [i1 Hi1]. destruct (HIH i1 Hi1) as (o' & out' & og' & t' & W' & q' & E & Eq & Hout' & _).
  exists o', out', og', t', (w ++ W'), []. assert (Eq' : q' = []) by (rewrite Eq; by destruct qs'). rewrite Eq' in E. split; [exact E|]. split; [done|]. split; [by rewrite app_assoc|].
  cbn [fmap list_fmap Stream]. exists w, W'. split; [done|]. revert Hr. apply Reads_mono. intros i' Hi'.
  destruct (HIH i' Hi') as (o2 & out2 & og2 & t2 & W2 & q2 & E2 & Eq2 & Hout2 & HS). rewrite E in E2. injection E2 as <- <- <- <- _.
  destruct Hout' as (_ & C1 & _), Hout2 as (_ & C2 & _). rewrite C1 in C2. apply app_inv_head in C2. by subst W2.
Qed.

(** The NEWKEYS message: sent under the old keys, it takes the new ones into
    use, ends the exchange and sends what waits. *)
Lemma newkeys_sent `{!RandOk} o i out og t s c W k nk cc : s_mux s = false -> paired o i -> bufc out W -> bufc og c ->
  0 <= d_packets o < 2 ^ 32 - 1 -> zlen W + 401 <= SSHBUF_SIZE_MAX ->
  s_kex s = Some k -> kex_newkeys MODE_OUT k = Some nk -> keys_ok (s_after_auth s) nk ->
  cipher_init (e_cipher (nk_enc nk)) (default [] (e_key (nk_enc nk))) (e_key_len (nk_enc nk)) (e_iv (nk_enc nk)) (e_iv_len (nk_enc nk)) true = inr cc ->
  exists o1 out' og' t' w max, let s1 := set_s_rekey_time (s_now s) (set_s_rekeying false (set_s_kex (Some (set_kex_newkeys MODE_OUT None k)) s)) in
    (_ ← sshpkt_start SSH2_MSG_NEWKEYS; sshpkt_send) (snd_upd o out og 0 t s) =
      send_queue kex_start_rekex (s_queue s) (snd_upd (fresh_dir nk cc max o1) out' og' 0 t' s1) /\
    bufc out' (W ++ w) /\ bufc og' [] /\ zlen w <= 401 /\ Reads i w [SSH2_MSG_NEWKEYS] (paired o1).
Proof.
  intros Hm Hpair Hout Hog Hpk Hroom Hk Hnk Hok Hcc. pose proof (buf_reset_ok og c Hog) as Hog0.
  destruct (buf_put_ok (sshbuf_reset og) [] [0; 0; 0; 0; 0; SSH2_MSG_NEWKEYS] 6 Hog0) as (og1 & E1 & Hog1); [by change (0 <= 6 <= 6)|done|].
  change ([] ++ ztake 6 _) with ([0; 0; 0; 0; 0] ++ [SSH2_MSG_NEWKEYS]) in Hog1.
  pose proof Hpair as (_ & _ & _ & R & cct & ccr & _ & _ & _ & HC).
  destruct (pair_sizes (bs := k_block_size (d_newkeys o)) (authlen := k_authlen (d_newkeys o)) (R := R)) as [Hbs _]. pose proof (aadlen_cases (d_newkeys o)) as Haad.
  destruct (pad_length_plain (5 + 1 - k_aadlen (d_newkeys o)) _ ltac:(lia) Hbs) as [pl Hpad].
  destruct (wrapped_sent o i out og1 0 t s W [0; 0; 0; 0; 0] [SSH2_MSG_NEWKEYS] pl) as (o1 & out' & og' & t' & w & E & Hout' & Hog' & Zw & Hr & _); try done.
  { by constructor. } { change (zlen [SSH2_MSG_NEWKEYS]) with 1. lia. }
  exists o1, out', og', t', w, (block_limit (snd_upd o1 out' og' 0 t' s) (e_block_size (nk_enc nk))). cbv zeta. split; [|done].
  unfold sshpkt_start, sshpkt_send. rewrite SE_bind_assoc. rewrite (SE_bind_ok _ _ _ _ _ (snd_outgoing reset_buf _ _ _ _ _ _ _ _ eq_refl)).
  change (u8 SSH2_MSG_NEWKEYS) with SSH2_MSG_NEWKEYS. rewrite (SE_bind_ok _ _ _ _ _ (snd_outgoing _ _ _ _ _ _ _ _ _ E1)).
  unfold send_body. rewrite (gets_to _ false) by done. unfold send2_body. rewrite gets_bind. cbn [id]. change (s_outgoing (snd_upd o out og1 0 t s)) with og1.
  rewrite (bufc_len og1 _ Hog1), (bufc_char og1 _ 5 Hog1) by done. change (u_char_at ([0; 0; 0; 0; 0] ++ [SSH2_MSG_NEWKEYS]) 5) with SSH2_MSG_NEWKEYS.
  change (zlen ([0; 0; 0; 0; 0] ++ [SSH2_MSG_NEWKEYS]) <? 6) with false. cbv zeta. change (ssh_packet_type_is_kex SSH2_MSG_NEWKEYS) with true. cbn iota.
  rewrite SE_bind_ret_l. cbn [negb]. rewrite andb_false_r. change (SSH2_MSG_NEWKEYS =? SSH2_MSG_KEXINIT) with false. cbn [when]. rewrite SE_bind_ret_l.
  pose proof (set_newkeys_ok MODE_OUT (snd_upd o1 out' og' 0 t' s) k nk cc Hk Hnk Hok Hcc) as En.
  change (u_char_at [SSH2_MSG_NEWKEYS] 0) with SSH2_MSG_NEWKEYS in E. unfold after_sent in E. rewrite Z.eqb_refl, En in E.
  rewrite (SE_bind_ok _ _ _ _ _ E), Z.eqb_refl. cbn [when]. rewrite modify_bind. by rewrite (gets_to _ (s_queue s)).
Qed.


(** The length of the packet at the front of the input is [n]: an earlier call
    has read it, or it is read now, from the first four bytes. *)
Definition packet_length (s : ssh) (n : Z) : Prop :=
  (s_packlen s = n /\ n <> 0) \/ (s_packlen s = 0 /\ n = PEEK_U32 (sshbuf_ptr (s_input s)) /\ 5 <= n).
(** The state when the length was read: a call that reads it empties the packet
    read before. *)
Definition length_read (n : Z) (s : ssh) : ssh :=
  rcv_upd (s_in s) (s_input s) (if s_packlen s =? 0 then sshbuf_reset (s_incoming s) else s_incoming s) n (s_keep_alive s) s.
Lemma etm_length s nk cc n :
  d_newkeys (s_in s) = Some nk -> k_etm (Some nk) = true -> d_ctx (s_in s) = Some cc -> flag (cc_cipher cc) CFLAG_CHACHAPOLY = false ->
  packet_length s n -> n <= PACKET_MAX_SIZE -> 4 <= sshbuf_len (s_input s) < 2 ^ 32 -> read_length 4 (k_block_size (Some nk)) s = (inr true, length_read n s).
Proof.
  intros Hnk Het Hcc Hf Hn Hmax Hlen. unfold read_length, length_read. rewrite gets_bind. cbn [id]. destruct Hn as [[<- Hn]|(H0 & -> & Hn)].
  - rewrite (proj2 (Z.eqb_neq _ _) Hn). cbn [negb]. by rewrite <- rcv_upd_id.
  - rewrite H0. cbn [Z.eqb negb]. unfold get_length. rewrite SE_bind_assoc, gets_bind. cbn [id]. rewrite Hcc. unfold cipher_get_length. rewrite Hf, u32_id, (proj2 (Z.ltb_ge _ 4)) by lia.
    rewrite SE_bind_assoc. unfold on_dir. rewrite modify_bind, SE_bind_ret_l, modify_bind. unfold bad_length.
    rewrite (proj2 (Z.ltb_ge _ (1 + 4))), (proj2 (Z.ltb_ge _ _)) by lia. cbn [orb]. rewrite <- Hcc. by destruct s as [[]].
Qed.

(** C14: With a MAC over the cipher text (the etm modes) a packet that does not
    pass the check is refused before anything of it is decrypted: the call
    fails with the code of the check, and the cipher context, the sequence
    number and the input are as they were, whether the length of the packet was
    known from an earlier call or is read by this one (from its four bytes,
    which such a mode does not encrypt).  The packet read before is as it was in
    the first case, and empty in the second. *)
Theorem etm_checked_first s r m' nk cc n :
  d_newkeys (s_in s) = Some nk -> k_etm (Some nk) = true -> d_ctx (s_in s) = Some cc -> flag (cc_cipher cc) CFLAG_CHACHAPOLY = false ->
  s_mux s = false -> s_discard s = 0 -> packet_length s n ->
  n mod k_block_size (Some nk) = 0 -> 0 <= n <= PACKET_MAX_SIZE -> 0 <= k_mac_len (Some nk) <= 64 ->
  4 + n + k_mac_len (Some nk) <= sshbuf_len (s_input s) < 2 ^ 32 ->
  mac_check (nk_mac nk) (d_seqnr (s_in s)) (ztake (4 + n) (sshbuf_ptr (s_input s)))
    (zslice (4 + n) (k_mac_len (Some nk)) (sshbuf_ptr (s_input s))) (k_mac_len (Some nk)) = (r, m') ->
  r <> 0 -> r <> NULL_CONTEXT ->
  ssh_packet_read_poll2 s = (inl (Err r), rcv_upd (set_d_newkeys (Some (set_nk_mac m' nk)) (s_in s)) (s_input s)
    (if s_packlen s =? 0 then sshbuf_reset (s_incoming s) else s_incoming s) n (s_keep_alive s) s).
Proof.
  intros Hnk Het Hcc Hf Hmux Hdis Hpk Hmod Hpl Hml Hlen Hmac Hr Hnull. unfold ssh_packet_read_poll2. rewrite gets_bind. cbn [id]. rewrite Hmux, Hdis. change (truthy 0) with false. cbn iota.
  assert (Haad : k_aadlen (Some nk) = 4) by (unfold k_aadlen; by rewrite Het).
  assert (Hau : k_authlen (Some nk) = 0).
  { revert Het. unfold k_etm, k_mac, truthy. destruct (Z.eqb_spec (k_authlen (Some nk)) 0); [done|]. by cbn. }
  rewrite Hnk, Haad, (SE_bind_ok _ _ _ _ _ (etm_length s nk cc n Hnk Het Hcc Hf Hpk ltac:(lia) ltac:(lia))). set (inc := if s_packlen s =? 0 then _ else _).
  change (length_read n s) with (rcv_upd (s_in s) (s_input s) inc n (s_keep_alive s) s). cbn [negb]. unfold take_packet. rewrite Haad, Hau. rewrite (gets_to _ n) by done. cbn [Z.eqb negb]. rewrite Hmod. cbn [Z.eqb negb].
  rewrite (gets_to _ (sshbuf_len (s_input s))) by done. unfold PACKET_MAX_SIZE in Hpl. rewrite u32_id, (proj2 (Z.ltb_ge _ _)) by lia.
  rewrite (gets_to _ (d_seqnr (s_in s))) by done. apply SE_bind_err. unfold open_packet. rewrite Haad, Hau, Het. rewrite (gets_to _ (d_seqnr (s_in s))) by done.
  rewrite (gets_to _ (sshbuf_ptr (s_input s))) by done. apply SE_bind_err. cbn [when]. rewrite Z.add_0_r.
  rewrite (SE_bind_ok _ _ _ r (rcv_upd (set_d_newkeys (Some (set_nk_mac m' nk)) (s_in s)) (s_input s) inc n (s_keep_alive s) s)).
  - unfold check. by rewrite (proj2 (Z.eqb_neq _ _) Hr).
  - unfold dir_mac_check. rewrite gets_bind. cbn [get_dir rcv_upd s_in]. rewrite Hnk, Hmac. unfold on_dir. by rewrite modify_bind, (proj2 (Z.eqb_neq _ _) Hnull).
Qed.

(** Ssh_packet_need_rekeying adds the length of the packet, rounded up to
    whole blocks but still in bytes, to the number of blocks sent, and compares
    the sum with the limit on blocks: an exchange of keys is due although the
    packet would stay within the limit. *)
Theorem rekey_counts_bytes s nk len :
  s_after_auth s = true -> (exists k, s_kex s = Some k /\ k_done k = true) -> s_rekeying s = false -> truthy (Z.land (s_compat s) SSH_BUG_NOREKEY) = false ->
  0 < d_packets (s_out s) <= MAX_PACKETS -> 0 <= d_packets (s_in s) <= MAX_PACKETS -> s_rekey_interval s = 0 ->
  d_newkeys (s_out s) = Some nk -> 8 <= e_block_size (nk_enc nk) -> len = 8 * e_block_size (nk_enc nk) -> len < 2 ^ 20 ->
  0 <= d_blocks (s_out s) -> d_blocks (s_out s) + 8 <= d_max_blocks (s_out s) < d_blocks (s_out s) + 64 -> d_max_blocks (s_out s) < 2 ^ 32 ->
  ssh_packet_need_rekeying s len = Some true.
Proof.
  intros Ha (k & Hk & Hd) Hr Hc Hpo Hpi Hi Hnk Hbs -> Hl Hb Hm Hmx. unfold ssh_packet_need_rekeying, ssh_packet_is_rekeying. rewrite Ha, Hk, Hr, Hd, Hc. cbn [negb orb].
  rewrite bool_decide_eq_false_2 by done. cbn [orb]. rewrite (proj2 (Z.eqb_neq (d_packets (s_out s)) 0)) by lia. cbn [andb].
  rewrite Hi. change (truthy 0) with false. cbn [andb]. rewrite (proj2 (Z.ltb_ge MAX_PACKETS _)), (proj2 (Z.ltb_ge MAX_PACKETS _)) by lia. cbn [orb].
  rewrite Hnk. cbn [mbind option_bind]. set (bs := e_block_size (nk_enc nk)) in *. unfold ROUNDUP32.
  assert (Ed : (8 * bs + (bs - 1)) / bs = 8).
  { replace (8 * bs + (bs - 1)) with (bs - 1 + 8 * bs) by lia. rewrite Z.div_add, Z.div_small by lia. done. }
  rewrite (u32_id (8 * bs + (bs - 1))), Ed, u32_id, u64_id by lia. unfold truthy. rewrite (proj2 (Z.eqb_neq (d_max_blocks (s_out s)) 0)) by lia. cbn [negb andb].
  by rewrite (proj2 (Z.ltb_lt _ _)) by lia.
Qed.
End Rekey.

(** ** Concrete connections *)

Section Demo.
#[local] Existing Instances demo_heap demo_evp_md demo_umac demo_evp demo_zlib demo_env demo_heap_total demo_evp_md_ok demo_umac_ok demo_evp_ok demo_env_rand.

(** Keys for chacha20-poly1305, and an exchange that has come to them. *)
Definition demo_chacha : newkeys :=
  mk_newkeys (mk_enc (str "chacha20-poly1305@openssh.com") chachapoly_cipher false 64 0 8 (Some (zfill 64)) (Some [])) zero_mac (mk_comp COMP_NONE false []).
Definition demo_exchange : kex := mk_kex None (Some demo_chacha) (Some demo_chacha) 0 0 false None None 0 0 0 None false demo_buf demo_buf false 0 0 0 None.
Definition demo_rekeying : ssh := set_s_kex (Some demo_exchange) (set_s_rekeying true demo_conn).
Lemma demo_chacha_ok : keys_ok false demo_chacha.
Proof.
  split; [by do 10 apply list_elem_of_further; apply list_elem_of_here|done| |by intros|done]. exists (zfill 64), []. repeat (split; [done|]). by vm_compute.
Qed.

(** Keys with a MAC over the cipher text. *)
Definition demo_mac : sshmac :=
  set_mac_enabled true (snd (mac_init (set_mac_key (Some (zfill 32)) 32 (snd (mac_setup zero_mac (str "hmac-sha2-256-etm@openssh.com")))))).
Definition demo_keys : newkeys :=
  mk_newkeys (mk_enc (str "aes128-ctr") (mk_cipher (str "aes128-ctr") 16 16 0 0 0 (Some EVP_aes_128_ctr)) false 16 16 16 (Some (zfill 16)) (Some (zfill 16)))
    demo_mac (mk_comp COMP_NONE false []).
Definition demo_keyed : ssh :=
  set_s_packlen 16 (set_s_input (mk_sshbuf (Some 4096) (Some 4096) (zfill 20 ++ [1] ++ zfill 235) 0 52 SSHBUF_SIZE_MAX 256 false 1 None)
    (set_s_in (set_d_newkeys (Some demo_keys) (s_in demo_conn)) demo_conn)).
Lemma etm_checked_first_witness : exists s', ssh_packet_read_poll2 demo_keyed = (inl (Err SSH_ERR_MAC_INVALID), s').
Proof.
  destruct (mac_check demo_mac 0 (ztake 20 (sshbuf_ptr (s_input demo_keyed))) (zslice 20 32 (sshbuf_ptr (s_input demo_keyed))) 32) as [r m'] eqn:E.
  assert (Er : r = SSH_ERR_MAC_INVALID).
  { assert (E' : fst (mac_check demo_mac 0 (ztake 20 (sshbuf_ptr (s_input demo_keyed))) (zslice 20 32 (sshbuf_ptr (s_input demo_keyed))) 32) = SSH_ERR_MAC_INVALID)
      by (vm_compute; reflexivity). by rewrite E in E'. }
  eexists. rewrite <- Er. apply (etm_checked_first demo_keyed r m' demo_keys (mk_cc true false None zero_cp none_cipher) 16).
  - reflexivity.
  - vm_compute. reflexivity.
  - reflexivity.
  - reflexivity.
  - reflexivity.
  - reflexivity.
  - left. split; [reflexivity|discriminate].
  - reflexivity.
  - split; discriminate.
  - vm_compute. split; discriminate.
  - vm_compute. split; [discriminate|reflexivity].
  - exact E.
  - rewrite Er. discriminate.
  - rewrite Er. discriminate.
Defined.

Definition demo_done : kex := mk_kex None None None 0 0 false None None 0 0 0 None false demo_buf demo_buf true 0 0 0 None.
Lemma rekey_counts_bytes_witness :
  ssh_packet_need_rekeying (set_s_after_auth true (set_s_kex (Some demo_done) (set_s_out (set_d_max_blocks 10 (set_d_packets 1 (set_d_newkeys (Some demo_keys) (s_out demo_conn)))) demo_conn))) 128 = Some true.
Proof.
  apply (rekey_counts_bytes _ demo_keys); try reflexivity; try (by vm_compute). exists demo_done. by split.
Defined.
End Demo.
