(* ===== verification/SftpCommon.v ===== *)
(** * File attributes: sftp-common.c, sftp-common.h, sftp.h

    The attribute record of the SFTP protocol, its conversion from and to
    [struct stat], and its wire format on an SSH buffer. *)

From S2P Require Import Prelude Sshbuf.

(** ** sftp.h *)

Definition SSH2_FILEXFER_ATTR_SIZE : Z := 0x00000001.
Definition SSH2_FILEXFER_ATTR_UIDGID : Z := 0x00000002.
Definition SSH2_FILEXFER_ATTR_PERMISSIONS : Z := 0x00000004.
Definition SSH2_FILEXFER_ATTR_ACMODTIME : Z := 0x00000008.
Definition SSH2_FILEXFER_ATTR_EXTENDED : Z := 0x80000000.

Definition SSH2_FX_OK : Z := 0.
Definition SSH2_FX_EOF : Z := 1.
Definition SSH2_FX_NO_SUCH_FILE : Z := 2.
Definition SSH2_FX_PERMISSION_DENIED : Z := 3.
Definition SSH2_FX_FAILURE : Z := 4.
Definition SSH2_FX_BAD_MESSAGE : Z := 5.
Definition SSH2_FX_NO_CONNECTION : Z := 6.
Definition SSH2_FX_CONNECTION_LOST : Z := 7.
Definition SSH2_FX_OP_UNSUPPORTED : Z := 8.
Definition SSH2_FX_MAX : Z := 8.

Definition SFTP_MAX_MSG_LENGTH : Z := 256 * 1024.

(** The fields of [struct stat] the program reads. *)
Record stat_t := mk_stat {
  st_mode : Z; st_nlink : Z; st_uid : Z; st_gid : Z;
  st_size : Z; st_atime : Z; st_mtime : Z
}.

Record Attrib := mk_attrib {
  a_flags : Z; a_size : Z; a_uid : Z; a_gid : Z; a_perm : Z; a_atime : Z; a_mtime : Z
}.

Definition attrib_clear : Attrib := mk_attrib 0 0 0 0 0 0 0.

(** A test such as [a->flags & SSH2_FILEXFER_ATTR_SIZE]. *)
Definition has (flags bit : Z) : bool := truthy (Z.land flags bit).

(** stat_to_attrib: the 64-bit size, the rest cut to 32 bits. *)
Definition stat_to_attrib (st : stat_t) : Attrib :=
  mk_attrib
    (Z.lor (Z.lor (Z.lor (Z.lor 0 SSH2_FILEXFER_ATTR_SIZE) SSH2_FILEXFER_ATTR_UIDGID)
      SSH2_FILEXFER_ATTR_PERMISSIONS) SSH2_FILEXFER_ATTR_ACMODTIME)
    (u64 (st_size st)) (u32 (st_uid st)) (u32 (st_gid st)) (u32 (st_mode st))
    (u32 (st_atime st)) (u32 (st_mtime st)).

Definition attrib_to_stat (a : Attrib) : stat_t :=
  mk_stat
    (if has (a_flags a) SSH2_FILEXFER_ATTR_PERMISSIONS then a_perm a else 0)
    0
    (if has (a_flags a) SSH2_FILEXFER_ATTR_UIDGID then a_uid a else 0)
    (if has (a_flags a) SSH2_FILEXFER_ATTR_UIDGID then a_gid a else 0)
    (if has (a_flags a) SSH2_FILEXFER_ATTR_SIZE then i64 (a_size a) else 0)
    (if has (a_flags a) SSH2_FILEXFER_ATTR_ACMODTIME then a_atime a else 0)
    (if has (a_flags a) SSH2_FILEXFER_ATTR_ACMODTIME then a_mtime a else 0).

Definition encode_attrib `{Allocator} (a : Attrib) : SE sshbuf Z () :=
  _ ← sshbuf_put_u32 (a_flags a);
  _ ← when (has (a_flags a) SSH2_FILEXFER_ATTR_SIZE) (sshbuf_put_u64 (a_size a));
  _ ← when (has (a_flags a) SSH2_FILEXFER_ATTR_UIDGID)
        (_ ← sshbuf_put_u32 (a_uid a); sshbuf_put_u32 (a_gid a));
  _ ← when (has (a_flags a) SSH2_FILEXFER_ATTR_PERMISSIONS) (sshbuf_put_u32 (a_perm a));
  when (has (a_flags a) SSH2_FILEXFER_ATTR_ACMODTIME)
        (_ ← sshbuf_put_u32 (a_atime a); sshbuf_put_u32 (a_mtime a)).

(** How decode_attrib stops without attributes: it returns a code, or calls
    fatal().  [StopFuel] would be a loop that has not finished. *)
Inductive stop := StopRet (r : Z) | StopFatal | StopFuel.

Definition on_err {S E E' A} (f : E -> E') (m : SE S E A) : SE S E' A := fun s =>
  match m s with
  | (inl e, s') => (inl (f e), s')
  | (inr a, s') => (inr a, s')
  end.
Definition ret_on_err {A} (m : SE sshbuf Z A) : SE sshbuf stop A := on_err StopRet m.
Definition fatal_on_err {A} (m : SE sshbuf Z A) : SE sshbuf stop A := on_err (fun _ => StopFatal) m.

(** The loop over the [count] vendor extensions, each a C string and a string. *)
Fixpoint skip_extensions `{Allocator} (fuel : nat) (i count : Z) : SE sshbuf stop () :=
  if count <=? i then mret tt
  else match fuel with
  | O => throw StopFuel
  | S fuel' =>
      _ ← ret_on_err sshbuf_get_cstring;
      _ ← ret_on_err sshbuf_get_string;
      skip_extensions fuel' (i + 1) count
  end.

(** Every round consumes at least eight bytes, so the pending bytes bound it. *)
Definition extensions_fuel (b : sshbuf) : nat := S (Z.to_nat (sshbuf_len b)).

Definition decode_attrib `{Allocator} : SE sshbuf stop Attrib :=
  flags ← ret_on_err sshbuf_get_u32;
  size ← (if has flags SSH2_FILEXFER_ATTR_SIZE then ret_on_err sshbuf_get_u64 else mret 0);
  '(uid, gid) ← (if has flags SSH2_FILEXFER_ATTR_UIDGID
                 then uid ← ret_on_err sshbuf_get_u32; gid ← ret_on_err sshbuf_get_u32;
                      mret (uid, gid)
                 else mret (0, 0));
  perm ← (if has flags SSH2_FILEXFER_ATTR_PERMISSIONS then ret_on_err sshbuf_get_u32 else mret 0);
  '(atime, mtime) ← (if has flags SSH2_FILEXFER_ATTR_ACMODTIME
                     then at_ ← ret_on_err sshbuf_get_u32; mt ← ret_on_err sshbuf_get_u32;
                          mret (at_, mt)
                     else mret (0, 0));
  _ ← (if has flags SSH2_FILEXFER_ATTR_EXTENDED
       then count ← fatal_on_err sshbuf_get_u32;
            fuel ← gets extensions_fuel;
            skip_extensions fuel 0 count
       else mret tt);
  mret (mk_attrib flags size uid gid perm atime mtime).

(** fx2txt: the message of a status. *)
Definition fx2txt (status : Z) : list Z :=
  if status =? SSH2_FX_OK then str "No error"
  else if status =? SSH2_FX_EOF then str "End of file"
  else if status =? SSH2_FX_NO_SUCH_FILE then str "No such file or directory"
  else if status =? SSH2_FX_PERMISSION_DENIED then str "Permission denied"
  else if status =? SSH2_FX_FAILURE then str "Failure"
  else if status =? SSH2_FX_BAD_MESSAGE then str "Bad message"
  else if status =? SSH2_FX_NO_CONNECTION then str "No connection"
  else if status =? SSH2_FX_CONNECTION_LOST then str "Connection lost"
  else if status =? SSH2_FX_OP_UNSUPPORTED then str "Operation unsupported"
  else str "Unknown status".

(** ** Lemmas *)

(** The bytes encode_attrib writes. *)
Definition attrib_bytes (a : Attrib) : list Z :=
  POKE_U32 (a_flags a) ++
  (if has (a_flags a) SSH2_FILEXFER_ATTR_SIZE then POKE_U64 (a_size a) else []) ++
  (if has (a_flags a) SSH2_FILEXFER_ATTR_UIDGID then POKE_U32 (a_uid a) ++ POKE_U32 (a_gid a) else []) ++
  (if has (a_flags a) SSH2_FILEXFER_ATTR_PERMISSIONS then POKE_U32 (a_perm a) else []) ++
  (if has (a_flags a) SSH2_FILEXFER_ATTR_ACMODTIME
   then POKE_U32 (a_atime a) ++ POKE_U32 (a_mtime a) else []).

Lemma encode_attrib_appends `{Allocator} a : Appends (encode_attrib a) (attrib_bytes a).
Proof. unfold encode_attrib, attrib_bytes. auto 20 with codec. Qed.

Lemma zlen_attrib_bytes a : 4 <= zlen (attrib_bytes a) <= 32.
Proof. unfold attrib_bytes. repeat destruct (has _ _); done. Qed.

(** Attributes whose fields have the widths of the struct, without vendor
    extensions. *)
Record attrib_ok (a : Attrib) : Prop := {
  ok_flags : 0 <= a_flags a < 2 ^ 32;
  ok_size : 0 <= a_size a < 2 ^ 64;
  ok_uid : 0 <= a_uid a < 2 ^ 32;
  ok_gid : 0 <= a_gid a < 2 ^ 32;
  ok_perm : 0 <= a_perm a < 2 ^ 32;
  ok_atime : 0 <= a_atime a < 2 ^ 32;
  ok_mtime : 0 <= a_mtime a < 2 ^ 32;
  ok_plain : has (a_flags a) SSH2_FILEXFER_ATTR_EXTENDED = false
}.

(** The fields the flags announce; the others are clear. *)
Definition attrib_norm (a : Attrib) : Attrib :=
  mk_attrib (a_flags a)
    (if has (a_flags a) SSH2_FILEXFER_ATTR_SIZE then a_size a else 0)
    (if has (a_flags a) SSH2_FILEXFER_ATTR_UIDGID then a_uid a else 0)
    (if has (a_flags a) SSH2_FILEXFER_ATTR_UIDGID then a_gid a else 0)
    (if has (a_flags a) SSH2_FILEXFER_ATTR_PERMISSIONS then a_perm a else 0)
    (if has (a_flags a) SSH2_FILEXFER_ATTR_ACMODTIME then a_atime a else 0)
    (if has (a_flags a) SSH2_FILEXFER_ATTR_ACMODTIME then a_mtime a else 0).

Lemma Parses_on_err {E E' A} (f : E -> E') (m : SE sshbuf E A) x enc :
  Parses m x enc -> Parses (on_err f m) x enc.
Proof.
  intros Hm b rest Hb Hc. destruct (Hm b rest Hb Hc) as (b' & E1 & Hb' & Ha).
  exists b'. unfold on_err. by rewrite E1.
Qed.
Lemma Parses_if {A} (c : bool) (m : SE sshbuf stop A) x y enc :
  (c = true -> Parses m x enc) ->
  Parses (if c then m else mret y) (if c then x else y) (if c then enc else []).
Proof. intros Hm. destruct c; [by apply Hm|apply Parses_ret]. Qed.
Lemma Parses_pair {A B} (m : SE sshbuf stop A) x e1 (n : SE sshbuf stop B) y e2 :
  Parses m x e1 -> Parses n y e2 ->
  Parses (a ← m; b ← n; mret (a, b)) (x, y) (e1 ++ e2).
Proof.
  intros Hm Hn. eapply Parses_bind; [exact Hm|]. rewrite <- (app_nil_r e2).
  eapply Parses_bind; [exact Hn|]. apply Parses_ret.
Qed.

Lemma decode_attrib_parses `{AllocTotal} a :
  attrib_ok a -> Parses decode_attrib (attrib_norm a) (attrib_bytes a).
Proof.
  intros []. unfold decode_attrib, attrib_bytes, attrib_norm.
  eapply Parses_bind; [by apply Parses_on_err, Parses_u32|].
  eapply Parses_bind; [apply Parses_if; intros; by apply Parses_on_err, Parses_u64|].
  eapply Parses_bind; [apply Parses_if; intros;
    apply Parses_pair; by apply Parses_on_err, Parses_u32|].
  destruct (has (a_flags a) SSH2_FILEXFER_ATTR_UIDGID); cbn [fst snd];
  (eapply Parses_bind; [apply Parses_if; intros; by apply Parses_on_err, Parses_u32|]);
  rewrite <- (app_nil_r (if has (a_flags a) SSH2_FILEXFER_ATTR_ACMODTIME then _ else _));
  (eapply Parses_bind; [apply Parses_if; intros;
    apply Parses_pair; by apply Parses_on_err, Parses_u32|]);
  destruct (has (a_flags a) SSH2_FILEXFER_ATTR_ACMODTIME); rewrite ok_plain0; apply Parses_ret.
Qed.

(** A string read shortens the pending bytes by at least its length word. *)
Lemma get_string_direct_shortens b x b' :
  buf_rw b -> sshbuf_get_string_direct b = (inr x, b') ->
  buf_rw b' /\ zlen (contents b') + 4 <= zlen (contents b).
Proof.
  intros Hb E. destruct (get_string_direct_rw b Hb) as (Hd & Ha & Hb'). rewrite E in *.
  destruct x as [p len]. split; [done|].
  unfold a_get_string in *. simpl in *. pose proof (PEEK_U32_range (contents b)).
  destruct (Z.ltb_spec (zlen (contents b)) 4); [done|].
  destruct (_ <? _); [done|].
  destruct (Z.ltb_spec (zlen (contents b) - 4) (PEEK_U32 (contents b))); [done|].
  injection Ha as -> _. rewrite zlen_zdrop; lia.
Qed.
Lemma get_string_shortens `{Allocator} b s b' :
  buf_rw b -> sshbuf_get_string b = (inr s, b') ->
  buf_rw b' /\ zlen (contents b') + 4 <= zlen (contents b).
Proof.
  intros Hb Hg. apply SE_bind_inv in Hg as ([p len] & b1 & E1 & E2).
  unfold malloc_copy in E2. destruct (heap_alloc _); [|done]. injection E2 as _ <-.
  by eapply get_string_direct_shortens.
Qed.
Lemma get_cstring_shortens `{Allocator} b s b' :
  buf_rw b -> sshbuf_get_cstring b = (inr s, b') ->
  buf_rw b' /\ zlen (contents b') + 4 <= zlen (contents b).
Proof.
  intros Hb. unfold sshbuf_get_cstring, sshbuf_skip_string, malloc_copy, mbind, SE_bind.
  destruct (sshbuf_peek_string_direct b) as [r|[p len]]; [done|].
  destruct ((0 <? len) && _); [done|].
  destruct (sshbuf_get_string_direct b) as [[r|x] b1] eqn:E; simpl; [done|].
  destruct (heap_alloc _); [|done]. intros [= _ <-].
  by eapply get_string_direct_shortens.
Qed.

Lemma skip_extensions_fuel `{Allocator} fuel i count b :
  buf_rw b -> zlen (contents b) < Z.of_nat fuel ->
  fst (skip_extensions fuel i count b) <> inl StopFuel.
Proof.
  revert i b. induction fuel as [|fuel IH]; intros i b Hb Hf.
  { pose proof (zlen_nonneg (contents b)). lia. }
  simpl. destruct (count <=? i); [done|]. unfold ret_on_err, on_err, mbind, SE_bind.
  destruct (sshbuf_get_cstring b) as [[r|s] b1] eqn:E1; [done|].
  destruct (get_cstring_shortens b s b1 Hb E1) as [Hb1 Hl1].
  destruct (sshbuf_get_string b1) as [[r|s'] b2] eqn:E2; [done|].
  destruct (get_string_shortens b1 s' b2 Hb1 E2) as [Hb2 Hl2].
  apply IH; [done|lia].
Qed.

Lemma on_err_preserves {E E' A} (I : sshbuf -> Prop) (f : E -> E') (m : SE sshbuf E A) :
  preserves I m -> preserves I (on_err f m).
Proof. intros Hm b Hb. specialize (Hm b Hb). unfold on_err. by destruct (m b) as [[]]. Qed.

Lemma get_u32_preserves : preserves buf_rw sshbuf_get_u32.
Proof. by apply read_preserves. Qed.
Lemma get_u64_preserves : preserves buf_rw sshbuf_get_u64.
Proof. by apply read_preserves. Qed.
Lemma get_u8_preserves : preserves buf_rw sshbuf_get_u8.
Proof. by apply (read_preserves 1 (fun l => znth l 0)). Qed.
#[export] Hint Resolve on_err_preserves get_u8_preserves get_u32_preserves get_u64_preserves
  get_string_preserves get_cstring_preserves : inv.

Lemma skip_extensions_preserves `{Allocator} fuel i count :
  preserves buf_rw (skip_extensions fuel i count).
Proof.
  revert i. induction fuel; intros i; simpl; unfold ret_on_err; preserve.
Qed.
Lemma decode_attrib_preserves `{Allocator} : preserves buf_rw decode_attrib.
Proof.
  unfold decode_attrib, ret_on_err, fatal_on_err. preserve. apply skip_extensions_preserves.
Qed.
#[export] Hint Resolve decode_attrib_preserves : inv.

(** [m] does not stop for want of fuel. *)
Definition stops {A} (m : SE sshbuf stop A) : Prop :=
  spec buf_rw m (fun r b => r <> inl StopFuel /\ buf_rw b).
Lemma stops_ret {A} (x : A) : stops (mret x).
Proof. by intros b Hb. Qed.
Lemma stops_bind {A B} (m : SE sshbuf stop A) (k : A -> SE sshbuf stop B) :
  stops m -> (forall x, stops (k x)) -> stops (m ≫= k).
Proof.
  intros Hm Hk. apply (spec_bind _ _ _ _ _ Hm).
  - intros e s [He Hs]. split; [|done]. contradict He. by simplify_eq.
  - intros a. apply (spec_mono _ buf_rw _ _ _ (Hk a)); [|done]. by intros s [_ Hs].
Qed.
Lemma stops_on_err {A} (f : Z -> stop) (m : SE sshbuf Z A) :
  (forall r, f r <> StopFuel) -> preserves buf_rw m -> stops (on_err f m).
Proof.
  intros Hf Hm b Hb. specialize (Hm b Hb). unfold on_err.
  destruct (m b) as [[r|x] b']; simpl in *; split; congruence.
Qed.
Lemma stops_skip_extensions `{Allocator} count :
  stops (fuel ← gets extensions_fuel; skip_extensions fuel 0 count).
Proof.
  intros b Hb. split; [|by apply (skip_extensions_preserves _ 0 count)].
  apply skip_extensions_fuel; [done|]. unfold extensions_fuel.
  rewrite sshbuf_len_contents by apply Hb. pose proof (zlen_nonneg (contents b)). lia.
Qed.

(** ** Properties *)

(** Attributes written by encode_attrib are decoded by decode_attrib to
    the same flags and announced fields, with the unannounced fields zero,
    consuming exactly the bytes written. *)
Theorem attrib_roundtrip `{AllocTotal} (a : Attrib) (b : sshbuf) :
  attrib_ok a -> buf_rw b -> contents b = [] -> 32 <= b_max_size b ->
  exists b', (_ ← ret_on_err (encode_attrib a); decode_attrib) b = (inr (attrib_norm a), b') /\
    contents b' = [].
Proof.
  intros Ha Hb Hc Hmax. pose proof (zlen_attrib_bytes a).
  destruct (Appends_ok _ _ b (encode_attrib_appends a) Hb) as (b1 & E1 & Hb1 & [= Hc1 _]);
    [rewrite Hc, zlen_nil; lia|].
  rewrite Hc, app_nil_l in Hc1.
  destruct (decode_attrib_parses a Ha b1 [] Hb1) as (b2 & E2 & Hb2 & [= Hc2 _]);
    [by rewrite app_nil_r|].
  exists b2. unfold ret_on_err, on_err, mbind, SE_bind. by rewrite E1, E2.
Qed.

Definition demo_attrib : Attrib := mk_attrib 0xD 12345678901 7 8 420 1 2.
Lemma attrib_roundtrip_witness :
  exists b', (_ ← ret_on_err (@encode_attrib demo_heap demo_attrib); @decode_attrib demo_heap) demo_buf
    = (inr (mk_attrib 0xD 12345678901 0 0 420 1 2), b') /\ contents b' = [].
Proof.
  refine (@attrib_roundtrip demo_heap demo_heap_total demo_attrib demo_buf _ _ _ _).
  - split; vm_compute; intuition discriminate.
  - exact demo_buf_rw.
  - reflexivity.
  - vm_compute. discriminate.
Defined.

(** Decode_attrib always ends: the loop over vendor extensions, whose
    count the client chooses up to 2^32 - 1, never runs longer than the
    pending bytes allow, so it stops with attributes, an error or fatal(). *)
Theorem decode_attrib_terminates `{Allocator} (b : sshbuf) :
  buf_rw b -> fst (decode_attrib b) <> inl StopFuel.
Proof.
  intros Hb. enough (stops decode_attrib) as Hs by (by apply (Hs b Hb)).
  unfold decode_attrib, ret_on_err, fatal_on_err.
  repeat first [apply stops_skip_extensions | apply stops_bind; [|intros ?] | apply stops_ret
    | solve [apply stops_on_err; [done|auto with inv]]
    | match goal with |- stops (match ?x with _ => _ end) => destruct x end].
Qed.

Lemma decode_attrib_terminates_witness :
  fst (@decode_attrib demo_heap (snd (@sshbuf_put_u64 demo_heap 0x80000000FFFFFFFF demo_buf)))
  <> inl StopFuel.
Proof.
  refine (@decode_attrib_terminates demo_heap _ _).
  exact (Puts_preserves _ _ (@Puts_u64 demo_heap _) demo_buf demo_buf_rw).
Defined.
