(* ===== verification/Match.v ===== *)
(** * Pattern and list matching: match.c

    Wildcard patterns, comma-separated pattern lists with negation, and the
    proposal lists the SFTP server uses for its request black- and whitelist.
    A C string is the list of its bytes, none of them zero. *)

From S2P Require Import Prelude.

Definition STAR : Z := 42.
Definition QUEST : Z := 63.
Definition COMMA : Z := 44.
Definition BANG : Z := 33.

(** match_pattern: the outer loop follows the pattern, the two inner loops
    try the positions of the string. *)
Fixpoint match_pattern (pattern s : list Z) {struct pattern} : bool :=
  match pattern with
  | [] => match s with [] => true | _ => false end
  | p :: pattern' =>
      if p =? STAR then
        match pattern' with
        | [] => true
        | p2 :: pattern'' =>
            if negb (p2 =? QUEST) && negb (p2 =? STAR) then
              (fix look (s : list Z) : bool :=
                 match s with
                 | [] => false
                 | c :: s' => if (c =? p2) && match_pattern pattern'' s' then true else look s'
                 end) s
            else
              (fix look (s : list Z) : bool :=
                 match s with
                 | [] => false
                 | c :: s' => if match_pattern pattern' s then true else look s'
                 end) s
        end
      else
        match s with
        | [] => false
        | c :: s' =>
            if negb (p =? QUEST) && negb (p =? c) then false else match_pattern pattern' s'
        end
  end.

(** isupper and tolower of the C locale. *)
Definition isupper (c : Z) : bool := (65 <=? c) && (c <=? 90).
Definition tolower (c : Z) : Z := if isupper c then c + 32 else c.

(** The subpattern copied up to a comma, the end, or 1023 bytes; what is left. *)
Fixpoint take_sub (room : nat) (dolower : bool) (l : list Z) : list Z * list Z :=
  match room, l with
  | O, _ => ([], l)
  | _, [] => ([], [])
  | S room', c :: l' =>
      if c =? COMMA then ([], l)
      else let '(sub, rest) := take_sub room' dolower l' in
           ((if dolower && isupper c then tolower c else c) :: sub, rest)
  end.
Definition SUB_SIZE : nat := 1023.

(** match_pattern_list: -1, 0 or 1; [fuel] bounds the rounds of the loop. *)
Fixpoint match_pattern_list_from (fuel : nat) (string pattern : list Z) (dolower : bool)
    (got_positive : Z) : option Z :=
  match pattern with
  | [] => Some got_positive
  | c :: pattern' =>
      match fuel with
      | O => None
      | S fuel' =>
          let negated := c =? BANG in
          let '(sub, rest) := take_sub SUB_SIZE dolower (if negated then pattern' else pattern) in
          if (SUB_SIZE <=? length sub)%nat then Some 0
          else
            let rest := match rest with
                        | d :: rest' => if d =? COMMA then rest' else rest
                        | [] => []
                        end in
            if match_pattern sub string then
              if negated then Some (-1) else match_pattern_list_from fuel' string rest dolower 1
            else match_pattern_list_from fuel' string rest dolower got_positive
      end
  end.
Definition match_pattern_list (string pattern : list Z) (dolower : bool) : option Z :=
  match_pattern_list_from (length pattern) string pattern dolower 0.

Definition match_hostname (host pattern : list Z) : option Z :=
  match_pattern_list (map tolower host) pattern true.

(** strsep(&p, ","): the token and the string left, NULL after the last. *)
Fixpoint strsep (s : list Z) : list Z * option (list Z) :=
  match s with
  | [] => ([], None)
  | c :: s' => if c =? COMMA then ([], Some s')
               else let '(t, r) := strsep s' in (c :: t, r)
  end.

(** All the tokens in turn. *)
Fixpoint tokens (s : list Z) : list (list Z) :=
  match s with
  | [] => [[]]
  | c :: s' =>
      if c =? COMMA then [] :: tokens s'
      else match tokens s' with
           | t :: ts => (c :: t) :: ts
           | [] => [[c]]
           end
  end.

(** The loops of match_list read tokens up to the first empty one. *)
Fixpoint until_empty (ts : list (list Z)) : list (list Z) :=
  match ts with
  | [] => []
  | t :: ts' => if bool_decide (t = []) then [] else t :: until_empty ts'
  end.
Definition MAX_PROP : nat := 40.

(** match_list: the first client entry among the server's, and [*next]: the
    offset after it in the client string, or strlen(c), which is the length
    of the first entry since strsep has cut the copy there. *)
Fixpoint match_list_from (off : Z) (ts sproposals : list (list Z)) (strlen_c : Z)
    : option (list Z) * Z :=
  match ts with
  | [] => (None, strlen_c)
  | p :: ts' =>
      if bool_decide (p = []) then (None, strlen_c)
      else if existsb (bytes_eqb p) sproposals
      then (Some p, match ts' with [] => strlen_c | _ => off + zlen p + 1 end)
      else match_list_from (off + zlen p + 1) ts' sproposals strlen_c
  end.
Definition match_list (client server : list Z) : option (list Z) * Z :=
  let sproposals := take MAX_PROP (until_empty (tokens server)) in
  match_list_from 0 (tokens client) sproposals (zlen (fst (strsep client))).

(** filter_list: the entries kept, joined again with commas. *)
Definition add_entry (fix_prop cp : list Z) : list Z :=
  (if bool_decide (fix_prop = []) then [] else fix_prop ++ [COMMA]) ++ cp.
Definition keep_entry (filter : list Z) (blacklist : bool) (cp : list Z) : bool :=
  let is1 := bool_decide (match_pattern_list cp filter false = Some 1) in
  if blacklist then negb is1 else is1.
Definition filter_list (proposal filter : list Z) (blacklist : bool) : list Z :=
  fold_left (fun fix_prop cp => if keep_entry filter blacklist cp then add_entry fix_prop cp else fix_prop)
    (tokens proposal) [].
Definition match_filter_blacklist (proposal filter : list Z) : list Z := filter_list proposal filter true.
Definition match_filter_whitelist (proposal filter : list Z) : list Z := filter_list proposal filter false.

(** ** Reference semantics of a wildcard pattern *)

Inductive Matches : list Z -> list Z -> Prop :=
  | M_nil : Matches [] []
  | M_star_none p s : Matches p s -> Matches (STAR :: p) s
  | M_star_one p c s : Matches (STAR :: p) s -> Matches (STAR :: p) (c :: s)
  | M_quest p c s : Matches p s -> Matches (QUEST :: p) (c :: s)
  | M_char p c s : c <> STAR -> c <> QUEST -> Matches p s -> Matches (c :: p) (c :: s).

Fixpoint no_double_star (p : list Z) : Prop :=
  match p with
  | a :: ((b :: _) as p') => ~ (a = STAR /\ b = STAR) /\ no_double_star p'
  | _ => True
  end.

Lemma Matches_star p s : Matches (STAR :: p) s <-> exists s1 s2, s = s1 ++ s2 /\ Matches p s2.
Proof.
  split.
  - intros H. remember (STAR :: p) as q eqn:Hq. induction H; simplify_eq.
    + by exists [], s.
    + destruct (IHMatches eq_refl) as (s1 & s2 & -> & Hm). by exists (c :: s1), s2.
  - intros (s1 & s2 & -> & Hm). induction s1; simpl; by constructor.
Qed.

(** The inner loops: some position of the string works. *)
Lemma look_char_spec (f : list Z -> bool) p2 s :
  (fix look (s : list Z) : bool :=
     match s with [] => false | c :: s' => if (c =? p2) && f s' then true else look s' end) s = true
  <-> exists s1 s2, s = s1 ++ p2 :: s2 /\ f s2 = true.
Proof.
  induction s as [|c s IH].
  { split; [done|]. by intros ([|] & ? & ? & _). }
  destruct ((c =? p2) && f s) eqn:E.
  - split; [intros _|done]. apply andb_prop in E as [->%Z.eqb_eq E]. by exists [], s.
  - rewrite IH. split.
    + intros (s1 & s2 & -> & Hf). by exists (c :: s1), s2.
    + intros (s1 & s2 & Heq & Hf). destruct s1 as [|d s1]; simplify_eq/=; [|by eauto].
      by rewrite Z.eqb_refl, Hf in E.
Qed.
Lemma look_any_spec (f : list Z -> bool) s :
  (fix look (s : list Z) : bool :=
     match s with [] => false | c :: s' => if f s then true else look s' end) s = true
  <-> exists s1 c s2, s = s1 ++ c :: s2 /\ f (c :: s2) = true.
Proof.
  induction s as [|c s IH].
  { split; [done|]. by intros ([|] & ? & ? & ? & _). }
  destruct (f (c :: s)) eqn:E.
  - split; [intros _|done]. by exists [], c, s.
  - rewrite IH. split.
    + intros (s1 & d & s2 & -> & Hf). by exists (c :: s1), d, s2.
    + intros (s1 & d & s2 & Heq & Hf). destruct s1 as [|d' s1]; simplify_eq/=; [congruence|by eauto 6].
Qed.

(** One unfolding of match_pattern, with its loops read as "some position". *)
Lemma match_pattern_cons p pat s :
  match_pattern (p :: pat) s = true <->
  if p =? STAR then
    match pat with
    | [] => True
    | p2 :: pat2 =>
        if negb (p2 =? QUEST) && negb (p2 =? STAR)
        then exists s1 s2, s = s1 ++ p2 :: s2 /\ match_pattern pat2 s2 = true
        else exists s1 c s2, s = s1 ++ c :: s2 /\ match_pattern pat (c :: s2) = true
    end
  else exists c s', s = c :: s' /\ (p = QUEST \/ p = c) /\ match_pattern pat s' = true.
Proof.
  simpl. destruct (p =? STAR).
  - destruct pat as [|p2 pat2]; [done|]. destruct (_ && _).
    + apply look_char_spec.
    + apply (look_any_spec (match_pattern (p2 :: pat2))).
  - destruct s as [|c s']; [split; [done|by intros (?&?&?&_)]|].
    destruct (Z.eqb_spec p QUEST), (Z.eqb_spec p c); simpl;
      (split; [intros Hm; first [done|exists c, s'; by auto]
              |intros (c' & s'' & Heq & Hc & Hm); simplify_eq; first [done|by destruct Hc]]).
Qed.

Lemma match_pattern_sound p s : match_pattern p s = true -> Matches p s.
Proof.
  remember (length p) as n eqn:Hn. revert p s Hn.
  induction n as [n IH] using lt_wf_ind. intros [|p pat] s ->.
  { destruct s; [constructor|done]. }
  rewrite match_pattern_cons. destruct (Z.eqb_spec p STAR) as [->|Hs].
  - rewrite Matches_star. destruct pat as [|p2 pat2].
    { intros _. exists s, []. split; [by rewrite app_nil_r|constructor]. }
    destruct (Z.eqb_spec p2 QUEST), (Z.eqb_spec p2 STAR); simpl.
    1-3: intros (s1 & c & s2 & -> & Hm); exists s1, (c :: s2); split; [done|];
         eapply IH; [|reflexivity|done]; simpl; lia.
    intros (s1 & s2 & -> & Hm). exists s1, (p2 :: s2). split; [done|]. apply M_char; [done..|].
    eapply IH; [|reflexivity|done]. simpl. lia.
  - intros (c & s' & -> & Hc & Hm). assert (Matches pat s') by (eapply IH; [|reflexivity|done]; simpl; lia).
    destruct (decide (p = QUEST)) as [->|]; [by constructor|].
    destruct Hc as [-> | ->]; [done|by constructor].
Qed.

Ltac inv_matches H :=
  inversion H; subst; try (exfalso; unfold STAR, QUEST in *; lia).

Lemma match_pattern_complete p s :
  no_double_star p -> Matches p s -> match_pattern p s = true.
Proof.
  remember (length p) as n eqn:Hn. revert p s Hn.
  induction n as [n IH] using lt_wf_ind. intros [|p pat] s ->.
  { by inversion 2. }
  intros Hd Hm. assert (Hd' : no_double_star pat) by (destruct pat; [done|apply Hd]).
  rewrite match_pattern_cons. destruct (Z.eqb_spec p STAR) as [->|Hs].
  - apply Matches_star in Hm as (s1 & s2 & -> & Hm). destruct pat as [|p2 pat2]; [done|].
    destruct Hd as [Hd _]. destruct (Z.eqb_spec p2 QUEST), (Z.eqb_spec p2 STAR); subst;
      cbn [negb andb]; [exfalso; unfold STAR, QUEST in *; lia| |by destruct Hd|].
    + inv_matches Hm. eexists s1, _, _. split; [done|].
      eapply IH; [|reflexivity|done|by constructor]. simpl. lia.
    + inv_matches Hm. eexists s1, _. split; [done|].
      eapply IH; [|reflexivity| |done]; [simpl; lia|]. by destruct pat2; [|destruct Hd'].
  - inv_matches Hm; eexists _, _; (split; [done|]); (split; [auto|]);
      (eapply IH; [|reflexivity|done|done]); simpl; lia.
Qed.

(** ** Comma-separated lists *)

Lemma tokens_strsep s :
  tokens s = fst (strsep s) :: match snd (strsep s) with Some r => tokens r | None => [] end.
Proof.
  induction s as [|c s IH]; simpl; [done|]. destruct (c =? COMMA); simpl; [done|].
  rewrite IH. by destruct (strsep s) as [t [r|]].
Qed.

Lemma strsep_shorter s t r : strsep s = (t, Some r) -> (length r < length s)%nat.
Proof.
  revert t. induction s as [|c s IH]; simpl; intros t; [done|].
  destruct (c =? COMMA); [intros [= _ <-]; lia|].
  destruct (strsep s) as [t' r'] eqn:E. intros [= _ ->]. specialize (IH _ eq_refl). lia.
Qed.

(** The entries of a pattern list: a trailing comma adds none. *)
Definition list_entries (s : list Z) : list (list Z) :=
  match s with
  | [] => []
  | _ => let ts := tokens s in if bool_decide (last ts = Some []) then removelast ts else ts
  end.

Lemma list_entries_step s :
  s <> [] ->
  list_entries s
  = fst (strsep s) :: match snd (strsep s) with Some r => list_entries r | None => [] end.
Proof.
  intros Hs. destruct s as [|c s]; [done|]. set (l := c :: s) in *. unfold list_entries at 1.
  change (match l with [] => [] | _ => let ts := tokens l in
    if bool_decide (last ts = Some []) then removelast ts else ts end)
    with (if bool_decide (last (tokens l) = Some []) then removelast (tokens l) else tokens l).
  rewrite tokens_strsep. destruct (strsep l) as [t [r|]] eqn:E; simpl.
  - destruct r as [|d r]; [by rewrite bool_decide_eq_true_2|]. unfold list_entries.
    set (l' := d :: r). rewrite (tokens_strsep l').
    destruct (strsep l') as [t' r']; simpl.
    destruct (bool_decide (last _ = _)); done.
  - destruct t as [|a t]; [|by rewrite bool_decide_eq_false_2].
    exfalso. subst l. simpl in E. destruct (c =? COMMA); [done|]. by destruct (strsep s).
Qed.

Definition lower_if (dolower : bool) (c : Z) : Z := if dolower && isupper c then tolower c else c.

(** Within the room, the copy stops where strsep does. *)
Lemma take_sub_strsep room dolower l :
  (length (fst (strsep l)) < room)%nat ->
  take_sub room dolower l =
    (map (lower_if dolower) (fst (strsep l)),
     match snd (strsep l) with Some r => COMMA :: r | None => [] end).
Proof.
  revert l. induction room as [|room IH]; intros l Hl; [lia|].
  destruct l as [|c l]; simpl; [done|]. simpl in Hl.
  destruct (Z.eqb_spec c COMMA) as [->|]; simpl in *; [done|].
  destruct (strsep l) as [t r] eqn:E. simpl in *. rewrite IH by (rewrite E; simpl; lia).
  by rewrite E.
Qed.

(** An entry: is it negated, and its pattern. *)
Definition classify (e : list Z) : bool * list Z :=
  match e with
  | c :: e' => if c =? BANG then (true, e') else (false, e)
  | [] => (false, [])
  end.
Definition entry_matches (string : list Z) (dolower neg : bool) (e : list Z) : bool :=
  let '(n, p) := classify e in Bool.eqb n neg && match_pattern (map (lower_if dolower) p) string.
Definition list_verdict (string : list Z) (dolower : bool) (got : Z) (es : list (list Z)) : Z :=
  if existsb (entry_matches string dolower true) es then -1
  else if existsb (entry_matches string dolower false) es then 1 else got.

Lemma strsep_bang s :
  strsep (BANG :: s) = (BANG :: fst (strsep s), snd (strsep s)).
Proof. simpl. by destruct (strsep s). Qed.

(** Dropping the exclamation mark before strsep or after it is the same. *)
Lemma strsep_body c pat :
  let l := c :: pat in
  strsep (if c =? BANG then pat else l) = (snd (classify (fst (strsep l))), snd (strsep l)) /\
  fst (classify (fst (strsep l))) = (c =? BANG).
Proof.
  cbv zeta. destruct (Z.eqb_spec c BANG) as [->|Hc].
  - rewrite strsep_bang. cbn [fst snd classify]. rewrite Z.eqb_refl. by destruct (strsep pat).
  - simpl. destruct (c =? COMMA); [done|]. destruct (strsep pat) as [t r]. simpl.
    by rewrite (proj2 (Z.eqb_neq _ _)) by done.
Qed.

Lemma list_verdict_cons string dolower got e es :
  list_verdict string dolower got (e :: es) =
  if entry_matches string dolower true e then -1
  else list_verdict string dolower (if entry_matches string dolower false e then 1 else got) es.
Proof.
  unfold list_verdict. simpl. destruct (entry_matches _ _ true e); [done|].
  destruct (entry_matches _ _ false e); simpl; [|done].
  by destruct (existsb (entry_matches string dolower true) es), (existsb (entry_matches string dolower false) es).
Qed.

Lemma match_pattern_list_from_spec fuel string pattern dolower got :
  (length pattern <= fuel)%nat ->
  Forall (fun e => (length e < SUB_SIZE)%nat) (list_entries pattern) ->
  match_pattern_list_from fuel string pattern dolower got
  = Some (list_verdict string dolower got (list_entries pattern)).
Proof.
  revert pattern got. induction fuel as [|fuel IH]; intros pattern got Hf Hes.
  { destruct pattern; [done|simpl in Hf; lia]. }
  destruct pattern as [|c pat]; [done|].
  rewrite list_entries_step in * by done. apply Forall_cons_1 in Hes as [He Hes].
  destruct (strsep_body c pat) as [Hb Hn]. cbv zeta in Hb, Hn.
  destruct (strsep (c :: pat)) as [t r] eqn:E. cbn [fst snd] in *.
  destruct (classify t) as [neg p] eqn:Ec. cbn [fst snd] in *. subst neg.
  assert (Hp : (length p < SUB_SIZE)%nat).
  { destruct t as [|a t]; simpl in Ec; [by simplify_eq|].
    destruct (a =? BANG); simplify_eq; simpl in *; lia. }
  cbn [match_pattern_list_from]. rewrite take_sub_strsep, Hb by (by rewrite Hb). cbn [fst snd].
  rewrite length_map. destruct (Nat.leb_spec SUB_SIZE (length p)); [lia|].
  rewrite list_verdict_cons. unfold entry_matches. rewrite Ec.
  assert (Hnext : forall g, match_pattern_list_from fuel string (default [] r) dolower g =
    Some (list_verdict string dolower g (match r with Some r0 => list_entries r0 | None => [] end))).
  { intros g. destruct r as [r|]; [|by destruct fuel]. apply IH; [|done].
    pose proof (strsep_shorter _ _ _ E). simpl in *. lia. }
  destruct r as [r|]; rewrite ?Z.eqb_refl; simpl in Hnext;
    destruct (match_pattern _ string), (c =? BANG); cbn [Bool.eqb andb]; by rewrite ?Hnext.
Qed.

(** ** Proposal lists *)

Lemma match_list_from_fst off ts sp n :
  fst (match_list_from off ts sp n) = List.find (fun p => existsb (bytes_eqb p) sp) (until_empty ts).
Proof.
  revert off. induction ts as [|t ts IH]; intros off; simpl; [done|].
  destruct (bool_decide (t = [])); simpl; [done|]. by destruct (existsb _ sp).
Qed.

Lemma tokens_single s : Forall (fun c => c <> COMMA) s -> tokens s = [s].
Proof.
  induction 1 as [|c s Hc _ IH]; simpl; [done|].
  rewrite (proj2 (Z.eqb_neq _ _)), IH by done. done.
Qed.

Lemma existsb_bytes_eqb p l : existsb (bytes_eqb p) l = true <-> p ∈ l.
Proof.
  rewrite existsb_exists, list_elem_of_In. split.
  - intros (x & Hx & ->%bytes_eqb_eq). done.
  - intros Hp. exists p. by rewrite bytes_eqb_refl.
Qed.

(** The entries of a server list that match_list looks at. *)
Definition effective (server : list Z) : list (list Z) := take MAX_PROP (until_empty (tokens server)).

Lemma match_list_name name server :
  name <> [] -> Forall (fun c => c <> COMMA) name ->
  fst (match_list name server) = if bool_decide (name ∈ effective server) then Some name else None.
Proof.
  intros Hn Hc. unfold match_list. rewrite match_list_from_fst, (tokens_single name) by done. simpl.
  rewrite bool_decide_eq_false_2 by done. simpl. fold (effective server).
  case_bool_decide as Hin.
  - apply existsb_bytes_eqb in Hin. by rewrite Hin.
  - destruct (existsb (bytes_eqb name) (effective server)) eqn:E; [|done].
    by apply existsb_bytes_eqb in E.
Qed.

(** ** Filtering a proposal *)

Definition join (ts : list (list Z)) : list Z := fold_left add_entry ts [].

Lemma filter_list_join proposal filt bl :
  filter_list proposal filt bl = join (List.filter (keep_entry filt bl) (tokens proposal)).
Proof.
  unfold filter_list, join. generalize (@nil Z). induction (tokens proposal) as [|t ts IH];
    intros acc; simpl; [done|]. destruct (keep_entry filt bl t); simpl; apply IH.
Qed.

Lemma tokens_app_comma a b :
  Forall (fun c => c <> COMMA) b -> tokens (a ++ COMMA :: b) = tokens a ++ [b].
Proof.
  intros Hb. induction a as [|c a IH]; simpl; [by rewrite tokens_single|].
  destruct (c =? COMMA); [by rewrite IH|]. rewrite IH.
  destruct (tokens a) eqn:E; [by rewrite tokens_strsep in E|done].
Qed.

Lemma tokens_no_comma s : Forall (Forall (fun c => c <> COMMA)) (tokens s).
Proof.
  induction s as [|c s IH]; simpl; [by repeat constructor|].
  destruct (Z.eqb_spec c COMMA); [by constructor|].
  destruct (tokens s); inversion IH; subst; repeat constructor; done.
Qed.

Lemma tokens_join_from acc ts :
  acc <> [] -> Forall (fun t => t <> []) ts -> Forall (Forall (fun c => c <> COMMA)) ts ->
  tokens (fold_left add_entry ts acc) = tokens acc ++ ts.
Proof.
  intros Ha Hne Hnc. revert acc Ha. induction ts as [|t ts IH]; intros acc Ha; simpl.
  { by rewrite app_nil_r. }
  apply Forall_cons_1 in Hne as [Ht Hne], Hnc as [Htc Hnc].
  unfold add_entry at 2. rewrite bool_decide_eq_false_2 by done.
  rewrite IH; [|done|done|by destruct acc].
  rewrite <- (app_assoc acc [COMMA] t). simpl. by rewrite tokens_app_comma, <- app_assoc.
Qed.

Lemma tokens_join ts :
  ts <> [] -> Forall (fun t => t <> []) ts -> Forall (Forall (fun c => c <> COMMA)) ts ->
  tokens (join ts) = ts.
Proof.
  intros Hts Hne Hnc. destruct ts as [|t ts]; [done|]. unfold join. simpl.
  apply Forall_cons_1 in Hne as [Ht Hne], Hnc as [Htc Hnc].
  change (add_entry [] t) with t. by rewrite tokens_join_from, tokens_single.
Qed.

(** ** Properties *)

(** match_pattern decides the usual meaning of "*" and "?" for every
    pattern that does not repeat "*" directly after "*". *)
Theorem match_pattern_correct (pattern s : list Z) :
  no_double_star pattern -> (match_pattern pattern s = true <-> Matches pattern s).
Proof.
  intros Hd. split; [apply match_pattern_sound|by apply match_pattern_complete].
Qed.

Lemma match_pattern_correct_witness :
  match_pattern (str "a*c?e") (str "abbcde") = true <-> Matches (str "a*c?e") (str "abbcde").
Proof.
  refine (match_pattern_correct (str "a*c?e") (str "abbcde") _).
  vm_compute. intuition discriminate.
Defined.

(** With "**" the function can refuse a string the pattern matches: "a**"
    does not accept "a", although "*" may stand for nothing. *)
Theorem match_pattern_double_star_refuses :
  Matches (str "a**") (str "a") /\ match_pattern (str "a**") (str "a") = false.
Proof.
  split; [|reflexivity]. apply M_char; [discriminate..|]. do 2 apply M_star_none. constructor.
Qed.

(** match_pattern_list answers -1 when some negated entry matches, else 1
    when some plain entry matches, else 0, wherever the entries stand in the
    list, as long as every entry is shorter than the 1023 byte scratch
    buffer; and it always answers. *)
Theorem match_pattern_list_correct (string pattern : list Z) (dolower : bool) :
  Forall (fun e => (length e < SUB_SIZE)%nat) (list_entries pattern) ->
  match_pattern_list string pattern dolower
  = Some (if existsb (entry_matches string dolower true) (list_entries pattern) then -1
          else if existsb (entry_matches string dolower false) (list_entries pattern) then 1 else 0).
Proof. intros He. by apply match_pattern_list_from_spec. Qed.

Lemma match_pattern_list_correct_witness :
  match_pattern_list (str "host.example") (str "*.example,!bad*") true = Some 1.
Proof.
  etransitivity; [refine (match_pattern_list_correct (str "host.example") (str "*.example,!bad*") true _)|].
  - apply (Forall_impl (fun e => (length e < 11)%nat)); [repeat constructor|].
    intros e He. unfold SUB_SIZE. lia.
  - reflexivity.
Defined.

(** Filtering a proposal keeps exactly the entries the filter selects, in
    their order, as a comma-separated list again. *)
Theorem filter_list_correct (proposal filt : list Z) (blacklist : bool) :
  Forall (fun t => t <> []) (tokens proposal) ->
  List.filter (keep_entry filt blacklist) (tokens proposal) <> [] ->
  tokens (filter_list proposal filt blacklist)
  = List.filter (keep_entry filt blacklist) (tokens proposal).
Proof.
  intros Hne Hk. rewrite filter_list_join. apply tokens_join; [done|..];
    apply List.Forall_forall; intros x [Hx _]%filter_In;
    [by eapply List.Forall_forall in Hne|eapply List.Forall_forall in Hx; [done|apply tokens_no_comma]].
Qed.

Lemma filter_list_correct_witness :
  tokens (filter_list (str "aes128-cbc,aes256-ctr,aes128-ctr") (str "*-cbc") true)
  = [str "aes256-ctr"; str "aes128-ctr"].
Proof.
  etransitivity;
    [refine (filter_list_correct (str "aes128-cbc,aes256-ctr,aes128-ctr") (str "*-cbc") true _ _)|].
  - vm_compute. repeat (apply List.Forall_cons; [discriminate|]). apply List.Forall_nil.
  - vm_compute. discriminate.
  - vm_compute. reflexivity.
Defined.
