(* ===== verification/AddrMatch.v ===== *)
(** * Address lists: addrmatch.c, and the host and user lists of match.c

    IPv4 and IPv6 addresses, netmasks, CIDR entries, the address lists sshd
    tests a peer against, and match_host_and_ip and match_user of match.c,
    which combine them with the wildcard lists.

    A [struct xaddr] keeps its 128 bits as the four words [addr32], each given
    by its value in network order (ntohl of the stored word): the operations
    of the source on stored words are bitwise, equality or under ntohl and
    htonl, so they are the same on these values.  [v4] is [addr32[0]] of the
    union, [addr8] the sixteen bytes of the words.  A function that fills a
    structure and returns 0 or -1 is an [option]; a [NULL] string is [None]. *)

From S2P Require Import Prelude CText Sshbuf Match.

(** ** Addresses *)

Definition AF_INET : Z := 2.
Definition AF_INET6 : Z := 10.

Record xaddr := mk_xaddr { xa_af : Z; addr32 : list Z; scope_id : Z }.

Definition v4 (a : xaddr) : Z := znth (addr32 a) 0.
Definition set_v4 (w : Z) (a : xaddr) : xaddr :=
  mk_xaddr (xa_af a) (w :: tail (addr32 a)) (scope_id a).
Definition addr8 (a : xaddr) : list Z := concat (map (be_bytes 4) (addr32 a)).
(** memset(xa, 0, sizeof *xa) *)
Definition zero_xaddr : xaddr := mk_xaddr 0 [0; 0; 0; 0] 0.

Definition addr_unicast_masklen (af : Z) : Z :=
  if af =? AF_INET then 32 else if af =? AF_INET6 then 128 else -1.

(** [masklen] is a [u_int]. *)
Definition masklen_valid (af masklen : Z) : bool :=
  if af =? AF_INET then masklen <=? 32
  else if af =? AF_INET6 then masklen <=? 128
  else false.

(** A socket address: the family, the length given with it, and the parts of
    [struct sockaddr_in] and [struct sockaddr_in6] the code reads. *)
Record sockaddr := mk_sockaddr {
  sa_family : Z; sa_len : Z; sin_addr : Z; sin6_addr : list Z; sin6_scope_id : Z
}.
Definition sizeof_sockaddr_in : Z := 16.
Definition sizeof_sockaddr_in6 : Z := 28.

Definition addr_sa_to_xaddr (sa : sockaddr) (slen : Z) : option xaddr :=
  if sa_family sa =? AF_INET then
    if slen <? sizeof_sockaddr_in then None
    else Some (mk_xaddr AF_INET [sin_addr sa; 0; 0; 0] 0)
  else if sa_family sa =? AF_INET6 then
    if slen <? sizeof_sockaddr_in6 then None
    else Some (mk_xaddr AF_INET6 (sin6_addr sa) (sin6_scope_id sa))
  else None.

(** (0xffffffff << (32 - l)) & 0xffffffff *)
Definition mask32 (l : Z) : Z := Z.land (Z.shiftl 0xffffffff (32 - l)) 0xffffffff.
(** The words of an IPv6 netmask: full words while [l] lasts, then at most
    one partial word, the rest stays zero. *)
Fixpoint netmask_words (n : nat) (l : Z) : list Z :=
  match n with
  | O => []
  | S n' =>
      if 32 <=? l then 0xffffffff :: netmask_words n' (l - 32)
      else (if l =? 0 then 0 else mask32 l) :: replicate n' 0
  end.
Definition addr_netmask (af l : Z) : option xaddr :=
  if negb (masklen_valid af l) then None
  else if af =? AF_INET then
    Some (if l =? 0 then mk_xaddr AF_INET [0; 0; 0; 0] 0
          else set_v4 (mask32 l) (mk_xaddr AF_INET [0; 0; 0; 0] 0))
  else if af =? AF_INET6 then Some (mk_xaddr AF_INET6 (netmask_words 4 l) 0)
  else None.

Definition addr_and (a b : xaddr) : option xaddr :=
  if negb (xa_af a =? xa_af b) then None
  else if xa_af a =? AF_INET then Some (set_v4 (Z.land (v4 a) (v4 b)) a)
  else if xa_af a =? AF_INET6
  then Some (mk_xaddr (xa_af a) (zip_with Z.land (addr32 a) (addr32 b)) (scope_id a))
  else None.

(** The loop over [addr8]: the first difference decides. *)
Fixpoint cmp_addr8 (a b : list Z) : Z :=
  match a, b with
  | x :: a', y :: b' =>
      if negb (x - y =? 0) then (if y <? x then 1 else -1) else cmp_addr8 a' b'
  | _, _ => 0
  end.
Definition addr_cmp (a b : xaddr) : Z :=
  if negb (xa_af a =? xa_af b) then (if xa_af a =? AF_INET6 then 1 else -1)
  else if xa_af a =? AF_INET then
    if v4 a =? v4 b then 0 else if v4 b <? v4 a then 1 else -1
  else if xa_af a =? AF_INET6 then
    let c := cmp_addr8 (addr8 a) (addr8 b) in
    if negb (c =? 0) then c
    else if scope_id a =? scope_id b then 0
    else if scope_id b <? scope_id a then 1 else -1
  else -1.

(** ~ on a 32 bit word. *)
Definition not32 (w : Z) : Z := u32 (Z.lnot w).
Definition addr_invert (n : xaddr) : option xaddr :=
  if xa_af n =? AF_INET then Some (set_v4 (not32 (v4 n)) n)
  else if xa_af n =? AF_INET6
  then Some (mk_xaddr (xa_af n) (map not32 (addr32 n)) (scope_id n))
  else None.

Definition addr_hostmask (af l : Z) : option xaddr :=
  n ← addr_netmask af l; addr_invert n.

Definition addr_is_all0s (a : xaddr) : bool :=
  if xa_af a =? AF_INET then v4 a =? 0
  else if xa_af a =? AF_INET6 then forallb (fun w => w =? 0) (addr32 a)
  else false.

Definition addr_host_is_all0s (a : xaddr) (masklen : Z) : bool :=
  match tmp_mask ← addr_hostmask (xa_af a) masklen; addr_and a tmp_mask with
  | Some tmp_result => addr_is_all0s tmp_result
  | None => false
  end.

Definition addr_netmatch (host net : xaddr) (masklen : Z) : Z :=
  if negb (xa_af host =? xa_af net) then -1
  else match tmp_mask ← addr_netmask (xa_af host) masklen; addr_and host tmp_mask with
       | Some tmp_result => addr_cmp tmp_result net
       | None => -1
       end.

(** ** Parsing

    getaddrinfo with AI_NUMERICHOST belongs to the C library's resolver: it
    parses the text of an address.  [None] is an error; [ai_addr] may be NULL
    as far as the code is concerned. *)
Record addrinfo := mk_addrinfo { ai_addr : option sockaddr; ai_addrlen : Z }.
Class Resolver := { getaddrinfo : list Z -> option addrinfo }.

Section parsing.
Context `{Resolver}.

Definition addr_pton (p : list Z) : option xaddr :=
  ai ← getaddrinfo p;
  sa ← ai_addr ai;
  addr_sa_to_xaddr sa (ai_addrlen ai).

Definition SLASH : Z := 47.
Definition AT : Z := 64.
(** strchr(s, c): what stands before the first [c], and what follows it. *)
Fixpoint split_at (c : Z) (s : list Z) : option (list Z * list Z) :=
  match s with
  | [] => None
  | x :: s' =>
      if x =? c then Some ([], s')
      else '(a, b) ← split_at c s'; Some (x :: a, b)
  end.

Definition ADDRBUF_SIZE : Z := 64.

(** The code it returns, -1 or -2, or the network and its mask length. *)
Definition addr_pton_cidr (p : list Z) : Z + (xaddr * Z) :=
  if ADDRBUF_SIZE <=? zlen p then inl (-1)
  else
    let '(addrbuf, mp) :=
      match split_at SLASH p with Some (a, m) => (a, Some m) | None => (p, None) end in
    let masklen :=
      match mp with
      | None => Some 999
      | Some mp =>
          let '(masklen, used) := strtoul mp in
          if bool_decide (mp = []) || negb (used =? zlen mp) || (128 <? masklen) then None
          else Some masklen
      end in
    match masklen, addr_pton addrbuf with
    | None, _ | _, None => inl (-1)
    | Some masklen, Some tmp =>
        let masklen :=
          match mp with None => addr_unicast_masklen (xa_af tmp) | Some _ => masklen end in
        if negb (masklen_valid (xa_af tmp) (u32 masklen)) then inl (-2)
        else if negb (addr_host_is_all0s tmp (u32 masklen)) then inl (-2)
        else inr (tmp, u32 masklen)
    end.

(** ** Lists of addresses *)

Context `{Allocator}.

(** One entry, as far as the loop of addr_match_list is concerned: it is
    invalid, or it is a match or not of the address tested, negated or not. *)
Fixpoint addr_match_entries (addr : option (list Z * xaddr)) (cps : list (list Z)) (ret : Z) : Z :=
  match cps with
  | [] => ret
  | cp :: cps' =>
      let '(neg, cp) := classify cp in
      if bool_decide (cp = []) then -2
      else
        let foundit :=
          if neg : bool then -1 else addr_match_entries addr cps' 1 in
        match addr_pton_cidr cp with
        | inr (match_addr, masklen) =>
            match addr with
            | Some (_, try_addr) =>
                if addr_netmatch try_addr match_addr masklen =? 0 then foundit
                else addr_match_entries addr cps' ret
            | None => addr_match_entries addr cps' ret
            end
        | inl r =>
            if r =? -2 then -2
            else match addr with
                 | Some (a, _) =>
                     if match_pattern cp a then foundit else addr_match_entries addr cps' ret
                 | None => addr_match_entries addr cps' ret
                 end
        end
  end.
Definition addr_match_list (addr : option (list Z)) (_list : list Z) : Z :=
  let go try_addr :=
    match strdup _list with
    | None => -1
    | Some l => addr_match_entries try_addr (tokens l) 0
    end in
  match addr with
  | None => go None
  | Some a =>
      match addr_pton a with
      | None => 0
      | Some try_addr => go (Some (a, try_addr))
      end
  end.

Definition INET6_ADDRSTRLEN : Z := 46.
Definition VALID_CIDR_CHARS : list Z := str "0123456789abcdefABCDEF.:/".
(** strspn(cp, VALID_CIDR_CHARS) == strlen(cp) *)
Definition only_cidr_chars (cp : list Z) : bool :=
  forallb (fun c => existsb (Z.eqb c) VALID_CIDR_CHARS) cp.

Fixpoint addr_match_cidr_entries (addr : option xaddr) (cps : list (list Z)) (ret : Z) : Z :=
  match cps with
  | [] => ret
  | cp :: cps' =>
      if bool_decide (cp = []) then -1
      else if INET6_ADDRSTRLEN + 3 <? zlen cp then -1
      else
        let ret := if only_cidr_chars cp then ret else -1 in
        match addr_pton_cidr cp with
        | inl _ => -1
        | inr (match_addr, masklen) =>
            match addr with
            | Some try_addr =>
                addr_match_cidr_entries addr cps'
                  (if addr_netmatch try_addr match_addr masklen =? 0 then 1 else ret)
            | None => addr_match_cidr_entries addr cps' ret
            end
        end
  end.
Definition addr_match_cidr_list (addr : option (list Z)) (_list : list Z) : Z :=
  let go try_addr :=
    match strdup _list with
    | None => -1
    | Some l => addr_match_cidr_entries try_addr (tokens l) 0
    end in
  match addr with
  | None => go None
  | Some a =>
      match addr_pton a with
      | None => 0
      | Some try_addr => go (Some try_addr)
      end
  end.

(** ** Hosts and users (match.c)

    [None] is a read through a NULL string.  xstrdup ends the process with
    fatal() when it cannot allocate, before anything is decided. *)

(** match_pattern on a string that may be NULL: only the pattern that is one
    single star is decided without reading the string. *)
Definition match_pattern_ptr (s : option (list Z)) (pattern : list Z) : option Z :=
  match s with
  | Some s => Some (Z.b2z (match_pattern pattern s))
  | None => if bool_decide (pattern = [STAR]) then Some 1 else None
  end.

Definition match_host_and_ip (host ipaddr : option (list Z)) (patterns : list Z) : option Z :=
  let mip := addr_match_list ipaddr patterns in
  if mip =? -2 then Some (-1)
  else match host, ipaddr with
       | Some host, Some _ =>
           if mip =? -1 then Some 0
           else
             mhost ← match_hostname host patterns;
             if mhost =? -1 then Some 0
             else if (mhost =? 0) && (mip =? 0) then Some 0
             else Some 1
       | _, _ => Some 0
       end.

Definition match_user (user host ipaddr : option (list Z)) (pattern : list Z) : option Z :=
  match user, host, ipaddr with
  | None, None, None =>
      match split_at AT pattern with
      | Some (_, p) =>
          r ← match_host_and_ip None None p;
          Some (if r <? 0 then -1 else 0)
      | None => Some 0
      end
  | _, _, _ =>
      match split_at AT pattern with
      | None => match_pattern_ptr user pattern
      | Some (pat, p) =>
          ret ← match_pattern_ptr user pat;
          if ret =? 1 then match_host_and_ip host ipaddr p else Some ret
      end
  end.

End parsing.

(** ** The value of an address *)

Definition is_u32 (w : Z) : Prop := 0 <= w < 2 ^ 32.

(** Words as one number, the first word the most significant. *)
Fixpoint words_val (ws : list Z) : Z :=
  match ws with
  | [] => 0
  | w :: ws' => w * 2 ^ (32 * Z.of_nat (length ws')) + words_val ws'
  end.

(** A well-formed address: a known family and four 32 bit words. *)
Definition xaddr_wf (a : xaddr) : Prop :=
  (xa_af a = AF_INET \/ xa_af a = AF_INET6) /\
  length (addr32 a) = 4%nat /\ Forall is_u32 (addr32 a).

Definition xa_width (a : xaddr) : Z := if xa_af a =? AF_INET then 32 else 128.
(** The address as a number of [xa_width] bits. *)
Definition xa_val (a : xaddr) : Z := if xa_af a =? AF_INET then v4 a else words_val (addr32 a).
(** The interface of a link-local address; IPv4 addresses have none. *)
Definition xa_scope (a : xaddr) : Z := if xa_af a =? AF_INET then 0 else scope_id a.
(** Its first [l] bits. *)
Definition xa_prefix (l : Z) (a : xaddr) : Z := xa_val a / 2 ^ (xa_width a - l).

Lemma words_val_range ws :
  Forall is_u32 ws -> 0 <= words_val ws < 2 ^ (32 * Z.of_nat (length ws)).
Proof.
  induction 1 as [|w ws Hw _ IH]; [done|]. cbn [words_val length]. unfold is_u32 in Hw.
  replace (32 * Z.of_nat (S (length ws))) with (32 + 32 * Z.of_nat (length ws)) by lia.
  rewrite Z.pow_add_r by lia. nia.
Qed.

Lemma words_val_inj ws ws' :
  Forall is_u32 ws -> Forall is_u32 ws' -> length ws = length ws' ->
  words_val ws = words_val ws' -> ws = ws'.
Proof.
  intros Hws. revert ws'. induction Hws as [|w ws Hw Hws IH]; intros ws' Hws' Hl Hv.
  { by destruct ws'. }
  destruct ws' as [|w' ws']; [done|]. injection Hl as Hl. apply Forall_cons in Hws' as [Hw' Hws'].
  cbn [words_val] in Hv. rewrite <- Hl in Hv.
  pose proof (words_val_range _ Hws) as Hr. pose proof (words_val_range _ Hws') as Hr'.
  rewrite <- Hl in Hr'. set (B := 2 ^ _) in *.
  assert (w = w') as <- by nia. f_equal. apply IH; [done..|]. lia.
Qed.

(** ** Masks *)

Lemma testbit_u32_high w i : is_u32 w -> 32 <= i -> Z.testbit w i = false.
Proof.
  intros Hw Hi. destruct (Z.eq_dec w 0) as [->|]; [apply Z.bits_0|].
  apply Z.bits_above_log2; [unfold is_u32 in Hw; lia|].
  assert (Z.log2 w < 32) by (apply Z.log2_lt_pow2; unfold is_u32 in Hw; lia). lia.
Qed.
Lemma testbit_ones32 i : 0 <= i -> Z.testbit 0xffffffff i = (i <? 32).
Proof. intros. change 0xffffffff with (Z.ones 32). rewrite Z.testbit_ones; lia. Qed.

Lemma mask32_bits l i : 0 <= l <= 32 -> 0 <= i -> Z.testbit (mask32 l) i = (32 - l <=? i) && (i <? 32).
Proof.
  intros Hl Hi. unfold mask32. rewrite Z.land_spec, testbit_ones32 by lia.
  rewrite Z.shiftl_spec by lia. destruct (Z.leb_spec (32 - l) i).
  - rewrite testbit_ones32 by lia. simpl. destruct (Z.ltb_spec (i - (32 - l)) 32), (Z.ltb_spec i 32); simpl; lia || done.
  - rewrite Z.testbit_neg_r by lia. done.
Qed.

(** Masking a word keeps its first [l] bits. *)
Lemma land_mask32 w l :
  is_u32 w -> 0 <= l <= 32 -> Z.land w (mask32 l) = w / 2 ^ (32 - l) * 2 ^ (32 - l).
Proof.
  intros Hw Hl. rewrite <- Z.shiftr_div_pow2, <- Z.shiftl_mul_pow2 by lia.
  apply Z.bits_inj'. intros i Hi. rewrite Z.land_spec, mask32_bits by lia.
  rewrite Z.shiftl_spec by lia. destruct (Z.leb_spec (32 - l) i).
  - rewrite Z.shiftr_spec by lia. replace (i - (32 - l) + (32 - l)) with i by lia.
    destruct (Z.ltb_spec i 32); [by rewrite andb_true_r|].
    by rewrite testbit_u32_high, andb_false_r.
  - by rewrite (Z.testbit_neg_r _ (i - (32 - l))), andb_false_r by lia.
Qed.
Lemma land_full w : is_u32 w -> Z.land w 0xffffffff = w.
Proof. intros. change 0xffffffff with (Z.ones 32). rewrite Z.land_ones by lia. by apply Z.mod_small. Qed.
Lemma mask32_or_zero l : 0 <= l -> (if l =? 0 then 0 else mask32 l) = mask32 l.
Proof. intros. destruct (Z.eqb_spec l 0) as [->|]; done. Qed.
Lemma land_u32 w m : is_u32 w -> 0 <= m -> is_u32 (Z.land w m).
Proof.
  intros Hw Hm. unfold is_u32 in *. assert (0 <= Z.land w m) by (apply Z.land_nonneg; lia).
  split; [done|]. destruct (Z.eq_dec (Z.land w m) 0) as [->|]; [lia|].
  apply Z.log2_lt_cancel. eapply Z.le_lt_trans; [apply Z.log2_land; lia|].
  rewrite Z.log2_pow2 by lia. apply Z.min_lt_iff. left.
  destruct (Z.eq_dec w 0) as [->|]; [by rewrite Z.land_0_l in *|]. apply Z.log2_lt_pow2; lia.
Qed.

Lemma div_mul_app w v n k :
  0 <= v < 2 ^ n -> 0 <= k <= n ->
  (w * 2 ^ n + v) / 2 ^ k * 2 ^ k = w * 2 ^ n + v / 2 ^ k * 2 ^ k.
Proof.
  intros Hv Hk. replace (2 ^ n) with (2 ^ (n - k) * 2 ^ k) by (rewrite <- Z.pow_add_r; [f_equal; lia|lia..]).
  rewrite Z.mul_assoc, Z.div_add_l by lia. lia.
Qed.
Lemma div_mul_drop w v n k :
  0 <= v < 2 ^ n -> 0 <= n -> 0 <= k ->
  (w * 2 ^ n + v) / 2 ^ (n + k) * 2 ^ (n + k) = w / 2 ^ k * 2 ^ k * 2 ^ n.
Proof.
  intros Hv Hn Hk. rewrite Z.pow_add_r, <- Z.div_div, Z.div_add_l by lia.
  rewrite (Z.div_small v) by lia. rewrite Z.add_0_r. lia.
Qed.

Lemma zip_land_zeros ws n : zip_with Z.land ws (replicate n 0) = replicate (Nat.min (length ws) n) 0.
Proof.
  revert n. induction ws as [|w ws IH]; intros [|n]; simpl; [done..|]. by rewrite Z.land_0_r, IH.
Qed.
Lemma words_val_zeros n : words_val (replicate n 0) = 0.
Proof. induction n; simpl; lia. Qed.

Lemma length_netmask_words n l : length (netmask_words n l) = n.
Proof.
  revert l. induction n as [|n IH]; intros l; [done|]. simpl.
  destruct (32 <=? l); simpl; by rewrite ?IH, ?length_replicate.
Qed.

(** Masking keeps the first [l] bits of the number. *)
Lemma words_val_mask ws l :
  Forall is_u32 ws -> 0 <= l <= 32 * Z.of_nat (length ws) ->
  let k := 32 * Z.of_nat (length ws) - l in
  words_val (zip_with Z.land ws (netmask_words (length ws) l)) = words_val ws / 2 ^ k * 2 ^ k.
Proof.
  intros Hws. revert l. induction Hws as [|w ws Hw Hws IH]; intros l Hl; cbv zeta.
  { simpl in *. rewrite Z.div_0_l; [done|]. apply Z.pow_nonzero; lia. }
  cbn [length netmask_words] in *. pose proof (words_val_range _ Hws) as Hr.
  destruct (Z.leb_spec 32 l); cbn [zip_with words_val].
  - rewrite land_full by done. rewrite IH by lia.
    rewrite length_zip_with, length_netmask_words, Nat.min_id.
    replace (32 * Z.of_nat (S (length ws)) - l) with (32 * Z.of_nat (length ws) - (l - 32)) by lia.
    by rewrite div_mul_app by lia.
  - rewrite mask32_or_zero, land_mask32 by lia || done.
    rewrite zip_land_zeros, Nat.min_id, words_val_zeros, length_replicate.
    replace (32 * Z.of_nat (S (length ws)) - l) with (32 * Z.of_nat (length ws) + (32 - l)) by lia.
    rewrite div_mul_drop by lia. lia.
Qed.

(** ** Comparison *)

(** The sign of a comparison, as the C functions report it. *)
Definition order (c : comparison) : Z := match c with Lt => -1 | Eq => 0 | Gt => 1 end.
Lemma order_Z x y : (if x =? y then 0 else if y <? x then 1 else -1) = order (x ?= y).
Proof. destruct (Z.compare_spec x y), (Z.eqb_spec x y), (Z.ltb_spec y x); simpl; lia. Qed.

Lemma be_val_app acc l l' : be_val acc (l ++ l') = be_val (be_val acc l) l'.
Proof. revert acc. induction l; simpl; done. Qed.
Lemma be_val_acc acc l : be_val acc l = acc * 2 ^ (8 * zlen l) + be_val 0 l.
Proof.
  revert acc. induction l as [|b l IH]; intros acc; cbn [be_val].
  { change (2 ^ (8 * zlen (@nil Z))) with 1. lia. }
  rewrite (IH (acc * 256 + b)), (IH (0 * 256 + b)).
  rewrite zlen_cons. replace (8 * (1 + zlen l)) with (8 + 8 * zlen l) by lia.
  rewrite Z.pow_add_r by (zlen_facts; lia). lia.
Qed.

Lemma cmp_addr8_order a b acc :
  Forall is_u8 a -> Forall is_u8 b -> length a = length b -> 0 <= acc ->
  cmp_addr8 a b = order (be_val acc a ?= be_val acc b).
Proof.
  intros Ha. revert b acc. induction Ha as [|x a Hx Ha IH]; intros b acc Hb Hl Hacc.
  { destruct b; [|done]. by rewrite Z.compare_refl. }
  destruct Hb as [|y b Hy Hb]; [done|]. injection Hl as Hl. cbn [cmp_addr8 be_val].
  unfold is_u8 in Hx, Hy. destruct (Z.eqb_spec (x - y) 0) as [Heq|Hne]; cbn [negb].
  { replace y with x by lia. apply IH; [done..|lia]. }
  pose proof (be_val_range (acc * 256 + x) a ltac:(lia) Ha) as Hra.
  pose proof (be_val_range (acc * 256 + y) b ltac:(lia) Hb) as Hrb.
  assert (zlen b = zlen a) as Hz by (unfold zlen; lia). rewrite Hz in Hrb.
  set (B := 2 ^ _) in *. assert (0 < B) by (apply Z.pow_pos_nonneg; [lia|zlen_facts; lia]).
  destruct (Z.ltb_spec y x).
  - rewrite (proj2 (Z.compare_gt_iff _ _)); [done|]. nia.
  - rewrite (proj2 (Z.compare_lt_iff _ _)); [done|]. nia.
Qed.

Lemma zlen_addr8_words ws : zlen (concat (map (be_bytes 4) ws)) = 4 * zlen ws.
Proof.
  induction ws as [|w ws IH]; [done|]. cbn [map concat]. rewrite zlen_app, IH, zlen_cons.
  unfold zlen at 1. rewrite length_be_bytes. lia.
Qed.
Lemma addr8_words_u8 ws : Forall is_u8 (concat (map (be_bytes 4) ws)).
Proof.
  induction ws; cbn [map concat]; [constructor|]. apply Forall_app. split; [apply be_bytes_u8|done].
Qed.
Lemma words_val_addr8 ws :
  Forall is_u32 ws -> be_val 0 (concat (map (be_bytes 4) ws)) = words_val ws.
Proof.
  induction 1 as [|w ws Hw _ IH]; [done|]. cbn [map concat words_val].
  rewrite be_val_app, be_val_bytes, be_val_acc, IH, zlen_addr8_words.
  rewrite Z.mod_small by done. unfold zlen. do 3 f_equal. lia.
Qed.
Lemma order_neq_0 c : negb (order c =? 0) = match c with Eq => false | _ => true end.
Proof. by destruct c. Qed.

(** addr_cmp orders addresses by family, then number, then interface. *)
Definition xaddr_compare (a b : xaddr) : comparison :=
  match xa_af a ?= xa_af b with
  | Eq => match xa_val a ?= xa_val b with
          | Eq => xa_scope a ?= xa_scope b
          | c => c
          end
  | c => c
  end.

Lemma addr_cmp_order a b : xaddr_wf a -> xaddr_wf b -> addr_cmp a b = order (xaddr_compare a b).
Proof.
  intros (Hfa & Hla & Hwa) (Hfb & Hlb & Hwb). unfold addr_cmp, xaddr_compare, xa_val, xa_scope.
  destruct (Z.eqb_spec (xa_af a) (xa_af b)) as [Hab|Hab]; cbn [negb].
  - rewrite <- Hab, Z.compare_refl. destruct Hfa as [-> | ->]; cbn.
    + rewrite order_Z. by destruct (v4 a ?= v4 b).
    + rewrite (cmp_addr8_order _ _ 0); [|apply addr8_words_u8..| |lia].
      2: { apply Nat2Z.inj. change (zlen (addr8 a) = zlen (addr8 b)). unfold addr8.
           rewrite !zlen_addr8_words. unfold zlen. by rewrite Hla, Hlb. }
      unfold addr8. rewrite !words_val_addr8 by done.
      rewrite order_neq_0, order_Z. by destruct (words_val (addr32 a) ?= words_val (addr32 b)).
  - destruct Hfa as [Ha|Ha], Hfb as [Hb|Hb]; rewrite Ha, Hb in *; done.
Qed.

Lemma xaddr_compare_eq a b :
  xaddr_compare a b = Eq <-> xa_af a = xa_af b /\ xa_val a = xa_val b /\ xa_scope a = xa_scope b.
Proof.
  unfold xaddr_compare.
  destruct (Z.compare_spec (xa_af a) (xa_af b)), (Z.compare_spec (xa_val a) (xa_val b)),
    (Z.compare_spec (xa_scope a) (xa_scope b)); (split; [intros; try done; auto|intros (?&?&?); lia || done]).
Qed.
Lemma addr_cmp_0 a b :
  xaddr_wf a -> xaddr_wf b ->
  (addr_cmp a b = 0 <-> xa_af a = xa_af b /\ xa_val a = xa_val b /\ xa_scope a = xa_scope b).
Proof.
  intros. rewrite addr_cmp_order, <- xaddr_compare_eq by done. by destruct (xaddr_compare a b).
Qed.

(** ** Networks *)

Lemma mask32_nonneg l : 0 <= mask32 l.
Proof. unfold mask32. apply Z.land_nonneg. lia. Qed.
Lemma netmask_words_nonneg n l : Forall (Z.le 0) (netmask_words n l).
Proof.
  revert l. induction n as [|n IH]; intros l; cbn [netmask_words]; [constructor|].
  destruct (32 <=? l); [by constructor|]. constructor; [|by apply Forall_replicate].
  destruct (l =? 0); [done|apply mask32_nonneg].
Qed.

#[local] Arguments netmask_words : simpl never.

Definition masked (a : xaddr) (l : Z) : option xaddr :=
  tmp_mask ← addr_netmask (xa_af a) l; addr_and a tmp_mask.

Lemma masked_spec a l :
  xaddr_wf a -> 0 <= l <= xa_width a ->
  exists r, masked a l = Some r /\ xaddr_wf r /\ xa_af r = xa_af a /\ xa_scope r = xa_scope a /\
    xa_val r = xa_prefix l a * 2 ^ (xa_width a - l).
Proof.
  intros (Hf & Hl4 & Hw) Hl. unfold masked, addr_netmask, addr_and, xa_prefix, xa_width, xa_scope, xa_val in *.
  destruct a as [af ws sc]. simpl in *. destruct Hf as [-> | ->]; cbn in *.
  - destruct ws as [|w ws]; [done|]. apply Forall_cons in Hw as [Hw Hws]. unfold v4 at 2. cbn.
    rewrite (proj2 (Z.leb_le _ _)) by lia. cbn. exists (mk_xaddr AF_INET (Z.land w (mask32 l) :: ws) sc).
    split.
    { destruct (Z.eqb_spec l 0) as [->|]; done. }
    split_and!; [|done..|by rewrite land_mask32 by (done || lia)].
    split; [by left|]. split; [done|]. apply Forall_cons. split; [|done]. apply land_u32; [done|].
    apply mask32_nonneg.
  - rewrite (proj2 (Z.leb_le _ _)) by lia. cbn [negb mbind option_bind xa_af addr32 Z.eqb].
    exists (mk_xaddr AF_INET6 (zip_with Z.land ws (netmask_words 4 l)) sc). split; [done|].
    assert (Hlen : length (zip_with Z.land ws (netmask_words 4 l)) = 4%nat)
      by (rewrite length_zip_with, length_netmask_words, Hl4; done).
    split_and!; [|done..|].
    + split; [by right|]. split; [done|]. apply (Forall_zip_with_fst _ _ _ _ _ Hw).
      eapply Forall_impl; [apply netmask_words_nonneg|]. intros m Hm w Hw'. by apply land_u32.
    + pose proof (words_val_mask ws l Hw) as Hv. rewrite Hl4 in Hv. apply Hv. lia.
Qed.

Lemma land_not32 w m : is_u32 w -> (Z.land w (not32 m) =? 0) = (Z.land w m =? w).
Proof.
  intros Hw. unfold not32, u32. apply eq_true_iff_eq. rewrite !Z.eqb_eq.
  rewrite <- Z.land_ones, Z.land_assoc, (Z.land_comm _ (Z.ones 32)), Z.land_assoc by lia.
  rewrite (Z.land_comm (Z.ones 32) w). change (Z.ones 32) with 0xffffffff. rewrite land_full by done.
  rewrite <- Z.ldiff_land. split; intros Heq.
  - pose proof (Z.lor_ldiff_and w m) as Hlor. by rewrite Heq, Z.lor_0_l in Hlor.
  - rewrite <- Heq, Z.ldiff_land, <- Z.land_assoc, Z.land_lnot_diag. apply Z.land_0_r.
Qed.
Lemma forallb_not32 ws ms :
  Forall is_u32 ws -> length ws = length ms ->
  forallb (fun w => w =? 0) (zip_with Z.land ws (map not32 ms))
  = bool_decide (zip_with Z.land ws ms = ws).
Proof.
  intros Hws. revert ms. induction Hws as [|w ws Hw _ IH]; intros [|m ms] Hl; simplify_eq/=; [done|].
  rewrite land_not32, IH by done. apply eq_true_iff_eq.
  rewrite andb_true_iff, Z.eqb_eq, !bool_decide_eq_true.
  split; [intros [Hx Hy]; by rewrite Hx, Hy|by intros [= Hx Hy]].
Qed.

(** The host part is zero when masking changes nothing. *)
Lemma host_is_all0s_spec a l :
  xaddr_wf a -> 0 <= l <= xa_width a ->
  (addr_host_is_all0s a l = true <-> xa_val a = xa_prefix l a * 2 ^ (xa_width a - l)).
Proof.
  intros Hwf Hl. destruct (masked_spec a l Hwf Hl) as (r & Hm & (Hfr & Hlr & Hwr) & Haf & _ & <-).
  destruct Hwf as (Hf & Hl4 & Hw). revert Hm.
  unfold masked, addr_host_is_all0s, addr_hostmask, addr_netmask, addr_invert, addr_and, addr_is_all0s,
    xa_val, xa_width in *.
  rewrite !Haf in *. destruct a as [af ws sc]. cbn in *. destruct Hf as [-> | ->]; cbn in *.
  - destruct ws as [|w ws]; [done|]. apply Forall_cons in Hw as [Hw _].
    rewrite (proj2 (Z.leb_le _ _)) by lia. cbn.
    set (m := if l =? 0 then _ else _). unfold v4; cbn.
    assert (Hm32 : xa_af m = AF_INET) by (by subst m; destruct (l =? 0)).
    rewrite Hm32. cbn. intros [= <-]. cbn. rewrite Hm32. cbn. unfold v4. cbn.
    change (Z.to_nat 0) with 0%nat. cbn. rewrite land_not32, Z.eqb_eq by done. done.
  - rewrite (proj2 (Z.leb_le _ _)) by lia. cbn -[netmask_words]. intros [= <-]. cbn -[netmask_words].
    rewrite forallb_not32, bool_decide_eq_true by (done || by rewrite length_netmask_words).
    split; [by intros ->|]. intros Hv. symmetry. apply words_val_inj; [done..|by rewrite Hl4|done].
Qed.

(** [host] lies in the network [net]/[l]: same family, same first [l] bits
    and, for IPv6, same interface. *)
Definition in_network (host net : xaddr) (l : Z) : bool :=
  (xa_af host =? xa_af net) && (xa_prefix l host =? xa_prefix l net) && (xa_scope host =? xa_scope net).

(** A network: its host part is zero. *)
Definition network_wf (net : xaddr) (l : Z) : Prop :=
  xaddr_wf net /\ 0 <= l <= xa_width net /\ addr_host_is_all0s net l = true.

Lemma xa_width_af a b : xa_af a = xa_af b -> xa_width a = xa_width b.
Proof. unfold xa_width. by intros ->. Qed.

Lemma netmatch_spec host net l :
  xaddr_wf host -> network_wf net l ->
  (addr_netmatch host net l =? 0) = in_network host net l.
Proof.
  intros Hh (Hn & Hl & Hz). unfold addr_netmatch, in_network.
  destruct (Z.eqb_spec (xa_af host) (xa_af net)) as [Haf|]; [|done]. cbn [negb andb].
  fold (masked host l).
  apply host_is_all0s_spec in Hz; [|done..]. pose proof (xa_width_af _ _ Haf) as Hwd.
  destruct (masked_spec host l) as (r & -> & Hr & Hraf & Hrsc & Hrv); [done|by rewrite Hwd|].
  apply eq_true_iff_eq. rewrite andb_true_iff, !Z.eqb_eq, addr_cmp_0 by done.
  rewrite Hrsc, Hraf, Hrv, Hwd, Hz. assert (0 < 2 ^ (xa_width net - l)) by (apply Z.pow_pos_nonneg; lia).
  rewrite Z.mul_cancel_r by lia. tauto.
Qed.

(** ** Parsing *)

(** What getaddrinfo stores are 32 bit words, four of them for IPv6. *)
Class ResolverOk `{Resolver} : Prop :=
  resolver_ok : forall p ai sa, getaddrinfo p = Some ai -> ai_addr ai = Some sa ->
    is_u32 (sin_addr sa) /\ length (sin6_addr sa) = 4%nat /\ Forall is_u32 (sin6_addr sa).

Section parse_lemmas.
Context `{ResolverOk}.

Lemma addr_pton_wf p a : addr_pton p = Some a -> xaddr_wf a.
Proof.
  unfold addr_pton. destruct (getaddrinfo p) as [ai|] eqn:Ep; [|done]. simpl.
  destruct (ai_addr ai) as [sa|] eqn:Ea; [|done]. simpl.
  destruct (resolver_ok _ _ _ Ep Ea) as (H4 & Hl & H6).
  unfold addr_sa_to_xaddr, xaddr_wf. repeat case_match; intros [= <-]; simpl.
  - split; [by left|]. split; [done|]. constructor; [done|]. repeat (constructor; [done|]). constructor.
  - split; [by right|]. done.
Qed.

Lemma masklen_valid_width a l : xaddr_wf a -> masklen_valid (xa_af a) l = true -> l <= xa_width a.
Proof.
  intros [Hf _]. unfold masklen_valid, xa_width. destruct Hf as [-> | ->]; cbn; lia.
Qed.

(** What addr_pton_cidr accepts is a network. *)
Lemma addr_pton_cidr_wf p net l : addr_pton_cidr p = inr (net, l) -> network_wf net l.
Proof.
  unfold addr_pton_cidr. destruct (_ <=? _); [done|].
  destruct (match split_at SLASH p with Some (a, m) => _ | None => _ end) as [buf mp].
  destruct (match mp with None => _ | Some _ => _ end) as [m|]; [|done].
  destruct (addr_pton buf) as [tmp|] eqn:Et; [|done]. apply addr_pton_wf in Et. cbv zeta.
  set (m' := match mp with None => _ | Some _ => _ end).
  destruct (masklen_valid _ _) eqn:Ev; [|done]. cbn [negb].
  destruct (addr_host_is_all0s _ _) eqn:Ez; [|done]. cbn [negb]. intros [= <- <-].
  split; [done|]. split; [|done]. split; [apply u32_range|by apply masklen_valid_width].
Qed.

Lemma addr_pton_cidr_codes p r : addr_pton_cidr p = inl r -> r = -1 \/ r = -2.
Proof. unfold addr_pton_cidr. repeat case_match; intros [=]; auto. Qed.

(** ** What an entry of an address list means *)

Definition entry_negated (e : list Z) : bool := fst (classify e).
(** Empty, or a network whose mask length does not fit it. *)
Definition entry_invalid (e : list Z) : bool :=
  bool_decide (snd (classify e) = []) ||
  match addr_pton_cidr (snd (classify e)) with inl r => r =? -2 | inr _ => false end.
(** The address lies in the network, or its text matches the pattern. *)
Definition entry_covers (addr : list Z) (a : xaddr) (e : list Z) : bool :=
  match addr_pton_cidr (snd (classify e)) with
  | inr (net, l) => in_network a net l
  | inl _ => match_pattern (snd (classify e)) addr
  end.

(** The first invalid or negated matching entry decides. *)
Definition stops (addr : list Z) (a : xaddr) (e : list Z) : bool :=
  entry_invalid e || (entry_negated e && entry_covers addr a e).
Definition addr_verdict (addr : list Z) (a : xaddr) (es : list (list Z)) (ret : Z) : Z :=
  match List.find (stops addr a) es with
  | Some e => if entry_invalid e then -2 else -1
  | None => if existsb (entry_covers addr a) es then 1 else ret
  end.

Lemma addr_match_entries_spec addr a es ret :
  xaddr_wf a -> addr_match_entries (Some (addr, a)) es ret = addr_verdict addr a es ret.
Proof.
  intros Ha. revert ret. induction es as [|e es IH]; intros ret; [done|].
  unfold addr_verdict. cbn [addr_match_entries List.find existsb].
  unfold stops at 1, entry_invalid at 1, entry_covers at 1 2, entry_negated at 1.
  destruct (classify e) as [neg cp] eqn:Ec. cbn [fst snd].
  assert (Hi : entry_invalid e = bool_decide (cp = []) ||
    match addr_pton_cidr cp with inl r => r =? -2 | inr _ => false end)
    by (unfold entry_invalid; by rewrite Ec).
  destruct (bool_decide (cp = [])) eqn:Ecp; cbn [orb] in *; [by rewrite Hi|].
  destruct (addr_pton_cidr cp) as [r|[net l]] eqn:Er.
  - destruct (r =? -2) eqn:Er2; cbn [orb]; [by rewrite Hi|].
    destruct (match_pattern cp addr), neg; cbn [andb orb]; rewrite ?Hi, ?IH; try done.
    unfold addr_verdict. destruct (List.find _ es); [done|]. by destruct (existsb _ es).
  - cbn [orb]. rewrite netmatch_spec by (done || by eapply addr_pton_cidr_wf).
    destruct (in_network a net l), neg; cbn [andb orb]; rewrite ?Hi, ?IH; try done.
    unfold addr_verdict. destruct (List.find _ es); [done|]. by destruct (existsb _ es).
Qed.

Lemma addr_match_entries_null es ret :
  addr_match_entries None es ret = if existsb entry_invalid es then -2 else ret.
Proof.
  revert ret. induction es as [|e es IH]; intros ret; [done|].
  cbn [addr_match_entries existsb]. unfold entry_invalid at 1.
  destruct (classify e) as [neg cp]. cbn [snd].
  destruct (bool_decide (cp = [])); [done|]. cbn [orb].
  destruct (addr_pton_cidr cp) as [r|[net l]]; [|apply IH]. destruct (r =? -2); [done|]. apply IH.
Qed.
End parse_lemmas.

(** ** Hosts and users *)

Lemma split_at_app c a b : Forall (fun x => x <> c) a -> split_at c (a ++ c :: b) = Some (a, b).
Proof.
  induction 1 as [|x a Hx _ IH]; simpl; [by rewrite Z.eqb_refl|].
  rewrite (proj2 (Z.eqb_neq _ _)), IH by done. done.
Qed.

Lemma verdict_cases `{Resolver} addr a es :
  if existsb (stops addr a) es then addr_verdict addr a es 0 = -1 \/ addr_verdict addr a es 0 = -2
  else addr_verdict addr a es 0 = Z.b2z (existsb (entry_covers addr a) es).
Proof.
  unfold addr_verdict. destruct (List.find (stops addr a) es) as [e|] eqn:Ef.
  - apply find_some in Ef as [Hin Hs]. rewrite (proj2 (existsb_exists (stops addr a) es)) by eauto.
    destruct (entry_invalid e); auto.
  - assert (existsb (stops addr a) es = false) as ->.
    { apply not_true_iff_false. intros (e & Hin & Hs)%existsb_exists.
      by rewrite (find_none _ _ Ef e Hin) in Hs. }
    by destruct (existsb _ es).
Qed.

(** The host list accepts the peer [host] at [ip]: no entry is invalid, no
    negated entry covers the address or matches the name, and some plain
    entry does. *)
Definition host_list_accepts `{Resolver} (host ip : list Z) (a : xaddr) (l : list Z) : bool :=
  let name := map tolower host in
  negb (existsb (stops ip a) (tokens l)) &&
  negb (existsb (entry_matches name true true) (list_entries l)) &&
  (existsb (entry_covers ip a) (tokens l) || existsb (entry_matches name true false) (list_entries l)).

Section host_lemmas.
Context `{ResolverOk} `{Allocator}.

Lemma addr_match_list_run ip a l :
  addr_pton ip = Some a -> is_Some (heap_alloc (zlen l + 1)) ->
  addr_match_list (Some ip) l = addr_verdict ip a (tokens l) 0.
Proof.
  intros Hp [x Hx]. unfold addr_match_list, strdup. rewrite Hp, Hx. simpl.
  by apply addr_match_entries_spec, (addr_pton_wf ip).
Qed.

Lemma match_host_and_ip_run host ip a l :
  addr_pton ip = Some a -> is_Some (heap_alloc (zlen l + 1)) ->
  Forall (fun e => (length e < SUB_SIZE)%nat) (list_entries l) ->
  exists r, match_host_and_ip (Some host) (Some ip) l = Some r /\
    (r = 1 <-> host_list_accepts host ip a l = true).
Proof.
  intros Hp Hx He. unfold match_host_and_ip, host_list_accepts, match_hostname, match_pattern_list.
  rewrite (addr_match_list_run _ _ _ Hp Hx), match_pattern_list_from_spec by done.
  pose proof (verdict_cases ip a (tokens l)) as Hv. cbn [mbind option_bind]. unfold list_verdict.
  destruct (existsb (stops ip a) _); cbn [negb andb].
  - destruct Hv as [-> | ->]; simpl; (eexists; split; [done|by split]).
  - rewrite Hv. destruct (existsb (entry_covers ip a) _), (existsb (entry_matches _ true true) _),
      (existsb (entry_matches _ true false) _); simpl; (eexists; split; [done|by split]).
Qed.
End host_lemmas.

(** ** Properties *)

(** A resolver that knows a few addresses. *)
Definition v4_info (w : Z) : option addrinfo :=
  Some (mk_addrinfo (Some (mk_sockaddr AF_INET 16 w [0; 0; 0; 0] 0)) 16).
Definition v6_info (w0 w3 scope : Z) : option addrinfo :=
  Some (mk_addrinfo (Some (mk_sockaddr AF_INET6 28 0 [w0; 0; 0; w3] scope)) 28).
#[local] Instance demo_resolver : Resolver := {| getaddrinfo p :=
  if bytes_eqb p (str "10.0.0.0") then v4_info 0x0a000000
  else if bytes_eqb p (str "10.1.2.3") then v4_info 0x0a010203
  else if bytes_eqb p (str "10.1.2.0") then v4_info 0x0a010200
  else if bytes_eqb p (str "fe80::") then v6_info 0xfe800000 0 0
  else if bytes_eqb p (str "fe80::1") then v6_info 0xfe800000 1 0
  else None |}.
#[local] Instance demo_resolver_ok : ResolverOk.
Proof.
  intros p ai sa. cbn. unfold v4_info, v6_info.
  repeat case_match; try done; intros [= <-] [= <-]; cbn; split_and!; try (by repeat constructor); lia.
Qed.
#[local] Instance addr_heap : Allocator := {| heap_alloc _ := Some 4096; page_size := 4096 |}.
Lemma demo_alloc n : is_Some (@heap_alloc addr_heap n).
Proof. by eexists. Qed.

(** addr_netmatch answers 0 exactly when the address lies in the network:
    for every address and every network that addr_pton and addr_pton_cidr
    accept, the families agree, the first bits up to the mask length agree
    and, for IPv6, the interfaces do. *)
Theorem addr_netmatch_correct `{Resolver} `{!ResolverOk} (addr cidr : list Z) (host net : xaddr) (l : Z) :
  addr_pton addr = Some host -> addr_pton_cidr cidr = inr (net, l) ->
  (addr_netmatch host net l = 0 <->
   xa_af host = xa_af net /\ xa_val host / 2 ^ (xa_width host - l) = xa_val net / 2 ^ (xa_width net - l) /\
   xa_scope host = xa_scope net).
Proof.
  intros Hh%addr_pton_wf Hn%addr_pton_cidr_wf.
  rewrite <- Z.eqb_eq, netmatch_spec by done. unfold in_network, xa_prefix.
  rewrite !andb_true_iff, !Z.eqb_eq. tauto.
Qed.

Lemma addr_netmatch_correct_witness :
  exists host net l, addr_pton (str "10.1.2.3") = Some host /\
    addr_pton_cidr (str "10.0.0.0/8") = inr (net, l) /\ addr_netmatch host net l = 0.
Proof.
  eexists _, _, _. split; [reflexivity|]. split; [reflexivity|].
  refine (proj2 (addr_netmatch_correct (str "10.1.2.3") (str "10.0.0.0/8") _ _ _ eq_refl eq_refl) _).
  vm_compute. auto.
Defined.

(** addr_match_list answers with the first entry that is invalid (-2) or
    negated and covering the address (-1); when there is none, with 1 if some
    entry covers the address and 0 if none does.  Only an address that does
    not parse is answered with 0 unread; without an address the list is only
    validated. *)
Theorem addr_match_list_correct `{Resolver} `{!ResolverOk} `{Allocator} (addr _list : list Z) :
  is_Some (heap_alloc (zlen _list + 1)) ->
  addr_match_list (Some addr) _list
  = match addr_pton addr with
    | None => 0
    | Some a =>
        match List.find (stops addr a) (tokens _list) with
        | Some e => if entry_invalid e then -2 else -1
        | None => if existsb (entry_covers addr a) (tokens _list) then 1 else 0
        end
    end /\
  addr_match_list None _list = if existsb entry_invalid (tokens _list) then -2 else 0.
Proof.
  intros Hx. split.
  - destruct (addr_pton addr) as [a|] eqn:Hp; [by apply addr_match_list_run|].
    unfold addr_match_list. by rewrite Hp.
  - unfold addr_match_list, strdup. destruct Hx as [x ->]. apply addr_match_entries_null.
Qed.

Lemma addr_match_list_correct_witness :
  addr_match_list (Some (str "10.1.2.3")) (str "10.0.0.0/8,!10.1.2.0/24") = -1 /\
  addr_match_list None (str "10.1.2.3/8") = -2.
Proof.
  split.
  - rewrite (proj1 (addr_match_list_correct (str "10.1.2.3") (str "10.0.0.0/8,!10.1.2.0/24")
      (demo_alloc _))). vm_compute. reflexivity.
  - rewrite (proj2 (addr_match_list_correct (str "10.1.2.3") (str "10.1.2.3/8")
      (demo_alloc _))). vm_compute. reflexivity.
Defined.

(** match_user grants user@hosts exactly when the user matches the part
    before the first "@" and the host list after it holds no invalid entry,
    no negated entry for the peer's address or name, and some plain entry for
    one of them. *)
Theorem match_user_correct `{Resolver} `{!ResolverOk} `{Allocator}
    (user host ip users hosts : list Z) (a : xaddr) :
  Forall (fun c => c <> AT) users ->
  addr_pton ip = Some a -> is_Some (heap_alloc (zlen hosts + 1)) ->
  Forall (fun e => (length e < SUB_SIZE)%nat) (list_entries hosts) ->
  (match_user (Some user) (Some host) (Some ip) (users ++ AT :: hosts) = Some 1 <->
   match_pattern users user = true /\ host_list_accepts host ip a hosts = true).
Proof.
  intros Hu Hp Hx He. unfold match_user. rewrite split_at_app by done. cbn [match_pattern_ptr mbind option_bind].
  destruct (match_host_and_ip_run host ip a hosts Hp Hx He) as (r & -> & Hr).
  destruct (match_pattern users user); simpl; [|split; [done|by intros [? _]]].
  rewrite <- Hr. split; [by intros [= ->]|by intros [_ ->]].
Qed.

Lemma match_user_correct_witness :
  match_user (Some (str "ega7")) (Some (str "Gate.example")) (Some (str "10.1.2.3"))
    (str "ega*@*.example,!10.1.2.0/24") <> Some 1 /\
  match_user (Some (str "ega7")) (Some (str "Gate.example")) (Some (str "10.1.2.3"))
    (str "ega*@10.0.0.0/8,!fe80::/10") = Some 1.
Proof.
  assert (Hs : forall l, forallb (fun e => Z.ltb (zlen e) 64) (list_entries l) = true ->
    Forall (fun e => (length e < SUB_SIZE)%nat) (list_entries l)).
  { intros l Hl. apply List.Forall_forall. intros e Hin.
    pose proof (proj1 (forallb_forall _ _) Hl e Hin) as Hz%Z.ltb_lt. unfold zlen, SUB_SIZE in *. lia. }
  assert (Hu : Forall (fun c => c <> AT) (str "ega*")).
  { repeat (apply List.Forall_cons; [discriminate|]). apply List.Forall_nil. }
  split.
  - pose proof (match_user_correct (str "ega7") (str "Gate.example") (str "10.1.2.3") (str "ega*")
      (str "*.example,!10.1.2.0/24") _ Hu eq_refl (demo_alloc _) (Hs (str "*.example,!10.1.2.0/24") eq_refl)) as Hm.
    intros [_ Hacc]%Hm. vm_compute in Hacc. discriminate.
  - refine (proj2 (match_user_correct (str "ega7") (str "Gate.example") (str "10.1.2.3") (str "ega*")
      (str "10.0.0.0/8,!fe80::/10") _ Hu eq_refl (demo_alloc _) (Hs (str "10.0.0.0/8,!fe80::/10") eq_refl)) _).
    vm_compute. auto.
Defined.

(** addr_match_cidr_list reports an entry with characters outside the CIDR
    alphabet but goes on with it: when it still parses as a network of the
    address, the function answers 1, not -1. *)
Theorem addr_match_cidr_list_accepts_junk `{Resolver} `{!ResolverOk} `{Allocator}
    (addr cp : list Z) (host net : xaddr) (l : Z) :
  is_Some (heap_alloc (zlen cp + 1)) -> cp <> [] -> zlen cp <= INET6_ADDRSTRLEN + 3 ->
  Forall (fun c => c <> COMMA) cp -> only_cidr_chars cp = false ->
  addr_pton addr = Some host -> addr_pton_cidr cp = inr (net, l) -> in_network host net l = true ->
  addr_match_cidr_list (Some addr) cp = 1.
Proof.
  intros [x Hx] Hne Hlen Hc Hj Hp Hn Hin. unfold addr_match_cidr_list, strdup. rewrite Hp, Hx. simpl.
  rewrite tokens_single by done. simpl. rewrite bool_decide_eq_false_2 by done.
  rewrite (proj2 (Z.ltb_ge _ _)) by done. rewrite Hn.
  rewrite netmatch_spec, Hin; [done|by eapply addr_pton_wf|by eapply addr_pton_cidr_wf].
Qed.

Lemma addr_match_cidr_list_accepts_junk_witness :
  addr_match_cidr_list (Some (str "10.1.2.3")) (str "10.0.0.0/ +8") = 1.
Proof.
  refine (addr_match_cidr_list_accepts_junk (str "10.1.2.3") (str "10.0.0.0/ +8") _ _ _
    (demo_alloc _) _ _ _ _ _ _ _).
  - discriminate.
  - vm_compute. discriminate.
  - repeat (apply List.Forall_cons; [discriminate|]). apply List.Forall_nil.
  - reflexivity.
  - reflexivity.
  - reflexivity.
  - vm_compute. reflexivity.
Defined.
