(* ===== verification/KexNames.v ===== *)
(** * Names of algorithms: kex.c, sshkey.c, cipher.c and mac.c

    The tables of key exchange methods and of key types, the lists of names
    that a configuration gives (kex_names_valid, ciphers_valid, mac_valid,
    sshkey_names_valid2), and how such a list is put together from a default
    and from what is supported (kex_names_cat, kex_assemble_names).

    strdup and calloc take their memory from the allocator; the tables are the
    ones compiled with OpenSSL, elliptic curves and SHA-256, and without XMSS. *)

From stdpp Require Import list.
From S2P Require Import Prelude CText Sshbuf Poly1305 ChachaPoly Mac Cipher Match.

(** ** The tables *)

(** Identifiers of curves, from OpenSSL's obj_mac.h. *)
Definition NID_X9_62_prime256v1 : Z := 415.
Definition NID_secp384r1 : Z := 715.
Definition NID_secp521r1 : Z := 716.

Definition KEX_DH_GRP1_SHA1 : Z := 0.
Definition KEX_DH_GRP14_SHA1 : Z := 1.
Definition KEX_DH_GRP14_SHA256 : Z := 2.
Definition KEX_DH_GRP16_SHA512 : Z := 3.
Definition KEX_DH_GRP18_SHA512 : Z := 4.
Definition KEX_DH_GEX_SHA1 : Z := 5.
Definition KEX_DH_GEX_SHA256 : Z := 6.
Definition KEX_ECDH_SHA2 : Z := 7.
Definition KEX_C25519_SHA256 : Z := 8.
Definition KEX_MAX : Z := 9.

Record kexalg := mk_kexalg { ka_name : list Z; ka_type : Z; ka_ec_nid : Z; ka_hash_alg : Z }.
Definition kexalgs : list kexalg :=
  [mk_kexalg (str "diffie-hellman-group1-sha1") KEX_DH_GRP1_SHA1 0 SSH_DIGEST_SHA1;
   mk_kexalg (str "diffie-hellman-group14-sha1") KEX_DH_GRP14_SHA1 0 SSH_DIGEST_SHA1;
   mk_kexalg (str "diffie-hellman-group14-sha256") KEX_DH_GRP14_SHA256 0 SSH_DIGEST_SHA256;
   mk_kexalg (str "diffie-hellman-group16-sha512") KEX_DH_GRP16_SHA512 0 SSH_DIGEST_SHA512;
   mk_kexalg (str "diffie-hellman-group18-sha512") KEX_DH_GRP18_SHA512 0 SSH_DIGEST_SHA512;
   mk_kexalg (str "diffie-hellman-group-exchange-sha1") KEX_DH_GEX_SHA1 0 SSH_DIGEST_SHA1;
   mk_kexalg (str "diffie-hellman-group-exchange-sha256") KEX_DH_GEX_SHA256 0 SSH_DIGEST_SHA256;
   mk_kexalg (str "ecdh-sha2-nistp256") KEX_ECDH_SHA2 NID_X9_62_prime256v1 SSH_DIGEST_SHA256;
   mk_kexalg (str "ecdh-sha2-nistp384") KEX_ECDH_SHA2 NID_secp384r1 SSH_DIGEST_SHA384;
   mk_kexalg (str "ecdh-sha2-nistp521") KEX_ECDH_SHA2 NID_secp521r1 SSH_DIGEST_SHA512;
   mk_kexalg (str "curve25519-sha256") KEX_C25519_SHA256 0 SSH_DIGEST_SHA256;
   mk_kexalg (str "curve25519-sha256@libssh.org") KEX_C25519_SHA256 0 SSH_DIGEST_SHA256].

Definition KEY_RSA : Z := 0.
Definition KEY_DSA : Z := 1.
Definition KEY_ECDSA : Z := 2.
Definition KEY_ED25519 : Z := 3.
Definition KEY_RSA_CERT : Z := 4.
Definition KEY_DSA_CERT : Z := 5.
Definition KEY_ECDSA_CERT : Z := 6.
Definition KEY_ED25519_CERT : Z := 7.
Definition KEY_XMSS : Z := 8.
Definition KEY_XMSS_CERT : Z := 9.
Definition KEY_UNSPEC : Z := 10.

Record keytype := mk_keytype {
  kt_name : list Z; kt_shortname : list Z; kt_sigalg : option (list Z); kt_type : Z; kt_nid : Z; kt_cert : bool; kt_sigonly : bool
}.
Definition keytypes : list keytype :=
  [mk_keytype (str "ssh-ed25519") (str "ED25519") None KEY_ED25519 0 false false;
   mk_keytype (str "ssh-ed25519-cert-v01@openssh.com") (str "ED25519-CERT") None KEY_ED25519_CERT 0 true false;
   mk_keytype (str "ssh-rsa") (str "RSA") None KEY_RSA 0 false false;
   mk_keytype (str "rsa-sha2-256") (str "RSA") None KEY_RSA 0 false true;
   mk_keytype (str "rsa-sha2-512") (str "RSA") None KEY_RSA 0 false true;
   mk_keytype (str "ssh-dss") (str "DSA") None KEY_DSA 0 false false;
   mk_keytype (str "ecdsa-sha2-nistp256") (str "ECDSA") None KEY_ECDSA NID_X9_62_prime256v1 false false;
   mk_keytype (str "ecdsa-sha2-nistp384") (str "ECDSA") None KEY_ECDSA NID_secp384r1 false false;
   mk_keytype (str "ecdsa-sha2-nistp521") (str "ECDSA") None KEY_ECDSA NID_secp521r1 false false;
   mk_keytype (str "ssh-rsa-cert-v01@openssh.com") (str "RSA-CERT") None KEY_RSA_CERT 0 true false;
   mk_keytype (str "rsa-sha2-256-cert-v01@openssh.com") (str "RSA-CERT") (Some (str "ssh-rsa-sha2-256")) KEY_RSA_CERT 0 true true;
   mk_keytype (str "rsa-sha2-512-cert-v01@openssh.com") (str "RSA-CERT") (Some (str "ssh-rsa-sha2-512")) KEY_RSA_CERT 0 true true;
   mk_keytype (str "ssh-dss-cert-v01@openssh.com") (str "DSA-CERT") None KEY_DSA_CERT 0 true false;
   mk_keytype (str "ssh-rsa-cert-v01@openssh.com") (str "RSA-CERT") None KEY_RSA_CERT 0 true false;
   mk_keytype (str "rsa-sha2-256-cert-v01@openssh.com") (str "RSA-CERT") (Some (str "ssh-rsa-sha2-256")) KEY_RSA_CERT 0 true true;
   mk_keytype (str "rsa-sha2-512-cert-v01@openssh.com") (str "RSA-CERT") (Some (str "ssh-rsa-sha2-512")) KEY_RSA_CERT 0 true true;
   mk_keytype (str "ssh-dss-cert-v01@openssh.com") (str "DSA-CERT") None KEY_DSA_CERT 0 true false;
   mk_keytype (str "ecdsa-sha2-nistp256-cert-v01@openssh.com") (str "ECDSA-CERT") None KEY_ECDSA_CERT NID_X9_62_prime256v1 true false;
   mk_keytype (str "ecdsa-sha2-nistp384-cert-v01@openssh.com") (str "ECDSA-CERT") None KEY_ECDSA_CERT NID_secp384r1 true false;
   mk_keytype (str "ecdsa-sha2-nistp521-cert-v01@openssh.com") (str "ECDSA-CERT") None KEY_ECDSA_CERT NID_secp521r1 true false].

(** ** Looking names up *)

Definition kex_alg_list {al : Allocator} (sep : Z) : option (list Z) := grow_list sep None (map ka_name kexalgs).
Definition mac_alg_list {al : Allocator} (sep : Z) : option (list Z) := grow_list sep None (map ma_name macs).
Fixpoint find_kexalg (name : list Z) (l : list kexalg) : option kexalg :=
  match l with
  | [] => None
  | k :: l' => if bytes_eqb (ka_name k) name then Some k else find_kexalg name l'
  end.
Definition kex_alg_by_name (name : list Z) : option kexalg := find_kexalg name kexalgs.

Definition sshkey_type_from_name (name : list Z) : Z :=
  match List.find (fun kt => bytes_eqb name (kt_name kt) || (negb (kt_cert kt) && strcaseeq (kt_shortname kt) name)) keytypes with
  | Some kt => kt_type kt
  | None => KEY_UNSPEC
  end.
Definition sshkey_ecdsa_nid_from_name (name : list Z) : Z :=
  match List.find (fun kt => ((kt_type kt =? KEY_ECDSA) || (kt_type kt =? KEY_ECDSA_CERT)) && bytes_eqb name (kt_name kt)) keytypes with
  | Some kt => kt_nid kt
  | None => -1
  end.
Definition sshkey_alg_list {al : Allocator} (certs_only plain_only include_sigonly : bool) (sep : Z) : option (list Z) :=
  grow_list sep None (map kt_name (List.filter (fun kt =>
    negb (negb include_sigonly && kt_sigonly kt) && negb ((certs_only && negb (kt_cert kt)) || (plain_only && kt_cert kt))) keytypes)).
Definition sshkey_type_is_cert (type : Z) : bool :=
  match List.find (fun kt => kt_type kt =? type) keytypes with Some kt => kt_cert kt | None => false end.
Definition sshkey_ssh_name_from_type_nid (type nid : Z) : list Z :=
  match List.find (fun kt => (kt_type kt =? type) && ((kt_nid kt =? 0) || (kt_nid kt =? nid))) keytypes with
  | Some kt => kt_name kt
  | None => str "ssh-unknown"
  end.

(** ** Lists of names *)

Section Names.
Context {al : Allocator}.

Definition strdup (s : list Z) : option (list Z) := (fun _ => s) <$> heap_alloc (zlen s + 1).

(** The loops over strsep end at the first empty name. *)
Definition names_valid (known : list Z -> bool) (names : option (list Z)) : bool :=
  match names with
  | None | Some [] => false
  | Some names => match strdup names with None => false | Some s => forallb known (until_empty (tokens s)) end
  end.
Definition kex_names_valid (names : option (list Z)) : bool :=
  names_valid (fun p => match kex_alg_by_name p with Some _ => true | None => false end) names.
Definition ciphers_valid (names : option (list Z)) : bool :=
  names_valid (fun p => match cipher_by_name p with Some c => negb (flag c CFLAG_INTERNAL) | None => false end) names.
Definition mac_valid (names : option (list Z)) : bool := names_valid (fun p => negb (mac_setup_null p <? 0)) names.
Definition sshkey_names_valid2 (names : option (list Z)) (allow_wildcard : bool) : bool :=
  names_valid (fun p =>
    negb (sshkey_type_from_name p =? KEY_UNSPEC) ||
    (allow_wildcard && existsb (fun kt => negb (bool_decide (match_pattern_list (kt_name kt) p false = Some 0))) keytypes)) names.

(** The loop of kex_names_cat: [ret] is a block of [len] bytes. *)
Fixpoint cat_loop (len : Z) (ret : list Z) (ps : list (list Z)) : option (list Z) :=
  match ps with
  | [] => Some ret
  | p :: ps' =>
      match fst (match_list ret p) with
      | Some _ => cat_loop len ret ps'
      | None =>
          if len <=? zlen ret + 1 then None
          else if len <=? zlen ret + 1 + zlen p then None
          else cat_loop len (ret ++ COMMA :: p) ps'
      end
  end.
Definition kex_names_cat (a : option (list Z)) (b : list Z) : option (list Z) :=
  match a with
  | None | Some [] => strdup b
  | Some a =>
      if bool_decide (b = []) then strdup a
      else if 1024 * 1024 <? zlen b then None
      else
        let len := zlen a + zlen b + 2 in
        tmp ← strdup b; _ ← heap_alloc len; cat_loop len a (until_empty (tokens tmp))
  end.

(** match_filter_whitelist and match_filter_blacklist with their two blocks. *)
Definition filtered (filter : list Z -> list Z -> list Z) (proposal pattern : list Z) : option (list Z) :=
  _ ← heap_alloc (zlen proposal + 1); _ ← strdup proposal; Some (filter proposal pattern).

(** The while loop over the patterns: the code, and [ret]. *)
Fixpoint assemble_loop (all : list Z) (ret : option (list Z)) (ps : list (list Z)) : Z + option (list Z) :=
  match ps with
  | [] => inr ret
  | cp :: ps' =>
      if bool_decide (head cp = Some BANG) then inl SSH_ERR_INVALID_ARGUMENT
      else
        match matching ← filtered match_filter_whitelist all cp; kex_names_cat ret matching with
        | None => inl SSH_ERR_ALLOC_FAIL
        | Some tmp => assemble_loop all (Some tmp) ps'
        end
  end.
Definition PLUS : Z := 43.
Definition MINUS : Z := 45.
Definition apply_patterns (all list : list Z) : Z * option (Datatypes.list Z) :=
  match strdup list with
  | None => (SSH_ERR_ALLOC_FAIL, None)
  | Some patterns =>
      match assemble_loop all None (tokens patterns) with
      | inl r => (r, None)
      | inr None | inr (Some []) => (SSH_ERR_INVALID_ARGUMENT, None)
      | inr (Some ret) => (0, Some ret)
      end
  end.
(** The code and *listp. *)
Definition kex_assemble_names (listp : option (list Z)) (def all : list Z) : Z * option (list Z) :=
  match listp with
  | None | Some [] => match strdup def with None => (SSH_ERR_ALLOC_FAIL, None) | Some s => (0, Some s) end
  | Some (c :: rest) =>
      if c =? PLUS then
        match kex_names_cat (Some def) rest with None => (SSH_ERR_ALLOC_FAIL, None) | Some list => apply_patterns all list end
      else if c =? MINUS then 
        match filtered match_filter_blacklist def rest with None => (SSH_ERR_ALLOC_FAIL, None) | Some list => (0, Some list) end
      else apply_patterns all (c :: rest)
  end.
End Names.

(** ** The entries of the lists *)

(** Adding a name that is not there yet. *)
Definition add_new (es : list (list Z)) (p : list Z) : list (list Z) := if bool_decide (p ∈ es) then es else es ++ [p].
Definition nonempty_entries (s : list Z) : Prop := Forall (fun t => t <> []) (tokens s).

Lemma until_empty_all ts : Forall (fun t : list Z => t <> []) ts -> until_empty ts = ts.
Proof. induction 1 as [|t ts Ht _ IH]; cbn; [done|]. by rewrite bool_decide_eq_false_2, IH. Qed.
Lemma until_empty_sub ts : Forall (fun t => t <> [] /\ t ∈ ts) (until_empty ts).
Proof.
  induction ts as [|t ts IH]; cbn; [constructor|]. case_bool_decide as Ht; [constructor|]. constructor; [split; [done|apply list_elem_of_here]|].
  apply (Forall_impl _ _ _ IH). intros x [? ?]. split; [done|]. by apply list_elem_of_further.
Qed.
(** Looking for one name in a list, which is the client's in the call. *)
Lemma match_list_one ret p : p <> [] -> Forall (fun c => c <> COMMA) p -> nonempty_entries ret ->
  is_Some (fst (match_list ret p)) <-> p ∈ tokens ret.
Proof.
  intros Hp Hc Hne. unfold match_list. rewrite match_list_from_fst, (tokens_single p) by done. cbn [until_empty].
  rewrite (bool_decide_eq_false_2 _ Hp), (until_empty_all _ Hne). cbn [take MAX_PROP]. split.
  - intros [x Hf]. apply List.find_some in Hf as [Hx E]. apply existsb_bytes_eqb in E. apply list_elem_of_singleton in E. subst. by apply list_elem_of_In.
  - intros Hin. destruct (List.find _ _) eqn:E; [by eexists|]. exfalso. apply list_elem_of_In in Hin. apply (List.find_none _ _ E) in Hin as Hn.
    assert (existsb (bytes_eqb p) [p] = true) by (apply existsb_bytes_eqb, list_elem_of_here). congruence.
Qed.
Lemma tokens_cat ret p : Forall (fun c => c <> COMMA) p -> tokens (ret ++ COMMA :: p) = tokens ret ++ [p].
Proof. apply tokens_app_comma. Qed.

Lemma cat_loop_entries len ps : forall ret out, nonempty_entries ret -> Forall (fun p => p <> []) ps -> Forall (Forall (fun c => c <> COMMA)) ps ->
  cat_loop len ret ps = Some out -> tokens out = foldl add_new (tokens ret) ps /\ nonempty_entries out.
Proof.
  induction ps as [|p ps IH]; intros ret out Hne Hps Hcs; cbn; [by intros [= <-]|].
  apply Forall_cons_1 in Hps as [Hp Hps], Hcs as [Hc Hcs]. pose proof (match_list_one ret p Hp Hc Hne) as Hm. unfold add_new at 2.
  destruct (fst (match_list ret p)).
  - rewrite bool_decide_eq_true_2 by (apply Hm; eauto). by apply IH.
  - rewrite bool_decide_eq_false_2 by (intros Hin; apply Hm in Hin as [? ?]; done). destruct (len <=? _); [done|]. destruct (len <=? _); [done|].
    rewrite <- tokens_cat by done. apply IH; [|done|done]. unfold nonempty_entries. rewrite tokens_cat by done. apply Forall_app. split; [done|]. by constructor.
Qed.
Definition joined_len (ps : list (list Z)) : Z := foldr (fun p n => zlen p + 1 + n) 0 ps.
Lemma joined_len_nonneg ps : 0 <= joined_len ps.
Proof. unfold joined_len. induction ps; cbn; zlen_facts; lia. Qed.
Lemma cat_loop_room len ps : forall ret, zlen ret + joined_len ps < len -> exists out, cat_loop len ret ps = Some out.
Proof.
  induction ps as [|p ps IH]; intros ret Hl; cbn in *; [by eexists|]. pose proof (joined_len_nonneg ps). fold (joined_len ps) in Hl. zlen_facts.
  destruct (fst (match_list ret p)); [apply IH; lia|]. rewrite (proj2 (Z.leb_gt _ _)), (proj2 (Z.leb_gt _ _)) by lia.
  apply IH. rewrite zlen_app, zlen_cons. lia.
Qed.
Lemma joined_len_tokens s : joined_len (tokens s) = zlen s + 1.
Proof.
  induction s as [|c s IH]; cbn; [done|]. rewrite zlen_cons. destruct (c =? COMMA); cbn; fold (joined_len (tokens s)).
  - rewrite IH. change (zlen (@nil Z)) with 0. lia.
  - destruct (tokens s) eqn:E; [by rewrite tokens_strsep in E|]. cbn in *. rewrite zlen_cons. lia.
Qed.
Lemma joined_len_until ts : joined_len (until_empty ts) <= joined_len ts.
Proof.
  induction ts as [|t ts IH]; cbn; [done|]. fold (joined_len ts) in *. pose proof (joined_len_nonneg ts). zlen_facts.
  case_bool_decide; cbn; [lia|]. fold (joined_len (until_empty ts)). lia.
Qed.

Section Entries.
Context {al : Allocator}.

Lemma names_cat_entries a b out : nonempty_entries a -> kex_names_cat (Some a) b = Some out ->
  tokens out = foldl add_new (tokens a) (until_empty (tokens b)) /\ nonempty_entries out.
Proof.
  intros Hne. destruct a as [|c a]; [by inversion Hne|]. cbn [kex_names_cat]. case_bool_decide as Hb.
  - unfold strdup. subst b. destruct (heap_alloc _); [|done]. intros [= <-]. done.
  - destruct (_ <? _); [done|]. unfold strdup. destruct (heap_alloc (zlen b + 1)); cbn [fmap option_fmap option_map mbind option_bind]; [|done].
    destruct (heap_alloc _); cbn [mbind option_bind]; [|done]. intros E. apply (cat_loop_entries _ _ _ _ Hne) in E; [done|..].
    + apply (Forall_impl _ _ _ (until_empty_sub (tokens b))). by intros ? [].
    + apply Forall_forall. intros x Hx. apply (proj1 (Forall_forall _ _) (until_empty_sub (tokens b))) in Hx as [_ Hx].
      by apply (proj1 (Forall_forall _ _) (tokens_no_comma b)).
Qed.
Lemma names_cat_first r b out : r = None \/ r = Some [] -> kex_names_cat r b = Some out -> out = b.
Proof. intros [-> | ->]; cbn; unfold strdup; (destruct (heap_alloc _); [|done]); by intros [= <-]. Qed.

(** What adding the names of a list does. *)
Lemma add_new_all es ps n : n ∈ foldl add_new es ps <-> n ∈ es \/ n ∈ ps.
Proof.
  revert es. induction ps as [|p ps IH]; intros es; cbn; [rewrite elem_of_nil; tauto|]. rewrite IH, elem_of_cons. unfold add_new.
  case_bool_decide as Hp; [naive_solver|]. rewrite elem_of_app, list_elem_of_singleton. tauto.
Qed.
Lemma add_new_nodup es ps : NoDup es -> NoDup (foldl add_new es ps).
Proof.
  revert es. induction ps as [|p ps IH]; intros es Hes; cbn; [done|]. apply IH. unfold add_new. case_bool_decide as Hp; [done|].
  apply NoDup_app. split; [done|]. split; [|apply NoDup_singleton]. intros x Hx ->%list_elem_of_singleton. done.
Qed.
Lemma whitelist_entries all cp : nonempty_entries all ->
  match_filter_whitelist all cp = [] /\ (forall n, n ∈ tokens all -> keep_entry cp false n = false) \/
  nonempty_entries (match_filter_whitelist all cp) /\ tokens (match_filter_whitelist all cp) = List.filter (keep_entry cp false) (tokens all).
Proof.
  intros Hne. unfold match_filter_whitelist, nonempty_entries. rewrite filter_list_join.
  assert (Hf : Forall (fun t => t <> []) (List.filter (keep_entry cp false) (tokens all))).
  { apply List.Forall_forall. intros x [Hx _]%filter_In. by eapply List.Forall_forall in Hne. }
  destruct (List.filter (keep_entry cp false) (tokens all)) as [|t ts] eqn:E.
  - left. split; [done|]. intros n Hn. destruct (keep_entry cp false n) eqn:Ek; [|done]. exfalso.
    assert (List.In n (List.filter (keep_entry cp false) (tokens all))) by (apply filter_In; split; [by apply list_elem_of_In|done]). by rewrite E in *.
  - right. rewrite <- E in *. rewrite tokens_join; [done|by rewrite E|done|].
    apply List.Forall_forall. intros x [Hx _]%filter_In. eapply List.Forall_forall in Hx; [done|apply tokens_no_comma].
Qed.

(** The entries after the patterns [ps]. *)
Definition entries_of (ret : option (list Z)) : list (list Z) := match ret with None | Some [] => [] | Some r => tokens r end.
Definition clean (all : list Z) (ret : option (list Z)) : Prop := Forall (fun t => t <> []) (entries_of ret) /\ (NoDup (tokens all) -> NoDup (entries_of ret)).

Lemma names_cat_step all cp ret tmp : nonempty_entries all -> clean all ret ->
  kex_names_cat ret (match_filter_whitelist all cp) = Some tmp ->
  clean all (Some tmp) /\ forall n, n ∈ entries_of (Some tmp) <-> n ∈ entries_of ret \/ (n ∈ tokens all /\ keep_entry cp false n = true).
Proof.
  intros Hall [Hc1 Hc2] E.
  assert (Hw : forall n, n ∈ List.filter (keep_entry cp false) (tokens all) <-> n ∈ tokens all /\ keep_entry cp false n = true).
  { intros n. by rewrite !list_elem_of_In, filter_In. }
  assert (Hfirst : entries_of ret = [] -> ret = None \/ ret = Some []).
  { destruct ret as [[|c r]|]; [by right| |by left]. cbn [entries_of]. rewrite tokens_strsep. done. }
  assert (Hfn : NoDup (tokens all) -> NoDup (List.filter (keep_entry cp false) (tokens all))) by (intros Hnd; apply NoDup_ListNoDup, List.NoDup_filter; by apply NoDup_ListNoDup).
  destruct (decide (entries_of ret = [])) as [He|He].
  - rewrite He. apply names_cat_first in E; [|by apply Hfirst]. subst tmp.
    destruct (whitelist_entries all cp Hall) as [[Ew Hno]|[Hne Et]].
    + rewrite Ew. split; [split; [constructor|intros _; constructor]|]. intros n. cbn [entries_of]. split; [by intros ?%elem_of_nil|]. intros [?%elem_of_nil|[Hn Hk]]; [done|]. by rewrite Hno in Hk.
    + assert (Ent : entries_of (Some (match_filter_whitelist all cp)) = List.filter (keep_entry cp false) (tokens all)).
      { rewrite <- Et. destruct (match_filter_whitelist all cp); [by inversion Hne|done]. }
      unfold clean. rewrite Ent. split; [split; [by rewrite <- Et|done]|]. intros n. rewrite Hw, elem_of_nil. tauto.
  - destruct ret as [[|c r]|]; [done| |done]. change (entries_of (Some (c :: r))) with (tokens (c :: r)) in *. apply names_cat_entries in E as [Et Hne]; [|done].
    assert (Ent : entries_of (Some tmp) = tokens tmp) by (destruct tmp; [by inversion Hne|done]). unfold clean. rewrite Ent, Et.
    split; [split; [by rewrite <- Et|intros Hnd; apply add_new_nodup; by apply Hc2]|]. intros n. rewrite add_new_all.
    destruct (whitelist_entries all cp Hall) as [[Ew Hno]|[Hne' Etw]].
    + rewrite Ew. change (until_empty (tokens [])) with (@nil (list Z)). rewrite elem_of_nil. split; [tauto|]. intros [?|[Hn Hk]]; [by left|]. by rewrite Hno in Hk.
    + rewrite Etw, until_empty_all, Hw; [done|]. by rewrite <- Etw.
Qed.

Lemma assemble_loop_entries all ps : forall ret out, nonempty_entries all -> clean all ret ->
  assemble_loop all ret ps = inr out ->
  clean all out /\ Forall (fun cp => head cp <> Some BANG) ps /\
  forall n, n ∈ entries_of out <-> n ∈ entries_of ret \/ (n ∈ tokens all /\ Exists (fun cp => keep_entry cp false n = true) ps).
Proof.
  induction ps as [|cp ps IH]; intros ret out Hall Hc; cbn [assemble_loop].
  - intros [= <-]. split; [done|]. split; [constructor|]. intros n. rewrite Exists_nil. tauto.
  - case_bool_decide as Hb; [done|]. unfold filtered. destruct (heap_alloc _); cbn [mbind option_bind]; [|done].
    destruct (strdup all); cbn [mbind option_bind]; [|done]. destruct (kex_names_cat ret _) as [tmp|] eqn:E; [|done]. intros Ho.
    destruct (names_cat_step all cp ret tmp Hall Hc E) as [Hc' Hs]. destruct (IH _ _ Hall Hc' Ho) as (Hout & Hbs & Ho'). split; [done|]. split; [by constructor|].
    intros n. rewrite Ho', Hs, Exists_cons. tauto.
Qed.

(** A pattern that match_pattern_list takes for what it says: no two stars in a
    row, and within the scratch buffer. *)
Definition plain_pattern (cp : list Z) : Prop := no_double_star cp /\ (length cp < SUB_SIZE)%nat.
Lemma keep_matches cp n : plain_pattern cp -> Forall (fun c => c <> COMMA) cp -> head cp <> Some BANG -> n <> [] ->
  keep_entry cp false n = true <-> Matches cp n.
Proof.
  intros [Hd Hl] Hc Hb Hn. unfold keep_entry. rewrite bool_decide_eq_true. destruct (decide (cp = [])) as [->|Hne].
  { split; [done|]. intros H. by inversion H. }
  assert (Ee : list_entries cp = [cp]).
  { unfold list_entries. destruct cp as [|x cp]; [done|]. rewrite (tokens_single _ Hc). cbn [last]. by rewrite bool_decide_eq_false_2. }
  unfold match_pattern_list. rewrite match_pattern_list_from_spec, Ee; [|done|rewrite Ee; by constructor].
  assert (Ec : classify cp = (false, cp)).
  { destruct cp as [|x cp]; [done|]. cbn [classify]. destruct (Z.eqb_spec x BANG) as [->|]; [by cbn in Hb|done]. }
  assert (El : map (lower_if false) cp = cp) by (rewrite <- (map_id cp) at 2; by apply map_ext).
  assert (Hm : match_pattern cp n = true <-> Matches cp n) by (split; [apply match_pattern_sound|by apply match_pattern_complete]).
  unfold list_verdict, entry_matches. cbn [existsb]. rewrite Ec, El. cbn [Bool.eqb andb orb]. rewrite orb_false_r, <- Hm. by destruct (match_pattern cp n).
Qed.

End Entries.

(** Joining two lists of names never runs out of the room that
    kex_names_cat has allocated, and gives the names of the first followed by
    those of the second that are not there yet. *)
Theorem names_cat_correct {al : Allocator} {altot : @AllocTotal al} (a b : list Z) :
  nonempty_entries a -> zlen a <= 1024 * 1024 -> zlen b <= 1024 * 1024 ->
  exists out, kex_names_cat (Some a) b = Some out /\ tokens out = foldl add_new (tokens a) (until_empty (tokens b)).
Proof.
  intros Hne Ha Hb. zlen_facts. assert (Hout : exists out, kex_names_cat (Some a) b = Some out).
  { destruct a as [|c a]; [by inversion Hne|]. cbn [kex_names_cat]. unfold strdup.
    destruct (alloc_total (zlen (c :: a) + 1)) as [p ->]; [unfold SSHBUF_SIZE_MAX; lia|]. destruct (alloc_total (zlen b + 1)) as [q ->]; [unfold SSHBUF_SIZE_MAX; lia|].
    case_bool_decide; [by eexists|]. rewrite (proj2 (Z.ltb_ge _ _)) by lia. cbn [fmap option_fmap option_map mbind option_bind].
    destruct (alloc_total (zlen (c :: a) + zlen b + 2)) as [o ->]; [unfold SSHBUF_SIZE_MAX; lia|]. cbn [mbind option_bind].
    apply cat_loop_room. pose proof (joined_len_until (tokens b)). rewrite joined_len_tokens in *. lia. }
  destruct Hout as [out E]. exists out. split; [done|]. by apply names_cat_entries.
Qed.

Lemma names_cat_correct_witness : exists out, @kex_names_cat demo_heap (Some (str "a,b")) (str "b,c") = Some out /\
  tokens out = [str "a"; str "b"; str "c"].
Proof.
  destruct (@names_cat_correct demo_heap demo_heap_total (str "a,b") (str "b,c")) as (out & E & H).
  - repeat (constructor; [done|]). constructor.
  - by vm_compute.
  - by vm_compute.
  - exists out. split; [done|]. rewrite H. by vm_compute.
Defined.

(** An empty list is an error for kex_assemble_names ("An empty name-list
    is an error") except when it comes from removing every name of the default:
    the branch for a minus returns before the test. *)
Theorem assemble_minus_may_be_empty {al : Allocator} {altot : @AllocTotal al} :
  kex_assemble_names (Some (str "-*")) (str "aes") (str "aes") = (0, Some []) /\
  kex_assemble_names (Some (str "des*")) (str "aes") (str "aes") = (SSH_ERR_INVALID_ARGUMENT, None).
Proof.
  assert (Hs : forall n, 0 <= n <= 100 -> is_Some (heap_alloc n)) by (intros; apply alloc_total; unfold SSHBUF_SIZE_MAX; lia).
  assert (Hd : forall s, zlen s <= 99 -> strdup s = Some s).
  { intros s Hz. unfold strdup. zlen_facts. by destruct (Hs (zlen s + 1) ltac:(lia)) as [p ->]. }
  assert (Hf : forall f s pat, zlen s <= 99 -> filtered f s pat = Some (f s pat)).
  { intros f s pat Hz. unfold filtered. zlen_facts. destruct (Hs (zlen s + 1) ltac:(lia)) as [p ->]. cbn [mbind option_bind]. by rewrite Hd. }
  split.
  - change (match filtered match_filter_blacklist (str "aes") (str "*") with None => (SSH_ERR_ALLOC_FAIL, None) | Some list => (0, Some list) end = (0, Some [])).
    by rewrite Hf by by vm_compute.
  - change (apply_patterns (str "aes") (str "des*") = (SSH_ERR_INVALID_ARGUMENT, None)). unfold apply_patterns. rewrite Hd by by vm_compute.
    change (tokens (str "des*")) with [str "des*"]. cbn [assemble_loop]. change (bool_decide _) with false. cbn iota. rewrite Hf by by vm_compute.
    cbn [mbind option_bind kex_names_cat]. by rewrite Hd by by vm_compute.
Qed.

(** The certificate names of RSA and DSA keys are in the table of key types
    twice, so that sshkey_alg_list gives them twice. *)
Theorem key_names_repeated : ~ NoDup (map kt_name keytypes).
Proof. intros H. assert (E : bool_decide (NoDup (map kt_name keytypes)) = true) by (by apply bool_decide_eq_true_2). by vm_compute in E. Qed.
