(* ===== verification/Kex.v ===== *)
(** * The key exchange: openssh/kex.c and dispatch.c

    The proposals of the two sides (kex_prop2buf, kex_buf2prop), the choice of
    algorithms (kex_choose_conf), the keys derived from the shared secret
    (derive_key, kex_derive_keys), the messages KEXINIT, NEWKEYS and EXT_INFO,
    and the table of handlers that calls them (dispatch.c).

    The key exchange methods themselves (kexdh*.c, kexgex*.c, kexecdh*.c,
    kexc25519*.c) are functions that kex_input_kexinit calls through a pointer,
    and so are the handlers of other messages: both are parameters.  Not
    modelled: log lines, the blocks freed at the end. *)

From stdpp Require Import list.
From S2P Require Import Prelude Sshbuf Poly1305 ChachaPoly Mac Cipher PacketState Packet Match KexNames.

Definition PROPOSAL_KEX_ALGS : nat := 0.
Definition PROPOSAL_SERVER_HOST_KEY_ALGS : nat := 1.
Definition PROPOSAL_ENC_ALGS_CTOS : nat := 2.
Definition PROPOSAL_ENC_ALGS_STOC : nat := 3.
Definition PROPOSAL_MAC_ALGS_CTOS : nat := 4.
Definition PROPOSAL_MAC_ALGS_STOC : nat := 5.
Definition PROPOSAL_COMP_ALGS_CTOS : nat := 6.
Definition PROPOSAL_COMP_ALGS_STOC : nat := 7.
Definition PROPOSAL_LANG_CTOS : nat := 8.
Definition PROPOSAL_LANG_STOC : nat := 9.
Definition PROPOSAL_MAX : nat := 10.

Definition SSH_ERR_NO_CIPHER_ALG_MATCH : Z := -31.
Definition SSH_ERR_NO_MAC_ALG_MATCH : Z := -32.
Definition SSH_ERR_NO_COMPRESS_ALG_MATCH : Z := -33.
Definition SSH_ERR_NO_KEX_ALG_MATCH : Z := -34.
Definition SSH_ERR_NO_HOSTKEY_ALG_MATCH : Z := -35.

Definition DISPATCH_MAX : Z := 255.
(** sizeof(struct kex), sizeof(struct newkeys) *)
Definition SIZEOF_KEX : Z := 456.
Definition SIZEOF_NEWKEYS : Z := 136.

Section Kex.
Context {al : Allocator} {md : EvpMd} {um : Umac} {ev : EvpCipher} {zl : Zlib} {env : PktEnv}.
Abbreviation KX := (SE kex stop).
Abbreviation PK := (SE ssh stop).

(** ** Proposals *)

Fixpoint repeat_put (n : nat) (m : SE sshbuf Z ()) : SE sshbuf Z () :=
  match n with O => mret tt | S n' => _ ← m; repeat_put n' m end.
Fixpoint put_proposal (l : list (list Z)) : SE sshbuf Z () :=
  match l with [] => mret tt | s :: l' => _ ← sshbuf_put_cstring (Some s); put_proposal l' end.
Definition kex_prop2buf (proposal : list (list Z)) : SE sshbuf Z () :=
  _ ← reset_buf;
  _ ← repeat_put (Z.to_nat KEX_COOKIE_LEN) (sshbuf_put_u8 0);
  _ ← put_proposal proposal;
  _ ← sshbuf_put_u8 0;
  sshbuf_put_u32 0.

(** sshbuf_fromb: a read-only buffer over the bytes of another, which holds a
    reference until it is freed. *)
Definition sshbuf_fromb (raw : sshbuf) : option sshbuf :=
  if truthy (sshbuf_check_sanity raw) then None
  else sshbuf_from (Z.add (b_off raw) <$> b_cd raw) (sshbuf_ptr raw) (sshbuf_len raw).
Fixpoint get_proposal (n : nat) : SE sshbuf Z (list (list Z)) :=
  match n with O => mret [] | S n' => s ← sshbuf_get_cstring; l ← get_proposal n'; mret (cstr s :: l) end.
Definition read_prop : SE sshbuf Z (list (list Z) * Z) :=
  _ ← sshbuf_consume KEX_COOKIE_LEN;
  proposal ← get_proposal PROPOSAL_MAX;
  v ← sshbuf_get_u8;
  _ ← sshbuf_get_u32;
  mret (proposal, v).
(** The code, or the proposal and first_kex_follows. *)
Definition kex_buf2prop (raw : sshbuf) : Z + (list (list Z) * Z) :=
  match heap_alloc 80 with
  | None => inl SSH_ERR_ALLOC_FAIL
  | Some _ => match sshbuf_fromb raw with None => inl SSH_ERR_ALLOC_FAIL | Some b => fst (read_prop b) end
  end.

(** ** The choice *)

(** What calloc leaves: the pointer to the cipher is NULL. *)
Definition null_cipher : sshcipher := mk_cipher [] 0 0 0 0 0 None.
Definition zero_enc : sshenc := mk_enc [] null_cipher false 0 0 0 None None.
Definition zero_comp : sshcomp := mk_comp 0 false [].
Definition zero_newkeys : newkeys := mk_newkeys zero_enc zero_mac zero_comp.

Definition choose_enc (client server : list Z) : Z + sshenc :=
  match fst (match_list client server) with
  | None => inl SSH_ERR_NO_CIPHER_ALG_MATCH
  | Some name =>
      match cipher_by_name name with
      | None => inl SSH_ERR_INTERNAL_ERROR
      | Some c => inr (mk_enc name c false (cipher_keylen c) (cipher_ivlen c) (cipher_blocksize c) None None)
      end
  end.
Definition choose_mac (mac : sshmac) (client server : list Z) : (Z * sshmac) :=
  match fst (match_list client server) with
  | None => (SSH_ERR_NO_MAC_ALG_MATCH, mac)
  | Some name =>
      let '(r, mac) := mac_setup mac name in
      if r <? 0 then (SSH_ERR_INTERNAL_ERROR, mac)
      else (0, mk_mac name false (m_mac_len mac) None (m_key_len mac) (m_type mac) (m_etm mac) (m_hmac mac) (m_umac mac))
  end.
Definition choose_comp (comp : sshcomp) (client server : list Z) : Z + sshcomp :=
  match fst (match_list client server) with
  | None => inl SSH_ERR_NO_COMPRESS_ALG_MATCH
  | Some name =>
      if bytes_eqb name (str "zlib@openssh.com") then inr (mk_comp COMP_DELAYED (c_enabled comp) name)
      else if bytes_eqb name (str "zlib") then inr (mk_comp COMP_ZLIB (c_enabled comp) name)
      else if bytes_eqb name (str "none") then inr (mk_comp COMP_NONE (c_enabled comp) name)
      else inl SSH_ERR_INTERNAL_ERROR
  end.
Definition choose_kex (client server : list Z) : KX () :=
  let name := fst (match_list client server) in
  _ ← modify (set_k_name name);
  match name with
  | None => throw (Err SSH_ERR_NO_KEX_ALG_MATCH)
  | Some name =>
      match kex_alg_by_name name with
      | None => throw (Err SSH_ERR_INTERNAL_ERROR)
      | Some a => modify (fun k => set_k_ec_nid (ka_ec_nid a) (set_k_hash_alg (ka_hash_alg a) (set_k_kex_type (ka_type a) k)))
      end
  end.
Definition choose_hostkeyalg (client server : list Z) : KX () :=
  let alg := fst (match_list client server) in
  _ ← modify (set_k_hostkey_alg alg);
  match alg with
  | None => throw (Err SSH_ERR_NO_HOSTKEY_ALG_MATCH)
  | Some alg =>
      let type := sshkey_type_from_name alg in
      _ ← modify (set_k_hostkey_type type);
      if type =? KEY_UNSPEC then throw (Err SSH_ERR_INTERNAL_ERROR)
      else modify (set_k_hostkey_nid (sshkey_ecdsa_nid_from_name alg))
  end.

(** The first names of the methods and of the host keys. *)
Definition proposals_match (my peer : list (list Z)) : bool :=
  forallb (fun i => bytes_eqb (fst (strsep (nth i my []))) (fst (strsep (nth i peer []))))
    [PROPOSAL_KEX_ALGS; PROPOSAL_SERVER_HOST_KEY_ALGS].

(** kex->failed_choice, when the step fails. *)
Definition or_failed (choice : list Z) (m : KX ()) : KX () := fun k =>
  match m k with
  | (inl e, k') => (inl e, set_k_failed_choice (Some choice) k')
  | ok => ok
  end.
Definition fail_with (choice : list Z) (r : Z) : KX () := or_failed choice (throw (Err r)).

(** One direction. *)
Definition choose_mode (cprop sprop peer : list (list Z)) (m : mode) : KX () :=
  k ← gets id;
  match heap_alloc SIZEOF_NEWKEYS with
  | None => throw (Err SSH_ERR_ALLOC_FAIL)
  | Some _ =>
      let ctos := match m with MODE_OUT => negb (k_server k) | MODE_IN => k_server k end in
      let nenc := if ctos then PROPOSAL_ENC_ALGS_CTOS else PROPOSAL_ENC_ALGS_STOC in
      let nmac := if ctos then PROPOSAL_MAC_ALGS_CTOS else PROPOSAL_MAC_ALGS_STOC in
      let ncomp := if ctos then PROPOSAL_COMP_ALGS_CTOS else PROPOSAL_COMP_ALGS_STOC in
      let put nk := modify (set_kex_newkeys m (Some nk)) : KX () in
      _ ← put zero_newkeys;
      match choose_enc (nth nenc cprop []) (nth nenc sprop []) with
      | inl r => fail_with (nth nenc peer []) r
      | inr enc =>
          let '(r, mac) := if cipher_authlen (e_cipher enc) =? 0 then choose_mac zero_mac (nth nmac cprop []) (nth nmac sprop []) else (0, zero_mac) in
          _ ← put (mk_newkeys enc mac zero_comp);
          if negb (r =? 0) then fail_with (nth nmac peer []) r
          else
            match choose_comp zero_comp (nth ncomp cprop []) (nth ncomp sprop []) with
            | inl r => fail_with (nth ncomp peer []) r
            | inr comp => put (mk_newkeys enc mac comp)
            end
      end
  end.

Definition max_need (n : Z) (nk : newkeys) : Z :=
  Z.max (Z.max (Z.max (Z.max n (e_key_len (nk_enc nk))) (e_block_size (nk_enc nk))) (e_iv_len (nk_enc nk))) (m_key_len (nk_mac nk)).
Definition max_dh_need (n : Z) (nk : newkeys) : Z :=
  Z.max (Z.max (Z.max (Z.max n (cipher_seclen (e_cipher (nk_enc nk)))) (e_block_size (nk_enc nk))) (e_iv_len (nk_enc nk))) (m_key_len (nk_mac nk)).
Definition compute_need : KX () :=
  k ← gets id;
  match k_newkeys_in k with
  | None => throw Segv
  | Some i =>
      match k_newkeys_out k with
      | None => throw Segv
      | Some o => modify (fun k => set_k_dh_need (max_dh_need (max_dh_need 0 i) o) (set_k_we_need (max_need (max_need 0 i) o) k))
      end
  end.

(** From the proposals on: whether the next message is to be ignored. *)
Definition choose_from (my peer : list (list Z)) (first_kex_follows : Z) : KX bool :=
  server ← gets k_server;
  let cprop := if (server : bool) then peer else my in
  let sprop := if server then my else peer in
  _ ← when server (modify (set_k_ext_info_c
        (match fst (match_list (str "ext-info-c") (nth PROPOSAL_KEX_ALGS peer [])) with Some _ => true | None => false end)));
  _ ← or_failed (nth PROPOSAL_KEX_ALGS peer []) (choose_kex (nth PROPOSAL_KEX_ALGS cprop []) (nth PROPOSAL_KEX_ALGS sprop []));
  _ ← or_failed (nth PROPOSAL_SERVER_HOST_KEY_ALGS peer [])
        (choose_hostkeyalg (nth PROPOSAL_SERVER_HOST_KEY_ALGS cprop []) (nth PROPOSAL_SERVER_HOST_KEY_ALGS sprop []));
  _ ← choose_mode cprop sprop peer MODE_IN;
  _ ← choose_mode cprop sprop peer MODE_OUT;
  _ ← compute_need;
  mret (truthy first_kex_follows && negb (proposals_match my peer)).
Definition choose_conf : KX bool :=
  k ← gets id;
  match kex_buf2prop (k_my k) with
  | inl r => throw (Err r)
  | inr (my, _) =>
      match kex_buf2prop (k_peer k) with
      | inl r => throw (Err r)
      | inr (peer, first_kex_follows) => choose_from my peer first_kex_follows
      end
  end.

(** ** Keys *)

(** ssh_digest_start, some ssh_digest_update, ssh_digest_final. *)
Fixpoint update_all (c : ssh_digest_ctx) (parts : list (list Z)) : option ssh_digest_ctx :=
  match parts with
  | [] => Some c
  | p :: parts' => let '(r, c) := ssh_digest_update c p in if r =? 0 then update_all c parts' else None
  end.
Definition hash_parts (alg : Z) (parts : list (list Z)) (mdsz : Z) : option (list Z) :=
  c ← ssh_digest_start alg;
  c ← update_all c parts;
  let '((r, d), _) := ssh_digest_final c mdsz in if r =? 0 then Some d else None.

(** The loop that makes the key longer; [digest] has the bytes so far. *)
Fixpoint expand_key (fuel : nat) (alg mdsz need : Z) (secret hash digest : list Z) : option (list Z) :=
  match fuel with
  | O => None
  | S fuel' =>
      if zlen digest <? need then
        d ← hash_parts alg [secret; hash; digest] mdsz; expand_key fuel' alg mdsz need secret hash (digest ++ d)
      else Some digest
  end.
Definition derive_key (k : kex) (id need : Z) (hash : list Z) (hashlen : Z) (secret : sshbuf) : Z + list Z :=
  let mdsz := ssh_digest_bytes (k_hash_alg k) in
  if mdsz =? 0 then inl SSH_ERR_INVALID_ARGUMENT
  else
    match heap_alloc ((need + (mdsz - 1)) / mdsz * mdsz) with
    | None => inl SSH_ERR_ALLOC_FAIL
    | Some _ =>
        let shared := ztake (sshbuf_len secret) (sshbuf_ptr secret) in
        match k1 ← hash_parts (k_hash_alg k) [shared; ztake hashlen hash; [u8 id]; default [] (k_session_id k)] mdsz;
              expand_key (S (Z.to_nat need)) (k_hash_alg k) mdsz need shared (ztake hashlen hash) k1 with
        | None => inl SSH_ERR_LIBCRYPTO_ERROR
        | Some key => inr key
        end
    end.

(** keys[0] to keys[5], for the letters from A on. *)
Fixpoint derive_keys (k : kex) (ids : list Z) (hash : list Z) (hashlen : Z) (secret : sshbuf) : Z + list (list Z) :=
  match ids with
  | [] => inr []
  | id :: ids' =>
      match derive_key k id (k_we_need k) hash hashlen secret with
      | inl r => inl r
      | inr key => match derive_keys k ids' hash hashlen secret with inl r => inl r | inr keys => inr (key :: keys) end
      end
  end.
Definition set_keys (iv key mkey : list Z) (nk : newkeys) : newkeys :=
  let e := nk_enc nk in
  mk_newkeys (mk_enc (e_name e) (e_cipher e) (e_enabled e) (e_key_len e) (e_iv_len e) (e_block_size e) (Some key) (Some iv))
    (set_mac_key (Some mkey) (m_key_len (nk_mac nk)) (nk_mac nk)) (nk_comp nk).
Definition assign_keys (keys : list (list Z)) (m : mode) : KX () :=
  k ← gets id;
  let ctos := match m with MODE_OUT => negb (k_server k) | MODE_IN => k_server k end in
  match kex_newkeys m k with
  | None => throw Segv
  | Some nk =>
      modify (set_kex_newkeys m (Some (set_keys (nth (if ctos then 0 else 1)%nat keys []) (nth (if ctos then 2 else 3)%nat keys [])
        (nth (if ctos then 4 else 5)%nat keys []) nk)))
  end.
Definition kex_derive_keys (hash : list Z) (hashlen : Z) (secret : sshbuf) : KX () :=
  k ← gets id;
  match derive_keys k [65; 66; 67; 68; 69; 70] hash hashlen secret with
  | inl r => throw (Err r)
  | inr keys => _ ← assign_keys keys MODE_IN; assign_keys keys MODE_OUT
  end.

(** ** Messages and handlers *)

(** What ssh->dispatch points to. *)
Inductive dispatch_fn :=
  | Kex_protocol_error | Kex_input_kexinit | Kex_input_newkeys | Kex_input_ext_info
  | Dispatch_protocol_error | Dispatch_protocol_ignore | Other_handler (n : Z).
(** struct ssh with the table of handlers. *)
Record kconn := mk_kconn { kc_ssh : ssh; kc_dispatch : list (option dispatch_fn); kc_skip : Z }.
Abbreviation KC := (SE kconn stop).

Definition lift {A} (m : PK A) : KC A := fun c =>
  let '(r, s) := m (kc_ssh c) in (r, mk_kconn s (kc_dispatch c) (kc_skip c)).
(** On ssh->kex, which the code has checked or follows. *)
Definition on_kex {A} (m : KX A) : KC A := fun c =>
  match s_kex (kc_ssh c) with
  | None => (inl Segv, c)
  | Some k => let '(r, k) := m k in (r, mk_kconn (set_s_kex (Some k) (kc_ssh c)) (kc_dispatch c) (kc_skip c))
  end.

Definition ssh_dispatch_init (dflt : option dispatch_fn) : KC () :=
  modify (fun c => mk_kconn (kc_ssh c) (replicate (Z.to_nat DISPATCH_MAX) dflt) (kc_skip c)).
Definition ssh_dispatch_set (type : Z) (fn : option dispatch_fn) : KC () :=
  modify (fun c => mk_kconn (kc_ssh c) (<[Z.to_nat type := fn]> (kc_dispatch c)) (kc_skip c)).
Definition ssh_dispatch_range (from to : Z) (fn : option dispatch_fn) : KC () :=
  modify (fun c => mk_kconn (kc_ssh c)
    (imap (fun i f => if (from <=? Z.of_nat i) && (Z.of_nat i <=? to) then fn else f) (kc_dispatch c)) (kc_skip c)).

Definition send_unimplemented (seq : Z) : PK () :=
  _ ← sshpkt_start SSH2_MSG_UNIMPLEMENTED; _ ← sshpkt_put_u32 seq; sshpkt_send.
Definition kex_protocol_error (seq : Z) : PK () := send_unimplemented seq.
Definition dispatch_protocol_error (seq : Z) : PK () := _ ← send_unimplemented seq; ssh_packet_write_wait.

Definition kex_reset_dispatch : KC () := ssh_dispatch_range SSH2_MSG_TRANSPORT_MIN SSH2_MSG_TRANSPORT_MAX (Some Kex_protocol_error).

Definition kex_send_ext_info : PK () :=
  match sshkey_alg_list false true true COMMA with
  | None => fail SSH_ERR_ALLOC_FAIL
  | Some algs =>
      _ ← sshpkt_start SSH2_MSG_EXT_INFO;
      _ ← sshpkt_put_u32 1;
      _ ← sshpkt_put_cstring (str "server-sig-algs");
      _ ← sshpkt_put_cstring algs;
      sshpkt_send
  end.
Definition kex_send_newkeys : KC () :=
  _ ← kex_reset_dispatch;
  _ ← lift (_ ← sshpkt_start SSH2_MSG_NEWKEYS; sshpkt_send);
  _ ← ssh_dispatch_set SSH2_MSG_NEWKEYS (Some Kex_input_newkeys);
  ext ← on_kex (gets k_ext_info_c);
  when ext (lift kex_send_ext_info).

(** The loop over the extensions. *)
Fixpoint ext_infos (n : nat) : KC () :=
  match n with
  | O => mret tt
  | S n' =>
      name ← lift sshpkt_get_cstring;
      val ← lift sshpkt_get_string;
      _ ← when (bytes_eqb (cstr name) (str "server-sig-algs"))
            (_ ← guard_or (negb (existsb (Z.eqb 0) val)) (Err SSH_ERR_INVALID_FORMAT);
             on_kex (modify (set_k_server_sig_algs (Some val))));
      ext_infos n'
  end.
Definition kex_input_ext_info : KC () :=
  _ ← ssh_dispatch_set SSH2_MSG_EXT_INFO (Some Kex_protocol_error);
  ninfo ← lift sshpkt_get_u32;
  _ ← ext_infos (Z.to_nat ninfo);
  lift sshpkt_get_end.

Definition kex_input_newkeys : KC () :=
  _ ← ssh_dispatch_set SSH2_MSG_NEWKEYS (Some Kex_protocol_error);
  _ ← ssh_dispatch_set SSH2_MSG_KEXINIT (Some Kex_input_kexinit);
  _ ← lift sshpkt_get_end;
  _ ← lift (ssh_set_newkeys MODE_IN);
  on_kex (modify (fun k => set_k_name None (set_k_flags (Z.ldiff (k_flags k) KEX_INIT_SENT)
    (set_k_peer (sshbuf_reset (k_peer k)) (set_k_done true k))))).

Definition kex_choose_conf : KC () :=
  skip ← on_kex choose_conf;
  when skip (modify (fun c => mk_kconn (kc_ssh c) (kc_dispatch c) 1)).

Fixpoint discard (n : nat) (m : PK ()) : PK () :=
  match n with O => mret tt | S n' => _ ← m; discard n' m end.
(** The packet is kept in kex->peer and then checked. *)
Definition store_kexinit (k : kex) : PK () :=
  inc ← gets s_incoming;
  let '(r, peer) := sshbuf_put (sshbuf_ptr inc) (sshbuf_len inc) (k_peer k) in
  _ ← modify (set_s_kex (Some (set_k_peer peer k)));
  match r with
  | inl r => fail r
  | inr _ =>
      _ ← discard (Z.to_nat KEX_COOKIE_LEN) (_ ← sshpkt_get_u8; mret tt);
      _ ← discard PROPOSAL_MAX (_ ← sshpkt_get_string_direct; mret tt);
      _ ← sshpkt_get_u8;
      _ ← sshpkt_get_u32;
      sshpkt_get_end
  end.

Section Handlers.
(** kex->kex[type], and the handlers of other messages. *)
Variable methods : Z -> option (KC ()).
Variable others : Z -> Z -> Z -> KC ().

Definition kex_input_kexinit : KC () :=
  k ← gets (fun c => s_kex (kc_ssh c));
  match k with
  | None => throw (Err SSH_ERR_INVALID_ARGUMENT)
  | Some k =>
      _ ← ssh_dispatch_set SSH2_MSG_KEXINIT None;
      _ ← lift (store_kexinit k);
      _ ← when (negb (truthy (Z.land (k_flags k) KEX_INIT_SENT))) (lift kex_send_kexinit);
      _ ← kex_choose_conf;
      type ← on_kex (gets k_kex_type);
      match (if type <? KEX_MAX then methods type else None) with
      | Some m => m
      | None => throw (Err SSH_ERR_INTERNAL_ERROR)
      end
  end.

Definition call_handler (fn : dispatch_fn) (type seq : Z) : KC () :=
  match fn with
  | Kex_protocol_error => lift (kex_protocol_error seq)
  | Kex_input_kexinit => kex_input_kexinit
  | Kex_input_newkeys => kex_input_newkeys
  | Kex_input_ext_info => kex_input_ext_info
  | Dispatch_protocol_error => lift (dispatch_protocol_error seq)
  | Dispatch_protocol_ignore => mret tt
  | Other_handler n => others n type seq
  end.

(** The loop of ssh_dispatch_run; [done] is *done. *)
Fixpoint dispatch_loop (fuel : nat) (block : bool) (done : kconn -> bool) : KC () :=
  match fuel with
  | O => throw Hang
  | S fuel' =>
      '(type, seqnr) ← lift (if block then ssh_packet_read_seqnr else ssh_packet_read_poll_seqnr);
      if negb block && (type =? SSH_MSG_NONE) then mret tt
      else
        fn ← gets (fun c => if (0 <? type) && (type <? DISPATCH_MAX) then mjoin (kc_dispatch c !! Z.to_nat type) else None);
        match fn with
        | None =>
            _ ← lift (sshpkt_disconnect (str "protocol error: rcvd type " ++ dec type)); throw (Err SSH_ERR_DISCONNECTED)
        | Some fn =>
            skip ← gets kc_skip;
            if truthy skip then
              _ ← modify (fun c => mk_kconn (kc_ssh c) (kc_dispatch c) (skip - 1)); dispatch_loop fuel' block done
            else
              _ ← call_handler fn type (default 0 seqnr);
              stop ← gets done;
              if (stop : bool) then mret tt else dispatch_loop fuel' block done
        end
  end.
Definition ssh_dispatch_run (block : bool) (done : kconn -> bool) : KC () := dispatch_loop max_rounds block done.
End Handlers.

(** ** Starting *)

Definition empty_kex (my peer : sshbuf) : kex :=
  mk_kex None None None 0 0 false None None 0 0 0 None false my peer false 0 0 0 None.
(** The code, or the structure. *)
Definition new_kex (proposal : list (list Z)) : Z + kex :=
  match heap_alloc SIZEOF_KEX with
  | None => inl SSH_ERR_ALLOC_FAIL
  | Some _ =>
      match sshbuf_new with
      | None => inl SSH_ERR_ALLOC_FAIL
      | Some peer =>
          match sshbuf_new with
          | None => inl SSH_ERR_ALLOC_FAIL
          | Some my => match kex_prop2buf proposal my with (inl r, _) => inl r | (inr _, my) => inr (empty_kex my peer) end
          end
      end
  end.
Definition kex_new (proposal : list (list Z)) : KC () :=
  match new_kex proposal with
  | inl r => throw (Err r)
  | inr k =>
      _ ← kex_reset_dispatch;
      _ ← ssh_dispatch_set SSH2_MSG_KEXINIT (Some Kex_input_kexinit);
      lift (modify (set_s_kex (Some k)))
  end.
(** kex_free and ssh->kex = NULL, when the step fails. *)
Definition or_free (m : KC ()) : KC () := fun c =>
  match m c with
  | (inl e, c') => (inl e, mk_kconn (set_s_kex None (kc_ssh c')) (kc_dispatch c') (kc_skip c'))
  | ok => ok
  end.
Definition kex_setup (proposal : list (list Z)) : KC () :=
  _ ← kex_new proposal; or_free (lift kex_send_kexinit).
End Kex.
