(* ===== verification/KexSpec.v ===== *)
(** * What the two sides of a key exchange agree on

    The proposals that kex_prop2buf writes are those that kex_buf2prop reads at
    the other side; from the same two proposals client and server choose the
    same algorithms; from the same secret, hash and session identifier they
    derive the same keys, as RFC 4253 defines them. *)

From stdpp Require Import list.
From S2P Require Import Prelude Sshbuf Poly1305 ChachaPoly Mac Cipher PacketState Packet PacketSend PacketRecv PacketKeys Match KexNames Kex.

(** ** Reading from a read-only buffer *)

(** A writable buffer with the same bytes and the same position. *)
Definition twin (b : sshbuf) : sshbuf :=
  mk_sshbuf (b_cd b) (b_cd b) (b_mem b) (b_off b) (b_size b) (b_max_size b) (b_alloc b) false 1 None.
(** [m] does not look at what makes the two differ. *)
Definition Views {A} (m : SE sshbuf Z A) : Prop :=
  forall b, buf_wf b -> m (twin b) = (fst (m b), twin (snd (m b))) /\ buf_wf (snd (m b)).

Lemma twin_rw b : buf_wf b -> buf_rw (twin b).
Proof. intros []. repeat split; cbn; try done; lia. Qed.
Lemma twin_ptr b : buf_wf b -> sshbuf_ptr (twin b) = sshbuf_ptr b.
Proof. intros H. unfold sshbuf_ptr. by rewrite (sanity_ok b H), (sanity_ok (twin b) (rw_wf _ (twin_rw b H))). Qed.
Lemma twin_len b : buf_wf b -> sshbuf_len (twin b) = sshbuf_len b.
Proof. intros H. unfold sshbuf_len. by rewrite (sanity_ok b H), (sanity_ok (twin b) (rw_wf _ (twin_rw b H))). Qed.

Lemma Views_ret {A} (x : A) : Views (mret x).
Proof. by intros b Hb. Qed.
Lemma Views_bind {A B} (m : SE sshbuf Z A) (k : A -> SE sshbuf Z B) : Views m -> (forall a, Views (k a)) -> Views (m ≫= k).
Proof.
  intros Hm Hk b Hb. destruct (Hm b Hb) as [E Hb1]. unfold mbind, SE_bind. rewrite E. destruct (m b) as [[e|a] b1]; cbn in *; [done|]. by apply Hk.
Qed.
Lemma Views_ptr {A} (k : list Z -> SE sshbuf Z A) : (forall p, Views (k p)) -> Views (gets sshbuf_ptr ≫= k).
Proof. intros Hk b Hb. rewrite !gets_bind, twin_ptr by done. by apply Hk. Qed.
Lemma Views_consume n : 0 <= n -> Views (sshbuf_consume n).
Proof.
  intros Hn b Hb. unfold sshbuf_consume. rewrite (sanity_ok b Hb), (sanity_ok (twin b) (rw_wf _ (twin_rw b Hb))), twin_len by done.
  change (truthy 0) with false. cbn iota. destruct (n =? 0); [done|]. unfold sshbuf_len. rewrite (sanity_ok b Hb). change (truthy 0) with false. cbn iota.
  destruct (Z.ltb_spec (b_size b - b_off b) n); [done|]. cbn [b_off b_size twin].
  destruct Hb. destruct (Z.eqb_spec (b_off b + n) (b_size b)); cbn; (split; [reflexivity|]); split; cbn; try done; lia.
Qed.
Lemma Views_u8 : Views sshbuf_get_u8.
Proof. apply Views_ptr. intros p. apply Views_bind; [by apply Views_consume|]. intros. apply Views_ret. Qed.
Lemma Views_u32 : Views sshbuf_get_u32.
Proof. apply Views_ptr. intros p. apply Views_bind; [by apply Views_consume|]. intros. apply Views_ret. Qed.
Lemma twin_peek b : buf_wf b -> sshbuf_peek_string_direct (twin b) = sshbuf_peek_string_direct b.
Proof. intros H. unfold sshbuf_peek_string_direct. by rewrite twin_ptr, twin_len. Qed.
Lemma peek_len b p len : sshbuf_peek_string_direct b = inr (p, len) -> 0 <= len.
Proof.
  unfold sshbuf_peek_string_direct. destruct (_ <? 4); [done|]. destruct (_ <? _); [done|]. destruct (_ <? _); [done|]. intros [= _ <-].
  pose proof (PEEK_U32_range (sshbuf_ptr b)). lia.
Qed.
Lemma Views_string_direct : Views sshbuf_get_string_direct.
Proof.
  intros b Hb. unfold sshbuf_get_string_direct. rewrite twin_peek by done. destruct (sshbuf_peek_string_direct b) as [r|[p len]] eqn:E; [done|].
  pose proof (peek_len _ _ _ E). destruct (Views_consume (len + 4) ltac:(lia) b Hb) as [Ec Hw]. rewrite Ec. destruct (sshbuf_consume (len + 4) b) as [[e|[]] b']; done.
Qed.
Lemma Views_cstring {al : Allocator} : Views sshbuf_get_cstring.
Proof.
  intros b Hb. unfold sshbuf_get_cstring. rewrite twin_peek by done. destruct (sshbuf_peek_string_direct b) as [r|[p len]]; [done|].
  destruct (_ && _); [done|]. unfold sshbuf_skip_string.
  assert (Hv : Views (_ ← sshbuf_get_string_direct; mret tt)) by (apply Views_bind; [apply Views_string_direct|intros; apply Views_ret]).
  destruct (Hv b Hb) as [E Hw]. rewrite E. destruct ((_ ← sshbuf_get_string_direct; mret tt) b) as [[e|[]] b']; cbn in *; [done|].
  unfold malloc_copy. by destruct (heap_alloc _).
Qed.

(** ** Proposals *)

(** The bytes of a KEXINIT message after its type. *)
Definition prop_bytes (cookie : list Z) (ps : list (list Z)) (first : Z) : list Z :=
  cookie ++ enc_strings ps ++ [first] ++ POKE_U32 0.

Section Prop_.
Context {al : Allocator} {altot : @AllocTotal al}.

Lemma Appends_repeat n m d : Appends m d -> Appends (repeat_put n m) (concat (replicate n d)).
Proof. intros Hm. induction n as [|n IH]; cbn [repeat_put replicate concat]; [apply Appends_ret|]. by apply Appends_bind. Qed.
Lemma Appends_proposal ps : Forall no_nul ps -> Appends (put_proposal ps) (enc_strings ps).
Proof.
  induction 1 as [|p ps Hp _ IH]; cbn [put_proposal enc_strings map concat]; [apply Appends_ret|]. apply Appends_bind; [|done].
  apply Puts_Appends. pose proof (Puts_cstring p) as Hput. by rewrite (cstr_id p Hp) in Hput.
Qed.
Lemma prop2buf_ok b c ps : bufc b c -> Forall no_nul ps -> zlen (enc_strings ps) + 21 <= SSHBUF_SIZE_MAX ->
  exists b', kex_prop2buf ps b = (inr tt, b') /\ bufc b' (prop_bytes (zfill 16) ps 0).
Proof.
  intros Hb Hps Hl. pose proof (buf_reset_ok b c Hb) as (Hb0 & Hc0 & Hm0).
  set (rest := _ ← repeat_put (Z.to_nat KEX_COOKIE_LEN) (sshbuf_put_u8 0); _ ← put_proposal ps; _ ← sshbuf_put_u8 0; sshbuf_put_u32 0).
  assert (Ha : Appends rest (prop_bytes (zfill 16) ps 0)).
  { subst rest. apply (Appends_bind (repeat_put 16 (sshbuf_put_u8 0)) (zfill 16)); [apply (Appends_repeat 16 _ [0]), Puts_Appends, (Puts_u8 0)|].
    apply Appends_bind; [by apply Appends_proposal|]. apply (Appends_bind _ [0]); [apply Puts_Appends, (Puts_u8 0)|]. apply Puts_Appends, (Puts_u32 0). }
  assert (Hz : zlen (prop_bytes (zfill 16) ps 0) = zlen (enc_strings ps) + 21).
  { unfold prop_bytes. rewrite !zlen_app, zlen_POKE_U32, zlen_zfill by lia. change (zlen [0]) with 1. lia. }
  destruct (Appends_ok _ _ _ Ha Hb0) as (b' & E & Hb' & Habs); [rewrite Hc0, Hm0, Hz; change (zlen (@nil Z)) with 0; lia|].
  exists b'. split; [unfold kex_prop2buf, reset_buf; by rewrite modify_bind|]. rewrite Hc0, Hm0 in Habs. by apply bufc_abs.
Qed.

Lemma Parses_proposal ps : Forall no_nul ps -> Parses (get_proposal (length ps)) ps (enc_strings ps).
Proof.
  induction 1 as [|p ps Hp _ IH]; cbn [length get_proposal enc_strings map concat]; [apply Parses_ret|].
  apply (Parses_bind _ p); [by apply Parses_cstring|]. rewrite <- (app_nil_r (concat _)). apply (Parses_bind _ ps); [done|]. rewrite cstr_id by done. apply Parses_ret.
Qed.
Lemma Parses_consume n enc : zlen enc = n -> Parses (sshbuf_consume n) tt enc.
Proof.
  intros Hn b rest Hb Hc. zlen_facts. destruct (consume_rw b n Hb ltac:(lia)) as [E Ha]. rewrite Hc, zlen_app in *. zlen_facts.
  rewrite (proj2 (Z.ltb_ge _ _)) in E by lia. destruct (Ha ltac:(lia)) as [Hb' Habs]. eexists. split; [exact E|]. split; [done|].
  by rewrite Habs, zdrop_app_exact.
Qed.
Lemma Parses_prop cookie ps first : zlen cookie = 16 -> length ps = PROPOSAL_MAX -> Forall no_nul ps ->
  Parses read_prop (ps, first) (prop_bytes cookie ps first).
Proof.
  intros Hc Hn Hps. unfold read_prop. apply (Parses_bind _ tt); [by apply Parses_consume|]. apply (Parses_bind _ ps); [rewrite <- Hn; by apply Parses_proposal|].
  apply (Parses_bind _ first); [apply Parses_u8|]. rewrite <- (app_nil_r (POKE_U32 0)). apply (Parses_bind _ 0); [by apply Parses_u32|apply Parses_ret].
Qed.
Lemma Views_get_proposal n : Views (get_proposal n).
Proof. induction n as [|n IH]; cbn [get_proposal]; [apply Views_ret|]. apply Views_bind; [apply Views_cstring|]. intros s. apply Views_bind; [done|]. intros. apply Views_ret. Qed.
Lemma Views_read_prop : Views read_prop.
Proof.
  unfold read_prop. apply Views_bind; [by apply Views_consume|]. intros _. apply Views_bind; [apply Views_get_proposal|]. intros ps.
  apply Views_bind; [apply Views_u8|]. intros v. apply Views_bind; [apply Views_u32|]. intros. apply Views_ret.
Qed.

Lemma fromb_view b c : bufc b c -> exists v, sshbuf_fromb b = Some v /\ buf_wf v /\ contents (twin v) = c.
Proof.
  intros Hb. pose proof (bufc_max b c Hb) as Hmax. pose proof (bufc_len b c Hb) as Hl. pose proof Hb as ([Hw _ _] & _). unfold sshbuf_fromb.
  rewrite sanity_ok by done. change (truthy 0) with false. cbn iota. unfold sshbuf_from. rewrite Hl, (proj2 (Z.ltb_ge _ _)) by lia.
  assert (Hcd : Z.add (b_off b) <$> b_cd b <> None) by (destruct Hw as [Hcd]; by destruct (b_cd b)). rewrite bool_decide_eq_false_2 by done. cbn [orb].
  destruct (alloc_total sizeof_sshbuf) as [? ->]; [unfold sizeof_sshbuf, SSHBUF_SIZE_MAX; lia|]. cbn [mbind option_bind mret option_ret].
  rewrite (bufc_ptr b c (zlen c) Hb), ztake_all by lia. eexists. split; [reflexivity|]. zlen_facts.
  split; [split; cbn; try done; unfold SSHBUF_REFS_MAX; lia|].
  unfold contents, zslice. cbn. rewrite zdrop_0 by lia. apply ztake_all. lia.
Qed.
Lemma buf2prop_ok b cookie ps first : bufc b (prop_bytes cookie ps first) -> zlen cookie = 16 -> length ps = PROPOSAL_MAX -> Forall no_nul ps ->
  kex_buf2prop b = inr (ps, first).
Proof.
  intros Hb Hc Hn Hps. unfold kex_buf2prop. destruct (alloc_total 80) as [p ->]; [unfold SSHBUF_SIZE_MAX; lia|].
  destruct (fromb_view b _ Hb) as (v & -> & Hw & Hcv). destruct (Views_read_prop v Hw) as [E _].
  destruct (Parses_prop cookie ps first Hc Hn Hps (twin v) [] (twin_rw v Hw)) as (b' & E' & _); [by rewrite Hcv, app_nil_r|].
  rewrite E' in E. by injection E as <- _.
Qed.

(** C21: A proposal of ten lists of names that one side writes into its KEXINIT
    message is what the other side reads from it, whatever cookie
    kex_send_kexinit has put over the zeros. *)
Theorem proposal_roundtrip b c ps cookie b' b'' :
  bufc b c -> length ps = PROPOSAL_MAX -> Forall no_nul ps -> zlen (enc_strings ps) + 21 <= SSHBUF_SIZE_MAX -> zlen cookie = 16 ->
  kex_prop2buf ps b = (inr tt, b') -> bufc b'' (zwrite 0 cookie (contents b')) ->
  kex_buf2prop b'' = inr (ps, 0).
Proof.
  intros Hb Hn Hps Hl Hc E Hb''. destruct (prop2buf_ok b c ps Hb Hps Hl) as (b1 & E1 & Hb1). rewrite E in E1. injection E1 as <-.
  apply (buf2prop_ok _ cookie); try done. destruct Hb1 as (_ & Hc1 & _). rewrite Hc1 in Hb''. unfold zwrite, prop_bytes in Hb''.
  rewrite Z.add_0_l, Hc, (zdrop_app_exact (zfill 16)), ztake_0 in Hb'' by done. exact Hb''.
Qed.
End Prop_.

(** ** The choice *)

Section Choice.
Context {al : Allocator} {altot : @AllocTotal al} {md : EvpMd} {um : Umac} {ev : EvpCipher} {zl : Zlib} {env : PktEnv}.

Lemma match_list_find c s : fst (match_list c s) = List.find (fun p => existsb (bytes_eqb p) (effective s)) (until_empty (tokens c)).
Proof. apply match_list_from_fst. Qed.

(** The algorithms of one direction, from the client's and the server's lists. *)
Definition select_dir (cp sp : list (list Z)) (ctos : bool) : option newkeys :=
  let nenc := if ctos then PROPOSAL_ENC_ALGS_CTOS else PROPOSAL_ENC_ALGS_STOC in
  let nmac := if ctos then PROPOSAL_MAC_ALGS_CTOS else PROPOSAL_MAC_ALGS_STOC in
  let ncomp := if ctos then PROPOSAL_COMP_ALGS_CTOS else PROPOSAL_COMP_ALGS_STOC in
  match choose_enc (nth nenc cp []) (nth nenc sp []) with
  | inl _ => None
  | inr enc =>
      let '(r, mac) := if cipher_authlen (e_cipher enc) =? 0 then choose_mac zero_mac (nth nmac cp []) (nth nmac sp []) else (0, zero_mac) in
      if negb (r =? 0) then None
      else match choose_comp zero_comp (nth ncomp cp []) (nth ncomp sp []) with inl _ => None | inr comp => Some (mk_newkeys enc mac comp) end
  end.
(** All that is agreed on: the method, the host key, and the two directions. *)
Record agreement := mk_agreement {
  ag_name : list Z; ag_kex : kexalg; ag_hostkey : list Z; ag_hostkey_type : Z; ag_ctos : newkeys; ag_stoc : newkeys
}.
Definition select (cp sp : list (list Z)) : option agreement :=
  name ← fst (match_list (nth PROPOSAL_KEX_ALGS cp []) (nth PROPOSAL_KEX_ALGS sp []));
  a ← kex_alg_by_name name;
  hk ← fst (match_list (nth PROPOSAL_SERVER_HOST_KEY_ALGS cp []) (nth PROPOSAL_SERVER_HOST_KEY_ALGS sp []));
  if sshkey_type_from_name hk =? KEY_UNSPEC then None
  else
    ctos ← select_dir cp sp true;
    stoc ← select_dir cp sp false;
    Some (mk_agreement name a hk (sshkey_type_from_name hk) ctos stoc).

(** What one side has after it has chosen. *)
Record chosen (server : bool) (g : agreement) (k : kex) : Prop := {
  ch_server : k_server k = server;
  ch_name : k_name k = Some (ag_name g);
  ch_type : k_kex_type k = ka_type (ag_kex g);
  ch_hash : k_hash_alg k = ka_hash_alg (ag_kex g);
  ch_nid : k_ec_nid k = ka_ec_nid (ag_kex g);
  ch_hostkey : k_hostkey_alg k = Some (ag_hostkey g);
  ch_hostkey_type : k_hostkey_type k = ag_hostkey_type g;
  ch_in : k_newkeys_in k = Some (if server then ag_ctos g else ag_stoc g);
  ch_out : k_newkeys_out k = Some (if server then ag_stoc g else ag_ctos g);
  ch_need : k_we_need k = max_need (max_need 0 (ag_ctos g)) (ag_stoc g)
}.

Lemma set_newkeys_twice m a b (k : kex) : set_kex_newkeys m a (set_kex_newkeys m b k) = set_kex_newkeys m a k.
Proof. by destruct m, k. Qed.

(** Both directions are chosen in the same way, up to the names of the codes. *)
Lemma choose_mode_select cp sp peer m k :
  match select_dir cp sp (match m with MODE_OUT => negb (k_server k) | MODE_IN => k_server k end) with
  | Some nk => choose_mode cp sp peer m k = (inr tt, set_kex_newkeys m (Some nk) k)
  | None => exists r k', choose_mode cp sp peer m k = (inl (Err r), k')
  end.
Proof.
  unfold choose_mode, select_dir. rewrite gets_bind. cbn [id]. destruct (alloc_total SIZEOF_NEWKEYS) as [p ->]; [unfold SIZEOF_NEWKEYS, SSHBUF_SIZE_MAX; lia|].
  rewrite modify_bind. set (ctos := match m with MODE_IN => _ | MODE_OUT => _ end). destruct (choose_enc _ _) as [r|enc]; [by eexists _, _|].
  destruct (if cipher_authlen (e_cipher enc) =? 0 then _ else _) as [r mac]. rewrite modify_bind, set_newkeys_twice.
  destruct (negb (r =? 0)); [by eexists _, _|]. destruct (choose_comp _ _ _) as [r'|comp]; [by eexists _, _|]. unfold modify. by rewrite set_newkeys_twice.
Qed.

Lemma max_need_comm a b : max_need (max_need 0 a) b = max_need (max_need 0 b) a.
Proof.
  assert (E : forall n nk, max_need n nk = Z.max n (Z.max (e_key_len (nk_enc nk)) (Z.max (e_block_size (nk_enc nk)) (Z.max (e_iv_len (nk_enc nk)) (m_key_len (nk_mac nk))))))
    by (intros; unfold max_need; by rewrite !Z.max_assoc).
  rewrite !E. generalize (Z.max (e_key_len (nk_enc a)) (Z.max (e_block_size (nk_enc a)) (Z.max (e_iv_len (nk_enc a)) (m_key_len (nk_mac a))))).
  generalize (Z.max (e_key_len (nk_enc b)) (Z.max (e_block_size (nk_enc b)) (Z.max (e_iv_len (nk_enc b)) (m_key_len (nk_mac b))))). intros x y. lia.
Qed.

(** A step that may fail with some code. *)
Definition or_fails {A} (m : SE kex stop A) (k : kex) : Prop := exists r k', m k = (inl (Err r), k').
Lemma or_fails_bind {A B} (m : SE kex stop A) (h : A -> SE kex stop B) k : or_fails m k -> or_fails (m ≫= h) k.
Proof. intros (r & k' & E). exists r, k'. by apply SE_bind_err. Qed.
Lemma or_fails_step {A B} (m : SE kex stop A) (h : A -> SE kex stop B) k a k1 : m k = (inr a, k1) -> or_fails (h a) k1 -> or_fails (m ≫= h) k.
Proof. intros E (r & k' & E'). exists r, k'. by rewrite (SE_bind_ok _ _ _ _ _ E). Qed.
Lemma or_failed_ok c m k k' : m k = (inr tt, k') -> or_failed c m k = (inr tt, k').
Proof. unfold or_failed. by intros ->. Qed.
Lemma or_failed_fails c m k : or_fails m k -> or_fails (or_failed c m) k.
Proof. intros (r & k' & E). exists r, (set_k_failed_choice (Some c) k'). unfold or_failed. by rewrite E. Qed.

(** The client's lists, then the server's. *)
Definition client_first (server : bool) (my peer : list (list Z)) : list (list Z) * list (list Z) := if server then (peer, my) else (my, peer).
Lemma choose_from_select server my peer f k cp sp :
  k_server k = server -> client_first server my peer = (cp, sp) ->
  match select cp sp with
  | Some g => exists b k', choose_from my peer f k = (inr b, k') /\ chosen server g k' /\ k_session_id k' = k_session_id k
  | None => or_fails (choose_from my peer f) k
  end.
Proof.
  intros Hs Hcs. unfold or_fails, choose_from. rewrite (gets_to _ server) by done. fold (@or_fails bool).
  assert (E : (if server then peer else my) = cp /\ (if server then my else peer) = sp) by (unfold client_first in Hcs; destruct server; by injection Hcs as <- <-).
  destruct E as [-> ->]. set (ext := match fst (match_list (str "ext-info-c") _) with Some _ => true | None => false end). cbv zeta.
  set (k1 := if server then set_k_ext_info_c ext k else k).
  assert (Hk1 : (when server (modify (set_k_ext_info_c ext)) : SE kex stop ()) k = (inr tt, k1) /\ k_server k1 = server /\ k_session_id k1 = k_session_id k)
    by (subst k1; by destruct server). destruct Hk1 as (E1 & Hs1 & Hid1). clearbody k1. unfold select.
  destruct (fst (match_list (nth PROPOSAL_KEX_ALGS cp []) (nth PROPOSAL_KEX_ALGS sp []))) as [name|] eqn:En; cbn [mbind option_bind].
  2:{ apply (or_fails_step _ _ _ _ _ E1), or_fails_bind, or_failed_fails. unfold choose_kex. rewrite En. by eexists _, _. }
  destruct (kex_alg_by_name name) as [a|] eqn:Ea; cbn [mbind option_bind].
  2:{ apply (or_fails_step _ _ _ _ _ E1), or_fails_bind, or_failed_fails. unfold choose_kex. rewrite En, Ea. by eexists _, _. }
  set (k2 := set_k_ec_nid (ka_ec_nid a) (set_k_hash_alg (ka_hash_alg a) (set_k_kex_type (ka_type a) (set_k_name (Some name) k1)))).
  assert (E2 : choose_kex (nth PROPOSAL_KEX_ALGS cp []) (nth PROPOSAL_KEX_ALGS sp []) k1 = (inr tt, k2)) by (unfold choose_kex; by rewrite En, Ea).
  apply (or_failed_ok (nth PROPOSAL_KEX_ALGS peer [])) in E2.
  destruct (fst (match_list (nth PROPOSAL_SERVER_HOST_KEY_ALGS cp []) (nth PROPOSAL_SERVER_HOST_KEY_ALGS sp []))) as [hk|] eqn:Eh; cbn [mbind option_bind].
  2:{ apply (or_fails_step _ _ _ _ _ E1), (or_fails_step _ _ _ _ _ E2), or_fails_bind, or_failed_fails. unfold choose_hostkeyalg. rewrite Eh. by eexists _, _. }
  destruct (sshkey_type_from_name hk =? KEY_UNSPEC) eqn:Et.
  { apply (or_fails_step _ _ _ _ _ E1), (or_fails_step _ _ _ _ _ E2), or_fails_bind, or_failed_fails. unfold choose_hostkeyalg. rewrite Eh. cbv zeta.
    eexists _, _. by rewrite !modify_bind, Et. }
  set (k3 := set_k_hostkey_nid (sshkey_ecdsa_nid_from_name hk) (set_k_hostkey_type (sshkey_type_from_name hk) (set_k_hostkey_alg (Some hk) k2))).
  assert (E3 : choose_hostkeyalg (nth PROPOSAL_SERVER_HOST_KEY_ALGS cp []) (nth PROPOSAL_SERVER_HOST_KEY_ALGS sp []) k2 = (inr tt, k3))
    by (unfold choose_hostkeyalg; rewrite Eh; cbv zeta; by rewrite !modify_bind, Et).
  apply (or_failed_ok (nth PROPOSAL_SERVER_HOST_KEY_ALGS peer [])) in E3.
  assert (Hs3 : k_server k3 = server) by done.
  pose proof (choose_mode_select cp sp peer MODE_IN k3) as Hin. rewrite Hs3 in Hin.
  assert (Hin' : match select_dir cp sp server with Some nk => choose_mode cp sp peer MODE_IN k3 = (inr tt, set_kex_newkeys MODE_IN (Some nk) k3) | None => or_fails (choose_mode cp sp peer MODE_IN) k3 end) by exact Hin.
  assert (Hout : forall nk, match select_dir cp sp (negb server) with
    | Some nk' => choose_mode cp sp peer MODE_OUT (set_kex_newkeys MODE_IN (Some nk) k3) = (inr tt, set_kex_newkeys MODE_OUT (Some nk') (set_kex_newkeys MODE_IN (Some nk) k3))
    | None => or_fails (choose_mode cp sp peer MODE_OUT) (set_kex_newkeys MODE_IN (Some nk) k3) end).
  { intros nk. pose proof (choose_mode_select cp sp peer MODE_OUT (set_kex_newkeys MODE_IN (Some nk) k3)) as H. change (k_server _) with (k_server k3) in H. rewrite Hs3 in H. exact H. }
  clear Hin.
  assert (Hsel : (ctos ← select_dir cp sp true; stoc ← select_dir cp sp false; Some (mk_agreement name a hk (sshkey_type_from_name hk) ctos stoc)) =
    match select_dir cp sp server, select_dir cp sp (negb server) with
    | Some i, Some o => Some (mk_agreement name a hk (sshkey_type_from_name hk) (if server then i else o) (if server then o else i))
    | _, _ => None end) by (destruct server; cbn [negb]; by destruct (select_dir cp sp true), (select_dir cp sp false)).
  rewrite Hsel. clear Hsel. destruct (select_dir cp sp server) as [ni|].
  2:{ apply (or_fails_step _ _ _ _ _ E1), (or_fails_step _ _ _ _ _ E2), (or_fails_step _ _ _ _ _ E3). by apply or_fails_bind. }
  specialize (Hout ni). destruct (select_dir cp sp (negb server)) as [no|].
  2:{ apply (or_fails_step _ _ _ _ _ E1), (or_fails_step _ _ _ _ _ E2), (or_fails_step _ _ _ _ _ E3), (or_fails_step _ _ _ _ _ Hin'). by apply or_fails_bind. }
  rewrite (SE_bind_ok _ _ _ _ _ E1), (SE_bind_ok _ _ _ _ _ E2), (SE_bind_ok _ _ _ _ _ E3), (SE_bind_ok _ _ _ _ _ Hin'), (SE_bind_ok _ _ _ _ _ Hout).
  eexists _, _. split; [reflexivity|]. split; [|done]. split; try done; cbn [ag_ctos ag_stoc]; try by destruct server.
  change (max_need (max_need 0 ni) no = max_need (max_need 0 (if server then ni else no)) (if server then no else ni)). destruct server; [done|apply max_need_comm].
Qed.

(** C12: From the same two proposals client and server make the same choice, or
    both fail: the first method and the first host key algorithm of the
    client's lists that the server also has, and for each direction one cipher,
    MAC and compression, which is the outgoing one of one side and the incoming
    one of the other. *)
Theorem sides_agree kc ks cp sp fc fs x y :
  k_server kc = false -> k_server ks = true ->
  kex_buf2prop (k_my kc) = inr (cp, x) -> kex_buf2prop (k_peer kc) = inr (sp, fs) ->
  kex_buf2prop (k_my ks) = inr (sp, y) -> kex_buf2prop (k_peer ks) = inr (cp, fc) ->
  match select cp sp with
  | Some g => exists bc bs kc' ks', choose_conf kc = (inr bc, kc') /\ choose_conf ks = (inr bs, ks') /\ chosen false g kc' /\ chosen true g ks' /\
      List.find (fun p => existsb (bytes_eqb p) (effective (nth PROPOSAL_KEX_ALGS sp []))) (until_empty (tokens (nth PROPOSAL_KEX_ALGS cp []))) = Some (ag_name g)
  | None => exists rc rs kc' ks', choose_conf kc = (inl (Err rc), kc') /\ choose_conf ks = (inl (Err rs), ks')
  end.
Proof.
  intros Hc Hs E1 E2 E3 E4.
  assert (Ec : choose_conf kc = choose_from cp sp fs kc) by (unfold choose_conf; rewrite gets_bind; cbn [id]; by rewrite E1, E2).
  assert (Es : choose_conf ks = choose_from sp cp fc ks) by (unfold choose_conf; rewrite gets_bind; cbn [id]; by rewrite E3, E4).
  rewrite Ec, Es. pose proof (choose_from_select false cp sp fs kc cp sp Hc eq_refl) as Hcl. pose proof (choose_from_select true sp cp fc ks cp sp Hs eq_refl) as Hsv.
  destruct (select cp sp) as [g|] eqn:Eg.
  - destruct Hcl as (bc & kc' & -> & Hcc & _), Hsv as (bs & ks' & -> & Hcs & _). exists bc, bs, kc', ks'. repeat (split; [done|]).
    rewrite <- match_list_find. revert Eg. unfold select.
    destruct (fst (match_list (nth PROPOSAL_KEX_ALGS cp []) _)) as [name|]; cbn [mbind option_bind]; [|done]. destruct (kex_alg_by_name name); cbn [mbind option_bind]; [|done].
    destruct (fst (match_list _ _)); cbn [mbind option_bind]; [|done]. destruct (_ =? KEY_UNSPEC); [done|].
    destruct (select_dir cp sp true); cbn [mbind option_bind]; [|done]. destruct (select_dir cp sp false); cbn [mbind option_bind]; [|done]. by intros [= <-].
  - destruct Hcl as (rc & kc' & ->), Hsv as (rs & ks' & ->). by exists rc, rs, kc', ks'.
Qed.
End Choice.

(** ** Keys *)

Section Derive.
Context {al : Allocator} {altot : @AllocTotal al} {md : EvpMd} {mdok : @EvpMdOk md} {um : Umac} {umok : @UmacOk um}
  {ev : EvpCipher} {zl : Zlib} {env : PktEnv}.

(** RFC 4253, 7.2: K1 made longer [n] times by a hash of the secret, the hash
    of the exchange, and all that is there. *)
Fixpoint kdf (alg : Z) (secret hash k1 : list Z) (n : nat) : list Z :=
  match n with
  | O => k1
  | S n' => let key := kdf alg secret hash k1 n' in key ++ md_hash alg (secret ++ hash ++ key)
  end.
Definition key_of (alg : Z) (secret hash sid : list Z) (id need : Z) : list Z :=
  kdf alg secret hash (md_hash alg (secret ++ hash ++ [u8 id] ++ sid)) (Z.to_nat ((need - 1) / ssh_digest_bytes alg)).

Lemma hash_parts_ok alg parts mdsz : 0 <= alg < SSH_DIGEST_MAX -> ssh_digest_bytes alg <= mdsz <= UINT_MAX ->
  hash_parts alg parts mdsz = Some (md_hash alg (concat parts)).
Proof.
  intros Ha Hm. unfold hash_parts. destruct (digest_start_ok alg Ha) as (c & -> & Hc). cbn [mbind option_bind].
  assert (Hu : forall parts c l, holds alg c l -> exists c', update_all c parts = Some c' /\ holds alg c' (l ++ concat parts)).
  { clear c Hc parts. induction parts as [|p parts IH]; intros c l Hl; cbn [update_all concat]; [exists c; by rewrite app_nil_r|].
    destruct (digest_update_ok alg c l p Hl) as (c' & -> & Hc'). cbn [Z.eqb]. destruct (IH c' _ Hc') as (c2 & E & H2). exists c2. by rewrite app_assoc. }
  destruct (Hu parts c [] Hc) as (c' & -> & Hc'). cbn [mbind option_bind]. destruct (digest_final_ok alg c' _ mdsz Ha Hc' Hm) as (c2 & -> & _). done.
Qed.
Lemma zlen_kdf alg secret hash k1 n : 0 <= alg < SSH_DIGEST_MAX -> zlen k1 = ssh_digest_bytes alg ->
  zlen (kdf alg secret hash k1 n) = (Z.of_nat n + 1) * ssh_digest_bytes alg.
Proof. intros Ha Hk. induction n as [|n IH]; cbn [kdf]; [lia|]. rewrite zlen_app, IH, md_hash_len by done. lia. Qed.

Lemma expand_ok alg secret hash k1 need n : 0 <= alg < SSH_DIGEST_MAX -> zlen k1 = ssh_digest_bytes alg ->
  Z.of_nat n * ssh_digest_bytes alg < need <= (Z.of_nat n + 1) * ssh_digest_bytes alg ->
  forall j i fuel, (i + j)%nat = n -> (j < fuel)%nat ->
  expand_key fuel alg (ssh_digest_bytes alg) need secret hash (kdf alg secret hash k1 i) = Some (kdf alg secret hash k1 n).
Proof.
  intros Ha Hk Hn j. pose proof (digest_bytes_range alg Ha) as Hr. induction j as [|j IH]; intros i fuel Hi Hf; (destruct fuel as [|fuel]; [lia|]); cbn [expand_key]; rewrite zlen_kdf by done.
  - rewrite (proj2 (Z.ltb_ge _ _)) by (replace i with n by lia; lia). by replace i with n by lia.
  - rewrite (proj2 (Z.ltb_lt _ _)) by nia. rewrite hash_parts_ok by (done || unfold UINT_MAX; lia). cbn [mbind option_bind concat]. rewrite app_nil_r.
    apply (IH (S i)); lia.
Qed.

Lemma zlen_key_of alg secret hash sid id need : 0 <= alg < SSH_DIGEST_MAX -> 0 < need ->
  need <= zlen (key_of alg secret hash sid id need).
Proof.
  intros Ha Hn. pose proof (digest_bytes_range alg Ha) as Hr. unfold key_of. rewrite zlen_kdf by (done || by apply md_hash_len).
  pose proof (Z.div_mod (need - 1) (ssh_digest_bytes alg) ltac:(lia)). pose proof (Z.mod_pos_bound (need - 1) (ssh_digest_bytes alg) ltac:(lia)).
  rewrite Z2Nat.id by (apply Z.div_pos; lia). lia.
Qed.

(** A key has the bytes that the RFC defines, and fills the block that was
    allocated for it. *)
Lemma derive_key_ok k id need hash hashlen secret S :
  0 <= k_hash_alg k < SSH_DIGEST_MAX -> 0 < need <= 4096 -> bufc secret S ->
  derive_key k id need hash hashlen secret = inr (key_of (k_hash_alg k) S (ztake hashlen hash) (default [] (k_session_id k)) id need) /\
  zlen (key_of (k_hash_alg k) S (ztake hashlen hash) (default [] (k_session_id k)) id need) =
    (need + (ssh_digest_bytes (k_hash_alg k) - 1)) / ssh_digest_bytes (k_hash_alg k) * ssh_digest_bytes (k_hash_alg k).
Proof.
  intros Ha Hn HS. set (alg := k_hash_alg k) in *. pose proof (digest_bytes_range alg Ha) as Hr. set (mdsz := ssh_digest_bytes alg) in *.
  pose proof (Z.div_mod (need - 1) mdsz ltac:(lia)) as Hd. pose proof (Z.mod_pos_bound (need - 1) mdsz ltac:(lia)) as Hm.
  pose proof (Z.div_pos (need - 1) mdsz ltac:(lia) ltac:(lia)) as Hp. set (q := (need - 1) / mdsz) in *.
  assert (Hq : (need + (mdsz - 1)) / mdsz = q + 1).
  { replace (need + (mdsz - 1)) with (need - 1 + 1 * mdsz) by lia. by rewrite Z.div_add by lia. }
  set (sid := default [] (k_session_id k)). set (h := ztake hashlen hash). set (k1 := md_hash alg (S ++ h ++ [u8 id] ++ sid)).
  assert (Zk : zlen k1 = mdsz) by (by apply md_hash_len).
  assert (Ekey : key_of alg S h sid id need = kdf alg S h k1 (Z.to_nat q)) by done. rewrite Ekey, Hq. split; [|rewrite zlen_kdf by done; fold mdsz; rewrite Z2Nat.id by lia; lia].
  unfold derive_key. fold alg mdsz. rewrite (proj2 (Z.eqb_neq mdsz 0)) by lia. rewrite Hq.
  destruct (alloc_total ((q + 1) * mdsz)) as [p ->]; [unfold SSHBUF_SIZE_MAX; nia|]. rewrite (bufc_len secret S HS), (bufc_ptr secret S) by (done || lia).
  rewrite ztake_all by lia. cbv zeta. fold h sid. rewrite hash_parts_ok by (done || (fold mdsz; unfold UINT_MAX; lia)). cbn [mbind option_bind concat]. rewrite app_nil_r. fold k1.
  rewrite (expand_ok alg S h k1 need (Z.to_nat q) Ha Zk ltac:(fold mdsz; rewrite Z2Nat.id by lia; lia) (Z.to_nat q) 0); [done|lia|].
  assert (q <= need) by nia. lia.
Qed.

(** C13: derive_key computes the keys of RFC 4253 (7.2) for every hash of the
    table: K1 is the hash of the secret, the exchange hash, the letter and the
    session identifier, and the key is made longer by the hash of the secret,
    the exchange hash and the key so far; it has at least the bytes needed and
    exactly fills the block that was allocated for it. *)
Theorem derive_key_correct k id need hash hashlen secret S :
  0 <= k_hash_alg k < SSH_DIGEST_MAX -> 0 < need <= 4096 -> bufc secret S ->
  derive_key k id need hash hashlen secret = inr (key_of (k_hash_alg k) S (ztake hashlen hash) (default [] (k_session_id k)) id need) /\
  need <= zlen (key_of (k_hash_alg k) S (ztake hashlen hash) (default [] (k_session_id k)) id need) /\
  zlen (key_of (k_hash_alg k) S (ztake hashlen hash) (default [] (k_session_id k)) id need) =
    (need + (ssh_digest_bytes (k_hash_alg k) - 1)) / ssh_digest_bytes (k_hash_alg k) * ssh_digest_bytes (k_hash_alg k).
Proof.
  intros Ha Hn HS. destruct (derive_key_ok k id need hash hashlen secret S Ha Hn HS) as [E Z]. split; [done|]. split; [|done].
  apply zlen_key_of; [done|lia].
Qed.
End Derive.
