(* ===== verification/AuthOpts.v ===== *)
(** * Options of a key: openssh/auth-options.c

    What an authorized_keys line or a certificate permits a session, how such a
    set of options is read from text (sshauthopt_parse) or from a certificate
    (cert_option_list), merged with the options in force (sshauthopt_merge) and
    sent between the processes of sshd (sshauthopt_serialise).  hpdelim, a2port,
    a2tun and parse_absolute_time are those of misc.c, strtonum that of
    openbsd-compat.

    Text is a list of bytes without NUL.  An error text is returned as a value.
    strptime and mktime are parameters ([Calendar]).  The loops that write and
    read the strings of an array are those of Kex.v. *)

From stdpp Require Import list.
From S2P Require Import Prelude CText Sshbuf Match AddrMatch PacketSend KexNames Kex KexSpec.

Definition INT_MAX : Z := 2 ^ 31 - 1.
Definition NI_MAXHOST : Z := 1025.
Definition SSH_TUNID_ANY : Z := 2147483647.
Definition SSH_TUNID_ERR : Z := SSH_TUNID_ANY - 1.
Definition SSH_TUNID_MAX : Z := SSH_TUNID_ANY - 2.
Definition OPTIONS_CRITICAL : Z := 1.
Definition OPTIONS_EXTENSIONS : Z := 2.

Definition QUOTE : Z := 34.
Definition BACKSLASH : Z := 92.
Definition EQUALS : Z := 61.
Definition COLON : Z := 58.

Class Calendar := { tm : Type; strptime : list Z -> list Z -> option tm; mktime : tm -> Z }.

(** ** Data *)

Record sshauthopt := mk_opt {
  o_port_forwarding : Z; o_agent_forwarding : Z; o_x11_forwarding : Z; o_pty : Z; o_user_rc : Z;
  o_restricted : Z;
  o_valid_before : Z;
  o_cert_authority : Z; o_cert_principals : option (list Z);
  o_force_tun_device : Z; o_force_command : option (list Z);
  o_env : list (list Z); o_permitopen : list (list Z); o_permitlisten : list (list Z);
  o_from_host_cert : option (list Z); o_from_host_keys : option (list Z)
}.

Definition set_port v (o : sshauthopt) := mk_opt v (o_agent_forwarding o) (o_x11_forwarding o) (o_pty o) (o_user_rc o) (o_restricted o) (o_valid_before o) (o_cert_authority o) (o_cert_principals o) (o_force_tun_device o) (o_force_command o) (o_env o) (o_permitopen o) (o_permitlisten o) (o_from_host_cert o) (o_from_host_keys o).
Definition set_agent v (o : sshauthopt) := mk_opt (o_port_forwarding o) v (o_x11_forwarding o) (o_pty o) (o_user_rc o) (o_restricted o) (o_valid_before o) (o_cert_authority o) (o_cert_principals o) (o_force_tun_device o) (o_force_command o) (o_env o) (o_permitopen o) (o_permitlisten o) (o_from_host_cert o) (o_from_host_keys o).
Definition set_x11 v (o : sshauthopt) := mk_opt (o_port_forwarding o) (o_agent_forwarding o) v (o_pty o) (o_user_rc o) (o_restricted o) (o_valid_before o) (o_cert_authority o) (o_cert_principals o) (o_force_tun_device o) (o_force_command o) (o_env o) (o_permitopen o) (o_permitlisten o) (o_from_host_cert o) (o_from_host_keys o).
Definition set_pty v (o : sshauthopt) := mk_opt (o_port_forwarding o) (o_agent_forwarding o) (o_x11_forwarding o) v (o_user_rc o) (o_restricted o) (o_valid_before o) (o_cert_authority o) (o_cert_principals o) (o_force_tun_device o) (o_force_command o) (o_env o) (o_permitopen o) (o_permitlisten o) (o_from_host_cert o) (o_from_host_keys o).
Definition set_rc v (o : sshauthopt) := mk_opt (o_port_forwarding o) (o_agent_forwarding o) (o_x11_forwarding o) (o_pty o) v (o_restricted o) (o_valid_before o) (o_cert_authority o) (o_cert_principals o) (o_force_tun_device o) (o_force_command o) (o_env o) (o_permitopen o) (o_permitlisten o) (o_from_host_cert o) (o_from_host_keys o).
Definition set_restricted v (o : sshauthopt) := mk_opt (o_port_forwarding o) (o_agent_forwarding o) (o_x11_forwarding o) (o_pty o) (o_user_rc o) v (o_valid_before o) (o_cert_authority o) (o_cert_principals o) (o_force_tun_device o) (o_force_command o) (o_env o) (o_permitopen o) (o_permitlisten o) (o_from_host_cert o) (o_from_host_keys o).
Definition set_valid_before v (o : sshauthopt) := mk_opt (o_port_forwarding o) (o_agent_forwarding o) (o_x11_forwarding o) (o_pty o) (o_user_rc o) (o_restricted o) v (o_cert_authority o) (o_cert_principals o) (o_force_tun_device o) (o_force_command o) (o_env o) (o_permitopen o) (o_permitlisten o) (o_from_host_cert o) (o_from_host_keys o).
Definition set_cert_authority v (o : sshauthopt) := mk_opt (o_port_forwarding o) (o_agent_forwarding o) (o_x11_forwarding o) (o_pty o) (o_user_rc o) (o_restricted o) (o_valid_before o) v (o_cert_principals o) (o_force_tun_device o) (o_force_command o) (o_env o) (o_permitopen o) (o_permitlisten o) (o_from_host_cert o) (o_from_host_keys o).
Definition set_cert_principals v (o : sshauthopt) := mk_opt (o_port_forwarding o) (o_agent_forwarding o) (o_x11_forwarding o) (o_pty o) (o_user_rc o) (o_restricted o) (o_valid_before o) (o_cert_authority o) v (o_force_tun_device o) (o_force_command o) (o_env o) (o_permitopen o) (o_permitlisten o) (o_from_host_cert o) (o_from_host_keys o).
Definition set_force_tun_device v (o : sshauthopt) := mk_opt (o_port_forwarding o) (o_agent_forwarding o) (o_x11_forwarding o) (o_pty o) (o_user_rc o) (o_restricted o) (o_valid_before o) (o_cert_authority o) (o_cert_principals o) v (o_force_command o) (o_env o) (o_permitopen o) (o_permitlisten o) (o_from_host_cert o) (o_from_host_keys o).
Definition set_force_command v (o : sshauthopt) := mk_opt (o_port_forwarding o) (o_agent_forwarding o) (o_x11_forwarding o) (o_pty o) (o_user_rc o) (o_restricted o) (o_valid_before o) (o_cert_authority o) (o_cert_principals o) (o_force_tun_device o) v (o_env o) (o_permitopen o) (o_permitlisten o) (o_from_host_cert o) (o_from_host_keys o).
Definition set_env v (o : sshauthopt) := mk_opt (o_port_forwarding o) (o_agent_forwarding o) (o_x11_forwarding o) (o_pty o) (o_user_rc o) (o_restricted o) (o_valid_before o) (o_cert_authority o) (o_cert_principals o) (o_force_tun_device o) (o_force_command o) v (o_permitopen o) (o_permitlisten o) (o_from_host_cert o) (o_from_host_keys o).
Definition set_permitopen v (o : sshauthopt) := mk_opt (o_port_forwarding o) (o_agent_forwarding o) (o_x11_forwarding o) (o_pty o) (o_user_rc o) (o_restricted o) (o_valid_before o) (o_cert_authority o) (o_cert_principals o) (o_force_tun_device o) (o_force_command o) (o_env o) v (o_permitlisten o) (o_from_host_cert o) (o_from_host_keys o).
Definition set_permitlisten v (o : sshauthopt) := mk_opt (o_port_forwarding o) (o_agent_forwarding o) (o_x11_forwarding o) (o_pty o) (o_user_rc o) (o_restricted o) (o_valid_before o) (o_cert_authority o) (o_cert_principals o) (o_force_tun_device o) (o_force_command o) (o_env o) (o_permitopen o) v (o_from_host_cert o) (o_from_host_keys o).
Definition set_from_host_cert v (o : sshauthopt) := mk_opt (o_port_forwarding o) (o_agent_forwarding o) (o_x11_forwarding o) (o_pty o) (o_user_rc o) (o_restricted o) (o_valid_before o) (o_cert_authority o) (o_cert_principals o) (o_force_tun_device o) (o_force_command o) (o_env o) (o_permitopen o) (o_permitlisten o) v (o_from_host_keys o).
Definition set_from_host_keys v (o : sshauthopt) := mk_opt (o_port_forwarding o) (o_agent_forwarding o) (o_x11_forwarding o) (o_pty o) (o_user_rc o) (o_restricted o) (o_valid_before o) (o_cert_authority o) (o_cert_principals o) (o_force_tun_device o) (o_force_command o) (o_env o) (o_permitopen o) (o_permitlisten o) (o_from_host_cert o) v.

Section AuthOpts.
Context {al : Allocator}.

Definition SIZEOF_AUTHOPT : Z := 144.
Definition strdup (s : list Z) : option (list Z) := (fun _ => s) <$> heap_alloc (zlen s + 1).
Definition sshauthopt_new : option sshauthopt :=
  (fun _ => mk_opt 0 0 0 0 0 0 0 0 None (-1) None [] [] [] None None) <$> heap_alloc SIZEOF_AUTHOPT.
Definition sshauthopt_new_with_keys_defaults : option sshauthopt :=
  (fun ret => set_port 1 (set_agent 1 (set_x11 1 (set_pty 1 (set_rc 1 ret))))) <$> sshauthopt_new.

(** ** Reading an authorized_keys line *)

(** The character at the front, NUL at the end. *)
Definition char0 (s : list Z) : Z := default 0 (head s).
(** strncasecmp(s, p, strlen(p)) == 0 *)
Fixpoint strncaseeq (s p : list Z) {struct p} : bool :=
  match p with
  | [] => true
  | c :: p' => match s with d :: s' => (lower d =? lower c) && strncaseeq s' p' | [] => false end
  end.

(** The flag, negated or not, and what follows it. *)
Definition opt_flag (opt : list Z) (allow_negate : bool) (opts : list Z) : option (bool * list Z) :=
  let negate := allow_negate && strncaseeq opts (str "no-") in
  let opts := if negate then drop 3 opts else opts in
  if strncaseeq opts opt then Some (negb negate, drop (length opt) opts) else None.

Definition push (c : Z) (r : option (list Z * list Z)) : option (list Z * list Z) :=
  (fun '(w, s) => (c :: w, s)) <$> r.
(** The copying loop: the text up to the closing quote and what follows it. *)
Fixpoint dequote (s : list Z) : option (list Z * list Z) :=
  match s with
  | [] => None
  | c :: s1 =>
      if c =? QUOTE then Some ([], s1)
      else
        match s1 with
        | d :: s2 => if (c =? BACKSLASH) && (d =? QUOTE) then push d (dequote s2) else push c (dequote s1)
        | [] => push c (dequote s1)
        end
  end.
Definition opt_dequote (s : list Z) : list Z + (list Z * list Z) :=
  match s with
  | c :: s' =>
      if c =? QUOTE then
        match heap_alloc (zlen s' + 1) with
        | None => inl (str "memory allocation failed")
        | Some _ => match dequote s' with None => inl (str "missing end quote") | Some r => inr r end
        end
      else inl (str "missing start quote")
  | [] => inl (str "missing start quote")
  end.

Definition opt_match (opts term : list Z) : option (list Z) :=
  if strncaseeq opts term && (char0 (drop (length term) opts) =? EQUALS) then Some (drop (S (length term)) opts) else None.

(** strpbrk and strchr: the text before the character, and the text from it. *)
Fixpoint span_until (f : Z -> bool) (s : list Z) : list Z * list Z :=
  match s with
  | [] => ([], [])
  | c :: s' => if f c then ([], s) else let '(a, b) := span_until f s' in (c :: a, b)
  end.

(** hpdelim: the host, and what follows the delimiter ([None]: nothing). *)
Definition hpdelim (cp : list Z) : option (list Z * option (list Z)) :=
  let '(host, s) :=
    if char0 cp =? 91 then
      match span_until (Z.eqb 93) cp with (_, []) => ([], None) | (a, b :: s) => (a ++ [b], Some s) end
    else let '(a, b) := span_until (fun c => (c =? COLON) || (c =? 47)) cp in (a, Some b) in
  match s with
  | None => None
  | Some [] => Some (host, None)
  | Some (c :: s') => if (c =? COLON) || (c =? 47) then Some (host, Some s') else None
  end.

(** The number, or [None] with an error text. *)
Definition strtonum (s : list Z) (minval maxval : Z) : option Z :=
  if maxval <? minval then None
  else
    let '(ll, n) := strtol s in
    if (n =? 0) || negb (n =? zlen s) then None
    else if (ll <? minval) || (maxval <? ll) then None else Some ll.
Definition a2port (s : list Z) : Z := default (-1) (strtonum s 0 65535).
(** a2tun(s, NULL) *)
Definition a2tun (s : list Z) : Z :=
  if strcaseeq s (str "any") then SSH_TUNID_ANY else default SSH_TUNID_ERR (strtonum s 0 SSH_TUNID_MAX).

(** The list with the directive [opt]. *)
Definition record_permit (allow_bare_port : bool) (permits : list (list Z)) (opt : list Z) : list Z + list (list Z) :=
  let bare := allow_bare_port && negb (existsb (Z.eqb COLON) opt) in
  match (if bare then strdup (str "*:" ++ opt) else Some opt) with
  | None => inl (str "memory allocation failed")
  | Some opt =>
      match strdup opt with
      | None => inl (str "memory allocation failed")
      | Some tmp =>
          match hpdelim tmp with
          | None => inl (str "invalid permission hostname")
          | Some (host, cp) =>
              if NI_MAXHOST <=? zlen host then inl (str "invalid permission hostname")
              else
                match cp with
                | None => inl (str "invalid permission port")
                | Some cp =>
                    if negb (bytes_eqb cp (str "*")) && (a2port cp <=? 0) then inl (str "invalid permission port")
                    else
                      match heap_alloc (8 * (zlen permits + 1)) with
                      | None => inl (str "memory allocation failed")
                      | Some _ => inr (permits ++ [opt])
                      end
                end
          end
      end
  end.
(** What follows in the text, and the list with the directive.  The error text
    of opt_dequote is lost: it is put into a variable of handle_permit, and the
    caller reports the text it has (the initial "unknown error", or none after an
    earlier clause with a quoted text). *)
Definition handle_permit (optsp : list Z) (allow_bare_port : bool) (permits : list (list Z)) : list Z + (list Z * list (list Z)) :=
  if INT_MAX <? zlen permits then inl (str "too many permission directives")
  else
    match opt_dequote optsp with
    | inl _ => inl (str "unknown error")
    | inr (opt, rest) => match record_permit allow_bare_port permits opt with inl e => inl e | inr l => inr (rest, l) end
    end.

Section Parse.
Context {cal : Calendar}.

(** parse_absolute_time: [None] for SSH_ERR_INVALID_FORMAT. *)
Definition parse_absolute_time (s : list Z) : option Z :=
  let part a n := zslice a n s in
  let date := part 0 4 ++ str "-" ++ part 4 2 ++ str "-" ++ part 6 2 in
  let time := str "T" ++ part 8 2 ++ str ":" ++ part 10 2 in
  let go buf fmt :=
    match strptime buf fmt with
    | None => None
    | Some tm => if mktime tm <? 0 then None else Some (mktime tm)
    end in
  if zlen s =? 8 then go date (str "%Y-%m-%d")
  else if zlen s =? 12 then go (date ++ time) (str "%Y-%m-%dT%H:%M")
  else if zlen s =? 14 then go (date ++ time ++ str ":" ++ part 12 2) (str "%Y-%m-%dT%H:%M:%S")
  else None.

Definition isalnum (c : Z) : bool := isdigit c || ((97 <=? lower c) && (lower c <=? 122)).
Definition flag (b : bool) : Z := if b then 1 else 0.

(** Clauses with a quoted text. *)
Definition quoted (rest : list Z) (k : list Z -> list Z + sshauthopt) : list Z + (sshauthopt * list Z) :=
  match opt_dequote rest with
  | inl e => inl e
  | inr (w, rest) => match k w with inl e => inl e | inr o => inr (o, rest) end
  end.
Definition once {A} (field : option A) (name : list Z) (k : list Z + (sshauthopt * list Z)) : list Z + (sshauthopt * list Z) :=
  match field with Some _ => inl (str "multiple " ++ [QUOTE] ++ name ++ [QUOTE] ++ str " clauses") | None => k end.
Definition add_env (ret : sshauthopt) (opt : list Z) : list Z + sshauthopt :=
  let '(name, rest) := span_until (Z.eqb EQUALS) opt in
  if bool_decide (rest = []) then inl (str "invalid environment string")
  else if negb (forallb (fun c => isalnum c || (c =? 95)) name) then inl (str "invalid environment string")
  else match heap_alloc (8 * (zlen (o_env ret) + 1)) with
       | None => inl (str "memory allocation failed")
       | Some _ => inr (set_env (o_env ret ++ [opt]) ret)
       end.
Definition set_expiry (ret : sshauthopt) (opt : list Z) : list Z + sshauthopt :=
  match parse_absolute_time opt with
  | None => inl (str "invalid expires time")
  | Some t =>
      if t =? 0 then inl (str "invalid expires time")
      else inr (if (o_valid_before ret =? 0) || (t <? o_valid_before ret) then set_valid_before t ret else ret)
  end.
Definition set_tunnel (ret : sshauthopt) (opt : list Z) : list Z + sshauthopt :=
  let dev := a2tun opt in
  if dev =? SSH_TUNID_ERR then inl (str "invalid tun device") else inr (set_force_tun_device dev ret).

Definition restrict (ret : sshauthopt) : sshauthopt :=
  set_restricted 1 (set_port 0 (set_agent 0 (set_x11 0 (set_pty 0 (set_rc 0 ret))))).
(** The flags in turn; [None] when none is at the front of the text. *)
Definition flag_option (ret : sshauthopt) (opts : list Z) : option (sshauthopt * list Z) :=
  match opt_flag (str "restrict") false opts with Some (_, r) => Some (restrict ret, r) | None =>
  match opt_flag (str "cert-authority") false opts with Some (v, r) => Some (set_cert_authority (flag v) ret, r) | None =>
  match opt_flag (str "port-forwarding") true opts with Some (v, r) => Some (set_port (flag v) ret, r) | None =>
  match opt_flag (str "agent-forwarding") true opts with Some (v, r) => Some (set_agent (flag v) ret, r) | None =>
  match opt_flag (str "x11-forwarding") true opts with Some (v, r) => Some (set_x11 (flag v) ret, r) | None =>
  match opt_flag (str "pty") true opts with Some (v, r) => Some (set_pty (flag v) ret, r) | None =>
  match opt_flag (str "user-rc") true opts with Some (v, r) => Some (set_rc (flag v) ret, r) | None => None
  end end end end end end end.
Definition one_option (ret : sshauthopt) (opts : list Z) : list Z + (sshauthopt * list Z) :=
  match flag_option ret opts with Some r => inr r | None =>
  match opt_match opts (str "command") with
  | Some r => once (o_force_command ret) (str "command") (quoted r (fun w => inr (set_force_command (Some w) ret))) | None =>
  match opt_match opts (str "principals") with
  | Some r => once (o_cert_principals ret) (str "principals") (quoted r (fun w => inr (set_cert_principals (Some w) ret))) | None =>
  match opt_match opts (str "from") with
  | Some r => once (o_from_host_keys ret) (str "from") (quoted r (fun w => inr (set_from_host_keys (Some w) ret))) | None =>
  match opt_match opts (str "expiry-time") with Some r => quoted r (set_expiry ret) | None =>
  match opt_match opts (str "environment") with
  | Some r => if INT_MAX <? zlen (o_env ret) then inl (str "too many environment strings") else quoted r (add_env ret) | None =>
  match opt_match opts (str "permitopen") with
  | Some r => match handle_permit r false (o_permitopen ret) with inl e => inl e | inr (r, l) => inr (set_permitopen l ret, r) end | None =>
  match opt_match opts (str "permitlisten") with
  | Some r => match handle_permit r true (o_permitlisten ret) with inl e => inl e | inr (r, l) => inr (set_permitlisten l ret, r) end | None =>
  match opt_match opts (str "tunnel") with Some r => quoted r (set_tunnel ret) | None => inr (ret, opts)
  end end end end end end end end end.

Definition at_end (opts : list Z) : bool := (char0 opts =? 0) || (char0 opts =? 32) || (char0 opts =? 9).
(** [None]: out of fuel. *)
Fixpoint parse_loop (fuel : nat) (ret : sshauthopt) (opts : list Z) : option (list Z + sshauthopt) :=
  match fuel with
  | O => None
  | S fuel' =>
      if at_end opts then Some (inr ret)
      else
        match one_option ret opts with
        | inl e => Some (inl e)
        | inr (ret, opts) =>
            if at_end opts then Some (inr ret)
            else if negb (char0 opts =? COMMA) then Some (inl (str "unknown key option"))
            else
              let opts := drop 1 opts in
              if char0 opts =? 0 then Some (inl (str "unexpected end-of-options")) else parse_loop fuel' ret opts
        end
  end.
Definition sshauthopt_parse (opts : option (list Z)) : option (list Z + sshauthopt) :=
  match sshauthopt_new_with_keys_defaults with
  | None => Some (inl (str "memory allocation failed"))
  | Some ret => match opts with None => Some (inr ret) | Some opts => parse_loop (S (length opts)) ret opts end
  end.
End Parse.

(** ** Merging and copying *)

Fixpoint dup_each (src : list (list Z)) : option (list (list Z)) :=
  match src with
  | [] => Some []
  | s :: src' => match strdup s with None => None | Some s => cons s <$> dup_each src' end
  end.
Definition dup_strings (src : list (list Z)) : option (list (list Z)) :=
  match src with [] => Some [] | _ => match heap_alloc (8 * zlen src) with None => None | Some _ => dup_each src end end.
Definition dup_opt (s : option (list Z)) : option (option (list Z)) :=
  match s with None => Some None | Some s => Some <$> strdup s end.
Definition prefer {A} (a b : option A) : option A := match a with Some _ => a | None => b end.
Definition prefer_list {A} (a b : list A) : list A := match a with [] => b | _ => a end.
Definition both_set (a b : Z) : Z := flag ((a =? 1) && (b =? 1)).

Definition merge_command (a b : option (list Z)) : option (option (list Z)) :=
  match a, b with
  | Some x, Some y => if bytes_eqb x y then Some <$> strdup x else None
  | Some x, None => Some <$> strdup x
  | None, Some y => Some <$> strdup y
  | None, None => Some None
  end.
Definition merge_expiry (a b : Z) : Z :=
  let ret := if truthy a then a else 0 in
  if truthy b && (b <? ret) then b else ret.
Definition sshauthopt_merge (primary additional : sshauthopt) : option sshauthopt :=
  ret ← sshauthopt_new;
  cert ← dup_opt (prefer (o_from_host_cert primary) (o_from_host_cert additional));
  keys ← dup_opt (prefer (o_from_host_keys primary) (o_from_host_keys additional));
  env ← dup_strings (prefer_list (o_env primary) (o_env additional));
  popen ← dup_strings (prefer_list (o_permitopen primary) (o_permitopen additional));
  plisten ← dup_strings (prefer_list (o_permitlisten primary) (o_permitlisten additional));
  command ← merge_command (o_force_command primary) (o_force_command additional);
  mret (mk_opt
    (both_set (o_port_forwarding primary) (o_port_forwarding additional))
    (both_set (o_agent_forwarding primary) (o_agent_forwarding additional))
    (both_set (o_x11_forwarding primary) (o_x11_forwarding additional))
    (both_set (o_pty primary) (o_pty additional))
    (both_set (o_user_rc primary) (o_user_rc additional))
    (o_restricted ret)
    (merge_expiry (o_valid_before primary) (o_valid_before additional))
    (o_cert_authority ret) (o_cert_principals ret)
    (if o_force_tun_device primary =? -1 then o_force_tun_device additional else o_force_tun_device primary)
    command env popen plisten cert keys).
Definition sshauthopt_copy (orig : sshauthopt) : option sshauthopt :=
  ret ← sshauthopt_new;
  principals ← dup_opt (o_cert_principals orig);
  command ← dup_opt (o_force_command orig);
  cert ← dup_opt (o_from_host_cert orig);
  keys ← dup_opt (o_from_host_keys orig);
  env ← dup_strings (o_env orig);
  popen ← dup_strings (o_permitopen orig);
  plisten ← dup_strings (o_permitlisten orig);
  mret (mk_opt (o_port_forwarding orig) (o_agent_forwarding orig) (o_x11_forwarding orig) (o_pty orig) (o_user_rc orig) (o_restricted orig)
    (o_valid_before orig) (o_cert_authority orig) principals (o_force_tun_device orig) command env popen plisten cert keys).

(** ** Between processes *)

(** sshbuf_froms: a read-only buffer over the next string, which holds a
    reference to [buf] until it is freed. *)
Definition sshbuf_froms : SE sshbuf Z sshbuf := fun buf =>
  match sshbuf_peek_string_direct buf with
  | inl r => (inl r, buf)
  | inr (p, len) =>
      match sshbuf_from (Z.add (b_off buf + 4) <$> b_cd buf) p len with
      | None => (inl SSH_ERR_ALLOC_FAIL, buf)
      | Some ret =>
          match sshbuf_consume (len + 4) buf with
          | (inl r, buf) => (inl r, buf)
          | (inr _, buf) =>
              if truthy (sshbuf_check_sanity ret) then (inl (sshbuf_check_sanity ret), buf)
              else if truthy (sshbuf_check_sanity buf) then (inl (sshbuf_check_sanity buf), buf)
              else (inr ret, buf)
          end
      end
  end.

Definition serialise_array (a : list (list Z)) : SE sshbuf Z () :=
  if INT_MAX <? zlen a then throw SSH_ERR_INTERNAL_ERROR
  else
    match sshbuf_new with
    | None => throw SSH_ERR_ALLOC_FAIL
    | Some b =>
        match put_proposal a b with
        | (inl r, _) => throw r
        | (inr _, b) => _ ← sshbuf_put_u32 (zlen a); sshbuf_put_stringb b
        end
    end.
Definition deserialise_array : SE sshbuf Z (list (list Z)) :=
  tmp ← sshbuf_get_u32;
  b ← sshbuf_froms;
  if INT_MAX <? tmp then throw SSH_ERR_INVALID_FORMAT
  else
    match (if 0 <? tmp then heap_alloc (8 * tmp) else Some 0) with
    | None => throw SSH_ERR_ALLOC_FAIL
    | Some _ => match get_proposal (Z.to_nat tmp) b with (inl r, _) => throw r | (inr a, _) => mret a end
    end.
Definition serialise_nullable_string (s : option (list Z)) : SE sshbuf Z () :=
  _ ← sshbuf_put_u8 (flag (bool_decide (s = None)));
  sshbuf_put_cstring s.
Definition deserialise_nullable_string : SE sshbuf Z (option (list Z)) :=
  f ← sshbuf_get_u8;
  s ← sshbuf_get_cstring;
  mret (if truthy f then None else Some (cstr s)).

Definition sshauthopt_serialise (opts : sshauthopt) (untrusted : bool) : SE sshbuf Z () :=
  let hide {A} (a b : A) : A := if untrusted then a else b in
  _ ← sshbuf_put_u8 (o_port_forwarding opts);
  _ ← sshbuf_put_u8 (o_agent_forwarding opts);
  _ ← sshbuf_put_u8 (o_x11_forwarding opts);
  _ ← sshbuf_put_u8 (o_pty opts);
  _ ← sshbuf_put_u8 (o_user_rc opts);
  _ ← sshbuf_put_u8 (o_restricted opts);
  _ ← sshbuf_put_u8 (o_cert_authority opts);
  _ ← sshbuf_put_u64 (o_valid_before opts);
  _ ← sshbuf_put_u8 (flag (o_force_tun_device opts =? -1));
  _ ← sshbuf_put_u32 (if o_force_tun_device opts <? 0 then 0 else o_force_tun_device opts);
  _ ← serialise_nullable_string (hide (Some (str "yes")) (o_cert_principals opts));
  _ ← serialise_nullable_string (hide (Some (str "true")) (o_force_command opts));
  _ ← serialise_nullable_string (hide None (o_from_host_cert opts));
  _ ← serialise_nullable_string (hide None (o_from_host_keys opts));
  _ ← serialise_array (hide [] (o_env opts));
  _ ← serialise_array (hide [] (o_permitopen opts));
  serialise_array (hide [] (o_permitlisten opts)).
Definition sshauthopt_deserialise : SE sshbuf Z sshauthopt :=
  match heap_alloc SIZEOF_AUTHOPT with
  | None => throw SSH_ERR_ALLOC_FAIL
  | Some _ =>
      port ← sshbuf_get_u8;
      agent ← sshbuf_get_u8;
      x11 ← sshbuf_get_u8;
      pty ← sshbuf_get_u8;
      rc ← sshbuf_get_u8;
      restricted ← sshbuf_get_u8;
      authority ← sshbuf_get_u8;
      valid_before ← sshbuf_get_u64;
      f ← sshbuf_get_u8;
      tmp ← sshbuf_get_u32;
      principals ← deserialise_nullable_string;
      command ← deserialise_nullable_string;
      cert ← deserialise_nullable_string;
      keys ← deserialise_nullable_string;
      env ← deserialise_array;
      popen ← deserialise_array;
      plisten ← deserialise_array;
      mret (mk_opt port agent x11 pty rc restricted valid_before authority principals
              (if truthy f then -1 else i32 tmp) command env popen plisten cert keys)
  end.

(** ** Certificates *)

Section Cert.
Context {res : Resolver}.

Definition ext_option (name : list Z) (opts : sshauthopt) : option sshauthopt :=
  if bytes_eqb name (str "permit-X11-forwarding") then Some (set_x11 1 opts)
  else if bytes_eqb name (str "permit-agent-forwarding") then Some (set_agent 1 opts)
  else if bytes_eqb name (str "permit-port-forwarding") then Some (set_port 1 opts)
  else if bytes_eqb name (str "permit-pty") then Some (set_pty 1 opts)
  else if bytes_eqb name (str "permit-user-rc") then Some (set_rc 1 opts)
  else None.
(** [None]: the list is refused; with the options, whether one was found. *)
Definition crit_option (name : list Z) (data : sshbuf) (opts : sshauthopt) : option (sshauthopt * bool * sshbuf) :=
  if bytes_eqb name (str "force-command") then
    match sshbuf_get_cstring data with
    | (inl _, _) => None
    | (inr command, data) =>
        match o_force_command opts with Some _ => None | None => Some (set_force_command (Some (cstr command)) opts, true, data) end
    end
  else if bytes_eqb name (str "source-address") then
    match sshbuf_get_cstring data with
    | (inl _, _) => None
    | (inr allowed, data) =>
        match o_from_host_cert opts with
        | Some _ => None
        | None =>
            if addr_match_cidr_list None (cstr allowed) =? -1 then None else Some (set_from_host_cert (Some (cstr allowed)) opts, true, data)
        end
    end
  else Some (opts, false, data).
Definition cert_option (which : Z) (crit : bool) (name : list Z) (data : sshbuf) (opts : sshauthopt) : option sshauthopt :=
  match (if truthy (Z.land which OPTIONS_EXTENSIONS) then ext_option name opts else None) with
  | Some opts => if truthy (sshbuf_len data) then None else Some opts
  | None =>
      match (if truthy (Z.land which OPTIONS_CRITICAL) then crit_option name data opts else Some (opts, false, data)) with
      | None => None
      | Some (opts, true, data) => if truthy (sshbuf_len data) then None else Some opts
      | Some (opts, false, _) => if crit then None else Some opts
      end
  end.
Fixpoint cert_options (fuel : nat) (opts : sshauthopt) (c : sshbuf) (which : Z) (crit : bool) : option sshauthopt :=
  if sshbuf_len c =? 0 then Some opts
  else
    match fuel with
    | O => None
    | S fuel' =>
        match sshbuf_get_cstring c with
        | (inl _, _) => None
        | (inr name, c) =>
            match sshbuf_froms c with
            | (inl _, _) => None
            | (inr data, c) =>
                match cert_option which crit (cstr name) data opts with
                | None => None
                | Some opts => cert_options fuel' opts c which crit
                end
            end
        end
    end.
Definition cert_option_list (opts : sshauthopt) (oblob : sshbuf) (which : Z) (crit : bool) : option sshauthopt :=
  match sshbuf_fromb oblob with None => None | Some c => cert_options (Z.to_nat (sshbuf_len c)) opts c which crit end.

Definition SSH2_CERT_TYPE_USER : Z := 1.
(** What sshauthopt_from_cert reads of struct sshkey_cert. *)
Record sshkey_cert := mk_cert { ct_type : Z; ct_critical : sshbuf; ct_extensions : sshbuf }.
Definition sshauthopt_from_cert (k : option (Z * option sshkey_cert)) : option sshauthopt :=
  match k with
  | Some (type, Some cert) =>
      if sshkey_type_is_cert type && (ct_type cert =? SSH2_CERT_TYPE_USER) then
        ret ← sshauthopt_new;
        ret ← cert_option_list ret (ct_critical cert) OPTIONS_CRITICAL true;
        cert_option_list ret (ct_extensions cert) OPTIONS_EXTENSIONS false
      else None
  | _ => None
  end.
End Cert.
End AuthOpts.

(** ** What is sent is what is read *)

Definition enc_nullable (s : option (list Z)) : list Z := [flag (bool_decide (s = None))] ++ enc_string (default [] s).
Definition enc_array (a : list (list Z)) : list Z := POKE_U32 (zlen a) ++ enc_string (enc_strings a).
Definition enc_opts (o : sshauthopt) : list Z :=
  [o_port_forwarding o] ++ [o_agent_forwarding o] ++ [o_x11_forwarding o] ++ [o_pty o] ++ [o_user_rc o] ++ [o_restricted o] ++ [o_cert_authority o] ++
  POKE_U64 (o_valid_before o) ++ [flag (o_force_tun_device o =? -1)] ++ POKE_U32 (if o_force_tun_device o <? 0 then 0 else o_force_tun_device o) ++
  enc_nullable (o_cert_principals o) ++ enc_nullable (o_force_command o) ++ enc_nullable (o_from_host_cert o) ++ enc_nullable (o_from_host_keys o) ++
  enc_array (o_env o) ++ enc_array (o_permitopen o) ++ enc_array (o_permitlisten o).

(** Values that the fields of a C structure can hold. *)
Definition str_ok (s : option (list Z)) : Prop := match s with Some s => no_nul s | None => True end.
Definition array_ok (a : list (list Z)) : Prop := Forall no_nul a /\ zlen a <= 2 ^ 20 /\ zlen (enc_strings a) <= 2 ^ 24.
Record opts_ok (o : sshauthopt) : Prop := {
  ok_flags : Forall is_u8 [o_port_forwarding o; o_agent_forwarding o; o_x11_forwarding o; o_pty o; o_user_rc o; o_restricted o; o_cert_authority o];
  ok_expiry : 0 <= o_valid_before o < 2 ^ 64;
  ok_tun : -1 <= o_force_tun_device o < 2 ^ 31;
  ok_strs : Forall str_ok [o_cert_principals o; o_force_command o; o_from_host_cert o; o_from_host_keys o];
  ok_arrays : Forall array_ok [o_env o; o_permitopen o; o_permitlisten o]
}.

Section Roundtrip.
Context {al : Allocator} {altot : @AllocTotal al}.

Lemma Appends_nullable s : str_ok s -> Appends (serialise_nullable_string s) (enc_nullable s).
Proof.
  intros Hs. apply Appends_bind.
  - apply Puts_Appends. pose proof (Puts_u8 (flag (bool_decide (s = None)))) as Hp. by rewrite u8_id in Hp by (destruct (bool_decide _); cbn; lia).
  - destruct s as [s|]; apply Puts_Appends; [pose proof (Puts_cstring s) as Hp; by rewrite (cstr_id s Hs) in Hp|].
    exact (Puts_string [] 0 (conj (Z.le_refl 0) (Z.le_refl 0))).
Qed.
Lemma Parses_nullable s : str_ok s -> Parses deserialise_nullable_string s (enc_nullable s).
Proof.
  intros Hs. apply (Parses_bind _ (flag (bool_decide (s = None)))); [apply Parses_u8|]. rewrite <- (app_nil_r (enc_string _)).
  apply (Parses_bind _ (default [] s)); [destruct s; apply Parses_cstring; [done|constructor]|]. destruct s; cbn [default flag bool_decide]; rewrite ?cstr_id by done; apply Parses_ret.
Qed.

Lemma new_empty : exists b, sshbuf_new = Some b /\ bufc b [].
Proof.
  destruct sshbuf_new_total as [b Hn]. destruct (sshbuf_new_rw _ Hn) as [Hb Ha]. exists b. split; [done|]. by apply bufc_abs.
Qed.
Lemma Appends_array a : array_ok a -> Appends (serialise_array a) (enc_array a).
Proof.
  intros (Ha & Hn & Hl). unfold serialise_array. rewrite (proj2 (Z.ltb_ge _ _)) by (unfold INT_MAX; lia).
  destruct new_empty as (b & -> & Hb & Hc & Hm). destruct (Appends_ok _ _ b (Appends_proposal a Ha) Hb) as (b' & -> & Hb' & [= Hc' _]).
  { rewrite Hc, Hm. unfold SSHBUF_SIZE_MAX. zlia. }
  rewrite Hc in Hc'. cbn [app] in Hc'. apply Appends_bind; [apply Puts_Appends, Puts_u32|]. unfold enc_string. rewrite <- Hc'.
  apply Puts_Appends, Puts_stringb. by destruct Hb'.
Qed.

(** The view that sshbuf_froms gives has the bytes of the string. *)
Lemma froms_reads b v rest : buf_rw b -> contents b = enc_string v ++ rest -> zlen v <= SSHBUF_SIZE_MAX - 4 ->
  exists w b', sshbuf_froms b = (inr w, b') /\ buf_wf w /\ contents (twin w) = v /\ buf_rw b' /\ abs b' = mk_abuf rest (b_max_size b).
Proof.
  intros Hb Hc Hv. pose proof (peek_string_rw b Hb) as Hp. pose proof (zlen_nonneg v) as H0.
  assert (Hl : zlen (contents b) = 4 + zlen v + zlen rest) by (rewrite Hc; unfold enc_string; zlia).
  assert (Hn : PEEK_U32 (contents b) = zlen v).
  { rewrite Hc. unfold enc_string. rewrite <- app_assoc, PEEK_POKE_U32. apply u32_id. unfold SSHBUF_SIZE_MAX in Hv. lia. }
  assert (Hd : zdrop 4 (contents b) = v ++ rest) by (rewrite Hc; unfold enc_string; rewrite <- app_assoc; by apply zdrop_app_exact).
  unfold a_get_string in Hp. cbn [abs pending cap] in Hp. rewrite !Hn in Hp. zlen_facts. rewrite !(proj2 (Z.ltb_ge _ _)) in Hp by lia. cbn [fst] in Hp.
  unfold sshbuf_froms. destruct (sshbuf_peek_string_direct b) as [e|[p len]]; [done|]. destruct Hp as (Hs & Hlen & _).
  assert (Hz : zslice 4 (zlen v) (contents b) = v) by (unfold zslice; rewrite Hd; by apply ztake_app_exact). rewrite Hz in *. subst len.
  pose proof (rw_wf _ Hb) as [Hcd _ _ _ _ _ _]. destruct (b_cd b) as [a|] eqn:Ecd; [|done].
  unfold sshbuf_from. cbn [fmap option_fmap option_map]. rewrite bool_decide_eq_false_2, (proj2 (Z.ltb_ge _ _)) by (done || lia). cbn [orb].
  destruct (alloc_total sizeof_sshbuf) as [? ->]; [unfold sizeof_sshbuf, SSHBUF_SIZE_MAX; lia|]. cbn [mbind option_bind mret option_ret].
  destruct (consume_rw b (zlen v + 4) Hb ltac:(lia)) as [Econ Hcon]. rewrite (proj2 (Z.ltb_ge _ _)) in Econ by lia.
  destruct (Hcon ltac:(lia)) as [Hb' Habs]. rewrite Econ, <- Hs. clear Econ.
  assert (Hw : buf_wf (mk_sshbuf None (Some (b_off b + 4 + a)) v 0 (zlen v) (zlen v) (zlen v) true 1 None)) by (split; cbn; try done; unfold SSHBUF_REFS_MAX; lia).
  rewrite (sanity_ok _ Hw), (sanity_ok _ (rw_wf _ Hb')). change (truthy 0) with false. cbn iota. do 2 eexists. split; [reflexivity|]. split; [done|].
  split_and!; [unfold contents, zslice; cbn; rewrite zdrop_0 by lia; apply ztake_all; lia|done|].
  rewrite Habs. f_equal. replace (zlen v + 4) with (4 + zlen v) by lia. rewrite <- zdrop_zdrop, Hd by lia. by apply zdrop_app_exact.
Qed.
Lemma Parses_array a : array_ok a -> Parses deserialise_array a (enc_array a).
Proof.
  intros (Ha & Hn & Hl). zlen_facts. apply (Parses_bind _ (zlen a)); [apply Parses_u32; lia|]. intros b rest Hb Hc.
  destruct (froms_reads b _ rest Hb Hc) as (w & b' & E & Hw & Hcw & Hb' & Habs); [unfold SSHBUF_SIZE_MAX; lia|].
  rewrite (SE_bind_ok _ _ _ _ _ E), (proj2 (Z.ltb_ge _ _)) by (unfold INT_MAX; lia).
  assert (Hal : is_Some (if 0 <? zlen a then heap_alloc (8 * zlen a) else Some 0)) by (destruct (0 <? zlen a); [apply alloc_total; unfold SSHBUF_SIZE_MAX; lia|eauto]).
  destruct Hal as [? ->]. unfold zlen at 1. rewrite Nat2Z.id.
  destruct (Views_get_proposal (length a) w Hw) as [Ev _].
  destruct (Parses_proposal a Ha (twin w) [] (twin_rw w Hw)) as (b2 & E2 & _); [by rewrite app_nil_r|]. rewrite Ev in E2.
  destruct (get_proposal (length a) w) as [r w']. cbn in E2. injection E2 as -> _. by exists b'.
Qed.

Lemma Appends_opts o : opts_ok o -> Appends (sshauthopt_serialise o false) (enc_opts o).
Proof.
  intros [Hf He Ht Hs Ha]. repeat (apply Forall_cons_1 in Hf as [? Hf]). repeat (apply Forall_cons_1 in Hs as [? Hs]). repeat (apply Forall_cons_1 in Ha as [? Ha]).
  assert (Hput : forall v, is_u8 v -> Appends (sshbuf_put_u8 v) [v]) by (intros v Hv; apply Puts_Appends; pose proof (Puts_u8 v) as Hp; by rewrite u8_id in Hp).
  assert (Hfl : is_u8 (flag (o_force_tun_device o =? -1))) by (destruct (_ =? _); cbn; unfold is_u8; lia).
  unfold sshauthopt_serialise. cbn zeta beta iota.
  do 7 (apply Appends_bind; [by apply Hput|]). apply Appends_bind; [apply Puts_Appends, Puts_u64|]. apply Appends_bind; [by apply Hput|].
  apply Appends_bind; [apply Puts_Appends, Puts_u32|]. do 4 (apply Appends_bind; [by apply Appends_nullable|]). do 2 (apply Appends_bind; [by apply Appends_array|]).
  by apply Appends_array.
Qed.
Lemma Parses_opts o : opts_ok o -> Parses sshauthopt_deserialise o (enc_opts o).
Proof.
  intros [Hf He Ht Hs Ha]. repeat (apply Forall_cons_1 in Hs as [? Hs]). repeat (apply Forall_cons_1 in Ha as [? Ha]).
  unfold sshauthopt_deserialise. destruct (alloc_total SIZEOF_AUTHOPT) as [? ->]; [unfold SIZEOF_AUTHOPT, SSHBUF_SIZE_MAX; lia|].
  unfold enc_opts. rewrite <- (app_nil_r (enc_array (o_permitlisten o))).
  do 7 (eapply Parses_bind; [apply Parses_u8|]). eapply Parses_bind; [apply Parses_u64; lia|]. eapply Parses_bind; [apply Parses_u8|].
  eapply Parses_bind; [apply Parses_u32; destruct (o_force_tun_device o <? 0) eqn:?; lia|].
  do 4 (eapply Parses_bind; [by apply Parses_nullable|]). do 3 (eapply Parses_bind; [by apply Parses_array|]).
  match goal with |- Parses (mret ?x) _ _ => replace x with o; [apply Parses_ret|] end.
  destruct o as [? ? ? ? ? ? ? ? ? dev]. cbn in *. f_equal. destruct (Z.eqb_spec dev (-1)) as [->|]; [done|]. cbn.
  rewrite (proj2 (Z.ltb_ge _ _)), i32_id by lia. done.
Qed.

(** The options of a key that one process of sshd sends to another one it
    trusts are the options that the other reads: permissions, expiry, tunnel
    device, texts that are absent or empty, and lists. *)
Theorem authopt_roundtrip o b :
  opts_ok o -> buf_rw b -> contents b = [] -> zlen (enc_opts o) <= b_max_size b ->
  exists b1 b2, sshauthopt_serialise o false b = (inr tt, b1) /\ sshauthopt_deserialise b1 = (inr o, b2) /\ contents b2 = [].
Proof.
  intros Ho Hb Hc Hl. destruct (Appends_ok _ _ b (Appends_opts o Ho) Hb) as (b1 & E1 & Hb1 & [= Hc1 _]); [rewrite Hc; zlia|].
  destruct (Parses_opts o Ho b1 [] Hb1) as (b2 & E2 & _ & [= Hc2 _]); [by rewrite app_nil_r, Hc1, Hc|]. by exists b1, b2.
Qed.
End Roundtrip.

(** ** Merging only takes away *)

Section Merge.
Context {al : Allocator}.

Lemma strdup_some s t : strdup s = Some t -> t = s.
Proof. unfold strdup. destruct (heap_alloc _); cbn; congruence. Qed.
Lemma dup_opt_some s t : dup_opt s = Some t -> t = s.
Proof. destruct s as [s|]; cbn; [|congruence]. destruct (strdup s) eqn:E; cbn; [|congruence]. apply strdup_some in E. congruence. Qed.
Lemma dup_each_some l l' : dup_each l = Some l' -> l' = l.
Proof.
  revert l'. induction l as [|s l IH]; cbn; intros l'; [congruence|]. destruct (strdup s) eqn:E; [|done]. apply strdup_some in E as ->.
  destruct (dup_each l); cbn; [|done]. intros [= <-]. f_equal. by apply IH.
Qed.
Lemma dup_strings_some l l' : dup_strings l = Some l' -> l' = l.
Proof. destruct l as [|s l]; [cbn; congruence|]. unfold dup_strings. destruct (heap_alloc _); [apply dup_each_some|done]. Qed.

Lemma merge_command_some a b c : merge_command a b = Some c ->
  c = prefer a b /\ (forall x y, a = Some x -> b = Some y -> x = y).
Proof.
  destruct a as [x|], b as [y|]; cbn; [destruct (bytes_eqb x y) eqn:E; [apply bytes_eqb_eq in E as ->|done]|..];
    try (destruct (strdup _) eqn:Es; cbn; [|done]; apply strdup_some in Es as ->); intros [= <-]; split; congruence.
Qed.
Lemma both_set_1 a b : both_set a b = 1 <-> a = 1 /\ b = 1.
Proof. unfold both_set. destruct (Z.eqb_spec a 1), (Z.eqb_spec b 1); cbn; split; intros; try lia; congruence. Qed.

(** What a merge that succeeds leaves of the two sets of options. *)
Lemma merge_fields p a r : sshauthopt_merge p a = Some r ->
  r = mk_opt (both_set (o_port_forwarding p) (o_port_forwarding a)) (both_set (o_agent_forwarding p) (o_agent_forwarding a))
        (both_set (o_x11_forwarding p) (o_x11_forwarding a)) (both_set (o_pty p) (o_pty a)) (both_set (o_user_rc p) (o_user_rc a)) 0
        (merge_expiry (o_valid_before p) (o_valid_before a)) 0 None
        (if o_force_tun_device p =? -1 then o_force_tun_device a else o_force_tun_device p) (prefer (o_force_command p) (o_force_command a))
        (prefer_list (o_env p) (o_env a)) (prefer_list (o_permitopen p) (o_permitopen a)) (prefer_list (o_permitlisten p) (o_permitlisten a))
        (prefer (o_from_host_cert p) (o_from_host_cert a)) (prefer (o_from_host_keys p) (o_from_host_keys a)) /\
  (forall x y, o_force_command p = Some x -> o_force_command a = Some y -> x = y).
Proof.
  unfold sshauthopt_merge. intros H.
  repeat match goal with H : _ ≫= _ = Some _ |- _ => apply bind_Some in H as (? & ? & H) end.
  match goal with E : sshauthopt_new = Some _ |- _ => unfold sshauthopt_new in E; apply fmap_Some in E as (? & _ & ->) end.
  repeat match goal with
    | H : dup_opt _ = Some _ |- _ => apply dup_opt_some in H as ->
    | H : dup_strings _ = Some _ |- _ => apply dup_strings_some in H as ->
    | H : merge_command _ _ = Some _ |- _ => apply merge_command_some in H as [-> ?]
    end.
  by injection H as <-.
Qed.

(** [z] is [x] where it is set, [y] where it is not. *)
Definition first_set {A} (unset x y z : A) : Prop := (x <> unset -> z = x) /\ (x = unset -> z = y).
Lemma prefer_first {A} (x y : option A) : first_set None x y (prefer x y).
Proof. by destruct x. Qed.
Lemma prefer_list_first {A} (x y : list A) : first_set [] x y (prefer_list x y).
Proof. by destruct x. Qed.

(** C26: What merging the options of a key into the options in force leaves:
    forwarding, a terminal and the user's startup file are permitted only if
    both permit them; a forced command of either is the forced command (two
    different ones are refused); the lists of source addresses, the tunnel
    device, the environment and the permitted forwardings are those of the
    options in force where they set them, else those of the key.  An expiry time
    of the options in force stays, or gives way to an earlier one of the key;
    this says nothing of options in force without an expiry time, where the
    expiry time of the key is lost (merge_loses_expiry). *)
Theorem merge_restricts p a r : sshauthopt_merge p a = Some r ->
  (o_port_forwarding r = 1 <-> o_port_forwarding p = 1 /\ o_port_forwarding a = 1) /\
  (o_agent_forwarding r = 1 <-> o_agent_forwarding p = 1 /\ o_agent_forwarding a = 1) /\
  (o_x11_forwarding r = 1 <-> o_x11_forwarding p = 1 /\ o_x11_forwarding a = 1) /\
  (o_pty r = 1 <-> o_pty p = 1 /\ o_pty a = 1) /\ (o_user_rc r = 1 <-> o_user_rc p = 1 /\ o_user_rc a = 1) /\
  (forall c, o_force_command r = Some c <-> o_force_command p = Some c \/ o_force_command a = Some c) /\
  first_set None (o_from_host_keys p) (o_from_host_keys a) (o_from_host_keys r) /\
  first_set None (o_from_host_cert p) (o_from_host_cert a) (o_from_host_cert r) /\
  first_set (-1) (o_force_tun_device p) (o_force_tun_device a) (o_force_tun_device r) /\
  first_set [] (o_env p) (o_env a) (o_env r) /\ first_set [] (o_permitopen p) (o_permitopen a) (o_permitopen r) /\
  first_set [] (o_permitlisten p) (o_permitlisten a) (o_permitlisten r) /\
  (0 < o_valid_before p -> 0 <= o_valid_before a ->
    o_valid_before r = if o_valid_before a =? 0 then o_valid_before p else Z.min (o_valid_before p) (o_valid_before a)).
Proof.
  intros [-> Hc]%merge_fields. cbn. rewrite !both_set_1. split_and!; try done; try apply prefer_first; try apply prefer_list_first.
  - intros c. destruct (o_force_command p) as [x|] eqn:Ep; cbn; [|by split; [right|intros []]].
    split; [by left|]. intros [|Ha]; [done|]. f_equal. by apply (Hc x c).
  - destruct (Z.eqb_spec (o_force_tun_device p) (-1)); by split.
  - intros Hp Ha. unfold merge_expiry, truthy. destruct (Z.eqb_spec (o_valid_before p) 0), (Z.eqb_spec (o_valid_before a) 0); cbn; try lia;
      destruct (Z.ltb_spec (o_valid_before a) (o_valid_before p)); lia.
Qed.

(** The expiry time of the key is lost when the options in force have none:
    "earliest expiry time should win" compares it with zero. *)
Theorem merge_loses_expiry p a r : sshauthopt_merge p a = Some r -> o_valid_before p = 0 -> 0 <= o_valid_before a -> o_valid_before r = 0.
Proof.
  intros [-> _]%merge_fields Hp Ha. cbn. unfold merge_expiry. rewrite Hp. cbn. rewrite (proj2 (Z.ltb_ge _ _)) by done. by rewrite andb_false_r.
Qed.
End Merge.

(** ** What an options field says *)

Inductive pflag := F_port | F_agent | F_x11 | F_pty | F_user_rc.
Inductive clause :=
  | CRestrict | CCertAuthority | CFlag (f : pflag) (v : bool)
  | CCommand (w : list Z) | CPrincipals (w : list Z) | CFrom (w : list Z) | CExpiry (w : list Z)
  | CEnvironment (w : list Z) | CPermitopen (w : list Z) | CPermitlisten (w : list Z) | CTunnel (w : list Z).

Definition flag_name (f : pflag) : list Z :=
  match f with
  | F_port => str "port-forwarding" | F_agent => str "agent-forwarding" | F_x11 => str "X11-forwarding"
  | F_pty => str "pty" | F_user_rc => str "user-rc"
  end.
Fixpoint escape (w : list Z) : list Z :=
  match w with [] => [] | c :: w' => if c =? QUOTE then BACKSLASH :: QUOTE :: escape w' else c :: escape w' end.
Definition in_quotes (w : list Z) : list Z := [QUOTE] ++ escape w ++ [QUOTE].
Definition render (c : clause) : list Z :=
  match c with
  | CRestrict => str "restrict"
  | CCertAuthority => str "cert-authority"
  | CFlag f v => (if v then [] else str "no-") ++ flag_name f
  | CCommand w => str "command=" ++ in_quotes w
  | CPrincipals w => str "principals=" ++ in_quotes w
  | CFrom w => str "from=" ++ in_quotes w
  | CExpiry w => str "expiry-time=" ++ in_quotes w
  | CEnvironment w => str "environment=" ++ in_quotes w
  | CPermitopen w => str "permitopen=" ++ in_quotes w
  | CPermitlisten w => str "permitlisten=" ++ in_quotes w
  | CTunnel w => str "tunnel=" ++ in_quotes w
  end.
Definition word_of (c : clause) : list Z :=
  match c with
  | CRestrict | CCertAuthority | CFlag _ _ => []
  | CCommand w | CPrincipals w | CFrom w | CExpiry w | CEnvironment w | CPermitopen w | CPermitlisten w | CTunnel w => w
  end.
(** A text that can be quoted: a backslash before the closing quote would
    escape it. *)
Definition quotable (w : list Z) : Prop := no_nul w /\ last w <> Some BACKSLASH /\ zlen w <= 2 ^ 20.

(** A character of the name of an environment variable. *)
Definition name_char (c : Z) : Prop := 48 <= c <= 57 \/ 65 <= c <= 90 \/ 97 <= c <= 122 \/ c = 95.
(** The C library reads all of [w] as the number [n]. *)
Definition reads (w : list Z) (n : Z) : Prop := w <> [] /\ strtol w = (n, zlen w).
Definition delim (c : Z) : Prop := c = COLON \/ c = 47.
(** "host:port", the host without a delimiter or in brackets. *)
Inductive host_port : list Z -> list Z -> list Z -> Prop :=
  | HP_plain h d p : head h <> Some 91 -> Forall (fun c => ~ delim c) h -> delim d -> host_port (h ++ d :: p) h p
  | HP_brackets h d p : Forall (fun c => c <> 93) h -> delim d -> host_port (91 :: h ++ 93 :: d :: p) (91 :: h ++ [93]) p.
Definition port_text (p : list Z) : Prop := p = [42] \/ exists n, reads p n /\ 1 <= n <= 65535.
(** The entry that permitopen= or permitlisten= adds: permitlisten= also takes
    a port alone, for every host. *)
Definition permits (bare_ok : bool) (w e : list Z) : Prop :=
  if bare_ok && forallb (fun c => negb (c =? COLON)) w then e = 42 :: COLON :: w /\ port_text w
  else e = w /\ exists h p, host_port w h p /\ zlen h < 1025 /\ port_text p.
(** "any", in letters of any case, or the number of a device. *)
Definition tunnel_text (w : list Z) (dev : Z) : Prop :=
  (strcaseeq w (str "any") = true /\ dev = 2147483647) \/
  (strcaseeq w (str "any") = false /\ reads w dev /\ 0 <= dev <= 2147483645).

Section ParseSpec.
Context {al : Allocator} {altot : @AllocTotal al} {cal : Calendar}.

Definition moment (buf fmt : list Z) (t : Z) : Prop := exists d, strptime buf fmt = Some d /\ mktime d = t /\ 0 < t.
(** YYYYMMDD, YYYYMMDDHHMM or YYYYMMDDHHMMSS. *)
Definition expires (w : list Z) (t : Z) : Prop :=
  match w with
  | [a; b; c; d; e; f; g; h] => moment [a; b; c; d; 45; e; f; 45; g; h] (str "%Y-%m-%d") t
  | [a; b; c; d; e; f; g; h; i; j; k; l] => moment [a; b; c; d; 45; e; f; 45; g; h; 84; i; j; 58; k; l] (str "%Y-%m-%dT%H:%M") t
  | [a; b; c; d; e; f; g; h; i; j; k; l; m; n] => moment [a; b; c; d; 45; e; f; 45; g; h; 84; i; j; 58; k; l; 58; m; n] (str "%Y-%m-%dT%H:%M:%S") t
  | _ => False
  end.
(** The meaning of a clause, as the options before and after it; a line with a
    clause that has none is refused. *)
Definition means (c : clause) (o o' : sshauthopt) : Prop :=
  let 'mk_opt port agent x11 pty rc res expiry ca princ tun cmd env popen plisten hcert hkeys := o in
  match c with
  | CRestrict => o' = mk_opt 0 0 0 0 0 1 expiry ca princ tun cmd env popen plisten hcert hkeys
  | CCertAuthority => o' = mk_opt port agent x11 pty rc res expiry 1 princ tun cmd env popen plisten hcert hkeys
  | CFlag f b =>
      let v := if b then 1 else 0 in
      o' = match f with
           | F_port => mk_opt v agent x11 pty rc res expiry ca princ tun cmd env popen plisten hcert hkeys
           | F_agent => mk_opt port v x11 pty rc res expiry ca princ tun cmd env popen plisten hcert hkeys
           | F_x11 => mk_opt port agent v pty rc res expiry ca princ tun cmd env popen plisten hcert hkeys
           | F_pty => mk_opt port agent x11 v rc res expiry ca princ tun cmd env popen plisten hcert hkeys
           | F_user_rc => mk_opt port agent x11 pty v res expiry ca princ tun cmd env popen plisten hcert hkeys
           end
  | CCommand w => cmd = None /\ o' = mk_opt port agent x11 pty rc res expiry ca princ tun (Some w) env popen plisten hcert hkeys
  | CPrincipals w => princ = None /\ o' = mk_opt port agent x11 pty rc res expiry ca (Some w) tun cmd env popen plisten hcert hkeys
  | CFrom w => hkeys = None /\ o' = mk_opt port agent x11 pty rc res expiry ca princ tun cmd env popen plisten hcert (Some w)
  | CExpiry w => exists t, expires w t /\
      o' = mk_opt port agent x11 pty rc res (if expiry =? 0 then t else Z.min expiry t) ca princ tun cmd env popen plisten hcert hkeys
  | CEnvironment w => (exists n v, w = n ++ EQUALS :: v /\ Forall name_char n) /\
      o' = mk_opt port agent x11 pty rc res expiry ca princ tun cmd (env ++ [w]) popen plisten hcert hkeys
  | CPermitopen w => exists e, permits false w e /\
      o' = mk_opt port agent x11 pty rc res expiry ca princ tun cmd env (popen ++ [e]) plisten hcert hkeys
  | CPermitlisten w => exists e, permits true w e /\
      o' = mk_opt port agent x11 pty rc res expiry ca princ tun cmd env popen (plisten ++ [e]) hcert hkeys
  | CTunnel w => exists dev, tunnel_text w dev /\
      o' = mk_opt port agent x11 pty rc res expiry ca princ dev cmd env popen plisten hcert hkeys
  end.

(** *** Each clause does what it means *)

(** The result [r] is what [P] allows, and an error when [P] allows nothing. *)
Definition gives {A} (r : list Z + A) (P : A -> Prop) : Prop := forall x, r = inr x <-> P x.

Lemma strtonum_reads w lo hi n : lo <= hi -> strtonum w lo hi = Some n <-> reads w n /\ lo <= n <= hi.
Proof.
  intros Hle. unfold strtonum, reads. rewrite (proj2 (Z.ltb_ge _ _)) by lia.
  destruct (strtol w) as [ll k] eqn:E. destruct w as [|c w]; [split; [|tauto]; injection E as <- <-; done|].
  assert (0 < zlen (c :: w)) by (rewrite zlen_cons; zlen_facts; lia).
  destruct (Z.eqb_spec k 0), (Z.eqb_spec k (zlen (c :: w))), (Z.ltb_spec ll lo), (Z.ltb_spec hi ll); cbn;
    (split; [intros [= <-]|intros [[_ [= -> ->]] ?]]); try lia; subst; repeat split; (done || lia).
Qed.
Lemma port_text_ok p : negb (bytes_eqb p (str "*")) && (a2port p <=? 0) = false <-> port_text p.
Proof.
  unfold port_text, a2port. destruct (bytes_eqb p (str "*")) eqn:Ep; cbn [negb andb].
  { apply bytes_eqb_eq in Ep as ->. split; [by left|done]. }
  assert (p <> [42]) by (intros ->; vm_compute in Ep; done).
  pose proof (fun n => strtonum_reads p 0 65535 n ltac:(lia)) as Hs. destruct (strtonum p 0 65535) as [n|].
  - destruct (proj1 (Hs n) eq_refl) as [Hr ?]. change (default (-1) (Some n)) with n. rewrite Z.leb_gt. split; [intros; right; exists n; split; [done|lia]|].
    intros [|(m & Hm & ?)]; [done|]. assert (Some n = Some m) as [= ->] by (apply Hs; split; [done|lia]). lia.
  - split; [done|]. intros [|(m & Hm & ?)]; [done|]. assert (None = Some m) by (apply Hs; split; [done|lia]). done.
Qed.

Lemma span_until_app f s : let '(a, b) := span_until f s in s = a ++ b /\ Forall (fun c => f c = false) a /\ (forall c, head b = Some c -> f c = true).
Proof.
  induction s as [|c s IH]; cbn; [done|]. destruct (f c) eqn:E; [by split_and!; [..|intros ? [= <-]]|].
  destruct (span_until f s) as [a b]. destruct IH as (-> & ? & ?). by split_and!; [|constructor|].
Qed.
Lemma span_until_at f a c b : Forall (fun c => f c = false) a -> f c = true -> span_until f (a ++ c :: b) = (a, c :: b).
Proof. intros Ha Hc. induction Ha as [|x a Hx _ IH]; cbn; [by rewrite Hc|]. by rewrite Hx, IH. Qed.
Lemma delim_spec c : ((c =? COLON) || (c =? 47)) = true <-> delim c.
Proof. unfold delim. lia. Qed.
Lemma delim_false c : ((c =? COLON) || (c =? 47)) = false <-> ~ delim c.
Proof. unfold delim. lia. Qed.
Lemma hpdelim_host_port w h p : hpdelim w = Some (h, Some p) <-> host_port w h p.
Proof.
  split.
  - unfold hpdelim. destruct (Z.eqb_spec (char0 w) 91) as [E|E].
    + pose proof (span_until_app (Z.eqb 93) w) as Hs. destruct (span_until _ w) as [a [|x s]]; [done|]. destruct Hs as (-> & Ha & Hx).
      specialize (Hx x eq_refl). apply Z.eqb_eq in Hx as <-. destruct s as [|d s]; [done|]. destruct (_ || _) eqn:Ed; [|done]. intros [= <- <-].
      destruct a as [|y a]; [done|]. cbn in E. subst y. apply Forall_cons_1 in Ha as [_ Ha]. cbn [app]. apply HP_brackets; [|by apply delim_spec].
      eapply Forall_impl; [exact Ha|]. intros y Hy. cbv beta in Hy. lia.
    + pose proof (span_until_app (fun c => (c =? COLON) || (c =? 47)) w) as Hs. destruct (span_until _ w) as [a [|d s]]; [done|]. destruct Hs as (-> & Ha & Hd).
      rewrite (Hd d eq_refl). intros [= <- <-]. apply HP_plain; [|eapply Forall_impl; [exact Ha|]; intros ? ?; by apply delim_false|by apply delim_spec, Hd].
      intros Hh. destruct a; [done|]. apply E. injection Hh as ->. done.
  - intros [h' d p' Hh Hf Hd|h' d p' Hf Hd]; unfold hpdelim.
    + rewrite (proj2 (Z.eqb_neq _ _)).
      2:{ destruct h' as [|y h']; cbn in *; [unfold delim, COLON in Hd; lia|congruence]. }
      rewrite span_until_at; [by rewrite (proj2 (delim_spec d))|eapply Forall_impl; [exact Hf|]; intros ? ?; by apply delim_false|by apply delim_spec].
    + change (char0 (91 :: h' ++ 93 :: d :: p') =? 91) with true. cbn iota.
      change (91 :: h' ++ 93 :: d :: p') with ((91 :: h') ++ 93 :: d :: p'). rewrite span_until_at; [by rewrite (proj2 (delim_spec d))| |done].
      constructor; [done|]. eapply Forall_impl; [exact Hf|]. intros y Hy. cbv beta in Hy. lia.
Qed.

Lemma no_colon w : existsb (Z.eqb COLON) w = negb (forallb (fun c => negb (c =? COLON)) w).
Proof. induction w as [|c w IH]; [done|]. cbn [existsb forallb]. rewrite IH, (Z.eqb_sym COLON). by destruct (c =? COLON). Qed.
Lemma record_permit_gives bare l w : zlen w <= 2 ^ 20 -> zlen l <= 2 ^ 20 ->
  gives (record_permit bare l w) (fun l' => exists e, permits bare w e /\ l' = l ++ [e]).
Proof.
  intros Hw Hl l'. zlen_facts.
  assert (Hd : forall s, zlen s <= 2 ^ 20 + 2 -> strdup s = Some s).
  { intros s Hs. unfold strdup. zlen_facts. destruct (alloc_total (zlen s + 1)) as [? ->]; [unfold SSHBUF_SIZE_MAX; lia|done]. }
  unfold record_permit, permits. rewrite no_colon, negb_involutive. destruct (alloc_total (8 * (zlen l + 1))) as [? ->]; [unfold SSHBUF_SIZE_MAX; lia|].
  destruct (bare && _).
  - change (str "*:" ++ w) with (42 :: COLON :: w). rewrite !Hd by (rewrite !zlen_cons; lia).
    assert (Ehp : hpdelim (42 :: COLON :: w) = Some ([42], Some w)).
    { apply hpdelim_host_port. apply (HP_plain [42] COLON w); [done|repeat constructor; unfold delim, COLON; lia|by left]. }
    rewrite Ehp. change (NI_MAXHOST <=? zlen [42]) with false. cbn iota. destruct (negb _ && _) eqn:Ep.
    + split; [done|]. intros (e & [_ Hp] & _). apply port_text_ok in Hp. congruence.
    + apply port_text_ok in Ep. split; [intros [= <-]; by eexists|]. by intros (e & [-> _] & ->).
  - rewrite Hd by lia. destruct (hpdelim w) as [[h [p|]]|] eqn:Ehp.
    + apply hpdelim_host_port in Ehp as Hhp.
      assert (Hu : forall h1 p1, host_port w h1 p1 -> h1 = h /\ p1 = p) by (intros h1 p1 H1%hpdelim_host_port; split; congruence).
      unfold NI_MAXHOST. destruct (Z.leb_spec 1025 (zlen h)) as [Hlen|Hlen].
      { split; [done|]. intros (e & (_ & h1 & p1 & [-> ->]%Hu & ? & _) & _). lia. }
      destruct (negb _ && _) eqn:Ep.
      * split; [done|]. intros (e & (_ & h1 & p1 & [-> ->]%Hu & _ & Hp) & _). apply port_text_ok in Hp. congruence.
      * apply port_text_ok in Ep. split; [intros [= <-]; exists w; repeat split; by exists h, p|]. by intros (e & (-> & _) & ->).
    + assert (Hno : (exists e, (e = w /\ exists h p, host_port w h p /\ zlen h < 1025 /\ port_text p) /\ l' = l ++ [e]) -> False)
        by (intros (e & (_ & h1 & p1 & H1%hpdelim_host_port & _) & _); congruence).
      destruct (_ <=? _); (split; [done|tauto]).
    + split; [done|]. intros (e & (_ & h1 & p1 & H1%hpdelim_host_port & _) & _). congruence.
Qed.

Lemma isalnum_name c : isalnum c || (c =? 95) = true <-> name_char c.
Proof. unfold isalnum, isdigit, lower, name_char. destruct ((65 <=? c) && (c <=? 90)) eqn:E; lia. Qed.
Lemma add_env_gives o w : zlen (o_env o) <= 2 ^ 20 -> gives (add_env o w) (means (CEnvironment w) o).
Proof.
  intros He o'. zlen_facts. unfold add_env. pose proof (span_until_app (Z.eqb EQUALS) w) as Hs. destruct (span_until _ w) as [name rest] eqn:Esp.
  destruct Hs as (Ew & Hname & Hrest). destruct (alloc_total (8 * (zlen (o_env o) + 1))) as [? ->]; [unfold SSHBUF_SIZE_MAX; lia|].
  assert (Hfind : forall n v, w = n ++ EQUALS :: v -> Forall name_char n -> name = n /\ rest = EQUALS :: v).
  { intros n v -> Hn. rewrite span_until_at in Esp; [by injection Esp|eapply Forall_impl; [exact Hn|]; intros c Hc; unfold name_char, EQUALS in *; lia|done]. }
  destruct o as [? ? ? ? ? ? ? ? ? ? ? env]. cbn [means o_env] in *. destruct rest as [|e rest].
  { split; [done|]. intros [(n & v & E & Hn) _]. by destruct (Hfind n v E Hn). }
  cbn [bool_decide decide_rel]. rewrite bool_decide_eq_false_2 by done. destruct (forallb _ name) eqn:En; cbn [negb].
  - assert (Hn : Forall name_char name).
    { apply Forall_forall. intros c Hc. rewrite forallb_forall in En. apply isalnum_name, En. by apply list_elem_of_In. }
    specialize (Hrest e eq_refl). apply Z.eqb_eq in Hrest as <-. split; [intros [= <-]; split; [by exists name, rest|done]|]. by intros [_ ->].
  - split; [done|]. intros [(n & v & E & Hn) _]. destruct (Hfind n v E Hn) as [-> _].
    assert (forallb (fun c => isalnum c || (c =? 95)) n = true); [|congruence].
    apply forallb_forall. intros c Hc. apply isalnum_name. rewrite Forall_forall in Hn. apply Hn. by apply list_elem_of_In.
Qed.
Lemma expires_parses w t : expires w t <-> parse_absolute_time w = Some t /\ t <> 0.
Proof.
  assert (Hm : forall buf fmt, moment buf fmt t <-> match strptime buf fmt with None => None | Some d => if mktime d <? 0 then None else Some (mktime d) end = Some t /\ t <> 0).
  { intros buf fmt. unfold moment. destruct (strptime buf fmt) as [d|]; [|by split; [intros (? & ? & _)|intros []]].
    destruct (Z.ltb_spec (mktime d) 0); (split; [intros (? & [= <-] & ? & ?)|intros [[= <-] ?]]); try lia; [split; [congruence|lia]|exists d; repeat split; lia]. }
  unfold parse_absolute_time.
  do 15 (destruct w as [|? w]; [first [exact (Hm _ _) | split; [done|by intros []]]|]).
  split; [done|]. rewrite !zlen_cons. zlen_facts. rewrite !(proj2 (Z.eqb_neq _ _)) by lia. by intros [].
Qed.
Lemma set_expiry_gives o w : gives (set_expiry o w) (means (CExpiry w) o).
Proof.
  intros o'. pose proof (expires_parses w) as Hp. unfold set_expiry. destruct o as [? ? ? ? ? ? vb]. cbn [means o_valid_before].
  destruct (parse_absolute_time w) as [t|]; [|split; [done|]; intros (t & Ht%Hp & _); by destruct Ht].
  destruct (Z.eqb_spec t 0) as [->|Ht]; [split; [done|]; intros (t & Ht%Hp & _); destruct Ht as [[= <-] ?]; done|].
  assert (Hu : forall t', expires w t' -> t' = t) by (intros t' []%Hp; congruence).
  assert (He : expires w t) by (by apply Hp).
  assert (Eo : (if (vb =? 0) || (t <? vb) then t else vb) = if vb =? 0 then t else Z.min vb t) by (destruct (Z.eqb_spec vb 0), (Z.ltb_spec t vb); cbn; lia).
  split; [intros [= <-]; exists t; split; [done|]|intros (t' & ->%Hu & ->)]; rewrite <- Eo; by destruct (_ || _).
Qed.
Lemma set_tunnel_gives o w : gives (set_tunnel o w) (means (CTunnel w) o).
Proof.
  intros o'. unfold set_tunnel, a2tun. pose proof (fun n => strtonum_reads w 0 SSH_TUNID_MAX n ltac:(unfold SSH_TUNID_MAX, SSH_TUNID_ANY; lia)) as Hs.
  destruct o as [? ? ? ? ? ? ? ? ? td]. cbn [means]. unfold tunnel_text. destruct (strcaseeq w (str "any")) eqn:Ea.
  { split; [intros [= <-]; eexists; split; [by left|done]|]. intros (dev & [[_ ->]|[? _]] & ->); done. }
  destruct (strtonum w 0 SSH_TUNID_MAX) as [n|].
  - destruct (proj1 (Hs n) eq_refl) as [Hr Hn]. change (default SSH_TUNID_ERR (Some n)) with n. unfold SSH_TUNID_ERR, SSH_TUNID_MAX, SSH_TUNID_ANY in *.
    rewrite (proj2 (Z.eqb_neq _ _)) by lia. split; [intros [= <-]; exists n; split; [right; split; [done|split; [done|lia]]|done]|].
    intros (dev & [[? _]|(_ & Hd & ?)] & ->); [done|]. assert (Some n = Some dev) as [= ->]; [apply Hs; split; [done|lia]|done].
  - change (default SSH_TUNID_ERR None =? SSH_TUNID_ERR) with true. split; [done|]. intros (dev & [[? _]|(_ & Hd & ?)] & _); [done|].
    assert (None = Some dev); [apply Hs; split; [done|unfold SSH_TUNID_MAX, SSH_TUNID_ANY; lia]|done].
Qed.

Lemma dequote_escape w rest : last w <> Some BACKSLASH -> dequote (escape w ++ QUOTE :: rest) = Some (w, rest).
Proof.
  induction w as [|c w IH]; intros Hl; [done|].
  assert (IHw : dequote (escape w ++ QUOTE :: rest) = Some (w, rest)) by (destruct w as [|d w]; [done|]; apply IH; exact Hl).
  clear IH. cbn [escape]. destruct (Z.eqb_spec c QUOTE) as [->|Hc].
  { cbn [app]. cbn -[escape app]. rewrite IHw. done. }
  cbn [app]. cbn [dequote]. rewrite (proj2 (Z.eqb_neq _ _)) by done.
  destruct (escape w ++ QUOTE :: rest) as [|d t] eqn:Et; [by destruct (escape w)|]. rewrite <- Et in *.
  replace ((c =? BACKSLASH) && (d =? QUOTE)) with false; [by rewrite IHw|].
  destruct (Z.eqb_spec c BACKSLASH) as [->|]; [|done]. destruct w as [|x w]; [done|]. symmetry. cbn [andb].
  cbn [escape] in Et. destruct (Z.eqb_spec x QUOTE) as [->|Hx]; injection Et as <- _; [done|]. by apply Z.eqb_neq.
Qed.
Lemma zlen_escape w : zlen (escape w) <= 2 * zlen w.
Proof. induction w as [|c w IH]; cbn [escape]; [done|]. destruct (c =? QUOTE); rewrite !zlen_cons; lia. Qed.
Lemma opt_dequote_in_quotes w rest : quotable w -> zlen rest <= 2 ^ 20 -> opt_dequote (in_quotes w ++ rest) = inr (w, rest).
Proof.
  intros (_ & Hl & Hw) Hr. unfold in_quotes. rewrite <- !app_assoc. cbn [app opt_dequote]. rewrite Z.eqb_refl. pose proof (zlen_escape w).
  destruct (alloc_total (zlen (escape w ++ QUOTE :: rest) + 1)) as [? ->]; [rewrite zlen_app, zlen_cons; zlen_facts; unfold SSHBUF_SIZE_MAX; lia|].
  by rewrite dequote_escape.
Qed.
Lemma quoted_in_quotes w rest k : quotable w -> zlen rest <= 2 ^ 20 ->
  quoted (in_quotes w ++ rest) k = match k w with inl e => inl e | inr o => inr (o, rest) end.
Proof. intros. unfold quoted. by rewrite opt_dequote_in_quotes. Qed.

Ltac strs := repeat match goal with |- context [str ?s] => let v := eval vm_compute in (str s) in replace (str s) with v by (vm_compute; reflexivity) end.
Lemma gives_map {A B} (r : list Z + A) (P : A -> Prop) (f : A -> B) (Q : B -> Prop) :
  gives r P -> (forall y, Q y <-> exists x, P x /\ y = f x) -> gives (match r with inl e => inl e | inr x => inr (f x) end) Q.
Proof.
  intros Hr HQ y. rewrite HQ. destruct r as [e|x].
  - split; [done|]. intros (x & Hx%Hr & _). done.
  - split; [intros [= <-]; exists x; split; [by apply Hr|done]|]. intros (x' & Hx%Hr & ->). by injection Hx as ->.
Qed.
Lemma gives_inr {A} (x : A) (P : A -> Prop) : (forall y, P y <-> y = x) -> gives (inr x) P.
Proof. intros H y. rewrite H. split; congruence. Qed.
Lemma gives_inl {A} e (P : A -> Prop) : (forall y, ~ P y) -> gives (inl e) P.
Proof. intros H y. split; [done|]. intros ?%H. done. Qed.

(** The lists of the options have at most [k] entries. *)
Definition at_most (k : Z) (o : sshauthopt) : Prop := zlen (o_env o) <= k /\ zlen (o_permitopen o) <= k /\ zlen (o_permitlisten o) <= k.
Lemma means_at_most c o o' k : means c o o' -> at_most k o -> at_most (k + 1) o'.
Proof.
  unfold at_most. destruct o, c; cbn [means o_env o_permitopen o_permitlisten]; intros Hm Hk;
    repeat match goal with H : exists _, _ |- _ => destruct H | H : _ /\ _ |- _ => destruct H end; subst; try match goal with f : pflag |- _ => destruct f end;
    cbn [o_env o_permitopen o_permitlisten]; rewrite ?zlen_app, ?zlen_cons, ?zlen_nil; lia.
Qed.

Definition then_rest (rest : list Z) (P : sshauthopt -> Prop) (r : sshauthopt * list Z) : Prop := P (fst r) /\ snd r = rest.
Lemma then_rest_map rest P y : then_rest rest P y <-> exists x, P x /\ y = (x, rest).
Proof. destruct y as [o r]. unfold then_rest. cbn. split; [intros [? ->]; by exists o|]. by intros (x & ? & [= -> ->]). Qed.
Lemma quoted_gives w rest k P : quotable w -> zlen rest <= 2 ^ 20 -> gives (k w) P -> gives (quoted (in_quotes w ++ rest) k) (then_rest rest P).
Proof. intros Hw Hr Hk. rewrite quoted_in_quotes by done. apply (gives_map _ P (fun o => (o, rest))); [done|]. apply then_rest_map. Qed.
Lemma permit_gives bare l w rest (f : list (list Z) -> sshauthopt) P : quotable w -> zlen rest <= 2 ^ 20 -> zlen l <= 2 ^ 20 ->
  (forall o', P o' <-> exists e, permits bare w e /\ o' = f (l ++ [e])) ->
  gives (match handle_permit (in_quotes w ++ rest) bare l with inl e => inl e | inr (r, l') => inr (f l', r) end) (then_rest rest P).
Proof.
  intros Hw Hr Hl HP. unfold handle_permit. rewrite (proj2 (Z.ltb_ge _ _)) by (unfold INT_MAX; lia). rewrite opt_dequote_in_quotes by done.
  assert (Hg := record_permit_gives bare l w ltac:(by destruct Hw as (_ & _ & ?)) Hl).
  assert (Hm := gives_map _ _ (fun l' => (f l', rest)) (then_rest rest P) Hg). destruct (record_permit bare l w); apply Hm.
  all: intros y; rewrite then_rest_map; setoid_rewrite HP; split.
  all: try (intros (x & (e & He & ->) & ->); eexists; split; [by exists e|done]).
  all: intros (x & (e & He & ->) & ->); eexists; split; [exists e; split; [exact He|reflexivity]|done].
Qed.
Lemma one_option_render o c rest : quotable (word_of c) -> zlen rest <= 2 ^ 20 -> at_most (2 ^ 20) o ->
  gives (one_option o (render c ++ rest)) (then_rest rest (means c o)).
Proof.
  intros Hw Hr (He & Hpo & Hpl). destruct c as [| |f v|w|w|w|w|w|w|w|w]; cbn [word_of] in Hw.
  1, 2: apply (gives_inr (_, rest)); intros [o' r]; unfold then_rest; destruct o; cbn [fst snd means]; split; [intros [-> ->]|intros [= -> ->]]; done.
  { destruct f, v; (apply (gives_inr (_, rest)); intros [o' r]; unfold then_rest; destruct o; cbn [fst snd means]; split; [intros [-> ->]|intros [= -> ->]]; done). }
  all: cbn [render]; rewrite <- app_assoc; unfold one_option, flag_option, opt_flag; strs; cbn -[in_quotes quoted handle_permit record_permit set_expiry add_env set_tunnel zlen INT_MAX means]; rewrite ?drop_0.
  1-3: unfold once; match goal with |- context [match ?x with _ => _ end] => destruct x eqn:Ex end;
    [apply gives_inl; intros [o' r] [Hm _]; destruct o; cbn in *; by destruct Hm as [-> _]|];
    apply quoted_gives; [done..|]; apply gives_inr; intros o'; destruct o; cbn in *; subst; split; [by intros [_ ->]|by intros ->].
  1: apply quoted_gives; [done..|]; apply set_expiry_gives.
  1: rewrite (proj2 (Z.ltb_ge _ _)) by (unfold INT_MAX; lia); apply quoted_gives; [done..|]; by apply add_env_gives.
  1: apply (permit_gives false _ _ _ (fun l => set_permitopen l o)); [done..|]; by destruct o.
  1: apply (permit_gives true _ _ _ (fun l => set_permitlisten l o)); [done..|]; by destruct o.
  apply quoted_gives; [done..|]; apply set_tunnel_gives.
Qed.

Fixpoint render_all (cs : list clause) : list Z :=
  match cs with [] => [] | [c] => render c | c :: cs' => render c ++ [COMMA] ++ render_all cs' end.
Fixpoint mean_all (cs : list clause) (o o' : sshauthopt) : Prop :=
  match cs with [] => o' = o | c :: cs' => exists o1, means c o o1 /\ mean_all cs' o1 o' end.

Lemma render_front c x : at_end (render c ++ x) = false /\ (char0 (render c ++ x) =? 0) = false /\ (0 < length (render c))%nat.
Proof.
  destruct c as [| |f v|w|w|w|w|w|w|w|w]; [..|destruct f, v|idtac|idtac|idtac|idtac|idtac|idtac|idtac|idtac]; cbn [render]; strs; split_and!; (reflexivity || cbn; lia).
Qed.
Lemma render_all_front c cs x : at_end (render_all (c :: cs) ++ x) = false /\ (char0 (render_all (c :: cs) ++ x) =? 0) = false.
Proof. destruct cs as [|d cs]; cbn [render_all]; rewrite <- ?app_assoc; split; apply render_front. Qed.
Lemma length_render_all cs : (length cs <= length (render_all cs))%nat.
Proof.
  induction cs as [|c [|d cs] IH]; [done|..]; cbn [render_all]; destruct (render_front c []) as (_ & _ & Hl); [cbn; lia|].
  change (match cs with [] => _ | _ => _ end) with (render_all (d :: cs)). rewrite !length_app. cbn [length] in *. lia.
Qed.

(** The field ends at a blank or at the end of the text. *)
Definition ends_field (tail : list Z) : Prop := match tail with [] => True | c :: _ => c = 32 \/ c = 9 end.
Lemma ends_field_at_end tail : ends_field tail -> at_end tail = true.
Proof. destruct tail as [|c t]; [done|]. by intros [-> | ->]. Qed.
Lemma parse_loop_clauses cs tail : at_end tail = true -> forall fuel o, (length cs < fuel)%nat -> at_most (2 ^ 20 - zlen cs) o ->
  Forall (fun c => quotable (word_of c)) cs -> zlen (render_all cs ++ tail) <= 2 ^ 20 ->
  exists r, parse_loop fuel o (render_all cs ++ tail) = Some r /\ gives r (mean_all cs o).
Proof.
  intros Ht. induction cs as [|c cs IH]; intros fuel o Hf Hk Hq Hl; (destruct fuel as [|fuel]; [cbn in Hf; lia|]).
  { exists (inr o). split; [|by apply gives_inr]. cbn [render_all app parse_loop]. by rewrite Ht. }
  apply Forall_cons_1 in Hq as [Hc Hq]. cbn [parse_loop]. destruct (render_all_front c cs tail) as [-> _].
  set (rest := match cs with [] => tail | _ => [COMMA] ++ render_all cs ++ tail end).
  assert (Er : render_all (c :: cs) ++ tail = render c ++ rest) by (subst rest; destruct cs; cbn [render_all]; by rewrite <- ?app_assoc).
  rewrite Er in *. assert (Hlr : zlen rest <= 2 ^ 20) by (rewrite zlen_app in Hl; zlen_facts; lia). rewrite zlen_cons in Hk.
  assert (Ho : gives (one_option o (render c ++ rest)) (then_rest rest (means c o))) by (apply one_option_render; [done..|]; unfold at_most in *; zlen_facts; lia).
  cbn [mean_all]. destruct (one_option o (render c ++ rest)) as [e|[o1 rest']].
  { exists (inl e). split; [done|]. apply gives_inl. intros o' (o1 & Hm & _). assert (Hx : inl e = inr (o1, rest) :> list Z + _) by (by apply Ho). done. }
  destruct (proj1 (Ho _) eq_refl) as [Hm Erest]. cbn in Hm, Erest. subst rest'.
  assert (Hu : forall o2, means c o o2 -> o2 = o1) by (intros o2 H2; assert (Hx : inr (o1, rest) = inr (o2, rest) :> list Z + _) by (by apply Ho); congruence).
  assert (HU : forall r, gives r (mean_all cs o1) -> gives r (fun o' => exists o1, means c o o1 /\ mean_all cs o1 o')).
  { intros r Hg o'. rewrite (Hg o'). split; [by exists o1|]. by intros (o2 & ->%Hu & ?). }
  destruct cs as [|d cs]; subst rest; [rewrite Ht; exists (inr o1); split; [done|]; apply HU; by apply gives_inr|].
  change (at_end ([COMMA] ++ render_all (d :: cs) ++ tail)) with false. cbn iota.
  change (negb (char0 ([COMMA] ++ render_all (d :: cs) ++ tail) =? COMMA)) with false. cbn iota.
  change (drop 1 ([COMMA] ++ render_all (d :: cs) ++ tail)) with (drop 0 (render_all (d :: cs) ++ tail)). rewrite drop_0.
  destruct (render_all_front d cs tail) as [_ ->]. apply (means_at_most _ _ _ _ Hm) in Hk.
  destruct (IH fuel o1) as (r & -> & Hg); [cbn in *; lia| |done|rewrite zlen_app in Hlr; zlen_facts; lia|exists r; split; [done|by apply HU]].
  unfold at_most in *. lia.
Qed.

Lemma keys_defaults : sshauthopt_new_with_keys_defaults = Some (mk_opt 1 1 1 1 1 0 0 0 None (-1) None [] [] [] None None).
Proof.
  unfold sshauthopt_new_with_keys_defaults, sshauthopt_new. destruct (alloc_total SIZEOF_AUTHOPT) as [? ->]; [unfold SIZEOF_AUTHOPT, SSHBUF_SIZE_MAX; lia|]. done.
Qed.

(** C25: An options field of clauses separated by commas, of up to a megabyte
    and followed by a blank or by nothing, gives (memory not being refused) what
    its clauses mean one after the other, starting from the defaults, and is
    refused exactly when a clause has no meaning: "restrict" clears the five
    permissions; a flag or its negation sets one; a quoted text, every quote in
    it escaped, is taken once; the earliest expiry time counts; an environment
    string needs a name of letters, digits and underscores; a permission needs a
    host and a port from 1 to 65535 or "*"; a tunnel needs "any" or the number
    of a device.  Every other field of the options stays as it was. *)
Theorem authopt_parse_correct cs tail :
  ends_field tail -> Forall (fun c => quotable (word_of c)) cs -> zlen (render_all cs ++ tail) <= 2 ^ 20 ->
  exists r, sshauthopt_parse (Some (render_all cs ++ tail)) = Some r /\
    forall o, r = inr o <-> mean_all cs (mk_opt 1 1 1 1 1 0 0 0 None (-1) None [] [] [] None None) o.
Proof.
  intros Ht Hq Hl. pose proof (length_render_all cs) as Hn. unfold sshauthopt_parse. rewrite keys_defaults.
  apply parse_loop_clauses; [by apply ends_field_at_end|rewrite length_app; lia| |done..].
  rewrite zlen_app in Hl. zlen_facts. unfold at_most, zlen in *. cbn. lia.
Qed.
End ParseSpec.

(** ** Every text is parsed to an end *)

Section ParseEnds.
Context {al : Allocator} {cal : Calendar}.

Lemma dequote_shorter s w r : dequote s = Some (w, r) -> (length r < length s)%nat.
Proof.
  revert w r. induction s as [s IH] using (induction_ltof1 _ (@length Z)). unfold ltof in IH. intros w r.
  destruct s as [|c s1]; cbn [dequote]; [done|]. destruct (c =? QUOTE); [intros [= _ <-]; cbn; lia|].
  destruct s1 as [|d s2]; [done|]. destruct (_ && _); unfold push; intros Hd; apply fmap_Some in Hd as ([w' r'] & Hd & [= _ <-]);
    apply IH in Hd; cbn in *; lia.
Qed.
Lemma opt_dequote_shorter s w r : opt_dequote s = inr (w, r) -> (length r <= length s)%nat.
Proof.
  unfold opt_dequote. destruct s as [|c s]; [done|]. destruct (c =? QUOTE); [|done]. destruct (heap_alloc _); [|done].
  destruct (dequote s) as [[w' r']|] eqn:Hd; [|done]. intros [= -> ->]. apply dequote_shorter in Hd. cbn. lia.
Qed.
Lemma quoted_shorter s k o r : quoted s k = inr (o, r) -> (length r <= length s)%nat.
Proof.
  unfold quoted. destruct (opt_dequote s) as [e|[w r']] eqn:Hd; [done|]. apply opt_dequote_shorter in Hd. destruct (k w); [done|]. by intros [= _ <-].
Qed.
Lemma handle_permit_shorter s b l l' r : handle_permit s b l = inr (r, l') -> (length r <= length s)%nat.
Proof.
  unfold handle_permit. destruct (_ <? _); [done|]. destruct (opt_dequote s) as [e|[w r']] eqn:Hd; [done|]. apply opt_dequote_shorter in Hd.
  destruct (record_permit b l w); [done|]. by intros [= <- _].
Qed.
Lemma opt_match_shorter s t r : opt_match s t = Some r -> (length r <= length s)%nat.
Proof. unfold opt_match. destruct (_ && _); [|done]. intros [= <-]. rewrite length_drop. lia. Qed.
Lemma opt_flag_shorter t neg s v r : opt_flag t neg s = Some (v, r) -> (length r <= length s)%nat.
Proof. unfold opt_flag. destruct (_ && _), (strncaseeq _ t); try done; intros [= _ <-]; rewrite !length_drop; lia. Qed.
Lemma one_option_shorter o s o' r : one_option o s = inr (o', r) -> (length r <= length s)%nat.
Proof.
  unfold one_option, flag_option, once. intros H.
  repeat match type of H with
    | context [match opt_flag ?t ?n s with _ => _ end] => destruct (opt_flag t n s) as [[? ?]|] eqn:E; [apply opt_flag_shorter in E; injection H as _ <-; exact E|clear E]
    end.
  repeat match type of H with
    | context [match opt_match s ?t with _ => _ end] => destruct (opt_match s t) as [?|] eqn:E; [apply opt_match_shorter in E|clear E]
    end;
    try match type of H with context [match ?x with Some _ => inl _ | None => _ end] => destruct x; [done|] end;
    try match type of H with context [if ?c then _ else _] => destruct c; [done|] end;
    try (apply quoted_shorter in H; lia);
    try match type of H with context [handle_permit ?a ?b ?c] => destruct (handle_permit a b c) as [|[? ?]] eqn:Ep; [done|]; apply handle_permit_shorter in Ep; injection H as _ <-; lia end.
  by injection H as _ <-.
Qed.
Lemma parse_loop_ends fuel : forall o s, (length s < fuel)%nat -> parse_loop fuel o s <> None.
Proof.
  induction fuel as [|fuel IH]; intros o s Hs; [lia|]. cbn [parse_loop]. destruct (at_end s); [done|].
  destruct (one_option o s) as [e|[o' r]] eqn:E; [done|]. apply one_option_shorter in E. destruct (at_end r) eqn:Ee; [done|].
  destruct (negb _); [done|]. destruct (_ =? 0); [done|]. apply IH. destruct r as [|c r]; [done|]. cbn [drop length] in *. rewrite drop_0. lia.
Qed.

(** C40: sshauthopt_parse ends on every text, with options or an error: the fuel
    of its loop, one more than the characters of the text, never runs out. *)
Theorem authopt_parse_terminates (opts : option (list Z)) : sshauthopt_parse opts <> None.
Proof.
  unfold sshauthopt_parse. destruct sshauthopt_new_with_keys_defaults as [d|]; [|done]. destruct opts as [s|]; [|done]. apply parse_loop_ends. lia.
Qed.
End ParseEnds.

(** ** Instances *)

Definition demo_calendar : Calendar := {| tm := list Z; strptime := fun buf _ => Some buf; mktime := fun _ => 1000 |}.
Definition demo_clauses : list clause :=
  [CRestrict; CFlag F_pty true; CCommand (str "say " ++ [QUOTE] ++ str "hi" ++ [QUOTE]); CEnvironment (str "A=b"); CExpiry (str "20300101"); CPermitopen (str "host:22")].
Definition demo_opts : sshauthopt :=
  mk_opt 0 0 0 1 0 1 1000 0 None (-1) (Some (str "say " ++ [QUOTE] ++ str "hi" ++ [QUOTE])) [str "A=b"] [str "host:22"] [] None None.

Lemma demo_means : @mean_all demo_calendar demo_clauses (mk_opt 1 1 1 1 1 0 0 0 None (-1) None [] [] [] None None) demo_opts.
Proof.
  do 3 (eexists; split; [vm_compute; auto|]). cbn [mean_all]. eexists. split; [cbn [means]; split; [|reflexivity]|].
  { exists (str "A"), (str "b"). split; [reflexivity|]. apply (Forall_cons_2 _ 65 []); [unfold name_char; lia|apply Forall_nil_2]. }
  eexists. split; [cbn [means]; exists 1000; split; [|reflexivity]|].
  { eexists. split; [reflexivity|]. split; [reflexivity|lia]. }
  eexists. split; [cbn [means]; exists (str "host:22"); split; [|reflexivity]|vm_compute; reflexivity].
  split; [done|]. exists (str "host"), (str "22"). split; [|split; [vm_compute; reflexivity|]].
  - apply (HP_plain (str "host") COLON (str "22")); [vm_compute; discriminate| |by left].
    apply (Forall_cons_2 _ 104 [111; 115; 116]), (Forall_cons_2 _ 111 [115; 116]), (Forall_cons_2 _ 115 [116]), (Forall_cons_2 _ 116 []), Forall_nil_2; unfold delim, COLON; lia.
  - right. exists 22. split; [split; [done|vm_compute; reflexivity]|lia].
Qed.
Lemma authopt_parse_correct_witness :
  @sshauthopt_parse demo_heap demo_calendar (Some (render_all demo_clauses ++ str " ssh-rsa")) = Some (inr demo_opts).
Proof.
  destruct (@authopt_parse_correct demo_heap demo_heap_total demo_calendar demo_clauses (str " ssh-rsa")) as (r & -> & Hr).
  - left. reflexivity.
  - repeat constructor; vm_compute; discriminate.
  - vm_compute. discriminate.
  - f_equal. apply Hr. exact demo_means.
Defined.

Lemma demo_opts_ok : opts_ok demo_opts.
Proof.
  assert (Hn : forall l, forallb (fun c => negb (c =? 0)) l = true -> no_nul l).
  { intros l Hl. apply Forall_forall. intros c Hc ->. rewrite forallb_forall in Hl. specialize (Hl 0 (proj1 (list_elem_of_In _ _) Hc)). done. }
  split; cbn; [|lia..| |].
  - repeat (apply Forall_cons; split; [unfold is_u8; lia|]). apply Forall_nil_2.
  - repeat (apply Forall_cons; split; [cbn; try done; apply Hn; vm_compute; reflexivity|]). apply Forall_nil_2.
  - repeat (apply Forall_cons; split; [split_and!; [|vm_compute; discriminate..]|]); try apply Forall_nil_2;
      repeat (apply Forall_cons; split; [apply Hn; vm_compute; reflexivity|]); apply Forall_nil_2.
Qed.
Lemma authopt_roundtrip_witness :
  exists b1 b2, @sshauthopt_serialise demo_heap demo_opts false demo_buf = (inr tt, b1) /\ @sshauthopt_deserialise demo_heap b1 = (inr demo_opts, b2) /\ contents b2 = [].
Proof.
  refine (@authopt_roundtrip demo_heap demo_heap_total demo_opts demo_buf demo_opts_ok demo_buf_rw _ _).
  - reflexivity.
  - vm_compute. discriminate.
Defined.

Definition demo_merged : sshauthopt := mk_opt 0 0 0 1 0 0 1000 0 None (-1) (o_force_command demo_opts) [str "A=b"] [str "host:22"] [] None (Some (str "10.0.0.0/8")).
Definition demo_key : sshauthopt := mk_opt 1 1 1 1 1 0 5000 0 None (-1) None [] [] [] None (Some (str "10.0.0.0/8")).
Lemma merge_restricts_witness : o_pty demo_merged = 1 /\ o_port_forwarding demo_merged <> 1 /\
  o_from_host_keys demo_merged = o_from_host_keys demo_key /\ o_valid_before demo_merged = o_valid_before demo_opts.
Proof.
  destruct (@merge_restricts demo_heap demo_opts demo_key demo_merged) as (Hport & _ & _ & Hpty & _ & _ & Hkeys & _ & _ & _ & _ & _ & Hexp); [vm_compute; reflexivity|].
  split_and!; [by apply Hpty|intros Hp%Hport; by destruct Hp|by apply Hkeys|rewrite Hexp; [reflexivity|done..]].
Defined.
Lemma merge_loses_expiry_witness : exists r, @sshauthopt_merge demo_heap (set_valid_before 0 demo_opts) demo_key = Some r /\ o_valid_before r = 0.
Proof.
  eexists. split; [vm_compute; reflexivity|]. refine (@merge_loses_expiry demo_heap (set_valid_before 0 demo_opts) demo_key _ _ _ _); [vm_compute; reflexivity|reflexivity|vm_compute; discriminate].
Defined.
