(* ===== verification/AuthLists.v ===== *)
(** * Lists of authentication methods: openssh/auth2.c

    The configuration may require several methods, in any of several orders
    (AuthenticationMethods).  A list is a text of method names, some with a
    submethod after a colon, separated by commas; after a method has succeeded
    its name is removed from the front of every list that begins with it, and
    the user is authenticated when a list is empty.

    The specification reads a list as a sequence of requirements
    ([requirements]) and removal as taking the first one away ([satisfy]). *)

From stdpp Require Import list.
From S2P Require Import Prelude Sshbuf Match.

Definition COLON : Z := 58.

(** ** Data *)

(** The fields of ServerOptions that the authentication code reads. *)
Record ServerOptions := mk_options {
  op_pubkey_authentication : bool; op_password_authentication : bool; op_kbd_interactive_authentication : bool;
  op_challenge_response_authentication : bool; op_hostbased_authentication : bool;
  op_permit_root_login : Z; op_permit_empty_passwd : bool; op_use_pam : bool;
  op_auth_methods : list (list Z);
  op_pubkey_key_types : list Z; op_hostbased_key_types : list Z;
  op_match_strings : list (list Z)
}.
(** sshpam_set_maxtries_reached switches methods off. *)
Definition disable_passwords (o : ServerOptions) : ServerOptions :=
  mk_options (op_pubkey_authentication o) false false false (op_hostbased_authentication o)
    (op_permit_root_login o) (op_permit_empty_passwd o) (op_use_pam o) (op_auth_methods o)
    (op_pubkey_key_types o) (op_hostbased_key_types o) (op_match_strings o).

Inductive auth_name := M_none | M_publickey | M_password | M_kbdint | M_hostbased.
Definition method_name (m : auth_name) : list Z :=
  match m with
  | M_none => str "none" | M_publickey => str "publickey" | M_password => str "password"
  | M_kbdint => str "keyboard-interactive" | M_hostbased => str "hostbased"
  end.
Definition authmethods : list auth_name := [M_none; M_publickey; M_password; M_kbdint; M_hostbased].

Definition MATCH_NONE : Z := 0.
Definition MATCH_METHOD : Z := 1.
Definition MATCH_BOTH : Z := 2.
Definition MATCH_PARTIAL : Z := 3.

(** ** Operations *)

(** *(authmethods[i]->enabled) *)
Definition method_enabled (o : ServerOptions) (none_enabled : bool) (m : auth_name) : bool :=
  match m with
  | M_none => none_enabled
  | M_publickey => op_pubkey_authentication o
  | M_password => op_password_authentication o
  | M_kbdint => op_kbd_interactive_authentication o
  | M_hostbased => op_hostbased_authentication o
  end.

(** strncmp(s, p, strlen(p)) == 0 and the text after the prefix. *)
Fixpoint strip_prefix (s p : list Z) {struct p} : option (list Z) :=
  match p with
  | [] => Some s
  | c :: p' => match s with d :: s' => if d =? c then strip_prefix s' p' else None | [] => None end
  end.
Definition ends_here (p : list Z) : bool := match p with [] => true | c :: _ => c =? COMMA end.

Definition list_starts_with (methods method : list Z) (submethod : option (list Z)) : Z :=
  match strip_prefix methods method with
  | None => MATCH_NONE
  | Some p =>
      match p with
      | c :: p' =>
          if c =? COLON then
            match submethod with
            | None => MATCH_PARTIAL
            | Some sub =>
                match strip_prefix p' sub with
                | None => MATCH_NONE
                | Some p => if ends_here p then MATCH_BOTH else MATCH_NONE
                end
            end
          else if ends_here p then MATCH_METHOD else MATCH_NONE
      | [] => MATCH_METHOD
      end
  end.

(** [None]: 0 is returned and the list is as it was. *)
Definition remove_method (methods method : list Z) (submethod : option (list Z)) : option (list Z) :=
  let match_ := list_starts_with methods method submethod in
  if negb (match_ =? MATCH_METHOD) && negb (match_ =? MATCH_BOTH) then None
  else
    let p := drop (length method) methods in
    let p := match submethod with Some sub => if match_ =? MATCH_BOTH then drop (1 + length sub) p else p | None => p end in
    Some (match p with c :: p' => if c =? COMMA then p' else p | [] => p end).

(** The lists after the loop, whether one begins with the method, and whether
    one is complete (the loop ends there). *)
Fixpoint update_lists (ls : list (list Z)) (method : list Z) (submethod : option (list Z)) : list (list Z) * bool * bool :=
  match ls with
  | [] => ([], false, false)
  | l :: ls' =>
      match remove_method l method submethod with
      | None => let '(ls', found, done) := update_lists ls' method submethod in (l :: ls', found, done)
      | Some l' =>
          if bool_decide (l' = []) then (l' :: ls', true, true)
          else let '(ls', _, done) := update_lists ls' method submethod in (l' :: ls', true, done)
      end
  end.

(** [None]: the method is in no list, and the process ends. *)
Definition auth2_update_methods_lists (ls : list (list Z)) (method : list Z) (submethod : option (list Z)) : option (list (list Z) * bool) :=
  let '(ls', found, complete) := update_lists ls method submethod in
  if complete then Some (ls', true) else if found then Some (ls', false) else None.

Definition auth2_method_allowed (o : ServerOptions) (auth_methods : list (list Z)) (method : list Z) (submethod : option (list Z)) : bool :=
  if bool_decide (op_auth_methods o = []) then true
  else existsb (fun l => negb (list_starts_with l method submethod =? MATCH_NONE)) auth_methods.

(** A method of the list, cut at its colon. *)
Fixpoint before_colon (m : list Z) : list Z :=
  match m with [] => [] | c :: m' => if c =? COLON then [] else c :: before_colon m' end.
(** The loop over authmethods: found, and enabled if that is needed. *)
Fixpoint method_known (o : ServerOptions) (none_enabled need_enable : bool) (ms : list auth_name) (method : list Z) : bool :=
  match ms with
  | [] => false
  | m :: ms' =>
      if bytes_eqb method (method_name m) then negb need_enable || method_enabled o none_enabled m
      else method_known o none_enabled need_enable ms' method
  end.
Definition auth2_methods_valid (o : ServerOptions) (none_enabled : bool) (_methods : list Z) (need_enable : bool) : bool :=
  match _methods with
  | [] => false
  | _ => forallb (fun method => method_known o none_enabled need_enable authmethods (before_colon method)) (tokens _methods)
  end.
(** authctxt->auth_methods, and the code. *)
Definition auth2_setup_methods_lists (o : ServerOptions) (none_enabled : bool) (before : list (list Z)) : list (list Z) * Z :=
  if bool_decide (op_auth_methods o = []) then (before, 0)
  else
    let ls := List.filter (fun l => auth2_methods_valid o none_enabled l true) (op_auth_methods o) in
    (ls, if bool_decide (ls = []) then -1 else 0).

(** ** Specification *)

(** What a list still requires, and what a method that succeeded provides. *)
Definition requirements (l : list Z) : list (list Z) := match l with [] => [] | _ => tokens l end.
Definition provides (method : list Z) (submethod : option (list Z)) (req : list Z) : bool :=
  bytes_eqb req method || match submethod with Some sub => bytes_eqb req (method ++ COLON :: sub) | None => false end.
Definition satisfy (reqs : list (list Z)) (g : list Z * option (list Z)) : list (list Z) :=
  match reqs with r :: reqs' => if provides g.1 g.2 r then reqs' else reqs | [] => [] end.

(** Names as the table and the devices have them. *)
Definition plain (s : list Z) : Prop := Forall (fun c => c <> COMMA /\ c <> COLON) s.
Definition list_wf (l : list Z) : Prop := Forall (fun t => t <> []) (requirements l).

(** ** Lemmas *)

Lemma strip_prefix_some s p q : strip_prefix s p = Some q <-> s = p ++ q.
Proof.
  revert s. induction p as [|c p IH]; intros s; cbn; [split; [intros [= ->]; done|intros ->; done]|].
  destruct s as [|d s]; [split; done|]. destruct (Z.eqb_spec d c) as [->|]; [rewrite IH; split; [intros ->; done|intros [= ->]; done]|].
  split; [done|]. intros [= ? _]. congruence.
Qed.
Lemma strip_prefix_app p q : strip_prefix (p ++ q) p = Some q.
Proof. by apply strip_prefix_some. Qed.

(** The first token of a list, and the rest. *)
Lemma first_token l : exists t, Forall (fun c => c <> COMMA) t /\
  ((l = t /\ tokens l = [t]) \/ exists r, l = t ++ COMMA :: r /\ tokens l = t :: tokens r).
Proof.
  induction l as [|c l (t & Ht & IH)]; [exists []; split; [constructor|by left]|].
  destruct (Z.eqb_spec c COMMA) as [->|Hc].
  { exists []. split; [constructor|]. right. exists l. split; [done|]. cbn. done. }
  exists (c :: t). split; [by constructor|]. destruct IH as [[-> E]|(r & -> & E)]; [left|right; exists r]; (split; [done|]); cbn [tokens app];
    rewrite (proj2 (Z.eqb_neq _ _)), E by done; done.
Qed.

Lemma plain_no_comma s : plain s -> Forall (fun c => c <> COMMA) s.
Proof. intros Hs. eapply Forall_impl; [exact Hs|]. by intros c [? _]. Qed.

(** A name without commas that is at the front of [t ++ tail] is at the front
    of the token [t]. *)
Definition token_end (tail : list Z) : Prop := tail = [] \/ exists r, tail = COMMA :: r.
Lemma prefix_within t tail m p : Forall (fun c => c <> COMMA) m -> token_end tail -> t ++ tail = m ++ p -> exists q, t = m ++ q /\ p = q ++ tail.
Proof.
  intros Hm Htail E. apply app_eq_inv in E as [(k & -> & ->)|(k & -> & E)]; [by exists k|]. exists [].
  rewrite app_nil_r. destruct k as [|c k]; [by rewrite app_nil_r in *|]. exfalso. apply Forall_app in Hm as [_ Hm]. apply Forall_cons_1 in Hm as [Hc _].
  destruct Htail as [->|[r ->]]; [done|]. by injection E as <-.
Qed.
Lemma ends_at_token tail : token_end tail -> ends_here tail = true.
Proof. by intros [->|[r ->]]. Qed.

Lemma starts_with_spec t tail m sub : Forall (fun c => c <> COMMA) t -> token_end tail -> plain m -> from_option plain True sub ->
  (t = m /\ list_starts_with (t ++ tail) m sub = MATCH_METHOD) \/
  (exists s, sub = Some s /\ t = m ++ COLON :: s /\ list_starts_with (t ++ tail) m sub = MATCH_BOTH) \/
  (provides m sub t = false /\ list_starts_with (t ++ tail) m sub <> MATCH_METHOD /\ list_starts_with (t ++ tail) m sub <> MATCH_BOTH).
Proof.
  intros Ht Htail Hm Hs. unfold list_starts_with, provides.
  destruct (strip_prefix (t ++ tail) m) as [p|] eqn:E.
  2:{ right; right. split; [|done]. destruct (bytes_eqb t m) eqn:Em; [apply bytes_eqb_eq in Em as ->; by rewrite strip_prefix_app in E|]. cbn.
      destruct sub as [s|]; [|done]. apply bytes_eqb_neq. intros ->. by rewrite <- app_assoc, strip_prefix_app in E. }
  apply strip_prefix_some in E. destruct (prefix_within t tail m p) as (q & -> & ->); [by apply plain_no_comma|done..|]. clear E.
  destruct q as [|c q].
  { left. rewrite app_nil_r. split; [done|]. destruct Htail as [->|[r ->]]; done. }
  right. assert (Hq : bytes_eqb (m ++ c :: q) m = false).
  { apply bytes_eqb_neq. intros Hl. apply (f_equal length) in Hl. rewrite length_app in Hl. cbn in Hl. lia. }
  rewrite Hq. apply Forall_app in Ht as [_ Ht]. apply Forall_cons_1 in Ht as [Hc Ht]. cbn [app orb].
  destruct (Z.eqb_spec c COLON) as [->|Hcol].
  2:{ right. cbn [ends_here]. rewrite (proj2 (Z.eqb_neq _ _)) by done. split; [|done]. destruct sub as [s|]; [|done]. apply bytes_eqb_neq.
      intros El. apply app_inj_1 in El as [_ El]; [|done]. congruence. }
  destruct sub as [s|]; [|by right]. destruct (strip_prefix (q ++ tail) s) as [p|] eqn:E.
  2:{ right. split; [|done]. apply bytes_eqb_neq. intros El. apply app_inj_1 in El as [_ El]; [|done]. injection El as ->. by rewrite strip_prefix_app in E. }
  apply strip_prefix_some in E. destruct (prefix_within q tail s p) as (k & -> & ->); [by apply plain_no_comma|done..|].
  destruct k as [|d k]; [left; exists s; rewrite app_nil_r; cbn [app]; by rewrite ends_at_token|]. right.
  apply Forall_app in Ht as [_ Ht]. apply Forall_cons_1 in Ht as [Hd _]. cbn [app ends_here]. rewrite (proj2 (Z.eqb_neq _ _)) by done.
  split; [|done]. apply bytes_eqb_neq. intros El. apply (f_equal length) in El. rewrite !length_app in El. cbn in El. rewrite length_app in El. cbn in El. lia.
Qed.

Lemma requirements_first l : l <> [] -> list_wf l -> exists t tail, l = t ++ tail /\ Forall (fun c => c <> COMMA) t /\ token_end tail /\
  requirements l = t :: requirements (drop 1 tail) /\ list_wf (drop 1 tail).
Proof.
  intros Hl Hw. destruct (first_token l) as (t & Ht & [[-> E]|(r & -> & E)]).
  - exists t, []. rewrite app_nil_r. split_and!; [done|done|by left| |constructor]. by destruct t.
  - exists t, (COMMA :: r). assert (Er : requirements (t ++ COMMA :: r) = t :: tokens r) by (rewrite <- E; by destruct t).
    unfold list_wf in Hw. rewrite Er in Hw. apply Forall_cons_1 in Hw as [_ Hw]. cbn [drop]. rewrite drop_0.
    assert (Hr : requirements r = tokens r) by (destruct r; [by apply Forall_cons_1 in Hw as [? _]|done]).
    split_and!; [done|done|right; by exists r|by rewrite Er, Hr|]. unfold list_wf. by rewrite Hr.
Qed.

(** remove_method takes the first requirement away if the method provides it. *)
Lemma remove_method_spec l m sub : list_wf l -> plain m -> m <> [] -> from_option plain True sub ->
  match remove_method l m sub with
  | None => satisfy (requirements l) (m, sub) = requirements l
  | Some l' => requirements l' = satisfy (requirements l) (m, sub) /\ list_wf l'
  end.
Proof.
  intros Hw Hm Hn Hs. destruct (decide (l = [])) as [->|Hl].
  { destruct m as [|c m]; [done|]. done. }
  destruct (requirements_first l Hl Hw) as (t & tail & -> & Ht & Htail & -> & Hwt). unfold remove_method, satisfy. cbn [fst snd].
  assert (Hdrop : forall p, token_end p -> match p with c :: p' => if c =? COMMA then p' else p | [] => p end = drop 1 p) by (by intros p [->|[r ->]]).
  destruct (starts_with_spec t tail m sub Ht Htail Hm Hs) as [[-> ->]|[(s & -> & -> & ->)|(Hp & H1 & H2)]].
  - cbn [Z.eqb negb andb]. unfold provides. rewrite bytes_eqb_refl. cbn [orb].
    replace (match sub with Some sub0 => _ | None => _ end) with (drop (length m) (m ++ tail)) by (by destruct sub).
    rewrite drop_app_length. by rewrite Hdrop.
  - cbn [Z.eqb negb andb]. unfold provides. rewrite bytes_eqb_refl, orb_true_r. rewrite <- app_assoc, drop_app_length. cbn [app drop length plus].
    rewrite drop_app_length. by rewrite Hdrop.
  - rewrite Hp. by rewrite (proj2 (Z.eqb_neq _ MATCH_METHOD)), (proj2 (Z.eqb_neq _ MATCH_BOTH)) by done.
Qed.

(** ** Progress through the lists *)

(** What is left of the list [l0] when the methods [gs] have succeeded, in this
    order: requirements were taken away for some of them. *)
Definition progress (l0 : list Z) (gs : list (list Z * option (list Z))) (l : list Z) : Prop :=
  list_wf l /\ exists gs', gs' `sublist_of` gs /\ requirements l = foldl satisfy (requirements l0) gs'.
(** The methods [gs] fulfil the list [l0]. *)
Definition fulfils (gs : list (list Z * option (list Z))) (l0 : list Z) : Prop :=
  exists gs', gs' `sublist_of` gs /\ foldl satisfy (requirements l0) gs' = [].

Lemma progress_refl l gs : list_wf l -> progress l gs l.
Proof. intros. split; [done|]. exists []. split; [apply sublist_nil_l|done]. Qed.
Lemma progress_more l0 gs g l : progress l0 gs l -> progress l0 (gs ++ [g]) l.
Proof. intros [Hw (gs' & Hs & E)]. split; [done|]. exists gs'. split; [|done]. by apply sublist_inserts_r. Qed.
Lemma progress_step l0 gs m sub l l' : progress l0 gs l -> plain m -> m <> [] -> from_option plain True sub ->
  remove_method l m sub = Some l' -> progress l0 (gs ++ [(m, sub)]) l'.
Proof.
  intros [Hw (gs' & Hs & E)] Hm Hn Hsub Hr. pose proof (remove_method_spec l m sub Hw Hm Hn Hsub) as Hspec. rewrite Hr in Hspec.
  destruct Hspec as [Er Hw']. split; [done|]. exists (gs' ++ [(m, sub)]). split; [by apply sublist_app|]. by rewrite foldl_app, <- E, Er.
Qed.
Lemma progress_done l0 gs : progress l0 gs [] -> fulfils gs l0.
Proof. intros [_ (gs' & Hs & E)]. by exists gs'. Qed.

Lemma update_lists_progress cfg ls gs m sub : plain m -> m <> [] -> from_option plain True sub ->
  Forall2 (fun l0 l => progress l0 gs l) cfg ls ->
  let '(ls', found, complete) := update_lists ls m sub in
  Forall2 (fun l0 l => progress l0 (gs ++ [(m, sub)]) l) cfg ls' /\ (complete = true -> Exists (fulfils (gs ++ [(m, sub)])) cfg).
Proof.
  intros Hm Hn Hsub. induction 1 as [|l0 l cfg ls Hp Hps IH]; cbn [update_lists]; [by split; [constructor|]|].
  destruct (remove_method l m sub) as [l'|] eqn:Er.
  - pose proof (progress_step _ _ _ _ _ _ Hp Hm Hn Hsub Er) as Hp'. case_bool_decide as Hl'.
    + subst l'. split; [constructor; [done|]|intros _; left; by apply progress_done].
      eapply Forall2_impl; [exact Hps|]. intros. by apply progress_more.
    + destruct (update_lists ls m sub) as [[ls' found] complete]. destruct IH as [IH1 IH2]. split; [by constructor|]. intros Hc. right. by apply IH2.
  - destruct (update_lists ls m sub) as [[ls' found] complete]. destruct IH as [IH1 IH2]. split; [constructor; [by apply progress_more|done]|]. intros Hc. right. by apply IH2.
Qed.

(** A list that auth2_methods_valid accepts has no empty requirement. *)
Lemma methods_valid_wf o none l : auth2_methods_valid o none l true = true -> list_wf l.
Proof.
  unfold auth2_methods_valid, list_wf, requirements. destruct l as [|c l]; [done|]. rewrite forallb_forall. intros H.
  apply Forall_forall. intros t Ht. intros ->. specialize (H [] (proj1 (list_elem_of_In _ _) Ht)). by vm_compute in H.
Qed.
Lemma method_known_enabled o none ms method : method_known o none true ms method = true ->
  exists m, m ∈ ms /\ method = method_name m /\ method_enabled o none m = true.
Proof.
  induction ms as [|m ms IH]; cbn; [done|]. destruct (bytes_eqb method (method_name m)) eqn:E.
  - apply bytes_eqb_eq in E as ->. intros Hm. exists m. split; [left|done].
  - intros (m' & Hin & Hm)%IH. exists m'. split; [by right|done].
Qed.
Lemma setup_lists_spec o none before ls r : op_auth_methods o <> [] -> auth2_setup_methods_lists o none before = (ls, r) ->
  Forall (fun l => l ∈ op_auth_methods o /\ auth2_methods_valid o none l true = true /\ list_wf l) ls.
Proof.
  intros Ho. unfold auth2_setup_methods_lists. rewrite bool_decide_eq_false_2 by done. intros [= <- _]. apply Forall_forall. intros l Hl.
  apply list_elem_of_In in Hl. rewrite filter_In in Hl. destruct Hl as [Hl Hv]. apply list_elem_of_In in Hl. split_and!; [done..|]. by eapply methods_valid_wf.
Qed.

(** ** The lists together *)

(** The methods that succeed, one after the other, until a list is complete. *)
Fixpoint run_methods (ls : list (list Z)) (gs : list (list Z * option (list Z))) : option bool :=
  match gs with
  | [] => Some false
  | g :: gs' =>
      match auth2_update_methods_lists ls g.1 g.2 with
      | None => None
      | Some (ls', complete) => if complete then Some true else run_methods ls' gs'
      end
  end.
Definition grant_ok (g : list Z * option (list Z)) : Prop := plain g.1 /\ g.1 <> [] /\ from_option plain True g.2.
(** A list that is not complete yet. *)
Definition incomplete (l : list Z) : Prop := list_wf l /\ l <> [].
Definition meets (g : list Z * option (list Z)) (r : list Z) : Prop := provides g.1 g.2 r = true.

Lemma requirements_nil l : requirements l = [] <-> l = [].
Proof. split; [|by intros ->]. destruct (first_token l) as (t & _ & [[_ E]|(r & _ & E)]); destruct l; cbn [requirements]; rewrite ?E; done. Qed.
Lemma foldl_satisfy_nil gs : foldl satisfy [] gs = [].
Proof. by induction gs. Qed.

Lemma remove_pending l g : incomplete l -> grant_ok g ->
  match remove_method l g.1 g.2 with
  | None => satisfy (requirements l) g = requirements l /\ requirements l <> []
  | Some l' => requirements l' = satisfy (requirements l) g /\ list_wf l'
  end.
Proof.
  intros [Hw Hl] (Hm & Hn & Hs). pose proof (remove_method_spec l g.1 g.2 Hw Hm Hn Hs) as H. destruct g as [m sub]; cbn [fst snd] in *.
  destruct (remove_method l m sub); [done|]. split; [done|]. by rewrite requirements_nil.
Qed.

(** A step completes a list exactly if it provides the last requirement of one;
    otherwise every list has lost the requirement that the method provides.  It
    is found if it provides the first requirement of a list. *)
Lemma update_lists_step ls g : Forall incomplete ls -> grant_ok g ->
  let '(ls', found, complete) := update_lists ls g.1 g.2 in
  (complete = true <-> Exists (fun l => satisfy (requirements l) g = []) ls) /\
  (Exists (fun l => satisfy (requirements l) g <> requirements l) ls -> found = true) /\
  (complete = false -> Forall2 (fun l l' => incomplete l' /\ requirements l' = satisfy (requirements l) g) ls ls').
Proof.
  intros Hls Hg. induction Hls as [|l ls Hl Hls IH]; cbn [update_lists].
  { rewrite !Exists_nil. split_and!; [done..|by constructor]. }
  pose proof (remove_pending l g Hl Hg) as Hr. destruct (remove_method l g.1 g.2) as [l'|].
  - destruct Hr as [Er Hw]. case_bool_decide as Hn.
    { subst l'. rewrite !Exists_cons. split_and!; [|done|done]. split; [intros _; left; by rewrite <- Er|done]. }
    destruct (update_lists ls g.1 g.2) as [[ls' f] complete]. destruct IH as (IH1 & IH2 & IH3). rewrite !Exists_cons, <- Er, requirements_nil. split_and!; [tauto|done|].
    intros Hc. constructor; [by split_and!|by apply IH3].
  - destruct Hr as [Er Hn]. destruct (update_lists ls g.1 g.2) as [[ls' f] complete]. destruct IH as (IH1 & IH2 & IH3). rewrite !Exists_cons, Er. split_and!; [tauto|tauto|].
    intros Hc. constructor; [by split|by apply IH3].
Qed.

Lemma pending_after ls ls' g : Forall2 (fun l l' => incomplete l' /\ requirements l' = satisfy (requirements l) g) ls ls' -> Forall incomplete ls'.
Proof. induction 1 as [|l l' ls ls' [? _] _ IH]; by constructor. Qed.

Lemma run_methods_sound gs : Forall grant_ok gs -> forall ls, Forall incomplete ls ->
  run_methods ls gs = Some true -> Exists (fun l => foldl satisfy (requirements l) gs = []) ls.
Proof.
  induction 1 as [|g gs Hg Hgs IH]; intros ls Hls; cbn [run_methods foldl]; [done|]. unfold auth2_update_methods_lists.
  pose proof (update_lists_step ls g Hls Hg) as Hstep. destruct (update_lists ls g.1 g.2) as [[ls' f] complete]. destruct Hstep as (H1 & _ & H3).
  destruct complete.
  - intros _. eapply Exists_impl; [by apply H1|]. intros l E. cbn in E. rewrite E. apply foldl_satisfy_nil.
  - destruct f; [|done]. intros Hrun. specialize (H3 eq_refl). pose proof (IH ls' (pending_after _ _ _ H3) Hrun) as HE.
    clear -H3 HE. induction H3 as [|l l' ls ls' [_ E] _ IH]; [by apply Exists_nil in HE|]. apply Exists_cons in HE. apply Exists_cons. rewrite <- E. tauto.
Qed.

Lemma run_methods_complete gs : Forall grant_ok gs -> forall ls l, Forall incomplete ls -> l ∈ ls ->
  Forall2 meets gs (requirements l) -> run_methods ls gs = Some true.
Proof.
  induction 1 as [|g gs Hg Hgs IH]; intros ls l Hls Hin Hm; inversion Hm as [HE Hr|? r ? rs Hp Hps HE Hr]; subst.
  { symmetry in Hr. rewrite requirements_nil in Hr. rewrite Forall_forall in Hls. by destruct (Hls l Hin). }
  cbn [run_methods]. unfold auth2_update_methods_lists. symmetry in Hr. assert (Es : satisfy (requirements l) g = rs) by (rewrite Hr; cbn; by rewrite Hp).
  pose proof (update_lists_step ls g Hls Hg) as Hstep. destruct (update_lists ls g.1 g.2) as [[ls' f] complete]. destruct Hstep as (H1 & H2 & H3).
  destruct complete; [done|]. rewrite H2 by (apply Exists_exists; exists l; split; [done|]; rewrite Es, Hr; intros E; apply (f_equal length) in E; cbn in E; lia).
  specialize (H3 eq_refl). apply list_elem_of_lookup in Hin as [i Hi]. destruct (Forall2_lookup_l _ _ _ _ _ H3 Hi) as (l' & Hi' & _ & E).
  eapply (IH ls' l'); [by eapply pending_after|by eapply list_elem_of_lookup_2|]. by rewrite E, Es.
Qed.

Lemma setup_lists_pending o none before ls r : op_auth_methods o <> [] -> auth2_setup_methods_lists o none before = (ls, r) -> Forall incomplete ls.
Proof.
  intros Ho E. eapply Forall_impl; [by eapply setup_lists_spec|]. intros l (_ & Hv & Hw). split; [done|]. by intros ->.
Qed.

(** A requirement whose method the configuration enables: its name, or its name
    and a submethod after a colon. *)
Definition switched_on (o : ServerOptions) (none : bool) (name : list Z) : Prop :=
  (name = str "none" /\ none = true) \/
  (name = str "publickey" /\ op_pubkey_authentication o = true) \/
  (name = str "password" /\ op_password_authentication o = true) \/
  (name = str "keyboard-interactive" /\ op_kbd_interactive_authentication o = true) \/
  (name = str "hostbased" /\ op_hostbased_authentication o = true).
Definition usable (o : ServerOptions) (none : bool) (req : list Z) : Prop :=
  exists name, switched_on o none name /\ (req = name \/ exists sub, req = name ++ COLON :: sub).
Definition usable_list (o : ServerOptions) (none : bool) (l : list Z) : Prop := l <> [] /\ Forall (usable o none) (requirements l).

Lemma before_colon_app name sub : Forall (fun c => c <> COLON) name -> before_colon (name ++ COLON :: sub) = name.
Proof. induction 1 as [|c l Hc _ IH]; cbn; [done|]. by rewrite (proj2 (Z.eqb_neq _ _) Hc), IH. Qed.
Lemma before_colon_split req : req = before_colon req \/ exists sub, req = before_colon req ++ COLON :: sub.
Proof.
  induction req as [|c req IH]; cbn; [by left|]. destruct (Z.eqb_spec c COLON) as [->|]; [right; by exists req|].
  destruct IH as [E|[sub E]]; [left; by rewrite <- E|right; exists sub; cbn; by rewrite <- E].
Qed.
Lemma method_known_switched o none m : method_known o none true authmethods m = true <-> switched_on o none m.
Proof.
  unfold switched_on, authmethods. cbn [method_known method_name method_enabled negb orb].
  destruct (bytes_eqb m (str "none")) eqn:E1; [apply bytes_eqb_eq in E1 as ->; split; [by left|by intros [[_ ?]|[[? _]|[[? _]|[[? _]|[? _]]]]]]|].
  destruct (bytes_eqb m (str "publickey")) eqn:E2; [apply bytes_eqb_eq in E2 as ->; split; [by right; left|by intros [[? _]|[[_ ?]|[[? _]|[[? _]|[? _]]]]]]|].
  destruct (bytes_eqb m (str "password")) eqn:E3; [apply bytes_eqb_eq in E3 as ->; split; [by right; right; left|by intros [[? _]|[[? _]|[[_ ?]|[[? _]|[? _]]]]]]|].
  destruct (bytes_eqb m (str "keyboard-interactive")) eqn:E4; [apply bytes_eqb_eq in E4 as ->; split; [by do 3 right; left|by intros [[? _]|[[? _]|[[? _]|[[_ ?]|[? _]]]]]]|].
  destruct (bytes_eqb m (str "hostbased")) eqn:E5; [apply bytes_eqb_eq in E5 as ->; split; [by do 4 right|by intros [[? _]|[[? _]|[[? _]|[[? _]|[_ ?]]]]]]|].
  split; [done|]. intros [[-> _]|[[-> _]|[[-> _]|[[-> _]|[-> _]]]]]; exfalso;
    [revert E1|revert E2|revert E3|revert E4|revert E5]; apply not_false_iff_true; by apply bytes_eqb_eq.
Qed.
Lemma switched_plain o none name : switched_on o none name -> Forall (fun c => c <> COLON) name.
Proof.
  assert (Hb : forall l, forallb (fun c => negb (c =? COLON)) l = true -> Forall (fun c => c <> COLON) l).
  { intros l Hl. rewrite forallb_forall in Hl. apply List.Forall_forall. intros c Hc. specialize (Hl c Hc). by apply negb_true_iff, Z.eqb_neq in Hl. }
  intros [[-> _]|[[-> _]|[[-> _]|[[-> _]|[-> _]]]]]; by apply Hb.
Qed.
Lemma known_usable o none req : method_known o none true authmethods (before_colon req) = true <-> usable o none req.
Proof.
  rewrite method_known_switched. split.
  - intros Hs. exists (before_colon req). split; [done|]. apply before_colon_split.
  - intros (name & Hs & E). pose proof (switched_plain _ _ _ Hs) as Hp. destruct E as [->|[sub ->]]; [|by rewrite before_colon_app].
    destruct (before_colon_split name) as [<-|[sub E]]; [done|]. exfalso. rewrite E in Hp. apply Forall_app in Hp as [_ Hp]. by apply Forall_cons_1 in Hp as [? _].
Qed.
Lemma methods_valid_usable o none l : auth2_methods_valid o none l true = true <-> usable_list o none l.
Proof.
  unfold auth2_methods_valid, usable_list, requirements. destruct l as [|c l]; [split; [done|by intros [? _]]|].
  rewrite forallb_forall, List.Forall_forall. split; [intros H; split; [done|]|intros [_ H]]; intros x Hx; apply known_usable, H, Hx.
Qed.

(** C23: With required methods configured (AuthenticationMethods), a sequence of
    methods that succeed completes the authentication only if they fulfil, in
    its order, one of the configured lists whose methods are all enabled by the
    configuration (without PAM's later changes to it); and the methods of such a
    list, one after the other and each with the submethod that the list names, do
    complete it.  Names of methods and submethods have no comma and no colon. *)
Theorem required_methods_enforced o none before ls r gs :
  op_auth_methods o <> [] -> auth2_setup_methods_lists o none before = (ls, r) -> Forall grant_ok gs ->
  (run_methods ls gs = Some true ->
   exists l, l ∈ op_auth_methods o /\ usable_list o none l /\ foldl satisfy (requirements l) gs = []) /\
  (forall l, l ∈ op_auth_methods o -> usable_list o none l -> Forall2 meets gs (requirements l) -> run_methods ls gs = Some true).
Proof.
  intros Ho Hs Hgs. pose proof (setup_lists_pending _ _ _ _ _ Ho Hs) as Hp. pose proof (setup_lists_spec _ _ _ _ _ Ho Hs) as Hls. split.
  - intros Hrun. apply (run_methods_sound _ Hgs _ Hp), Exists_exists in Hrun as (l & Hin & E). rewrite Forall_forall in Hls.
    destruct (Hls l Hin) as (? & Hv & _). exists l. split; [done|]. split; [by apply methods_valid_usable|done].
  - intros l Hin Hv%methods_valid_usable Hm. apply (run_methods_complete gs Hgs ls l Hp); [|done]. unfold auth2_setup_methods_lists in Hs.
    rewrite bool_decide_eq_false_2 in Hs by done. injection Hs as <- _. apply list_elem_of_In, filter_In. by rewrite <- list_elem_of_In.
Qed.

Definition demo_options : ServerOptions :=
  mk_options true true true true false 0 false true [str "publickey,keyboard-interactive:pam"; str "hostbased"; str "publickey,password"] [] [] [].
Definition demo_grants : list (list Z * option (list Z)) := [(str "publickey", None); (str "keyboard-interactive", Some (str "pam"))].
Lemma demo_grants_ok : Forall grant_ok demo_grants.
Proof. repeat constructor; try done; vm_compute; intros; discriminate. Qed.
Lemma required_methods_enforced_witness : run_methods (auth2_setup_methods_lists demo_options false []).1 demo_grants = Some true.
Proof.
  apply (required_methods_enforced demo_options false [] _ _ demo_grants ltac:(done) (surjective_pairing _) demo_grants_ok) with (l := str "publickey,keyboard-interactive:pam").
  - left.
  - apply methods_valid_usable. by vm_compute.
  - replace (requirements _) with [str "publickey"; str "keyboard-interactive:pam"] by (by vm_compute). repeat constructor; by vm_compute.
Defined.
