(* ===== verification/Monitor.v ===== *)
(** * The privileged side of authentication: openssh/monitor.c

    sshd answers a client in an unprivileged process; what needs privileges
    (looking up the user, checking a password, asking PAM, checking a signature,
    signing with the host key) is done by the monitor, which reads requests from
    that process and must not trust it.  monitor_child_preauth runs until one
    of the requests has authenticated the user.  With it are modelled what it
    calls of monitor_wrap.c (messages), auth-passwd.c, auth-pam.c (with PAM's
    own process at the other end of a socket), auth.c and auth2.c.

    The child is any sequence of bytes on the socket.  What the monitor asks of
    the system and of other parts of sshd is a parameter with any answers
    ([MonEnv]): the user data base, PAM, crypt, the shadow file, the checks of
    keys against authorized_keys and known hosts, signatures, the moduli file,
    the socket.  Keys are [SshKeys].  The answers that matter are kept in a
    trace.  Log lines and freeing are left out.

    The state is in two parts: what decides about authentication ([mcore]) and
    sockets, messages and the number of questions asked ([mio]).  The process
    ends in a value of [mstop]. *)

From stdpp Require Import list.
From S2P Require Import Prelude CText Sshbuf Match ChachaPoly AddrMatch PacketSend Kex AuthOpts AuthLists.

(** ** Parameters *)

Record passwd := mk_passwd { pw_name : list Z; pw_passwd : list Z; pw_uid : Z; pw_gecos : list Z; pw_dir : list Z; pw_shell : list Z }.

Class SshKeys := {
  sshkey : Type;
  sshkey_from_blob : list Z -> Z + sshkey;
  sshkey_to_blob : sshkey -> Z + list Z;
  sshkey_demote : sshkey -> Z + sshkey;
  sshkey_ssh_name : sshkey -> list Z;
  sshkey_is_rsa : sshkey -> bool;
  sshkey_equal_public : sshkey -> sshkey -> bool;
  sshkey_format_text : sshkey -> option (list Z)
}.

(** What poll reports. *)
Inductive poll_res := Poll_request | Poll_log | Poll_again | Poll_error.

(** The answers of the system and of other parts of sshd; the first argument
    numbers the questions.  getpwnamallow applies the Match blocks of the
    configuration to the options. *)
Class MonEnv `{SshKeys} := {
  getpwnamallow : Z -> ServerOptions -> list Z -> option passwd * ServerOptions;
  privsep_uid : option Z;
  passwd_bytes : passwd -> list Z;
  options_bytes : ServerOptions -> list Z;
  pam_user_is : Z -> list Z -> bool;
  pam_start : Z -> list Z -> Z;
  pam_set_item : Z -> Z;
  pam_authenticate : Z -> option (list Z) -> Z * list (list Z);
  pam_acct_mgmt : Z -> Z;
  pam_process : Z -> bool;
  pam_recv : Z -> option (list Z);
  pam_send : Z -> list Z -> bool;
  shadow_pwexpired : Z -> passwd -> bool;
  shadow_pw : Z -> passwd -> list Z;
  xcrypt : list Z -> option (list Z) -> option (list Z);
  user_key_allowed : Z -> passwd -> sshkey -> Z -> bool * option sshauthopt;
  hostbased_key_allowed : Z -> passwd -> list Z -> list Z -> sshkey -> bool;
  sshkey_verify : sshkey -> list Z -> list Z -> option (list Z) -> Z;
  hostkey_by_index : Z -> option sshkey;
  hostkey_public_by_index : Z -> option sshkey;
  sshkey_sign : Z -> sshkey -> list Z -> list Z -> Z -> Z + list Z;
  agent_sign : Z -> sshkey -> list Z -> list Z -> Z -> Z + list Z;
  auth_sock : Z;
  choose_dh : Z -> Z -> Z -> Z -> option (list Z * list Z);
  auth2_read_banner : Z -> option (list Z);
  log_level_known : Z -> bool;
  datafellows : Z;
  mon_poll : Z -> poll_res;
  mon_read_ok : Z -> bool;
  mon_write_ok : Z -> bool;
  mon_rounds : nat
}.

(** ** Constants *)

Definition PERMIT_NO : Z := 0.
Definition PERMIT_FORCED_ONLY : Z := 1.
Definition PERMIT_NO_PASSWD : Z := 2.
Definition PERMIT_YES : Z := 3.
Definition MAX_PASSWORD_LEN : Z := 1024.
Definition PAM_PROMPT_ECHO_OFF : Z := 1.
Definition PAM_PROMPT_ECHO_ON : Z := 2.
Definition PAM_ERROR_MSG : Z := 3.
Definition PAM_TEXT_INFO : Z := 4.
Definition PAM_SUCCESS : Z := 0.
Definition PAM_AUTH_ERR : Z := 7.
Definition PAM_MAXTRIES : Z := 11.
Definition PAM_NEW_AUTHTOK_REQD : Z := 12.
Definition PAM_ACCT_EXPIRED : Z := 13.
Definition SSH_OLD_SESSIONID : Z := 16.
Definition SSH_BUG_RSASIGMD5 : Z := 8192.
Definition SSH2_MSG_USERAUTH_REQUEST : Z := 50.
Definition MM_NOKEY : Z := 0.
Definition MM_HOSTKEY : Z := 1.
Definition MM_USERKEY : Z := 2.
Definition MON_ISAUTH : Z := 4.
Definition MON_AUTHDECIDE : Z := 8.
Definition MON_ONCE : Z := 16.
Definition MON_ALOG : Z := 32.
Definition MON_AUTH : Z := Z.lor MON_ISAUTH MON_AUTHDECIDE.
Definition MON_PERMIT : Z := 4096.
Definition MONITOR_REQ_MODULI : Z := 0.
Definition MONITOR_ANS_MODULI : Z := 1.
Definition MONITOR_REQ_AUTHSERV : Z := 4.
Definition MONITOR_REQ_SIGN : Z := 6.
Definition MONITOR_ANS_SIGN : Z := 7.
Definition MONITOR_REQ_PWNAM : Z := 8.
Definition MONITOR_ANS_PWNAM : Z := 9.
Definition MONITOR_REQ_AUTH2_READ_BANNER : Z := 10.
Definition MONITOR_ANS_AUTH2_READ_BANNER : Z := 11.
Definition MONITOR_REQ_AUTHPASSWORD : Z := 12.
Definition MONITOR_ANS_AUTHPASSWORD : Z := 13.
Definition MONITOR_REQ_KEYALLOWED : Z := 22.
Definition MONITOR_ANS_KEYALLOWED : Z := 23.
Definition MONITOR_REQ_KEYVERIFY : Z := 24.
Definition MONITOR_ANS_KEYVERIFY : Z := 25.
Definition MONITOR_REQ_KEYEXPORT : Z := 26.
Definition MONITOR_REQ_PAM_START : Z := 100.
Definition MONITOR_REQ_PAM_ACCOUNT : Z := 102.
Definition MONITOR_ANS_PAM_ACCOUNT : Z := 103.
Definition MONITOR_REQ_PAM_INIT_CTX : Z := 104.
Definition MONITOR_ANS_PAM_INIT_CTX : Z := 105.
Definition MONITOR_REQ_PAM_QUERY : Z := 106.
Definition MONITOR_ANS_PAM_QUERY : Z := 107.
Definition MONITOR_REQ_PAM_RESPOND : Z := 108.
Definition MONITOR_ANS_PAM_RESPOND : Z := 109.
Definition MONITOR_REQ_PAM_FREE_CTX : Z := 110.
Definition MONITOR_ANS_PAM_FREE_CTX : Z := 111.

(** ** State *)

Inductive handler :=
  | Mm_moduli | Mm_sign | Mm_pwnamallow | Mm_authserv | Mm_auth2_read_banner | Mm_authpassword
  | Mm_pam_start | Mm_pam_account | Mm_pam_init_ctx | Mm_pam_query | Mm_pam_respond | Mm_pam_free_ctx
  | Mm_keyallowed | Mm_keyverify.
Record mon_table := mk_entry { mt_type : Z; mt_flags : Z; mt_f : handler }.
Definition mon_dispatch_proto20 : list mon_table := [
  mk_entry MONITOR_REQ_MODULI MON_ONCE Mm_moduli;
  mk_entry MONITOR_REQ_SIGN MON_ONCE Mm_sign;
  mk_entry MONITOR_REQ_PWNAM MON_ONCE Mm_pwnamallow;
  mk_entry MONITOR_REQ_AUTHSERV MON_ONCE Mm_authserv;
  mk_entry MONITOR_REQ_AUTH2_READ_BANNER MON_ONCE Mm_auth2_read_banner;
  mk_entry MONITOR_REQ_AUTHPASSWORD MON_AUTH Mm_authpassword;
  mk_entry MONITOR_REQ_PAM_START MON_ONCE Mm_pam_start;
  mk_entry MONITOR_REQ_PAM_ACCOUNT 0 Mm_pam_account;
  mk_entry MONITOR_REQ_PAM_INIT_CTX MON_ONCE Mm_pam_init_ctx;
  mk_entry MONITOR_REQ_PAM_QUERY 0 Mm_pam_query;
  mk_entry MONITOR_REQ_PAM_RESPOND MON_ONCE Mm_pam_respond;
  mk_entry MONITOR_REQ_PAM_FREE_CTX (Z.lor MON_ONCE MON_AUTHDECIDE) Mm_pam_free_ctx;
  mk_entry MONITOR_REQ_KEYALLOWED MON_ISAUTH Mm_keyallowed;
  mk_entry MONITOR_REQ_KEYVERIFY MON_AUTH Mm_keyverify].

Section State.
Context {keys : SshKeys}.

(** What was asked and answered, in order; [EvPassword]: the child has sent a
    password; [EvGrant]: a request that may decide
    has authenticated the user, by a method. *)
Inductive event :=
  | EvUser (user : list Z) (pw : option passwd)
  | EvPassword (password : list Z)
  | EvPamAuth (password : option (list Z)) (res : Z)
  | EvSysAuth (password : list Z) (ok : bool)
  | EvPamInit
  | EvPamQuery (res num : Z)
  | EvPamRespond (answers : list (list Z)) (res : Z)
  | EvKeyAllowed (type : Z) (cuser chost : list Z) (key : sshkey)
  | EvVerify (type : Z) (key : sshkey) (data : list Z) (res : Z)
  | EvAccount (res : Z)
  | EvGrant (method : list Z) (submethod : option (list Z)).

Record Authctxt := mk_ctxt {
  ac_valid : bool;
  ac_attempt : Z;
  ac_failures : Z;
  ac_force_pwchange : bool;
  ac_user : option (list Z);
  ac_service : option (list Z);
  ac_style : option (list Z);
  ac_pw : option passwd;
  ac_auth_methods : list (list Z);
  ac_prev_keys : list sshkey;
  ac_method_key : option sshkey;
  ac_method_info : option (list Z);
  ac_session_info : option sshbuf
}.
Definition set_ac_valid v (r : Authctxt) : Authctxt := mk_ctxt v (ac_attempt r) (ac_failures r) (ac_force_pwchange r) (ac_user r) (ac_service r) (ac_style r) (ac_pw r) (ac_auth_methods r) (ac_prev_keys r) (ac_method_key r) (ac_method_info r) (ac_session_info r).
Definition set_ac_attempt v (r : Authctxt) : Authctxt := mk_ctxt (ac_valid r) v (ac_failures r) (ac_force_pwchange r) (ac_user r) (ac_service r) (ac_style r) (ac_pw r) (ac_auth_methods r) (ac_prev_keys r) (ac_method_key r) (ac_method_info r) (ac_session_info r).
Definition set_ac_failures v (r : Authctxt) : Authctxt := mk_ctxt (ac_valid r) (ac_attempt r) v (ac_force_pwchange r) (ac_user r) (ac_service r) (ac_style r) (ac_pw r) (ac_auth_methods r) (ac_prev_keys r) (ac_method_key r) (ac_method_info r) (ac_session_info r).
Definition set_ac_force_pwchange v (r : Authctxt) : Authctxt := mk_ctxt (ac_valid r) (ac_attempt r) (ac_failures r) v (ac_user r) (ac_service r) (ac_style r) (ac_pw r) (ac_auth_methods r) (ac_prev_keys r) (ac_method_key r) (ac_method_info r) (ac_session_info r).
Definition set_ac_user v (r : Authctxt) : Authctxt := mk_ctxt (ac_valid r) (ac_attempt r) (ac_failures r) (ac_force_pwchange r) v (ac_service r) (ac_style r) (ac_pw r) (ac_auth_methods r) (ac_prev_keys r) (ac_method_key r) (ac_method_info r) (ac_session_info r).
Definition set_ac_service v (r : Authctxt) : Authctxt := mk_ctxt (ac_valid r) (ac_attempt r) (ac_failures r) (ac_force_pwchange r) (ac_user r) v (ac_style r) (ac_pw r) (ac_auth_methods r) (ac_prev_keys r) (ac_method_key r) (ac_method_info r) (ac_session_info r).
Definition set_ac_style v (r : Authctxt) : Authctxt := mk_ctxt (ac_valid r) (ac_attempt r) (ac_failures r) (ac_force_pwchange r) (ac_user r) (ac_service r) v (ac_pw r) (ac_auth_methods r) (ac_prev_keys r) (ac_method_key r) (ac_method_info r) (ac_session_info r).
Definition set_ac_pw v (r : Authctxt) : Authctxt := mk_ctxt (ac_valid r) (ac_attempt r) (ac_failures r) (ac_force_pwchange r) (ac_user r) (ac_service r) (ac_style r) v (ac_auth_methods r) (ac_prev_keys r) (ac_method_key r) (ac_method_info r) (ac_session_info r).
Definition set_ac_auth_methods v (r : Authctxt) : Authctxt := mk_ctxt (ac_valid r) (ac_attempt r) (ac_failures r) (ac_force_pwchange r) (ac_user r) (ac_service r) (ac_style r) (ac_pw r) v (ac_prev_keys r) (ac_method_key r) (ac_method_info r) (ac_session_info r).
Definition set_ac_prev_keys v (r : Authctxt) : Authctxt := mk_ctxt (ac_valid r) (ac_attempt r) (ac_failures r) (ac_force_pwchange r) (ac_user r) (ac_service r) (ac_style r) (ac_pw r) (ac_auth_methods r) v (ac_method_key r) (ac_method_info r) (ac_session_info r).
Definition set_ac_method_key v (r : Authctxt) : Authctxt := mk_ctxt (ac_valid r) (ac_attempt r) (ac_failures r) (ac_force_pwchange r) (ac_user r) (ac_service r) (ac_style r) (ac_pw r) (ac_auth_methods r) (ac_prev_keys r) v (ac_method_info r) (ac_session_info r).
Definition set_ac_method_info v (r : Authctxt) : Authctxt := mk_ctxt (ac_valid r) (ac_attempt r) (ac_failures r) (ac_force_pwchange r) (ac_user r) (ac_service r) (ac_style r) (ac_pw r) (ac_auth_methods r) (ac_prev_keys r) (ac_method_key r) v (ac_session_info r).
Definition set_ac_session_info v (r : Authctxt) : Authctxt := mk_ctxt (ac_valid r) (ac_attempt r) (ac_failures r) (ac_force_pwchange r) (ac_user r) (ac_service r) (ac_style r) (ac_pw r) (ac_auth_methods r) (ac_prev_keys r) (ac_method_key r) (ac_method_info r) v.
Definition zero_ctxt : Authctxt := mk_ctxt false 0 0 false None None None None [] [] None None None.

(** The statics of monitor.c for the key that was allowed last. *)
Record key_state := mk_key_state {
  ks_blob : list Z;
  ks_type : Z;
  ks_opts : option sshauthopt;
  ks_cuser : list Z;
  ks_chost : list Z
}.

(** struct pam_ctxt: its address and what the device has come to. *)
Record pam_ctxt := mk_pam_ctxt { pc_addr : Z; pc_done : Z }.
(** The statics of auth-pam.c and of the PAM handlers: the handle, whether
    sshpam_authctxt is set, the context of the device and sshpam_authok (an
    address; [None] is NULL), the account status, the flags that were saved. *)
Record pam_state := mk_pam {
  p_handle : bool;
  p_authctxt : bool;
  p_ctxt : option pam_ctxt;
  p_authok : option Z;
  p_authenticated : bool;
  p_maxtries : bool;
  p_account : Z;
  p_env : list (list Z);
  p_saved : Z * Z * Z
}.
Definition set_p_handle v (r : pam_state) : pam_state := mk_pam v (p_authctxt r) (p_ctxt r) (p_authok r) (p_authenticated r) (p_maxtries r) (p_account r) (p_env r) (p_saved r).
Definition set_p_authctxt v (r : pam_state) : pam_state := mk_pam (p_handle r) v (p_ctxt r) (p_authok r) (p_authenticated r) (p_maxtries r) (p_account r) (p_env r) (p_saved r).
Definition set_p_ctxt v (r : pam_state) : pam_state := mk_pam (p_handle r) (p_authctxt r) v (p_authok r) (p_authenticated r) (p_maxtries r) (p_account r) (p_env r) (p_saved r).
Definition set_p_authok v (r : pam_state) : pam_state := mk_pam (p_handle r) (p_authctxt r) (p_ctxt r) v (p_authenticated r) (p_maxtries r) (p_account r) (p_env r) (p_saved r).
Definition set_p_authenticated v (r : pam_state) : pam_state := mk_pam (p_handle r) (p_authctxt r) (p_ctxt r) (p_authok r) v (p_maxtries r) (p_account r) (p_env r) (p_saved r).
Definition set_p_maxtries v (r : pam_state) : pam_state := mk_pam (p_handle r) (p_authctxt r) (p_ctxt r) (p_authok r) (p_authenticated r) v (p_account r) (p_env r) (p_saved r).
Definition set_p_account v (r : pam_state) : pam_state := mk_pam (p_handle r) (p_authctxt r) (p_ctxt r) (p_authok r) (p_authenticated r) (p_maxtries r) v (p_env r) (p_saved r).
Definition set_p_env v (r : pam_state) : pam_state := mk_pam (p_handle r) (p_authctxt r) (p_ctxt r) (p_authok r) (p_authenticated r) (p_maxtries r) (p_account r) v (p_saved r).
Definition set_p_saved v (r : pam_state) : pam_state := mk_pam (p_handle r) (p_authctxt r) (p_ctxt r) (p_authok r) (p_authenticated r) (p_maxtries r) (p_account r) (p_env r) v.
Definition new_pam : pam_state := mk_pam false false None None false false (-1) [] (0, 0, 0).

Record mcore := mk_core {
  c_ctxt : Authctxt;
  c_options : ServerOptions;
  c_auth_opts : option sshauthopt;
  c_key : option key_state;
  c_method : list Z;
  c_submethod : option (list Z);
  c_session_id2 : option (list Z);
  c_dispatch : list mon_table;
  c_call_count : Z;
  c_expire_checked : bool;
  c_pam : pam_state;
  c_trace : list event
}.
Definition set_c_ctxt v (r : mcore) : mcore := mk_core v (c_options r) (c_auth_opts r) (c_key r) (c_method r) (c_submethod r) (c_session_id2 r) (c_dispatch r) (c_call_count r) (c_expire_checked r) (c_pam r) (c_trace r).
Definition set_c_options v (r : mcore) : mcore := mk_core (c_ctxt r) v (c_auth_opts r) (c_key r) (c_method r) (c_submethod r) (c_session_id2 r) (c_dispatch r) (c_call_count r) (c_expire_checked r) (c_pam r) (c_trace r).
Definition set_c_auth_opts v (r : mcore) : mcore := mk_core (c_ctxt r) (c_options r) v (c_key r) (c_method r) (c_submethod r) (c_session_id2 r) (c_dispatch r) (c_call_count r) (c_expire_checked r) (c_pam r) (c_trace r).
Definition set_c_key v (r : mcore) : mcore := mk_core (c_ctxt r) (c_options r) (c_auth_opts r) v (c_method r) (c_submethod r) (c_session_id2 r) (c_dispatch r) (c_call_count r) (c_expire_checked r) (c_pam r) (c_trace r).
Definition set_c_method v (r : mcore) : mcore := mk_core (c_ctxt r) (c_options r) (c_auth_opts r) (c_key r) v (c_submethod r) (c_session_id2 r) (c_dispatch r) (c_call_count r) (c_expire_checked r) (c_pam r) (c_trace r).
Definition set_c_submethod v (r : mcore) : mcore := mk_core (c_ctxt r) (c_options r) (c_auth_opts r) (c_key r) (c_method r) v (c_session_id2 r) (c_dispatch r) (c_call_count r) (c_expire_checked r) (c_pam r) (c_trace r).
Definition set_c_session_id2 v (r : mcore) : mcore := mk_core (c_ctxt r) (c_options r) (c_auth_opts r) (c_key r) (c_method r) (c_submethod r) v (c_dispatch r) (c_call_count r) (c_expire_checked r) (c_pam r) (c_trace r).
Definition set_c_dispatch v (r : mcore) : mcore := mk_core (c_ctxt r) (c_options r) (c_auth_opts r) (c_key r) (c_method r) (c_submethod r) (c_session_id2 r) v (c_call_count r) (c_expire_checked r) (c_pam r) (c_trace r).
Definition set_c_call_count v (r : mcore) : mcore := mk_core (c_ctxt r) (c_options r) (c_auth_opts r) (c_key r) (c_method r) (c_submethod r) (c_session_id2 r) (c_dispatch r) v (c_expire_checked r) (c_pam r) (c_trace r).
Definition set_c_expire_checked v (r : mcore) : mcore := mk_core (c_ctxt r) (c_options r) (c_auth_opts r) (c_key r) (c_method r) (c_submethod r) (c_session_id2 r) (c_dispatch r) (c_call_count r) v (c_pam r) (c_trace r).
Definition set_c_pam v (r : mcore) : mcore := mk_core (c_ctxt r) (c_options r) (c_auth_opts r) (c_key r) (c_method r) (c_submethod r) (c_session_id2 r) (c_dispatch r) (c_call_count r) (c_expire_checked r) v (c_trace r).
Definition set_c_trace v (r : mcore) : mcore := mk_core (c_ctxt r) (c_options r) (c_auth_opts r) (c_key r) (c_method r) (c_submethod r) (c_session_id2 r) (c_dispatch r) (c_call_count r) (c_expire_checked r) (c_pam r) v.

Record mio := mk_io {
  io_in : list Z;
  io_log : list Z;
  io_log_open : bool;
  io_out : list Z;
  io_msg : sshbuf;
  io_loginmsg : sshbuf;
  io_tick : Z
}.
Definition set_io_in v (r : mio) : mio := mk_io v (io_log r) (io_log_open r) (io_out r) (io_msg r) (io_loginmsg r) (io_tick r).
Definition set_io_log v (r : mio) : mio := mk_io (io_in r) v (io_log_open r) (io_out r) (io_msg r) (io_loginmsg r) (io_tick r).
Definition set_io_log_open v (r : mio) : mio := mk_io (io_in r) (io_log r) v (io_out r) (io_msg r) (io_loginmsg r) (io_tick r).
Definition set_io_out v (r : mio) : mio := mk_io (io_in r) (io_log r) (io_log_open r) v (io_msg r) (io_loginmsg r) (io_tick r).
Definition set_io_msg v (r : mio) : mio := mk_io (io_in r) (io_log r) (io_log_open r) (io_out r) v (io_loginmsg r) (io_tick r).
Definition set_io_loginmsg v (r : mio) : mio := mk_io (io_in r) (io_log r) (io_log_open r) (io_out r) (io_msg r) v (io_tick r).
Definition set_io_tick v (r : mio) : mio := mk_io (io_in r) (io_log r) (io_log_open r) (io_out r) (io_msg r) (io_loginmsg r) v.

Record monitor := mk_mon { mn_core : mcore; mn_io : mio }.
End State.

(** How the process ends: fatal, exit, a null pointer; [Hung]: the parameters
    let it wait for ever. *)
Inductive mstop := Fatal | Exited (code : Z) | Null | Hung.

(** What atomicio(read) comes to. *)
Inductive read_res := R_bytes (bytes : list Z) | R_eof | R_error.

Section Monitor.
Context {heap : Allocator} {keys : SshKeys} {env : MonEnv}.

(** ** The monad *)

Definition MO := SE monitor mstop.
Definition core {A} (f : mcore -> A) : MO A := gets (fun s => f (mn_core s)).
Definition set_core (f : mcore -> mcore) : MO () := modify (fun s => mk_mon (f (mn_core s)) (mn_io s)).
Definition io {A} (f : mio -> A) : MO A := gets (fun s => f (mn_io s)).
Definition set_io (f : mio -> mio) : MO () := modify (fun s => mk_mon (mn_core s) (f (mn_io s))).
Definition ctxt {A} (f : Authctxt -> A) : MO A := core (fun c => f (c_ctxt c)).
Definition set_ctxt (f : Authctxt -> Authctxt) : MO () := set_core (fun c => set_c_ctxt (f (c_ctxt c)) c).
Definition options {A} (f : ServerOptions -> A) : MO A := core (fun c => f (c_options c)).
Definition pam {A} (f : pam_state -> A) : MO A := core (fun c => f (c_pam c)).
Definition set_pam (f : pam_state -> pam_state) : MO () := set_core (fun c => set_c_pam (f (c_pam c)) c).
Definition note (e : event) : MO () := set_core (fun c => set_c_trace (c_trace c ++ [e]) c).
(** A question, and its answer. *)
Definition ask {A} (q : Z -> A) : MO A :=
  t ← io io_tick; _ ← set_io (set_io_tick (t + 1)); mret (q t).
Definition deref {A} (p : option A) : MO A := match p with Some a => mret a | None => throw Null end.
Definition need {A} (p : option A) : MO A := match p with Some a => mret a | None => throw Fatal end.
Definition fatal_if (c : bool) : MO () := if c then throw Fatal else mret tt.
(** An operation on a buffer whose failure is fatal; on the message [m]; on a
    buffer of its own. *)
Definition on_buf {A} (m : SE sshbuf Z A) (b : sshbuf) : MO (A * sshbuf) :=
  match m b with (inl _, _) => throw Fatal | (inr a, b) => mret (a, b) end.
Definition msg {A} (m : SE sshbuf Z A) : MO A :=
  b ← io io_msg; '(a, b) ← on_buf m b; _ ← set_io (set_io_msg b); mret a.
Definition loginmsg (m : SE sshbuf Z ()) : MO () :=
  b ← io io_loginmsg; '(_, b) ← on_buf m b; set_io (set_io_loginmsg b).
Definition reset_msg : MO () := b ← io io_msg; set_io (set_io_msg (sshbuf_reset b)).
Definition new_msg : MO () := b ← need sshbuf_new; set_io (set_io_msg b).
(** sshbuf_get_cstring, read as a C string: a zero at the end is not part of it. *)
Definition get_text : SE sshbuf Z (list Z) := s ← sshbuf_get_cstring; mret (cstr s).
(** sshbuf_reserve and a read into the room. *)
Definition fill (bytes : list Z) : SE sshbuf Z () := dp ← sshbuf_reserve (zlen bytes); poke dp bytes.

(** ** Messages: monitor_wrap.c *)

(** atomicio(read) of [n] bytes from the socket or the log pipe. *)
Definition atomic_read (log : bool) (n : Z) : MO read_res :=
  if n =? 0 then mret (R_bytes [])
  else
    ok ← ask mon_read_ok;
    if negb ok then mret R_error
    else
      s ← io (if log then io_log else io_in);
      let set := if log then set_io_log else set_io_in in
      if zlen s <? n then _ ← set_io (set []); mret R_eof
      else _ ← set_io (set (zdrop n s)); mret (R_bytes (ztake n s)).

Definition mm_request_send (type : Z) : MO () :=
  m ← io io_msg;
  let mlen := sshbuf_len m in
  _ ← fatal_if (0xffffffff <=? mlen);
  ok ← ask mon_write_ok;
  _ ← fatal_if (negb ok);
  _ ← set_io (fun i => set_io_out (io_out i ++ POKE_U32 (u32 (mlen + 1)) ++ [u8 type]) i);
  ok ← ask mon_write_ok;
  _ ← fatal_if (negb ok);
  set_io (fun i => set_io_out (io_out i ++ ztake mlen (sshbuf_ptr m)) i).

Definition mm_request_receive : MO () :=
  r ← atomic_read false 4;
  match r with
  | R_eof => throw (Exited 255)
  | R_error => throw Fatal
  | R_bytes buf =>
      let msg_len := PEEK_U32 buf in
      _ ← fatal_if (256 * 1024 <? msg_len);
      _ ← reset_msg;
      p ← msg (sshbuf_reserve msg_len);
      r ← atomic_read false msg_len;
      match r with R_bytes body => msg (poke p body) | _ => throw Fatal end
  end.
Definition mm_request_receive_expect (type : Z) : MO () :=
  _ ← mm_request_receive;
  rtype ← msg sshbuf_get_u8;
  fatal_if (negb (rtype =? type)).

(** ** The table of requests *)

Definition with_permit (permit : bool) (e : mon_table) : mon_table :=
  mk_entry (mt_type e) (Z.lor (Z.land (mt_flags e) (Z.lnot MON_PERMIT)) (if permit then MON_PERMIT else 0)) (mt_f e).
Fixpoint permit_type (t : list mon_table) (type : Z) (permit : bool) : list mon_table :=
  match t with
  | [] => []
  | e :: t' => if mt_type e =? type then with_permit permit e :: t' else e :: permit_type t' type permit
  end.
Definition monitor_permit (type : Z) (permit : bool) : MO () := set_core (fun c => set_c_dispatch (permit_type (c_dispatch c) type permit) c).
Definition monitor_permit_authentications (permit : bool) : MO () :=
  set_core (fun c => set_c_dispatch (map (fun e => if truthy (Z.land (mt_flags e) MON_AUTH) then with_permit permit e else e) (c_dispatch c)) c).
Fixpoint find_entry (t : list mon_table) (type : Z) : option mon_table :=
  match t with [] => None | e :: t' => if mt_type e =? type then Some e else find_entry t' type end.

(** ** Options of the session: auth.c *)

Definition auth_activate_options (opts : option sshauthopt) : MO Z :=
  old ← core c_auth_opts;
  old ← deref old;
  opts ← deref opts;
  let merged := sshauthopt_merge old opts in
  _ ← set_core (set_c_auth_opts merged);
  mret (if bool_decide (is_Some merged) then 0 else -1).
Definition auth_restrict_session : MO () :=
  restricted ← deref sshauthopt_new;
  r ← auth_activate_options (Some (set_restricted 1 (set_pty 1 restricted)));
  fatal_if (negb (r =? 0)).
Definition auth_root_allowed (method : list Z) : MO bool :=
  permit ← options op_permit_root_login;
  if permit =? PERMIT_YES then mret true
  else if permit =? PERMIT_NO_PASSWD then
    mret (bytes_eqb method (str "publickey") || bytes_eqb method (str "hostbased") || bytes_eqb method (str "gssapi-with-mic"))
  else if permit =? PERMIT_FORCED_ONLY then
    o ← core c_auth_opts; o ← deref o; mret (bool_decide (is_Some (o_force_command o)))
  else mret false.
Definition fakepw : passwd :=
  mk_passwd (str "NOUSER") (str "$2a$06$r3.juUaHZDlIbQaO2dS9FuYxL1W9M81R1Tc92PoSNmzvpEqLkLGrK")
    (default (2 ^ 32 - 1) privsep_uid) (str "NOUSER") (str "/nonexist") (str "/nonexist").

(** ** What is known of the methods used: auth2.c *)

Definition auth2_authctxt_reset_info : MO () := set_ctxt (fun a => set_ac_method_info None (set_ac_method_key None a)).
Definition auth2_record_info (text : list Z) : MO () := set_ctxt (set_ac_method_info (Some text)).
Definition demote (key : sshkey) : MO sshkey := match sshkey_demote key with inl _ => throw Fatal | inr dup => mret dup end.
Definition auth2_record_key (authenticated : bool) (key : sshkey) : MO () :=
  dup ← demote key;
  _ ← set_ctxt (set_ac_method_key (Some dup));
  when authenticated (
    dup ← demote key;
    prev ← ctxt ac_prev_keys;
    _ ← fatal_if (INT_MAX <=? zlen prev);
    _ ← need (heap_alloc (8 * (zlen prev + 1)));
    set_ctxt (set_ac_prev_keys (prev ++ [dup]))).
Definition auth2_key_already_used (key : sshkey) : MO bool :=
  prev ← ctxt ac_prev_keys; mret (existsb (sshkey_equal_public key) prev).

(** The text of one method on the end of session_info. *)
Definition session_line (method : list Z) (submethod key info : option (list Z)) : SE sshbuf Z () :=
  _ ← sshbuf_putfv (Some (method ++ match submethod with Some s => str "/" ++ s | None => [] end));
  _ ← match key with Some text => _ ← sshbuf_put_u8 32; sshbuf_putfv (Some text) | None => mret tt end;
  _ ← match info with Some text => _ ← sshbuf_put_u8 32; sshbuf_putfv (Some text) | None => mret tt end;
  sshbuf_put_u8 10.
Definition auth2_update_session_info (method : list Z) (submethod : option (list Z)) : MO () :=
  old ← ctxt ac_session_info;
  b ← match old with Some b => mret b | None => need sshbuf_new end;
  key ← ctxt ac_method_key;
  key ← match key with None => mret None | Some k => text ← need (sshkey_format_text k); mret (Some text) end;
  info ← ctxt ac_method_info;
  _ ← fatal_if (existsb (Z.eqb 10) (default [] info));
  '(_, b) ← on_buf (session_line method submethod key info) b;
  set_ctxt (set_ac_session_info (Some b)).

Definition update_methods_lists (method : list Z) (submethod : option (list Z)) : MO bool :=
  ls ← ctxt ac_auth_methods;
  '(ls, complete) ← need (auth2_update_methods_lists ls method submethod);
  _ ← set_ctxt (set_ac_auth_methods ls);
  mret complete.

(** ** PAM: auth-pam.c *)

Definition sshpam_set_maxtries_reached : MO () :=
  reached ← pam p_maxtries;
  when (negb reached) (_ ← set_pam (set_p_maxtries true); set_core (fun c => set_c_options (disable_passwords (c_options c)) c)).

Definition sshpam_password_change_required (reqd : bool) : MO () :=
  known ← pam p_authctxt;
  _ ← fatal_if (negb known);
  _ ← set_ctxt (set_ac_force_pwchange reqd);
  o ← core c_auth_opts;
  if reqd then
    o ← deref o;
    _ ← set_pam (set_p_saved (o_port_forwarding o, o_agent_forwarding o, o_x11_forwarding o));
    set_core (set_c_auth_opts (Some (set_port 0 (set_agent 0 (set_x11 0 o)))))
  else
    '(port, agent, x11) ← pam p_saved;
    let back (saved : Z) set (o : sshauthopt) := if truthy saved then set saved o else o in
    if truthy port || truthy agent || truthy x11 then
      o ← deref o; set_core (set_c_auth_opts (Some (back x11 set_x11 (back agent set_agent (back port set_port o)))))
    else mret tt.

(** 0 and -1 are [true] and [false]. *)
Definition set_items (n : nat) : MO bool :=
  let fix go n := match n with
    | O => mret true
    | S n' => r ← ask pam_set_item; if r =? PAM_SUCCESS then go n' else _ ← set_pam (set_p_handle false); mret false
    end in go n.
Definition sshpam_init : MO bool :=
  user ← ctxt ac_user;
  user ← deref user;
  handle ← pam p_handle;
  same ← (if (handle : bool) then ask (fun t => pam_user_is t user) else mret false);
  if (same : bool) then mret true
  else
    r ← ask (fun t => pam_start t user);
    _ ← set_pam (fun p => set_p_authctxt true (set_p_handle (r =? PAM_SUCCESS) p));
    if negb (r =? PAM_SUCCESS) then mret false else set_items 2.
Definition start_pam : MO () :=
  use ← options op_use_pam;
  _ ← fatal_if (negb use);
  ok ← sshpam_init;
  fatal_if (negb ok).

(** expose_authinfo reads sshpam_authctxt. *)
Definition expose_authinfo : MO () :=
  known ← pam p_authctxt; if (known : bool) then mret tt else throw Null.
Definition do_pam_account : MO Z :=
  status ← pam p_account;
  if negb (status =? -1) then mret status
  else
    _ ← expose_authinfo;
    err ← ask pam_acct_mgmt;
    if negb (err =? PAM_SUCCESS) && negb (err =? PAM_NEW_AUTHTOK_REQD) then _ ← set_pam (set_p_account 0); mret 0
    else
      _ ← when (err =? PAM_NEW_AUTHTOK_REQD) (sshpam_password_change_required true);
      _ ← set_pam (set_p_account 1);
      mret 1.

Definition junk : list Z := [8; 10; 13; 127] ++ str "INCORRECT".
Definition fake_password (wire_password : list Z) : MO (option (list Z)) :=
  let l := zlen wire_password in
  _ ← fatal_if (INT_MAX <=? l);
  mret ((fun _ => map (fun i => znth junk (Z.of_nat i mod zlen junk)) (seq 0 (length wire_password))) <$> heap_alloc (l + 1)).

(** What PAM says goes to loginmsg (sshpam_passwd_conv). *)
Definition passwd_conv (said : list (list Z)) : MO () :=
  mfold (fun _ text => when (0 <? zlen text) (loginmsg (sshbuf_putfv (Some (text ++ [10]))))) said tt.
(** Passwords of users that are invalid, or of root when that may not log in
    with one, are replaced. *)
Definition refused_user : MO bool :=
  valid ← ctxt ac_valid;
  if negb valid then mret true
  else
    pw ← ctxt ac_pw; pw ← deref pw;
    root ← options op_permit_root_login;
    mret ((pw_uid pw =? 0) && negb (root =? PERMIT_YES)).
Definition sshpam_auth_passwd (password : list Z) : MO bool :=
  use ← options op_use_pam;
  handle ← pam p_handle;
  _ ← fatal_if (negb use || negb handle);
  _ ← set_pam (set_p_authctxt true);
  refused ← refused_user;
  given ← (if (refused : bool) then fake_password password else mret (Some password));
  r ← ask pam_set_item;
  _ ← fatal_if (negb (r =? PAM_SUCCESS));
  '(err, said) ← ask (fun t => pam_authenticate t given);
  _ ← passwd_conv said;
  _ ← note (EvPamAuth given err);
  _ ← when (err =? PAM_MAXTRIES) sshpam_set_maxtries_reached;
  valid ← ctxt ac_valid;
  mret ((err =? PAM_SUCCESS) && valid).

(** ** Keyboard-interactive authentication through PAM *)

Definition sshpam_init_ctx : MO (option pam_ctxt) :=
  use ← options op_use_pam;
  status ← pam p_account;
  if negb use || (status =? 0) then mret None
  else
    ok ← sshpam_init;
    if negb ok then mret None
    else
      _ ← expose_authinfo;
      _ ← need (heap_alloc 40);
      ok ← ask pam_process;
      t ← io io_tick;
      if negb ok then mret None else mret (Some (mk_pam_ctxt (1 + t) 0)).

Definition set_done (v : Z) : MO () :=
  set_pam (fun p => set_p_ctxt ((fun c => mk_pam_ctxt (pc_addr c) v) <$> p_ctxt p) p).

(** import_environments: what PAM's process sends after it has succeeded. *)
Definition import_environments (b : sshbuf) : MO () :=
  '(n, b) ← on_buf sshbuf_get_u32 b;
  _ ← fatal_if (INT_MAX <? n);
  _ ← set_pam (set_p_account n);
  '(n, b) ← on_buf sshbuf_get_u32 b;
  _ ← sshpam_password_change_required (truthy n);
  '(n, b) ← on_buf sshbuf_get_u32 b;
  _ ← fatal_if (1024 <? n);
  _ ← need (heap_alloc (8 * (n + 1)));
  '(vars, b) ← on_buf (get_proposal (Z.to_nat n)) b;
  _ ← set_pam (set_p_env vars);
  '(n, b) ← on_buf sshbuf_get_u32 b;
  _ ← on_buf (get_proposal (Z.to_nat n)) b;
  mret tt.

(** ssh_msg_recv: [None] is -1. *)
Definition ssh_msg_recv (b : sshbuf) : MO (option sshbuf) :=
  r ← ask pam_recv;
  match r with
  | None => mret None
  | Some bytes =>
      if 256 * 1024 <? zlen bytes then mret None
      else match fill bytes (sshbuf_reset b) with (inl _, _) => mret None | (inr _, b) => mret (Some b) end
  end.

(** The result, info, num, and a prompt with its echo flag. *)
Definition query_res : Type := Z * list Z * Z * option (list Z * Z).
(** A message that ends the query. *)
Definition query_ends (type : Z) (prompts : option (list Z)) (b : sshbuf) : MO query_res :=
  _ ← when (type =? PAM_ACCT_EXPIRED) (set_pam (set_p_account 0));
  _ ← when (type =? PAM_MAXTRIES) sshpam_set_maxtries_reached;
  if negb (type =? PAM_SUCCESS) && (0 <? zlen (default [] prompts)) then _ ← set_done (-1); mret (0, default [] prompts, 0, None)
  else
    _ ← match prompts with Some text => loginmsg (sshbuf_put text (zlen text)) | None => mret tt end;
    if type =? PAM_SUCCESS then
      refused ← refused_user;
      _ ← fatal_if refused;
      _ ← import_environments b;
      _ ← set_done 1;
      mret (0, [], 0, None)
    else _ ← set_done (-1); mret (-1, [], 0, None).
Fixpoint query_loop (fuel : nat) (prompts : option (list Z)) (b : sshbuf) : MO query_res :=
  match fuel with
  | O => throw Hung
  | S fuel' =>
      r ← ssh_msg_recv b;
      match r with
      | None => mret (-1, [], 0, None)
      | Some b =>
          '(type, b) ← on_buf sshbuf_get_u8 b;
          '(text, b) ← on_buf get_text b;
          let before := default [] prompts in
          if (type =? PAM_PROMPT_ECHO_ON) || (type =? PAM_PROMPT_ECHO_OFF) then
            mret (0, [], 1, Some (before ++ text, flag (type =? PAM_PROMPT_ECHO_ON)))
          else if (type =? PAM_ERROR_MSG) || (type =? PAM_TEXT_INFO) then query_loop fuel' (Some (before ++ text ++ [10])) b
          else if (type =? PAM_ACCT_EXPIRED) || (type =? PAM_MAXTRIES) || (type =? PAM_AUTH_ERR) || (type =? PAM_SUCCESS) then query_ends type prompts b
          else _ ← set_done (-1); mret (-1, [], 0, None)
      end
  end.
Definition sshpam_query : MO query_res :=
  b ← need sshbuf_new; query_loop mon_rounds None b.

Definition sshpam_respond (done : Z) (resp : list (list Z)) : MO Z :=
  if done =? 1 then _ ← set_pam (set_p_authenticated true); mret 0
  else if negb (done =? 0) then mret (-1)
  else
    match resp with
    | [answer] =>
        b ← need sshbuf_new;
        refused ← refused_user;
        text ← (if (refused : bool) then fake_password answer else mret (Some answer));
        '(_, b) ← on_buf (sshbuf_put_cstring text) b;
        ok ← ask (fun t => pam_send t (ztake (sshbuf_len b) (sshbuf_ptr b)));
        mret (if (ok : bool) then 1 else -1)
    | _ => mret (-1)
    end.

(** ** Passwords: auth-passwd.c *)

Definition sys_auth_passwd (password : list Z) : MO bool :=
  valid ← ctxt ac_valid;
  pw ← ctxt ac_pw; pw ← deref pw;
  pw_password ← (if (valid : bool) then ask (fun t => shadow_pw t pw) else mret (pw_passwd pw));
  if (zlen pw_password =? 0) && (zlen password =? 0) then mret true
  else
    let salt := if valid && (1 <? zlen pw_password) then Some pw_password else None in
    mret (match xcrypt password salt with Some e => bytes_eqb e pw_password | None => false end).

Definition auth_password (password : list Z) : MO bool :=
  pw ← ctxt ac_pw;
  valid ← ctxt ac_valid;
  if MAX_PASSWORD_LEN <? zlen password then mret false
  else
    pw ← deref pw;
    root ← options op_permit_root_login;
    empty ← options op_permit_empty_passwd;
    use ← options op_use_pam;
    let ok := valid && negb ((pw_uid pw =? 0) && negb (root =? PERMIT_YES)) in
    if (zlen password =? 0) && negb empty then mret false
    else if (use : bool) then result ← sshpam_auth_passwd password; mret (andb result ok)
    else
      checked ← core c_expire_checked;
      _ ← when (negb checked) (
            _ ← set_core (set_c_expire_checked true);
            expired ← ask (fun t => shadow_pwexpired t pw);
            when expired (set_ctxt (set_ac_force_pwchange true)));
      result ← sys_auth_passwd password;
      _ ← note (EvSysAuth password result);
      change ← ctxt ac_force_pwchange;
      _ ← when change auth_restrict_session;
      mret (andb result ok).

(** ** Requests: monitor.c *)

Definition set_method (method : list Z) (submethod : option (list Z)) : MO () :=
  set_core (fun c => set_c_submethod submethod (set_c_method method c)).
Definition set_method_name (method : list Z) : MO () := set_core (set_c_method method).

(** sshbuf_put_bignum2 of the bytes that BN_bn2bin gives. *)
Definition sshbuf_put_bignum2 (d : list Z) : SE sshbuf Z () :=
  let len := zlen d in
  if SSHBUF_MAX_BIGNUM <? len then throw SSH_ERR_INVALID_ARGUMENT
  else
    let d := if (0 <? len) && truthy (Z.land (znth d 0) 128) then 0 :: d else d in
    sshbuf_put_string d (zlen d).
Definition mm_answer_moduli : MO Z :=
  min ← msg sshbuf_get_u32;
  want ← msg sshbuf_get_u32;
  max ← msg sshbuf_get_u32;
  _ ← fatal_if ((max <? min) || (want <? min) || (max <? want));
  _ ← reset_msg;
  dh ← ask (fun t => choose_dh t min want max);
  match dh with
  | None => _ ← msg (sshbuf_put_u8 0); mret 0
  | Some (p, g) =>
      _ ← msg (_ ← sshbuf_put_u8 1; _ ← sshbuf_put_bignum2 p; sshbuf_put_bignum2 g);
      _ ← mm_request_send MONITOR_ANS_MODULI;
      mret 0
  end.

(** What a host key may sign: a hash, or the proof that it belongs to the host. *)
Definition proof_req : list Z := str "hostkeys-prove-00@openssh.com".
Definition check_proof (keyid : Z) (data : list Z) : MO () :=
  let datlen := zlen data in
  if negb (datlen =? 20) && negb (datlen =? 32) && negb (datlen =? 48) && negb (datlen =? 64) then
    sid ← core c_session_id2;
    sid ← need sid;
    key ← need (hostkey_public_by_index keyid);
    b ← need sshbuf_new;
    blob ← match sshkey_to_blob key with inl _ => throw Fatal | inr blob => mret blob end;
    '(_, b) ← on_buf (_ ← sshbuf_put_cstring (Some proof_req); _ ← sshbuf_put_string sid (zlen sid); sshbuf_put_string blob (zlen blob)) b;
    fatal_if (negb (datlen =? sshbuf_len b) || negb (bytes_eqb data (ztake (sshbuf_len b) (sshbuf_ptr b))))
  else mret tt.
Definition sign_with (keyid : Z) (data alg : list Z) (compat : Z) : MO (list Z) :=
  r ← match hostkey_by_index keyid with
      | Some key => ask (fun t => sshkey_sign t key data alg compat)
      | None =>
          match hostkey_public_by_index keyid with
          | Some key => if 0 <? auth_sock then ask (fun t => agent_sign t key data alg compat) else throw Fatal
          | None => throw Fatal
          end
      end;
  match r with inl _ => throw Fatal | inr signature => mret signature end.
Definition mm_answer_sign : MO Z :=
  keyid ← msg sshbuf_get_u32;
  p ← msg sshbuf_get_string;
  alg ← msg get_text;
  compat ← msg sshbuf_get_u32;
  _ ← fatal_if (INT_MAX <? keyid);
  _ ← check_proof keyid p;
  _ ← set_core (fun c => match c_session_id2 c with None => set_c_session_id2 (Some p) c | Some _ => c end);
  signature ← sign_with keyid p alg compat;
  _ ← reset_msg;
  _ ← msg (sshbuf_put_string signature (zlen signature));
  _ ← mm_request_send MONITOR_ANS_SIGN;
  _ ← monitor_permit MONITOR_REQ_PWNAM true;
  mret 0.

Definition put_passwd (pw : passwd) : SE sshbuf Z () :=
  _ ← sshbuf_put_u8 1;
  _ ← sshbuf_put_string (passwd_bytes pw) (zlen (passwd_bytes pw));
  _ ← sshbuf_put_cstring (Some (pw_name pw));
  _ ← sshbuf_put_cstring (Some (str "*"));
  _ ← sshbuf_put_cstring (Some (pw_gecos pw));
  _ ← sshbuf_put_cstring (Some (pw_dir pw));
  sshbuf_put_cstring (Some (pw_shell pw)).
Definition put_options (o : ServerOptions) : SE sshbuf Z () :=
  _ ← sshbuf_put_string (options_bytes o) (zlen (options_bytes o));
  put_proposal (op_match_strings o).
Definition mm_answer_pwnamallow : MO Z :=
  attempt ← ctxt ac_attempt;
  _ ← set_ctxt (set_ac_attempt (attempt + 1));
  _ ← fatal_if (negb (attempt =? 0));
  username ← msg get_text;
  o ← options id;
  '(pwent, o) ← ask (fun t => getpwnamallow t o username);
  _ ← set_core (set_c_options o);
  _ ← note (EvUser username pwent);
  _ ← set_ctxt (set_ac_user (Some username));
  _ ← reset_msg;
  _ ← match pwent with
      | None => _ ← msg (sshbuf_put_u8 0); set_ctxt (set_ac_pw (Some fakepw))
      | Some pw => _ ← set_ctxt (fun a => set_ac_valid true (set_ac_pw (Some pw) a)); msg (put_passwd pw)
      end;
  _ ← msg (put_options o);
  _ ← set_ctxt (fun a => set_ac_auth_methods (auth2_setup_methods_lists o true (ac_auth_methods a)).1 a);
  _ ← mm_request_send MONITOR_ANS_PWNAM;
  _ ← monitor_permit MONITOR_REQ_AUTHSERV true;
  _ ← monitor_permit MONITOR_REQ_AUTH2_READ_BANNER true;
  _ ← when (op_use_pam o) (monitor_permit MONITOR_REQ_PAM_START true);
  mret 0.

Definition mm_answer_auth2_read_banner : MO Z :=
  _ ← reset_msg;
  banner ← ask auth2_read_banner;
  _ ← msg (sshbuf_put_cstring (Some (default [] banner)));
  _ ← mm_request_send MONITOR_ANS_AUTH2_READ_BANNER;
  mret 0.
Definition mm_answer_authserv : MO Z :=
  _ ← monitor_permit_authentications true;
  service ← msg get_text;
  style ← msg get_text;
  _ ← set_ctxt (fun a => set_ac_style (if zlen style =? 0 then None else Some style) (set_ac_service (Some service) a));
  mret 0.
Definition mm_answer_authpassword : MO Z :=
  enabled ← options op_password_authentication;
  _ ← fatal_if (negb enabled);
  passwd ← msg sshbuf_get_cstring;
  _ ← note (EvPassword (cstr passwd));
  authenticated ← auth_password (cstr passwd);
  _ ← reset_msg;
  reached ← pam p_maxtries;
  _ ← msg (_ ← sshbuf_put_u32 (flag authenticated); sshbuf_put_u32 (flag reached));
  _ ← mm_request_send MONITOR_ANS_AUTHPASSWORD;
  count ← core c_call_count;
  _ ← set_core (set_c_call_count (i32 (count + 1)));
  _ ← set_method_name (if (zlen passwd =? 0) && (i32 (count + 1) =? 1) then str "none" else str "password");
  mret (flag authenticated).

Definition mm_answer_pam_start : MO Z :=
  use ← options op_use_pam;
  _ ← fatal_if (negb use);
  _ ← start_pam;
  _ ← monitor_permit MONITOR_REQ_PAM_ACCOUNT true;
  kbd ← options op_kbd_interactive_authentication;
  _ ← when kbd (monitor_permit MONITOR_REQ_PAM_INIT_CTX true);
  mret 0.
Definition mm_answer_pam_account : MO Z :=
  use ← options op_use_pam;
  _ ← fatal_if (negb use);
  ret ← do_pam_account;
  _ ← note (EvAccount ret);
  text ← io io_loginmsg;
  _ ← msg (_ ← sshbuf_put_u32 ret; sshbuf_put_stringb text);
  _ ← mm_request_send MONITOR_ANS_PAM_ACCOUNT;
  mret ret.
Definition mm_answer_pam_init_ctx : MO Z :=
  kbd ← options op_kbd_interactive_authentication;
  _ ← fatal_if (negb kbd);
  c ← pam p_ctxt;
  _ ← fatal_if (bool_decide (is_Some (c : option pam_ctxt)));
  c ← sshpam_init_ctx;
  let ok := bool_decide (is_Some (c : option pam_ctxt)) in
  _ ← set_pam (fun p => set_p_authok None (set_p_ctxt c p));
  _ ← note EvPamInit;
  _ ← reset_msg;
  _ ← when ok (_ ← monitor_permit MONITOR_REQ_PAM_FREE_CTX true; monitor_permit MONITOR_REQ_PAM_QUERY true);
  _ ← msg (sshbuf_put_u32 (flag ok));
  _ ← mm_request_send MONITOR_ANS_PAM_INIT_CTX;
  mret 0.
Definition KBDINT : list Z := str "keyboard-interactive".
Definition DEV_PAM : list Z := str "pam".
Definition mm_answer_pam_query : MO Z :=
  _ ← set_pam (set_p_authok None);
  c ← pam p_ctxt;
  c ← need c;
  '(ret, info, num, prompt) ← sshpam_query;
  _ ← note (EvPamQuery ret num);
  _ ← when ((ret =? 0) && (num =? 0)) (set_pam (set_p_authok (Some (pc_addr c))));
  _ ← fatal_if (1 <? num);
  _ ← monitor_permit MONITOR_REQ_PAM_RESPOND true;
  _ ← reset_msg;
  reached ← pam p_maxtries;
  _ ← msg (_ ← sshbuf_put_u32 (u32 ret); _ ← sshbuf_put_cstring (Some []); _ ← sshbuf_put_cstring (Some info);
           _ ← sshbuf_put_u32 (flag reached); sshbuf_put_u32 num);
  _ ← match prompt with
      | Some (text, echo) => when (0 <? num) (msg (_ ← sshbuf_put_cstring (Some text); sshbuf_put_u32 echo))
      | None => mret tt
      end;
  _ ← set_method KBDINT (Some DEV_PAM);
  _ ← mm_request_send MONITOR_ANS_PAM_QUERY;
  mret 0.
Definition mm_answer_pam_respond : MO Z :=
  c ← pam p_ctxt;
  c ← need c;
  _ ← set_pam (set_p_authok None);
  num ← msg sshbuf_get_u32;
  _ ← (if 0 <? num then _ ← need (heap_alloc (8 * num)); mret tt else mret tt);
  resp ← msg (get_proposal (Z.to_nat num));
  ret ← sshpam_respond (pc_done c) resp;
  _ ← note (EvPamRespond resp ret);
  _ ← reset_msg;
  _ ← msg (sshbuf_put_u32 (u32 ret));
  _ ← mm_request_send MONITOR_ANS_PAM_RESPOND;
  _ ← set_method KBDINT (Some DEV_PAM);
  _ ← when (ret =? 0) (set_pam (set_p_authok (Some (pc_addr c))));
  mret 0.
Definition mm_answer_pam_free_ctx : MO Z :=
  c ← pam p_ctxt;
  authok ← pam p_authok;
  let r := match authok, c with Some a, Some c => a =? pc_addr c | _, _ => false end in
  _ ← need c;
  _ ← set_pam (fun p => set_p_authok None (set_p_ctxt None p));
  _ ← reset_msg;
  _ ← mm_request_send MONITOR_ANS_PAM_FREE_CTX;
  _ ← monitor_permit MONITOR_REQ_PAM_INIT_CTX true;
  _ ← set_method KBDINT (Some DEV_PAM);
  mret (flag r).

(** *** Keys *)

Definition monitor_allowed_key (blob : list Z) : MO bool :=
  k ← core c_key;
  mret (match k with
        | None => false
        | Some k => (zlen (ks_blob k) =? zlen blob) && (timingsafe_bcmp (ks_blob k) blob 0 =? 0)
        end).
Definition monitor_reset_key_state : MO () := set_core (set_c_key None).

Definition sshkey_froms : MO sshkey :=
  b ← msg sshbuf_froms;
  match sshkey_from_blob (ztake (sshbuf_len b) (sshbuf_ptr b)) with inl _ => throw Fatal | inr key => mret key end.
Definition name_matches (key : sshkey) (types : list Z) : bool :=
  match match_pattern_list (sshkey_ssh_name key) types false with Some r => r =? 1 | None => false end.
Definition quote (s : list Z) : list Z := [QUOTE] ++ s ++ [QUOTE].
(** The two cases of the switch: whether the key is allowed, and its options. *)
Definition userkey_allowed (pw : option passwd) (key : sshkey) (attempt : Z) : MO (bool * option sshauthopt) :=
  _ ← set_method_name (str "publickey");
  enabled ← options op_pubkey_authentication;
  used ← auth2_key_already_used key;
  types ← options op_pubkey_key_types;
  if negb enabled || used || negb (name_matches key types) then mret (false, None)
  else pw ← deref pw; ask (fun t => user_key_allowed t pw key attempt).
Definition hostkey_allowed (pw : option passwd) (cuser chost : list Z) (key : sshkey) : MO (bool * option sshauthopt) :=
  _ ← set_method_name (str "hostbased");
  enabled ← options op_hostbased_authentication;
  used ← auth2_key_already_used key;
  types ← options op_hostbased_key_types;
  if negb enabled || used || negb (name_matches key types) then mret (false, None)
  else
    pw ← deref pw;
    allowed ← ask (fun t => hostbased_key_allowed t pw cuser chost key);
    _ ← auth2_record_info (str "client user " ++ quote (ztake 100 cuser) ++ str ", client host " ++ quote (ztake 100 chost));
    mret (allowed, None).
Definition mm_answer_keyallowed : MO Z :=
  type ← msg sshbuf_get_u32;
  cuser ← msg get_text;
  chost ← msg get_text;
  key ← sshkey_froms;
  attempt ← msg sshbuf_get_u32;
  valid ← ctxt ac_valid;
  pw ← ctxt ac_pw;
  '(allowed, opts) ←
    (if negb valid then mret (false, None)
     else
       _ ← fatal_if (sshkey_is_rsa key && truthy (Z.land datafellows SSH_BUG_RSASIGMD5));
       if type =? MM_USERKEY then userkey_allowed pw key attempt
       else if type =? MM_HOSTKEY then hostkey_allowed pw cuser chost key
       else throw Fatal);
  _ ← auth2_record_key false key;
  _ ← monitor_reset_key_state;
  _ ← when allowed (
        blob ← match sshkey_to_blob key with inl _ => throw Fatal | inr blob => mret blob end;
        _ ← note (EvKeyAllowed type cuser chost key);
        set_core (set_c_key (Some (mk_key_state blob type opts cuser chost))));
  _ ← reset_msg;
  _ ← msg (sshbuf_put_u32 (flag allowed));
  _ ← match opts with Some opts => msg (sshauthopt_serialise opts true) | None => mret tt end;
  _ ← mm_request_send MONITOR_ANS_KEYALLOWED;
  mret 0.

(** What a signature must be over.  The functions give the number of
    mismatches ([fail]), or stop with the code of the buffer. *)
Definition mismatch (ok : bool) : Z := if ok then 0 else 1.
Definition session_matches (sid : option (list Z)) (p : list Z) (len : Z) : bool :=
  match sid with None => false | Some s => (len =? zlen s) && (timingsafe_bcmp (ztake len p) s 0 =? 0) end.
Definition old_session_matches (sid : option (list Z)) (p : list Z) (len : Z) : bool :=
  match sid with None => false | Some s => negb (len <? zlen s) && (timingsafe_bcmp (ztake (zlen s) p) s 0 =? 0) end.
Definition blob_session (old : bool) (sid : option (list Z)) : SE sshbuf Z Z :=
  if old then
    b ← gets id;
    _ ← sshbuf_consume (zlen (default [] sid));
    mret (mismatch (old_session_matches sid (sshbuf_ptr b) (sshbuf_len b)))
  else
    '(p, len) ← sshbuf_get_string_direct;
    mret (mismatch (session_matches sid p len)).
(** From the session id to the method: both kinds of data begin like this. *)
Definition blob_head (old : bool) (sid : option (list Z)) (userstyle method : list Z) : SE sshbuf Z Z :=
  f1 ← blob_session old sid;
  type ← sshbuf_get_u8;
  user ← get_text;
  _ ← sshbuf_skip_string;
  cp ← get_text;
  mret (f1 + mismatch (type =? SSH2_MSG_USERAUTH_REQUEST) + mismatch (bytes_eqb userstyle user) + mismatch (bytes_eqb method cp)).
Definition userblob (old : bool) (sid : option (list Z)) (userstyle : list Z) : SE sshbuf Z Z :=
  f1 ← blob_head old sid userstyle (str "publickey");
  type ← sshbuf_get_u8;
  _ ← sshbuf_skip_string;
  _ ← sshbuf_skip_string;
  b ← gets id;
  mret (f1 + mismatch (negb (type =? 0)) + mismatch (sshbuf_len b =? 0)).
Definition strip_dot (s : list Z) : list Z := if (0 <? zlen s) && (znth s (zlen s - 1) =? 46) then ztake (zlen s - 1) s else s.
Definition hostbasedblob (sid : option (list Z)) (userstyle cuser chost : list Z) : SE sshbuf Z Z :=
  f1 ← blob_head false sid userstyle (str "hostbased");
  _ ← sshbuf_skip_string;
  _ ← sshbuf_skip_string;
  host ← get_text;
  user ← get_text;
  b ← gets id;
  mret (f1 + mismatch (bytes_eqb (strip_dot host) chost) + mismatch (bytes_eqb user cuser) + mismatch (sshbuf_len b =? 0)).
(** [None] is fatal. *)
Definition run_blob (m : SE sshbuf Z Z) (data : list Z) : option bool :=
  b ← sshbuf_new;
  match (_ ← sshbuf_put data (zlen data); m) b with (inr fail, _) => Some (fail =? 0) | (inl _, _) => None end.
Definition userstyle (a : Authctxt) : list Z :=
  default (str "(null)") (ac_user a) ++ match ac_style a with Some style => str ":" ++ style | None => [] end.
Definition monitor_valid_userblob (data : list Z) : MO bool :=
  sid ← core c_session_id2;
  us ← ctxt userstyle;
  need (run_blob (userblob (truthy (Z.land datafellows SSH_OLD_SESSIONID)) sid us) data).
Definition monitor_valid_hostbasedblob (data cuser chost : list Z) : MO bool :=
  sid ← core c_session_id2;
  us ← ctxt userstyle;
  need (run_blob (hostbasedblob sid us cuser chost) data).

Definition mm_answer_keyverify : MO Z :=
  blob ← msg sshbuf_get_string;
  signature ← msg sshbuf_get_string;
  data ← msg sshbuf_get_string;
  sigalg ← msg get_text;
  k ← core c_key;
  k ← need k;
  allowed ← monitor_allowed_key blob;
  _ ← fatal_if (negb allowed);
  key ← match sshkey_from_blob blob with inl _ => throw Fatal | inr key => mret key end;
  valid_data ←
    (if ks_type k =? MM_USERKEY then v ← monitor_valid_userblob data; _ ← set_method_name (str "publickey"); mret (v : bool)
     else if ks_type k =? MM_HOSTKEY then
       v ← monitor_valid_hostbasedblob data (ks_cuser k) (ks_chost k); _ ← set_method_name (str "hostbased"); mret (v : bool)
     else mret false);
  _ ← fatal_if (negb (valid_data : bool));
  let ret := sshkey_verify key signature data (if zlen sigalg =? 0 then None else Some sigalg) in
  _ ← note (EvVerify (ks_type k) key data ret);
  _ ← auth2_record_key (ret =? 0) key;
  _ ← (if ks_type k =? MM_USERKEY then _ ← auth_activate_options (ks_opts k); mret tt else mret tt);
  _ ← monitor_reset_key_state;
  _ ← reset_msg;
  _ ← msg (sshbuf_put_u32 (if ret =? 0 then 0 else 1));
  _ ← mm_request_send MONITOR_ANS_KEYVERIFY;
  mret (flag (ret =? 0)).

(** ** The loop *)

Definition monitor_read_log : MO Z :=
  logmsg ← need sshbuf_new;
  '(_, logmsg) ← on_buf (sshbuf_reserve 4) logmsg;
  r ← atomic_read true 4;
  match r with
  | R_eof => _ ← set_io (set_io_log_open false); mret (-1)
  | R_error => throw Fatal
  | R_bytes p =>
      '(_, logmsg) ← on_buf (poke 0 p) logmsg;
      '(len, logmsg) ← on_buf sshbuf_get_u32 logmsg;
      _ ← fatal_if ((len <=? 4) || (8192 <? len));
      '(dp, logmsg) ← on_buf (sshbuf_reserve len) (sshbuf_reset logmsg);
      r ← atomic_read true len;
      match r with
      | R_bytes p =>
          '(_, logmsg) ← on_buf (poke dp p) logmsg;
          '(level, logmsg) ← on_buf sshbuf_get_u32 logmsg;
          _ ← on_buf sshbuf_get_cstring logmsg;
          _ ← fatal_if (negb (log_level_known level));
          mret 0
      | _ => throw Fatal
      end
  end.

Definition run_handler (f : handler) : MO Z :=
  match f with
  | Mm_moduli => mm_answer_moduli | Mm_sign => mm_answer_sign | Mm_pwnamallow => mm_answer_pwnamallow
  | Mm_authserv => mm_answer_authserv | Mm_auth2_read_banner => mm_answer_auth2_read_banner
  | Mm_authpassword => mm_answer_authpassword | Mm_pam_start => mm_answer_pam_start | Mm_pam_account => mm_answer_pam_account
  | Mm_pam_init_ctx => mm_answer_pam_init_ctx | Mm_pam_query => mm_answer_pam_query | Mm_pam_respond => mm_answer_pam_respond
  | Mm_pam_free_ctx => mm_answer_pam_free_ctx | Mm_keyallowed => mm_answer_keyallowed | Mm_keyverify => mm_answer_keyverify
  end.

(** Waiting for a request; log messages are read before. *)
Fixpoint wait_request (fuel : nat) : MO () :=
  match fuel with
  | O => throw Hung
  | S fuel' =>
      r ← ask mon_poll;
      log ← io io_log_open;
      match r with
      | Poll_error => throw Fatal
      | Poll_again => wait_request fuel'
      | Poll_log => _ ← (if (log : bool) then _ ← monitor_read_log; mret tt else mret tt); wait_request fuel'
      | Poll_request => mret tt
      end
  end.
(** The result of the handler, and the entry of the request. *)
Definition monitor_read : MO (Z * mon_table) :=
  _ ← wait_request mon_rounds;
  _ ← new_msg;
  _ ← mm_request_receive;
  type ← msg sshbuf_get_u8;
  t ← core c_dispatch;
  ent ← need (find_entry t type);
  _ ← fatal_if (negb (truthy (Z.land (mt_flags ent) MON_PERMIT)));
  ret ← run_handler (mt_f ent);
  _ ← when (truthy (Z.land (mt_flags ent) MON_ONCE)) (monitor_permit type false);
  mret (ret, ent).

Definition decides (ent : mon_table) : bool := truthy (Z.land (mt_flags ent) MON_AUTHDECIDE).
Definition current {A} (f : list Z -> option (list Z) -> MO A) : MO A :=
  method ← core c_method; submethod ← core c_submethod; f method submethod.
Definition grant_note (ok : bool) : MO () := when ok (current (fun method submethod => note (EvGrant method submethod))).
(** Required methods: whether the user is authenticated now, or partly. *)
Definition required_methods (authenticated : bool) : MO (bool * bool) :=
  required ← options op_auth_methods;
  if bool_decide (required = []) || negb authenticated then mret (authenticated, false)
  else
    complete ← current update_methods_lists;
    mret (if (complete : bool) then (true, false) else (false, true)).
(** The last checks: the entry decides, root may log in, PAM accepts the account. *)
Definition final_checks (ent : mon_table) : MO bool :=
  _ ← fatal_if (negb (decides ent));
  pw ← ctxt ac_pw;
  pw ← deref pw;
  ok ← (if pw_uid pw =? 0 then method ← core c_method; auth_root_allowed method else mret true);
  use ← options op_use_pam;
  if use && ok then
    _ ← new_msg;
    _ ← mm_request_receive_expect MONITOR_REQ_PAM_ACCOUNT;
    r ← mm_answer_pam_account;
    mret (truthy r)
  else mret ok.
Definition preauth_round : MO bool :=
  _ ← set_method (str "unknown") None;
  _ ← auth2_authctxt_reset_info;
  '(ret, ent) ← monitor_read;
  let authenticated := ret =? 1 in
  _ ← grant_note (authenticated && decides ent);
  '(authenticated, partial) ← required_methods authenticated;
  authenticated ← (if (authenticated : bool) then final_checks ent else mret false);
  _ ← when (truthy (Z.land (mt_flags ent) (Z.lor MON_AUTHDECIDE MON_ALOG))) (
        _ ← when (negb partial && negb authenticated) (set_ctxt (fun a => set_ac_failures (i32 (ac_failures a + 1)) a));
        when (authenticated || partial) (current auth2_update_session_info));
  mret authenticated.
Fixpoint preauth_loop (fuel : nat) : MO () :=
  match fuel with
  | O => throw Hung
  | S fuel' => authenticated ← preauth_round; if (authenticated : bool) then mret tt else preauth_loop fuel'
  end.
(** The log messages that are left. *)
Fixpoint drain_log (fuel : nat) : MO () :=
  match fuel with
  | O => throw Hung
  | S fuel' =>
      log ← io io_log_open;
      if (log : bool) then r ← monitor_read_log; if r =? 0 then drain_log fuel' else mret tt else mret tt
  end.
Definition mm_get_keystate : MO () := _ ← new_msg; mm_request_receive_expect MONITOR_REQ_KEYEXPORT.
Definition monitor_child_preauth : MO () :=
  _ ← set_core (fun c => set_c_dispatch mon_dispatch_proto20 (set_c_ctxt zero_ctxt c));
  _ ← monitor_permit MONITOR_REQ_MODULI true;
  _ ← monitor_permit MONITOR_REQ_SIGN true;
  _ ← preauth_loop mon_rounds;
  valid ← ctxt ac_valid;
  _ ← fatal_if (negb valid);
  method ← core c_method;
  _ ← fatal_if (bytes_eqb method (str "unknown"));
  _ ← mm_get_keystate;
  _ ← drain_log mon_rounds;
  set_io (set_io_log_open false).
End Monitor.
