(* ===== verification/SignedData.v ===== *)
(** * What a signature of the client is over

    monitor_valid_userblob and monitor_valid_hostbasedblob accept exactly data
    that consists of the fields of an authentication request, for this session
    and this user: nothing else that the client or the unprivileged process may
    get signed is taken for a request.

    The readers of a buffer are inverted here: what a successful read says about
    the bytes that were there ([Reads]). *)

From stdpp Require Import list.
From S2P Require Import Prelude CText Sshbuf Match ChachaPoly AddrMatch PacketSend Kex KexSpec AuthOpts AuthLists Monitor.

Lemma POKE_PEEK a b c d rest : is_u8 a -> is_u8 b -> is_u8 c -> is_u8 d -> POKE_U32 (PEEK_U32 (a :: b :: c :: d :: rest)) = [a; b; c; d].
Proof.
  unfold is_u8. intros. rewrite POKE_U32_bytes, PEEK_U32_val.
  change (be_bytes 4 (u32 (be_val 0 [u8 a; u8 b; u8 c; u8 d])) = [a; b; c; d]). rewrite !u8_id by lia. cbn [be_val]. rewrite u32_id by lia.
  cbn [be_bytes app]. repeat f_equal; Z.to_euclidean_division_equations; lia.
Qed.

Section Data.
Context {al : Allocator} {altot : @AllocTotal al}.

(** If [m] gives [x], the bytes it took are some [e] with [enc x e]. *)
Definition Reads {A} (m : SE sshbuf Z A) (enc : A -> list Z -> Prop) : Prop :=
  forall b x b', buf_rw b -> Forall is_u8 (contents b) -> m b = (inr x, b') ->
  buf_rw b' /\ exists e, enc x e /\ contents b = e ++ contents b'.

Lemma string_shape a s a' : Forall is_u8 (pending a) -> a_get_string a = (inr s, a') -> pending a = enc_string s ++ pending a'.
Proof.
  unfold a_get_string. intros Hu. pose proof (PEEK_U32_range (pending a)). destruct (Z.ltb_spec (zlen (pending a)) 4) as [|H4]; [done|].
  destruct (Z.ltb_spec (SSHBUF_SIZE_MAX - 4) (PEEK_U32 (pending a))); [done|]. destruct (Z.ltb_spec (zlen (pending a) - 4) (PEEK_U32 (pending a))) as [|Hl]; [done|].
  intros [= <- <-]. cbn [pending]. unfold enc_string. rewrite zlen_zslice by lia. destruct (pending a) as [|x0 [|x1 [|x2 [|x3 rest]]]]; try (unfold zlen in H4; cbn in H4; lia).
  repeat (apply Forall_cons_1 in Hu as [? Hu]). rewrite POKE_PEEK by done. unfold zslice. rewrite <- zdrop_zdrop by lia.
  change (zdrop 4 (x0 :: x1 :: x2 :: x3 :: rest)) with rest. rewrite <- app_assoc, ztake_zdrop. done.
Qed.

Lemma Refines_inv {A} (m : SE sshbuf Z A) a b x b' : Refines m a -> buf_rw b -> m b = (inr x, b') -> a (abs b) = (inr x, abs b') /\ buf_rw b'.
Proof. intros Hm Hb E. destruct (Hm b Hb) as (H1 & H2 & H3). rewrite E in *. cbn in *. split; [|done]. destruct (a (abs b)). cbn in *. congruence. Qed.
Definition is_string (v e : list Z) : Prop := e = enc_string v.
(** [v] is read as the text [t]: a zero byte is at most its last. *)
Definition text_of (v t : list Z) : Prop := cstr v = t /\ zlen v - 1 <= zlen t.
Definition is_text (x e : list Z) : Prop := exists v, e = enc_string v /\ text_of v x.
Lemma Reads_u8 : Reads sshbuf_get_u8 (fun x e => e = [x]).
Proof.
  intros b x b' Hb Hu E. destruct (Refines_inv _ _ _ _ _ Refines_get_u8 Hb E) as [Ea Hb']. split; [done|]. exists [x]. split; [done|].
  apply SE_bind_inv in Ea as (l & a1 & Et & Er). unfold a_take in Et. cbn [abs pending cap] in Et. destruct (Z.ltb_spec (zlen (contents b)) 1) as [|Hl]; [done|].
  injection Et as <- <-. injection Er as Ex Ea _. destruct (contents b) as [|y l]; [unfold zlen in Hl; cbn in Hl; lia|]. change (y = x) in Ex. subst y.
  rewrite <- Ea. reflexivity.
Qed.
Lemma Reads_text : Reads get_text is_text.
Proof.
  intros b x b' Hb Hu E. unfold get_text in E. apply SE_bind_inv in E as (v & b1 & E & Er). injection Er as <- <-.
  destruct (Refines_inv _ _ _ _ _ Refines_get_cstring Hb E) as [Ea Hb']. split; [done|]. exists (enc_string v).
  unfold a_get_cstring in Ea. destruct (a_get_string (abs b)) as [[e|s] a'] eqn:Es; [done|]. destruct (Z.ltb_spec (zlen (cstr s)) (zlen s - 1)); [done|].
  injection Ea as -> ->. split; [|exact (string_shape (abs b) _ _ Hu Es)]. by exists v.
Qed.
Lemma Reads_direct : Reads sshbuf_get_string_direct (fun x e => e = enc_string (ztake x.2 x.1) /\ x.2 = zlen (ztake x.2 x.1)).
Proof.
  intros b [p len] b' Hb Hu E. destruct (get_string_direct_rw b Hb) as (Hd & Ha & Hb'). rewrite E in *. cbn [fst snd] in *. split; [done|].
  destruct (a_get_string (abs b)) as [[e|s] a'] eqn:Es; [done|]. cbn in Hd, Ha. destruct Hd as (-> & Hl & _). subst a'. exists (enc_string (ztake len p)).
  split; [done|]. exact (string_shape (abs b) _ _ Hu Es).
Qed.
Lemma Reads_skip : Reads sshbuf_skip_string (fun _ e => exists v, e = enc_string v).
Proof.
  intros b [] b' Hb Hu E. unfold sshbuf_skip_string in E. apply SE_bind_inv in E as (x & b1 & E & Er). injection Er as <-.
  destruct (Reads_direct b x b1 Hb Hu E) as (Hb' & e & [He _] & Hc). split; [done|]. exists e. split; [by eexists|done].
Qed.
Lemma Reads_step {A} (m : SE sshbuf Z A) enc b x b' : Reads m enc -> buf_rw b -> Forall is_u8 (contents b) -> m b = (inr x, b') ->
  exists e, enc x e /\ contents b = e ++ contents b' /\ buf_rw b' /\ Forall is_u8 (contents b').
Proof.
  intros Hm Hb Hu E. destruct (Hm b x b' Hb Hu E) as (Hb' & e & He & Hc). exists e. split_and!; [done..|]. rewrite Hc in Hu. by apply Forall_app in Hu as [_ ?].
Qed.
Lemma mismatch_0 b : mismatch b = 0 <-> b = true.
Proof. by destruct b. Qed.

(** The session id as a string; peers with an old format send it without its
    length. *)
Definition session_bytes (old : bool) (sid : list Z) : list Z := if old then sid else enc_string sid.
(** The fields both kinds of data begin with: this session, the type of the
    message, the user, a service, the method. *)
Definition head_bytes (old : bool) (sid user service method : list Z) : list Z :=
  session_bytes old sid ++ [50] ++ enc_string user ++ enc_string service ++ enc_string method.
(** The data of a request with a key of the user; of one with a key of a host. *)
Definition user_request (old : bool) (sid us data : list Z) : Prop :=
  exists user service method b pkalg pkblob,
  data = head_bytes old sid user service method ++ [b] ++ enc_string pkalg ++ enc_string pkblob /\
  text_of user us /\ text_of method (str "publickey") /\ b <> 0.
(** A dot at the end of the name of a host does not count. *)
Definition host_name (h chost : list Z) : Prop := h = chost ++ [46] \/ (h = chost /\ last h <> Some 46).
Definition host_request (sid us cuser chost data : list Z) : Prop :=
  exists user service method pkalg pkblob host h name,
  data = head_bytes false sid user service method ++ enc_string pkalg ++ enc_string pkblob ++ enc_string host ++ enc_string name /\
  text_of user us /\ text_of method (str "hostbased") /\ text_of host h /\ host_name h chost /\ text_of name cuser.

Lemma strip_dot_name h chost : strip_dot h = chost <-> host_name h chost.
Proof.
  unfold strip_dot, host_name. destruct (decide (h = [])) as [->|Hn].
  { split; [intros <-; by right|]. intros [H|[<- _]]; [by destruct chost|done]. }
  destruct (exists_last Hn) as (l & x & ->). rewrite zlen_app, last_snoc. change (zlen [x]) with 1. zlen_facts. rewrite (proj2 (Z.ltb_lt 0 _)) by lia. cbn [andb].
  replace (zlen l + 1 - 1) with (zlen l) by lia. replace (znth (l ++ [x]) (zlen l)) with x.
  2:{ unfold znth, zlen. rewrite Nat2Z.id, app_nth2 by lia. by rewrite Nat.sub_diag. }
  rewrite ztake_app_exact by done. destruct (Z.eqb_spec x 46) as [->|Hx]; split.
  - intros ->. by left.
  - intros [Hh|[_ Hh]]; [by apply app_inj_tail in Hh as [-> _]|done].
  - intros <-. right. split; [done|congruence].
  - intros [Hh|[-> _]]; [|done]. apply app_inj_tail in Hh as [_ ->]. done.
Qed.
Lemma bcmp_prefix (p s : list Z) : zlen p = zlen s -> (timingsafe_bcmp p s 0 =? 0) = true -> p = s.
Proof. intros Hl. rewrite bcmp_zero by (unfold zlen in Hl; lia). by intros [_ ?]%bool_decide_eq_true. Qed.
Lemma session_inv old sid b f b' : buf_rw b -> Forall is_u8 (contents b) -> blob_session old (Some sid) b = (inr f, b') ->
  exists e, contents b = e ++ contents b' /\ buf_rw b' /\ Forall is_u8 (contents b') /\ 0 <= f /\ (f = 0 -> e = session_bytes old sid).
Proof.
  intros Hb Hu E. destruct old; unfold blob_session in E.
  - apply SE_bind_inv in E as (b0 & b1 & E0 & E). injection E0 as <- <-. apply SE_bind_inv in E as ([] & b2 & E1 & E). injection E as <- <-. cbn [default from_option id] in *.
    pose proof (zlen_nonneg sid) as Hn. destruct (Refines_inv _ _ _ _ _ (Refines_consume _ Hn) Hb E1) as [Ea Hb2].
    apply SE_bind_inv in Ea as (x & a1 & Et & Er). unfold a_take in Et. cbn [abs pending cap] in Et. destruct (Z.ltb_spec (zlen (contents b)) (zlen sid)) as [|Hl]; [done|].
    injection Et as <- <-. injection Er as Ec _. exists (ztake (zlen sid) (contents b)). rewrite <- Ec, ztake_zdrop. split_and!; [done|done| | |].
    + rewrite <- (ztake_zdrop (zlen sid) (contents b)) in Hu. by apply Forall_app in Hu as [_ ?].
    + match goal with |- 0 <= mismatch ?x => by destruct x end.
    + intros Hf%mismatch_0. unfold old_session_matches in Hf. apply andb_true_iff in Hf as [_ Hbc].
      rewrite sshbuf_ptr_contents in Hbc by (by destruct Hb). cbn [session_bytes].
      rewrite ztake_app_l in Hbc by lia. apply bcmp_prefix in Hbc; [done|]. by apply zlen_ztake.
  - apply SE_bind_inv in E as ([p len] & b0 & E1 & E2). injection E2 as <- <-.
    destruct (Reads_step _ _ _ _ _ Reads_direct Hb Hu E1) as (e1 & [-> Hl] & C1 & Hb1 & Hu1). cbn [fst snd] in *. eexists. split_and!; [done..| |].
    + match goal with |- 0 <= mismatch ?x => by destruct x end.
    + intros Hf%mismatch_0. apply andb_true_iff in Hf as [Hlen%Z.eqb_eq Hbc]. cbn [session_bytes].
      rewrite bcmp_zero in Hbc by (rewrite Hl in Hlen; unfold zlen in Hlen; lia). by apply bool_decide_eq_true in Hbc as [_ ->].
Qed.
Lemma head_inv old sid us m b f b' : buf_rw b -> Forall is_u8 (contents b) -> blob_head old (Some sid) us m b = (inr f, b') ->
  0 <= f /\ buf_rw b' /\ Forall is_u8 (contents b') /\
  (f = 0 -> exists user service method, contents b = head_bytes old sid user service method ++ contents b' /\ text_of user us /\ text_of method m).
Proof.
  intros Hb Hu E. unfold blob_head in E. apply SE_bind_inv in E as (f1 & b1 & E1 & E).
  destruct (session_inv _ _ _ _ _ Hb Hu E1) as (e1 & C1 & Hb1 & Hu1 & Hf1 & He1).
  apply SE_bind_inv in E as (type & b2 & E2 & E). destruct (Reads_step _ _ _ _ _ Reads_u8 Hb1 Hu1 E2) as (e2 & -> & C2 & Hb2 & Hu2).
  apply SE_bind_inv in E as (u & b3 & E3 & E). destruct (Reads_step _ _ _ _ _ Reads_text Hb2 Hu2 E3) as (e3 & (user & -> & Tu) & C3 & Hb3 & Hu3).
  apply SE_bind_inv in E as ([] & b4 & E4 & E). destruct (Reads_step _ _ _ _ _ Reads_skip Hb3 Hu3 E4) as (e4 & (service & ->) & C4 & Hb4 & Hu4).
  apply SE_bind_inv in E as (cp & b5 & E5 & E). destruct (Reads_step _ _ _ _ _ Reads_text Hb4 Hu4 E5) as (e5 & (method & -> & Tm) & C5 & Hb5 & Hu5).
  injection E as <- <-. split; [repeat match goal with |- context [mismatch ?x] => destruct x; cbn [mismatch] end; lia|]. split_and!; [done..|].
  intros Hf. exists user, service, method.
  destruct (Z.eqb_spec type SSH2_MSG_USERAUTH_REQUEST) as [->|], (bytes_eqb us u) eqn:B3, (bytes_eqb m cp) eqn:B4; cbn [mismatch] in Hf; try lia.
  apply bytes_eqb_eq in B3 as <-. apply bytes_eqb_eq in B4 as <-. split; [|done].
  rewrite C1, C2, C3, C4, C5, He1 by lia. unfold head_bytes. by rewrite <- !app_assoc.
Qed.

(** The buffer that the functions read has just the data. *)
Lemma run_blob_inv m data : Forall is_u8 data -> zlen data <= SSHBUF_SIZE_MAX -> run_blob m data = Some true ->
  exists b b', buf_rw b /\ contents b = data /\ Forall is_u8 (contents b) /\ m b = (inr 0, b').
Proof.
  intros Hu Hlen. unfold run_blob. destruct new_empty as (b0 & -> & Hb0 & Hc0 & _). cbn [mbind option_bind].
  destruct ((sshbuf_put data (zlen data) ≫= (λ _, m)) b0) as [[e|f] b'] eqn:E; [done|]. intros [= ->%Z.eqb_eq].
  apply SE_bind_inv in E as ([] & b1 & Ep & Em). zlen_facts. unfold SSHBUF_SIZE_MAX in Hlen.
  destruct (Refines_inv _ _ _ _ _ (Puts_refines _ _ (Puts_put data (zlen data) ltac:(lia) ltac:(lia))) Hb0 Ep) as [Ea Hb1].
  unfold a_put in Ea. destruct (_ <? _); [done|]. injection Ea as Ea _. cbn in Ea. rewrite Hc0 in Ea. cbn in Ea. rewrite ztake_all in Ea by lia.
  exists b1, b'. by rewrite <- Ea.
Qed.
Lemma empty_contents b : buf_rw b -> sshbuf_len b = 0 -> contents b = [].
Proof. intros Hb. rewrite sshbuf_len_contents by (by destruct Hb). apply zlen_0_nil. Qed.

Lemma userblob_only old sid us data : Forall is_u8 data -> zlen data <= SSHBUF_SIZE_MAX -> run_blob (userblob old (Some sid) us) data = Some true -> user_request old sid us data.
Proof.
  intros Hd Hlen.
  intros (b & b' & Hb & Hc & Hu & E)%run_blob_inv; [|done..]. unfold userblob in E. apply SE_bind_inv in E as (f & b1 & E1 & E).
  destruct (head_inv _ _ _ _ _ _ _ Hb Hu E1) as (Hf & Hb1 & Hu1 & Hhead).
  apply SE_bind_inv in E as (type & b2 & E2 & E). destruct (Reads_step _ _ _ _ _ Reads_u8 Hb1 Hu1 E2) as (e2 & -> & C2 & Hb2 & Hu2).
  apply SE_bind_inv in E as ([] & b3 & E3 & E). destruct (Reads_step _ _ _ _ _ Reads_skip Hb2 Hu2 E3) as (e3 & (pkalg & ->) & C3 & Hb3 & Hu3).
  apply SE_bind_inv in E as ([] & b4 & E4 & E). destruct (Reads_step _ _ _ _ _ Reads_skip Hb3 Hu3 E4) as (e4 & (pkblob & ->) & C4 & Hb4 & Hu4).
  injection E as E _. destruct (Z.eqb_spec type 0) as [|Ht], (Z.eqb_spec (sshbuf_len b4) 0) as [Hl|]; cbn [mismatch negb id] in E; try lia.
  destruct Hhead as (user & service & method & C1 & Eu & Em); [lia|]. exists user, service, method, type, pkalg, pkblob.
  split; [|done]. rewrite <- Hc, C1, C2, C3, C4, (empty_contents b4), !app_nil_r by done. done.
Qed.
Lemma hostbasedblob_only sid us cuser chost data : Forall is_u8 data -> zlen data <= SSHBUF_SIZE_MAX -> run_blob (hostbasedblob (Some sid) us cuser chost) data = Some true ->
  host_request sid us cuser chost data.
Proof.
  intros Hd Hlen.
  intros (b & b' & Hb & Hc & Hu & E)%run_blob_inv; [|done..]. unfold hostbasedblob in E. apply SE_bind_inv in E as (f & b1 & E1 & E).
  destruct (head_inv _ _ _ _ _ _ _ Hb Hu E1) as (Hf & Hb1 & Hu1 & Hhead).
  apply SE_bind_inv in E as ([] & b3 & E3 & E). destruct (Reads_step _ _ _ _ _ Reads_skip Hb1 Hu1 E3) as (e3 & (pkalg & ->) & C3 & Hb3 & Hu3).
  apply SE_bind_inv in E as ([] & b4 & E4 & E). destruct (Reads_step _ _ _ _ _ Reads_skip Hb3 Hu3 E4) as (e4 & (pkblob & ->) & C4 & Hb4 & Hu4).
  apply SE_bind_inv in E as (h & b5 & E5 & E). destruct (Reads_step _ _ _ _ _ Reads_text Hb4 Hu4 E5) as (e5 & (host & -> & Th) & C5 & Hb5 & Hu5).
  apply SE_bind_inv in E as (n & b6 & E6 & E). destruct (Reads_step _ _ _ _ _ Reads_text Hb5 Hu5 E6) as (e6 & (name & -> & Tn) & C6 & Hb6 & Hu6).
  injection E as E _. destruct (bytes_eqb (strip_dot h) chost) eqn:B1, (bytes_eqb n cuser) eqn:B2, (Z.eqb_spec (sshbuf_len b6) 0) as [Hl|];
    cbn [mismatch negb id] in E; try lia. apply bytes_eqb_eq, strip_dot_name in B1. apply bytes_eqb_eq in B2. subst n.
  destruct Hhead as (user & service & method & C1 & Eu & Em); [lia|]. exists user, service, method, pkalg, pkblob, host, h, name.
  split; [|done]. rewrite <- Hc, C1, C3, C4, C5, C6, (empty_contents b6), !app_nil_r by done. done.
Qed.

(** *** The other way: data made like that is accepted *)

Lemma a_string_ok b v rest : buf_rw b -> contents b = enc_string v ++ rest -> a_get_string (abs b) = (inr v, mk_abuf rest (b_max_size b)).
Proof.
  intros Hb Hc. destruct (get_string_ok b v rest Hb Hc) as (b1 & E1 & _ & Ha1). destruct (Refines_get_string b Hb) as (Hr & Ha & _). rewrite E1 in Hr, Ha.
  cbn in Hr, Ha. rewrite Ha1 in Ha. destruct (a_get_string (abs b)). cbn in *. congruence.
Qed.
Lemma direct_ok b v rest : buf_rw b -> contents b = enc_string v ++ rest ->
  exists p b', sshbuf_get_string_direct b = (inr (p, zlen v), b') /\ ztake (zlen v) p = v /\ buf_rw b' /\ abs b' = mk_abuf rest (b_max_size b).
Proof.
  intros Hb Hc. destruct (get_string_direct_rw b Hb) as (Hd & Ha & Hb'). rewrite (a_string_ok _ _ _ Hb Hc) in Hd, Ha.
  destruct (sshbuf_get_string_direct b) as [[r|[p len]] b']; cbn in *; [done|]. destruct Hd as (Hv & -> & _). by exists p, b'.
Qed.
Lemma Parses_skip v : Parses sshbuf_skip_string tt (enc_string v).
Proof. intros b rest Hb Hc. destruct (direct_ok b v rest Hb Hc) as (p & b' & E & _ & H). exists b'. unfold sshbuf_skip_string. by rewrite (SE_bind_ok _ _ _ _ _ E). Qed.
Lemma Parses_text v t : text_of v t -> Parses get_text t (enc_string v).
Proof.
  intros [<- Hl]. rewrite <- (app_nil_r (enc_string v)). apply (Parses_bind _ v); [by apply get_cstring_ok|apply Parses_ret].
Qed.
Lemma Parses_session old sid : Parses (blob_session old (Some sid)) 0 (session_bytes old sid).
Proof.
  intros b rest Hb Hc. destruct old; unfold blob_session.
  - cbn [session_bytes] in Hc. pose proof (zlen_nonneg sid) as Hn. destruct (Refines_consume _ Hn b Hb) as (Hr & Ha & Hb'). cbn [default from_option id] in *.
    assert (Ea : (_ ← a_take (zlen sid); mret tt) (abs b) = (inr tt, mk_abuf rest (b_max_size b))).
    { unfold a_take, mbind, SE_bind. cbn [abs pending cap]. rewrite Hc, zlen_app. zlen_facts. rewrite (proj2 (Z.ltb_ge _ _)) by lia. by rewrite zdrop_app_exact by done. }
    rewrite Ea in Hr, Ha. destruct (sshbuf_consume (zlen sid) b) as [[e|[]] b'] eqn:E; [done|]. exists b'. cbn in Ha, Hb'.
    change (gets id ≫= ?k) with (gets (S:=sshbuf) (E:=Z) id ≫= k). unfold mbind at 1, SE_bind at 1, gets. cbn [id]. rewrite (SE_bind_ok _ _ _ _ _ E).
    split; [|done]. unfold old_session_matches. rewrite sshbuf_ptr_contents, sshbuf_len_contents, Hc, zlen_app by (by destruct Hb). zlen_facts.
    rewrite (proj2 (Z.ltb_ge _ _)) by lia. rewrite <- app_assoc, ztake_app_exact, bcmp_zero by done. by rewrite bool_decide_eq_true_2.
  - destruct (direct_ok b sid rest Hb Hc) as (p & b' & E & Hp & H). exists b'. rewrite (SE_bind_ok _ _ _ _ _ E).
    cbn [session_matches]. rewrite Hp, Z.eqb_refl, bcmp_zero by done. by rewrite bool_decide_eq_true_2.
Qed.
Lemma bytes_eqb_self s : bytes_eqb s s = true.
Proof. by apply bytes_eqb_eq. Qed.
Lemma Parses_head old sid us m user service method : text_of user us -> text_of method m ->
  Parses (blob_head old (Some sid) us m) 0 (head_bytes old sid user service method).
Proof.
  intros Hu Hm. eapply Parses_bind; [apply Parses_session|]. eapply Parses_bind; [apply Parses_u8|]. eapply Parses_bind; [by apply Parses_text|].
  eapply Parses_bind; [apply Parses_skip|]. rewrite <- (app_nil_r (enc_string method)). eapply Parses_bind; [by apply Parses_text|].
  rewrite !bytes_eqb_self. apply Parses_ret.
Qed.

(** [m] takes the whole buffer. *)
Definition Ends {A} (m : SE sshbuf Z A) (x : A) (enc : list Z) : Prop := forall b, buf_rw b -> contents b = enc -> exists b', m b = (inr x, b').
Lemma Ends_bind {A B} (m : SE sshbuf Z A) x e1 (k : A -> SE sshbuf Z B) y e2 : Parses m x e1 -> Ends (k x) y e2 -> Ends (m ≫= k) y (e1 ++ e2).
Proof.
  intros Hm Hk b Hb Hc. destruct (Hm b e2 Hb Hc) as (b1 & E1 & Hb1 & [= Hc1 _]). destruct (Hk b1 Hb1 Hc1) as (b2 & E2). exists b2. by rewrite (SE_bind_ok _ _ _ _ _ E1).
Qed.
Lemma Ends_len {A} (f : bool -> A) : Ends (b ← gets id; mret (f (sshbuf_len b =? 0))) (f true) [].
Proof.
  intros b Hb Hc. exists b. unfold mbind, SE_bind, gets. cbn [id]. by rewrite sshbuf_len_contents, Hc by (by destruct Hb).
Qed.
Lemma run_blob_ok m data : zlen data <= SSHBUF_SIZE_MAX -> Ends m 0 data -> run_blob m data = Some true.
Proof.
  intros Hlen Hm. unfold run_blob. destruct new_empty as (b0 & -> & Hb0 & Hc0 & Hm0). cbn [mbind option_bind]. zlen_facts.
  assert (Hp : Puts (sshbuf_put data (zlen data)) (ztake (zlen data) data)) by (apply Puts_put; unfold SSHBUF_SIZE_MAX in Hlen; lia).
  rewrite ztake_all in Hp by lia. destruct (Appends_ok _ data b0 (Puts_Appends _ _ Hp) Hb0) as (b1 & E1 & Hb1 & [= Hc1 _]);
    [rewrite Hc0, Hm0; change (zlen (@nil Z)) with 0; lia|]. rewrite (SE_bind_ok _ _ _ _ _ E1).
  destruct (Hm b1 Hb1) as (b2 & E2); [by rewrite Hc1, Hc0|]. by rewrite E2.
Qed.

(** C24: With a session id, data is accepted for a signature of the user
    exactly if it is, to its last byte, the encoding of an authentication
    request: the id of this session (a string, or for peers with
    SSH_OLD_SESSIONID its bytes alone), the type 50 of the message, the name of
    this user (with its style), a service, the method publickey, a byte that is
    not zero, an algorithm and a key; and data is accepted for a host exactly if
    it is that of a hostbased request, with the names of the client's user and
    host that were checked before (but for a dot at the end).  Data is at most as
    long as a buffer may be, and memory does not run out. *)
Theorem signed_data_bound old sid us data : Forall is_u8 data -> zlen data <= SSHBUF_SIZE_MAX ->
  (run_blob (userblob old (Some sid) us) data = Some true <-> user_request old sid us data) /\
  (forall cuser chost, run_blob (hostbasedblob (Some sid) us cuser chost) data = Some true <-> host_request sid us cuser chost data).
Proof.
  intros Hd Hlen. split; [split; [by apply userblob_only|]|intros cuser chost; split; [by apply hostbasedblob_only|]].
  - intros (user & service & method & t & pkalg & pkblob & -> & Hu & Hm & Ht). apply run_blob_ok; [done|]. eapply Ends_bind; [by apply Parses_head|].
    eapply Ends_bind; [apply Parses_u8|]. eapply Ends_bind; [apply Parses_skip|]. rewrite <- (app_nil_r (enc_string pkblob)). eapply Ends_bind; [apply Parses_skip|].
    apply Z.eqb_neq in Ht. rewrite Ht. exact (Ends_len (fun e => 0 + mismatch true + mismatch e)).
  - intros (user & service & method & pkalg & pkblob & host & h & name & -> & Hu & Hm & Hh & <-%strip_dot_name & Hn). apply run_blob_ok; [done|]. eapply Ends_bind; [by apply Parses_head|].
    do 2 (eapply Ends_bind; [apply Parses_skip|]). eapply Ends_bind; [by apply Parses_text|]. rewrite <- (app_nil_r (enc_string name)). eapply Ends_bind; [by apply Parses_text|].
    rewrite !bytes_eqb_self. exact (Ends_len (fun e => 0 + mismatch true + mismatch true + mismatch e)).
Qed.
End Data.

Definition demo_sid : list Z := repeat 7 32.
Definition demo_blob : list Z := str "key of alice".
Definition signed_data : list Z :=
  enc_string demo_sid ++ [50] ++ enc_string (str "alice") ++ enc_string (str "ssh-connection") ++ enc_string (str "publickey") ++ [1] ++
  enc_string (str "ssh-ed25519") ++ enc_string demo_blob.
Definition old_signed_data : list Z := demo_sid ++ zdrop (4 + zlen demo_sid) signed_data.
Lemma demo_bytes l : forallb is_u8b l = true -> Forall is_u8 l.
Proof. rewrite forallb_forall. intros H. apply Forall_forall. intros x Hx. apply list_elem_of_In, H in Hx. unfold is_u8b in Hx. unfold is_u8. lia. Qed.
Lemma signed_data_bound_witness : user_request false demo_sid (str "alice") signed_data /\ user_request true demo_sid (str "alice") old_signed_data.
Proof.
  split; [apply (@signed_data_bound demo_heap demo_heap_total false demo_sid (str "alice") signed_data)
         |apply (@signed_data_bound demo_heap demo_heap_total true demo_sid (str "alice") old_signed_data)];
    first [apply demo_bytes; vm_compute; reflexivity | vm_compute; by intros | vm_compute; reflexivity].
Defined.
