(* ===== verification/MonitorSafe.v ===== *)
(** * Who is authenticated by the monitor

    When monitor_child_preauth returns, whatever the unprivileged process sent,
    the user was found in the data base, every method that was granted is backed
    by what the system answered (a password accepted by PAM or the password
    file, PAM's process having said that its device has ended, a signature by an
    allowed key over this session and this user), the configured lists of
    methods are fulfilled, root may log in this way, and PAM accepts the
    account.

    The proof is a weakest precondition over the part of the state that decides
    ([mcore]); whatever only touches sockets, messages and buffers keeps it. *)

From stdpp Require Import list.
From S2P Require Import Prelude CText Sshbuf Match ChachaPoly AddrMatch PacketSend Kex AuthOpts AuthLists Monitor SignedData.

Local Arguments str : simpl never.

Section Safe.
Context {heap : Allocator} {keys : SshKeys} {env : MonEnv}.

(** ** Weakest preconditions *)

(** If [m] returns from [c], whatever the sockets hold, [Q] accepts it. *)
Definition wp {A} (m : MO A) (Q : A -> mcore -> Prop) (c : mcore) : Prop :=
  forall i, match m (mk_mon c i) with (inr a, s') => Q a (mn_core s') | (inl _, _) => True end.
Definition quiet {A} (m : MO A) : Prop := forall Q c, (forall a, Q a c) -> wp m Q c.

Lemma wp_ret {A} (a : A) Q c : Q a c -> wp (mret a) Q c.
Proof. by intros H i. Qed.
Lemma wp_throw {A} e Q c : wp (A:=A) (throw e) Q c.
Proof. by intros i. Qed.
Lemma wp_bind {A B} (m : MO A) (k : A -> MO B) Q c : wp m (fun a c' => wp (k a) Q c') c -> wp (m ≫= k) Q c.
Proof.
  intros H i. specialize (H i). unfold mbind, SE_bind. destruct (m (mk_mon c i)) as [[e|a] [c' i']]; [done|]. exact (H i').
Qed.
Lemma wp_conseq {A} (m : MO A) (Q R : A -> mcore -> Prop) c : wp m Q c -> (forall a c', Q a c' -> R a c') -> wp m R c.
Proof. intros H HQ i. specialize (H i). destruct (m (mk_mon c i)) as [[e|a] s']; auto. Qed.
Lemma wp_core {A} (f : mcore -> A) Q c : Q (f c) c -> wp (core f) Q c.
Proof. by intros H i. Qed.
Lemma wp_set_core f Q c : Q tt (f c) -> wp (set_core f) Q c.
Proof. by intros H i. Qed.
Lemma wp_when b (m : MO ()) Q c : (b = true -> wp m Q c) -> (b = false -> Q tt c) -> wp (when b m) Q c.
Proof. intros H1 H2. destruct b; [by apply H1|]. apply wp_ret. by apply H2. Qed.
Lemma wp_fatal_if b Q c : (b = false -> Q tt c) -> wp (fatal_if b) Q c.
Proof. intros H. destruct b; [apply wp_throw|]. apply wp_ret. by apply H. Qed.
Lemma wp_deref {A} (p : option A) Q c : (forall a, p = Some a -> Q a c) -> wp (deref p) Q c.
Proof. intros H. destruct p; [apply wp_ret; by apply H|apply wp_throw]. Qed.
Lemma wp_need {A} (p : option A) Q c : (forall a, p = Some a -> Q a c) -> wp (need p) Q c.
Proof. intros H. destruct p; [apply wp_ret; by apply H|apply wp_throw]. Qed.

(** *** What only touches sockets and buffers *)

Lemma quietly_ret {A} (a : A) : quiet (mret a).
Proof. intros Q c H. by apply wp_ret. Qed.
Lemma quiet_throw {A} e : quiet (A:=A) (throw e).
Proof. intros Q c H. apply wp_throw. Qed.
Lemma quietly_bind {A B} (m : MO A) (k : A -> MO B) : quiet m -> (forall a, quiet (k a)) -> quiet (m ≫= k).
Proof. intros Hm Hk Q c H. apply wp_bind, Hm. intros a. by apply Hk. Qed.
Lemma quiet_io {A} (f : mio -> A) : quiet (io f).
Proof. intros Q c H i. apply H. Qed.
Lemma quiet_set_io f : quiet (set_io f).
Proof. intros Q c H i. apply H. Qed.
Lemma quiet_core {A} (f : mcore -> A) : quiet (core f).
Proof. intros Q c H i. apply H. Qed.
Lemma quiet_fatal_if b : quiet (fatal_if b).
Proof. destruct b; [apply quiet_throw|apply quietly_ret]. Qed.
Lemma quietly_need {A} (p : option A) : quiet (need p).
Proof. destruct p; [apply quietly_ret|apply quiet_throw]. Qed.
Lemma quiet_deref {A} (p : option A) : quiet (deref p).
Proof. destruct p; [apply quietly_ret|apply quiet_throw]. Qed.
Lemma quiet_on_buf {A} (m : SE sshbuf Z A) b : quiet (on_buf m b).
Proof. unfold on_buf. destruct (m b) as [[e|a] b']; [apply quiet_throw|apply quietly_ret]. Qed.
Lemma quiet_when b (m : MO ()) : quiet m -> quiet (when b m).
Proof. intros. destruct b; [done|apply quietly_ret]. Qed.
Lemma quiet_ask {A} (q : Z -> A) : quiet (ask q).
Proof. repeat (apply quietly_bind; [first [apply quiet_io|apply quiet_set_io]|intros]). apply quietly_ret. Qed.
Lemma quiet_msg {A} (m : SE sshbuf Z A) : quiet (msg m).
Proof.
  apply quietly_bind; [apply quiet_io|intros b]. apply quietly_bind; [apply quiet_on_buf|intros [a b']].
  apply quietly_bind; [apply quiet_set_io|intros]. apply quietly_ret.
Qed.
Lemma quiet_loginmsg m : quiet (loginmsg m).
Proof. apply quietly_bind; [apply quiet_io|intros b]. apply quietly_bind; [apply quiet_on_buf|intros [a b']]. apply quiet_set_io. Qed.
Lemma quiet_reset_msg : quiet reset_msg.
Proof. apply quietly_bind; [apply quiet_io|intros b]. apply quiet_set_io. Qed.
Lemma quiet_new_msg : quiet new_msg.
Proof. apply quietly_bind; [apply quietly_need|intros b]. apply quiet_set_io. Qed.
End Safe.

Create HintDb quietdb.
#[export] Hint Resolve quietly_ret quiet_throw quiet_io quiet_set_io quiet_core quiet_fatal_if quietly_need quiet_deref quiet_on_buf quiet_ask quiet_msg quiet_loginmsg quiet_reset_msg quiet_new_msg : quietdb.

(** Step through a computation that keeps the state. *)
Ltac quiet_step :=
  lazymatch goal with
  | |- quiet (_ ≫= _) => apply quietly_bind; [|intros ?]
  | |- quiet (when _ _) => apply quiet_when
  | |- quiet (match ?x with _ => _ end) => destruct x
  | |- quiet (let '_ := ?x in _) => destruct x
  | |- quiet _ => solve [eauto with quietdb]
  end.
Ltac quiet_tac := intros; repeat quiet_step.
(** One step of a weakest precondition. *)
Ltac wp_step :=
  lazymatch goal with
  | |- wp (mret _) _ _ => apply wp_ret
  | |- wp (throw _) _ _ => apply wp_throw
  | |- wp (_ ≫= _) _ _ => apply wp_bind
  | |- wp (core _) _ _ => apply wp_core
  | |- wp (ctxt _) _ _ => apply wp_core
  | |- wp (options _) _ _ => apply wp_core
  | |- wp (pam _) _ _ => apply wp_core
  | |- wp (set_core _) _ _ => apply wp_set_core
  | |- wp (set_ctxt _) _ _ => apply wp_set_core
  | |- wp (set_pam _) _ _ => apply wp_set_core
  | |- wp (note _) _ _ => apply wp_set_core
  | |- wp (set_method _ _) _ _ => apply wp_set_core
  | |- wp (set_method_name _) _ _ => apply wp_set_core
  | |- wp (monitor_permit _ _) _ _ => apply wp_set_core
  | |- wp (monitor_permit_authentications _) _ _ => apply wp_set_core
  | |- wp monitor_reset_key_state _ _ => apply wp_set_core
  | |- wp (when _ _) _ _ => apply wp_when; intros ?
  | |- wp (fatal_if _) _ _ => apply wp_fatal_if; intros ?
  | |- wp (deref _) _ _ => apply wp_deref; intros ? ?
  | |- wp (need _) _ _ => apply wp_need; intros ? ?
  | |- wp (match ?x with _ => _ end) _ _ => destruct x eqn:?
  | |- wp ?m _ _ => let H := fresh in assert (H : quiet m) by (solve [eauto with quietdb]); apply H; clear H; intros ?
  end.
Ltac wp_steps := repeat (wp_step; cbv beta).

Section Safe2.
Context {heap : Allocator} {keys : SshKeys} {env : MonEnv}.

Lemma quiet_ctxt {A} (f : Authctxt -> A) : quiet (ctxt f).
Proof. apply quiet_core. Qed.
Lemma quiet_options {A} (f : ServerOptions -> A) : quiet (options f).
Proof. apply quiet_core. Qed.
Lemma quiet_pam {A} (f : pam_state -> A) : quiet (pam f).
Proof. apply quiet_core. Qed.
Local Hint Resolve quiet_ctxt quiet_options quiet_pam : quietdb.

Lemma quiet_atomic_read log n : quiet (atomic_read log n).
Proof. unfold atomic_read. quiet_tac. Qed.
Lemma quiet_send type : quiet (mm_request_send type).
Proof. unfold mm_request_send. quiet_tac. Qed.
Local Hint Resolve quiet_atomic_read : quietdb.
Lemma quiet_receive : quiet mm_request_receive.
Proof. unfold mm_request_receive. quiet_tac. Qed.
Local Hint Resolve quiet_receive : quietdb.
Lemma quiet_expect type : quiet (mm_request_receive_expect type).
Proof. unfold mm_request_receive_expect. quiet_tac. Qed.
Lemma quiet_read_log : quiet monitor_read_log.
Proof. unfold monitor_read_log. quiet_tac. Qed.
Local Hint Resolve quiet_read_log quiet_expect : quietdb.
Lemma quiet_wait fuel : quiet (wait_request fuel).
Proof. induction fuel; cbn [wait_request]; quiet_tac. Qed.
Lemma quiet_drain fuel : quiet (drain_log fuel).
Proof. induction fuel; cbn [drain_log]; quiet_tac. Qed.
Lemma quiet_keystate : quiet mm_get_keystate.
Proof. unfold mm_get_keystate. quiet_tac. Qed.
Lemma quiet_demote key : quiet (demote key).
Proof. unfold demote. quiet_tac. Qed.
Lemma quiet_used key : quiet (auth2_key_already_used key).
Proof. unfold auth2_key_already_used. quiet_tac. Qed.
Lemma quiet_fake_password w : quiet (fake_password w).
Proof. unfold fake_password. quiet_tac. Qed.
Lemma quiet_refused : quiet refused_user.
Proof. unfold refused_user. quiet_tac. Qed.
Lemma quiet_conv said : quiet (passwd_conv said).
Proof. unfold passwd_conv. generalize tt. induction said; intros u; cbn [mfold]; quiet_tac. Qed.
Lemma quiet_expose : quiet expose_authinfo.
Proof. unfold expose_authinfo. quiet_tac. Qed.
Lemma quiet_recv b : quiet (ssh_msg_recv b).
Proof. unfold ssh_msg_recv. quiet_tac. Qed.
Lemma quiet_froms : quiet sshkey_froms.
Proof. unfold sshkey_froms. quiet_tac. Qed.
Lemma quiet_check_proof keyid data : quiet (check_proof keyid data).
Proof. unfold check_proof. quiet_tac. Qed.
Lemma quiet_sign_with keyid data alg compat : quiet (sign_with keyid data alg compat).
Proof. unfold sign_with. quiet_tac. Qed.
Lemma quiet_userblob data : quiet (monitor_valid_userblob data).
Proof. unfold monitor_valid_userblob. quiet_tac. Qed.
Lemma quiet_sys_auth password : quiet (sys_auth_passwd password).
Proof. unfold sys_auth_passwd. quiet_tac. Qed.
Lemma quiet_root_allowed method : quiet (auth_root_allowed method).
Proof. unfold auth_root_allowed. quiet_tac. Qed.
End Safe2.
#[export] Hint Resolve quiet_ctxt quiet_options quiet_pam quiet_atomic_read quiet_send quiet_receive quiet_expect quiet_read_log quiet_wait quiet_drain quiet_keystate : quietdb.
#[export] Hint Resolve quiet_demote quiet_used quiet_fake_password quiet_refused quiet_conv quiet_expose quiet_recv quiet_froms quiet_check_proof quiet_sign_with quiet_sys_auth : quietdb.

(** ** What most steps keep *)

Definition calm `{Allocator, SshKeys} {V A} (view : mcore -> V) (m : MO A) : Prop :=
  forall Q c, (forall a c', view c' = view c -> Q a c') -> wp m Q c.

Section Calm.
Context {heap : Allocator} {keys : SshKeys} {env : MonEnv}.

(** Of an entry of the table, what monitor_permit does not change. *)
Definition shape (t : list mon_table) : list (Z * handler * bool) := map (fun e => (mt_type e, mt_f e, decides e)) t.
(** The part of the state that the argument is about. *)
Definition user_view (c : mcore) :=
  let a := c_ctxt c in (ac_valid a, ac_attempt a, ac_user a, ac_pw a, ac_auth_methods a).
Definition option_view (c : mcore) :=
  let o := c_options c in (op_auth_methods o, op_use_pam o, op_permit_root_login o).
Definition rest_view (c : mcore) :=
  (c_key c, c_method c, c_submethod c, c_session_id2 c, shape (c_dispatch c), c_trace c, p_authok (c_pam c)).
Definition view (c : mcore) := (user_view c, option_view c, rest_view c).
(** With the forced command of the session. *)
Definition view_command (c : mcore) := (view c, o_force_command <$> c_auth_opts c).

Lemma calm_quiet {V A} (v : mcore -> V) (m : MO A) : quiet m -> calm v m.
Proof. intros Hm Q c H. apply Hm. intros a. by apply H. Qed.
Lemma calm_bind {V A B} (v : mcore -> V) (m : MO A) (k : A -> MO B) : calm v m -> (forall a, calm v (k a)) -> calm v (m ≫= k).
Proof. intros Hm Hk Q c H. apply wp_bind, Hm. intros a c' Hc. apply Hk. intros b c'' Hc'. apply H. congruence. Qed.
(** A value that was read may be used. *)
Lemma calm_core {V A B} (v : mcore -> V) (f : mcore -> A) (k : A -> MO B) : (forall c, wp (k (f c)) (fun _ c' => v c' = v c) c) -> calm v (core f ≫= k).
Proof. intros Hk Q c H. apply wp_bind, wp_core. eapply wp_conseq; [apply Hk|]. intros a c' Hv. by apply H. Qed.
Lemma calm_set_core {V} (v : mcore -> V) f : (forall c, v (f c) = v c) -> calm v (set_core f).
Proof. intros Hf Q c H. apply wp_set_core, H, Hf. Qed.
Lemma calm_when {V} (v : mcore -> V) b (m : MO ()) : calm v m -> calm v (when b m).
Proof. intros. destruct b; [done|]. apply calm_quiet. eauto with quietdb. Qed.
Lemma calm_wp {V A} (v : mcore -> V) (m : MO A) : (forall c, wp m (fun _ c' => v c' = v c) c) -> calm v m.
Proof. intros Hm Q c H. eapply wp_conseq; [apply Hm|]. intros a c' Hv. by apply H. Qed.
Lemma calm_command {A} (m : MO A) : calm view_command m -> calm view m.
Proof. intros Hm Q c H. apply Hm. intros a c' E. apply H. exact (f_equal fst E). Qed.

Lemma decides_permit b e : decides (with_permit b e) = decides e.
Proof.
  unfold decides, with_permit, truthy. cbn [mt_flags]. do 2 f_equal. apply Z.bits_inj'. intros n Hn.
  rewrite !Z.land_spec, Z.lor_spec, Z.land_spec, Z.lnot_spec by done. destruct (decide (n = 3)) as [->|Hn3].
  - destruct b; cbn; by rewrite orb_false_r, !andb_true_r.
  - replace (Z.testbit MON_AUTHDECIDE n) with false; [by rewrite !andb_false_r|]. symmetry.
    change MON_AUTHDECIDE with (2 ^ 3). by apply Z.pow2_bits_false.
Qed.
Lemma shape_permit t type b : shape (permit_type t type b) = shape t.
Proof.
  induction t as [|e t IH]; cbn; [done|]. destruct (mt_type e =? type); cbn; [by rewrite decides_permit|]. unfold shape in IH. by rewrite IH.
Qed.
Lemma shape_authentications t b :
  shape (map (fun e => if truthy (Z.land (mt_flags e) MON_AUTH) then with_permit b e else e) t) = shape t.
Proof. induction t as [|e t IH]; cbn; [done|]. unfold shape in IH. rewrite IH. destruct (truthy _); cbn; by rewrite ?decides_permit. Qed.
Lemma calm_permit type b : calm view (monitor_permit type b).
Proof. apply calm_set_core. intros c. unfold view, rest_view. cbn. by rewrite shape_permit. Qed.
Lemma calm_permit_auth b : calm view (monitor_permit_authentications b).
Proof. apply calm_set_core. intros c. unfold view, rest_view. cbn. by rewrite shape_authentications. Qed.
End Calm.
Create HintDb calmdb.
#[export] Hint Resolve calm_permit calm_permit_auth : calmdb.
Ltac calm_step :=
  lazymatch goal with
  | |- calm _ (_ ≫= _) => apply calm_bind; [|intros ?]
  | |- calm _ (when _ _) => apply calm_when
  | |- calm _ (set_core _) => apply calm_set_core; reflexivity
  | |- calm _ (set_ctxt _) => apply calm_set_core; reflexivity
  | |- calm _ (set_pam _) => apply calm_set_core; reflexivity
  | |- calm _ (match ?x with _ => _ end) => destruct x
  | |- calm _ _ => solve [eauto with calmdb | apply calm_quiet; eauto with quietdb]
  end.
Ltac calm_tac := intros; repeat calm_step.

Section Calm2.
Context {heap : Allocator} {keys : SshKeys} {env : MonEnv}.

Lemma calm_maxtries : calm view_command sshpam_set_maxtries_reached.
Proof. unfold sshpam_set_maxtries_reached. calm_tac. Qed.
Lemma calm_pwchange b : calm view_command (sshpam_password_change_required b).
Proof.
  apply calm_wp. intros c. unfold sshpam_password_change_required. destruct b; wp_steps.
  - unfold view_command. cbn. cbn in H0. by rewrite H0.
  - unfold view_command. cbn in *. repeat case_match; rewrite H0; reflexivity.
  - done.
Qed.
Local Hint Resolve calm_maxtries calm_pwchange : calmdb.
Lemma calm_account : calm view_command do_pam_account.
Proof. unfold do_pam_account. calm_tac. Qed.
Lemma calm_set_items n : calm view (set_items n).
Proof. unfold set_items. induction n; calm_tac. Qed.
Local Hint Resolve calm_set_items calm_account calm_command : calmdb.
Lemma calm_pam_init : calm view sshpam_init.
Proof. unfold sshpam_init. calm_tac. Qed.
Local Hint Resolve calm_pam_init : calmdb.
Lemma calm_start : calm view start_pam.
Proof. unfold start_pam. calm_tac. Qed.
Lemma calm_init_ctx : calm view sshpam_init_ctx.
Proof. unfold sshpam_init_ctx. calm_tac. Qed.
Lemma calm_done v : calm view (set_done v).
Proof. unfold set_done. calm_tac. Qed.
Lemma calm_import b : calm view (import_environments b).
Proof. unfold import_environments. calm_tac. Qed.
Local Hint Resolve calm_done calm_import : calmdb.
Lemma calm_query_ends type p b : calm view (query_ends type p b).
Proof. unfold query_ends. calm_tac. Qed.
Local Hint Resolve calm_query_ends : calmdb.
Lemma calm_query_loop fuel : forall p b, calm view (query_loop fuel p b).
Proof. induction fuel; intros; cbn [query_loop]; calm_tac. Qed.
Local Hint Resolve calm_query_loop : calmdb.
Lemma calm_query : calm view sshpam_query.
Proof. unfold sshpam_query. calm_tac. Qed.
Lemma calm_respond d l : calm view (sshpam_respond d l).
Proof. unfold sshpam_respond. calm_tac. Qed.
Lemma calm_activate o : calm view (auth_activate_options o).
Proof. unfold auth_activate_options. calm_tac. Qed.
Local Hint Resolve calm_activate : calmdb.
Lemma calm_restrict : calm view auth_restrict_session.
Proof. unfold auth_restrict_session. calm_tac. Qed.
Lemma calm_reset_info : calm view auth2_authctxt_reset_info.
Proof. unfold auth2_authctxt_reset_info. calm_tac. Qed.
Lemma calm_record_info t : calm view (auth2_record_info t).
Proof. unfold auth2_record_info. calm_tac. Qed.
Lemma calm_record_key b k : calm view (auth2_record_key b k).
Proof. unfold auth2_record_key. calm_tac. Qed.
Lemma calm_session_info m s : calm view_command (auth2_update_session_info m s).
Proof. unfold auth2_update_session_info. calm_tac. Qed.
End Calm2.
#[export] Hint Resolve calm_maxtries calm_pwchange calm_account calm_command calm_pam_init calm_start calm_init_ctx calm_query calm_respond calm_activate calm_restrict calm_reset_info calm_record_info calm_record_key calm_session_info : calmdb.

(** ** The invariant *)

Section Inv.
Context {heap : Allocator} {keys : SshKeys} {env : MonEnv}.

(** *** What the trace says *)

Definition users (tr : list event) : list (list Z * option passwd) := omap (fun e => match e with EvUser u p => Some (u, p) | _ => None end) tr.
Definition grants (tr : list event) : list (list Z * option (list Z)) := omap (fun e => match e with EvGrant m s => Some (m, s) | _ => None end) tr.
(** The device of PAM has come to its end: the last query asked nothing, or the
    last answers were taken as the end. *)
Definition pam_step (ended : bool) (e : event) : bool :=
  match e with
  | EvPamInit => false
  | EvPamQuery r n => (r =? 0) && (n =? 0)
  | EvPamRespond _ r => r =? 0
  | _ => ended
  end.
Definition pam_ended (tr : list event) : bool := foldl pam_step false tr.

(** What a buffer can hold. *)
Definition bytes_of_buffer (data : list Z) : Prop := Forall is_u8 data /\ zlen data <= SSHBUF_SIZE_MAX.
(** The data names this session and this user, with any style, and for a host
    the names that were checked. *)
Definition signed (sid user : option (list Z)) (type : Z) (cuser chost data : list Z) : Prop :=
  exists s u style, sid = Some s /\ user = Some u /\
  let us := u ++ match style with Some st => str ":" ++ st | None => [] end in
  (type = MM_USERKEY /\ (bytes_of_buffer data -> user_request (truthy (Z.land datafellows SSH_OLD_SESSIONID)) s us data)) \/
  (type = MM_HOSTKEY /\ (bytes_of_buffer data -> host_request s us cuser chost data)).
Definition key_method (type : Z) : list Z := if type =? MM_USERKEY then str "publickey" else str "hostbased".
Definition password_method (m : list Z) : Prop := m = str "password" \/ m = str "none".

(** What was answered before a grant, and makes it right. *)
Inductive backed (sid user : option (list Z)) (tr : list event) : list Z -> option (list Z) -> Prop :=
  | By_pam_password m before p : password_method m -> tr = before ++ [EvPassword p; EvPamAuth (Some p) PAM_SUCCESS] -> backed sid user tr m None
  | By_password m before p : password_method m -> tr = before ++ [EvPassword p; EvSysAuth p true] -> backed sid user tr m None
  | By_device : pam_ended tr = true -> backed sid user tr KBDINT (Some DEV_PAM)
  | By_key type cuser chost akey blob key data :
      EvKeyAllowed type cuser chost akey ∈ tr -> sshkey_to_blob akey = inr blob -> sshkey_from_blob blob = inr key ->
      last tr = Some (EvVerify type key data 0) -> signed sid user type cuser chost data ->
      backed sid user tr (key_method type) None.

Definition sid_of (c : mcore) := c_session_id2 c.
Definition user_of (c : mcore) := ac_user (c_ctxt c).
Definition user_inv (c : mcore) : Prop :=
  let a := c_ctxt c in
  (ac_attempt a = 0 /\ users (c_trace c) = [] /\ ac_valid a = false /\ ac_user a = None) \/
  (ac_attempt a <> 0 /\ exists u pw, users (c_trace c) = [(u, pw)] /\ ac_user a = Some u /\ ac_valid a = bool_decide (is_Some pw) /\ ac_pw a = Some (default fakepw pw)).
Definition key_inv (c : mcore) : Prop :=
  forall k, c_key c = Some k -> is_Some (ac_user (c_ctxt c)) /\ exists akey, EvKeyAllowed (ks_type k) (ks_cuser k) (ks_chost k) akey ∈ c_trace c /\ sshkey_to_blob akey = inr (ks_blob k).
Definition pam_inv (c : mcore) : Prop := forall a, p_authok (c_pam c) = Some a -> pam_ended (c_trace c) = true.
Definition grants_inv (c : mcore) : Prop :=
  forall i m s, c_trace c !! i = Some (EvGrant m s) -> backed (sid_of c) (user_of c) (take i (c_trace c)) m s.
(** The lists that are worked on come from the configuration. *)
Definition known_list (o : list (list Z)) (l : list Z) : Prop :=
  l ∈ o /\ Forall (fun t => before_colon t ∈ map method_name authmethods) (requirements l).
Definition lists_inv (c : mcore) : Prop :=
  op_auth_methods (c_options c) <> [] -> exists cfg, Forall (known_list (op_auth_methods (c_options c))) cfg /\
  Forall2 (fun l0 l => progress l0 (grants (c_trace c)) l) cfg (ac_auth_methods (c_ctxt c)).
Record Inv (c : mcore) : Prop := {
  inv_user : user_inv c; inv_key : key_inv c; inv_pam : pam_inv c; inv_grants : grants_inv c; inv_lists : lists_inv c;
  inv_shape : shape (c_dispatch c) = shape mon_dispatch_proto20
}.

(** *** What keeps it *)

Lemma Inv_view c c' : view c' = view c -> Inv c -> Inv c'.
Proof.
  unfold view, user_view, option_view, rest_view. intros [= E1 E2 E3 E4 E5 E6 E7 E8 E9 E10 E11 E12 E13 E14 E15] [H1 H2 H3 H4 H5 H6].
  split; unfold user_inv, key_inv, pam_inv, grants_inv, lists_inv, sid_of, user_of in *; cbv zeta in *;
    repeat match goal with E : _ c' = _ |- _ => rewrite E; clear E | E : _ (_ c') = _ |- _ => rewrite E; clear E | E : _ (_ (_ c')) = _ |- _ => rewrite E; clear E end; done.
Qed.

(** An event that says nothing of users and grants. *)
Definition neutral (e : event) : Prop := match e with EvUser _ _ | EvGrant _ _ => False | _ => True end.
Lemma pam_ended_app tr e : pam_ended (tr ++ [e]) = pam_step (pam_ended tr) e.
Proof. unfold pam_ended. by rewrite foldl_app. Qed.
Lemma grants_inv_app c e : grants_inv c -> (forall m s, e = EvGrant m s -> backed (sid_of c) (user_of c) (c_trace c) m s) ->
  grants_inv (set_c_trace (c_trace c ++ [e]) c).
Proof.
  intros Hg He i m s. cbn. intros Hi. apply lookup_app_Some in Hi as [Hi|[Hl Hi]].
  - rewrite take_app_le by (apply lookup_lt_Some in Hi; lia). by apply Hg.
  - apply list_lookup_singleton_Some in Hi as [Hi He']. replace i with (length (c_trace c)) by lia. rewrite take_app_length. by apply He.
Qed.
Lemma Inv_note e c : neutral e -> (forall b, pam_step b e = b) \/ p_authok (c_pam c) = None -> Inv c -> Inv (set_c_trace (c_trace c ++ [e]) c).
Proof.
  intros He Hp [H1 H2 H3 H4 H5 H6]. split.
  - unfold user_inv, users in *. cbn. rewrite omap_app. destruct e; try done; by rewrite app_nil_r.
  - intros k Hk. destruct (H2 k Hk) as (Hu & a & Ha & Eb). split; [done|]. exists a. split; [|done]. cbn. apply elem_of_app. by left.
  - intros a Ha. cbn in *. rewrite pam_ended_app. destruct Hp as [->|Hn]; [by eapply H3|congruence].
  - apply grants_inv_app; [done|]. by intros m s ->.
  - intros Ho. destruct (H5 Ho) as (cfg & Hc & Hl). exists cfg. split; [done|]. unfold grants in *. cbn. rewrite omap_app. destruct e; try done; by rewrite app_nil_r.
  - done.
Qed.
Lemma Inv_authok a c : Inv c -> pam_ended (c_trace c) = true -> Inv (set_c_pam (set_p_authok a (c_pam c)) c).
Proof. intros [H1 H2 H3 H4 H5 H6] Hp. split; [done..| |done|done|done]. by intros b _. Qed.
Lemma Inv_no_authok p c : Inv c -> Inv (set_c_pam (set_p_authok None p) c).
Proof. intros [H1 H2 H3 H4 H5 H6]. by split. Qed.
Lemma view_authok c c' : view c' = view c -> p_authok (c_pam c') = p_authok (c_pam c).
Proof. unfold view, rest_view. by intros [=]. Qed.
Lemma view_trace c c' : view c' = view c -> c_trace c' = c_trace c.
Proof. unfold view, rest_view. by intros [=]. Qed.
Lemma view_method c c' : view c' = view c -> c_method c' = c_method c /\ c_submethod c' = c_submethod c.
Proof. unfold view, rest_view. by intros [=]. Qed.
Lemma view_session c c' : view c' = view c -> sid_of c' = sid_of c /\ user_of c' = user_of c.
Proof. unfold view, user_view, rest_view. by intros [=]. Qed.
Lemma view_valid c c' : view c' = view c -> ac_valid (c_ctxt c') = ac_valid (c_ctxt c).
Proof. unfold view, user_view. by intros [=]. Qed.
Lemma Inv_no_key c : Inv c -> Inv (set_c_key None c).
Proof. intros [H1 H2 H3 H4 H5 H6]. by split. Qed.
Lemma Inv_method m s c : Inv c -> Inv (set_c_submethod s (set_c_method m c)).
Proof. intros [H1 H2 H3 H4 H5 H6]. by split. Qed.
Lemma Inv_method_name m c : Inv c -> Inv (set_c_method m c).
Proof. intros [H1 H2 H3 H4 H5 H6]. by split. Qed.

Lemma signed_mono sid user sid' user' type cu ch data : (forall x, sid = Some x -> sid' = Some x) -> (forall x, user = Some x -> user' = Some x) ->
  signed sid user type cu ch data -> signed sid' user' type cu ch data.
Proof. intros Hs Hu (s & u & st & E1 & E2 & H). exists s, u, st. auto. Qed.
Lemma backed_mono sid user sid' user' tr m s : (forall x, sid = Some x -> sid' = Some x) -> (forall x, user = Some x -> user' = Some x) ->
  backed sid user tr m s -> backed sid' user' tr m s.
Proof. intros Hs Hu [| | |]; [by eapply By_pam_password|by eapply By_password|by eapply By_device|]. eapply By_key; try done. by eapply signed_mono. Qed.

(** The session id is set once. *)
Lemma Inv_session p c : Inv c -> Inv (match c_session_id2 c with None => set_c_session_id2 (Some p) c | Some _ => c end).
Proof.
  intros HI. destruct (c_session_id2 c) eqn:E; [done|]. destruct HI as [H1 H2 H3 H4 H5 H6]. split; try done.
  intros i m s Hi. eapply backed_mono; [..|by apply H4]; [|done]. unfold sid_of. by rewrite E.
Qed.
End Inv.

(** A step, with what it keeps. *)
Ltac ms_step :=
  lazymatch goal with
  | |- wp (monitor_permit _ _) _ _ => apply calm_permit; intros ? ? ?Hv
  | |- wp (monitor_permit_authentications _) _ _ => apply calm_permit_auth; intros ? ? ?Hv
  | |- wp (mret _) _ _ => wp_step
  | |- wp (throw _) _ _ => wp_step
  | |- wp (_ ≫= _) _ _ => wp_step
  | |- wp (core _) _ _ => wp_step
  | |- wp (when _ _) _ _ => wp_step
  | |- wp (match _ with _ => _ end) _ _ => wp_step
  | |- wp ?m _ _ => first [wp_step | let H := fresh in assert (H : calm view m) by (solve [eauto with calmdb]); apply H; clear H; intros ? ? ?Hv]
  end.
Ltac ms := repeat (ms_step; cbv beta).

Ltac inv_step :=
  lazymatch goal with
  | |- Inv (set_c_submethod _ (set_c_method _ _)) => apply Inv_method
  | |- Inv (set_c_method _ _) => apply Inv_method_name
  | |- Inv (set_c_key None _) => apply Inv_no_key
  | |- Inv (set_c_pam (set_p_authok None _) _) => apply Inv_no_authok
  | |- Inv (set_c_pam (set_p_authok (Some _) _) _) => apply Inv_authok; [|refine (eq_trans (pam_ended_app _ _) _); assumption]
  | |- Inv (set_c_trace (_ ++ [_]) _) => apply Inv_note; [done|first [by left|right; reflexivity|right; erewrite view_authok by eassumption; reflexivity]|]
  | |- Inv _ => first [assumption|eapply Inv_view; [eassumption|]]
  end.
Ltac inv_tac := repeat inv_step.

(** ** The requests *)

Section Requests.
Context {heap : Allocator} {total : @AllocTotal heap} {keys : SshKeys} {env : MonEnv}.

Definition decider (f : handler) : bool := match f with Mm_authpassword | Mm_pam_free_ctx | Mm_keyverify => true | _ => false end.
Definition backed_now (c : mcore) : Prop := backed (sid_of c) (user_of c) (c_trace c) (c_method c) (c_submethod c).
Definition ready (c : mcore) : Prop := Inv c /\ c_method c = str "unknown" /\ c_submethod c = None.
Definition answer_ok (f : handler) (r : Z) (c : mcore) : Prop :=
  Inv c /\ (r = 1 -> (decider f = true /\ backed_now c) \/ (decider f = false /\ c_method c = str "unknown" /\ c_submethod c = None)).

Lemma answer_0 f c : Inv c -> answer_ok f 0 c.
Proof. intros. by split. Qed.
Lemma wp_moduli c : ready c -> wp mm_answer_moduli (answer_ok Mm_moduli) c.
Proof. intros [HI _]. unfold mm_answer_moduli. ms; by apply answer_0. Qed.
Lemma wp_banner c : ready c -> wp mm_answer_auth2_read_banner (answer_ok Mm_auth2_read_banner) c.
Proof. intros [HI _]. unfold mm_answer_auth2_read_banner. ms; by apply answer_0. Qed.
Lemma wp_sign c : ready c -> wp mm_answer_sign (answer_ok Mm_sign) c.
Proof. intros [HI _]. unfold mm_answer_sign. ms. apply answer_0. eapply Inv_view; [exact Hv|]. by apply Inv_session. Qed.
Lemma wp_authserv c : ready c -> wp mm_answer_authserv (answer_ok Mm_authserv) c.
Proof. intros [HI _]. unfold mm_answer_authserv. ms. apply answer_0. apply (Inv_view c'); [reflexivity|]. by eapply Inv_view. Qed.
Lemma wp_pam_start c : ready c -> wp mm_answer_pam_start (answer_ok Mm_pam_start) c.
Proof. intros [HI _]. unfold mm_answer_pam_start. ms; apply answer_0; repeat (eapply Inv_view; [eassumption|]); done. Qed.

(** *** Looking up the user *)

Lemma setup_known o none before : op_auth_methods o <> [] ->
  Forall (fun l => known_list (op_auth_methods o) l /\ list_wf l) (auth2_setup_methods_lists o none before).1.
Proof.
  intros Ho. eapply Forall_impl; [eapply setup_lists_spec; [done|apply surjective_pairing]|]. intros l (Hl & Hv & Hw). split; [|done]. split; [done|].
  unfold auth2_methods_valid in Hv. destruct l as [|a l]; [constructor|]. rewrite forallb_forall in Hv. apply Forall_forall. intros t Ht.
  destruct (method_known_enabled _ _ _ _ (Hv t (proj1 (list_elem_of_In _ _) Ht))) as (m & Hm & -> & _). by apply list_elem_of_fmap_2.
Qed.
Lemma Inv_user u p o c c' : Inv c -> ac_attempt (c_ctxt c) = 0 ->
  user_view c' = (bool_decide (is_Some p), 1, Some u, Some (default fakepw p), (auth2_setup_methods_lists o true (ac_auth_methods (c_ctxt c))).1) ->
  op_auth_methods (c_options c') = op_auth_methods o ->
  rest_view c' = rest_view (set_c_trace (c_trace c ++ [EvUser u p]) c) -> Inv c'.
Proof.
  intros [H1 H2 H3 H4 H5 H6] Ha. unfold user_view, rest_view. intros [= E1 E2 E3 E4 E5] Eo [= E6 E7 E8 E9 E10 E11 E12].
  destruct H1 as [(_ & Hu & _ & Hn)|(Ha' & _)]; [|done]. split.
  - right. rewrite E1, E2, E3, E4, E11. split; [done|]. exists u, p. split_and!; try done. unfold users in *. by rewrite omap_app, Hu.
  - intros k Hk. rewrite E6 in Hk. destruct (H2 k Hk) as (_ & a & Hin & Eb). rewrite E3. split; [done|]. exists a. rewrite E11. split; [apply elem_of_app; by left|done].
  - intros a Hp. rewrite E11, pam_ended_app. cbn. rewrite E12 in Hp. by eapply H3.
  - assert (Hg : grants_inv (set_c_trace (c_trace c ++ [EvUser u p]) c)) by (apply grants_inv_app; [done|by intros]).
    intros i m s. rewrite E11. intros Hi. eapply backed_mono; [..|by apply (Hg i m s)]; unfold sid_of, user_of; cbn; [by rewrite E9|by rewrite Hn].
  - intros Ho. rewrite Eo in *. rewrite E5. exists (auth2_setup_methods_lists o true (ac_auth_methods (c_ctxt c))).1.
    pose proof (setup_known o true (ac_auth_methods (c_ctxt c)) Ho) as Hk. split; [eapply Forall_impl; [exact Hk|]; by intros ? [? _]|].
    apply Forall_Forall2_diag. eapply Forall_impl; [exact Hk|]. intros l [_ Hw]. by apply progress_refl.
  - by rewrite E10.
Qed.
Lemma wp_pwnamallow c : ready c -> wp mm_answer_pwnamallow (answer_ok Mm_pwnamallow) c.
Proof.
  intros [HI _]. unfold mm_answer_pwnamallow. ms; apply answer_0; repeat (eapply Inv_view; [eassumption|]);
    apply negb_false_iff, Z.eqb_eq in H; pose proof (inv_user _ HI) as [(_ & _ & Hf & _)|[? _]]; try done;
    (eapply (Inv_user _ _ s c); [done|done|unfold user_view; cbn; rewrite H|reflexivity|reflexivity]); try reflexivity; by rewrite Hf.
Qed.

(** *** Passwords *)

Definition root_refused (c : mcore) : Prop := exists pw, ac_pw (c_ctxt c) = Some pw /\ pw_uid pw = 0 /\ op_permit_root_login (c_options c) <> PERMIT_YES.
(** The answer that a password is right. *)
Definition right_answer (p : list Z) (e : event) : Prop := e = EvSysAuth p true \/ e = EvPamAuth (Some p) PAM_SUCCESS.
(** PAM was given the password unless the user is root and may not log in so. *)
Definition pam_answer (c : mcore) (p : list Z) (e : event) : Prop := exists given, e = EvPamAuth given PAM_SUCCESS /\ (given = Some p \/ root_refused c).
Definition after_password (right : event -> Prop) (c : mcore) (r : bool) (c' : mcore) : Prop :=
  Inv c' /\ c_method c' = c_method c /\ c_submethod c' = c_submethod c /\ (r = true -> exists e, c_trace c' = c_trace c ++ [e] /\ right e).
Lemma after_password_intro (right : event -> Prop) c0 e r c c' : Inv c -> view c0 = view c -> view c' = view (set_c_trace (c_trace c0 ++ [e]) c0) ->
  neutral e -> (forall b, pam_step b e = b) -> (r = true -> right e) -> after_password right c r c'.
Proof.
  intros HI H0 Hv Hn Hp Hr. split.
  - eapply Inv_view; [exact Hv|]. apply Inv_note; [done|by left|]. by eapply Inv_view.
  - unfold view, rest_view in H0, Hv. injection H0; injection Hv; cbn; intros. split_and!; [congruence..|]. intros Ht. exists e. split; [congruence|by apply Hr].
Qed.
Lemma wp_refused_user c : wp refused_user (fun r c' => c' = c /\ (r = true -> ac_valid (c_ctxt c) = true -> root_refused c)) c.
Proof.
  unfold refused_user. ms; (split; [done|]); [intros _ Hv; by rewrite Hv in *|]. intros [Hz Hn]%andb_true_iff _. exists a. split_and!; [done|by apply Z.eqb_eq|].
  intros E. by rewrite E in Hn.
Qed.
Lemma wp_pam_passwd password c : Inv c -> wp (sshpam_auth_passwd password) (after_password (pam_answer c password) c) c.
Proof.
  intros HI. unfold sshpam_auth_passwd. do 9 (ms_step; cbv beta). eapply wp_conseq; [apply wp_refused_user|]. intros refused c1 [-> Href].
  destruct refused; ms; (eapply after_password_intro; [done| |first [eassumption|reflexivity]|done|done|]; [reflexivity|]);
    intros [Hz%Z.eqb_eq Hv']%andb_true_iff; subst; eexists; (split; [done|]); first [by left|right; apply Href; [done|]].
  all: try exact Hv'. all: by rewrite (view_valid _ _ Hv) in Hv'.
Qed.
Lemma wp_auth_password password c : Inv c -> wp (auth_password password) (after_password (right_answer password) c) c.
Proof.
  intros HI. unfold auth_password. ms; [by split..| | | | | | |].
  { eapply wp_conseq; [by apply wp_pam_passwd|]. intros r c' (H1 & H2 & H3 & H4). apply wp_ret. split_and!; [done..|]. intros [Hr [_ Hok]%andb_true_iff]%andb_true_iff.
    destruct (H4 Hr) as (e & He & given & -> & [->|(pw & Epw & Hz & Hn)]); [eexists; split; [exact He|by right]|]. exfalso. simplify_eq.
    rewrite Hz in Hok. by apply negb_true_iff, negb_false_iff, Z.eqb_eq in Hok. }
  all: eapply after_password_intro; [done| |first [eassumption|reflexivity]|done|done|]; [reflexivity|].
  all: intros [-> _]%andb_true_iff; by left.
Qed.
Lemma right_backed sid user tr p e m : right_answer p e -> password_method m -> backed sid user ((tr ++ [EvPassword p]) ++ [e]) m None.
Proof. intros He Hm. rewrite <- app_assoc. destruct He as [-> | ->]; [by eapply By_password|by eapply By_pam_password]. Qed.
Lemma wp_authpassword c : ready c -> wp mm_answer_authpassword (answer_ok Mm_authpassword) c.
Proof.
  intros (HI & Hm & Hs). unfold mm_answer_authpassword. do 9 (ms_step; cbv beta). eapply wp_conseq; [apply wp_auth_password; by inv_tac|].
  intros r c' (HI' & Hm' & Hs' & Hr). ms. split; [apply Inv_method_name; by apply (Inv_view c')|].
  intros E. left. split; [done|]. destruct r; [|done]. destruct (Hr eq_refl) as (e & Hl & He).
  unfold backed_now. cbn. cbn in Hs', Hl. rewrite Hs', Hs, Hl. apply right_backed; [done|]. destruct (_ && _); [by right|by left].
Qed.

(** *** PAM *)

Lemma wp_pam_account c : Inv c ->
  wp mm_answer_pam_account (fun r c' => Inv c' /\ (exists c0, view_command c0 = view_command c /\ view_command c' = view_command (set_c_trace (c_trace c0 ++ [EvAccount r]) c0))) c.
Proof.
  intros HI. unfold mm_answer_pam_account. ms_step. cbv beta. ms_step; cbv beta. ms_step; cbv beta. ms_step. cbv beta. ms_step. cbv beta.
  apply calm_account. intros r c' Hv. assert (Hw : view c' = view c) by exact (f_equal fst Hv). ms. split; [by inv_tac|]. exists c'. by split.
Qed.
Lemma wp_init_ctx c : ready c -> wp mm_answer_pam_init_ctx (answer_ok Mm_pam_init_ctx) c.
Proof. intros [HI _]. unfold mm_answer_pam_init_ctx. ms; apply answer_0; by inv_tac. Qed.
Lemma wp_query c : ready c -> wp mm_answer_pam_query (answer_ok Mm_pam_query) c.
Proof. intros [HI _]. unfold mm_answer_pam_query. ms; apply answer_0; by inv_tac. Qed.
Lemma wp_respond c : ready c -> wp mm_answer_pam_respond (answer_ok Mm_pam_respond) c.
Proof. intros [HI _]. unfold mm_answer_pam_respond. ms; apply answer_0; by inv_tac. Qed.
Lemma wp_free_ctx c : ready c -> wp mm_answer_pam_free_ctx (answer_ok Mm_pam_free_ctx) c.
Proof.
  intros [HI _]. unfold mm_answer_pam_free_ctx. ms. split; [by inv_tac|]. intros Hr. left. split; [done|]. unfold backed_now. cbn.
  apply By_device. rewrite (view_trace _ _ Hv). cbn. destruct (p_authok (c_pam c)) eqn:E; [|done]. by eapply (inv_pam _ HI).
Qed.

(** *** Keys *)

Lemma Inv_allowed blob type opts cu ch key c : Inv c -> is_Some (ac_user (c_ctxt c)) -> sshkey_to_blob key = inr blob ->
  Inv (set_c_key (Some (mk_key_state blob type opts cu ch)) (set_c_trace (c_trace c ++ [EvKeyAllowed type cu ch key]) c)).
Proof.
  intros HI Hu Hb. assert (HN : Inv (set_c_trace (c_trace c ++ [EvKeyAllowed type cu ch key]) c)) by (apply Inv_note; [done|by left|done]).
  destruct HN as [H1 H2 H3 H4 H5 H6]. split; [done| |done|done|done|done]. intros k [= <-]. split; [done|]. exists key. split; [|done].
  cbn. apply elem_of_app. right. by left.
Qed.
Lemma valid_user c : Inv c -> negb (ac_valid (c_ctxt c)) = false -> is_Some (ac_user (c_ctxt c)).
Proof. intros HI Hv. destruct (inv_user _ HI) as [(_ & _ & E & _)|(_ & u & pw & _ & E & _)]; [by rewrite E in Hv|by rewrite E]. Qed.
Lemma view_user c c' : view c' = view c -> ac_user (c_ctxt c') = ac_user (c_ctxt c).
Proof. unfold view, user_view. by intros [=]. Qed.
Lemma wp_keyallowed c : ready c -> wp mm_answer_keyallowed (answer_ok Mm_keyallowed) c.
Proof.
  intros [HI _]. unfold mm_answer_keyallowed, userkey_allowed, hostkey_allowed. ms; apply answer_0; try done; try (by inv_tac);
    (apply (Inv_allowed _ _ _ _ _ _ (set_c_key None _)); [by inv_tac|cbn; erewrite view_user by eassumption; cbn|done]).
  all: try (by apply valid_user). all: erewrite view_user by eassumption; cbn; by apply valid_user.
Qed.

(** Data that is accepted was made for a session that is known. *)
Lemma mismatch_pos b : 0 <= mismatch b.
Proof. by destruct b. Qed.
Ltac mismatches := repeat match goal with |- context [mismatch ?b] => generalize (mismatch_pos b); generalize (mismatch b); intros ? ? end.
Lemma blob_head_session old us m b f b' : blob_head old None us m b = (inr f, b') -> 1 <= f.
Proof.
  unfold blob_head, blob_session. intros (f1 & b1 & E1 & E)%SE_bind_inv.
  assert (f1 = 1) as ->.
  { destruct old; apply SE_bind_inv in E1 as (x & b2 & _ & E1); [apply SE_bind_inv in E1 as (y & b3 & _ & E1)|destruct x]; by injection E1 as <- _. }
  repeat apply SE_bind_inv in E as (? & ? & _ & E). injection E as <- _.
  mismatches. lia.
Qed.
Lemma run_blob_true m data : run_blob m data = Some true -> exists b b', m b = (inr 0, b').
Proof.
  unfold run_blob. intros (b & _ & E)%bind_Some. destruct ((sshbuf_put data (zlen data) ≫= (λ _, m)) b) as [[e|f] b'] eqn:E'; [done|].
  injection E as ->%Z.eqb_eq. apply SE_bind_inv in E' as ([] & b1 & _ & E'). by exists b1, b'.
Qed.
Lemma userblob_session old sid us data : run_blob (userblob old sid us) data = Some true -> is_Some sid.
Proof.
  intros (b & b' & E)%run_blob_true. destruct sid; [done|]. exfalso. unfold userblob in E. apply SE_bind_inv in E as (f & b1 & Hf & E).
  apply blob_head_session in Hf. repeat apply SE_bind_inv in E as (? & ? & _ & E). injection E as E _.
  revert E. mismatches. lia.
Qed.
Lemma hostblob_session sid us cu ch data : run_blob (hostbasedblob sid us cu ch) data = Some true -> is_Some sid.
Proof.
  intros (b & b' & E)%run_blob_true. destruct sid; [done|]. exfalso. unfold hostbasedblob in E. apply SE_bind_inv in E as (f & b1 & Hf & E).
  apply blob_head_session in Hf. repeat apply SE_bind_inv in E as (? & ? & _ & E). injection E as E _.
  revert E. mismatches. lia.
Qed.

(** What is known when sshkey_verify is asked. *)
Lemma verify_answer c c' k key data res m blob : Inv c -> c_key c = Some k -> c_submethod c = None ->
  ks_blob k = blob -> sshkey_from_blob blob = inr key -> m = key_method (ks_type k) ->
  signed (sid_of c) (user_of c) (ks_type k) (ks_cuser k) (ks_chost k) data ->
  view c' = view (set_c_trace (c_trace (set_c_method m c) ++ [EvVerify (ks_type k) key data res]) (set_c_method m c)) ->
  answer_ok Mm_keyverify (flag (res =? 0)) (set_c_key None c').
Proof.
  intros HI Hk Hs Hb Hkey Hm Hsig Hv. split; [by inv_tac|]. intros Hr. left. split; [done|]. assert (res = 0) as -> by (apply Z.eqb_eq; by destruct (res =? 0)).
  destruct (view_method _ _ Hv) as [Em Es]. destruct (view_session _ _ Hv) as [E1 E2]. pose proof (view_trace _ _ Hv) as Et. cbn in Em, Es, E1, E2, Et.
  unfold backed_now. cbn. unfold sid_of, user_of in *. cbn. rewrite Em, Es, E1, E2, Et, Hs, Hm. destruct (inv_key _ HI k Hk) as (_ & akey & Hin & Ha).
  eapply By_key; [apply elem_of_app; left; exact Hin|exact Ha|by rewrite Hb|by apply last_snoc|done].
Qed.
Lemma allowed_blob k blob : negb ((zlen (ks_blob k) =? zlen blob) && (timingsafe_bcmp (ks_blob k) blob 0 =? 0)) = false -> ks_blob k = blob.
Proof.
  intros [Hl%Z.eqb_eq Hb]%negb_false_iff%andb_true_iff. rewrite bcmp_zero in Hb by (unfold zlen in Hl; lia). by apply bool_decide_eq_true in Hb as [_ ?].
Qed.
Lemma signed_user c k data : Inv c -> c_key c = Some k -> ks_type k = MM_USERKEY ->
  run_blob (userblob (truthy (Z.land datafellows SSH_OLD_SESSIONID)) (c_session_id2 c) (userstyle (c_ctxt c))) data = Some true ->
  signed (sid_of c) (user_of c) (ks_type k) (ks_cuser k) (ks_chost k) data.
Proof.
  intros HI Hk Ht Hb. pose proof (userblob_session _ _ _ _ Hb) as [s Es]. destruct (inv_key _ HI k Hk) as ([u Eu] & _).
  exists s, u, (ac_style (c_ctxt c)). split_and!; [done..|]. left. split; [done|]. intros [Hd Hl]. rewrite Es in Hb.
  apply (userblob_only _ _ _ _ Hd Hl). rewrite <- Hb. unfold userstyle. by rewrite Eu.
Qed.
Lemma signed_host c k data : Inv c -> c_key c = Some k -> ks_type k = MM_HOSTKEY ->
  run_blob (hostbasedblob (c_session_id2 c) (userstyle (c_ctxt c)) (ks_cuser k) (ks_chost k)) data = Some true ->
  signed (sid_of c) (user_of c) (ks_type k) (ks_cuser k) (ks_chost k) data.
Proof.
  intros HI Hk Ht Hb. pose proof (hostblob_session _ _ _ _ _ Hb) as [s Es]. destruct (inv_key _ HI k Hk) as ([u Eu] & _).
  exists s, u, (ac_style (c_ctxt c)). split_and!; [done..|]. right. split; [done|]. intros [Hd Hl]. rewrite Es in Hb.
  apply (hostbasedblob_only _ _ _ _ _ Hd Hl). rewrite <- Hb. unfold userstyle. by rewrite Eu.
Qed.
Lemma wp_keyverify c : ready c -> wp mm_answer_keyverify (answer_ok Mm_keyverify) c.
Proof.
  intros (HI & Hm & Hs). unfold mm_answer_keyverify, monitor_allowed_key, monitor_valid_userblob, monitor_valid_hostbasedblob.
  ms; [| |done]; rewrite H in H0; apply allowed_blob in H0; apply negb_false_iff in H2; subst a4.
  - apply Z.eqb_eq in Heqb. eapply (verify_answer c c'0 a3 s a1 _ (str "publickey") a); try done; [by rewrite Heqb|by apply signed_user|by rewrite Hv0].
  - apply Z.eqb_eq in Heqb0. eapply (verify_answer c c' a3 s a1 _ (str "hostbased") a); try done; [by rewrite Heqb0|by apply signed_host].
Qed.

(** Every request keeps the invariant, and a grant is backed. *)
Lemma wp_handler f c : ready c -> wp (run_handler f) (answer_ok f) c.
Proof.
  intros Hc. destruct f; cbn [run_handler]; eauto using wp_moduli, wp_sign, wp_pwnamallow, wp_authserv, wp_banner, wp_authpassword, wp_pam_start, wp_init_ctx, wp_query, wp_respond, wp_free_ctx, wp_keyallowed, wp_keyverify.
  destruct Hc as (HI & Hm & Hs). eapply wp_conseq; [by apply wp_pam_account|]. intros r c' (HI' & c0 & Hv & Hv'). split; [done|]. intros _. right.
  pose proof (view_method _ _ (f_equal fst Hv)) as [E1 E2]. pose proof (view_method _ _ (f_equal fst Hv')) as [E3 E4]. cbn in E3, E4. split_and!; [done|congruence..].
Qed.
End Requests.

(** ** The answers behind the trace *)

Section Answers.
Context {heap : Allocator} {total : @AllocTotal heap} {keys : SshKeys} {env : MonEnv}.

(** A message of PAM's process, by its type. *)
Definition pam_said (type : Z) : Prop := exists t text, pam_recv t = Some (type :: text).
(** The password is that of the user: what crypt gives for it, with the stored
    hash as salt, is the hash; or both are empty. *)
Definition right_password (hash p : list Z) : Prop :=
  (hash = [] /\ p = []) \/ xcrypt p (if 1 <? zlen hash then Some hash else None) = Some hash.
Definition empty_ok (o : ServerOptions) (p : list Z) : Prop := p = [] -> op_permit_empty_passwd o = true.
(** Keys may be used, of this type, and the key is one of the user's, or of a
    host from which the user may come. *)
Definition key_allowed (o : ServerOptions) (pw : passwd) (type : Z) (cuser chost : list Z) (key : sshkey) : Prop :=
  (type = 2 /\ op_pubkey_authentication o = true /\ match_pattern_list (sshkey_ssh_name key) (op_pubkey_key_types o) false = Some 1 /\
   exists t attempt opts, user_key_allowed t pw key attempt = (true, opts)) \/
  (type = 1 /\ op_hostbased_authentication o = true /\ match_pattern_list (sshkey_ssh_name key) (op_hostbased_key_types o) false = Some 1 /\
   exists t, hostbased_key_allowed t pw cuser chost key = true).

(** What the system must have answered for an event to be noted.  [valid]: the
    user was found, [user]: the entry of the data base. *)
Definition answered (valid : bool) (user : option passwd) (o : ServerOptions) (e : event) : Prop :=
  match e with
  | EvUser u p => exists t o0 o1, getpwnamallow t o0 u = (p, o1)
  | EvPamAuth given r => is_Some user /\ (exists t said, pam_authenticate t given = (r, said)) /\ (forall p, given = Some p -> empty_ok o p /\ zlen p <= 1024)
  | EvSysAuth p ok => empty_ok o p /\ zlen p <= 1024 /\
      exists pw, user = Some pw /\ (valid = true -> ok = true -> exists t, right_password (shadow_pw t pw) p)
  | EvPamQuery r n => r = 0 -> n = 0 -> pam_said PAM_SUCCESS \/ pam_said PAM_AUTH_ERR \/ pam_said PAM_MAXTRIES \/ pam_said PAM_ACCT_EXPIRED
  | EvPamRespond _ r => r = 0 -> pam_said PAM_SUCCESS
  | EvKeyAllowed type cuser chost key => exists pw, user = Some pw /\ key_allowed o pw type cuser chost key
  | EvVerify _ key data r => exists sig alg, sshkey_verify key sig data alg = r
  | EvAccount r => r <> 0 -> (exists t, pam_acct_mgmt t = PAM_SUCCESS \/ pam_acct_mgmt t = PAM_NEW_AUTHTOK_REQD) \/ pam_said PAM_SUCCESS
  | EvPassword _ | EvPamInit | EvGrant _ _ => True
  end.

Definition login_options (o : ServerOptions) :=
  (op_permit_empty_passwd o, op_pubkey_authentication o, op_pubkey_key_types o, op_hostbased_authentication o, op_hostbased_key_types o).
Definition context_view (c : mcore) := (ac_attempt (c_ctxt c), ac_valid (c_ctxt c), ac_pw (c_ctxt c), login_options (c_options c)).
Definition answer_view (c : mcore) := (context_view c, c_trace c, p_ctxt (c_pam c), p_account (c_pam c)).
Definition account_said (status : Z) : Prop :=
  status <> -1 -> status <> 0 -> (exists t, pam_acct_mgmt t = PAM_SUCCESS \/ pam_acct_mgmt t = PAM_NEW_AUTHTOK_REQD) \/ pam_said PAM_SUCCESS.
Definition device_said (p : option pam_ctxt) : Prop := forall d, p = Some d -> pc_done d = 1 -> pam_said PAM_SUCCESS.
Record Facts (c : mcore) : Prop := {
  facts_before : ac_attempt (c_ctxt c) = 0 -> ac_pw (c_ctxt c) = None;
  facts_events : Forall (answered (ac_valid (c_ctxt c)) (ac_pw (c_ctxt c)) (c_options c)) (c_trace c);
  facts_device : device_said (p_ctxt (c_pam c));
  facts_account : account_said (p_account (c_pam c))
}.

Lemma answered_options v u o o' e : login_options o' = login_options o -> answered v u o e -> answered v u o' e.
Proof.
  unfold login_options. intros [= E1 E2 E3 E4 E5]. destruct e; cbn; unfold key_allowed, empty_ok; by rewrite ?E1, ?E2, ?E3, ?E4, ?E5.
Qed.
Lemma Facts_view c c' : answer_view c' = answer_view c -> Facts c -> Facts c'.
Proof.
  unfold answer_view, context_view. intros E [F0 F1 F2 F3]. assert (Eo : login_options (c_options c') = login_options (c_options c)) by exact (f_equal (fun x => x.1.1.1.2) E).
  injection E as E1 E2 E3 _ _ _ _ _ E4 E5 E6. split; rewrite ?E1, ?E2, ?E3, ?E4, ?E5, ?E6; try done.
  eapply Forall_impl; [exact F1|]. intros e. by apply answered_options.
Qed.
Lemma Facts_note e c : answered (ac_valid (c_ctxt c)) (ac_pw (c_ctxt c)) (c_options c) e -> Facts c -> Facts (set_c_trace (c_trace c ++ [e]) c).
Proof. intros He [F0 F1 F2 F3]. split; try done. apply Forall_app. split; [done|]. by constructor. Qed.

Lemma wp_ask {A} (q : Z -> A) Q c : (forall t, Q (q t) c) -> wp (ask q) Q c.
Proof. intros H i. apply H. Qed.
Lemma wp_and {A} (m : MO A) (Q R : A -> mcore -> Prop) c : wp m Q c -> wp m R c -> wp m (fun a c' => Q a c' /\ R a c') c.
Proof. intros H1 H2 i. specialize (H1 i). specialize (H2 i). destruct (m (mk_mon c i)) as [[e|a] s']; auto. Qed.

(** *** Steps that ask nothing that counts *)

Local Abbreviation calmly := (calm answer_view).
Lemma still_permit type b : calmly (monitor_permit type b).
Proof. apply calm_set_core. reflexivity. Qed.
Lemma still_permit_auth b : calmly (monitor_permit_authentications b).
Proof. apply calm_set_core. reflexivity. Qed.
Lemma still_method m s : calmly (set_method m s).
Proof. apply calm_set_core. reflexivity. Qed.
Lemma still_method_name m : calmly (set_method_name m).
Proof. apply calm_set_core. reflexivity. Qed.
Lemma still_reset_key : calmly monitor_reset_key_state.
Proof. apply calm_set_core. reflexivity. Qed.
Lemma still_maxtries : calmly sshpam_set_maxtries_reached.
Proof. unfold sshpam_set_maxtries_reached. calm_tac. Qed.
Lemma still_pwchange b : calmly (sshpam_password_change_required b).
Proof. unfold sshpam_password_change_required. calm_tac. Qed.
Lemma still_set_items n : calmly (set_items n).
Proof. unfold set_items. induction n; calm_tac. Qed.
Local Hint Resolve still_set_items : calmdb.
Lemma still_pam_init : calmly sshpam_init.
Proof. unfold sshpam_init. calm_tac. Qed.
Local Hint Resolve still_pam_init : calmdb.
Lemma still_start : calmly start_pam.
Proof. unfold start_pam. calm_tac. Qed.
Lemma still_activate o : calmly (auth_activate_options o).
Proof. unfold auth_activate_options. calm_tac. Qed.
Local Hint Resolve still_activate : calmdb.
Lemma still_restrict : calmly auth_restrict_session.
Proof. unfold auth_restrict_session. calm_tac. Qed.
Lemma still_reset_info : calmly auth2_authctxt_reset_info.
Proof. unfold auth2_authctxt_reset_info. calm_tac. Qed.
Lemma still_record_info t : calmly (auth2_record_info t).
Proof. unfold auth2_record_info. calm_tac. Qed.
Lemma still_record_key b k : calmly (auth2_record_key b k).
Proof. unfold auth2_record_key. calm_tac. Qed.
Lemma still_session_info m s : calmly (auth2_update_session_info m s).
Proof. unfold auth2_update_session_info. calm_tac. Qed.
Lemma still_methods m s : calmly (update_methods_lists m s).
Proof. unfold update_methods_lists. calm_tac. Qed.
End Answers.
#[export] Hint Resolve still_permit still_permit_auth still_method still_method_name still_reset_key still_maxtries still_pwchange still_pam_init still_start still_activate still_restrict : calmdb.
#[export] Hint Resolve still_reset_info still_record_info still_record_key still_session_info still_methods : calmdb.

(** A step, with the question it asks and what it keeps of the facts. *)
Ltac fs_step :=
  lazymatch goal with
  | |- wp (ask _) _ _ => apply wp_ask; intros ?
  | |- wp (mret _) _ _ => wp_step
  | |- wp (throw _) _ _ => wp_step
  | |- wp (_ ≫= _) _ _ => wp_step
  | |- wp (core _) _ _ => wp_step
  | |- wp (ctxt _) _ _ => wp_step
  | |- wp (options _) _ _ => wp_step
  | |- wp (pam _) _ _ => wp_step
  | |- wp (when _ _) _ _ => wp_step
  | |- wp (match _ with _ => _ end) _ _ => wp_step
  | |- wp ?m _ _ => first [let H := fresh in assert (H : calm answer_view m) by (solve [eauto with calmdb]); apply H; clear H; intros ? ? ?Hv | wp_step]
  end.
Ltac fs := repeat (fs_step; cbv beta).
Ltac facts_step :=
  lazymatch goal with
  | |- Facts (set_c_trace (_ ++ [_]) _) => apply Facts_note; [|]
  | |- Facts (set_c_key _ ?c) => apply (Facts_view c); [reflexivity|]
  | |- Facts (set_c_method _ ?c) => apply (Facts_view c); [reflexivity|]
  | |- Facts (set_c_submethod _ ?c) => apply (Facts_view c); [reflexivity|]
  | |- Facts (set_c_auth_opts _ ?c) => apply (Facts_view c); [reflexivity|]
  | |- Facts (set_c_call_count _ ?c) => apply (Facts_view c); [reflexivity|]
  | |- Facts (set_c_expire_checked _ ?c) => apply (Facts_view c); [reflexivity|]
  | |- Facts (set_c_pam (set_p_authok _ (c_pam ?c)) ?c) => apply (Facts_view c); [reflexivity|]
  | |- Facts (set_c_pam (set_p_authctxt _ (c_pam ?c)) ?c) => apply (Facts_view c); [reflexivity|]
  | |- Facts (set_c_ctxt (set_ac_force_pwchange _ _) ?c) => apply (Facts_view c); [reflexivity|]
  | |- Facts _ => first [assumption|eapply Facts_view; [eassumption|]]
  end.
Ltac facts_tac := repeat facts_step.

Section Answers2.
Context {heap : Allocator} {total : @AllocTotal heap} {keys : SshKeys} {env : MonEnv}.
Definition keeps {A} (m : MO A) : Prop := forall c, Facts c -> wp m (fun _ => Facts) c.

Lemma keeps_moduli : keeps mm_answer_moduli.
Proof. intros c Hc. unfold mm_answer_moduli. by fs. Qed.
Lemma keeps_banner : keeps mm_answer_auth2_read_banner.
Proof. intros c Hc. unfold mm_answer_auth2_read_banner. by fs. Qed.
Lemma keeps_sign : keeps mm_answer_sign.
Proof.
  intros c Hc. unfold mm_answer_sign. fs. eapply Facts_view; [exact Hv|]. apply (Facts_view c); [|done]. by destruct (c_session_id2 c).
Qed.
Lemma keeps_authserv : keeps mm_answer_authserv.
Proof. intros c Hc. unfold mm_answer_authserv. fs. apply (Facts_view c'); [reflexivity|]. by facts_tac. Qed.
Lemma keeps_pam_start : keeps mm_answer_pam_start.
Proof. intros c Hc. unfold mm_answer_pam_start. fs; by facts_tac. Qed.

(** The user is looked up once; no event before needs one. *)
Lemma answered_user v o v' u' o' e : answered v None o e -> answered v' u' o' e.
Proof. destruct e; cbn; try done; naive_solver. Qed.
Lemma Facts_user u p c c' : Facts c -> ac_attempt (c_ctxt c) = 0 -> (exists t o0 o1, getpwnamallow t o0 u = (p, o1)) -> ac_attempt (c_ctxt c') = 1 ->
  (c_trace c', p_ctxt (c_pam c'), p_account (c_pam c')) = (c_trace c ++ [EvUser u p], p_ctxt (c_pam c), p_account (c_pam c)) -> Facts c'.
Proof.
  intros [F0 F1 F2 F3] Ha Hu Ha' [= E1 E2 E3]. split; rewrite ?E1, ?E2, ?E3, ?Ha'; try done. apply Forall_app. split; [|by constructor].
  eapply Forall_impl; [exact F1|]. intros e. rewrite F0 by done. apply answered_user.
Qed.
Lemma keeps_pwnamallow : keeps mm_answer_pwnamallow.
Proof.
  intros c Hc. unfold mm_answer_pwnamallow. fs; apply negb_false_iff, Z.eqb_eq in H; facts_tac;
    (eapply (Facts_user a _ c); [done|done|do 3 eexists; exact Heqp|cbn; by rewrite H|reflexivity]).
Qed.

(** *** Passwords *)

Lemma wp_sys_auth p c : wp (sys_auth_passwd p) (fun r c' => c' = c /\
  exists pw, ac_pw (c_ctxt c) = Some pw /\ (ac_valid (c_ctxt c) = true -> r = true -> exists t, right_password (shadow_pw t pw) p)) c.
Proof.
  unfold sys_auth_passwd. fs; (split; [done|]); exists a; (split; [done|]); intros Hv Hr; rewrite ?Hv in *; try done; exists t.
  - apply andb_true_iff in Heqb0 as [H1%Z.eqb_eq H2%Z.eqb_eq]. left. by rewrite (zlen_0_nil _ H1), (zlen_0_nil _ H2).
  - right. cbn [andb] in Hr. destruct (xcrypt _ _); [|done]. by apply bytes_eqb_eq in Hr as ->.
Qed.
Lemma wp_fake w c : wp (fake_password w) (fun r c' => c' = c /\ forall p, r = Some p -> zlen p = zlen w) c.
Proof.
  unfold fake_password. fs. split; [done|]. intros p (x & _ & ->)%fmap_Some. unfold zlen. by rewrite length_map, length_seq.
Qed.
Lemma keeps_pam_passwd p c : Facts c -> is_Some (ac_pw (c_ctxt c)) -> empty_ok (c_options c) p -> zlen p <= 1024 -> wp (sshpam_auth_passwd p) (fun _ => Facts) c.
Proof.
  intros Hc Hu He Hl. unfold sshpam_auth_passwd. do 11 (fs_step; cbv beta).
  eapply (wp_conseq _ (fun r c' => c' = set_c_pam (set_p_authctxt true (c_pam c)) c /\ forall p', r = Some p' -> zlen p' = zlen p)).
  { match goal with |- wp (if ?x then _ else _) _ _ => destruct x end; [apply wp_fake|]. apply wp_ret. split; [done|]. by intros p' [= ->]. }
  intros given c1 [-> Hg].
  assert (Hp : forall p', given = Some p' -> empty_ok (c_options c) p' /\ zlen p' <= 1024).
  { intros p' Hp'. rewrite (Hg p' Hp'). split; [|done]. intros ->. apply He, zlen_0_nil. by rewrite <- (Hg [] Hp'). }
  fs; facts_tac; (split; [done|]); (split; [do 2 eexists; eassumption|done]).
Qed.
Lemma keeps_auth_password p : keeps (auth_password p).
Proof.
  intros c Hc. unfold auth_password. do 4 (fs_step; cbv beta). destruct (Z.ltb_spec MAX_PASSWORD_LEN (zlen p)) as [|Hl]; [by apply wp_ret|].
  do 8 (fs_step; cbv beta). destruct ((zlen p =? 0) && _) eqn:Ee; [by apply wp_ret|].
  assert (He : empty_ok (c_options c) p) by (intros ->; cbn in Ee; by destruct (op_permit_empty_passwd _)).
  destruct (op_use_pam (c_options c)).
  { apply wp_bind. eapply wp_conseq; [apply keeps_pam_passwd; try done; by rewrite H|]. intros r c' Hc'. by apply wp_ret. }
  do 3 (fs_step; cbv beta).
  eapply (wp_conseq _ (fun _ c' => Facts c' /\ context_view c' = context_view c)).
  { fs; (split; [by facts_tac|done]). }
  intros ? c1 [Hc1 Hw]. apply wp_bind. eapply wp_conseq; [apply wp_sys_auth|]. intros r c2 (-> & pw & Epw & Hr).
  assert (Hans : answered (ac_valid (c_ctxt c1)) (ac_pw (c_ctxt c1)) (c_options c1) (EvSysAuth p r)).
  { split; [|split; [exact Hl|by exists pw]]. unfold empty_ok in *. unfold context_view, login_options in Hw. by injection Hw as _ _ _ -> _ _ _ _. }
  fs; by facts_tac.
Qed.
Lemma keeps_authpassword : keeps mm_answer_authpassword.
Proof.
  intros c Hc. unfold mm_answer_authpassword. do 9 (fs_step; cbv beta). eapply wp_conseq; [apply keeps_auth_password; by facts_tac|].
  intros r c' Hc'. fs; by facts_tac.
Qed.

(** *** PAM *)

Definition accepted : Prop := (exists t, pam_acct_mgmt t = PAM_SUCCESS \/ pam_acct_mgmt t = PAM_NEW_AUTHTOK_REQD) \/ pam_said PAM_SUCCESS.
Lemma Facts_account n c : account_said n -> Facts c -> Facts (set_c_pam (set_p_account n (c_pam c)) c).
Proof. intros Hn [F0 F1 F2 F3]. by split. Qed.
Lemma Facts_device d c : device_said d -> Facts c -> Facts (set_c_pam (set_p_ctxt d (c_pam c)) c).
Proof. intros Hn [F0 F1 F2 F3]. by split. Qed.
Lemma wp_do_account c : Facts c -> wp do_pam_account (fun r c' => Facts c' /\ (r <> 0 -> accepted)) c.
Proof.
  intros Hc. unfold do_pam_account. fs.
  - split; [done|]. apply (facts_account _ Hc). by apply negb_true_iff, Z.eqb_neq in Heqb.
  - split; [|done]. apply Facts_account; [by intros _ Hz|done].
  - assert (Ha : accepted) by (left; exists t; right; by apply Z.eqb_eq). split; [|done]. apply Facts_account; [by intros _ _|]. by facts_tac.
  - assert (Ha : accepted). { left. exists t. rewrite H in Heqb0. cbn [negb] in Heqb0. rewrite andb_true_r in Heqb0. left. by apply negb_false_iff, Z.eqb_eq in Heqb0. }
    split; [|done]. apply Facts_account; [by intros _ _|done].
Qed.
Lemma keeps_pam_account : keeps mm_answer_pam_account.
Proof.
  intros c Hc. unfold mm_answer_pam_account. do 5 (fs_step; cbv beta). eapply wp_conseq; [by apply wp_do_account|]. intros r c' [Hc' Hr]. fs. by facts_tac.
Qed.
Lemma keeps_init_ctx : keeps mm_answer_pam_init_ctx.
Proof.
  intros c Hc. unfold mm_answer_pam_init_ctx. do 9 (fs_step; cbv beta).
  eapply (wp_conseq _ (fun r c' => Facts c' /\ device_said r)).
  { unfold sshpam_init_ctx. fs; (split; [by facts_tac|]); try done. by intros d [= <-]. }
  intros d c1 [Hc1 Hd]. fs; facts_tac; try done; apply (Facts_view (set_c_pam (set_p_ctxt d (c_pam c1)) c1)); try done; by apply Facts_device.
Qed.

(** A message that was received begins with the byte that is read as its type. *)
Lemma fill_reset bytes b b' : std b -> zlen bytes < 2 ^ 62 -> fill bytes (sshbuf_reset b) = (inr tt, b') -> std b' /\ contents b' = bytes.
Proof.
  intros [Hb Hm] Hl E. destruct (reset_rw b (alloc_total SSHBUF_SIZE_INIT ltac:(done)) Hb Hm) as [Hr [= Ec Em]].
  destruct (Puts_poke bytes _ eq_refl Hl (sshbuf_reset b) Hr) as [Hb' Ha]. unfold fill in E. rewrite E in *. cbn in Hb', Ha. injection Ha as Ea1 Ea2.
  split; [split; [done|congruence]|]. by rewrite Ea1, Ec.
Qed.
Lemma wp_recv b c : std b -> wp (ssh_msg_recv b) (fun r c' => c' = c /\ forall b', r = Some b' -> exists t bytes, pam_recv t = Some bytes /\ std b' /\ contents b' = bytes) c.
Proof.
  intros Hb. unfold ssh_msg_recv. do 2 (fs_step; cbv beta). destruct (pam_recv t) as [bytes|] eqn:Er; [|by apply wp_ret].
  destruct (Z.ltb_spec (256 * 1024) (zlen bytes)) as [|Hl]; [by apply wp_ret|]. destruct (fill bytes (sshbuf_reset b)) as [[e|[]] b1] eqn:E; apply wp_ret; (split; [done|]); [done|].
  intros b' [= <-]. exists t, bytes. split; [done|]. eapply fill_reset; [done| |exact E]. lia.
Qed.
Lemma get_u8_head b x b' : std b -> sshbuf_get_u8 b = (inr x, b') -> std b' /\ exists rest, contents b = x :: rest.
Proof.
  intros [Hb Hm] E. destruct (Refines_inv _ _ _ _ _ Refines_get_u8 Hb E) as [Ea Hb']. apply SE_bind_inv in Ea as (l & a1 & Et & Er). unfold a_take in Et. cbn [abs pending cap] in Et.
  destruct (Z.ltb_spec (zlen (contents b)) 1) as [|Hl]; [done|]. injection Et as <- <-. injection Er as Ex _ Ec. split; [split; [done|congruence]|].
  destruct (contents b) as [|y l]; [unfold zlen in Hl; cbn in Hl; lia|]. change (y = x) in Ex. subst y. by exists l.
Qed.
Lemma get_text_std b x b' : std b -> get_text b = (inr x, b') -> std b'.
Proof.
  intros [Hb Hm] E. apply SE_bind_inv in E as (v & b1 & E & Er). injection Er as _ <-. destruct (Refines_inv _ _ _ _ _ Refines_get_cstring Hb E) as [Ea Hb'].
  split; [done|]. pose proof (a_get_cstring_cap (b_max_size b) (abs b) eq_refl) as Hc. rewrite Ea in Hc. cbn in Hc. by rewrite Hc.
Qed.
Lemma wp_on_buf {A} (m : SE sshbuf Z A) b Q c : (forall a b', m b = (inr a, b') -> Q (a, b') c) -> wp (on_buf m b) Q c.
Proof. intros H. unfold on_buf. destruct (m b) as [[e|a] b'] eqn:E; [apply wp_throw|]. apply wp_ret. by apply H. Qed.

Lemma Facts_done v c : (v = 1 -> pam_said PAM_SUCCESS) -> Facts c -> wp (set_done v) (fun _ => Facts) c.
Proof.
  intros Hv Hc. unfold set_done. fs. apply Facts_device; [|done]. intros d (x & _ & ->)%fmap_Some. cbn. exact Hv.
Qed.
Lemma keeps_import b c : pam_said PAM_SUCCESS -> Facts c -> wp (import_environments b) (fun _ => Facts) c.
Proof.
  intros Hs Hc. unfold import_environments. fs. facts_tac. apply Facts_account; [by right|done].
Qed.
Definition device_ended : Prop := pam_said PAM_SUCCESS \/ pam_said PAM_AUTH_ERR \/ pam_said PAM_MAXTRIES \/ pam_said PAM_ACCT_EXPIRED.
Definition query_said (r : query_res) (c : mcore) : Prop := Facts c /\ (r.1.1.1 = 0 -> r.1.2 = 0 -> device_ended).
Lemma wp_query_ends type p b c : pam_said type -> device_ended -> Facts c -> wp (query_ends type p b) query_said c.
Proof.
  intros Ht He Hc. unfold query_ends. apply wp_bind.
  eapply (wp_conseq _ (fun _ => Facts)). { fs; [|done]. apply Facts_account; [by intros _ Hz|done]. }
  intros ? c1 Hc1. apply wp_bind. eapply (wp_conseq _ (fun _ => Facts)). { fs; by facts_tac. }
  intros ? c2 Hc2. destruct (negb _ && _).
  { apply wp_bind. eapply wp_conseq; [by apply Facts_done|]. intros ? c3 Hc3. by apply wp_ret. }
  apply wp_bind. eapply (wp_conseq _ (fun _ => Facts)). { fs; by facts_tac. }
  intros ? c3 Hc3. destruct (Z.eqb_spec type PAM_SUCCESS) as [->|Hn].
  - do 5 (fs_step; cbv beta). eapply wp_conseq; [by apply keeps_import|]. intros ? c4 Hc4. apply wp_bind. eapply wp_conseq; [by apply Facts_done|].
    intros ? c5 Hc5. by apply wp_ret.
  - apply wp_bind. eapply wp_conseq; [by apply Facts_done|]. intros ? c4 Hc4. by apply wp_ret.
Qed.
Lemma wp_query_loop fuel : forall p b c, std b -> Facts c -> wp (query_loop fuel p b) query_said c.
Proof.
  induction fuel as [|fuel IH]; intros p b c Hb Hc; cbn [query_loop]; [apply wp_throw|]. apply wp_bind. eapply wp_conseq; [by apply wp_recv|].
  intros [b1|] c1 [-> Hr]; [|by apply wp_ret]. destruct (Hr b1 eq_refl) as (t & bytes & Et & Hb1 & Hc1). apply wp_bind, wp_on_buf. intros type b2 E2.
  destruct (get_u8_head _ _ _ Hb1 E2) as [Hb2 [rest Hrest]]. rewrite Hrest in Hc1. subst bytes. assert (Hs : pam_said type) by (by exists t, rest).
  apply wp_bind, wp_on_buf. intros text b3 E3. pose proof (get_text_std _ _ _ Hb2 E3) as Hb3. destruct (_ || _); [by apply wp_ret|].
  destruct (_ || _); [by apply IH|]. destruct (_ || _) eqn:Et'.
  - apply wp_query_ends; [done| |done]. repeat (apply orb_true_iff in Et' as [Et'|Et']); apply Z.eqb_eq in Et'; subst type; unfold device_ended; auto.
  - apply wp_bind. eapply wp_conseq; [by apply Facts_done|]. intros ? c4 Hc4. by apply wp_ret.
Qed.
Lemma wp_sshpam_query c : Facts c -> wp sshpam_query query_said c.
Proof.
  intros Hc. unfold sshpam_query. do 2 (fs_step; cbv beta). destruct (sshbuf_new_rw a H) as [Hb [= _ Hm]]. apply wp_query_loop; [|done]. split; [done|]. by rewrite Hm.
Qed.
Lemma keeps_query : keeps mm_answer_pam_query.
Proof.
  intros c Hc. unfold mm_answer_pam_query. do 7 (fs_step; cbv beta). eapply wp_conseq; [apply wp_sshpam_query; by facts_tac|].
  intros [[[ret info] num] prompt] c1 [Hc1 Hq]. cbn in Hq. fs; by facts_tac.
Qed.
Lemma wp_sshpam_respond d resp c : (d = 1 -> pam_said PAM_SUCCESS) -> Facts c -> wp (sshpam_respond d resp) (fun r c' => Facts c' /\ (r = 0 -> pam_said PAM_SUCCESS)) c.
Proof.
  intros Hd Hc. unfold sshpam_respond. destruct (Z.eqb_spec d 1) as [->|Hn].
  - fs. split; [|by auto]. by apply (Facts_view c).
  - fs; (split; [done|]); repeat case_match; done.
Qed.
Lemma keeps_respond : keeps mm_answer_pam_respond.
Proof.
  intros c Hc. unfold mm_answer_pam_respond. fs; (eapply wp_conseq; [apply wp_sshpam_respond; [by apply (facts_device _ Hc)|by facts_tac]|]);
    intros r c1 [Hc1 Hr]; fs; by facts_tac.
Qed.
Lemma keeps_free_ctx : keeps mm_answer_pam_free_ctx.
Proof.
  intros c Hc. unfold mm_answer_pam_free_ctx. fs; facts_tac; apply (Facts_view (set_c_pam (set_p_ctxt None (c_pam c)) c)); try done; by apply Facts_device.
Qed.

(** *** Keys *)

Lemma matches_name key types : negb (name_matches key types) = false -> match_pattern_list (sshkey_ssh_name key) types false = Some 1.
Proof. unfold name_matches. destruct (match_pattern_list _ _ _); [|done]. by intros ->%negb_false_iff%Z.eqb_eq. Qed.
Lemma answered_view c c' e : answer_view c' = answer_view c -> answered (ac_valid (c_ctxt c)) (ac_pw (c_ctxt c)) (c_options c) e ->
  answered (ac_valid (c_ctxt c')) (ac_pw (c_ctxt c')) (c_options c') e.
Proof.
  unfold answer_view, context_view. intros E. pose proof (f_equal (fun x => x.1.1.1.2) E) as Eo. injection E as _ E2 E3 _ _ _ _ _ _ _ _. rewrite E2, E3. by apply answered_options.
Qed.
Lemma view_pw c c' : answer_view c' = answer_view c -> ac_pw (c_ctxt c') = ac_pw (c_ctxt c).
Proof. unfold answer_view, context_view. by intros [=]. Qed.
Definition key_answer (pw : option passwd) (type : Z) (cu ch : list Z) (key : sshkey) (c : mcore) (r : bool * option sshauthopt) (c' : mcore) : Prop :=
  answer_view c' = answer_view c /\ (r.1 = true -> exists w, pw = Some w /\ key_allowed (c_options c') w type cu ch key).
Lemma wp_userkey pw key attempt cu ch c : wp (userkey_allowed pw key attempt) (key_answer pw MM_USERKEY cu ch key c) c.
Proof.
  unfold userkey_allowed. fs; (split; [done|]); [done|]. intros Hr. exists a1. split; [done|]. left.
  apply orb_false_iff in Heqb as [[Hp _]%orb_false_iff Hn%matches_name]. apply negb_false_iff in Hp. split_and!; [done..|].
  destruct (user_key_allowed t a1 key attempt) as [ok opts] eqn:E. cbn in Hr. subst ok. by exists t, attempt, opts.
Qed.
Lemma wp_hostkey pw key cu ch c : wp (hostkey_allowed pw cu ch key) (key_answer pw MM_HOSTKEY cu ch key c) c.
Proof.
  unfold hostkey_allowed. fs; (split; [congruence|]); [done|]. cbn [fst]. intros Hr. exists a1. split; [done|].
  apply orb_false_iff in Heqb as [[Hp _]%orb_false_iff Hn%matches_name]. apply negb_false_iff in Hp. 
  pose proof (f_equal (fun x => x.1.1.1.2) Hv0) as El. cbn in El. unfold login_options in El. injection El as _ _ _ E4 E5. right. unfold key_allowed. rewrite E4, E5.
  split_and!; [done..|]. by exists t.
Qed.
Lemma keeps_keyallowed : keeps mm_answer_keyallowed.
Proof.
  intros c Hc. unfold mm_answer_keyallowed. do 14 (fs_step; cbv beta). rename a into type, a0 into cu, a1 into ch, a2 into key. 
  fs_step. cbv beta.
  eapply (wp_conseq _ (key_answer (ac_pw (c_ctxt c)) type cu ch key c)).
  { destruct (negb _); [by apply wp_ret; split|]. do 2 (fs_step; cbv beta). destruct (Z.eqb_spec type MM_USERKEY) as [->|]; [apply wp_userkey|].
    destruct (Z.eqb_spec type MM_HOSTKEY) as [->|]; [apply wp_hostkey|apply wp_throw]. }
  intros [allowed opts] c1 [Hv Hk]. fs; facts_tac; apply (answered_view c1); try congruence; cbn; rewrite (view_pw _ _ Hv); by apply Hk.
Qed.
Lemma keeps_keyverify : keeps mm_answer_keyverify.
Proof.
  intros c Hc. unfold mm_answer_keyverify, monitor_allowed_key, monitor_valid_userblob, monitor_valid_hostbasedblob. fs; facts_tac; by do 2 eexists.
Qed.

(** *** The loop *)

Lemma keeps_handler f : keeps (run_handler f).
Proof.
  destruct f; cbn [run_handler]; auto using keeps_moduli, keeps_sign, keeps_pwnamallow, keeps_authserv, keeps_banner, keeps_authpassword, keeps_pam_start,
    keeps_pam_account, keeps_init_ctx, keeps_query, keeps_respond, keeps_free_ctx, keeps_keyallowed, keeps_keyverify.
Qed.
Lemma keeps_read : keeps monitor_read.
Proof. intros c Hc. unfold monitor_read. fs. eapply wp_conseq; [by apply keeps_handler|]. intros r c1 Hc1. fs; by facts_tac. Qed.
Lemma keeps_grant b : keeps (grant_note b).
Proof. intros c Hc. unfold grant_note, current. fs; [|done]. by facts_tac. Qed.
Lemma keeps_required b : keeps (required_methods b).
Proof. intros c Hc. unfold required_methods, current. fs; by facts_tac. Qed.
Lemma keeps_final ent : keeps (final_checks ent).
Proof.
  intros c Hc. unfold final_checks, auth_root_allowed. fs; try done; (eapply wp_conseq; [by apply keeps_pam_account|]); intros r c2 Hc2; by apply wp_ret.
Qed.
Lemma keeps_round : keeps preauth_round.
Proof.
  intros c Hc. unfold preauth_round. do 5 (fs_step; cbv beta). eapply wp_conseq; [apply keeps_read; by facts_tac|]. intros [ret ent] c1 Hc1.
  apply wp_bind. eapply wp_conseq; [by apply keeps_grant|]. intros ? c2 Hc2. apply wp_bind. eapply wp_conseq; [by apply keeps_required|].
  intros [auth partial] c3 Hc3. apply wp_bind. eapply (wp_conseq _ (fun _ => Facts)). { destruct auth; [by apply keeps_final|by apply wp_ret]. }
  intros r c4 Hc4. unfold current. fs; facts_tac; by apply (Facts_view c4).
Qed.
Lemma keeps_loop fuel : keeps (preauth_loop fuel).
Proof.
  induction fuel as [|fuel IH]; intros c Hc; cbn [preauth_loop]; [apply wp_throw|]. apply wp_bind. eapply wp_conseq; [by apply keeps_round|].
  intros r c' Hc'. destruct r; [by apply wp_ret|by apply IH].
Qed.
End Answers2.

(** ** The loop *)

Section Loop.
Context {heap : Allocator} {total : @AllocTotal heap} {keys : SshKeys} {env : MonEnv}.

(** Entries of the table, and what they decide. *)
Lemma find_shape t type e : find_entry t type = Some e -> (mt_type e, mt_f e, decides e) ∈ shape t.
Proof. induction t as [|e' t IH]; cbn; [done|]. destruct (mt_type e' =? type); [intros [= ->]; left|intros H; right; by apply IH]. Qed.
Lemma entry_decides c type e : Inv c -> find_entry (c_dispatch c) type = Some e -> decides e = decider (mt_f e).
Proof.
  intros HI Hf. apply find_shape in Hf. rewrite (inv_shape _ HI) in Hf. unfold shape in Hf. apply list_elem_of_fmap in Hf as (x & E & Hx).
  injection E as _ Ef Ed. rewrite Ed, Ef. clear -Hx. revert x Hx. apply Forall_forall. by repeat constructor.
Qed.

Definition read_ok (r : Z * mon_table) (c : mcore) : Prop :=
  Inv c /\ (r.1 = 1 -> (decides r.2 = true /\ backed_now c) \/ (decides r.2 = false /\ c_method c = str "unknown" /\ c_submethod c = None)).
Lemma wp_read c : ready c -> wp monitor_read read_ok c.
Proof.
  intros Hc. unfold monitor_read. ms. pose proof (entry_decides _ _ _ (proj1 Hc) H) as Hd. eapply wp_conseq; [by apply wp_handler|]. intros r c' [HI' Hr]. ms.
  - split; [by inv_tac|]. cbn [fst snd]. rewrite Hd. destruct (view_method _ _ Hv) as [-> ->]. intros Hr1. destruct (Hr Hr1) as [[Hf Hb]|Hb]; [left; split; [done|]|by right].
    unfold backed_now in *. destruct (view_session _ _ Hv) as [-> ->]. rewrite (view_trace _ _ Hv). by destruct (view_method _ _ Hv) as [-> ->].
  - split; [done|]. cbn [fst snd]. by rewrite Hd.
Qed.

(** *** Required methods *)

Lemma plain_b m : forallb (fun c => negb (c =? COMMA) && negb (c =? AuthLists.COLON)) m = true -> plain m.
Proof. rewrite forallb_forall. intros Hx. apply Forall_forall. intros c Hc. apply list_elem_of_In in Hc. specialize (Hx c Hc). lia. Qed.
Lemma backed_ok sid user tr m s : backed sid user tr m s -> grant_ok (m, s).
Proof.
  intros [m' b p [-> | ->] _|m' b p [-> | ->] _| _ |type]; [split_and!; [by apply plain_b|done|done]..| |].
  - split_and!; [by apply plain_b|done|by apply plain_b].
  - unfold key_method. destruct (type =? MM_USERKEY); split_and!; try done; by apply plain_b.
Qed.

Lemma foldl_satisfy_Forall (P : list Z -> Prop) gs : forall reqs, Forall P reqs -> Forall P (foldl satisfy reqs gs).
Proof.
  induction gs as [|g gs IH]; intros reqs H; [done|]. cbn. apply IH. destruct H; cbn; [constructor|]. destruct (provides _ _ _); [done|by constructor].
Qed.
Lemma remove_unknown l0 gs l o : known_list o l0 -> progress l0 gs l -> remove_method l (str "unknown") None = None.
Proof.
  intros [_ Hk] [Hw (gs' & _ & E)]. destruct (decide (l = [])) as [->|Hl]; [by vm_compute|].
  destruct (requirements_first l Hl Hw) as (t & tail & -> & Ht & Htail & Er & _).
  assert (Hk' : Forall (fun t => before_colon t ∈ map method_name authmethods) (requirements (t ++ tail))) by (rewrite E; by apply foldl_satisfy_Forall).
  rewrite Er in Hk'. apply Forall_cons_1 in Hk' as [Hk' _]. unfold remove_method.
  destruct (starts_with_spec t tail (str "unknown") None Ht Htail) as [[-> _]|[(? & ? & _)|(_ & H1 & H2)]]; [by apply plain_b|done|exfalso|done|].
  - clear -Hk'. assert (H : bool_decide (before_colon (str "unknown") ∈ map method_name authmethods) = false) by (by vm_compute). by apply bool_decide_eq_false in H.
  - by rewrite (proj2 (Z.eqb_neq _ MATCH_METHOD)), (proj2 (Z.eqb_neq _ MATCH_BOTH)) by done.
Qed.
Lemma update_unknown cfg ls gs o : Forall (known_list o) cfg -> Forall2 (fun l0 l => progress l0 gs l) cfg ls -> auth2_update_methods_lists ls (str "unknown") None = None.
Proof.
  intros Hk H. unfold auth2_update_methods_lists. replace (update_lists ls (str "unknown") None) with (ls, false, false); [done|].
  induction H as [|l0 l cfg ls Hp _ IH]; [done|]. apply Forall_cons_1 in Hk as [Hk1 Hk2]. cbn [update_lists]. rewrite (remove_unknown _ _ _ _ Hk1 Hp). by rewrite <- IH.
Qed.

(** A grant that is backed is noted. *)
Lemma Inv_grant c : Inv c -> backed_now c -> Inv (set_c_trace (c_trace c ++ [EvGrant (c_method c) (c_submethod c)]) c).
Proof.
  intros [H1 H2 H3 H4 H5 H6] Hb. split.
  - unfold user_inv, users in *. cbn. by rewrite omap_app, app_nil_r.
  - intros k Hk. destruct (H2 k Hk) as (Hu & a & Ha & Eb). split; [done|]. exists a. split; [|done]. cbn. apply elem_of_app. by left.
  - intros a Ha. refine (eq_trans (pam_ended_app _ _) _). by eapply (H3 a).
  - apply grants_inv_app; [done|]. by intros m s [= <- <-].
  - intros Ho. destruct (H5 Ho) as (cfg & Hc & Hl). exists cfg. split; [done|]. unfold grants in *. cbn. rewrite omap_app. eapply Forall2_impl; [exact Hl|]. intros. by apply progress_more.
  - done.
Qed.
Definition granted (c : mcore) : Prop := EvGrant (c_method c) (c_submethod c) ∈ c_trace c.
Definition lists_done (c : mcore) : Prop :=
  op_auth_methods (c_options c) <> [] -> exists l, l ∈ op_auth_methods (c_options c) /\ fulfils (grants (c_trace c)) l.
Definition with_grant (c : mcore) : mcore := set_c_trace (c_trace c ++ [EvGrant (c_method c) (c_submethod c)]) c.
Lemma grant_lists c ls complete : Inv c -> backed_now c -> op_auth_methods (c_options c) <> [] ->
  auth2_update_methods_lists (ac_auth_methods (c_ctxt c)) (c_method c) (c_submethod c) = Some (ls, complete) ->
  let c' := set_c_ctxt (set_ac_auth_methods ls (c_ctxt (with_grant c))) (with_grant c) in
  Inv c' /\ (complete = true -> lists_done c').
Proof.
  intros HI Hb Ho Hu. pose proof (Inv_grant c HI Hb) as [H1 H2 H3 H4 _ H6]. destruct (inv_lists _ HI Ho) as (cfg & Hc & Hl).
  destruct (backed_ok _ _ _ _ _ Hb) as (Hp & Hn & Hs). pose proof (update_lists_progress cfg _ _ _ _ Hp Hn Hs Hl) as Hup. cbn [fst snd] in *.
  assert (Eg : grants (c_trace (with_grant c)) = grants (c_trace c) ++ [(c_method c, c_submethod c)]) by (unfold grants; cbn; by rewrite omap_app).
  unfold auth2_update_methods_lists in Hu. destruct (update_lists _ _ _) as [[ls' found] done']. destruct Hup as [Hf Hd].
  assert (E : ls' = ls /\ done' = complete) by (destruct done', found; try discriminate; by injection Hu as -> <-). destruct E as [-> ->]. split.
  - split; [done..| |done]. intros _. exists cfg. split; [done|]. change (c_trace _) with (c_trace (with_grant c)). by rewrite Eg.
  - intros Hc' _. destruct (Exists_exists (fulfils (grants (c_trace (with_grant c)))) cfg) as [Hex _].
    destruct Hex as (l & Hin & Hful); [rewrite Eg; by apply Hd|]. exists l. split; [|done]. rewrite Forall_forall in Hc. by destruct (Hc l Hin).
Qed.
Lemma wp_required (ret : Z) ent c : read_ok (ret, ent) c ->
  wp (grant_note ((ret =? 1) && decides ent)) (fun _ => wp (required_methods (ret =? 1)) (fun r c' => Inv c' /\ (r.1 = true -> decides ent = true -> granted c' /\ lists_done c'))) c.
Proof.
  intros [HI Hr]. cbn [fst snd] in Hr. unfold grant_note, required_methods, current, update_methods_lists.
  destruct (Z.eqb_spec ret 1) as [E|E]; cbn [andb negb].
  2:{ ms; try done; first [by split|by rewrite orb_true_r in Heqb]. }
  destruct (Hr E) as [[Hd Hb]|(Hd & Hm & Hs)]; rewrite Hd.
  - ms; try done; rewrite orb_false_r in Heqb; [apply bool_decide_eq_true in Heqb|apply bool_decide_eq_false in Heqb].
    + split; [by apply Inv_grant|]. intros _ _. split; [apply elem_of_app; right; by left|]. by intros Ho.
    + destruct (grant_lists c l b HI Hb Heqb) as [HI' Hl]; [done|]. split; [done|]. destruct b; [|done]. intros _ _. split; [apply elem_of_app; right; by left|by apply Hl].
  - ms; try done; rewrite orb_false_r in Heqb; apply bool_decide_eq_false in Heqb. exfalso. destruct (inv_lists _ HI Heqb) as (cfg & Hc & Hl).
    rewrite Hm, Hs in *. by rewrite (update_unknown _ _ _ _ Hc Hl) in *.
Qed.

(** *** The last checks *)

(** How root may log in. *)
Definition permits_root (permit : Z) (method : list Z) (command : option (option (list Z))) : Prop :=
  permit = PERMIT_YES \/
  (permit = PERMIT_NO_PASSWD /\ method ∈ [str "publickey"; str "hostbased"; str "gssapi-with-mic"]) \/
  (permit = PERMIT_FORCED_ONLY /\ exists x, command = Some (Some x)).
Definition root_ok (c : mcore) : Prop :=
  exists pw, ac_pw (c_ctxt c) = Some pw /\
  (pw_uid pw = 0 -> permits_root (op_permit_root_login (c_options c)) (c_method c) (o_force_command <$> c_auth_opts c)).
Definition account_ok (c : mcore) : Prop := op_use_pam (c_options c) = true -> exists r, last (c_trace c) = Some (EvAccount r) /\ r <> 0.

Lemma view_root c c' : view_command c' = view_command c -> root_ok c -> root_ok c'.
Proof. unfold view_command, view, user_view, option_view, rest_view, root_ok. intros [= E1 E2 E3 E4 E5 E6 E7 E8 E9 E10 E11 E12 E13 E14 E15 E16]. by rewrite E4, E8, E10, E16. Qed.
Lemma view_granted c c' : view c' = view c -> granted c /\ lists_done c -> granted c' /\ lists_done c'.
Proof. unfold view, user_view, option_view, rest_view, granted, lists_done. intros [= E1 E2 E3 E4 E5 E6 E7 E8 E9 E10 E11 E12 E13 E14 E15]. by rewrite E6, E10, E11, E14. Qed.
Lemma view_account c c' : view c' = view c -> account_ok c -> account_ok c'.
Proof. unfold view, user_view, option_view, rest_view, account_ok. intros [= E1 E2 E3 E4 E5 E6 E7 E8 E9 E10 E11 E12 E13 E14 E15]. by rewrite E7, E14. Qed.

Lemma wp_root_allowed method c : wp (auth_root_allowed method) (fun r c' => c' = c /\ (r = true -> permits_root (op_permit_root_login (c_options c)) method (o_force_command <$> c_auth_opts c))) c.
Proof.
  unfold auth_root_allowed. ms; (split; [done|]); intros Hr; try done.
  - left. by apply Z.eqb_eq.
  - right; left. split; [by apply Z.eqb_eq|]. apply orb_true_iff in Hr as [[Hr|Hr]%orb_true_iff|Hr]; apply bytes_eqb_eq in Hr as ->; [left|right; left|right; right; left].
  - right; right. split; [by apply Z.eqb_eq|]. apply bool_decide_eq_true in Hr as [x Hx]. exists x. by rewrite H, <- Hx.
Qed.
Definition login_ok (c : mcore) : Prop := (granted c /\ lists_done c) /\ root_ok c /\ account_ok c.
Lemma wp_final ent c : Inv c -> (decides ent = true -> granted c /\ lists_done c) -> wp (final_checks ent) (fun r c' => Inv c' /\ (r = true -> login_ok c')) c.
Proof.
  intros HI Hg. unfold final_checks. do 4 (ms_step; cbv beta). apply negb_false_iff in H. specialize (Hg H). do 3 (ms_step; cbv beta).
  eapply (wp_conseq _ (fun r c' => c' = c /\ (r = true -> root_ok c))).
  { destruct (Z.eqb_spec (pw_uid a) 0) as [E|E]; ms.
    - eapply wp_conseq; [apply wp_root_allowed|]. intros r c' [-> Hr]. split; [done|]. intros ->. exists a. auto.
    - split; [done|]. intros _. by exists a. }
  intros r c' [-> Hr]. do 2 (ms_step; cbv beta). destruct (op_use_pam (c_options c)) eqn:Eu; cbn [andb].
  2:{ apply wp_ret. split; [done|]. intros ->. split; [done|]. split; [by apply Hr|]. unfold account_ok. by rewrite Eu. }
  destruct r; [|apply wp_ret; by split]. do 5 (ms_step; cbv beta). eapply wp_conseq; [by apply wp_pam_account|].
  intros r c' (HI' & c0 & Hv & Hv'). apply wp_ret. split; [done|]. intros Hr1. pose proof (f_equal fst Hv) as Hw. pose proof (f_equal fst Hv') as Hw'. cbn [fst view_command] in Hw, Hw'.
  pose proof (view_granted _ _ Hw Hg) as [Hg1 Hg2]. split; [|split].
  - apply (view_granted _ _ Hw'). split; [apply elem_of_app; by left|]. intros Ho. destruct (Hg2 Ho) as (l & Hl & Hf). exists l. split; [done|].
    unfold grants in *. cbn. by rewrite omap_app, app_nil_r.
  - apply (view_root _ _ Hv'). apply (view_root _ _ Hv). auto.
  - apply (view_account _ _ Hw'). intros _. exists r. split; [by apply last_snoc|]. intros ->. done.
Qed.

Lemma login_view c c' : view_command c' = view_command c -> login_ok c -> login_ok c'.
Proof.
  intros Hv (Hg & Hr & Ha). assert (Hw : view c' = view c) by exact (f_equal fst Hv).
  split; [by apply (view_granted _ _ Hw)|]. split; [by apply (view_root _ _ Hv)|by apply (view_account _ _ Hw)].
Qed.
Lemma calm_current m : (forall a b, calm view_command (m a b)) -> calm view_command (A:=()) (current m).
Proof. intros Hm. unfold current. apply calm_bind; [apply calm_quiet; eauto with quietdb|intros ?]. apply calm_bind; [apply calm_quiet; eauto with quietdb|intros ?]. apply Hm. Qed.
Lemma wp_round c : Inv c -> wp preauth_round (fun r c' => Inv c' /\ (r = true -> login_ok c')) c.
Proof.
  intros HI. unfold preauth_round. do 2 (ms_step; cbv beta). do 2 (ms_step; cbv beta). ms_step. cbv beta.
  eapply wp_conseq; [apply wp_read|].
  { split; [by inv_tac|]. destruct (view_method _ _ Hv) as [-> ->]. done. }
  intros [ret ent] c1 Hread. apply wp_bind. eapply wp_conseq; [by apply wp_required|]. intros [] c2 Hreq. cbv beta in Hreq |- *.
  apply wp_bind. eapply wp_conseq; [exact Hreq|]. intros [auth partial] c3 [HI3 Hg]. cbn [fst] in Hg. apply wp_bind.
  eapply (wp_conseq _ (fun r c' => Inv c' /\ (r = true -> login_ok c'))).
  { destruct auth; [|apply wp_ret; by split]. apply wp_final; auto. }
  intros r c4 [HI4 Hl]. apply wp_bind. match goal with |- wp ?m _ _ => assert (Hc : calm view_command m) end.
  { apply calm_when, calm_bind; [apply calm_when; apply calm_set_core; reflexivity|intros _]. apply calm_when, calm_current. eauto with calmdb. }
  apply Hc. intros _ c5 Hv5. apply wp_ret. split; [apply (Inv_view c4); [exact (f_equal fst Hv5)|done]|]. intros Hr. eapply login_view; [done|auto].
Qed.
Lemma wp_loop fuel c : Inv c -> wp (preauth_loop fuel) (fun _ c' => Inv c' /\ login_ok c') c.
Proof.
  revert c. induction fuel as [|fuel IH]; intros c HI; cbn [preauth_loop]; [apply wp_throw|]. apply wp_bind. eapply wp_conseq; [by apply wp_round|].
  intros r c' [HI' Hr]. destruct r; [apply wp_ret; auto|by apply IH].
Qed.

(** The beginning. *)
Definition fresh (c : mcore) : Prop := c_trace c = [] /\ c_key c = None /\ c_pam c = new_pam.
Lemma Inv_fresh c : fresh c -> Inv (set_c_dispatch mon_dispatch_proto20 (set_c_ctxt zero_ctxt c)).
Proof.
  intros (Ht & Hk & Hp). split.
  - left. cbn. by rewrite Ht.
  - intros k. cbn. by rewrite Hk.
  - intros a. cbn. by rewrite Hp.
  - intros i m s. cbn. by rewrite Ht.
  - intros _. exists []. split; constructor.
  - done.
Qed.
Lemma Facts_fresh c : fresh c -> Facts (set_c_dispatch mon_dispatch_proto20 (set_c_ctxt zero_ctxt c)).
Proof. intros (Ht & Hk & Hp). split; cbn; rewrite ?Ht, ?Hp; [done|constructor|by intros d|by intros Hz]. Qed.
Lemma facts_preauth c : fresh c -> wp monitor_child_preauth (fun _ => Facts) c.
Proof.
  intros Hf. unfold monitor_child_preauth. do 7 (fs_step; cbv beta). eapply wp_conseq; [apply keeps_loop; facts_tac; by apply Facts_fresh|].
  intros ? c1 Hc1. by fs.
Qed.
Lemma wp_preauth c : fresh c -> wp monitor_child_preauth (fun _ c' => Inv c' /\ login_ok c' /\ ac_valid (c_ctxt c') = true) c.
Proof.
  intros Hf. unfold monitor_child_preauth. do 2 (ms_step; cbv beta). do 4 (ms_step; cbv beta).
  apply wp_bind. eapply wp_conseq; [apply wp_loop; repeat (eapply Inv_view; [eassumption|]); by apply Inv_fresh|].
  intros _ c1 [HI Hl]. ms. split_and!; [done..|]. by apply negb_false_iff.
Qed.

(** C8: Whatever the unprivileged process sends, monitor_child_preauth returns
    only if one user was looked up and was found, and:
    - what the trace notes is what the system answered: a password counts as
      right only if crypt gives the stored hash for it (or both are empty) or PAM
      accepted it, an empty one only if those are permitted; a key only if keys
      are enabled, its type is, and the check of the user's or hosts' keys allowed
      it; a signature only if sshkey_verify says so; the device of PAM has ended
      only if PAM's process said it has (with success or with a refusal, see
      [refused_by_pam_logs_in]); an account is accepted only by PAM;
    - every method that was granted, the last one among them, is backed by the
      notes before it: the password that the child had sent was right, the device
      of PAM has ended, or a signature verifies, by the key that was allowed
      before, over a request that names this session and this user;
    - a configured list of required methods is fulfilled by the granted methods,
      in its order;
    - root logs in only in a way the configuration permits;
    - with PAM the account was accepted last.
    Memory does not run out. *)
Theorem login_backed s s' : fresh (mn_core s) -> monitor_child_preauth s = (inr tt, s') ->
  let c := mn_core s' in
  (exists u pw, users (c_trace c) = [(u, Some pw)] /\ ac_user (c_ctxt c) = Some u /\ ac_pw (c_ctxt c) = Some pw /\
    Forall (answered true (Some pw) (c_options c)) (c_trace c)) /\
  (forall i m sub, c_trace c !! i = Some (EvGrant m sub) -> backed (c_session_id2 c) (ac_user (c_ctxt c)) (take i (c_trace c)) m sub) /\
  EvGrant (c_method c) (c_submethod c) ∈ c_trace c /\
  (op_auth_methods (c_options c) <> [] -> exists l, l ∈ op_auth_methods (c_options c) /\ fulfils (grants (c_trace c)) l) /\
  root_ok c /\
  (op_use_pam (c_options c) = true -> exists r, last (c_trace c) = Some (EvAccount r) /\ r <> 0).
Proof.
  intros Hf E c. pose proof (wp_and _ _ _ _ (wp_preauth _ Hf) (facts_preauth _ Hf) (mn_io s)) as H.
  replace (mk_mon (mn_core s) (mn_io s)) with s in H by (by destruct s). rewrite E in H.
  destruct H as [(HI & ((Hg & Hl) & Hr & Ha) & Hv) HF]. fold c in HI, Hg, Hl, Hr, Ha, Hv, HF. split_and!; [|exact (inv_grants _ HI)|done..].
  destruct (inv_user _ HI) as [(_ & _ & Hn & _)|(_ & u & pw & Hu & Eu & Ev & Ep)]; [congruence|]. rewrite Hv in Ev. symmetry in Ev.
  apply bool_decide_eq_true in Ev as [p ->]. pose proof (facts_events _ HF) as Hev. rewrite Hv, Ep in Hev. by exists u, p.
Qed.
End Loop.

(** ** A login, and one that should have failed *)

Definition demo_keys : SshKeys := {|
  sshkey := list Z; sshkey_from_blob := inr; sshkey_to_blob := inr; sshkey_demote := inr; sshkey_ssh_name := fun _ => str "ssh-ed25519";
  sshkey_is_rsa := fun _ => false; sshkey_equal_public := bytes_eqb; sshkey_format_text := Some |}.
Definition demo_pw : passwd := mk_passwd (str "alice") (str "x") 1000 [] (str "/home/alice") (str "/bin/sh").
(** A message of PAM's process: its type and text. *)
Definition pam_message (type : Z) (text : list Z) : list Z := [type] ++ enc_string text.
Definition demo_hostkey : @sshkey demo_keys := [].
Definition demo_verify (key : @sshkey demo_keys) (sig data : list Z) (alg : option (list Z)) : Z := if bytes_eqb (key : list Z) sig then 0 else -1.
Definition demo_env : @MonEnv demo_keys := {|
  getpwnamallow := fun _ o u => (if bytes_eqb u (str "alice") then Some demo_pw else None, o);
  privsep_uid := None; passwd_bytes := fun _ => []; options_bytes := fun _ => [];
  pam_user_is := fun _ _ => true; pam_start := fun _ _ => 0; pam_set_item := fun _ => 0; pam_authenticate := fun _ _ => (7, []);
  pam_acct_mgmt := fun _ => 0; pam_process := fun _ => true;
  pam_recv := fun t => Some (if Z.odd t then pam_message PAM_TEXT_INFO (str "Too late") else pam_message PAM_AUTH_ERR []);
  pam_send := fun _ _ => true; shadow_pwexpired := fun _ _ => false; shadow_pw := fun _ _ => str "x"; xcrypt := fun _ _ => None;
  user_key_allowed := fun _ _ _ _ => (true, Some demo_opts); hostbased_key_allowed := fun _ _ _ _ _ => false;
  sshkey_verify := demo_verify;
  hostkey_by_index := fun _ => Some demo_hostkey; hostkey_public_by_index := fun _ => Some demo_hostkey; sshkey_sign := fun _ _ d _ _ => inr d; agent_sign := fun _ _ _ _ _ => inl 0;
  auth_sock := 0; choose_dh := fun _ _ _ _ => None; auth2_read_banner := fun _ => None; log_level_known := fun _ => true; datafellows := 0;
  mon_poll := fun _ => Poll_request; mon_read_ok := fun _ => true; mon_write_ok := fun _ => true; mon_rounds := 20 |}.
Definition request (type : Z) (payload : list Z) : list Z := POKE_U32 (1 + zlen payload) ++ [type] ++ payload.
Definition before_auth : list Z :=
  request MONITOR_REQ_SIGN (POKE_U32 0 ++ enc_string demo_sid ++ enc_string (str "ssh-ed25519") ++ POKE_U32 0) ++
  request MONITOR_REQ_PWNAM (enc_string (str "alice")) ++
  request MONITOR_REQ_AUTHSERV (enc_string (str "ssh-connection") ++ enc_string []) ++
  request MONITOR_REQ_PAM_START [].
Definition after_auth : list Z := request MONITOR_REQ_PAM_ACCOUNT [] ++ request MONITOR_REQ_KEYEXPORT (str "keys").
Definition key_login : list Z :=
  before_auth ++ request MONITOR_REQ_KEYALLOWED (POKE_U32 MM_USERKEY ++ enc_string [] ++ enc_string [] ++ enc_string demo_blob ++ POKE_U32 1) ++
  request MONITOR_REQ_KEYVERIFY (enc_string demo_blob ++ enc_string demo_blob ++ enc_string signed_data ++ enc_string []) ++ after_auth.
(** The device has failed; the child frees its context instead of answering. *)
Definition pam_login : list Z :=
  before_auth ++ request MONITOR_REQ_PAM_INIT_CTX [] ++ request MONITOR_REQ_PAM_QUERY [] ++ request MONITOR_REQ_PAM_FREE_CTX [] ++ after_auth.
Definition demo_server : ServerOptions := mk_options true true true true false 0 false true [] (str "*") (str "*") [].
Definition demo_monitor (input : list Z) : @monitor demo_keys :=
  let b := default demo_buf (@sshbuf_new demo_heap) in
  mk_mon (mk_core zero_ctxt demo_server (Some demo_opts) None [] None None [] 0 false new_pam []) (mk_io input [] true [] b b 0).
Local Abbreviation demo_run input := (@monitor_child_preauth demo_heap demo_keys demo_env (demo_monitor input)).
Lemma demo_fresh input : fresh (mn_core (demo_monitor input)).
Proof. by split_and!. Qed.
Lemma run_result {S E A} (r : (E + A) * S) a : r.1 = inr a -> r = (inr a, r.2).
Proof. destruct r. cbn. by intros ->. Qed.
Lemma key_login_runs : demo_run key_login = (inr tt, (demo_run key_login).2).
Proof. apply run_result. vm_compute. reflexivity. Qed.
Lemma login_backed_witness : exists s', demo_run key_login = (inr tt, s') /\ fresh (mn_core (demo_monitor key_login)) /\
  exists u pw, users (c_trace (mn_core s')) = [(u, Some pw)] /\ ac_user (c_ctxt (mn_core s')) = Some u /\ ac_pw (c_ctxt (mn_core s')) = Some pw.
Proof.
  generalize key_login_runs. generalize (demo_run key_login).2. intros s' E. exists s'. split; [exact E|]. split; [apply demo_fresh|].
  destruct (@login_backed demo_heap demo_heap_total demo_keys demo_env _ s' (demo_fresh key_login) E) as [(u & pw & H1 & H2 & H3 & _) _]. exists u, pw. exact (conj H1 (conj H2 H3)).
Defined.

(** Among what backs a login is that PAM's device has come to its end.  That is
    not the same as success: when PAM has shown a text before it refuses, the
    query ends with result 0 and no prompts as well, mm_answer_pam_query takes
    this for success, and a child that frees the context at once, instead of
    answering, is authenticated.  Here PAM never reports success. *)
Theorem refused_by_pam_logs_in :
  (forall t pw, (@pam_authenticate demo_keys demo_env t pw).1 <> PAM_SUCCESS) /\
  (forall t, exists text, @pam_recv demo_keys demo_env t = Some (pam_message PAM_TEXT_INFO text) \/ @pam_recv demo_keys demo_env t = Some (pam_message PAM_AUTH_ERR text)) /\
  exists s', demo_run pam_login = (inr tt, s') /\ ac_user (c_ctxt (mn_core s')) = Some (str "alice") /\ c_method (mn_core s') = KBDINT /\
  grants (c_trace (mn_core s')) = [(KBDINT, Some DEV_PAM)].
Proof.
  split_and!; [done| |].
  - intros t. cbn. destruct (Z.odd t); eexists; [by left|by right].
  - exists (demo_run pam_login).2. split; [apply run_result; vm_compute; reflexivity|]. split_and!; vm_compute; reflexivity.
Qed.
