(* ===== verification/Transport.v ===== *)
(** * From the proposals to messages under the new keys

    The key exchange of Kex.v and the packet layer composed: two sides that
    have read each other's proposals choose the same algorithms, derive the same
    keys from the same secret, and after both have taken their keys into use
    every message that one of them sends arrives at the other. *)

From stdpp Require Import list.
From S2P Require Import Prelude Sshbuf Poly1305 ChachaPoly Mac Cipher PacketState Packet PacketSend PacketRecv PacketKeys Match KexNames Kex KexSpec.

Section Transport.
Context {al : Allocator} {altot : @AllocTotal al} {md : EvpMd} {mdok : @EvpMdOk md} {um : Umac} {umok : @UmacOk um}
  {ev : EvpCipher} {evok : @EvpOk ev} {zl : Zlib} {env : PktEnv} {rand : @RandOk env}.

(** ** Keys of an agreement *)

Lemma find_kexalg_in name a : kex_alg_by_name name = Some a -> a ∈ kexalgs.
Proof.
  unfold kex_alg_by_name. generalize kexalgs. intros l. induction l as [|x l IH]; [done|]. cbn. destruct (bytes_eqb (ka_name x) name).
  - intros [= ->]. apply list_elem_of_here.
  - intros Hf. apply list_elem_of_further. by apply IH.
Qed.
Lemma kexalgs_hash : Forall (fun a => 0 <= ka_hash_alg a < SSH_DIGEST_MAX) kexalgs.
Proof. unfold kexalgs. repeat (constructor; [by vm_compute|]). constructor. Qed.
Lemma ciphers_sizes : Forall (fun c => 0 <= cipher_keylen c <= 64 /\ 0 <= cipher_ivlen c <= 64 /\ 8 <= cipher_blocksize c <= 64) ciphers.
Proof. unfold ciphers. repeat (constructor; [by vm_compute|]). constructor. Qed.

(** mac_init does not look at the name. *)
Lemma mac_init_name n m m' : mac_init m = (0, m') -> mac_init (set_mac_name n m) = (0, set_mac_name n m').
Proof.
  unfold mac_init, set_mac_name. destruct m as [nm en ml k klen ty et h u]. cbn [m_key m_type m_hmac m_key_len m_umac]. destruct k as [l|]; [|done]. destruct (_ =? SSH_DIGEST).
  - destruct h as [c|]; [|done]. destruct (ssh_hmac_init c (Some l) klen) as [r c'].
    destruct (r <? 0); intros [= <-]; reflexivity.
  - destruct (_ =? SSH_UMAC); [destruct (umac_new l); intros [= <-]; reflexivity|]. destruct (_ =? SSH_UMAC128); [destruct (umac128_new l); intros [= <-]; reflexivity|done].
Qed.

(** What is known of the algorithms of a direction. *)
Lemma select_dir_inv cp sp d nk : select_dir cp sp d = Some nk -> exists name c mac comp,
  nk = mk_newkeys (mk_enc name c false (cipher_keylen c) (cipher_ivlen c) (cipher_blocksize c) None None) mac comp /\
  c ∈ ciphers /\ c_enabled comp = false /\ 0 <= m_key_len mac <= 64 /\
  (cipher_authlen c = 0 -> forall mkey, m_key_len mac <= zlen mkey ->
    exists alg key' m', mac_init (set_mac_key (Some mkey) (m_key_len mac) mac) = (0, m') /\ mac_ready alg key' m').
Proof.
  intros Hsel. unfold select_dir in Hsel.
  set (nenc := if d then PROPOSAL_ENC_ALGS_CTOS else PROPOSAL_ENC_ALGS_STOC) in *. set (nmac := if d then PROPOSAL_MAC_ALGS_CTOS else PROPOSAL_MAC_ALGS_STOC) in *.
  set (ncomp := if d then PROPOSAL_COMP_ALGS_CTOS else PROPOSAL_COMP_ALGS_STOC) in *.
  unfold choose_enc in Hsel. destruct (fst (match_list (nth nenc cp []) _)) as [name|]; [|done]. destruct (cipher_by_name name) as [c|] eqn:Ec; [|done]. cbn [e_cipher] in Hsel.
  destruct (if cipher_authlen c =? 0 then _ else _) as [r mac] eqn:Emac. destruct (Z.eqb_spec r 0) as [->|]; [|done]. cbn [negb] in Hsel.
  destruct (choose_comp _ _ _) as [r|comp] eqn:Ecomp; [done|]. injection Hsel as <-. exists name, c, mac, comp. split; [done|].
  split; [by apply (find_cipher_in name)|]. split.
  { revert Ecomp. unfold choose_comp. destruct (fst _); [|done]. destruct (bytes_eqb _ _); [by intros [= <-]|]. destruct (bytes_eqb _ _); [by intros [= <-]|].
    destruct (bytes_eqb _ _); [by intros [= <-]|done]. }
  destruct (Z.eqb_spec (cipher_authlen c) 0) as [E|E]; [|by injection Emac as <-]. unfold choose_mac in Emac.
  destruct (fst (match_list (nth nmac cp []) _)) as [mname|]; [|done]. destruct (mac_setup zero_mac mname) as [r m0] eqn:Em0.
  destruct (Z.ltb_spec r 0); [done|]. injection Emac as <-. cbn [m_key_len].
  destruct (find_mac mname macs) as [a|] eqn:Ea; [|unfold mac_setup in Em0; rewrite Ea in Em0; injection Em0 as <- _; done].
  destruct (mac_setup_ok mname a Ea) as (m & Em & _ & Hen & Hkl & _ & Hstart). rewrite Em in Em0. injection Em0 as <- <-. split; [lia|].
  intros _ mkey Hl. destruct (Hstart mkey Hl) as (m' & key' & Ei & Hr & _). exists (ma_alg a), key', (set_mac_name mname m').
  apply (mac_init_name mname) in Ei. split; [|destruct Hr as [H1 H2]; by split]. rewrite <- Ei. f_equal. unfold set_mac_name, set_mac_key. cbn. by rewrite Hen.
Qed.
Lemma select_dir_sizes cp sp d nk : select_dir cp sp d = Some nk -> 8 <= max_need 0 nk <= 64.
Proof.
  intros Hsel. destruct (select_dir_inv _ _ _ _ Hsel) as (name & c & mac & comp & -> & Hin & _ & Hml & _).
  pose proof (proj1 (Forall_forall _ _) ciphers_sizes c Hin) as (Hk & Hi & Hb). unfold max_need. cbn [nk_enc nk_mac e_key_len e_block_size e_iv_len]. lia.
Qed.
(** Enough key material starts them. *)
Lemma select_dir_ok cp sp d nk iv key mkey : select_dir cp sp d = Some nk ->
  max_need 0 nk <= zlen iv -> max_need 0 nk <= zlen key -> max_need 0 nk <= zlen mkey -> c_type (nk_comp nk) <> COMP_ZLIB ->
  keys_ok false (set_keys iv key mkey nk).
Proof.
  intros Hsel Hiv Hkey Hmkey Hz. destruct (select_dir_inv _ _ _ _ Hsel) as (name & c & mac & comp & -> & Hin & Hcomp & Hml & Hmac).
  pose proof (proj1 (Forall_forall _ _) ciphers_sizes c Hin) as (Hk & Hi & Hb). cbv beta in Hk, Hi, Hb. unfold max_need in Hiv, Hkey, Hmkey.
  cbn [nk_enc nk_mac e_key_len e_block_size e_iv_len] in Hiv, Hkey, Hmkey.
  split; cbn [set_keys nk_enc nk_mac nk_comp e_cipher e_block_size e_key_len e_iv_len e_key e_iv]; [done|done| | |done].
  - exists key, iv. repeat (split; [done|]). lia.
  - intros Ha. apply Hmac; [done|lia].
Qed.

(** The keys of a direction: the letters A, C and E from client to server, B, D
    and F from server to client. *)
Definition keyed (g : agreement) (secret hash sid : list Z) (ctos : bool) : newkeys :=
  let key id := key_of (ka_hash_alg (ag_kex g)) secret hash sid id (max_need (max_need 0 (ag_ctos g)) (ag_stoc g)) in
  set_keys (key (if ctos then 65 else 66)) (key (if ctos then 67 else 68)) (key (if ctos then 69 else 70)) (if ctos then ag_ctos g else ag_stoc g).

Lemma select_inv cp sp g : select cp sp = Some g ->
  0 <= ka_hash_alg (ag_kex g) < SSH_DIGEST_MAX /\ select_dir cp sp true = Some (ag_ctos g) /\ select_dir cp sp false = Some (ag_stoc g).
Proof.
  unfold select. destruct (fst (match_list (nth PROPOSAL_KEX_ALGS cp []) _)) as [name|]; cbn [mbind option_bind]; [|done]. destruct (kex_alg_by_name name) as [a|] eqn:Ea; cbn [mbind option_bind]; [|done].
  destruct (fst (match_list _ _)); cbn [mbind option_bind]; [|done]. destruct (_ =? KEY_UNSPEC); [done|]. destruct (select_dir cp sp true); cbn [mbind option_bind]; [|done].
  destruct (select_dir cp sp false); cbn [mbind option_bind]; [|done]. intros [= <-]. split; [|done]. by apply (proj1 (Forall_forall _ _) kexalgs_hash), (find_kexalg_in name).
Qed.
Lemma max_need_ge n nk : n <= max_need n nk /\ max_need 0 nk <= Z.max 0 (max_need n nk).
Proof. unfold max_need. lia. Qed.

Lemma max_need_le n nk b : n <= b -> max_need 0 nk <= b -> max_need n nk <= b.
Proof. unfold max_need. lia. Qed.

Lemma assign_keys_ok keys m k nk : kex_newkeys m k = Some nk ->
  let ctos := match m with MODE_OUT => negb (k_server k) | MODE_IN => k_server k end in
  assign_keys keys m k = (inr tt, set_kex_newkeys m (Some (set_keys (nth (if ctos then 0 else 1)%nat keys []) (nth (if ctos then 2 else 3)%nat keys [])
    (nth (if ctos then 4 else 5)%nat keys []) nk)) k).
Proof. intros E ctos. unfold assign_keys. rewrite gets_bind. cbn [id]. by rewrite E. Qed.

Lemma derive_side server g k hash hashlen secret S :
  chosen server g k -> 0 <= ka_hash_alg (ag_kex g) < SSH_DIGEST_MAX -> bufc secret S -> 0 < max_need (max_need 0 (ag_ctos g)) (ag_stoc g) <= 4096 ->
  exists k', kex_derive_keys hash hashlen secret k = (inr tt, k') /\
    k_newkeys_in k' = Some (keyed g S (ztake hashlen hash) (default [] (k_session_id k)) server) /\
    k_newkeys_out k' = Some (keyed g S (ztake hashlen hash) (default [] (k_session_id k)) (negb server)).
Proof.
  intros [Hs _ _ Hh _ _ _ Hi Ho Hn] Ha HS Hneed. unfold kex_derive_keys. rewrite gets_bind. cbn [id]. cbn [derive_keys].
  assert (Hd : forall id, derive_key k id (k_we_need k) hash hashlen secret =
    inr (key_of (ka_hash_alg (ag_kex g)) S (ztake hashlen hash) (default [] (k_session_id k)) id (max_need (max_need 0 (ag_ctos g)) (ag_stoc g)))).
  { intros id. rewrite Hn. rewrite <- Hh. by apply derive_key_ok; rewrite ?Hh. }
  rewrite !Hd. clear Hd. rewrite (SE_bind_ok _ _ _ _ _ (assign_keys_ok _ MODE_IN k _ Hi)).
  erewrite (assign_keys_ok _ MODE_OUT); [|exact Ho]. cbn [k_server set_kex_newkeys set_k_newkeys_in]. rewrite Hs. unfold keyed.
  eexists. split; [reflexivity|]. cbn [set_kex_newkeys set_k_newkeys_out set_k_newkeys_in k_newkeys_in k_newkeys_out]. by destruct server.
Qed.

(** ** Both sides *)

(** A connection before authentication, between two packets, with nothing
    under way. *)
Record settled (s : ssh) : Prop := {
  se_plain : s_mux s = false /\ s_rekeying s = false /\ s_after_auth s = false /\ s_extra_pad s = 0 /\ s_discard s = 0 /\ s_packlen s = 0;
  se_bufs : bufc (s_output s) [] /\ bufc (s_input s) [] /\ (exists c, bufc (s_outgoing s) c) /\ (exists c, bufc (s_incoming s) c)
}.

Lemma settled_kex s k : settled s -> settled (set_s_kex k s).
Proof. intros [H1 H2]. by split. Qed.
Lemma settled_deliver s r o i ks kr ps : settled s -> settled r -> paired o i -> d_packets o = 0 -> d_packets i = 0 ->
  Forall for_caller ps -> zlen ps < 2 ^ 31 -> wire_room ps <= SSHBUF_SIZE_MAX ->
  delivers (set_dir MODE_OUT o (set_s_kex ks s)) (set_dir MODE_IN i (set_s_kex kr r)) ps.
Proof.
  intros [(A1 & A2 & A3 & A4 & A5 & A6) (B1 & B2 & B3 & B4)] [(C1 & C2 & C3 & C4 & C5 & C6) (D1 & D2 & D3 & D4)] Hp Po Pi Hps Hn Hw.
  apply paired_delivers; [done| | |done|done]; (split; [split; [done|split; [done|by left]]|]); repeat (split; [done|]); cbn; rewrite ?Po, ?Pi; zlen_facts; lia.
Qed.

(** C9: The key exchange and the packet layer together.  Client and server have
    read each other's proposals and have a choice in common; the key exchange
    method gave both the same secret, hash and session identifier.  Then both
    choose the same algorithms, derive the same keys, and after they have taken
    them into use (each direction for itself) any messages that the client sends
    arrive at the server, and any that the server sends arrive at the client:
    in order, unchanged, however the bytes are cut into pieces.  This is before
    authentication, with both ends between two packets, empty buffers and equal
    sequence numbers; the chosen compression is not zlib (it may be none or the
    one that waits for authentication); the messages are those that a caller gets
    as they are ([for_caller]: types 5 to 191 but not KEXINIT, NEWKEYS and
    USERAUTH_SUCCESS, of less than 2^18 - 300 bytes), fewer than 2^31 and small
    enough together for the output buffer. *)
Theorem exchange_delivers c s kc ks cp sp x y fc fs g hash hashlen secret_c secret_s S ps :
  settled c -> settled s -> d_seqnr (s_in s) = d_seqnr (s_out c) -> d_seqnr (s_in c) = d_seqnr (s_out s) ->
  0 <= d_seqnr (s_out c) < 2 ^ 32 -> 0 <= d_seqnr (s_out s) < 2 ^ 32 ->
  k_server kc = false -> k_server ks = true -> k_session_id kc = k_session_id ks ->
  kex_buf2prop (k_my kc) = inr (cp, x) -> kex_buf2prop (k_peer kc) = inr (sp, fs) ->
  kex_buf2prop (k_my ks) = inr (sp, y) -> kex_buf2prop (k_peer ks) = inr (cp, fc) ->
  select cp sp = Some g -> c_type (nk_comp (ag_ctos g)) <> COMP_ZLIB -> c_type (nk_comp (ag_stoc g)) <> COMP_ZLIB ->
  bufc secret_c S -> bufc secret_s S -> Forall for_caller ps -> zlen ps < 2 ^ 31 -> wire_room ps <= SSHBUF_SIZE_MAX ->
  exists bc bs kc1 ks1 kc2 ks2,
    choose_conf kc = (inr bc, kc1) /\ choose_conf ks = (inr bs, ks1) /\
    kex_derive_keys hash hashlen secret_c kc1 = (inr tt, kc2) /\ kex_derive_keys hash hashlen secret_s ks1 = (inr tt, ks2) /\
    (exists c' s', ssh_set_newkeys MODE_OUT (set_s_kex (Some kc2) c) = (inr tt, c') /\
      ssh_set_newkeys MODE_IN (set_s_kex (Some ks2) s) = (inr tt, s') /\ delivers c' s' ps) /\
    (exists s' c', ssh_set_newkeys MODE_OUT (set_s_kex (Some ks2) s) = (inr tt, s') /\
      ssh_set_newkeys MODE_IN (set_s_kex (Some kc2) c) = (inr tt, c') /\ delivers s' c' ps).
Proof.
  intros Hc Hs Hq1 Hq2 Hr1 Hr2 Sc Ss Hid E1 E2 E3 E4 Hg Z1 Z2 HSc HSs Hps Hn Hw.
  assert (Ec : choose_conf kc = choose_from cp sp fs kc) by (unfold choose_conf; rewrite gets_bind; cbn [id]; by rewrite E1, E2).
  assert (Es : choose_conf ks = choose_from sp cp fc ks) by (unfold choose_conf; rewrite gets_bind; cbn [id]; by rewrite E3, E4).
  pose proof (choose_from_select false cp sp fs kc cp sp Sc eq_refl) as Hcl. pose proof (choose_from_select true sp cp fc ks cp sp Ss eq_refl) as Hsv.
  rewrite Hg in Hcl, Hsv. destruct Hcl as (bc & kc1 & Ecl & Hcc & Hidc), Hsv as (bs & ks1 & Esv & Hcs & Hids).
  destruct (select_inv cp sp g Hg) as (Ha & Hct & Hst). set (need := max_need (max_need 0 (ag_ctos g)) (ag_stoc g)) in *.
  pose proof (select_dir_sizes _ _ _ _ Hct) as M1. pose proof (select_dir_sizes _ _ _ _ Hst) as M2.
  destruct (max_need_ge 0 (ag_ctos g)) as [_ _], (max_need_ge (max_need 0 (ag_ctos g)) (ag_stoc g)) as [M3 M4]. fold need in M3, M4.
  assert (M5 : need <= 4096) by (subst need; apply max_need_le; lia).
  destruct (derive_side false g kc1 hash hashlen secret_c S Hcc Ha HSc ltac:(fold need; lia)) as (kc2 & Edc & Hci & Hco).
  destruct (derive_side true g ks1 hash hashlen secret_s S Hcs Ha HSs ltac:(fold need; lia)) as (ks2 & Eds & Hsi & Hso).
  rewrite Hidc in Hci, Hco. rewrite Hids, <- Hid in Hsi, Hso. cbn [negb] in Hco, Hso. set (sid := default [] (k_session_id kc)) in *. set (h := ztake hashlen hash) in *.
  assert (Hlen : forall id, need <= zlen (key_of (ka_hash_alg (ag_kex g)) S h sid id need)) by (intros; apply zlen_key_of; [done|lia]).
  assert (Kct : keys_ok false (keyed g S h sid true)) by (apply (select_dir_ok cp sp true); try done; fold need; etransitivity; [|apply Hlen| |apply Hlen| |apply Hlen]; lia).
  assert (Kst : keys_ok false (keyed g S h sid false)) by (apply (select_dir_ok cp sp false); try done; fold need; etransitivity; [|apply Hlen| |apply Hlen| |apply Hlen]; lia).
  exists bc, bs, kc1, ks1, kc2, ks2. split; [by rewrite Ec|]. split; [by rewrite Es|]. split; [done|]. split; [done|].
  pose proof (se_plain _ Hc) as (_ & _ & Aac & _). pose proof (se_plain _ Hs) as (_ & _ & Aas & _). split.
  - destruct (newkeys_paired (set_s_kex (Some kc2) c) (set_s_kex (Some ks2) s) kc2 ks2 (keyed g S h sid true)) as (o & i & Eo & Ei & Hpair & Po & Pi); cbn; rewrite ?Aac, ?Aas; try done.
    eexists _, _. split; [exact Eo|]. split; [exact Ei|]. apply settled_deliver; try done; by apply settled_kex.
  - destruct (newkeys_paired (set_s_kex (Some ks2) s) (set_s_kex (Some kc2) c) ks2 kc2 (keyed g S h sid false)) as (o & i & Eo & Ei & Hpair & Po & Pi); cbn; rewrite ?Aac, ?Aas; try done.
    eexists _, _. split; [exact Eo|]. split; [exact Ei|]. apply settled_deliver; try done; by apply settled_kex.
Qed.
End Transport.

(** ** A concrete exchange *)

Section Demo.
#[local] Existing Instances demo_heap demo_evp_md demo_umac demo_evp demo_zlib demo_env demo_heap_total demo_evp_md_ok demo_umac_ok demo_evp_ok demo_env_rand.

(** chacha20-poly1305 to the server, and a cipher with a MAC to the client. *)
Definition demo_proposal : list (list Z) :=
  [str "curve25519-sha256"; str "ssh-ed25519"; str "chacha20-poly1305@openssh.com"; str "aes128-ctr,none"; str "hmac-sha1";
   str "hmac-sha2-256-etm@openssh.com"; str "none"; str "zlib@openssh.com,none"; []; []].
Definition demo_init : sshbuf := snd (kex_prop2buf demo_proposal demo_buf).
Definition demo_kex (server : bool) : kex := set_k_server server (empty_kex demo_init demo_init).
Lemma demo_init_reads : kex_buf2prop demo_init = inr (demo_proposal, 0).
Proof. by vm_compute. Qed.
#[local] Opaque demo_init.
Definition demo_agreement : agreement :=
  match select demo_proposal demo_proposal with
  | Some g => g
  | None => mk_agreement [] (mk_kexalg [] 0 0 0) [] 0 zero_newkeys zero_newkeys
  end.
Lemma demo_selects : select demo_proposal demo_proposal = Some demo_agreement.
Proof.
  assert (E : match select demo_proposal demo_proposal with Some _ => true | None => false end = true) by (vm_compute; reflexivity).
  revert E. unfold demo_agreement. by destruct (select demo_proposal demo_proposal).
Qed.
Lemma demo_no_zlib : (c_type (nk_comp (ag_ctos demo_agreement)) =? COMP_ZLIB) = false /\ (c_type (nk_comp (ag_stoc demo_agreement)) =? COMP_ZLIB) = false.
Proof. split; vm_compute; reflexivity. Qed.
Lemma demo_conn_settled : settled demo_conn.
Proof. split; [done|]. repeat split; try apply demo_buf_empty; exists []; apply demo_buf_empty. Qed.
Definition demo_messages : list (Z * list Z) := [(5, [1; 2; 3]); (90, [])].
Lemma demo_messages_ok : Forall for_caller demo_messages.
Proof. repeat apply Forall_cons_2; try apply Forall_nil_2; apply demo_for_caller; try done; repeat apply Forall_cons_2; try apply Forall_nil_2; done. Qed.

Lemma exchange_delivers_witness : exists c' s', delivers c' s' demo_messages.
Proof.
  destruct (exchange_delivers demo_conn demo_conn (demo_kex false) (demo_kex true) demo_proposal demo_proposal 0 0 0 0 demo_agreement [1; 2] 2
    demo_buf demo_buf [] demo_messages) as (bc & bs & kc1 & ks1 & kc2 & ks2 & _ & _ & _ & _ & (c' & s' & _ & _ & H) & _).
  - exact demo_conn_settled.
  - exact demo_conn_settled.
  - reflexivity.
  - reflexivity.
  - by vm_compute.
  - by vm_compute.
  - reflexivity.
  - reflexivity.
  - reflexivity.
  - exact demo_init_reads.
  - exact demo_init_reads.
  - exact demo_init_reads.
  - exact demo_init_reads.
  - exact demo_selects.
  - apply Z.eqb_neq, demo_no_zlib.
  - apply Z.eqb_neq, demo_no_zlib.
  - exact demo_buf_empty.
  - exact demo_buf_empty.
  - exact demo_messages_ok.
  - by vm_compute.
  - by vm_compute.
  - exists c', s'. exact H.
Defined.

Lemma demo_proposal_no_nul : Forall no_nul demo_proposal.
Proof.
  assert (E : forallb (forallb (fun b => negb (b =? 0))) demo_proposal = true) by (vm_compute; reflexivity). revert E. generalize demo_proposal. intros ps E.
  apply List.Forall_forall. intros p Hp. rewrite forallb_forall in E. specialize (E p Hp). rewrite forallb_forall in E.
  apply List.Forall_forall. intros b Hb. specialize (E b Hb). apply negb_true_iff in E. by apply Z.eqb_neq.
Qed.
Lemma proposal_roundtrip_witness : exists b', kex_prop2buf demo_proposal demo_buf = (inr tt, b') /\ kex_buf2prop b' = inr (demo_proposal, 0).
Proof.
  destruct (prop2buf_ok demo_buf [] demo_proposal demo_buf_empty demo_proposal_no_nul) as (b' & E & Hb'); [by vm_compute|].
  exists b'. split; [exact E|]. apply (proposal_roundtrip demo_buf [] demo_proposal (zfill 16) b' b').
  - exact demo_buf_empty.
  - reflexivity.
  - exact demo_proposal_no_nul.
  - by vm_compute.
  - reflexivity.
  - exact E.
  - destruct Hb' as (H1 & H2 & H3). rewrite H2.
    assert (W : zwrite 0 (zfill 16) (prop_bytes (zfill 16) demo_proposal 0) = prop_bytes (zfill 16) demo_proposal 0) by (vm_compute; reflexivity).
    rewrite W. exact (conj H1 (conj H2 H3)).
Defined.
Lemma sides_agree_witness : exists bc bs kc ks,
  choose_conf (demo_kex false) = (inr bc, kc) /\ choose_conf (demo_kex true) = (inr bs, ks) /\ chosen false demo_agreement kc /\ chosen true demo_agreement ks.
Proof.
  pose proof (sides_agree (demo_kex false) (demo_kex true) demo_proposal demo_proposal 0 0 0 0 eq_refl eq_refl
    demo_init_reads demo_init_reads demo_init_reads demo_init_reads) as H.
  rewrite demo_selects in H. destruct H as (bc & bs & kc & ks & H1 & H2 & H3 & H4 & _). exists bc, bs, kc, ks. exact (conj H1 (conj H2 (conj H3 H4))).
Defined.
Lemma derive_key_correct_witness :
  derive_key (set_k_hash_alg 2 (demo_kex true)) 65 64 [1; 2] 2 demo_buf = inr (key_of 2 [] [1; 2] [] 65 64) /\ 64 <= zlen (key_of 2 [] [1; 2] [] 65 64).
Proof.
  destruct (derive_key_correct (set_k_hash_alg 2 (demo_kex true)) 65 64 [1; 2] 2 demo_buf []) as (H1 & H2 & _).
  - by vm_compute.
  - by vm_compute.
  - exact demo_buf_empty.
  - split; [exact H1|exact H2].
Defined.
End Demo.
