(* ===== verification/World.v ===== *)
(** * The outside world: system calls and library calls

    Everything the server asks of the kernel, of the C library's databases,
    of librabbitmq and of libuuid is a [call]; a [World] answers calls.  A
    system call answers with its errno or its result.  Each answered call is
    an [event], so that a run leaves a trace. *)

From S2P Require Import Prelude SftpCommon.

(** ** Constants of the platform (Linux, x86-64) *)

Definition O_RDONLY : Z := 0.
Definition O_WRONLY : Z := 1.
Definition O_RDWR : Z := 2.
Definition O_ACCMODE : Z := 3.
Definition O_CREAT : Z := 64.
Definition O_EXCL : Z := 128.
Definition O_TRUNC : Z := 512.
Definition O_APPEND : Z := 1024.

Definition EPERM : Z := 1.
Definition ENOENT : Z := 2.
Definition EINTR : Z := 4.
Definition EBADF : Z := 9.
Definition EACCES : Z := 13.
Definition EFAULT : Z := 14.
Definition EXDEV : Z := 18.
Definition ENOTDIR : Z := 20.
Definition EINVAL : Z := 22.
Definition ENAMETOOLONG : Z := 36.
Definition ENOSYS : Z := 38.
Definition ELOOP : Z := 40.
Definition EOPNOTSUPP : Z := 95.

Definition S_IFMT : Z := 0xF000.
Definition S_IFREG : Z := 0x8000.
Definition S_ISREG (mode : Z) : bool := Z.land mode S_IFMT =? S_IFREG.
Definition PATH_MAX : Z := 4096.
Definition ST_RDONLY : Z := 1.
Definition ST_NOSUID : Z := 2.

Record statvfs_t := mk_statvfs {
  f_bsize : Z; f_frsize : Z; f_blocks : Z; f_bfree : Z; f_bavail : Z; f_files : Z;
  f_ffree : Z; f_favail : Z; f_fsid : Z; f_flag : Z; f_namemax : Z
}.

(** The properties do_send_message fills in. *)
Record amqp_props := mk_props {
  p_flags : Z; p_content_type : list Z; p_delivery_mode : Z; p_correlation_id : list Z
}.

(** ** Calls *)

Inductive call : Type -> Type :=
(* files; paths are C strings *)
| Open (path : list Z) (flags mode : Z) : call (Z + Z)
| Close (fd : Z) : call (Z + ())
| Lseek (fd off : Z) : call (Z + ())
| Read (fd len : Z) : call (Z + list Z)
| Write (fd : Z) (data : list Z) : call (Z + Z)
| Stat (path : list Z) : call (Z + stat_t)
| Lstat (path : list Z) : call (Z + stat_t)
| Fstat (fd : Z) : call (Z + stat_t)
| Truncate (path : list Z) (size : Z) : call (Z + ())
| Ftruncate (fd size : Z) : call (Z + ())
| Chmod (path : list Z) (mode : Z) : call (Z + ())
| Fchmod (fd mode : Z) : call (Z + ())
| Utimes (path : list Z) (atime mtime : Z) : call (Z + ())
| Futimes (fd atime mtime : Z) : call (Z + ())
| Chown (path : list Z) (uid gid : Z) : call (Z + ())
| Fchown (fd uid gid : Z) : call (Z + ())
| Opendir (path : list Z) : call (Z + Z)
| Readdir (dirp : Z) : call (option (list Z))
| Closedir (dirp : Z) : call (Z + ())
| Unlink (path : list Z) : call (Z + ())
| Mkdir (path : list Z) (mode : Z) : call (Z + ())
| Rmdir (path : list Z) : call (Z + ())
| Realpath (path : list Z) : call (Z + list Z)
| Link (old new : list Z) : call (Z + ())
| Rename (old new : list Z) : call (Z + ())
| Readlink (path : list Z) (size : Z) : call (Z + list Z)
| Symlink (old new : list Z) : call (Z + ())
| Statvfs (path : list Z) : call (Z + statvfs_t)
| Fstatvfs (fd : Z) : call (Z + statvfs_t)
| Fsync (fd : Z) : call (Z + ())
| Time : call Z
(* which of stdin and stdout is ready, of those asked for *)
| Select (want_in want_out : bool) : call (Z + (bool * bool))
(* librabbitmq; an RPC answers with its reply type *)
| AmqpNewConnection : call (option Z)
| AmqpTcpSocketNew (conn : Z) : call (option Z)
| AmqpSslSocketNew (conn : Z) : call (option Z)
| AmqpSslSetCacert (sock : Z) (path : list Z) : call Z
| AmqpSslSetVerifyPeer (sock verify : Z) : call ()
| AmqpSslSetVerifyHostname (sock verify : Z) : call ()
| AmqpSocketOpen (sock : Z) (ip : list Z) (port : Z) : call Z
| AmqpLogin (conn : Z) (vhost : list Z) (channel_max frame_max heartbeat : Z)
    (user password : list Z) : call Z
| AmqpChannelOpen (conn channel : Z) : call ()
| AmqpGetRpcReply (conn : Z) : call Z
| AmqpBasicPublish (conn channel : Z) (exchange routing_key : list Z)
    (mandatory immediate : Z) (props : amqp_props) (body : list Z) : call Z
| AmqpChannelClose (conn channel code : Z) : call Z
| AmqpConnectionClose (conn code : Z) : call Z
| AmqpUninitializeSsl : call Z
| AmqpDestroyConnection (conn : Z) : call Z
(* libuuid: the text of a fresh uuid *)
| UuidGenerate : call (list Z)
(* the resolver: the addresses of a host, in text form *)
| GetHostByName (host : list Z) : call (option (list (list Z)))
(* stdio: the errno left behind and, if the file was opened, its bytes; the
   result of seeking to the start *)
| Fopen (path : list Z) : call (Z * option (list Z))
| Fseek : call Z.

(** [dir_left d w]: how many entries are left on the directory stream [d]. *)
Class World := {
  world : Type;
  ext : forall A, call A -> world -> A * world;
  dir_left : Z -> world -> nat
}.
Arguments ext {_ A}.

(** What POSIX and Linux promise of an answer: an error has an errno, a
    descriptor is not negative, data fits the buffer it was read into, a
    directory entry fits NAME_MAX and a canonical path PATH_MAX, a write takes
    at most what it was given, inet_ntoa prints at most 15 characters. *)
Definition err_ok {A} (ok : A -> Prop) (r : Z + A) : Prop :=
  match r with inl e => e <> 0 | inr a => ok a end.
Definition any {A} (_ : A) : Prop := True.
Definition answer_ok {A} (c : call A) : A -> Prop :=
  match c in call A return A -> Prop with
  | Open _ _ _ => err_ok (fun fd => 0 <= fd)
  | Close _ => err_ok any
  | Lseek _ _ => err_ok any
  | Read _ n => err_ok (fun l => 0 <= n -> zlen l <= n)
  | Write _ d => err_ok (fun n => 0 <= n <= zlen d)
  | Stat _ => err_ok any
  | Lstat _ => err_ok any
  | Fstat _ => err_ok any
  | Truncate _ _ => err_ok any
  | Ftruncate _ _ => err_ok any
  | Chmod _ _ => err_ok any
  | Fchmod _ _ => err_ok any
  | Utimes _ _ _ => err_ok any
  | Futimes _ _ _ => err_ok any
  | Chown _ _ _ => err_ok any
  | Fchown _ _ _ => err_ok any
  | Opendir _ => err_ok any
  | Readdir _ => fun r => match r with Some n => zlen n <= 255 | None => True end
  | Closedir _ => err_ok any
  | Unlink _ => err_ok any
  | Mkdir _ _ => err_ok any
  | Rmdir _ => err_ok any
  | Realpath _ => err_ok (fun p => zlen p < PATH_MAX)
  | Link _ _ => err_ok any
  | Rename _ _ => err_ok any
  | Readlink _ n => err_ok (fun p => 0 <= n -> zlen p <= n)
  | Symlink _ _ => err_ok any
  | Statvfs _ => err_ok any
  | Fstatvfs _ => err_ok any
  | Fsync _ => err_ok any
  | GetHostByName _ => fun r =>
      match r with Some l => Forall (fun ip => no_nul ip /\ zlen ip <= 15) l | None => True end
  | _ => any
  end.

(** A directory stream ends: each entry read leaves fewer, and looking at
    files or at the clock leaves them as they are. *)
Class WorldOk `{World} : Prop := {
  answers_ok : forall A (c : call A) w, answer_ok c (fst (ext c w));
  readdir_left : forall d w,
    match ext (Readdir d) w with
    | (Some _, w') => (dir_left d w' < dir_left d w)%nat
    | (None, w') => (dir_left d w' <= dir_left d w)%nat
    end;
  lstat_left : forall d p w, dir_left d (snd (ext (Lstat p) w)) = dir_left d w;
  time_left : forall d w, dir_left d (snd (ext Time w)) = dir_left d w
}.

Inductive event := Ev (A : Type) (c : call A) (r : A).
Arguments Ev {A}.

(** Why fatal() was called: a request could not be parsed, a message did not
    fit a buffer, memory ran out, or a request came before the init. *)
Inductive fatal_cause := BadInput | NoOutputRoom | OutOfMemory | BeforeInit.

(** How the process ends early: fatal(), _exit(code), a wild or null pointer
    is used.  [Stuck] would be a loop that has not finished. *)
Inductive exit_reason := Fatal (why : fatal_cause) | Exited (code : Z) | Segv | Stuck.

(** ** A small world for examples

    Every call succeeds; a directory has no entries; reads return zeros. *)

Definition demo_stat : stat_t := mk_stat 0x81A4 1 1000 1000 5 10 20.
Definition demo_statvfs : statvfs_t := mk_statvfs 1 2 3 4 5 6 7 8 9 1 255.
Definition demo_ext (A : Type) (c : call A) : A :=
  match c in call A return A with
  | Open _ _ _ => inr 3
  | Close _ => inr tt
  | Lseek _ _ => inr tt
  | Read _ n => inr (zfill (Z.min n 4))
  | Write _ d => inr (zlen d)
  | Stat _ => inl ENOENT
  | Lstat _ => inr demo_stat
  | Fstat _ => inr demo_stat
  | Truncate _ _ => inr tt
  | Ftruncate _ _ => inr tt
  | Chmod _ _ => inr tt
  | Fchmod _ _ => inr tt
  | Utimes _ _ _ => inr tt
  | Futimes _ _ _ => inr tt
  | Chown _ _ _ => inr tt
  | Fchown _ _ _ => inr tt
  | Opendir _ => inr 77
  | Readdir _ => None
  | Closedir _ => inr tt
  | Unlink _ => inr tt
  | Mkdir _ _ => inr tt
  | Rmdir _ => inr tt
  | Realpath _ => inr (str "/")
  | Link _ _ => inr tt
  | Rename _ _ => inr tt
  | Readlink _ n => inr (ztake n (str "/"))
  | Symlink _ _ => inr tt
  | Statvfs _ => inr demo_statvfs
  | Fstatvfs _ => inr demo_statvfs
  | Fsync _ => inr tt
  | Time => 100
  | Select i o => inr (i, o)
  | AmqpNewConnection => Some 1000
  | AmqpTcpSocketNew _ => Some 2000
  | AmqpSslSocketNew _ => Some 2000
  | AmqpSslSetCacert _ _ => 0
  | AmqpSslSetVerifyPeer _ _ => tt
  | AmqpSslSetVerifyHostname _ _ => tt
  | AmqpSocketOpen _ _ _ => 0
  | AmqpLogin _ _ _ _ _ _ _ => 1
  | AmqpChannelOpen _ _ => tt
  | AmqpGetRpcReply _ => 1
  | AmqpBasicPublish _ _ _ _ _ _ _ _ => 0
  | AmqpChannelClose _ _ _ => 1
  | AmqpConnectionClose _ _ => 1
  | AmqpUninitializeSsl => 0
  | AmqpDestroyConnection _ => 0
  | UuidGenerate => str "00000000-0000-0000-0000-000000000000"
  | GetHostByName _ => Some [str "10.0.0.1"]
  | Fopen _ => (0, Some [])
  | Fseek => 0
  end.
Definition demo_world : World :=
  {| world := (); ext := fun A c w => (demo_ext A c, w); dir_left := fun _ _ => O |}.

Lemma demo_world_ok : @WorldOk demo_world.
Proof.
  split; simpl; try done. intros A c w.
  destruct c; simpl; try done; try (by zlen_facts; lia).
  - intros. rewrite zlen_zfill; lia.
  - unfold zlen, ztake. rewrite length_take. intros. simpl. lia.
  - by repeat constructor.
Qed.
