(* ===== verification/LsFile.v ===== *)
(** * Directory listings: ls_file (sftp-common.c), strmode.c, pwcache.c, fmt_scaled.c

    The long name of a directory entry, its mode string, and the cached
    lookups of user and group names behind it.  The passwd and group
    databases and the calendar are parameters. *)

From S2P Require Import Prelude Sshbuf SftpCommon World.

Class Calendar := {
  getpwuid : Z -> option (list Z);   (* pw_name *)
  getgrgid : Z -> option (list Z);   (* gr_name *)
  tm : Type;
  localtime : Z -> option tm;
  (* strftime(buf, max, fmt, tm): the text, empty when it does not fit *)
  strftime : Z -> list Z -> tm -> list Z;
  indet_sbuf : list Z  (* an uninitialised char buffer *)
}.

(** ** strmode.c *)

Definition S_IFDIR : Z := 0x4000.
Definition S_IFCHR : Z := 0x2000.
Definition S_IFBLK : Z := 0x6000.
Definition S_IFLNK : Z := 0xA000.
Definition S_IFSOCK : Z := 0xC000.
Definition S_IFIFO : Z := 0x1000.
Definition S_ISUID : Z := 2048.
Definition S_ISGID : Z := 1024.
Definition S_ISVTX : Z := 512.
Definition S_IRUSR : Z := 256.
Definition S_IWUSR : Z := 128.
Definition S_IXUSR : Z := 64.
Definition S_IRGRP : Z := 32.
Definition S_IWGRP : Z := 16.
Definition S_IXGRP : Z := 8.
Definition S_IROTH : Z := 4.
Definition S_IWOTH : Z := 2.
Definition S_IXOTH : Z := 1.

Definition chr (s : string) : Z := znth (str s) 0.

Definition mode_type (mode : Z) : Z :=
  let t := Z.land mode S_IFMT in
  if t =? S_IFDIR then chr "d"
  else if t =? S_IFCHR then chr "c"
  else if t =? S_IFBLK then chr "b"
  else if t =? S_IFREG then chr "-"
  else if t =? S_IFLNK then chr "l"
  else if t =? S_IFSOCK then chr "s"
  else if t =? S_IFIFO then chr "p"
  else chr "?".

(** The three characters of a class: read, write, and execute combined with
    the set-id or sticky bit, which shows as [lower] or [upper]. *)
Definition mode_class (mode r w x special : Z) (lower upper : Z) : list Z :=
  [ if truthy (Z.land mode r) then chr "r" else chr "-";
    if truthy (Z.land mode w) then chr "w" else chr "-";
    let b := Z.land mode (Z.lor x special) in
    if b =? 0 then chr "-"
    else if b =? x then chr "x"
    else if b =? special then upper
    else lower ].

Definition strmode (mode : Z) : list Z :=
  [mode_type mode] ++
  mode_class mode S_IRUSR S_IWUSR S_IXUSR S_ISUID (chr "s") (chr "S") ++
  mode_class mode S_IRGRP S_IWGRP S_IXGRP S_ISGID (chr "s") (chr "S") ++
  mode_class mode S_IROTH S_IWOTH S_IXOTH S_ISVTX (chr "t") (chr "T") ++
  [chr " "].

(** ** fmt_scaled.c *)

Definition FMT_SCALED_STRSIZE : Z := 7.
Definition SCALE_LENGTH : nat := 7.
Definition scale_factor (i : nat) : Z := 1024 ^ Z.of_nat i.
Definition scale_char (i : nat) : Z := znth (str "BKMGTPE") (Z.of_nat i).

(** The first unit in which the number has at most four digits. *)
Fixpoint scale_unit (fuel i : nat) (abval : Z) : option nat :=
  match fuel with
  | O => None
  | S fuel' => if abval / 1024 <? scale_factor i then Some i else scale_unit fuel' (S i) abval
  end.

(** fmt_scaled: [None] when the number is out of range (errno is ERANGE). *)
Definition fmt_scaled (number : Z) : option (list Z) :=
  let abval := i64 (Z.abs number) in
  if (abval <? 0) || (scale_factor 6 <=? Z.quot abval 1024) then None
  else
    let '(unit, fract, number) :=
      match scale_unit SCALE_LENGTH 0 abval with
      | None => (0%nat, 0, number)
      | Some i =>
          (i,
           (if (i =? 0)%nat then 0 else Z.rem abval (scale_factor i) / scale_factor (i - 1)),
           Z.quot number (scale_factor i))
      end in
    let fract := (10 * fract + 512) / 1024 in
    let away n := if 0 <=? n then n + 1 else n - 1 in
    let '(number, fract) := if 10 <=? fract then (away number, 0) else (number, fract) in
    if number =? 0 then Some (str "0B")
    else if (unit =? 0)%nat || (100 <=? number) || (number <=? -100) then
      let number := if 5 <=? fract then away number else number in
      Some (snprintf FMT_SCALED_STRSIZE (dec_signed number ++ [scale_char unit]))
    else
      Some (snprintf FMT_SCALED_STRSIZE (dec_signed number ++ [46] ++ dec_signed fract ++ [scale_char unit])).

(** ** pwcache.c *)

Definition NCACHE : Z := 64.
Definition MASK : Z := NCACHE - 1.

(** A cache: the id and the name of each slot ([None]: NULL). *)
Abbreviation ncache := (list (Z * option (list Z))).
Definition ncache_init : ncache := replicate (Z.to_nat NCACHE) (0, None).
Record caches := mk_caches { c_uid : ncache; c_gid : ncache }.

(** The body the two functions share: look in the slot, else ask the
    database, print the number if it does not know, and fill the slot. *)
Definition cached_name `{Allocator} (db : Z -> option (list Z)) (id : Z) (no_name : bool)
    (c : ncache) : option (list Z) * ncache :=
  let slot := Z.to_nat (Z.land id MASK) in
  let hit := match c !! slot with
             | Some (id', Some name) => if id' =? id then Some name else None
             | _ => None
             end in
  match hit with
  | Some name => (Some name, c)
  | None =>
      match db id, no_name with
      | None, true => (None, c)
      | found, _ =>
          let name := default (snprintf 15 (dec id)) found in
          let copy := (_ ← heap_alloc (zlen name + 1); Some name) in
          (copy, <[slot := (id, copy)]> c)
      end
  end.

Section LsFile.
Context `{Allocator} `{Calendar}.

Definition user_from_uid (uid : Z) (nouser : bool) : SE caches exit_reason (option (list Z)) := fun c =>
  let '(r, cu) := cached_name getpwuid uid nouser (c_uid c) in (inr r, mk_caches cu (c_gid c)).
Definition group_from_gid (gid : Z) (nogroup : bool) : SE caches exit_reason (option (list Z)) := fun c =>
  let '(r, cg) := cached_name getgrgid gid nogroup (c_gid c) in (inr r, mk_caches (c_uid c) cg).

(** strlen of a NULL name is a crash. *)
Definition non_null (p : option (list Z)) : SE caches exit_reason (list Z) :=
  match p with Some s => mret s | None => throw Segv end.

(** ls_file; [now] is what time(NULL) answers. *)
Definition ls_file (name : list Z) (st : stat_t) (remote si_units : bool) (now : Z)
    : SE caches exit_reason (list Z) :=
  let mode := strmode (i32 (st_mode st)) in
  '(user, group, lc) ←
    (if remote then
       mret (Some (snprintf 12 (dec (u32 (st_uid st)))), Some (snprintf 12 (dec (u32 (st_gid st)))), str "?")
     else
       user ← user_from_uid (st_uid st) false;
       group ← group_from_gid (st_gid st) false;
       mret (user, group, snprintf 8 (dec (u32 (st_nlink st)))));
  let tbuf :=
    match localtime (st_mtime st) with
    | None => []
    | Some t =>
        if (now - 365 * 24 * 60 * 60 / 2 <? st_mtime st) && (st_mtime st <=? now)
        then strftime 13 (str "%b %e %H:%M") t
        else strftime 13 (str "%b %e  %Y") t
    end in
  user ← non_null user;
  group ← non_null group;
  let ulen := Z.max (zlen user) 8 in
  let glen := Z.max (zlen group) 8 in
  let size :=
    if si_units then default indet_sbuf (fmt_scaled (i64 (st_size st)))
    else dec (u64 (st_size st)) in
  mret (snprintf 1024
    (mode ++ str " " ++ pad_left 3 lc ++ str " " ++ pad_right ulen user ++ str " " ++
     pad_right glen group ++ str " " ++ pad_left 8 size ++ str " " ++ tbuf ++ str " " ++ name)).
End LsFile.

(** ** Lemmas *)

(** The name the databases give an id. *)
Definition name_of (db : Z -> option (list Z)) (id : Z) : list Z :=
  default (snprintf 15 (dec id)) (db id).

(** What a cache holds agrees with the database. *)
Definition cache_ok (db : Z -> option (list Z)) (c : ncache) : Prop :=
  zlen c = NCACHE /\ forall i id name, c !! i = Some (id, Some name) -> name = name_of db id.

Lemma ncache_init_ok db : cache_ok db ncache_init.
Proof.
  split; [done|]. intros i id name Hi. apply lookup_replicate_1 in Hi as [Hi _]. done.
Qed.

Lemma cached_name_ok `{AllocTotal} db id c :
  zlen (name_of db id) < SSHBUF_SIZE_MAX -> cache_ok db c ->
  exists c', cached_name db id false c = (Some (name_of db id), c') /\ cache_ok db c'.
Proof.
  intros Hl [Hlen Hok]. unfold cached_name.
  assert (Hcopy : (_ ← heap_alloc (zlen (name_of db id) + 1); Some (name_of db id)) = Some (name_of db id)).
  { destruct (alloc_total (zlen (name_of db id) + 1)) as [p ->]; [zlen_facts; lia|done]. }
  set (slot := Z.to_nat (Z.land id MASK)).
  assert (Hput : cache_ok db (<[slot:=(id, Some (name_of db id))]> c)).
  { split; [unfold zlen in *; by rewrite length_insert|]. intros i id' name Hi.
    destruct (decide (i = slot)) as [->|Hne].
    - rewrite list_lookup_insert_eq in Hi; [by injection Hi as <- <-|].
      apply list_lookup_insert_Some in Hi. destruct Hi as [(_ & _ & ?)|[Hne _]]; done.
    - rewrite list_lookup_insert_ne in Hi by done. by apply (Hok i). }
  assert (Hmiss : (match db id, false with
      | None, true => (None, c)
      | found, _ =>
          let name := default (snprintf 15 (dec id)) found in
          let copy := (_ ← heap_alloc (zlen name + 1); Some name) in
          (copy, <[slot := (id, copy)]> c)
      end) = (Some (name_of db id), <[slot:=(id, Some (name_of db id))]> c)).
  { unfold name_of in *. destruct (db id); cbn in *; by rewrite Hcopy. }
  destruct (c !! slot) as [[id' [name|]]|] eqn:Es; [destruct (Z.eqb_spec id' id) as [->|]|..];
    rewrite ?Hmiss; eauto.
  exists c. split; [|done]. by rewrite (Hok slot id name Es).
Qed.

Fixpoint lookups `{Allocator} (db : Z -> option (list Z)) (ids : list Z) (c : ncache)
    : list (option (list Z)) :=
  match ids with
  | [] => []
  | id :: ids' => let '(r, c') := cached_name db id false c in r :: lookups db ids' c'
  end.

(** Reading a mode string: the permission bits it shows. *)
Definition unmode_class (l : list Z) (r w x special : Z) : Z :=
  (if znth l 0 =? chr "r" then r else 0) + (if znth l 1 =? chr "w" then w else 0) +
  (if (znth l 2 =? chr "x") || (znth l 2 =? chr "s") || (znth l 2 =? chr "t") then x else 0) +
  (if (znth l 2 =? chr "S") || (znth l 2 =? chr "T") || (znth l 2 =? chr "s") || (znth l 2 =? chr "t")
   then special else 0).
Definition unmode (l : list Z) : Z :=
  unmode_class (zdrop 1 l) S_IRUSR S_IWUSR S_IXUSR S_ISUID +
  unmode_class (zdrop 4 l) S_IRGRP S_IWGRP S_IXGRP S_ISGID +
  unmode_class (zdrop 7 l) S_IROTH S_IWOTH S_IXOTH S_ISVTX.

Definition mode_bits (mode : Z) : list Z :=
  mode_class mode S_IRUSR S_IWUSR S_IXUSR S_ISUID (chr "s") (chr "S") ++
  mode_class mode S_IRGRP S_IWGRP S_IXGRP S_ISGID (chr "s") (chr "S") ++
  mode_class mode S_IROTH S_IWOTH S_IXOTH S_ISVTX (chr "t") (chr "T") ++ [chr " "].

Lemma land_low m b : Z.land 4095 b = b -> Z.land m b = Z.land (Z.land m 4095) b.
Proof. intros Hb. by rewrite <- Z.land_assoc, Hb. Qed.
Lemma mode_bits_low m : mode_bits m = mode_bits (Z.land m 4095).
Proof.
  unfold mode_bits, mode_class.
  by rewrite (land_low m S_IRUSR), (land_low m S_IWUSR), (land_low m (Z.lor S_IXUSR S_ISUID)),
    (land_low m S_IRGRP), (land_low m S_IWGRP), (land_low m (Z.lor S_IXGRP S_ISGID)),
    (land_low m S_IROTH), (land_low m S_IWOTH), (land_low m (Z.lor S_IXOTH S_ISVTX)).
Qed.
Lemma unmode_low :
  forallb (fun i => unmode (0 :: mode_bits (Z.of_nat i)) =? Z.of_nat i) (seq 0 4096) = true.
Proof. vm_compute. reflexivity. Qed.

(** ** Properties *)

(** The mode string of a directory listing has eleven characters and
    shows the twelve permission bits: they can be read back from it. *)
Theorem strmode_roundtrip (mode : Z) :
  zlen (strmode mode) = 11 /\ unmode (strmode mode) = Z.land mode 4095.
Proof.
  split; [done|].
  change (unmode (strmode mode)) with (unmode (0 :: mode_bits mode)). rewrite mode_bits_low.
  pose proof (Z.land_ones mode 12 ltac:(lia)) as Hl. change (Z.ones 12) with 4095 in Hl.
  rewrite Hl. pose proof (Z.mod_pos_bound mode (2 ^ 12) ltac:(lia)) as Hb.
  pose proof (proj1 (forallb_forall _ _) unmode_low (Z.to_nat (mode mod 2 ^ 12))) as Hu.
  cbv beta in Hu. rewrite Z2Nat.id in Hu by lia. apply Z.eqb_eq, Hu, in_seq. lia.
Qed.

(** The 64-slot caches of user_from_uid and group_from_gid do not show:
    any sequence of lookups, colliding ids included, gives for each id the
    name in the database or, if it has none, the number in decimal. *)
Theorem name_cache_transparent `{AllocTotal} (db : Z -> option (list Z)) (ids : list Z) :
  Forall (fun id => zlen (name_of db id) < SSHBUF_SIZE_MAX) ids ->
  lookups db ids ncache_init = map (fun id => Some (name_of db id)) ids.
Proof.
  generalize (ncache_init_ok db). generalize ncache_init.
  induction ids as [|id ids IH]; intros c Hc Hl; cbn [lookups map]; [done|].
  inversion_clear Hl as [|? ? Hid Hids]. destruct (cached_name_ok db id c Hid Hc) as (c' & -> & Hc').
  f_equal. by apply IH.
Qed.

Lemma name_cache_transparent_witness :
  @lookups demo_heap (fun id => if id =? 65 then Some (str "jane") else None) [1; 65; 1; 0] ncache_init
  = [Some (str "1"); Some (str "jane"); Some (str "1"); Some (str "0")].
Proof.
  refine (@name_cache_transparent demo_heap demo_heap_total
    (fun id => if id =? 65 then Some (str "jane") else None) [1; 65; 1; 0] _).
  repeat constructor.
Defined.
