(* ===== verification/AmqpUrl.v ===== *)
(** * The broker's URL: amqp_url.c of rabbitmq-c

    [amqp_parse_url] cuts a URL into its parts in place: the parts are
    pointers into the URL, whose delimiters are overwritten with zeros and
    whose percent-encoded characters are decoded where they stand.  The
    model keeps the memory of the URL and addresses it by offset. *)

From S2P Require Import Prelude CText World.

Definition AMQP_STATUS_OK : Z := 0.
Definition AMQP_STATUS_BAD_URL : Z := -8.
Definition CHAR_MAX : Z := 127.

(** ** Data *)

(** A string of the result: a literal of the library, or a place in the URL. *)
Inductive cptr := Lit (s : list Z) | At (off : Z).

Record connection_info := mk_ci {
  ci_user : cptr;
  ci_password : cptr;
  ci_host : cptr;
  ci_vhost : cptr;
  ci_port : Z;
  ci_ssl : Z
}.
Definition ci_str (m : list Z) (p : cptr) : list Z :=
  match p with Lit s => s | At off => cstr (zdrop off m) end.

Definition amqp_default_connection_info : connection_info :=
  mk_ci (Lit (str "guest")) (Lit (str "guest")) (Lit (str "localhost")) (Lit (str "/")) 5672 0.

Definition set_userinfo (user : Z) (password : option Z) (ci : connection_info) : connection_info :=
  mk_ci (At user) (match password with Some p => At p | None => ci_password ci end)
    (ci_host ci) (ci_vhost ci) (ci_port ci) (ci_ssl ci).
Definition set_host (host : Z) (ci : connection_info) : connection_info :=
  mk_ci (ci_user ci) (ci_password ci) (At host) (ci_vhost ci) (ci_port ci) (ci_ssl ci).
Definition set_port (port : Z) (ci : connection_info) : connection_info :=
  mk_ci (ci_user ci) (ci_password ci) (ci_host ci) (ci_vhost ci) port (ci_ssl ci).
Definition set_vhost (vhost : Z) (ci : connection_info) : connection_info :=
  mk_ci (ci_user ci) (ci_password ci) (ci_host ci) (At vhost) (ci_port ci) (ci_ssl ci).
Definition set_tls (ci : connection_info) : connection_info :=
  mk_ci (ci_user ci) (ci_password ci) (ci_host ci) (ci_vhost ci) 5671 1.

(** ** Memory *)

#[local] Abbreviation U := (SE (list Z) exit_reason).
Definition load (p : Z) : U Z := fun m =>
  if (0 <=? p) && (p <? zlen m) then (inr (znth m p), m) else (inl Segv, m).
Definition store (p v : Z) : U () := fun m =>
  if (0 <=? p) && (p <? zlen m) then (inr tt, zwrite p [v] m) else (inl Segv, m).

(** ** Scanning *)

Definition COLON : Z := 58.
Definition AT_SIGN : Z := 64.
Definition SLASH : Z := 47.
Definition LBRACKET : Z := 91.
Definition RBRACKET : Z := 93.
Definition PERCENT : Z := 37.

(** The other cases of the switch that end a part: NUL, '/', '?', '#', '[', ']'. *)
Definition ends_part (ch : Z) : bool :=
  (ch =? 0) || (ch =? SLASH) || (ch =? 63) || (ch =? 35) || (ch =? LBRACKET) || (ch =? RBRACKET).

(** One turn of find_delim: the delimiter and the new value of [*pp]. *)
Fixpoint find_delim_from (fuel : nat) (pp : Z) (colon_and_at_sign_are_delims : bool) (from to : Z)
    : U (Z * Z) :=
  match fuel with
  | O => throw Stuck
  | S fuel' =>
      ch ← load from;
      let from := from + 1 in
      let next (c from' : Z) :=
        _ ← store to c;
        find_delim_from fuel' pp colon_and_at_sign_are_delims from' (to + 1) in
      if ((ch =? COLON) || (ch =? AT_SIGN)) && negb colon_and_at_sign_are_delims then next ch from
      else if (ch =? COLON) || (ch =? AT_SIGN) || ends_part ch then
        _ ← store to 0; mret (ch, from)
      else if ch =? PERCENT then
        m ← gets (fun m => m);
        match sscanf_2x (cstr (zdrop from m)) with
        | Some (val, chars) =>
            if negb (chars =? 2) || (CHAR_MAX <? val) then mret (PERCENT, pp) else next val (from + 2)
        | None => mret (PERCENT, pp)
        end
      else next ch from
  end.
(** No more turns than characters. *)
Definition find_delim (pp : Z) (colon_and_at_sign_are_delims : bool) : U (Z * Z) :=
  fuel ← gets (fun m : list Z => length m);
  find_delim_from fuel pp colon_and_at_sign_are_delims pp pp.

(** ** Parsing

    The steps of amqp_parse_url; [inl] is [goto out], with the result so far. *)

(** Where the scan is: the last delimiter, the pointers [url], [start] and
    [host], and [port] if it is set. *)
Record cursor := mk_cur { c_delim : Z; c_url : Z; c_start : Z; c_host : Z; c_port : option Z }.

Definition parse_userinfo (start : Z) (parsed : connection_info) : U (cursor * connection_info) :=
  '(delim, url) ← find_delim start true;
  '(delim, url', port, start') ←
    (if delim =? COLON then
       '(delim, url') ← find_delim url true; mret (delim, url', Some url, url)
     else mret (delim, url, None, start));
  if delim =? AT_SIGN then
    let parsed := set_userinfo start port parsed in
    '(delim, url2) ← find_delim url' true;
    mret (mk_cur delim url2 url' url' None, parsed)
  else mret (mk_cur delim url' start' start port, parsed).

Definition parse_host (c : cursor) (parsed : connection_info)
    : U (connection_info + cursor * connection_info) :=
  if c_delim c =? LBRACKET then
    (* host != start || *host != 0 *)
    bad ← (if negb (c_host c =? c_start c) then mret true
           else h ← load (c_host c); mret (truthy h));
    if bad : bool then mret (inl parsed)
    else
      let start := c_url c in
      '(delim, url) ← find_delim (c_url c) false;
      if negb (delim =? RBRACKET) then mret (inl parsed)
      else
        let parsed := set_host start parsed in
        let start := url in
        '(delim, url) ← find_delim url true;
        x ← load start;
        if truthy x then mret (inl parsed)
        else mret (inr (mk_cur delim url start (c_host c) (c_port c), parsed))
  else
    h ← load (c_host c);
    mret (inr (c, if truthy h then set_host (c_host c) parsed else parsed)).

Definition parse_port (c : cursor) (parsed : connection_info) : U (connection_info + cursor * connection_info) :=
  c ← (if c_delim c =? COLON then
         '(delim, url) ← find_delim (c_url c) true;
         mret (mk_cur delim url (c_url c) (c_host c) (Some (c_url c)))
       else mret c);
  match c_port c with
  | None => mret (inr (c, parsed))
  | Some port =>
      text ← gets (fun m => cstr (zdrop port m));
      let '(portnum, used) := strtol text in
      if (used =? 0) || negb (used =? zlen text) || (portnum <? 0) || (65535 <? portnum)
      then mret (inl parsed)
      else mret (inr (c, set_port portnum parsed))
  end.

Definition parse_vhost (c : cursor) (parsed : connection_info) : U (Z * connection_info) :=
  if c_delim c =? SLASH then
    '(delim, url) ← find_delim (c_url c) true;
    if negb (delim =? 0) then mret (AMQP_STATUS_BAD_URL, parsed)
    else mret (AMQP_STATUS_OK, set_vhost (c_url c) parsed)
  else if c_delim c =? 0 then mret (AMQP_STATUS_OK, parsed)
  else mret (AMQP_STATUS_BAD_URL, parsed).

(** The part of the URL after its scheme. *)
Definition parse_authority (start : Z) (parsed : connection_info) : U (Z * connection_info) :=
  '(c, parsed) ← parse_userinfo start parsed;
  r ← parse_host c parsed;
  match r with
  | inl parsed => mret (AMQP_STATUS_BAD_URL, parsed)
  | inr (c, parsed) =>
      r ← parse_port c parsed;
      match r with
      | inl parsed => mret (AMQP_STATUS_BAD_URL, parsed)
      | inr (c, parsed) => parse_vhost c parsed
      end
  end.

Definition starts_with (p : list Z) (s : list Z) : bool := bytes_eqb (ztake (zlen p) s) p.

Definition amqp_parse_url : U (Z * connection_info) :=
  m ← gets (fun m => m);
  let parsed := amqp_default_connection_info in
  if starts_with (str "amqp://") (cstr m) then parse_authority 7 parsed
  else if starts_with (str "amqps://") (cstr m) then parse_authority 8 (set_tls parsed)
  else mret (AMQP_STATUS_BAD_URL, parsed).

(** ** Safety: the scan stays inside the URL *)

(** A block that ends in a zero. *)
Definition terminated (m : list Z) : Prop := exists body, m = body ++ [0].
(** [m] runs on any such block of [n] bytes, and leaves one. *)
Definition safe {A} (n : Z) (Q : A -> Prop) (m : U A) : Prop :=
  forall b, terminated b -> zlen b = n ->
    exists a b', m b = (inr a, b') /\ terminated b' /\ zlen b' = n /\ Q a.

Lemma safe_ret {A} n (Q : A -> Prop) a : Q a -> safe n Q (mret a).
Proof. intros HQ b Hb Hn. by exists a, b. Qed.
Lemma safe_bind {A B} n (P : A -> Prop) (Q : B -> Prop) (m : U A) (k : A -> U B) :
  safe n P m -> (forall a, P a -> safe n Q (k a)) -> safe n Q (m ≫= k).
Proof.
  intros Hm Hk b Hb Hn. destruct (Hm b Hb Hn) as (a & b1 & E & Hb1 & Hn1 & Ha).
  rewrite (SE_bind_ok _ _ _ _ _ E). by apply Hk.
Qed.
Lemma safe_gets {A} n (f : list Z -> A) (Q : A -> Prop) :
  (forall b, terminated b -> zlen b = n -> Q (f b)) -> safe n Q (gets f).
Proof. intros HQ b Hb Hn. exists (f b), b. split_and!; [done..|by apply HQ]. Qed.
Lemma safe_load n p : 0 <= p < n -> safe n (fun ch => ch <> 0 -> p < n - 1) (load p).
Proof.
  intros Hp b [body ->] Hn. unfold load. rewrite (proj2 (Z.leb_le 0 p)), (proj2 (Z.ltb_lt p _)) by lia.
  eexists _, _. split_and!; [done|by exists body|done|]. rewrite zlen_app, zlen_cons, zlen_nil in Hn.
  intros Hne. destruct (decide (p = n - 1)) as [->|]; [|lia]. destruct Hne. unfold znth.
  rewrite app_nth2 by (unfold zlen in Hn; lia).
  by replace (_ - _)%nat with O by (unfold zlen in Hn; lia).
Qed.
Lemma safe_store n p v : 0 <= p < n -> (p = n - 1 -> v = 0) -> safe n (fun _ => True) (store p v).
Proof.
  intros Hp Hv b [body ->] Hn. unfold store.
  rewrite (proj2 (Z.leb_le 0 p)), (proj2 (Z.ltb_lt p _)) by lia.
  eexists tt, _. split_and!; [done| | |done].
  2:{ rewrite zlen_zwrite; [done|lia|]. rewrite zlen_cons, zlen_nil. lia. }
  rewrite zlen_app, zlen_cons, zlen_nil in Hn. unfold zwrite.
  rewrite ztake_app_l, zlen_cons, zlen_nil by lia. destruct (decide (p = n - 1)) as [Hl|].
  - rewrite Hv by done. exists (ztake p body). rewrite zdrop_all; [done|]. zlia.
  - exists (ztake p body ++ v :: zdrop (p + (1 + 0)) body). rewrite zdrop_app_l by lia.
    by rewrite <- app_assoc.
Qed.

(** What a scan started at a place of the URL gives: with any delimiter but
    the final zero, a place to go on from. *)
Definition scanned (n : Z) (r : Z * Z) : Prop := fst r <> 0 -> 0 <= snd r < n.

Lemma zlen_cstr_nul l : zlen (cstr (l ++ [0])) <= zlen l.
Proof.
  induction l as [|c l IH]; [done|]. cbn. rewrite zlen_cons.
  destruct (c =? 0); rewrite ?zlen_cons, ?zlen_nil; zlen_facts; lia.
Qed.
Lemma terminated_cstr b p : terminated b -> 0 <= p < zlen b -> p + zlen (cstr (zdrop p b)) < zlen b.
Proof.
  intros [body ->] Hp. rewrite zlen_app in Hp |- *. change (zlen [0]) with 1 in *.
  rewrite zdrop_app_l by lia.
  pose proof (zlen_cstr_nul (zdrop p body)) as Hc. rewrite zlen_zdrop in Hc by lia. lia.
Qed.

Lemma find_delim_from_safe n fuel pp colon from to :
  0 <= pp < n -> 0 <= to <= from -> from < n -> (n - from <= Z.of_nat fuel) ->
  safe n (scanned n) (find_delim_from fuel pp colon from to).
Proof.
  revert from to. induction fuel as [|fuel IH]; intros from to Hpp Hto Hfrom Hf; [lia|].
  cbn [find_delim_from]. eapply safe_bind; [apply safe_load; lia|]. intros ch Hch. cbv zeta.
  assert (Hnext : forall c from', from < from' -> from' < n -> safe n (scanned n)
    (_ ← store to c; find_delim_from fuel pp colon from' (to + 1))).
  { intros c from' H1 H2. eapply safe_bind; [apply safe_store; lia|]. intros _ _. apply IH; lia. }
  destruct (decide (ch = 0)) as [->|Hne].
  { cbn. eapply safe_bind; [apply safe_store; lia|]. intros _ _. by apply safe_ret. }
  specialize (Hch Hne). destruct (_ && _); [apply Hnext; lia|].
  destruct (_ || ends_part ch).
  { eapply safe_bind; [apply safe_store; lia|]. intros _ _. apply safe_ret. unfold scanned. simpl. lia. }
  destruct (ch =? PERCENT); [|apply Hnext; lia].
  eapply (safe_bind n (fun b => from + 1 + zlen (cstr (zdrop (from + 1) b)) < n)).
  { apply safe_gets. intros b Hb <-. apply terminated_cstr; [done|lia]. }
  intros b Hb. assert (Hbad : safe n (scanned n) (mret (PERCENT, pp))) by by (apply safe_ret; unfold scanned; simpl; lia).
  destruct (sscanf_2x _) as [[val chars]|] eqn:Es; [|done].
  apply sscanf_2x_used in Es. destruct (Z.eqb_spec chars 2) as [->|]; [|done]. cbn.
  destruct (_ <? _); [done|]. apply Hnext; lia.
Qed.
Lemma find_delim_safe n pp colon : 0 <= pp < n -> safe n (scanned n) (find_delim pp colon).
Proof.
  intros Hpp. eapply (safe_bind n (fun k => Z.of_nat k = n)).
  - apply safe_gets. by intros b _ <-.
  - intros k Hk. apply find_delim_from_safe; lia.
Qed.

(** The results and the cursor point into the block. *)
Definition in_block (n : Z) (p : cptr) : Prop :=
  match p with Lit s => no_nul s /\ zlen s <= 9 | At off => 0 <= off < n end.
Record ci_ok (n : Z) (ci : connection_info) : Prop := {
  ok_user : in_block n (ci_user ci);
  ok_password : in_block n (ci_password ci);
  ok_host : in_block n (ci_host ci);
  ok_vhost : in_block n (ci_vhost ci);
  ok_port : 0 <= ci_port ci <= 65535;
  ok_ssl : ci_ssl ci = 0 \/ ci_ssl ci = 1
}.
Record cur_ok (n : Z) (c : cursor) : Prop := {
  ok_url : c_delim c <> 0 -> 0 <= c_url c < n;
  ok_chost : 0 <= c_host c < n;
  ok_cport : match c_port c with Some p => 0 <= p < n | None => True end
}.
Definition step_ok (n : Z) (r : cursor * connection_info) : Prop := cur_ok n (fst r) /\ ci_ok n (snd r).
Definition stop_ok (n : Z) (r : connection_info + cursor * connection_info) : Prop :=
  match r with inl ci => ci_ok n ci | inr r => step_ok n r end.
Definition result_ok (n : Z) (r : Z * connection_info) : Prop :=
  (fst r = AMQP_STATUS_OK \/ fst r = AMQP_STATUS_BAD_URL) /\ ci_ok n (snd r).

(** A delimiter that was recognised is not the final zero. *)
Lemma delim_not_nul d c : (d =? c) = true -> c <> 0 -> d <> 0.
Proof. intros ->%Z.eqb_eq. done. Qed.

Ltac scan_step :=
  eapply safe_bind; [apply find_delim_safe; try lia; eauto using delim_not_nul|];
  let delim := fresh "delim" in let url := fresh "url" in let H := fresh "Hscan" in
  intros [delim url] H; unfold scanned in H; cbn [fst snd] in H.

Lemma parse_userinfo_safe n start ci :
  0 <= start < n -> ci_ok n ci -> safe n (step_ok n) (parse_userinfo start ci).
Proof.
  intros Hs Hci. unfold parse_userinfo. scan_step.
  eapply (safe_bind n (fun r : Z * Z * option Z * Z => let '(d, u, port, _) := r in
    (d <> 0 -> 0 <= u < n) /\ match port with Some p => 0 <= p < n | None => True end)).
  { destruct (delim =? COLON) eqn:E; [|by apply safe_ret].
    assert (0 <= url < n) by eauto using delim_not_nul.
    scan_step. by apply safe_ret. }
  intros [[[d u] port] st] [Hu Hp]. destruct (d =? AT_SIGN) eqn:E.
  - assert (0 <= u < n) by eauto using delim_not_nul.
    scan_step. apply safe_ret. split; [by split|]. destruct Hci. by split; destruct port.
  - by apply safe_ret.
Qed.
Lemma parse_host_safe n c ci : step_ok n (c, ci) -> safe n (stop_ok n) (parse_host c ci).
Proof.
  intros [[Hu Hh Hp] Hci]. cbn in *. unfold parse_host. destruct (c_delim c =? LBRACKET) eqn:E.
  2:{ eapply safe_bind; [by apply safe_load|]. intros h _. apply safe_ret. split; [by split|].
      cbn. destruct (truthy h); [|done]. destruct Hci. by split. }
  assert (0 <= c_url c < n) by eauto using delim_not_nul.
  eapply (safe_bind n (fun _ => True)).
  { destruct (negb _); [by apply safe_ret|]. eapply safe_bind; [by apply safe_load|].
    intros. by apply safe_ret. }
  intros bad _. destruct bad; [by apply safe_ret|]. cbv zeta. scan_step.
  destruct (delim =? RBRACKET) eqn:E2; cbn; [|by apply safe_ret].
  assert (0 <= url < n) by eauto using delim_not_nul.
  assert (ci_ok n (set_host (c_url c) ci)) by (destruct Hci; by split).
  scan_step. eapply safe_bind; [by apply safe_load|]. intros x _.
  destruct (truthy x); apply safe_ret; [done|]. by split.
Qed.
Lemma parse_port_safe n c ci : step_ok n (c, ci) -> safe n (stop_ok n) (parse_port c ci).
Proof.
  intros [[Hu Hh Hp] Hci]. cbn in *. unfold parse_port.
  eapply (safe_bind n (cur_ok n)).
  { destruct (c_delim c =? COLON) eqn:E; [|by apply safe_ret].
    assert (0 <= c_url c < n) by eauto using delim_not_nul.
    scan_step. by apply safe_ret. }
  clear - Hci. intros [d u st h [port|]] Hc; cbn; [|by apply safe_ret].
  eapply (safe_bind n (fun _ => True)); [by apply safe_gets|]. intros text _.
  destruct (strtol text) as [portnum used].
  destruct (_ || (65535 <? portnum)) eqn:E; apply safe_ret; [done|]. split; [done|].
  apply orb_false_iff in E as [[_ E1]%orb_false_iff E2]. destruct Hci. split; try done. cbn. lia.
Qed.
Lemma parse_vhost_safe n c ci : step_ok n (c, ci) -> safe n (result_ok n) (parse_vhost c ci).
Proof.
  intros [[Hu Hh Hp] Hci]. cbn in *. unfold parse_vhost. destruct (c_delim c =? SLASH) eqn:E.
  - assert (0 <= c_url c < n) by eauto using delim_not_nul. scan_step.
    destruct (negb _); apply safe_ret; (split; [auto|]); [done|]. destruct Hci. by split.
  - destruct (_ =? 0); apply safe_ret; (split; [auto|done]).
Qed.
Lemma parse_authority_safe n start ci :
  0 <= start < n -> ci_ok n ci -> safe n (result_ok n) (parse_authority start ci).
Proof.
  intros Hs Hci. unfold parse_authority. eapply safe_bind; [by apply parse_userinfo_safe|].
  intros [c1 ci1] H1. eapply safe_bind; [by apply parse_host_safe|].
  intros [ci2|[c2 ci2]] H2; [apply safe_ret; split; auto|].
  eapply safe_bind; [by apply parse_port_safe|].
  intros [ci3|[c3 ci3]] H3; [apply safe_ret; split; auto|]. by apply parse_vhost_safe.
Qed.

(** ** Printing a URL, and reading it back *)

Definition is_delim (c : Z) : bool := (c =? COLON) || (c =? AT_SIGN) || ends_part c.
Definition quote_char (c : Z) : list Z :=
  if is_delim c || (c =? PERCENT) then PERCENT :: hex2 c else [c].
Definition quote (s : list Z) : list Z := concat (map quote_char s).

Definition url_of (tls : bool) (user password host : list Z) (port : Z) (vhost : list Z) : list Z :=
  str (if tls then "amqps://" else "amqp://") ++ quote user ++ COLON :: quote password ++
  AT_SIGN :: quote host ++ COLON :: dec port ++ SLASH :: quote vhost.

Lemma is_delim_range c : c <> 0 -> is_delim c || (c =? PERCENT) = true -> 0 < c <= CHAR_MAX.
Proof. unfold is_delim, ends_part, COLON, AT_SIGN, SLASH, LBRACKET, RBRACKET, PERCENT, CHAR_MAX. lia. Qed.

Lemma load_app A B c R : load (zlen (A ++ B)) (A ++ B ++ c :: R) = (inr c, A ++ B ++ c :: R).
Proof.
  unfold load. rewrite app_assoc. rewrite (proj2 (Z.leb_le 0 _)), (proj2 (Z.ltb_lt _ _)) by zlia. simpl.
  f_equal. f_equal. unfold znth, zlen. rewrite Nat2Z.id, app_nth2 by lia. by rewrite Nat.sub_diag.
Qed.
(** Writing behind the scan: the gap moves on. *)
Lemma store_app A l R v : l <> [] ->
  exists B, store (zlen A) v (A ++ l ++ R) = (inr tt, (A ++ [v]) ++ B ++ R) /\ zlen B + 1 = zlen l.
Proof.
  intros Hl. destruct l as [|x B]; [done|]. exists B. split; [|by rewrite zlen_cons; lia].
  unfold store. rewrite (proj2 (Z.leb_le 0 _)), (proj2 (Z.ltb_lt _ _)) by zlia. simpl.
  unfold zwrite. rewrite ztake_app_exact, zlen_cons, zlen_nil by done.
  rewrite zdrop_app_r by lia. replace (zlen A + (1 + 0) - zlen A) with 1 by lia.
  rewrite <- app_assoc. done.
Qed.

Lemma cstr_hex2 c R : 0 <= c < 256 -> cstr (hex2 c ++ R) = hex2 c ++ cstr R.
Proof.
  intros Hc. assert (Hd : 0 <= c / 16 < 16) by (split; [apply Z.div_pos|apply Z.div_lt_upper_bound]; lia).
  pose proof (Z.mod_pos_bound c 16 ltac:(lia)) as Hm.
  pose proof (hex_digit_range _ Hd). pose proof (hex_digit_range _ Hm).
  unfold hex2. cbn [app cstr]. by rewrite !(proj2 (Z.eqb_neq _ 0)) by lia.
Qed.

(** A turn reads one printed character and writes the character. *)
Lemma turn_quoted fuel pp c A B T :
  c <> 0 ->
  exists B', find_delim_from (S fuel) pp true (zlen (A ++ B)) (zlen A) (A ++ B ++ quote_char c ++ T) =
    find_delim_from fuel pp true (zlen ((A ++ [c]) ++ B')) (zlen (A ++ [c])) ((A ++ [c]) ++ B' ++ T).
Proof.
  intros Hc. assert (Hto : zlen A + 1 = zlen (A ++ [c])) by zlia. cbn [find_delim_from].
  unfold quote_char. destruct (is_delim c || (c =? PERCENT)) eqn:E; cbn [app].
  - pose proof (is_delim_range c Hc E) as Hr. unfold CHAR_MAX in Hr.
    rewrite (SE_bind_ok _ _ _ _ _ (load_app A B PERCENT (hex2 c ++ T))). cbv zeta.
    change (PERCENT =? COLON) with false. change (PERCENT =? AT_SIGN) with false.
    change (ends_part PERCENT) with false. change (PERCENT =? PERCENT) with true. cbn [orb andb].
    rewrite (SE_bind_ok (gets (fun m : list Z => m)) _ _ _ _ eq_refl).
    replace (zdrop (zlen (A ++ B) + 1) (A ++ B ++ PERCENT :: hex2 c ++ T)) with (hex2 c ++ T).
    2:{ rewrite app_assoc, zdrop_app_r by lia. by replace (_ + 1 - _) with 1 by lia. }
    rewrite cstr_hex2, sscanf_hex2 by lia. change (negb (2 =? 2)) with false.
    rewrite (proj2 (Z.ltb_ge CHAR_MAX c)) by (unfold CHAR_MAX; lia). cbn [orb].
    destruct (store_app A (B ++ PERCENT :: hex2 c) T c) as (B' & Es & Hl); [by destruct B|].
    rewrite <- app_assoc in Es. cbn [app] in Es. rewrite (SE_bind_ok _ _ _ _ _ Es). exists B'.
    rewrite Hto. f_equal. rewrite zlen_app, zlen_cons in Hl. change (zlen (hex2 c)) with 2 in Hl. zlia.
  - apply orb_false_iff in E as [E1 E2].
    rewrite (SE_bind_ok _ _ _ _ _ (load_app A B c T)). cbv zeta. rewrite andb_false_r.
    change (_ || ends_part c) with (is_delim c). rewrite E1, E2.
    destruct (store_app A (B ++ [c]) T c) as (B' & Es & Hl); [by destruct B|].
    rewrite <- app_assoc in Es. cbn [app] in Es. rewrite (SE_bind_ok _ _ _ _ _ Es). exists B'.
    rewrite Hto. f_equal. rewrite zlen_app in Hl. zlia.
Qed.
Lemma turn_delim fuel pp d A B R :
  is_delim d = true ->
  exists C, find_delim_from (S fuel) pp true (zlen (A ++ B)) (zlen A) (A ++ B ++ d :: R) =
    (inr (d, zlen (A ++ 0 :: C)), (A ++ 0 :: C) ++ R).
Proof.
  intros Hd. cbn [find_delim_from]. rewrite (SE_bind_ok _ _ _ _ _ (load_app A B d R)). cbv zeta.
  rewrite andb_false_r. change (_ || ends_part d) with (is_delim d). rewrite Hd.
  destruct (store_app A (B ++ [d]) R 0) as (C & E & Hl); [by destruct B|].
  rewrite <- app_assoc in E. cbn [app] in E. rewrite (SE_bind_ok _ _ _ _ _ E). exists C.
  unfold mret, SE_ret. rewrite <- !app_assoc. do 3 f_equal. rewrite zlen_app in Hl. zlia.
Qed.
Lemma find_delim_from_quoted fuel pp s A B d R :
  no_nul s -> is_delim d = true -> zlen s < Z.of_nat fuel ->
  exists C, find_delim_from fuel pp true (zlen (A ++ B)) (zlen A) (A ++ B ++ quote s ++ d :: R) =
    (inr (d, zlen (A ++ s ++ 0 :: C)), (A ++ s ++ 0 :: C) ++ R).
Proof.
  intros Hs Hd. revert fuel A B. induction Hs as [|c s Hc _ IH]; intros fuel A B Hf;
    (destruct fuel as [|fuel]; [zlen_facts; lia|]); [by apply turn_delim|].
  change (quote (c :: s)) with (quote_char c ++ quote s). rewrite <- (app_assoc (quote_char c)).
  destruct (turn_quoted fuel pp c A B (quote s ++ d :: R) Hc) as (B' & ->).
  destruct (IH fuel (A ++ [c]) B') as (C & ->); [rewrite zlen_cons in Hf; lia|]. exists C.
  rewrite <- (app_assoc A [c]). done.
Qed.
Lemma zlen_quote s : zlen s <= zlen (quote s).
Proof.
  induction s as [|c s IH]; [done|]. change (quote (c :: s)) with (quote_char c ++ quote s).
  rewrite zlen_cons, zlen_app. unfold quote_char. destruct (_ || _); zlia.
Qed.
(** find_delim at the start of a printed part puts the part there and goes on
    behind its delimiter. *)
Lemma find_delim_quoted s A d R :
  no_nul s -> is_delim d = true ->
  exists C, find_delim (zlen A) true (A ++ quote s ++ d :: R) =
    (inr (d, zlen (A ++ s ++ 0 :: C)), (A ++ s ++ 0 :: C) ++ R).
Proof.
  intros Hs Hd. unfold find_delim.
  rewrite (SE_bind_ok (gets (fun m : list Z => length m)) _ _ _ _ eq_refl).
  destruct (find_delim_from_quoted (length (A ++ quote s ++ d :: R)) (zlen A) s A [] d R) as (C & E);
    [done..| |].
  - change (Z.of_nat (length ?l)) with (zlen l). pose proof (zlen_quote s). zlia.
  - rewrite app_nil_r in E. exists C. exact E.
Qed.

Lemma quote_plain s : Forall (fun c => is_delim c || (c =? PERCENT) = false) s -> quote s = s.
Proof.
  induction 1 as [|c s Hc _ IH]; [done|]. change (quote (c :: s)) with (quote_char c ++ quote s).
  rewrite IH. unfold quote_char. by rewrite Hc.
Qed.
Lemma quote_dec n : 0 <= n -> quote (dec n) = dec n.
Proof.
  intros Hn. apply quote_plain. destruct (dec_number n Hn) as [[Hd _] _].
  eapply Forall_impl; [exact Hd|]. intros c Hc%isdigit_range. simpl in *.
  unfold is_delim, ends_part, COLON, AT_SIGN, SLASH, LBRACKET, RBRACKET, PERCENT. lia.
Qed.
(** A part that was put somewhere is read from there. *)
Lemma read_part A s C R : no_nul s -> cstr (zdrop (zlen A) ((A ++ s ++ 0 :: C) ++ R)) = s.
Proof.
  intros Hs. rewrite <- app_assoc, zdrop_app_exact by done. rewrite <- app_assoc.
  by apply cstr_app_nul.
Qed.

Lemma load_part A c s C R : load (zlen A) ((A ++ (c :: s) ++ C) ++ R) = (inr c, (A ++ (c :: s) ++ C) ++ R).
Proof.
  rewrite <- app_assoc. pose proof (load_app A [] c ((s ++ C) ++ R)) as Hl. by rewrite app_nil_r in Hl.
Qed.

(** The steps on a printed URL. *)
Lemma parse_userinfo_printed A user password host ci R :
  no_nul user -> no_nul password -> no_nul host ->
  exists C1 C2 C3, let A1 := A ++ user ++ 0 :: C1 in let A2 := A1 ++ password ++ 0 :: C2 in
    let A3 := A2 ++ host ++ 0 :: C3 in
    parse_userinfo (zlen A) ci
      (A ++ quote user ++ COLON :: quote password ++ AT_SIGN :: quote host ++ COLON :: R) =
    (inr (mk_cur COLON (zlen A3) (zlen A2) (zlen A2) None, set_userinfo (zlen A) (Some (zlen A1)) ci), A3 ++ R).
Proof.
  intros Hu Hp Hh. unfold parse_userinfo.
  destruct (find_delim_quoted user A COLON (quote password ++ AT_SIGN :: quote host ++ COLON :: R) Hu eq_refl)
    as (C1 & E1).
  destruct (find_delim_quoted password (A ++ user ++ 0 :: C1) AT_SIGN (quote host ++ COLON :: R) Hp eq_refl)
    as (C2 & E2).
  destruct (find_delim_quoted host ((A ++ user ++ 0 :: C1) ++ password ++ 0 :: C2) COLON R Hh eq_refl)
    as (C3 & E3).
  exists C1, C2, C3. cbv zeta. rewrite (SE_bind_ok _ _ _ _ _ E1). change (COLON =? COLON) with true. cbv iota.
  rewrite SE_bind_assoc, (SE_bind_ok _ _ _ _ _ E2), SE_bind_ret_l.
  change (AT_SIGN =? AT_SIGN) with true. cbv iota zeta. by rewrite (SE_bind_ok _ _ _ _ _ E3).
Qed.
Lemma parse_host_printed A host C R c ci :
  no_nul host -> host <> [] -> c_delim c = COLON -> c_host c = zlen A ->
  parse_host c ci ((A ++ host ++ C) ++ R) = (inr (inr (c, set_host (zlen A) ci)), (A ++ host ++ C) ++ R).
Proof.
  intros Hh Hne Hd Hc. unfold parse_host. rewrite Hd, Hc. change (COLON =? LBRACKET) with false. cbv iota.
  destruct host as [|h0 host]; [done|]. rewrite (SE_bind_ok _ _ _ _ _ (load_part A h0 host C R)).
  apply Forall_cons in Hh as [Hh0 _]. unfold truthy. by rewrite (proj2 (Z.eqb_neq _ _)).
Qed.
Lemma parse_port_printed A port R c ci :
  0 <= port <= 65535 -> c_delim c = COLON -> c_url c = zlen A ->
  exists C c', let A1 := A ++ dec port ++ 0 :: C in
    parse_port c ci (A ++ dec port ++ SLASH :: R) = (inr (inr (c', set_port port ci)), A1 ++ R) /\
    c_delim c' = SLASH /\ c_url c' = zlen A1.
Proof.
  intros Hport Hd Hc. unfold parse_port. rewrite Hd, Hc. change (COLON =? COLON) with true. cbv iota.
  destruct (find_delim_quoted (dec port) A SLASH R) as (C & E); [apply dec_no_nul; lia|done|].
  rewrite quote_dec in E by lia. exists C. eexists. cbv zeta.
  rewrite SE_bind_assoc, (SE_bind_ok _ _ _ _ _ E), SE_bind_ret_l. cbn [c_port].
  rewrite (SE_bind_ok (gets _) _ _ _ _ eq_refl), read_part by (apply dec_no_nul; lia).
  pose proof (strtol_dec port [] ltac:(unfold LONG_MAX; lia) ltac:(done)) as Hs. rewrite app_nil_r in Hs.
  rewrite Hs. destruct (dec_number port) as [[_ Hdne] _]; [lia|].
  assert (zlen (dec port) <> 0) by (intros ?%zlen_0_nil; done).
  rewrite (proj2 (Z.eqb_neq _ 0)), Z.eqb_refl, (proj2 (Z.ltb_ge _ 0)), (proj2 (Z.ltb_ge 65535 _)) by lia.
  by cbn [orb negb].
Qed.
Lemma parse_vhost_printed A vhost c ci :
  no_nul vhost -> c_delim c = SLASH -> c_url c = zlen A ->
  exists C, parse_vhost c ci (A ++ quote vhost ++ [0]) =
    (inr (AMQP_STATUS_OK, set_vhost (zlen A) ci), (A ++ vhost ++ 0 :: C) ++ []).
Proof.
  intros Hv Hd Hc. unfold parse_vhost. rewrite Hd, Hc. change (SLASH =? SLASH) with true. cbv iota.
  destruct (find_delim_quoted vhost A 0 [] Hv eq_refl) as (C & E). exists C.
  by rewrite (SE_bind_ok _ _ _ _ _ E).
Qed.

(** The four parts and the port, once the scheme is behind. *)
Lemma parse_authority_printed A user password host port vhost ci :
  no_nul user -> no_nul password -> no_nul host -> no_nul vhost -> host <> [] -> 0 <= port <= 65535 ->
  exists ci' m, parse_authority (zlen A) ci
      (A ++ quote user ++ COLON :: quote password ++ AT_SIGN :: quote host ++ COLON :: dec port ++
       SLASH :: quote vhost ++ [0]) = (inr (AMQP_STATUS_OK, ci'), m) /\
    ci_str m (ci_user ci') = user /\ ci_str m (ci_password ci') = password /\
    ci_str m (ci_host ci') = host /\ ci_str m (ci_vhost ci') = vhost /\
    ci_port ci' = port /\ ci_ssl ci' = ci_ssl ci.
Proof.
  intros Hu Hp Hh Hv Hne Hport. unfold parse_authority.
  destruct (parse_userinfo_printed A user password host ci (dec port ++ SLASH :: quote vhost ++ [0]) Hu Hp Hh)
    as (C1 & C2 & C3 & E1). cbv zeta in E1. rewrite (SE_bind_ok _ _ _ _ _ E1).
  remember (A ++ user ++ 0 :: C1) as A1 eqn:HA1. remember (A1 ++ password ++ 0 :: C2) as A2 eqn:HA2.
  rewrite (SE_bind_ok _ _ _ _ _ (parse_host_printed A2 host (0 :: C3) _ (mk_cur COLON _ _ (zlen A2) None) _
    Hh Hne eq_refl eq_refl)).
  remember (A2 ++ host ++ 0 :: C3) as A3 eqn:HA3.
  destruct (parse_port_printed A3 port (quote vhost ++ [0]) (mk_cur COLON (zlen A3) (zlen A2) (zlen A2) None)
    (set_host (zlen A2) (set_userinfo (zlen A) (Some (zlen A1)) ci)) Hport eq_refl eq_refl)
    as (C4 & c & E2 & Hd & Hc). cbv zeta in E2. rewrite (SE_bind_ok _ _ _ _ _ E2).
  remember (A3 ++ dec port ++ 0 :: C4) as A4 eqn:HA4.
  destruct (parse_vhost_printed A4 vhost c (set_port port (set_host (zlen A2) (set_userinfo (zlen A) (Some (zlen A1)) ci)))
    Hv Hd Hc) as (C5 & E3).
  eexists _, _. split; [exact E3|]. cbn [ci_str ci_user ci_password ci_host ci_vhost ci_port ci_ssl
    set_vhost set_port set_host set_userinfo].
  split_and!; [| | |by apply read_part|done|done].
  - rewrite <- !app_assoc, HA4, <- !app_assoc, HA3, <- !app_assoc, HA2, <- !app_assoc, HA1.
    by apply read_part.
  - rewrite <- !app_assoc, HA4, <- !app_assoc, HA3, <- !app_assoc, HA2. by apply read_part.
  - rewrite <- !app_assoc, HA4, <- !app_assoc, HA3. by apply read_part.
Qed.

Lemma url_no_nul tls user password host port vhost :
  no_nul user -> no_nul password -> no_nul host -> no_nul vhost -> 0 <= port ->
  no_nul (url_of tls user password host port vhost).
Proof.
  assert (Hq : forall s, no_nul s -> no_nul (quote s)).
  { induction 1 as [|c s Hc _ IH]; [constructor|]. change (quote (c :: s)) with (quote_char c ++ quote s).
    apply Forall_app. split; [|done]. unfold quote_char. destruct (_ || _) eqn:E; [|by repeat constructor].
    pose proof (is_delim_range c Hc E) as Hr. unfold CHAR_MAX in Hr.
    assert (Hd : 0 <= c / 16 < 16) by (split; [apply Z.div_pos|apply Z.div_lt_upper_bound]; lia).
    pose proof (hex_digit_range _ Hd). pose proof (hex_digit_range (c mod 16) (Z.mod_pos_bound c 16 ltac:(lia))).
    unfold hex2. repeat constructor; [done|lia..]. }
  intros Hu Hp Hh Hv Hport. unfold url_of.
  repeat first [apply Forall_cons_2; [done|] | apply Forall_app_2]; try by apply Hq.
  - destruct tls; by repeat constructor.
  - by apply dec_no_nul.
Qed.

Lemma parse_url_safe (url : list Z) :
  exists rc ci m, amqp_parse_url (url ++ [0]) = (inr (rc, ci), m) /\
    (rc = AMQP_STATUS_OK \/ rc = AMQP_STATUS_BAD_URL) /\ ci_ok (zlen url + 1) ci /\
    terminated m /\ zlen m = zlen url + 1.
Proof.
  assert (Hsafe : safe (zlen url + 1) (result_ok (zlen url + 1)) amqp_parse_url).
  { assert (Hci : forall n, ci_ok n amqp_default_connection_info) by (split; cbn; auto; first [by repeat constructor | lia]).
    eapply (safe_bind _ (fun b => zlen (cstr b) < zlen url + 1)).
    { apply safe_gets. intros b Hb <-. pose proof (terminated_cstr b 0 Hb) as Hl.
      rewrite zdrop_0 in Hl by done. destruct Hb as [body ->]. apply Hl. zlia. }
    intros b Hb. cbv zeta.
    assert (Hlen : forall p, starts_with p (cstr b) = true -> zlen p <= zlen (cstr b)).
    { intros p Hp%bytes_eqb_eq. rewrite <- Hp. unfold ztake, zlen. rewrite length_take. lia. }
    destruct (starts_with (str "amqp://") (cstr b)) eqn:E1.
    { apply Hlen in E1. change (zlen (str "amqp://")) with 7 in E1. apply parse_authority_safe; [lia|done]. }
    destruct (starts_with (str "amqps://") (cstr b)) eqn:E2.
    { apply Hlen in E2. change (zlen (str "amqps://")) with 8 in E2. apply parse_authority_safe; [lia|].
      destruct (Hci (zlen url + 1)). split; cbn; auto; lia. }
    apply safe_ret. split; [by right|done]. }
  destruct (Hsafe (url ++ [0])) as ([rc ci] & m & E & Hm & Hn & Hrc & Hci); [by exists url|zlia|].
  by exists rc, ci, m.
Qed.

Lemma parse_url_printed (tls : bool) (user password host : list Z) (port : Z) (vhost : list Z) :
  no_nul user -> no_nul password -> no_nul host -> no_nul vhost -> host <> [] -> 0 <= port <= 65535 ->
  exists ci m, amqp_parse_url (url_of tls user password host port vhost ++ [0]) =
      (inr (AMQP_STATUS_OK, ci), m) /\
    ci_str m (ci_user ci) = user /\ ci_str m (ci_password ci) = password /\
    ci_str m (ci_host ci) = host /\ ci_str m (ci_vhost ci) = vhost /\
    ci_port ci = port /\ ci_ssl ci = (if tls then 1 else 0).
Proof.
  intros Hu Hp Hh Hv Hne Hport.
  pose proof (url_no_nul tls user password host port vhost Hu Hp Hh Hv ltac:(lia)) as Hnn.
  unfold amqp_parse_url. rewrite (SE_bind_ok (gets _) _ _ _ _ eq_refl). cbv zeta.
  rewrite cstr_app_nul by done.
  destruct (parse_authority_printed (str (if tls then "amqps://" else "amqp://")) user password host port vhost
    (if tls then set_tls amqp_default_connection_info else amqp_default_connection_info) Hu Hp Hh Hv Hne Hport)
    as (ci & m & E & H1 & H2 & H3 & H4 & H5 & H6).
  exists ci, m. split_and!; try done; [|by destruct tls].
  rewrite <- E. unfold url_of, starts_with. clear E.
  destruct tls; cbn; repeat (rewrite <- app_assoc; cbn); done.
Qed.

(** ** Properties *)

(** Whatever the URL, amqp_parse_url ends, reads and writes only within
    the URL and its terminating zero, and leaves that zero in place; it
    returns AMQP_STATUS_OK or AMQP_STATUS_BAD_URL, a port of 16 bits, and
    strings that lie in the URL. *)
Theorem amqp_parse_url_safe (url : list Z) :
  exists rc ci m, amqp_parse_url (url ++ [0]) = (inr (rc, ci), m) /\
    (rc = AMQP_STATUS_OK \/ rc = AMQP_STATUS_BAD_URL) /\ ci_ok (zlen url + 1) ci /\
    terminated m /\ zlen m = zlen url + 1.
Proof. apply parse_url_safe. Qed.

(** A URL printed from its parts, with the reserved characters of user,
    password, host and virtual host percent-encoded, parses to those parts. *)
Theorem amqp_parse_url_roundtrip (tls : bool) (user password host : list Z) (port : Z) (vhost : list Z) :
  no_nul user -> no_nul password -> no_nul host -> no_nul vhost -> host <> [] -> 0 <= port <= 65535 ->
  exists ci m, amqp_parse_url (url_of tls user password host port vhost ++ [0]) =
      (inr (AMQP_STATUS_OK, ci), m) /\
    ci_str m (ci_user ci) = user /\ ci_str m (ci_password ci) = password /\
    ci_str m (ci_host ci) = host /\ ci_str m (ci_vhost ci) = vhost /\
    ci_port ci = port /\ ci_ssl ci = (if tls then 1 else 0).
Proof. apply parse_url_printed. Qed.

(** ** Examples *)

Lemma amqp_parse_url_roundtrip_witness :
  exists ci m, amqp_parse_url (url_of true (str "ann") (str "p@ss") (str "mq.org") 5671 (str "/ega") ++ [0]) =
      (inr (AMQP_STATUS_OK, ci), m) /\
    ci_str m (ci_user ci) = str "ann" /\ ci_str m (ci_password ci) = str "p@ss" /\
    ci_str m (ci_host ci) = str "mq.org" /\ ci_str m (ci_vhost ci) = str "/ega" /\
    ci_port ci = 5671 /\ ci_ssl ci = 1.
Proof.
  refine (amqp_parse_url_roundtrip true (str "ann") (str "p@ss") (str "mq.org") 5671 (str "/ega") _ _ _ _ _ _);
    first [by repeat constructor | lia].
Defined.
