(* ===== verification/AmqpMem.v ===== *)
(** * The memory pools of rabbitmq-c: amqp_mem.c

    A pool hands out parts of pages and blocks of their own, and gives all of
    them back at once.  The heap is a map from live block numbers to their
    contents; a request that the system grants makes a block with a fresh
    number.  A pointer is a block and an offset.  The code may break a rule
    of C on the way (free a block twice, access outside a block, fail an
    assertion): such an execution stops with a [fault]. *)

From stdpp Require Import gmap.
From S2P Require Import Prelude.

(** ** The heap *)

(** Does the system grant the [n]-th request, for [size] bytes? *)
Class Heap := heap_grants : nat -> Z -> bool.
(** The system never refuses. *)
Class HeapTotal `{Heap} : Prop := heap_total : forall n size, heap_grants n size = true.

Record heap := mk_heap { h_next : nat; h_live : gmap nat (list Z) }.

Inductive fault := BadFree | OutOfBounds | AssertFailed | Aborted | BadShift.

Definition ptr : Type := nat * Z.

Section heap_ops.
Context `{Heap}.

(** malloc and calloc: a fresh block of zeros (malloc promises no contents;
    what it returns is written before it is read). *)
Definition calloc (size : Z) : SE heap fault (option nat) := fun h =>
  let b := h_next h in
  if heap_grants b size
  then (inr (Some b), mk_heap (S b) (<[b := zfill size]> (h_live h)))
  else (inr None, mk_heap (S b) (h_live h)).

(** free(NULL) does nothing. *)
Definition free (p : option nat) : SE heap fault () := fun h =>
  match p with
  | None => (inr tt, h)
  | Some b =>
      if bool_decide (is_Some (h_live h !! b))
      then (inr tt, mk_heap (h_next h) (delete b (h_live h)))
      else (inl BadFree, h)
  end.

(** realloc: a new block with the old contents, and the old block released;
    the old block stays when the request is refused. *)
Definition realloc (p : nat) (size : Z) : SE heap fault (option nat) := fun h =>
  match h_live h !! p with
  | None => (inl BadFree, h)
  | Some old =>
      let b := h_next h in
      if heap_grants b size
      then (inr (Some b),
            mk_heap (S b) (<[b := ztake size (old ++ zfill (size - zlen old))]> (delete p (h_live h))))
      else (inr None, mk_heap (S b) (h_live h))
  end.

(** memcpy to and from a block. *)
Definition heap_store (p : ptr) (bytes : list Z) : SE heap fault () := fun h =>
  match h_live h !! p.1 with
  | Some m =>
      if (0 <=? p.2) && (p.2 + zlen bytes <=? zlen m)
      then (inr tt, mk_heap (h_next h) (<[p.1 := zwrite p.2 bytes m]> (h_live h)))
      else (inl OutOfBounds, h)
  | None => (inl OutOfBounds, h)
  end.
Definition heap_load (p : ptr) (n : Z) : SE heap fault (list Z) := fun h =>
  match h_live h !! p.1 with
  | Some m =>
      if (0 <=? p.2) && (p.2 + n <=? zlen m)
      then (inr (zslice p.2 n m), h)
      else (inl OutOfBounds, h)
  | None => (inl OutOfBounds, h)
  end.

(** ** Pools *)

(** [blocklist] is the block that holds the array, [blocks] its contents. *)
Record amqp_pool_blocklist := mk_bl {
  num_blocks : Z; blocklist : option nat; blocks : list nat
}.
Record amqp_pool := mk_pool {
  pagesize : Z;
  pages : amqp_pool_blocklist;
  large_blocks : amqp_pool_blocklist;
  next_page : Z;
  alloc_block : option nat;
  alloc_used : Z
}.

Definition empty_bl : amqp_pool_blocklist := mk_bl 0 None [].
Definition init_amqp_pool (pagesize : Z) : amqp_pool :=
  mk_pool (if truthy pagesize then pagesize else 4096) empty_bl empty_bl 0 None 0.

Definition free_all (bs : list nat) : SE heap fault () :=
  mfold (fun _ b => free (Some b)) bs tt.
Definition empty_blocklist (x : amqp_pool_blocklist) : SE heap fault amqp_pool_blocklist :=
  match blocklist x with
  | Some arr =>
      free_all (take (Z.to_nat (num_blocks x)) (blocks x));; free (Some arr);; mret empty_bl
  | None => mret empty_bl
  end.

Definition recycle_amqp_pool (p : amqp_pool) : SE heap fault amqp_pool :=
  large ← empty_blocklist (large_blocks p);
  mret (mk_pool (pagesize p) (pages p) large 0 None 0).

Definition empty_amqp_pool (p : amqp_pool) : SE heap fault amqp_pool :=
  p ← recycle_amqp_pool p;
  pgs ← empty_blocklist (pages p);
  mret (mk_pool (pagesize p) pgs (large_blocks p) (next_page p) (alloc_block p) (alloc_used p)).

(** [None] is the 0 it returns; the array may have moved all the same. *)
Definition sizeof_pointer : Z := 8.
Definition record_pool_block (x : amqp_pool_blocklist) (block : nat)
    : SE heap fault (option amqp_pool_blocklist) :=
  let blocklistlength := u64 (sizeof_pointer * (num_blocks x + 1)) in
  arr ← match blocklist x with
        | None => calloc blocklistlength
        | Some arr => realloc arr blocklistlength
        end;
  mret (a ← arr; Some (mk_bl (num_blocks x + 1) (Some a) (blocks x ++ [block]))).

(** (amount + 7) & (~7), on [size_t]. *)
Definition round8 (amount : Z) : Z := Z.land (u64 (amount + 7)) (Z.lnot 7).

(** The pointer, [None] for NULL, and the pool. *)
Definition amqp_pool_alloc (amount : Z) (pool : amqp_pool) : SE heap fault (option ptr * amqp_pool) :=
  if amount =? 0 then mret (None, pool)
  else
    let amount := round8 amount in
    if pagesize pool <? amount then
      result ← calloc amount;
      match result with
      | None => mret (None, pool)
      | Some result =>
          r ← record_pool_block (large_blocks pool) result;
          match r with
          | None => free (Some result);; mret (None, pool)
          | Some large =>
              mret (Some (result, 0),
                    mk_pool (pagesize pool) (pages pool) large (next_page pool)
                      (alloc_block pool) (alloc_used pool))
          end
      end
    else
      let new_page :=
        if num_blocks (pages pool) <=? next_page pool then
          page ← calloc (pagesize pool);
          match page with
          | None =>
              mret (None, mk_pool (pagesize pool) (pages pool) (large_blocks pool) (next_page pool)
                            None (alloc_used pool))
          | Some page =>
              r ← record_pool_block (pages pool) page;
              match r with
              | None =>
                  mret (None, mk_pool (pagesize pool) (pages pool) (large_blocks pool) (next_page pool)
                                (Some page) (alloc_used pool))
              | Some pgs =>
                  mret (Some (page, 0),
                        mk_pool (pagesize pool) pgs (large_blocks pool) (num_blocks pgs)
                          (Some page) amount)
              end
          end
        else
          match blocks (pages pool) !! Z.to_nat (next_page pool) with
          | None => throw OutOfBounds
          | Some page =>
              mret (Some (page, 0),
                    mk_pool (pagesize pool) (pages pool) (large_blocks pool) (next_page pool + 1)
                      (Some page) amount)
          end in
      match alloc_block pool with
      | Some blk =>
          if negb (alloc_used pool <=? pagesize pool) then throw AssertFailed
          else if u64 (alloc_used pool + amount) <=? pagesize pool then
            mret (Some (blk, alloc_used pool),
                  mk_pool (pagesize pool) (pages pool) (large_blocks pool) (next_page pool)
                    (Some blk) (alloc_used pool + amount))
          else new_page
      | None => new_page
      end.

End heap_ops.

(** ** What a pool owns *)

Definition arrays (p : amqp_pool) : list nat :=
  option_list (blocklist (pages p)) ++ option_list (blocklist (large_blocks p)).
Definition owned (p : amqp_pool) : list nat :=
  arrays p ++ blocks (pages p) ++ blocks (large_blocks p).
(** The pages not in use since the last recycling. *)
Definition spare (p : amqp_pool) : list nat := drop (Z.to_nat (next_page p)) (blocks (pages p)).

(** Part of a block: the block, where the part begins, its length. *)
Record region := mk_region { r_block : nat; r_off : Z; r_len : Z }.
Definition disjoint_regions (r s : region) : Prop :=
  r_block r <> r_block s \/ r_off r + r_len r <= r_off s \/ r_off s + r_len s <= r_off r.

Definition block_size (h : heap) (b : nat) : option Z := zlen <$> h_live h !! b.

(** A region in use: aligned and inside a live block, which is no array of the pool and
    no spare page, and below the mark of the page that is being filled. *)
Definition region_ok (h : heap) (p : amqp_pool) (r : region) : Prop :=
  (exists n, block_size h (r_block r) = Some n /\ 0 <= r_off r /\ r_off r mod 8 = 0 /\
    0 < r_len r /\ r_off r + r_len r <= n) /\
  (r_block r ∉ arrays p) /\ (r_block r ∉ spare p) /\
  (alloc_block p = Some (r_block r) -> r_off r + r_len r <= alloc_used p).

Definition heap_wf (h : heap) : Prop := forall b, is_Some (h_live h !! b) -> (b < h_next h)%nat.
Definition bl_wf (x : amqp_pool_blocklist) : Prop :=
  num_blocks x = zlen (blocks x) /\ (blocklist x = None -> blocks x = []).

(** The invariant of a pool of which the regions [rs] are in use. *)
Record pool_wf (h : heap) (p : amqp_pool) (rs : list region) : Prop := {
  pw_heap : heap_wf h;
  pw_pagesize : 0 < pagesize p < 2 ^ 62;
  pw_pages : bl_wf (pages p);
  pw_large : bl_wf (large_blocks p);
  pw_nodup : NoDup (owned p);
  pw_live : Forall (fun b => is_Some (h_live h !! b)) (owned p);
  pw_page_size : Forall (fun b => block_size h b = Some (pagesize p)) (blocks (pages p));
  pw_next : 0 <= next_page p <= num_blocks (pages p);
  pw_used : 0 <= alloc_used p <= pagesize p /\ alloc_used p mod 8 = 0;
  pw_alloc : forall b, alloc_block p = Some b ->
    block_size h b = Some (pagesize p) /\ (b ∉ arrays p) /\ (b ∉ spare p);
  pw_regions : Forall (region_ok h p) rs;
  pw_disjoint : forall i j r s, i <> j -> rs !! i = Some r -> rs !! j = Some s -> disjoint_regions r s
}.

(** Every block but those of [X] keeps its contents. *)
Definition keeps (X : list nat) (h h' : heap) : Prop :=
  forall b m, b ∉ X -> h_live h !! b = Some m -> h_live h' !! b = Some m.

Lemma keeps_refl X h : keeps X h h.
Proof. by intros b m. Qed.
Lemma keeps_trans X h1 h2 h3 : keeps X h1 h2 -> keeps X h2 h3 -> keeps X h1 h3.
Proof. intros H12 H23 b m Hb Hm. eauto. Qed.
Lemma keeps_weaken X Y h h' : (forall b, b ∈ X -> b ∈ Y) -> keeps X h h' -> keeps Y h h'.
Proof. intros HXY Hk b m Hb. apply Hk. auto. Qed.
Lemma keeps_size X h h' b n : keeps X h h' -> b ∉ X -> block_size h b = Some n -> block_size h' b = Some n.
Proof.
  intros Hk Hb. unfold block_size. destruct (h_live h !! b) as [m|] eqn:Em; [|done].
  by rewrite (Hk _ _ Hb Em).
Qed.
Lemma keeps_live X h h' b : keeps X h h' -> b ∉ X -> is_Some (h_live h !! b) -> is_Some (h_live h' !! b).
Proof. intros Hk Hb [m Hm]. exists m. auto. Qed.

Lemma round8_bounds n : 0 < n < 2 ^ 62 -> n <= round8 n <= n + 7 /\ round8 n mod 8 = 0.
Proof.
  intros Hn. unfold round8. rewrite u64_id by lia.
  change (Z.lnot 7) with (Z.lnot (Z.ones 3)). rewrite <- Z.ldiff_land.
  rewrite Z.ldiff_ones_r, Z.shiftr_div_pow2, Z.shiftl_mul_pow2 by lia. change (2 ^ 3) with 8.
  pose proof (Z.div_mod (n + 7) 8 ltac:(lia)). pose proof (Z.mod_pos_bound (n + 7) 8 ltac:(lia)).
  split; [lia|]. by rewrite Z.mod_mul.
Qed.

Section pool_lemmas.
Context `{Heap}.

Lemma heap_wf_fresh h : heap_wf h -> h_live h !! h_next h = None.
Proof. intros Hw. apply eq_None_not_Some. intros Hs. apply Hw in Hs. lia. Qed.

(** A request adds at most one block, with a number that was free. *)
Lemma calloc_spec size h :
  heap_wf h -> 0 <= size ->
  exists r h', calloc size h = (inr r, h') /\ heap_wf h' /\ keeps [] h h' /\
    (forall b, is_Some (h_live h' !! b) -> is_Some (h_live h !! b) \/ r = Some b) /\
    (forall b, r = Some b -> h_live h !! b = None /\ h_live h' !! b = Some (zfill size)).
Proof.
  intros Hw Hs. pose proof (heap_wf_fresh _ Hw) as Hf. unfold calloc.
  destruct (heap_grants _ size); eexists _, _; (split; [reflexivity|]); cbn.
  - split_and!.
    + intros b. cbn. destruct (decide (b = h_next h)) as [->|]; [lia|].
      rewrite lookup_insert_ne by done. intros Hb%Hw. lia.
    + intros b m _ Hm. cbn. rewrite lookup_insert_ne; [done|]. intros <-. by rewrite Hf in Hm.
    + intros b. destruct (decide (b = h_next h)) as [->|]; [by right|].
      rewrite lookup_insert_ne by done. by left.
    + intros b [= <-]. by rewrite lookup_insert_eq.
  - split_and!; [|by intros b m|by left|done]. intros b Hb%Hw. cbn. lia.
Qed.

(** Recording a block replaces the array of a list, nothing else. *)
Lemma record_pool_block_spec x block h :
  heap_wf h -> bl_wf x -> (forall a, blocklist x = Some a -> is_Some (h_live h !! a)) ->
  exists r h', record_pool_block x block h = (inr r, h') /\ heap_wf h' /\
    keeps (option_list (blocklist x)) h h' /\
    match r with
    | None => keeps [] h h'
    | Some x' =>
        exists a, x' = mk_bl (num_blocks x + 1) (Some a) (blocks x ++ [block]) /\
          h_live h !! a = None /\ is_Some (h_live h' !! a)
    end.
Proof.
  intros Hw [Hn Hnil] Hlive. unfold record_pool_block. cbv zeta. set (len := u64 _).
  assert (0 <= len) by apply u64_range.
  destruct (blocklist x) as [arr|] eqn:Ex.
  - destruct (Hlive arr eq_refl) as [old Hold]. unfold realloc, mbind, SE_bind. rewrite Hold. cbv zeta.
    pose proof (heap_wf_fresh _ Hw) as Hf.
    destruct (heap_grants _ len); eexists _, _; (split; [reflexivity|]); cbn.
    + split_and!.
      * intros b. cbn. destruct (decide (b = h_next h)) as [->|]; [lia|].
        rewrite lookup_insert_ne by done. intros [m [_ Hb]%lookup_delete_Some]. 
        assert (b < h_next h)%nat by (apply Hw; eauto). lia.
      * intros b m Hb Hm. cbn. rewrite lookup_insert_ne by (intros <-; by rewrite Hf in Hm).
        rewrite lookup_delete_ne; [done|]. intros <-. apply Hb. by left.
      * eexists. split; [done|]. split; [done|]. rewrite lookup_insert_eq. eauto.
    + split_and!; [|by intros b m|by intros b m]. intros b Hb%Hw. cbn. lia.
  - destruct (calloc_spec len h Hw) as (r & h' & Hc & Hw' & Hk & _ & Hr); [done|].
    unfold mbind, SE_bind. rewrite Hc. eexists _, _. split; [reflexivity|].
    split; [done|]. split; [done|]. destruct r as [a|]; cbn; [|done].
    exists a. split; [done|]. destruct (Hr a eq_refl) as [Hnone Hsome]. rewrite Hsome. eauto.
Qed.

Lemma free_spec b h :
  is_Some (h_live h !! b) ->
  exists h', free (Some b) h = (inr tt, h') /\ h' = mk_heap (h_next h) (delete b (h_live h)).
Proof. intros Hb. unfold free. rewrite bool_decide_eq_true_2 by done. eauto. Qed.
End pool_lemmas.

(** ** Steps of a pool keep its invariant *)

Lemma NoDup_replace (old rest new : list nat) :
  NoDup (old ++ rest) -> NoDup new -> (forall x, x ∈ new -> x ∉ rest) -> NoDup (new ++ rest).
Proof. rewrite !NoDup_app. intros (_ & _ & Hr) Hn Hd. auto. Qed.

(** A step from [p] to [p'] gives up the arrays [old] and takes the fresh
    blocks [new]; everything else the pool owns is [rest]. *)
Record pool_step (h : heap) (p : amqp_pool) (h' : heap) (p' : amqp_pool) (old rest new : list nat) : Prop := {
  ps_heap : heap_wf h';
  ps_keeps : keeps old h h';
  ps_old : forall x, x ∈ old -> x ∈ arrays p;
  ps_owned : owned p ≡ₚ old ++ rest;
  ps_owned' : owned p' ≡ₚ new ++ rest;
  ps_nodup : NoDup new;
  ps_fresh : forall x, x ∈ new -> h_live h !! x = None /\ is_Some (h_live h' !! x);
  ps_arrays : forall x, x ∈ arrays p' -> x ∈ arrays p \/ x ∈ new;
  ps_spare : forall x, x ∈ spare p' -> x ∈ spare p \/ x ∈ new;
  ps_pagesize : pagesize p' = pagesize p;
  ps_pages : bl_wf (pages p');
  ps_large : bl_wf (large_blocks p');
  ps_page_size : forall x, x ∈ blocks (pages p') ->
    x ∈ blocks (pages p) \/ block_size h' x = Some (pagesize p);
  ps_next : 0 <= next_page p' <= num_blocks (pages p')
}.

Section steps.
Context (h h' : heap) (p p' : amqp_pool) (rs : list region) (old rest new : list nat).
Context (Hwf : pool_wf h p rs) (Hst : pool_step h p h' p' old rest new).

Lemma step_rest_not_old x : x ∈ rest -> x ∉ old.
Proof.
  intros Hx Ho. pose proof (pw_nodup _ _ _ Hwf) as Hn. rewrite (ps_owned _ _ _ _ _ _ _ Hst) in Hn.
  apply NoDup_app in Hn as (_ & Hd & _). by apply (Hd x).
Qed.
Lemma step_rest_owned x : x ∈ rest -> is_Some (h_live h !! x).
Proof.
  intros Hx. pose proof (pw_live _ _ _ Hwf) as Hl. rewrite (ps_owned _ _ _ _ _ _ _ Hst) in Hl.
  rewrite Forall_forall in Hl. apply Hl. apply elem_of_app. by right.
Qed.
Lemma step_nodup : NoDup (owned p').
Proof.
  rewrite (ps_owned' _ _ _ _ _ _ _ Hst). eapply NoDup_replace; [|apply Hst|].
  - rewrite <- (ps_owned _ _ _ _ _ _ _ Hst). apply Hwf.
  - intros x Hn Hr. apply (ps_fresh _ _ _ _ _ _ _ Hst) in Hn as [Hn _].
    apply step_rest_owned in Hr as [m Hm]. by rewrite Hn in Hm.
Qed.
Lemma step_live : Forall (fun b => is_Some (h_live h' !! b)) (owned p').
Proof.
  rewrite (ps_owned' _ _ _ _ _ _ _ Hst). apply Forall_forall. intros x [Hx|Hx]%elem_of_app.
  - by apply Hst.
  - eapply keeps_live; [apply Hst|by apply step_rest_not_old|by apply step_rest_owned].
Qed.
(** The blocks the pool owned and that are no arrays are still there. *)
Lemma step_size x n : x ∉ arrays p -> block_size h x = Some n -> block_size h' x = Some n.
Proof.
  intros Hx. apply (keeps_size old); [apply Hst|]. intros Ho. by apply Hx, (ps_old _ _ _ _ _ _ _ Hst).
Qed.
Lemma page_not_array x : x ∈ blocks (pages p) -> x ∉ arrays p.
Proof.
  intros Hx Ha. pose proof (pw_nodup _ _ _ Hwf) as Hn. unfold owned in Hn.
  apply NoDup_app in Hn as (_ & Hd & _). apply (Hd x Ha). apply elem_of_app. by left.
Qed.
Lemma step_page_size : Forall (fun b => block_size h' b = Some (pagesize p')) (blocks (pages p')).
Proof.
  rewrite (ps_pagesize _ _ _ _ _ _ _ Hst). apply Forall_forall. intros x [Hx|Hx]%(ps_page_size _ _ _ _ _ _ _ Hst); [|done].
  apply step_size; [by apply page_not_array|].
  pose proof (pw_page_size _ _ _ Hwf) as Hf. rewrite Forall_forall in Hf. auto.
Qed.

(** A block in use stays in use; a fresh block was not. *)
Lemma step_block x n :
  block_size h x = Some n -> x ∉ arrays p -> x ∉ spare p ->
  block_size h' x = Some n /\ (x ∉ arrays p') /\ (x ∉ spare p').
Proof.
  intros Hs Ha Hp. assert (Hnew : x ∉ new).
  { intros [Hn _]%(ps_fresh _ _ _ _ _ _ _ Hst). unfold block_size in Hs. by rewrite Hn in Hs. }
  split; [by apply step_size|]. split.
  - by intros [Hx|Hx]%(ps_arrays _ _ _ _ _ _ _ Hst).
  - by intros [Hx|Hx]%(ps_spare _ _ _ _ _ _ _ Hst).
Qed.
Lemma step_regions :
  (forall r, r ∈ rs -> alloc_block p' = Some (r_block r) -> r_off r + r_len r <= alloc_used p') ->
  Forall (region_ok h' p') rs.
Proof.
  intros Hu. pose proof (pw_regions _ _ _ Hwf) as Hr. rewrite Forall_forall in *.
  intros r Hin. destruct (Hr r Hin) as ((n & Hs & Hb) & Ha & Hp & _).
  destruct (step_block _ _ Hs Ha Hp) as (Hs' & Ha' & Hp').
  split; [by exists n|]. auto.
Qed.

(** The invariant after a step, with the page being filled stated apart. *)
Lemma step_wf :
  0 <= alloc_used p' <= pagesize p /\ alloc_used p' mod 8 = 0 ->
  (forall b, alloc_block p' = Some b ->
    block_size h' b = Some (pagesize p) /\ (b ∉ arrays p') /\ (b ∉ spare p')) ->
  (forall r, r ∈ rs -> alloc_block p' = Some (r_block r) -> r_off r + r_len r <= alloc_used p') ->
  pool_wf h' p' rs.
Proof.
  intros Hu Ha Hr. pose proof (ps_pagesize _ _ _ _ _ _ _ Hst) as Hps.
  constructor; rewrite ?Hps; try apply Hst; try apply Hwf; try done.
  - apply step_nodup.
  - apply step_live.
  - pose proof step_page_size as Hx. by rewrite Hps in Hx.
  - by apply step_regions.
Qed.
End steps.

(** Adding a region to those in use. *)
Lemma pool_wf_cons h p rs r :
  pool_wf h p rs -> region_ok h p r -> (forall s, s ∈ rs -> disjoint_regions r s) ->
  pool_wf h p (r :: rs).
Proof.
  intros Hwf Hr Hd. constructor; try apply Hwf; [by constructor; [|apply Hwf]|].
  intros [|i] [|j] a b Hij Ha Hb; simplify_eq/=.
  - apply Hd. by eapply list_elem_of_lookup_2.
  - assert (disjoint_regions b a) as Hba by (apply Hd; by eapply list_elem_of_lookup_2).
    unfold disjoint_regions in *. destruct Hba as [?|[?|?]]; auto.
  - eapply (pw_disjoint _ _ _ Hwf i j); [lia|done..].
Qed.

Section alloc.
Context `{Heap}.

(** A block that owned memory cannot be fresh. *)
Lemma fresh_not_owned h p rs b : pool_wf h p rs -> h_live h !! b = None -> b ∉ owned p.
Proof.
  intros Hwf Hb Ho. pose proof (pw_live _ _ _ Hwf) as Hl. rewrite Forall_forall in Hl.
  destruct (Hl b Ho) as [m Hm]. by rewrite Hb in Hm.
Qed.
Lemma fresh_disjoint h p rs b off len :
  pool_wf h p rs -> h_live h !! b = None -> forall s, s ∈ rs -> disjoint_regions (mk_region b off len) s.
Proof.
  intros Hwf Hb s Hs. left. intros Heq. cbn in Heq. pose proof (pw_regions _ _ _ Hwf) as Hr.
  rewrite Forall_forall in Hr. destruct (Hr s Hs) as ((n & Hsz & _) & _). unfold block_size in Hsz.
  by rewrite <- Heq, Hb in Hsz.
Qed.
(** More live blocks do not disturb a pool. *)
Lemma pool_wf_keeps h h' p rs : pool_wf h p rs -> heap_wf h' -> keeps [] h h' -> pool_wf h' p rs.
Proof.
  intros Hwf Hw Hk. refine (step_wf h h' p p rs [] (owned p) [] Hwf _ _ _ _); try apply Hwf.
  - constructor; [done|done|by intros x ?%elem_of_nil|done|done|constructor|by intros x ?%elem_of_nil|
      auto|auto|done|apply Hwf|apply Hwf|auto|apply Hwf].
  - intros b Hb. destruct (pw_alloc _ _ _ Hwf b Hb) as (Hs & Ha & Hp). split; [|done].
    by eapply keeps_size; [|apply not_elem_of_nil|].
  - intros r Hr. pose proof (pw_regions _ _ _ Hwf) as Hf. rewrite Forall_forall in Hf. by apply Hf.
Qed.

(** The regions in use after a request for [len] bytes. *)
Definition regions_after (r : option ptr) (len : Z) (rs : list region) : list region :=
  match r with Some (b, off) => mk_region b off len :: rs | None => rs end.
(** Every block a pool has to do with. *)
Definition footprint (p : amqp_pool) (rs : list region) : list nat :=
  owned p ++ option_list (alloc_block p) ++ map r_block rs.
(** It only grows by blocks that were not live. *)
Definition grows (h : heap) (p : amqp_pool) (rs : list region) (p' : amqp_pool) (rs' : list region) : Prop :=
  forall x, x ∈ footprint p' rs' -> x ∈ footprint p rs \/ h_live h !! x = None.
(** What a request leaves behind. *)
Definition alloc_result (r : option ptr) (len : Z) (h h' : heap) (p p' : amqp_pool) (rs : list region) : Prop :=
  pool_wf h' p' (regions_after r len rs) /\ keeps (arrays p) h h' /\ pagesize p' = pagesize p /\
  grows h p rs p' (regions_after r len rs).

Lemma grows_refl h p rs : grows h p rs p rs.
Proof. by left. Qed.
(** The block [b] belonged to the pool, or to nobody. *)
Definition accessible (h : heap) (p : amqp_pool) (b : nat) : Prop :=
  b ∈ owned p \/ alloc_block p = Some b \/ h_live h !! b = None.
Lemma grows_step h p h' p' old rest new rs r len :
  pool_step h p h' p' old rest new ->
  (forall b, alloc_block p' = Some b -> accessible h p b) ->
  (forall b off, r = Some (b, off) -> accessible h p b) ->
  grows h p rs p' (regions_after r len rs).
Proof.
  intros Hst Ha Hr.
  assert (Hacc : forall b, accessible h p b -> b ∈ footprint p rs \/ h_live h !! b = None).
  { intros b [Hb|[Hb|Hb]]; [left|left|by right]; unfold footprint; rewrite !elem_of_app; [auto|].
    right. left. rewrite Hb. by left. }
  intros x. unfold footprint at 1. rewrite !elem_of_app. intros [Hx|[Hx|Hx]].
  - apply Hacc. rewrite (ps_owned' _ _ _ _ _ _ _ Hst), elem_of_app in Hx. destruct Hx as [Hx|Hx].
    + right. right. by apply Hst.
    + left. rewrite (ps_owned _ _ _ _ _ _ _ Hst). apply elem_of_app. by right.
  - apply Hacc, Ha. destruct (alloc_block p'); [by apply list_elem_of_singleton in Hx as ->|by apply elem_of_nil in Hx].
  - assert (Hold : x ∈ map r_block rs -> x ∈ footprint p rs)
      by (intros Hin; unfold footprint; rewrite !elem_of_app; auto).
    destruct r as [[b off]|]; cbn in Hx; [|auto].
    apply elem_of_cons in Hx as [->|Hx]; [by eapply Hacc, Hr|auto].
Qed.

Lemma zlen_snoc {A} (l : list A) x : zlen (l ++ [x]) = zlen l + 1.
Proof. rewrite zlen_app, zlen_cons, zlen_nil. lia. Qed.

Lemma bl_wf_snoc x a b : bl_wf x -> bl_wf (mk_bl (num_blocks x + 1) (Some a) (blocks x ++ [b])).
Proof. intros [Hn _]. split; [|done]. cbn. by rewrite zlen_snoc, Hn. Qed.

(** After calloc and record: the list [x] has a fresh array and, at its end,
    a fresh block. *)
Lemma new_block_spec x size h p rs :
  pool_wf h p rs -> bl_wf x -> (forall a, blocklist x = Some a -> a ∈ arrays p) -> 0 <= size ->
  exists r h1, calloc size h = (inr r, h1) /\ pool_wf h1 p rs /\ keeps [] h h1 /\
    match r with
    | None => True
    | Some b =>
        h_live h !! b = None /\ block_size h1 b = Some size /\
        exists r2 h2, record_pool_block x b h1 = (inr r2, h2) /\ heap_wf h2 /\
          keeps (option_list (blocklist x)) h1 h2 /\
          match r2 with
          | None => keeps [] h1 h2
          | Some x' =>
              exists a, x' = mk_bl (num_blocks x + 1) (Some a) (blocks x ++ [b]) /\
                h_live h1 !! a = None /\ is_Some (h_live h2 !! a) /\ a <> b
          end
    end.
Proof.
  intros Hwf Hx Harr Hs.
  destruct (calloc_spec size h (pw_heap _ _ _ Hwf) Hs) as (r & h1 & Hc & Hw1 & Hk & _ & Hr).
  exists r, h1. pose proof (pool_wf_keeps h h1 p rs Hwf Hw1 Hk) as Hwf1.
  split_and!; [done..|]. destruct r as [b|]; [|done]. destruct (Hr b eq_refl) as [Hnone Hsome].
  split; [done|]. split; [unfold block_size; rewrite Hsome; simpl; f_equal; by apply zlen_zfill|].
  destruct (record_pool_block_spec x b h1 Hw1 Hx) as (r2 & h2 & Hrec & Hw2 & Hk2 & Hr2).
  { intros a Ha. pose proof (pw_live _ _ _ Hwf1) as Hl. rewrite Forall_forall in Hl.
    apply Hl. apply elem_of_app. left. by apply Harr. }
  exists r2, h2. split_and!; [done..|]. destruct r2 as [x'|]; [|done].
  destruct Hr2 as (a & -> & Ha & Ha'). exists a. split_and!; [done..|].
  intros ->. by rewrite Hsome in Ha.
Qed.
Lemma keeps_fresh X h h' x : keeps X h h' -> x ∉ X -> h_live h' !! x = None -> h_live h !! x = None.
Proof.
  intros Hk Hx Hn. destruct (h_live h !! x) as [m|] eqn:Em; [|done]. by rewrite (Hk _ _ Hx Em) in Hn.
Qed.
Lemma keeps_nil X h h' : keeps [] h h' -> keeps X h h'.
Proof. apply keeps_weaken. by intros b ?%elem_of_nil. Qed.

(** The pool with another list of large blocks, or of pages. *)
Definition set_large (x : amqp_pool_blocklist) (p : amqp_pool) : amqp_pool :=
  mk_pool (pagesize p) (pages p) x (next_page p) (alloc_block p) (alloc_used p).

Lemma large_step h h2 p rs a b :
  pool_wf h p rs -> heap_wf h2 -> keeps (option_list (blocklist (large_blocks p))) h h2 ->
  h_live h !! a = None -> is_Some (h_live h2 !! a) ->
  h_live h !! b = None -> is_Some (h_live h2 !! b) -> a <> b ->
  pool_step h p h2
    (set_large (mk_bl (num_blocks (large_blocks p) + 1) (Some a) (blocks (large_blocks p) ++ [b])) p)
    (option_list (blocklist (large_blocks p)))
    (option_list (blocklist (pages p)) ++ blocks (pages p) ++ blocks (large_blocks p)) [a; b].
Proof.
  intros Hwf Hw Hk Ha Ha' Hb Hb' Hab. constructor; cbn; try done; try apply Hwf.
  - intros x Hx. apply elem_of_app. by right.
  - unfold owned, arrays. solve_Permutation.
  - unfold owned, arrays. cbn. solve_Permutation.
  - repeat constructor; [by intros ?%list_elem_of_singleton|by intros ?%elem_of_nil].
  - intros x [->|[->|[]%elem_of_nil]%elem_of_cons]%elem_of_cons; done.
  - intros x [Hx|Hx]%elem_of_app; [left; apply elem_of_app; by left|].
    right. apply list_elem_of_singleton in Hx as ->. by left.
  - auto.
  - apply bl_wf_snoc, Hwf.
  - auto.
Qed.

Lemma pool_alloc_large amt p h rs :
  pool_wf h p rs -> 0 < amt ->
  exists r p' h',
    (result ← calloc amt;
     match result with
     | None => mret (None, p)
     | Some result =>
         r ← record_pool_block (large_blocks p) result;
         match r with
         | None => free (Some result);; mret (None, p)
         | Some large => mret (Some (result, 0), set_large large p)
         end
     end) h = (inr (r, p'), h') /\
    alloc_result r amt h h' p p' rs.
Proof.
  intros Hwf Hamt.
  destruct (new_block_spec (large_blocks p) amt h p rs Hwf) as (r & h1 & Hc & Hwf1 & Hk1 & Hr).
  { apply Hwf. }
  { intros a Ha. unfold arrays. rewrite Ha. apply elem_of_app. right. by left. }
  { lia. }
  rewrite (SE_bind_ok _ _ _ _ _ Hc). destruct r as [b|].
  2: { exists None, p, h1. split; [done|]. split_and!; [done|by apply keeps_nil|done|apply grows_refl]. }
  destruct Hr as (Hb & Hbs & r2 & h2 & Hrec & Hw2 & Hk2 & Hr2). rewrite (SE_bind_ok _ _ _ _ _ Hrec).
  assert (Hb1 : is_Some (h_live h1 !! b)) by (unfold block_size in Hbs; by destruct (h_live h1 !! b)).
  pose proof (fresh_not_owned _ _ _ _ Hwf Hb) as Hno. unfold owned, arrays in Hno.
  assert (Hbl : b ∉ option_list (blocklist (large_blocks p)))
    by (intros Hin; apply Hno; rewrite !elem_of_app; auto).
  destruct r2 as [x'|].
  - destruct Hr2 as (a & -> & Ha & Ha' & Hab).
    assert (Hk : keeps (option_list (blocklist (large_blocks p))) h h2)
      by (eapply keeps_trans; [by apply keeps_nil|done]).
    assert (Hah : h_live h !! a = None) by (eapply keeps_fresh; [exact Hk1|apply not_elem_of_nil|done]).
    pose proof (large_step h h2 p rs a b Hwf Hw2 Hk Hah Ha' Hb (keeps_live _ _ _ _ Hk2 Hbl Hb1) Hab) as Hst.
    eexists _, _, _. split; [reflexivity|]. split_and!; [|eapply keeps_weaken; [apply Hst|done]|done|
      apply (grows_step _ _ _ _ _ _ _ _ _ _ Hst); [cbn; right; by left|intros ? ? [= <- <-]; right; by right]].
    assert (Hwf2 : pool_wf h2 (set_large (mk_bl (num_blocks (large_blocks p) + 1) (Some a)
      (blocks (large_blocks p) ++ [b])) p) rs).
    { refine (step_wf _ _ _ _ _ _ _ _ Hwf Hst _ _ _); cbn; [apply Hwf| |].
      - intros c Hc'. destruct (pw_alloc _ _ _ Hwf c Hc') as (? & ? & ?).
        by eapply step_block.
      - intros r Hr. pose proof (pw_regions _ _ _ Hwf) as Hf. rewrite Forall_forall in Hf. by apply Hf. }
    apply pool_wf_cons; [done| |exact (fresh_disjoint _ _ _ _ _ _ Hwf Hb)].
    split; [|split; [|split]]; cbn.
    + exists amt. split; [exact (keeps_size _ _ _ _ _ Hk2 Hbl Hbs)|]. split_and!; lia || done.
    + intros [Hin|Hin%list_elem_of_singleton]%elem_of_app; [|by subst].
      apply Hno. rewrite !elem_of_app. auto.
    + intros Hin. apply Hno. rewrite !elem_of_app. right. left.
      apply (subseteq_drop (Z.to_nat (next_page p)) _ _ Hin).
    + intros Heq. destruct (pw_alloc _ _ _ Hwf b Heq) as (Hs & _). unfold block_size in Hs. by rewrite Hb in Hs.
  - destruct (free_spec b h2 (keeps_live _ _ _ _ Hr2 (not_elem_of_nil _) Hb1)) as (h3 & Hf & Hh3).
    rewrite (SE_bind_ok _ _ _ _ _ Hf). eexists _, _, _. split; [reflexivity|].
    assert (Hk : keeps [] h h3).
    { intros x m Hx Hm. rewrite Hh3. cbn. rewrite lookup_delete_ne by (intros <-; by rewrite Hb in Hm).
      apply Hr2; [done|]. by apply Hk1. }
    split_and!; [|by apply keeps_nil|done|apply grows_refl]. eapply pool_wf_keeps; [exact Hwf| |done].
    intros x Hx. rewrite Hh3 in *. cbn in *. apply Hw2. destruct Hx as [m [_ Hm]%lookup_delete_Some]. eauto.
Qed.
(** The pool filling the page [b] up to [used], its pages kept. *)
Definition set_page (np : Z) (b : option nat) (used : Z) (p : amqp_pool) : amqp_pool :=
  mk_pool (pagesize p) (pages p) (large_blocks p) np b used.

Lemma set_page_step h h' p rs np b used :
  pool_wf h p rs -> heap_wf h' -> keeps [] h h' -> next_page p <= np <= num_blocks (pages p) ->
  pool_step h p h' (set_page np b used p) [] (owned p) [].
Proof.
  intros Hwf Hw Hk Hnp. constructor; cbn; try done; try apply Hwf.
  - by intros x ?%elem_of_nil.
  - constructor.
  - by intros x ?%elem_of_nil.
  - auto.
  - intros x Hx. left. unfold spare in *. cbn in Hx.
    replace (Z.to_nat np) with (Z.to_nat (next_page p) + Z.to_nat (np - next_page p))%nat in Hx
      by (pose proof (pw_next _ _ _ Hwf); lia).
    rewrite <- drop_drop in Hx. by eapply subseteq_drop.
  - auto.
  - pose proof (pw_next _ _ _ Hwf). lia.
Qed.

(** Filling a page on which nothing is in use: a fresh one, or a spare one. *)
Lemma pool_wf_fill h p rs b used np :
  pool_wf h p rs -> next_page p <= np <= num_blocks (pages p) -> 0 <= used <= pagesize p -> used mod 8 = 0 ->
  block_size h b = Some (pagesize p) -> b ∉ arrays p -> b ∉ spare (set_page np (Some b) used p) ->
  (forall r, r ∈ rs -> r_block r <> b) ->
  pool_wf h (set_page np (Some b) used p) rs.
Proof.
  intros Hwf Hnp Hu Hu8 Hs Ha Hsp Hr.
  pose proof (set_page_step h h p rs np (Some b) used Hwf (pw_heap _ _ _ Hwf) (keeps_refl _ _) Hnp) as Hst.
  refine (step_wf _ _ _ _ _ _ _ _ Hwf Hst _ _ _); cbn; [done| |].
  - by intros ? [= <-].
  - intros r Hin [= Heq]. by destruct (Hr r Hin).
Qed.

(** Its first part is then in use. *)
Lemma pool_wf_first h p rs b used :
  pool_wf h p rs -> alloc_block p = Some b -> alloc_used p = used -> 0 < used ->
  (forall r, r ∈ rs -> r_block r <> b) -> pool_wf h p (mk_region b 0 used :: rs).
Proof.
  intros Hwf Hb Hu Hpos Hr. destruct (pw_alloc _ _ _ Hwf b Hb) as (Hs & Ha & Hsp).
  pose proof (pw_used _ _ _ Hwf) as [Hle _].
  apply pool_wf_cons; [done| |].
  - split; [exists (pagesize p); cbn; split_and!; lia || done|]. split_and!; [done..|]. cbn. lia.
  - intros s Hin. left. intros Heq. by destruct (Hr s Hin).
Qed.

Lemma regions_not_fresh h p rs b : pool_wf h p rs -> h_live h !! b = None -> forall r, r ∈ rs -> r_block r <> b.
Proof.
  intros Hwf Hb r Hr Heq. pose proof (pw_regions _ _ _ Hwf) as Hf. rewrite Forall_forall in Hf.
  destruct (Hf r Hr) as ((n & Hs & _) & _). unfold block_size in Hs. by rewrite Heq, Hb in Hs.
Qed.
Lemma regions_not_spare h p rs b : pool_wf h p rs -> b ∈ spare p -> forall r, r ∈ rs -> r_block r <> b.
Proof.
  intros Hwf Hb r Hr Heq. pose proof (pw_regions _ _ _ Hwf) as Hf. rewrite Forall_forall in Hf.
  destruct (Hf r Hr) as (_ & _ & Hs & _). by rewrite Heq in Hs.
Qed.

(** Room in the page that is being filled. *)
Lemma pool_alloc_current amt p h rs b :
  pool_wf h p rs -> alloc_block p = Some b -> 0 < amt -> amt mod 8 = 0 -> alloc_used p + amt <= pagesize p ->
  pool_wf h (set_page (next_page p) (Some b) (alloc_used p + amt) p)
    (mk_region b (alloc_used p) amt :: rs).
Proof.
  intros Hwf Hb Hamt H8 Hfit. destruct (pw_alloc _ _ _ Hwf b Hb) as (Hs & Ha & Hsp).
  pose proof (pw_used _ _ _ Hwf) as [Hle Hu8]. pose proof (pw_next _ _ _ Hwf) as Hn.
  pose proof (pw_regions _ _ _ Hwf) as Hf. rewrite Forall_forall in Hf.
  pose proof (set_page_step h h p rs (next_page p) (Some b) (alloc_used p + amt) Hwf
    (pw_heap _ _ _ Hwf) (keeps_refl _ _) ltac:(lia)) as Hst.
  assert (Hin : forall r, r ∈ rs -> r_block r = b -> r_off r + r_len r <= alloc_used p).
  { intros r Hr Heq. apply (Hf r Hr). by rewrite Heq. }
  apply pool_wf_cons.
  - refine (step_wf _ _ _ _ _ _ _ _ Hwf Hst _ _ _); cbn.
    + split; [lia|]. by rewrite Z.add_mod, Hu8, H8 by lia.
    + intros c [= <-]. done.
    + intros r Hr [= Heq]. specialize (Hin r Hr (eq_sym Heq)). lia.
  - split; [exists (pagesize p); cbn; split_and!; lia || done|]. cbn. split_and!; done || lia.
  - intros s Hsin. destruct (decide (r_block s = b)) as [Heq|Hne]; [|left; cbn; congruence].
    right. right. cbn. by apply Hin.
Qed.
(** The pool with a page more, and no page being filled. *)
Definition add_page (x : amqp_pool_blocklist) (p : amqp_pool) : amqp_pool :=
  mk_pool (pagesize p) x (large_blocks p) (num_blocks x) None (alloc_used p).

Lemma add_page_spare h p rs a b :
  pool_wf h p rs ->
  spare (add_page (mk_bl (num_blocks (pages p) + 1) (Some a) (blocks (pages p) ++ [b])) p) = [].
Proof.
  intros Hwf. destruct (pw_pages _ _ _ Hwf) as [Hnum _].
  unfold spare. cbn. apply drop_ge. rewrite length_app. cbn. rewrite Hnum. unfold zlen. lia.
Qed.
Lemma add_page_step h h2 p rs a b :
  pool_wf h p rs -> heap_wf h2 -> keeps (option_list (blocklist (pages p))) h h2 ->
  h_live h !! a = None -> is_Some (h_live h2 !! a) ->
  h_live h !! b = None -> block_size h2 b = Some (pagesize p) -> a <> b ->
  pool_step h p h2 (add_page (mk_bl (num_blocks (pages p) + 1) (Some a) (blocks (pages p) ++ [b])) p)
    (option_list (blocklist (pages p)))
    (option_list (blocklist (large_blocks p)) ++ blocks (pages p) ++ blocks (large_blocks p)) [a; b].
Proof.
  intros Hwf Hw Hk Ha Ha' Hb Hb' Hab. constructor; cbn; try done; try apply Hwf.
  - intros x Hx. apply elem_of_app. by left.
  - unfold owned, arrays. solve_Permutation.
  - unfold owned, arrays. cbn. solve_Permutation.
  - repeat constructor; [by intros ?%list_elem_of_singleton|by intros ?%elem_of_nil].
  - intros x [->|[->|[]%elem_of_nil]%elem_of_cons]%elem_of_cons; [done|]. split; [done|].
    unfold block_size in Hb'. by destruct (h_live h2 !! b).
  - intros x [->|Hx]%elem_of_cons; [right; by left|]. left. apply elem_of_app. by right.
  - rewrite (add_page_spare h p rs a b Hwf). by intros x ?%elem_of_nil.
  - apply bl_wf_snoc, Hwf.
  - intros x [Hx|Hx%list_elem_of_singleton]%elem_of_app; [by left|]. right. by subst.
  - destruct (pw_pages _ _ _ Hwf) as [-> _]. zlen_facts. lia.
Qed.
Lemma add_page_wf h h2 p rs a b :
  pool_wf h p rs -> h_live h !! b = None -> a <> b ->
  let p' := add_page (mk_bl (num_blocks (pages p) + 1) (Some a) (blocks (pages p) ++ [b])) p in
  pool_step h p h2 p' (option_list (blocklist (pages p)))
    (option_list (blocklist (large_blocks p)) ++ blocks (pages p) ++ blocks (large_blocks p)) [a; b] ->
  pool_wf h2 p' rs /\ (b ∉ arrays p').
Proof.
  intros Hwf Hb Hab p' Hst. split.
  - refine (step_wf _ _ _ _ _ _ _ _ Hwf Hst _ _ _); cbn; [apply Hwf|done|done].
  - pose proof (fresh_not_owned _ _ _ _ Hwf Hb) as Hno. unfold owned, arrays in Hno. rewrite !elem_of_app in Hno.
    unfold arrays. cbn. intros [->|Hx]%elem_of_cons; [done|]. apply Hno. auto.
Qed.

Lemma pool_alloc_new_page amt p h rs :
  pool_wf h p rs -> 0 < amt <= pagesize p -> amt mod 8 = 0 ->
  exists r p' h',
    (page ← calloc (pagesize p);
     match page with
     | None => mret (None, set_page (next_page p) None (alloc_used p) p)
     | Some page =>
         r ← record_pool_block (pages p) page;
         match r with
         | None => mret (None, set_page (next_page p) (Some page) (alloc_used p) p)
         | Some pgs => mret (Some (page, 0), set_page (num_blocks pgs) (Some page) amt (add_page pgs p))
         end
     end) h = (inr (r, p'), h') /\
    alloc_result r amt h h' p p' rs.
Proof.
  intros Hwf Hamt H8. pose proof (pw_pagesize _ _ _ Hwf) as Hps. pose proof (pw_next _ _ _ Hwf) as Hn.
  pose proof (pw_used _ _ _ Hwf) as [Hu Hu8].
  assert (Hsub : forall x, x ∈ option_list (blocklist (pages p)) -> x ∈ arrays p)
    by (intros x Hx; apply elem_of_app; by left).
  destruct (new_block_spec (pages p) (pagesize p) h p rs Hwf) as (r & h1 & Hc & Hwf1 & Hk1 & Hr).
  { apply Hwf. } { intros a Ha. apply Hsub. rewrite Ha. by left. } { lia. }
  rewrite (SE_bind_ok _ _ _ _ _ Hc). destruct r as [b|].
  2: { eexists _, _, _. split; [reflexivity|]. split_and!; [|by apply keeps_nil|done|
         by apply (grows_step _ _ _ _ _ _ _ _ None 0 (set_page_step h h p rs (next_page p) None (alloc_used p) Hwf
           (pw_heap _ _ _ Hwf) (keeps_refl _ _) ltac:(lia)))].
       pose proof (set_page_step h1 h1 p rs (next_page p) None (alloc_used p) Hwf1
         (pw_heap _ _ _ Hwf1) (keeps_refl _ _) ltac:(lia)) as Hst.
       by refine (step_wf _ _ _ _ _ _ _ _ Hwf1 Hst _ _ _). }
  destruct Hr as (Hb & Hbs & r2 & h2 & Hrec & Hw2 & Hk2 & Hr2). rewrite (SE_bind_ok _ _ _ _ _ Hrec).
  pose proof (fresh_not_owned _ _ _ _ Hwf Hb) as Hno. unfold owned in Hno. rewrite !elem_of_app in Hno.
  assert (Hbs2 : block_size h2 b = Some (pagesize p))
    by (eapply keeps_size; [exact Hk2|intros Hx; apply Hno; left; by apply Hsub|done]).
  pose proof (regions_not_fresh _ _ _ _ Hwf Hb) as Hrb.
  destruct r2 as [x'|]; eexists _, _, _; (split; [reflexivity|]).
  - destruct Hr2 as (a & -> & Ha & Ha' & Hab).
    assert (Hk : keeps (option_list (blocklist (pages p))) h h2)
      by (eapply keeps_trans; [by apply keeps_nil|done]).
    assert (Hah : h_live h !! a = None) by (eapply keeps_fresh; [exact Hk1|apply not_elem_of_nil|done]).
    pose proof (add_page_step h h2 p rs a b Hwf Hw2 Hk Hah Ha' Hb Hbs2 Hab) as Hst.
    destruct (add_page_wf h h2 p rs a b Hwf Hb Hab Hst) as (Hwf' & Harr).
    pose proof (add_page_spare h p rs a b Hwf) as Hsp.
    split_and!; [|by eapply keeps_weaken|done|].
    2: { intros x Hx. apply (grows_step _ _ _ _ _ _ _ rs (Some (b, 0)) amt Hst); [done| |].
         - intros ? ? [= <- <-]. right. by right.
         - unfold footprint in *. rewrite !elem_of_app in Hx. rewrite !elem_of_app.
           destruct Hx as [Hx|[->%list_elem_of_singleton|Hx]]; [by left|right; right; by left|by right; right]. }
    cbn [regions_after]. apply pool_wf_first; cbn; [|done|done|lia|done].
    apply pool_wf_fill; [done|cbn; lia|cbn; lia|done|done|done| |done].
    unfold spare in *. cbn in *. rewrite Hsp. apply not_elem_of_nil.
  - assert (Hk : keeps [] h h2) by (by eapply keeps_trans).
    pose proof (pool_wf_keeps _ _ _ _ Hwf Hw2 Hk) as Hwf2. split_and!; [|by apply keeps_nil|done|].
    2: { apply (grows_step _ _ _ _ _ _ _ _ None 0 (set_page_step h h2 p rs (next_page p) (Some b) (alloc_used p)
           Hwf Hw2 Hk ltac:(lia))); [|done]. intros ? [= <-]. right. by right. }
    apply pool_wf_fill; [done|lia|done|done|done|auto| |done].
    intros Hx. apply Hno. right. left. unfold spare in Hx. cbn in Hx. by eapply subseteq_drop.
Qed.

Lemma pool_alloc_reuse amt p h rs page :
  pool_wf h p rs -> 0 < amt <= pagesize p -> amt mod 8 = 0 -> next_page p < num_blocks (pages p) ->
  blocks (pages p) !! Z.to_nat (next_page p) = Some page ->
  pool_wf h (set_page (next_page p + 1) (Some page) amt p) (mk_region page 0 amt :: rs).
Proof.
  intros Hwf Hamt H8 Hlt Hpg. pose proof (pw_next _ _ _ Hwf) as Hn.
  assert (Hin : page ∈ blocks (pages p)) by (by eapply list_elem_of_lookup_2).
  assert (Hd : spare p = page :: spare (set_page (next_page p + 1) (Some page) amt p)).
  { unfold spare. cbn. rewrite (drop_S _ _ _ Hpg). do 2 f_equal. lia. }
  assert (Hnd : NoDup (spare p)).
  { pose proof (pw_nodup _ _ _ Hwf) as Hx. unfold owned in Hx. rewrite !NoDup_app in Hx.
    destruct Hx as (_ & _ & Hx & _). 
    rewrite <- (take_drop (Z.to_nat (next_page p))) in Hx. by apply NoDup_app in Hx as (_ & _ & ?). }
  rewrite Hd in Hnd. apply NoDup_cons in Hnd as [Hnot _].
  assert (Hsp : forall r, r ∈ rs -> r_block r <> page)
    by (apply (regions_not_spare h p rs); [done|rewrite Hd; by left]).
  apply pool_wf_first; cbn; [|done|done|lia|done].
  apply pool_wf_fill; [done|lia|lia|done| |by eapply page_not_array|done|done].
  pose proof (pw_page_size _ _ _ Hwf) as Hf. rewrite Forall_forall in Hf. auto.
Qed.
(** amqp_pool_alloc never faults; what it hands out is aligned, inside a live
    block and apart from everything in use, and it touches no contents. *)
Lemma pool_alloc_spec amount p h rs :
  pool_wf h p rs -> 0 <= amount < 2 ^ 62 ->
  exists r p' h', amqp_pool_alloc amount p h = (inr (r, p'), h') /\
    alloc_result r (round8 amount) h h' p p' rs.
Proof.
  intros Hwf Hamount. unfold amqp_pool_alloc.
  destruct (Z.eqb_spec amount 0) as [->|Hne].
  { eexists _, _, _. split; [reflexivity|]. split_and!; [done|by intros b m|done|apply grows_refl]. }
  destruct (round8_bounds amount ltac:(lia)) as [Hr8 H8]. set (amt := round8 amount) in *. cbv zeta.
  destruct (Z.ltb_spec (pagesize p) amt) as [Hbig|Hsmall].
  { apply (pool_alloc_large amt p h rs Hwf). lia. }
  pose proof (pw_pagesize _ _ _ Hwf) as Hps. pose proof (pw_used _ _ _ Hwf) as [Hu _].
  set (np := if _ <=? _ then _ else _).
  assert (Hnp : exists r p' h', np h = (inr (r, p'), h') /\
    alloc_result r amt h h' p p' rs).
  { subst np. destruct (Z.leb_spec (num_blocks (pages p)) (next_page p)) as [Hle|Hlt].
    - apply (pool_alloc_new_page amt p h rs Hwf); [lia|done].
    - pose proof (pw_next _ _ _ Hwf) as Hn. destruct (pw_pages _ _ _ Hwf) as [Hnum _].
      destruct (lookup_lt_is_Some_2 (blocks (pages p)) (Z.to_nat (next_page p))) as [page Hpg];
        [unfold zlen in Hnum; lia|]. rewrite Hpg.
      eexists _, _, _. split; [reflexivity|]. split_and!; [|by intros b m|done|].
      2: { assert (Hin : accessible h p page) by (left; unfold owned; rewrite !elem_of_app; right; left;
             by eapply list_elem_of_lookup_2).
           apply (grows_step _ _ _ _ _ _ _ _ (Some (page, 0)) amt (set_page_step h h p rs (next_page p + 1)
             (Some page) amt Hwf (pw_heap _ _ _ Hwf) (keeps_refl _ _) ltac:(lia))); by intros; simplify_eq/=. }
      apply (pool_alloc_reuse amt p h rs page Hwf); [lia|done..]. }
  destruct (alloc_block p) as [blk|] eqn:Eb; [|done].
  rewrite (proj2 (Z.leb_le _ _)) by lia. cbn [negb]. rewrite u64_id by lia.
  destruct (Z.leb_spec (alloc_used p + amt) (pagesize p)) as [Hfit|]; [|done].
  eexists _, _, _. split; [reflexivity|]. split_and!; [|by intros b m|done|].
  2: { assert (Hin : accessible h p blk) by (right; by left). pose proof (pw_next _ _ _ Hwf).
       apply (grows_step _ _ _ _ _ _ _ _ (Some (blk, alloc_used p)) amt (set_page_step h h p rs (next_page p)
         (Some blk) (alloc_used p + amt) Hwf (pw_heap _ _ _ Hwf) (keeps_refl _ _) ltac:(lia)));
         by intros; simplify_eq/=. }
  apply (pool_alloc_current amt p h rs blk Hwf); [done|lia|done..].
Qed.

End alloc.

(** ** Giving memory back *)

(** [h'] is [h] without the blocks [bs]. *)
Definition without (bs : list nat) (h h' : heap) : Prop :=
  h_next h' = h_next h /\
  forall b, h_live h' !! b = if decide (b ∈ bs) then None else h_live h !! b.

Lemma without_wf bs h h' : heap_wf h -> without bs h h' -> heap_wf h'.
Proof.
  intros Hw [Hn Hl] b. rewrite Hl, Hn. destruct (decide (b ∈ bs)); [by intros [? ?]|apply Hw].
Qed.
Lemma without_trans bs cs h1 h2 h3 : without bs h1 h2 -> without cs h2 h3 -> without (bs ++ cs) h1 h3.
Proof.
  intros [Hn Hl] [Hn' Hl']. split; [congruence|]. intros b. rewrite Hl', Hl.
  destruct (decide (b ∈ bs ++ cs)) as [Hin|Hin]; rewrite elem_of_app in Hin;
    destruct (decide (b ∈ cs)), (decide (b ∈ bs)); tauto.
Qed.
Lemma without_keeps bs h h' : without bs h h' -> keeps bs h h'.
Proof. intros [_ Hl] b m Hb Hm. rewrite Hl, decide_False by done. done. Qed.

Lemma free_all_spec bs h :
  NoDup bs -> Forall (fun b => is_Some (h_live h !! b)) bs ->
  exists h', free_all bs h = (inr tt, h') /\ without bs h h'.
Proof.
  intros Hnd. revert h. induction Hnd as [|b bs Hb Hnd IH]; intros h Hl.
  { exists h. split; [done|]. split; [done|]. intros b. by rewrite decide_False by apply not_elem_of_nil. }
  apply Forall_cons in Hl as [Hlb Hl]. destruct (free_spec b h Hlb) as (h1 & Hf & Hh1).
  unfold free_all. cbn [mfold]. rewrite (SE_bind_ok _ _ _ _ _ Hf).
  destruct (IH h1) as (h' & Hf' & Hw').
  { rewrite Forall_forall in *. intros x Hx. rewrite Hh1. cbn.
    rewrite lookup_delete_ne by (intros <-; done). auto. }
  exists h'. split; [done|]. rewrite <- (app_nil_l (b :: bs)). change (b :: bs) with ([b] ++ bs).
  rewrite app_nil_l. eapply without_trans; [|done]. rewrite Hh1. split; [done|]. intros x. cbn.
  destruct (decide (x ∈ [b])) as [->%list_elem_of_singleton|Hx]; [by rewrite lookup_delete_eq|].
  rewrite lookup_delete_ne; [done|]. intros <-. apply Hx. by left.
Qed.

(** Emptying a list releases its blocks and its array. *)
Lemma empty_blocklist_spec x h :
  bl_wf x -> NoDup (option_list (blocklist x) ++ blocks x) ->
  Forall (fun b => is_Some (h_live h !! b)) (option_list (blocklist x) ++ blocks x) ->
  exists h', empty_blocklist x h = (inr empty_bl, h') /\
    without (option_list (blocklist x) ++ blocks x) h h'.
Proof.
  intros [Hn Hnil] Hnd Hl. unfold empty_blocklist. destruct (blocklist x) as [arr|]; cbn in *.
  - apply NoDup_cons in Hnd as [Harr Hnd]. apply Forall_cons in Hl as [Hla Hl].
    rewrite take_ge by (unfold zlen in Hn; lia).
    destruct (free_all_spec (blocks x) h Hnd Hl) as (h1 & Hf1 & Hw1). rewrite (SE_bind_ok _ _ _ _ _ Hf1).
    assert (Hla1 : Forall (fun b => is_Some (h_live h1 !! b)) [arr]).
    { constructor; [|constructor]. exact (keeps_live _ _ _ _ (without_keeps _ _ _ Hw1) Harr Hla). }
    destruct (free_all_spec [arr] h1 (NoDup_singleton _) Hla1) as (h2 & Hf2 & Hw2).
    exists h2. split.
    + unfold free_all in Hf2. cbn [mfold] in Hf2. unfold mbind, SE_bind, mret, SE_ret in *.
      destruct (free (Some arr) h1) as [[e|[]] h2']; [done|]. by injection Hf2 as ->.
    + destruct (without_trans _ _ _ _ _ Hw1 Hw2) as [Hnn Hll]. split; [done|]. intros b. rewrite Hll.
      apply decide_ext. rewrite elem_of_app, list_elem_of_singleton, elem_of_cons. tauto.
  - rewrite Hnil by done. exists h. split; [done|]. split; [done|]. intros b.
    by rewrite decide_False by apply not_elem_of_nil.
Qed.

Lemma pool_wf_parts h p rs :
  pool_wf h p rs ->
  NoDup (option_list (blocklist (large_blocks p)) ++ blocks (large_blocks p)) /\
  Forall (fun b => is_Some (h_live h !! b)) (option_list (blocklist (large_blocks p)) ++ blocks (large_blocks p)) /\
  NoDup (option_list (blocklist (pages p)) ++ blocks (pages p)) /\
  Forall (fun b => is_Some (h_live h !! b)) (option_list (blocklist (pages p)) ++ blocks (pages p)) /\
  (forall b, b ∈ option_list (blocklist (pages p)) ++ blocks (pages p) ->
     b ∉ option_list (blocklist (large_blocks p)) ++ blocks (large_blocks p)).
Proof.
  intros Hwf. pose proof (pw_nodup _ _ _ Hwf) as Hn. pose proof (pw_live _ _ _ Hwf) as Hl.
  assert (Hp : owned p ≡ₚ (option_list (blocklist (pages p)) ++ blocks (pages p)) ++
    (option_list (blocklist (large_blocks p)) ++ blocks (large_blocks p)))
    by (unfold owned, arrays; solve_Permutation).
  rewrite Hp in Hn, Hl. apply NoDup_app in Hn as (H1 & H2 & H3). apply Forall_app in Hl as [H4 H5]. auto.
Qed.

(** Recycling releases the large blocks and leaves nothing in use. *)
Lemma recycle_spec p h rs :
  pool_wf h p rs ->
  exists p' h', recycle_amqp_pool p h = (inr p', h') /\ pool_wf h' p' [] /\
    without (option_list (blocklist (large_blocks p)) ++ blocks (large_blocks p)) h h' /\
    p' = mk_pool (pagesize p) (pages p) empty_bl 0 None 0.
Proof.
  intros Hwf. destruct (pool_wf_parts _ _ _ Hwf) as (Hnl & Hll & Hnp & Hlp & Hd).
  destruct (empty_blocklist_spec _ h (pw_large _ _ _ Hwf) Hnl Hll) as (h' & He & Hw).
  eexists _, h'. unfold recycle_amqp_pool. rewrite (SE_bind_ok _ _ _ _ _ He).
  split; [reflexivity|]. split; [|done].
  assert (Hlive : forall b, b ∈ option_list (blocklist (pages p)) ++ blocks (pages p) ->
    h_live h' !! b = h_live h !! b).
  { intros b Hb. destruct Hw as [_ Hw]. rewrite Hw, decide_False; [done|auto]. }
  assert (Hown : owned (mk_pool (pagesize p) (pages p) empty_bl 0 None 0)
    = option_list (blocklist (pages p)) ++ blocks (pages p)).
  { unfold owned, arrays. cbn. by rewrite !app_nil_r. }
  constructor; rewrite ?Hown; cbn; try apply Hwf; try done.
  - eapply without_wf; [apply Hwf|done].
  - rewrite Forall_forall in *. intros b Hb. rewrite Hlive by done. auto.
  - pose proof (pw_page_size _ _ _ Hwf) as Hf. rewrite Forall_forall in *. intros b Hb.
    unfold block_size. rewrite Hlive by (apply elem_of_app; by right). by apply Hf.
  - pose proof (pw_next _ _ _ Hwf). lia.
  - pose proof (pw_pagesize _ _ _ Hwf). split; [lia|done].
Qed.

(** ** Accounting

    Apart from what the pool owns, the heap [h] is the heap [h0] the pool
    was made in. *)
Definition borrowed (h0 h : heap) (p : amqp_pool) : Prop :=
  forall b, (b ∈ owned p -> h_live h0 !! b = None) /\
            (b ∉ owned p -> h_live h !! b = h_live h0 !! b).

(** The pool gives up the live blocks [old] and takes the fresh blocks [new]. *)
Lemma borrowed_step h0 h h' p p' rs old rest new :
  pool_wf h p rs -> borrowed h0 h p ->
  owned p ≡ₚ old ++ rest -> owned p' ≡ₚ new ++ rest ->
  (forall b, b ∈ new -> h_live h !! b = None) ->
  (forall b, b ∉ new -> h_live h' !! b = if decide (b ∈ old) then None else h_live h !! b) ->
  borrowed h0 h' p'.
Proof.
  intros Hwf Hb Ho Ho' Hnew Hh b. split.
  - rewrite Ho', elem_of_app. intros [Hin|Hin]; [|apply Hb; rewrite Ho, elem_of_app; auto].
    rewrite <- (proj2 (Hb b)); [auto|]. eapply fresh_not_owned; [exact Hwf|auto].
  - rewrite Ho', elem_of_app. intros Hno. rewrite Hh by auto.
    destruct (decide (b ∈ old)) as [Hin|Hin].
    + symmetry. apply Hb. rewrite Ho, elem_of_app. auto.
    + apply Hb. rewrite Ho, elem_of_app. tauto.
Qed.

Section accounting.
Context `{HeapTotal}.

Lemma calloc_total size h :
  calloc size h = (inr (Some (h_next h)), mk_heap (S (h_next h)) (<[h_next h := zfill size]> (h_live h))).
Proof. unfold calloc. by rewrite heap_total. Qed.

(** What recording does when nothing is refused. *)
Lemma record_total x block h :
  (forall a, blocklist x = Some a -> is_Some (h_live h !! a)) ->
  exists h', record_pool_block x block h
    = (inr (Some (mk_bl (num_blocks x + 1) (Some (h_next h)) (blocks x ++ [block]))), h') /\
    forall b, b <> h_next h ->
      h_live h' !! b = if decide (b ∈ option_list (blocklist x)) then None else h_live h !! b.
Proof.
  intros Ha. unfold record_pool_block. destruct (blocklist x) as [arr|]; unfold mbind, SE_bind.
  - destruct (Ha arr eq_refl) as [old Hold]. unfold realloc. rewrite Hold, heap_total.
    eexists. split; [reflexivity|]. intros b Hb. cbn. rewrite lookup_insert_ne by done.
    destruct (decide (b ∈ [arr])) as [->%list_elem_of_singleton|Hin]; [apply lookup_delete_eq|].
    rewrite lookup_delete_ne; [done|]. intros <-. apply Hin. by left.
  - rewrite calloc_total. eexists. split; [reflexivity|]. intros b Hb. cbn.
    rewrite decide_False by apply not_elem_of_nil. by rewrite lookup_insert_ne.
Qed.

(** calloc followed by recording, as one change of the heap. *)
Lemma new_block_total x size h :
  heap_wf h -> (forall a, blocklist x = Some a -> is_Some (h_live h !! a)) ->
  exists h1 h2, calloc size h = (inr (Some (h_next h)), h1) /\
    record_pool_block x (h_next h) h1
    = (inr (Some (mk_bl (num_blocks x + 1) (Some (S (h_next h))) (blocks x ++ [h_next h]))), h2) /\
    (forall b, b ∈ [S (h_next h); h_next h] -> h_live h !! b = None) /\
    forall b, b ∉ [S (h_next h); h_next h] ->
      h_live h2 !! b = if decide (b ∈ option_list (blocklist x)) then None else h_live h !! b.
Proof.
  intros Hw Ha. rewrite calloc_total. eexists _.
  destruct (record_total x (h_next h) (mk_heap (S (h_next h)) (<[h_next h := zfill size]> (h_live h))))
    as (h2 & Hr & Hh2).
  { intros a Harr. cbn. destruct (decide (a = h_next h)) as [->|]; [rewrite lookup_insert_eq; eauto|].
    rewrite lookup_insert_ne by done. auto. }
  exists h2. split; [done|]. split; [done|]. split.
  - intros b Hb. apply eq_None_not_Some. intros Hs%Hw.
    apply elem_of_cons in Hb as [->|Hb%list_elem_of_singleton]; [lia|subst; lia].
  - intros b Hb. rewrite elem_of_cons, list_elem_of_singleton in Hb. rewrite Hh2 by (cbn; tauto).
    cbn. destruct (decide (b ∈ _)); [done|]. rewrite lookup_insert_ne by (intros <-; tauto). done.
Qed.

Lemma pool_alloc_borrowed h0 amount p h rs :
  pool_wf h p rs -> borrowed h0 h p -> 0 <= amount < 2 ^ 62 ->
  exists r p' h', amqp_pool_alloc amount p h = (inr (r, p'), h') /\ borrowed h0 h' p' /\
    (r = None -> amount = 0).
Proof.
  intros Hwf Hb Hamount. pose proof (pw_live _ _ _ Hwf) as Hl. rewrite Forall_forall in Hl.
  unfold amqp_pool_alloc. destruct (Z.eqb_spec amount 0) as [->|Hne]; [by eexists _, _, _|].
  set (amt := round8 amount). cbv zeta. destruct (pagesize p <? amt).
  { destruct (new_block_total (large_blocks p) amt h (pw_heap _ _ _ Hwf)) as (h1 & h2 & Hc & Hr & Hn & Hh).
    { intros a Ha. apply Hl. unfold owned, arrays. rewrite Ha, !elem_of_app. left. right. by left. }
    rewrite (SE_bind_ok _ _ _ _ _ Hc). rewrite (SE_bind_ok _ _ _ _ _ Hr).
    eexists _, _, _. split; [reflexivity|]. split; [|done].
    eapply (borrowed_step h0 h h2 p _ rs _
      (option_list (blocklist (pages p)) ++ blocks (pages p) ++ blocks (large_blocks p)) _ Hwf Hb);
      [| |exact Hn|exact Hh]; unfold owned, arrays; cbn; solve_Permutation. }
  set (np := if _ <=? _ then _ else _).
  assert (Hnp : exists r p' h', np h = (inr (r, p'), h') /\ borrowed h0 h' p' /\ (r = None -> amount = 0)).
  { subst np. destruct (Z.leb_spec (num_blocks (pages p)) (next_page p)) as [Hle|Hlt].
    - destruct (new_block_total (pages p) (pagesize p) h (pw_heap _ _ _ Hwf)) as (h1 & h2 & Hc & Hr & Hn & Hh).
      { intros a Ha. apply Hl. unfold owned, arrays. rewrite Ha, !elem_of_app. left. left. by left. }
      rewrite (SE_bind_ok _ _ _ _ _ Hc). rewrite (SE_bind_ok _ _ _ _ _ Hr).
      eexists _, _, _. split; [reflexivity|]. split; [|done].
      eapply (borrowed_step h0 h h2 p _ rs _
        (option_list (blocklist (large_blocks p)) ++ blocks (pages p) ++ blocks (large_blocks p)) _ Hwf Hb);
        [| |exact Hn|exact Hh]; unfold owned, arrays; cbn; solve_Permutation.
    - pose proof (pw_next _ _ _ Hwf) as Hn. destruct (pw_pages _ _ _ Hwf) as [Hnum _].
      destruct (lookup_lt_is_Some_2 (blocks (pages p)) (Z.to_nat (next_page p))) as [page ->];
        [unfold zlen in Hnum; lia|]. by eexists _, _, _. }
  destruct (alloc_block p) as [blk|]; [|done]. pose proof (pw_used _ _ _ Hwf) as [Hu _].
  rewrite (proj2 (Z.leb_le _ _)) by lia. cbn [negb]. destruct (u64 (alloc_used p + amt) <=? pagesize p); [|done]. by eexists _, _, _.
Qed.
End accounting.

Lemma recycle_borrowed h0 p h rs :
  pool_wf h p rs -> borrowed h0 h p ->
  exists p' h', recycle_amqp_pool p h = (inr p', h') /\ pool_wf h' p' [] /\ borrowed h0 h' p'.
Proof.
  intros Hwf Hb. destruct (recycle_spec p h rs Hwf) as (p' & h' & Hr & Hwf' & [_ Hw] & Hp').
  exists p', h'. split_and!; [done..|].
  eapply (borrowed_step h0 h h' p p' rs _ (option_list (blocklist (pages p)) ++ blocks (pages p)) [] Hwf Hb);
    [| | |intros b _; exact (Hw b)].
  - unfold owned, arrays. solve_Permutation.
  - rewrite Hp'. unfold owned, arrays. cbn. by rewrite !app_nil_r.
  - by intros b ?%elem_of_nil.
Qed.

Lemma empty_pool_borrowed h0 p h rs :
  pool_wf h p rs -> borrowed h0 h p ->
  exists p' h', empty_amqp_pool p h = (inr p', h') /\ h_live h' = h_live h0.
Proof.
  intros Hwf Hb. destruct (recycle_borrowed h0 p h rs Hwf Hb) as (p1 & h1 & Hr & Hwf1 & Hb1).
  destruct (recycle_spec p h rs Hwf) as (p1' & h1' & Hr' & _ & _ & Hp1).
  assert (p1' = p1) as -> by (rewrite Hr in Hr'; by simplify_eq).
  destruct (pool_wf_parts _ _ _ Hwf1) as (_ & _ & Hnp & Hlp & _).
  destruct (empty_blocklist_spec _ h1 (pw_pages _ _ _ Hwf1) Hnp Hlp) as (h2 & He & [_ Hw]).
  eexists _, h2. unfold empty_amqp_pool. rewrite (SE_bind_ok _ _ _ _ _ Hr), (SE_bind_ok _ _ _ _ _ He).
  split; [reflexivity|]. apply map_eq. intros b. rewrite Hw.
  assert (Hown : owned p1 = option_list (blocklist (pages p1)) ++ blocks (pages p1)).
  { rewrite Hp1. unfold owned, arrays. cbn. by rewrite !app_nil_r. }
  rewrite <- Hown. destruct (decide (b ∈ owned p1)) as [Hin|Hin]; [symmetry|]; by apply Hb1.
Qed.

(** ** Blocks of others *)

(** Every block of the footprint is live. *)
Lemma footprint_live h p rs b : pool_wf h p rs -> b ∈ footprint p rs -> is_Some (h_live h !! b).
Proof.
  intros Hwf. unfold footprint. rewrite !elem_of_app. intros [Hb|[Hb|Hb]].
  - pose proof (pw_live _ _ _ Hwf) as Hl. rewrite Forall_forall in Hl. auto.
  - destruct (alloc_block p) as [c|] eqn:Ec; [|by apply elem_of_nil in Hb].
    apply list_elem_of_singleton in Hb as ->. destruct (pw_alloc _ _ _ Hwf c Ec) as (Hs & _).
    unfold block_size in Hs. by destruct (h_live h !! c).
  - apply list_elem_of_fmap in Hb as (r & -> & Hr). pose proof (pw_regions _ _ _ Hwf) as Hf.
    rewrite Forall_forall in Hf. destruct (Hf r Hr) as ((n & Hs & _) & _). unfold block_size in Hs.
    by destruct (h_live h !! r_block r).
Qed.

(** A pool does not see what happens to blocks outside its footprint. *)
Lemma pool_wf_foreign X h h' p rs :
  pool_wf h p rs -> heap_wf h' -> keeps X h h' -> (forall b, b ∈ X -> b ∉ footprint p rs) -> pool_wf h' p rs.
Proof.
  intros Hwf Hw Hk HX.
  assert (Hsame : forall b, b ∈ footprint p rs -> b ∉ X) by (intros b Hb Hx; by eapply HX).
  assert (Hsz : forall b n, b ∈ footprint p rs -> block_size h b = Some n -> block_size h' b = Some n)
    by (intros b n Hb; apply (keeps_size X); auto).
  assert (Hown : forall b, b ∈ owned p -> b ∈ footprint p rs) by (intros; unfold footprint; rewrite !elem_of_app; auto).
  constructor; try apply Hwf; try done.
  - pose proof (pw_live _ _ _ Hwf) as Hl. rewrite Forall_forall in *. intros b Hb.
    eapply keeps_live; [exact Hk|auto|auto].
  - pose proof (pw_page_size _ _ _ Hwf) as Hp. rewrite Forall_forall in *. intros b Hb.
    apply Hsz; [|auto]. apply Hown. unfold owned. rewrite !elem_of_app. auto.
  - intros b Hb. destruct (pw_alloc _ _ _ Hwf b Hb) as (Hs & Ha & Hp). split; [|done].
    apply Hsz; [|done]. unfold footprint. rewrite Hb, !elem_of_app. right. left. by left.
  - pose proof (pw_regions _ _ _ Hwf) as Hr. rewrite Forall_forall in *. intros r Hin.
    destruct (Hr r Hin) as ((n & Hs & Hx) & Hy). split; [|done]. exists n. split; [|done].
    apply Hsz; [|done]. unfold footprint. rewrite !elem_of_app. right. right.
    apply list_elem_of_fmap. eauto.
Qed.

Lemma heap_realloc_spec `{Heap} b size h :
  heap_wf h -> is_Some (h_live h !! b) ->
  exists r h', realloc b size h = (inr r, h') /\ heap_wf h' /\ keeps [b] h h' /\
    match r with
    | Some c => h_live h !! c = None /\ is_Some (h_live h' !! c)
    | None => h_live h' = h_live h
    end.
Proof.
  intros Hw [old Hold]. pose proof (heap_wf_fresh _ Hw) as Hf. unfold realloc. rewrite Hold.
  destruct (heap_grants _ size); eexists _, _; (split; [reflexivity|]); cbn.
  - split_and!.
    + intros c. cbn. destruct (decide (c = h_next h)) as [->|]; [lia|].
      rewrite lookup_insert_ne by done. intros [m [_ Hb]%lookup_delete_Some].
      assert (c < h_next h)%nat by (apply Hw; eauto). lia.
    + intros c m Hc Hm. cbn. rewrite lookup_insert_ne by (intros <-; by rewrite Hf in Hm).
      rewrite lookup_delete_ne; [done|]. intros <-. apply Hc. by left.
    + done.
    + rewrite lookup_insert_eq. eauto.
  - split_and!; [|by intros c m|done]. intros c Hc%Hw. cbn. lia.
Qed.

(** ** Histories of a pool *)

Inductive pool_op := PoolAlloc (amount : Z) | PoolRecycle.
Definition pool_op_ok (o : pool_op) : Prop :=
  match o with PoolAlloc n => 0 <= n < 2 ^ 62 | PoolRecycle => True end.

(** Runs the operations and lists the regions handed out since the last
    recycling, the latest first. *)
Fixpoint run_pool `{Heap} (ops : list pool_op) (p : amqp_pool) (rs : list region)
    : SE heap fault (amqp_pool * list region) :=
  match ops with
  | [] => mret (p, rs)
  | PoolAlloc n :: ops' =>
      '(r, p') ← amqp_pool_alloc n p;
      run_pool ops' p'
        (match r with Some (b, off) => mk_region b off (round8 n) :: rs | None => rs end)
  | PoolRecycle :: ops' => p' ← recycle_amqp_pool p; run_pool ops' p' []
  end.

Lemma run_pool_wf `{Heap} ops p rs h :
  pool_wf h p rs -> Forall pool_op_ok ops ->
  exists p' rs' h', run_pool ops p rs h = (inr (p', rs'), h') /\ pool_wf h' p' rs'.
Proof.
  intros Hwf Hops. revert p rs h Hwf. induction Hops as [|o ops Ho _ IH]; intros p rs h Hwf.
  { by eexists _, _, _. }
  destruct o as [n|]; cbn [run_pool].
  - destruct (pool_alloc_spec n p h rs Hwf Ho) as (r & p' & h' & Ha & Hr & _).
    rewrite (SE_bind_ok _ _ _ _ _ Ha). apply IH. by destruct r as [[b off]|].
  - destruct (recycle_spec p h rs Hwf) as (p' & h' & Hr & Hwf' & _).
    rewrite (SE_bind_ok _ _ _ _ _ Hr). by apply IH.
Qed.

Lemma run_pool_borrowed `{HeapTotal} h0 ops p rs h :
  pool_wf h p rs -> borrowed h0 h p -> Forall pool_op_ok ops ->
  exists p' rs' h', run_pool ops p rs h = (inr (p', rs'), h') /\ pool_wf h' p' rs' /\ borrowed h0 h' p'.
Proof.
  intros Hwf Hb Hops. revert p rs h Hwf Hb. induction Hops as [|o ops Ho _ IH]; intros p rs h Hwf Hb.
  { by eexists _, _, _. }
  destruct o as [n|]; cbn [run_pool].
  - destruct (pool_alloc_spec n p h rs Hwf Ho) as (r & p' & h' & Ha & Hr & _).
    destruct (pool_alloc_borrowed h0 n p h rs Hwf Hb Ho) as (r2 & p2 & h2 & Ha2 & Hb2 & _).
    rewrite Ha in Ha2. injection Ha2 as <- <- <-.
    rewrite (SE_bind_ok _ _ _ _ _ Ha). apply IH; [|done]. by destruct r as [[b off]|].
  - destruct (recycle_borrowed h0 p h rs Hwf Hb) as (p' & h' & Hr & Hwf' & Hb').
    rewrite (SE_bind_ok _ _ _ _ _ Hr). by apply IH.
Qed.

Lemma init_pool_wf ps h : heap_wf h -> 0 <= ps < 2 ^ 62 -> pool_wf h (init_amqp_pool ps) [].
Proof.
  intros Hw Hps. assert (Hp : 0 < pagesize (init_amqp_pool ps) < 2 ^ 62).
  { cbn. unfold truthy. destruct (Z.eqb_spec ps 0); cbn; lia. }
  constructor; try done; try (by constructor); cbn in *; split; done || lia.
Qed.
Lemma init_pool_borrowed ps h : borrowed h h (init_amqp_pool ps).
Proof. intros b. by split; [intros ?%elem_of_nil|]. Qed.

(** ** Properties *)

(** Whatever the system refuses, a pool never breaks a rule of C: no
    operation faults, and the regions handed out since the last recycling lie
    aligned inside live blocks and never overlap. *)
Theorem pool_regions_disjoint `{Heap} (ps : Z) (ops : list pool_op) (h : heap) :
  heap_wf h -> 0 <= ps < 2 ^ 62 -> Forall pool_op_ok ops ->
  exists p' rs' h', run_pool ops (init_amqp_pool ps) [] h = (inr (p', rs'), h') /\
    (forall r, r ∈ rs' -> exists m, h_live h' !! r_block r = Some m /\
       0 <= r_off r /\ r_off r mod 8 = 0 /\ r_off r + r_len r <= zlen m) /\
    (forall i j r s, i <> j -> rs' !! i = Some r -> rs' !! j = Some s ->
       r_block r <> r_block s \/ r_off r + r_len r <= r_off s \/ r_off s + r_len s <= r_off r).
Proof.
  intros Hw Hps Hops.
  destruct (run_pool_wf ops _ [] h (init_pool_wf ps h Hw Hps) Hops) as (p' & rs' & h' & Hr & Hwf).
  exists p', rs', h'. split_and!; [done| |apply Hwf].
  intros r Hin. pose proof (pw_regions _ _ _ Hwf) as Hf. rewrite Forall_forall in Hf.
  destruct (Hf r Hin) as ((n & Hs & Hb) & _). unfold block_size in Hs.
  destruct (h_live h' !! r_block r) as [m|] eqn:Em; [|done]. exists m. injection Hs as Hs.
  split; [done|]. rewrite Hs. tauto.
Qed.

(** As long as the system refuses nothing, emptying a pool gives back every
    block it ever took: the heap is again the one the pool was made in. *)
Theorem empty_pool_releases_all `{Heap} `{!HeapTotal} (ps : Z) (ops : list pool_op) (h : heap) :
  heap_wf h -> 0 <= ps < 2 ^ 62 -> Forall pool_op_ok ops ->
  exists p' p'' rs' h' h'', run_pool ops (init_amqp_pool ps) [] h = (inr (p', rs'), h') /\
    empty_amqp_pool p' h' = (inr p'', h'') /\ h_live h'' = h_live h.
Proof.
  intros Hw Hps Hops.
  destruct (run_pool_borrowed h ops _ [] h (init_pool_wf ps h Hw Hps) (init_pool_borrowed ps h) Hops)
    as (p' & rs' & h' & Hr & Hwf & Hb).
  destruct (empty_pool_borrowed h p' h' rs' Hwf Hb) as (p'' & h'' & He & Hl).
  by exists p', p'', rs', h', h''.
Qed.

Definition demo_pool_ops : list pool_op :=
  [PoolAlloc 10; PoolAlloc 5000; PoolAlloc 4090; PoolRecycle; PoolAlloc 0; PoolAlloc 100].
Lemma demo_pool_ops_ok : Forall pool_op_ok demo_pool_ops.
Proof. repeat (apply List.Forall_cons; [vm_compute; intuition discriminate|]). apply List.Forall_nil. Qed.
Definition empty_heap : heap := mk_heap 0 ∅.
Lemma empty_heap_wf : heap_wf empty_heap.
Proof. intros b [m Hm]. cbn in Hm. by rewrite lookup_empty in Hm. Qed.

Lemma pool_regions_disjoint_witness :
  exists p' rs' h', @run_pool (fun n _ => negb (Nat.eqb n 2)) demo_pool_ops (init_amqp_pool 4096) [] empty_heap
    = (inr (p', rs'), h').
Proof.
  destruct (@pool_regions_disjoint (fun n _ => negb (Nat.eqb n 2)) 4096 demo_pool_ops empty_heap
    empty_heap_wf ltac:(lia) demo_pool_ops_ok) as (p' & rs' & h' & Hr & _). eauto.
Defined.

Lemma empty_pool_releases_all_witness :
  exists p' p'' rs' h' h'', @run_pool (fun _ _ => true) demo_pool_ops (init_amqp_pool 4096) [] empty_heap
    = (inr (p', rs'), h') /\ @empty_amqp_pool p' h' = (inr p'', h'') /\ h_live h'' = ∅.
Proof.
  exact (@empty_pool_releases_all (fun _ _ => true) (fun _ _ => eq_refl) 4096 demo_pool_ops empty_heap
    empty_heap_wf ltac:(lia) demo_pool_ops_ok).
Defined.

(** A page is lost when it cannot be recorded: amqp_pool_alloc returns NULL
    and keeps filling the page later, but empty_amqp_pool does not know it. *)
Theorem pool_leaks_unrecorded_page :
  exists p h p' h', @run_pool (fun n _ => negb (Nat.eqb n 1)) [PoolAlloc 10; PoolAlloc 10] (init_amqp_pool 4096) []
      empty_heap = (inr (p, [mk_region 0 0 16]), h) /\
    @empty_amqp_pool p h = (inr p', h') /\ h_live h' !! 0%nat <> None.
Proof. eexists _, _, _, _. split; [reflexivity|]. split; [reflexivity|]. vm_compute. discriminate. Qed.
