(* ===== verification/AmqpCodec.v ===== *)
(** * Integers and byte strings of AMQP: the codecs of amqp_private.h

    amqp_e8 to amqp_d64 convert between an integer and its bytes in network
    order; the machine is little-endian, as is_bigendian() finds out.  The
    amqp_encode and amqp_decode functions work at an offset of a buffer,
    which they advance even when the buffer is too short. *)

From S2P Require Import Prelude Sshbuf.

(** ** Bytes of an integer *)

(** memcpy of an integer to memory and back, least significant byte first. *)
Fixpoint le_bytes (n : nat) (v : Z) : list Z :=
  match n with O => [] | S n' => v mod 256 :: le_bytes n' (v / 256) end.
Fixpoint le_val (l : list Z) : Z :=
  match l with [] => 0 | b :: l' => b + 256 * le_val l' end.

Definition bswap16 (val : Z) : Z :=
  u16 (Z.lor (Z.shiftr (Z.land val 0xFF00) 8) (Z.shiftl (Z.land val 0x00FF) 8)).
Definition bswap32 (val : Z) : Z :=
  u32 (Z.lor (Z.lor (Z.lor (Z.shiftr (Z.land val 0xFF000000) 24) (Z.shiftr (Z.land val 0x00FF0000) 8))
    (Z.shiftl (Z.land val 0x0000FF00) 8)) (Z.shiftl (Z.land val 0x000000FF) 24)).
Definition bswap64 (val : Z) : Z :=
  u64 (Z.lor (Z.lor (Z.lor (Z.lor (Z.lor (Z.lor (Z.lor
    (Z.shiftr (Z.land val 0xFF00000000000000) 56)
    (Z.shiftr (Z.land val 0x00FF000000000000) 40))
    (Z.shiftr (Z.land val 0x0000FF0000000000) 24))
    (Z.shiftr (Z.land val 0x000000FF00000000) 8))
    (Z.shiftl (Z.land val 0x00000000FF000000) 8))
    (Z.shiftl (Z.land val 0x0000000000FF0000) 24))
    (Z.shiftl (Z.land val 0x000000000000FF00) 40))
    (Z.shiftl (Z.land val 0x00000000000000FF) 56)).

Definition amqp_e8 (val : Z) : list Z := [u8 val].
Definition amqp_e16 (val : Z) : list Z := le_bytes 2 (bswap16 (u16 val)).
Definition amqp_e32 (val : Z) : list Z := le_bytes 4 (bswap32 (u32 val)).
Definition amqp_e64 (val : Z) : list Z := le_bytes 8 (bswap64 (u64 val)).
Definition amqp_d8 (data : list Z) : Z := znth data 0.
Definition amqp_d16 (data : list Z) : Z := bswap16 (le_val (ztake 2 data)).
Definition amqp_d32 (data : list Z) : Z := bswap32 (le_val (ztake 4 data)).
Definition amqp_d64 (data : list Z) : Z := bswap64 (le_val (ztake 8 data)).

(** ** Encoding and decoding at an offset

    The state of an encoder is the buffer and the offset; the state of a
    decoder is the offset.  [inl tt] is the 0 they return. *)

Inductive width := W8 | W16 | W32 | W64.
Definition width_bytes (w : width) : Z :=
  match w with W8 => 1 | W16 => 2 | W32 => 4 | W64 => 8 end.
Definition amqp_e (w : width) (v : Z) : list Z :=
  match w with W8 => amqp_e8 v | W16 => amqp_e16 v | W32 => amqp_e32 v | W64 => amqp_e64 v end.
Definition amqp_d (w : width) (data : list Z) : Z :=
  match w with
  | W8 => amqp_d8 data | W16 => amqp_d16 data | W32 => amqp_d32 data | W64 => amqp_d64 data
  end.

(** DECLARE_CODEC_BASE_TYPE *)
Definition amqp_encode (w : width) (input : Z) : SE (list Z * Z) () () := fun '(buf, o) =>
  let offset := u64 (o + width_bytes w) in
  if offset <=? zlen buf then (inr tt, (zwrite o (amqp_e w input) buf, offset))
  else (inl tt, (buf, offset)).
Definition amqp_decode (w : width) (encoded : list Z) : SE Z () Z := fun o =>
  let offset := u64 (o + width_bytes w) in
  if offset <=? zlen encoded then (inr (amqp_d w (zdrop o encoded)), offset)
  else (inl tt, offset).

Definition amqp_encode_bytes (input : list Z) : SE (list Z * Z) () () := fun '(buf, o) =>
  if zlen input =? 0 then (inr tt, (buf, o))
  else
    let offset := u64 (o + zlen input) in
    if offset <=? zlen buf then (inr tt, (zwrite o input buf, offset))
    else (inl tt, (buf, offset)).
Definition amqp_decode_bytes (encoded : list Z) (len : Z) : SE Z () (list Z) := fun o =>
  let offset := u64 (o + len) in
  if offset <=? zlen encoded then (inr (zslice o len encoded), offset)
  else (inl tt, offset).

(** ** The byte order is the network's *)

(** One byte of a word, at its place. *)
Lemma land_byte v k : 0 <= v -> 0 <= k -> Z.land v (255 * 2 ^ k) = (v / 2 ^ k) mod 256 * 2 ^ k.
Proof.
  intros Hv Hk. rewrite <- !Z.shiftl_mul_pow2, <- Z.shiftr_div_pow2 by done.
  rewrite <- (Z.land_ones _ 8) by done. change (Z.ones 8) with 255.
  apply Z.bits_inj'. intros i Hi. rewrite Z.land_spec.
  destruct (Z.lt_ge_cases i k).
  - by rewrite !Z.shiftl_spec_low, andb_false_r by done.
  - rewrite !Z.shiftl_spec, Z.land_spec, Z.shiftr_spec by lia. do 2 f_equal. lia.
Qed.
Lemma shiftr_mul a n m : 0 <= m <= n -> Z.shiftr (a * 2 ^ n) m = a * 2 ^ (n - m).
Proof.
  intros. rewrite Z.shiftr_div_pow2 by lia.
  replace (2 ^ n) with (2 ^ (n - m) * 2 ^ m) by (rewrite <- Z.pow_add_r; [f_equal; lia|lia..]).
  rewrite Z.mul_assoc, Z.div_mul; [done|]. apply Z.pow_nonzero; lia.
Qed.
Lemma shiftl_mul a n m : 0 <= n -> 0 <= m -> Z.shiftl (a * 2 ^ n) m = a * 2 ^ (n + m).
Proof. intros. rewrite Z.shiftl_mul_pow2, Z.pow_add_r by lia. lia. Qed.
Lemma lor_add_low x y n : 0 <= n -> 0 <= x < 2 ^ n -> Z.lor x (y * 2 ^ n) = x + y * 2 ^ n.
Proof.
  intros Hn Hx. pose proof (lor_shiftl_add y x n Hn Hx) as Heq.
  rewrite Z.shiftl_mul_pow2 in Heq by done. rewrite Z.lor_comm, Heq. lia.
Qed.

(** The [k]-th byte of [v]. *)
Definition byte (v k : Z) : Z := (v / 2 ^ (8 * k)) mod 256.
Lemma byte_range v k : 0 <= byte v k < 256.
Proof. apply Z.mod_pos_bound. lia. Qed.

Lemma swap_down v k m c n :
  c = 255 * 2 ^ (8 * k) -> n = 8 * m -> 0 <= v -> 0 <= m <= k ->
  Z.shiftr (Z.land v c) n = byte v k * 2 ^ (8 * (k - m)).
Proof. intros -> -> **. rewrite land_byte, shiftr_mul by lia. unfold byte. do 2 f_equal. lia. Qed.
Lemma swap_up v k m c n :
  c = 255 * 2 ^ (8 * k) -> n = 8 * m -> 0 <= v -> 0 <= k -> 0 <= m ->
  Z.shiftl (Z.land v c) n = byte v k * 2 ^ (8 * (k + m)).
Proof. intros -> -> **. rewrite land_byte, shiftl_mul by lia. unfold byte. do 2 f_equal. lia. Qed.

Ltac byte_facts v :=
  repeat match goal with
  | |- context [byte v ?k] =>
      lazymatch goal with H : 0 <= byte v k < 256 |- _ => fail | _ => pose proof (byte_range v k) end
  end.
Ltac clear_pows :=
  repeat match goal with
  | |- context [2 ^ ?k] => let v := eval vm_compute in (2 ^ k) in change (2 ^ k) with v
  | H : context [2 ^ ?k] |- _ => let v := eval vm_compute in (2 ^ k) in change (2 ^ k) with v in H
  end.

Lemma bswap16_bytes v : 0 <= v -> bswap16 v = byte v 1 + byte v 0 * 2 ^ 8.
Proof.
  intros Hv. unfold bswap16.
  rewrite (swap_down v 1 1 0xFF00 8), (swap_up v 0 1 0xFF 8) by (reflexivity || lia). byte_facts v. change (2 ^ (8 * (1 - 1))) with 1.
  rewrite Z.mul_1_r. change (8 * (0 + 1)) with 8. rewrite lor_add_low by lia. apply u16_id. clear_pows. lia.
Qed.
Lemma bswap32_bytes v :
  0 <= v -> bswap32 v = byte v 3 + byte v 2 * 2 ^ 8 + byte v 1 * 2 ^ 16 + byte v 0 * 2 ^ 24.
Proof.
  intros Hv. unfold bswap32.
  rewrite (swap_down v 3 3 0xFF000000 24), (swap_down v 2 1 0xFF0000 8), (swap_up v 1 1 0xFF00 8), (swap_up v 0 3 0xFF 24) by (reflexivity || lia). byte_facts v.
  change (2 ^ (8 * (3 - 3))) with 1. rewrite Z.mul_1_r.
  change (8 * (2 - 1)) with 8. change (8 * (1 + 1)) with 16. change (8 * (0 + 3)) with 24.
  rewrite (lor_add_low (byte v 3)), (lor_add_low (_ + _) (byte v 1)), (lor_add_low (_ + _) (byte v 0))
    by (clear_pows; lia). apply u32_id. clear_pows. lia.
Qed.
Lemma bswap64_bytes v :
  0 <= v -> bswap64 v = byte v 7 + byte v 6 * 2 ^ 8 + byte v 5 * 2 ^ 16 + byte v 4 * 2 ^ 24 +
    byte v 3 * 2 ^ 32 + byte v 2 * 2 ^ 40 + byte v 1 * 2 ^ 48 + byte v 0 * 2 ^ 56.
Proof.
  intros Hv. unfold bswap64.
  rewrite (swap_down v 7 7 0xFF00000000000000 56), (swap_down v 6 5 0xFF000000000000 40), (swap_down v 5 3 0xFF0000000000 24), (swap_down v 4 1 0xFF00000000 8),
    (swap_up v 3 1 0xFF000000 8), (swap_up v 2 3 0xFF0000 24), (swap_up v 1 5 0xFF00 40), (swap_up v 0 7 0xFF 56) by (reflexivity || lia). byte_facts v.
  change (2 ^ (8 * (7 - 7))) with 1. rewrite Z.mul_1_r.
  change (8 * (6 - 5)) with 8. change (8 * (5 - 3)) with 16. change (8 * (4 - 1)) with 24.
  change (8 * (3 + 1)) with 32. change (8 * (2 + 3)) with 40. change (8 * (1 + 5)) with 48.
  change (8 * (0 + 7)) with 56.
  rewrite (lor_add_low (byte v 7)), (lor_add_low (_ + _) (byte v 5)), (lor_add_low (_ + _) (byte v 4)),
    (lor_add_low (_ + _) (byte v 3)), (lor_add_low (_ + _) (byte v 2)), (lor_add_low (_ + _) (byte v 1)),
    (lor_add_low (_ + _) (byte v 0)) by (clear_pows; lia). apply u64_id. clear_pows. lia.
Qed.

Lemma byte_0 b r : 0 <= b < 256 -> byte (b + 256 * r) 0 = b.
Proof.
  intros. unfold byte. change (2 ^ (8 * 0)) with 1. rewrite Z.div_1_r, Z.mul_comm, Z.mod_add by lia.
  by apply Z.mod_small.
Qed.
Lemma byte_succ b r k : 0 <= b < 256 -> 0 <= k -> byte (b + 256 * r) (1 + k) = byte r k.
Proof.
  intros Hb Hk. unfold byte. replace (8 * (1 + k)) with (8 + 8 * k) by lia.
  rewrite Z.pow_add_r, <- Z.div_div by lia. change (2 ^ 8) with 256.
  rewrite (Z.mul_comm 256 r), Z.div_add, (Z.div_small b) by lia. done.
Qed.
Lemma byte_div v k : 0 <= k -> byte (v / 256) k = byte v (1 + k).
Proof.
  intros. unfold byte. rewrite Z.div_div by lia. do 2 f_equal. change 256 with (2 ^ 8).
  rewrite <- Z.pow_add_r by lia. f_equal. lia.
Qed.
Lemma byte_mod v : byte v 0 = v mod 256.
Proof. unfold byte. by rewrite Z.div_1_r. Qed.

Lemma le_bytes_cons n b r : 0 <= b < 256 -> le_bytes (S n) (b + 256 * r) = b :: le_bytes n r.
Proof.
  intros. cbn [le_bytes]. rewrite (Z.mul_comm 256 r), Z.mod_add, Z.div_add, Z.mod_small, Z.div_small by lia.
  done.
Qed.
Lemma be_bytes_rev n v : be_bytes n v = rev (le_bytes n v).
Proof. revert v. induction n as [|n IH]; intros v; [done|]. cbn [be_bytes le_bytes rev]. by rewrite IH. Qed.

(** The bytes of a swapped word are those of the word in network order. *)
Lemma amqp_e16_bytes v : amqp_e16 v = be_bytes 2 (u16 v).
Proof.
  unfold amqp_e16. pose proof (Z.mod_pos_bound v (2 ^ 16) ltac:(lia)) as Hv. change (v mod 2 ^ 16) with (u16 v) in Hv.
  generalize dependent (u16 v). intros w Hw. rewrite bswap16_bytes by lia. byte_facts w.
  replace (byte w 1 + byte w 0 * 2 ^ 8) with (byte w 1 + 256 * (byte w 0 + 256 * 0)) by lia.
  rewrite !le_bytes_cons by done. rewrite be_bytes_rev. cbn [le_bytes rev app].
  by rewrite <- !byte_mod, byte_div by lia.
Qed.
Lemma amqp_e32_bytes v : amqp_e32 v = be_bytes 4 (u32 v).
Proof.
  unfold amqp_e32. pose proof (u32_range v) as Hv. generalize dependent (u32 v). intros w Hw.
  rewrite bswap32_bytes by lia. byte_facts w.
  replace (byte w 3 + byte w 2 * 2 ^ 8 + byte w 1 * 2 ^ 16 + byte w 0 * 2 ^ 24)
    with (byte w 3 + 256 * (byte w 2 + 256 * (byte w 1 + 256 * (byte w 0 + 256 * 0)))) by lia.
  rewrite !le_bytes_cons by done. rewrite be_bytes_rev. cbn [le_bytes rev app].
  by rewrite <- !byte_mod, !byte_div by lia.
Qed.
Lemma amqp_e64_bytes v : amqp_e64 v = be_bytes 8 (u64 v).
Proof.
  unfold amqp_e64. pose proof (u64_range v) as Hv. generalize dependent (u64 v). intros w Hw.
  rewrite bswap64_bytes by lia. byte_facts w.
  replace (byte w 7 + byte w 6 * 2 ^ 8 + byte w 5 * 2 ^ 16 + byte w 4 * 2 ^ 24 +
    byte w 3 * 2 ^ 32 + byte w 2 * 2 ^ 40 + byte w 1 * 2 ^ 48 + byte w 0 * 2 ^ 56)
    with (byte w 7 + 256 * (byte w 6 + 256 * (byte w 5 + 256 * (byte w 4 + 256 * (byte w 3 +
      256 * (byte w 2 + 256 * (byte w 1 + 256 * (byte w 0 + 256 * 0)))))))) by lia.
  rewrite !le_bytes_cons by done. rewrite be_bytes_rev. cbn [le_bytes rev app].
  by rewrite <- !byte_mod, !byte_div by lia.
Qed.

Lemma le_val_nonneg l : Forall is_u8 l -> 0 <= le_val l.
Proof. induction 1 as [|b l Hb _ IH]; cbn [le_val]; [lia|]. unfold is_u8 in Hb. lia. Qed.

Lemma bswap16_le x0 x1 : is_u8 x0 -> is_u8 x1 -> bswap16 (le_val [x0; x1]) = be_val 0 [x0; x1].
Proof.
  unfold is_u8. intros. rewrite bswap16_bytes by (cbn; lia). cbn [le_val].
  rewrite (byte_succ x0 _ 0), !byte_0 by lia. cbn [be_val]. lia.
Qed.
Lemma bswap32_le x0 x1 x2 x3 :
  is_u8 x0 -> is_u8 x1 -> is_u8 x2 -> is_u8 x3 ->
  bswap32 (le_val [x0; x1; x2; x3]) = be_val 0 [x0; x1; x2; x3].
Proof.
  unfold is_u8. intros. rewrite bswap32_bytes by (cbn [le_val]; lia). cbn [le_val].
  rewrite !(byte_succ _ _ 2), !(byte_succ _ _ 1), !(byte_succ _ _ 0), !byte_0 by lia. cbn [be_val]. lia.
Qed.
Lemma bswap64_le x0 x1 x2 x3 x4 x5 x6 x7 :
  Forall is_u8 [x0; x1; x2; x3; x4; x5; x6; x7] ->
  bswap64 (le_val [x0; x1; x2; x3; x4; x5; x6; x7]) = be_val 0 [x0; x1; x2; x3; x4; x5; x6; x7].
Proof.
  rewrite !Forall_cons. unfold is_u8. intros (?&?&?&?&?&?&?&?&_).
  rewrite bswap64_bytes by (cbn [le_val]; lia). cbn [le_val].
  rewrite !(byte_succ _ _ 6), !(byte_succ _ _ 5), !(byte_succ _ _ 4), !(byte_succ _ _ 3), !(byte_succ _ _ 2),
    !(byte_succ _ _ 1), !(byte_succ _ _ 0), !byte_0 by lia. cbn [be_val]. clear_pows. lia.
Qed.

Lemma width_pos w : 1 <= width_bytes w <= 8.
Proof. destruct w; cbn; lia. Qed.

(** Reading an integer reads its bytes in network order. *)
Lemma amqp_d_val w l :
  Forall is_u8 l -> width_bytes w <= zlen l -> amqp_d w l = be_val 0 (ztake (width_bytes w) l).
Proof.
  intros Hl Hlen. destruct w; cbn [width_bytes amqp_d] in *.
  - destruct l as [|x0 l]; [done|]. done.
  - destruct l as [|x0 [|x1 l]]; [done..|]. rewrite !Forall_cons in Hl. destruct Hl as (?&?&_).
    by apply bswap16_le.
  - destruct l as [|x0 [|x1 [|x2 [|x3 l]]]]; [done..|]. rewrite !Forall_cons in Hl.
    destruct Hl as (?&?&?&?&_). by apply bswap32_le.
  - destruct l as [|x0 [|x1 [|x2 [|x3 [|x4 [|x5 [|x6 [|x7 l]]]]]]]]; [done..|].
    change (amqp_d64 _) with (bswap64 (le_val [x0; x1; x2; x3; x4; x5; x6; x7])).
    rewrite !Forall_cons in Hl. destruct Hl as (?&?&?&?&?&?&?&?&_). apply bswap64_le.
    by repeat (apply Forall_cons; split; [done|]).
Qed.

Lemma amqp_e_bytes w v : amqp_e w v = be_bytes (Z.to_nat (width_bytes w)) (v mod 2 ^ (8 * width_bytes w)).
Proof.
  destruct w; cbn [amqp_e width_bytes].
  - unfold amqp_e8, u8. change (Z.to_nat 1) with 1%nat. change (8 * 1) with 8. cbn [be_bytes app].
    change 256 with (2 ^ 8). by rewrite Z.mod_mod.
  - apply amqp_e16_bytes.
  - apply amqp_e32_bytes.
  - apply amqp_e64_bytes.
Qed.
Lemma zlen_amqp_e w v : zlen (amqp_e w v) = width_bytes w.
Proof. rewrite amqp_e_bytes. unfold zlen. rewrite length_be_bytes. pose proof (width_pos w). lia. Qed.
Lemma amqp_e_u8 w v : Forall is_u8 (amqp_e w v).
Proof. rewrite amqp_e_bytes. apply be_bytes_u8. Qed.

(** What is written is read back. *)
Lemma amqp_d_e w v rest :
  Forall is_u8 rest -> amqp_d w (amqp_e w v ++ rest) = v mod 2 ^ (8 * width_bytes w).
Proof.
  intros Hr. rewrite amqp_d_val.
  - rewrite ztake_app_exact by (by rewrite zlen_amqp_e). rewrite amqp_e_bytes, be_val_bytes.
    rewrite Z2Nat.id by (pose proof (width_pos w); lia). apply Z.mod_mod.
    apply Z.pow_nonzero; pose proof (width_pos w); lia.
  - apply Forall_app. split; [apply amqp_e_u8|done].
  - rewrite zlen_app, zlen_amqp_e. zlen_facts. lia.
Qed.
Lemma amqp_d_range w l :
  Forall is_u8 l -> width_bytes w <= zlen l -> 0 <= amqp_d w l < 2 ^ (8 * width_bytes w).
Proof.
  intros Hl Hlen. rewrite amqp_d_val by done.
  pose proof (be_val_range 0 (ztake (width_bytes w) l) ltac:(lia) ltac:(by apply Forall_ztake)) as Hr.
  rewrite zlen_ztake in Hr by (pose proof (width_pos w); lia). lia.
Qed.

(** ** One step of an encoder or a decoder *)

Lemma encode_fits w v buf o :
  0 <= o -> o + width_bytes w <= zlen buf -> zlen buf < 2 ^ 62 ->
  amqp_encode w v (buf, o) = (inr tt, (zwrite o (amqp_e w v) buf, o + width_bytes w)).
Proof.
  intros. pose proof (width_pos w). unfold amqp_encode. rewrite u64_id by lia.
  by rewrite (proj2 (Z.leb_le _ _)) by lia.
Qed.
Lemma encode_full w v buf o :
  0 <= o < 2 ^ 62 -> zlen buf < o + width_bytes w ->
  amqp_encode w v (buf, o) = (inl tt, (buf, o + width_bytes w)).
Proof.
  intros. pose proof (width_pos w). unfold amqp_encode. rewrite u64_id by lia.
  by rewrite (proj2 (Z.leb_gt _ _)) by lia.
Qed.
Lemma encode_bytes_fits s buf o :
  0 <= o -> o + zlen s <= zlen buf -> zlen buf < 2 ^ 62 ->
  amqp_encode_bytes s (buf, o) = (inr tt, (zwrite o s buf, o + zlen s)).
Proof.
  intros. unfold amqp_encode_bytes. destruct (Z.eqb_spec (zlen s) 0) as [Hz|Hz].
  - apply zlen_0_nil in Hz as ->. rewrite zwrite_nil by done. by rewrite Z.add_0_r.
  - zlen_facts. rewrite u64_id by lia. by rewrite (proj2 (Z.leb_le _ _)) by lia.
Qed.
Lemma encode_bytes_full s buf o :
  0 <= o < 2 ^ 62 -> o <= zlen buf -> zlen s < 2 ^ 62 -> zlen buf < o + zlen s ->
  amqp_encode_bytes s (buf, o) = (inl tt, (buf, o + zlen s)).
Proof.
  intros. unfold amqp_encode_bytes. rewrite (proj2 (Z.eqb_neq _ _)) by lia. zlen_facts.
  rewrite u64_id by lia. by rewrite (proj2 (Z.leb_gt _ _)) by lia.
Qed.

Lemma decode_cases w encoded o :
  0 <= o < 2 ^ 62 ->
  amqp_decode w encoded o =
    (if o + width_bytes w <=? zlen encoded then inr (amqp_d w (zdrop o encoded)) else inl tt,
     o + width_bytes w).
Proof.
  intros. pose proof (width_pos w). unfold amqp_decode. rewrite u64_id by lia.
  by destruct (o + width_bytes w <=? zlen encoded).
Qed.
Lemma decode_bytes_cases encoded len o :
  0 <= o < 2 ^ 62 -> 0 <= len < 2 ^ 62 ->
  amqp_decode_bytes encoded len o =
    (if o + len <=? zlen encoded then inr (zslice o len encoded) else inl tt, o + len).
Proof.
  intros. unfold amqp_decode_bytes. rewrite u64_id by lia. by destruct (o + len <=? zlen encoded).
Qed.

(** Reading what stands at the offset. *)
Lemma decode_at w v pre rest :
  Forall is_u8 rest -> zlen pre < 2 ^ 61 ->
  amqp_decode w (pre ++ amqp_e w v ++ rest) (zlen pre) =
  (inr (v mod 2 ^ (8 * width_bytes w)), zlen pre + width_bytes w).
Proof.
  intros Hr Hp. rewrite decode_cases by (zlen_facts; lia).
  rewrite !zlen_app, zlen_amqp_e, (proj2 (Z.leb_le _ _)) by (zlen_facts; lia).
  by rewrite zdrop_app_exact, amqp_d_e.
Qed.
Lemma decode_bytes_at s pre rest :
  zlen pre < 2 ^ 61 -> zlen s < 2 ^ 61 ->
  amqp_decode_bytes (pre ++ s ++ rest) (zlen s) (zlen pre) = (inr s, zlen pre + zlen s).
Proof.
  intros Hp Hs. rewrite decode_bytes_cases by (zlen_facts; lia).
  rewrite !zlen_app, (proj2 (Z.leb_le _ _)) by (zlen_facts; lia).
  unfold zslice. by rewrite zdrop_app_exact, ztake_app_exact.
Qed.
