(* ===== verification/AmqpTable.v ===== *)
(** * Field tables of AMQP: amqp_table.c

    Values, arrays and tables, their encoding into a buffer, their decoding
    from received bytes, copies and lookups.  The decoder takes memory from
    two sides: an array of entries from malloc while it counts, and the final
    array from the pool of the channel; the two are the interface
    [EntryMem], which the pools of AmqpMem implement. *)

From stdpp Require Import gmap.
From S2P Require Import Prelude Sshbuf AmqpUrl AmqpMem AmqpCodec.

Definition AMQP_STATUS_NO_MEMORY : Z := -1.
Definition AMQP_STATUS_BAD_AMQP_DATA : Z := -2.
Definition AMQP_STATUS_INVALID_PARAMETER : Z := -10.
Definition AMQP_STATUS_TABLE_TOO_BIG : Z := -11.

(** ** Values *)

(** amqp_field_value_t: the constructor is [kind], its argument the member of
    the union; f32 and f64 are kept as the bits u32 and u64 share with them.
    A kind that the enumeration does not have is [FV_OTHER]. *)
Unset Elimination Schemes.
Inductive field_value :=
  | FV_BOOLEAN (boolean : Z)
  | FV_I8 (i8 : Z) | FV_U8 (u8 : Z)
  | FV_I16 (i16 : Z) | FV_U16 (u16 : Z)
  | FV_I32 (i32 : Z) | FV_U32 (u32 : Z)
  | FV_I64 (i64 : Z) | FV_U64 (u64 : Z)
  | FV_F32 (bits : Z) | FV_F64 (bits : Z)
  | FV_DECIMAL (decimals value : Z)
  | FV_UTF8 (bytes : list Z)
  | FV_ARRAY (entries : list field_value)
  | FV_TIMESTAMP (u64 : Z)
  | FV_TABLE (entries : list (list Z * field_value))
  | FV_VOID
  | FV_BYTES (bytes : list Z)
  | FV_OTHER (kind : Z).
Set Elimination Schemes.

(** amqp_table_entry_t: the key and the value. *)
Abbreviation table_entry := (list Z * field_value)%type.
Abbreviation table := (list table_entry).

(** The character of each kind. *)
Definition AMQP_FIELD_KIND_BOOLEAN : Z := 116.
Definition AMQP_FIELD_KIND_I8 : Z := 98.
Definition AMQP_FIELD_KIND_U8 : Z := 66.
Definition AMQP_FIELD_KIND_I16 : Z := 115.
Definition AMQP_FIELD_KIND_U16 : Z := 117.
Definition AMQP_FIELD_KIND_I32 : Z := 73.
Definition AMQP_FIELD_KIND_U32 : Z := 105.
Definition AMQP_FIELD_KIND_I64 : Z := 108.
Definition AMQP_FIELD_KIND_U64 : Z := 76.
Definition AMQP_FIELD_KIND_F32 : Z := 102.
Definition AMQP_FIELD_KIND_F64 : Z := 100.
Definition AMQP_FIELD_KIND_DECIMAL : Z := 68.
Definition AMQP_FIELD_KIND_UTF8 : Z := 83.
Definition AMQP_FIELD_KIND_ARRAY : Z := 65.
Definition AMQP_FIELD_KIND_TIMESTAMP : Z := 84.
Definition AMQP_FIELD_KIND_TABLE : Z := 70.
Definition AMQP_FIELD_KIND_VOID : Z := 86.
Definition AMQP_FIELD_KIND_BYTES : Z := 120.

Definition kind_of (v : field_value) : Z :=
  match v with
  | FV_BOOLEAN _ => AMQP_FIELD_KIND_BOOLEAN
  | FV_I8 _ => AMQP_FIELD_KIND_I8 | FV_U8 _ => AMQP_FIELD_KIND_U8
  | FV_I16 _ => AMQP_FIELD_KIND_I16 | FV_U16 _ => AMQP_FIELD_KIND_U16
  | FV_I32 _ => AMQP_FIELD_KIND_I32 | FV_U32 _ => AMQP_FIELD_KIND_U32
  | FV_I64 _ => AMQP_FIELD_KIND_I64 | FV_U64 _ => AMQP_FIELD_KIND_U64
  | FV_F32 _ => AMQP_FIELD_KIND_F32 | FV_F64 _ => AMQP_FIELD_KIND_F64
  | FV_DECIMAL _ _ => AMQP_FIELD_KIND_DECIMAL
  | FV_UTF8 _ => AMQP_FIELD_KIND_UTF8
  | FV_ARRAY _ => AMQP_FIELD_KIND_ARRAY
  | FV_TIMESTAMP _ => AMQP_FIELD_KIND_TIMESTAMP
  | FV_TABLE _ => AMQP_FIELD_KIND_TABLE
  | FV_VOID => AMQP_FIELD_KIND_VOID
  | FV_BYTES _ => AMQP_FIELD_KIND_BYTES
  | FV_OTHER kind => kind
  end.

Section value_ind.
Context (P : field_value -> Prop).
Context (Hleaf : forall v, (forall es, v <> FV_ARRAY es) -> (forall es, v <> FV_TABLE es) -> P v).
Context (Harray : forall es, Forall P es -> P (FV_ARRAY es)).
Context (Htable : forall es, Forall (fun e => P e.2) es -> P (FV_TABLE es)).

(** Induction that goes through arrays and tables. *)
Fixpoint field_value_nested_ind (v : field_value) : P v :=
  match v with
  | FV_ARRAY es =>
      Harray es ((fix go (es : list field_value) : Forall P es :=
        match es with
        | [] => List.Forall_nil _
        | e :: es' => List.Forall_cons _ e es' (field_value_nested_ind e) (go es')
        end) es)
  | FV_TABLE es =>
      Htable es ((fix go (es : list (list Z * field_value)) : Forall (fun e => P e.2) es :=
        match es with
        | [] => List.Forall_nil _
        | e :: es' => List.Forall_cons _ e es' (field_value_nested_ind e.2) (go es')
        end) es)
  | v => Hleaf v ltac:(discriminate) ltac:(discriminate)
  end.
End value_ind.

(** ** Encoding *)

Definition encoder : Type := SE (list Z * Z) Z ().
(** A codec of amqp_private.h that answers 0 makes the function return [res]. *)
Definition or_return (res : Z) (m : SE (list Z * Z) () ()) : encoder := fun s =>
  match m s with (inr _, s') => (inr tt, s') | (inl _, s') => (inl res, s') end.
Definition too_big : SE (list Z * Z) () () -> encoder := or_return AMQP_STATUS_TABLE_TOO_BIG.

(** The frame around the entries of an array or a table: room for the size,
    the entries, then the size at the place kept for it. *)
Definition encode_sized (entries : encoder) : encoder :=
  start ← gets snd;
  _ ← modify (fun '(buf, o) => (buf, u64 (o + 4)));
  _ ← entries;
  '(buf, o) ← gets id;
  match amqp_encode W32 (u32 (u64 (o - start - 4))) (buf, start) with
  | (inr _, (buf', _)) => modify (fun _ => (buf', o))
  | (inl _, _) => throw AMQP_STATUS_TABLE_TOO_BIG
  end.

Fixpoint amqp_encode_field_value (entry : field_value) : encoder :=
  _ ← or_return AMQP_STATUS_BAD_AMQP_DATA (amqp_encode W8 (kind_of entry));
  match entry with
  | FV_BOOLEAN b => too_big (amqp_encode W8 (if truthy b then 1 else 0))
  | FV_I8 z | FV_U8 z => too_big (amqp_encode W8 z)
  | FV_I16 z | FV_U16 z => too_big (amqp_encode W16 z)
  | FV_I32 z | FV_U32 z | FV_F32 z => too_big (amqp_encode W32 z)
  | FV_I64 z | FV_U64 z | FV_F64 z | FV_TIMESTAMP z => too_big (amqp_encode W64 z)
  | FV_DECIMAL decimals value =>
      _ ← too_big (amqp_encode W8 decimals); too_big (amqp_encode W32 value)
  | FV_UTF8 bytes | FV_BYTES bytes =>
      _ ← too_big (amqp_encode W32 (zlen bytes)); too_big (amqp_encode_bytes bytes)
  | FV_ARRAY es =>
      encode_sized
        ((fix go (es : list field_value) : encoder :=
            match es with
            | [] => mret tt
            | e :: es' => _ ← amqp_encode_field_value e; go es'
            end) es)
  | FV_TABLE es =>
      encode_sized
        ((fix go (es : list (list Z * field_value)) : encoder :=
            match es with
            | [] => mret tt
            | e :: es' =>
                _ ← too_big (amqp_encode W8 (zlen e.1));
                _ ← too_big (amqp_encode_bytes e.1);
                _ ← amqp_encode_field_value e.2; go es'
            end) es)
  | FV_VOID => mret tt
  | FV_OTHER _ => throw AMQP_STATUS_INVALID_PARAMETER
  end.

(** The loops of amqp_encode_array and amqp_encode_table. *)
Fixpoint encode_values (es : list field_value) : encoder :=
  match es with
  | [] => mret tt
  | e :: es' => _ ← amqp_encode_field_value e; encode_values es'
  end.
Fixpoint encode_entries (es : table) : encoder :=
  match es with
  | [] => mret tt
  | e :: es' =>
      _ ← too_big (amqp_encode W8 (zlen e.1));
      _ ← too_big (amqp_encode_bytes e.1);
      _ ← amqp_encode_field_value e.2; encode_entries es'
  end.
Definition amqp_encode_array (input : list field_value) : encoder := encode_sized (encode_values input).
Definition amqp_encode_table (input : table) : encoder := encode_sized (encode_entries input).

(** The cases of amqp_encode_field_value call the two functions. *)
Lemma encode_array_eq es :
  amqp_encode_field_value (FV_ARRAY es) =
  (_ ← or_return AMQP_STATUS_BAD_AMQP_DATA (amqp_encode W8 AMQP_FIELD_KIND_ARRAY); amqp_encode_array es).
Proof. reflexivity. Qed.
Lemma encode_table_eq es :
  amqp_encode_field_value (FV_TABLE es) =
  (_ ← or_return AMQP_STATUS_BAD_AMQP_DATA (amqp_encode W8 AMQP_FIELD_KIND_TABLE); amqp_encode_table es).
Proof. reflexivity. Qed.

(** ** Memory for the entries *)

(** malloc, realloc and free for the array that grows, amqp_pool_alloc for
    the array that stays. *)
Class EntryMem (M : Type) := {
  em_malloc : Z -> SE M fault (option nat);
  em_realloc : nat -> Z -> SE M fault (option nat);
  em_free : nat -> SE M fault ();
  em_pool_alloc : Z -> SE M fault (option ptr)
}.

(** What the decoder may rely on: no call breaks a rule as long as realloc
    and free get arrays that malloc and realloc returned, each once.  [F] are
    the arrays outstanding. *)
Class EntryMemOk (M : Type) `{EntryMem M} := {
  em_inv : list nat -> M -> Prop;
  em_malloc_ok F m n : em_inv F m -> 0 <= n ->
    exists r m', em_malloc n m = (inr r, m') /\ em_inv (option_list r ++ F) m';
  em_realloc_ok F m b n : em_inv (b :: F) m -> 0 <= n ->
    exists r m', em_realloc b n m = (inr r, m') /\ em_inv (default b r :: F) m';
  em_free_ok F m b : em_inv (b :: F) m ->
    exists m', em_free b m = (inr tt, m') /\ em_inv F m';
  em_pool_alloc_ok F m n : em_inv F m -> 0 <= n < 2 ^ 62 ->
    exists r m', em_pool_alloc n m = (inr r, m') /\ em_inv F m'
}.
(** No request is refused. *)
Class EntryMemTotal (M : Type) `{EntryMemOk M} : Prop := {
  em_malloc_total F m n : em_inv F m -> 0 <= n -> exists b m', em_malloc n m = (inr (Some b), m');
  em_realloc_total F m b n : em_inv (b :: F) m -> 0 <= n ->
    exists b' m', em_realloc b n m = (inr (Some b'), m');
  em_pool_alloc_total F m n : em_inv F m -> 0 < n < 2 ^ 62 ->
    exists p m', em_pool_alloc n m = (inr (Some p), m')
}.

(** ** Decoding *)

(** A decoder returns a value, or stops: with the status it returns, with a
    fault, or because the bound on its recursion is reached. *)
Inductive dstop := Status (res : Z) | Fault (f : fault) | OutOfFuel.

Definition INITIAL_ARRAY_SIZE : Z := 16.
Definition INITIAL_TABLE_SIZE : Z := 16.
Definition sizeof_field_value : Z := 24.
Definition sizeof_table_entry : Z := 40.

(** The state of a decoder: the offset, and the memory. *)
Abbreviation decoder M A := (SE (Z * M) dstop A).

Section decoder.
Context {M : Type} `{EntryMem M}.

(** A codec that answers 0 makes the function return BAD_AMQP_DATA. *)
Definition or_bad {A} (m : SE Z () A) : decoder M A := fun '(o, mem) =>
  match m o with
  | (inr a, o') => (inr a, (o', mem))
  | (inl _, o') => (inl (Status AMQP_STATUS_BAD_AMQP_DATA), (o', mem))
  end.
Definition in_mem {A} (m : SE M fault A) : decoder M A := fun '(o, mem) =>
  match m mem with
  | (inr a, mem') => (inr a, (o, mem'))
  | (inl f, mem') => (inl (Fault f), (o, mem'))
  end.
(** The status of a call as a value; a fault goes through. *)
Definition status {A} (m : decoder M A) : decoder M (Z + A) := fun s =>
  match m s with
  | (inr a, s') => (inr (inr a), s')
  | (inl (Status res), s') => (inr (inl res), s')
  | (inl e, s') => (inl e, s')
  end.

(** The array has room for one entry more, or is given twice its room:
    [None] when there is no memory. *)
Definition grow_entries (sizeof : Z) (entries : nat) (num allocated : Z) : decoder M (option (nat * Z)) :=
  if allocated <=? num then
    let allocated := i32 (allocated * 2) in
    new ← in_mem (em_realloc entries (u64 (allocated * sizeof)));
    mret (b ← new; Some (b, allocated))
  else mret (Some (entries, allocated)).

(** Entry [num] is written at its place in the array. *)
Definition store_entry (num allocated : Z) : decoder M () :=
  if num <? allocated then mret tt else throw (Fault OutOfBounds).

(** The while loops: they end with a status or with the entries, and with the
    array they have then. *)
Fixpoint decode_array_loop (dec : decoder M field_value) (fuel : nat) (limit : Z)
    (entries : nat) (num allocated : Z) (acc : list field_value)
    : decoder M ((Z + list field_value) * nat) :=
  offset ← gets fst;
  if negb (offset <? limit) then mret (inr acc, entries)
  else match fuel with
  | O => throw OutOfFuel
  | S fuel' =>
      g ← grow_entries sizeof_field_value entries num allocated;
      match g with
      | None => mret (inl AMQP_STATUS_NO_MEMORY, entries)
      | Some (entries, allocated) =>
          _ ← store_entry num allocated;
          r ← status dec;
          match r with
          | inl res => mret (inl res, entries)
          | inr v => decode_array_loop dec fuel' limit entries (num + 1) allocated (acc ++ [v])
          end
      end
  end.

Fixpoint decode_table_loop (encoded : list Z) (dec : decoder M field_value) (fuel : nat) (limit : Z)
    (entries : nat) (num allocated : Z) (acc : table) : decoder M ((Z + table) * nat) :=
  offset ← gets fst;
  if negb (offset <? limit) then mret (inr acc, entries)
  else match fuel with
  | O => throw OutOfFuel
  | S fuel' =>
      r ← status (or_bad (amqp_decode W8 encoded));
      match r with
      | inl res => mret (inl res, entries)
      | inr keylen =>
          g ← grow_entries sizeof_table_entry entries num allocated;
          match g with
          | None => mret (inl AMQP_STATUS_NO_MEMORY, entries)
          | Some (entries, allocated) =>
              _ ← store_entry num allocated;
              r ← status (key ← or_bad (amqp_decode_bytes encoded keylen); v ← dec; mret (key, v));
              match r with
              | inl res => mret (inl res, entries)
              | inr e => decode_table_loop encoded dec fuel' limit entries (num + 1) allocated (acc ++ [e])
              end
          end
      end
  end.

(** amqp_decode_array and amqp_decode_table around their loops; the values
    inside are decoded by [dec]. *)
Definition decode_sized {A} (encoded : list Z) (sizeof initial : Z)
    (loop : Z -> nat -> decoder M ((Z + list A) * nat)) : decoder M (list A) :=
  size ← or_bad (amqp_decode W32 encoded);
  offset ← gets fst;
  if zlen encoded <? u64 (size + offset) then throw (Status AMQP_STATUS_BAD_AMQP_DATA)
  else
    entries ← in_mem (em_malloc (u64 (initial * sizeof)));
    match entries with
    | None => throw (Status AMQP_STATUS_NO_MEMORY)
    | Some entries =>
        '(r, entries) ← loop (u64 (offset + size)) entries;
        res ← match r with
              | inl res => mret (inl res)
              | inr vs =>
                  block ← in_mem (em_pool_alloc (u64 (zlen vs * sizeof)));
                  mret (match block with
                        | None => if zlen vs =? 0 then inr vs else inl AMQP_STATUS_NO_MEMORY
                        | Some _ => inr vs
                        end)
              end;
        _ ← in_mem (em_free entries);
        match res with inl res => throw (Status res) | inr vs => mret vs end
    end.

Definition amqp_decode_array (dec : decoder M field_value) (fuel : nat) (encoded : list Z)
    : decoder M (list field_value) :=
  decode_sized encoded sizeof_field_value INITIAL_ARRAY_SIZE
    (fun limit entries => decode_array_loop dec fuel limit entries 0 INITIAL_ARRAY_SIZE []).
Definition decode_table_with (dec : decoder M field_value) (fuel : nat) (encoded : list Z) : decoder M table :=
  decode_sized encoded sizeof_table_entry INITIAL_TABLE_SIZE
    (fun limit entries => decode_table_loop encoded dec fuel limit entries 0 INITIAL_TABLE_SIZE []).

Definition decode_int (w : width) (encoded : list Z) (how : Z -> field_value) : decoder M field_value :=
  val ← or_bad (amqp_decode w encoded); mret (how val).
Definition i8 (z : Z) : Z := (z + 2 ^ 7) mod 2 ^ 8 - 2 ^ 7.
Definition i16 (z : Z) : Z := (z + 2 ^ 15) mod 2 ^ 16 - 2 ^ 15.

(** The switch on the kind. *)
Definition decode_kind (kind : Z) (dec : decoder M field_value) (fuel : nat) (encoded : list Z)
    : decoder M field_value :=
  if kind =? AMQP_FIELD_KIND_BOOLEAN
  then decode_int W8 encoded (fun val => FV_BOOLEAN (if truthy val then 1 else 0))
  else if kind =? AMQP_FIELD_KIND_I8 then decode_int W8 encoded (fun val => FV_I8 (i8 val))
  else if kind =? AMQP_FIELD_KIND_U8 then decode_int W8 encoded FV_U8
  else if kind =? AMQP_FIELD_KIND_I16 then decode_int W16 encoded (fun val => FV_I16 (i16 val))
  else if kind =? AMQP_FIELD_KIND_U16 then decode_int W16 encoded FV_U16
  else if kind =? AMQP_FIELD_KIND_I32 then decode_int W32 encoded (fun val => FV_I32 (i32 val))
  else if kind =? AMQP_FIELD_KIND_U32 then decode_int W32 encoded FV_U32
  else if kind =? AMQP_FIELD_KIND_I64 then decode_int W64 encoded (fun val => FV_I64 (i64 val))
  else if kind =? AMQP_FIELD_KIND_U64 then decode_int W64 encoded FV_U64
  else if kind =? AMQP_FIELD_KIND_F32 then decode_int W32 encoded FV_F32
  else if kind =? AMQP_FIELD_KIND_F64 then decode_int W64 encoded FV_F64
  else if kind =? AMQP_FIELD_KIND_DECIMAL then
    decimals ← or_bad (amqp_decode W8 encoded);
    value ← or_bad (amqp_decode W32 encoded);
    mret (FV_DECIMAL decimals value)
  else if (kind =? AMQP_FIELD_KIND_UTF8) || (kind =? AMQP_FIELD_KIND_BYTES) then
    len ← or_bad (amqp_decode W32 encoded);
    bytes ← or_bad (amqp_decode_bytes encoded len);
    mret (if kind =? AMQP_FIELD_KIND_UTF8 then FV_UTF8 bytes else FV_BYTES bytes)
  else if kind =? AMQP_FIELD_KIND_ARRAY then
    es ← amqp_decode_array dec fuel encoded; mret (FV_ARRAY es)
  else if kind =? AMQP_FIELD_KIND_TIMESTAMP then decode_int W64 encoded FV_TIMESTAMP
  else if kind =? AMQP_FIELD_KIND_TABLE then
    es ← decode_table_with dec fuel encoded; mret (FV_TABLE es)
  else if kind =? AMQP_FIELD_KIND_VOID then mret FV_VOID
  else throw (Status AMQP_STATUS_BAD_AMQP_DATA).

Definition decode_field_value_with (dec : decoder M field_value) (fuel : nat) (encoded : list Z)
    : decoder M field_value :=
  kind ← or_bad (amqp_decode W8 encoded);
  decode_kind kind dec fuel encoded.

(** Arrays and tables inside call back; [fuel] bounds the depth and the
    rounds of the loops. *)
Fixpoint amqp_decode_field_value (fuel : nat) (encoded : list Z) : decoder M field_value :=
  match fuel with
  | O => throw OutOfFuel
  | S fuel' => decode_field_value_with (amqp_decode_field_value fuel' encoded) fuel' encoded
  end.
(** Every value takes a byte at least, so the length of the input is enough. *)
Definition amqp_decode_table (encoded : list Z) : decoder M table :=
  let fuel := S (length encoded) in
  decode_table_with (amqp_decode_field_value fuel encoded) fuel encoded.

End decoder.

(** ** Copies, comparison and lookup *)

(** The order of two keys that memcmp and the lengths give: negative, zero
    or positive; of memcmp only the sign is specified. *)
Fixpoint memcmp (a b : list Z) : Z :=
  match a, b with
  | x :: a', y :: b' => if x =? y then memcmp a' b' else if x <? y then -1 else 1
  | _, _ => 0
  end.
Definition amqp_table_entry_cmp (p1 p2 : table_entry) : Z :=
  let minlen := if zlen p2.1 <? zlen p1.1 then zlen p2.1 else zlen p1.1 in
  let d := memcmp (ztake minlen p1.1) (ztake minlen p2.1) in
  if negb (d =? 0) then d else i32 (i32 (zlen p1.1) - i32 (zlen p2.1)).

(** amqp_bytes_equal; the pointers being equal is a shortcut. *)
Definition amqp_bytes_equal (r l : list Z) : bool := (zlen r =? zlen l) && (memcmp r l =? 0).

Fixpoint amqp_table_get_entry_by_key (t : table) (key : list Z) : option table_entry :=
  match t with
  | [] => None
  | e :: t' => if amqp_bytes_equal e.1 key then Some e else amqp_table_get_entry_by_key t' key
  end.

(** The arguments are C strings. *)
Definition amqp_table_construct_utf8_entry (key value : list Z) : table_entry := (cstr key, FV_UTF8 (cstr value)).
Definition amqp_table_construct_table_entry (key : list Z) (value : table) : table_entry :=
  (cstr key, FV_TABLE value).
Definition amqp_table_construct_bool_entry (key : list Z) (value : Z) : table_entry :=
  (cstr key, FV_BOOLEAN value).

Abbreviation cloner M A := (SE M dstop A).

Section clone.
Context {M : Type} `{EntryMem M}.

(** Copies go to the pool; an array or table without entries needs none (its
    [entries] are NULL, as the decoder and the constants make them). *)
Definition pool_block (amount : Z) : cloner M () := fun m =>
  match em_pool_alloc amount m with
  | (inr (Some _), m') => (inr tt, m')
  | (inr None, m') => (inl (Status AMQP_STATUS_NO_MEMORY), m')
  | (inl f, m') => (inl (Fault f), m')
  end.

Fixpoint amqp_field_value_clone (original : field_value) : cloner M field_value :=
  match original with
  | FV_UTF8 bytes | FV_BYTES bytes =>
      _ ← (if zlen bytes =? 0 then mret tt else pool_block (zlen bytes)); mret original
  | FV_ARRAY [] => mret (FV_ARRAY [])
  | FV_ARRAY es =>
      _ ← pool_block (u64 (zlen es * sizeof_field_value));
      es' ← (fix go (es : list field_value) : cloner M (list field_value) :=
               match es with
               | [] => mret []
               | e :: es' => c ← amqp_field_value_clone e; cs ← go es'; mret (c :: cs)
               end) es;
      mret (FV_ARRAY es')
  | FV_TABLE [] => mret (FV_TABLE [])
  | FV_TABLE es =>
      _ ← pool_block (u64 (zlen es * sizeof_table_entry));
      es' ← (fix go (es : list (list Z * field_value)) : cloner M table :=
               match es with
               | [] => mret []
               | e :: es' =>
                   c ← (_ ← (if zlen e.1 =? 0 then throw (Status AMQP_STATUS_INVALID_PARAMETER) else mret tt);
                        _ ← pool_block (zlen e.1);
                        c ← amqp_field_value_clone e.2;
                        mret (e.1, c));
                   cs ← go es'; mret (c :: cs)
               end) es;
      mret (FV_TABLE es')
  | FV_OTHER _ => throw (Status AMQP_STATUS_INVALID_PARAMETER)
  | v => mret v
  end.
(** amqp_table_entry_clone and amqp_table_clone *)
Definition amqp_table_entry_clone (original : table_entry) : cloner M table_entry :=
  _ ← (if zlen original.1 =? 0 then throw (Status AMQP_STATUS_INVALID_PARAMETER) else mret tt);
  _ ← pool_block (zlen original.1);
  c ← amqp_field_value_clone original.2;
  mret (original.1, c).
Fixpoint clone_entries (es : table) : cloner M table :=
  match es with
  | [] => mret []
  | e :: es' => c ← amqp_table_entry_clone e; cs ← clone_entries es'; mret (c :: cs)
  end.
Definition amqp_table_clone (original : table) : cloner M table :=
  match original with
  | [] => mret []
  | es => _ ← pool_block (u64 (zlen es * sizeof_table_entry)); clone_entries es
  end.
End clone.

(** ** What the encoder writes *)

Definition sized (body : list Z) : list Z := amqp_e W32 (zlen body) ++ body.
Fixpoint enc (v : field_value) : list Z :=
  amqp_e W8 (kind_of v) ++
  match v with
  | FV_BOOLEAN b => amqp_e W8 (if truthy b then 1 else 0)
  | FV_I8 z | FV_U8 z => amqp_e W8 z
  | FV_I16 z | FV_U16 z => amqp_e W16 z
  | FV_I32 z | FV_U32 z | FV_F32 z => amqp_e W32 z
  | FV_I64 z | FV_U64 z | FV_F64 z | FV_TIMESTAMP z => amqp_e W64 z
  | FV_DECIMAL decimals value => amqp_e W8 decimals ++ amqp_e W32 value
  | FV_UTF8 bytes | FV_BYTES bytes => amqp_e W32 (zlen bytes) ++ bytes
  | FV_ARRAY es => sized (concat (map enc es))
  | FV_TABLE es => sized (concat (map (fun e => amqp_e W8 (zlen e.1) ++ e.1 ++ enc e.2) es))
  | FV_VOID | FV_OTHER _ => []
  end.
Definition enc_entry (e : table_entry) : list Z := amqp_e W8 (zlen e.1) ++ e.1 ++ enc e.2.
Definition enc_table (t : table) : list Z := sized (concat (map enc_entry t)).

(** Every kind is one of the enumeration. *)
Fixpoint known (v : field_value) : bool :=
  match v with
  | FV_ARRAY es => forallb known es
  | FV_TABLE es => forallb (fun e => known e.2) es
  | FV_OTHER _ => false
  | _ => true
  end.

Definition fits (o : Z) (data buf : list Z) : Prop := data = [] \/ o + zlen data <= zlen buf.

(** [m] writes [data] at the offset when it fits, and fails when it does not;
    it never changes the size of the buffer.  The offset may be up to [k]
    bytes behind the end (4 inside an array or a table, whose size is written
    last). *)
Definition Writes (k : Z) (m : encoder) (data : list Z) : Prop :=
  forall buf o, 0 <= o <= zlen buf + k -> zlen buf < 2 ^ 61 -> zlen data < 2 ^ 61 ->
    (fits o data buf -> m (buf, o) = (inr tt, (zwrite o data buf, o + zlen data))) /\
    (~ fits o data buf -> exists res buf' o', m (buf, o) = (inl res, (buf', o')) /\
       (res = AMQP_STATUS_TABLE_TOO_BIG \/ res = AMQP_STATUS_BAD_AMQP_DATA) /\ zlen buf' = zlen buf).

Lemma fits_nonempty o data buf : data <> [] -> fits o data buf <-> o + zlen data <= zlen buf.
Proof. unfold fits. tauto. Qed.
Lemma amqp_e_nonempty w v : amqp_e w v <> [].
Proof. intros Heq. pose proof (zlen_amqp_e w v) as Hz. rewrite Heq in Hz. by destruct w. Qed.
Lemma app_nonempty_l (l l' : list Z) : l <> [] -> l ++ l' <> [].
Proof. by destruct l. Qed.

Lemma Writes_weaken k m data : 0 <= k -> Writes k m data -> Writes 0 m data.
Proof. intros Hk Hw buf o Ho. apply Hw. lia. Qed.
Lemma Writes_ret k : Writes k (mret tt) [].
Proof.
  intros buf o Ho Hb _. split; [|intros Hf; destruct Hf; by left].
  intros _. by rewrite zwrite_nil, Z.add_0_r by lia.
Qed.
Lemma Writes_int k res w v :
  k <= 4 -> res = AMQP_STATUS_TABLE_TOO_BIG \/ res = AMQP_STATUS_BAD_AMQP_DATA ->
  Writes k (or_return res (amqp_encode w v)) (amqp_e w v).
Proof.
  intros Hk Hres buf o Ho Hb _. unfold or_return.
  rewrite fits_nonempty, zlen_amqp_e by apply amqp_e_nonempty. split; intros Hf.
  - by rewrite encode_fits by lia.
  - rewrite encode_full by lia. eexists _, _, _. split; [reflexivity|]. auto.
Qed.
Lemma Writes_bytes_or res s :
  res = AMQP_STATUS_TABLE_TOO_BIG \/ res = AMQP_STATUS_BAD_AMQP_DATA ->
  Writes 0 (or_return res (amqp_encode_bytes s)) s.
Proof.
  intros Hres buf o Ho Hb Hs. unfold or_return. split.
  - intros [->|Hf]; [|by rewrite encode_bytes_fits by lia].
    unfold amqp_encode_bytes. cbn. by rewrite zwrite_nil, Z.add_0_r by lia.
  - intros Hf. assert (Hne : s <> []) by (intros ->; apply Hf; by left).
    rewrite fits_nonempty in Hf by done. rewrite encode_bytes_full by lia.
    eexists _, _, _. split; [reflexivity|]. auto.
Qed.
Lemma Writes_bytes s : Writes 0 (too_big (amqp_encode_bytes s)) s.
Proof. apply Writes_bytes_or. by left. Qed.

Lemma Writes_bind k m1 m2 d1 d2 :
  d1 <> [] -> Writes k m1 d1 -> Writes 0 m2 d2 -> Writes k (_ ← m1; m2) (d1 ++ d2).
Proof.
  intros Hne1 H1 H2 buf o Ho Hb Hd. rewrite zlen_app in Hd. zlen_facts.
  destruct (H1 buf o Ho Hb ltac:(lia)) as [Hok1 Hno1].
  assert (Hne : d1 ++ d2 <> []) by (by destruct d1). rewrite fits_nonempty, zlen_app by done.
  rewrite fits_nonempty in Hok1, Hno1 by done. split.
  - intros Hf. specialize (Hok1 ltac:(lia)). rewrite (SE_bind_ok _ _ _ _ _ Hok1).
    destruct (H2 (zwrite o d1 buf) (o + zlen d1)) as [Hok2 _];
      [rewrite zlen_zwrite; lia|rewrite zlen_zwrite; lia|lia|].
    rewrite Hok2 by (right; rewrite zlen_zwrite by lia; lia). by rewrite zwrite_adjacent, Z.add_assoc by lia.
  - intros Hf. destruct (decide (o + zlen d1 <= zlen buf)) as [Hle|Hgt].
    + specialize (Hok1 Hle). rewrite (SE_bind_ok _ _ _ _ _ Hok1).
      destruct (H2 (zwrite o d1 buf) (o + zlen d1)) as [_ Hno2];
        [rewrite zlen_zwrite; lia|rewrite zlen_zwrite; lia|lia|].
      rewrite zlen_zwrite in Hno2 by lia. apply Hno2.
      intros [->|Hf2]; [rewrite zlen_nil in *; lia|]. rewrite zlen_zwrite in Hf2 by lia. lia.
    + destruct (Hno1 Hgt) as (res & buf' & o' & Hr & Hx). rewrite (SE_bind_err _ _ _ _ _ Hr).
      eexists _, _, _. split; [reflexivity|]. auto.
Qed.

(** The size, written last, ends up in front. *)
Lemma zwrite_front {A} p (x y l : list A) :
  0 <= p -> p + zlen x + zlen y <= zlen l ->
  zwrite p x (zwrite (p + zlen x) y l) = zwrite p (x ++ y) l.
Proof.
  intros Hp Hl. zlen_facts. unfold zwrite at 1. rewrite ztake_zwrite by lia. unfold zwrite.
  rewrite zdrop_app_exact by (rewrite zlen_ztake; lia).
  rewrite <- app_assoc, zlen_app. do 3 f_equal. f_equal. lia.
Qed.
Lemma Writes_sized m body :
  zlen body < 2 ^ 32 -> Writes 4 m body -> Writes 0 (encode_sized m) (sized body).
Proof.
  intros Hbody Hm buf o Ho Hb Hd. unfold sized in *.
  rewrite fits_nonempty by apply app_nonempty_l, amqp_e_nonempty.
  rewrite !zlen_app, !zlen_amqp_e in *. cbn [width_bytes] in *. zlen_facts.
  unfold encode_sized. rewrite (SE_bind_ok (gets _) _ _ _ _ eq_refl). cbn [snd].
  rewrite (SE_bind_ok (modify _) _ _ _ _ eq_refl). rewrite u64_id by lia.
  destruct (Hm buf (o + 4) ltac:(lia) Hb ltac:(lia)) as [Hok Hno].
  destruct (decide (body = [])) as [->|Hne].
  - specialize (Hok (or_introl eq_refl)). rewrite (SE_bind_ok _ _ _ _ _ Hok).
    rewrite (SE_bind_ok (gets _) _ _ _ _ eq_refl). cbn [id]. rewrite zwrite_nil, Z.add_0_r, zlen_nil by lia.
    replace (o + 4 + 0 - o - 4) with 0 by lia. rewrite app_nil_r. split; intros Hf.
    + rewrite encode_fits by (cbn; lia). unfold modify. by rewrite Z.add_0_r.
    + rewrite encode_full by (cbn; lia). eexists _, _, _. split; [reflexivity|]. auto.
  - rewrite fits_nonempty in Hok, Hno by done. split; intros Hf.
    + specialize (Hok ltac:(lia)). rewrite (SE_bind_ok _ _ _ _ _ Hok).
      rewrite (SE_bind_ok (gets _) _ _ _ _ eq_refl). cbn [id].
      replace (o + 4 + zlen body - o - 4) with (zlen body) by lia. rewrite u64_id, u32_id by lia.
      rewrite encode_fits by (cbn [width_bytes]; rewrite ?zlen_zwrite by lia; lia).
      unfold modify. do 2 f_equal; [|lia].
      pose proof (zwrite_front o (amqp_e W32 (zlen body)) body buf) as Hz.
      rewrite zlen_amqp_e in Hz. apply Hz; cbn; lia.
    + destruct (Hno ltac:(lia)) as (res & buf' & o' & Hr & Hx). rewrite (SE_bind_err _ _ _ _ _ Hr).
      eexists _, _, _. split; [reflexivity|]. auto.
Qed.

Lemma enc_nonempty v : enc v <> [].
Proof. destruct v; apply app_nonempty_l, (amqp_e_nonempty W8). Qed.
Lemma enc_entry_nonempty e : enc_entry e <> [].
Proof. apply app_nonempty_l, amqp_e_nonempty. Qed.

Lemma Writes_values es :
  Forall (fun v => known v = true -> zlen (enc v) < 2 ^ 32 -> Writes 4 (amqp_encode_field_value v) (enc v)) es ->
  forallb known es = true -> zlen (concat (map enc es)) < 2 ^ 32 ->
  Writes 4 (encode_values es) (concat (map enc es)).
Proof.
  induction 1 as [|v es Hv _ IH]; cbn [map concat encode_values forallb]; intros Hk Hl.
  { apply Writes_ret. }
  apply andb_prop in Hk as [Hk1 Hk2]. rewrite zlen_app in Hl. zlen_facts.
  apply Writes_bind; [apply enc_nonempty|apply Hv; [done|lia]|].
  apply (Writes_weaken 4); [lia|]. apply IH; [done|lia].
Qed.
Lemma Writes_entries es :
  Forall (fun e => known e.2 = true -> zlen (enc e.2) < 2 ^ 32 ->
    Writes 4 (amqp_encode_field_value e.2) (enc e.2)) es ->
  forallb (fun e => known e.2) es = true -> zlen (concat (map enc_entry es)) < 2 ^ 32 ->
  Writes 4 (encode_entries es) (concat (map enc_entry es)).
Proof.
  induction 1 as [|[key v] es Hv _ IH]; cbn [map concat encode_entries forallb fst snd]; intros Hk Hl.
  { apply Writes_ret. }
  apply andb_prop in Hk as [Hk1 Hk2]. unfold enc_entry at 1 in Hl. cbn [fst snd] in *.
  rewrite !zlen_app, zlen_amqp_e in Hl. cbn [width_bytes] in Hl. zlen_facts.
  unfold enc_entry at 1. cbn [fst snd]. rewrite <- !app_assoc.
  apply Writes_bind; [apply (amqp_e_nonempty W8)|apply (Writes_int 4 _ W8); [lia|by left]|].
  assert (Hrest : Writes 0 (_ ← amqp_encode_field_value v; encode_entries es) (enc v ++ concat (map enc_entry es))).
  { apply Writes_bind; [apply enc_nonempty|apply (Writes_weaken 4), Hv; [lia|done|lia]|].
    apply (Writes_weaken 4); [lia|]. apply IH; [done|lia]. }
  destruct (decide (key = [])) as [->|Hne]; [|by apply Writes_bind; [|apply Writes_bytes|]].
  intros buf o. cbn [app]. exact (Hrest buf o).
Qed.

Lemma Writes_field_value v :
  known v = true -> zlen (enc v) < 2 ^ 32 -> Writes 4 (amqp_encode_field_value v) (enc v).
Proof.
  induction v as [v Ha Ht|es IH|es IH] using field_value_nested_ind; intros Hk Hl.
  - destruct v; cbn [known] in Hk; try discriminate; try (by destruct (Ha entries)); try (by destruct (Ht entries));
      cbn [amqp_encode_field_value enc kind_of];
      (apply Writes_bind; [apply (amqp_e_nonempty W8)|apply (Writes_int 4 _ W8); [lia|by right]|]);
      try (by apply (Writes_int 0); [lia|left]); try apply Writes_ret.
    + apply Writes_bind; [apply (amqp_e_nonempty W8)|..]; apply (Writes_int 0); [lia|by left|lia|by left].
    + apply Writes_bind; [apply (amqp_e_nonempty W32)|apply (Writes_int 0); [lia|by left]|apply Writes_bytes].
    + apply Writes_bind; [apply (amqp_e_nonempty W32)|apply (Writes_int 0); [lia|by left]|apply Writes_bytes].
  - rewrite encode_array_eq. cbn [enc kind_of known] in *. rewrite zlen_app in Hl. unfold sized in Hl at 1.
    rewrite zlen_app in Hl. zlen_facts.
    apply Writes_bind; [apply (amqp_e_nonempty W8)|apply (Writes_int 4 _ W8); [lia|by right]|].
    apply Writes_sized; [lia|]. apply Writes_values; [done|done|lia].
  - rewrite encode_table_eq. cbn [enc kind_of known] in *.
    change (map (fun e => amqp_e W8 (zlen e.1) ++ e.1 ++ enc e.2) es) with (map enc_entry es) in *.
    rewrite zlen_app in Hl. unfold sized in Hl at 1. rewrite zlen_app in Hl. zlen_facts.
    apply Writes_bind; [apply (amqp_e_nonempty W8)|apply (Writes_int 4 _ W8); [lia|by right]|].
    apply Writes_sized; [lia|]. apply Writes_entries; [done|done|lia].
Qed.
Lemma Writes_table t :
  forallb (fun e => known e.2) t = true -> zlen (enc_table t) < 2 ^ 32 -> Writes 0 (amqp_encode_table t) (enc_table t).
Proof.
  intros Hk Hl. unfold enc_table, sized in Hl. rewrite zlen_app in Hl. zlen_facts.
  apply Writes_sized; [lia|]. apply Writes_entries; [|done|lia].
  apply Forall_true. intros e. apply Writes_field_value.
Qed.

(** ** Canonical values

    The values the decoder makes: integers in the range of their kind, byte
    strings of bytes, keys of at most 255 bytes, no unknown kind. *)

Definition in_range (lo hi z : Z) : bool := (lo <=? z) && (z <? hi).
Definition is_bytes (s : list Z) : bool := forallb is_u8b s.
Fixpoint canon (v : field_value) : bool :=
  match v with
  | FV_BOOLEAN b => in_range 0 2 b
  | FV_I8 z => in_range (- 2 ^ 7) (2 ^ 7) z
  | FV_U8 z => in_range 0 (2 ^ 8) z
  | FV_I16 z => in_range (- 2 ^ 15) (2 ^ 15) z
  | FV_U16 z => in_range 0 (2 ^ 16) z
  | FV_I32 z => in_range (- 2 ^ 31) (2 ^ 31) z
  | FV_U32 z | FV_F32 z => in_range 0 (2 ^ 32) z
  | FV_I64 z => in_range (- 2 ^ 63) (2 ^ 63) z
  | FV_U64 z | FV_F64 z | FV_TIMESTAMP z => in_range 0 (2 ^ 64) z
  | FV_DECIMAL d z => in_range 0 (2 ^ 8) d && in_range 0 (2 ^ 32) z
  | FV_UTF8 s | FV_BYTES s => is_bytes s
  | FV_ARRAY es => forallb canon es
  | FV_TABLE es => forallb (fun e => is_bytes e.1 && (zlen e.1 <=? 255) && canon e.2) es
  | FV_VOID => true
  | FV_OTHER _ => false
  end.
Definition canon_entry (e : table_entry) : bool := is_bytes e.1 && (zlen e.1 <=? 255) && canon e.2.

Lemma in_range_spec lo hi z : in_range lo hi z = true <-> lo <= z < hi.
Proof. unfold in_range. lia. Qed.
Lemma is_bytes_spec s : is_bytes s = true <-> Forall is_u8 s.
Proof.
  unfold is_bytes. rewrite forallb_forall, List.Forall_forall.
  split; intros Hs x Hx; specialize (Hs x Hx); unfold is_u8, is_u8b in *; lia.
Qed.
Lemma canon_known v : canon v = true -> known v = true.
Proof.
  induction v as [v Ha Ht|es IH|es IH] using field_value_nested_ind; cbn [canon known]; intros Hc.
  - destruct v; try done; [by destruct (Ha entries)|by destruct (Ht entries)].
  - rewrite forallb_forall in *. rewrite List.Forall_forall in IH. auto.
  - rewrite forallb_forall in *. rewrite List.Forall_forall in IH. intros e He. apply IH; [done|].
    specialize (Hc e He). cbn in Hc. apply andb_prop in Hc as [_ Hc]. done.
Qed.

(** ** The decoder on arbitrary input *)

Section decoder_safe.
Context {M : Type} `{EntryMemOk M}.
Context (encoded : list Z) (Hu8 : Forall is_u8 encoded) (Hlen : zlen encoded < 2 ^ 30).

(** A computation that neither faults nor runs out of fuel: it returns a value
    with [Q], or a status with [E]. *)
Definition dpost {A} (E : Z -> M -> Prop) (Q : A -> Z -> M -> Prop) (r : (dstop + A) * (Z * M)) : Prop :=
  match r with
  | (inr a, (o', mem')) => Q a o' mem'
  | (inl (Status res), (_, mem')) => E res mem'
  | _ => False
  end.
Definition bad_status (res : Z) : Prop := res = AMQP_STATUS_BAD_AMQP_DATA \/ res = AMQP_STATUS_NO_MEMORY.
(** A status, with the arrays [F] outstanding. *)
Definition stops_with (F : list nat) (res : Z) (mem : M) : Prop := bad_status res /\ em_inv F mem.

Lemma dpost_bind {A B} E (m : decoder M A) (k : A -> decoder M B) Q1 Q s :
  dpost E Q1 (m s) -> (forall a o' mem', Q1 a o' mem' -> dpost E Q (k a (o', mem'))) ->
  dpost E Q ((m ≫= k) s).
Proof.
  unfold mbind, SE_bind. destruct (m s) as [[[res|f|]|a] [o' mem']]; cbn; [done..|]. auto.
Qed.
Lemma dpost_mono {A} E (Q Q' : A -> Z -> M -> Prop) r :
  dpost E Q r -> (forall a o mem, Q a o mem -> Q' a o mem) -> dpost E Q' r.
Proof. destruct r as [[[res|f|]|a] [o' mem']]; cbn; auto. Qed.
Lemma dpost_status {A} F E Q (m : decoder M A) s :
  dpost (stops_with F) Q (m s) ->
  dpost E (fun r o' mem' => match r with
                            | inl res => bad_status res /\ em_inv F mem'
                            | inr a => Q a o' mem'
                            end) (status m s).
Proof. unfold status. destruct (m s) as [[[res|f|]|a] [o' mem']]; cbn; auto. Qed.

Lemma in_mem_ok {A} (m : SE M fault A) (o : Z) mem a mem' :
  m mem = (inr a, mem') -> in_mem m (o, mem) = (inr a, (o, mem')).
Proof. unfold in_mem. by intros ->. Qed.

Lemma dpost_int w F o mem :
  0 <= o <= zlen encoded -> em_inv F mem ->
  dpost (stops_with F) (fun v o' mem' => o' = o + width_bytes w /\ o' <= zlen encoded /\
    0 <= v < 2 ^ (8 * width_bytes w) /\ em_inv F mem') (or_bad (amqp_decode w encoded) (o, mem)).
Proof.
  intros Ho Hm. unfold or_bad. rewrite decode_cases by lia. pose proof (width_pos w).
  destruct (Z.leb_spec (o + width_bytes w) (zlen encoded)); cbn; [|split; [by left|done]].
  split_and!; [done..| | |done]; apply amqp_d_range; try (by apply Forall_zdrop); rewrite zlen_zdrop; lia.
Qed.
Lemma dpost_bytes len F o mem :
  0 <= o <= zlen encoded -> 0 <= len < 2 ^ 32 -> em_inv F mem ->
  dpost (stops_with F) (fun s o' mem' => o' = o + len /\ o' <= zlen encoded /\
    is_bytes s = true /\ zlen s = len /\ em_inv F mem') (or_bad (amqp_decode_bytes encoded len) (o, mem)).
Proof.
  intros Ho Hl Hm. unfold or_bad. rewrite decode_bytes_cases by lia.
  destruct (Z.leb_spec (o + len) (zlen encoded)); cbn; [|split; [by left|done]].
  split_and!; [done..| |by rewrite zlen_zslice by lia|done].
  apply is_bytes_spec. unfold zslice. by apply Forall_ztake, Forall_zdrop.
Qed.

(** A decoder of one value: it takes at least a byte, stays inside the input
    and gives back the memory it borrowed. *)
Definition decodes_value (dec : decoder M field_value) (o : Z) : Prop :=
  forall F mem, em_inv F mem ->
    dpost (stops_with F) (fun v o' mem' => o < o' <= zlen encoded /\ canon v = true /\ em_inv F mem')
      (dec (o, mem)).

(** The array has room for entry [num] after this. *)
Lemma dpost_grow sizeof entries num allocated F o mem E :
  0 <= num < 2 ^ 30 -> num <= allocated <= 2 * num + 16 -> 16 <= allocated -> 0 <= sizeof <= 64 ->
  em_inv (entries :: F) mem ->
  dpost E (fun g o' mem' => o' = o /\
    match g with
    | None => em_inv (entries :: F) mem'
    | Some (entries', allocated') =>
        num < allocated' <= 2 * (num + 1) + 16 /\ 16 <= allocated' /\ em_inv (entries' :: F) mem'
    end) (grow_entries sizeof entries num allocated (o, mem)).
Proof.
  intros Hn Ha H16 Hs Hm. unfold grow_entries. destruct (Z.leb_spec allocated num).
  - assert (allocated = num) as -> by lia.
    destruct (em_realloc_ok F mem entries (u64 (i32 (num * 2) * sizeof)) Hm) as (r & mem' & Hr & Hi);
      [apply u64_range|].
    unfold in_mem, mbind, SE_bind. rewrite Hr. cbn. split; [done|].
    destruct r as [b|]; cbn in *; [|done].
    destruct (Z.eq_dec num (2 ^ 30)) as [->|]; [lia|]. rewrite i32_id by lia. split_and!; lia || done.
  - cbn. split; [done|]. split_and!; lia || done.
Qed.
Lemma store_entry_ok {B} num allocated (k : () -> decoder M B) s :
  num < allocated -> (store_entry num allocated ≫= k) s = k tt s.
Proof. intros. unfold store_entry. by rewrite (proj2 (Z.ltb_lt _ _)). Qed.

(** What a loop ends with: a status, or good entries, no more than the bytes
    it passed; and the array it has then. *)
Definition loop_end {A} (good : A -> bool) (F : list nat) (o : Z) (r : (Z + list A) * nat) (o' : Z) (mem' : M) : Prop :=
  em_inv (r.2 :: F) mem' /\
  match r.1 with
  | inl res => bad_status res
  | inr vs => o <= o' <= zlen encoded /\ forallb good vs = true /\ zlen vs <= o'
  end.

Lemma forallb_snoc {A} (f : A -> bool) l x : forallb f (l ++ [x]) = forallb f l && f x.
Proof. rewrite forallb_app. simpl. by rewrite andb_true_r. Qed.

Lemma dpost_array_loop dec fuel limit entries num allocated acc F o mem E :
  (forall o', o <= o' < limit -> decodes_value dec o') ->
  0 <= o <= zlen encoded -> limit <= zlen encoded -> limit - o <= Z.of_nat fuel ->
  zlen acc = num -> num <= o -> num <= allocated <= 2 * num + 16 -> 16 <= allocated ->
  forallb canon acc = true -> em_inv (entries :: F) mem ->
  dpost E (loop_end canon F o) (decode_array_loop dec fuel limit entries num allocated acc (o, mem)).
Proof.
  revert entries num allocated acc o mem. induction fuel as [|fuel IH];
    intros entries num allocated acc o mem Hdec Ho Hlim Hf Hz Hno Hal H16 Hacc Hm; cbn [decode_array_loop];
    rewrite (SE_bind_ok (gets _) _ _ _ _ eq_refl); cbn [fst];
    destruct (Z.ltb_spec o limit) as [Hlt|Hge]; cbn [negb]; try lia;
    try (cbn; split; [done|]; split_and!; done || lia).
  eapply dpost_bind; [apply (dpost_grow sizeof_field_value entries num allocated F); [zlen_facts; lia|lia|lia|by vm_compute; split|done]|].
  intros g o1 mem1 [-> Hg]. destruct g as [[entries' allocated']|]; [|cbn; split; [done|by right]].
  destruct Hg as (Hn & H16' & Hm1). rewrite (store_entry_ok num allocated') by lia. eapply dpost_bind; [apply (dpost_status (entries' :: F)), (Hdec o); [lia|done]|].
  intros r o2 mem2 Hr. destruct r as [res|v]; [by destruct Hr|]. destruct Hr as (Ho2 & Hv & Hm2).
  eapply dpost_mono; [apply (IH entries' (num + 1) allocated' (acc ++ [v]) o2 mem2)|].
  - intros o' Ho'. apply Hdec. lia.
  - lia.
  - done.
  - lia.
  - rewrite zlen_snoc. lia.
  - lia.
  - lia.
  - done.
  - by rewrite forallb_snoc, Hacc, Hv.
  - done.
  - intros [[res|vs] e] o' mem' [Hi Hx]; split; cbn in *; [done|done|done|].
    destruct Hx as (? & ? & ?). split_and!; lia || done.
Qed.

Lemma dpost_table_loop dec fuel limit entries num allocated acc F o mem E :
  (forall o', o < o' <= zlen encoded -> decodes_value dec o') ->
  0 <= o <= zlen encoded -> limit <= zlen encoded -> limit - o <= Z.of_nat fuel ->
  zlen acc = num -> num <= o -> num <= allocated <= 2 * num + 16 -> 16 <= allocated ->
  forallb canon_entry acc = true -> em_inv (entries :: F) mem ->
  dpost E (loop_end canon_entry F o)
    (decode_table_loop encoded dec fuel limit entries num allocated acc (o, mem)).
Proof.
  revert entries num allocated acc o mem. induction fuel as [|fuel IH];
    intros entries num allocated acc o mem Hdec Ho Hlim Hf Hz Hno Hal H16 Hacc Hm; cbn [decode_table_loop];
    rewrite (SE_bind_ok (gets _) _ _ _ _ eq_refl); cbn [fst];
    destruct (Z.ltb_spec o limit) as [Hlt|Hge]; cbn [negb]; try lia;
    try (cbn; split; [done|]; split_and!; done || lia).
  eapply dpost_bind; [apply (dpost_status (entries :: F)), (dpost_int W8); [lia|done]|].
  intros r o1 mem1 Hr. destruct r as [res|keylen]; [by destruct Hr|].
  cbn [width_bytes] in Hr. destruct Hr as (-> & Ho1 & Hkl & Hm1).
  eapply dpost_bind; [apply (dpost_grow sizeof_table_entry entries num allocated F); [zlen_facts; lia|lia|lia|by vm_compute; split|done]|].
  intros g o2 mem2 [-> Hg]. destruct g as [[entries' allocated']|]; [|cbn; split; [done|by right]].
  destruct Hg as (Hn & H16' & Hm2). rewrite (store_entry_ok num allocated') by lia.
  eapply dpost_bind.
  { apply (dpost_status (entries' :: F) E (fun e o' mem' => o + 1 < o' <= zlen encoded /\
      canon_entry e = true /\ em_inv (entries' :: F) mem')).
    eapply dpost_bind; [apply dpost_bytes; [lia|change (2 ^ (8 * 1)) with 256 in Hkl; lia|done]|].
    intros key o3 mem3 (-> & Ho3 & Hkey & Hkz & Hm3).
    eapply dpost_bind; [apply (Hdec (o + 1 + keylen)); [lia|done]|].
    intros v o4 mem4 (Ho4 & Hv & Hm4). cbn. split; [lia|]. split; [|done].
    unfold canon_entry. cbn [fst snd]. rewrite Hkey, Hv, (proj2 (Z.leb_le _ _)); [done|].
    change (2 ^ (8 * 1)) with 256 in Hkl. lia. }
  intros r o3 mem3 Hr. destruct r as [res|e]; [by destruct Hr|]. destruct Hr as (Ho3 & He & Hm3).
  eapply dpost_mono; [apply (IH entries' (num + 1) allocated' (acc ++ [e]) o3 mem3)|].
  - intros o' Ho'. apply Hdec. lia.
  - lia.
  - done.
  - lia.
  - rewrite zlen_snoc. lia.
  - lia.
  - lia.
  - done.
  - by rewrite forallb_snoc, Hacc, He.
  - done.
  - intros [[res|vs] b] o' mem' [Hi Hx]; split; cbn in *; [done|done|done|].
    destruct Hx as (? & ? & ?). split_and!; lia || done.
Qed.
(** The frame around a loop gives back the array on every path. *)
Lemma dpost_sized {A} (good : A -> bool) sizeof initial (loop : Z -> nat -> decoder M ((Z + list A) * nat)) F o mem :
  0 <= o <= zlen encoded -> 0 <= sizeof <= 64 -> 0 <= initial <= 64 -> em_inv F mem ->
  (forall limit entries mem', o + 4 <= zlen encoded -> limit <= zlen encoded -> em_inv (entries :: F) mem' ->
     dpost (stops_with F) (loop_end good F (o + 4)) (loop limit entries (o + 4, mem'))) ->
  dpost (stops_with F) (fun vs o' mem' => o < o' <= zlen encoded /\ forallb good vs = true /\ em_inv F mem')
    (decode_sized encoded sizeof initial loop (o, mem)).
Proof.
  intros Ho Hs Hi Hm Hloop. unfold decode_sized.
  eapply dpost_bind; [by apply (dpost_int W32 F)|]. intros size o1 mem1 (-> & Ho1 & Hsz & Hm1).
  cbn [width_bytes] in *. change (2 ^ (8 * 4)) with (2 ^ 32) in Hsz.
  assert (Hprod : 0 <= initial * sizeof <= 4096) by nia.
  rewrite (SE_bind_ok (gets _) _ _ _ _ eq_refl). cbn [fst]. rewrite !u64_id by lia.
  destruct (Z.ltb_spec (zlen encoded) (size + (o + 4))); [split; [by left|done]|].
  destruct (em_malloc_ok F mem1 (initial * sizeof) Hm1) as (r & mem2 & Hr & Hm2); [lia|].
  rewrite (SE_bind_ok _ _ _ _ _ (in_mem_ok _ _ _ _ _ Hr)).
  destruct r as [entries|]; [|cbn in *; split; [by right|done]]. cbn [option_list app] in Hm2.
  eapply dpost_bind; [apply Hloop; [done|lia|done]|].
  intros [r entries'] o3 mem3 [Hm3 Hend]. cbn [fst snd] in *.
  assert (Hfree : forall (res : Z + list A) mem4, em_inv (entries' :: F) mem4 ->
    (match res with inl res => bad_status res
     | inr vs => o < o3 <= zlen encoded /\ forallb good vs = true end) ->
    dpost (stops_with F) (fun vs o' mem' => o < o' <= zlen encoded /\ forallb good vs = true /\ em_inv F mem')
      ((_ ← in_mem (em_free entries');
        match res with inl res => throw (Status res) | inr vs => mret vs end) (o3, mem4))).
  { intros res mem4 Hm4 Hres. destruct (em_free_ok F mem4 entries' Hm4) as (mem5 & Hf & Hm5).
    rewrite (SE_bind_ok _ _ _ _ _ (in_mem_ok _ _ _ _ _ Hf)). destruct res as [res|vs]; cbn; [done|]. tauto. }
  destruct r as [res|vs]; cbv iota beta.
  - rewrite SE_bind_ret_l. by apply (Hfree (inl res)).
  - destruct Hend as (Ho3 & Hgood & Hz). zlen_facts. rewrite SE_bind_assoc.
    destruct (em_pool_alloc_ok (entries' :: F) mem3 (u64 (zlen vs * sizeof)) Hm3) as (blk & mem4 & Hb & Hm4).
    { rewrite u64_id by nia. nia. }
    rewrite (SE_bind_ok _ _ _ _ _ (in_mem_ok _ _ _ _ _ Hb)), SE_bind_ret_l.
    destruct blk as [p|]; [apply (Hfree (inr vs)); [done|split; [lia|done]]|].
    destruct (zlen vs =? 0); [apply (Hfree (inr vs)); [done|split; [lia|done]]|].
    apply (Hfree (inl AMQP_STATUS_NO_MEMORY)); [done|by right].
Qed.

Lemma dpost_decode_int w how F o mem :
  (forall v, 0 <= v < 2 ^ (8 * width_bytes w) -> canon (how v) = true) ->
  0 <= o <= zlen encoded -> em_inv F mem ->
  dpost (stops_with F) (fun v o' mem' => o <= o' <= zlen encoded /\ canon v = true /\ em_inv F mem')
    (decode_int w encoded how (o, mem)).
Proof.
  intros Hhow Ho Hm. unfold decode_int. eapply dpost_bind; [by apply (dpost_int w F)|].
  intros v o1 mem1 (-> & Ho1 & Hv & Hm1). pose proof (width_pos w). cbn. split; [lia|]. auto.
Qed.

(** One value, given that the values inside it decode. *)
Lemma dpost_value_with dec fuel o :
  (forall o', o < o' <= zlen encoded -> decodes_value dec o') ->
  0 <= o <= zlen encoded -> zlen encoded - o <= Z.of_nat fuel + 1 ->
  decodes_value (decode_field_value_with dec fuel encoded) o.
Proof.
  intros Hdec Ho Hf F mem Hm. unfold decode_field_value_with, decode_kind.
  eapply dpost_bind; [by apply (dpost_int W8 F)|]. intros kind o1 mem1 (-> & Ho1 & _ & Hm1).
  cbn [width_bytes] in *.
  assert (Hmono : forall m, dpost (stops_with F)
      (fun v o' mem' => o + 1 <= o' <= zlen encoded /\ canon v = true /\ em_inv F mem') m ->
    dpost (stops_with F) (fun v o' mem' => o < o' <= zlen encoded /\ canon v = true /\ em_inv F mem') m).
  { intros m Hd. eapply dpost_mono; [exact Hd|]. intros v o' mem' (? & ? & ?). split_and!; [lia|lia|done|done]. }
  apply Hmono.
  assert (Hint : forall w how, (forall v, 0 <= v < 2 ^ (8 * width_bytes w) -> canon (how v) = true) ->
    dpost (stops_with F) (fun v o' mem' => o + 1 <= o' <= zlen encoded /\ canon v = true /\ em_inv F mem')
      (decode_int w encoded how (o + 1, mem1))).
  { intros w how Hhow. apply dpost_decode_int; [done|lia|done]. }
  repeat (match goal with |- context [if ?c then decode_int _ _ _ else _] => destruct c end; [apply Hint; intros v Hv;
    cbn [width_bytes] in Hv; cbn [canon]; apply in_range_spec; unfold truthy, i8, i16, i32, i64;
    first [ by destruct (v =? 0); cbn; lia | done | match goal with |- context [?a mod ?b] => pose proof (Z.mod_pos_bound a b ltac:(lia)) end; lia]|]).
  destruct (kind =? AMQP_FIELD_KIND_DECIMAL).
  { eapply dpost_bind; [apply (dpost_int W8 F); [lia|done]|]. intros d o2 mem2 (-> & Ho2 & Hd & Hm2).
    cbn [width_bytes] in *.
    eapply dpost_bind; [apply (dpost_int W32 F); [lia|done]|]. intros v o3 mem3 (-> & Ho3 & Hv & Hm3).
    cbn [width_bytes] in *. split; [lia|]. split; [|done]. cbn [canon].
    by apply andb_true_intro; split; apply in_range_spec. }
  destruct (_ || _).
  { eapply dpost_bind; [apply (dpost_int W32 F); [lia|done]|]. intros len o2 mem2 (-> & Ho2 & Hl & Hm2).
    cbn [width_bytes] in *.
    eapply dpost_bind; [apply (dpost_bytes len F); [lia|done|done]|].
    intros bs o3 mem3 (-> & Ho3 & Hbs & _ & Hm3). split; [lia|]. split; [|done]. by destruct (_ =? _). }
  destruct (kind =? AMQP_FIELD_KIND_ARRAY).
  { eapply dpost_bind.
    { apply (dpost_sized canon); [lia|by vm_compute; split|by vm_compute; split|done|].
      intros limit entries mem2 Ho4 Hlim Hm2. apply dpost_array_loop; try done; try lia.
      intros o' Ho'. apply Hdec. lia. }
    intros es o2 mem2 (Ho2 & Hes & Hm2). split; [lia|]. done. }
  destruct (kind =? AMQP_FIELD_KIND_TIMESTAMP).
  { apply Hint. intros v Hv. by apply in_range_spec. }
  destruct (kind =? AMQP_FIELD_KIND_TABLE).
  { eapply dpost_bind.
    { apply (dpost_sized canon_entry); [lia|by vm_compute; split|by vm_compute; split|done|].
      intros limit entries mem2 Ho4 Hlim Hm2. apply dpost_table_loop; try done; try lia.
      intros o' Ho'. apply Hdec. lia. }
    intros es o2 mem2 (Ho2 & Hes & Hm2). split; [lia|]. done. }
  destruct (kind =? AMQP_FIELD_KIND_VOID); [split; [lia|done]|split; [by left|done]].
Qed.

(** With fuel for every byte left, a value decodes. *)
Lemma decode_field_value_safe fuel o :
  0 <= o <= zlen encoded -> zlen encoded - o < Z.of_nat fuel ->
  decodes_value (amqp_decode_field_value fuel encoded) o.
Proof.
  revert o. induction fuel as [|fuel IH]; intros o Ho Hf; [lia|]. cbn [amqp_decode_field_value].
  apply dpost_value_with; [|done|lia]. intros o' Ho'. apply IH; lia.
Qed.

Lemma decode_table_safe F o mem :
  0 <= o <= zlen encoded -> em_inv F mem ->
  dpost (stops_with F) (fun t o' mem' => o < o' <= zlen encoded /\ forallb canon_entry t = true /\ em_inv F mem')
    (amqp_decode_table encoded (o, mem)).
Proof.
  intros Ho Hm. unfold amqp_decode_table, decode_table_with. cbv zeta.
  assert (Hfuel : zlen encoded < Z.of_nat (S (length encoded))) by (unfold zlen; lia).
  apply (dpost_sized canon_entry); [done|by vm_compute; split|by vm_compute; split|done|].
  intros limit entries mem2 Ho4 Hlim Hm2. apply dpost_table_loop; try done; try lia.
  intros o' Ho'. apply decode_field_value_safe; lia.
Qed.
End decoder_safe.

(** ** The decoder on what the encoder wrote *)

Lemma zlen_sized body : zlen (sized body) = 4 + zlen body.
Proof. unfold sized. by rewrite zlen_app, zlen_amqp_e. Qed.
Lemma Forall_u8_concat (ls : list (list Z)) : Forall (Forall is_u8) ls -> Forall is_u8 (concat ls).
Proof. induction 1; simpl; [constructor|]. by apply Forall_app. Qed.
Lemma enc_u8 v : canon v = true -> Forall is_u8 (enc v).
Proof.
  induction v as [v Ha Ht|es IH|es IH] using field_value_nested_ind; intros Hc.
  - destruct v; try discriminate; try (by destruct (Ha entries)); try (by destruct (Ht entries));
      cbn [enc]; repeat (apply Forall_app; split); try apply amqp_e_u8; try constructor; by apply is_bytes_spec.
  - cbn [enc canon] in *. repeat (apply Forall_app; split); try apply amqp_e_u8.
    apply Forall_u8_concat. rewrite forallb_forall in Hc. rewrite List.Forall_forall in *.
    intros l (v & <- & Hv)%in_map_iff. auto.
  - cbn [enc canon] in *. repeat (apply Forall_app; split); try apply amqp_e_u8.
    apply Forall_u8_concat. rewrite forallb_forall in Hc. rewrite List.Forall_forall in *.
    intros l (e & <- & He)%in_map_iff. specialize (Hc e He). cbn in Hc.
    apply andb_prop in Hc as [[Hk _]%andb_prop Hv].
    repeat (apply Forall_app; split); [apply (amqp_e_u8 W8)|by apply is_bytes_spec|auto].
Qed.
Lemma enc_entry_u8 e : canon_entry e = true -> Forall is_u8 (enc_entry e).
Proof.
  unfold canon_entry. intros [[Hk _]%andb_prop Hv]%andb_prop.
  repeat (apply Forall_app; split); [apply (amqp_e_u8 W8)|by apply is_bytes_spec|by apply enc_u8].
Qed.

Lemma enc_entry_eq key v : enc_entry (key, v) = amqp_e W8 (zlen key) ++ key ++ enc v.
Proof. done. Qed.

Section decoder_inverts.
Context {M : Type} `{EntryMemTotal M}.

(** [m] reads [data] as [a]: wherever [data] stands in the input, with any
    memory, [m] returns [a] and moves behind [data]. *)
Definition Reads {A} (m : list Z -> decoder M A) (data : list Z) (a : A) : Prop :=
  forall pre rest F mem, Forall is_u8 rest -> zlen (pre ++ data ++ rest) < 2 ^ 30 -> em_inv F mem ->
    exists mem', m (pre ++ data ++ rest) (zlen pre, mem) = (inr a, (zlen pre + zlen data, mem')) /\ em_inv F mem'.

Lemma status_ok {A} (m : decoder M A) s a s' : m s = (inr a, s') -> status m s = (inr (inr a), s').
Proof. unfold status. by intros ->. Qed.
Lemma Reads_int w v :
  Reads (fun encoded => or_bad (amqp_decode w encoded)) (amqp_e w v) (v mod 2 ^ (8 * width_bytes w)).
Proof.
  intros pre rest F mem Hr Hl Hm. exists mem. split; [|done]. rewrite zlen_app in Hl. zlen_facts.
  unfold or_bad. by rewrite decode_at, zlen_amqp_e by (done || lia).
Qed.
Lemma Reads_bytes s : Reads (fun encoded => or_bad (amqp_decode_bytes encoded (zlen s))) s s.
Proof.
  intros pre rest F mem Hr Hl Hm. exists mem. split; [|done]. rewrite !zlen_app in Hl. zlen_facts.
  unfold or_bad. by rewrite decode_bytes_at by lia.
Qed.
Lemma Reads_ret {A} (a : A) : Reads (fun _ => mret a) [] a.
Proof. intros pre rest F mem _ _ Hm. exists mem. split; [|done]. by rewrite zlen_nil, Z.add_0_r. Qed.
Lemma Reads_bind {A B} (m : list Z -> decoder M A) (k : list Z -> A -> decoder M B) d1 d2 a b :
  Reads m d1 a -> Reads (fun encoded => k encoded a) d2 b -> Forall is_u8 d2 ->
  Reads (fun encoded => a ← m encoded; k encoded a) (d1 ++ d2) b.
Proof.
  intros Hra Hrb Hd pre rest F mem Hr Hl Hm. rewrite <- (app_assoc d1 d2 rest) in *.
  destruct (Hra pre (d2 ++ rest) F mem) as (mem1 & Hx1 & Hm1); [by apply Forall_app|done|done|].
  destruct (Hrb (pre ++ d1) rest F mem1) as (mem2 & Hx2 & Hm2); [done|by rewrite <- app_assoc|done|].
  rewrite <- app_assoc in Hx2. exists mem2. split; [|done]. rewrite (SE_bind_ok _ _ _ _ _ Hx1).
  rewrite !zlen_app in *. by rewrite Hx2, Z.add_assoc.
Qed.
Lemma Reads_map {A B} (m : list Z -> decoder M A) (f : A -> B) d a :
  Reads m d a -> Reads (fun encoded => a ← m encoded; mret (f a)) d (f a).
Proof.
  intros Hm. rewrite <- (app_nil_r d).
  apply (Reads_bind m (fun _ a => mret (f a)) d [] a); [done|apply Reads_ret|constructor].
Qed.

Lemma grow_total sizeof entries num allocated F (o : Z) mem :
  0 <= num < 2 ^ 30 -> num <= allocated <= 2 * num + 16 -> 16 <= allocated -> 0 <= sizeof <= 64 ->
  em_inv (entries :: F) mem ->
  exists entries' allocated' mem',
    grow_entries sizeof entries num allocated (o, mem) = (inr (Some (entries', allocated')), (o, mem')) /\
    num < allocated' <= 2 * (num + 1) + 16 /\ 16 <= allocated' /\ em_inv (entries' :: F) mem'.
Proof.
  intros Hn Ha H16 Hs Hm. unfold grow_entries. destruct (Z.leb_spec allocated num) as [Hle|Hgt].
  - assert (allocated = num) as -> by lia. pose proof (u64_range (i32 (num * 2) * sizeof)) as [Hu _].
    destruct (em_realloc_ok F mem entries _ Hm Hu) as (r & mem' & Hr & Hi).
    destruct (em_realloc_total F mem entries _ Hm Hu) as (b & mem2 & Hr2).
    rewrite Hr in Hr2. injection Hr2 as -> <-.
    rewrite (SE_bind_ok _ _ _ _ _ (in_mem_ok _ o _ _ _ Hr)). rewrite i32_id by lia.
    eexists _, _, _. split; [reflexivity|]. split_and!; lia || done.
  - eexists _, _, _. split; [reflexivity|]. split_and!; lia || done.
Qed.

(** A loop over the encodings of [es], one after the other. *)
Lemma array_loop_reads (dec : list Z -> decoder M field_value) es fuel pre rest entries num allocated acc F mem :
  Forall (fun v => Reads dec (enc v) v /\ Forall is_u8 (enc v)) es ->
  let encoded := pre ++ concat (map enc es) ++ rest in
  let limit := zlen pre + zlen (concat (map enc es)) in
  Forall is_u8 rest -> zlen encoded < 2 ^ 30 -> (length es <= fuel)%nat ->
  0 <= num <= zlen pre -> num <= allocated <= 2 * num + 16 -> 16 <= allocated -> em_inv (entries :: F) mem ->
  exists entries' mem',
    decode_array_loop (dec encoded) fuel limit entries num allocated acc (zlen pre, mem)
    = (inr (inr (acc ++ es), entries'), (limit, mem')) /\ em_inv (entries' :: F) mem'.
Proof.
  intros Hes. revert fuel pre entries num allocated acc mem.
  induction Hes as [|v es [Hv Hv8] Hes IH]; intros fuel pre entries num allocated acc mem encoded limit Hr Hl Hf Hn Ha H16 Hm;
    cbn [map concat] in *.
  - exists entries, mem. split; [|done]. subst limit. rewrite app_nil_r, zlen_nil, Z.add_0_r.
    destruct fuel; cbn [decode_array_loop]; rewrite (SE_bind_ok (gets _) _ _ _ _ eq_refl); cbn [fst];
      by rewrite Z.ltb_irrefl.
  - destruct fuel as [|fuel]; [cbn in Hf; lia|]. cbn [decode_array_loop].
    rewrite (SE_bind_ok (gets _) _ _ _ _ eq_refl); cbn [fst].
    assert (Hpos : 0 < zlen (enc v)).
    { zlen_facts. assert (zlen (enc v) <> 0) by (intros Hz%zlen_0_nil; by apply (enc_nonempty v)). lia. }
    subst encoded limit. rewrite !zlen_app in *. zlen_facts. rewrite (proj2 (Z.ltb_lt _ _)) by lia. cbn [negb].
    destruct (grow_total sizeof_field_value entries num allocated F (zlen pre) mem) as (e' & a' & mem1 & Hg & Hb & H16' & Hm1);
      [lia|done|done|by vm_compute; split|done|].
    rewrite (SE_bind_ok _ _ _ _ _ Hg). rewrite store_entry_ok by lia.
    assert (Hu : Forall is_u8 (concat (map enc es) ++ rest)).
    { apply Forall_app. split; [|done]. apply Forall_u8_concat, List.Forall_forall.
      intros l (x & <- & Hx)%in_map_iff. rewrite List.Forall_forall in Hes. by apply Hes. }
    rewrite <- (app_assoc (enc v)).
    destruct (Hv pre (concat (map enc es) ++ rest) (e' :: F) mem1 Hu) as (mem2 & Hd & Hm2);
      [rewrite !zlen_app; lia|done|].
    rewrite (SE_bind_ok _ _ _ _ _ (status_ok _ _ _ _ Hd)).
    destruct (IH fuel (pre ++ enc v) e' (num + 1) a' (acc ++ [v]) mem2) as (e2 & mem3 & Hx & Hm3);
      [done|rewrite !zlen_app; lia|cbn in Hf; lia|rewrite zlen_app; lia|lia|done|done|].
    exists e2, mem3. split; [|done]. rewrite <- !app_assoc in Hx. rewrite !zlen_app in Hx.
    rewrite Z.add_assoc. exact Hx.
Qed.
Lemma table_loop_reads (dec : list Z -> decoder M field_value) es fuel pre rest entries num allocated acc F mem :
  Forall (fun e => Reads dec (enc e.2) e.2 /\ canon_entry e = true) es ->
  let encoded := pre ++ concat (map enc_entry es) ++ rest in
  let limit := zlen pre + zlen (concat (map enc_entry es)) in
  Forall is_u8 rest -> zlen encoded < 2 ^ 30 -> (length es <= fuel)%nat ->
  0 <= num <= zlen pre -> num <= allocated <= 2 * num + 16 -> 16 <= allocated -> em_inv (entries :: F) mem ->
  exists entries' mem',
    decode_table_loop encoded (dec encoded) fuel limit entries num allocated acc (zlen pre, mem)
    = (inr (inr (acc ++ es), entries'), (limit, mem')) /\ em_inv (entries' :: F) mem'.
Proof.
  intros Hes. revert fuel pre entries num allocated acc mem.
  induction Hes as [|[key v] es [Hv Hc] Hes IH]; intros fuel pre entries num allocated acc mem encoded limit Hr Hl Hf Hn Ha H16 Hm;
    cbn [map concat] in *.
  - exists entries, mem. split; [|done]. subst limit. rewrite app_nil_r, zlen_nil, Z.add_0_r.
    destruct fuel; cbn [decode_table_loop]; rewrite (SE_bind_ok (gets _) _ _ _ _ eq_refl); cbn [fst];
      by rewrite Z.ltb_irrefl.
  - destruct fuel as [|fuel]; [cbn in Hf; lia|]. cbn [decode_table_loop].
    rewrite (SE_bind_ok (gets _) _ _ _ _ eq_refl); cbn [fst].
    pose proof (enc_entry_u8 _ Hc) as He8. unfold canon_entry in Hc. cbn [fst snd] in *.
    apply andb_prop in Hc as [[Hk8%is_bytes_spec Hk%Z.leb_le]%andb_prop Hcv]. pose proof (enc_u8 v Hcv) as Hv8.
    assert (Hu : Forall is_u8 (concat (map enc_entry es) ++ rest)).
    { apply Forall_app. split; [|done]. apply Forall_u8_concat, List.Forall_forall.
      intros l (x & <- & Hx)%in_map_iff. rewrite List.Forall_forall in Hes. by apply enc_entry_u8, Hes. }
    assert (Hze : zlen (enc_entry (key, v)) = 1 + zlen key + zlen (enc v))
      by (unfold enc_entry; cbn [fst snd]; rewrite !zlen_app, zlen_amqp_e; cbn [width_bytes]; lia).
    subst encoded limit. rewrite !zlen_app in *. rewrite Hze in *. zlen_facts.
    rewrite (proj2 (Z.ltb_lt _ _)) by lia. cbn [negb]. rewrite <- (app_assoc (enc_entry _)).
    rewrite enc_entry_eq, <- !app_assoc.
    set (tail := concat (map enc_entry es) ++ rest) in *.
    assert (Hzt : zlen tail = zlen (concat (map enc_entry es)) + zlen rest) by (subst tail; by rewrite zlen_app).
    destruct (Reads_int W8 (zlen key) pre (key ++ enc v ++ tail) (entries :: F) mem) as (mem0 & Hd0 & Hm0);
      [apply Forall_app_2; [done|by apply Forall_app_2]|rewrite !zlen_app, zlen_amqp_e; cbn [width_bytes]; lia|done|].
    rewrite zlen_amqp_e in Hd0. cbn [width_bytes] in Hd0. change (2 ^ (8 * 1)) with 256 in Hd0.
    rewrite Z.mod_small in Hd0 by lia.
    rewrite (SE_bind_ok _ _ _ _ _ (status_ok _ _ _ _ Hd0)).
    destruct (grow_total sizeof_table_entry entries num allocated F (zlen pre + 1) mem0) as (e' & a' & mem1 & Hg & Hb & H16' & Hm1);
      [lia|done|done|by vm_compute; split|done|].
    rewrite (SE_bind_ok _ _ _ _ _ Hg). rewrite store_entry_ok by lia.
    set (whole := pre ++ amqp_e W8 (zlen key) ++ key ++ enc v ++ tail) in *.
    assert (Hd : exists mem2, (key ← or_bad (amqp_decode_bytes whole (zlen key)); v ← dec whole; mret (key, v))
        (zlen pre + 1, mem1)
      = (inr (key, v), (zlen pre + 1 + zlen key + zlen (enc v), mem2)) /\ em_inv (e' :: F) mem2).
    { destruct (Reads_bytes key (pre ++ amqp_e W8 (zlen key)) (enc v ++ tail) (e' :: F) mem1) as (mem2 & Hd1 & Hm2);
        [by apply Forall_app_2|rewrite !zlen_app, zlen_amqp_e; cbn [width_bytes]; lia|done|].
      destruct (Hv (pre ++ amqp_e W8 (zlen key) ++ key) tail (e' :: F) mem2 Hu) as (mem3 & Hd2 & Hm3);
        [rewrite !zlen_app, zlen_amqp_e; cbn [width_bytes]; lia|done|].
      rewrite <- !app_assoc in Hd1. rewrite <- !app_assoc in Hd2.
      rewrite !zlen_app, !zlen_amqp_e in Hd1. rewrite !zlen_app, !zlen_amqp_e in Hd2. cbn [width_bytes] in Hd1, Hd2.
      fold whole in Hd1, Hd2.
      rewrite !Z.add_assoc in Hd2. rewrite (SE_bind_ok _ _ _ _ _ Hd1), (SE_bind_ok _ _ _ _ _ Hd2).
      exists mem3. done. }
    destruct Hd as (mem2 & Hd & Hm2).
    rewrite (SE_bind_ok _ _ _ _ _ (status_ok _ _ _ _ Hd)).
    destruct (IH fuel (pre ++ enc_entry (key, v)) e' (num + 1) a' (acc ++ [(key, v)]) mem2) as (e2 & mem3 & Hx & Hm3);
      [done|rewrite !zlen_app, Hze; lia|cbn in Hf; lia|rewrite zlen_app, Hze; lia|lia|done|done|].
    exists e2, mem3. split; [|done]. rewrite zlen_app, Hze in Hx. rewrite enc_entry_eq, <- !app_assoc in Hx. fold tail whole in Hx. rewrite !Z.add_assoc in *. exact Hx.
Qed.
Lemma sized_reads {A} sizeof initial (loop : list Z -> Z -> nat -> decoder M ((Z + list A) * nat)) body (vs : list A) :
  0 < sizeof <= 64 -> 0 <= initial <= 64 -> zlen vs <= zlen body -> Forall is_u8 body ->
  (forall pre rest entries F mem, 4 <= zlen pre -> Forall is_u8 rest -> zlen (pre ++ body ++ rest) < 2 ^ 30 ->
     em_inv (entries :: F) mem ->
     exists entries' mem', loop (pre ++ body ++ rest) (zlen pre + zlen body) entries (zlen pre, mem)
       = (inr (inr vs, entries'), (zlen pre + zlen body, mem')) /\ em_inv (entries' :: F) mem') ->
  Reads (fun encoded => decode_sized encoded sizeof initial (loop encoded)) (sized body) vs.
Proof.
  intros Hs Hi Hvs Hb8 Hloop pre rest F mem Hr Hl Hm. unfold decode_sized.
  assert (Hsz := zlen_sized body). rewrite !zlen_app in Hl. unfold sized in *. rewrite <- app_assoc. zlen_facts.
  destruct (Reads_int W32 (zlen body) pre (body ++ rest) F mem) as (mem1 & Hd & Hm1);
    [by apply Forall_app_2|rewrite !zlen_app in *; rewrite zlen_amqp_e; cbn [width_bytes]; lia|done|].
  rewrite zlen_amqp_e in Hd. cbn [width_bytes] in Hd. rewrite Z.mod_small in Hd by (change (8 * 4) with 32; lia).
  rewrite (SE_bind_ok _ _ _ _ _ Hd). rewrite (SE_bind_ok (gets _) _ _ _ _ eq_refl). cbn [fst].
  assert (Hprod : 0 <= initial * sizeof <= 4096) by nia. rewrite !u64_id by lia.
  rewrite (proj2 (Z.ltb_ge _ _)) by (rewrite !zlen_app, zlen_amqp_e; cbn [width_bytes]; lia).
  destruct (em_malloc_ok F mem1 (initial * sizeof) Hm1) as (r & mem2 & Hr2 & Hm2); [lia|].
  destruct (em_malloc_total F mem1 (initial * sizeof) Hm1) as (entries & mem2' & Hr2'); [lia|].
  rewrite Hr2 in Hr2'. injection Hr2' as -> <-. cbn [option_list app] in Hm2.
  rewrite (SE_bind_ok _ _ _ _ _ (in_mem_ok _ _ _ _ _ Hr2)).
  destruct (Hloop (pre ++ amqp_e W32 (zlen body)) rest entries F mem2) as (e' & mem3 & Hx & Hm3);
    [rewrite zlen_app, zlen_amqp_e; cbn [width_bytes]; lia|done|rewrite !zlen_app, zlen_amqp_e; cbn [width_bytes]; lia|done|].
  rewrite <- app_assoc in Hx. rewrite !zlen_app, zlen_amqp_e in Hx. cbn [width_bytes] in Hx.
  rewrite (SE_bind_ok _ _ _ _ _ Hx). rewrite SE_bind_assoc.
  destruct (em_pool_alloc_ok (e' :: F) mem3 (u64 (zlen vs * sizeof)) Hm3) as (blk & mem4 & Hb & Hm4);
    [rewrite u64_id by nia; nia|].
  rewrite (SE_bind_ok _ _ _ _ _ (in_mem_ok _ _ _ _ _ Hb)), SE_bind_ret_l.
  assert (Hblk : match blk with None => if zlen vs =? 0 then inr vs else inl AMQP_STATUS_NO_MEMORY
                 | Some _ => inr vs end = inr vs).
  { destruct blk as [q|]; [done|]. destruct (Z.eqb_spec (zlen vs) 0) as [|Hnz]; [done|]. exfalso.
    destruct (em_pool_alloc_total (e' :: F) mem3 (u64 (zlen vs * sizeof)) Hm3) as (q & mem5 & Hq);
      [rewrite u64_id by nia; nia|]. by rewrite Hb in Hq. }
  rewrite Hblk. destruct (em_free_ok F mem4 e' Hm4) as (mem5 & Hf & Hm5).
  rewrite (SE_bind_ok _ _ _ _ _ (in_mem_ok _ _ _ _ _ Hf)). exists mem5. split; [|done].
  by rewrite Hsz, Z.add_assoc.
Qed.

Lemma zlen_concat_ge {A} (f : A -> list Z) es : (forall e, f e <> []) -> zlen es <= zlen (concat (map f es)).
Proof.
  intros Hne. induction es as [|e es IH]; [done|]. cbn [map concat]. rewrite zlen_app, zlen_cons.
  assert (zlen (f e) <> 0) by (intros Hz%zlen_0_nil; by apply (Hne e)). zlen_facts. lia.
Qed.

(** The bytes of one kind, read by its case of the switch. *)
Lemma value_reads_with v fuel data :
  enc v = amqp_e W8 (kind_of v) ++ data -> 0 <= kind_of v < 256 -> Forall is_u8 data ->
  Reads (fun encoded => decode_kind (kind_of v) (amqp_decode_field_value fuel encoded) fuel encoded) data v ->
  Reads (amqp_decode_field_value (S fuel)) (enc v) v.
Proof.
  intros -> Hk Hd Hr. cbn [amqp_decode_field_value]. unfold decode_field_value_with.
  apply (Reads_bind (fun encoded => or_bad (amqp_decode W8 encoded))
    (fun encoded kind => decode_kind kind (amqp_decode_field_value fuel encoded) fuel encoded)
    _ _ (kind_of v)); [|done|done].
  pose proof (Reads_int W8 (kind_of v)) as Hi. cbn [width_bytes] in Hi. change (2 ^ (8 * 1)) with 256 in Hi.
  by rewrite Z.mod_small in Hi.
Qed.
Lemma Reads_decode_int w z how v :
  how (z mod 2 ^ (8 * width_bytes w)) = v -> Reads (fun encoded => decode_int w encoded how) (amqp_e w z) v.
Proof.
  intros <-. apply (Reads_map (fun encoded => or_bad (amqp_decode w encoded))), Reads_int.
Qed.
Ltac pick_kind :=
  unfold decode_kind; cbn [kind_of];
  repeat match goal with
  | |- context [?a =? ?b] =>
      let r := eval vm_compute in (a =? b) in change (a =? b) with r; cbv iota
  end; cbn [orb].
Ltac kind_byte := vm_compute; split; congruence.

Lemma Reads_length_bytes {B} s (f : list Z -> B) :
  Forall is_u8 s -> zlen s < 2 ^ 32 ->
  Reads (fun encoded => len ← or_bad (amqp_decode W32 encoded);
                        bytes ← or_bad (amqp_decode_bytes encoded len); mret (f bytes))
    (amqp_e W32 (zlen s) ++ s) (f s).
Proof.
  intros Hs Hl.
  apply (Reads_bind (fun encoded => or_bad (amqp_decode W32 encoded))
    (fun encoded len => bytes ← or_bad (amqp_decode_bytes encoded len); mret (f bytes)) _ _ (zlen s)); [| |done].
  - pose proof (Reads_int W32 (zlen s)) as Hi. rewrite Z.mod_small in Hi; [done|].
    zlen_facts. change (2 ^ (8 * width_bytes W32)) with (2 ^ 32). lia.
  - apply (Reads_map (fun encoded => or_bad (amqp_decode_bytes encoded (zlen s)))), Reads_bytes.
Qed.
Lemma Reads_decimal d z :
  0 <= d < 2 ^ 8 -> 0 <= z < 2 ^ 32 ->
  Reads (fun encoded => decimals ← or_bad (amqp_decode W8 encoded);
                        value ← or_bad (amqp_decode W32 encoded); mret (FV_DECIMAL decimals value))
    (amqp_e W8 d ++ amqp_e W32 z) (FV_DECIMAL d z).
Proof.
  intros Hd Hz.
  apply (Reads_bind (fun encoded => or_bad (amqp_decode W8 encoded))
    (fun encoded decimals => value ← or_bad (amqp_decode W32 encoded); mret (FV_DECIMAL decimals value)) _ _ d);
    [| |apply (amqp_e_u8 W32)].
  - pose proof (Reads_int W8 d) as Hi. by rewrite Z.mod_small in Hi.
  - apply (Reads_decode_int W32 z (FV_DECIMAL d)). by rewrite Z.mod_small.
Qed.

(** Reading a value of each kind but arrays and tables. *)
Lemma leaf_reads v fuel :
  canon v = true -> (forall es, v <> FV_ARRAY es) -> (forall es, v <> FV_TABLE es) -> zlen (enc v) < 2 ^ 30 ->
  Reads (amqp_decode_field_value (S fuel)) (enc v) v.
Proof.
  intros Hc Ha Ht Hl. pose proof (enc_u8 v Hc) as H8.
  destruct v; try discriminate; try (by destruct (Ha entries)); try (by destruct (Ht entries));
    (eapply value_reads_with; [reflexivity|kind_byte| |pick_kind]);
    try (cbn [enc] in H8; apply Forall_app in H8; exact (proj2 H8));
    cbn [canon] in Hc; try apply in_range_spec in Hc;
    try (apply Reads_decode_int; rewrite Z.mod_small by (cbn [width_bytes]; lia); done).
  - apply Reads_decode_int. assert (boolean = 0 \/ boolean = 1) as [-> | ->] by lia; done.
  - apply Reads_decode_int. f_equal. unfold i8. cbn [width_bytes]. change (8 * 1) with 8.
    rewrite Zplus_mod_idemp_l, Z.mod_small; lia.
  - apply Reads_decode_int. f_equal. unfold i16. cbn [width_bytes]. change (8 * 2) with 16.
    rewrite Zplus_mod_idemp_l, Z.mod_small; lia.
  - apply Reads_decode_int. f_equal. unfold Prelude.i32. cbn [width_bytes]. change (8 * 4) with 32.
    rewrite Zplus_mod_idemp_l, Z.mod_small; lia.
  - apply Reads_decode_int. f_equal. unfold Prelude.i64. cbn [width_bytes]. change (8 * 8) with 64.
    rewrite Zplus_mod_idemp_l, Z.mod_small; lia.
  - apply andb_prop in Hc as [Hd Hz]. apply in_range_spec in Hd, Hz. by apply Reads_decimal.
  - apply Reads_length_bytes; [by apply is_bytes_spec|]. cbn [enc] in Hl. rewrite !zlen_app in Hl. zlen_facts. lia.
  - apply Reads_ret.
  - apply Reads_length_bytes; [by apply is_bytes_spec|]. cbn [enc] in Hl. rewrite !zlen_app in Hl. zlen_facts. lia.
Qed.
Lemma length_zlen_le {A B} (l : list A) (l' : list B) : zlen l <= zlen l' -> (length l <= length l')%nat.
Proof. unfold zlen. lia. Qed.
Lemma sum_ge {A} (f : A -> list Z) es e : e ∈ es -> zlen (f e) <= zlen (concat (map f es)).
Proof.
  induction 1 as [e es|e e' es _ IH]; cbn [map concat]; rewrite zlen_app; zlen_facts; lia.
Qed.

Lemma sized_array_reads es fuel :
  Forall (fun v => Reads (amqp_decode_field_value fuel) (enc v) v /\ Forall is_u8 (enc v)) es ->
  (length es <= fuel)%nat ->
  Reads (fun encoded => amqp_decode_array (amqp_decode_field_value fuel encoded) fuel encoded) (sized (concat (map enc es))) es.
Proof.
  intros Hes Hf. unfold amqp_decode_array.
  apply (sized_reads sizeof_field_value INITIAL_ARRAY_SIZE (fun encoded limit entries =>
    decode_array_loop (amqp_decode_field_value fuel encoded) fuel limit entries 0 INITIAL_ARRAY_SIZE []));
    [by vm_compute; split|by vm_compute; split|apply zlen_concat_ge, enc_nonempty| |].
  - apply Forall_u8_concat, List.Forall_forall. intros l (x & <- & Hx)%in_map_iff.
    rewrite List.Forall_forall in Hes. by apply Hes.
  - intros pre rest entries F mem Hp Hr Hl Hm.
    by apply (array_loop_reads (amqp_decode_field_value fuel)); try done; zlen_facts; vm_compute.
Qed.
Lemma sized_table_reads es fuel :
  Forall (fun e => Reads (amqp_decode_field_value fuel) (enc e.2) e.2 /\ canon_entry e = true) es ->
  (length es <= fuel)%nat ->
  Reads (fun encoded => decode_table_with (amqp_decode_field_value fuel encoded) fuel encoded) (enc_table es) es.
Proof.
  intros Hes Hf. unfold decode_table_with.
  apply (sized_reads sizeof_table_entry INITIAL_TABLE_SIZE (fun encoded limit entries =>
    decode_table_loop encoded (amqp_decode_field_value fuel encoded) fuel limit entries 0 INITIAL_TABLE_SIZE []));
    [by vm_compute; split|by vm_compute; split|apply zlen_concat_ge, enc_entry_nonempty| |].
  - apply Forall_u8_concat, List.Forall_forall. intros l (x & <- & Hx)%in_map_iff.
    rewrite List.Forall_forall in Hes. by apply enc_entry_u8, Hes.
  - intros pre rest entries F mem Hp Hr Hl Hm.
    by apply (table_loop_reads (amqp_decode_field_value fuel)); try done; zlen_facts; vm_compute.
Qed.

Lemma value_reads v fuel :
  canon v = true -> zlen (enc v) < 2 ^ 30 -> (length (enc v) <= fuel)%nat ->
  Reads (amqp_decode_field_value fuel) (enc v) v.
Proof.
  revert fuel. induction v as [v Ha Ht|es IH|es IH] using field_value_nested_ind; intros fuel Hc Hl Hf;
    (destruct fuel as [|fuel]; [by destruct (enc_nonempty _ (nil_length_inv _ (proj1 (Nat.le_0_r _) Hf)))|]).
  - by apply leaf_reads.
  - assert (H8 := enc_u8 _ Hc). cbn [canon] in Hc. rewrite forallb_forall in Hc. rewrite List.Forall_forall in IH.
    eapply value_reads_with; [reflexivity|kind_byte|by apply Forall_app in H8 as [_ H8]|pick_kind].
    assert (Hz : zlen (enc (FV_ARRAY es)) = 5 + zlen (concat (map enc es)))
      by (cbn [enc]; rewrite zlen_app, zlen_sized, zlen_amqp_e; cbn [width_bytes]; lia).
    apply (Reads_map (fun encoded => amqp_decode_array (amqp_decode_field_value fuel encoded) fuel encoded)), sized_array_reads.
    + apply List.Forall_forall. intros v Hv. pose proof (sum_ge enc es v (proj2 (list_elem_of_In _ _) Hv)).
      split; [apply IH; [done|auto|lia|unfold zlen in *; lia]|by apply enc_u8, Hc].
    + pose proof (zlen_concat_ge enc es enc_nonempty). unfold zlen in *. lia.
  - assert (H8 := enc_u8 _ Hc). cbn [canon] in Hc. rewrite forallb_forall in Hc. rewrite List.Forall_forall in IH.
    eapply value_reads_with; [reflexivity|kind_byte|by apply Forall_app in H8 as [_ H8]|pick_kind].
    assert (Hz : zlen (enc (FV_TABLE es)) = 5 + zlen (concat (map enc_entry es))).
    { cbn [enc]. rewrite zlen_app, zlen_sized, zlen_amqp_e.
      change (map (fun e => amqp_e W8 (zlen e.1) ++ e.1 ++ enc e.2) es) with (map enc_entry es). cbn [width_bytes]. lia. }
    apply (Reads_map (fun encoded => decode_table_with (amqp_decode_field_value fuel encoded) fuel encoded)), sized_table_reads.
    + apply List.Forall_forall. intros e He. pose proof (sum_ge enc_entry es e (proj2 (list_elem_of_In _ _) He)) as Hs.
      destruct e as [key v]. rewrite enc_entry_eq, !zlen_app in Hs. specialize (Hc _ He). zlen_facts.
      split; [|done]. cbn in Hc. apply andb_prop in Hc as [_ Hc].
      apply (IH (key, v)); [done|done|cbn [snd]; lia|cbn [snd]; unfold zlen in *; lia].
    + pose proof (zlen_concat_ge enc_entry es enc_entry_nonempty). unfold zlen in *. lia.
Qed.

(** A table read back, with the fuel of amqp_decode_table. *)
Lemma table_reads t fuel :
  forallb canon_entry t = true -> zlen (enc_table t) < 2 ^ 30 -> (length (enc_table t) <= fuel)%nat ->
  Reads (fun encoded => decode_table_with (amqp_decode_field_value fuel encoded) fuel encoded) (enc_table t) t.
Proof.
  intros Hc Hl Hf. rewrite forallb_forall in Hc. unfold enc_table in Hl, Hf.
  assert (Hz := zlen_sized (concat (map enc_entry t))). apply sized_table_reads.
  - apply List.Forall_forall. intros e He. pose proof (sum_ge enc_entry t e (proj2 (list_elem_of_In _ _) He)) as Hs.
    destruct e as [key v]. rewrite enc_entry_eq, !zlen_app in Hs. specialize (Hc _ He). zlen_facts.
    split; [|done]. apply andb_prop in Hc as [_ Hc].
    apply value_reads; [done|cbn [snd]; lia|cbn [snd]; unfold zlen in *; lia].
  - pose proof (zlen_concat_ge enc_entry t enc_entry_nonempty). unfold zlen in *. lia.
Qed.
Lemma Reads_table t :
  forallb canon_entry t = true -> zlen (enc_table t) < 2 ^ 30 -> Reads amqp_decode_table (enc_table t) t.
Proof.
  intros Hc Hl pre rest F mem. assert (Hf : (length (enc_table t) <= S (length (pre ++ enc_table t ++ rest)))%nat).
  { rewrite !length_app. lia. }
  exact (table_reads t _ Hc Hl Hf pre rest F mem).
Qed.
(** What was written at an offset is read from there. *)
Lemma Reads_written {A} (m : list Z -> decoder M A) data a buf o F mem :
  Reads m data a -> Forall is_u8 buf -> zlen buf < 2 ^ 30 -> 0 <= o -> o + zlen data <= zlen buf -> em_inv F mem ->
  exists mem', m (zwrite o data buf) (o, mem) = (inr a, (o + zlen data, mem')) /\ em_inv F mem'.
Proof.
  intros Hr Hb Hl Ho Hfit Hm. zlen_facts.
  destruct (Hr (ztake o buf) (zdrop (o + zlen data) buf) F mem) as (mem' & Hx & Hm'); [by apply Forall_zdrop| |done|].
  { change (ztake o buf ++ _) with (zwrite o data buf). rewrite zlen_zwrite; lia. }
  change (ztake o buf ++ _) with (zwrite o data buf) in Hx. rewrite zlen_ztake in Hx by lia. by exists mem'.
Qed.
End decoder_inverts.

Lemma canon_table_known t : forallb canon_entry t = true -> forallb (fun e => known e.2) t = true.
Proof.
  rewrite !forallb_forall. intros Hc e He. specialize (Hc e He). apply andb_prop in Hc as [_ Hc].
  by apply canon_known.
Qed.

(** ** The pools of AmqpMem provide the memory *)

Section pool_memory.
Context `{Heap}.

Definition in_heap {A} (m : SE heap fault A) : SE (heap * amqp_pool) fault A := fun '(h, p) =>
  match m h with (r, h') => (r, (h', p)) end.
#[export] Instance pool_mem : EntryMem (heap * amqp_pool) := {|
  em_malloc n := in_heap (calloc n);
  em_realloc b n := in_heap (realloc b n);
  em_free b := in_heap (free (Some b));
  em_pool_alloc n := fun '(h, p) =>
    match amqp_pool_alloc n p h with
    | (inr (r, p'), h') => (inr r, (h', p'))
    | (inl f, h') => (inl f, (h', p))
    end
|}.

(** The arrays [F] are live and no part of the pool. *)
Definition apart (F : list nat) (h : heap) (p : amqp_pool) (rs : list region) : Prop :=
  NoDup F /\ forall b, b ∈ F -> is_Some (h_live h !! b) /\ (b ∉ footprint p rs).
Definition pool_mem_inv (F : list nat) (m : heap * amqp_pool) : Prop :=
  exists rs, pool_wf m.1 m.2 rs /\ apart F m.1 m.2 rs.

(** A move of a pool and of the arrays outstanding: only blocks of the pool and
    these arrays lose their contents, and what is new was not live. *)
Record pool_move (F : list nat) (h : heap) (p : amqp_pool) (rs : list region)
    (F' : list nat) (h' : heap) (p' : amqp_pool) (rs' : list region) : Prop := {
  mv_wf : pool_wf h' p' rs';
  mv_apart : apart F' h' p' rs';
  mv_keeps : keeps (owned p ++ F) h h';
  mv_grows : grows h p rs p' rs';
  mv_new : forall b, b ∈ F' -> b ∈ F \/ h_live h !! b = None
}.
Lemma pool_move_inv F m rs F' m' rs' : pool_move F m.1 m.2 rs F' m'.1 m'.2 rs' -> pool_mem_inv F' m'.
Proof. intros Hm. exists rs'. split; apply Hm. Qed.

Lemma move_malloc F h p rs n :
  pool_wf h p rs -> apart F h p rs -> 0 <= n ->
  exists r h', em_malloc n (h, p) = (inr r, (h', p)) /\ pool_move F h p rs (option_list r ++ F) h' p rs.
Proof.
  intros Hwf [Hnd HF] Hn. cbn [em_malloc pool_mem] in *. unfold in_heap.
  destruct (calloc_spec n h (pw_heap _ _ _ Hwf) Hn) as (r & h' & -> & Hw & Hk & _ & Hr).
  eexists _, _. split; [reflexivity|].
  assert (Hold : forall b, b ∈ F -> is_Some (h_live h' !! b) /\ (b ∉ footprint p rs)).
  { intros b Hb. destruct (HF b Hb) as [Hl Hfp]. split; [|done].
    by apply (keeps_live [] h); [|apply not_elem_of_nil|]. }
  constructor; [by apply (pool_wf_keeps h)| |by apply keeps_nil|apply grows_refl|].
  - destruct r as [b|]; cbn [option_list app]; [|done]. destruct (Hr b eq_refl) as [Hnone Hsome]. split.
    + apply NoDup_cons. split; [|done]. intros Hb. destruct (HF b Hb) as [[x Hx] _]. by rewrite Hnone in Hx.
    + intros c [->|Hc]%elem_of_cons; [|auto]. split; [eauto|].
      intros Hfp. destruct (footprint_live _ _ _ _ Hwf Hfp) as [x Hx]. by rewrite Hnone in Hx.
  - intros b [Hb|Hb]%elem_of_app; [|by left]. destruct r as [c|]; [|by apply elem_of_nil in Hb].
    apply list_elem_of_singleton in Hb as ->. right. by apply (Hr c).
Qed.

(** Blocks outside the footprint may change. *)
Lemma keeps_foreign F h h' p rs b :
  pool_wf h p rs -> heap_wf h' -> apart F h p rs -> b ∈ F -> keeps [b] h h' ->
  pool_wf h' p rs /\ forall c, c ∈ F -> c <> b -> is_Some (h_live h' !! c) /\ (c ∉ footprint p rs).
Proof.
  intros Hwf Hw [_ HF] Hb Hk. destruct (HF b Hb) as [_ Hfb].
  split; [apply (pool_wf_foreign [b] h); [done..|by intros x ->%list_elem_of_singleton]|].
  intros c Hc Hne. destruct (HF c Hc) as [Hl Hfp]. split; [|done].
  apply (keeps_live [b] h); [done| |done]. by intros ->%list_elem_of_singleton.
Qed.
Lemma keeps_arrays F h h' p b : b ∈ F -> keeps [b] h h' -> keeps (owned p ++ F) h h'.
Proof. intros Hb. apply keeps_weaken. intros x ->%list_elem_of_singleton. apply elem_of_app. by right. Qed.

Lemma move_realloc F h p rs b n :
  pool_wf h p rs -> apart (b :: F) h p rs ->
  exists r h', em_realloc b n (h, p) = (inr r, (h', p)) /\ pool_move (b :: F) h p rs (default b r :: F) h' p rs.
Proof.
  intros Hwf Hap. pose proof Hap as [[Hb Hnd]%NoDup_cons HF]. cbn [em_realloc pool_mem] in *. unfold in_heap.
  destruct (HF b) as [Hlb Hfb]; [by left|].
  destruct (heap_realloc_spec b n h (pw_heap _ _ _ Hwf) Hlb) as (r & h' & -> & Hw & Hk & Hr).
  eexists _, _. split; [reflexivity|].
  destruct (keeps_foreign (b :: F) h h' p rs b Hwf Hw Hap ltac:(by left) Hk) as [Hwf' Hold].
  assert (HoldF : forall c, c ∈ F -> is_Some (h_live h' !! c) /\ (c ∉ footprint p rs)).
  { intros c Hc. apply Hold; [by right|]. by intros ->. }
  constructor; [done| |apply (keeps_arrays _ _ _ _ b); [by left|done]|apply grows_refl|];
    (destruct r as [c|]; [change (default b (Some c)) with c|change (default b None) with b]).
  - destruct Hr as [Hnone Hsome]. split.
    + apply NoDup_cons. split; [|done]. intros Hc. destruct (HF c) as [[x Hx] _]; [by right|]. by rewrite Hnone in Hx.
    + intros d [Heq|Hd]%elem_of_cons; [rewrite Heq|auto]. split; [done|].
      intros Hfp. destruct (footprint_live _ _ _ _ Hwf Hfp) as [x Hx]. by rewrite Hnone in Hx.
  - split; [by apply NoDup_cons|]. intros d [->|Hd]%elem_of_cons; [|auto]. by rewrite Hr.
  - intros d [->|Hd]%elem_of_cons; [by right; apply Hr|left; by right].
  - by left.
Qed.

Lemma move_free F h p rs b :
  pool_wf h p rs -> apart (b :: F) h p rs ->
  exists h', em_free b (h, p) = (inr tt, (h', p)) /\ pool_move (b :: F) h p rs F h' p rs.
Proof.
  intros Hwf Hap. pose proof Hap as [[Hb Hnd]%NoDup_cons HF]. cbn [em_free pool_mem] in *. unfold in_heap.
  destruct (HF b) as [Hlb Hfb]; [by left|]. destruct (free_spec b h Hlb) as (h' & -> & Hh').
  eexists _. split; [reflexivity|].
  assert (Hk : keeps [b] h h').
  { intros c m Hc Hm. rewrite Hh'. cbn. rewrite lookup_delete_ne; [done|]. intros <-. apply Hc. by left. }
  assert (Hw : heap_wf h').
  { rewrite Hh'. intros c [m Hm]. cbn in *. apply lookup_delete_Some in Hm as [_ Hm].
    apply (pw_heap _ _ _ Hwf). eauto. }
  destruct (keeps_foreign (b :: F) h h' p rs b Hwf Hw Hap ltac:(by left) Hk) as [Hwf' Hold].
  constructor; [done| |apply (keeps_arrays _ _ _ _ b); [by left|done]|apply grows_refl|intros c Hc; left; by right].
  split; [done|]. intros c Hc. apply Hold; [by right|]. by intros ->.
Qed.

(** A request to the pool, with the region it hands out. *)
Lemma move_pool_alloc F h p rs n :
  pool_wf h p rs -> apart F h p rs -> 0 <= n < 2 ^ 62 ->
  exists r h' p', em_pool_alloc n (h, p) = (inr r, (h', p')) /\
    pool_move F h p rs F h' p' (regions_after r (round8 n) rs).
Proof.
  intros Hwf [Hnd HF] Hn. cbn [em_pool_alloc pool_mem] in *.
  destruct (pool_alloc_spec n p h rs Hwf Hn) as (r & p' & h' & -> & Hwf' & Hk & _ & Hg).
  eexists _, _, _. split; [reflexivity|].
  constructor; [done| |eapply keeps_weaken; [|exact Hk]; intros x Hx; unfold owned; rewrite !elem_of_app; auto|done|by left].
  split; [done|]. intros b Hb. destruct (HF b Hb) as [Hl Hfp]. split.
  - apply (keeps_live (arrays p) h); [done| |done]. intros Ha. apply Hfp. unfold footprint, owned. rewrite !elem_of_app. auto.
  - intros [Hx|Hx]%Hg; [done|]. destruct Hl as [y Hy]. by rewrite Hx in Hy.
Qed.

(** recycle_amqp_pool: nothing of the pool is in use any more. *)
Lemma move_recycle F h p rs :
  pool_wf h p rs -> apart F h p rs ->
  exists p' h', recycle_amqp_pool p h = (inr p', h') /\ pool_move F h p rs F h' p' [].
Proof.
  intros Hwf [Hnd HF]. destruct (recycle_spec p h rs Hwf) as (p' & h' & Hr & Hwf' & Hwo & Hp').
  pose proof (without_keeps _ _ _ Hwo) as Hk. eexists _, _. split; [exact Hr|].
  assert (Hsub : forall x, x ∈ option_list (blocklist (large_blocks p)) ++ blocks (large_blocks p) -> x ∈ owned p).
  { intros x. unfold owned, arrays. rewrite !elem_of_app. tauto. }
  assert (Hfp : forall x, x ∈ footprint p' [] -> x ∈ footprint p rs).
  { intros x. rewrite Hp'. unfold footprint, owned, arrays. cbn. rewrite !elem_of_app. intros Hx.
    assert (~ x ∈ @nil nat) by apply not_elem_of_nil. tauto. }
  constructor; [done| |eapply keeps_weaken; [|exact Hk]; intros x Hx; apply elem_of_app; left; by apply Hsub| |by left].
  - split; [done|]. intros b Hb. destruct (HF b Hb) as [Hl Hn]. split; [|intros Hx; by apply Hn, Hfp].
    eapply keeps_live; [exact Hk| |done]. intros Hx. apply Hn. unfold footprint. rewrite !elem_of_app. left. by apply Hsub.
  - intros x Hx. left. by apply Hfp.
Qed.

Lemma pool_mem_malloc F m n :
  pool_mem_inv F m -> 0 <= n -> exists r m', em_malloc n m = (inr r, m') /\ pool_mem_inv (option_list r ++ F) m'.
Proof.
  destruct m as [h p]. intros (rs & Hwf & Hap) Hn. destruct (move_malloc F h p rs n Hwf Hap Hn) as (r & h' & He & Hm).
  eexists _, _. split; [exact He|]. exact (pool_move_inv F (h, p) rs _ (h', p) rs Hm).
Qed.
Lemma pool_mem_realloc F m b n :
  pool_mem_inv (b :: F) m -> 0 <= n ->
  exists r m', em_realloc b n m = (inr r, m') /\ pool_mem_inv (default b r :: F) m'.
Proof.
  destruct m as [h p]. intros (rs & Hwf & Hap) _. destruct (move_realloc F h p rs b n Hwf Hap) as (r & h' & He & Hm).
  eexists _, _. split; [exact He|]. exact (pool_move_inv (b :: F) (h, p) rs _ (h', p) rs Hm).
Qed.
Lemma pool_mem_free F m b :
  pool_mem_inv (b :: F) m -> exists m', em_free b m = (inr tt, m') /\ pool_mem_inv F m'.
Proof.
  destruct m as [h p]. intros (rs & Hwf & Hap). destruct (move_free F h p rs b Hwf Hap) as (h' & He & Hm).
  eexists _. split; [exact He|]. exact (pool_move_inv (b :: F) (h, p) rs _ (h', p) rs Hm).
Qed.
Lemma pool_mem_pool_alloc F m n :
  pool_mem_inv F m -> 0 <= n < 2 ^ 62 -> exists r m', em_pool_alloc n m = (inr r, m') /\ pool_mem_inv F m'.
Proof.
  destruct m as [h p]. intros (rs & Hwf & Hap) Hn.
  destruct (move_pool_alloc F h p rs n Hwf Hap Hn) as (r & h' & p' & He & Hm).
  eexists _, _. split; [exact He|]. exact (pool_move_inv F (h, p) rs _ (h', p') _ Hm).
Qed.

#[export] Instance pool_mem_ok : EntryMemOk (heap * amqp_pool) := {|
  em_inv := pool_mem_inv;
  em_malloc_ok := pool_mem_malloc;
  em_realloc_ok := pool_mem_realloc;
  em_free_ok := pool_mem_free;
  em_pool_alloc_ok := pool_mem_pool_alloc
|}.
End pool_memory.

(** When the system refuses nothing, the pools do not either. *)
#[export] Instance pool_mem_total `{Heap} `{!HeapTotal} : EntryMemTotal (heap * amqp_pool).
Proof.
  constructor.
  - intros F [h p] n _ _. cbn. unfold in_heap. rewrite calloc_total. eauto.
  - intros F [h p] b n (rs & _ & _ & HF) _. cbn in *. unfold in_heap, realloc.
    destruct (HF b) as [[old Hold] _]; [by left|]. rewrite Hold, heap_total. eauto.
  - intros F [h p] n (rs & Hwf & _) Hn. cbn in *.
    set (h0 := mk_heap 0 (filter (fun x => x.1 ∉ owned p) (h_live h))).
    destruct (pool_alloc_borrowed h0 n p h rs Hwf) as (r & p' & h' & -> & _ & Hr); [|lia|].
    { intros b. subst h0. cbn. split; intros Hb; [apply map_lookup_filter_None; right; intros x _ Hx; by apply Hx|].
      destruct (h_live h !! b) as [m|] eqn:Em; symmetry; [|apply map_lookup_filter_None; by left].
      apply map_lookup_filter_Some. done. }
    destruct r as [q|]; [eauto|]. specialize (Hr eq_refl). lia.
Qed.

(** ** Copies *)

(** A value that can be copied: no unknown kind, no empty key. *)
Fixpoint clonable (v : field_value) : bool :=
  match v with
  | FV_ARRAY es => forallb clonable es
  | FV_TABLE es => forallb (fun e => negb (zlen e.1 =? 0) && clonable e.2) es
  | FV_OTHER _ => false
  | _ => true
  end.
Definition clonable_entry (e : table_entry) : bool := negb (zlen e.1 =? 0) && clonable e.2.

Section clones.
Context {M : Type} `{EntryMemTotal M}.

(** [m] returns [a] whatever the memory. *)
Definition Yields {A} (m : cloner M A) (a : A) : Prop :=
  forall F mem, em_inv F mem -> exists mem', m mem = (inr a, mem') /\ em_inv F mem'.
Lemma Yields_ret {A} (a : A) : Yields (mret a) a.
Proof. intros F mem Hm. by exists mem. Qed.
Lemma Yields_bind {A B} (m : cloner M A) (k : A -> cloner M B) a b : Yields m a -> Yields (k a) b -> Yields (m ≫= k) b.
Proof.
  intros Hma Hkb F mem Hm. destruct (Hma F mem Hm) as (mem1 & E1 & Hm1).
  rewrite (SE_bind_ok _ _ _ _ _ E1). by apply Hkb.
Qed.
Lemma Yields_pool n : 0 < n < 2 ^ 62 -> Yields (pool_block n) tt.
Proof.
  intros Hn F mem Hm. destruct (em_pool_alloc_ok F mem n Hm) as (r & mem' & Hr & Hm'); [lia|].
  destruct (em_pool_alloc_total F mem n Hm Hn) as (p & mem2 & Hr2). rewrite Hr in Hr2. injection Hr2 as -> <-.
  exists mem'. split; [|done]. unfold pool_block. by rewrite Hr.
Qed.
Lemma Yields_entries es :
  Forall (fun e => zlen e.1 < 2 ^ 61 -> clonable e.2 = true -> zlen (enc e.2) < 2 ^ 32 ->
    Yields (amqp_field_value_clone e.2) e.2) es ->
  forallb clonable_entry es = true -> zlen (concat (map enc_entry es)) < 2 ^ 32 ->
  Yields (clone_entries es) es.
Proof.
  induction 1 as [|[key v] es Hv _ IH]; cbn [forallb map concat clone_entries]; intros Hc Hl; [apply Yields_ret|].
  apply andb_prop in Hc as [[Hk Hcv]%andb_prop Hc]. cbn [fst snd] in *.
  rewrite zlen_app, enc_entry_eq, !zlen_app in Hl. zlen_facts.
  destruct (Z.eqb_spec (zlen key) 0) as [|Hnz]; [done|].
  eapply Yields_bind; [|eapply Yields_bind; [apply IH; [done|lia]|apply Yields_ret]].
  unfold amqp_table_entry_clone. cbn [fst snd]. rewrite (proj2 (Z.eqb_neq _ _) Hnz).
  eapply Yields_bind; [apply Yields_ret|]. eapply Yields_bind; [apply Yields_pool; lia|].
  eapply Yields_bind; [apply Hv; [lia|done|lia]|apply Yields_ret].
Qed.

(** The cases of amqp_field_value_clone call the loops. *)
Fixpoint clone_values (es : list field_value) : cloner M (list field_value) :=
  match es with
  | [] => mret []
  | e :: es' => c ← amqp_field_value_clone e; cs ← clone_values es'; mret (c :: cs)
  end.
Lemma clone_array_eq e es :
  amqp_field_value_clone (FV_ARRAY (e :: es)) =
  (_ ← pool_block (u64 (zlen (e :: es) * sizeof_field_value)); es' ← clone_values (e :: es); mret (FV_ARRAY es')).
Proof. reflexivity. Qed.
Lemma clone_table_eq e es :
  amqp_field_value_clone (FV_TABLE (e :: es)) =
  (_ ← pool_block (u64 (zlen (e :: es) * sizeof_table_entry)); es' ← clone_entries (e :: es); mret (FV_TABLE es')).
Proof. reflexivity. Qed.
Lemma Yields_values es :
  Forall (fun v => clonable v = true -> zlen (enc v) < 2 ^ 32 -> Yields (amqp_field_value_clone v) v) es ->
  forallb clonable es = true -> zlen (concat (map enc es)) < 2 ^ 32 -> Yields (clone_values es) es.
Proof.
  induction 1 as [|v es Hv _ IH]; cbn [forallb map concat clone_values]; intros Hc Hl; [apply Yields_ret|].
  apply andb_prop in Hc as [Hcv Hc]. rewrite zlen_app in Hl. zlen_facts.
  eapply Yields_bind; [apply Hv; [done|lia]|]. eapply Yields_bind; [apply IH; [done|lia]|apply Yields_ret].
Qed.
(** Room for a non-empty array of entries is granted. *)
Lemma Yields_block {A} sizeof (l : list A) :
  l <> [] -> zlen l < 2 ^ 32 -> 0 < sizeof <= 64 -> Yields (pool_block (u64 (zlen l * sizeof))) tt.
Proof.
  intros Hne Hl Hs. assert (0 < zlen l) by (destruct l; [done|]; rewrite zlen_cons; zlen_facts; lia).
  apply Yields_pool. rewrite u64_id by nia. nia.
Qed.

(** A copy is the value itself. *)
Lemma Yields_clone v :
  clonable v = true -> zlen (enc v) < 2 ^ 32 -> Yields (amqp_field_value_clone v) v.
Proof.
  induction v as [v Ha Ht|es IH|es IH] using field_value_nested_ind; intros Hc Hl.
  - destruct v; try discriminate; try (by destruct (Ha entries)); try (by destruct (Ht entries));
      try apply Yields_ret; cbn [amqp_field_value_clone];
      (cbn [enc] in Hl; rewrite !zlen_app in Hl; zlen_facts;
       destruct (Z.eqb_spec (zlen bytes) 0); eapply Yields_bind; try apply Yields_ret; apply Yields_pool; lia).
  - destruct es as [|e es]; [apply Yields_ret|]. rewrite clone_array_eq. cbn [enc clonable] in *.
    rewrite zlen_app, zlen_sized in Hl. pose proof (zlen_concat_ge enc (e :: es) enc_nonempty). zlen_facts.
    eapply Yields_bind; [apply Yields_block; [done|lia|by vm_compute; split]|].
    eapply Yields_bind; [apply Yields_values; [done|done|lia]|apply Yields_ret].
  - destruct es as [|e es]; [apply Yields_ret|]. rewrite clone_table_eq. cbn [enc clonable] in *.
    change (map (fun e => amqp_e W8 (zlen e.1) ++ e.1 ++ enc e.2) (e :: es)) with (map enc_entry (e :: es)) in *.
    rewrite zlen_app, zlen_sized in Hl. pose proof (zlen_concat_ge enc_entry (e :: es) enc_entry_nonempty). zlen_facts.
    eapply Yields_bind; [apply Yields_block; [done|lia|by vm_compute; split]|].
    eapply Yields_bind; [apply Yields_entries; [|done|lia]|apply Yields_ret].
    eapply Forall_impl; [exact IH|]. intros x Hx _. exact Hx.
Qed.

Lemma Yields_table_clone t :
  forallb clonable_entry t = true -> zlen (enc_table t) < 2 ^ 32 -> Yields (amqp_table_clone t) t.
Proof.
  intros Hc Hl. destruct t as [|e t]; [apply Yields_ret|]. unfold enc_table in Hl. rewrite zlen_sized in Hl.
  pose proof (zlen_concat_ge enc_entry (e :: t) enc_entry_nonempty). zlen_facts.
  eapply Yields_bind; [apply Yields_block; [done|lia|by vm_compute; split]|].
  apply Yields_entries; [|done|lia]. apply Forall_true. intros x _. apply Yields_clone.
Qed.
End clones.

(** ** Keys *)

Lemma memcmp_0 a b : length a = length b -> (memcmp a b = 0 <-> a = b).
Proof.
  revert b. induction a as [|x a IH]; intros [|y b] Hl; simplify_eq/=; [done|].
  destruct (Z.eqb_spec x y) as [->|Hne].
  - rewrite IH by done. split; [by intros ->|by intros [=]].
  - destruct (x <? y); split; try done; by intros [= ? ?].
Qed.
Lemma amqp_bytes_equal_spec a b : amqp_bytes_equal a b = true <-> a = b.
Proof.
  unfold amqp_bytes_equal. rewrite andb_true_iff, !Z.eqb_eq. split.
  - intros [Hl Hm]. apply memcmp_0; [unfold zlen in Hl; lia|done].
  - intros ->. split; [done|]. by apply memcmp_0.
Qed.

(** ** Properties *)

(** C37: a table whose keys are byte strings of at most 255 bytes, at every
    level, and whose values are of the known kinds and in the range of their
    types survives the wire: written into a buffer (of less than a gigabyte) with
    room for it, wherever it begins, and decoded from there, memory not being
    refused, it comes back unchanged, with the offset behind it and every
    temporary array given back.  Longer keys do not survive, see
    amqp_encode_table_corrupts_long_keys. *)
Theorem amqp_table_roundtrip {M} `{EntryMemTotal M} (t : table) (buf : list Z) (o : Z) (F : list nat) (mem : M) :
  forallb canon_entry t = true -> Forall is_u8 buf -> zlen buf < 2 ^ 30 ->
  0 <= o -> o + zlen (enc_table t) <= zlen buf -> em_inv F mem ->
  exists buf' o' mem', amqp_encode_table t (buf, o) = (inr tt, (buf', o')) /\
    amqp_decode_table buf' (o, mem) = (inr t, (o', mem')) /\ em_inv F mem'.
Proof.
  intros Hc Hb8 Hb Ho Hfit Hm. zlen_facts.
  destruct (Writes_table t (canon_table_known t Hc) ltac:(lia) buf o ltac:(lia) ltac:(lia) ltac:(lia)) as [Hok _].
  rewrite Hok by (by right).
  destruct (Reads_written amqp_decode_table (enc_table t) t buf o F mem) as (mem' & Hd & Hm'); try done.
  { apply Reads_table; [done|lia]. }
  eexists _, _, mem'. done.
Qed.

(** Whatever bytes arrive and whenever memory is refused, decoding a table
    ends: with a table of canonical values and the offset inside the input,
    or with BAD_AMQP_DATA or NO_MEMORY; it never reads or writes out of
    bounds and gives back every array it borrowed. *)
Theorem amqp_decode_table_safe {M} `{EntryMemOk M} (encoded : list Z) (o : Z) (F : list nat) (mem : M) :
  Forall is_u8 encoded -> zlen encoded < 2 ^ 30 -> 0 <= o <= zlen encoded -> em_inv F mem ->
  exists r o' mem', amqp_decode_table encoded (o, mem) = (r, (o', mem')) /\ em_inv F mem' /\
    match r with
    | inr t => o < o' <= zlen encoded /\ forallb canon_entry t = true
    | inl (Status res) => res = AMQP_STATUS_BAD_AMQP_DATA \/ res = AMQP_STATUS_NO_MEMORY
    | inl _ => False
    end.
Proof.
  intros H8 Hl Ho Hm. pose proof (decode_table_safe encoded H8 Hl F o mem Ho Hm) as Hd.
  destruct (amqp_decode_table encoded (o, mem)) as [[[res|f|]|t] [o' mem']]; cbn in Hd; [|done..|];
    eexists _, _, _; (split; [reflexivity|]); [by destruct Hd|tauto].
Qed.


(** A copy made by amqp_table_clone equals the original, for every table
    without empty keys. *)
Theorem amqp_table_clone_correct {M} `{EntryMemTotal M} (t : table) (F : list nat) (mem : M) :
  forallb clonable_entry t = true -> zlen (enc_table t) < 2 ^ 32 -> em_inv F mem ->
  exists mem', amqp_table_clone t mem = (inr t, mem') /\ em_inv F mem'.
Proof. intros Hc Hl. by apply Yields_table_clone. Qed.

(** amqp_table_get_entry_by_key returns the first entry with that key, and
    NULL exactly when no entry has it. *)
Theorem amqp_table_get_entry_correct (t : table) (key : list Z) :
  amqp_table_get_entry_by_key t key = List.find (fun e => bool_decide (e.1 = key)) t.
Proof.
  induction t as [|[k v] t IH]; [done|]. cbn. rewrite IH.
  destruct (amqp_bytes_equal k key) eqn:E; case_bool_decide as Hk; try done.
  - by apply amqp_bytes_equal_spec in E.
  - rewrite (proj2 (amqp_bytes_equal_spec k key) Hk) in E. done.
Qed.

(** A table such as a broker sends, and memory that is never refused. *)
Definition demo_table : table :=
  [(str "product", FV_UTF8 (str "RabbitMQ"));
   (str "capabilities", FV_TABLE [(str "basic.nack", FV_BOOLEAN 1); (str "n", FV_I32 (-5))]);
   (str "list", FV_ARRAY [FV_U8 3; FV_VOID; FV_DECIMAL 2 314; FV_I64 (- 2 ^ 63)])].
#[local] Instance demo_grants : Heap := fun _ _ => true.
#[local] Instance demo_grants_total : HeapTotal := fun _ _ => eq_refl.
Definition demo_mem : heap * amqp_pool := (empty_heap, init_amqp_pool 4096).
Lemma demo_mem_inv : em_inv [] demo_mem.
Proof.
  exists []. split; [apply init_pool_wf; [apply empty_heap_wf|lia]|].
  split; [constructor|]. by intros b ?%elem_of_nil.
Qed.
(** The same with a system that refuses the second request. *)
Definition stingy : Heap := fun n _ => negb (Nat.eqb n 1).
Lemma stingy_mem_inv : @em_inv _ _ (@pool_mem_ok stingy) [] demo_mem.
Proof.
  exists []. split; [apply init_pool_wf; [apply empty_heap_wf|lia]|].
  split; [constructor|]. by intros b ?%elem_of_nil.
Qed.
Lemma is_bytes_true s : is_bytes s = true -> Forall is_u8 s.
Proof. apply is_bytes_spec. Qed.

Lemma amqp_table_roundtrip_witness :
  exists buf' o' mem', amqp_encode_table demo_table (zfill 200, 7) = (inr tt, (buf', o')) /\
    amqp_decode_table buf' (7, demo_mem) = (inr demo_table, (o', mem')) /\ em_inv [] mem'.
Proof.
  apply (amqp_table_roundtrip demo_table (zfill 200) 7 [] demo_mem).
  - vm_compute. reflexivity.
  - apply Forall_zfill.
  - vm_compute. reflexivity.
  - vm_compute. discriminate.
  - vm_compute. discriminate.
  - exact demo_mem_inv.
Defined.

Lemma amqp_decode_table_safe_witness :
  exists r o' mem', @amqp_decode_table _ (@pool_mem stingy) (enc_table demo_table) (0, demo_mem) = (r, (o', mem')) /\
    match r with inr _ => False | inl (Status res) => res = AMQP_STATUS_BAD_AMQP_DATA \/ res = AMQP_STATUS_NO_MEMORY
    | inl _ => False end.
Proof.
  destruct (@amqp_decode_table_safe _ (@pool_mem stingy) (@pool_mem_ok stingy) (enc_table demo_table) 0 [] demo_mem)
    as (r & o' & mem' & Hd & _ & Hr).
  - apply is_bytes_true. vm_compute. reflexivity.
  - vm_compute. reflexivity.
  - vm_compute. split; discriminate.
  - exact stingy_mem_inv.
  - exists r, o', mem'. split; [exact Hd|]. destruct r as [[res|f|]|t]; try exact Hr.
    vm_compute in Hd. discriminate Hd.
Defined.


Lemma amqp_table_clone_correct_witness :
  exists mem', amqp_table_clone demo_table demo_mem = (inr demo_table, mem') /\ em_inv [] mem'.
Proof.
  apply (amqp_table_clone_correct demo_table [] demo_mem);
    [vm_compute; reflexivity|vm_compute; reflexivity|exact demo_mem_inv].
Defined.

(** A key longer than 255 bytes is written with its length cut to eight
    bits but all of its bytes: amqp_encode_table reports success for bytes
    that amqp_decode_table refuses. *)
Theorem amqp_encode_table_corrupts_long_keys :
  let t := [(replicate 256 107, FV_VOID)] in
  exists buf' mem', amqp_encode_table t (zfill 300, 0) = (inr tt, (buf', 262)) /\
    amqp_decode_table (ztake 262 buf') (0, demo_mem) = (inl (Status AMQP_STATUS_BAD_AMQP_DATA), (6, mem')).
Proof. eexists _, _. split; [vm_compute; reflexivity|]. vm_compute. reflexivity. Qed.
