(* ===== verification/AmqpPools.v ===== *)
(** * The pools of a connection: one for each channel

    amqp_get_or_create_channel_pool and amqp_get_channel_pool of amqp_mem.c
    keep the pools of the channels in a hash table of 16 lists; all pools take
    their pages from one heap.  The class [ChannelMem] is what the connection
    uses of them: is there a pool for a channel, a buffer from it, and the
    memory functions the decoders need.  The table implements it: whatever is
    done to the pool of one channel, the pools of the others stay as they
    are. *)

From stdpp Require Import gmap.
From S2P Require Import Prelude Sshbuf AmqpMem AmqpCodec AmqpTable.

Definition POOL_TABLE_SIZE : Z := 16.
Definition sizeof_pool_table_entry : Z := 80.

(** amqp_pool_table_entry_t, with the block malloc gave for it. *)
Record pool_entry := mk_entry { e_block : nat; e_channel : Z; e_pool : amqp_pool }.
(** The heap and the table. *)
Record pools := mk_pools { p_heap : heap; p_table : list (list pool_entry) }.

Definition new_pools (h : heap) : pools := mk_pools h (replicate 16 []).
Definition bucket_index (channel : Z) : nat := Z.to_nat (channel mod POOL_TABLE_SIZE).
Definition bucket (channel : Z) (t : list (list pool_entry)) : list pool_entry :=
  default [] (t !! bucket_index channel).

Fixpoint find_pool (channel : Z) (b : list pool_entry) : option amqp_pool :=
  match b with
  | [] => None
  | e :: b' => if channel =? e_channel e then Some (e_pool e) else find_pool channel b'
  end.
Definition amqp_get_channel_pool (channel : Z) (pm : pools) : option amqp_pool :=
  find_pool channel (bucket channel (p_table pm)).

(** ** What the connection uses *)

Class ChannelMem (M : Type) := {
  (** amqp_get_or_create_channel_pool: is the result not NULL? *)
  cm_pool : Z -> Z -> SE M fault bool;
  (** amqp_pool_alloc_bytes: the memory handed out, with what it holds *)
  cm_buffer : Z -> Z -> SE M fault (option (list Z));
  (** recycle_amqp_pool, on the pool of the channel when it has one *)
  cm_recycle : Z -> SE M fault ();
  (** the memory functions of the decoders, on the pool of the channel *)
  cm_entries : Z -> EntryMem M
}.

Section channel_ops.
Context `{Heap}.

Definition amqp_get_or_create_channel_pool (frame_max channel : Z) : SE pools fault bool := fun pm =>
  match amqp_get_channel_pool channel pm with
  | Some _ => (inr true, pm)
  | None =>
      match calloc sizeof_pool_table_entry (p_heap pm) with
      | (inr (Some block), h) =>
          let entry := mk_entry block channel (init_amqp_pool frame_max) in
          (inr true, mk_pools h (<[bucket_index channel := entry :: bucket channel (p_table pm)]> (p_table pm)))
      | (inr None, h) => (inr false, mk_pools h (p_table pm))
      | (inl f, h) => (inl f, mk_pools h (p_table pm))
      end
  end.

(** What is done through the pointer to the pool of a channel; there is none
    when the channel has no pool. *)
Definition set_pool (channel : Z) (p : amqp_pool) (b : list pool_entry) : list pool_entry :=
  map (fun e => if channel =? e_channel e then mk_entry (e_block e) (e_channel e) p else e) b.
Definition on_pool {A} (channel : Z) (m : SE (heap * amqp_pool) fault A) : SE pools fault A := fun pm =>
  match amqp_get_channel_pool channel pm with
  | Some p =>
      match m (p_heap pm, p) with
      | (r, (h, p')) =>
          (r, mk_pools h (<[bucket_index channel := set_pool channel p' (bucket channel (p_table pm))]> (p_table pm)))
      end
  | None => (inl OutOfBounds, pm)
  end.

(** The memory handed out has its size rounded up to a multiple of 8. *)
Definition pool_buffer (amount : Z) : SE (heap * amqp_pool) fault (option (list Z)) :=
  p ← em_pool_alloc amount;
  match p with
  | Some p => bytes ← in_heap (heap_load p (round8 amount)); mret (Some bytes)
  | None => mret None
  end.
Definition amqp_pool_alloc_bytes (channel amount : Z) : SE pools fault (option (list Z)) :=
  on_pool channel (pool_buffer amount).

Definition recycle_channel_pool (channel : Z) : SE pools fault () := fun pm =>
  match amqp_get_channel_pool channel pm with
  | Some _ =>
      on_pool channel (fun '(h, p) =>
        match recycle_amqp_pool p h with
        | (inr p', h') => (inr tt, (h', p'))
        | (inl f, h') => (inl f, (h', p))
        end) pm
  | None => (inr tt, pm)
  end.

#[export] Instance channel_mem : ChannelMem pools := {|
  cm_pool := amqp_get_or_create_channel_pool;
  cm_buffer := amqp_pool_alloc_bytes;
  cm_recycle := recycle_channel_pool;
  cm_entries channel := {|
    em_malloc n := on_pool channel (em_malloc n);
    em_realloc b n := on_pool channel (em_realloc b n);
    em_free b := on_pool channel (em_free b);
    em_pool_alloc n := on_pool channel (em_pool_alloc n)
  |}
|}.
End channel_ops.

(** ** What it may rely on *)

(** [cm_inv] is the invariant of the memory, [cm_has] that the channel has a
    pool.  A buffer has at least the size that was asked for. *)
Class ChannelMemOk (M : Type) `{ChannelMem M} := {
  cm_inv : M -> Prop;
  cm_has : Z -> M -> Prop;
  cm_entries_ok channel : @EntryMemOk M (cm_entries channel);
  cm_entries_inv channel m : cm_inv m -> cm_has channel m -> @em_inv _ _ (cm_entries_ok channel) [] m;
  cm_inv_entries channel m : @em_inv _ _ (cm_entries_ok channel) [] m -> cm_inv m /\ cm_has channel m;
  cm_pool_ok frame_max channel m : cm_inv m -> 0 <= channel < 2 ^ 16 -> 0 <= frame_max < 2 ^ 31 ->
    exists r m', cm_pool frame_max channel m = (inr r, m') /\ cm_inv m' /\ (r = true -> cm_has channel m');
  cm_buffer_ok channel n m : cm_inv m -> cm_has channel m -> 0 <= n < 2 ^ 32 ->
    exists r m', cm_buffer channel n m = (inr r, m') /\ cm_inv m' /\ cm_has channel m' /\
      match r with Some bytes => zlen bytes = round8 n /\ 0 < n | None => True end;
  cm_recycle_ok channel m : cm_inv m ->
    exists m', cm_recycle channel m = (inr tt, m') /\ cm_inv m'
}.
(** No request is refused. *)
Class ChannelMemTotal (M : Type) `{ChannelMemOk M} : Prop := {
  cm_entries_total channel : @EntryMemTotal M (cm_entries channel) (cm_entries_ok channel);
  cm_pool_total frame_max channel m : cm_inv m -> exists m', cm_pool frame_max channel m = (inr true, m');
  cm_buffer_total channel n m : cm_inv m -> cm_has channel m -> 0 < n < 2 ^ 32 ->
    exists bytes m', cm_buffer channel n m = (inr (Some bytes), m')
}.

(** ** The invariant of the table *)

Definition in_table (e : pool_entry) (t : list (list pool_entry)) : Prop :=
  exists i b, t !! i = Some b /\ e ∈ b.
(** Entries are in the list of their channel, each channel once. *)
Record table_ok (t : list (list pool_entry)) : Prop := {
  tk_length : length t = 16%nat;
  tk_place : forall i b e, t !! i = Some b -> e ∈ b -> bucket_index (e_channel e) = i /\ 0 <= e_channel e;
  tk_once : forall i b, t !! i = Some b -> NoDup (map e_channel b)
}.
(** Who a live block belongs to: a channel, the table, or the arrays [F] that
    decoders have borrowed. *)
Definition table_tag : Z := -1.
Definition borrowed_tag : Z := -2.
Definition entry_ok (h : heap) (own : nat -> Z) (rs : Z -> list region) (e : pool_entry) : Prop :=
  pool_wf h (e_pool e) (rs (e_channel e)) /\ is_Some (h_live h !! e_block e) /\ own (e_block e) = table_tag /\
  forall b, b ∈ footprint (e_pool e) (rs (e_channel e)) -> own b = e_channel e.
Definition pools_wf (F : list nat) (pm : pools) : Prop :=
  table_ok (p_table pm) /\ heap_wf (p_heap pm) /\
  exists own rs, (forall e, in_table e (p_table pm) -> entry_ok (p_heap pm) own rs e) /\
    NoDup F /\ forall b, b ∈ F -> is_Some (h_live (p_heap pm) !! b) /\ own b = borrowed_tag.
Definition has_pool (channel : Z) (pm : pools) : Prop := is_Some (amqp_get_channel_pool channel pm).

Lemma bucket_index_lt c : (bucket_index c < 16)%nat.
Proof. unfold bucket_index, POOL_TABLE_SIZE. pose proof (Z.mod_pos_bound c 16 ltac:(lia)). lia. Qed.
Lemma bucket_lookup c t : length t = 16%nat -> t !! bucket_index c = Some (bucket c t).
Proof.
  intros Hl. unfold bucket. pose proof (bucket_index_lt c) as Hi. rewrite <- Hl in Hi.
  by apply lookup_lt_is_Some_2 in Hi as [b ->].
Qed.
Lemma bucket_insert c b t : length t = 16%nat -> bucket c (<[bucket_index c := b]> t) = b.
Proof.
  intros Hl. unfold bucket. by rewrite list_lookup_insert_eq by (rewrite Hl; apply bucket_index_lt).
Qed.
Lemma bucket_insert_ne c c' b t : bucket_index c <> bucket_index c' -> bucket c' (<[bucket_index c := b]> t) = bucket c' t.
Proof. intros Hne. unfold bucket. by rewrite list_lookup_insert_ne. Qed.

Lemma find_pool_spec c b p : find_pool c b = Some p -> exists e, e ∈ b /\ e_channel e = c /\ e_pool e = p.
Proof.
  induction b as [|e b IH]; cbn [find_pool]; [done|]. destruct (Z.eqb_spec c (e_channel e)) as [->|].
  - intros [= <-]. exists e. split; [by left|done].
  - intros (e' & He & Hx)%IH. exists e'. split; [by right|done].
Qed.
Lemma find_pool_none c b : find_pool c b = None -> forall e, e ∈ b -> e_channel e <> c.
Proof.
  induction b as [|e b IH]; cbn [find_pool]; [by intros _ e ?%elem_of_nil|].
  destruct (Z.eqb_spec c (e_channel e)) as [->|]; [done|]. intros Hn e' [->|He]%elem_of_cons; [congruence|auto].
Qed.
Lemma find_set_pool c c' p b :
  find_pool c' (set_pool c p b) = if decide (c' = c) then (fun _ => p) <$> find_pool c' b else find_pool c' b.
Proof.
  induction b as [|e b IH]; cbn [set_pool map find_pool]; [by destruct (decide (c' = c))|].
  destruct (Z.eqb_spec c (e_channel e)) as [Hc|Hc]; cbn [e_channel e_pool];
    destruct (Z.eqb_spec c' (e_channel e)) as [Hc'|Hc']; destruct (decide (c' = c)) as [Heq|Heq];
    try congruence; first [reflexivity | exact IH].
Qed.

Section table.
Context (F : list nat) (pm : pools) (Hok : table_ok (p_table pm)).

Lemma get_pool_entry c p :
  amqp_get_channel_pool c pm = Some p ->
  exists e, in_table e (p_table pm) /\ e_channel e = c /\ e_pool e = p.
Proof.
  intros (e & He & Hc & Hp)%find_pool_spec. exists e. split; [|done].
  eexists _, _. split; [apply bucket_lookup, Hok|exact He].
Qed.
(** The pool of one channel is replaced, the others are untouched. *)
Lemma get_pool_set c p h' :
  is_Some (amqp_get_channel_pool c pm) ->
  let pm' := mk_pools h' (<[bucket_index c := set_pool c p (bucket c (p_table pm))]> (p_table pm)) in
  amqp_get_channel_pool c pm' = Some p /\
  forall c', c' <> c -> amqp_get_channel_pool c' pm' = amqp_get_channel_pool c' pm.
Proof.
  intros [q Hq] pm'. unfold amqp_get_channel_pool in *. cbn [p_table pm'].
  split.
  - rewrite bucket_insert by apply Hok. rewrite find_set_pool, decide_True, Hq by done. done.
  - intros c' Hne. destruct (decide (bucket_index c = bucket_index c')) as [Heq|Hi].
    + unfold bucket at 1. rewrite <- Heq. rewrite list_lookup_insert_eq by (rewrite (tk_length _ Hok); apply bucket_index_lt).
      change (default [] (Some ?x)) with x. rewrite find_set_pool, decide_False by done. unfold bucket. by rewrite Heq.
    + by rewrite bucket_insert_ne.
Qed.
Lemma set_pool_in c p e t' :
  t' = <[bucket_index c := set_pool c p (bucket c (p_table pm))]> (p_table pm) -> in_table e t' ->
  (e_channel e <> c /\ in_table e (p_table pm)) \/
  (exists e0, in_table e0 (p_table pm) /\ e_channel e0 = c /\ e = mk_entry (e_block e0) c p).
Proof.
  intros -> (i & b & Hb & He). apply list_lookup_insert_Some in Hb as [(<- & <- & Hi)|[Hi Hb]].
  - unfold set_pool in He. apply list_elem_of_fmap in He as (e0 & -> & He0).
    assert (Hin : in_table e0 (p_table pm)).
    { eexists _, _. split; [apply bucket_lookup, Hok|exact He0]. }
    destruct (Z.eqb_spec c (e_channel e0)) as [->|Hne]; [right; by exists e0|left; by split].
  - left. split; [|by exists i, b]. intros <-. apply Hi. symmetry.
    by destruct (tk_place _ Hok i b e Hb He) as [<- _].
Qed.
Lemma table_ok_set c p : table_ok (<[bucket_index c := set_pool c p (bucket c (p_table pm))]> (p_table pm)).
Proof.
  constructor.
  - rewrite length_insert. apply Hok.
  - intros i b e Hb He. apply list_lookup_insert_Some in Hb as [(<- & <- & Hi)|[Hi Hb]]; [|by eapply tk_place].
    unfold set_pool in He. apply list_elem_of_fmap in He as (e0 & -> & He0).
    destruct (tk_place _ Hok _ _ e0 (bucket_lookup c _ (tk_length _ Hok)) He0) as [Hp Hc].
    by destruct (c =? e_channel e0).
  - intros i b Hb. apply list_lookup_insert_Some in Hb as [(<- & <- & Hi)|[Hi Hb]]; [|by eapply tk_once].
    pose proof (tk_once _ Hok _ _ (bucket_lookup c _ (tk_length _ Hok))) as Hnd.
    replace (map e_channel (set_pool c p (bucket c (p_table pm)))) with (map e_channel (bucket c (p_table pm))); [done|].
    unfold set_pool. rewrite map_map. apply map_ext. intros e. by destruct (c =? e_channel e).
Qed.
End table.

(** Two entries with one channel are one entry. *)
Lemma entry_unique t e e' :
  table_ok t -> in_table e t -> in_table e' t -> e_channel e = e_channel e' -> e = e'.
Proof.
  intros Hok (i & b & Hb & He) (j & b' & Hb' & He') Hc.
  destruct (tk_place _ Hok _ _ _ Hb He) as [<- _], (tk_place _ Hok _ _ _ Hb' He') as [<- _].
  rewrite <- Hc, Hb in Hb'. injection Hb' as <-. pose proof (tk_once _ Hok _ _ Hb) as Hnd. clear Hb.
  induction b as [|x b IH]; [by apply elem_of_nil in He|]. cbn [map] in Hnd. apply NoDup_cons in Hnd as [Hx Hnd].
  rewrite elem_of_cons in He, He'. destruct He as [->|He], He' as [->|He']; [done|..|auto].
  - destruct Hx. rewrite Hc. apply list_elem_of_fmap. eauto.
  - destruct Hx. rewrite <- Hc. apply list_elem_of_fmap. eauto.
Qed.

Lemma footprint_owned p rs b : b ∈ owned p -> b ∈ footprint p rs.
Proof. unfold footprint. rewrite !elem_of_app. auto. Qed.

(** What one pool and the borrowed arrays do leaves the table in order. *)
Lemma pools_move c F pm p :
  pools_wf F pm -> amqp_get_channel_pool c pm = Some p ->
  exists rs, pool_wf (p_heap pm) p rs /\ apart F (p_heap pm) p rs /\
    forall F' h' p' rs', pool_move F (p_heap pm) p rs F' h' p' rs' ->
      pools_wf F' (mk_pools h' (<[bucket_index c := set_pool c p' (bucket c (p_table pm))]> (p_table pm))).
Proof.
  intros (Hok & Hw & own & rs & He & Hnd & HF) Hget.
  destruct (get_pool_entry pm Hok c p Hget) as (e0 & Hin0 & Hc0 & Hp0).
  destruct (He e0 Hin0) as (Hwf & Hl0 & Ho0 & Hf0). rewrite Hc0, Hp0 in *.
  destruct (tk_place _ Hok) with (i := bucket_index c) (b := bucket c (p_table pm)) (e := e0) as [_ Hpos].
  { by apply bucket_lookup, Hok. }
  { destruct Hin0 as (i & b & Hb & Hb0). destruct (tk_place _ Hok _ _ _ Hb Hb0) as [<- _].
    rewrite Hc0 in Hb. rewrite (bucket_lookup c) in Hb by apply Hok. by injection Hb as ->. }
  rewrite Hc0 in Hpos. exists (rs c). split; [done|]. split.
  { split; [done|]. intros b Hb. destruct (HF b Hb) as [Hl Ho]. split; [done|]. intros Hfp.
    rewrite (Hf0 b Hfp) in Ho. unfold borrowed_tag in Ho. lia. }
  intros F' h' p' rs' [Hwf' [Hnd' Hap'] Hk Hg Hnew]. split; [by apply table_ok_set|]. split; [apply Hwf'|].
  exists (fun b => if decide (h_live (p_heap pm) !! b = None)
               then if decide (b ∈ F') then borrowed_tag else c else own b),
         (fun ch => if decide (ch = c) then rs' else rs ch).
  assert (Hlive : forall (b : nat) (x y : Z), is_Some (h_live (p_heap pm) !! b) ->
    (if decide (h_live (p_heap pm) !! b = None) then x else y) = y).
  { intros b x y [m Hm]. by rewrite decide_False by (by rewrite Hm). }
  split; [|split; [done|]].
  - cbn [p_heap p_table]. intros e Hin. destruct (set_pool_in pm Hok c p' e _ eq_refl Hin) as [[Hne Hold]|(e1 & Hin1 & Hc1 & ->)].
    + destruct (He e Hold) as (Hwfe & Hle & Hoe & Hfe). unfold entry_ok. rewrite decide_False by done.
      assert (HX : forall b, b ∈ owned p ++ F -> own b = c \/ own b = borrowed_tag).
      { intros b [Hb|Hb]%elem_of_app; [left; apply Hf0; by apply footprint_owned|right; by apply HF]. }
      destruct Hold as (i & b & Hb & Hbe). destruct (tk_place _ Hok _ _ _ Hb Hbe) as [_ Hpose].
      split_and!.
      * eapply pool_wf_foreign; [exact Hwfe|apply Hwf'|exact Hk|]. intros x Hx Hfp. apply Hfe in Hfp.
        destruct (HX x Hx) as [Ho|Ho]; rewrite Ho in Hfp; [congruence|unfold borrowed_tag in Hfp; lia].
      * eapply keeps_live; [exact Hk| |done]. intros Hx. destruct (HX _ Hx) as [Ho|Ho]; rewrite Hoe in Ho;
          unfold table_tag, borrowed_tag in Ho; lia.
      * by rewrite Hlive.
      * intros x Hx. rewrite Hlive; [by apply Hfe|]. by eapply footprint_live.
    + assert (e1 = e0) as -> by (apply (entry_unique (p_table pm)); [done..|by rewrite Hc1, Hc0]).
      unfold entry_ok. cbn [e_channel e_pool e_block]. rewrite (decide_True (P := c = c)) by done. split_and!.
      * exact Hwf'.
      * eapply keeps_live; [exact Hk| |done]. intros [Hx|Hx]%elem_of_app.
        -- apply (footprint_owned p (rs c)) in Hx. apply Hf0 in Hx. rewrite Ho0 in Hx. unfold table_tag in Hx. lia.
        -- apply HF in Hx as [_ Hx]. rewrite Ho0 in Hx. done.
      * by rewrite Hlive.
      * intros x Hx. destruct (Hg x Hx) as [Hold|Hfresh].
        -- rewrite Hlive; [by apply Hf0|]. by eapply footprint_live.
        -- rewrite decide_True by done. rewrite decide_False; [done|]. intros HxF. by apply (Hap' x HxF).
  - cbn [p_heap]. intros b Hb. split; [by apply Hap'|]. destruct (Hnew b Hb) as [Hold|Hfresh].
    + rewrite Hlive; by apply HF.
    + by rewrite decide_True, decide_True.
Qed.

Lemma in_table_cons c e' e t :
  length t = 16%nat -> in_table e (<[bucket_index c := e' :: bucket c t]> t) -> e = e' \/ in_table e t.
Proof.
  intros Hl (i & b & Hb & He). apply list_lookup_insert_Some in Hb as [(<- & <- & Hi)|[Hi Hb]]; [|right; by exists i, b].
  apply elem_of_cons in He as [->|He]; [by left|right]. eexists _, _. split; [by apply bucket_lookup|done].
Qed.

Section channel_mem_ok.
Context `{Heap}.

(** A new entry at the front of its list. *)
Lemma table_ok_cons c e t :
  table_ok t -> e_channel e = c -> 0 <= c -> find_pool c (bucket c t) = None ->
  table_ok (<[bucket_index c := e :: bucket c t]> t).
Proof.
  intros Hok Hc Hpos Hnone. constructor.
  - rewrite length_insert. apply Hok.
  - intros i b x Hb Hx. apply list_lookup_insert_Some in Hb as [(<- & <- & Hi)|[Hi Hb]]; [|by eapply tk_place].
    apply elem_of_cons in Hx as [->|Hx]; [by rewrite Hc|].
    by apply (tk_place _ Hok _ _ x (bucket_lookup c _ (tk_length _ Hok))).
  - intros i b Hb. apply list_lookup_insert_Some in Hb as [(<- & <- & Hi)|[Hi Hb]]; [|by eapply tk_once].
    cbn [map]. apply NoDup_cons. split; [|by apply (tk_once _ Hok _ _ (bucket_lookup c _ (tk_length _ Hok)))].
    intros (x & Hx & Hin)%list_elem_of_fmap. apply (find_pool_none _ _ Hnone x Hin). congruence.
Qed.

Lemma channel_pool_ok F frame_max c pm :
  pools_wf F pm -> 0 <= c < 2 ^ 16 -> 0 <= frame_max < 2 ^ 31 ->
  exists r pm', amqp_get_or_create_channel_pool frame_max c pm = (inr r, pm') /\ pools_wf F pm' /\
    (r = true -> has_pool c pm').
Proof.
  intros Hwf Hc Hfm. unfold amqp_get_or_create_channel_pool.
  destruct (amqp_get_channel_pool c pm) as [p|] eqn:Hget.
  { exists true, pm. split; [done|]. split; [done|]. intros _. by exists p. }
  destruct Hwf as (Hok & Hw & own & rs & He & Hnd & HF).
  destruct (calloc_spec sizeof_pool_table_entry (p_heap pm) Hw ltac:(done)) as (r & h' & -> & Hw' & Hk & _ & Hr).
  assert (Hentry : forall own' rs' e, entry_ok (p_heap pm) own rs e ->
    (forall b, is_Some (h_live (p_heap pm) !! b) -> own' b = own b) -> rs' (e_channel e) = rs (e_channel e) ->
    entry_ok h' own' rs' e).
  { intros own' rs' e (Hwfe & Hle & Hoe & Hfe) Hown Hrs. unfold entry_ok. rewrite Hrs. split_and!.
    - by eapply pool_wf_keeps.
    - eapply keeps_live; [exact Hk|apply not_elem_of_nil|done].
    - by rewrite Hown.
    - intros b Hb. rewrite Hown; [by apply Hfe|]. by eapply footprint_live. }
  destruct r as [block|]; cbn [p_heap p_table].
  - destruct (Hr block eq_refl) as [Hnone Hsome]. eexists _, _. split; [reflexivity|]. split.
    + split; [by apply table_ok_cons; [| |lia|]|]. split; [done|].
      exists (fun b => if decide (b = block) then table_tag else own b), (fun ch => if decide (ch = c) then [] else rs ch).
      assert (Hlive : forall b, is_Some (h_live (p_heap pm) !! b) -> b <> block).
      { intros b [m Hm] ->. by rewrite Hnone in Hm. }
      split; [|split; [done|]].
      * cbn [p_heap p_table]. intros e [->|Hin]%in_table_cons; [..|apply Hok].
        -- unfold entry_ok. cbn [e_pool e_channel e_block]. rewrite !decide_True by done.
           split; [apply init_pool_wf; [done|lia]|]. split; [eauto|]. split; [done|]. by intros b ?%elem_of_nil.
        -- apply Hentry; [by apply He|intros b Hb; rewrite decide_False; [done|by apply Hlive]|].
           destruct (decide (e_channel e = c)) as [Heq|]; [|done]. exfalso.
           destruct Hin as (i & b & Hb & Hbe). destruct (tk_place _ Hok _ _ _ Hb Hbe) as [<- _].
           rewrite Heq, (bucket_lookup c) in Hb by apply Hok. injection Hb as <-.
           by apply (find_pool_none _ _ Hget e).
      * cbn [p_heap]. intros b Hb. destruct (HF b Hb) as [Hl Ho]. rewrite decide_False by (by apply Hlive).
        split; [|done]. eapply keeps_live; [exact Hk|apply not_elem_of_nil|done].
    + intros _. unfold has_pool, amqp_get_channel_pool. cbn [p_table]. rewrite bucket_insert by apply Hok.
      cbn [find_pool e_channel]. rewrite Z.eqb_refl. by eexists.
  - eexists false, _. split; [reflexivity|]. split; [|done]. split; [done|]. split; [done|]. exists own, rs.
    split; [|split; [done|]].
    + intros e Hin. by apply Hentry; [apply He| |].
    + cbn [p_heap]. intros b Hb. destruct (HF b Hb) as [Hl Ho]. split; [|done].
      eapply keeps_live; [exact Hk|apply not_elem_of_nil|done].
Qed.

(** What is right for a pool and the arrays outstanding is right in the table. *)
Lemma on_pool_ok {A} c F (F' : A -> list nat) (Q : A -> Prop) (m : SE (heap * amqp_pool) fault A) pm :
  pools_wf F pm -> has_pool c pm ->
  (forall h p rs, pool_wf h p rs -> apart F h p rs ->
    exists r h' p' rs', m (h, p) = (inr r, (h', p')) /\ pool_move F h p rs (F' r) h' p' rs' /\ Q r) ->
  exists r pm', on_pool c m pm = (inr r, pm') /\ (pools_wf (F' r) pm' /\ has_pool c pm') /\ Q r.
Proof.
  intros Hwf Hhas Hm. pose proof Hhas as [p Hget]. destruct (pools_move c F pm p Hwf Hget) as (rs & Hp & Hap & Hmove).
  destruct (Hm _ _ _ Hp Hap) as (r & h' & p' & rs' & Hr & Hmv & HQ). unfold on_pool. rewrite Hget, Hr.
  eexists _, _. split; [reflexivity|]. split; [|done]. split; [by eapply Hmove|].
  eexists. apply (get_pool_set pm); [apply Hwf|done].
Qed.

Lemma move_buffer n h p rs F :
  0 <= n < 2 ^ 32 -> pool_wf h p rs -> apart F h p rs ->
  exists r h' p' rs', pool_buffer n (h, p) = (inr r, (h', p')) /\ pool_move F h p rs F h' p' rs' /\
    match r with Some bytes => zlen bytes = round8 n /\ 0 < n | None => True end.
Proof.
  intros Hn Hwf Hap. destruct (move_pool_alloc F h p rs n Hwf Hap ltac:(lia)) as (r & h' & p' & Hr & Hmv).
  unfold pool_buffer. rewrite (SE_bind_ok _ _ _ _ _ Hr). destruct r as [[b off]|]; cbn [regions_after] in Hmv;
    [|by eexists _, _, _, _].
  pose proof (pw_regions _ _ _ (mv_wf _ _ _ _ _ _ _ _ Hmv)) as Hreg. apply Forall_cons in Hreg as [Hreg _].
  destruct Hreg as ((sz & Hsz & Hoff & _ & Hlen & Hfit) & _). cbn [r_block r_off r_len] in *.
  unfold block_size in Hsz. destruct (h_live h' !! b) as [m|] eqn:Em; [|done]. injection Hsz as <-.
  assert (Hload : heap_load (b, off) (round8 n) h' = (inr (zslice off (round8 n) m), h')).
  { unfold heap_load. cbn [fst snd]. rewrite Em. rewrite (proj2 (Z.leb_le _ _)), (proj2 (Z.leb_le _ _)) by lia. done. }
  unfold mbind, SE_bind, in_heap. rewrite Hload. eexists _, _, _, _. split; [reflexivity|]. split; [done|].
  split; [by apply zlen_zslice; lia|]. destruct (decide (n = 0)) as [->|]; [|lia].
  cbn [em_pool_alloc pool_mem] in Hr. unfold amqp_pool_alloc in Hr. cbn in Hr. done.
Qed.

#[export] Program Instance channel_mem_ok : ChannelMemOk pools := {|
  cm_inv := pools_wf [];
  cm_has := has_pool;
  cm_entries_ok channel := {| em_inv F m := pools_wf F m /\ has_pool channel m |}
|}.
Next Obligation.
  intros c F m n [Hwf Hhas] Hn.
  destruct (on_pool_ok c F (fun r => option_list r ++ F) (fun _ => True) (em_malloc n) m Hwf Hhas) as (r & m' & Hr & Hx & _).
  { intros h p rs Hp Hap. destruct (move_malloc F h p rs n Hp Hap Hn) as (r & h' & Hr & Hmv). by eexists _, _, _, _. }
  by exists r, m'.
Qed.
Next Obligation.
  intros c F m b n [Hwf Hhas] Hn.
  destruct (on_pool_ok c (b :: F) (fun r => default b r :: F) (fun _ => True) (em_realloc b n) m Hwf Hhas)
    as (r & m' & Hr & Hx & _).
  { intros h p rs Hp Hap. destruct (move_realloc F h p rs b n Hp Hap) as (r & h' & Hr & Hmv). by eexists _, _, _, _. }
  by exists r, m'.
Qed.
Next Obligation.
  intros c F m b [Hwf Hhas].
  destruct (on_pool_ok c (b :: F) (fun _ => F) (fun _ => True) (em_free b) m Hwf Hhas) as ([] & m' & Hr & Hx & _).
  { intros h p rs Hp Hap. destruct (move_free F h p rs b Hp Hap) as (h' & Hr & Hmv). by eexists _, _, _, _. }
  by exists m'.
Qed.
Next Obligation.
  intros c F m n [Hwf Hhas] Hn.
  destruct (on_pool_ok c F (fun _ => F) (fun _ => True) (em_pool_alloc n) m Hwf Hhas) as (r & m' & Hr & Hx & _).
  { intros h p rs Hp Hap. destruct (move_pool_alloc F h p rs n Hp Hap Hn) as (r & h' & p' & Hr & Hmv). by eexists _, _, _, _. }
  by exists r, m'.
Qed.
Next Obligation. done. Qed.
Next Obligation. by intros c m [Hwf Hhas]. Qed.
Next Obligation. intros. by apply channel_pool_ok. Qed.
Next Obligation.
  intros c n m Hwf Hhas Hn.
  destruct (on_pool_ok c [] (fun _ => []) (fun r => match r with Some bytes => zlen bytes = round8 n /\ 0 < n | None => True end)
    (pool_buffer n) m Hwf Hhas) as (r & m' & Hr & [Hx Hy] & HQ).
  { intros h p rs Hp Hap. by apply move_buffer. }
  by exists r, m'.
Qed.
Next Obligation.
  intros c m Hwf. cbn [cm_recycle channel_mem]. unfold recycle_channel_pool. destruct (amqp_get_channel_pool c m) as [p|] eqn:Hget; [|by exists m].
  destruct (on_pool_ok c [] (fun _ => []) (fun _ => True) (fun '(h, p) => match recycle_amqp_pool p h with
    | (inr p', h') => (inr tt, (h', p')) | (inl f, h') => (inl f, (h', p)) end) m Hwf) as ([] & m' & Hr & [Hx _] & _);
    [by exists p| |by exists m'].
  intros h q rs Hp Hap. destruct (move_recycle [] h q rs Hp Hap) as (p' & h' & Hr & Hmv). rewrite Hr.
  by eexists _, _, _, _.
Qed.
End channel_mem_ok.

(** When the system refuses nothing, the table does not either. *)
Lemma pool_inv_in_table c F pm p :
  pools_wf F pm -> amqp_get_channel_pool c pm = Some p -> pool_mem_inv F (p_heap pm, p).
Proof. intros Hwf Hget. destruct (pools_move c F pm p Hwf Hget) as (rs & Hp & Hap & _). by exists rs. Qed.

#[export] Instance channel_mem_total `{Heap} `{!HeapTotal} : ChannelMemTotal pools.
Proof.
  constructor.
  - intros c. constructor; intros F pm.
    + intros n [Hwf [p Hget]] Hn. pose proof (pool_inv_in_table c F pm p Hwf Hget) as Hi.
      destruct (@em_malloc_total _ _ _ pool_mem_total F (p_heap pm, p) n Hi Hn) as (b & [h' p'] & Hr). cbn [cm_entries channel_mem em_malloc]. unfold on_pool. rewrite Hget, Hr. eauto.
    + intros b n [Hwf [p Hget]] Hn. pose proof (pool_inv_in_table c _ pm p Hwf Hget) as Hi.
      destruct (@em_realloc_total _ _ _ pool_mem_total F (p_heap pm, p) b n Hi Hn) as (b' & [h' p'] & Hr). cbn [cm_entries channel_mem em_realloc]. unfold on_pool. rewrite Hget, Hr. eauto.
    + intros n [Hwf [p Hget]] Hn. pose proof (pool_inv_in_table c _ pm p Hwf Hget) as Hi.
      destruct (@em_pool_alloc_total _ _ _ pool_mem_total F (p_heap pm, p) n Hi Hn) as (q & [h' p'] & Hr). cbn [cm_entries channel_mem em_pool_alloc]. unfold on_pool. rewrite Hget, Hr. eauto.
  - intros fm c pm Hwf. cbn. unfold amqp_get_or_create_channel_pool.
    destruct (amqp_get_channel_pool c pm); [eauto|]. rewrite calloc_total. eauto.
  - intros c n pm Hwf Hhas Hn. destruct (cm_buffer_ok c n pm Hwf Hhas ltac:(lia)) as (r & pm' & Hr & _).
    destruct r as [bytes|]; [eauto|]. exfalso. destruct Hhas as [p Hget].
    pose proof (pool_inv_in_table c [] pm p Hwf Hget) as Hi.
    destruct (@em_pool_alloc_total _ _ _ pool_mem_total [] (p_heap pm, p) n Hi ltac:(lia)) as (q & [h' p'] & Hq).
    cbn [cm_buffer channel_mem] in Hr. unfold amqp_pool_alloc_bytes, on_pool, pool_buffer in Hr. rewrite Hget in Hr.
    rewrite (SE_bind_ok _ _ _ _ _ Hq) in Hr. unfold mbind, SE_bind in Hr.
    destruct (in_heap (heap_load q (round8 n)) (h', p')) as [[f|bytes] [h'' p'']]; discriminate Hr.
Qed.

Lemma new_pools_wf h : heap_wf h -> pools_wf [] (new_pools h).
Proof.
  intros Hw. assert (Hnone : forall e, ~ in_table e (p_table (new_pools h))).
  { intros e (i & b & Hb & He). unfold new_pools in Hb. cbn [p_table] in Hb. apply lookup_replicate in Hb as [-> _]. by apply elem_of_nil in He. }
  split; [|split; [done|]].
  - constructor; [done| |].
    + intros i b e Hb He. destruct (Hnone e). by exists i, b.
    + intros i b Hb. unfold new_pools in Hb. cbn [p_table] in Hb. apply lookup_replicate in Hb as [-> _]. constructor.
  - exists (fun _ => 0), (fun _ => []). split; [by intros e ?%Hnone|]. split; [constructor|]. by intros b ?%elem_of_nil.
Qed.

(** ** Properties *)

(** Each channel has a pool of its own: amqp_get_or_create_channel_pool
    gives a channel its pool, the same as long as nobody uses it, and what is
    taken from the pool of one channel leaves the pools of all others as they
    were; no pool ever touches memory of another, and nothing faults. *)
Theorem channel_pools_separate `{Heap} (frame_max channel n : Z) (pm : pools) :
  pools_wf [] pm -> 0 <= channel < 2 ^ 16 -> 0 <= frame_max < 2 ^ 31 -> 0 <= n < 2 ^ 32 ->
  exists r pm', amqp_get_or_create_channel_pool frame_max channel pm = (inr r, pm') /\ pools_wf [] pm' /\
    (forall c p, amqp_get_channel_pool c pm = Some p -> amqp_get_channel_pool c pm' = Some p) /\
    (r = true ->
      exists bytes pm'', amqp_pool_alloc_bytes channel n pm' = (inr bytes, pm'') /\ pools_wf [] pm'' /\
        is_Some (amqp_get_channel_pool channel pm'') /\
        (forall c, c <> channel -> amqp_get_channel_pool c pm'' = amqp_get_channel_pool c pm')).
Proof.
  intros Hwf Hc Hfm Hn. destruct (channel_pool_ok [] frame_max channel pm Hwf Hc Hfm) as (r & pm' & Hr & Hwf' & Hhas).
  exists r, pm'. split; [done|]. split; [done|]. split.
  - intros c p Hget. unfold amqp_get_or_create_channel_pool in Hr.
    destruct (amqp_get_channel_pool channel pm) as [q|] eqn:Hnone; [by injection Hr as <- <-|].
    destruct (calloc _ _) as [[f|[block|]] h']; [discriminate Hr|..]; injection Hr as <- <-; [|done].
    unfold amqp_get_channel_pool in *. cbn [p_table].
    destruct (decide (bucket_index channel = bucket_index c)) as [Heq|]; [|by rewrite bucket_insert_ne].
    unfold bucket at 1. rewrite <- Heq, list_lookup_insert_eq by (rewrite (tk_length _ (proj1 Hwf)); apply bucket_index_lt).
    change (default [] (Some ?x)) with x. cbn [find_pool e_channel].
    destruct (Z.eqb_spec c channel) as [->|]; [by rewrite Hget in Hnone|]. unfold bucket in *. by rewrite Heq.
  - intros Hr'. specialize (Hhas Hr'). destruct (@cm_buffer_ok _ _ channel_mem_ok channel n pm' Hwf' Hhas Hn) as (b & pm'' & Hb & Hwf'' & Hh & _).
    exists b, pm''. split; [done|]. split; [done|]. split; [done|]. intros c Hne.
    cbn in Hb. unfold amqp_pool_alloc_bytes, on_pool in Hb. pose proof Hhas as [p Hget]. rewrite Hget in Hb.
    destruct (pool_buffer n (p_heap pm', p)) as [x [h' p']]. injection Hb as _ <-.
    by apply (get_pool_set pm' (proj1 Hwf') channel p' h').
Qed.
Lemma channel_pools_separate_witness :
  exists pm' pm'', @amqp_get_or_create_channel_pool demo_grants 131072 17 (new_pools empty_heap) = (inr true, pm') /\
    (exists bytes, @amqp_pool_alloc_bytes demo_grants 17 100 pm' = (inr bytes, pm'')) /\
    amqp_get_channel_pool 1 pm'' = None.
Proof.
  destruct (@channel_pools_separate demo_grants 131072 17 100 (new_pools empty_heap)) as (r & pm' & Hr & _ & _ & Hx).
  - apply new_pools_wf, empty_heap_wf.
  - lia.
  - lia.
  - lia.
  - assert (Ht : r = true) by (vm_compute in Hr; by injection Hr as <- _).
    destruct (Hx Ht) as (bytes & pm'' & Hb & _ & _ & Hc). exists pm', pm''. subst r.
    split; [exact Hr|]. split; [by exists bytes|]. rewrite (Hc 1 ltac:(lia)). vm_compute in Hr. injection Hr as <-. reflexivity.
Defined.
