(* ===== verification/AmqpFraming.v ===== *)
(** * Methods and properties of AMQP: amqp_framing.c

    amqp_framing.c is generated from the AMQP specification: for every method
    a case of amqp_decode_method and one of amqp_encode_method, which go
    through its fields in order.  Here each case is the list of its fields
    with the way each goes over the wire, and [decode_items] and
    [encode_items] do what the cases do for one kind of field after another.
    The two switches are translated separately; [method_cases_agree] compares
    them. *)

From stdpp Require Import gmap strings.
From S2P Require Import Prelude Sshbuf AmqpUrl AmqpMem AmqpCodec AmqpTable.
#[local] Open Scope string_scope.
#[local] Open Scope list_scope.
#[local] Open Scope Z_scope.

Definition AMQP_STATUS_UNKNOWN_CLASS : Z := -3.
Definition AMQP_STATUS_UNKNOWN_METHOD : Z := -4.

(** ** Structures

    The structure of a method or of properties: its fields by their names. *)
Inductive mval := VInt (z : Z) | VBytes (s : list Z) | VTab (t : table).
Abbreviation struct := (gmap string mval).
(** m->name, read as the type the field has *)
Definition get_int (m : struct) (name : string) : Z := match m !! name with Some (VInt z) => z | _ => 0 end.
Definition get_bytes (m : struct) (name : string) : list Z :=
  match m !! name with Some (VBytes s) => s | _ => [] end.
Definition get_table (m : struct) (name : string) : table := match m !! name with Some (VTab t) => t | _ => [] end.

(** How a field goes over the wire: integers of 8 to 64 bits, strings with a
    length of 8 or 32 bits, tables; and booleans, packed into one byte. *)
Inductive wire := Octet | Short | Long | LongLong | ShortStr | LongStr | Table.
Inductive item := Field (name : string) (w : wire) | Bits (names : list string).
Abbreviation layout := (list item).

(** The case of a switch. *)
Fixpoint case_of {A} (cases : list (Z * A)) (n : Z) : option A :=
  match cases with
  | [] => None
  | (k, a) :: cases' => if n =? k then Some a else case_of cases' n
  end.

(** ** Numbers and names *)

Definition AMQP_CONNECTION_START_METHOD : Z := 0x000A000A.
Definition AMQP_CONNECTION_START_OK_METHOD : Z := 0x000A000B.
Definition AMQP_CONNECTION_SECURE_METHOD : Z := 0x000A0014.
Definition AMQP_CONNECTION_SECURE_OK_METHOD : Z := 0x000A0015.
Definition AMQP_CONNECTION_TUNE_METHOD : Z := 0x000A001E.
Definition AMQP_CONNECTION_TUNE_OK_METHOD : Z := 0x000A001F.
Definition AMQP_CONNECTION_OPEN_METHOD : Z := 0x000A0028.
Definition AMQP_CONNECTION_OPEN_OK_METHOD : Z := 0x000A0029.
Definition AMQP_CONNECTION_CLOSE_METHOD : Z := 0x000A0032.
Definition AMQP_CONNECTION_CLOSE_OK_METHOD : Z := 0x000A0033.
Definition AMQP_CONNECTION_BLOCKED_METHOD : Z := 0x000A003C.
Definition AMQP_CONNECTION_UNBLOCKED_METHOD : Z := 0x000A003D.
Definition AMQP_CHANNEL_OPEN_METHOD : Z := 0x0014000A.
Definition AMQP_CHANNEL_OPEN_OK_METHOD : Z := 0x0014000B.
Definition AMQP_CHANNEL_FLOW_METHOD : Z := 0x00140014.
Definition AMQP_CHANNEL_FLOW_OK_METHOD : Z := 0x00140015.
Definition AMQP_CHANNEL_CLOSE_METHOD : Z := 0x00140028.
Definition AMQP_CHANNEL_CLOSE_OK_METHOD : Z := 0x00140029.
Definition AMQP_ACCESS_REQUEST_METHOD : Z := 0x001E000A.
Definition AMQP_ACCESS_REQUEST_OK_METHOD : Z := 0x001E000B.
Definition AMQP_EXCHANGE_DECLARE_METHOD : Z := 0x0028000A.
Definition AMQP_EXCHANGE_DECLARE_OK_METHOD : Z := 0x0028000B.
Definition AMQP_EXCHANGE_DELETE_METHOD : Z := 0x00280014.
Definition AMQP_EXCHANGE_DELETE_OK_METHOD : Z := 0x00280015.
Definition AMQP_EXCHANGE_BIND_METHOD : Z := 0x0028001E.
Definition AMQP_EXCHANGE_BIND_OK_METHOD : Z := 0x0028001F.
Definition AMQP_EXCHANGE_UNBIND_METHOD : Z := 0x00280028.
Definition AMQP_EXCHANGE_UNBIND_OK_METHOD : Z := 0x00280033.
Definition AMQP_QUEUE_DECLARE_METHOD : Z := 0x0032000A.
Definition AMQP_QUEUE_DECLARE_OK_METHOD : Z := 0x0032000B.
Definition AMQP_QUEUE_BIND_METHOD : Z := 0x00320014.
Definition AMQP_QUEUE_BIND_OK_METHOD : Z := 0x00320015.
Definition AMQP_QUEUE_PURGE_METHOD : Z := 0x0032001E.
Definition AMQP_QUEUE_PURGE_OK_METHOD : Z := 0x0032001F.
Definition AMQP_QUEUE_DELETE_METHOD : Z := 0x00320028.
Definition AMQP_QUEUE_DELETE_OK_METHOD : Z := 0x00320029.
Definition AMQP_QUEUE_UNBIND_METHOD : Z := 0x00320032.
Definition AMQP_QUEUE_UNBIND_OK_METHOD : Z := 0x00320033.
Definition AMQP_BASIC_QOS_METHOD : Z := 0x003C000A.
Definition AMQP_BASIC_QOS_OK_METHOD : Z := 0x003C000B.
Definition AMQP_BASIC_CONSUME_METHOD : Z := 0x003C0014.
Definition AMQP_BASIC_CONSUME_OK_METHOD : Z := 0x003C0015.
Definition AMQP_BASIC_CANCEL_METHOD : Z := 0x003C001E.
Definition AMQP_BASIC_CANCEL_OK_METHOD : Z := 0x003C001F.
Definition AMQP_BASIC_PUBLISH_METHOD : Z := 0x003C0028.
Definition AMQP_BASIC_RETURN_METHOD : Z := 0x003C0032.
Definition AMQP_BASIC_DELIVER_METHOD : Z := 0x003C003C.
Definition AMQP_BASIC_GET_METHOD : Z := 0x003C0046.
Definition AMQP_BASIC_GET_OK_METHOD : Z := 0x003C0047.
Definition AMQP_BASIC_GET_EMPTY_METHOD : Z := 0x003C0048.
Definition AMQP_BASIC_ACK_METHOD : Z := 0x003C0050.
Definition AMQP_BASIC_REJECT_METHOD : Z := 0x003C005A.
Definition AMQP_BASIC_RECOVER_ASYNC_METHOD : Z := 0x003C0064.
Definition AMQP_BASIC_RECOVER_METHOD : Z := 0x003C006E.
Definition AMQP_BASIC_RECOVER_OK_METHOD : Z := 0x003C006F.
Definition AMQP_BASIC_NACK_METHOD : Z := 0x003C0078.
Definition AMQP_TX_SELECT_METHOD : Z := 0x005A000A.
Definition AMQP_TX_SELECT_OK_METHOD : Z := 0x005A000B.
Definition AMQP_TX_COMMIT_METHOD : Z := 0x005A0014.
Definition AMQP_TX_COMMIT_OK_METHOD : Z := 0x005A0015.
Definition AMQP_TX_ROLLBACK_METHOD : Z := 0x005A001E.
Definition AMQP_TX_ROLLBACK_OK_METHOD : Z := 0x005A001F.
Definition AMQP_CONFIRM_SELECT_METHOD : Z := 0x0055000A.
Definition AMQP_CONFIRM_SELECT_OK_METHOD : Z := 0x0055000B.

Definition AMQP_FRAME_METHOD : Z := 1.
Definition AMQP_FRAME_HEADER : Z := 2.
Definition AMQP_FRAME_BODY : Z := 3.
Definition AMQP_FRAME_HEARTBEAT : Z := 8.
Definition AMQP_FRAME_MIN_SIZE : Z := 4096.
Definition AMQP_FRAME_END : Z := 206.
Definition AMQP_REPLY_SUCCESS : Z := 200.
Definition AMQP_CONTENT_TOO_LARGE : Z := 311.
Definition AMQP_NO_ROUTE : Z := 312.
Definition AMQP_NO_CONSUMERS : Z := 313.
Definition AMQP_ACCESS_REFUSED : Z := 403.
Definition AMQP_NOT_FOUND : Z := 404.
Definition AMQP_RESOURCE_LOCKED : Z := 405.
Definition AMQP_PRECONDITION_FAILED : Z := 406.
Definition AMQP_CONNECTION_FORCED : Z := 320.
Definition AMQP_INVALID_PATH : Z := 402.
Definition AMQP_FRAME_ERROR : Z := 501.
Definition AMQP_SYNTAX_ERROR : Z := 502.
Definition AMQP_COMMAND_INVALID : Z := 503.
Definition AMQP_CHANNEL_ERROR : Z := 504.
Definition AMQP_UNEXPECTED_FRAME : Z := 505.
Definition AMQP_RESOURCE_ERROR : Z := 506.
Definition AMQP_NOT_ALLOWED : Z := 530.
Definition AMQP_NOT_IMPLEMENTED : Z := 540.
Definition AMQP_INTERNAL_ERROR : Z := 541.

Definition constant_names : list (Z * string) :=
  [(AMQP_FRAME_METHOD, "AMQP_FRAME_METHOD"); (AMQP_FRAME_HEADER, "AMQP_FRAME_HEADER");
   (AMQP_FRAME_BODY, "AMQP_FRAME_BODY"); (AMQP_FRAME_HEARTBEAT, "AMQP_FRAME_HEARTBEAT");
   (AMQP_FRAME_MIN_SIZE, "AMQP_FRAME_MIN_SIZE"); (AMQP_FRAME_END, "AMQP_FRAME_END");
   (AMQP_REPLY_SUCCESS, "AMQP_REPLY_SUCCESS"); (AMQP_CONTENT_TOO_LARGE, "AMQP_CONTENT_TOO_LARGE");
   (AMQP_NO_ROUTE, "AMQP_NO_ROUTE"); (AMQP_NO_CONSUMERS, "AMQP_NO_CONSUMERS");
   (AMQP_ACCESS_REFUSED, "AMQP_ACCESS_REFUSED"); (AMQP_NOT_FOUND, "AMQP_NOT_FOUND");
   (AMQP_RESOURCE_LOCKED, "AMQP_RESOURCE_LOCKED");
   (AMQP_PRECONDITION_FAILED, "AMQP_PRECONDITION_FAILED");
   (AMQP_CONNECTION_FORCED, "AMQP_CONNECTION_FORCED"); (AMQP_INVALID_PATH, "AMQP_INVALID_PATH");
   (AMQP_FRAME_ERROR, "AMQP_FRAME_ERROR"); (AMQP_SYNTAX_ERROR, "AMQP_SYNTAX_ERROR");
   (AMQP_COMMAND_INVALID, "AMQP_COMMAND_INVALID"); (AMQP_CHANNEL_ERROR, "AMQP_CHANNEL_ERROR");
   (AMQP_UNEXPECTED_FRAME, "AMQP_UNEXPECTED_FRAME"); (AMQP_RESOURCE_ERROR, "AMQP_RESOURCE_ERROR");
   (AMQP_NOT_ALLOWED, "AMQP_NOT_ALLOWED"); (AMQP_NOT_IMPLEMENTED, "AMQP_NOT_IMPLEMENTED");
   (AMQP_INTERNAL_ERROR, "AMQP_INTERNAL_ERROR")].
Definition amqp_constant_name (constantNumber : Z) : string :=
  default "(unknown)" (case_of constant_names constantNumber).
Definition amqp_constant_is_hard_error (constantNumber : Z) : bool :=
  existsb (Z.eqb constantNumber)
  [AMQP_CONNECTION_FORCED; AMQP_INVALID_PATH; AMQP_FRAME_ERROR; AMQP_SYNTAX_ERROR; AMQP_COMMAND_INVALID;
   AMQP_CHANNEL_ERROR; AMQP_UNEXPECTED_FRAME; AMQP_RESOURCE_ERROR; AMQP_NOT_ALLOWED;
   AMQP_NOT_IMPLEMENTED; AMQP_INTERNAL_ERROR].

Definition method_names : list (Z * string) :=
  [(AMQP_CONNECTION_START_METHOD, "AMQP_CONNECTION_START_METHOD");
   (AMQP_CONNECTION_START_OK_METHOD, "AMQP_CONNECTION_START_OK_METHOD");
   (AMQP_CONNECTION_SECURE_METHOD, "AMQP_CONNECTION_SECURE_METHOD");
   (AMQP_CONNECTION_SECURE_OK_METHOD, "AMQP_CONNECTION_SECURE_OK_METHOD");
   (AMQP_CONNECTION_TUNE_METHOD, "AMQP_CONNECTION_TUNE_METHOD");
   (AMQP_CONNECTION_TUNE_OK_METHOD, "AMQP_CONNECTION_TUNE_OK_METHOD");
   (AMQP_CONNECTION_OPEN_METHOD, "AMQP_CONNECTION_OPEN_METHOD");
   (AMQP_CONNECTION_OPEN_OK_METHOD, "AMQP_CONNECTION_OPEN_OK_METHOD");
   (AMQP_CONNECTION_CLOSE_METHOD, "AMQP_CONNECTION_CLOSE_METHOD");
   (AMQP_CONNECTION_CLOSE_OK_METHOD, "AMQP_CONNECTION_CLOSE_OK_METHOD");
   (AMQP_CONNECTION_BLOCKED_METHOD, "AMQP_CONNECTION_BLOCKED_METHOD");
   (AMQP_CONNECTION_UNBLOCKED_METHOD, "AMQP_CONNECTION_UNBLOCKED_METHOD");
   (AMQP_CHANNEL_OPEN_METHOD, "AMQP_CHANNEL_OPEN_METHOD");
   (AMQP_CHANNEL_OPEN_OK_METHOD, "AMQP_CHANNEL_OPEN_OK_METHOD");
   (AMQP_CHANNEL_FLOW_METHOD, "AMQP_CHANNEL_FLOW_METHOD");
   (AMQP_CHANNEL_FLOW_OK_METHOD, "AMQP_CHANNEL_FLOW_OK_METHOD");
   (AMQP_CHANNEL_CLOSE_METHOD, "AMQP_CHANNEL_CLOSE_METHOD");
   (AMQP_CHANNEL_CLOSE_OK_METHOD, "AMQP_CHANNEL_CLOSE_OK_METHOD");
   (AMQP_ACCESS_REQUEST_METHOD, "AMQP_ACCESS_REQUEST_METHOD");
   (AMQP_ACCESS_REQUEST_OK_METHOD, "AMQP_ACCESS_REQUEST_OK_METHOD");
   (AMQP_EXCHANGE_DECLARE_METHOD, "AMQP_EXCHANGE_DECLARE_METHOD");
   (AMQP_EXCHANGE_DECLARE_OK_METHOD, "AMQP_EXCHANGE_DECLARE_OK_METHOD");
   (AMQP_EXCHANGE_DELETE_METHOD, "AMQP_EXCHANGE_DELETE_METHOD");
   (AMQP_EXCHANGE_DELETE_OK_METHOD, "AMQP_EXCHANGE_DELETE_OK_METHOD");
   (AMQP_EXCHANGE_BIND_METHOD, "AMQP_EXCHANGE_BIND_METHOD");
   (AMQP_EXCHANGE_BIND_OK_METHOD, "AMQP_EXCHANGE_BIND_OK_METHOD");
   (AMQP_EXCHANGE_UNBIND_METHOD, "AMQP_EXCHANGE_UNBIND_METHOD");
   (AMQP_EXCHANGE_UNBIND_OK_METHOD, "AMQP_EXCHANGE_UNBIND_OK_METHOD");
   (AMQP_QUEUE_DECLARE_METHOD, "AMQP_QUEUE_DECLARE_METHOD");
   (AMQP_QUEUE_DECLARE_OK_METHOD, "AMQP_QUEUE_DECLARE_OK_METHOD");
   (AMQP_QUEUE_BIND_METHOD, "AMQP_QUEUE_BIND_METHOD");
   (AMQP_QUEUE_BIND_OK_METHOD, "AMQP_QUEUE_BIND_OK_METHOD");
   (AMQP_QUEUE_PURGE_METHOD, "AMQP_QUEUE_PURGE_METHOD");
   (AMQP_QUEUE_PURGE_OK_METHOD, "AMQP_QUEUE_PURGE_OK_METHOD");
   (AMQP_QUEUE_DELETE_METHOD, "AMQP_QUEUE_DELETE_METHOD");
   (AMQP_QUEUE_DELETE_OK_METHOD, "AMQP_QUEUE_DELETE_OK_METHOD");
   (AMQP_QUEUE_UNBIND_METHOD, "AMQP_QUEUE_UNBIND_METHOD");
   (AMQP_QUEUE_UNBIND_OK_METHOD, "AMQP_QUEUE_UNBIND_OK_METHOD");
   (AMQP_BASIC_QOS_METHOD, "AMQP_BASIC_QOS_METHOD");
   (AMQP_BASIC_QOS_OK_METHOD, "AMQP_BASIC_QOS_OK_METHOD");
   (AMQP_BASIC_CONSUME_METHOD, "AMQP_BASIC_CONSUME_METHOD");
   (AMQP_BASIC_CONSUME_OK_METHOD, "AMQP_BASIC_CONSUME_OK_METHOD");
   (AMQP_BASIC_CANCEL_METHOD, "AMQP_BASIC_CANCEL_METHOD");
   (AMQP_BASIC_CANCEL_OK_METHOD, "AMQP_BASIC_CANCEL_OK_METHOD");
   (AMQP_BASIC_PUBLISH_METHOD, "AMQP_BASIC_PUBLISH_METHOD");
   (AMQP_BASIC_RETURN_METHOD, "AMQP_BASIC_RETURN_METHOD");
   (AMQP_BASIC_DELIVER_METHOD, "AMQP_BASIC_DELIVER_METHOD");
   (AMQP_BASIC_GET_METHOD, "AMQP_BASIC_GET_METHOD");
   (AMQP_BASIC_GET_OK_METHOD, "AMQP_BASIC_GET_OK_METHOD");
   (AMQP_BASIC_GET_EMPTY_METHOD, "AMQP_BASIC_GET_EMPTY_METHOD");
   (AMQP_BASIC_ACK_METHOD, "AMQP_BASIC_ACK_METHOD");
   (AMQP_BASIC_REJECT_METHOD, "AMQP_BASIC_REJECT_METHOD");
   (AMQP_BASIC_RECOVER_ASYNC_METHOD, "AMQP_BASIC_RECOVER_ASYNC_METHOD");
   (AMQP_BASIC_RECOVER_METHOD, "AMQP_BASIC_RECOVER_METHOD");
   (AMQP_BASIC_RECOVER_OK_METHOD, "AMQP_BASIC_RECOVER_OK_METHOD");
   (AMQP_BASIC_NACK_METHOD, "AMQP_BASIC_NACK_METHOD");
   (AMQP_TX_SELECT_METHOD, "AMQP_TX_SELECT_METHOD");
   (AMQP_TX_SELECT_OK_METHOD, "AMQP_TX_SELECT_OK_METHOD");
   (AMQP_TX_COMMIT_METHOD, "AMQP_TX_COMMIT_METHOD");
   (AMQP_TX_COMMIT_OK_METHOD, "AMQP_TX_COMMIT_OK_METHOD");
   (AMQP_TX_ROLLBACK_METHOD, "AMQP_TX_ROLLBACK_METHOD");
   (AMQP_TX_ROLLBACK_OK_METHOD, "AMQP_TX_ROLLBACK_OK_METHOD");
   (AMQP_CONFIRM_SELECT_METHOD, "AMQP_CONFIRM_SELECT_METHOD");
   (AMQP_CONFIRM_SELECT_OK_METHOD, "AMQP_CONFIRM_SELECT_OK_METHOD")].
Definition amqp_method_name (methodNumber : Z) : option string := case_of method_names methodNumber.
Definition amqp_method_has_content (methodNumber : Z) : bool :=
  existsb (Z.eqb methodNumber)
  [AMQP_BASIC_PUBLISH_METHOD; AMQP_BASIC_RETURN_METHOD; AMQP_BASIC_DELIVER_METHOD; AMQP_BASIC_GET_OK_METHOD].

(** ** The cases of amqp_decode_method: the size of the structure and the fields *)

Definition decode_connection_1_methods : list (Z * (Z * layout)) :=
  [ (AMQP_CONNECTION_START_METHOD, (56, [Field "version_major" Octet; Field "version_minor" Octet;
      Field "server_properties" Table; Field "mechanisms" LongStr; Field "locales" LongStr]));
    (AMQP_CONNECTION_START_OK_METHOD, (64, [Field "client_properties" Table; Field "mechanism" ShortStr;
      Field "response" LongStr; Field "locale" ShortStr]));
    (AMQP_CONNECTION_SECURE_METHOD, (16, [Field "challenge" LongStr]));
    (AMQP_CONNECTION_SECURE_OK_METHOD, (16, [Field "response" LongStr]));
    (AMQP_CONNECTION_TUNE_METHOD, (12, [Field "channel_max" Short; Field "frame_max" Long;
      Field "heartbeat" Short]));
    (AMQP_CONNECTION_TUNE_OK_METHOD, (12, [Field "channel_max" Short; Field "frame_max" Long;
      Field "heartbeat" Short]));
    (AMQP_CONNECTION_OPEN_METHOD, (40, [Field "virtual_host" ShortStr; Field "capabilities" ShortStr;
      Bits ["insist"]])) ].
Definition decode_connection_2_methods : list (Z * (Z * layout)) :=
  [ (AMQP_CONNECTION_OPEN_OK_METHOD, (16, [Field "known_hosts" ShortStr]));
    (AMQP_CONNECTION_CLOSE_METHOD, (32, [Field "reply_code" Short; Field "reply_text" ShortStr;
      Field "class_id" Short; Field "method_id" Short]));
    (AMQP_CONNECTION_CLOSE_OK_METHOD, (1, []));
    (AMQP_CONNECTION_BLOCKED_METHOD, (16, [Field "reason" ShortStr]));
    (AMQP_CONNECTION_UNBLOCKED_METHOD, (1, [])) ].
Definition decode_channel_methods : list (Z * (Z * layout)) :=
  [ (AMQP_CHANNEL_OPEN_METHOD, (16, [Field "out_of_band" ShortStr]));
    (AMQP_CHANNEL_OPEN_OK_METHOD, (16, [Field "channel_id" LongStr]));
    (AMQP_CHANNEL_FLOW_METHOD, (4, [Bits ["active"]]));
    (AMQP_CHANNEL_FLOW_OK_METHOD, (4, [Bits ["active"]]));
    (AMQP_CHANNEL_CLOSE_METHOD, (32, [Field "reply_code" Short; Field "reply_text" ShortStr;
      Field "class_id" Short; Field "method_id" Short]));
    (AMQP_CHANNEL_CLOSE_OK_METHOD, (1, [])) ].
Definition decode_access_methods : list (Z * (Z * layout)) :=
  [ (AMQP_ACCESS_REQUEST_METHOD, (40, [Field "realm" ShortStr; Bits ["exclusive"; "passive"; "active"; "write";
      "read"]]));
    (AMQP_ACCESS_REQUEST_OK_METHOD, (2, [Field "ticket" Short])) ].
Definition decode_exchange_1_methods : list (Z * (Z * layout)) :=
  [ (AMQP_EXCHANGE_DECLARE_METHOD, (80, [Field "ticket" Short; Field "exchange" ShortStr;
      Field "type" ShortStr; Bits ["passive"; "durable"; "auto_delete"; "internal"; "nowait"];
      Field "arguments" Table]));
    (AMQP_EXCHANGE_DECLARE_OK_METHOD, (1, []));
    (AMQP_EXCHANGE_DELETE_METHOD, (32, [Field "ticket" Short; Field "exchange" ShortStr; Bits ["if_unused";
      "nowait"]]));
    (AMQP_EXCHANGE_DELETE_OK_METHOD, (1, []));
    (AMQP_EXCHANGE_BIND_METHOD, (80, [Field "ticket" Short; Field "destination" ShortStr;
      Field "source" ShortStr; Field "routing_key" ShortStr; Bits ["nowait"]; Field "arguments" Table]));
    (AMQP_EXCHANGE_BIND_OK_METHOD, (1, [])) ].
Definition decode_exchange_2_methods : list (Z * (Z * layout)) :=
  [ (AMQP_EXCHANGE_UNBIND_METHOD, (80, [Field "ticket" Short; Field "destination" ShortStr;
      Field "source" ShortStr; Field "routing_key" ShortStr; Bits ["nowait"]; Field "arguments" Table]));
    (AMQP_EXCHANGE_UNBIND_OK_METHOD, (1, [])) ].
Definition decode_queue_1_methods : list (Z * (Z * layout)) :=
  [ (AMQP_QUEUE_DECLARE_METHOD, (64, [Field "ticket" Short; Field "queue" ShortStr; Bits ["passive"; "durable";
      "exclusive"; "auto_delete"; "nowait"]; Field "arguments" Table]));
    (AMQP_QUEUE_DECLARE_OK_METHOD, (24, [Field "queue" ShortStr; Field "message_count" Long;
      Field "consumer_count" Long]));
    (AMQP_QUEUE_BIND_METHOD, (80, [Field "ticket" Short; Field "queue" ShortStr; Field "exchange" ShortStr;
      Field "routing_key" ShortStr; Bits ["nowait"]; Field "arguments" Table]));
    (AMQP_QUEUE_BIND_OK_METHOD, (1, []));
    (AMQP_QUEUE_PURGE_METHOD, (32, [Field "ticket" Short; Field "queue" ShortStr; Bits ["nowait"]]));
    (AMQP_QUEUE_PURGE_OK_METHOD, (4, [Field "message_count" Long]));
    (AMQP_QUEUE_DELETE_METHOD, (40, [Field "ticket" Short; Field "queue" ShortStr; Bits ["if_unused";
      "if_empty"; "nowait"]])) ].
Definition decode_queue_2_methods : list (Z * (Z * layout)) :=
  [ (AMQP_QUEUE_DELETE_OK_METHOD, (4, [Field "message_count" Long]));
    (AMQP_QUEUE_UNBIND_METHOD, (72, [Field "ticket" Short; Field "queue" ShortStr; Field "exchange" ShortStr;
      Field "routing_key" ShortStr; Field "arguments" Table]));
    (AMQP_QUEUE_UNBIND_OK_METHOD, (1, [])) ].
Definition decode_basic_1_methods : list (Z * (Z * layout)) :=
  [ (AMQP_BASIC_QOS_METHOD, (12, [Field "prefetch_size" Long; Field "prefetch_count" Short; Bits ["global"]]));
    (AMQP_BASIC_QOS_OK_METHOD, (1, []));
    (AMQP_BASIC_CONSUME_METHOD, (72, [Field "ticket" Short; Field "queue" ShortStr;
      Field "consumer_tag" ShortStr; Bits ["no_local"; "no_ack"; "exclusive"; "nowait"];
      Field "arguments" Table]));
    (AMQP_BASIC_CONSUME_OK_METHOD, (16, [Field "consumer_tag" ShortStr]));
    (AMQP_BASIC_CANCEL_METHOD, (24, [Field "consumer_tag" ShortStr; Bits ["nowait"]]));
    (AMQP_BASIC_CANCEL_OK_METHOD, (16, [Field "consumer_tag" ShortStr]));
    (AMQP_BASIC_PUBLISH_METHOD, (48, [Field "ticket" Short; Field "exchange" ShortStr;
      Field "routing_key" ShortStr; Bits ["mandatory"; "immediate"]])) ].
Definition decode_basic_2_methods : list (Z * (Z * layout)) :=
  [ (AMQP_BASIC_RETURN_METHOD, (56, [Field "reply_code" Short; Field "reply_text" ShortStr;
      Field "exchange" ShortStr; Field "routing_key" ShortStr]));
    (AMQP_BASIC_DELIVER_METHOD, (64, [Field "consumer_tag" ShortStr; Field "delivery_tag" LongLong;
      Bits ["redelivered"]; Field "exchange" ShortStr; Field "routing_key" ShortStr]));
    (AMQP_BASIC_GET_METHOD, (32, [Field "ticket" Short; Field "queue" ShortStr; Bits ["no_ack"]]));
    (AMQP_BASIC_GET_OK_METHOD, (56, [Field "delivery_tag" LongLong; Bits ["redelivered"];
      Field "exchange" ShortStr; Field "routing_key" ShortStr; Field "message_count" Long]));
    (AMQP_BASIC_GET_EMPTY_METHOD, (16, [Field "cluster_id" ShortStr]));
    (AMQP_BASIC_ACK_METHOD, (16, [Field "delivery_tag" LongLong; Bits ["multiple"]])) ].
Definition decode_basic_3_methods : list (Z * (Z * layout)) :=
  [ (AMQP_BASIC_REJECT_METHOD, (16, [Field "delivery_tag" LongLong; Bits ["requeue"]]));
    (AMQP_BASIC_RECOVER_ASYNC_METHOD, (4, [Bits ["requeue"]]));
    (AMQP_BASIC_RECOVER_METHOD, (4, [Bits ["requeue"]]));
    (AMQP_BASIC_RECOVER_OK_METHOD, (1, []));
    (AMQP_BASIC_NACK_METHOD, (16, [Field "delivery_tag" LongLong; Bits ["multiple"; "requeue"]])) ].
Definition decode_tx_methods : list (Z * (Z * layout)) :=
  [ (AMQP_TX_SELECT_METHOD, (1, []));
    (AMQP_TX_SELECT_OK_METHOD, (1, []));
    (AMQP_TX_COMMIT_METHOD, (1, []));
    (AMQP_TX_COMMIT_OK_METHOD, (1, []));
    (AMQP_TX_ROLLBACK_METHOD, (1, []));
    (AMQP_TX_ROLLBACK_OK_METHOD, (1, [])) ].
Definition decode_confirm_methods : list (Z * (Z * layout)) :=
  [ (AMQP_CONFIRM_SELECT_METHOD, (4, [Bits ["nowait"]]));
    (AMQP_CONFIRM_SELECT_OK_METHOD, (1, [])) ].

(** ** The cases of amqp_encode_method *)

Definition encode_connection_methods : list (Z * layout) :=
  [ (AMQP_CONNECTION_START_METHOD, [Field "version_major" Octet; Field "version_minor" Octet;
      Field "server_properties" Table; Field "mechanisms" LongStr; Field "locales" LongStr]);
    (AMQP_CONNECTION_START_OK_METHOD, [Field "client_properties" Table; Field "mechanism" ShortStr;
      Field "response" LongStr; Field "locale" ShortStr]);
    (AMQP_CONNECTION_SECURE_METHOD, [Field "challenge" LongStr]);
    (AMQP_CONNECTION_SECURE_OK_METHOD, [Field "response" LongStr]);
    (AMQP_CONNECTION_TUNE_METHOD, [Field "channel_max" Short; Field "frame_max" Long; Field "heartbeat" Short]);
    (AMQP_CONNECTION_TUNE_OK_METHOD, [Field "channel_max" Short; Field "frame_max" Long;
      Field "heartbeat" Short]);
    (AMQP_CONNECTION_OPEN_METHOD, [Field "virtual_host" ShortStr; Field "capabilities" ShortStr;
      Bits ["insist"]]);
    (AMQP_CONNECTION_OPEN_OK_METHOD, [Field "known_hosts" ShortStr]);
    (AMQP_CONNECTION_CLOSE_METHOD, [Field "reply_code" Short; Field "reply_text" ShortStr;
      Field "class_id" Short; Field "method_id" Short]);
    (AMQP_CONNECTION_CLOSE_OK_METHOD, []);
    (AMQP_CONNECTION_BLOCKED_METHOD, [Field "reason" ShortStr]);
    (AMQP_CONNECTION_UNBLOCKED_METHOD, []) ].
Definition encode_channel_methods : list (Z * layout) :=
  [ (AMQP_CHANNEL_OPEN_METHOD, [Field "out_of_band" ShortStr]);
    (AMQP_CHANNEL_OPEN_OK_METHOD, [Field "channel_id" LongStr]);
    (AMQP_CHANNEL_FLOW_METHOD, [Bits ["active"]]);
    (AMQP_CHANNEL_FLOW_OK_METHOD, [Bits ["active"]]);
    (AMQP_CHANNEL_CLOSE_METHOD, [Field "reply_code" Short; Field "reply_text" ShortStr; Field "class_id" Short;
      Field "method_id" Short]);
    (AMQP_CHANNEL_CLOSE_OK_METHOD, []) ].
Definition encode_access_methods : list (Z * layout) :=
  [ (AMQP_ACCESS_REQUEST_METHOD, [Field "realm" ShortStr; Bits ["exclusive"; "passive"; "active"; "write";
      "read"]]);
    (AMQP_ACCESS_REQUEST_OK_METHOD, [Field "ticket" Short]) ].
Definition encode_exchange_methods : list (Z * layout) :=
  [ (AMQP_EXCHANGE_DECLARE_METHOD, [Field "ticket" Short; Field "exchange" ShortStr; Field "type" ShortStr;
      Bits ["passive"; "durable"; "auto_delete"; "internal"; "nowait"]; Field "arguments" Table]);
    (AMQP_EXCHANGE_DECLARE_OK_METHOD, []);
    (AMQP_EXCHANGE_DELETE_METHOD, [Field "ticket" Short; Field "exchange" ShortStr; Bits ["if_unused";
      "nowait"]]);
    (AMQP_EXCHANGE_DELETE_OK_METHOD, []);
    (AMQP_EXCHANGE_BIND_METHOD, [Field "ticket" Short; Field "destination" ShortStr; Field "source" ShortStr;
      Field "routing_key" ShortStr; Bits ["nowait"]; Field "arguments" Table]);
    (AMQP_EXCHANGE_BIND_OK_METHOD, []);
    (AMQP_EXCHANGE_UNBIND_METHOD, [Field "ticket" Short; Field "destination" ShortStr; Field "source" ShortStr;
      Field "routing_key" ShortStr; Bits ["nowait"]; Field "arguments" Table]);
    (AMQP_EXCHANGE_UNBIND_OK_METHOD, []) ].
Definition encode_queue_methods : list (Z * layout) :=
  [ (AMQP_QUEUE_DECLARE_METHOD, [Field "ticket" Short; Field "queue" ShortStr; Bits ["passive"; "durable";
      "exclusive"; "auto_delete"; "nowait"]; Field "arguments" Table]);
    (AMQP_QUEUE_DECLARE_OK_METHOD, [Field "queue" ShortStr; Field "message_count" Long;
      Field "consumer_count" Long]);
    (AMQP_QUEUE_BIND_METHOD, [Field "ticket" Short; Field "queue" ShortStr; Field "exchange" ShortStr;
      Field "routing_key" ShortStr; Bits ["nowait"]; Field "arguments" Table]);
    (AMQP_QUEUE_BIND_OK_METHOD, []);
    (AMQP_QUEUE_PURGE_METHOD, [Field "ticket" Short; Field "queue" ShortStr; Bits ["nowait"]]);
    (AMQP_QUEUE_PURGE_OK_METHOD, [Field "message_count" Long]);
    (AMQP_QUEUE_DELETE_METHOD, [Field "ticket" Short; Field "queue" ShortStr; Bits ["if_unused"; "if_empty";
      "nowait"]]);
    (AMQP_QUEUE_DELETE_OK_METHOD, [Field "message_count" Long]);
    (AMQP_QUEUE_UNBIND_METHOD, [Field "ticket" Short; Field "queue" ShortStr; Field "exchange" ShortStr;
      Field "routing_key" ShortStr; Field "arguments" Table]);
    (AMQP_QUEUE_UNBIND_OK_METHOD, []) ].
Definition encode_basic_1_methods : list (Z * layout) :=
  [ (AMQP_BASIC_QOS_METHOD, [Field "prefetch_size" Long; Field "prefetch_count" Short; Bits ["global"]]);
    (AMQP_BASIC_QOS_OK_METHOD, []);
    (AMQP_BASIC_CONSUME_METHOD, [Field "ticket" Short; Field "queue" ShortStr; Field "consumer_tag" ShortStr;
      Bits ["no_local"; "no_ack"; "exclusive"; "nowait"]; Field "arguments" Table]);
    (AMQP_BASIC_CONSUME_OK_METHOD, [Field "consumer_tag" ShortStr]);
    (AMQP_BASIC_CANCEL_METHOD, [Field "consumer_tag" ShortStr; Bits ["nowait"]]);
    (AMQP_BASIC_CANCEL_OK_METHOD, [Field "consumer_tag" ShortStr]);
    (AMQP_BASIC_PUBLISH_METHOD, [Field "ticket" Short; Field "exchange" ShortStr; Field "routing_key" ShortStr;
      Bits ["mandatory"; "immediate"]]);
    (AMQP_BASIC_RETURN_METHOD, [Field "reply_code" Short; Field "reply_text" ShortStr;
      Field "exchange" ShortStr; Field "routing_key" ShortStr]);
    (AMQP_BASIC_DELIVER_METHOD, [Field "consumer_tag" ShortStr; Field "delivery_tag" LongLong;
      Bits ["redelivered"]; Field "exchange" ShortStr; Field "routing_key" ShortStr]);
    (AMQP_BASIC_GET_METHOD, [Field "ticket" Short; Field "queue" ShortStr; Bits ["no_ack"]]) ].
Definition encode_basic_2_methods : list (Z * layout) :=
  [ (AMQP_BASIC_GET_OK_METHOD, [Field "delivery_tag" LongLong; Bits ["redelivered"]; Field "exchange" ShortStr;
      Field "routing_key" ShortStr; Field "message_count" Long]);
    (AMQP_BASIC_GET_EMPTY_METHOD, [Field "cluster_id" ShortStr]);
    (AMQP_BASIC_ACK_METHOD, [Field "delivery_tag" LongLong; Bits ["multiple"]]);
    (AMQP_BASIC_REJECT_METHOD, [Field "delivery_tag" LongLong; Bits ["requeue"]]);
    (AMQP_BASIC_RECOVER_ASYNC_METHOD, [Bits ["requeue"]]);
    (AMQP_BASIC_RECOVER_METHOD, [Bits ["requeue"]]);
    (AMQP_BASIC_RECOVER_OK_METHOD, []);
    (AMQP_BASIC_NACK_METHOD, [Field "delivery_tag" LongLong; Bits ["multiple"; "requeue"]]) ].
Definition encode_tx_methods : list (Z * layout) :=
  [ (AMQP_TX_SELECT_METHOD, []);
    (AMQP_TX_SELECT_OK_METHOD, []);
    (AMQP_TX_COMMIT_METHOD, []);
    (AMQP_TX_COMMIT_OK_METHOD, []);
    (AMQP_TX_ROLLBACK_METHOD, []);
    (AMQP_TX_ROLLBACK_OK_METHOD, []) ].
Definition encode_confirm_methods : list (Z * layout) :=
  [ (AMQP_CONFIRM_SELECT_METHOD, [Bits ["nowait"]]);
    (AMQP_CONFIRM_SELECT_OK_METHOD, []) ].

Definition decode_method_cases : list (Z * (Z * layout)) :=
  decode_connection_1_methods ++ decode_connection_2_methods ++ decode_channel_methods ++
  decode_access_methods ++ decode_exchange_1_methods ++ decode_exchange_2_methods ++
  decode_queue_1_methods ++ decode_queue_2_methods ++ decode_basic_1_methods ++
  decode_basic_2_methods ++ decode_basic_3_methods ++ decode_tx_methods ++ decode_confirm_methods.
Definition encode_method_cases : list (Z * layout) :=
  encode_connection_methods ++ encode_channel_methods ++ encode_access_methods ++
  encode_exchange_methods ++ encode_queue_methods ++ encode_basic_1_methods ++
  encode_basic_2_methods ++ encode_tx_methods ++ encode_confirm_methods.


(** ** The properties of the class basic: the flag, the field *)

Definition AMQP_BASIC_CONTENT_TYPE_FLAG : Z := Z.shiftl 1 15.
Definition AMQP_BASIC_CONTENT_ENCODING_FLAG : Z := Z.shiftl 1 14.
Definition AMQP_BASIC_HEADERS_FLAG : Z := Z.shiftl 1 13.
Definition AMQP_BASIC_DELIVERY_MODE_FLAG : Z := Z.shiftl 1 12.
Definition AMQP_BASIC_PRIORITY_FLAG : Z := Z.shiftl 1 11.
Definition AMQP_BASIC_CORRELATION_ID_FLAG : Z := Z.shiftl 1 10.
Definition AMQP_BASIC_REPLY_TO_FLAG : Z := Z.shiftl 1 9.
Definition AMQP_BASIC_EXPIRATION_FLAG : Z := Z.shiftl 1 8.
Definition AMQP_BASIC_MESSAGE_ID_FLAG : Z := Z.shiftl 1 7.
Definition AMQP_BASIC_TIMESTAMP_FLAG : Z := Z.shiftl 1 6.
Definition AMQP_BASIC_TYPE_FLAG : Z := Z.shiftl 1 5.
Definition AMQP_BASIC_USER_ID_FLAG : Z := Z.shiftl 1 4.
Definition AMQP_BASIC_APP_ID_FLAG : Z := Z.shiftl 1 3.
Definition AMQP_BASIC_CLUSTER_ID_FLAG : Z := Z.shiftl 1 2.
Definition decode_basic_properties : list (Z * string * wire) :=
  [ (AMQP_BASIC_CONTENT_TYPE_FLAG, "content_type", ShortStr);
    (AMQP_BASIC_CONTENT_ENCODING_FLAG, "content_encoding", ShortStr);
    (AMQP_BASIC_HEADERS_FLAG, "headers", Table);
    (AMQP_BASIC_DELIVERY_MODE_FLAG, "delivery_mode", Octet);
    (AMQP_BASIC_PRIORITY_FLAG, "priority", Octet);
    (AMQP_BASIC_CORRELATION_ID_FLAG, "correlation_id", ShortStr);
    (AMQP_BASIC_REPLY_TO_FLAG, "reply_to", ShortStr);
    (AMQP_BASIC_EXPIRATION_FLAG, "expiration", ShortStr);
    (AMQP_BASIC_MESSAGE_ID_FLAG, "message_id", ShortStr);
    (AMQP_BASIC_TIMESTAMP_FLAG, "timestamp", LongLong);
    (AMQP_BASIC_TYPE_FLAG, "type", ShortStr);
    (AMQP_BASIC_USER_ID_FLAG, "user_id", ShortStr);
    (AMQP_BASIC_APP_ID_FLAG, "app_id", ShortStr);
    (AMQP_BASIC_CLUSTER_ID_FLAG, "cluster_id", ShortStr) ].
Definition encode_basic_properties : list (Z * string * wire) :=
  [ (AMQP_BASIC_CONTENT_TYPE_FLAG, "content_type", ShortStr);
    (AMQP_BASIC_CONTENT_ENCODING_FLAG, "content_encoding", ShortStr);
    (AMQP_BASIC_HEADERS_FLAG, "headers", Table);
    (AMQP_BASIC_DELIVERY_MODE_FLAG, "delivery_mode", Octet);
    (AMQP_BASIC_PRIORITY_FLAG, "priority", Octet);
    (AMQP_BASIC_CORRELATION_ID_FLAG, "correlation_id", ShortStr);
    (AMQP_BASIC_REPLY_TO_FLAG, "reply_to", ShortStr);
    (AMQP_BASIC_EXPIRATION_FLAG, "expiration", ShortStr);
    (AMQP_BASIC_MESSAGE_ID_FLAG, "message_id", ShortStr);
    (AMQP_BASIC_TIMESTAMP_FLAG, "timestamp", LongLong);
    (AMQP_BASIC_TYPE_FLAG, "type", ShortStr);
    (AMQP_BASIC_USER_ID_FLAG, "user_id", ShortStr);
    (AMQP_BASIC_APP_ID_FLAG, "app_id", ShortStr);
    (AMQP_BASIC_CLUSTER_ID_FLAG, "cluster_id", ShortStr) ].
(** ** Decoding *)

Section decoders.
Context {M : Type} `{EntryMem M}.

Definition decode_field (w : wire) (encoded : list Z) : decoder M mval :=
  match w with
  | Octet => v ← or_bad (amqp_decode W8 encoded); mret (VInt v)
  | Short => v ← or_bad (amqp_decode W16 encoded); mret (VInt v)
  | Long => v ← or_bad (amqp_decode W32 encoded); mret (VInt v)
  | LongLong => v ← or_bad (amqp_decode W64 encoded); mret (VInt v)
  | ShortStr => len ← or_bad (amqp_decode W8 encoded);
      s ← or_bad (amqp_decode_bytes encoded len); mret (VBytes s)
  | LongStr => len ← or_bad (amqp_decode W32 encoded);
      s ← or_bad (amqp_decode_bytes encoded len); mret (VBytes s)
  | Table => t ← amqp_decode_table encoded; mret (VTab t)
  end.

(** m->name = (bit_buffer & (1 << i)) ? 1 : 0, for each name in turn *)
Fixpoint unpack_bits (names : list string) (i bit_buffer : Z) (m : struct) : struct :=
  match names with
  | [] => m
  | name :: names' =>
      unpack_bits names' (i + 1) bit_buffer
        (<[name := VInt (if truthy (Z.land bit_buffer (Z.shiftl 1 i)) then 1 else 0)]> m)
  end.

Fixpoint decode_items (l : layout) (encoded : list Z) (m : struct) : decoder M struct :=
  match l with
  | [] => mret m
  | Field name w :: l' => v ← decode_field w encoded; decode_items l' encoded (<[name := v]> m)
  | Bits names :: l' =>
      bit_buffer ← or_bad (amqp_decode W8 encoded);
      decode_items l' encoded (unpack_bits names 0 bit_buffer m)
  end.

(** The structure, from the pool. *)
Definition new_struct (sizeof : Z) : decoder M struct :=
  p ← in_mem (em_pool_alloc sizeof);
  match p with None => throw (Status AMQP_STATUS_NO_MEMORY) | Some _ => mret ∅ end.

(** A decoder run from offset 0, which is a local variable. *)
Definition from_start {A} (m : decoder M A) : SE M dstop A := fun mem =>
  match m (0, mem) with (r, (_, mem')) => (r, mem') end.

Definition amqp_decode_method (methodNumber : Z) (encoded : list Z) : SE M dstop struct :=
  from_start
    match case_of decode_method_cases methodNumber with
    | Some (sizeof, l) => m ← new_struct sizeof; decode_items l encoded m
    | None => throw (Status AMQP_STATUS_UNKNOWN_METHOD)
    end.

(** a << n, of type int: undefined when [n] is the width or more, or when the
    result is not an int. *)
Definition shl_int (a n : Z) : decoder M Z :=
  if (n <? 32) && (a * 2 ^ n <? 2 ^ 31) then mret (Z.shiftl a n) else throw (Fault BadShift).

(** The words of flags; the third shift is undefined, so [fuel] 3 is enough. *)
Fixpoint decode_flags (fuel : nat) (encoded : list Z) (flags flagword_index : Z) : decoder M Z :=
  match fuel with
  | O => throw OutOfFuel
  | S fuel' =>
      partial_flags ← or_bad (amqp_decode W16 encoded);
      word ← shl_int partial_flags (flagword_index * 16);
      let flags := Z.lor flags word in
      if truthy (Z.land partial_flags 1)
      then decode_flags fuel' encoded flags (flagword_index + 1)
      else mret flags
  end.

Fixpoint decode_properties (ps : list (Z * string * wire)) (flags : Z) (encoded : list Z) (p : struct)
    : decoder M struct :=
  match ps with
  | [] => mret p
  | (flag, name, w) :: ps' =>
      if truthy (Z.land flags flag)
      then v ← decode_field w encoded; decode_properties ps' flags encoded (<[name := v]> p)
      else decode_properties ps' flags encoded p
  end.

(** The classes, with the size of their structures and their properties. *)
Definition decode_class_cases : list (Z * (Z * list (Z * string * wire))) :=
  [(10, (8, [])); (20, (8, [])); (30, (8, [])); (40, (8, [])); (50, (8, []));
   (60, (200, decode_basic_properties)); (90, (8, [])); (85, (8, []))].

Definition amqp_decode_properties (class_id : Z) (encoded : list Z) : SE M dstop struct :=
  from_start (
    flags ← decode_flags 3 encoded 0 0;
    match case_of decode_class_cases class_id with
    | Some (sizeof, ps) =>
        p ← new_struct sizeof;
        decode_properties ps flags encoded (<["_flags" := VInt flags]> p)
    | None => throw (Status AMQP_STATUS_UNKNOWN_CLASS)
    end).
End decoders.

(** ** Encoding *)

Definition UINT8_MAX : Z := 2 ^ 8 - 1.
Definition UINT32_MAX : Z := 2 ^ 32 - 1.
Definition bad_data : SE (list Z * Z) () () -> encoder := or_return AMQP_STATUS_BAD_AMQP_DATA.

Definition encode_string (max : Z) (w : width) (s : list Z) : encoder :=
  if max <? zlen s then throw AMQP_STATUS_BAD_AMQP_DATA
  else _ ← bad_data (amqp_encode w (zlen s)); bad_data (amqp_encode_bytes s).
Definition encode_field (w : wire) (m : struct) (name : string) : encoder :=
  match w with
  | Octet => bad_data (amqp_encode W8 (get_int m name))
  | Short => bad_data (amqp_encode W16 (get_int m name))
  | Long => bad_data (amqp_encode W32 (get_int m name))
  | LongLong => bad_data (amqp_encode W64 (get_int m name))
  | ShortStr => encode_string UINT8_MAX W8 (get_bytes m name)
  | LongStr => encode_string UINT32_MAX W32 (get_bytes m name)
  | Table => amqp_encode_table (get_table m name)
  end.

(** if (m->name) bit_buffer |= (1 << i), for each name in turn *)
Fixpoint pack_bits (names : list string) (i : Z) (m : struct) (bit_buffer : Z) : Z :=
  match names with
  | [] => bit_buffer
  | name :: names' =>
      pack_bits names' (i + 1) m
        (if truthy (get_int m name) then u8 (Z.lor bit_buffer (Z.shiftl 1 i)) else bit_buffer)
  end.
Fixpoint encode_items (l : layout) (m : struct) : encoder :=
  match l with
  | [] => mret tt
  | Field name w :: l' => _ ← encode_field w m name; encode_items l' m
  | Bits names :: l' => _ ← bad_data (amqp_encode W8 (pack_bits names 0 m 0)); encode_items l' m
  end.

(** An encoder run from offset 0; the function returns the offset, as an int,
    or the status. *)
Definition encode_from_start (m : encoder) (buf : list Z) : Z * list Z :=
  match m (buf, 0) with
  | (inr _, (buf', offset)) => (i32 offset, buf')
  | (inl res, (buf', _)) => (res, buf')
  end.

Definition amqp_encode_method (methodNumber : Z) (decoded : struct) : list Z -> Z * list Z :=
  encode_from_start
    match case_of encode_method_cases methodNumber with
    | Some l => encode_items l decoded
    | None => throw AMQP_STATUS_UNKNOWN_METHOD
    end.

(** A word of 32 bits is used up in two rounds. *)
Fixpoint encode_flags (fuel : nat) (remaining_flags : Z) : encoder :=
  match fuel with
  | O => mret tt
  | S fuel' =>
      let remainder := Z.shiftr remaining_flags 16 in
      let partial_flags := Z.land remaining_flags 0xFFFE in
      let partial_flags := if negb (remainder =? 0) then Z.lor partial_flags 1 else partial_flags in
      _ ← bad_data (amqp_encode W16 partial_flags);
      if negb (remainder =? 0) then encode_flags fuel' remainder else mret tt
  end.
Fixpoint encode_properties (ps : list (Z * string * wire)) (flags : Z) (p : struct) : encoder :=
  match ps with
  | [] => mret tt
  | (flag, name, w) :: ps' =>
      if truthy (Z.land flags flag)
      then _ ← encode_field w p name; encode_properties ps' flags p
      else encode_properties ps' flags p
  end.
Definition encode_class_cases : list (Z * list (Z * string * wire)) :=
  [(10, []); (20, []); (30, []); (40, []); (50, []); (60, encode_basic_properties); (90, []); (85, [])].
Definition amqp_encode_properties (class_id : Z) (decoded : struct) : list Z -> Z * list Z :=
  let flags := get_int decoded "_flags" in
  encode_from_start (
    _ ← encode_flags 2 flags;
    match case_of encode_class_cases class_id with
    | Some ps => encode_properties ps flags decoded
    | None => throw AMQP_STATUS_UNKNOWN_CLASS
    end).

(** ** Requests: the functions that send a method and wait for its reply

    Each fills the structure of its request and passes it to
    amqp_simple_rpc_decoded, with the numbers of the request and the reply. *)

Record rpc_call := simple_rpc_decoded { request_id : Z; reply_id : Z; decoded_request_method : struct }.
Definition simple_rpc (request reply : Z) (fields : list (string * mval)) : rpc_call :=
  simple_rpc_decoded request reply (list_to_map fields).

Definition amqp_channel_open : rpc_call :=
  simple_rpc AMQP_CHANNEL_OPEN_METHOD AMQP_CHANNEL_OPEN_OK_METHOD
  [("out_of_band", VBytes [])].
Definition amqp_channel_flow (active : Z) : rpc_call :=
  simple_rpc AMQP_CHANNEL_FLOW_METHOD AMQP_CHANNEL_FLOW_OK_METHOD
  [("active", VInt active)].
Definition amqp_exchange_declare (exchange type : list Z) (passive durable auto_delete internal : Z) (arguments : table) : rpc_call :=
  simple_rpc AMQP_EXCHANGE_DECLARE_METHOD AMQP_EXCHANGE_DECLARE_OK_METHOD
  [("ticket", VInt 0); ("exchange", VBytes exchange); ("type", VBytes type); ("passive", VInt passive);
   ("durable", VInt durable); ("auto_delete", VInt auto_delete); ("internal", VInt internal);
   ("nowait", VInt 0); ("arguments", VTab arguments)].
Definition amqp_exchange_delete (exchange : list Z) (if_unused : Z) : rpc_call :=
  simple_rpc AMQP_EXCHANGE_DELETE_METHOD AMQP_EXCHANGE_DELETE_OK_METHOD
  [("ticket", VInt 0); ("exchange", VBytes exchange); ("if_unused", VInt if_unused); ("nowait", VInt 0)].
Definition amqp_exchange_bind (destination source routing_key : list Z) (arguments : table) : rpc_call :=
  simple_rpc AMQP_EXCHANGE_BIND_METHOD AMQP_EXCHANGE_BIND_OK_METHOD
  [("ticket", VInt 0); ("destination", VBytes destination); ("source", VBytes source);
   ("routing_key", VBytes routing_key); ("nowait", VInt 0); ("arguments", VTab arguments)].
Definition amqp_exchange_unbind (destination source routing_key : list Z) (arguments : table) : rpc_call :=
  simple_rpc AMQP_EXCHANGE_UNBIND_METHOD AMQP_EXCHANGE_UNBIND_OK_METHOD
  [("ticket", VInt 0); ("destination", VBytes destination); ("source", VBytes source);
   ("routing_key", VBytes routing_key); ("nowait", VInt 0); ("arguments", VTab arguments)].
Definition amqp_queue_declare (queue : list Z) (passive durable exclusive auto_delete : Z) (arguments : table) : rpc_call :=
  simple_rpc AMQP_QUEUE_DECLARE_METHOD AMQP_QUEUE_DECLARE_OK_METHOD
  [("ticket", VInt 0); ("queue", VBytes queue); ("passive", VInt passive); ("durable", VInt durable);
   ("exclusive", VInt exclusive); ("auto_delete", VInt auto_delete); ("nowait", VInt 0);
   ("arguments", VTab arguments)].
Definition amqp_queue_bind (queue exchange routing_key : list Z) (arguments : table) : rpc_call :=
  simple_rpc AMQP_QUEUE_BIND_METHOD AMQP_QUEUE_BIND_OK_METHOD
  [("ticket", VInt 0); ("queue", VBytes queue); ("exchange", VBytes exchange);
   ("routing_key", VBytes routing_key); ("nowait", VInt 0); ("arguments", VTab arguments)].
Definition amqp_queue_purge (queue : list Z) : rpc_call :=
  simple_rpc AMQP_QUEUE_PURGE_METHOD AMQP_QUEUE_PURGE_OK_METHOD
  [("ticket", VInt 0); ("queue", VBytes queue); ("nowait", VInt 0)].
Definition amqp_queue_delete (queue : list Z) (if_unused if_empty : Z) : rpc_call :=
  simple_rpc AMQP_QUEUE_DELETE_METHOD AMQP_QUEUE_DELETE_OK_METHOD
  [("ticket", VInt 0); ("queue", VBytes queue); ("if_unused", VInt if_unused);
   ("if_empty", VInt if_empty); ("nowait", VInt 0)].
Definition amqp_queue_unbind (queue exchange routing_key : list Z) (arguments : table) : rpc_call :=
  simple_rpc AMQP_QUEUE_UNBIND_METHOD AMQP_QUEUE_UNBIND_OK_METHOD
  [("ticket", VInt 0); ("queue", VBytes queue); ("exchange", VBytes exchange);
   ("routing_key", VBytes routing_key); ("arguments", VTab arguments)].
Definition amqp_basic_qos (prefetch_size prefetch_count global : Z) : rpc_call :=
  simple_rpc AMQP_BASIC_QOS_METHOD AMQP_BASIC_QOS_OK_METHOD
  [("prefetch_size", VInt prefetch_size); ("prefetch_count", VInt prefetch_count); ("global", VInt global)].
Definition amqp_basic_consume (queue consumer_tag : list Z) (no_local no_ack exclusive : Z) (arguments : table) : rpc_call :=
  simple_rpc AMQP_BASIC_CONSUME_METHOD AMQP_BASIC_CONSUME_OK_METHOD
  [("ticket", VInt 0); ("queue", VBytes queue); ("consumer_tag", VBytes consumer_tag);
   ("no_local", VInt no_local); ("no_ack", VInt no_ack); ("exclusive", VInt exclusive);
   ("nowait", VInt 0); ("arguments", VTab arguments)].
Definition amqp_basic_cancel (consumer_tag : list Z) : rpc_call :=
  simple_rpc AMQP_BASIC_CANCEL_METHOD AMQP_BASIC_CANCEL_OK_METHOD
  [("consumer_tag", VBytes consumer_tag); ("nowait", VInt 0)].
Definition amqp_basic_recover (requeue : Z) : rpc_call :=
  simple_rpc AMQP_BASIC_RECOVER_METHOD AMQP_BASIC_RECOVER_OK_METHOD
  [("requeue", VInt requeue)].
Definition amqp_tx_select : rpc_call :=
  simple_rpc AMQP_TX_SELECT_METHOD AMQP_TX_SELECT_OK_METHOD
  [].
Definition amqp_tx_commit : rpc_call :=
  simple_rpc AMQP_TX_COMMIT_METHOD AMQP_TX_COMMIT_OK_METHOD
  [].
Definition amqp_tx_rollback : rpc_call :=
  simple_rpc AMQP_TX_ROLLBACK_METHOD AMQP_TX_ROLLBACK_OK_METHOD
  [].
Definition amqp_confirm_select : rpc_call :=
  simple_rpc AMQP_CONFIRM_SELECT_METHOD AMQP_CONFIRM_SELECT_OK_METHOD
  [("nowait", VInt 0)].

(** ** What goes over the wire *)

Lemma truthy_land_bit x i : 0 <= i -> truthy (Z.land x (Z.shiftl 1 i)) = Z.testbit x i.
Proof.
  intros Hi. rewrite Z.shiftl_1_l. unfold truthy. destruct (Z.testbit x i) eqn:E.
  - apply negb_true_iff, Z.eqb_neq. intros Hz.
    assert (Ht : Z.testbit (Z.land x (2 ^ i)) i = true) by (by rewrite Z.land_spec, E, Z.pow2_bits_true).
    by rewrite Hz, Z.bits_0 in Ht.
  - apply negb_false_iff, Z.eqb_eq, Z.bits_inj'. intros j Hj. rewrite Z.land_spec, Z.bits_0.
    destruct (decide (j = i)) as [->|Hne]; [by rewrite E|]. by rewrite Z.pow2_bits_false, andb_false_r by lia.
Qed.

(** The booleans as one number, the first the lowest bit. *)
Fixpoint bits_value (names : list string) (m : struct) : Z :=
  match names with
  | [] => 0
  | name :: names' => (if truthy (get_int m name) then 1 else 0) + 2 * bits_value names' m
  end.
Lemma bits_value_range names m : 0 <= bits_value names m < 2 ^ zlen names.
Proof.
  induction names as [|n ns IH]; cbn [bits_value]; [by vm_compute|].
  rewrite zlen_cons, Z.pow_add_r by (zlen_facts; lia). change (2 ^ 1) with 2.
  destruct (truthy (get_int m n)); lia.
Qed.

Lemma pack_bits_value names i m b :
  0 <= i -> i + zlen names <= 8 -> 0 <= b < 2 ^ i ->
  pack_bits names i m b = b + bits_value names m * 2 ^ i.
Proof.
  revert i b. induction names as [|n ns IH]; intros i b Hi Hl Hb; cbn [pack_bits bits_value]; [lia|].
  rewrite zlen_cons in Hl. zlen_facts.
  assert (Hpow : 2 ^ (i + 1) = 2 * 2 ^ i) by (rewrite Z.pow_add_r by lia; change (2 ^ 1) with 2; lia).
  assert (Hp8 : 2 ^ (i + 1) <= 2 ^ 8) by (apply Z.pow_le_mono_r; lia).
  destruct (truthy (get_int m n)).
  - assert (Hor : Z.lor b (Z.shiftl 1 i) = b + 2 ^ i).
    { rewrite Z.shiftl_1_l. pose proof (lor_add_low b 1 i Hi Hb). rewrite Z.mul_1_l in *. done. }
    rewrite Hor, u8_id, IH by lia. rewrite Hpow. nia.
  - rewrite IH by lia. rewrite Hpow. nia.
Qed.

(** The fields of [m] with these names, over those of [acc]. *)
Fixpoint copy_fields (names : list string) (m acc : struct) : struct :=
  match names with
  | [] => acc
  | n :: ns => copy_fields ns m (match m !! n with Some v => <[n := v]> acc | None => acc end)
  end.
Lemma copy_fields_lookup names m acc n :
  (forall k, k ∈ names -> is_Some (m !! k)) ->
  copy_fields names m acc !! n = if decide (n ∈ names) then m !! n else acc !! n.
Proof.
  revert acc. induction names as [|k ns IH]; intros acc Hs; cbn [copy_fields].
  { destruct (decide (n ∈ [])) as [Hin|]; [|done]. by apply elem_of_nil in Hin. }
  destruct (Hs k ltac:(left)) as [v Hv]. rewrite Hv, IH by (intros; apply Hs; by right).
  destruct (decide (n ∈ ns)) as [Hin|Hin], (decide (n ∈ k :: ns)) as [Hc|Hc]; try done.
  - destruct Hc. by right.
  - apply elem_of_cons in Hc as [->|?]; [|done]. by rewrite lookup_insert_eq.
  - rewrite lookup_insert_ne; [done|]. intros ->. apply Hc. by left.
Qed.
Lemma copy_fields_all names m :
  (forall k, k ∈ names <-> is_Some (m !! k)) -> copy_fields names m ∅ = m.
Proof.
  intros Hs. apply map_eq. intros n. rewrite copy_fields_lookup by (intros; by apply Hs).
  destruct (decide (n ∈ names)) as [|Hn]; [done|]. rewrite lookup_empty. symmetry.
  apply eq_None_not_Some. by rewrite <- Hs.
Qed.

Definition valid_bit (m : struct) (name : string) : bool :=
  match m !! name with Some (VInt z) => in_range 0 2 z | _ => false end.
Lemma unpack_bits_value names i b m acc :
  0 <= i -> 0 <= b < 2 ^ i -> forallb (valid_bit m) names = true ->
  unpack_bits names i (b + bits_value names m * 2 ^ i) acc = copy_fields names m acc.
Proof.
  revert i b acc. induction names as [|n ns IH]; intros i b acc Hi Hb Hv; cbn [unpack_bits copy_fields]; [done|].
  cbn [forallb] in Hv. apply andb_prop in Hv as [Hn Hv]. unfold valid_bit in Hn.
  destruct (m !! n) as [[z| |]|] eqn:E; try discriminate Hn. apply in_range_spec in Hn.
  assert (Hpow : 2 ^ (i + 1) = 2 * 2 ^ i) by (rewrite Z.pow_add_r by lia; change (2 ^ 1) with 2; lia).
  assert (Hz : (if truthy (get_int m n) then 1 else 0) = z).
  { unfold get_int. rewrite E. unfold truthy. destruct (Z.eqb_spec z 0); cbn; lia. }
  cbn [bits_value]. rewrite Hz, truthy_land_bit by done.
  assert (Hbit : Z.testbit (b + (z + 2 * bits_value ns m) * 2 ^ i) i = negb (z =? 0)).
  { rewrite Z.testbit_odd, Z.shiftr_div_pow2, Z.div_add, Z.div_small by lia. rewrite Z.add_0_l.
    rewrite Z.odd_add_mul_2. destruct (Z.eqb_spec z 0) as [->|]; [done|]. by assert (z = 1) as -> by lia. }
  rewrite Hbit. replace (if negb (z =? 0) then 1 else 0) with z by (destruct (Z.eqb_spec z 0); cbn; lia).
  replace (b + (z + 2 * bits_value ns m) * 2 ^ i) with ((b + z * 2 ^ i) + bits_value ns m * 2 ^ (i + 1))
    by (rewrite Hpow; lia).
  apply IH; [lia| |done]. rewrite Hpow. nia.
Qed.

(** The bytes of a field, of booleans, of a structure. *)
Definition enc_field (w : wire) (m : struct) (name : string) : list Z :=
  match w with
  | Octet => amqp_e W8 (get_int m name)
  | Short => amqp_e W16 (get_int m name)
  | Long => amqp_e W32 (get_int m name)
  | LongLong => amqp_e W64 (get_int m name)
  | ShortStr => amqp_e W8 (zlen (get_bytes m name)) ++ get_bytes m name
  | LongStr => amqp_e W32 (zlen (get_bytes m name)) ++ get_bytes m name
  | Table => enc_table (get_table m name)
  end.
Fixpoint enc_items (l : layout) (m : struct) : list Z :=
  match l with
  | [] => []
  | Field name w :: l' => enc_field w m name ++ enc_items l' m
  | Bits names :: l' => amqp_e W8 (pack_bits names 0 m 0) ++ enc_items l' m
  end.

(** A field has the type of its place and a value in range. *)
Definition valid_value (w : wire) (v : mval) : bool :=
  match w, v with
  | Octet, VInt z => in_range 0 (2 ^ 8) z
  | Short, VInt z => in_range 0 (2 ^ 16) z
  | Long, VInt z => in_range 0 (2 ^ 32) z
  | LongLong, VInt z => in_range 0 (2 ^ 64) z
  | ShortStr, VBytes s => is_bytes s && (zlen s <=? UINT8_MAX)
  | LongStr, VBytes s => is_bytes s && (zlen s <=? UINT32_MAX)
  | Table, VTab t => forallb canon_entry t
  | _, _ => false
  end.
Definition valid_field (w : wire) (m : struct) (name : string) : bool :=
  match m !! name with Some v => valid_value w v | None => false end.
Definition item_names (it : item) : list string := match it with Field name _ => [name] | Bits names => names end.
Definition layout_names (l : layout) : list string := concat (map item_names l).
Definition valid_item (m : struct) (it : item) : bool :=
  match it with
  | Field name w => valid_field w m name
  | Bits names => (zlen names <=? 8) && forallb (valid_bit m) names
  end.
(** The structure has the fields of the layout and no others, all valid. *)
Definition only_fields (names : list string) (m : struct) : bool :=
  forallb (fun e => existsb (String.eqb e.1) names) (map_to_list m).
Definition valid_struct (l : layout) (m : struct) : bool :=
  forallb (valid_item m) l && only_fields (layout_names l) m.

Lemma enc_field_nonempty w m name : enc_field w m name <> [].
Proof. destruct w; try apply amqp_e_nonempty; apply app_nonempty_l, amqp_e_nonempty. Qed.

Lemma zlen_amqp_string w s : zlen (amqp_e w (zlen s) ++ s) = width_bytes w + zlen s.
Proof. by rewrite zlen_app, zlen_amqp_e. Qed.
Lemma Writes_string max w s :
  zlen s <= max -> Writes 0 (encode_string max w s) (amqp_e w (zlen s) ++ s).
Proof.
  intros Hs. unfold encode_string. rewrite (proj2 (Z.ltb_ge _ _)) by lia.
  apply Writes_bind; [apply amqp_e_nonempty|apply Writes_int; [lia|by right]|apply Writes_bytes_or; by right].
Qed.
(** What the encoder asks of a field, and the sizes at which it holds. *)
Ltac valid_cases :=
  match goal with Hv : valid_field ?w ?m ?n = true |- _ =>
    unfold valid_field, valid_value in Hv; unfold enc_field, encode_field, get_int, get_bytes, get_table in *;
    destruct w, (m !! n) as [[?z|?s|?t]|] eqn:?E; try discriminate Hv
  end.
Lemma Writes_field w m name :
  valid_field w m name = true -> zlen (enc_field w m name) < 2 ^ 32 ->
  Writes 0 (encode_field w m name) (enc_field w m name).
Proof.
  intros Hv Hl. valid_cases; try (by apply Writes_int; [lia|right]).
  - apply andb_prop in Hv as [_ Hv]. apply Writes_string. lia.
  - apply andb_prop in Hv as [_ Hv]. apply Writes_string. lia.
  - apply Writes_table; [by apply canon_table_known|done].
Qed.
Lemma Writes_items l m :
  forallb (valid_item m) l = true -> zlen (enc_items l m) < 2 ^ 32 -> Writes 0 (encode_items l m) (enc_items l m).
Proof.
  induction l as [|[name w|names] l IH]; cbn [forallb encode_items enc_items]; intros Hv Hl; [apply Writes_ret|..];
    apply andb_prop in Hv as [Hi Hv]; rewrite zlen_app in Hl; zlen_facts.
  - apply Writes_bind; [apply enc_field_nonempty|apply Writes_field; [done|lia]|apply IH; [done|lia]].
  - apply Writes_bind; [apply (amqp_e_nonempty W8)|apply (Writes_int 0 _ W8); [lia|by right]|apply IH; [done|lia]].
Qed.

Lemma enc_table_u8 t : forallb canon_entry t = true -> Forall is_u8 (enc_table t).
Proof.
  intros Hc. apply Forall_app. split; [apply amqp_e_u8|]. apply Forall_u8_concat.
  rewrite forallb_forall in Hc. apply List.Forall_forall. intros d (e & <- & He)%in_map_iff.
  by apply enc_entry_u8, Hc.
Qed.
Lemma enc_field_u8 w m name : valid_field w m name = true -> Forall is_u8 (enc_field w m name).
Proof.
  intros Hv. valid_cases; try apply amqp_e_u8;
    try (apply andb_prop in Hv as [Hv _]; apply Forall_app; split; [apply amqp_e_u8|by apply is_bytes_spec]).
  by apply enc_table_u8.
Qed.
Lemma enc_items_u8 l m : forallb (valid_item m) l = true -> Forall is_u8 (enc_items l m).
Proof.
  induction l as [|[name w|names] l IH]; cbn [forallb enc_items]; intros Hv; [constructor|..];
    apply andb_prop in Hv as [Hi Hv]; apply Forall_app; (split; [|by apply IH]);
    [by apply enc_field_u8|apply (amqp_e_u8 W8)].
Qed.

Section reads.
Context {M : Type} `{EntryMemTotal M}.

Lemma Reads_eq {A} (m : list Z -> decoder M A) data a b : a = b -> Reads m data a -> Reads m data b.
Proof. by intros ->. Qed.
Lemma Reads_string w s :
  Forall is_u8 s -> zlen s < 2 ^ (8 * width_bytes w) ->
  Reads (fun encoded => len ← or_bad (amqp_decode w encoded); s ← or_bad (amqp_decode_bytes encoded len); mret (VBytes s))
    (amqp_e w (zlen s) ++ s) (VBytes s).
Proof.
  intros Hs Hl. eapply (Reads_bind _ (fun encoded len => s ← or_bad (amqp_decode_bytes encoded len); mret (VBytes s)));
    [apply Reads_int| |done].
  rewrite Z.mod_small by (zlen_facts; lia). apply (Reads_map _ VBytes), Reads_bytes.
Qed.
Lemma Reads_int_field w z :
  0 <= z < 2 ^ (8 * width_bytes w) ->
  Reads (fun encoded => v ← or_bad (amqp_decode w encoded); mret (VInt v)) (amqp_e w z) (VInt z).
Proof.
  intros Hz. apply (Reads_eq _ _ (VInt (z mod 2 ^ (8 * width_bytes w)))); [by rewrite Z.mod_small|].
  apply (Reads_map _ VInt), Reads_int.
Qed.
Lemma Reads_field w m name v :
  valid_field w m name = true -> m !! name = Some v -> zlen (enc_field w m name) < 2 ^ 30 ->
  Reads (decode_field w) (enc_field w m name) v.
Proof.
  intros Hv Hm Hl. valid_cases; injection Hm as <-;
    try (by apply Reads_int_field, in_range_spec);
    try (apply andb_prop in Hv as [Hb Hv]; unfold UINT8_MAX, UINT32_MAX in Hv; apply (Reads_string _ s);
         [by apply is_bytes_spec|cbn [width_bytes]; lia]).
  apply (Reads_map _ VTab), Reads_table; done.
Qed.

Lemma Reads_items l m acc :
  forallb (valid_item m) l = true -> zlen (enc_items l m) < 2 ^ 30 ->
  Reads (fun encoded => decode_items l encoded acc) (enc_items l m) (copy_fields (layout_names l) m acc).
Proof.
  revert acc. induction l as [|[name w|names] l IH]; intros acc; cbn [forallb enc_items decode_items];
    intros Hv Hl; [apply Reads_ret|..]; apply andb_prop in Hv as [Hi Hv]; rewrite zlen_app in Hl; zlen_facts.
  - assert (Hs : exists v, m !! name = Some v).
    { cbn [valid_item] in Hi. unfold valid_field in Hi. destruct (m !! name); [by eexists|]. by destruct w. }
    destruct Hs as [v Hm].
    change (layout_names (Field name w :: l)) with (name :: layout_names l). cbn [copy_fields]. rewrite Hm.
    eapply (Reads_bind _ (fun encoded v => decode_items l encoded (<[name:=v]> acc)));
      [by apply Reads_field; [| |lia]|apply IH; [done|lia]|by apply enc_items_u8].
  - cbn [valid_item] in Hi. apply andb_prop in Hi as [Hlen Hbits]. apply Z.leb_le in Hlen.
    eapply (Reads_bind _ (fun encoded b => decode_items l encoded (unpack_bits names 0 b acc)));
      [apply (Reads_int W8)| |by apply enc_items_u8].
    pose proof (bits_value_range names m) as Hr.
    assert (Hp8 : 2 ^ zlen names <= 2 ^ 8) by (apply Z.pow_le_mono_r; lia).
    assert (Hu : unpack_bits names 0 (pack_bits names 0 m 0 mod 2 ^ (8 * width_bytes W8)) acc = copy_fields names m acc).
    { rewrite pack_bits_value by (change (2 ^ 0) with 1; lia). cbn [width_bytes].
      rewrite Z.mod_small by (change (2 ^ 0) with 1; change (8 * 1) with 8; lia).
      apply unpack_bits_value; [lia|change (2 ^ 0) with 1; lia|done]. }
    rewrite Hu. eapply Reads_eq; [|apply IH; [done|lia]].
    change (layout_names (Bits names :: l)) with (names ++ layout_names l). clear. generalize (layout_names l) as ns.
    revert acc. induction names as [|n names IHn]; intros acc ns; [done|]. cbn [app copy_fields]. apply IHn.
Qed.
End reads.

(** ** The two switches agree *)

Lemma case_of_In {A} (cases : list (Z * A)) n a : case_of cases n = Some a -> In (n, a) cases.
Proof.
  induction cases as [|[k b] cs IH]; cbn; [done|]. destruct (Z.eqb_spec n k) as [->|]; [intros [= ->]; by left|].
  auto.
Qed.
Lemma case_of_map {A B} (f : A -> B) (cases : list (Z * A)) n :
  case_of (map (fun c => (c.1, f c.2)) cases) n = f <$> case_of cases n.
Proof. induction cases as [|[k b] cs IH]; cbn; [done|]. by destruct (n =? k). Qed.

Lemma method_cases_agree n : case_of encode_method_cases n = snd <$> case_of decode_method_cases n.
Proof. rewrite <- (case_of_map snd). done. Qed.
Lemma class_cases_agree n : case_of encode_class_cases n = snd <$> case_of decode_class_cases n.
Proof. rewrite <- (case_of_map snd). done. Qed.

(** No name occurs twice, and every structure has a size. *)
Definition size_ok (n : Z) : bool := (0 <? n) && (n <? 2 ^ 32).
Definition layout_ok (l : layout) : bool :=
  bool_decide (NoDup (layout_names l)) &&
  forallb (fun it => match it with Field _ _ => true | Bits names => zlen names <=? 8 end) l.
Lemma decode_method_case n sizeof l :
  case_of decode_method_cases n = Some (sizeof, l) -> 0 < sizeof < 2 ^ 32 /\ layout_ok l = true.
Proof.
  intros Hc%case_of_In.
  assert (Hall : forallb (fun c => size_ok c.2.1 && layout_ok c.2.2) decode_method_cases = true) by (by vm_compute).
  rewrite forallb_forall in Hall. specialize (Hall _ Hc). cbn [fst snd] in Hall.
  apply andb_prop in Hall as [Hs Hl]. unfold size_ok in Hs. split; [lia|done].
Qed.

Lemma valid_struct_names l m :
  valid_struct l m = true -> forall k, k ∈ layout_names l <-> is_Some (m !! k).
Proof.
  unfold valid_struct, only_fields, layout_names. intros [Hi Ho]%andb_prop k. rewrite forallb_forall in Hi, Ho. split.
  - intros (it & Hk & Hin)%list_elem_of_In%in_concat. apply in_map_iff in Hk as (it' & <- & Hit).
    specialize (Hi _ Hit). destruct it' as [name w|names]; cbn [item_names valid_item] in *.
    + destruct Hin as [->|[]]. unfold valid_field in Hi. destruct (m !! k); [by eexists|done].
    + apply andb_prop in Hi as [_ Hi]. rewrite forallb_forall in Hi. specialize (Hi _ Hin).
      unfold valid_bit in Hi. destruct (m !! k); [by eexists|done].
  - intros [v Hv]. specialize (Ho (k, v)). rewrite existsb_exists in Ho.
    destruct Ho as (k' & Hk & Heq%String.eqb_eq); [by apply list_elem_of_In, elem_of_map_to_list|].
    cbn in Heq. subst k'. by apply list_elem_of_In.
Qed.

(** ** Round trip and safety of methods *)

Lemma ztake_written {A} (data buf : list A) : zlen data <= zlen buf -> ztake (zlen data) (zwrite 0 data buf) = data.
Proof. intros Hl. pose proof (ztake_zwrite_end 0 data buf ltac:(lia) ltac:(lia)) as Hz. by rewrite Z.add_0_l in Hz. Qed.

Section methods.
Context {M : Type} `{EntryMemTotal M}.

Lemma Reads_new_struct n : 0 < n < 2 ^ 32 -> Reads (fun _ => new_struct n) [] ∅.
Proof.
  intros Hn pre rest F mem Hr Hl Hm.
  destruct (em_pool_alloc_total F mem n Hm ltac:(lia)) as (p & mem' & Hp).
  destruct (em_pool_alloc_ok F mem n Hm ltac:(lia)) as (r & mem2 & Hp2 & Hm2).
  rewrite Hp in Hp2. injection Hp2 as <- <-. exists mem'. split; [|done].
  unfold new_struct. rewrite (SE_bind_ok _ _ _ _ _ (in_mem_ok _ _ _ _ _ Hp)). by rewrite zlen_nil, Z.add_0_r.
Qed.

(** A decoder run on exactly the bytes it reads. *)
Lemma from_start_reads {A} (m : list Z -> decoder M A) data a F mem :
  Reads m data a -> zlen data < 2 ^ 30 -> em_inv F mem ->
  exists mem', from_start (m data) mem = (inr a, mem') /\ em_inv F mem'.
Proof.
  intros Hr Hl Hm. destruct (Hr [] [] F mem) as (mem' & Hx & Hm'); [constructor|by rewrite app_nil_r|done|].
  cbn [app] in Hx. rewrite app_nil_r in Hx. change (zlen []) with 0 in Hx. exists mem'. split; [|done]. unfold from_start. by rewrite Hx.
Qed.
Lemma encode_from_start_writes (m : encoder) data buf :
  Writes 0 m data -> zlen data <= zlen buf -> zlen buf < 2 ^ 30 ->
  encode_from_start m buf = (zlen data, zwrite 0 data buf).
Proof.
  intros Hw Hfit Hb. zlen_facts. destruct (Hw buf 0 ltac:(lia) ltac:(lia) ltac:(lia)) as [Hok _].
  unfold encode_from_start. rewrite Hok by (right; lia). rewrite i32_id by lia. by rewrite Z.add_0_l.
Qed.

Lemma method_reads num sizeof l m :
  case_of decode_method_cases num = Some (sizeof, l) -> valid_struct l m = true -> zlen (enc_items l m) < 2 ^ 30 ->
  Reads (fun encoded => s ← new_struct sizeof; decode_items l encoded s) (enc_items l m) m.
Proof.
  intros Hc Hv Hl. pose proof (valid_struct_names l m Hv) as Hn. apply andb_prop in Hv as [Hv _].
  apply decode_method_case in Hc as [Hs _].
  apply (Reads_bind (fun _ => new_struct sizeof) (fun encoded s => decode_items l encoded s) [] _ ∅).
  - by apply Reads_new_struct.
  - eapply Reads_eq; [|by apply Reads_items]. by apply copy_fields_all.
  - by apply enc_items_u8.
Qed.
Lemma encode_method_ok num l m buf :
  case_of encode_method_cases num = Some l -> valid_struct l m = true ->
  zlen (enc_items l m) <= zlen buf -> zlen buf < 2 ^ 30 ->
  amqp_encode_method num m buf = (zlen (enc_items l m), zwrite 0 (enc_items l m) buf).
Proof.
  intros He Hv Hfit Hb. unfold amqp_encode_method. rewrite He. apply encode_from_start_writes; [|done|done].
  apply Writes_items; [by apply andb_prop in Hv as [Hv _]|lia].
Qed.
Lemma method_roundtrip num l m buf F mem :
  case_of encode_method_cases num = Some l -> valid_struct l m = true ->
  zlen buf < 2 ^ 30 -> zlen (enc_items l m) <= zlen buf -> em_inv F mem ->
  amqp_encode_method num m buf = (zlen (enc_items l m), zwrite 0 (enc_items l m) buf) /\
  exists mem', amqp_decode_method num (enc_items l m) mem = (inr m, mem') /\ em_inv F mem'.
Proof.
  intros He Hv Hb Hfit Hm. split; [by apply encode_method_ok|].
  assert (Hd := method_cases_agree num). rewrite He in Hd.
  destruct (case_of decode_method_cases num) as [[sizeof l']|] eqn:Hc; [|done]. injection Hd as ->.
  unfold amqp_decode_method. rewrite Hc. cbn [fst snd].
  apply (from_start_reads (fun encoded => s ← new_struct sizeof; decode_items l' encoded s)); [|lia|done].
  apply (method_reads num); [done|done|lia].
Qed.
End methods.

Lemma unpack_bits_lookup names i b m n :
  unpack_bits names i b m !! n =
    (if decide (n ∈ names) then unpack_bits names i b m !! n else m !! n) /\
  (n ∈ names -> valid_bit (unpack_bits names i b m) n = true).
Proof.
  revert i m. induction names as [|k ns IH]; intros i m; cbn [unpack_bits].
  { split; [by destruct (decide (n ∈ []))|]. by intros ?%elem_of_nil. }
  match goal with |- context [unpack_bits ns (i + 1) b ?m'] => set (m1 := m') end.
  destruct (IH (i + 1) m1) as [Heq Hin]. split.
  - destruct (decide (n ∈ k :: ns)) as [|Hk]; [done|]. rewrite Heq.
    destruct (decide (n ∈ ns)) as [Hc|]; [destruct Hk; by right|].
    unfold m1. rewrite lookup_insert_ne; [done|]. intros ->. apply Hk. by left.
  - intros [->|Hn]%elem_of_cons; [|by apply Hin]. destruct (decide (k ∈ ns)) as [Hc|Hc]; [by apply Hin|].
    unfold valid_bit. rewrite Heq. unfold m1. rewrite lookup_insert_eq. by destruct (truthy _).
Qed.
Lemma unpack_bits_other names i b m n : n ∉ names -> unpack_bits names i b m !! n = m !! n.
Proof. intros Hn. destruct (unpack_bits_lookup names i b m n) as [-> _]. by destruct (decide (n ∈ names)). Qed.

(** An item is about the fields it names. *)
Lemma valid_item_ext m m' it :
  (forall n, n ∈ item_names it -> m !! n = m' !! n) -> valid_item m it = valid_item m' it.
Proof.
  intros Hn. destruct it as [name w|names]; cbn [valid_item item_names] in *.
  - unfold valid_field. by rewrite Hn by (by left).
  - f_equal. induction names as [|n ns IH]; [done|]. cbn [forallb]. f_equal.
    + unfold valid_bit. by rewrite Hn by (by left).
    + apply IH. intros k Hk. apply Hn. by right.
Qed.

Section method_safe.
Context {M : Type} `{EntryMemOk M}.
Context (encoded : list Z) (Hu8 : Forall is_u8 encoded) (Hlen : zlen encoded < 2 ^ 30).

Lemma dpost_int_field w F o mem :
  0 <= o <= zlen encoded -> em_inv F mem ->
  dpost (stops_with F) (fun v o' mem' => o <= o' <= zlen encoded /\
      (exists z, v = VInt z /\ 0 <= z < 2 ^ (8 * width_bytes w)) /\ em_inv F mem')
    ((v ← or_bad (amqp_decode w encoded); mret (VInt v)) (o, mem)).
Proof.
  intros Ho Hm. pose proof (width_pos w). eapply dpost_bind; [by apply dpost_int|]. intros v o' mem' (-> & Hle & Hv & Hm').
  split; [lia|]. split; [by exists v|done].
Qed.
Lemma dpost_string_field w F o mem :
  0 <= o <= zlen encoded -> em_inv F mem -> width_bytes w <= 4 ->
  dpost (stops_with F) (fun v o' mem' => o <= o' <= zlen encoded /\
      (exists s, v = VBytes s /\ is_bytes s = true /\ zlen s < 2 ^ (8 * width_bytes w)) /\ em_inv F mem')
    ((len ← or_bad (amqp_decode w encoded); s ← or_bad (amqp_decode_bytes encoded len); mret (VBytes s)) (o, mem)).
Proof.
  intros Ho Hm Hw. pose proof (width_pos w). eapply dpost_bind; [by apply dpost_int|].
  intros len o1 mem1 (-> & Hle & Hv & Hm1).
  assert (Hp : 2 ^ (8 * width_bytes w) <= 2 ^ 32) by (apply Z.pow_le_mono_r; lia).
  eapply dpost_bind; [apply dpost_bytes; (done || lia)|].
  intros s o2 mem2 (-> & Hle2 & Hs & Hls & Hm2). split; [lia|]. split; [|done]. exists s. split; [done|]. split; [done|lia].
Qed.
Lemma dpost_field w F o mem :
  0 <= o <= zlen encoded -> em_inv F mem ->
  dpost (stops_with F) (fun v o' mem' => o <= o' <= zlen encoded /\ valid_value w v = true /\ em_inv F mem')
    (decode_field w encoded (o, mem)).
Proof.
  intros Ho Hm. destruct w; cbn [decode_field];
    try (eapply dpost_mono; [by apply dpost_int_field|]; cbn beta; intros v o' mem' (? & (z & -> & Hz) & ?);
         split; [lia|]; split; [|done]; by apply in_range_spec);
    try (eapply dpost_mono; [apply dpost_string_field; (done || (cbn [width_bytes]; lia))|]; cbn beta;
         intros v o' mem' (? & (s & -> & Hs & Hls) & ?); split; [lia|]; split; [|done]; cbn [valid_value];
         rewrite Hs; unfold UINT8_MAX, UINT32_MAX; cbn [width_bytes] in Hls; apply Z.leb_le; lia).
  eapply dpost_bind; [by apply decode_table_safe|]. intros t o' mem' (? & Ht & ?). split; [lia|]. done.
Qed.

Lemma dpost_new_struct n F o mem :
  0 <= n < 2 ^ 32 -> em_inv F mem ->
  dpost (stops_with F) (fun m o' mem' => m = ∅ /\ o' = o /\ em_inv F mem') (new_struct n (o, mem)).
Proof.
  intros Hn Hm. destruct (em_pool_alloc_ok F mem n Hm ltac:(lia)) as (r & mem' & Hp & Hm').
  unfold new_struct. rewrite (SE_bind_ok _ _ _ _ _ (in_mem_ok _ _ _ _ _ Hp)).
  destruct r; cbn; [done|]. split; [by right|done].
Qed.

Lemma dpost_items l acc F o mem :
  0 <= o <= zlen encoded -> em_inv F mem -> layout_ok l = true ->
  dpost (stops_with F) (fun m o' mem' => o <= o' <= zlen encoded /\ em_inv F mem' /\
      forallb (valid_item m) l = true /\ forall n, n ∉ layout_names l -> m !! n = acc !! n)
    (decode_items l encoded acc (o, mem)).
Proof.
  revert acc o mem. induction l as [|it l IH]; intros acc o mem Ho Hm Hok.
  { cbn. split; [lia|]. done. }
  unfold layout_ok in Hok. cbn [forallb] in Hok. apply andb_prop in Hok as [Hnd [Hb Hbs]%andb_prop].
  apply bool_decide_eq_true in Hnd. change (layout_names (it :: l)) with (item_names it ++ layout_names l) in *.
  apply NoDup_app in Hnd as (_ & Hdisj & Hnd).
  assert (Hok : layout_ok l = true) by (unfold layout_ok; by rewrite bool_decide_eq_true_2, Hbs).
  (* the rest keeps what this item has set *)
  assert (Hrest : forall acc1 o1 mem1, o <= o1 <= zlen encoded -> em_inv F mem1 -> valid_item acc1 it = true ->
    (forall n, n ∉ item_names it -> acc1 !! n = acc !! n) ->
    dpost (stops_with F) (fun m o' mem' => o <= o' <= zlen encoded /\ em_inv F mem' /\
      forallb (valid_item m) (it :: l) = true /\ forall n, n ∉ item_names it ++ layout_names l -> m !! n = acc !! n)
    (decode_items l encoded acc1 (o1, mem1))).
  { intros acc1 o1 mem1 Ho1 Hm1 Hv1 Hn1. eapply dpost_mono; [apply IH; (done || lia)|]. cbn beta.
    intros m o' mem' (Ho' & Hm' & Hv & Hn). split; [lia|]. split; [done|]. cbn [forallb]. rewrite Hv. split.
    - rewrite andb_true_r, <- Hv1. apply valid_item_ext. intros n Hin. apply Hn. by apply Hdisj.
    - intros n Hout. rewrite Hn, Hn1; [done|..]; intros Hin; apply Hout, elem_of_app; [by left|by right]. }
  destruct it as [name w|names]; cbn [decode_items item_names valid_item] in *.
  - eapply dpost_bind; [by apply dpost_field|]. intros v o1 mem1 (Ho1 & Hv & Hm1).
    apply Hrest; [lia|done| |].
    + unfold valid_field. by rewrite lookup_insert_eq.
    + intros n Hn. rewrite lookup_insert_ne; [done|]. intros ->. apply Hn. by left.
  - eapply dpost_bind; [by apply dpost_int|]. cbn [width_bytes]. intros b o1 mem1 (Ho1 & Hle & _ & Hm1).
    apply Hrest; [lia|done| |].
    + rewrite Hb. apply forallb_forall. intros n Hn%list_elem_of_In.
      by apply (proj2 (unpack_bits_lookup names 0 b acc n)).
    + intros n Hn. by apply unpack_bits_other.
Qed.

Lemma only_fields_spec names m : (forall n, n ∉ names -> m !! n = None) -> only_fields names m = true.
Proof.
  intros Hn. apply forallb_forall. intros [k v] Hin%list_elem_of_In%elem_of_map_to_list. cbn [fst].
  apply existsb_exists. exists k. split; [|apply String.eqb_refl]. apply list_elem_of_In.
  destruct (decide (k ∈ names)); [done|]. by rewrite Hn in Hin.
Qed.
Lemma dpost_method num sizeof l F mem :
  case_of decode_method_cases num = Some (sizeof, l) -> em_inv F mem ->
  dpost (stops_with F) (fun m _ mem' => em_inv F mem' /\ valid_struct l m = true)
    ((s ← new_struct sizeof; decode_items l encoded s) (0, mem)).
Proof.
  intros [Hs Hl]%decode_method_case Hm. zlen_facts. eapply dpost_bind; [apply dpost_new_struct; [lia|done]|].
  intros s o1 mem1 (-> & -> & Hm1). eapply dpost_mono; [apply dpost_items; (done || lia)|]. cbn beta.
  intros m o' mem' (_ & Hm' & Hv & Hn). split; [done|]. unfold valid_struct. rewrite Hv.
  apply only_fields_spec. intros n Hout. by rewrite Hn.
Qed.
End method_safe.

(** ** Properties are structures whose fields the flags select *)

Fixpoint props_layout (ps : list (Z * string * wire)) (flags : Z) : layout :=
  match ps with
  | [] => []
  | (flag, name, w) :: ps' =>
      if truthy (Z.land flags flag) then Field name w :: props_layout ps' flags else props_layout ps' flags
  end.
Lemma encode_properties_items ps flags p : encode_properties ps flags p = encode_items (props_layout ps flags) p.
Proof.
  induction ps as [|[[flag name] w] ps IH]; cbn [encode_properties props_layout]; [done|].
  destruct (truthy _); [|done]. cbn [encode_items]. by rewrite IH.
Qed.
Lemma decode_properties_items {M} `{EntryMem M} ps flags encoded p (s : Z * M) :
  decode_properties ps flags encoded p s = decode_items (props_layout ps flags) encoded p s.
Proof.
  revert p s. induction ps as [|[[flag name] w] ps IH]; intros p s; cbn [decode_properties props_layout]; [done|].
  destruct (truthy _); [|apply IH]. cbn [decode_items]. unfold mbind, SE_bind.
  by destruct (decode_field w encoded s) as [[e|v] s'].
Qed.

(** One word of flags, whose lowest bit would announce another. *)
Definition one_word (flags : Z) : bool := in_range 0 (2 ^ 16) flags && negb (truthy (Z.land flags 1)).
Definition valid_properties (ps : list (Z * string * wire)) (p : struct) : bool :=
  let flags := get_int p "_flags" in
  one_word flags && valid_struct (Field "_flags" Long :: props_layout ps flags) p.
Definition enc_properties (ps : list (Z * string * wire)) (p : struct) : list Z :=
  amqp_e W16 (get_int p "_flags") ++ enc_items (props_layout ps (get_int p "_flags")) p.

Lemma one_word_even flags : one_word flags = true -> 0 <= flags < 2 ^ 16 /\ Z.land flags 1 = 0.
Proof. unfold one_word, truthy. intros [Hr%in_range_spec Ht]%andb_prop. lia. Qed.
Lemma one_word_encoded flags : one_word flags = true -> Z.shiftr flags 16 = 0 /\ Z.land flags 0xFFFE = flags.
Proof.
  intros [Hr He]%one_word_even. split.
  - rewrite Z.shiftr_div_pow2 by lia. apply Z.div_small. lia.
  - assert (Hs : Z.land flags 0xFFFF = flags).
    { change 0xFFFF with (Z.ones 16). rewrite Z.land_ones by lia. apply Z.mod_small. lia. }
    change 0xFFFE with (Z.lxor 0xFFFF 1). apply Z.bits_inj'. intros i Hi.
    rewrite Z.land_spec, Z.lxor_spec, <- Hs at 1. rewrite Z.land_spec.
    assert (Hb : Z.testbit (Z.land flags 1) i = false) by (by rewrite He, Z.bits_0).
    rewrite Z.land_spec in Hb. rewrite <- Hs at 2. rewrite Z.land_spec.
    by destruct (Z.testbit flags i), (Z.testbit 0xFFFF i), (Z.testbit 1 i).
Qed.
Lemma Writes_flags flags : one_word flags = true -> Writes 0 (encode_flags 2 flags) (amqp_e W16 flags).
Proof.
  intros [Hs Hl]%one_word_encoded. cbn [encode_flags]. rewrite Hs. cbn [Z.eqb negb]. rewrite Hl.
  rewrite <- (app_nil_r (amqp_e W16 flags)).
  apply Writes_bind; [apply (amqp_e_nonempty W16)|apply (Writes_int 0 _ W16); [lia|by right]|apply Writes_ret].
Qed.
Lemma shl_int_0 {M} `{EntryMem M} v (s : Z * M) : 0 <= v < 2 ^ 16 -> shl_int v (0 * 16) s = (inr v, s).
Proof.
  intros Hv. unfold shl_int. change (0 * 16) with 0. change (2 ^ 0) with 1.
  rewrite (proj2 (Z.ltb_lt _ _)) by lia. rewrite (proj2 (Z.ltb_lt _ _)) by lia. by rewrite Z.shiftl_0_r.
Qed.

(** The names that the flags select are among those of the class. *)
Lemma props_names ps flags : layout_names (props_layout ps flags) `sublist_of` map (fun e => e.1.2) ps.
Proof.
  induction ps as [|[[flag name] w] ps IH]; cbn [props_layout map fst snd]; [constructor|].
  destruct (truthy _); [|by constructor]. change (layout_names (Field name w :: ?l)) with (name :: layout_names l).
  by constructor.
Qed.
Lemma decode_class_case n sizeof ps :
  case_of decode_class_cases n = Some (sizeof, ps) ->
  0 < sizeof < 2 ^ 32 /\ NoDup ("_flags" :: map (fun e => e.1.2) ps).
Proof.
  intros Hc%case_of_In.
  assert (Hall : forallb (fun c => size_ok c.2.1 &&
    bool_decide (NoDup ("_flags" :: map (fun e => e.1.2) c.2.2))) decode_class_cases = true) by (by vm_compute).
  rewrite forallb_forall in Hall. specialize (Hall _ Hc). cbn [fst snd] in Hall.
  apply andb_prop in Hall as [Hs Hl%bool_decide_eq_true]. unfold size_ok in Hs. split; [lia|done].
Qed.
Lemma props_layout_ok ps flags :
  NoDup ("_flags" :: map (fun e => e.1.2) ps) ->
  layout_ok (props_layout ps flags) = true /\ "_flags" ∉ layout_names (props_layout ps flags).
Proof.
  intros [Hf Hnd]%NoDup_cons. pose proof (props_names ps flags) as Hsub. split.
  - unfold layout_ok. rewrite bool_decide_eq_true_2 by (by eapply sublist_NoDup). cbn [andb].
    clear. induction ps as [|[[flag name] w] ps IH]; cbn [props_layout]; [done|]. by destruct (truthy _).
  - intros Hin. apply Hf. by apply (sublist_subseteq _ _ Hsub).
Qed.

Section properties.
Context {M : Type} `{EntryMemTotal M}.

Lemma Reads_flags flags :
  one_word flags = true -> Reads (fun encoded => decode_flags 3 encoded 0 0) (amqp_e W16 flags) flags.
Proof.
  intros Hw. destruct (one_word_even _ Hw) as [Hr He]. rewrite <- (app_nil_r (amqp_e W16 flags)). cbn [decode_flags].
  eapply (Reads_bind (fun encoded => or_bad (amqp_decode W16 encoded)) (fun encoded partial_flags =>
    word ← shl_int partial_flags (0 * 16); if truthy (Z.land partial_flags 1)
      then decode_flags 2 encoded (Z.lor 0 word) (0 + 1) else mret (Z.lor 0 word)));
    [apply (Reads_int W16)| |constructor].
  rewrite Z.mod_small by (cbn [width_bytes]; change (8 * 2) with 16; lia).
  intros pre rest F mem _ _ Hm. exists mem. split; [|done].
  rewrite (SE_bind_ok _ _ _ _ _ (shl_int_0 flags _ Hr)). rewrite He. cbn [truthy Z.eqb negb].
  by rewrite Z.lor_0_l, zlen_nil, Z.add_0_r.
Qed.

Lemma valid_properties_parts ps p :
  valid_properties ps p = true -> let flags := get_int p "_flags" in
  one_word flags = true /\ forallb (valid_item p) (props_layout ps flags) = true /\
  p !! "_flags" = Some (VInt flags) /\
  (forall k, k ∈ "_flags" :: layout_names (props_layout ps flags) <-> is_Some (p !! k)).
Proof.
  intros [Hw Hv]%andb_prop flags. pose proof (valid_struct_names _ p Hv) as Hn.
  apply andb_prop in Hv as [Hv _]. cbn [forallb] in Hv. apply andb_prop in Hv as [Hf Hv].
  split; [done|]. split; [done|]. split; [|done].
  cbn [valid_item] in Hf. unfold valid_field, flags, get_int in *. destruct (p !! "_flags") as [[z| |]|]; done.
Qed.
Lemma encode_properties_ok class ps p buf :
  case_of encode_class_cases class = Some ps -> valid_properties ps p = true ->
  zlen (enc_properties ps p) <= zlen buf -> zlen buf < 2 ^ 30 ->
  amqp_encode_properties class p buf = (zlen (enc_properties ps p), zwrite 0 (enc_properties ps p) buf).
Proof.
  intros He (Hw & Hv & _)%valid_properties_parts Hfit Hb. unfold enc_properties in *.
  set (flags := get_int p "_flags") in *. unfold amqp_encode_properties. rewrite He. fold flags.
  apply encode_from_start_writes; [|done|done]. rewrite zlen_app in Hfit. zlen_facts.
  apply Writes_bind; [apply (amqp_e_nonempty W16)|by apply Writes_flags|].
  rewrite encode_properties_items. apply Writes_items; [done|lia].
Qed.
Lemma properties_roundtrip class ps p buf F mem :
  case_of encode_class_cases class = Some ps -> valid_properties ps p = true ->
  zlen buf < 2 ^ 30 -> zlen (enc_properties ps p) <= zlen buf -> em_inv F mem ->
  amqp_encode_properties class p buf = (zlen (enc_properties ps p), zwrite 0 (enc_properties ps p) buf) /\
  exists mem', amqp_decode_properties class (enc_properties ps p) mem = (inr p, mem') /\ em_inv F mem'.
Proof.
  intros He Hv Hb Hfit Hm. split; [by apply encode_properties_ok|].
  assert (Hd := class_cases_agree class). rewrite He in Hd.
  destruct (case_of decode_class_cases class) as [[sizeof ps']|] eqn:Hc; [|done]. injection Hd as ->.
  apply valid_properties_parts in Hv as (Hw & Hv & Hflag & Hn).
  unfold enc_properties in *. set (flags := get_int p "_flags") in *. rewrite zlen_app in Hfit. zlen_facts.
  unfold amqp_decode_properties. rewrite Hc. apply decode_class_case in Hc as [Hs _].
  apply (from_start_reads (fun encoded => flags ← decode_flags 3 encoded 0 0; p ← new_struct sizeof;
    decode_properties ps' flags encoded (<["_flags" := VInt flags]> p))); [|rewrite zlen_app; lia|done].
  apply (Reads_bind (fun encoded => decode_flags 3 encoded 0 0) (fun encoded flags => p ← new_struct sizeof;
    decode_properties ps' flags encoded (<["_flags" := VInt flags]> p)) _ _ flags);
    [by apply Reads_flags| |by apply enc_items_u8].
  apply (Reads_bind (fun _ => new_struct sizeof) (fun encoded p =>
    decode_properties ps' flags encoded (<["_flags" := VInt flags]> p)) [] _ ∅);
    [by apply Reads_new_struct| |by apply enc_items_u8].
  intros pre rest F0 mem0 Hr Hl Hm0. rewrite decode_properties_items.
  assert (Hp : p = copy_fields (layout_names (props_layout ps' flags)) p (<["_flags" := VInt flags]> ∅)).
  { rewrite <- (copy_fields_all _ p Hn) at 1. cbn [copy_fields]. by rewrite Hflag. }
  pose proof (Reads_items (props_layout ps' flags) p (<["_flags" := VInt flags]> ∅) Hv ltac:(lia)) as Hread.
  rewrite <- Hp in Hread. by apply Hread.
Qed.
End properties.

Section properties_safe.
Context {M : Type} `{EntryMemOk M}.
Context (encoded : list Z) (Hu8 : Forall is_u8 encoded) (Hlen : zlen encoded < 2 ^ 30).

Lemma dpost_flags F mem :
  truthy (Z.land (amqp_d16 encoded) 1) = false -> em_inv F mem ->
  dpost (stops_with F) (fun flags o' mem' => 0 <= o' <= zlen encoded /\ one_word flags = true /\ em_inv F mem')
    (decode_flags 3 encoded 0 0 (0, mem)).
Proof.
  intros He Hm. zlen_facts. pose proof (dpost_int encoded Hu8 Hlen W16 F 0 mem ltac:(lia) Hm) as Hd.
  cbn [decode_flags]. unfold mbind at 1, SE_bind at 1. unfold or_bad in Hd |- *. rewrite decode_cases in * by lia.
  cbn [width_bytes] in *. destruct (0 + 2 <=? zlen encoded); cbn [dpost] in Hd |- *; [|done].
  destruct Hd as (_ & Hle & Hv & Hm'). change (amqp_d W16 (zdrop 0 encoded)) with (amqp_d16 encoded) in *.
  change (8 * 2) with 16 in Hv. rewrite (SE_bind_ok _ _ _ _ _ (shl_int_0 _ _ Hv)), He, Z.lor_0_l. cbn.
  split; [lia|]. split; [|done]. unfold one_word. rewrite He. rewrite (proj2 (in_range_spec _ _ _) Hv). done.
Qed.

Lemma dpost_properties class sizeof ps F mem :
  truthy (Z.land (amqp_d16 encoded) 1) = false ->
  case_of decode_class_cases class = Some (sizeof, ps) -> em_inv F mem ->
  dpost (stops_with F) (fun p _ mem' => em_inv F mem' /\ valid_properties ps p = true)
    ((flags ← decode_flags 3 encoded 0 0; p ← new_struct sizeof;
      decode_properties ps flags encoded (<["_flags" := VInt flags]> p)) (0, mem)).
Proof.
  intros He [Hs Hnd]%decode_class_case Hm. eapply dpost_bind; [by apply dpost_flags|].
  intros flags o1 mem1 (Ho1 & Hw & Hm1). eapply dpost_bind; [apply dpost_new_struct; [lia|done]|].
  intros s o2 mem2 (-> & -> & Hm2). rewrite decode_properties_items.
  destruct (props_layout_ok ps flags Hnd) as [Hok Hnf].
  eapply dpost_mono; [apply dpost_items; (done || lia)|]. cbn beta. intros p o' mem' (_ & Hm' & Hv & Hn).
  split; [done|]. pose proof (Hn _ Hnf) as Hf. rewrite lookup_insert_eq in Hf.
  assert (Hg : get_int p "_flags" = flags) by (unfold get_int; by rewrite Hf).
  unfold valid_properties. rewrite Hg, Hw. unfold valid_struct. cbn [forallb andb valid_item]. rewrite Hv.
  unfold valid_field. rewrite Hf. cbn [valid_value]. apply one_word_even in Hw as [Hr _].
  rewrite (proj2 (in_range_spec _ _ _)) by lia. apply only_fields_spec. intros n Hout.
  change (layout_names (Field "_flags" Long :: ?l)) with ("_flags" :: layout_names l) in Hout.
  apply not_elem_of_cons in Hout as [Hne Hout]. by rewrite Hn, lookup_insert_ne.
Qed.
End properties_safe.

(** ** Requests have structures that the codec accepts *)

Fixpoint assoc (fields : list (string * mval)) (n : string) : option mval :=
  match fields with [] => None | (k, v) :: fields' => if String.eqb n k then Some v else assoc fields' n end.
Lemma list_to_map_assoc fields n : (list_to_map fields : struct) !! n = assoc fields n.
Proof.
  induction fields as [|[k v] fs IH]; cbn [assoc]; [apply lookup_empty|]. cbn [list_to_map foldr fst snd].
  destruct (String.eqb_spec n k) as [->|Hne]; [apply lookup_insert_eq|]. by rewrite lookup_insert_ne by done.
Qed.

Definition short_ok (s : list Z) : bool := is_bytes s && (zlen s <=? UINT8_MAX).
Definition flag_ok (b : Z) : bool := in_range 0 2 b.
Definition table_ok (t : table) : bool := forallb canon_entry t.

(** The calls of the request functions, with arguments of their types. *)
Inductive issued : rpc_call -> Prop :=
  | by_channel_open : issued amqp_channel_open
  | by_channel_flow active :
      flag_ok active = true ->
      issued (amqp_channel_flow active)
  | by_exchange_declare exchange type passive durable auto_delete internal arguments :
      short_ok exchange && short_ok type && flag_ok passive && flag_ok durable && flag_ok auto_delete && flag_ok internal && table_ok arguments = true ->
      issued (amqp_exchange_declare exchange type passive durable auto_delete internal arguments)
  | by_exchange_delete exchange if_unused :
      short_ok exchange && flag_ok if_unused = true ->
      issued (amqp_exchange_delete exchange if_unused)
  | by_exchange_bind destination source routing_key arguments :
      short_ok destination && short_ok source && short_ok routing_key && table_ok arguments = true ->
      issued (amqp_exchange_bind destination source routing_key arguments)
  | by_exchange_unbind destination source routing_key arguments :
      short_ok destination && short_ok source && short_ok routing_key && table_ok arguments = true ->
      issued (amqp_exchange_unbind destination source routing_key arguments)
  | by_queue_declare queue passive durable exclusive auto_delete arguments :
      short_ok queue && flag_ok passive && flag_ok durable && flag_ok exclusive && flag_ok auto_delete && table_ok arguments = true ->
      issued (amqp_queue_declare queue passive durable exclusive auto_delete arguments)
  | by_queue_bind queue exchange routing_key arguments :
      short_ok queue && short_ok exchange && short_ok routing_key && table_ok arguments = true ->
      issued (amqp_queue_bind queue exchange routing_key arguments)
  | by_queue_purge queue :
      short_ok queue = true ->
      issued (amqp_queue_purge queue)
  | by_queue_delete queue if_unused if_empty :
      short_ok queue && flag_ok if_unused && flag_ok if_empty = true ->
      issued (amqp_queue_delete queue if_unused if_empty)
  | by_queue_unbind queue exchange routing_key arguments :
      short_ok queue && short_ok exchange && short_ok routing_key && table_ok arguments = true ->
      issued (amqp_queue_unbind queue exchange routing_key arguments)
  | by_basic_qos prefetch_size prefetch_count global :
      in_range 0 (2 ^ 32) prefetch_size && in_range 0 (2 ^ 16) prefetch_count && flag_ok global = true ->
      issued (amqp_basic_qos prefetch_size prefetch_count global)
  | by_basic_consume queue consumer_tag no_local no_ack exclusive arguments :
      short_ok queue && short_ok consumer_tag && flag_ok no_local && flag_ok no_ack && flag_ok exclusive && table_ok arguments = true ->
      issued (amqp_basic_consume queue consumer_tag no_local no_ack exclusive arguments)
  | by_basic_cancel consumer_tag :
      short_ok consumer_tag = true ->
      issued (amqp_basic_cancel consumer_tag)
  | by_basic_recover requeue :
      flag_ok requeue = true ->
      issued (amqp_basic_recover requeue)
  | by_tx_select : issued amqp_tx_select
  | by_tx_commit : issued amqp_tx_commit
  | by_tx_rollback : issued amqp_tx_rollback
  | by_confirm_select : issued amqp_confirm_select.

(** The structure of a request, field by field. *)
Definition request_ok (l : layout) (fields : list (string * mval)) : bool :=
  forallb (fun it => match it with
    | Field name w => match assoc fields name with Some v => valid_value w v | None => false end
    | Bits names => (zlen names <=? 8) &&
        forallb (fun n => match assoc fields n with Some (VInt z) => flag_ok z | _ => false end) names
    end) l &&
  forallb (fun f => existsb (String.eqb f.1) (layout_names l)) fields.
Lemma request_ok_valid l fields : request_ok l fields = true -> valid_struct l (list_to_map fields) = true.
Proof.
  unfold request_ok, valid_struct. intros [Hi Hf]%andb_prop. apply andb_true_intro. split.
  - rewrite forallb_forall in *. intros it Hit. specialize (Hi it Hit).
    destruct it as [name w|names]; cbn [valid_item].
    + unfold valid_field. by rewrite list_to_map_assoc.
    + apply andb_prop in Hi as [-> Hb]. cbn [andb]. rewrite forallb_forall in *. intros n Hn.
      unfold valid_bit. rewrite list_to_map_assoc. by apply Hb.
  - apply only_fields_spec. intros n Hn. rewrite list_to_map_assoc. rewrite forallb_forall in Hf.
    clear Hi. induction fields as [|[k v] fs IH]; cbn [assoc]; [done|].
    destruct (String.eqb_spec n k) as [->|]; [|apply IH; intros; apply Hf; by right].
    destruct Hn. specialize (Hf (k, v) (or_introl eq_refl)). apply existsb_exists in Hf as (k' & Hk & Heq).
    cbn in Heq. apply String.eqb_eq in Heq. subst k'. by apply list_elem_of_In.
Qed.

(** A request is encoded with this layout, and its reply can be decoded. *)
Definition answerable (c : rpc_call) : Prop :=
  exists l, case_of encode_method_cases (request_id c) = Some l /\
    valid_struct l (decoded_request_method c) = true /\ is_Some (case_of decode_method_cases (reply_id c)).
Lemma simple_rpc_answerable request reply fields l :
  case_of encode_method_cases request = Some l -> is_Some (case_of decode_method_cases reply) ->
  request_ok l fields = true -> answerable (simple_rpc request reply fields).
Proof. intros Hl Hr Hok. exists l. split; [done|]. split; [by apply request_ok_valid|done]. Qed.
Lemma issued_answerable c : issued c -> answerable c.
Proof.
  destruct 1 as [|? Ha|? ? ? ? ? ? ? Ha|? ? Ha|? ? ? ? Ha|? ? ? ? Ha|? ? ? ? ? ? Ha|? ? ? ? Ha|? Ha|? ? ? Ha|? ? ? ? Ha
    |? ? ? Ha|? ? ? ? ? ? Ha|? Ha|? Ha| | | |];
    (eapply simple_rpc_answerable; [vm_compute; reflexivity|vm_compute; by eexists|]); try reflexivity;
    rewrite ?andb_true_iff in Ha; decompose [and] Ha; unfold short_ok, flag_ok, table_ok in *;
    unfold request_ok; cbn -[in_range is_bytes zlen UINT8_MAX canon_entry Z.pow]; unfold flag_ok;
    repeat match goal with H : ?b = true |- context [?b] => rewrite H end; reflexivity.
Qed.

(** Every number of the switches has a name. *)
Lemma method_names_agree n : is_Some (amqp_method_name n) <-> is_Some (case_of decode_method_cases n).
Proof.
  assert (Hk : forall {A} (cases : list (Z * A)), is_Some (case_of cases n) <-> In n (map fst cases)).
  { intros A cases. induction cases as [|[k a] cs IH]; cbn [case_of map fst In].
    - split; [by intros [? ?]|done].
    - destruct (Z.eqb_spec n k) as [->|Hne]; [split; [by left|by eexists]|]. rewrite IH.
      split; [by right|]. intros [->|]; [by destruct Hne|done]. }
  unfold amqp_method_name. rewrite !Hk. by replace (map fst method_names) with (map fst decode_method_cases) by done.
Qed.

(** ** Properties *)

(** C36: a method survives the wire: for every method of the protocol, a
    structure with valid fields is written by amqp_encode_method into a buffer
    with room for it, and amqp_decode_method makes the same structure of the
    bytes that were written. *)
Theorem amqp_method_roundtrip {M} `{EntryMemTotal M} (num : Z) (l : layout) (m : struct) (buf : list Z)
    (F : list nat) (mem : M) :
  case_of encode_method_cases num = Some l -> valid_struct l m = true ->
  zlen buf < 2 ^ 30 -> zlen (enc_items l m) <= zlen buf -> em_inv F mem ->
  exists n buf' mem', amqp_encode_method num m buf = (n, buf') /\ 0 <= n <= zlen buf /\
    amqp_decode_method num (ztake n buf') mem = (inr m, mem') /\ em_inv F mem'.
Proof.
  intros He Hv Hb Hfit Hm. destruct (method_roundtrip num l m buf F mem He Hv Hb Hfit Hm) as (Henc & mem' & Hd & Hm').
  zlen_facts. eexists _, _, mem'. split; [exact Henc|]. split; [lia|].
  by rewrite ztake_written.
Qed.

(** C38: whatever method number and bytes arrive, and whenever memory is
    refused, amqp_decode_method returns: a structure that has exactly the
    fields of the method, each in the range of its type, or BAD_AMQP_DATA or
    NO_MEMORY, or UNKNOWN_METHOD, exactly for the numbers amqp_method_name has
    no name for.  It stores no entry outside the arrays it allocates for tables
    and lists, does not run out of fuel and gives back every array it borrowed. *)
Theorem amqp_decode_method_safe {M} `{EntryMemOk M} (num : Z) (encoded : list Z) (F : list nat) (mem : M) :
  Forall is_u8 encoded -> zlen encoded < 2 ^ 30 -> em_inv F mem ->
  exists r mem', amqp_decode_method num encoded mem = (r, mem') /\ em_inv F mem' /\
    match r with
    | inr m => exists l, case_of encode_method_cases num = Some l /\ valid_struct l m = true
    | inl (Status res) =>
        match amqp_method_name num with
        | Some _ => res = AMQP_STATUS_BAD_AMQP_DATA \/ res = AMQP_STATUS_NO_MEMORY
        | None => res = AMQP_STATUS_UNKNOWN_METHOD
        end
    | inl _ => False
    end.
Proof.
  intros H8 Hl Hm. pose proof (method_names_agree num) as Hn. pose proof (method_cases_agree num) as Hc.
  unfold amqp_decode_method. destruct (case_of decode_method_cases num) as [[sizeof l]|] eqn:E.
  - pose proof (dpost_method encoded H8 Hl num sizeof l F mem E Hm) as Hd. unfold from_start.
    destruct (proj2 Hn ltac:(by eexists)) as [nm ->].
    destruct ((s ← new_struct sizeof; decode_items l encoded s) (0, mem)) as [[[res|f|]|m] [o' mem']]; cbn in Hd; try done;
      eexists _, mem'; (split; [reflexivity|]); [by destruct Hd|]. split; [tauto|]. exists l. split; [done|tauto].
  - exists (inl (Status AMQP_STATUS_UNKNOWN_METHOD)), mem. split; [done|]. split; [done|].
    destruct (amqp_method_name num); [|done]. destruct (proj1 Hn ltac:(by eexists)) as [? [=]].
Qed.

(** The properties of a message survive the wire: with one word of flags
    and valid values for the fields the flags select, what
    amqp_encode_properties writes is decoded to the same structure. *)
Theorem amqp_properties_roundtrip {M} `{EntryMemTotal M} (class_id : Z) (ps : list (Z * string * wire)) (p : struct)
    (buf : list Z) (F : list nat) (mem : M) :
  case_of encode_class_cases class_id = Some ps -> valid_properties ps p = true ->
  zlen buf < 2 ^ 30 -> zlen (enc_properties ps p) <= zlen buf -> em_inv F mem ->
  exists n buf' mem', amqp_encode_properties class_id p buf = (n, buf') /\ 0 <= n <= zlen buf /\
    amqp_decode_properties class_id (ztake n buf') mem = (inr p, mem') /\ em_inv F mem'.
Proof.
  intros He Hv Hb Hfit Hm.
  destruct (properties_roundtrip class_id ps p buf F mem He Hv Hb Hfit Hm) as (Henc & mem' & Hd & Hm').
  zlen_facts. eexists _, _, mem'. split; [exact Henc|]. split; [lia|]. by rewrite ztake_written.
Qed.

(** When the first word of flags announces no other, amqp_decode_properties
    returns valid properties of the class or BAD_AMQP_DATA, NO_MEMORY or
    UNKNOWN_CLASS, whatever the other bytes are. *)
Theorem amqp_decode_properties_safe {M} `{EntryMemOk M} (class_id : Z) (encoded : list Z) (F : list nat) (mem : M) :
  Forall is_u8 encoded -> zlen encoded < 2 ^ 30 -> truthy (Z.land (amqp_d16 encoded) 1) = false -> em_inv F mem ->
  exists r mem', amqp_decode_properties class_id encoded mem = (r, mem') /\ em_inv F mem' /\
    match r with
    | inr p => exists ps, case_of encode_class_cases class_id = Some ps /\ valid_properties ps p = true
    | inl (Status res) => res = AMQP_STATUS_BAD_AMQP_DATA \/ res = AMQP_STATUS_NO_MEMORY \/
        res = AMQP_STATUS_UNKNOWN_CLASS
    | inl _ => False
    end.
Proof.
  intros H8 Hl He Hm. pose proof (class_cases_agree class_id) as Hc.
  unfold amqp_decode_properties, from_start. destruct (case_of decode_class_cases class_id) as [[sizeof ps]|] eqn:E.
  - pose proof (dpost_properties encoded H8 Hl class_id sizeof ps F mem He E Hm) as Hd.
    destruct ((flags ← decode_flags 3 encoded 0 0; _) (0, mem)) as [[[res|f|]|p] [o' mem']]; cbn in Hd; try done;
      eexists _, mem'; (split; [reflexivity|]).
    + destruct Hd as [[->| ->] Hm']; auto.
    + split; [tauto|]. exists ps. split; [done|tauto].
  - pose proof (dpost_flags encoded H8 Hl F mem He Hm) as Hd. unfold mbind, SE_bind.
    destruct (decode_flags 3 encoded 0 0 (0, mem)) as [[[res|f|]|fl] [o' mem']]; cbn in Hd; try done;
      eexists _, mem'; (split; [reflexivity|]).
    + destruct Hd as [[->| ->] Hm']; auto.
    + split; [tauto|]. auto.
Qed.

(** The functions that issue requests fill every field of the structure
    their method has, and no other, so that the request can be encoded; and
    they wait for a method that can be decoded. *)
Theorem requests_encodable (c : rpc_call) (buf : list Z) :
  issued c -> zlen buf < 2 ^ 30 ->
  exists l, case_of encode_method_cases (request_id c) = Some l /\
    (zlen (enc_items l (decoded_request_method c)) <= zlen buf ->
     amqp_encode_method (request_id c) (decoded_request_method c) buf =
       (zlen (enc_items l (decoded_request_method c)), zwrite 0 (enc_items l (decoded_request_method c)) buf)) /\
    amqp_method_name (reply_id c) <> None.
Proof.
  intros (l & Hl & Hv & Hr)%issued_answerable Hb. exists l. split; [done|]. split.
  - intros Hfit. by apply encode_method_ok.
  - apply method_names_agree in Hr as [nm ->]. done.
Qed.

(** ** Witnesses *)

#[local] Existing Instances demo_grants demo_grants_total.

(** The announcement of a file as it is published: basic.publish, and the
    properties mq_send sets. *)
Definition demo_publish : struct :=
  list_to_map [("ticket", VInt 0); ("exchange", VBytes (str "cega")); ("routing_key", VBytes (str "files.inbox"));
    ("mandatory", VInt 0); ("immediate", VInt 1)].
Definition demo_properties : struct :=
  list_to_map [("_flags", VInt 0xF000); ("content_type", VBytes (str "application/json"));
    ("content_encoding", VBytes (str "UTF-8")); ("headers", VTab demo_table); ("delivery_mode", VInt 2)].

Lemma amqp_method_roundtrip_witness :
  exists n buf' mem', amqp_encode_method AMQP_BASIC_PUBLISH_METHOD demo_publish (zfill 64) = (n, buf') /\
    amqp_decode_method AMQP_BASIC_PUBLISH_METHOD (ztake n buf') demo_mem = (inr demo_publish, mem').
Proof.
  destruct (@amqp_method_roundtrip _ _ _ (@pool_mem_total demo_grants demo_grants_total) AMQP_BASIC_PUBLISH_METHOD
    [Field "ticket" Short; Field "exchange" ShortStr; Field "routing_key" ShortStr; Bits ["mandatory"; "immediate"]]
    demo_publish (zfill 64) [] demo_mem) as (n & buf' & mem' & He & _ & Hd & _).
  - reflexivity.
  - vm_compute. reflexivity.
  - vm_compute. reflexivity.
  - vm_compute. discriminate.
  - exact demo_mem_inv.
  - exists n, buf', mem'. split; [exact He|exact Hd].
Defined.
Lemma amqp_decode_method_safe_witness :
  exists mem', @amqp_decode_method _ (@pool_mem stingy) AMQP_BASIC_ACK_METHOD [0; 0; 0] demo_mem =
    (inl (Status AMQP_STATUS_NO_MEMORY), mem').
Proof.
  destruct (@amqp_decode_method_safe _ (@pool_mem stingy) (@pool_mem_ok stingy) AMQP_BASIC_ACK_METHOD [0; 0; 0] [] demo_mem)
    as (r & mem' & Hd & _ & Hr).
  - apply is_bytes_true. vm_compute. reflexivity.
  - vm_compute. reflexivity.
  - exact stingy_mem_inv.
  - exists mem'. rewrite Hd. vm_compute in Hd. injection Hd as <- _. reflexivity.
Defined.
Lemma amqp_properties_roundtrip_witness :
  exists n buf' mem', amqp_encode_properties 60 demo_properties (zfill 300) = (n, buf') /\
    amqp_decode_properties 60 (ztake n buf') demo_mem = (inr demo_properties, mem').
Proof.
  destruct (@amqp_properties_roundtrip _ _ _ (@pool_mem_total demo_grants demo_grants_total) 60 encode_basic_properties
    demo_properties (zfill 300) [] demo_mem) as (n & buf' & mem' & He & _ & Hd & _).
  - reflexivity.
  - vm_compute. reflexivity.
  - vm_compute. reflexivity.
  - vm_compute. discriminate.
  - exact demo_mem_inv.
  - exists n, buf', mem'. split; [exact He|exact Hd].
Defined.
Lemma amqp_decode_properties_safe_witness :
  exists mem', @amqp_decode_properties _ (@pool_mem stingy) 61 [0; 0] demo_mem =
    (inl (Status AMQP_STATUS_UNKNOWN_CLASS), mem').
Proof.
  destruct (@amqp_decode_properties_safe _ (@pool_mem stingy) (@pool_mem_ok stingy) 61 [0; 0] [] demo_mem)
    as (r & mem' & Hd & _ & Hr).
  - apply is_bytes_true. vm_compute. reflexivity.
  - vm_compute. reflexivity.
  - vm_compute. reflexivity.
  - exact stingy_mem_inv.
  - exists mem'. rewrite Hd. vm_compute in Hd. injection Hd as <- _. reflexivity.
Defined.
Lemma requests_encodable_witness :
  exists n buf', amqp_encode_method AMQP_QUEUE_DECLARE_METHOD
    (decoded_request_method (amqp_queue_declare (str "files") 0 1 0 0 [])) (zfill 64) = (n, buf').
Proof.
  destruct (requests_encodable (amqp_queue_declare (str "files") 0 1 0 0 []) (zfill 64)) as (l & Hl & He & _).
  - apply by_queue_declare. vm_compute. reflexivity.
  - vm_compute. reflexivity.
  - eexists _, _. apply He. cbn in Hl. injection Hl as <-. vm_compute. discriminate.
Defined.

(** A header frame whose words of flags go on to a third one makes
    amqp_decode_properties shift an int by 32 bits, which is undefined. *)
Theorem amqp_decode_properties_undefined_shift :
  amqp_decode_properties 60 [0; 1; 0; 1; 0; 0] demo_mem = (inl (Fault BadShift), demo_mem).
Proof. vm_compute. reflexivity. Qed.
