(* ===== verification/AmqpConn.v ===== *)
(** * Frames of a connection: amqp_connection.c

    A frame is its type, its channel, the length of its payload, the payload
    and a byte 206.  amqp_handle_input collects the bytes of a frame, however
    they arrive: the header in a buffer of the connection, then the whole frame
    in memory from the pool of its channel; a complete frame is decoded.
    amqp_frame_to_bytes writes a frame into the outbound buffer.  The memory is
    the interface [ChannelMem].  A buffer is the list of its bytes; an access
    outside of it is the fault [OutOfBounds]. *)

From stdpp Require Import gmap strings.
From S2P Require Import Prelude Sshbuf AmqpMem AmqpCodec AmqpTable AmqpPools AmqpFraming.
#[local] Open Scope list_scope.
#[local] Open Scope Z_scope.

Definition HEADER_SIZE : Z := 7.
Definition FOOTER_SIZE : Z := 1.
Definition AMQP_PSEUDOFRAME_PROTOCOL_HEADER : Z := 65.

(** amqp_frame_t: the frame_type is the constructor; [F_none] is the type 0
    of an incomplete or ignored frame. *)
Inductive frame :=
  | F_none
  | F_protocol (transport_high transport_low protocol_version_major protocol_version_minor : Z)
  | F_method (channel id : Z) (decoded : struct)
  | F_header (channel class_id body_size : Z) (raw : list Z) (decoded : struct)
  | F_body (channel : Z) (body_fragment : list Z)
  | F_heartbeat (channel : Z).
Definition frame_type (f : frame) : Z :=
  match f with
  | F_none => 0
  | F_protocol _ _ _ _ => AMQP_PSEUDOFRAME_PROTOCOL_HEADER
  | F_method _ _ _ => AMQP_FRAME_METHOD
  | F_header _ _ _ _ _ => AMQP_FRAME_HEADER
  | F_body _ _ => AMQP_FRAME_BODY
  | F_heartbeat _ => AMQP_FRAME_HEARTBEAT
  end.
Definition frame_channel (f : frame) : Z :=
  match f with
  | F_method c _ _ | F_header c _ _ _ _ | F_body c _ | F_heartbeat c => c
  | F_none | F_protocol _ _ _ _ => 0
  end.

(** ** Input *)

Inductive connection_state :=
  CONNECTION_STATE_IDLE | CONNECTION_STATE_INITIAL | CONNECTION_STATE_HEADER | CONNECTION_STATE_BODY.

(** The part of the connection that collects a frame.  [inbound_buffer] is
    [None] when it points to header_buffer. *)
Record input := mk_input {
  state : connection_state;
  frame_max : Z;
  header_buffer : list Z;
  inbound_buffer : option (list Z);
  inbound_offset : Z;
  target_size : Z
}.
(** As amqp_new_connection leaves it. *)
Definition new_input (frame_max : Z) : input :=
  mk_input CONNECTION_STATE_INITIAL frame_max (zfill (HEADER_SIZE + 1)) None 0 8.

Definition set_state (s : connection_state) (i : input) : input :=
  mk_input s (frame_max i) (header_buffer i) (inbound_buffer i) (inbound_offset i) (target_size i).
Definition set_buffer (b : option (list Z)) (i : input) : input :=
  mk_input (state i) (frame_max i) (header_buffer i) b (inbound_offset i) (target_size i).
Definition set_offset (o : Z) (i : input) : input :=
  mk_input (state i) (frame_max i) (header_buffer i) (inbound_buffer i) o (target_size i).
Definition set_target (n : Z) (i : input) : input :=
  mk_input (state i) (frame_max i) (header_buffer i) (inbound_buffer i) (inbound_offset i) n.

(** The memory inbound_buffer points to. *)
Definition raw_frame (i : input) : list Z := default (header_buffer i) (inbound_buffer i).
Definition set_raw (b : list Z) (i : input) : input :=
  match inbound_buffer i with
  | None => mk_input (state i) (frame_max i) b None (inbound_offset i) (target_size i)
  | Some _ => set_buffer (Some b) i
  end.

Section input_ops.
Context {M : Type} `{ChannelMem M}.
Abbreviation I A := (SE (input * M) dstop A).

Definition upd (f : input -> input) : I () := modify (fun s => (f s.1, s.2)).
Definition on_mem {A} (m : SE M fault A) : I A := fun '(i, mem) =>
  match m mem with
  | (inr a, mem') => (inr a, (i, mem'))
  | (inl f, mem') => (inl (Fault f), (i, mem'))
  end.
Definition decode {A} (m : SE M dstop A) : I A := fun '(i, mem) =>
  match m mem with (r, mem') => (r, (i, mem')) end.

(** memcpy to the buffer, and reading from it. *)
Definition raw_write (off : Z) (bytes : list Z) : I () :=
  i ← gets fst;
  if (0 <=? off) && (off + zlen bytes <=? zlen (raw_frame i)) then upd (set_raw (zwrite off bytes (raw_frame i)))
  else throw (Fault OutOfBounds).
Definition raw_read (off n : Z) : I (list Z) :=
  i ← gets fst;
  if (0 <=? off) && (off + n <=? zlen (raw_frame i)) then mret (zslice off n (raw_frame i))
  else throw (Fault OutOfBounds).

Definition return_to_idle : I () :=
  upd (fun i => mk_input CONNECTION_STATE_IDLE (frame_max i) (header_buffer i) None 0 HEADER_SIZE).

(** How much was consumed; the caller drops as much from the data. *)
Definition consume_data (received_data : list Z) : I Z :=
  i ← gets fst;
  let room := u64 (target_size i - inbound_offset i) in
  let bytes_consumed := if zlen received_data <? room then zlen received_data else room in
  _ ← raw_write (inbound_offset i) (ztake bytes_consumed received_data);
  _ ← upd (fun i => set_offset (u64 (inbound_offset i + bytes_consumed)) i);
  mret bytes_consumed.

(** case CONNECTION_STATE_BODY *)
Definition decode_frame (type channel : Z) : I frame :=
  i ← gets fst;
  if type =? AMQP_FRAME_METHOD then
    id ← raw_read HEADER_SIZE 4;
    encoded ← raw_read (HEADER_SIZE + 4) (u64 (target_size i - HEADER_SIZE - 4 - FOOTER_SIZE));
    m ← decode (@amqp_decode_method M (cm_entries channel) (amqp_d32 id) encoded);
    mret (F_method channel (amqp_d32 id) m)
  else if type =? AMQP_FRAME_HEADER then
    class_id ← raw_read HEADER_SIZE 2;
    body_size ← raw_read (HEADER_SIZE + 4) 8;
    encoded ← raw_read (HEADER_SIZE + 12) (u64 (target_size i - HEADER_SIZE - 12 - FOOTER_SIZE));
    p ← decode (@amqp_decode_properties M (cm_entries channel) (amqp_d16 class_id) encoded);
    mret (F_header channel (amqp_d16 class_id) (amqp_d64 body_size) encoded p)
  else if type =? AMQP_FRAME_BODY then
    bytes ← raw_read HEADER_SIZE (u64 (target_size i - HEADER_SIZE - FOOTER_SIZE));
    mret (F_body channel bytes)
  else if type =? AMQP_FRAME_HEARTBEAT then mret (F_heartbeat channel)
  else mret F_none.
Definition handle_body (bytes_consumed : Z) : I (Z * frame) :=
  i ← gets fst;
  footer ← raw_read (u64 (target_size i - 1)) 1;
  if negb (amqp_d8 footer =? AMQP_FRAME_END) then throw (Status AMQP_STATUS_BAD_AMQP_DATA)
  else
    type ← raw_read 0 1;
    channel ← raw_read 1 2;
    channel_pool ← on_mem (cm_pool (frame_max i) (amqp_d16 channel));
    if negb channel_pool then throw (Status AMQP_STATUS_NO_MEMORY)
    else
      f ← decode_frame (amqp_d8 type) (amqp_d16 channel);
      _ ← return_to_idle;
      mret (i32 bytes_consumed, f).

(** case CONNECTION_STATE_HEADER *)
Definition handle_header (bytes_consumed : Z) (received_data : list Z) : I (Z * frame) :=
  channel ← raw_read 1 2;
  len ← raw_read 3 4;
  _ ← upd (set_target (u32 (amqp_d32 len + HEADER_SIZE + FOOTER_SIZE)));
  i ← gets fst;
  if u64 (frame_max i) <? target_size i then throw (Status AMQP_STATUS_BAD_AMQP_DATA)
  else
    channel_pool ← on_mem (cm_pool (frame_max i) (amqp_d16 channel));
    if negb channel_pool then throw (Status AMQP_STATUS_NO_MEMORY)
    else
      buffer ← on_mem (cm_buffer (amqp_d16 channel) (target_size i));
      match buffer with
      | None => _ ← upd (set_buffer (Some [])); throw (Status AMQP_STATUS_NO_MEMORY)
      | Some buffer =>
          _ ← upd (set_buffer (Some buffer));
          _ ← raw_write 0 (ztake HEADER_SIZE (header_buffer i));
          _ ← upd (set_state CONNECTION_STATE_BODY);
          n ← consume_data received_data;
          let bytes_consumed := u64 (bytes_consumed + n) in
          i ← gets fst;
          if inbound_offset i <? target_size i then mret (i32 bytes_consumed, F_none)
          else handle_body bytes_consumed
      end.

Definition amqp_handle_input (received_data : list Z) : I (Z * frame) :=
  if zlen received_data =? 0 then mret (0, F_none)
  else
    i ← gets fst;
    _ ← match state i with
        | CONNECTION_STATE_IDLE => upd (set_state CONNECTION_STATE_HEADER)
        | _ => mret tt
        end;
    bytes_consumed ← consume_data received_data;
    let received_data := zdrop bytes_consumed received_data in
    i ← gets fst;
    if inbound_offset i <? target_size i then mret (i32 bytes_consumed, F_none)
    else
      match state i with
      | CONNECTION_STATE_INITIAL =>
          magic ← raw_read 0 4;
          if bytes_eqb magic (str "AMQP") then
            v ← raw_read 4 4;
            _ ← return_to_idle;
            mret (i32 bytes_consumed, F_protocol (znth v 0) (znth v 1) (znth v 2) (znth v 3))
          else handle_header bytes_consumed received_data
      | CONNECTION_STATE_HEADER => handle_header bytes_consumed received_data
      | CONNECTION_STATE_BODY => handle_body bytes_consumed
      | CONNECTION_STATE_IDLE => throw (Fault Aborted)
      end.
End input_ops.

(** ** Output *)

Definition out_write (off : Z) (bytes : list Z) : SE (list Z) dstop () := fun buf =>
  if (0 <=? off) && (off + zlen bytes <=? zlen buf) then (inr tt, zwrite off bytes buf)
  else (inl (Fault OutOfBounds), buf).
(** An encoder works on the part of the buffer from [off], [len] bytes long. *)
Definition out_encode (off len : Z) (enc : list Z -> Z * list Z) : SE (list Z) dstop Z := fun buf =>
  if off + len <=? zlen buf then
    let '(res, part) := enc (zslice off len buf) in (inr res, zwrite off part buf)
  else (inl (Fault OutOfBounds), buf).

(** The payload, by the type of the frame: its length. *)
Definition write_payload (f : frame) (len : Z) : SE (list Z) dstop Z :=
  match f with
  | F_body _ body => _ ← out_write HEADER_SIZE body; mret (zlen body)
  | F_method _ id decoded =>
      _ ← out_write HEADER_SIZE (amqp_e32 id);
      res ← out_encode (HEADER_SIZE + 4) (u64 (len - HEADER_SIZE - 4 - FOOTER_SIZE)) (amqp_encode_method id decoded);
      if res <? 0 then throw (Status res) else mret (res + 4)
  | F_header _ class_id body_size _ decoded =>
      _ ← out_write HEADER_SIZE (amqp_e16 class_id);
      _ ← out_write (HEADER_SIZE + 2) (amqp_e16 0);
      _ ← out_write (HEADER_SIZE + 4) (amqp_e64 body_size);
      res ← out_encode (HEADER_SIZE + 12) (u64 (len - HEADER_SIZE - 12 - FOOTER_SIZE))
              (amqp_encode_properties class_id decoded);
      if res <? 0 then throw (Status res) else mret (res + 12)
  | F_heartbeat _ => mret 0
  | F_none | F_protocol _ _ _ _ => throw (Status AMQP_STATUS_INVALID_PARAMETER)
  end.
Definition amqp_frame_to_bytes (f : frame) : SE (list Z) dstop (list Z) :=
  len ← gets zlen;
  _ ← out_write 0 (amqp_e8 (frame_type f));
  _ ← out_write 1 (amqp_e16 (frame_channel f));
  out_frame_len ← write_payload f len;
  _ ← out_write 3 (amqp_e32 (u32 out_frame_len));
  _ ← out_write (HEADER_SIZE + out_frame_len) (amqp_e8 AMQP_FRAME_END);
  gets (ztake (out_frame_len + HEADER_SIZE + FOOTER_SIZE)).

(** ** What a frame is on the wire *)

Definition method_layout (id : Z) : layout := default [] (case_of encode_method_cases id).
Definition class_properties (class_id : Z) : list (Z * string * wire) := default [] (case_of encode_class_cases class_id).
Definition frame_payload (f : frame) : list Z :=
  match f with
  | F_method _ id m => amqp_e W32 id ++ enc_items (method_layout id) m
  | F_header _ class_id body_size _ p =>
      amqp_e W16 class_id ++ amqp_e W16 0 ++ amqp_e W64 body_size ++ enc_properties (class_properties class_id) p
  | F_body _ bytes => bytes
  | _ => []
  end.
Definition frame_header (f : frame) : list Z :=
  amqp_e W8 (frame_type f) ++ amqp_e W16 (frame_channel f) ++ amqp_e W32 (zlen (frame_payload f)).
Definition frame_bytes (f : frame) : list Z := frame_header f ++ frame_payload f ++ [AMQP_FRAME_END].
Definition frame_size (f : frame) : Z := zlen (frame_payload f) + HEADER_SIZE + FOOTER_SIZE.

(** A frame that can be sent: its parts are in the ranges of their types. *)
Definition valid_frame (f : frame) : bool :=
  in_range 0 (2 ^ 16) (frame_channel f) &&
  match f with
  | F_method _ id m =>
      in_range 0 (2 ^ 32) id &&
      match case_of encode_method_cases id with Some l => valid_struct l m | None => false end
  | F_header _ class_id body_size raw p =>
      in_range 0 (2 ^ 16) class_id && in_range 0 (2 ^ 64) body_size &&
      match case_of encode_class_cases class_id with
      | Some ps => valid_properties ps p && bytes_eqb raw (enc_properties ps p)
      | None => false
      end
  | F_body _ bytes => is_bytes bytes
  | F_heartbeat _ => true
  | F_none | F_protocol _ _ _ _ => false
  end.

Lemma zlen_frame_header f : zlen (frame_header f) = 7.
Proof. unfold frame_header. by rewrite !zlen_app, !zlen_amqp_e. Qed.
Lemma zlen_frame_bytes f : zlen (frame_bytes f) = frame_size f.
Proof.
  unfold frame_bytes, frame_size, HEADER_SIZE, FOOTER_SIZE. rewrite !zlen_app, zlen_frame_header, zlen_cons, zlen_nil. lia.
Qed.
Lemma frame_size_ge f : 8 <= frame_size f.
Proof. unfold frame_size, HEADER_SIZE, FOOTER_SIZE. zlen_facts. lia. Qed.

Lemma zslice_at {A} (a b c : list A) off n : off = zlen a -> n = zlen b -> zslice off n (a ++ b ++ c) = b.
Proof. intros -> ->. unfold zslice. by rewrite zdrop_app_exact, ztake_app_exact. Qed.
Lemma amqp_d_e_exact w v : 0 <= v < 2 ^ (8 * width_bytes w) -> amqp_d w (amqp_e w v) = v.
Proof.
  intros Hv. rewrite <- (app_nil_r (amqp_e w v)), amqp_d_e by constructor. by apply Z.mod_small.
Qed.

Lemma amqp_d_e_exact' w bits v : 8 * width_bytes w = bits -> 0 <= v < 2 ^ bits -> amqp_d w (amqp_e w v) = v.
Proof. intros <-. apply amqp_d_e_exact. Qed.
Lemma amqp_d_8 l : amqp_d W8 l = amqp_d8 l.
Proof. reflexivity. Qed.
Lemma amqp_d_16 l : amqp_d W16 l = amqp_d16 l.
Proof. reflexivity. Qed.
Lemma amqp_d_32 l : amqp_d W32 l = amqp_d32 l.
Proof. reflexivity. Qed.
Lemma amqp_d_64 l : amqp_d W64 l = amqp_d64 l.
Proof. reflexivity. Qed.
Lemma amqp_d8_e v : 0 <= v < 2 ^ 8 -> amqp_d8 (amqp_e W8 v) = v.
Proof. rewrite <- amqp_d_8. by apply amqp_d_e_exact'. Qed.
Lemma amqp_d16_e v : 0 <= v < 2 ^ 16 -> amqp_d16 (amqp_e W16 v) = v.
Proof. rewrite <- amqp_d_16. by apply amqp_d_e_exact'. Qed.
Lemma amqp_d32_e v : 0 <= v < 2 ^ 32 -> amqp_d32 (amqp_e W32 v) = v.
Proof. rewrite <- amqp_d_32. by apply amqp_d_e_exact'. Qed.
Lemma amqp_d64_e v : 0 <= v < 2 ^ 64 -> amqp_d64 (amqp_e W64 v) = v.
Proof. rewrite <- amqp_d_64. by apply amqp_d_e_exact'. Qed.

Lemma enc_properties_u8 ps p : valid_properties ps p = true -> Forall is_u8 (enc_properties ps p).
Proof.
  intros [_ Hv]%andb_prop. apply andb_prop in Hv as [Hv _]. cbn [forallb] in Hv. apply andb_prop in Hv as [_ Hv].
  apply Forall_app. split; [apply (amqp_e_u8 W16)|by apply enc_items_u8].
Qed.

(** ** One frame, in pieces *)

Section frames.
Context {M : Type} `{ChannelMemTotal M}.
Context (fm : Z) (Hfm : 0 <= fm < 2 ^ 30).

Lemma upd_bind {A} f (k : () -> SE (input * M) dstop A) (i : input) (mem : M) : (upd f ≫= k) (i, mem) = k tt (f i, mem).
Proof. done. Qed.
(** Reading a part of the buffer. *)
Lemma raw_read_at off n a b c (i : input) (mem : M) :
  raw_frame i = a ++ b ++ c -> off = zlen a -> n = zlen b -> raw_read off n (i, mem) = (inr b, (i, mem)).
Proof.
  intros Hr -> ->. unfold raw_read. rewrite (SE_bind_ok (gets _) _ _ _ _ eq_refl). cbn [fst]. rewrite Hr.
  rewrite !zlen_app. zlen_facts. rewrite (proj2 (Z.leb_le _ _)), (proj2 (Z.leb_le _ _)) by lia. cbn [andb].
  by rewrite zslice_at.
Qed.

(** A decoder of a channel that has a pool. *)
Lemma decode_ok {A} channel (m : SE M dstop A) (a : A) (i : input) (mem : M) :
  cm_inv mem -> cm_has channel mem ->
  (@em_inv _ _ (cm_entries_ok channel) [] mem ->
   exists mem', m mem = (inr a, mem') /\ @em_inv _ _ (cm_entries_ok channel) [] mem') ->
  exists mem', decode m (i, mem) = (inr a, (i, mem')) /\ cm_inv mem'.
Proof.
  intros Hi Hh Hm. destruct (Hm (cm_entries_inv channel mem Hi Hh)) as (mem' & Hx & Hi').
  exists mem'. unfold decode. rewrite Hx. split; [done|]. by apply (cm_inv_entries channel).
Qed.

(** The parts of a payload, one after the other. *)
Lemma frame_bytes_raw f (i : input) junk :
  raw_frame i = frame_bytes f ++ junk -> raw_frame i = frame_header f ++ frame_payload f ++ AMQP_FRAME_END :: junk.
Proof. intros ->. unfold frame_bytes. by rewrite <- !app_assoc. Qed.

(** A complete frame in the buffer is decoded. *)
Definition decoded (f : frame) : Prop :=
  forall (i : input) (mem : M) junk,
  raw_frame i = frame_bytes f ++ junk -> target_size i = frame_size f -> frame_size f < 2 ^ 30 ->
  cm_inv mem -> cm_has (frame_channel f) mem ->
  exists mem', decode_frame (frame_type f) (frame_channel f) (i, mem) = (inr f, (i, mem')) /\ cm_inv mem'.

Lemma decode_method_frame c id l m :
  0 <= id < 2 ^ 32 -> case_of encode_method_cases id = Some l -> valid_struct l m = true -> decoded (F_method c id m).
Proof.
  intros Hid El Hv i mem junk Hraw Ht Hsz Hi Hh. apply frame_bytes_raw in Hraw. unfold decode_frame.
  rewrite (SE_bind_ok (gets _) _ _ _ _ eq_refl). cbn [fst frame_type frame_channel Z.eqb AMQP_FRAME_METHOD Pos.eqb] in *.
  rewrite Ht. unfold frame_size, HEADER_SIZE, FOOTER_SIZE in *. cbn [frame_payload] in *. unfold method_layout in *.
  rewrite El in *. change (default [] (Some l)) with l in *. rewrite zlen_app, zlen_amqp_e in *. cbn [width_bytes] in *.
  zlen_facts. rewrite u64_id by lia. rewrite <- app_assoc in Hraw. set (hd := frame_header _) in Hraw.
  rewrite (SE_bind_ok _ _ _ _ _ (raw_read_at 7 4 hd _ _ i mem Hraw (eq_sym (zlen_frame_header _)) (eq_sym (zlen_amqp_e W32 _)))).
  rewrite (app_assoc hd) in Hraw.
  rewrite (SE_bind_ok _ _ _ _ _ (raw_read_at (7 + 4) (4 + zlen (enc_items l m) + 7 + 1 - 7 - 4 - 1) _ (enc_items l m) _ i mem Hraw
    ltac:(unfold hd; rewrite zlen_app, zlen_frame_header, zlen_amqp_e; cbn [width_bytes]; lia) ltac:(lia))).
  rewrite amqp_d32_e by done.
  destruct (decode_ok c (@amqp_decode_method M (cm_entries c) id (enc_items l m)) m i mem Hi Hh) as (mem' & Hd & Hi').
  { intros He. destruct (@method_roundtrip M _ _ (cm_entries_total c) id l m (enc_items l m) [] mem El Hv ltac:(lia) ltac:(lia) He)
      as (_ & mem' & Hd & He'). by exists mem'. }
  rewrite (SE_bind_ok _ _ _ _ _ Hd). by exists mem'.
Qed.

Lemma decode_header_frame c cls bs ps p :
  0 <= cls < 2 ^ 16 -> 0 <= bs < 2 ^ 64 -> case_of encode_class_cases cls = Some ps -> valid_properties ps p = true ->
  decoded (F_header c cls bs (enc_properties ps p) p).
Proof.
  intros Hcls Hbs Ep Hv i mem junk Hraw Ht Hsz Hi Hh. apply frame_bytes_raw in Hraw. unfold decode_frame.
  rewrite (SE_bind_ok (gets _) _ _ _ _ eq_refl).
  cbn [fst frame_type frame_channel Z.eqb AMQP_FRAME_METHOD AMQP_FRAME_HEADER Pos.eqb] in *.
  rewrite Ht. unfold frame_size, HEADER_SIZE, FOOTER_SIZE in *. cbn [frame_payload] in *. unfold class_properties in *.
  rewrite Ep in *. change (default [] (Some ps)) with ps in *. rewrite !zlen_app, !zlen_amqp_e in *. cbn [width_bytes] in *.
  zlen_facts. rewrite u64_id by lia. rewrite <- !app_assoc in Hraw. set (hd := frame_header _) in Hraw.
  rewrite (SE_bind_ok _ _ _ _ _ (raw_read_at 7 2 hd _ _ i mem Hraw (eq_sym (zlen_frame_header _)) (eq_sym (zlen_amqp_e W16 _)))).
  rewrite (app_assoc (amqp_e W16 cls)), (app_assoc hd) in Hraw.
  rewrite (SE_bind_ok _ _ _ _ _ (raw_read_at (7 + 4) 8 _ (amqp_e W64 bs) _ i mem Hraw
    ltac:(unfold hd; rewrite !zlen_app, zlen_frame_header, !zlen_amqp_e; cbn [width_bytes]; lia) (eq_sym (zlen_amqp_e W64 _)))).
  rewrite (app_assoc _ (amqp_e W64 bs)) in Hraw.
  rewrite (SE_bind_ok _ _ _ _ _ (raw_read_at (7 + 12) (2 + (2 + (8 + zlen (enc_properties ps p))) + 7 + 1 - 7 - 12 - 1) _ (enc_properties ps p) _ i mem Hraw
    ltac:(unfold hd; rewrite !zlen_app, zlen_frame_header, !zlen_amqp_e; cbn [width_bytes]; lia) ltac:(lia))).
  rewrite amqp_d16_e by done.
  rewrite amqp_d64_e by done.
  destruct (decode_ok c (@amqp_decode_properties M (cm_entries c) cls (enc_properties ps p)) p i mem Hi Hh) as (mem' & Hd & Hi').
  { intros He. destruct (@properties_roundtrip M _ _ (cm_entries_total c) cls ps p (enc_properties ps p) [] mem Ep Hv ltac:(lia) ltac:(lia) He)
      as (_ & mem' & Hd & He'). by exists mem'. }
  rewrite (SE_bind_ok _ _ _ _ _ Hd). by exists mem'.
Qed.

Lemma decode_body_frame c bytes : decoded (F_body c bytes).
Proof.
  intros i mem junk Hraw Ht Hsz Hi Hh. apply frame_bytes_raw in Hraw. unfold decode_frame.
  rewrite (SE_bind_ok (gets _) _ _ _ _ eq_refl).
  cbn [fst frame_type frame_channel Z.eqb AMQP_FRAME_METHOD AMQP_FRAME_HEADER AMQP_FRAME_BODY Pos.eqb] in *.
  rewrite Ht. unfold frame_size, HEADER_SIZE, FOOTER_SIZE in *. cbn [frame_payload] in *. zlen_facts. rewrite u64_id by lia.
  rewrite (SE_bind_ok _ _ _ _ _ (raw_read_at 7 (zlen bytes + 7 + 1 - 7 - 1) _ bytes _ i mem Hraw (eq_sym (zlen_frame_header _)) ltac:(lia))).
  by exists mem.
Qed.

Lemma decode_frame_ok f : valid_frame f = true -> decoded f.
Proof.
  unfold valid_frame. intros [_ Hv]%andb_prop. destruct f as [| | c id m | c cls bs raw p | c bytes | c]; try discriminate Hv.
  - apply andb_prop in Hv as [Hid%in_range_spec Hv]. destruct (case_of encode_method_cases id) as [l|] eqn:El; [|done].
    by apply (decode_method_frame c id l).
  - apply andb_prop in Hv as [[Hcls%in_range_spec Hbs%in_range_spec]%andb_prop Hv].
    destruct (case_of encode_class_cases cls) as [ps|] eqn:Ep; [|done].
    apply andb_prop in Hv as [Hv ->%bytes_eqb_eq]. by apply (decode_header_frame c cls bs ps).
  - apply decode_body_frame.
  - intros i mem junk Hraw Ht Hsz Hi Hh. by exists mem.
Qed.

(** Between two frames. *)
Definition idle (i : input) : Prop :=
  frame_max i = fm /\ zlen (header_buffer i) = 8 /\ state i = CONNECTION_STATE_IDLE /\ inbound_buffer i = None /\
  inbound_offset i = 0 /\ target_size i = 7.

Lemma valid_frame_channel f : valid_frame f = true -> 0 <= frame_channel f < 2 ^ 16.
Proof. unfold valid_frame. by intros [Hc%in_range_spec _]%andb_prop. Qed.
Lemma frame_type_range f : 0 <= frame_type f < 2 ^ 8.
Proof. destruct f; done. Qed.

Lemma pool_ok channel (i : input) (mem : M) :
  cm_inv mem -> 0 <= channel < 2 ^ 16 ->
  exists mem', on_mem (cm_pool fm channel) (i, mem) = (inr true, (i, mem')) /\ cm_inv mem' /\ cm_has channel mem'.
Proof.
  intros Hi Hc. destruct (cm_pool_total fm channel mem Hi) as (mem' & Hp).
  destruct (cm_pool_ok fm channel mem Hi Hc ltac:(lia)) as (r & mem2 & Hp2 & Hi2 & Hh).
  rewrite Hp in Hp2. injection Hp2 as <- <-. exists mem'. unfold on_mem. rewrite Hp. auto.
Qed.

Lemma handle_body_ok f (i : input) (mem : M) junk bc :
  valid_frame f = true -> frame_size f <= fm -> frame_max i = fm -> zlen (header_buffer i) = 8 ->
  raw_frame i = frame_bytes f ++ junk -> target_size i = frame_size f -> cm_inv mem ->
  exists i' mem', handle_body bc (i, mem) = (inr (i32 bc, f), (i', mem')) /\ idle i' /\ cm_inv mem'.
Proof.
  intros Hv Hle Hmax Hhb Hraw Ht Hi. pose proof (frame_bytes_raw f i junk Hraw) as Hr. pose proof (frame_size_ge f) as Hge.
  pose proof (valid_frame_channel f Hv) as Hch. pose proof (frame_type_range f) as Hty.
  unfold handle_body. rewrite (SE_bind_ok (gets _) _ _ _ _ eq_refl). cbn [fst]. rewrite Ht, u64_id by lia.
  pose proof Hr as Hfoot. rewrite app_assoc in Hfoot. change (AMQP_FRAME_END :: junk) with ([AMQP_FRAME_END] ++ junk) in Hfoot.
  rewrite (SE_bind_ok _ _ _ _ _ (raw_read_at (frame_size f - 1) 1 _ [AMQP_FRAME_END] _ i mem Hfoot
    ltac:(rewrite zlen_app, zlen_frame_header; unfold frame_size, HEADER_SIZE, FOOTER_SIZE; lia) eq_refl)).
  change (negb (amqp_d8 [AMQP_FRAME_END] =? AMQP_FRAME_END)) with false. cbv match.
  unfold frame_header in Hr. rewrite <- !app_assoc in Hr.
  rewrite (SE_bind_ok _ _ _ _ _ (raw_read_at 0 1 [] _ _ i mem Hr eq_refl (eq_sym (zlen_amqp_e W8 _)))).
  rewrite (SE_bind_ok _ _ _ _ _ (raw_read_at 1 2 _ _ _ i mem Hr (eq_sym (zlen_amqp_e W8 _)) (eq_sym (zlen_amqp_e W16 _)))).
  rewrite amqp_d8_e, amqp_d16_e, Hmax by done.
  destruct (pool_ok (frame_channel f) i mem Hi Hch) as (mem1 & Hp & Hi1 & Hh1).
  rewrite (SE_bind_ok _ _ _ _ _ Hp). cbn [negb].
  destruct (decode_frame_ok f Hv i mem1 junk Hraw Ht ltac:(lia) Hi1 Hh1) as (mem2 & Hd & Hi2).
  rewrite (SE_bind_ok _ _ _ _ _ Hd). unfold return_to_idle, upd.
  rewrite (SE_bind_ok (modify _) _ _ _ _ eq_refl). eexists _, _. split; [reflexivity|]. by split.
Qed.

Lemma raw_set_raw b i : raw_frame (set_raw b i) = b.
Proof. unfold raw_frame, set_raw. by destruct (inbound_buffer i) eqn:E; cbn; rewrite ?E. Qed.

(** How much of the data goes to the buffer. *)
Lemma consume_ok data (i : input) (mem : M) :
  0 <= inbound_offset i <= target_size i -> target_size i < 2 ^ 32 -> target_size i <= zlen (raw_frame i) ->
  let n := Z.min (zlen data) (target_size i - inbound_offset i) in
  consume_data data (i, mem) =
    (inr n, (set_offset (inbound_offset i + n) (set_raw (zwrite (inbound_offset i) (ztake n data) (raw_frame i)) i), mem)).
Proof.
  intros Ho Ht Hraw n. unfold consume_data. rewrite (SE_bind_ok (gets _) _ _ _ _ eq_refl). cbn [fst].
  rewrite u64_id by lia. zlen_facts.
  replace (if zlen data <? target_size i - inbound_offset i then zlen data else target_size i - inbound_offset i) with n
    by (subst n; destruct (Z.ltb_spec (zlen data) (target_size i - inbound_offset i)); lia).
  assert (Hn : 0 <= n <= zlen data) by lia.
  assert (Hw : raw_write (inbound_offset i) (ztake n data) (i, mem) =
    (inr tt, (set_raw (zwrite (inbound_offset i) (ztake n data) (raw_frame i)) i, mem))).
  { unfold raw_write. rewrite (SE_bind_ok (gets _) _ _ _ _ eq_refl). cbn [fst]. rewrite zlen_ztake by lia.
    rewrite (proj2 (Z.leb_le _ _)), (proj2 (Z.leb_le _ _)) by lia. done. }
  rewrite (SE_bind_ok _ _ _ _ _ Hw). unfold upd. rewrite (SE_bind_ok (modify _) _ _ _ _ eq_refl). cbn [fst snd].
  assert (Hoff : inbound_offset (set_raw (zwrite (inbound_offset i) (ztake n data) (raw_frame i)) i) = inbound_offset i)
    by (unfold set_raw; by destruct (inbound_buffer i)).
  rewrite Hoff. rewrite u64_id by lia. done.
Qed.

(** What has arrived is extended by what arrives. *)
Lemma prefix_extend (FB data buf : list Z) k n :
  0 <= k -> 0 <= n <= zlen data -> k + n <= zlen FB -> k + n <= zlen buf ->
  ztake k buf = ztake k FB -> ztake n data = zslice k n FB ->
  ztake (k + n) (zwrite k (ztake n data) buf) = ztake (k + n) FB.
Proof.
  intros Hk Hn HF Hb Hpre Hd.
  pose proof (ztake_zwrite_end k (ztake n data) buf Hk) as Hz. rewrite zlen_ztake in Hz by lia.
  rewrite Hz by lia. rewrite Hpre, Hd. unfold zslice. rewrite <- (ztake_zdrop k (ztake (k + n) FB)).
  rewrite ztake_ztake by lia. f_equal. rewrite zdrop_ztake by lia. f_equal. lia.
Qed.

(** [k] bytes of the frame have arrived. *)
Definition partial (f : frame) (k : Z) (i : input) : Prop :=
  frame_max i = fm /\ zlen (header_buffer i) = 8 /\ inbound_offset i = k /\
  if k <? 7
  then state i = CONNECTION_STATE_HEADER /\ inbound_buffer i = None /\ target_size i = 7 /\
       ztake k (header_buffer i) = ztake k (frame_bytes f)
  else state i = CONNECTION_STATE_BODY /\ target_size i = frame_size f /\
       exists buf, inbound_buffer i = Some buf /\ frame_size f <= zlen buf /\ ztake k buf = ztake k (frame_bytes f).
(** What a call gives when [k] bytes have arrived then: nothing yet, or the frame. *)
Definition so_far (f : frame) (k : Z) : frame := if k <? frame_size f then F_none else f.
Definition progress (f : frame) (k : Z) (i : input) : Prop := if k <? frame_size f then partial f k i else idle i.

Lemma whole_frame (f : frame) (buf : list Z) :
  ztake (frame_size f) buf = ztake (frame_size f) (frame_bytes f) -> exists junk, buf = frame_bytes f ++ junk.
Proof.
  intros Hb. exists (zdrop (frame_size f) buf). rewrite <- (ztake_zdrop (frame_size f) buf) at 1. rewrite Hb.
  rewrite ztake_all; [done|]. rewrite zlen_frame_bytes. lia.
Qed.

(** The body arrives in the buffer of the frame. *)
Lemma consume_body f k data (i : input) (mem : M) bc :
  valid_frame f = true -> frame_size f <= fm -> 7 <= k < frame_size f -> partial f k i -> cm_inv mem ->
  let n := Z.min (zlen data) (frame_size f - k) in
  ztake n data = zslice k n (frame_bytes f) -> 0 <= bc -> bc + n < 2 ^ 31 ->
  exists i1 i' mem', consume_data data (i, mem) = (inr n, (i1, mem)) /\ state i1 = CONNECTION_STATE_BODY /\
    (if inbound_offset i1 <? target_size i1 then mret (i32 (u64 (bc + n)), F_none) else handle_body (u64 (bc + n))) (i1, mem) =
      (inr (bc + n, so_far f (k + n)), (i', mem')) /\ progress f (k + n) i' /\ cm_inv mem'.
Proof.
  intros Hv Hle Hk (Hmax & Hhb & Ho & Hst) Hi n Hd Hbc Hn. pose proof (frame_size_ge f) as Hge.
  pose proof (zlen_nonneg data) as Hdata.
  rewrite (proj2 (Z.ltb_ge k 7)) in Hst by lia. destruct Hst as (Hs & Ht & buf & Hb & Hzb & Hpre).
  assert (Hraw : raw_frame i = buf) by (unfold raw_frame; by rewrite Hb).
  pose proof (consume_ok data i mem) as Hc. rewrite Ho, Ht, Hraw in Hc. cbv zeta in Hc. fold n in Hc.
  assert (Hpre' : ztake (k + n) (zwrite k (ztake n data) buf) = ztake (k + n) (frame_bytes f))
    by (apply prefix_extend; rewrite ?zlen_frame_bytes; (done || lia)).
  unfold set_raw in Hc. rewrite Hb in Hc. cbv match in Hc.
  set (i1 := set_offset (k + n) _) in Hc. exists i1.
  assert (Hz : zlen (zwrite k (ztake n data) buf) = zlen buf) by (rewrite zlen_zwrite; rewrite ?zlen_ztake; lia).
  unfold so_far, progress. change (target_size i1) with (target_size i). change (inbound_offset i1) with (k + n). rewrite Ht.
  destruct (Z.ltb_spec (k + n) (frame_size f)) as [Hlt|Hdone].
  - exists i1, mem. split; [by apply Hc; lia|]. split; [done|]. rewrite u64_id, i32_id by lia.
    split; [done|]. split; [|done]. split_and!; [done..|].
    rewrite (proj2 (Z.ltb_ge (k + n) 7)) by lia. split; [done|]. split; [done|].
    eexists. split; [reflexivity|]. split; [lia|done].
  - assert (Hkn : k + n = frame_size f) by lia. rewrite Hkn in Hpre'. apply whole_frame in Hpre' as [junk Hwhole].
    destruct (handle_body_ok f i1 mem junk (u64 (bc + n)) Hv Hle) as (i' & mem' & Hh & Hidle & Hi'); try done.
    exists i', mem'. split; [by apply Hc; lia|]. split; [done|]. rewrite Hh. rewrite u64_id, i32_id by lia. done.
Qed.

Lemma frame_header_prefix f : ztake 7 (frame_bytes f) = frame_header f.
Proof. apply ztake_app_exact. by rewrite zlen_frame_header. Qed.

(** The header is complete: the buffer of the frame is made. *)
Lemma handle_header_ok f data (i : input) (mem : M) bc :
  valid_frame f = true -> frame_size f <= fm -> frame_max i = fm -> zlen (header_buffer i) = 8 ->
  inbound_buffer i = None -> inbound_offset i = 7 -> ztake 7 (header_buffer i) = frame_header f -> cm_inv mem ->
  let n := Z.min (zlen data) (frame_size f - 7) in
  ztake n data = zslice 7 n (frame_bytes f) -> 0 <= bc -> bc + n < 2 ^ 31 ->
  exists i' mem', handle_header bc data (i, mem) = (inr (bc + n, so_far f (7 + n)), (i', mem')) /\
    progress f (7 + n) i' /\ cm_inv mem'.
Proof.
  intros Hv Hle Hmax Hhb Hb Ho Hpre Hi n Hd Hbc Hn. pose proof (frame_size_ge f) as Hge.
  pose proof (valid_frame_channel f Hv) as Hch. unfold handle_header.
  assert (Hraw : raw_frame i = frame_header f ++ zdrop 7 (header_buffer i)).
  { unfold raw_frame. rewrite Hb. rewrite <- (ztake_zdrop 7 (header_buffer i)) at 1. by rewrite Hpre. }
  unfold frame_header in Hraw. rewrite <- !app_assoc in Hraw.
  rewrite (SE_bind_ok _ _ _ _ _ (raw_read_at 1 2 _ _ _ i mem Hraw (eq_sym (zlen_amqp_e W8 _)) (eq_sym (zlen_amqp_e W16 _)))).
  rewrite (app_assoc (amqp_e W8 _)) in Hraw.
  rewrite (SE_bind_ok _ _ _ _ _ (raw_read_at 3 4 _ _ _ i mem Hraw ltac:(by rewrite zlen_app, !zlen_amqp_e) (eq_sym (zlen_amqp_e W32 _)))).
  assert (Hlen : zlen (frame_payload f) = frame_size f - 8) by (unfold frame_size, HEADER_SIZE, FOOTER_SIZE; lia).
  rewrite amqp_d16_e, amqp_d32_e by (rewrite ?Hlen; lia). rewrite upd_bind. fold (frame_size f). rewrite u32_id by lia.
  set (i1 := set_target (frame_size f) i).
  rewrite (SE_bind_ok (gets _) _ _ _ _ eq_refl). cbn [fst].
  change (frame_max i1) with (frame_max i). change (target_size i1) with (frame_size f).
  change (header_buffer i1) with (header_buffer i). rewrite Hmax.
  rewrite u64_id by lia. rewrite (proj2 (Z.ltb_ge _ _)) by lia.
  destruct (pool_ok (frame_channel f) i1 mem Hi Hch) as (mem1 & Hp & Hi1 & Hh1).
  rewrite (SE_bind_ok _ _ _ _ _ Hp). cbn [negb].
  destruct (cm_buffer_total (frame_channel f) (frame_size f) mem1 Hi1 Hh1 ltac:(lia)) as (buf & mem2 & Hbuf).
  destruct (cm_buffer_ok (frame_channel f) (frame_size f) mem1 Hi1 Hh1 ltac:(lia)) as (r & mem2' & Hbuf' & Hi2 & Hh2 & Hz).
  rewrite Hbuf in Hbuf'. injection Hbuf' as <- <-. destruct Hz as [Hz _].
  assert (Hr8 : frame_size f <= zlen buf) by (rewrite Hz; apply round8_bounds; lia).
  assert (Hal : on_mem (cm_buffer (frame_channel f) (frame_size f)) (i1, mem1) = (inr (Some buf), (i1, mem2)))
    by (unfold on_mem; by rewrite Hbuf).
  rewrite (SE_bind_ok _ _ _ _ _ Hal). rewrite upd_bind.
  change HEADER_SIZE with 7. rewrite Hpre.
  assert (Hw : raw_write 0 (frame_header f) (set_buffer (Some buf) i1, mem2) =
    (inr tt, (set_buffer (Some (zwrite 0 (frame_header f) buf)) i1, mem2))).
  { unfold raw_write. rewrite (SE_bind_ok (gets _) _ _ _ _ eq_refl). cbn [fst].
    change (raw_frame (set_buffer (Some buf) i1)) with buf. rewrite zlen_frame_header.
    rewrite (proj2 (Z.leb_le _ _)), (proj2 (Z.leb_le _ _)) by lia. done. }
  rewrite (SE_bind_ok _ _ _ _ _ Hw). rewrite upd_bind.
  set (i2 := set_state CONNECTION_STATE_BODY _).
  assert (Hpart : partial f 7 i2).
  { unfold partial. change (7 <? 7) with false. cbv match. do 5 (split; [done|]).
    eexists. split; [reflexivity|]. rewrite zlen_zwrite by (rewrite ?zlen_frame_header; lia). split; [done|].
    rewrite frame_header_prefix. rewrite <- (zlen_frame_header f) at 1. apply ztake_written. rewrite zlen_frame_header. lia. }
  destruct (consume_body f 7 data i2 mem2 bc Hv Hle ltac:(lia) Hpart Hi2 Hd Hbc Hn) as (i3 & i' & mem' & Hc & _ & Hrest & Hx).
  rewrite (SE_bind_ok _ _ _ _ _ Hc). rewrite (SE_bind_ok (gets _) _ _ _ _ eq_refl). cbn [fst].
  exists i', mem'. split; [exact Hrest|exact Hx].
Qed.

Lemma slice_split (FB data : list Z) k a b :
  0 <= k -> 0 <= a -> 0 <= b -> ztake (a + b) data = zslice k (a + b) FB ->
  ztake a data = zslice k a FB /\ ztake b (zdrop a data) = zslice (k + a) b FB.
Proof.
  intros Hk Ha Hb Heq. unfold zslice in *. split.
  - rewrite <- (ztake_ztake a (a + b)) by lia. rewrite Heq. by rewrite ztake_ztake by lia.
  - replace b with (a + b - a) at 1 by lia. rewrite <- zdrop_ztake by lia. rewrite Heq, zdrop_ztake by lia.
    rewrite zdrop_zdrop by lia. f_equal. lia.
Qed.

(** While the header arrives. *)
Lemma header_step f k data (i : input) (mem : M) :
  valid_frame f = true -> frame_size f <= fm -> 0 <= k < 7 -> partial f k i -> cm_inv mem ->
  0 < zlen data < 2 ^ 31 -> let n := Z.min (zlen data) (frame_size f - k) in
  ztake n data = zslice k n (frame_bytes f) ->
  exists n1 i1 i' mem', consume_data data (i, mem) = (inr n1, (i1, mem)) /\ state i1 = CONNECTION_STATE_HEADER /\
    (if inbound_offset i1 <? target_size i1 then mret (i32 n1, F_none) else handle_header n1 (zdrop n1 data)) (i1, mem) =
      (inr (n, so_far f (k + n)), (i', mem')) /\ progress f (k + n) i' /\ cm_inv mem'.
Proof.
  intros Hv Hle Hk (Hmax & Hhb & Ho & Hst) Hi Hdata n Hd. pose proof (frame_size_ge f) as Hge.
  rewrite (proj2 (Z.ltb_lt k 7)) in Hst by lia. destruct Hst as (Hs & Hb & Ht & Hpre).
  assert (Hraw : raw_frame i = header_buffer i) by (unfold raw_frame; by rewrite Hb).
  pose proof (consume_ok data i mem) as Hc. rewrite Ho, Ht, Hraw in Hc. cbv zeta in Hc.
  set (n1 := Z.min (zlen data) (7 - k)) in Hc. unfold set_raw in Hc. rewrite Hb in Hc. cbv match in Hc.
  set (i1 := set_offset (k + n1) _) in Hc. exists n1, i1.
  pose proof (slice_split (frame_bytes f) data k n1 (n - n1) ltac:(lia) ltac:(lia) ltac:(lia)) as Hsplit.
  replace (n1 + (n - n1)) with n in Hsplit by lia. destruct (Hsplit Hd) as [Hd1 Hd2].
  assert (Hpre' : ztake (k + n1) (zwrite k (ztake n1 data) (header_buffer i)) = ztake (k + n1) (frame_bytes f))
    by (apply prefix_extend; rewrite ?zlen_frame_bytes; (done || lia)).
  assert (Hz : zlen (zwrite k (ztake n1 data) (header_buffer i)) = 8)
    by (rewrite zlen_zwrite; rewrite ?zlen_ztake; lia).
  change (target_size i1) with (target_size i). change (inbound_offset i1) with (k + n1). rewrite Ht.
  unfold so_far, progress. destruct (Z.ltb_spec (k + n1) 7) as [Hlt|Hfull].
  - exists i1, mem. split; [by apply Hc; lia|]. split; [done|]. assert (n1 = n) as Hnn by lia. rewrite i32_id by lia.
    rewrite (proj2 (Z.ltb_lt (k + n) (frame_size f))) by lia. rewrite Hnn. split; [done|]. split; [|done].
    rewrite <- Hnn. split; [done|]. split; [exact Hz|]. split; [done|]. rewrite (proj2 (Z.ltb_lt _ _) Hlt). done.
  - assert (Hk7 : k + n1 = 7) by lia. rewrite Hk7 in *.
    assert (Hn2 : Z.min (zlen (zdrop n1 data)) (frame_size f - 7) = n - n1) by (rewrite zlen_zdrop; lia).
    destruct (handle_header_ok f (zdrop n1 data) i1 mem n1 Hv Hle) as (i' & mem' & Hh & Hx);
      [done|exact Hz|done|exact Hk7|by rewrite <- frame_header_prefix|done|by rewrite Hn2|lia|lia|].
    rewrite Hn2 in Hh, Hx. exists i', mem'. split; [by apply Hc; lia|]. split; [done|].
    replace (n1 + (n - n1)) with n in Hh by lia. replace (7 + (n - n1)) with (k + n) in Hh, Hx by lia.
    split; [exact Hh|exact Hx].
Qed.

Lemma idle_partial f i : idle i -> partial f 0 (set_state CONNECTION_STATE_HEADER i).
Proof. intros (Hmax & Hhb & Hs & Hb & Ho & Ht). repeat (split; [done|]). by rewrite !ztake_0. Qed.

(** One call: it takes what belongs to the frame, and gives the frame as soon
    as it is complete. *)
Definition at_frame (f : frame) (k : Z) (i : input) : Prop := if k =? 0 then idle i else partial f k i.
Lemma handle_input_step f k data (i : input) (mem : M) :
  valid_frame f = true -> frame_size f <= fm -> 0 <= k < frame_size f -> at_frame f k i -> cm_inv mem ->
  0 < zlen data < 2 ^ 31 -> let n := Z.min (zlen data) (frame_size f - k) in
  ztake n data = zslice k n (frame_bytes f) ->
  exists i' mem', amqp_handle_input data (i, mem) = (inr (n, so_far f (k + n)), (i', mem')) /\
    progress f (k + n) i' /\ cm_inv mem'.
Proof.
  intros Hv Hle Hk Hat Hi Hdata n Hd. unfold amqp_handle_input. rewrite (proj2 (Z.eqb_neq _ _)) by lia.
  rewrite (SE_bind_ok (gets _) _ _ _ _ eq_refl). cbn [fst].
  set (i0 := if k =? 0 then set_state CONNECTION_STATE_HEADER i else i).
  assert (Hstart : (match state i with CONNECTION_STATE_IDLE => upd (set_state CONNECTION_STATE_HEADER)
    | _ => mret tt end) (i, mem) = (inr tt, (i0, mem)) /\ partial f k i0).
  { unfold at_frame in Hat. subst i0. destruct (Z.eqb_spec k 0) as [->|].
    - split; [|by apply idle_partial]. destruct Hat as (_ & _ & -> & _). done.
    - split; [|done]. destruct Hat as (_ & _ & _ & Hst). destruct (k <? 7); by destruct Hst as (-> & _). }
  destruct Hstart as [Hs0 Hpart]. rewrite (SE_bind_ok _ _ _ _ _ Hs0). clear Hs0.
  destruct (Z.ltb_spec k 7) as [Hk7|Hk7].
  - destruct (header_step f k data i0 mem Hv Hle ltac:(lia) Hpart Hi Hdata Hd) as (n1 & i1 & i' & mem' & Hc & Hs & Hr & Hx).
    rewrite (SE_bind_ok _ _ _ _ _ Hc). cbv zeta. rewrite (SE_bind_ok (gets _) _ _ _ _ eq_refl). cbn [fst].
    exists i', mem'. rewrite Hs. destruct (inbound_offset i1 <? target_size i1); split; done.
  - destruct (consume_body f k data i0 mem 0 Hv Hle ltac:(lia) Hpart Hi Hd ltac:(lia) ltac:(lia))
      as (i1 & i' & mem' & Hc & Hs & Hr & Hx).
    rewrite (SE_bind_ok _ _ _ _ _ Hc). cbv zeta. rewrite (SE_bind_ok (gets _) _ _ _ _ eq_refl). cbn [fst].
    exists i', mem'. rewrite Hs. fold n in Hr. rewrite Z.add_0_l, u64_id in Hr by lia.
    destruct (inbound_offset i1 <? target_size i1); split; done.
Qed.
End frames.

(** ** Output writes the frame *)

Lemma zwrite_part {A} off len (data buf : list A) :
  0 <= off -> 0 <= len -> off + len <= zlen buf -> zlen data <= len ->
  zwrite off (zwrite 0 data (zslice off len buf)) buf = zwrite off data buf.
Proof.
  intros Ho Hl Hb Hd. zlen_facts. unfold zwrite at 2. rewrite ztake_0, app_nil_l, Z.add_0_l by lia. unfold zwrite.
  rewrite zlen_app, zlen_zdrop by (rewrite ?zlen_zslice; lia). rewrite zlen_zslice by lia.
  unfold zslice. rewrite zdrop_ztake, zdrop_zdrop by lia. rewrite <- !app_assoc. f_equal. f_equal.
  replace (off + (zlen data + (len - zlen data))) with (off + zlen data + (len - zlen data)) by lia.
  rewrite <- (ztake_zdrop (len - zlen data) (zdrop (off + zlen data) buf)) at 2. f_equal. by rewrite zdrop_zdrop by lia.
Qed.
Lemma out_write_ok off bytes buf :
  0 <= off -> off + zlen bytes <= zlen buf -> out_write off bytes buf = (inr tt, zwrite off bytes buf).
Proof. intros. unfold out_write. by rewrite (proj2 (Z.leb_le _ _)), (proj2 (Z.leb_le _ _)) by lia. Qed.
Lemma out_encode_ok off len enc data buf :
  0 <= off -> 0 <= len -> off + len <= zlen buf -> zlen data <= len ->
  enc (zslice off len buf) = (zlen data, zwrite 0 data (zslice off len buf)) ->
  out_encode off len enc buf = (inr (zlen data), zwrite off data buf).
Proof.
  intros Ho Hl Hb Hd He. unfold out_encode. rewrite (proj2 (Z.leb_le _ _)) by lia. rewrite He. by rewrite zwrite_part.
Qed.

(** After the payload, the buffer holds it behind the header. *)
Definition writes_payload (f : frame) : Prop :=
  forall buf, frame_size f <= zlen buf -> zlen buf < 2 ^ 30 ->
  write_payload f (zlen buf) buf = (inr (zlen (frame_payload f)), zwrite 7 (frame_payload f) buf).

Lemma write_method_ok c id l m :
  case_of encode_method_cases id = Some l -> valid_struct l m = true -> writes_payload (F_method c id m).
Proof.
  intros El Hv buf Hsz Hb. cbn [frame_payload write_payload] in *. unfold frame_size, HEADER_SIZE, FOOTER_SIZE in *.
  cbn [frame_payload] in Hsz. unfold method_layout in *. rewrite El in *. change (default [] (Some l)) with l in *.
  rewrite zlen_app, zlen_amqp_e in *. cbn [width_bytes] in *. zlen_facts. change (amqp_e32 id) with (amqp_e W32 id).
  rewrite (SE_bind_ok _ _ _ _ _ (out_write_ok 7 (amqp_e W32 id) buf ltac:(lia) ltac:(rewrite zlen_amqp_e; cbn [width_bytes]; lia))).
  set (b1 := zwrite 7 _ buf). assert (Hb1 : zlen b1 = zlen buf) by (apply zlen_zwrite; rewrite ?zlen_amqp_e; cbn [width_bytes]; lia).
  rewrite u64_id by lia.
  rewrite (SE_bind_ok _ _ _ _ _ (out_encode_ok (7 + 4) (zlen buf - 7 - 4 - 1) (amqp_encode_method id m) (enc_items l m) b1
    ltac:(lia) ltac:(lia) ltac:(lia) ltac:(lia)
    ltac:(apply encode_method_ok; [done|done|rewrite zlen_zslice; lia|rewrite zlen_zslice; lia]))).
  rewrite (proj2 (Z.ltb_ge _ _)) by lia. unfold mret, SE_ret. f_equal; [f_equal; lia|]. subst b1.
  change (7 + 4) with (7 + width_bytes W32). rewrite <- (zlen_amqp_e W32 id). apply zwrite_adjacent; [lia|].
  rewrite zlen_amqp_e. cbn [width_bytes]. lia.
Qed.

Lemma write_header_ok c cls bs raw ps p :
  case_of encode_class_cases cls = Some ps -> valid_properties ps p = true -> writes_payload (F_header c cls bs raw p).
Proof.
  intros Ep Hv buf Hsz Hb. cbn [frame_payload write_payload] in *. unfold frame_size, HEADER_SIZE, FOOTER_SIZE in *.
  cbn [frame_payload] in Hsz. unfold class_properties in *. rewrite Ep in *. change (default [] (Some ps)) with ps in *.
  rewrite !zlen_app, !zlen_amqp_e in *. cbn [width_bytes] in *. zlen_facts.
  change (amqp_e16 cls) with (amqp_e W16 cls). change (amqp_e16 0) with (amqp_e W16 0). change (amqp_e64 bs) with (amqp_e W64 bs).
  rewrite (SE_bind_ok _ _ _ _ _ (out_write_ok 7 (amqp_e W16 cls) buf ltac:(lia) ltac:(rewrite zlen_amqp_e; cbn [width_bytes]; lia))).
  assert (Hadj : forall x w v, zlen x + width_bytes w + 7 <= zlen buf ->
    zwrite (7 + zlen x) (amqp_e w v) (zwrite 7 x buf) = zwrite 7 (x ++ amqp_e w v) buf /\
    zlen (zwrite 7 (x ++ amqp_e w v) buf) = zlen buf).
  { intros x w v Hx. split; [apply zwrite_adjacent|apply zlen_zwrite]; rewrite ?zlen_app, ?zlen_amqp_e; lia. }
  destruct (Hadj (amqp_e W16 cls) W16 0 ltac:(rewrite zlen_amqp_e; cbn [width_bytes]; lia)) as [Ha2 Hz2].
  rewrite zlen_amqp_e in Ha2. cbn [width_bytes] in Ha2.
  rewrite (SE_bind_ok _ _ _ _ _ (out_write_ok (7 + 2) (amqp_e W16 0) (zwrite 7 (amqp_e W16 cls) buf) ltac:(lia)
    ltac:(rewrite zlen_zwrite; rewrite ?zlen_amqp_e; cbn [width_bytes]; lia))). rewrite Ha2.
  destruct (Hadj (amqp_e W16 cls ++ amqp_e W16 0) W64 bs ltac:(rewrite zlen_app, !zlen_amqp_e; cbn [width_bytes]; lia)) as [Ha3 Hz3].
  rewrite zlen_app, !zlen_amqp_e in Ha3. cbn [width_bytes] in Ha3. change (2 + 2) with 4 in Ha3.
  rewrite (SE_bind_ok _ _ _ _ _ (out_write_ok (7 + 4) (amqp_e W64 bs) (zwrite 7 (amqp_e W16 cls ++ amqp_e W16 0) buf) ltac:(lia)
    ltac:(rewrite Hz2, zlen_amqp_e; cbn [width_bytes]; lia))). rewrite Ha3, u64_id by lia.
  set (hd := (amqp_e W16 cls ++ amqp_e W16 0) ++ amqp_e W64 bs) in *.
  assert (Hhd : zlen hd = 12) by (unfold hd; by rewrite !zlen_app, !zlen_amqp_e).
  rewrite (SE_bind_ok _ _ _ _ _ (out_encode_ok (7 + 12) (zlen buf - 7 - 12 - 1) (amqp_encode_properties cls p) (enc_properties ps p)
    (zwrite 7 hd buf) ltac:(lia) ltac:(lia) ltac:(lia) ltac:(lia)
    ltac:(apply encode_properties_ok; [done|done|rewrite zlen_zslice; lia|rewrite zlen_zslice; lia]))).
  rewrite (proj2 (Z.ltb_ge _ _)) by lia. unfold mret, SE_ret. f_equal; [f_equal; lia|].
  rewrite <- Hhd. rewrite zwrite_adjacent by lia. unfold hd. by rewrite <- !app_assoc.
Qed.

Lemma write_payload_ok f : valid_frame f = true -> writes_payload f.
Proof.
  unfold valid_frame. intros [_ Hv]%andb_prop. destruct f as [| | c id m | c cls bs raw p | c bytes | c]; try discriminate Hv.
  - apply andb_prop in Hv as [_ Hv]. destruct (case_of encode_method_cases id) as [l|] eqn:El; [|done].
    by apply (write_method_ok c id l).
  - apply andb_prop in Hv as [_ Hv]. destruct (case_of encode_class_cases cls) as [ps|] eqn:Ep; [|done].
    apply andb_prop in Hv as [Hv _]. by apply (write_header_ok c cls bs raw ps).
  - intros buf Hsz Hb. unfold frame_size, HEADER_SIZE, FOOTER_SIZE in Hsz. cbn [frame_payload write_payload] in *.
    by rewrite (SE_bind_ok _ _ _ _ _ (out_write_ok 7 bytes buf ltac:(lia) ltac:(lia))).
  - intros buf Hsz Hb. cbn. by rewrite zwrite_nil by (unfold frame_size in Hsz; zlen_facts; lia).
Qed.

Lemma frame_to_bytes_ok f buf :
  valid_frame f = true -> frame_size f <= zlen buf -> zlen buf < 2 ^ 30 ->
  exists buf', amqp_frame_to_bytes f buf = (inr (frame_bytes f), buf') /\ zlen buf' = zlen buf.
Proof.
  intros Hv Hsz Hb. pose proof (frame_size_ge f) as Hge.
  assert (Hlen : zlen (frame_payload f) = frame_size f - 8) by (unfold frame_size, HEADER_SIZE, FOOTER_SIZE; lia).
  unfold amqp_frame_to_bytes. rewrite (SE_bind_ok (gets _) _ _ _ _ eq_refl).
  change (amqp_e8 ?x) with (amqp_e W8 x). change (amqp_e16 ?x) with (amqp_e W16 x). set (e1 := amqp_e W8 (frame_type f)).
  set (e2 := amqp_e W16 (frame_channel f)). assert (Hz1 : zlen e1 = 1) by apply (zlen_amqp_e W8).
  assert (Hz2 : zlen e2 = 2) by apply (zlen_amqp_e W16).
  rewrite (SE_bind_ok _ _ _ _ _ (out_write_ok 0 e1 buf ltac:(lia) ltac:(lia))).
  rewrite (SE_bind_ok _ _ _ _ _ (out_write_ok 1 e2 (zwrite 0 e1 buf) ltac:(lia) ltac:(rewrite zlen_zwrite; lia))).
  pose proof (zwrite_adjacent 0 e1 e2 buf ltac:(lia) ltac:(lia)) as Ha. rewrite Hz1, Z.add_0_l in Ha. rewrite Ha.
  set (b2 := zwrite 0 (e1 ++ e2) buf). assert (Hb2 : zlen b2 = zlen buf) by (apply zlen_zwrite; rewrite ?zlen_app; lia).
  replace (write_payload f (zlen buf)) with (write_payload f (zlen b2)) by (by rewrite Hb2).
  rewrite (SE_bind_ok _ _ _ _ _ (write_payload_ok f Hv b2 ltac:(lia) ltac:(lia))).
  rewrite u32_id by lia. change (amqp_e32 ?x) with (amqp_e W32 x). set (e3 := amqp_e W32 (zlen (frame_payload f))).
  assert (Hz3 : zlen e3 = 4) by apply (zlen_amqp_e W32).
  rewrite (SE_bind_ok _ _ _ _ _ (out_write_ok 3 e3 (zwrite 7 (frame_payload f) b2) ltac:(lia) ltac:(rewrite zlen_zwrite; lia))).
  pose proof (zwrite_front 3 e3 (frame_payload f) b2 ltac:(lia) ltac:(lia)) as Hf. rewrite Hz3 in Hf. change (3 + 4) with 7 in Hf.
  rewrite Hf. pose proof (zwrite_adjacent 0 (e1 ++ e2) (e3 ++ frame_payload f) buf ltac:(lia) ltac:(rewrite !zlen_app; lia)) as Ha3.
  rewrite zlen_app, Hz1, Hz2 in Ha3. change (0 + (1 + 2)) with 3 in Ha3. unfold b2. rewrite Ha3.
  set (all := (e1 ++ e2) ++ e3 ++ frame_payload f). assert (Hza : zlen all = 7 + zlen (frame_payload f))
    by (unfold all; rewrite !zlen_app; lia).
  change (amqp_e W8 AMQP_FRAME_END) with [AMQP_FRAME_END]. change HEADER_SIZE with 7. change FOOTER_SIZE with 1.
  rewrite (SE_bind_ok _ _ _ _ _ (out_write_ok (7 + zlen (frame_payload f)) [AMQP_FRAME_END] (zwrite 0 all buf) ltac:(zlen_facts; lia)
    ltac:(change (zlen [AMQP_FRAME_END]) with 1; rewrite zlen_zwrite; lia))).
  pose proof (zwrite_adjacent 0 all [AMQP_FRAME_END] buf ltac:(lia) ltac:(change (zlen [AMQP_FRAME_END]) with 1; lia)) as Ha4.
  rewrite Z.add_0_l, Hza in Ha4. rewrite Ha4.
  assert (Hall : all ++ [AMQP_FRAME_END] = frame_bytes f).
  { unfold all, frame_bytes, frame_header, e1, e2, e3. by rewrite <- !app_assoc. }
  rewrite Hall. exists (zwrite 0 (frame_bytes f) buf). unfold gets.
  rewrite zlen_zwrite by (rewrite ?zlen_frame_bytes; lia). split; [|done].
  do 2 f_equal. replace (zlen (frame_payload f) + 7 + 1) with (zlen (frame_bytes f)) by (rewrite zlen_frame_bytes; lia).
  apply ztake_written. rewrite zlen_frame_bytes. lia.
Qed.

(** ** What goes wrong *)

#[local] Existing Instance demo_grants.
(** Memory of which nothing is used, and a connection between two frames. *)
Definition demo_pools : pools := new_pools empty_heap.
Definition demo_idle : input := mk_input CONNECTION_STATE_IDLE 4096 (zfill 8) None 0 7.

(** The length of a frame is added to 8 in 32 bits: a header that
    announces 0xFFFFFFF9 bytes passes the test against frame_max with a target
    of one byte; the bytes that follow the header are then copied behind the
    memory made for one byte, however many they are. *)
Theorem amqp_handle_input_size_wraps :
  (amqp_handle_input [1; 0; 1; 255; 255; 255; 249; 65; 66; 67] (demo_idle, demo_pools)).1 = inl (Fault OutOfBounds) /\
  (amqp_handle_input [1; 0; 1; 255; 255; 255; 248; 65; 66; 67] (demo_idle, demo_pools)).1 = inl (Status AMQP_STATUS_NO_MEMORY) /\
  (amqp_handle_input [1; 0; 1; 255; 255; 255; 247; 65; 66; 67] (demo_idle, demo_pools)).1 = inl (Status AMQP_STATUS_BAD_AMQP_DATA).
Proof. vm_compute. repeat split. Qed.

(** A method frame without room for the number of the method, and a header
    frame without room for its fixed part, are decoded all the same, with
    memory that is not part of the frame: the length of what is left to decode
    wraps around. *)
Theorem amqp_handle_input_short_payload :
  (amqp_handle_input [1; 0; 1; 0; 0; 0; 0; 206] (demo_idle, demo_pools)).1 = inl (Fault OutOfBounds) /\
  (amqp_handle_input [2; 0; 1; 0; 0; 0; 4; 0; 60; 0; 0; 206] (demo_idle, demo_pools)).1 = inl (Fault OutOfBounds).
Proof. vm_compute. repeat split. Qed.

(** The first eight bytes of a connection may be a protocol header; when
    they are not, only seven of them are kept: the first byte of the payload
    of the first frame is replaced by what the memory of the frame holds
    there. *)
Theorem amqp_handle_input_first_frame :
  let bytes := frame_bytes (F_body 1 [104; 101; 108; 108; 111]) in
  (amqp_handle_input bytes (demo_idle, demo_pools)).1 = inr (13, F_body 1 [104; 101; 108; 108; 111]) /\
  (amqp_handle_input bytes (new_input 4096, demo_pools)).1 = inr (13, F_body 1 [0; 101; 108; 108; 111]).
Proof. vm_compute. repeat split. Qed.
