(* ===== verification/AmqpTime.v ===== *)
(** * Deadlines: amqp_time.c

    A point in time is a number of nanoseconds of the monotonic clock, in 64
    bits; 0 stands for this instant and UINT64_MAX for never.  The clock is a
    parameter: amqp_get_monotonic_timestamp returns its reading, 0 when it
    fails. *)

From S2P Require Import Prelude Sshbuf AmqpTable.

Definition AMQP_STATUS_OK : Z := 0.
Definition AMQP_STATUS_TIMEOUT : Z := -13.
Definition AMQP_STATUS_TIMER_FAILURE : Z := -14.
Definition AMQP_NS_PER_S : Z := 1000000000.
Definition AMQP_NS_PER_MS : Z := 1000000.
Definition AMQP_NS_PER_US : Z := 1000.
Definition UINT64_MAX : Z := 2 ^ 64 - 1.

Record timeval := mk_tv { tv_sec : Z; tv_usec : Z }.

(** The clock of a system: every reading may change it. *)
Class Clock (N : Type) := amqp_get_monotonic_timestamp : SE N Empty_set Z.

Definition amqp_time_immediate : Z := 0.
Definition amqp_time_infinite : Z := UINT64_MAX.
Definition amqp_time_first (l r : Z) : Z := if l <? r then l else r.
Definition amqp_time_equal (l r : Z) : bool := l =? r.

Section time.
Context {N : Type} `{Clock N}.

(** A reading of the clock; 0 makes the function return TIMER_FAILURE. *)
Definition now_ns : SE N Z Z := fun n =>
  match amqp_get_monotonic_timestamp n with
  | (inr 0, n') => (inl AMQP_STATUS_TIMER_FAILURE, n')
  | (inr t, n') => (inr t, n')
  | (inl e, n') => match e with end
  end.
(** now + delta, unless it does not fit 64 bits. *)
Definition time_after (delta_ns : Z) : SE N Z Z :=
  now ← now_ns;
  let time_point_ns := u64 (now + delta_ns) in
  if (time_point_ns <? now) || (time_point_ns <? delta_ns) then throw AMQP_STATUS_INVALID_PARAMETER
  else mret time_point_ns.

Definition amqp_time_from_now (timeout : option timeval) : SE N Z Z :=
  match timeout with
  | None => mret amqp_time_infinite
  | Some tv =>
      if (tv_sec tv =? 0) && (tv_usec tv =? 0) then mret amqp_time_immediate
      else if (tv_sec tv <? 0) || (tv_usec tv <? 0) then throw AMQP_STATUS_INVALID_PARAMETER
      else time_after (u64 (u64 (tv_sec tv * AMQP_NS_PER_S) + u64 (tv_usec tv * AMQP_NS_PER_US)))
  end.
Definition amqp_time_s_from_now (seconds : Z) : SE N Z Z :=
  if seconds <=? 0 then mret amqp_time_infinite else time_after (u64 (seconds * AMQP_NS_PER_S)).

(** The int it returns: milliseconds, or a status. *)
Definition amqp_time_ms_until (time : Z) : SE N Z Z :=
  if UINT64_MAX =? time then mret (-1)
  else if 0 =? time then mret 0
  else
    now ← now_ns;
    if time <=? now then mret 0
    else mret (i32 ((time - now) / AMQP_NS_PER_MS)).
Definition amqp_time_tv_until (time : Z) : SE N Z (option timeval) :=
  if UINT64_MAX =? time then mret None
  else if 0 =? time then mret (Some (mk_tv 0 0))
  else
    now ← now_ns;
    if time <=? now then mret (Some (mk_tv 0 0))
    else
      let delta_ns := time - now in
      mret (Some (mk_tv (i32 (delta_ns / AMQP_NS_PER_S)) (i32 (delta_ns mod AMQP_NS_PER_S / AMQP_NS_PER_US)))).
Definition amqp_time_has_past (time : Z) : SE N Z () :=
  if UINT64_MAX =? time then mret tt
  else
    now ← now_ns;
    if time <? now then throw AMQP_STATUS_TIMEOUT else mret tt.
End time.

(** ** What the functions promise *)

Section laws.
Context {N : Type} `{Clock N}.

Lemma now_ns_ok (n n' : N) t :
  amqp_get_monotonic_timestamp n = (inr t, n') -> t <> 0 -> now_ns n = (inr t, n').
Proof. unfold now_ns. intros -> Ht. by destruct t. Qed.

Lemma time_after_spec delta (n n' : N) t :
  amqp_get_monotonic_timestamp n = (inr t, n') -> 0 < t < 2 ^ 64 -> 0 <= delta < 2 ^ 64 ->
  time_after delta n =
    (if t + delta <? 2 ^ 64 then inr (t + delta) else inl AMQP_STATUS_INVALID_PARAMETER, n').
Proof.
  intros Hn Ht Hd. unfold time_after. rewrite (SE_bind_ok _ _ _ _ _ (now_ns_ok n n' t Hn ltac:(lia))).
  destruct (Z.ltb_spec (t + delta) (2 ^ 64)) as [Hlt|Hge].
  - rewrite u64_id by lia. rewrite (proj2 (Z.ltb_ge _ _)), (proj2 (Z.ltb_ge _ _)) by lia. done.
  - assert (Hu : u64 (t + delta) = t + delta - 2 ^ 64).
    { unfold u64. rewrite <- (Z.mod_add _ (-1)) by lia. apply Z.mod_small. lia. }
    rewrite Hu, (proj2 (Z.ltb_lt _ _)) by lia. done.
Qed.
End laws.

(** A timeout that is not in the past and does not overflow the clock
    becomes the reading of the clock plus the timeout; an overflow is
    INVALID_PARAMETER, a failing clock TIMER_FAILURE, no timeout never. *)
Theorem amqp_time_from_now_correct {N} `{Clock N} (tv : timeval) (n n' : N) (t : Z) :
  amqp_get_monotonic_timestamp n = (inr t, n') -> 0 <= t < 2 ^ 64 ->
  0 <= tv_sec tv < 2 ^ 33 -> 0 <= tv_usec tv < 2 ^ 33 -> (tv_sec tv = 0 /\ tv_usec tv = 0 -> False) ->
  let delta := tv_sec tv * AMQP_NS_PER_S + tv_usec tv * AMQP_NS_PER_US in
  amqp_time_from_now (Some tv) n =
    (if t =? 0 then inl AMQP_STATUS_TIMER_FAILURE
     else if t + delta <? 2 ^ 64 then inr (t + delta) else inl AMQP_STATUS_INVALID_PARAMETER, n').
Proof.
  intros Hn Ht Hs Hu Hz delta. unfold amqp_time_from_now. unfold AMQP_NS_PER_S, AMQP_NS_PER_US in *.
  replace ((tv_sec tv =? 0) && (tv_usec tv =? 0)) with false by lia.
  rewrite (proj2 (Z.ltb_ge _ _)), (proj2 (Z.ltb_ge _ _)) by lia. cbn [orb].
  rewrite (u64_id (tv_sec tv * _)), (u64_id (tv_usec tv * _)), u64_id by lia. fold delta.
  destruct (Z.eqb_spec t 0) as [->|Hne].
  - unfold time_after, now_ns, mbind, SE_bind. by rewrite Hn.
  - by apply time_after_spec; [|lia|lia].
Qed.

(** A clock that shows the same time forever. *)
#[local] Instance stopped_clock : Clock Z := fun n => (inr n, n).
Lemma amqp_time_from_now_correct_witness :
  amqp_time_from_now (Some (mk_tv 12 500)) 1000 = (inr (1000 + (12 * AMQP_NS_PER_S + 500 * AMQP_NS_PER_US)), 1000) /\
  amqp_time_from_now (Some (mk_tv 1 0)) UINT64_MAX = (inl AMQP_STATUS_INVALID_PARAMETER, UINT64_MAX).
Proof.
  split.
  - apply (amqp_time_from_now_correct (mk_tv 12 500) 1000 1000 1000);
      [reflexivity|vm_compute; split; congruence|vm_compute; split; congruence|vm_compute; split; congruence|
       intros [Hx _]; discriminate Hx].
  - apply (amqp_time_from_now_correct (mk_tv 1 0) UINT64_MAX UINT64_MAX UINT64_MAX);
      [reflexivity|vm_compute; split; congruence|vm_compute; split; congruence|vm_compute; split; congruence|
       intros [Hx _]; discriminate Hx].
Defined.

(** amqp_time_ms_until reports a deadline in the past as 0 milliseconds,
    not as AMQP_STATUS_TIMEOUT, and a deadline 25 days ahead as a negative
    number, which amqp_poll takes for a failure. *)
Theorem amqp_time_ms_until_quirks :
  amqp_time_ms_until 5 1000 = (inr 0, 1000) /\
  exists ms, amqp_time_ms_until (25 * 86400 * AMQP_NS_PER_S) 1000 = (inr ms, 1000) /\ ms < -1.
Proof. split; [reflexivity|]. eexists. split; [vm_compute; reflexivity|]. reflexivity. Qed.
