(* ===== verification/AmqpSocket.v ===== *)
(** * Sending and waiting for frames: amqp_socket.c, amqp_connection.c, amqp_api.c

    The connection above the socket: bytes received are cut into frames,
    frames nobody waits for yet are queued, a request waits for its reply,
    a message is published as a method, a header and body frames.  The socket
    is the table of functions amqp_socket_class_t and the system calls below
    amqp_poll: parameters, the class [Net].  The loops of the source run until
    the peer or the clock ends them; they have fuel, and stop with [OutOfFuel]
    without it. *)

From stdpp Require Import gmap strings.
From S2P Require Import Prelude Sshbuf AmqpMem AmqpCodec AmqpTable AmqpPools AmqpFraming AmqpConn AmqpTime.
#[local] Open Scope string_scope.
#[local] Open Scope list_scope.
#[local] Open Scope Z_scope.

Definition AMQP_STATUS_CONNECTION_CLOSED : Z := -7.
Definition AMQP_STATUS_SOCKET_ERROR : Z := -9.
Definition AMQP_STATUS_WRONG_METHOD : Z := -12.
Definition AMQP_STATUS_HEARTBEAT_TIMEOUT : Z := -15.
Definition AMQP_STATUS_SOCKET_CLOSED : Z := -17.
Definition AMQP_PRIVATE_STATUS_SOCKET_NEEDREAD : Z := - 0x1301.
Definition AMQP_PRIVATE_STATUS_SOCKET_NEEDWRITE : Z := - 0x1302.
Definition AMQP_INITIAL_INBOUND_SOCK_BUFFER_SIZE : Z := 131072.
Definition AMQP_BASIC_CLASS : Z := 60.
Definition sizeof_frame : Z := 48.
Definition sizeof_link : Z := 16.

(** What poll(2) says: the descriptor is ready, the time is over, a signal
    came, or an error. *)
Inductive poll_result := PollReady | PollTimeout | PollInterrupted | PollError.
Inductive poll_event := AMQP_SF_POLLIN | AMQP_SF_POLLOUT.

(** poll(2) and the clock. *)
Class PollSys (N : Type) := {
  poll_clock : Clock N;
  sys_poll : Z -> poll_event -> Z -> N -> poll_result * N
}.
#[export] Existing Instance poll_clock.

(** A status that a function stops with, as a value. *)
Definition c_status {S A} (m : SE S dstop A) : SE S dstop (Z + A) := fun s =>
  match m s with
  | (inr a, s') => (inr (inr a), s')
  | (inl (Status res), s') => (inr (inl res), s')
  | (inl e, s') => (inl e, s')
  end.
(** The functions of amqp_time.c stop with a status. *)
Definition timed {S A} (m : SE S Z A) : SE S dstop A := fun s =>
  match m s with
  | (inr a, s') => (inr a, s')
  | (inl res, s') => (inl (Status res), s')
  end.

Fixpoint amqp_poll {N} `{PollSys N} (fuel : nat) (fd : Z) (event : poll_event) (deadline : Z) : SE N dstop () :=
  match fuel with
  | O => throw OutOfFuel
  | S fuel' =>
      r ← c_status (timed (amqp_time_ms_until deadline));
      let timeout_ms := match r with inl res => res | inr ms => ms end in
      if timeout_ms <? -1 then throw (Status timeout_ms)
      else
        p ← (fun n => let '(p, n') := sys_poll fd event timeout_ms n in (inr p, n'));
        match p with
        | PollReady => mret tt
        | PollTimeout => throw (Status AMQP_STATUS_TIMEOUT)
        | PollInterrupted => amqp_poll fuel' fd event deadline
        | PollError => throw (Status AMQP_STATUS_SOCKET_ERROR)
        end
  end.

(** amqp_socket_class_t.  recv gives bytes, at most as many as the buffer
    holds, or a negative status; send says how many bytes it took, or a
    status.  The flags of send, which ask the system to wait for more, are left
    out. *)
Class Net (N : Type) := {
  net_poll : PollSys N;
  klass_recv : Z -> SE N dstop (Z + list Z);
  klass_send : list Z -> SE N dstop Z;
  klass_get_sockfd : N -> Z;
  klass_close : N -> Z * N
}.
#[export] Existing Instance net_poll.

(** amqp_rpc_reply_t *)
Inductive rpc_reply :=
  | AMQP_RESPONSE_NORMAL (id : Z) (decoded : struct)
  | AMQP_RESPONSE_LIBRARY_EXCEPTION (library_error : Z)
  | AMQP_RESPONSE_SERVER_EXCEPTION (id : Z) (decoded : struct).

(** What the connection keeps for the functions of amqp_api.c and for the
    login. *)
Record api_state := mk_api {
  channel_max : Z;
  most_recent_api_result : rpc_reply;
  server_properties : list (list Z * field_value);
  client_properties : list (list Z * field_value);
  handshake_timeout : option timeval;
  rpc_timeout : option timeval
}.
(** The connection: the frame being collected, the memory, the socket, what
    the last recv gave and how much of it is used, the queue of frames, the
    outbound buffer, the heartbeat, and the rest. *)
Record conn (M N : Type) := mk_conn {
  c_input : input;
  c_mem : M;
  c_net : N;
  sock_inbound : list Z;
  sock_inbound_offset : Z;
  queued_frames : list frame;
  outbound_buffer : list Z;
  heartbeat : Z;
  next_recv_heartbeat : Z;
  next_send_heartbeat : Z;
  c_api : api_state
}.
Arguments mk_conn {M N}.
Arguments c_input {M N}. Arguments c_mem {M N}. Arguments c_net {M N}. Arguments sock_inbound {M N}.
Arguments sock_inbound_offset {M N}. Arguments queued_frames {M N}. Arguments outbound_buffer {M N}.
Arguments heartbeat {M N}. Arguments next_recv_heartbeat {M N}. Arguments next_send_heartbeat {M N}.
Arguments c_api {M N}.

Section connection.
Context {M N : Type} `{ChannelMem M} `{Net N}.
Abbreviation C A := (SE (conn M N) dstop A).

Definition set_input_mem (i : input) (mem : M) (c : conn M N) : conn M N :=
  mk_conn i mem (c_net c) (sock_inbound c) (sock_inbound_offset c) (queued_frames c) (outbound_buffer c)
    (heartbeat c) (next_recv_heartbeat c) (next_send_heartbeat c) (c_api c).
Definition set_net (n : N) (c : conn M N) : conn M N :=
  mk_conn (c_input c) (c_mem c) n (sock_inbound c) (sock_inbound_offset c) (queued_frames c) (outbound_buffer c)
    (heartbeat c) (next_recv_heartbeat c) (next_send_heartbeat c) (c_api c).
Definition set_inbound (data : list Z) (off : Z) (c : conn M N) : conn M N :=
  mk_conn (c_input c) (c_mem c) (c_net c) data off (queued_frames c) (outbound_buffer c)
    (heartbeat c) (next_recv_heartbeat c) (next_send_heartbeat c) (c_api c).
Definition set_queue (q : list frame) (c : conn M N) : conn M N :=
  mk_conn (c_input c) (c_mem c) (c_net c) (sock_inbound c) (sock_inbound_offset c) q (outbound_buffer c)
    (heartbeat c) (next_recv_heartbeat c) (next_send_heartbeat c) (c_api c).
Definition set_outbound (b : list Z) (c : conn M N) : conn M N :=
  mk_conn (c_input c) (c_mem c) (c_net c) (sock_inbound c) (sock_inbound_offset c) (queued_frames c) b
    (heartbeat c) (next_recv_heartbeat c) (next_send_heartbeat c) (c_api c).
Definition set_recv_heartbeat (t : Z) (c : conn M N) : conn M N :=
  mk_conn (c_input c) (c_mem c) (c_net c) (sock_inbound c) (sock_inbound_offset c) (queued_frames c) (outbound_buffer c)
    (heartbeat c) t (next_send_heartbeat c) (c_api c).
Definition set_send_heartbeat (t : Z) (c : conn M N) : conn M N :=
  mk_conn (c_input c) (c_mem c) (c_net c) (sock_inbound c) (sock_inbound_offset c) (queued_frames c) (outbound_buffer c)
    (heartbeat c) (next_recv_heartbeat c) t (c_api c).
Definition set_api (a : api_state) (c : conn M N) : conn M N :=
  mk_conn (c_input c) (c_mem c) (c_net c) (sock_inbound c) (sock_inbound_offset c) (queued_frames c) (outbound_buffer c)
    (heartbeat c) (next_recv_heartbeat c) (next_send_heartbeat c) a.
Definition set_result (res : rpc_reply) (a : api_state) : api_state :=
  mk_api (channel_max a) res (server_properties a) (client_properties a) (handshake_timeout a) (rpc_timeout a).

(** The parts a function works on. *)
Definition on_input {A} (m : SE (input * M) dstop A) : C A := fun c =>
  match m (c_input c, c_mem c) with (r, (i, mem)) => (r, set_input_mem i mem c) end.
Definition on_memory {A} (m : SE M fault A) : C A := on_input (on_mem m).
Definition on_net {A} (m : SE N dstop A) : C A := fun c =>
  match m (c_net c) with (r, n) => (r, set_net n c) end.
Definition on_clock {A} (m : SE N Z A) : C A := on_net (timed m).
(** amqp_socket_close(state->socket, AMQP_SC_FORCE), its result unused. *)
Definition force_close : C () := on_net (fun n => (inr tt, (klass_close n).2)).
Definition on_outbound {A} (m : SE (list Z) dstop A) : C A := fun c =>
  match m (outbound_buffer c) with (r, b) => (r, set_outbound b c) end.
(** ** Receiving *)

Definition amqp_data_in_buffer (c : conn M N) : bool := sock_inbound_offset c <? zlen (sock_inbound c).

Definition consume_one_frame : C frame :=
  c ← gets (@id (conn M N));
  '(res, f) ← on_input (amqp_handle_input (zdrop (sock_inbound_offset c) (sock_inbound c)));
  if res <? 0 then throw (Status res)
  else
    _ ← modify (fun c : conn M N => set_inbound (sock_inbound c) (sock_inbound_offset c + res) c);
    mret f.

Fixpoint recv_with_timeout (fuel : nat) (timeout : Z) : C () :=
  match fuel with
  | O => throw OutOfFuel
  | S fuel' =>
      r ← on_net (klass_recv AMQP_INITIAL_INBOUND_SOCK_BUFFER_SIZE);
      match r with
      | inl res =>
          fd ← gets (fun c : conn M N => klass_get_sockfd (c_net c));
          if fd =? -1 then throw (Status AMQP_STATUS_CONNECTION_CLOSED)
          else if res =? AMQP_PRIVATE_STATUS_SOCKET_NEEDREAD then
            _ ← on_net (amqp_poll fuel' fd AMQP_SF_POLLIN timeout); recv_with_timeout fuel' timeout
          else if res =? AMQP_PRIVATE_STATUS_SOCKET_NEEDWRITE then
            _ ← on_net (amqp_poll fuel' fd AMQP_SF_POLLOUT timeout); recv_with_timeout fuel' timeout
          else throw (Status res)
      | inr data =>
          _ ← modify (set_inbound data 0);
          hb ← gets (@heartbeat M N);
          t ← on_clock (amqp_time_s_from_now (2 * hb));
          modify (set_recv_heartbeat t)
      end
  end.

(** ** The queue *)

(** Memory for the link and the copy of the frame, from the pool of its
    channel: [false] when there is none. *)
Definition alloc_link (first second channel : Z) : C bool :=
  fm ← gets (fun c : conn M N => frame_max (c_input c));
  channel_pool ← on_memory (cm_pool fm channel);
  if negb channel_pool then mret false
  else
    a ← on_memory (@em_pool_alloc M (cm_entries channel) first);
    b ← on_memory (@em_pool_alloc M (cm_entries channel) second);
    mret (match a, b with Some _, Some _ => true | _, _ => false end).
Definition amqp_create_link_for_frame (f : frame) : C () :=
  ok ← alloc_link sizeof_link sizeof_frame (frame_channel f);
  if negb ok then throw (Status AMQP_STATUS_NO_MEMORY) else mret tt.
Definition amqp_queue_frame (f : frame) : C () :=
  _ ← amqp_create_link_for_frame f;
  modify (fun c : conn M N => set_queue (queued_frames c ++ [f]) c).
Definition amqp_put_back_frame (f : frame) : C () :=
  _ ← amqp_create_link_for_frame f;
  modify (fun c : conn M N => set_queue (f :: queued_frames c) c).
(** The copy of these lines in amqp_try_recv and simple_rpc_inner. *)
Definition enqueue (f : frame) : C () :=
  ok ← alloc_link sizeof_frame sizeof_link (frame_channel f);
  if negb ok then throw (Status AMQP_STATUS_NO_MEMORY)
  else modify (fun c : conn M N => set_queue (queued_frames c ++ [f]) c).

Definition amqp_frames_enqueued (c : conn M N) : bool := negb (bool_decide (queued_frames c = [])).

(** The while loop of amqp_try_recv. *)
Fixpoint consume_frames (fuel : nat) : C () :=
  c ← gets (@id (conn M N));
  if negb (amqp_data_in_buffer c) then mret tt
  else match fuel with
  | O => throw OutOfFuel
  | S fuel' =>
      f ← consume_one_frame;
      _ ← (if frame_type f =? 0 then mret tt else enqueue f);
      consume_frames fuel'
  end.
Definition amqp_try_recv (fuel : nat) : C () :=
  _ ← consume_frames fuel;
  recv_with_timeout fuel amqp_time_immediate.

(** ** Releasing memory *)

Definition amqp_release_buffers_ok (c : conn M N) : bool :=
  match state (c_input c) with CONNECTION_STATE_IDLE => true | _ => false end.
Definition amqp_maybe_release_buffers_on_channel (channel : Z) : C () :=
  c ← gets (@id (conn M N));
  if negb (amqp_release_buffers_ok c) then mret tt
  else if existsb (fun f => channel =? frame_channel f) (queued_frames c) then mret tt
  else on_memory (cm_recycle channel).

(** ** Sending *)

(** The bytes the socket takes at once: how many of them, when the deadline
    ends the wait for it to take more. *)
Fixpoint try_send_loop (fuel : nat) (buf : list Z) (deadline sent : Z) : C Z :=
  match fuel with
  | O => throw OutOfFuel
  | S fuel' =>
      res ← on_net (klass_send buf);
      if 0 <? res then
        if zlen buf - res =? 0 then mret (sent + res)
        else try_send_loop fuel' (zdrop res buf) deadline (sent + res)
      else
        fd ← gets (fun c : conn M N => klass_get_sockfd (c_net c));
        r ← c_status (
              if fd =? -1 then throw (Status AMQP_STATUS_SOCKET_CLOSED)
              else if res =? AMQP_PRIVATE_STATUS_SOCKET_NEEDREAD then on_net (amqp_poll fuel' fd AMQP_SF_POLLIN deadline)
              else if res =? AMQP_PRIVATE_STATUS_SOCKET_NEEDWRITE then on_net (amqp_poll fuel' fd AMQP_SF_POLLOUT deadline)
              else if res =? AMQP_STATUS_OK then mret tt
              else throw (Status res));
        match r with
        | inr _ => try_send_loop fuel' buf deadline sent
        | inl res => if res =? AMQP_STATUS_TIMEOUT then mret sent else throw (Status res)
        end
  end.
Definition amqp_try_send (fuel : nat) (buf : list Z) (deadline : Z) : C Z := try_send_loop fuel buf deadline 0.

(** from the label start_send *)
Fixpoint send_loop (fuel : nat) (encoded : list Z) (deadline : Z) : C () :=
  match fuel with
  | O => throw OutOfFuel
  | S fuel' =>
      next_timeout ← gets (fun c : conn M N => amqp_time_first deadline (next_recv_heartbeat c));
      sent ← amqp_try_send fuel' encoded next_timeout;
      if negb (zlen encoded =? sent) then
        if amqp_time_equal next_timeout deadline then throw (Status AMQP_STATUS_TIMEOUT)
        else
          r ← c_status (amqp_try_recv fuel');
          match r with
          | inl res => throw (Status (if res =? AMQP_STATUS_TIMEOUT then AMQP_STATUS_HEARTBEAT_TIMEOUT else res))
          | inr _ => send_loop fuel' (zdrop sent encoded) deadline
          end
      else
        hb ← gets (@heartbeat M N);
        t ← on_clock (amqp_time_s_from_now hb);
        modify (set_send_heartbeat t)
  end.
Definition amqp_send_frame_inner (fuel : nat) (f : frame) (deadline : Z) : C () :=
  encoded ← on_outbound (amqp_frame_to_bytes f);
  send_loop fuel encoded deadline.
Definition amqp_send_frame (fuel : nat) (f : frame) : C () := amqp_send_frame_inner fuel f amqp_time_infinite.
Definition amqp_send_method_inner (fuel : nat) (channel id : Z) (decoded : struct) (deadline : Z) : C () :=
  amqp_send_frame_inner fuel (F_method channel id decoded) deadline.
Definition amqp_send_method (fuel : nat) (channel id : Z) (decoded : struct) : C () :=
  amqp_send_method_inner fuel channel id decoded amqp_time_infinite.

(** The protocol header: "AMQP", 0 and the version 0-9-1. *)
Definition protocol_header : list Z := str "AMQP" ++ [0; 0; 9; 1].
(** The int it returns. *)
Definition send_header_inner (fuel : nat) (deadline : Z) : C Z :=
  r ← c_status (amqp_try_send fuel protocol_header deadline);
  mret (match r with
        | inr sent => if zlen protocol_header =? sent then AMQP_STATUS_OK else sent
        | inl res => res
        end).

Definition amqp_send_header (fuel : nat) : C Z := send_header_inner fuel amqp_time_infinite.

(** ** Waiting for a frame *)

(** From the label beginrecv: a heartbeat when it is time for one, then wait
    for bytes. *)
Fixpoint wait_bytes (fuel : nat) (timeout_deadline : Z) : C () :=
  match fuel with
  | O => throw OutOfFuel
  | S fuel' =>
      c ← gets (@id (conn M N));
      r ← c_status (on_clock (amqp_time_has_past (next_send_heartbeat c)));
      _ ← match r with
          | inr _ => mret tt
          | inl res =>
              if res =? AMQP_STATUS_TIMEOUT then amqp_send_frame fuel' (F_heartbeat 0)
              else if res =? AMQP_STATUS_TIMER_FAILURE then throw (Status res) else mret tt
          end;
      c ← gets (@id (conn M N));
      let deadline :=
        amqp_time_first timeout_deadline (amqp_time_first (next_recv_heartbeat c) (next_send_heartbeat c)) in
      r ← c_status (recv_with_timeout fuel' deadline);
      match r with
      | inr _ => mret tt
      | inl res =>
          if res =? AMQP_STATUS_TIMEOUT then
            c ← gets (@id (conn M N));
            if amqp_time_equal deadline (next_recv_heartbeat c) then
              _ ← force_close; throw (Status AMQP_STATUS_HEARTBEAT_TIMEOUT)
            else if amqp_time_equal deadline timeout_deadline then throw (Status AMQP_STATUS_TIMEOUT)
            else if amqp_time_equal deadline (next_send_heartbeat c) then wait_bytes fuel' timeout_deadline
            else throw (Fault Aborted)
          else throw (Status res)
      end
  end.
Fixpoint wait_frame_inner (fuel : nat) (timeout_deadline : Z) : C frame :=
  match fuel with
  | O => throw OutOfFuel
  | S fuel' =>
      c ← gets (@id (conn M N));
      if amqp_data_in_buffer c then
        f ← consume_one_frame;
        match f with
        | F_heartbeat _ => _ ← amqp_maybe_release_buffers_on_channel 0; wait_frame_inner fuel' timeout_deadline
        | F_none => wait_frame_inner fuel' timeout_deadline
        | _ => mret f
        end
      else
        _ ← wait_bytes fuel' timeout_deadline;
        wait_frame_inner fuel' timeout_deadline
  end.

Definition amqp_simple_wait_frame_noblock (fuel : nat) (timeout : option timeval) : C frame :=
  deadline ← on_clock (amqp_time_from_now timeout);
  q ← gets (@queued_frames M N);
  match q with
  | f :: q' => _ ← modify (set_queue q'); mret f
  | [] => wait_frame_inner fuel deadline
  end.
Definition amqp_simple_wait_frame (fuel : nat) : C frame := amqp_simple_wait_frame_noblock fuel None.

(** The frames behind the first one of the channel. *)
Fixpoint find_queued (channel : Z) (q : list frame) : option (frame * list frame) :=
  match q with
  | [] => None
  | f :: q' => if channel =? frame_channel f then Some (f, q') else find_queued channel q'
  end.
Fixpoint wait_on_channel (fuel : nat) (channel : Z) : C frame :=
  match fuel with
  | O => throw OutOfFuel
  | S fuel' =>
      f ← wait_frame_inner fuel' amqp_time_infinite;
      if channel =? frame_channel f then mret f
      else _ ← amqp_queue_frame f; wait_on_channel fuel' channel
  end.
Definition amqp_simple_wait_frame_on_channel (fuel : nat) (channel : Z) : C frame :=
  q ← gets (@queued_frames M N);
  match find_queued channel q with
  | Some (f, q') => _ ← modify (set_queue q'); mret f
  | None => wait_on_channel fuel channel
  end.

(** ** Requests and replies *)

Definition amqp_id_in_reply_list (expected : Z) (list : list Z) : bool := existsb (Z.eqb expected) list.

Definition amqp_simple_wait_method_list (fuel : nat) (expected_channel : Z) (expected_methods : list Z) (deadline : Z)
    : C (Z * struct) :=
  tvp ← on_clock (amqp_time_tv_until deadline);
  f ← amqp_simple_wait_frame_noblock fuel tvp;
  match f with
  | F_method channel id decoded =>
      if (expected_channel =? channel) && amqp_id_in_reply_list id expected_methods then mret (id, decoded)
      else throw (Status AMQP_STATUS_WRONG_METHOD)
  | _ => throw (Status AMQP_STATUS_WRONG_METHOD)
  end.
Definition amqp_simple_wait_method (fuel : nat) (expected_channel expected_method : Z) : C (Z * struct) :=
  amqp_simple_wait_method_list fuel expected_channel [expected_method] amqp_time_infinite.

(** Is the frame for this request: an expected reply, or the channel or the
    connection is closed? *)
Definition concerns (channel : Z) (expected_reply_ids : list Z) (f : frame) : bool :=
  match f with
  | F_method c id _ =>
      ((c =? channel) && (amqp_id_in_reply_list id expected_reply_ids || (id =? AMQP_CHANNEL_CLOSE_METHOD))) ||
      ((c =? 0) && (id =? AMQP_CONNECTION_CLOSE_METHOD))
  | _ => false
  end.
Fixpoint rpc_wait (fuel : nat) (channel : Z) (expected_reply_ids : list Z) (deadline : Z) : C rpc_reply :=
  match fuel with
  | O => throw OutOfFuel
  | S fuel' =>
      r ← c_status (wait_frame_inner fuel' deadline);
      match r with
      | inl status =>
          _ ← (if status =? AMQP_STATUS_TIMEOUT then force_close else mret tt);
          mret (AMQP_RESPONSE_LIBRARY_EXCEPTION status)
      | inr f =>
          if concerns channel expected_reply_ids f then
            match f with
            | F_method _ id decoded =>
                mret (if amqp_id_in_reply_list id expected_reply_ids then AMQP_RESPONSE_NORMAL id decoded
                      else AMQP_RESPONSE_SERVER_EXCEPTION id decoded)
            | _ => throw (Fault Aborted)
            end
          else
            e ← c_status (enqueue f);
            match e with
            | inl res => mret (AMQP_RESPONSE_LIBRARY_EXCEPTION res)
            | inr _ => rpc_wait fuel' channel expected_reply_ids deadline
            end
      end
  end.
Definition simple_rpc_inner (fuel : nat) (channel request_id : Z) (expected_reply_ids : list Z)
    (decoded_request_method : struct) (deadline : Z) : C rpc_reply :=
  r ← c_status (amqp_send_method fuel channel request_id decoded_request_method);
  match r with
  | inl status => mret (AMQP_RESPONSE_LIBRARY_EXCEPTION status)
  | inr _ => rpc_wait fuel channel expected_reply_ids deadline
  end.
Definition amqp_simple_rpc (fuel : nat) (channel request_id : Z) (expected_reply_ids : list Z)
    (decoded_request_method : struct) : C rpc_reply :=
  timeout ← gets (fun c : conn M N => rpc_timeout (c_api c));
  d ← c_status (on_clock (amqp_time_from_now timeout));
  match d with
  | inl res => mret (AMQP_RESPONSE_LIBRARY_EXCEPTION res)
  | inr deadline => simple_rpc_inner fuel channel request_id expected_reply_ids decoded_request_method deadline
  end.
Definition amqp_simple_rpc_decoded (fuel : nat) (channel request_id reply_id : Z) (decoded_request_method : struct)
    : C (option struct) :=
  res ← amqp_simple_rpc fuel channel request_id [reply_id] decoded_request_method;
  _ ← modify (fun c : conn M N => set_api (set_result res (c_api c)) c);
  mret (match res with AMQP_RESPONSE_NORMAL _ decoded => Some decoded | _ => None end).
Definition amqp_get_rpc_reply : C rpc_reply := gets (fun c : conn M N => most_recent_api_result (c_api c)).

(** ** The requests of amqp_api.c *)

Definition UINT16_MAX : Z := 2 ^ 16 - 1.
(** amqp_channel_close_t, which amqp_connection_close uses as well. *)
Definition close_request (code : Z) : struct :=
  list_to_map [("reply_code", VInt (u16 code)); ("reply_text", VBytes (dec_signed code)); ("class_id", VInt 0); ("method_id", VInt 0)].
Definition amqp_channel_close (fuel : nat) (channel code : Z) : C rpc_reply :=
  if (code <? 0) || (UINT16_MAX <? code) then mret (AMQP_RESPONSE_LIBRARY_EXCEPTION AMQP_STATUS_INVALID_PARAMETER)
  else amqp_simple_rpc fuel channel AMQP_CHANNEL_CLOSE_METHOD [AMQP_CHANNEL_CLOSE_OK_METHOD] (close_request code).
Definition amqp_connection_close (fuel : nat) (code : Z) : C rpc_reply :=
  if (code <? 0) || (UINT16_MAX <? code) then mret (AMQP_RESPONSE_LIBRARY_EXCEPTION AMQP_STATUS_INVALID_PARAMETER)
  else amqp_simple_rpc fuel 0 AMQP_CONNECTION_CLOSE_METHOD [AMQP_CONNECTION_CLOSE_OK_METHOD] (close_request code).
Definition amqp_basic_ack (fuel : nat) (channel delivery_tag multiple : Z) : C () :=
  amqp_send_method fuel channel AMQP_BASIC_ACK_METHOD
    (list_to_map [("delivery_tag", VInt delivery_tag); ("multiple", VInt multiple)]).
Definition amqp_basic_get (fuel : nat) (channel : Z) (queue : list Z) (no_ack : Z) : C rpc_reply :=
  res ← amqp_simple_rpc fuel channel AMQP_BASIC_GET_METHOD [AMQP_BASIC_GET_OK_METHOD; AMQP_BASIC_GET_EMPTY_METHOD]
          (list_to_map [("ticket", VInt 0); ("queue", VBytes queue); ("no_ack", VInt no_ack)]);
  _ ← modify (fun c : conn M N => set_api (set_result res (c_api c)) c);
  mret res.
Definition amqp_basic_reject (fuel : nat) (channel delivery_tag requeue : Z) : C () :=
  amqp_send_method fuel channel AMQP_BASIC_REJECT_METHOD
    (list_to_map [("delivery_tag", VInt delivery_tag); ("requeue", VInt requeue)]).
Definition amqp_basic_nack (fuel : nat) (channel delivery_tag multiple requeue : Z) : C () :=
  amqp_send_method fuel channel AMQP_BASIC_NACK_METHOD
    (list_to_map [("delivery_tag", VInt delivery_tag); ("multiple", VInt multiple); ("requeue", VInt requeue)]).
(** The timeouts: NULL is none. *)
Definition bad_timeout (timeout : option timeval) : bool :=
  match timeout with Some tv => (tv_sec tv <? 0) || (tv_usec tv <? 0) | None => false end.
Definition amqp_set_handshake_timeout (timeout : option timeval) : C () :=
  if bad_timeout timeout then throw (Status AMQP_STATUS_INVALID_PARAMETER)
  else modify (fun c : conn M N => set_api (let a := c_api c in
    mk_api (channel_max a) (most_recent_api_result a) (server_properties a) (client_properties a) timeout (rpc_timeout a)) c).
Definition amqp_set_rpc_timeout (timeout : option timeval) : C () :=
  if bad_timeout timeout then throw (Status AMQP_STATUS_INVALID_PARAMETER)
  else modify (fun c : conn M N => set_api (let a := c_api c in
    mk_api (channel_max a) (most_recent_api_result a) (server_properties a) (client_properties a) (handshake_timeout a) timeout) c).

(** ** Publishing *)

Definition publish_method (exchange routing_key : list Z) (mandatory immediate : Z) : struct :=
  list_to_map [("exchange", VBytes exchange); ("routing_key", VBytes routing_key); ("mandatory", VInt mandatory);
    ("immediate", VInt immediate); ("ticket", VInt 0)].
(** memset(&default_properties, 0, sizeof(default_properties)) *)
Definition default_properties : struct := {[ "_flags" := VInt 0 ]}.

(** The while loop over the body; every round takes a byte at least. *)
Fixpoint send_body (fuel rounds : nat) (channel usable_body_payload_size : Z) (body : list Z) (body_offset : Z) : C () :=
  if negb (body_offset <? zlen body) then mret tt
  else match rounds with
  | O => throw OutOfFuel
  | S rounds' =>
      let remaining := zlen body - body_offset in
      let len := if usable_body_payload_size <=? remaining then usable_body_payload_size else remaining in
      _ ← amqp_send_frame fuel (F_body channel (zslice body_offset len body));
      send_body fuel rounds' channel usable_body_payload_size body (body_offset + len)
  end.
Definition amqp_basic_publish (fuel : nat) (channel : Z) (exchange routing_key : list Z) (mandatory immediate : Z)
    (properties : option struct) (body : list Z) : C () :=
  c ← gets (@id (conn M N));
  let usable_body_payload_size := u64 (frame_max (c_input c) - (HEADER_SIZE + FOOTER_SIZE)) in
  r ← c_status (on_clock (amqp_time_has_past (next_recv_heartbeat c)));
  _ ← match r with
      | inr _ => mret tt
      | inl res =>
          if res =? AMQP_STATUS_TIMEOUT then
            e ← c_status (amqp_try_recv fuel);
            match e with
            | inl res => throw (Status (if res =? AMQP_STATUS_TIMEOUT then AMQP_STATUS_HEARTBEAT_TIMEOUT else res))
            | inr _ => mret tt
            end
          else if res =? AMQP_STATUS_TIMER_FAILURE then throw (Status res) else mret tt
      end;
  _ ← amqp_send_method fuel channel AMQP_BASIC_PUBLISH_METHOD (publish_method exchange routing_key mandatory immediate);
  let p := default default_properties properties in
  _ ← amqp_send_frame fuel (F_header channel AMQP_BASIC_CLASS (zlen body) [] p);
  send_body fuel (S (length body)) channel usable_body_payload_size body 0.
End connection.
