(* ===== verification/AmqpStream.v ===== *)
(** * Frames over a stream socket

    What the connection of [AmqpSocket] does over a socket that behaves like a
    stream ([StreamNet]): bytes arrive and leave in order, in pieces of any
    size, with waits and interrupted polls in between.  Frames come out as they
    were sent; a request gets its reply and keeps the other frames; a message
    is published as frames from which the receiver gets it back.  The theorems
    are about a connection without heartbeats and deadlines ([quiet]), so that
    the clock is not read. *)

From stdpp Require Import gmap strings.
From S2P Require Import Prelude CText Sshbuf AmqpMem AmqpCodec AmqpTable AmqpPools AmqpFraming AmqpConn AmqpTime AmqpSocket.
#[local] Open Scope list_scope.
#[local] Open Scope Z_scope.

(** [incoming]: what the peer has sent and recv has not given yet; [taken]:
    what send has accepted; [patience]: how many more times a call may say
    that the caller has to wait or was interrupted. *)
Class StreamNet (N : Type) `{Net N} := {
  up : N -> Prop;
  incoming : N -> list Z;
  taken : N -> list Z;
  patience : N -> Z;
  patience_nonneg n : 0 <= patience n;
  fd_law n : up n -> klass_get_sockfd n <> -1;
  recv_law n size : up n -> incoming n <> [] -> 0 < size ->
    exists r n', klass_recv size n = (inr r, n') /\ up n' /\ taken n' = taken n /\
    match r with
    | inr data => incoming n = data ++ incoming n' /\ 0 < zlen data <= size /\ patience n' <= patience n
    | inl res => res = AMQP_PRIVATE_STATUS_SOCKET_NEEDREAD /\ incoming n' = incoming n /\ patience n' < patience n
    end;
  send_law n buf : up n -> buf <> [] ->
    exists res n', klass_send buf n = (inr res, n') /\ up n' /\ incoming n' = incoming n /\
    (0 < res <= zlen buf /\ taken n' = taken n ++ ztake res buf /\ patience n' <= patience n \/
     res = AMQP_PRIVATE_STATUS_SOCKET_NEEDWRITE /\ taken n' = taken n /\ patience n' < patience n);
  poll_law n event timeout : up n ->
    exists r n', sys_poll (klass_get_sockfd n) event timeout n = (r, n') /\ up n' /\ incoming n' = incoming n /\ taken n' = taken n /\
    klass_get_sockfd n' = klass_get_sockfd n /\
    (r = PollReady /\ patience n' <= patience n \/ r = PollInterrupted /\ patience n' < patience n)
}.

(** The body of a message in pieces of at most [n] bytes. *)
Fixpoint chunks (rounds : nat) (n : Z) (body : list Z) : list (list Z) :=
  match rounds with
  | O => []
  | S rounds' => if zlen body =? 0 then [] else ztake n body :: chunks rounds' n (zdrop n body)
  end.
Lemma concat_chunks rounds n body : 0 < n -> zlen body <= Z.of_nat rounds -> concat (chunks rounds n body) = body.
Proof.
  intros Hn. revert body. induction rounds as [|r IH]; intros body Hr; cbn [chunks].
  - symmetry. apply zlen_0_nil. zlen_facts. lia.
  - destruct (Z.eqb_spec (zlen body) 0) as [E|E]; [by rewrite (zlen_0_nil _ E)|].
    cbn [concat]. rewrite IH; [apply ztake_zdrop|].
    destruct (Z.le_gt_cases n (zlen body)); [rewrite zlen_zdrop by lia|rewrite zdrop_all, zlen_nil by lia]; lia.
Qed.

Section stream.
Context {M N : Type} `{ChannelMemTotal M} `{StreamNet N}.
Context (fm : Z) (Hfm : 0 <= fm < 2 ^ 30).
Implicit Types (c : conn M N) (n : N).

(** Nothing but waiting happened. *)
Definition waited n n' : Prop :=
  up n' /\ incoming n' = incoming n /\ taken n' = taken n /\ patience n' <= patience n.

Lemma on_net_ok {A} (m : SE N dstop A) c a n : m (c_net c) = (inr a, n) -> on_net m c = (inr a, set_net n c).
Proof. unfold on_net. by intros ->. Qed.
Lemma on_net_bind {A B} (m : SE N dstop A) (k : A -> SE (conn M N) dstop B) c a n :
  m (c_net c) = (inr a, n) -> (on_net m ≫= k) c = k a (set_net n c).
Proof. intros E. by apply (SE_bind_ok _ _ _ a), on_net_ok. Qed.
Lemma c_status_ok {S A} (m : SE S dstop A) s a s' : m s = (inr a, s') -> c_status m s = (inr (inr a), s').
Proof. unfold c_status. by intros ->. Qed.

Lemma poll_ok fuel event n :
  up n -> patience n < Z.of_nat fuel ->
  exists n', amqp_poll fuel (klass_get_sockfd n) event amqp_time_infinite n = (inr tt, n') /\ waited n n'.
Proof.
  revert n. induction fuel as [|fuel IH]; intros n Hup Hf; [pose proof (patience_nonneg n); lia|].
  cbn [amqp_poll]. rewrite (SE_bind_ok _ _ n (inr (-1)) n) by done. change (-1 <? -1) with false. cbn iota.
  destruct (poll_law n event (-1) Hup) as (r & n' & Hr & Hup' & Hi & Ht & Hfd & Hc).
  rewrite (SE_bind_ok _ _ n r n') by (by rewrite Hr). destruct Hc as [[-> Hp]|[-> Hp]].
  - exists n'. done.
  - rewrite <- Hfd. destruct (IH n' Hup' ltac:(lia)) as (n'' & -> & (? & ? & ? & ?)).
    exists n''. split; [done|]. unfold waited. repeat split; try congruence. lia.
Qed.

(** ** Sending *)

Lemma try_send_ok fuel buf sent c :
  up (c_net c) -> buf <> [] -> patience (c_net c) + zlen buf < Z.of_nat fuel ->
  exists n', try_send_loop fuel buf amqp_time_infinite sent c = (inr (sent + zlen buf), set_net n' c) /\
    up n' /\ incoming n' = incoming (c_net c) /\ taken n' = taken (c_net c) ++ buf /\ patience n' <= patience (c_net c).
Proof.
  revert buf sent c. induction fuel as [|fuel IH]; intros buf sent c Hup Hb Hf;
    [pose proof (patience_nonneg (c_net c)); zlen_facts; lia|].
  cbn [try_send_loop]. destruct (send_law (c_net c) buf Hup Hb) as (res & n1 & Hs & Hup1 & Hi1 & [(Hk & Ht1 & Hp1)|(-> & Ht1 & Hp1)]).
  all: rewrite (on_net_bind _ _ _ _ _ Hs).
  - rewrite (proj2 (Z.ltb_lt _ _)) by lia. destruct (Z.eqb_spec (zlen buf - res) 0) as [E|E].
    + exists n1. replace res with (zlen buf) in * by lia. rewrite ztake_all in Ht1 by lia. done.
    + assert (Hz : zlen (zdrop res buf) = zlen buf - res) by (apply zlen_zdrop; lia).
      destruct (IH (zdrop res buf) (sent + res) (set_net n1 c)) as (n2 & -> & Hup2 & Hi2 & Ht2 & Hp2); [done| |cbn; lia|].
      { intros E'. rewrite E', zlen_nil in Hz. lia. }
      cbn [c_net set_net] in *. exists n2. rewrite Hz. repeat split; try congruence; [do 2 f_equal; lia| |lia].
      by rewrite Ht2, Ht1, <- app_assoc, ztake_zdrop.
  - change (0 <? AMQP_PRIVATE_STATUS_SOCKET_NEEDWRITE) with false. cbn iota. rewrite gets_bind. cbn [c_net set_net].
    rewrite (proj2 (Z.eqb_neq _ _) (fd_law n1 Hup1)).
    change (AMQP_PRIVATE_STATUS_SOCKET_NEEDWRITE =? AMQP_PRIVATE_STATUS_SOCKET_NEEDREAD) with false.
    rewrite Z.eqb_refl. cbn iota. zlen_facts.
    destruct (poll_ok fuel AMQP_SF_POLLOUT n1 Hup1 ltac:(lia)) as (n2 & Hpoll & (Hup2 & Hi2 & Ht2 & Hp2)).
    rewrite (SE_bind_ok _ _ _ _ _ (c_status_ok _ _ _ _ (on_net_ok _ (set_net n1 c) _ _ Hpoll))). cbn [c_net set_net] in *.
    destruct (IH buf sent (set_net n2 (set_net n1 c)) Hup2 Hb ltac:(cbn; lia)) as (n3 & -> & Hup3 & Hi3 & Ht3 & Hp3).
    cbn [c_net set_net] in *. exists n3. repeat split; try congruence. lia.
Qed.

(** No heartbeats, an outbound buffer for frames of [fm] bytes. *)
Definition quiet c : Prop :=
  heartbeat c = 0 /\ next_recv_heartbeat c = amqp_time_infinite /\ next_send_heartbeat c = amqp_time_infinite /\
  up (c_net c) /\ zlen (outbound_buffer c) = fm.

(** What a frame leaves in the outbound buffer, and what it does to the
    connection otherwise: the socket took its bytes. *)
Definition sent_bytes (bytes : list Z) c c' : Prop :=
  quiet c' /\ c_input c' = c_input c /\ c_mem c' = c_mem c /\ sock_inbound c' = sock_inbound c /\
  sock_inbound_offset c' = sock_inbound_offset c /\ queued_frames c' = queued_frames c /\
  incoming (c_net c') = incoming (c_net c) /\ taken (c_net c') = taken (c_net c) ++ bytes /\
  patience (c_net c') <= patience (c_net c).

Lemma send_loop_ok fuel bytes c :
  quiet c -> bytes <> [] -> patience (c_net c) + zlen bytes + 1 < Z.of_nat fuel ->
  exists c', send_loop fuel bytes amqp_time_infinite c = (inr tt, c') /\ sent_bytes bytes c c'.
Proof.
  intros (Hhb & Hnr & Hns & Hup & Hob) Hb Hf. destruct fuel as [|fuel]; [pose proof (patience_nonneg (c_net c)); zlen_facts; lia|].
  cbn [send_loop]. rewrite gets_bind, Hnr. unfold amqp_time_first. rewrite Z.ltb_irrefl.
  destruct (try_send_ok fuel bytes 0 c Hup Hb ltac:(lia)) as (n' & Hs & Hup' & Hi & Ht & Hp).
  unfold amqp_try_send. rewrite (SE_bind_ok _ _ _ _ _ Hs). rewrite Z.add_0_l, Z.eqb_refl. cbn [negb].
  rewrite gets_bind. cbn [heartbeat set_net]. rewrite Hhb.
  eexists. split; [reflexivity|]. unfold sent_bytes, quiet. cbn. by rewrite Hnr, Hob.
Qed.

Lemma send_frame_ok fuel f c :
  quiet c -> valid_frame f = true -> frame_size f <= fm -> patience (c_net c) + fm + 1 < Z.of_nat fuel ->
  exists c', amqp_send_frame fuel f c = (inr tt, c') /\ sent_bytes (frame_bytes f) c c'.
Proof.
  intros Hq Hv Hsz Hf. pose proof Hq as (Hhb & Hnr & Hns & Hup & Hob). pose proof (frame_size_ge f).
  destruct (frame_to_bytes_ok f (outbound_buffer c) Hv ltac:(lia) ltac:(lia)) as (buf' & Hb & Hlb).
  unfold amqp_send_frame, amqp_send_frame_inner.
  assert (E : on_outbound (amqp_frame_to_bytes f) c = (inr (frame_bytes f), set_outbound buf' c)) by (unfold on_outbound; by rewrite Hb).
  rewrite (SE_bind_ok _ _ _ _ _ E).
  destruct (send_loop_ok fuel (frame_bytes f) (set_outbound buf' c)) as (c' & -> & Hs).
  - unfold quiet. cbn. rewrite Hlb. done.
  - intros E'. pose proof (zlen_frame_bytes f) as Hz. rewrite E', zlen_nil in Hz. lia.
  - rewrite zlen_frame_bytes. cbn. lia.
  - exists c'. split; [done|]. exact Hs.
Qed.

(** ** Receiving *)

(** What arrived with the last recv and is not used yet, and what is still to
    be received. *)
Definition unread c : list Z := zdrop (sock_inbound_offset c) (sock_inbound c).
(** The peer has sent the frames [fs]; [k] bytes of the first one are already
    in the buffer of the connection. *)
Definition fits (f : frame) : Prop := valid_frame f = true /\ frame_size f <= fm.
Definition receiving (k : Z) (fs : list frame) c : Prop :=
  quiet c /\ cm_inv (c_mem c) /\ Forall fits fs /\
  0 <= sock_inbound_offset c <= zlen (sock_inbound c) /\ zlen (sock_inbound c) < 2 ^ 31 /\
  zdrop k (concat (map frame_bytes fs)) = unread c ++ incoming (c_net c) /\
  match fs with [] => k = 0 /\ idle fm (c_input c) | f :: _ => 0 <= k < frame_size f /\ at_frame fm f k (c_input c) end.
(** Enough fuel: every round takes a byte from the buffer or fills it. *)
Definition rounds c : Z := 2 * zlen (incoming (c_net c)) + zlen (unread c) + patience (c_net c) + 2.

(** The rest of the connection. *)
Definition same_queue c c' : Prop :=
  queued_frames c' = queued_frames c /\ taken (c_net c') = taken (c_net c).

Lemma recv_ok fuel c :
  up (c_net c) -> heartbeat c = 0 -> incoming (c_net c) <> [] -> patience (c_net c) < Z.of_nat fuel ->
  exists data n', recv_with_timeout fuel amqp_time_infinite c =
      (inr tt, set_recv_heartbeat amqp_time_infinite (set_inbound data 0 (set_net n' c))) /\
    incoming (c_net c) = data ++ incoming n' /\ 0 < zlen data < 2 ^ 31 /\ up n' /\ taken n' = taken (c_net c) /\
    patience n' <= patience (c_net c).
Proof.
  revert c. induction fuel as [|fuel IH]; intros c Hup Hhb Hi Hf; [pose proof (patience_nonneg (c_net c)); lia|].
  cbn [recv_with_timeout].
  destruct (recv_law (c_net c) AMQP_INITIAL_INBOUND_SOCK_BUFFER_SIZE Hup Hi ltac:(done)) as ([res|data] & n1 & Hr & Hup1 & Ht1 & Hc).
  all: rewrite (on_net_bind _ _ _ _ _ Hr).
  - destruct Hc as (-> & Hi1 & Hp1). rewrite gets_bind. cbn [c_net set_net].
    rewrite (proj2 (Z.eqb_neq _ _) (fd_law n1 Hup1)), Z.eqb_refl.
    destruct (poll_ok fuel AMQP_SF_POLLIN n1 Hup1 ltac:(lia)) as (n2 & Hpoll & (Hup2 & Hi2 & Ht2 & Hp2)).
    rewrite (on_net_bind _ _ (set_net n1 c) _ _ Hpoll). cbn [c_net set_net] in *.
    destruct (IH (set_net n2 (set_net n1 c)) Hup2 Hhb ltac:(cbn; congruence) ltac:(cbn; lia)) as (data & n3 & Hrec & Hi3 & Hd & Hup3 & Ht3 & Hp3).
    cbn [c_net set_net] in *. exists data, n3. rewrite Hrec. repeat split; try congruence; lia.
  - destruct Hc as (Hi1 & Hd & Hp1). rewrite modify_bind, gets_bind. cbn [heartbeat set_inbound set_net]. rewrite Hhb.
    exists data, n1. unfold AMQP_INITIAL_INBOUND_SOCK_BUFFER_SIZE in Hd. repeat split; try congruence; lia.
Qed.

Lemma has_past_never c : c_status (on_clock (amqp_time_has_past amqp_time_infinite)) c = (inr (inr tt), c).
Proof. by destruct c. Qed.

(** Waiting for bytes: the buffer is filled. *)
Lemma wait_bytes_ok fuel k fs c :
  receiving k fs c -> unread c = [] -> fs <> [] -> rounds c <= Z.of_nat fuel ->
  exists c', wait_bytes fuel amqp_time_infinite c = (inr tt, c') /\ receiving k fs c' /\ unread c' <> [] /\
    same_queue c c' /\ rounds c' < rounds c.
Proof.
  intros ((Hhb & Hnr & Hns & Hup & Hob) & Hm & Hfs & Hoff & Hlen & Hstream & Hfirst) Hun Hne Hf.
  unfold rounds in *. rewrite Hun in *. pose proof (patience_nonneg (c_net c)). destruct fuel as [|fuel]; [zlen_facts; lia|].
  cbn [wait_bytes]. rewrite gets_bind. cbv beta. change (id c) with c. rewrite Hns, (SE_bind_ok _ _ _ _ _ (has_past_never c)).
  cbn iota. rewrite (SE_bind_ret_l tt), gets_bind. cbv beta. change (id c) with c. rewrite Hnr, Hns. unfold amqp_time_first. rewrite Z.ltb_irrefl, Z.ltb_irrefl.
  assert (Hi : incoming (c_net c) <> []).
  { destruct fs as [|f fs]; [done|]. destruct Hfirst as [Hk _]. intros E. rewrite E in Hstream.
    apply (f_equal zlen) in Hstream. cbn [map concat app] in Hstream. zlen_facts.
    rewrite zlen_zdrop, zlen_app, zlen_frame_bytes, zlen_nil in Hstream; rewrite ?zlen_app, ?zlen_frame_bytes; zlen_facts; lia. }
  destruct (recv_ok fuel c Hup Hhb Hi) as (data & n' & Hrec & Hi' & Hd & Hup' & Ht' & Hp').
  { zlen_facts. rewrite zlen_nil in Hf. lia. }
  rewrite (SE_bind_ok _ _ _ _ _ (c_status_ok _ _ _ _ Hrec)). cbn iota.
  eexists. split; [reflexivity|]. unfold receiving, quiet, unread, same_queue. cbn. rewrite (zdrop_0 0) by lia.
  apply (f_equal zlen) in Hi' as Hz. rewrite zlen_app in Hz. rewrite zlen_nil in *. zlen_facts.
  repeat match goal with |- _ /\ _ => split end; try done; try lia.
  - by rewrite Hstream, Hi'.
  - intros ->. destruct Hd as [Hd _]. by cbn in Hd.
Qed.
(** One piece of the first frame, as far as the buffer holds it. *)
Definition next_piece (k : Z) (f : frame) c : Z := Z.min (zlen (unread c)) (frame_size f - k).

Lemma stream_piece k f (rest : list Z) (u i : list Z) m :
  0 <= k <= frame_size f -> m = Z.min (zlen u) (frame_size f - k) -> zdrop k (frame_bytes f ++ rest) = u ++ i ->
  ztake m u = zslice k m (frame_bytes f) /\ zdrop (k + m) (frame_bytes f ++ rest) = zdrop m u ++ i.
Proof.
  intros Hk -> Hs. zlen_facts. pose proof (zlen_frame_bytes f) as Hz. split.
  - rewrite <- (ztake_app_l _ u i) by lia. rewrite <- Hs, zdrop_app_l by lia.
    apply ztake_app_l. rewrite zlen_zdrop by lia. lia.
  - rewrite <- zdrop_zdrop, Hs by lia. by rewrite zdrop_app_l by lia.
Qed.

Lemma consume_frame_ok k f fs c :
  receiving k (f :: fs) c -> unread c <> [] ->
  exists c', consume_one_frame c = (inr (so_far f (k + next_piece k f c)), c') /\
    (if k + next_piece k f c <? frame_size f then receiving (k + next_piece k f c) (f :: fs) c' else receiving 0 fs c') /\
    same_queue c c' /\ rounds c' < rounds c.
Proof.
  intros (Hq & Hm & Hfs & Hoff & Hlen & Hstream & Hk & Hat) Hun. apply Forall_cons in Hfs as Hfs'. destruct Hfs' as [[Hv Hsz] Hfs'].
  assert (Hz : zlen (unread c) = zlen (sock_inbound c) - sock_inbound_offset c) by (apply zlen_zdrop; lia).
  assert (Hpos : 0 < zlen (unread c)) by (destruct (unread c); [done|rewrite zlen_cons; zlen_facts; lia]).
  cbn [map concat] in Hstream. destruct (stream_piece k f _ _ _ _ ltac:(lia) eq_refl Hstream) as [Hpiece Hnext].
  unfold next_piece. set (m := Z.min (zlen (unread c)) (frame_size f - k)) in *. assert (Hmr : 0 < m) by lia.
  destruct (handle_input_step fm Hfm f k (unread c) (c_input c) (c_mem c) Hv Hsz ltac:(lia) Hat Hm ltac:(lia) Hpiece)
    as (i' & mem' & Hin & Hprog & Hm').
  fold m in Hin, Hprog. unfold consume_one_frame. rewrite gets_bind. cbv beta. change (id c) with c. fold (unread c).
  assert (Hon : on_input (amqp_handle_input (unread c)) c = (inr (m, so_far f (k + m)), set_input_mem i' mem' c)).
  { unfold on_input. by rewrite Hin. }
  rewrite (SE_bind_ok _ _ _ _ _ Hon), (proj2 (Z.ltb_ge m 0)), modify_bind by lia.
  set (c' := set_inbound _ _ _). exists c'. split; [done|].
  assert (Hun' : unread c' = zdrop m (unread c)) by (unfold unread; cbn; rewrite zdrop_zdrop by lia; done).
  assert (Hz' : zlen (unread c') = zlen (unread c) - m) by (rewrite Hun'; apply zlen_zdrop; lia).
  split; [|split; [done|unfold rounds; rewrite Hz'; cbn; lia]].
  unfold progress in Hprog. destruct (Z.ltb_spec (k + m) (frame_size f)) as [Hlt|Hge].
  all: unfold receiving; rewrite Hun'; cbn; repeat (split; [done || lia|]).
  - unfold at_frame. by rewrite (proj2 (Z.eqb_neq _ _)) by lia.
  - assert (Hend : k + m = frame_size f) by lia. rewrite Hend, zdrop_app_exact in Hnext by (by rewrite zlen_frame_bytes).
    split; [by rewrite zdrop_0|]. destruct fs as [|g fs]; [done|]. split; [pose proof (frame_size_ge g); lia|done].
Qed.

Lemma same_queue_trans c1 c2 c3 : same_queue c1 c2 -> same_queue c2 c3 -> same_queue c1 c3.
Proof. intros [Hq Ht] [Hq' Ht']. split; congruence. Qed.

(** A call on the memory that keeps its invariant changes nothing else. *)
Lemma on_memory_ok {A} k fs (m : SE M fault A) a mem' c :
  receiving k fs c -> m (c_mem c) = (inr a, mem') -> cm_inv mem' ->
  exists c', on_memory m c = (inr a, c') /\ c_mem c' = mem' /\ receiving k fs c' /\ same_queue c c' /\ rounds c' = rounds c /\
    c_input c' = c_input c.
Proof.
  intros (Hq & Hm & Hrest) Hr Hm'. exists (set_input_mem (c_input c) mem' c).
  unfold on_memory, on_input, on_mem. rewrite Hr. repeat (split; [done|]). done.
Qed.
Lemma release_ok k fs channel c :
  receiving k fs c -> exists c', amqp_maybe_release_buffers_on_channel channel c = (inr tt, c') /\ receiving k fs c' /\
    same_queue c c' /\ rounds c' = rounds c.
Proof.
  intros Hc. unfold amqp_maybe_release_buffers_on_channel. rewrite gets_bind. cbv beta. change (id c) with c.
  destruct (amqp_release_buffers_ok c); [|by exists c]. cbn [negb].
  destruct (existsb _ _); [by exists c|].
  destruct (cm_recycle_ok channel (c_mem c)) as (mem' & Hr & Hm'); [apply Hc|].
  destruct (on_memory_ok k fs _ _ _ c Hc Hr Hm') as (c' & Hx & _ & Hc' & Hs & Hro & _). by exists c'.
Qed.

Definition is_heartbeat (f : frame) : bool := match f with F_heartbeat _ => true | _ => false end.
Lemma data_in_buffer_spec k fs c : receiving k fs c -> amqp_data_in_buffer c = negb (bool_decide (unread c = [])).
Proof.
  intros (_ & _ & _ & Hoff & _). unfold amqp_data_in_buffer.
  assert (Hz : zlen (unread c) = zlen (sock_inbound c) - sock_inbound_offset c) by (apply zlen_zdrop; lia).
  case_bool_decide as E; cbn [negb].
  - rewrite E, zlen_nil in Hz. apply Z.ltb_ge. lia.
  - apply Z.ltb_lt. destruct (unread c); [done|]. rewrite zlen_cons in Hz. zlen_facts. lia.
Qed.

(** Waiting gives the next frame that is not a heartbeat. *)
Lemma wait_frame_ok fuel k hbs f rest c :
  receiving k (hbs ++ f :: rest) c -> forallb is_heartbeat hbs = true -> is_heartbeat f = false -> rounds c < Z.of_nat fuel ->
  exists c', wait_frame_inner fuel amqp_time_infinite c = (inr f, c') /\ receiving 0 rest c' /\ same_queue c c' /\
    rounds c' <= rounds c.
Proof.
  revert k hbs c. induction fuel as [|fuel IH]; intros k hbs c Hc Hh Hnf Hf.
  { unfold rounds in Hf. pose proof (patience_nonneg (c_net c)). zlen_facts. lia. }
  cbn [wait_frame_inner]. rewrite gets_bind. cbv beta. change (id c) with c. rewrite (data_in_buffer_spec _ _ _ Hc).
  case_bool_decide as Hun; cbn [negb].
  - destruct (wait_bytes_ok fuel _ _ c Hc Hun ltac:(by destruct hbs) ltac:(lia)) as (c' & Hw & Hc' & _ & Hs & Hr).
    rewrite (SE_bind_ok _ _ _ _ _ Hw). destruct (IH _ _ c' Hc' Hh Hnf ltac:(lia)) as (c'' & -> & Hc'' & Hs' & Hr').
    exists c''. repeat (split; [done|]). split; [by eapply same_queue_trans|lia].
  - assert (Hg : exists g fs', hbs ++ f :: rest = g :: fs') by (destruct hbs; eauto). destruct Hg as (g & fs' & Hg).
    rewrite Hg in Hc. destruct (consume_frame_ok k g fs' c Hc Hun) as (c1 & Hx & Hc1 & Hs1 & Hr1).
    rewrite (SE_bind_ok _ _ _ _ _ Hx). unfold so_far.
    destruct (_ <? _).
    + rewrite <- Hg in Hc1. destruct (IH _ _ c1 Hc1 Hh Hnf ltac:(lia)) as (c'' & -> & Hc'' & Hs' & Hr').
      exists c''. repeat (split; [done|]). split; [by eapply same_queue_trans|lia].
    + destruct Hc as (_ & _ & [[Hv _] _]%Forall_cons & _). destruct hbs as [|h hbs]; cbn in Hg, Hh; injection Hg as <- <-.
      * exists c1. unfold valid_frame in Hv. destruct f; try (by rewrite andb_false_r in Hv); try done; repeat (split; [done|]); lia.
      * apply andb_prop in Hh as [Hh1 Hh2]. destruct h; try done.
        destruct (release_ok 0 _ 0 c1 Hc1) as (c2 & Hrel & Hc2 & Hs2 & Hr2). rewrite (SE_bind_ok _ _ _ _ _ Hrel).
        destruct (IH _ _ c2 Hc2 Hh2 Hnf ltac:(lia)) as (c'' & -> & Hc'' & Hs' & Hr').
        exists c''. repeat (split; [done|]). split; [eauto using same_queue_trans|lia].
Qed.

(** ** A stream of frames *)

(** So many frames, one after the other. *)
Fixpoint receive_frames (fuel count : nat) : SE (conn M N) dstop (list frame) :=
  match count with
  | O => mret []
  | S count' =>
      f ← amqp_simple_wait_frame fuel;
      fs ← receive_frames fuel count';
      mret (f :: fs)
  end.

Lemma simple_wait_ok fuel k hbs f rest c :
  receiving k (hbs ++ f :: rest) c -> queued_frames c = [] -> forallb is_heartbeat hbs = true -> is_heartbeat f = false ->
  rounds c < Z.of_nat fuel ->
  exists c', amqp_simple_wait_frame fuel c = (inr f, c') /\ receiving 0 rest c' /\ same_queue c c' /\ rounds c' <= rounds c.
Proof.
  intros Hc Hq Hh Hf Hr. unfold amqp_simple_wait_frame, amqp_simple_wait_frame_noblock.
  rewrite (SE_bind_ok _ _ c amqp_time_infinite c) by by destruct c. rewrite gets_bind, Hq.
  by apply (wait_frame_ok fuel k hbs).
Qed.

(** The frames before the next one that is not a heartbeat. *)
Lemma split_heartbeats fs :
  filter (fun f => is_heartbeat f = false) fs = [] \/
  exists hbs f rest, fs = hbs ++ f :: rest /\ forallb is_heartbeat hbs = true /\ is_heartbeat f = false.
Proof.
  induction fs as [|g fs IH]; [by left|]. rewrite filter_cons. destruct (is_heartbeat g) eqn:Eg.
  - rewrite decide_False by done. destruct IH as [IH|(hbs & f & rest & -> & Hh & Hf)]; [by left|right].
    exists (g :: hbs), f, rest. cbn. by rewrite Eg.
  - right. by exists [], g, fs.
Qed.
Lemma filter_heartbeats hbs f rest :
  forallb is_heartbeat hbs = true -> is_heartbeat f = false ->
  filter (fun f => is_heartbeat f = false) (hbs ++ f :: rest) = f :: filter (fun f => is_heartbeat f = false) rest.
Proof.
  intros Hh Hf. induction hbs as [|h hbs IH]; cbn [app].
  - by rewrite filter_cons, decide_True.
  - cbn in Hh. apply andb_prop in Hh as [Hh1 Hh2]. rewrite filter_cons, decide_False by (by rewrite Hh1). by apply IH.
Qed.

Lemma receive_all fuel k fs c :
  receiving k fs c -> queued_frames c = [] -> rounds c < Z.of_nat fuel ->
  let expected := filter (fun f => is_heartbeat f = false) fs in
  exists c', receive_frames fuel (length expected) c = (inr expected, c') /\ cm_inv (c_mem c') /\ quiet c' /\ same_queue c c'.
Proof.
  remember (length (filter (fun f => is_heartbeat f = false) fs)) as len eqn:Hlen. revert k fs c Hlen.
  induction len as [|len IH]; intros k fs c Hlen Hc Hq Hr; cbn zeta.
  - symmetry in Hlen. apply length_zero_iff_nil in Hlen. rewrite Hlen. exists c. split; [done|]. by destruct Hc as (? & ? & _).
  - destruct (split_heartbeats fs) as [E|(hbs & f & rest & -> & Hh & Hf)]; [by rewrite E in Hlen|].
    rewrite filter_heartbeats in * by done. cbn [length] in Hlen. injection Hlen as Hlen.
    destruct (simple_wait_ok fuel k hbs f rest c Hc Hq Hh Hf Hr) as (c1 & Hx & Hc1 & Hs1 & Hr1).
    destruct (IH 0 rest c1 Hlen Hc1 ltac:(destruct Hs1; congruence) ltac:(lia)) as (c2 & Hy & Hm2 & Hq2 & Hs2).
    exists c2. cbn [length receive_frames]. rewrite (SE_bind_ok _ _ _ _ _ Hx), (SE_bind_ok _ _ _ _ _ Hy). split; [done|].
    repeat (split; [done|]). by eapply same_queue_trans.
Qed.

(** ** Requests and replies *)

Lemma alloc_link_ok k fs first second channel c :
  receiving k fs c -> 0 <= channel < 2 ^ 16 -> 0 < first < 2 ^ 62 -> 0 < second < 2 ^ 62 ->
  exists c', alloc_link first second channel c = (inr true, c') /\ receiving k fs c' /\ same_queue c c' /\ rounds c' = rounds c.
Proof.
  intros Hc Hch Hf Hs. assert (Hm : cm_inv (c_mem c)) by apply Hc.
  assert (Hmax : frame_max (c_input c) = fm).
  { destruct Hc as (_ & _ & _ & _ & _ & _ & Hx). unfold at_frame, idle, partial in Hx.
    destruct fs; [tauto|]. destruct (k =? 0); tauto. }
  unfold alloc_link. rewrite gets_bind, Hmax.
  destruct (cm_pool_ok fm channel (c_mem c) Hm Hch ltac:(lia)) as (r & mem1 & Hp & Hm1 & Hh1).
  destruct (cm_pool_total fm channel (c_mem c) Hm) as (mem1' & Hp'). rewrite Hp in Hp'. injection Hp' as -> _. specialize (Hh1 eq_refl).
  destruct (on_memory_ok k fs _ _ _ c Hc Hp Hm1) as (c1 & E1 & <- & Hc1 & Hs1 & Hr1 & _).
  rewrite (SE_bind_ok _ _ _ _ _ E1). cbn [negb].
  assert (Halloc : forall (n : Z) c, 0 < n < 2 ^ 62 -> receiving k fs c -> cm_has channel (c_mem c) ->
    exists p c', on_memory (@em_pool_alloc M (cm_entries channel) n) c = (inr (Some p), c') /\ cm_has channel (c_mem c') /\
      receiving k fs c' /\ same_queue c c' /\ rounds c' = rounds c).
  { intros n d Hn Hd Hh. assert (Hi : @em_inv _ _ (cm_entries_ok channel) [] (c_mem d)) by (apply cm_entries_inv; [apply Hd|done]).
    destruct (@em_pool_alloc_total _ _ _ (cm_entries_total channel) [] (c_mem d) n Hi ltac:(lia)) as (p & mem' & Hx).
    destruct (@em_pool_alloc_ok _ _ (cm_entries_ok channel) [] (c_mem d) n Hi ltac:(lia)) as (r & mem'' & Hx' & Hi').
    rewrite Hx in Hx'. injection Hx' as <- <-. apply cm_inv_entries in Hi' as [Hm' Hh'].
    destruct (on_memory_ok k fs _ _ _ d Hd Hx Hm') as (d' & E & Emem & Hd' & Hs' & Hr' & _). exists p, d'. rewrite Emem. done. }
  destruct (Halloc first c1 Hf Hc1 Hh1) as (p & c2 & E2 & Hh2 & Hc2 & Hs2 & Hr2). rewrite (SE_bind_ok _ _ _ _ _ E2).
  destruct (Halloc second c2 Hs Hc2 Hh2) as (q & c3 & E3 & Hh3 & Hc3 & Hs3 & Hr3). rewrite (SE_bind_ok _ _ _ _ _ E3).
  exists c3. split; [done|]. split; [done|]. split; [eauto using same_queue_trans|congruence].
Qed.

Lemma enqueue_ok k fs f c :
  receiving k fs c -> 0 <= frame_channel f < 2 ^ 16 ->
  exists c', enqueue f c = (inr tt, c') /\ receiving k fs c' /\ queued_frames c' = queued_frames c ++ [f] /\
    taken (c_net c') = taken (c_net c) /\ rounds c' = rounds c.
Proof.
  intros Hc Hch. destruct (alloc_link_ok k fs sizeof_frame sizeof_link _ c Hc Hch) as (c1 & E & Hc1 & [Hq Ht] & Hr); [done..|].
  unfold enqueue. rewrite (SE_bind_ok _ _ _ _ _ E). cbn [negb]. eexists. split; [reflexivity|].
  split; [exact Hc1|]. cbn. by rewrite Hq.
Qed.

Definition reply_of (expected_reply_ids : list Z) (f : frame) : rpc_reply :=
  match f with
  | F_method _ id decoded =>
      if amqp_id_in_reply_list id expected_reply_ids then AMQP_RESPONSE_NORMAL id decoded
      else AMQP_RESPONSE_SERVER_EXCEPTION id decoded
  | _ => AMQP_RESPONSE_LIBRARY_EXCEPTION AMQP_STATUS_OK
  end.

(** The reply is the first frame that concerns the request; the frames before
    it, heartbeats apart, are kept in the queue. *)
Lemma rpc_wait_ok fuel channel ids k before f rest c :
  receiving k (before ++ f :: rest) c -> Forall (fun g => concerns channel ids g = false) before ->
  concerns channel ids f = true -> rounds c + Z.of_nat (length before) + 1 < Z.of_nat fuel ->
  exists c', rpc_wait fuel channel ids amqp_time_infinite c = (inr (reply_of ids f), c') /\ receiving 0 rest c' /\
    queued_frames c' = queued_frames c ++ filter (fun f => is_heartbeat f = false) before /\
    taken (c_net c') = taken (c_net c).
Proof.
  revert k before c. induction fuel as [|fuel IH]; intros k before c Hc Hb Hf Hr.
  { unfold rounds in Hr. pose proof (patience_nonneg (c_net c)). zlen_facts. lia. }
  cbn [rpc_wait]. assert (Hnh : is_heartbeat f = false) by (by destruct f).
  destruct (split_heartbeats before) as [E|(hbs & g & more & -> & Hh & Hg)].
  - assert (Hh : forallb is_heartbeat before = true).
    { clear -E. induction before as [|h before IH]; [done|]. rewrite filter_cons in E. cbn.
      destruct (is_heartbeat h) eqn:Eh; [|by rewrite decide_True in E]. rewrite decide_False in E by done. by apply IH. }
    destruct (wait_frame_ok fuel k before f rest c Hc Hh Hnh ltac:(lia)) as (c1 & Hw & Hc1 & [Hq Ht] & _).
    rewrite (SE_bind_ok _ _ _ _ _ (c_status_ok _ _ _ _ Hw)). cbn iota. rewrite Hf, E, app_nil_r.
    exists c1. destruct f; try discriminate Hf. done.
  - rewrite <- app_assoc in Hc. cbn [app] in Hc. rewrite length_app in Hr. cbn [length] in Hr.
    destruct (wait_frame_ok fuel k hbs g (more ++ f :: rest) c Hc Hh Hg ltac:(lia)) as (c1 & Hw & Hc1 & [Hq Ht] & Hr1).
    rewrite (SE_bind_ok _ _ _ _ _ (c_status_ok _ _ _ _ Hw)). cbn iota.
    apply Forall_app in Hb as [_ [Hcg Hmore]%Forall_cons]. rewrite Hcg.
    assert (Hch : 0 <= frame_channel g < 2 ^ 16).
    { destruct Hc as (_ & _ & [_ [[Hv _] _]%Forall_cons]%Forall_app & _). by apply valid_frame_channel. }
    destruct (enqueue_ok 0 _ g c1 Hc1 Hch) as (c2 & He & Hc2 & Hq2 & Ht2 & Hr2).
    rewrite (SE_bind_ok _ _ _ _ _ (c_status_ok _ _ _ _ He)). cbn iota.
    destruct (IH 0 more c2 Hc2 Hmore Hf ltac:(lia)) as (c3 & Hx & Hc3 & Hq3 & Ht3).
    exists c3. rewrite Hx, filter_heartbeats by done. repeat (split; [done|]). split; [|congruence].
    rewrite Hq3, Hq2, Hq, <- app_assoc. done.
Qed.

(** ** Publishing *)

(** The frames of a message: the method, the header with the properties, the
    body in pieces. *)
Definition publish_header (channel : Z) (properties : struct) (body : list Z) : frame :=
  F_header channel AMQP_BASIC_CLASS (zlen body) (enc_properties (class_properties AMQP_BASIC_CLASS) properties) properties.
Definition publish_frames (channel : Z) (exchange routing_key : list Z) (mandatory immediate : Z) (properties : struct)
    (body : list Z) : list frame :=
  F_method channel AMQP_BASIC_PUBLISH_METHOD (publish_method exchange routing_key mandatory immediate) ::
  publish_header channel properties body ::
  map (F_body channel) (chunks (S (length body)) (fm - (HEADER_SIZE + FOOTER_SIZE)) body).

Lemma sent_trans b1 b2 c1 c2 c3 : sent_bytes b1 c1 c2 -> sent_bytes b2 c2 c3 -> sent_bytes (b1 ++ b2) c1 c3.
Proof.
  intros (Hq & Ei & Em & Es & Eo & Eq & En & Et & Ep) (Hq' & Ei' & Em' & Es' & Eo' & Eq' & En' & Et' & Ep').
  unfold sent_bytes. rewrite Et', Et, <- app_assoc. repeat split; try congruence; try apply Hq'. lia.
Qed.

Lemma chunks_bytes rounds (n : Z) body : Forall is_u8 body -> Forall (Forall is_u8) (chunks rounds n body).
Proof.
  revert body. induction rounds as [|r IH]; intros body Hb; cbn [chunks]; [constructor|].
  destruct (_ =? _); [constructor|]. constructor; [by apply Forall_ztake|apply IH; by apply Forall_zdrop].
Qed.
Lemma chunks_small rounds (n : Z) body : 0 <= n -> Forall (fun b => zlen b <= n) (chunks rounds n body).
Proof.
  intros Hn. revert body. induction rounds as [|r IH]; intros body; cbn [chunks]; [constructor|].
  destruct (_ =? _); [constructor|]. constructor; [|apply IH].
  destruct (Z.le_gt_cases n (zlen body)); [rewrite zlen_ztake by lia|rewrite ztake_all by lia]; lia.
Qed.

Lemma body_fits channel (n : Z) b :
  0 <= channel < 2 ^ 16 -> n = fm - (HEADER_SIZE + FOOTER_SIZE) -> Forall is_u8 b -> zlen b <= n -> fits (F_body channel b).
Proof.
  intros Hch -> Hb Hl. unfold HEADER_SIZE, FOOTER_SIZE in Hl. unfold fits, valid_frame, frame_size, HEADER_SIZE, FOOTER_SIZE. cbn [frame_channel frame_payload]. split; [|lia].
  apply andb_true_intro. split; [by apply in_range_spec|by apply is_bytes_spec].
Qed.

Lemma send_body_ok fuel rounds channel body off c :
  quiet c -> 8 < fm -> 0 <= channel < 2 ^ 16 -> Forall is_u8 body -> 0 <= off <= zlen body ->
  zlen body - off <= Z.of_nat rounds -> patience (c_net c) + fm + 1 < Z.of_nat fuel ->
  exists c', send_body fuel rounds channel (fm - (HEADER_SIZE + FOOTER_SIZE)) body off c = (inr tt, c') /\
    sent_bytes (concat (map frame_bytes (map (F_body channel)
      (chunks rounds (fm - (HEADER_SIZE + FOOTER_SIZE)) (zdrop off body))))) c c'.
Proof.
  intros Hq H8 Hch Hb Hoff Hr Hf. set (usable := fm - _). assert (Hu : usable = fm - 8) by done. revert off c Hq Hoff Hr Hf.
  induction rounds as [|r IH]; intros off c Hq Hoff Hr Hf.
  { cbn [send_body chunks map concat]. rewrite (proj2 (Z.ltb_ge off (zlen body))) by lia. cbn [negb].
    exists c. split; [done|]. unfold sent_bytes. rewrite app_nil_r. repeat (split; [done|]). lia. }
  cbn [send_body chunks]. rewrite zlen_zdrop by lia. destruct (Z.ltb_spec off (zlen body)) as [Hlt|Hge]; cbn [negb].
  2:{ rewrite (proj2 (Z.eqb_eq _ _)) by lia. cbn [map concat]. exists c. split; [done|]. unfold sent_bytes. rewrite app_nil_r.
      repeat (split; [done|]). lia. }
  rewrite (proj2 (Z.eqb_neq _ _)) by lia. cbn [map concat].
  set (len := if _ <=? _ then _ else _). assert (Hlen : len = Z.min usable (zlen body - off)).
  { subst len. destruct (Z.leb_spec usable (zlen body - off)); lia. }
  assert (Hpiece : zslice off len body = ztake usable (zdrop off body)).
  { unfold zslice. rewrite Hlen. destruct (Z.le_gt_cases usable (zlen body - off)); [f_equal; lia|].
    rewrite !ztake_all; [done|rewrite zlen_zdrop; lia..]. }
  assert (Hrest : zdrop usable (zdrop off body) = zdrop (off + len) body).
  { rewrite zdrop_zdrop by lia. rewrite Hlen. destruct (Z.le_gt_cases usable (zlen body - off)); [f_equal; lia|].
    rewrite !zdrop_all by lia. done. }
  destruct (body_fits channel usable (zslice off len body) Hch eq_refl) as [Hv Hsz].
  { by apply Forall_ztake, Forall_zdrop. }
  { rewrite zlen_zslice by lia. lia. }
  destruct (send_frame_ok fuel _ c Hq Hv Hsz Hf) as (c1 & Hs & Hc1). rewrite (SE_bind_ok _ _ _ _ _ Hs).
  pose proof Hc1 as (Hq1 & _ & _ & _ & _ & _ & _ & _ & Hp1).
  destruct (IH (off + len) c1 Hq1 ltac:(lia) ltac:(lia) ltac:(lia)) as (c2 & -> & Hc2).
  exists c2. split; [done|]. rewrite <- Hpiece, Hrest. by eapply sent_trans.
Qed.

(** raw is not sent. *)
Lemma send_header_raw fuel channel cls bs raw raw' p :
  amqp_send_frame fuel (F_header channel cls bs raw p) = @amqp_send_frame M N _ _ fuel (F_header channel cls bs raw' p).
Proof. reflexivity. Qed.

Lemma publish_ok fuel channel exchange routing_key mandatory immediate properties body c :
  let p := default default_properties properties in
  let method := F_method channel AMQP_BASIC_PUBLISH_METHOD (publish_method exchange routing_key mandatory immediate) in
  quiet c -> frame_max (c_input c) = fm -> 8 < fm -> 0 <= channel < 2 ^ 16 -> Forall is_u8 body ->
  fits method -> fits (publish_header channel p body) ->
  patience (c_net c) + fm + 1 < Z.of_nat fuel ->
  exists c', amqp_basic_publish fuel channel exchange routing_key mandatory immediate properties body c = (inr tt, c') /\
    sent_bytes (concat (map frame_bytes (publish_frames channel exchange routing_key mandatory immediate p body))) c c'.
Proof.
  intros p method Hq Hmax H8 Hch Hb [Hvm Hsm] [Hvh Hsh] Hf. unfold amqp_basic_publish. rewrite gets_bind. cbv beta.
  change (id c) with c. pose proof Hq as (_ & Hnr & _). rewrite Hmax, Hnr, u64_id by (unfold HEADER_SIZE, FOOTER_SIZE; lia).
  rewrite (SE_bind_ok _ _ _ _ _ (has_past_never c)). cbn iota. rewrite (SE_bind_ret_l tt).
  destruct (send_frame_ok fuel method c Hq Hvm Hsm Hf) as (c1 & Hs1 & Hc1).
  unfold amqp_send_method, amqp_send_method_inner. change (amqp_send_frame_inner fuel ?f amqp_time_infinite) with (amqp_send_frame fuel f).
  rewrite (SE_bind_ok _ _ _ _ _ Hs1). pose proof Hc1 as (Hq1 & _ & _ & _ & _ & _ & _ & _ & Hp1).
  destruct (send_frame_ok fuel _ c1 Hq1 Hvh Hsh ltac:(lia)) as (c2 & Hs2 & Hc2).
  fold p. rewrite (send_header_raw _ _ _ _ [] (enc_properties (class_properties AMQP_BASIC_CLASS) p)). fold (publish_header channel p body).
  rewrite (SE_bind_ok _ _ _ _ _ Hs2). pose proof Hc2 as (Hq2 & _ & _ & _ & _ & _ & _ & _ & Hp2).
  destruct (send_body_ok fuel (S (length body)) channel body 0 c2 Hq2 H8 Hch Hb) as (c3 & Hs3 & Hc3); [zlen_facts; lia|unfold zlen; lia|lia|].
  rewrite Hs3. exists c3. split; [done|]. rewrite zdrop_0 in Hc3 by lia.
  unfold publish_frames. cbn [map concat]. eauto using sent_trans.
Qed.

(** An open connection between two frames, with nothing buffered or queued. *)
Definition open_connection c : Prop :=
  quiet c /\ cm_inv (c_mem c) /\ idle fm (c_input c) /\ sock_inbound c = [] /\ sock_inbound_offset c = 0 /\ queued_frames c = [].
(** The peer has sent these frames. *)
Lemma open_receiving fs c :
  open_connection c -> Forall fits fs -> incoming (c_net c) = concat (map frame_bytes fs) -> receiving 0 fs c.
Proof.
  intros (Hq & Hm & Hidle & Hs & Ho & Hqu) Hfs Hin. unfold receiving, unread. rewrite Hs, Ho, Hin. change (zlen (@nil Z)) with 0.
  rewrite !(zdrop_0 0) by done. cbn [app]. repeat (split; [done || lia|]). destruct fs as [|f fs]; [done|]. pose proof (frame_size_ge f). split; [lia|done].
Qed.
Lemma open_rounds c : open_connection c -> rounds c = 2 * zlen (incoming (c_net c)) + patience (c_net c) + 2.
Proof. intros (_ & _ & _ & Hs & Ho & _). unfold rounds, unread. rewrite Hs, Ho, zdrop_0, zlen_nil by lia. lia. Qed.

Lemma publish_method_fits channel exchange routing_key mandatory immediate :
  0 <= channel < 2 ^ 16 -> Forall is_u8 exchange -> zlen exchange <= 255 -> Forall is_u8 routing_key -> zlen routing_key <= 255 ->
  0 <= mandatory < 2 -> 0 <= immediate < 2 -> 527 <= fm ->
  fits (F_method channel AMQP_BASIC_PUBLISH_METHOD (publish_method exchange routing_key mandatory immediate)).
Proof.
  intros Hc He Hle Hr Hlr Hm Hi H527. set (m := publish_method _ _ _ _).
  assert (E1 : m !! "exchange"%string = Some (VBytes exchange)) by reflexivity.
  assert (E2 : m !! "routing_key"%string = Some (VBytes routing_key)) by reflexivity.
  assert (E3 : m !! "mandatory"%string = Some (VInt mandatory)) by reflexivity.
  assert (E4 : m !! "immediate"%string = Some (VInt immediate)) by reflexivity.
  assert (E5 : m !! "ticket"%string = Some (VInt 0)) by reflexivity.
  set (l := [Field "ticket" Short; Field "exchange" ShortStr; Field "routing_key" ShortStr; Bits ["mandatory"%string; "immediate"%string]]).
  assert (El : case_of encode_method_cases AMQP_BASIC_PUBLISH_METHOD = Some l) by reflexivity.
  assert (Hv : valid_struct l m = true).
  { unfold valid_struct, l. apply andb_true_intro. split; [|vm_compute; reflexivity].
    cbn [forallb valid_item]. unfold valid_field, valid_bit. rewrite E1, E2, E3, E4, E5. cbn [valid_value].
    change UINT8_MAX with 255. apply is_bytes_spec in He, Hr. rewrite He, Hr, (proj2 (Z.leb_le (zlen exchange) 255)), (proj2 (Z.leb_le (zlen routing_key) 255)) by lia.
    change (zlen _ <=? 8) with true.
    by rewrite (proj2 (in_range_spec 0 2 mandatory)), (proj2 (in_range_spec 0 2 immediate)) by lia. }
  split.
  - unfold valid_frame. cbn [frame_channel]. rewrite (proj2 (in_range_spec _ _ _) Hc), El, Hv. done.
  - unfold frame_size. cbn [frame_payload]. unfold method_layout. rewrite El. change (default [] (Some l)) with l. unfold l.
    cbn [enc_items enc_field]. unfold get_bytes. rewrite E1, E2. cbn iota. rewrite !zlen_app, !zlen_amqp_e, zlen_nil.
    cbn [width_bytes]. unfold HEADER_SIZE, FOOTER_SIZE. lia.
Qed.

(** Closing: the code goes with its decimal text. *)
Lemma length_dec_digits fuel x acc : (length (dec_digits fuel x acc) <= fuel + length acc)%nat.
Proof.
  revert x acc. induction fuel as [|fuel IH]; intros x acc; cbn [dec_digits]; [lia|].
  destruct (_ =? 0); [cbn [length]; lia|]. specialize (IH (x / 10) (48 + x mod 10 :: acc)). cbn [length] in IH. lia.
Qed.
Lemma dec_short code : 0 <= code < 2 ^ 16 -> Forall is_u8 (dec_signed code) /\ zlen (dec_signed code) <= 16.
Proof.
  intros Hc. unfold dec_signed. rewrite (proj2 (Z.ltb_ge code 0)) by lia. split.
  - destruct (dec_number code ltac:(lia)) as [[Hd _] _]. eapply Forall_impl; [exact Hd|]. intros d Hx%isdigit_range. unfold is_u8. lia.
  - unfold dec, zlen. pose proof (length_dec_digits (S (Z.to_nat (Z.log2 code))) code []) as Hl. cbn [length] in Hl.
    pose proof (Z.log2_nonneg code). assert (Z.log2 code <= 15).
    { destruct (Z.eq_dec code 0) as [->|]; [done|]. assert (Z.log2 code < 16) by (apply Z.log2_lt_pow2; lia). lia. }
    lia.
Qed.
Definition close_layout : layout :=
  [Field "reply_code" Short; Field "reply_text" ShortStr; Field "class_id" Short; Field "method_id" Short].
Lemma close_fits channel id code :
  0 <= channel < 2 ^ 16 -> 0 <= code < 2 ^ 16 -> 36 <= fm ->
  id = AMQP_CHANNEL_CLOSE_METHOD \/ id = AMQP_CONNECTION_CLOSE_METHOD ->
  fits (F_method channel id (close_request code)).
Proof.
  intros Hch Hc Hfit Hid. destruct (dec_short code Hc) as [Hd8 Hdl]. set (m := close_request code).
  assert (E1 : m !! "reply_code"%string = Some (VInt (u16 code))) by reflexivity.
  assert (E2 : m !! "reply_text"%string = Some (VBytes (dec_signed code))) by reflexivity.
  assert (E3 : m !! "class_id"%string = Some (VInt 0)) by reflexivity.
  assert (E4 : m !! "method_id"%string = Some (VInt 0)) by reflexivity.
  assert (El : case_of encode_method_cases id = Some close_layout /\ 0 <= id < 2 ^ 32) by (by destruct Hid as [-> | ->]).
  destruct El as [El Hr]. assert (Hv : valid_struct close_layout m = true).
  { unfold valid_struct, close_layout. apply andb_true_intro. split; [|vm_compute; reflexivity].
    cbn [forallb valid_item]. unfold valid_field. rewrite E1, E2, E3, E4. cbn [valid_value]. rewrite u16_id by lia.
    apply is_bytes_spec in Hd8. change UINT8_MAX with 255. rewrite Hd8, (proj2 (Z.leb_le (zlen (dec_signed code)) 255)) by lia.
    by rewrite (proj2 (in_range_spec 0 (2 ^ 16) code)) by lia. }
  split.
  - unfold valid_frame. cbn [frame_channel]. by rewrite (proj2 (in_range_spec _ _ _) Hch), (proj2 (in_range_spec _ _ _) Hr), El, Hv.
  - unfold frame_size. cbn [frame_payload]. unfold method_layout. rewrite El. change (default [] (Some close_layout)) with close_layout.
    unfold close_layout. cbn [enc_items enc_field]. unfold get_bytes. rewrite E2. cbn iota. rewrite !zlen_app, !zlen_amqp_e, zlen_nil.
    cbn [width_bytes]. unfold HEADER_SIZE, FOOTER_SIZE. lia.
Qed.

End stream.

(** ** Properties *)

Section properties.
Context {M N : Type} `{ChannelMemTotal M} `{StreamNet N}.

(** C34: frames arrive as they were sent, on an open connection without
    heartbeats (its heartbeat interval is 0) that has nothing buffered or queued
    and stands between two frames: when the peer has sent valid frames that fit
    frame_max, in however small pieces the socket delivers them and however
    often the caller has to wait, repeated amqp_simple_wait_frame returns every
    frame that is not a heartbeat, unchanged and in order.  (With heartbeats
    frames may be lost: [heartbeat_send_loses_input].) *)
Theorem frames_received_in_order (fm : Z) (fuel : nat) (fs : list frame) (c : conn M N) :
  0 <= fm < 2 ^ 30 -> open_connection fm c -> Forall (fits fm) fs -> incoming (c_net c) = concat (map frame_bytes fs) ->
  2 * zlen (incoming (c_net c)) + patience (c_net c) + 2 < Z.of_nat fuel ->
  let expected := filter (fun f => is_heartbeat f = false) fs in
  exists c', receive_frames fuel (length expected) c = (inr expected, c') /\ quiet fm c' /\ queued_frames c' = [].
Proof.
  intros Hfm Ho Hfs Hin Hf expected. pose proof (open_receiving fm fs c Ho Hfs Hin) as Hr.
  pose proof Ho as (_ & _ & _ & _ & _ & Hq). rewrite <- (open_rounds fm c Ho) in Hf.
  destruct (receive_all fm Hfm fuel 0 fs c Hr Hq Hf) as (c' & Hx & _ & Hq' & [Hq2 _]).
  exists c'. split; [exact Hx|]. split; [done|congruence].
Qed.

(** A request and its reply. *)
Lemma rpc_answered (fm : Z) (fuel : nat) (channel request_id : Z) (ids : list Z) (request : struct)
    (before : list frame) (f : frame) (rest : list frame) (c : conn M N) :
  0 <= fm < 2 ^ 30 -> open_connection fm c -> fits fm (F_method channel request_id request) ->
  rpc_timeout (c_api c) = None -> Forall (fits fm) (before ++ f :: rest) -> incoming (c_net c) = concat (map frame_bytes (before ++ f :: rest)) ->
  Forall (fun g => concerns channel ids g = false) before -> concerns channel ids f = true ->
  2 * zlen (incoming (c_net c)) + patience (c_net c) + zlen before + fm + 4 < Z.of_nat fuel ->
  exists c', amqp_simple_rpc fuel channel request_id ids request c = (inr (reply_of ids f), c') /\
    queued_frames c' = filter (fun f => is_heartbeat f = false) before /\
    taken (c_net c') = taken (c_net c) ++ frame_bytes (F_method channel request_id request).
Proof.
  intros Hfm Ho [Hv Hsz] Hto Hfs Hin Hb Hcf Hf. pose proof (open_receiving fm _ c Ho Hfs Hin) as Hr.
  pose proof Ho as (Hq & Hm & Hidle & Hs & Hoff & Hqu). pose proof (patience_nonneg (c_net c)). zlen_facts.
  destruct (send_frame_ok fm Hfm fuel _ c Hq Hv Hsz ltac:(lia)) as (c1 & Hx & Hq1 & Ei & Em & Es & Eo & Eq & En & Et & Ep).
  unfold amqp_simple_rpc. rewrite gets_bind, Hto.
  rewrite (SE_bind_ok _ _ c (inr amqp_time_infinite) c) by by destruct c.
  cbn iota. unfold simple_rpc_inner, amqp_send_method, amqp_send_method_inner.
  change (amqp_send_frame_inner fuel ?f amqp_time_infinite) with (amqp_send_frame fuel f).
  rewrite (SE_bind_ok _ _ _ _ _ (c_status_ok _ _ _ _ Hx)). cbn iota.
  assert (Ho1 : open_connection fm c1) by (unfold open_connection; rewrite Ei, Em, Es, Eo, Eq; done).
  assert (Hin1 : incoming (c_net c1) = concat (map frame_bytes (before ++ f :: rest))) by congruence.
  destruct (rpc_wait_ok fm Hfm fuel channel ids 0 before f rest c1 (open_receiving fm _ c1 Ho1 Hfs Hin1) Hb Hcf)
    as (c2 & -> & _ & Hq2 & Ht2).
  { rewrite (open_rounds fm c1 Ho1), En. unfold zlen in *. lia. }
  exists c2. split; [done|]. by rewrite Hq2, Ht2, Eq, Hqu.
Qed.

(** The frames that end a request on a channel: a reply that was expected, or
    the peer closes the channel or the connection; and the results they give. *)
Inductive ends_rpc (channel : Z) (ids : list Z) : frame -> Prop :=
| reply_arrives id m : id ∈ ids -> ends_rpc channel ids (F_method channel id m)
| channel_closed m : ends_rpc channel ids (F_method channel AMQP_CHANNEL_CLOSE_METHOD m)
| connection_closed m : ends_rpc channel ids (F_method 0 AMQP_CONNECTION_CLOSE_METHOD m).
Inductive rpc_result (ids : list Z) : frame -> rpc_reply -> Prop :=
| expected_result channel id m : id ∈ ids -> rpc_result ids (F_method channel id m) (AMQP_RESPONSE_NORMAL id m)
| closed_result channel id m : id ∉ ids -> rpc_result ids (F_method channel id m) (AMQP_RESPONSE_SERVER_EXCEPTION id m).

Lemma in_reply_list_spec id ids : amqp_id_in_reply_list id ids = true <-> id ∈ ids.
Proof.
  unfold amqp_id_in_reply_list. rewrite existsb_exists, list_elem_of_In. split.
  - by intros (x & Hx & <-%Z.eqb_eq).
  - intros Hx. exists id. by rewrite Z.eqb_refl.
Qed.
Lemma concerns_spec channel ids f : concerns channel ids f = true <-> ends_rpc channel ids f.
Proof.
  split.
  - destruct f as [| |channel' id m| | |]; try done. cbn [concerns]. rewrite orb_true_iff, !andb_true_iff, orb_true_iff, !Z.eqb_eq, in_reply_list_spec.
    intros [[-> [Hi| ->]]|[-> ->]]; by constructor.
  - intros []; cbn; rewrite ?Z.eqb_refl, ?orb_true_r; [|done..]. by rewrite (proj2 (in_reply_list_spec id ids)).
Qed.
Lemma reply_of_spec channel ids f : ends_rpc channel ids f -> rpc_result ids f (reply_of ids f).
Proof.
  intros Hf. assert (exists c id m, f = F_method c id m) as (c & id & m & ->) by (destruct Hf; eauto). cbn.
  destruct (amqp_id_in_reply_list id ids) eqn:E; constructor; rewrite <- in_reply_list_spec; congruence.
Qed.

(** C35: a request gets its reply, on an open connection without heartbeats
    and without a timeout for requests that has nothing buffered or queued:
    amqp_simple_rpc sends the whole request.  The first frame from the peer
    that ends it (a method on its channel that is among the expected replies, a
    channel.close on its channel, a connection.close on channel 0) decides the
    result: a normal reply if it is expected, else an exception of the server;
    every other frame that arrives before it is kept in the queue, in order,
    heartbeats apart. *)
Theorem rpc_returns_reply (fm : Z) (fuel : nat) (channel request_id : Z) (ids : list Z) (request : struct)
    (before : list frame) (f : frame) (rest : list frame) (c : conn M N) :
  0 <= fm < 2 ^ 30 -> open_connection fm c -> fits fm (F_method channel request_id request) ->
  rpc_timeout (c_api c) = None -> Forall (fits fm) (before ++ f :: rest) -> incoming (c_net c) = concat (map frame_bytes (before ++ f :: rest)) ->
  Forall (fun g => ~ ends_rpc channel ids g) before -> ends_rpc channel ids f ->
  2 * zlen (incoming (c_net c)) + patience (c_net c) + zlen before + fm + 4 < Z.of_nat fuel ->
  exists c' reply, amqp_simple_rpc fuel channel request_id ids request c = (inr reply, c') /\ rpc_result ids f reply /\
    queued_frames c' = filter (fun f => is_heartbeat f = false) before /\
    taken (c_net c') = taken (c_net c) ++ frame_bytes (F_method channel request_id request).
Proof.
  intros Hfm Ho Hreq Hto Hfs Hin Hb Hf Hfuel.
  destruct (rpc_answered fm fuel channel request_id ids request before f rest c Hfm Ho Hreq Hto Hfs Hin) as (c' & E & Hq & Ht).
  - eapply Forall_impl; [exact Hb|]. intros g Hg. destruct (concerns channel ids g) eqn:Eg; [|done]. by apply concerns_spec in Eg.
  - by apply concerns_spec.
  - done.
  - exists c', (reply_of ids f). split_and!; [done|by eapply reply_of_spec|done..].
Qed.

(** amqp_connection_close refuses codes that do not fit 16 bits; otherwise it
    sends connection.close with the code and its text on channel 0 and returns
    what answers it. *)
Theorem connection_close_answered (fm : Z) (fuel : nat) (code : Z) (before : list frame) (f : frame) (rest : list frame)
    (c : conn M N) :
  36 <= fm < 2 ^ 30 -> open_connection fm c -> rpc_timeout (c_api c) = None ->
  Forall (fits fm) (before ++ f :: rest) -> incoming (c_net c) = concat (map frame_bytes (before ++ f :: rest)) ->
  Forall (fun g => concerns 0 [AMQP_CONNECTION_CLOSE_OK_METHOD] g = false) before ->
  concerns 0 [AMQP_CONNECTION_CLOSE_OK_METHOD] f = true ->
  2 * zlen (incoming (c_net c)) + patience (c_net c) + zlen before + fm + 4 < Z.of_nat fuel ->
  exists c', amqp_connection_close fuel code c =
      (inr (if in_range 0 (2 ^ 16) code then reply_of [AMQP_CONNECTION_CLOSE_OK_METHOD] f
            else AMQP_RESPONSE_LIBRARY_EXCEPTION AMQP_STATUS_INVALID_PARAMETER), c') /\
    taken (c_net c') = taken (c_net c) ++
      (if in_range 0 (2 ^ 16) code then frame_bytes (F_method 0 AMQP_CONNECTION_CLOSE_METHOD (close_request code)) else []).
Proof.
  intros Hfm Ho Hto Hfs Hin Hb Hcf Hf. unfold amqp_connection_close. destruct (in_range 0 (2 ^ 16) code) eqn:Ec.
  - apply in_range_spec in Ec. change UINT16_MAX with (2 ^ 16 - 1).
    rewrite (proj2 (Z.ltb_ge code 0)), (proj2 (Z.ltb_ge (2 ^ 16 - 1) code)) by lia. cbn [orb].
    destruct (rpc_answered fm fuel 0 AMQP_CONNECTION_CLOSE_METHOD [AMQP_CONNECTION_CLOSE_OK_METHOD] (close_request code) before f rest c
      ltac:(lia) Ho (close_fits fm 0 _ code ltac:(lia) Ec ltac:(lia) (or_intror eq_refl)) Hto Hfs Hin Hb Hcf Hf) as (c' & -> & _ & Ht).
    by exists c'.
  - assert (Hout : (code <? 0) || (UINT16_MAX <? code) = true).
    { destruct (Z.ltb_spec code 0); [done|]. apply Z.ltb_lt. change UINT16_MAX with (2 ^ 16 - 1).
      destruct (Z.lt_ge_cases code (2 ^ 16)); [|lia]. rewrite (proj2 (in_range_spec 0 (2 ^ 16) code)) in Ec by lia. done. }
    rewrite Hout. exists c. by rewrite app_nil_r.
Qed.

(** A published message and its receiver. *)
Lemma publish_delivers (fm : Z) (fuel : nat) (channel : Z) (exchange routing_key : list Z) (mandatory immediate : Z)
    (properties : option struct) (body : list Z) (c : conn M N) :
  let p := default default_properties properties in
  527 <= fm < 2 ^ 30 -> open_connection fm c -> 0 <= channel < 2 ^ 16 ->
  Forall is_u8 exchange -> zlen exchange <= 255 -> Forall is_u8 routing_key -> zlen routing_key <= 255 ->
  0 <= mandatory < 2 -> 0 <= immediate < 2 -> Forall is_u8 body -> fits fm (publish_header channel p body) ->
  patience (c_net c) + fm + 1 < Z.of_nat fuel ->
  exists c' bodies, amqp_basic_publish fuel channel exchange routing_key mandatory immediate properties body c = (inr tt, c') /\
    let frames :=
      F_method channel AMQP_BASIC_PUBLISH_METHOD (publish_method exchange routing_key mandatory immediate) ::
      publish_header channel p body :: map (F_body channel) bodies in
    concat bodies = body /\ Forall (fits fm) frames /\
    taken (c_net c') = taken (c_net c) ++ concat (map frame_bytes frames) /\
    forall (d : conn M N) (fuel' : nat), open_connection fm d -> incoming (c_net d) = concat (map frame_bytes frames) ->
      2 * zlen (incoming (c_net d)) + patience (c_net d) + 2 < Z.of_nat fuel' ->
      exists d', receive_frames fuel' (length frames) d = (inr frames, d').
Proof.
  intros p Hfm Ho Hch He Hle Hr Hlr Hm Hi Hb Hh Hf. assert (Hfm' : 0 <= fm < 2 ^ 30) by lia. pose proof Ho as (Hq & _ & (Hmax & _) & _).
  pose proof (publish_method_fits fm channel exchange routing_key mandatory immediate Hch He Hle Hr Hlr Hm Hi ltac:(lia)) as Hmeth.
  destruct (publish_ok fm Hfm' fuel channel exchange routing_key mandatory immediate properties body c Hq Hmax ltac:(lia) Hch Hb Hmeth Hh Hf)
    as (c' & Hx & _ & _ & _ & _ & _ & _ & _ & Ht & _).
  set (n := fm - (HEADER_SIZE + FOOTER_SIZE)). assert (Hn : n = fm - 8) by done.
  set (bodies := chunks (S (length body)) n body). exists c', bodies. split; [exact Hx|]. intros frames.
  assert (Hfits : Forall (fits fm) frames).
  { constructor; [done|]. constructor; [done|]. apply Forall_map, Forall_forall. intros b Hin.
    apply (body_fits fm channel n); [done|done|..].
    - by apply (proj1 (Forall_forall _ _) (chunks_bytes (S (length body)) n body Hb)).
    - by apply (proj1 (Forall_forall _ _) (chunks_small (S (length body)) n body ltac:(lia))). }
  split; [apply concat_chunks; [lia|unfold zlen; lia]|]. split; [done|]. split; [exact Ht|].
  intros d fuel' Hd Hin Hf'. pose proof (open_receiving fm frames d Hd Hfits Hin) as Hrec.
  pose proof Hd as (_ & _ & _ & _ & _ & Hqd). rewrite <- (open_rounds fm d Hd) in Hf'.
  destruct (receive_all fm Hfm' fuel' 0 frames d Hrec Hqd Hf') as (d' & Hy & _).
  assert (Hall : filter (fun f => is_heartbeat f = false) frames = frames).
  { unfold frames. rewrite !filter_cons, !decide_True by done. do 2 f_equal. clear. induction bodies as [|b bodies IH]; [done|].
    cbn [map]. rewrite filter_cons, decide_True by done. by rewrite IH. }
  rewrite Hall in Hy. by exists d'.
Qed.

(** basic.publish with these arguments. *)
Record is_publish (m : struct) (exchange routing_key : list Z) (mandatory immediate : Z) : Prop := {
  pub_ticket : m !! "ticket"%string = Some (VInt 0);
  pub_exchange_is : m !! "exchange"%string = Some (VBytes exchange);
  pub_key_is : m !! "routing_key"%string = Some (VBytes routing_key);
  pub_mandatory : m !! "mandatory"%string = Some (VInt mandatory);
  pub_immediate : m !! "immediate"%string = Some (VInt immediate)
}.

(** C32: a published message can be read back.  On an open connection without
    heartbeats, with names of at most 255 bytes and properties that fit a frame
    of at least 527 bytes: amqp_basic_publish makes the socket take the frames of
    the message and nothing else, each within frame_max; a peer (whose
    connection has no heartbeats and nothing buffered either) that receives
    these bytes gets basic.publish with the exchange, the routing key and the
    two flags, the header with the length of the body and the properties, and
    fragments that make up the body. *)
Theorem publish_received (fm : Z) (fuel : nat) (channel : Z) (exchange routing_key : list Z) (mandatory immediate : Z)
    (properties : option struct) (body : list Z) (c : conn M N) :
  let p := default default_properties properties in
  527 <= fm < 2 ^ 30 -> open_connection fm c -> 0 <= channel < 2 ^ 16 ->
  Forall is_u8 exchange -> zlen exchange <= 255 -> Forall is_u8 routing_key -> zlen routing_key <= 255 ->
  0 <= mandatory < 2 -> 0 <= immediate < 2 -> Forall is_u8 body -> fits fm (publish_header channel p body) ->
  patience (c_net c) + fm + 1 < Z.of_nat fuel ->
  exists c' m bodies, amqp_basic_publish fuel channel exchange routing_key mandatory immediate properties body c = (inr tt, c') /\
    let frames :=
      F_method channel AMQP_BASIC_PUBLISH_METHOD m ::
      publish_header channel p body :: map (F_body channel) bodies in
    is_publish m exchange routing_key mandatory immediate /\ concat bodies = body /\ Forall (fits fm) frames /\
    taken (c_net c') = taken (c_net c) ++ concat (map frame_bytes frames) /\
    forall (d : conn M N) (fuel' : nat), open_connection fm d -> incoming (c_net d) = concat (map frame_bytes frames) ->
      2 * zlen (incoming (c_net d)) + patience (c_net d) + 2 < Z.of_nat fuel' ->
      exists d', receive_frames fuel' (length frames) d = (inr frames, d').
Proof.
  intros p Hfm Ho Hch He Hle Hr Hlr Hm Hi Hb Hh Hf.
  destruct (publish_delivers fm fuel channel exchange routing_key mandatory immediate properties body c Hfm Ho Hch He Hle Hr Hlr Hm Hi Hb Hh Hf)
    as (c' & bodies & E & H'). exists c', (publish_method exchange routing_key mandatory immediate), bodies. split; [done|]. split; [by split|exact H'].
Qed.
End properties.

(** ** Witnesses *)

(** A socket that gives five bytes at a time and takes three, and makes its
    caller wait now and then. *)
Record pipe := mk_pipe { pipe_in : list Z; pipe_out : list Z; pipe_waits : nat }.
#[local] Instance pipe_net : Net pipe := {|
  net_poll := {|
    poll_clock n := (inr 1, n);
    sys_poll _ _ _ n :=
      match pipe_waits n with
      | S w => (PollInterrupted, mk_pipe (pipe_in n) (pipe_out n) w)
      | O => (PollReady, n)
      end
  |};
  klass_recv size n :=
    match pipe_waits n with
    | S w => (inr (inl AMQP_PRIVATE_STATUS_SOCKET_NEEDREAD), mk_pipe (pipe_in n) (pipe_out n) w)
    | O => let k := Z.min size 5 in (inr (inr (ztake k (pipe_in n))), mk_pipe (zdrop k (pipe_in n)) (pipe_out n) 0)
    end;
  klass_send buf n :=
    match pipe_waits n with
    | S w => (inr AMQP_PRIVATE_STATUS_SOCKET_NEEDWRITE, mk_pipe (pipe_in n) (pipe_out n) w)
    | O => let k := Z.min (zlen buf) 3 in (inr k, mk_pipe (pipe_in n) (pipe_out n ++ ztake k buf) 0)
    end;
  klass_get_sockfd _ := 3;
  klass_close n := (AMQP_STATUS_OK, n)
|}.
#[local] Program Instance pipe_stream : StreamNet pipe := {|
  up _ := True; incoming := pipe_in; taken := pipe_out; patience n := Z.of_nat (pipe_waits n)
|}.
Next Obligation. intros n. cbn. lia. Qed.
Next Obligation. done. Qed.
Next Obligation.
  intros [i o [|w]] size _ Hi Hs; cbn in *; eexists _, _; (split; [reflexivity|]); cbn; (split; [done|]); (split; [done|]).
  - split; [by rewrite ztake_zdrop|]. split; [|lia]. assert (0 < zlen i) by (destruct i; [done|rewrite zlen_cons; zlen_facts; lia]).
    destruct (Z.le_gt_cases (Z.min size 5) (zlen i)); [rewrite zlen_ztake by lia|rewrite ztake_all by lia]; lia.
  - split; [done|]. split; [done|lia].
Qed.
Next Obligation.
  intros [i o [|w]] buf _ Hb; cbn in *; eexists _, _; (split; [reflexivity|]); cbn; (split; [done|]); (split; [done|]).
  - left. split; [|split; [done|lia]]. destruct buf; [done|]. rewrite zlen_cons. zlen_facts. lia.
  - right. split; [done|]. split; [done|lia].
Qed.
Next Obligation.
  intros [i o [|w]] ev t _; cbn; eexists _, _; (split; [reflexivity|]); cbn; repeat (split; [done|]); [left|right]; (split; [done|lia]).
Qed.

#[local] Existing Instances demo_grants demo_grants_total.
Definition demo_input (fm : Z) : input := mk_input CONNECTION_STATE_IDLE fm (zfill 8) None 0 7.
Definition demo_api : api_state := mk_api 0 (AMQP_RESPONSE_LIBRARY_EXCEPTION 0) [] [] None None.
(** An open connection with channel memory from an empty heap. *)
Definition demo_conn {N} (fm : Z) (n : N) : conn pools N :=
  mk_conn (demo_input fm) (new_pools empty_heap) n [] 0 [] (zfill fm) 0 amqp_time_infinite amqp_time_infinite demo_api.
Lemma demo_open fm n : 0 <= fm -> @open_connection _ _ _ channel_mem_ok _ pipe_stream fm (demo_conn fm n).
Proof.
  intros Hfm. split; [unfold quiet; cbn; repeat (split; [done|]); by apply zlen_zfill|].
  split; [apply new_pools_wf, empty_heap_wf|]. done.
Qed.

Definition demo_frames : list frame :=
  [F_heartbeat 0; F_method 1 AMQP_CHANNEL_FLOW_METHOD {[ "active"%string := VInt 1 ]}; F_heartbeat 0; F_body 1 (str "hello");
   F_method 1 AMQP_CHANNEL_OPEN_OK_METHOD {[ "channel_id"%string := VBytes [] ]}].
Definition fitsb (fm : Z) (f : frame) : bool := valid_frame f && (frame_size f <=? fm).
Lemma fitsb_fits fm fs : forallb (fitsb fm) fs = true -> Forall (fits fm) fs.
Proof.
  intros Hf. apply Forall_forall. intros f Hin%list_elem_of_In. pose proof (proj1 (forallb_forall _ _) Hf f Hin) as Hx.
  unfold fitsb in Hx. apply andb_prop in Hx as [Hv Hs%Z.leb_le]. by split.
Qed.

Lemma frames_received_in_order_witness :
  exists c', receive_frames 300 3 (demo_conn 4096 (mk_pipe (concat (map frame_bytes demo_frames)) [] 4)) =
    (inr [F_method 1 AMQP_CHANNEL_FLOW_METHOD {[ "active"%string := VInt 1 ]}; F_body 1 (str "hello");
          F_method 1 AMQP_CHANNEL_OPEN_OK_METHOD {[ "channel_id"%string := VBytes [] ]}], c').
Proof.
  destruct (@frames_received_in_order _ _ _ _ channel_mem_total _ pipe_stream 4096 300 demo_frames
    (demo_conn 4096 (mk_pipe (concat (map frame_bytes demo_frames)) [] 4))) as (c' & Hx & _).
  - lia.
  - apply demo_open. lia.
  - apply fitsb_fits. vm_compute. reflexivity.
  - reflexivity.
  - vm_compute. reflexivity.
  - exists c'. exact Hx.
Defined.
Lemma rpc_returns_reply_witness :
  exists c', amqp_simple_rpc 4700 1 AMQP_CHANNEL_OPEN_METHOD [AMQP_CHANNEL_OPEN_OK_METHOD] {[ "out_of_band"%string := VBytes [] ]}
      (demo_conn 4096 (mk_pipe (concat (map frame_bytes demo_frames)) [] 4)) =
    (inr (AMQP_RESPONSE_NORMAL AMQP_CHANNEL_OPEN_OK_METHOD {[ "channel_id"%string := VBytes [] ]}), c') /\
    queued_frames c' = [F_method 1 AMQP_CHANNEL_FLOW_METHOD {[ "active"%string := VInt 1 ]}; F_body 1 (str "hello")].
Proof.
  destruct (@rpc_returns_reply _ _ _ _ channel_mem_total _ pipe_stream 4096 4700 1 AMQP_CHANNEL_OPEN_METHOD
    [AMQP_CHANNEL_OPEN_OK_METHOD] {[ "out_of_band"%string := VBytes [] ]} (take 4 demo_frames)
    (F_method 1 AMQP_CHANNEL_OPEN_OK_METHOD {[ "channel_id"%string := VBytes [] ]}) []
    (demo_conn 4096 (mk_pipe (concat (map frame_bytes demo_frames)) [] 4))) as (c' & reply & Hx & Hres & Hq & _).
  - lia.
  - apply demo_open. lia.
  - split; [vm_compute; reflexivity|]. vm_compute. discriminate.
  - reflexivity.
  - apply fitsb_fits. vm_compute. reflexivity.
  - reflexivity.
  - repeat (constructor; [intros He%concerns_spec; vm_compute in He; discriminate|]). constructor.
  - apply concerns_spec. reflexivity.
  - vm_compute. reflexivity.
  - exists c'. split; [|exact Hq]. rewrite Hx. inversion Hres as [? ? ? Hi|? ? ? Hi]; [reflexivity|]. contradict Hi. left.
Defined.
Lemma publish_received_witness :
  exists c', amqp_basic_publish 700 1 (str "cega") (str "files.inbox") 0 0 (Some demo_properties) (zfill 1000)
    (demo_conn 600 (mk_pipe [] [] 4)) = (inr tt, c').
Proof.
  destruct (@publish_received _ _ _ _ channel_mem_total _ pipe_stream 600 700 1 (str "cega") (str "files.inbox") 0 0
    (Some demo_properties) (zfill 1000) (demo_conn 600 (mk_pipe [] [] 4))) as (c' & m & bodies & Hx & _).
  - lia.
  - apply demo_open. lia.
  - lia.
  - apply is_bytes_true. vm_compute. reflexivity.
  - vm_compute. discriminate.
  - apply is_bytes_true. vm_compute. reflexivity.
  - vm_compute. discriminate.
  - lia.
  - lia.
  - apply is_bytes_true. vm_compute. reflexivity.
  - split; [vm_compute; reflexivity|]. vm_compute. discriminate.
  - vm_compute. reflexivity.
  - exists c'. exact Hx.
Defined.

(** ** What goes wrong *)

(** A socket that follows a script: what the calls return next, in order, and
    what was sent. *)
Record script := mk_script {
  s_clock : Z; s_recv : list (Z + list Z); s_send : list Z; s_poll : list poll_result; s_sent : list Z
}.
#[local] Instance script_net : Net script := {|
  net_poll := {|
    poll_clock n := (inr (s_clock n), n);
    sys_poll _ _ _ n :=
      match s_poll n with
      | r :: rs => (r, mk_script (s_clock n) (s_recv n) (s_send n) rs (s_sent n))
      | [] => (PollTimeout, n)
      end
  |};
  klass_recv _ n :=
    match s_recv n with
    | r :: rs => (inr r, mk_script (s_clock n) rs (s_send n) (s_poll n) (s_sent n))
    | [] => (inr (inl AMQP_PRIVATE_STATUS_SOCKET_NEEDREAD), n)
    end;
  klass_send buf n :=
    match s_send n with
    | k :: ks => (inr k, mk_script (s_clock n) (s_recv n) ks (s_poll n) (s_sent n ++ ztake k buf))
    | [] => (inr (zlen buf), mk_script (s_clock n) (s_recv n) [] (s_poll n) (s_sent n ++ buf))
    end;
  klass_get_sockfd _ := 3;
  klass_close n := (AMQP_STATUS_OK, n)
|}.

(** amqp_simple_wait_frame_on_channel gives the first queued frame of the
    channel, and drops the frames queued before it. *)
Theorem wait_on_channel_loses_frames {M N} `{ChannelMem M} `{Net N} (fuel : nat) (channel : Z) (before : list frame)
    (f : frame) (after : list frame) (c : conn M N) :
  queued_frames c = before ++ f :: after -> Forall (fun g => frame_channel g <> channel) before -> frame_channel f = channel ->
  amqp_simple_wait_frame_on_channel fuel channel c = (inr f, set_queue after c).
Proof.
  intros Hq Hb Hf. unfold amqp_simple_wait_frame_on_channel. rewrite gets_bind, Hq.
  assert (E : find_queued channel (before ++ f :: after) = Some (f, after)).
  { clear Hq. induction Hb as [|g before Hg Hb IH]; cbn [app find_queued].
    - by rewrite Hf, Z.eqb_refl.
    - by rewrite (proj2 (Z.eqb_neq _ _)) by congruence. }
  by rewrite E.
Qed.
Lemma wait_on_channel_loses_frames_witness :
  let c := set_queue [F_body 1 (str "lost"); F_body 2 (str "found")] (demo_conn 600 (mk_script 1 [] [] [] [])) in
  amqp_simple_wait_frame_on_channel 5 2 c = (inr (F_body 2 (str "found")), set_queue [] c).
Proof.
  apply (@wait_on_channel_loses_frames _ _ _ script_net 5 2 [F_body 1 (str "lost")] (F_body 2 (str "found")) []).
  - reflexivity.
  - constructor; [discriminate|constructor].
  - reflexivity.
Defined.

(** When the socket takes no byte of the protocol header before the
    deadline, send_header_inner returns the number of bytes sent, which is 0:
    AMQP_STATUS_OK. *)
Theorem send_header_timeout_is_success :
  exists c', send_header_inner 5 amqp_time_immediate
      (demo_conn 600 (mk_script 1 [] [AMQP_PRIVATE_STATUS_SOCKET_NEEDWRITE] [] [])) = (inr AMQP_STATUS_OK, c') /\
    s_sent (c_net c') = [].
Proof. eexists. split; vm_compute; reflexivity. Qed.

(** A frame that arrives while a heartbeat is being sent is lost:
    amqp_try_recv leaves its bytes in the buffer, and wait_frame_inner receives
    over them.  Here "first" arrives during the heartbeat, "second" after it;
    the caller gets "second", and nothing is queued. *)
Theorem heartbeat_send_loses_input :
  let n := mk_script 100 [inr (frame_bytes (F_body 1 (str "first"))); inr (frame_bytes (F_body 1 (str "second")))]
             [3; AMQP_PRIVATE_STATUS_SOCKET_NEEDWRITE] [] [] in
  let c := mk_conn (demo_input 600) (new_pools empty_heap) n [] 0 [] (zfill 600) 10 1000 5 demo_api in
  match amqp_simple_wait_frame 20 c with
  | (inr (F_body 1 b), c') =>
      (b, queued_frames c', s_recv (c_net c'), unread c', s_sent (c_net c')) =
      (str "second", [], [], [], frame_bytes (F_heartbeat 0))
  | _ => False
  end.
Proof. vm_compute. reflexivity. Qed.
