(* ===== verification/AmqpTcp.v ===== *)
(** * TCP sockets: amqp_tcp_socket.c, and opening sockets in amqp_socket.c

    The socket class that the connection uses for plain TCP, above the system
    calls, which are a parameter ([SockSys]).  Given what POSIX says about a
    connected stream ([StreamSys]), the class is a stream socket for the
    connection ([tcp_stream]), so that the theorems of AmqpStream hold over
    TCP; and opening a socket leaves no descriptor behind when it fails.  The
    branches for Windows and for systems without MSG_MORE are left out. *)

From stdpp Require Import gmap strings.
From S2P Require Import Prelude Sshbuf AmqpMem AmqpCodec AmqpTable AmqpPools AmqpFraming AmqpConn AmqpTime AmqpSocket AmqpStream.
#[local] Open Scope list_scope.
#[local] Open Scope Z_scope.

Definition AMQP_STATUS_HOSTNAME_RESOLUTION_FAILED : Z := -5.
Definition AMQP_STATUS_SOCKET_INUSE : Z := -18.
Definition EINTR : Z := 4.
Definition EAGAIN : Z := 11.
Definition EINPROGRESS : Z := 115.
Definition FD_CLOEXEC : Z := 1.
Definition O_NONBLOCK : Z := 2048.
Definition PF_UNSPEC : Z := 0.
Definition SOCK_STREAM : Z := 1.
Definition IPPROTO_TCP : Z := 6.
Definition SOL_SOCKET : Z := 1.
Definition TCP_NODELAY : Z := 1.
Definition SO_KEEPALIVE : Z := 9.

(** struct addrinfo *)
Record sock_addr := mk_sock_addr { ai_family : Z; ai_socktype : Z; ai_protocol : Z; ai_address : list Z }.

Inductive fcntl_cmd := F_GETFD | F_SETFD (flags : Z) | F_GETFL | F_SETFL (flags : Z).

(** The system calls; [inl e] is the result -1 with errno [e].  getsockopt is
    asked for SO_ERROR only. *)
Class SockSys (K : Type) := {
  sock_poll : PollSys K;
  sys_getaddrinfo : list Z -> list Z -> Z -> Z -> Z -> K -> option (list sock_addr) * K;
  sys_socket : Z -> Z -> Z -> K -> (Z + Z) * K;
  sys_fcntl : Z -> fcntl_cmd -> K -> (Z + Z) * K;
  sys_setsockopt : Z -> Z -> Z -> Z -> K -> (Z + ()) * K;
  sys_connect : Z -> list Z -> K -> (Z + ()) * K;
  sys_so_error : Z -> K -> (Z + Z) * K;
  sys_close : Z -> K -> (Z + ()) * K;
  sys_send : Z -> list Z -> K -> (Z + Z) * K;
  sys_recv : Z -> Z -> K -> (Z + list Z) * K
}.
#[export] Existing Instance sock_poll.

Section sockets.
Context {K : Type} `{SockSys K}.

Definition sys {A} (m : K -> A * K) : SE K dstop A := fun k => let '(a, k') := m k in (inr a, k').

(** ** Opening a socket *)

(** last_error = AMQP_STATUS_SOCKET_ERROR; goto err *)
Definition or_err {A} (r : Z + A) : SE K dstop A :=
  match r with inl _ => throw (Status AMQP_STATUS_SOCKET_ERROR) | inr a => mret a end.

(** connect_socket between the socket and the label err. *)
Definition prepare_and_connect (fuel : nat) (sockfd : Z) (address : list Z) (deadline : Z) : SE K dstop () :=
  r ← sys (sys_fcntl sockfd F_GETFD);
  flags ← or_err r;
  r ← sys (sys_fcntl sockfd (F_SETFD (Z.lor flags FD_CLOEXEC)));
  _ ← or_err r;
  r ← sys (sys_fcntl sockfd F_GETFL);
  flags ← or_err r;
  r ← sys (sys_fcntl sockfd (F_SETFL (Z.lor flags O_NONBLOCK)));
  _ ← or_err r;
  r ← sys (sys_setsockopt sockfd IPPROTO_TCP TCP_NODELAY 1);
  _ ← or_err r;
  r ← sys (sys_setsockopt sockfd SOL_SOCKET SO_KEEPALIVE 1);
  _ ← or_err r;
  r ← sys (sys_connect sockfd address);
  match r with
  | inr _ => mret tt
  | inl e =>
      if negb (e =? EINPROGRESS) then throw (Status AMQP_STATUS_SOCKET_ERROR)
      else
        _ ← amqp_poll fuel sockfd AMQP_SF_POLLOUT deadline;
        r ← sys (sys_so_error sockfd);
        result ← or_err r;
        if negb (result =? 0) then throw (Status AMQP_STATUS_SOCKET_ERROR) else mret tt
  end.
Definition connect_socket (fuel : nat) (addr : sock_addr) (deadline : Z) : SE K dstop Z :=
  r ← sys (sys_socket (ai_family addr) (ai_socktype addr) (ai_protocol addr));
  match r with
  | inl _ => mret AMQP_STATUS_SOCKET_ERROR
  | inr sockfd =>
      r ← c_status (prepare_and_connect fuel sockfd (ai_address addr) deadline);
      match r with
      | inr _ => mret sockfd
      | inl last_error => _ ← sys (sys_close sockfd); mret last_error
      end
  end.

(** The loop over the addresses: sockfd and last_error. *)
Fixpoint connect_first (fuel : nat) (address_list : list sock_addr) (deadline sockfd last_error : Z) : SE K dstop (Z * Z) :=
  match address_list with
  | [] => mret (sockfd, last_error)
  | addr :: rest =>
      sockfd ← connect_socket fuel addr deadline;
      if 0 <=? sockfd then mret (sockfd, AMQP_STATUS_OK)
      else if sockfd =? AMQP_STATUS_TIMEOUT then mret (sockfd, sockfd)
      else connect_first fuel rest deadline sockfd last_error
  end.
Definition amqp_open_socket_inner (fuel : nat) (hostname : list Z) (portnumber deadline : Z) : SE K dstop Z :=
  r ← sys (sys_getaddrinfo hostname (dec_signed portnumber) PF_UNSPEC SOCK_STREAM IPPROTO_TCP);
  match r with
  | None => mret AMQP_STATUS_HOSTNAME_RESOLUTION_FAILED
  | Some address_list =>
      '(sockfd, last_error) ← connect_first fuel address_list deadline (-1) 0;
      mret (if negb (last_error =? AMQP_STATUS_OK) || (sockfd =? -1) then last_error else sockfd)
  end.
Definition amqp_open_socket (fuel : nat) (hostname : list Z) (portnumber : Z) : SE K dstop Z :=
  amqp_open_socket_inner fuel hostname portnumber amqp_time_infinite.
(** The int it returns. *)
Definition amqp_open_socket_noblock (fuel : nat) (hostname : list Z) (portnumber : Z) (timeout : option timeval) : SE K dstop Z :=
  d ← c_status (timed (amqp_time_from_now timeout));
  match d with
  | inl res => mret res
  | inr deadline => amqp_open_socket_inner fuel hostname portnumber deadline
  end.
End sockets.

(** ** The class *)

(** struct amqp_tcp_socket_t, with the system it lives in. *)
Record tcp (K : Type) := mk_tcp { sockfd : Z; internal_error : Z; kernel : K }.
Arguments mk_tcp {K}. Arguments sockfd {K}. Arguments internal_error {K}. Arguments kernel {K}.
(** amqp_tcp_socket_new *)
Definition amqp_tcp_socket_new {K} (k : K) : tcp K := mk_tcp (-1) 0 k.
Definition amqp_tcp_socket_set_sockfd {K} (fd : Z) (s : tcp K) : tcp K := mk_tcp fd (internal_error s) (kernel s).

Section tcp_class.
Context {K : Type} `{SockSys K}.
Definition set_error (e : Z) (k : K) (s : tcp K) : tcp K := mk_tcp (sockfd s) e k.

(** From the label start. *)
Fixpoint tcp_send_loop (fuel : nat) (buf : list Z) : SE (tcp K) dstop Z := fun s =>
  match fuel with
  | O => (inl OutOfFuel, s)
  | S fuel' =>
      match sys_send (sockfd s) buf (kernel s) with
      | (inr res, k) => (inr res, set_error 0 k s)
      | (inl e, k) =>
          let s' := set_error e k s in
          if e =? EINTR then tcp_send_loop fuel' buf s'
          else if e =? EAGAIN then (inr AMQP_PRIVATE_STATUS_SOCKET_NEEDWRITE, s')
          else (inr AMQP_STATUS_SOCKET_ERROR, s')
      end
  end.
Definition amqp_tcp_socket_send (fuel : nat) (buf : list Z) : SE (tcp K) dstop Z := fun s =>
  if sockfd s =? -1 then (inr AMQP_STATUS_SOCKET_CLOSED, s) else tcp_send_loop fuel buf s.

Fixpoint tcp_recv_loop (fuel : nat) (len : Z) : SE (tcp K) dstop (Z + list Z) := fun s =>
  match fuel with
  | O => (inl OutOfFuel, s)
  | S fuel' =>
      match sys_recv (sockfd s) len (kernel s) with
      | (inr data, k) =>
          let s' := set_error (internal_error s) k s in
          (inr (if zlen data =? 0 then inl AMQP_STATUS_CONNECTION_CLOSED else inr data), s')
      | (inl e, k) =>
          let s' := set_error e k s in
          if e =? EINTR then tcp_recv_loop fuel' len s'
          else if e =? EAGAIN then (inr (inl AMQP_PRIVATE_STATUS_SOCKET_NEEDREAD), s')
          else (inr (inl AMQP_STATUS_SOCKET_ERROR), s')
      end
  end.
Definition amqp_tcp_socket_recv (fuel : nat) (len : Z) : SE (tcp K) dstop (Z + list Z) := fun s =>
  if sockfd s =? -1 then (inr (inl AMQP_STATUS_SOCKET_CLOSED), s) else tcp_recv_loop fuel len s.

Definition amqp_tcp_socket_open (fuel : nat) (host : list Z) (port : Z) (timeout : option timeval) : SE (tcp K) dstop Z := fun s =>
  if negb (sockfd s =? -1) then (inr AMQP_STATUS_SOCKET_INUSE, s)
  else
    match amqp_open_socket_noblock fuel host port timeout (kernel s) with
    | (inr fd, k) =>
        if fd <? 0 then (inr fd, mk_tcp (-1) (internal_error s) k)
        else (inr AMQP_STATUS_OK, mk_tcp fd (internal_error s) k)
    | (inl e, k) => (inl e, mk_tcp (sockfd s) (internal_error s) k)
    end.
Definition amqp_tcp_socket_close (s : tcp K) : Z * tcp K :=
  if sockfd s =? -1 then (AMQP_STATUS_SOCKET_CLOSED, s)
  else
    match sys_close (sockfd s) (kernel s) with
    | (inl _, k) => (AMQP_STATUS_SOCKET_ERROR, mk_tcp (sockfd s) (internal_error s) k)
    | (inr _, k) => (AMQP_STATUS_OK, mk_tcp (-1) (internal_error s) k)
    end.
Definition amqp_tcp_socket_get_sockfd (s : tcp K) : Z := sockfd s.
(** The system after amqp_tcp_socket_delete; the memory of the socket is gone. *)
Definition amqp_tcp_socket_delete (s : tcp K) : K := kernel (amqp_tcp_socket_close s).2.

(** amqp_tcp_socket_class, with a bound on how often a call is interrupted. *)
Definition tcp_poll : PollSys (tcp K) := {|
  poll_clock s :=
    match amqp_get_monotonic_timestamp (kernel s) with (r, k) => (r, set_error (internal_error s) k s) end;
  sys_poll fd event timeout s :=
    match sys_poll fd event timeout (kernel s) with (r, k) => (r, set_error (internal_error s) k s) end
|}.
Definition amqp_tcp_socket_class (fuel : nat) : Net (tcp K) := {|
  net_poll := tcp_poll;
  klass_recv := amqp_tcp_socket_recv fuel;
  klass_send := amqp_tcp_socket_send fuel;
  klass_get_sockfd := amqp_tcp_socket_get_sockfd;
  klass_close := amqp_tcp_socket_close
|}.
End tcp_class.

(** ** A TCP socket is a stream *)

(** What POSIX says about send, recv and poll on a connected stream socket:
    send takes a part of the data, recv gives a part of what has arrived, both
    may be interrupted or say that the caller has to wait. *)
Class StreamSys (K : Type) `{SockSys K} := {
  connected : Z -> K -> Prop;
  k_incoming : Z -> K -> list Z;
  k_taken : Z -> K -> list Z;
  k_patience : K -> Z;
  k_patience_nonneg k : 0 <= k_patience k;
  sys_send_law fd k buf : connected fd k -> buf <> [] ->
    exists r k', sys_send fd buf k = (r, k') /\ connected fd k' /\ k_incoming fd k' = k_incoming fd k /\
    match r with
    | inr n => 0 < n <= zlen buf /\ k_taken fd k' = k_taken fd k ++ ztake n buf /\ k_patience k' <= k_patience k
    | inl e => (e = EINTR \/ e = EAGAIN) /\ k_taken fd k' = k_taken fd k /\ k_patience k' < k_patience k
    end;
  sys_recv_law fd k len : connected fd k -> k_incoming fd k <> [] -> 0 < len ->
    exists r k', sys_recv fd len k = (r, k') /\ connected fd k' /\ k_taken fd k' = k_taken fd k /\
    match r with
    | inr data => k_incoming fd k = data ++ k_incoming fd k' /\ 0 < zlen data <= len /\ k_patience k' <= k_patience k
    | inl e => (e = EINTR \/ e = EAGAIN) /\ k_incoming fd k' = k_incoming fd k /\ k_patience k' < k_patience k
    end;
  sys_poll_law fd k event timeout : connected fd k ->
    exists r k', sys_poll fd event timeout k = (r, k') /\ connected fd k' /\ k_incoming fd k' = k_incoming fd k /\
    k_taken fd k' = k_taken fd k /\
    (r = PollReady /\ k_patience k' <= k_patience k \/ r = PollInterrupted /\ k_patience k' < k_patience k)
}.

Section stream_socket.
Context {K : Type} `{StreamSys K} (fuel : nat).
#[local] Existing Instance amqp_tcp_socket_class.
Implicit Types (s : tcp K).

Definition tcp_up s : Prop :=
  0 <= sockfd s /\ connected (sockfd s) (kernel s) /\ k_patience (kernel s) < Z.of_nat fuel.
Definition tcp_incoming s : list Z := k_incoming (sockfd s) (kernel s).
Definition tcp_taken s : list Z := k_taken (sockfd s) (kernel s).
Definition tcp_patience s : Z := k_patience (kernel s).

Lemma tcp_send_loop_ok n (buf : list Z) s :
  0 <= sockfd s -> connected (sockfd s) (kernel s) -> k_patience (kernel s) < Z.of_nat n -> (n <= fuel)%nat -> buf <> [] ->
  exists res s', tcp_send_loop n buf s = (inr res, s') /\ tcp_up s' /\ tcp_incoming s' = tcp_incoming s /\
    (0 < res <= zlen buf /\ tcp_taken s' = tcp_taken s ++ ztake res buf /\ tcp_patience s' <= tcp_patience s \/
     res = AMQP_PRIVATE_STATUS_SOCKET_NEEDWRITE /\ tcp_taken s' = tcp_taken s /\ tcp_patience s' < tcp_patience s).
Proof.
  unfold tcp_up, tcp_incoming, tcp_taken, tcp_patience. revert s.
  induction n as [|n IH]; intros s Hfd Hc Hp Hn Hb; [pose proof (k_patience_nonneg (kernel s)); lia|].
  cbn [tcp_send_loop]. destruct (sys_send_law (sockfd s) (kernel s) buf Hc Hb) as (r & k' & -> & Hc' & Hi & Hr).
  destruct r as [e|res].
  - destruct Hr as ([-> | ->] & Ht & Hp'); cbn [Z.eqb EINTR EAGAIN Pos.eqb].
    + destruct (IH (set_error EINTR k' s)) as (res & s' & -> & Hup & Hi' & Hx); cbn [sockfd kernel set_error] in *; [done|done|lia|lia|done|].
      exists res, s'. split; [done|]. split; [done|]. split; [congruence|].
      destruct Hx as [(Hk & Ht' & Hp'')|(-> & Ht' & Hp'')]; [left|right]; repeat split; try congruence; lia.
    + eexists _, _. split; [reflexivity|]. cbn. repeat split; try done; try lia. right. repeat split; try done.
  - eexists _, _. split; [reflexivity|]. cbn. destruct Hr as (Hk & Ht & Hp'). repeat split; try done; try lia. left. done.
Qed.
Lemma tcp_recv_loop_ok n len s :
  0 <= sockfd s -> connected (sockfd s) (kernel s) -> k_patience (kernel s) < Z.of_nat n -> (n <= fuel)%nat ->
  tcp_incoming s <> [] -> 0 < len ->
  exists r s', tcp_recv_loop n len s = (inr r, s') /\ tcp_up s' /\ tcp_taken s' = tcp_taken s /\
    match r with
    | inr data => tcp_incoming s = data ++ tcp_incoming s' /\ 0 < zlen data <= len /\ tcp_patience s' <= tcp_patience s
    | inl res => res = AMQP_PRIVATE_STATUS_SOCKET_NEEDREAD /\ tcp_incoming s' = tcp_incoming s /\ tcp_patience s' < tcp_patience s
    end.
Proof.
  unfold tcp_up, tcp_incoming, tcp_taken, tcp_patience. revert s.
  induction n as [|n IH]; intros s Hfd Hc Hp Hn Hi Hl; [pose proof (k_patience_nonneg (kernel s)); lia|].
  cbn [tcp_recv_loop]. destruct (sys_recv_law (sockfd s) (kernel s) len Hc Hi Hl) as (r & k' & -> & Hc' & Ht & Hr).
  destruct r as [e|data].
  - destruct Hr as ([-> | ->] & Hi' & Hp'); cbn [Z.eqb EINTR EAGAIN Pos.eqb].
    + destruct (IH (set_error EINTR k' s)) as (r & s' & -> & Hup & Ht' & Hx); cbn [sockfd kernel set_error] in *;
        [done|done|lia|lia|congruence|done|].
      exists r, s'. split; [done|]. split; [done|]. split; [congruence|].
      destruct r as [res|data]; destruct Hx as (Hx1 & Hx2 & Hx3); repeat split; try congruence; lia.
    + eexists _, _. split; [reflexivity|]. cbn. repeat split; try done; lia.
  - destruct Hr as (Hd & Hz & Hp'). rewrite (proj2 (Z.eqb_neq _ _)) by lia.
    eexists _, _. split; [reflexivity|]. cbn. repeat split; try done; lia.
Qed.

#[export] Instance tcp_stream : @StreamNet (tcp K) (amqp_tcp_socket_class fuel).
Proof.
  refine {| up := tcp_up; incoming := tcp_incoming; taken := tcp_taken; patience := tcp_patience |}.
  - intros s. apply k_patience_nonneg.
  - intros s (Hfd & _). cbn. unfold amqp_tcp_socket_get_sockfd. lia.
  - intros s size (Hfd & Hc & Hp) Hi Hs. cbn [klass_recv amqp_tcp_socket_class]. unfold amqp_tcp_socket_recv.
    rewrite (proj2 (Z.eqb_neq _ _)) by lia. by apply tcp_recv_loop_ok.
  - intros s buf (Hfd & Hc & Hp) Hb. cbn [klass_send amqp_tcp_socket_class]. unfold amqp_tcp_socket_send.
    rewrite (proj2 (Z.eqb_neq _ _)) by lia. by apply tcp_send_loop_ok.
  - intros s event timeout (Hfd & Hc & Hp). cbn [klass_get_sockfd net_poll sys_poll amqp_tcp_socket_class tcp_poll].
    unfold amqp_tcp_socket_get_sockfd.
    destruct (sys_poll_law (sockfd s) (kernel s) event timeout Hc) as (r & k' & -> & Hc' & Hi & Ht & Hr).
    eexists _, _. split; [reflexivity|]. unfold tcp_up, tcp_incoming, tcp_taken, tcp_patience. cbn.
    repeat split; try done. lia.
Defined.
End stream_socket.

(** ** Opening a socket keeps track of descriptors *)

(** The open descriptors, and which of them close on exec and do not block. *)
Record fd_state := mk_fds { fds_open : gset Z; fds_cloexec : gset Z; fds_nonblock : gset Z }.
Definition fds_close (fd : Z) (f : fd_state) : fd_state :=
  mk_fds (fds_open f ∖ {[fd]}) (fds_cloexec f ∖ {[fd]}) (fds_nonblock f ∖ {[fd]}).
Definition flag_fd (on : bool) (fd : Z) (s : gset Z) : gset Z := if on then {[fd]} ∪ s else s ∖ {[fd]}.

(** What the system calls do to descriptors: socket makes a new one, fcntl
    sets its flags, close releases it even when it reports an error, the others
    change none.  [waits] bounds how often poll is interrupted.  getaddrinfo
    gives an address when it succeeds. *)
Class FdSys (K : Type) `{SockSys K} := {
  fds : K -> fd_state;
  waits : K -> Z;
  waits_nonneg k : 0 <= waits k;
  fds_flags k : fds_cloexec (fds k) ⊆ fds_open (fds k) /\ fds_nonblock (fds k) ⊆ fds_open (fds k);
  fds_getaddrinfo h p f t r k a k' : sys_getaddrinfo h p f t r k = (a, k') ->
    fds k' = fds k /\ waits k' <= waits k /\ a <> Some [];
  fds_socket f t p k r k' : sys_socket f t p k = (r, k') -> waits k' <= waits k /\
    match r with
    | inl _ => fds k' = fds k
    | inr fd => 0 <= fd /\ (fd ∉ fds_open (fds k)) /\
        fds k' = mk_fds ({[fd]} ∪ fds_open (fds k)) (fds_cloexec (fds k)) (fds_nonblock (fds k))
    end;
  fds_fcntl fd cmd k r k' : sys_fcntl fd cmd k = (r, k') -> waits k' <= waits k /\
    fds k' =
      match r, cmd with
      | inr _, F_SETFD flags =>
          mk_fds (fds_open (fds k)) (flag_fd (Z.testbit flags 0) fd (fds_cloexec (fds k))) (fds_nonblock (fds k))
      | inr _, F_SETFL flags =>
          mk_fds (fds_open (fds k)) (fds_cloexec (fds k)) (flag_fd (Z.testbit flags 11) fd (fds_nonblock (fds k)))
      | _, _ => fds k
      end;
  fds_setsockopt fd l o v k r k' : sys_setsockopt fd l o v k = (r, k') -> fds k' = fds k /\ waits k' <= waits k;
  fds_connect fd a k r k' : sys_connect fd a k = (r, k') -> fds k' = fds k /\ waits k' <= waits k;
  fds_so_error fd k r k' : sys_so_error fd k = (r, k') -> fds k' = fds k /\ waits k' <= waits k;
  fds_sys_close fd k r k' : sys_close fd k = (r, k') -> fds k' = fds_close fd (fds k) /\ waits k' <= waits k;
  fds_clock k r k' : amqp_get_monotonic_timestamp k = (r, k') -> fds k' = fds k /\ waits k' <= waits k;
  fds_poll fd e t k r k' : sys_poll fd e t k = (r, k') -> fds k' = fds k /\ waits k' <= waits k /\
    (r = PollInterrupted -> waits k' < waits k)
}.

Section descriptors.
Context {K : Type} `{FdSys K}.

(** Nothing happened to descriptors. *)
Definition same_fds (k k' : K) : Prop := fds k' = fds k /\ waits k' <= waits k.
Lemma same_fds_refl k : same_fds k k.
Proof. split; [done|lia]. Qed.
Lemma same_fds_trans k1 k2 k3 : same_fds k1 k2 -> same_fds k2 k3 -> same_fds k1 k3.
Proof. intros [E1 W1] [E2 W2]. split; [congruence|lia]. Qed.

(** A computation that returns or stops with a status, which is below -1. *)
Definition stops_well {A} (r : dstop + A) : Prop :=
  match r with inr _ => True | inl (Status res) => res < -1 | inl _ => False end.

Lemma ms_until_same deadline k :
  exists r k', amqp_time_ms_until deadline k = (r, k') /\ same_fds k k' /\ (forall res, r = inl res -> res = AMQP_STATUS_TIMER_FAILURE).
Proof.
  unfold amqp_time_ms_until. destruct (_ =? _); [by exists (inr (-1)), k; split; [|split; [apply same_fds_refl|]]|].
  destruct (_ =? _); [by exists (inr 0), k; split; [|split; [apply same_fds_refl|]]|].
  unfold mbind, SE_bind, now_ns. destruct (amqp_get_monotonic_timestamp k) as [[e|t] k'] eqn:E; [destruct e|].
  apply fds_clock in E. destruct t; [by exists (inl AMQP_STATUS_TIMER_FAILURE), k'; split; [|split; [|intros ? [= <-]]]| |];
    destruct (_ <=? _); eexists _, k'; (split; [reflexivity|]); done.
Qed.

Lemma poll_same fuel fd event deadline k :
  waits k < Z.of_nat fuel ->
  exists r k', amqp_poll fuel fd event deadline k = (r, k') /\ same_fds k k' /\ stops_well r.
Proof.
  revert k. induction fuel as [|fuel IH]; intros k Hw; [pose proof (waits_nonneg k); lia|].
  cbn [amqp_poll]. destruct (ms_until_same deadline k) as (r & k1 & Hr & Hs1 & Hneg).
  assert (Hc : c_status (timed (amqp_time_ms_until deadline)) k = (inr r, k1)).
  { unfold c_status, timed. rewrite Hr. by destruct r. }
  rewrite (SE_bind_ok _ _ _ _ _ Hc). set (ms := match r with inl res => res | inr ms => ms end).
  cbn zeta. destruct (Z.ltb_spec ms (-1)) as [Hlt|_].
  { eexists _, _. split; [reflexivity|]. split; [done|]. cbn. lia. }
  destruct (sys_poll fd event ms k1) as [p k2] eqn:Hp. apply fds_poll in Hp as Hp'. destruct Hp' as (Ef & Ew & Hi).
  rewrite (SE_bind_ok _ _ k1 p k2) by (by rewrite Hp). assert (Hs2 : same_fds k k2) by (eapply same_fds_trans; [done|by split]).
  destruct p.
  - by exists (inr tt), k2.
  - by exists (inl (Status AMQP_STATUS_TIMEOUT)), k2.
  - specialize (Hi eq_refl). destruct Hs1 as [_ W1]. destruct (IH k2 ltac:(lia)) as (r' & k' & Hx & Hs' & Hst).
    exists r', k'. split; [exact Hx|]. split; [by eapply same_fds_trans|done].
  - by exists (inl (Status AMQP_STATUS_SOCKET_ERROR)), k2.
Qed.

(** Since [k0] only [fd] was opened; [c] and [n]: it closes on exec and does
    not block. *)
Record mine (fd : Z) (k0 : K) (c n : bool) (k : K) : Prop := {
  mine_open : fds_open (fds k) = {[fd]} ∪ fds_open (fds k0);
  mine_cloexec : fds_cloexec (fds k) ∖ {[fd]} = fds_cloexec (fds k0);
  mine_nonblock : fds_nonblock (fds k) ∖ {[fd]} = fds_nonblock (fds k0);
  mine_c : c = true -> fd ∈ fds_cloexec (fds k);
  mine_n : n = true -> fd ∈ fds_nonblock (fds k);
  mine_waits : waits k <= waits k0
}.
Lemma mine_same fd k0 c n k k' : mine fd k0 c n k -> same_fds k k' -> mine fd k0 c n k'.
Proof. intros [Ho Hc Hn Hcc Hnn Hw] [E W]. constructor; rewrite ?E; [done..|lia]. Qed.
Lemma mine_weaken fd k0 c n k : mine fd k0 c n k -> mine fd k0 false false k.
Proof. by intros [Ho Hc Hn Hcc Hnn Hw]. Qed.
Lemma flag_on fd (s : gset Z) : flag_fd true fd s ∖ {[fd]} = s ∖ {[fd]} /\ fd ∈ flag_fd true fd s.
Proof. split; [apply set_eq; intros x|]; unfold flag_fd; set_solver. Qed.
Lemma mine_set_cloexec fd k0 c n k k' flags r :
  mine fd k0 c n k -> sys_fcntl fd (F_SETFD (Z.lor flags FD_CLOEXEC)) k = (inr r, k') -> mine fd k0 true n k'.
Proof.
  intros [Ho Hc Hn Hcc Hnn Hw] [W E]%fds_fcntl. rewrite Z.lor_spec, orb_true_r in E.
  destruct (flag_on fd (fds_cloexec (fds k))) as [F1 F2]. constructor; rewrite ?E; cbn [fds_open fds_cloexec fds_nonblock]; [done|congruence|done|done|done|lia].
Qed.
Lemma mine_set_nonblock fd k0 c n k k' flags r :
  mine fd k0 c n k -> sys_fcntl fd (F_SETFL (Z.lor flags O_NONBLOCK)) k = (inr r, k') -> mine fd k0 c true k'.
Proof.
  intros [Ho Hc Hn Hcc Hnn Hw] [W E]%fds_fcntl. rewrite Z.lor_spec, orb_true_r in E.
  destruct (flag_on fd (fds_nonblock (fds k))) as [F1 F2]. constructor; rewrite ?E; cbn [fds_open fds_cloexec fds_nonblock]; [done|done|congruence|done|done|lia].
Qed.
Lemma fcntl_failed fd cmd k e k' : sys_fcntl fd cmd k = (inl e, k') -> same_fds k k'.
Proof. intros [W E]%fds_fcntl. by split. Qed.
Lemma fcntl_get fd cmd k r k' : cmd = F_GETFD \/ cmd = F_GETFL -> sys_fcntl fd cmd k = (r, k') -> same_fds k k'.
Proof. intros [-> | ->] [W E]%fds_fcntl; (split; [by destruct r|done]). Qed.

Lemma sys_bind {A B} (m : K -> A * K) (f : A -> SE K dstop B) k a k' : m k = (a, k') -> (sys m ≫= f) k = f a k'.
Proof. intros E. apply (SE_bind_ok _ _ _ a). unfold sys. by rewrite E. Qed.

(** A step that goes on, or ends with SOCKET_ERROR. *)
Ltac fd_step call Hm law :=
  let r := fresh "r" in let k' := fresh "k" in let E := fresh "E" in
  destruct call as [[r|r] k'] eqn:E; rewrite (sys_bind _ _ _ _ _ E); cbn [or_err];
  [eexists _, _; split; [reflexivity|]; split; [done|]; eapply mine_weaken, mine_same; [exact Hm|by eapply law]
  |rewrite (SE_bind_ret_l r)].

Lemma prepare_ok fuel fd address deadline k0 k :
  mine fd k0 false false k -> waits k0 < Z.of_nat fuel ->
  exists r k', prepare_and_connect fuel fd address deadline k = (r, k') /\ stops_well r /\
    match r with inr _ => mine fd k0 true true k' | inl _ => mine fd k0 false false k' end.
Proof.
  intros Hm Hw. unfold prepare_and_connect.
  fd_step (sys_fcntl fd F_GETFD k) Hm fcntl_failed.
  assert (Hm1 : mine fd k0 false false k1) by (eapply mine_same; [exact Hm|]; eapply fcntl_get; [by left|done]).
  fd_step (sys_fcntl fd (F_SETFD (Z.lor r FD_CLOEXEC)) k1) Hm1 fcntl_failed.
  eapply mine_set_cloexec in Hm1 as Hm2; [|done].
  fd_step (sys_fcntl fd F_GETFL k2) Hm2 fcntl_failed.
  assert (Hm3 : mine fd k0 true false k3) by (eapply mine_same; [exact Hm2|]; eapply fcntl_get; [by right|done]).
  fd_step (sys_fcntl fd (F_SETFL (Z.lor r1 O_NONBLOCK)) k3) Hm3 fcntl_failed.
  eapply mine_set_nonblock in Hm3 as Hm4; [|done].
  fd_step (sys_setsockopt fd IPPROTO_TCP TCP_NODELAY 1 k4) Hm4 fds_setsockopt.
  apply fds_setsockopt in E3. eapply mine_same in Hm4 as Hm5; [|exact E3].
  fd_step (sys_setsockopt fd SOL_SOCKET SO_KEEPALIVE 1 k5) Hm5 fds_setsockopt.
  apply fds_setsockopt in E4. eapply mine_same in Hm5 as Hm6; [|exact E4].
  destruct (sys_connect fd address k6) as [[e|u] k7] eqn:E5; rewrite (sys_bind _ _ _ _ _ E5); cbn iota;
    apply fds_connect in E5; eapply mine_same in Hm6 as Hm7; try exact E5.
  2:{ eexists _, _. split; [reflexivity|]. done. }
  destruct (e =? EINPROGRESS); cbn [negb]; [|eexists _, _; split; [reflexivity|]; split; [done|by eapply mine_weaken]].
  pose proof (mine_waits _ _ _ _ _ Hm7) as Hw7. destruct (poll_same fuel fd AMQP_SF_POLLOUT deadline k7 ltac:(lia)) as ([x|[]] & k8 & Hp & Hs & Hst).
  { rewrite (SE_bind_err _ _ _ _ _ Hp). eexists _, _. split; [reflexivity|]. split; [done|]. by eapply mine_weaken, mine_same. }
  rewrite (SE_bind_ok _ _ _ _ _ Hp). eapply mine_same in Hm7 as Hm8; [|exact Hs].
  fd_step (sys_so_error fd k8) Hm8 fds_so_error.
  apply fds_so_error in E6. eapply mine_same in Hm8 as Hm9; [|exact E6].
  destruct (_ =? 0); cbn [negb]; eexists _, _; (split; [reflexivity|]); (split; [done|]); [done|by eapply mine_weaken].
Qed.

(** A connected descriptor that is new, closes on exec and does not block. *)
Definition opened (fd : Z) (k k' : K) : Prop :=
  0 <= fd /\ (fd ∉ fds_open (fds k)) /\
  fds k' = mk_fds ({[fd]} ∪ fds_open (fds k)) ({[fd]} ∪ fds_cloexec (fds k)) ({[fd]} ∪ fds_nonblock (fds k)).
Definition open_outcome (r : Z) (k k' : K) : Prop :=
  waits k' <= waits k /\ (opened r k k' \/ r < -1 /\ fds k' = fds k).

Lemma fd_state_eq f O C N : fds_open f = O -> fds_cloexec f = C -> fds_nonblock f = N -> f = mk_fds O C N.
Proof. destruct f. cbn. congruence. Qed.
Lemma mine_done fd k0 k : (fd ∉ fds_open (fds k0)) -> 0 <= fd -> mine fd k0 true true k -> opened fd k0 k.
Proof.
  intros Hfd Hn [Ho Hc Hb Hc' Hb' _]. specialize (Hc' eq_refl). specialize (Hb' eq_refl). split; [done|]. split; [done|].
  apply fd_state_eq; [done|rewrite <- Hc|rewrite <- Hb]; by apply union_difference_singleton_L.
Qed.
Lemma mine_closed fd k0 k k' r :
  (fd ∉ fds_open (fds k0)) -> mine fd k0 false false k -> sys_close fd k = (r, k') -> fds k' = fds k0 /\ waits k' <= waits k0.
Proof.
  intros Hfd [Ho Hc Hb _ _ Hw] [E W]%fds_sys_close. split; [|lia]. rewrite E. unfold fds_close. rewrite Ho, Hc, Hb.
  symmetry. apply fd_state_eq; [set_solver|done|done].
Qed.

Lemma connect_socket_ok fuel addr deadline k :
  waits k < Z.of_nat fuel ->
  exists r k', connect_socket fuel addr deadline k = (inr r, k') /\ open_outcome r k k'.
Proof.
  intros Hw. unfold connect_socket.
  destruct (sys_socket (ai_family addr) (ai_socktype addr) (ai_protocol addr) k) as [[e|fd] k1] eqn:E;
    rewrite (sys_bind _ _ _ _ _ E); cbn iota; apply fds_socket in E as (W1 & E).
  { eexists _, _. split; [reflexivity|]. split; [done|]. right. done. }
  destruct E as (Hn & Hfd & E). destruct (fds_flags k) as [Fc Fn].
  assert (Hm : mine fd k false false k1).
  { constructor; rewrite ?E; cbn; try done; set_solver. }
  destruct (prepare_ok fuel fd (ai_address addr) deadline k k1 Hm Hw) as ([x|[]] & k2 & Hp & Hst & Hm2).
  - destruct x as [res| |]; try done. rewrite (SE_bind_ok _ _ _ (inl res) k2) by (unfold c_status; by rewrite Hp). cbn iota.
    destruct (sys_close fd k2) as [r k3] eqn:Ec. rewrite (sys_bind _ _ _ _ _ Ec).
    destruct (mine_closed fd k k2 k3 r Hfd Hm2 Ec) as [E3 W3]. eexists _, _. split; [reflexivity|]. split; [done|]. right. done.
  - rewrite (SE_bind_ok _ _ _ _ _ (c_status_ok _ _ _ _ Hp)). cbn iota. eexists _, _. split; [reflexivity|].
    split; [by apply (mine_waits _ _ _ _ _ Hm2)|]. left. by apply mine_done.
Qed.

Lemma opened_ext fd k k1 k' : fds k1 = fds k -> opened fd k1 k' -> opened fd k k'.
Proof. unfold opened. by intros ->. Qed.

Lemma connect_first_ok fuel addrs deadline fd0 k :
  waits k < Z.of_nat fuel -> (fd0 < -1 \/ addrs <> []) ->
  exists fd last k', connect_first fuel addrs deadline fd0 AMQP_STATUS_OK k = (inr (fd, last), k') /\
    open_outcome fd k k' /\ (last = AMQP_STATUS_OK \/ last = fd /\ fd < -1).
Proof.
  revert fd0 k. induction addrs as [|addr rest IH]; intros fd0 k Hw Hne; cbn [connect_first].
  - destruct Hne as [Hne|]; [|done]. eexists _, _, _. split; [reflexivity|]. split; [|by left]. split; [lia|]. by right.
  - destruct (connect_socket_ok fuel addr deadline k Hw) as (fd & k1 & Hc & Hw1 & Hout). rewrite (SE_bind_ok _ _ _ _ _ Hc).
    destruct (Z.leb_spec 0 fd).
    { eexists _, _, _. split; [reflexivity|]. split; [by split|by left]. }
    destruct Hout as [(Hpos & _)|[Hlt E1]]; [lia|]. destruct (Z.eqb_spec fd AMQP_STATUS_TIMEOUT) as [->|].
    { eexists _, _, _. split; [reflexivity|]. split; [split; [done|by right]|by right]. }
    destruct (IH fd k1 ltac:(lia) (or_introl Hlt)) as (fd' & last & k2 & Hx & [Hw2 Hout2] & Hl). rewrite Hx.
    eexists _, _, _. split; [reflexivity|]. split; [|done]. split; [lia|].
    destruct Hout2 as [Ho|[? E2]]; [left; by eapply opened_ext|right; split; [done|congruence]].
Qed.

(** amqp_open_socket_inner leaves nothing behind: for every deadline and
    whatever the system answers it returns; what it returns is a new
    descriptor, which closes on exec and does not block and is the only one
    that was added, or a negative status, and then the descriptors are as
    before. *)
Theorem open_socket_no_leak (fuel : nat) (hostname : list Z) (portnumber deadline : Z) (k : K) :
  waits k < Z.of_nat fuel ->
  exists r k', amqp_open_socket_inner fuel hostname portnumber deadline k = (inr r, k') /\
    (opened r k k' \/ r < 0 /\ fds k' = fds k).
Proof.
  intros Hw. unfold amqp_open_socket_inner.
  destruct (sys_getaddrinfo hostname (dec_signed portnumber) PF_UNSPEC SOCK_STREAM IPPROTO_TCP k) as [a k1] eqn:E.
  rewrite (sys_bind _ _ _ _ _ E). apply fds_getaddrinfo in E as (E1 & W1 & Hne).
  destruct a as [addrs|]; [|by eexists _, _; split; [reflexivity|right]].
  destruct (connect_first_ok fuel addrs deadline (-1) k1 ltac:(lia)) as (fd & last & k2 & Hx & [W2 Hout] & Hl); [right; congruence|].
  rewrite (SE_bind_ok _ _ _ _ _ Hx). eexists _, _. split; [reflexivity|].
  assert (Hfd : fd <> -1) by (destruct Hout as [(? & _)|[? _]]; lia).
  rewrite (proj2 (Z.eqb_neq fd (-1)) Hfd), orb_false_r. destruct Hl as [->|[-> Hneg]].
  - cbn. destruct Hout as [Ho|[Hlt E2]]; [left; by eapply opened_ext|right; split; [lia|congruence]].
  - destruct Hout as [(Hpos & _)|[_ E2]]; [lia|]. right. destruct (negb _); (split; [lia|congruence]).
Qed.
End descriptors.

(** ** Witness *)

(** A system with two addresses: the first refuses, the second connects after
    poll was interrupted. *)
Record demo_kernel := mk_dk { dk_open : gset Z; dk_ce : gset Z; dk_nb : gset Z; dk_next : Z; dk_waits : nat }.
Definition dk_poll (k : demo_kernel) : poll_result * demo_kernel :=
  match dk_waits k with
  | S w => (PollInterrupted, mk_dk (dk_open k) (dk_ce k) (dk_nb k) (dk_next k) w)
  | O => (PollReady, k)
  end.
Definition dk_fcntl (fd : Z) (cmd : fcntl_cmd) (k : demo_kernel) : (Z + Z) * demo_kernel :=
  if bool_decide (fd ∈ dk_open k) then
    match cmd with
    | F_SETFD flags => (inr 0, mk_dk (dk_open k) (flag_fd (Z.testbit flags 0) fd (dk_ce k)) (dk_nb k) (dk_next k) (dk_waits k))
    | F_SETFL flags => (inr 0, mk_dk (dk_open k) (dk_ce k) (flag_fd (Z.testbit flags 11) fd (dk_nb k)) (dk_next k) (dk_waits k))
    | _ => (inr 0, k)
    end
  else (inl 9, k).
(** A socket is the number after the last; the flags of closed descriptors are
    those of nobody. *)
Definition dk_socket (k : demo_kernel) : (Z + Z) * demo_kernel :=
  if bool_decide (dk_next k ∈ dk_open k) || (dk_next k <? 0) then (inl 24, k)
  else (inr (dk_next k), mk_dk ({[dk_next k]} ∪ dk_open k) (dk_ce k ∖ {[dk_next k]}) (dk_nb k ∖ {[dk_next k]}) (dk_next k + 1) (dk_waits k)).
#[local] Instance demo_sys : SockSys demo_kernel := {|
  sock_poll := {| poll_clock k := (inr 1, k); sys_poll _ _ _ k := dk_poll k |};
  sys_getaddrinfo _ _ _ _ _ k := (Some [mk_sock_addr 2 1 6 (str "10.0.0.1"); mk_sock_addr 2 1 6 (str "10.0.0.2")], k);
  sys_socket _ _ _ k := dk_socket k;
  sys_fcntl := dk_fcntl;
  sys_setsockopt _ _ _ _ k := (inr tt, k);
  sys_connect _ a k := (inl (if bytes_eqb a (str "10.0.0.1") then 111 else EINPROGRESS), k);
  sys_so_error _ k := (inr 0, k);
  sys_close fd k := (inr tt, mk_dk (dk_open k ∖ {[fd]}) (dk_ce k) (dk_nb k) (dk_next k) (dk_waits k));
  sys_send _ buf k := (inr (zlen buf), k);
  sys_recv _ _ k := (inr [], k)
|}.
Definition dk_fds (k : demo_kernel) : fd_state := mk_fds (dk_open k) (dk_ce k ∩ dk_open k) (dk_nb k ∩ dk_open k).
Lemma flag_fd_inter on fd (s o : gset Z) : fd ∈ o -> flag_fd on fd s ∩ o = flag_fd on fd (s ∩ o).
Proof. intros Hin. apply set_eq. intros x. destruct on; unfold flag_fd; set_solver. Qed.
#[local] Instance demo_fd_sys : FdSys demo_kernel.
Proof.
  refine {| fds := dk_fds; waits k := Z.of_nat (dk_waits k) |}.
  - intros k. lia.
  - intros k. unfold dk_fds. cbn. set_solver.
  - intros h p f t r k a k' [= <- <-]. split; [done|]. split; [lia|done].
  - intros f t p k r k' E. cbn in E. unfold dk_socket in E. destruct (_ || _) eqn:Eb; injection E as <- <-; [split; [lia|done]|].
    apply orb_false_iff in Eb as [Hn%bool_decide_eq_false Hp%Z.ltb_ge]. split; [cbn; lia|]. split; [done|]. split; [done|].
    unfold dk_fds. cbn. f_equal; apply set_eq; intros x; set_solver.
  - intros fd cmd k r k' E. cbn in E. unfold dk_fcntl in E. case_bool_decide as Hin; [|injection E as <- <-; by split; [lia|destruct cmd]].
    destruct cmd; injection E as <- <-; (split; [cbn; lia|]); try done;
      unfold dk_fds; cbn [dk_open dk_ce dk_nb fds_open fds_cloexec fds_nonblock]; by rewrite flag_fd_inter.
  - intros fd l o v k r k' [= <- <-]. split; [done|lia].
  - intros fd a k r k' [= <- <-]. split; [done|lia].
  - intros fd k r k' [= <- <-]. split; [done|lia].
  - intros fd k r k' [= <- <-]. split; [|cbn; lia]. unfold dk_fds, fds_close. cbn. f_equal; apply set_eq; intros x; set_solver.
  - intros k r k' [= <- <-]. split; [done|lia].
  - intros fd e t k r k' E. cbn in E. unfold dk_poll in E. destruct (dk_waits k) as [|w] eqn:Ew; injection E as <- <-; unfold dk_fds; cbn.
    + split; [done|]. split; [lia|done].
    + split; [done|]. split; [lia|]. intros _. lia.
Defined.
Lemma open_socket_no_leak_witness :
  exists k', amqp_open_socket_inner 5 (str "broker") 5672 amqp_time_infinite (mk_dk {[0; 1; 2]} ∅ ∅ 3 2) = (inr 4, k') /\
    opened 4 (mk_dk {[0; 1; 2]} ∅ ∅ 3 2) k'.
Proof.
  destruct (open_socket_no_leak 5 (str "broker") 5672 amqp_time_infinite (mk_dk {[0; 1; 2]} ∅ ∅ 3 2)) as (r & k' & E & Ho).
  - vm_compute. reflexivity.
  - assert (Hr : r = 4).
    { pose proof (f_equal fst E) as E'. vm_compute in E'. by injection E'. }
    subst r. exists k'. split; [exact E|]. destruct Ho as [Ho|[Hneg _]]; [exact Ho|]. lia.
Defined.
