(* ===== verification/AmqpLogin.v ===== *)
(** * Opening a connection to the broker: the login dialogue of amqp_socket.c and
      the life of a connection in amqp_connection.c

    amqp_new_connection makes a connection, amqp_login speaks with the broker
    until it is open (header, Start, Start-Ok, Tune, Tune-Ok, Open, Open-Ok),
    amqp_destroy_connection gives everything back.  On the way the capabilities
    the caller asks for are merged into those of the library
    (amqp_merge_capabilities), the mechanism is looked up in the list the
    broker offers, and the limits both sides want are brought together
    (amqp_tune_connection). *)

From stdpp Require Import gmap strings.
From S2P Require Import Prelude Sshbuf AmqpMem AmqpCodec AmqpTable AmqpPools AmqpFraming AmqpConn AmqpTime AmqpSocket AmqpStream.
#[local] Open Scope string_scope.
#[local] Open Scope list_scope.
#[local] Open Scope Z_scope.

Definition AMQP_STATUS_INCOMPATIBLE_AMQP_VERSION : Z := -6.
Definition AMQP_STATUS_BROKER_UNSUPPORTED_SASL_METHOD : Z := -0x13.
Definition AMQP_PROTOCOL_VERSION_MAJOR : Z := 0.
Definition AMQP_PROTOCOL_VERSION_MINOR : Z := 9.
Definition AMQP_VERSION_STRING : list Z := str "0.10.0-pre".
Definition AMQ_PLATFORM : list Z := str "Linux".
Definition AMQ_COPYRIGHT : list Z :=
  str "Copyright (c) 2007-2014 VMWare Inc, Tony Garnock-Jones, and Alan Antonuk.".
Definition AMQP_INITIAL_FRAME_POOL_PAGE_SIZE : Z := 65536.

(** ** The mechanism *)

(** amqp_sasl_method_enum with the arguments that follow it in the call. *)
Inductive sasl :=
  | AMQP_SASL_METHOD_PLAIN (username password : list Z)
  | AMQP_SASL_METHOD_EXTERNAL (identity : list Z)
  | AMQP_SASL_METHOD_OTHER (method : Z).

(** [None]: amqp_abort. *)
Definition sasl_method_name (method : sasl) : option (list Z) :=
  match method with
  | AMQP_SASL_METHOD_PLAIN _ _ => Some (str "PLAIN")
  | AMQP_SASL_METHOD_EXTERNAL _ => Some (str "EXTERNAL")
  | AMQP_SASL_METHOD_OTHER _ => None
  end.

(** The pointers are never NULL here. *)
Definition bytes_equal (l r : list Z) : bool := (zlen l =? zlen r) && (memcmp l r =? 0).

(** What is before the first blank of the list, and the rest from the blank on. *)
Fixpoint until_blank (s : list Z) : list Z * list Z :=
  match s with
  | [] => ([], [])
  | x :: s' => if x =? 32 then ([], s) else let '(w, r) := until_blank s' in (x :: w, r)
  end.
(** The loop: [start] is the list from the pointer of that name on.  The loop
    ends when [current] is at the end. *)
Fixpoint in_list_from (fuel : nat) (mechanism start : list Z) : bool :=
  match fuel with
  | O => false
  | S fuel' =>
      let '(supported_mechanism, current) := until_blank start in
      if bytes_equal mechanism supported_mechanism then true
      else match current with
           | [] => false
           | _ :: start' => in_list_from fuel' mechanism start'
           end
  end.
Definition sasl_mechanism_in_list (mechanisms : list Z) (method : sasl) : option bool :=
  mechanism ← sasl_method_name method;
  Some (match mechanisms with
        | [] => false
        | _ => in_list_from (S (length mechanisms)) mechanism mechanisms
        end).

Section sasl_response.
Context {M : Type} `{EntryMem M}.
(** The response, built in memory of the pool: [None] when there is none. *)
Definition sasl_response (method : sasl) : SE M dstop (option (list Z)) :=
  match method with
  | AMQP_SASL_METHOD_PLAIN username password =>
      let username := cstr username in
      let password := cstr password in
      fun m => match em_pool_alloc (u64 (zlen username + zlen password + 2)) m with
               | (inr (Some _), m') => (inr (Some ([0] ++ username ++ [0] ++ password)), m')
               | (inr None, m') => (inr None, m')
               | (inl f, m') => (inl (Fault f), m')
               end
  | AMQP_SASL_METHOD_EXTERNAL identity =>
      let identity := cstr identity in
      fun m => match em_pool_alloc (zlen identity) m with
               | (inr (Some _), m') => (inr (Some identity), m')
               | (inr None, m') => (inr None, m')
               | (inl f, m') => (inl (Fault f), m')
               end
  | AMQP_SASL_METHOD_OTHER _ => throw (Fault Aborted)
  end.
End sasl_response.

(** ** Merging capabilities *)

(** A store through the pointer to the first entry with the key. *)
Fixpoint set_entry (key : list Z) (v : field_value) (t : table) : table :=
  match t with
  | [] => []
  | e :: t' => if amqp_bytes_equal e.1 key then (e.1, v) :: t' else e :: set_entry key v t'
  end.

Section merge.
Context `{Heap}.

(** The body of amqp_merge_capabilities around its loops: [build] fills
    temp_result, whose array of [entries] slots comes from a pool of its own
    that is emptied at the end. *)
Definition with_temp_pool {M} `{EntryMem M} (entries : Z) (build : SE (heap * amqp_pool) dstop table)
    : SE M dstop table := fun mem =>
  let '(r, (h, temp_pool)) :=
    (_ ← pool_block (u64 (sizeof_table_entry * entries)); build) (empty_heap, init_amqp_pool 4096) in
  let '(res, mem') := match r with
                      | inr temp_result => amqp_table_clone temp_result mem
                      | inl e => (inl e, mem)
                      end in
  match res with
  | inl (Fault f) => (res, mem')
  | _ => match empty_amqp_pool temp_pool h with
         | (inl f, _) => (inl (Fault f), mem')
         | (inr _, _) => (res, mem')
         end
  end.

(** One entry of [add]; [rec] merges two tables into temp_pool.  An entry that
    both tables have as a table is merged with the one of [base], read
    through the pointer [be] whatever that points to. *)
Definition merge_entry (rec : field_value -> table -> SE (heap * amqp_pool) dstop table) (base : table)
    (e : table_entry) (temp_result : table) : SE (heap * amqp_pool) dstop table :=
  match amqp_table_get_entry_by_key temp_result e.1 with
  | None => mret (temp_result ++ [e])
  | Some old =>
      if (kind_of e.2 =? AMQP_FIELD_KIND_TABLE) && (kind_of old.2 =? AMQP_FIELD_KIND_TABLE) then
        match amqp_table_get_entry_by_key base e.1 with
        | Some (_, FV_TABLE be) => t ← rec e.2 be; mret (set_entry e.1 (FV_TABLE t) temp_result)
        | _ => throw (Fault OutOfBounds)
        end
      else mret (set_entry e.1 e.2 temp_result)
  end.
(** amqp_merge_capabilities as it calls itself, on the table in [add]. *)
Fixpoint merge_value (add : field_value) (base : table) : SE (heap * amqp_pool) dstop table :=
  match add with
  | FV_TABLE es =>
      with_temp_pool (zlen base + zlen es)
        ((fix go (es : table) (temp_result : table) : SE (heap * amqp_pool) dstop table :=
            match es with
            | [] => mret temp_result
            | e :: es' => t ← merge_entry (fun _ => merge_value e.2) base e temp_result; go es' t
            end) es base)
  | _ => throw (Fault OutOfBounds)
  end.
(** The second loop. *)
Definition merge_loop (base : table) : table -> table -> SE (heap * amqp_pool) dstop table :=
  fix go (es temp_result : table) :=
    match es with
    | [] => mret temp_result
    | e :: es' => t ← merge_entry (fun _ => merge_value e.2) base e temp_result; go es' t
    end.
Definition amqp_merge_capabilities {M} `{EntryMem M} (base : table) (add : option table) : SE M dstop table :=
  match add with
  | None => amqp_table_clone base
  | Some add => with_temp_pool (zlen base + zlen add) (merge_loop base add base)
  end.
Lemma merge_value_eq es base :
  merge_value (FV_TABLE es) base = with_temp_pool (zlen base + zlen es) (merge_loop base es base).
Proof. reflexivity. Qed.
End merge.

(** ** The connection *)

(** What the login uses besides the memory of the channels: properties_pool,
    the channels that have a pool, in the order of the table, and whether
    realloc gives the outbound buffer its new size (0 is not granted: realloc
    frees the block and returns NULL). *)
Class LoginMem (M : Type) := {
  properties_pool : EntryMem M;
  pool_channels : M -> list Z;
  grants_buffer : M -> Z -> bool
}.

Section login.
Context `{Heap} {M N : Type} `{ChannelMem M} `{LoginMem M} `{Net N}.
Abbreviation C A := (SE (conn M N) dstop A).

Definition on_pool_of {A} (m : SE M dstop A) : C A := on_input (decode m).

(** ENFORCE_STATE(state, CONNECTION_STATE_IDLE) *)
Definition enforce_idle : C () :=
  c ← gets (@id (conn M N));
  if amqp_release_buffers_ok c then mret tt else throw (Fault Aborted).

(** The pools of all channels, in the order of the table. *)
Fixpoint release_channels (channels : list Z) : C () :=
  match channels with
  | [] => mret tt
  | channel :: rest => _ ← amqp_maybe_release_buffers_on_channel channel; release_channels rest
  end.
Definition amqp_release_buffers : C () :=
  _ ← enforce_idle;
  channels ← gets (fun c : conn M N => pool_channels (c_mem c));
  release_channels channels.
Definition amqp_maybe_release_buffers : C () :=
  c ← gets (@id (conn M N));
  if amqp_release_buffers_ok c then amqp_release_buffers else mret tt.

Definition amqp_heartbeat_send (c : conn M N) : Z := heartbeat c.
Definition amqp_heartbeat_recv (c : conn M N) : Z := 2 * heartbeat c.

Definition set_limits (channel_max frame_max heartbeat : Z) (c : conn M N) : conn M N :=
  mk_conn (let i := c_input c in
           mk_input (state i) frame_max (header_buffer i) (inbound_buffer i) (inbound_offset i) (target_size i))
    (c_mem c) (c_net c) (sock_inbound c) (sock_inbound_offset c) (queued_frames c) (outbound_buffer c)
    heartbeat (next_recv_heartbeat c) (next_send_heartbeat c)
    (let a := c_api c in mk_api channel_max (most_recent_api_result a) (server_properties a) (client_properties a)
       (handshake_timeout a) (rpc_timeout a)).
(** realloc: the bytes that fit stay, the rest is not initialised. *)
Definition resize (n : Z) (block : list Z) : list Z := ztake n block ++ zfill (n - zlen block).

(** When the new size is refused the length of the buffer was set already; the
    block is as it was. *)
Definition amqp_tune_connection (channel_max frame_max heartbeat : Z) : C () :=
  _ ← enforce_idle;
  _ ← modify (set_limits channel_max frame_max (if 0 >? heartbeat then 0 else heartbeat));
  hs ← gets amqp_heartbeat_send;
  t ← on_clock (amqp_time_s_from_now hs);
  _ ← modify (set_send_heartbeat t);
  hr ← gets amqp_heartbeat_recv;
  t ← on_clock (amqp_time_s_from_now hr);
  _ ← modify (set_recv_heartbeat t);
  mem ← gets (@c_mem M N);
  if grants_buffer mem frame_max && negb (frame_max =? 0) then
    modify (fun c : conn M N => set_outbound (resize frame_max (outbound_buffer c)) c)
  else throw (Status AMQP_STATUS_NO_MEMORY).

Definition amqp_get_channel_max (c : conn M N) : Z := channel_max (c_api c).
Definition amqp_get_frame_max (c : conn M N) : Z := frame_max (c_input c).
Definition amqp_get_heartbeat (c : conn M N) : Z := heartbeat c.
Definition amqp_get_server_properties (c : conn M N) : table := server_properties (c_api c).
Definition amqp_get_client_properties (c : conn M N) : table := client_properties (c_api c).

(** ** The login *)

Definition client_capabilities : table :=
  [amqp_table_construct_bool_entry (str "authentication_failure_close") 1;
   amqp_table_construct_bool_entry (str "exchange_exchange_bindings") 1].
Definition default_table : table :=
  [amqp_table_construct_utf8_entry (str "product") (str "rabbitmq-c");
   amqp_table_construct_utf8_entry (str "version") AMQP_VERSION_STRING;
   amqp_table_construct_utf8_entry (str "platform") AMQ_PLATFORM;
   amqp_table_construct_utf8_entry (str "copyright") AMQ_COPYRIGHT;
   amqp_table_construct_utf8_entry (str "information") (str "See https://github.com/alanxz/rabbitmq-c");
   amqp_table_construct_table_entry (str "capabilities") client_capabilities].

Definition set_properties (server client : table) (a : api_state) : api_state :=
  mk_api (channel_max a) (most_recent_api_result a) server client (handshake_timeout a) (rpc_timeout a).

(** What the two sides want brought together (channel_max, frame_max,
    heartbeat): the smaller of the two, where 0 stands for no limit. *)
Definition negotiate (client server : Z * Z * Z) : Z * Z * Z :=
  let '(client_channel_max, client_frame_max, client_heartbeat) := client in
  let '(server_channel_max, server_frame_max, server_heartbeat) := server in
  (if negb (server_channel_max =? 0) &&
      ((server_channel_max <? client_channel_max) || (client_channel_max =? 0)) then server_channel_max
   else if (server_channel_max =? 0) && (client_channel_max =? 0) then UINT16_MAX
   else client_channel_max,
   if negb (server_frame_max =? 0) && (server_frame_max <? client_frame_max) then server_frame_max
   else client_frame_max,
   if negb (server_heartbeat =? 0) && (server_heartbeat <? client_heartbeat) then server_heartbeat
   else client_heartbeat).

(** From the Start of the broker to the Start-Ok that answers it. *)
Definition answer_start (fuel : nat) (client_properties : option table) (method : sasl) (deadline : Z) (s : struct) : C () :=
  if negb (get_int s "version_major" =? AMQP_PROTOCOL_VERSION_MAJOR) ||
     negb (get_int s "version_minor" =? AMQP_PROTOCOL_VERSION_MINOR)
  then throw (Status AMQP_STATUS_INCOMPATIBLE_AMQP_VERSION)
  else
    server ← on_pool_of (@amqp_table_clone M properties_pool (get_table s "server_properties"));
    _ ← modify (fun c : conn M N => set_api (set_properties server (AmqpSocket.client_properties (c_api c)) (c_api c)) c);
    match sasl_mechanism_in_list (get_bytes s "mechanisms") method, sasl_method_name method with
    | Some offered, Some name =>
        if negb offered then throw (Status AMQP_STATUS_BROKER_UNSUPPORTED_SASL_METHOD)
        else
          fm ← gets (fun c : conn M N => frame_max (c_input c));
          channel_pool ← on_memory (cm_pool fm 0);
          if negb channel_pool then throw (Status AMQP_STATUS_NO_MEMORY)
          else
            response ← on_pool_of (@sasl_response M (cm_entries 0) method);
            match response with
            | None => throw (Status AMQP_STATUS_NO_MEMORY)
            | Some response_bytes =>
                client ← on_pool_of (@amqp_merge_capabilities _ M (cm_entries 0) default_table client_properties);
                _ ← modify (fun c : conn M N => set_api (set_properties (server_properties (c_api c)) client (c_api c)) c);
                amqp_send_method_inner fuel 0 AMQP_CONNECTION_START_OK_METHOD
                  (list_to_map [("client_properties", VTab client); ("mechanism", VBytes name);
                     ("response", VBytes response_bytes); ("locale", VBytes (str "en_US"))]) deadline
            end
    | _, _ => throw (Fault Aborted)
    end.

(** From the Tune of the broker to the reply to Open. *)
Definition tune_and_open (fuel : nat) (vhost : list Z) (limits : Z * Z * Z) (deadline : Z) (s : struct) : C rpc_reply :=
  let '(channel_max, frame_max, heartbeat) :=
    negotiate limits (get_int s "channel_max", get_int s "frame_max", get_int s "heartbeat") in
  _ ← amqp_tune_connection channel_max frame_max heartbeat;
  _ ← amqp_send_method_inner fuel 0 AMQP_CONNECTION_TUNE_OK_METHOD
        (list_to_map [("frame_max", VInt frame_max); ("channel_max", VInt channel_max); ("heartbeat", VInt heartbeat)])
        deadline;
  _ ← amqp_release_buffers;
  result ← simple_rpc_inner fuel 0 AMQP_CONNECTION_OPEN_METHOD [AMQP_CONNECTION_OPEN_OK_METHOD]
             (list_to_map [("virtual_host", VBytes (cstr vhost)); ("capabilities", VBytes []); ("insist", VInt 1)])
             deadline;
  match result with
  | AMQP_RESPONSE_NORMAL _ _ => _ ← amqp_maybe_release_buffers; mret (AMQP_RESPONSE_NORMAL 0 ∅)
  | _ => mret result
  end.

(** The dialogue; a status it stops with goes to the label error_res. *)
Definition login_dialogue (fuel : nat) (vhost : list Z) (limits : Z * Z * Z) (client_properties : option table)
    (timeout : option timeval) (method : sasl) : C rpc_reply :=
  deadline ← on_clock (amqp_time_from_now timeout);
  res ← send_header_inner fuel deadline;
  _ ← (if res =? AMQP_STATUS_OK then mret tt else throw (Status res));
  start ← amqp_simple_wait_method_list fuel 0 [AMQP_CONNECTION_START_METHOD] deadline;
  _ ← answer_start fuel client_properties method deadline start.2;
  _ ← amqp_release_buffers;
  '(id, s) ← amqp_simple_wait_method_list fuel 0 [AMQP_CONNECTION_TUNE_METHOD; AMQP_CONNECTION_CLOSE_METHOD] deadline;
  if id =? AMQP_CONNECTION_CLOSE_METHOD then mret (AMQP_RESPONSE_SERVER_EXCEPTION id s)
  else tune_and_open fuel vhost limits deadline s.

Definition amqp_login_inner (fuel : nat) (vhost : list Z) (channel_max frame_max heartbeat : Z)
    (client_properties : option table) (timeout : option timeval) (method : sasl) : C rpc_reply :=
  let invalid := mret (AMQP_RESPONSE_LIBRARY_EXCEPTION AMQP_STATUS_INVALID_PARAMETER) in
  if (channel_max <? 0) || (UINT16_MAX <? channel_max) then invalid
  else if frame_max <? 0 then invalid
  else if (heartbeat <? 0) || (UINT16_MAX <? heartbeat) then invalid
  else
    r ← c_status (login_dialogue fuel vhost (channel_max, frame_max, heartbeat) client_properties timeout method);
    match r with
    | inr result => mret result
    | inl res => _ ← force_close; mret (AMQP_RESPONSE_LIBRARY_EXCEPTION res)
    end.
Definition amqp_login_with_properties (fuel : nat) (vhost : list Z) (channel_max frame_max heartbeat : Z)
    (client_properties : option table) (method : sasl) : C rpc_reply :=
  timeout ← gets (fun c : conn M N => handshake_timeout (c_api c));
  amqp_login_inner fuel vhost channel_max frame_max heartbeat client_properties timeout method.
Definition amqp_login (fuel : nat) (vhost : list Z) (channel_max frame_max heartbeat : Z) (method : sasl) : C rpc_reply :=
  amqp_login_with_properties fuel vhost channel_max frame_max heartbeat (Some []) method.
End login.

(** ** The list of mechanisms *)

(** The words of a list separated by blanks. *)
Fixpoint words (s : list Z) : list (list Z) :=
  match s with
  | [] => [[]]
  | x :: s' =>
      if x =? 32 then [] :: words s'
      else match words s' with w :: ws => (x :: w) :: ws | [] => [[x]] end
  end.
Lemma until_blank_words s :
  words s = match until_blank s with (w, []) => [w] | (w, _ :: s') => w :: words s' end.
Proof.
  induction s as [|x s IH]; [done|]. cbn [words until_blank]. destruct (Z.eqb_spec x 32) as [->|]; [done|].
  rewrite IH. destruct (until_blank s) as [w [|y r]]; done.
Qed.
Lemma until_blank_length s w x r : until_blank s = (w, x :: r) -> (length r < length s)%nat.
Proof.
  revert w x r. induction s as [|y s IH]; intros w x r E; [done|]. cbn [until_blank length] in *.
  destruct (y =? 32); [injection E as <- <- <-; lia|].
  destruct (until_blank s) as [w' r'] eqn:Es. injection E as <- ->. specialize (IH _ _ _ eq_refl). lia.
Qed.
Lemma in_list_from_words fuel m s :
  (length s < fuel)%nat -> in_list_from fuel m s = bool_decide (m ∈ words s).
Proof.
  revert s. induction fuel as [|fuel IH]; intros s Hs; [lia|]. cbn [in_list_from]. rewrite until_blank_words.
  destruct (until_blank s) as [w r] eqn:Es. change (bytes_equal m w) with (amqp_bytes_equal m w).
  destruct (amqp_bytes_equal m w) eqn:Eq.
  - apply amqp_bytes_equal_spec in Eq as <-. symmetry. apply bool_decide_eq_true. destruct r; by left.
  - assert (m <> w) by (intros ->; by rewrite (proj2 (amqp_bytes_equal_spec w w) eq_refl) in Eq).
    destruct r as [|x r].
    + symmetry. apply bool_decide_eq_false. by intros ->%list_elem_of_singleton.
    + apply until_blank_length in Es. rewrite IH by lia. apply bool_decide_ext. rewrite elem_of_cons. naive_solver.
Qed.
(** A mechanism is found exactly when its name is one of the words. *)
Lemma mechanism_offered mechanisms method name :
  sasl_method_name method = Some name ->
  sasl_mechanism_in_list mechanisms method = Some (bool_decide (name ∈ words mechanisms)).
Proof.
  intros Hn. unfold sasl_mechanism_in_list. rewrite Hn. cbn [mbind option_bind]. f_equal.
  destruct mechanisms as [|x s]; [|apply in_list_from_words; lia].
  symmetry. apply bool_decide_eq_false. cbn. intros ->%list_elem_of_singleton. by destruct method.
Qed.

(** ** What merging gives *)

Definition tlookup (t : table) (key : list Z) : option field_value :=
  snd <$> List.find (fun e => bool_decide (e.1 = key)) t.
(** The value of the first entry of [add] with the key takes precedence over
    [old]; two tables are merged. *)
Fixpoint merged_value (add old : field_value) : field_value :=
  match add, old with
  | FV_TABLE es, FV_TABLE bs =>
      FV_TABLE (map (fun b : table_entry =>
                       (b.1, (fix look (es : table) : field_value :=
                                match es with
                                | [] => b.2
                                | e :: es' => if bool_decide (e.1 = b.1) then merged_value e.2 b.2 else look es'
                                end) es)) bs ++
                filter (fun e => tlookup bs e.1 = None) es)
  | _, _ => add
  end.
Definition overridden (add : table) (b : table_entry) : table_entry :=
  (b.1, match tlookup add b.1 with Some v => merged_value v b.2 | None => b.2 end).
(** Every entry of [base], with what [add] says about its key, then what only
    [add] has. *)
Definition merged (base add : table) : table :=
  map (overridden add) base ++ filter (fun e => tlookup base e.1 = None) add.
Lemma merged_value_table es bs : merged_value (FV_TABLE es) (FV_TABLE bs) = FV_TABLE (merged bs es).
Proof.
  cbn [merged_value]. unfold merged. f_equal. f_equal. apply map_ext. intros b. unfold overridden, tlookup. f_equal.
  induction es as [|e es IH]; cbn [List.find]; [done|]. by case_bool_decide.
Qed.

(** Keys are used once, in nested tables too. *)
Fixpoint unique_keys (v : field_value) : Prop :=
  match v with
  | FV_TABLE es =>
      NoDup (map fst es) /\ (fix go (es : table) : Prop := match es with [] => True | e :: es' => unique_keys e.2 /\ go es' end) es
  | _ => True
  end.
Lemma unique_keys_table es : unique_keys (FV_TABLE es) <-> NoDup (map fst es) /\ Forall (fun e => unique_keys e.2) es.
Proof.
  cbn [unique_keys]. split; intros [Hn Hf]; (split; [done|]); clear Hn; induction es as [|e es IH];
    [constructor|constructor; tauto|done|]. apply Forall_cons in Hf as [He Hf]. tauto.
Qed.

Lemma tlookup_cons e t key : tlookup (e :: t) key = if decide (e.1 = key) then Some e.2 else tlookup t key.
Proof. unfold tlookup. cbn [List.find]. case_bool_decide; by destruct (decide _). Qed.
Lemma tlookup_None t key : tlookup t key = None <-> key ∉ map fst t.
Proof.
  induction t as [|e t IH]; [by split; [intros _ ?%elem_of_nil|]|]. rewrite tlookup_cons. cbn [map].
  rewrite not_elem_of_cons. destruct (decide (e.1 = key)); naive_solver.
Qed.
Lemma tlookup_snoc t e key :
  tlookup (t ++ [e]) key = match tlookup t key with Some v => Some v | None => if decide (e.1 = key) then Some e.2 else None end.
Proof. induction t as [|x t IH]; cbn [app]; rewrite !tlookup_cons; [done|]. by destruct (decide (x.1 = key)). Qed.
Lemma get_entry_tlookup t key :
  amqp_table_get_entry_by_key t key = (fun v => (key, v)) <$> tlookup t key.
Proof.
  rewrite amqp_table_get_entry_correct. induction t as [|[k v] t IH]; [done|]. rewrite tlookup_cons. cbn [List.find fst snd].
  case_bool_decide as Hk; [subst; by rewrite decide_True by done|]. by rewrite decide_False, IH by done.
Qed.

Lemma overridden_snoc add e b : e.1 <> b.1 -> overridden (add ++ [e]) b = overridden add b.
Proof.
  intros Hne. unfold overridden. rewrite tlookup_snoc, (decide_False (P := e.1 = b.1)) by done.
  by destruct (tlookup add b.1).
Qed.
Lemma map_fst_overridden add base : map fst (map (overridden add) base) = map fst base.
Proof. rewrite map_map. by apply map_ext. Qed.
Lemma tlookup_app t u key : tlookup (t ++ u) key = match tlookup t key with Some v => Some v | None => tlookup u key end.
Proof. induction t as [|x t IH]; cbn [app]; rewrite ?tlookup_cons; [done|]. by destruct (decide (x.1 = key)). Qed.
Lemma tlookup_overridden add base key :
  tlookup add key = None -> tlookup (map (overridden add) base) key = tlookup base key.
Proof.
  intros Hn. induction base as [|b base IH]; [done|]. cbn [map]. rewrite !tlookup_cons, IH. change ((overridden add b).1) with b.1.
  destruct (decide (b.1 = key)) as [<-|]; [|done]. unfold overridden. by rewrite Hn.
Qed.
Lemma tlookup_filter (base add : table) key :
  tlookup base key = None -> tlookup (filter (fun e => tlookup base e.1 = None) add) key = tlookup add key.
Proof.
  intros Hn. induction add as [|e add IH]; [done|]. rewrite filter_cons. case_decide as Hb; rewrite !tlookup_cons, IH; [done|].
  destruct (decide (e.1 = key)) as [<-|]; done.
Qed.
(** The entry of a key that [add] has not: the one of [base]. *)
Lemma tlookup_merged_new base add key : tlookup add key = None -> tlookup (merged base add) key = tlookup base key.
Proof.
  intros Hn. unfold merged. rewrite tlookup_app, tlookup_overridden by done. destruct (tlookup base key) eqn:E; [done|].
  by rewrite tlookup_filter.
Qed.

Lemma tlookup_map_overridden base add key :
  tlookup (map (overridden add) base) key =
  (fun old => match tlookup add key with Some v => merged_value v old | None => old end) <$> tlookup base key.
Proof.
  induction base as [|b base IH]; [done|]. cbn [map]. rewrite !tlookup_cons, IH. change ((overridden add b).1) with b.1.
  by destruct (decide (b.1 = key)) as [<-|].
Qed.
Lemma tlookup_merged base add key :
  tlookup (merged base add) key =
  match tlookup add key, tlookup base key with
  | Some v, Some old => Some (merged_value v old)
  | Some v, None => Some v
  | None, old => old
  end.
Proof.
  unfold merged. rewrite tlookup_app, tlookup_map_overridden. destruct (tlookup base key) as [old|] eqn:Hb.
  - by destruct (tlookup add key).
  - cbn. rewrite tlookup_filter by done. by destruct (tlookup add key).
Qed.

Lemma set_entry_app_l key v t u : is_Some (tlookup t key) -> set_entry key v (t ++ u) = set_entry key v t ++ u.
Proof.
  intros Ht. induction t as [|e t IH]; cbn [app set_entry]; [by destruct Ht|]. rewrite tlookup_cons in Ht.
  destruct (amqp_bytes_equal e.1 key) eqn:E; [done|]. rewrite decide_False in Ht; [by rewrite IH|].
  intros Hk. by rewrite (proj2 (amqp_bytes_equal_spec _ _) Hk) in E.
Qed.
(** Storing what [e] makes of the entry of [base] is overriding with [e] too. *)
Lemma set_entry_overridden base add e bv :
  NoDup (map fst base) -> tlookup add e.1 = None -> tlookup base e.1 = Some bv ->
  set_entry e.1 (merged_value e.2 bv) (map (overridden add) base) = map (overridden (add ++ [e])) base.
Proof.
  intros Hnd Hn. induction base as [|b base IH]; [done|]. cbn [map] in Hnd. apply NoDup_cons in Hnd as [Hb Hnd].
  rewrite tlookup_cons. cbn [map set_entry]. change ((overridden add b).1) with b.1.
  destruct (amqp_bytes_equal b.1 e.1) eqn:E.
  - apply amqp_bytes_equal_spec in E. rewrite decide_True by done. intros [= <-]. f_equal.
    + unfold overridden. rewrite tlookup_snoc. rewrite <- E in Hn. rewrite Hn, decide_True by done. done.
    + apply map_ext_in. intros x Hx%list_elem_of_In. symmetry. apply overridden_snoc. rewrite <- E. intros Hx'.
      apply Hb. rewrite Hx'. apply list_elem_of_fmap. eauto.
  - assert (b.1 <> e.1) as Hne by (intros Hk; by rewrite (proj2 (amqp_bytes_equal_spec _ _) Hk) in E).
    rewrite decide_False by done. intros Hl. f_equal; [symmetry; by apply overridden_snoc|by apply IH].
Qed.
Lemma merged_snoc_old base add e bv :
  NoDup (map fst base) -> tlookup add e.1 = None -> tlookup base e.1 = Some bv ->
  set_entry e.1 (merged_value e.2 bv) (merged base add) = merged base (add ++ [e]).
Proof.
  intros Hnd Hn Hb. unfold merged. rewrite set_entry_app_l by (rewrite tlookup_overridden; rewrite ?Hb; eauto).
  rewrite (set_entry_overridden _ _ _ bv) by done. f_equal. rewrite filter_app, filter_cons, filter_nil, decide_False by (by rewrite Hb).
  by rewrite app_nil_r.
Qed.
Lemma merged_snoc_new base add e :
  tlookup add e.1 = None -> tlookup base e.1 = None -> merged base add ++ [e] = merged base (add ++ [e]).
Proof.
  intros Hn Hb. unfold merged. rewrite filter_app, filter_cons, filter_nil, decide_True by done. rewrite <- app_assoc. f_equal.
  apply map_ext_in. intros x Hx%list_elem_of_In. symmetry. apply overridden_snoc. intros Hx'.
  apply tlookup_None in Hb. apply Hb. rewrite Hx'. apply list_elem_of_fmap. eauto.
Qed.

(** Emptying a pool frees the blocks it owns, whatever the state of the heap. *)
Lemma without_perm bs cs h h' : bs ≡ₚ cs -> without bs h h' -> without cs h h'.
Proof.
  intros Hp [Hn Hl]. split; [done|]. intros b. rewrite Hl.
  destruct (decide (b ∈ bs)) as [Hb|Hb], (decide (b ∈ cs)) as [Hc|Hc]; try done; rewrite Hp in Hb; done.
Qed.
Definition pool_lists_wf (p : amqp_pool) : Prop := bl_wf (pages p) /\ bl_wf (large_blocks p).
Lemma empty_pool_frees p h :
  pool_lists_wf p -> NoDup (owned p) -> Forall (fun b => is_Some (h_live h !! b)) (owned p) ->
  exists p' h', empty_amqp_pool p h = (inr p', h') /\ without (owned p) h h'.
Proof.
  intros [Hwp Hwl] Hnd Hl.
  assert (Hp : owned p ≡ₚ (option_list (blocklist (large_blocks p)) ++ blocks (large_blocks p)) ++
    (option_list (blocklist (pages p)) ++ blocks (pages p))) by (unfold owned, arrays; solve_Permutation).
  rewrite Hp in Hnd, Hl. apply NoDup_app in Hnd as (Hnl & Hd & Hnp). apply Forall_app in Hl as [Hll Hlp].
  destruct (empty_blocklist_spec _ h Hwl Hnl Hll) as (h1 & E1 & Hw1).
  destruct (empty_blocklist_spec _ h1 Hwp Hnp) as (h2 & E2 & Hw2).
  { rewrite Forall_forall in *. intros b Hb. destruct Hw1 as [_ ->]. rewrite decide_False; [auto|]. intros Hx. by apply (Hd b). }
  eexists _, h2. unfold empty_amqp_pool, recycle_amqp_pool. rewrite SE_bind_assoc, (SE_bind_ok _ _ _ _ _ E1), SE_bind_ret_l.
  cbn [pages]. rewrite (SE_bind_ok _ _ _ _ _ E2). split; [reflexivity|].
  eapply without_perm; [symmetry; exact Hp|]. by eapply without_trans.
Qed.
Lemma empty_pool_spec p h rs :
  pool_wf h p rs -> exists p' h', empty_amqp_pool p h = (inr p', h') /\ without (owned p) h h'.
Proof. intros Hwf. apply empty_pool_frees; [split|..]; apply Hwf. Qed.

Section merging.
Context `{HeapTotal}.

Lemma temp_pool_inv : @em_inv _ _ pool_mem_ok [] (empty_heap, init_amqp_pool 4096).
Proof.
  exists []. split; [by apply init_pool_wf; [intros b [m Hm]|]|]. split; [constructor|]. by intros b ?%elem_of_nil.
Qed.
(** The temporary pool gives its memory back; what is left is the copy. *)
Lemma Yields_temp {M} `{EntryMemTotal M} n build t :
  0 < n < 2 ^ 40 -> Yields build t -> clonable (FV_TABLE t) = true -> zlen (enc_table t) < 2 ^ 32 ->
  Yields (with_temp_pool (M := M) n build) t.
Proof.
  intros Hn Hb Hc Hl F mem Hm. unfold with_temp_pool.
  assert (Hs : Yields (pool_block (u64 (sizeof_table_entry * n)) ≫= (fun _ => build)) t).
  { eapply Yields_bind; [apply Yields_pool|exact Hb]. unfold sizeof_table_entry. rewrite u64_id by lia. lia. }
  destruct (Hs [] _ temp_pool_inv) as ([h p] & E & rs & Hwf & _). rewrite E.
  destruct (Yields_table_clone t Hc Hl F mem Hm) as (mem' & E' & Hm'). rewrite E'.
  destruct (empty_pool_spec p h rs Hwf) as (p' & h' & Ee & _). rewrite Ee. by exists mem'.
Qed.

(** The kind says which values are tables. *)
Lemma kind_table v :
  clonable v = true -> (kind_of v =? AMQP_FIELD_KIND_TABLE) = match v with FV_TABLE _ => true | _ => false end.
Proof. by destruct v. Qed.
Lemma merged_value_other v b :
  match v, b with FV_TABLE _, FV_TABLE _ => true | _, _ => false end = false -> merged_value v b = v.
Proof. by destruct v, b. Qed.

Lemma merge_entry_ok rec base add e :
  NoDup (map fst base) -> tlookup add e.1 = None -> clonable e.2 = true ->
  (forall bv, tlookup base e.1 = Some bv -> clonable bv = true) ->
  (forall es bs, e.2 = FV_TABLE es -> tlookup base e.1 = Some (FV_TABLE bs) -> Yields (rec e.2 bs) (merged bs es)) ->
  Yields (merge_entry rec base e (merged base add)) (merged base (add ++ [e])).
Proof.
  intros Hnd Hn Hce Hcb Hrec. unfold merge_entry. rewrite !get_entry_tlookup, tlookup_merged_new by done.
  destruct (tlookup base e.1) as [bv|] eqn:Hb; cbn [fmap option_fmap option_map snd].
  2:{ rewrite merged_snoc_new by done. apply Yields_ret. }
  rewrite !kind_table by auto. rewrite <- (merged_snoc_old _ _ _ bv) by done.
  destruct (_ && _) eqn:Hk.
  - destruct (e.2) as [| | | | | | | | | | | | | | |es| | |] eqn:Ev; try done.
    destruct bv as [| | | | | | | | | | | | | | |bs| | |]; try done.
    eapply Yields_bind; [by apply Hrec|]. rewrite merged_value_table. apply Yields_ret.
  - rewrite merged_value_other; [apply Yields_ret|]. by destruct (e.2), bv.
Qed.

(** What the loops need of the two tables: no key twice, values that can be
    copied, no nested table of [add] without entries. *)
Fixpoint no_empty_table (v : field_value) : Prop :=
  match v with
  | FV_TABLE es =>
      es <> [] /\ (fix go (es : table) : Prop := match es with [] => True | e :: es' => no_empty_table e.2 /\ go es' end) es
  | _ => True
  end.
Lemma no_empty_table_eq es : no_empty_table (FV_TABLE es) <-> es <> [] /\ Forall (fun e => no_empty_table e.2) es.
Proof.
  cbn [no_empty_table]. split; intros [Hn Hf]; (split; [done|]); clear Hn; induction es as [|e es IH];
    [constructor|constructor; tauto|done|]. apply Forall_cons in Hf as [He Hf]. tauto.
Qed.
Definition small (v : field_value) : Prop := clonable v = true /\ zlen (enc v) < 2 ^ 32.
Lemma small_entry es e : small (FV_TABLE es) -> e ∈ es -> small e.2.
Proof.
  intros [Hc Hl] He. cbn [clonable enc] in *. change (map _ es) with (map enc_entry es) in Hl.
  rewrite zlen_app, zlen_sized in Hl. split.
  - apply (proj1 (forallb_forall _ _)) with (x := e) in Hc; [|by apply list_elem_of_In]. by apply andb_prop in Hc as [_ Hc].
  - apply list_elem_of_split in He as (l1 & l2 & ->). rewrite map_app in Hl. cbn [map] in Hl.
    rewrite concat_app in Hl. cbn [concat] in Hl. destruct e as [k v].
    rewrite enc_entry_eq, !zlen_app in Hl. cbn [snd]. zlen_facts. lia.
Qed.
Lemma tlookup_elem t key v : tlookup t key = Some v -> (key, v) ∈ t.
Proof.
  induction t as [|[k x] t IH]; [done|]. rewrite tlookup_cons. cbn [fst snd].
  destruct (decide (k = key)) as [->|]; [intros [= ->]; by left|right; auto].
Qed.
Lemma tlookup_unique t e : NoDup (map fst t) -> e ∈ t -> tlookup t e.1 = Some e.2.
Proof.
  induction t as [|x t IH]; [by intros _ ?%elem_of_nil|]. cbn [map]. intros [Hx Hnd]%NoDup_cons [->|He]%elem_of_cons.
  - by rewrite tlookup_cons, decide_True.
  - rewrite tlookup_cons, decide_False; [auto|]. intros Hk. apply Hx. rewrite Hk. apply list_elem_of_fmap. eauto.
Qed.
(** The merged value of a key both tables have is part of the result. *)
Lemma merged_elem base add e bv :
  NoDup (map fst add) -> e ∈ add -> tlookup base e.1 = Some bv -> (e.1, merged_value e.2 bv) ∈ merged base add.
Proof.
  intros Hnd He Hb. apply elem_of_app. left. apply list_elem_of_fmap. exists (e.1, bv). split; [|by apply tlookup_elem].
  unfold overridden. cbn [fst snd]. by rewrite tlookup_unique.
Qed.

(** [v] merges into any table as the loop should. *)
Definition merges (v : field_value) : Prop :=
  forall es bs, v = FV_TABLE es -> unique_keys v -> unique_keys (FV_TABLE bs) -> no_empty_table v ->
    small v -> small (FV_TABLE bs) -> small (FV_TABLE (merged bs es)) -> Yields (merge_value v bs) (merged bs es).
Lemma merge_loop_ok base add es :
  unique_keys (FV_TABLE base) -> small (FV_TABLE base) ->
  unique_keys (FV_TABLE (add ++ es)) -> Forall (fun e => no_empty_table e.2) es -> Forall (fun e => small e.2) es ->
  small (FV_TABLE (merged base (add ++ es))) -> Forall (fun e => merges e.2) es ->
  Yields (merge_loop base es (merged base add)) (merged base (add ++ es)).
Proof.
  revert add. induction es as [|e es IH]; intros add Hub Hsb Hua Hne Hse Hsm Hes.
  { rewrite app_nil_r. apply Yields_ret. }
  apply Forall_cons in Hes as [He Hes], Hne as [Hnee Hne], Hse as [Hsee Hse].
  pose proof Hub as [Hndb Hfb]%unique_keys_table. pose proof Hua as [Hnda Hfa]%unique_keys_table.
  assert (Hin : e ∈ add ++ e :: es) by (apply elem_of_app; right; by left).
  cbn [merge_loop]. change (e :: es) with ([e] ++ es) in *. rewrite app_assoc in *.
  eapply Yields_bind; [|by apply IH]. apply merge_entry_ok; [done| |apply Hsee| |].
  - apply tlookup_None. rewrite !map_app in Hnda. apply NoDup_app in Hnda as [(_ & Hd & _)%NoDup_app _].
    intros Hx. apply (Hd _ Hx). by left.
  - intros bv Hb%tlookup_elem. by apply (small_entry _ _ Hsb) in Hb as [Hb _].
  - intros es' bs Hv Hb. apply He; [done| | | |done| |].
    + rewrite Forall_forall in Hfa. by apply Hfa.
    + rewrite Forall_forall in Hfb. by apply (Hfb (e.1, FV_TABLE bs)), tlookup_elem.
    + done.
    + by apply (small_entry _ (e.1, FV_TABLE bs) Hsb), tlookup_elem.
    + rewrite <- merged_value_table, <- Hv.
      by apply (small_entry _ (e.1, merged_value e.2 (FV_TABLE bs)) Hsm), merged_elem.
Qed.
Lemma merged_nil base : merged base [] = base.
Proof. unfold merged. rewrite app_nil_r. induction base as [|[k v] base IH]; [done|]. cbn [map]. by rewrite IH. Qed.
(** The two loops around it: the temporary array is never empty. *)
Lemma Yields_merge {M} `{EntryMemTotal M} base es :
  base ++ es <> [] -> unique_keys (FV_TABLE base) -> small (FV_TABLE base) ->
  unique_keys (FV_TABLE es) -> small (FV_TABLE es) -> Forall (fun e => no_empty_table e.2) es ->
  small (FV_TABLE (merged base es)) -> Forall (fun e => merges e.2) es ->
  Yields (with_temp_pool (M := M) (zlen base + zlen es) (merge_loop base es base)) (merged base es).
Proof.
  intros Hne Hub Hsb Hue Hse Hn Hsm Hes. pose proof Hsm as [Hcm Hlm].
  assert (Hlen : forall t, small (FV_TABLE t) -> zlen t + 5 <= zlen (enc (FV_TABLE t))).
  { intros t _. cbn [enc]. change (map _ t) with (map enc_entry t). rewrite zlen_app, zlen_sized, zlen_amqp_e.
    pose proof (zlen_concat_ge enc_entry t enc_entry_nonempty). cbn. lia. }
  pose proof (Hlen _ Hsb) as Hzb. pose proof (Hlen _ Hse) as Hze. pose proof Hsb as [_ Hlb]. pose proof Hse as [_ Hle].
  apply Yields_temp; [| |done|].
  - zlen_facts. destruct base as [|b base]; [|rewrite zlen_cons in *; zlen_facts; lia].
    destruct es as [|e es]; [done|]. rewrite !zlen_cons in *. zlen_facts. lia.
  - rewrite <- (merged_nil base) at 2. apply (merge_loop_ok base []); try done.
    apply Forall_forall. intros e He. by apply (small_entry es).
  - cbn [enc] in Hlm. change (map _ _) with (map enc_entry (merged base es)) in Hlm. unfold enc_table.
    rewrite zlen_app in Hlm. zlen_facts. lia.
Qed.
Lemma merges_all v : merges v.
Proof.
  induction v as [v Ha Ht|es IH|es IH] using field_value_nested_ind; intros es' bs Hv; try done.
  { by destruct (Ht es'). }
  injection Hv as <-. intros Hu Hub [Hne Hn]%no_empty_table_eq Hs Hsb Hsm. rewrite merge_value_eq.
  apply Yields_merge; try done. intros [_ Hnil]%app_nil. done.
Qed.
End merging.

(** amqp_merge_capabilities does what its comment says, and always
    returns: the entries of [base] in order, each overridden by the entry of
    [add] with its key, tables of both merged in turn, then the entries that
    only [add] has; for tables that use no key twice and with memory enough. *)
Theorem merge_capabilities_correct {M} `{HeapTotal} `{EntryMemTotal M} (base add : table) (F : list nat) (mem : M) :
  base ++ add <> [] -> unique_keys (FV_TABLE base) -> unique_keys (FV_TABLE add) ->
  Forall (fun e => no_empty_table e.2) add ->
  small (FV_TABLE base) -> small (FV_TABLE add) -> small (FV_TABLE (merged base add)) -> em_inv F mem ->
  (exists mem', amqp_merge_capabilities base (Some add) mem = (inr (merged base add), mem') /\ em_inv F mem') /\
  forall key, tlookup (merged base add) key =
    match tlookup add key, tlookup base key with
    | Some v, Some old => Some (merged_value v old)
    | Some v, None => Some v
    | None, old => old
    end.
Proof.
  intros Hne Hub Hua Hn Hsb Hsa Hsm Hm. split.
  - apply (Yields_merge base add Hne Hub Hsb Hua Hsa Hn Hsm); [|done]. apply Forall_true. intros e. apply merges_all.
  - intros key. apply tlookup_merged.
Qed.

(** ** What only the login changes *)

Section limits.
Context `{Heap} {M N : Type} `{ChannelMem M} `{LoginMem M} `{Net N}.
Abbreviation C A := (SE (conn M N) dstop A).

(** The limits and the part of the state the login keeps. *)
Definition limits (c : conn M N) : Z * Z * Z := (channel_max (c_api c), frame_max (c_input c), heartbeat c).
Definition has_limits (v : Z * Z * Z) (c : conn M N) : Prop := limits c = v.

Lemma keeps_c_status {S A} (I : S -> Prop) (m : SE S dstop A) : preserves I m -> preserves I (c_status m).
Proof. intros Hm s Hs. specialize (Hm s Hs). unfold c_status. by destruct (m s) as [[[]|] s']. Qed.
Lemma keeps_on_net {A} v (m : SE N dstop A) : preserves (has_limits v) (on_net m : C A).
Proof. intros c Hc. unfold on_net. by destruct (m (c_net c)) as [r n]. Qed.
Lemma keeps_on_outbound {A} v (m : SE (list Z) dstop A) : preserves (has_limits v) (on_outbound m : C A).
Proof. intros c Hc. unfold on_outbound. by destruct (m (outbound_buffer c)) as [r n]. Qed.
Definition has_max (v : Z) (s : input * M) : Prop := frame_max s.1 = v.
Lemma keeps_on_input {A} v (m : SE (input * M) dstop A) :
  (forall fm, preserves (has_max fm) m) -> preserves (has_limits v) (on_input m : C A).
Proof.
  intros Hm c Hc. unfold on_input. specialize (Hm _ (c_input c, c_mem c) eq_refl).
  destruct (m (c_input c, c_mem c)) as [r [i mem]]. cbn in *. unfold has_limits, limits in *. cbn. by rewrite Hm.
Qed.
Lemma keeps_on_mem {A} fm (m : SE M fault A) : preserves (has_max fm) (on_mem m).
Proof. intros [i mem] Hi. unfold on_mem. by destruct (m mem) as [[] ?]. Qed.
Lemma keeps_decode {A} fm (m : SE M dstop A) : preserves (has_max fm) (decode m).
Proof. intros [i mem] Hi. unfold decode. by destruct (m mem) as [? ?]. Qed.
Lemma keeps_upd fm f : (forall i, frame_max (f i) = frame_max i) -> preserves (has_max fm) (upd (M := M) f).
Proof. intros Hf [i mem] Hi. unfold has_max in *. cbn in *. by rewrite Hf. Qed.

#[local] Hint Resolve keeps_on_net keeps_on_outbound keeps_on_mem keeps_decode : inv.
#[local] Hint Extern 1 (preserves _ (modify _)) => (apply preserves_modify; by intros c Hc) : inv.
#[local] Hint Extern 1 (preserves (has_max _) (upd _)) =>
  (apply keeps_upd; intros i; unfold set_raw; by destruct (inbound_buffer i)) : inv.

Lemma keeps_raw_read fm off n : preserves (has_max fm) (raw_read (M := M) off n).
Proof. unfold raw_read. preserve. Qed.
Lemma keeps_raw_write fm off bytes : preserves (has_max fm) (raw_write (M := M) off bytes).
Proof. unfold raw_write. preserve. Qed.
#[local] Hint Resolve keeps_raw_read keeps_raw_write : inv.
Lemma keeps_consume_data fm data : preserves (has_max fm) (consume_data (M := M) data).
Proof. unfold consume_data. preserve. Qed.
Lemma keeps_handle_body fm n : preserves (has_max fm) (handle_body (M := M) n).
Proof. unfold handle_body, decode_frame, return_to_idle. preserve. Qed.
#[local] Hint Resolve keeps_consume_data keeps_handle_body : inv.
Lemma keeps_handle_input fm data : preserves (has_max fm) (amqp_handle_input (M := M) data).
Proof. unfold amqp_handle_input, handle_header, return_to_idle. preserve. Qed.

#[local] Hint Resolve keeps_handle_input keeps_on_input keeps_c_status : inv.
Lemma keeps_on_memory {A} v (m : SE M fault A) : preserves (has_limits v) (on_memory m : C A).
Proof. apply keeps_on_input. auto with inv. Qed.
Lemma keeps_on_pool_of {A} v (m : SE M dstop A) : preserves (has_limits v) (on_pool_of m : C A).
Proof. apply keeps_on_input. auto with inv. Qed.
Lemma keeps_on_clock {A} v (m : SE N Z A) : preserves (has_limits v) (on_clock m : C A).
Proof. apply keeps_on_net. Qed.
Lemma keeps_force_close v : preserves (has_limits v) (force_close : C ()).
Proof. apply keeps_on_net. Qed.
#[local] Hint Resolve keeps_on_memory keeps_on_pool_of keeps_on_clock keeps_force_close : inv.
Lemma keeps_recv v fuel t : preserves (has_limits v) (recv_with_timeout fuel t : C ()).
Proof. induction fuel; cbn [recv_with_timeout]; preserve. Qed.
Lemma keeps_consume_one v : preserves (has_limits v) (consume_one_frame : C frame).
Proof. unfold consume_one_frame. preserve. Qed.
Lemma keeps_enqueue v f : preserves (has_limits v) (enqueue f : C ()).
Proof. unfold enqueue, alloc_link. preserve. Qed.
Lemma keeps_release_channel v ch : preserves (has_limits v) (amqp_maybe_release_buffers_on_channel ch : C ()).
Proof. unfold amqp_maybe_release_buffers_on_channel. preserve. Qed.
#[local] Hint Resolve keeps_recv keeps_consume_one keeps_enqueue keeps_release_channel : inv.
Lemma keeps_consume_frames v fuel : preserves (has_limits v) (consume_frames fuel : C ()).
Proof. induction fuel; cbn [consume_frames]; preserve. Qed.
#[local] Hint Resolve keeps_consume_frames : inv.
Lemma keeps_try_recv v fuel : preserves (has_limits v) (amqp_try_recv fuel : C ()).
Proof. unfold amqp_try_recv. preserve. Qed.
#[local] Hint Resolve keeps_try_recv : inv.
Lemma keeps_try_send v fuel buf d n : preserves (has_limits v) (try_send_loop fuel buf d n : C Z).
Proof. revert buf n. induction fuel; intros; cbn [try_send_loop]; preserve. apply keeps_c_status. preserve. Qed.
#[local] Hint Resolve keeps_try_send : inv.
Lemma keeps_send_loop v fuel bytes d : preserves (has_limits v) (send_loop fuel bytes d : C ()).
Proof. revert bytes. induction fuel; intros; cbn [send_loop]; unfold amqp_try_send; preserve. Qed.
#[local] Hint Resolve keeps_send_loop : inv.
Lemma keeps_send_frame v fuel f d : preserves (has_limits v) (amqp_send_frame_inner fuel f d : C ()).
Proof. unfold amqp_send_frame_inner. preserve. Qed.
Lemma keeps_send_method v fuel ch id s d : preserves (has_limits v) (amqp_send_method_inner fuel ch id s d : C ()).
Proof. apply keeps_send_frame. Qed.
Lemma keeps_send_header v fuel d : preserves (has_limits v) (send_header_inner fuel d : C Z).
Proof. unfold send_header_inner, amqp_try_send. preserve. Qed.
#[local] Hint Resolve keeps_send_frame keeps_send_method keeps_send_header : inv.
Lemma keeps_wait_bytes v fuel d : preserves (has_limits v) (wait_bytes fuel d : C ()).
Proof. induction fuel; cbn [wait_bytes]; unfold amqp_send_frame; preserve. Qed.
#[local] Hint Resolve keeps_wait_bytes : inv.
Lemma keeps_wait_frame v fuel d : preserves (has_limits v) (wait_frame_inner fuel d : C frame).
Proof. induction fuel; cbn [wait_frame_inner]; preserve. Qed.
#[local] Hint Resolve keeps_wait_frame : inv.
Lemma keeps_rpc_wait v fuel ch ids d : preserves (has_limits v) (rpc_wait fuel ch ids d : C rpc_reply).
Proof. induction fuel; cbn [rpc_wait]; preserve. Qed.
#[local] Hint Resolve keeps_rpc_wait : inv.
Lemma keeps_rpc v fuel ch id ids s d : preserves (has_limits v) (simple_rpc_inner fuel ch id ids s d : C rpc_reply).
Proof. unfold simple_rpc_inner, amqp_send_method. preserve. Qed.
Lemma keeps_release v : preserves (has_limits v) (amqp_release_buffers : C ()).
Proof.
  unfold amqp_release_buffers, enforce_idle. preserve.
  match goal with |- preserves _ (release_channels ?l) => induction l; cbn [release_channels]; preserve end.
Qed.
#[local] Hint Resolve keeps_rpc keeps_release : inv.

(** ** What an open connection has agreed on *)

Lemma spec_of_preserves {A} v (m : C A) c r c' : preserves (has_limits v) m -> m c = (r, c') -> limits c = v -> limits c' = v.
Proof. intros Hm E Hc. specialize (Hm c Hc). rewrite E in Hm. exact Hm. Qed.

Lemma tune_sets cm fm hb c c' :
  amqp_tune_connection cm fm hb c = (inr tt, c') -> limits c' = (cm, fm, if 0 >? hb then 0 else hb) /\ fm <> 0.
Proof.
  unfold amqp_tune_connection. intros (_ & c1 & _ & E)%SE_bind_inv.
  apply SE_bind_inv in E as ([] & c2 & E2 & E). injection E2 as <-.
  set (v := (cm, fm, if 0 >? hb then 0 else hb)).
  assert (Hl : limits (set_limits cm fm (if 0 >? hb then 0 else hb) c1) = v) by done.
  revert E Hl. generalize (set_limits cm fm (if 0 >? hb then 0 else hb) c1). intros c2 E Hl.
  clearbody v.
  repeat (let E1 := fresh in let c1 := fresh "c" in apply SE_bind_inv in E as (? & c1 & E1 & E);
    eapply (spec_of_preserves v) in E1; [|by preserve|exact Hl]; clear Hl; rename E1 into Hl).
  destruct (_ && _) eqn:Hg; [|done]. apply andb_prop in Hg as [_ Hfm]. injection E as <-.
  split; [exact Hl|]. intros ->. done.
Qed.

Lemma wait_method_id fuel ch ids d c id m c' :
  amqp_simple_wait_method_list fuel ch ids d c = (inr (id, m), c') -> id ∈ ids.
Proof.
  unfold amqp_simple_wait_method_list. intros (? & ? & _ & E)%SE_bind_inv. apply SE_bind_inv in E as (f & ? & _ & E).
  destruct f as [|? ? ? ?|k i s| | |]; try done. destruct (_ && _) eqn:Hc; [|done]. injection E as <- <- <-.
  apply andb_prop in Hc as [_ Hi]. unfold amqp_id_in_reply_list in Hi. apply existsb_exists in Hi as (y & Hy & ->%Z.eqb_eq).
  by apply list_elem_of_In.
Qed.
Lemma negotiate_le cm fm hb scm sfm shb cm' fm' hb' :
  negotiate (cm, fm, hb) (scm, sfm, shb) = (cm', fm', hb') ->
  (cm <> 0 -> cm' <= cm) /\ (scm <> 0 -> cm' <= scm) /\ fm' <= fm /\ (sfm <> 0 -> fm' <= sfm) /\
  hb' <= hb /\ (shb <> 0 -> hb' <= shb).
Proof.
  unfold negotiate. intros [= <- <- <-].
  destruct (Z.eqb_spec scm 0), (Z.eqb_spec sfm 0), (Z.eqb_spec shb 0), (Z.eqb_spec cm 0), (Z.ltb_spec scm cm),
    (Z.ltb_spec sfm fm), (Z.ltb_spec shb hb); cbn; lia.
Qed.
(** The broker's Start was answered. *)
Lemma answer_start_ok fuel props method d s c c' :
  answer_start fuel props method d s c = (inr tt, c') ->
  get_int s "version_major" = 0 /\ get_int s "version_minor" = 9 /\
  exists name, sasl_method_name method = Some name /\ name ∈ words (get_bytes s "mechanisms").
Proof.
  unfold answer_start. destruct (Z.eqb_spec (get_int s "version_major") AMQP_PROTOCOL_VERSION_MAJOR) as [Hmaj|]; [|done].
  destruct (Z.eqb_spec (get_int s "version_minor") AMQP_PROTOCOL_VERSION_MINOR) as [Hmin|]; [|done]. cbn [negb orb].
  intros (? & ? & _ & E)%SE_bind_inv. apply SE_bind_inv in E as (? & ? & _ & E).
  destruct (sasl_method_name method) as [name|] eqn:Hn; [|by destruct (sasl_mechanism_in_list _ _)].
  rewrite (mechanism_offered _ _ name Hn) in E. case_bool_decide as Hw; [|done]. eauto.
Qed.
Lemma tune_and_open_ok fuel vhost lim d s c id m c' :
  tune_and_open fuel vhost lim d s c = (inr (AMQP_RESPONSE_NORMAL id m), c') ->
  exists cm fm hb, negotiate lim (get_int s "channel_max", get_int s "frame_max", get_int s "heartbeat") = (cm, fm, hb) /\
    fm <> 0 /\ limits c' = (cm, fm, if 0 >? hb then 0 else hb).
Proof.
  unfold tune_and_open. destruct (negotiate _ _) as [[cm fm] hb]. intros ([] & c1 & [Hl Hfm]%tune_sets & E)%SE_bind_inv.
  exists cm, fm, hb. split; [done|]. split; [done|]. revert Hl. generalize (if 0 >? hb then 0 else hb). intros hb' Hl.
  eapply spec_of_preserves; [|exact E|exact Hl].
  unfold amqp_maybe_release_buffers. preserve.
Qed.
End limits.

(** A login that succeeds has agreed with the broker: the broker speaks
    0-9, offered the mechanism that was used, and the connection runs with
    limits that are neither above what the caller asked for nor above what the
    Tune of the broker allows, 0 standing for no limit; the size of a frame is
    not 0. *)
Theorem login_negotiates `{Heap} {M N : Type} `{ChannelMem M} `{LoginMem M} `{Net N} (fuel : nat) (vhost : list Z)
    (channel_max frame_max heartbeat : Z) (props : option table) (timeout : option timeval) (method : sasl)
    (c c' : conn M N) (id : Z) (m : struct) :
  amqp_login_inner fuel vhost channel_max frame_max heartbeat props timeout method c = (inr (AMQP_RESPONSE_NORMAL id m), c') ->
  exists (c1 c2 c3 c4 : conn M N) deadline (start tune : struct) name,
    amqp_simple_wait_method_list fuel 0 [AMQP_CONNECTION_START_METHOD] deadline c1 =
      (inr (AMQP_CONNECTION_START_METHOD, start), c2) /\
    get_int start "version_major" = 0 /\ get_int start "version_minor" = 9 /\
    sasl_method_name method = Some name /\ name ∈ words (get_bytes start "mechanisms") /\
    amqp_simple_wait_method_list fuel 0 [AMQP_CONNECTION_TUNE_METHOD; AMQP_CONNECTION_CLOSE_METHOD] deadline c3 =
      (inr (AMQP_CONNECTION_TUNE_METHOD, tune), c4) /\
    amqp_get_frame_max c' <> 0 /\ amqp_get_frame_max c' <= frame_max /\
    (get_int tune "frame_max" <> 0 -> amqp_get_frame_max c' <= get_int tune "frame_max") /\
    (channel_max <> 0 -> amqp_get_channel_max c' <= channel_max) /\
    (get_int tune "channel_max" <> 0 -> amqp_get_channel_max c' <= get_int tune "channel_max") /\
    amqp_get_heartbeat c' <= heartbeat /\
    (0 < get_int tune "heartbeat" -> amqp_get_heartbeat c' <= get_int tune "heartbeat").
Proof.
  unfold amqp_login_inner. destruct (_ || _); [done|]. destruct (frame_max <? 0); [done|].
  destruct (Z.ltb_spec heartbeat 0); [done|]. destruct (UINT16_MAX <? heartbeat); [done|]. cbn [orb].
  intros (r & c9 & E & E')%SE_bind_inv. destruct r as [res|result]; [by apply SE_bind_inv in E' as (? & ? & _ & [=])|].
  injection E' as -> ->. unfold c_status in E. destruct (login_dialogue _ _ _ _ _ _ c) as [[[]|res] c8] eqn:E1; try done.
  injection E as -> ->.
  unfold login_dialogue in E1. apply SE_bind_inv in E1 as (deadline & ? & _ & E). apply SE_bind_inv in E as (? & ? & _ & E).
  apply SE_bind_inv in E as (? & c1 & _ & E). apply SE_bind_inv in E as ([sid start] & c2 & Es & E).
  apply SE_bind_inv in E as ([] & c2' & (Hmaj & Hmin & name & Hn & Hw)%answer_start_ok & E).
  apply SE_bind_inv in E as (? & c3 & _ & E). apply SE_bind_inv in E as ([tid tune] & c4 & Et & E).
  destruct (Z.eqb_spec tid AMQP_CONNECTION_CLOSE_METHOD) as [|Htid]; [done|].
  apply tune_and_open_ok in E as (cm & fm & hb & Hneg & Hfm & Hl).
  apply wait_method_id in Es as Hs. apply wait_method_id in Et as Ht.
  assert (sid = AMQP_CONNECTION_START_METHOD) as -> by (by apply list_elem_of_singleton in Hs).
  assert (tid = AMQP_CONNECTION_TUNE_METHOD) as -> by (apply elem_of_cons in Ht as [|?%list_elem_of_singleton]; done).
  exists c1, c2, c3, c4, deadline, start, tune, name. repeat (split; [done|]).
  apply negotiate_le in Hneg as (Hn1 & Hn2 & Hn3 & Hn4 & Hn5 & Hn6). unfold limits in Hl. injection Hl as Hc Hf Hh.
  unfold amqp_get_frame_max, amqp_get_channel_max, amqp_get_heartbeat. rewrite Hc, Hf, Hh.
  destruct (Z.gtb_spec 0 hb); repeat split; try done; lia.
Qed.

(** ** The memory of a connection *)

(** The blocks of amqp_connection_state_t_: the structure, its two buffers, the
    table of pools and the pool of the properties. *)
Record conn_blocks := mk_conn_blocks {
  cb_state : nat;
  cb_outbound : option nat;
  cb_inbound : option nat;
  cb_pool_table : list (list pool_entry);
  cb_properties : amqp_pool
}.

Section lifetime.
Context `{Heap} (sizeof_connection_state : Z).

(** With a heartbeat of 0 amqp_tune_connection asks no clock; its realloc of
    NULL is malloc. *)
Definition amqp_new_connection : SE heap fault (option conn_blocks) :=
  state ← calloc sizeof_connection_state;
  match state with
  | None => mret None
  | Some state =>
      outbound ← calloc AMQP_INITIAL_FRAME_POOL_PAGE_SIZE;
      match outbound with
      | None => _ ← free None; _ ← free (Some state); mret None
      | Some outbound =>
          inbound ← calloc AMQP_INITIAL_INBOUND_SOCK_BUFFER_SIZE;
          match inbound with
          | None => _ ← free None; _ ← free (Some state); mret None
          | Some inbound =>
              mret (Some (mk_conn_blocks state (Some outbound) (Some inbound) (replicate 16 []) (init_amqp_pool 512)))
          end
      end
  end.

(** The pools of one list of the table. *)
Fixpoint destroy_entries (es : list pool_entry) : SE heap fault () :=
  match es with
  | [] => mret tt
  | e :: es' =>
      _ ← empty_amqp_pool (e_pool e);
      _ ← free (Some (e_block e));
      destroy_entries es'
  end.
(** [delete_socket] is what amqp_socket_delete does to the heap. *)
Definition amqp_destroy_connection (delete_socket : SE heap fault ()) (state : option conn_blocks) : SE heap fault Z :=
  match state with
  | None => mret AMQP_STATUS_OK
  | Some s =>
      _ ← mfold (fun _ => destroy_entries) (cb_pool_table s) tt;
      _ ← free (cb_outbound s);
      _ ← free (cb_inbound s);
      _ ← delete_socket;
      _ ← empty_amqp_pool (cb_properties s);
      _ ← free (Some (cb_state s));
      mret AMQP_STATUS_OK
  end.
End lifetime.

(** The blocks a connection holds, in the order they are freed. *)
Definition entry_blocks (e : pool_entry) : list nat := owned (e_pool e) ++ [e_block e].
Definition blocks_of (s : conn_blocks) : list nat :=
  concat (map entry_blocks (concat (cb_pool_table s))) ++
  option_list (cb_outbound s) ++ option_list (cb_inbound s) ++ owned (cb_properties s) ++ [cb_state s].

(** Freeing [bs] works when they are live and stays away from the rest. *)
Definition Frees {A} (bs : list nat) (m : SE heap fault A) : Prop :=
  forall h, NoDup bs -> Forall (fun b => is_Some (h_live h !! b)) bs -> exists a h', m h = (inr a, h') /\ without bs h h'.
Lemma without_nil h : without [] h h.
Proof. split; [done|]. intros b. by rewrite decide_False by apply not_elem_of_nil. Qed.
Lemma Frees_ret {A} (a : A) : Frees [] (mret a).
Proof. intros h _ _. exists a, h. split; [done|]. apply without_nil. Qed.
Lemma Frees_bind {A B} bs cs (m : SE heap fault A) (k : A -> SE heap fault B) :
  Frees bs m -> (forall a, Frees cs (k a)) -> Frees (bs ++ cs) (m ≫= k).
Proof.
  intros Hm Hk h (Hb & Hd & Hc)%NoDup_app [Hlb Hlc]%Forall_app. destruct (Hm h Hb Hlb) as (a & h1 & E & Hw).
  destruct (Hk a h1 Hc) as (b & h2 & E' & Hw').
  { rewrite Forall_forall in *. intros x Hx. destruct Hw as [_ ->]. rewrite decide_False; [auto|]. intros Hx'. by apply (Hd x). }
  exists b, h2. rewrite (SE_bind_ok _ _ _ _ _ E). split; [done|]. by eapply without_trans.
Qed.
Lemma Frees_free p : Frees (option_list p) (free p).
Proof.
  intros h Hn Hl. destruct p as [b|]; [|exists tt, h; split; [done|apply without_nil]].
  apply Forall_cons in Hl as [Hl _]. destruct (free_spec b h Hl) as (h' & E & ->). eexists tt, _. split; [exact E|].
  split; [done|]. intros x. cbn [h_live]. destruct (decide (x ∈ option_list (Some b))) as [->%list_elem_of_singleton|Hx].
  - apply lookup_delete_eq.
  - apply lookup_delete_ne. intros <-. apply Hx. by left.
Qed.
Lemma Frees_pool p : pool_lists_wf p -> Frees (owned p) (empty_amqp_pool p).
Proof. intros Hp h Hn Hl. by apply empty_pool_frees. Qed.
Lemma Frees_entries es :
  Forall (fun e => pool_lists_wf (e_pool e)) es -> Frees (concat (map entry_blocks es)) (destroy_entries es).
Proof.
  induction 1 as [|e es He _ IH]; [apply Frees_ret|]. cbn [destroy_entries map concat]. unfold entry_blocks at 1.
  rewrite <- app_assoc. apply Frees_bind; [by apply Frees_pool|]. intros _.
  apply Frees_bind; [apply (Frees_free (Some _))|]. done.
Qed.
Lemma Frees_table t u :
  Forall (fun e => pool_lists_wf (e_pool e)) (concat t) ->
  Frees (concat (map entry_blocks (concat t))) (mfold (fun _ => destroy_entries) t u).
Proof.
  revert u. induction t as [|es t IH]; intros u; cbn [concat mfold]; [intros _; destruct u; apply Frees_ret|].
  intros [He Ht]%Forall_app. rewrite map_app, concat_app. apply Frees_bind; [by apply Frees_entries|]. intros u'. by apply IH.
Qed.

(** amqp_destroy_connection frees every block of the connection once and
    nothing else. *)
Theorem destroy_connection_frees_all (s : conn_blocks) (h : heap) :
  Forall (fun e => pool_lists_wf (e_pool e)) (concat (cb_pool_table s)) -> pool_lists_wf (cb_properties s) ->
  NoDup (blocks_of s) -> Forall (fun b => is_Some (h_live h !! b)) (blocks_of s) ->
  exists h', amqp_destroy_connection (mret tt) (Some s) h = (inr AMQP_STATUS_OK, h') /\ without (blocks_of s) h h'.
Proof.
  intros Ht Hp Hn Hl.
  assert (Hf : Frees (blocks_of s) (amqp_destroy_connection (mret tt) (Some s))).
  { unfold blocks_of, amqp_destroy_connection. apply Frees_bind; [by apply Frees_table|]. intros _.
    apply Frees_bind; [apply Frees_free|]. intros _. apply Frees_bind; [apply Frees_free|]. intros _.
    change (owned (cb_properties s) ++ [cb_state s]) with ([] ++ (owned (cb_properties s) ++ [cb_state s])).
    apply Frees_bind; [apply Frees_ret|]. intros _. apply Frees_bind; [by apply Frees_pool|]. intros _.
    change [cb_state s] with ([cb_state s] ++ []). apply Frees_bind; [apply (Frees_free (Some _))|]. intros _. apply Frees_ret. }
  destruct (Hf h Hn Hl) as (a & h' & E & Hw). exists h'. split; [|done]. rewrite E. f_equal. f_equal.
  unfold amqp_destroy_connection in E. repeat (apply SE_bind_inv in E as (? & ? & _ & E)). by injection E as <- _.
Qed.

(** When the buffer for received data is refused, the outbound buffer that
    was made before is not freed. *)
Theorem new_connection_leaks_outbound :
  let refuses : Heap := fun n _ => negb (Nat.eqb n 2) in
  match @amqp_new_connection refuses 728 empty_heap with
  | (inr None, h') => bool_decide (is_Some (h_live h' !! 1%nat))
  | _ => false
  end = true.
Proof. vm_compute. reflexivity. Qed.

(** Two entries of [add] with one key that are both tables: the second is
    merged with an entry of [base] that does not exist, or is no table. *)
Theorem merge_capabilities_duplicate_keys :
  let run base add := fst (@amqp_merge_capabilities demo_grants _ (@pool_mem demo_grants) base (Some add) demo_mem) in
  let t k := (str k, FV_TABLE [(str "x", FV_BOOLEAN 1)]) in
  run [] [t "a"; t "a"] = inl (Fault OutOfBounds) /\
  run [(str "a", FV_UTF8 (str "text"))] [t "a"; t "a"] = inl (Fault OutOfBounds).
Proof. vm_compute. split; reflexivity. Qed.
(** Two tables without entries cannot be merged, nor can an EXTERNAL login use
    an empty identity: 0 bytes of a pool are NULL, taken for lack of memory. *)
Theorem empty_tables_and_identities_refused :
  fst (@amqp_merge_capabilities demo_grants _ (@pool_mem demo_grants) [] (Some []) demo_mem) = inl (Status AMQP_STATUS_NO_MEMORY) /\
  fst (@sasl_response _ (@pool_mem demo_grants) (AMQP_SASL_METHOD_EXTERNAL []) demo_mem) = inr None.
Proof. vm_compute. split; reflexivity. Qed.

(** ** Witnesses *)

Definition demo_add : table :=
  [(str "product", FV_UTF8 (str "inbox")); (str "capabilities", FV_TABLE [(str "basic.nack", FV_BOOLEAN 1)])].
Lemma merge_capabilities_correct_witness :
  exists mem', @amqp_merge_capabilities demo_grants _ (@pool_mem demo_grants) default_table (Some demo_add) demo_mem =
    (inr [(str "product", FV_UTF8 (str "inbox")); (str "version", FV_UTF8 (str "0.10.0-pre"));
          (str "platform", FV_UTF8 (str "Linux")); (str "copyright", FV_UTF8 AMQ_COPYRIGHT);
          (str "information", FV_UTF8 (str "See https://github.com/alanxz/rabbitmq-c"));
          (str "capabilities", FV_TABLE (client_capabilities ++ [(str "basic.nack", FV_BOOLEAN 1)]))], mem').
Proof.
  destruct (@merge_capabilities_correct _ demo_grants demo_grants_total (@pool_mem demo_grants) (@pool_mem_ok demo_grants)
    (@pool_mem_total demo_grants demo_grants_total) default_table demo_add [] demo_mem) as [(mem' & E & _) _].
  - done.
  - cbn. repeat split; apply (bool_decide_unpack _); vm_compute; exact I.
  - cbn. repeat split; apply (bool_decide_unpack _); vm_compute; exact I.
  - repeat constructor; done.
  - split; vm_compute; reflexivity.
  - split; vm_compute; reflexivity.
  - split; vm_compute; reflexivity.
  - apply temp_pool_inv.
  - exists mem'. rewrite E. reflexivity.
Defined.

(** The memory of a connection: the pools of the channels and the pool of the
    properties, on arenas of their own. *)
Definition left_mem {S T E A} (m : SE S E A) : SE (S * T) E A := fun '(s, t) => match m s with (r, s') => (r, (s', t)) end.
Definition right_mem {S T E A} (m : SE T E A) : SE (S * T) E A := fun '(s, t) => match m t with (r, t') => (r, (s, t')) end.
#[local] Instance demo_channel_mem : ChannelMem (pools * (heap * amqp_pool)) := {|
  cm_pool fm ch := left_mem (@cm_pool _ (@channel_mem demo_grants) fm ch);
  cm_buffer ch n := left_mem (@cm_buffer _ (@channel_mem demo_grants) ch n);
  cm_recycle ch := left_mem (@cm_recycle _ (@channel_mem demo_grants) ch);
  cm_entries ch := let em := @cm_entries _ (@channel_mem demo_grants) ch in
    {| em_malloc n := left_mem (em_malloc n); em_realloc b n := left_mem (em_realloc b n);
       em_free b := left_mem (em_free b); em_pool_alloc n := left_mem (em_pool_alloc n) |}
|}.
#[local] Instance demo_login_mem : LoginMem (pools * (heap * amqp_pool)) := {|
  properties_pool := let em := @pool_mem demo_grants in
    {| em_malloc n := right_mem (em_malloc n); em_realloc b n := right_mem (em_realloc b n);
       em_free b := right_mem (em_free b); em_pool_alloc n := right_mem (em_pool_alloc n) |};
  pool_channels m := concat (map (map e_channel) (p_table m.1));
  grants_buffer _ _ := true
|}.
(** A new connection, and a broker that has sent Start, Tune and Open-Ok. *)
Definition demo_start : struct :=
  list_to_map [("version_major", VInt 0); ("version_minor", VInt 9); ("server_properties", VTab [(str "product", FV_UTF8 (str "RabbitMQ"))]);
    ("mechanisms", VBytes (str "AMQPLAIN PLAIN")); ("locales", VBytes (str "en_US"))].
Definition demo_broker : list frame :=
  [F_method 0 AMQP_CONNECTION_START_METHOD demo_start;
   F_method 0 AMQP_CONNECTION_TUNE_METHOD
     (list_to_map [("channel_max", VInt 2047); ("frame_max", VInt 4096); ("heartbeat", VInt 60)]);
   F_method 0 AMQP_CONNECTION_OPEN_OK_METHOD (list_to_map [("known_hosts", VBytes [])])].
Definition demo_new_conn : conn (pools * (heap * amqp_pool)) pipe :=
  mk_conn (new_input 8192) (new_pools empty_heap, (empty_heap, init_amqp_pool 512))
    (mk_pipe (concat (map frame_bytes demo_broker)) [] 4) [] 0 [] (zfill 8192) 0 amqp_time_infinite amqp_time_infinite demo_api.
Abbreviation demo_login :=
  (@amqp_login_inner demo_grants _ _ demo_channel_mem demo_login_mem pipe_net 1000 (str "/") 0 131072 0 (Some []) None
    (AMQP_SASL_METHOD_PLAIN (str "user") (str "secret")) demo_new_conn).
Definition login_normal {S} (r : (dstop + rpc_reply) * S) : bool :=
  match r with (inr (AMQP_RESPONSE_NORMAL _ _), _) => true | _ => false end.

Lemma login_normal_inv {S} (r : (dstop + rpc_reply) * S) :
  login_normal r = true -> exists id m s, r = (inr (AMQP_RESPONSE_NORMAL id m), s).
Proof. destruct r as [[|[id m|e|]] s]; try done. eauto. Qed.
Lemma demo_login_normal : login_normal demo_login = true.
Proof. vm_compute. reflexivity. Qed.

Lemma login_negotiates_witness :
  exists id m c', demo_login = (inr (AMQP_RESPONSE_NORMAL id m), c') /\ amqp_get_frame_max c' <= 131072.
Proof.
  destruct (login_normal_inv _ demo_login_normal) as (id & m & c' & E). exists id, m, c'. split; [exact E|].
  destruct (@login_negotiates demo_grants _ _ demo_channel_mem demo_login_mem pipe_net _ _ _ _ _ _ _ _ _ _ _ _ E)
    as (c1 & c2 & c3 & c4 & dl & start & tune & name & H). apply H.
Defined.
