(* ===== verification/MqNotify.v ===== *)
(** * Message-broker notifications: mq-notify.c, mq-checksum.c, mq-config.h

    The connection to the broker, the JSON message of an operation, and the
    mq_send_* entry points of the SFTP server.  OpenSSL's SHA256 and json-c
    are parameters ([Sha256], [JsonC]); the calls to librabbitmq and libuuid
    are calls of the [World]. *)

From S2P Require Import Prelude CText Sshbuf World AmqpUrl.

(** ** Libraries *)

(** OpenSSL's one-shot contexts: each call returns a code and the context. *)
Class Sha256 := {
  sha_ctx : Type;
  indet_ctx : sha_ctx;  (* an uninitialised context *)
  SHA256_Init : sha_ctx -> Z * sha_ctx;
  SHA256_Update : sha_ctx -> list Z -> Z * sha_ctx;
  SHA256_Final : sha_ctx -> Z * list Z * sha_ctx
}.

(** A context holds the bytes given to it since SHA256_Init; SHA256_Final
    puts their digest of SHA256_DIGEST_LENGTH bytes. *)
Class Sha256Ok `{Sha256} := {
  sha256 : list Z -> list Z;
  ctx_holds : sha_ctx -> list Z -> Prop;
  init_holds : forall c, ctx_holds (snd (SHA256_Init c)) [];
  update_holds : forall c l d, ctx_holds c l -> ctx_holds (snd (SHA256_Update c d)) (l ++ d);
  final_digest : forall c l, ctx_holds c l -> snd (fst (SHA256_Final c)) = sha256 l;
  digest_len : forall l, zlen (sha256 l) = 32;
  digest_u8 : forall l, Forall is_u8 (sha256 l)
}.

(** json-c, as build_message uses it, with two of its readers. *)
Class JsonC := {
  json : Type;
  json_object_new_object : json;
  json_object_new_array : json;
  json_object_new_string : list Z -> json;
  json_object_new_int64 : Z -> json;
  json_object_object_add : json -> list Z -> json -> json;
  json_object_array_add : json -> json -> json;
  json_object_to_json_string_ext : json -> Z -> list Z;
  json_object_object_get : json -> list Z -> option json;
  json_object_array_get : json -> Z -> option json
}.
Class JsonOk `{JsonC} : Prop := {
  get_add_same : forall o k v, json_object_object_get (json_object_object_add o k v) k = Some v;
  get_add_other : forall o k k' v, k <> k' ->
    json_object_object_get (json_object_object_add o k v) k' = json_object_object_get o k';
  get_new : forall k, json_object_object_get json_object_new_object k = None;
  array_get_add : forall v, json_object_array_get (json_object_array_add json_object_new_array v) 0 = Some v
}.
Definition JSON_C_TO_STRING_NOSLASHESCAPE : Z := Z.shiftl 1 4.

(** ** mq-config.h *)

(** A [char *] of the options: into the options' own buffer, or wild (never
    set, or into a buffer that was freed). *)
Inductive ptr := PNull | PBuf (off : Z) | PWild.

Record mq_options_t := mk_mq {
  mq_cfgfile : ptr;
  mq_buffer : list Z;
  mq_buflen : Z;
  mq_dsn : ptr;
  mq_conn : option Z;
  mq_socket : option Z;
  mq_connection_opened : Z;
  mq_ssl : Z;
  mq_verify_hostname : Z;
  mq_verify_peer : Z;
  mq_cacert : ptr;
  mq_host : ptr;
  mq_ip : ptr;
  mq_port : Z;
  mq_vhost : ptr;
  mq_username : ptr;
  mq_password : ptr;
  mq_exchange : ptr;
  mq_routing_key : ptr;
  mq_heartbeat : Z
}.

(** The global [mq_options]. *)
Inductive mq_state := MqNull | MqAt (o : mq_options_t) | MqFreed.

Definition mq_set_conn (c s : option Z) (o : mq_options_t) : mq_options_t :=
  mk_mq (mq_cfgfile o) (mq_buffer o) (mq_buflen o) (mq_dsn o) c s (mq_connection_opened o)
    (mq_ssl o) (mq_verify_hostname o) (mq_verify_peer o) (mq_cacert o) (mq_host o) (mq_ip o)
    (mq_port o) (mq_vhost o) (mq_username o) (mq_password o) (mq_exchange o)
    (mq_routing_key o) (mq_heartbeat o).
Definition mq_set_opened (z : Z) (o : mq_options_t) : mq_options_t :=
  mk_mq (mq_cfgfile o) (mq_buffer o) (mq_buflen o) (mq_dsn o) (mq_conn o) (mq_socket o) z
    (mq_ssl o) (mq_verify_hostname o) (mq_verify_peer o) (mq_cacert o) (mq_host o) (mq_ip o)
    (mq_port o) (mq_vhost o) (mq_username o) (mq_password o) (mq_exchange o)
    (mq_routing_key o) (mq_heartbeat o).

(** ** The process as the notifications see it *)

Record env `{World} := mk_env { e_mq : mq_state; e_world : world; e_trace : list event }.
Arguments mk_env {_}.
Arguments e_mq {_}.
Arguments e_world {_}.
Arguments e_trace {_}.

Section Env.
Context `{World}.
Definition set_mq (m : mq_state) (e : env) : env := mk_env m (e_world e) (e_trace e).

(** Ask the world, and record the answer. *)
Definition do_call {A} (c : call A) : SE env exit_reason A := fun e =>
  let '(r, w) := ext c (e_world e) in
  (inr r, mk_env (e_mq e) w (e_trace e ++ [Ev c r])).

(** [mq_options->...]: the pointer must be live. *)
Definition options : SE env exit_reason mq_options_t := fun e =>
  match e_mq e with
  | MqAt o => (inr o, e)
  | MqNull | MqFreed => (inl Segv, e)
  end.
Definition update_options (f : mq_options_t -> mq_options_t) : SE env exit_reason () :=
  o ← options; modify (set_mq (MqAt (f o))).

(** The C string at a pointer that is read. *)
Definition mq_str (o : mq_options_t) (p : ptr) : option (list Z) :=
  match p with
  | PBuf off => Some (cstr (zdrop off (mq_buffer o)))
  | PNull | PWild => None
  end.
Definition read_str (p : ptr) : SE env exit_reason (list Z) :=
  o ← options;
  match mq_str o p with
  | Some s => mret s
  | None => throw Segv
  end.
Definition need {A} (p : option A) : SE env exit_reason A :=
  match p with Some a => mret a | None => throw Segv end.
Definition is_null (p : ptr) : bool := match p with PNull => true | _ => false end.

Definition AMQP_RESPONSE_NORMAL : Z := 1.
Definition AMQP_REPLY_SUCCESS : Z := 200.
Definition AMQP_DEFAULT_FRAME_SIZE : Z := 131072.
Definition AMQP_BASIC_CONTENT_TYPE_FLAG : Z := Z.shiftl 1 15.
Definition AMQP_BASIC_DELIVERY_MODE_FLAG : Z := Z.shiftl 1 12.
Definition AMQP_BASIC_CORRELATION_ID_FLAG : Z := Z.shiftl 1 10.

(** ** Broker connection *)

Definition mq_init_amqp : SE env exit_reason Z :=
  conn ← do_call AmqpNewConnection;
  _ ← update_options (fun o => mq_set_conn conn (mq_socket o) o);
  c ← need conn;
  sock ← do_call (AmqpTcpSocketNew c);
  _ ← update_options (fun o => mq_set_conn (mq_conn o) sock o);
  match sock with
  | None => mret 1
  | Some _ => mret 0
  end.

Definition mq_init_amqps : SE env exit_reason Z :=
  conn ← do_call AmqpNewConnection;
  _ ← update_options (fun o => mq_set_conn conn (mq_socket o) o);
  c ← need conn;
  sock ← do_call (AmqpSslSocketNew c);
  _ ← update_options (fun o => mq_set_conn (mq_conn o) sock o);
  match sock with
  | None => mret 1
  | Some s =>
      o ← options;
      _ ← (if truthy (mq_verify_peer o) && negb (is_null (mq_cacert o))
           then ca ← read_str (mq_cacert o); do_call (AmqpSslSetCacert s ca)
           else mret 0);
      _ ← do_call (AmqpSslSetVerifyPeer s (mq_verify_peer o));
      _ ← do_call (AmqpSslSetVerifyHostname s (mq_verify_hostname o));
      mret 0
  end.

Definition mq_init : SE env exit_reason Z :=
  o ← options;
  if truthy (mq_ssl o) then mq_init_amqps else mq_init_amqp.

Definition mq_clean : SE env exit_reason Z :=
  o ← options;
  match mq_conn o with
  | None => mret 0
  | Some c =>
      r ← do_call (AmqpChannelClose c 1 AMQP_REPLY_SUCCESS);
      if negb (r =? AMQP_RESPONSE_NORMAL) then mret 1
      else
        r ← do_call (AmqpConnectionClose c AMQP_REPLY_SUCCESS);
        if negb (r =? AMQP_RESPONSE_NORMAL) then mret 2
        else
          rc ← (if truthy (mq_ssl o) then do_call AmqpUninitializeSsl else mret 0);
          if truthy (mq_ssl o) && (rc <? 0) then mret 3
          else
            rc ← do_call (AmqpDestroyConnection c);
            if rc <? 0 then mret 4
            else
              _ ← update_options (fun o => mq_set_conn None (mq_socket o) (mq_set_opened 0 o));
              mret 0
  end.

(** clean_mq_config (mq-config.c). *)
Definition clean_mq_config : SE env exit_reason () :=
  m ← gets e_mq;
  match m with
  | MqNull => mret tt
  | _ => _ ← mq_clean; modify (set_mq MqFreed)
  end.

Definition mq_open_connection : SE env exit_reason Z :=
  o ← options;
  match mq_socket o with
  | None => mret 1
  | Some s =>
      if is_null (mq_ip o) then mret 1
      else
        ip ← read_str (mq_ip o);
        rc ← do_call (AmqpSocketOpen s ip (mq_port o));
        if truthy rc then mret 2
        else
          c ← need (mq_conn o);
          vhost ← read_str (mq_vhost o);
          user ← read_str (mq_username o);
          password ← read_str (mq_password o);
          r ← do_call (AmqpLogin c vhost 0 AMQP_DEFAULT_FRAME_SIZE (mq_heartbeat o) user password);
          if negb (r =? AMQP_RESPONSE_NORMAL) then mret 3
          else
            _ ← do_call (AmqpChannelOpen c 1);
            r ← do_call (AmqpGetRpcReply c);
            if negb (r =? AMQP_RESPONSE_NORMAL) then mret 4
            else _ ← update_options (mq_set_opened 1); mret 0
  end.
End Env.

(** ** Checksums: mq-checksum.c *)

Definition MQ_CHECKSUM_SIZE : Z := 32.
Definition MQ_CHECKSUM_TYPE : list Z := str "sha256".

Definition checksum_init `{Sha256} (c : sha_ctx) : Z * sha_ctx := SHA256_Init c.
Definition checksum_add `{Sha256} (c : sha_ctx) (data : list Z) : Z * sha_ctx := SHA256_Update c data.
Definition checksum_final `{Sha256} (c : sha_ctx) : Z * list Z * sha_ctx := SHA256_Final c.

(** ** Messages *)

Definition MQ_OP_UPLOAD : Z := 1.
Definition MQ_OP_REMOVE : Z := 2.
Definition MQ_OP_RENAME : Z := 3.

Section Messages.
Context `{World} `{JsonC} `{Allocator}.

Definition add_str (obj : json) (key : string) (v : list Z) : json :=
  json_object_object_add obj (str key) (json_object_new_string v).

(** The loop of build_message over the MQ_CHECKSUM_SIZE bytes of the digest. *)
Definition hexdigest (digest : list Z) : list Z :=
  concat (map (fun i => hex2 (u8 (znth digest (Z.of_nat i)))) (seq 0 (Z.to_nat MQ_CHECKSUM_SIZE))).

(** The object of a message; [None] for an unknown operation. *)
Definition message_object (operation : Z) (username filepath digest : list Z)
    (filesize modified : Z) (oldpath : list Z) : option json :=
  let obj := add_str json_object_new_object "user" username in
  let obj := add_str obj "filepath" filepath in
  if operation =? MQ_OP_UPLOAD then
    let obj := add_str obj "operation" (str "upload") in
    let jchecksum := add_str json_object_new_object "type" MQ_CHECKSUM_TYPE in
    let jchecksum := add_str jchecksum "value" (hexdigest digest) in
    let jarray := json_object_array_add json_object_new_array jchecksum in
    let obj := json_object_object_add obj (str "encrypted_checksums") jarray in
    let obj := json_object_object_add obj (str "filesize") (json_object_new_int64 filesize) in
    Some (json_object_object_add obj (str "file_last_modified") (json_object_new_int64 modified))
  else if operation =? MQ_OP_REMOVE then
    Some (add_str obj "operation" (str "remove"))
  else if operation =? MQ_OP_RENAME then
    let obj := add_str obj "operation" (str "rename") in
    Some (add_str obj "oldpath" oldpath)
  else None.

Definition build_message (operation : Z) (username filepath digest : list Z)
    (filesize modified : Z) (oldpath : list Z) : option (list Z) :=
  obj ← message_object operation username filepath digest filesize modified oldpath;
  strdup (cstr (json_object_to_json_string_ext obj JSON_C_TO_STRING_NOSLASHESCAPE)).

Definition message_props (correlation_id : list Z) : amqp_props :=
  mk_props
    (Z.lor (Z.lor AMQP_BASIC_CONTENT_TYPE_FLAG AMQP_BASIC_DELIVERY_MODE_FLAG)
      AMQP_BASIC_CORRELATION_ID_FLAG)
    (str "application/json") 2 correlation_id.

Definition do_send_message (message : option (list Z)) : SE env exit_reason Z :=
  correlation_id ← do_call UuidGenerate;
  o ← options;
  c ← need (mq_conn o);
  exchange ← read_str (mq_exchange o);
  routing_key ← read_str (mq_routing_key o);
  body ← need message;
  do_call (AmqpBasicPublish c 1 exchange routing_key 0 0 (message_props correlation_id) body).

(** The common frame of the three entry points: log in if that was not done
    yet, build the message, publish it. *)
Definition mq_logged_in : SE env exit_reason bool :=
  o ← options;
  if negb (truthy (mq_connection_opened o)) then
    rc ← mq_open_connection; mret (rc =? 0)
  else mret true.

Definition mq_send_upload (username filepath digest : list Z) (filesize modified : Z)
    : SE env exit_reason Z :=
  ready ← mq_logged_in;
  if negb ready then mret 1
  else
    let msg := build_message MQ_OP_UPLOAD username filepath digest filesize modified [] in
    rc ← do_send_message msg;
    mret (if rc =? AMQP_STATUS_OK then 0 else 2).

Definition mq_send_remove (username filepath : list Z) : SE env exit_reason Z :=
  ready ← mq_logged_in;
  if negb ready then mret 1
  else
    let msg := build_message MQ_OP_REMOVE username filepath [] 0 0 [] in
    rc ← do_send_message msg;
    mret (if rc =? AMQP_STATUS_OK then 0 else 2).

Definition mq_send_rename (username oldpath newpath : list Z) : SE env exit_reason Z :=
  ready ← mq_logged_in;
  if negb ready then mret 1
  else
    let msg := build_message MQ_OP_RENAME username newpath [] 0 0 oldpath in
    rc ← do_send_message msg;
    mret (if rc =? AMQP_STATUS_OK then 0 else 2).
End Messages.

(** ** Specification *)

(** A notification, as the server asks for it. *)
Inductive notice :=
| NUpload (username filepath digest : list Z) (filesize modified : Z)
| NRemove (username filepath : list Z)
| NRename (username oldpath newpath : list Z).

Section Spec.
Context `{World} `{JsonC} `{Allocator}.

Definition mq_send (n : notice) : SE env exit_reason Z :=
  match n with
  | NUpload u f d s m => mq_send_upload u f d s m
  | NRemove u f => mq_send_remove u f
  | NRename u old new => mq_send_rename u old new
  end.
Definition notice_message (n : notice) : option (list Z) :=
  match n with
  | NUpload u f d s m => build_message MQ_OP_UPLOAD u f d s m []
  | NRemove u f => build_message MQ_OP_REMOVE u f [] 0 0 []
  | NRename u old new => build_message MQ_OP_RENAME u new [] 0 0 old
  end.

(** Options a notification can be sent with: the early socket was made, and
    every string that is read was set. *)
Record mq_ready (o : mq_options_t) : Prop := {
  ready_socket : is_Some (mq_socket o);
  ready_conn : is_Some (mq_conn o);
  ready_ip : is_Some (mq_str o (mq_ip o));
  ready_vhost : is_Some (mq_str o (mq_vhost o));
  ready_user : is_Some (mq_str o (mq_username o));
  ready_password : is_Some (mq_str o (mq_password o));
  ready_exchange : is_Some (mq_str o (mq_exchange o));
  ready_key : is_Some (mq_str o (mq_routing_key o))
}.
End Spec.

(** What the broker was asked to publish, and librabbitmq's answer. *)
Record publication := mk_pub {
  pub_exchange : list Z; pub_key : list Z; pub_props : amqp_props; pub_body : list Z; pub_rc : Z
}.
Definition pub_of (e : event) : option publication :=
  match e with
  | Ev c r =>
      match c in call A return A -> option publication with
      | AmqpBasicPublish _ _ x k _ _ p b => fun rc => Some (mk_pub x k p b rc)
      | _ => fun _ => None
      end r
  end.
Definition pubs (tr : list event) : list publication := omap pub_of tr.

(** The broker session as an automaton: the socket is opened, then the user
    logs in, then a channel is asked for and granted, then messages are
    published; a refusal goes back to the start, and once the session is open
    none of these steps is taken again.  [None] is a violation. *)
Inductive session := Closed | Connected | LoggedIn | ChannelAsked | SessionOpen.
Definition session_step (s : session) (e : event) : option session :=
  match e with
  | Ev c r =>
      match c in call A return A -> option session with
      | AmqpSocketOpen _ _ _ => fun r => match s with Closed => Some (if r =? 0 then Connected else Closed) | _ => None end
      | AmqpLogin _ _ _ _ _ _ _ => fun r =>
          match s with Connected => Some (if r =? AMQP_RESPONSE_NORMAL then LoggedIn else Closed) | _ => None end
      | AmqpChannelOpen _ _ => fun _ => match s with LoggedIn => Some ChannelAsked | _ => None end
      | AmqpGetRpcReply _ => fun r =>
          match s with ChannelAsked => Some (if r =? AMQP_RESPONSE_NORMAL then SessionOpen else Closed) | _ => None end
      | AmqpBasicPublish _ _ _ _ _ _ _ _ => fun _ => match s with SessionOpen => Some s | _ => None end
      | _ => fun _ => Some s
      end r
  end.
Fixpoint session_run (s : session) (tr : list event) : option session :=
  match tr with
  | [] => Some s
  | e :: tr' => s' ← session_step s e; session_run s' tr'
  end.

Lemma session_run_app s tr tr' :
  session_run s (tr ++ tr') = (s' ← session_run s tr; session_run s' tr').
Proof.
  revert s. induction tr as [|e tr IH]; intros s; simpl; [done|].
  destruct (session_step s e); simpl; [apply IH|done].
Qed.

(** ** Lemmas *)

(** The next answer of the world. *)
Ltac call_step :=
  match goal with
  | |- context [ext ?c ?w] =>
      let r := fresh "r" in let w' := fresh "w" in destruct (ext c w) as [r w']; cbn
  end.

(** Reading a hexadecimal text back. *)
Definition unhex_digit (c : Z) : Z := if c <? 58 then c - 48 else c - 87.
Fixpoint unhex (l : list Z) : list Z :=
  match l with
  | a :: b :: l' => unhex_digit a * 16 + unhex_digit b :: unhex l'
  | _ => []
  end.

Lemma unhex_digit_hex d : 0 <= d < 16 -> unhex_digit (hex_digit d) = d.
Proof.
  intros. unfold unhex_digit, hex_digit.
  destruct (Z.ltb_spec d 10); [rewrite (proj2 (Z.ltb_lt _ 58)); lia|].
  rewrite (proj2 (Z.ltb_ge _ 58)); lia.
Qed.
Lemma unhex_hex2 b l : is_u8 b -> unhex (hex2 b ++ l) = b :: unhex l.
Proof.
  intros [? ?]. cbn. f_equal.
  pose proof (Z.div_mod b 16 ltac:(lia)). pose proof (Z.mod_pos_bound b 16 ltac:(lia)).
  assert (0 <= b / 16 < 16) by (split; [apply Z.div_pos|apply Z.div_lt_upper_bound]; lia).
  rewrite !unhex_digit_hex by done. lia.
Qed.
Lemma unhex_concat l : Forall is_u8 l -> unhex (concat (map hex2 l)) = l.
Proof.
  induction 1 as [|b l Hb _ IH]; [done|]. cbn [map concat]. rewrite unhex_hex2 by done. by rewrite IH.
Qed.
Lemma map_znth l : map (fun i => znth l (Z.of_nat i)) (seq 0 (length l)) = l.
Proof.
  apply list_eq. intros i. rewrite list_lookup_fmap.
  destruct (decide (i < length l)%nat) as [Hi|Hi].
  - rewrite lookup_seq_lt by done. destruct (lookup_lt_is_Some_2 l i Hi) as [x Hx].
    rewrite Hx. cbn. unfold znth. rewrite Nat2Z.id. f_equal.
    by rewrite nth_lookup, Hx.
  - rewrite lookup_seq_ge by lia. by rewrite (lookup_ge_None_2 l i) by lia.
Qed.
Lemma hexdigest_map d : zlen d = 32 -> Forall is_u8 d -> hexdigest d = concat (map hex2 d).
Proof.
  intros Hl Hd. unfold hexdigest. f_equal.
  replace (Z.to_nat MQ_CHECKSUM_SIZE) with (length d) by (unfold zlen, MQ_CHECKSUM_SIZE in *; lia).
  transitivity (map hex2 (map (fun i => znth d (Z.of_nat i)) (seq 0 (length d))));
    [|by rewrite map_znth].
  rewrite map_map. apply map_ext_in.
  intros i _. f_equal. apply u8_id. unfold znth. rewrite Nat2Z.id.
  destruct (nth_in_or_default i d 0) as [Hi| ->]; [|done].
  rewrite Forall_forall in Hd. apply Hd. by apply list_elem_of_In.
Qed.
Lemma zlen_hex l : zlen (concat (map hex2 l)) = 2 * zlen l.
Proof.
  induction l as [|b l IH]; [done|]. cbn [map concat]. rewrite zlen_app, IH, zlen_cons.
  unfold hex2. rewrite !zlen_cons, zlen_nil. lia.
Qed.

Section Fields.
Context `{JsonOk}.

(** [obj] has the string [v] under [k]. *)
Definition str_field (obj : json) (k : string) (v : list Z) : Prop :=
  json_object_object_get obj (str k) = Some (json_object_new_string v).
Definition int_field (obj : json) (k : string) (v : Z) : Prop :=
  json_object_object_get obj (str k) = Some (json_object_new_int64 v).

Definition notice_object (n : notice) : option json :=
  match n with
  | NUpload u f d s m => message_object MQ_OP_UPLOAD u f d s m []
  | NRemove u f => message_object MQ_OP_REMOVE u f [] 0 0 []
  | NRename u old new => message_object MQ_OP_RENAME u new [] 0 0 old
  end.

(** The checksum of an upload is a digest. *)
Definition notice_ok (n : notice) : Prop :=
  match n with NUpload _ _ d _ _ => zlen d = 32 /\ Forall is_u8 d | _ => True end.

(** What a reader of the message of [n] finds: the digest is in hexadecimal. *)
Definition describes (obj : json) (n : notice) : Prop :=
  match n with
  | NUpload u f d s m =>
      str_field obj "user" u /\ str_field obj "filepath" f /\ str_field obj "operation" (str "upload") /\
      int_field obj "filesize" s /\ int_field obj "file_last_modified" m /\
      exists arr ck, json_object_object_get obj (str "encrypted_checksums") = Some arr /\
        json_object_array_get arr 0 = Some ck /\
        str_field ck "type" (str "sha256") /\ exists v, str_field ck "value" v /\ zlen v = 64 /\ unhex v = d
  | NRemove u f =>
      str_field obj "user" u /\ str_field obj "filepath" f /\ str_field obj "operation" (str "remove") /\
      json_object_object_get obj (str "oldpath") = None /\
      json_object_object_get obj (str "encrypted_checksums") = None
  | NRename u old new =>
      str_field obj "user" u /\ str_field obj "filepath" new /\ str_field obj "operation" (str "rename") /\
      str_field obj "oldpath" old /\ json_object_object_get obj (str "encrypted_checksums") = None
  end.
End Fields.

Ltac json_get :=
  unfold str_field, int_field, add_str;
  repeat first [rewrite get_add_same | rewrite get_add_other by (intros Heq; vm_compute in Heq; congruence)];
  rewrite ?get_new; try reflexivity.

(** ** The dialogue of a notification *)

Section Dialogue.
Context `{World} `{JsonC}.

(** The values of the options that a login uses. *)
Record login_values := mk_login { lv_sock : Z; lv_conn : Z; lv_ip : list Z; lv_vhost : list Z; lv_user : list Z; lv_password : list Z }.
Definition login_of (o : mq_options_t) (v : login_values) : Prop :=
  mq_socket o = Some (lv_sock v) /\ mq_conn o = Some (lv_conn v) /\ mq_str o (mq_ip o) = Some (lv_ip v) /\
  mq_str o (mq_vhost o) = Some (lv_vhost v) /\ mq_str o (mq_username o) = Some (lv_user v) /\
  mq_str o (mq_password o) = Some (lv_password v).

(** An attempt to log in: the calls, in their order, up to the first that
    fails; [true] when none does. *)
Inductive attempt (o : mq_options_t) (v : login_values) : bool -> list event -> Prop :=
| no_socket rc : rc <> 0 -> attempt o v false [Ev (AmqpSocketOpen (lv_sock v) (lv_ip v) (mq_port o)) rc]
| no_login r : r <> AMQP_RESPONSE_NORMAL ->
    attempt o v false
      [Ev (AmqpSocketOpen (lv_sock v) (lv_ip v) (mq_port o)) 0;
       Ev (AmqpLogin (lv_conn v) (lv_vhost v) 0 131072 (mq_heartbeat o) (lv_user v) (lv_password v)) r]
| channel_reply r :
    attempt o v (r =? AMQP_RESPONSE_NORMAL)
      [Ev (AmqpSocketOpen (lv_sock v) (lv_ip v) (mq_port o)) 0;
       Ev (AmqpLogin (lv_conn v) (lv_vhost v) 0 131072 (mq_heartbeat o) (lv_user v) (lv_password v)) AMQP_RESPONSE_NORMAL;
       Ev (AmqpChannelOpen (lv_conn v) 1) tt; Ev (AmqpGetRpcReply (lv_conn v)) r].

(** One publication of [n]: a fresh id, and a persistent JSON message that
    describes [n], to the configured exchange and key; [rc] is what the library
    answers. *)
Definition publishes (o : mq_options_t) (v : login_values) (n : notice) (rc : Z) (tr : list event) : Prop :=
  exists id x k obj,
  tr = [Ev UuidGenerate id;
        Ev (AmqpBasicPublish (lv_conn v) 1 x k 0 0 (mk_props 0x9400 (str "application/json") 2 id)
              (cstr (json_object_to_json_string_ext obj JSON_C_TO_STRING_NOSLASHESCAPE))) rc] /\
  mq_str o (mq_exchange o) = Some x /\ mq_str o (mq_routing_key o) = Some k /\ describes obj n.

(** What a notification does, with its result and the options after it: the
    login is refused; the login is accepted and [n] published; or the session
    was open already. *)
Inductive send_outcome (o : mq_options_t) (n : notice) : Z -> mq_options_t -> list event -> Prop :=
| send_refused v tr :
    mq_connection_opened o = 0 -> login_of o v -> attempt o v false tr -> send_outcome o n 1 o tr
| send_first v rc tr tr' :
    mq_connection_opened o = 0 -> login_of o v -> attempt o v true tr -> publishes o v n rc tr' ->
    send_outcome o n (if rc =? 0 then 0 else 2) (mq_set_opened 1 o) (tr ++ tr')
| send_again v rc tr :
    mq_connection_opened o <> 0 -> login_of o v -> publishes o v n rc tr ->
    send_outcome o n (if rc =? 0 then 0 else 2) o tr.
End Dialogue.

Section Lemmas.
Context `{World} `{JsonC} `{Allocator}.

Lemma mq_send_unfold n e :
  mq_send n e = (ready ← mq_logged_in;
    if negb ready then mret 1
    else rc ← do_send_message (notice_message n); mret (if rc =? AMQP_STATUS_OK then 0 else 2)) e.
Proof. by destruct n. Qed.

Lemma mq_ready_login o : mq_ready o -> exists v, login_of o v.
Proof. intros [[s Hs] [c Hc] [ip Hip] [vh Hvh] [us Hus] [pw Hpw] _ _]. by exists (mk_login s c ip vh us pw). Qed.
Lemma open_connection_spec o v w tr :
  login_of o v ->
  exists rc w' tr', mq_open_connection (mk_env (MqAt o) w tr) =
      (inr rc, mk_env (MqAt (if rc =? 0 then mq_set_opened 1 o else o)) w' (tr ++ tr')) /\ attempt o v (rc =? 0) tr'.
Proof.
  intros (Hs & Hc & Hip & Hvh & Hus & Hpw). unfold mq_open_connection, read_str, need, update_options, options, do_call. unfold_SE.
  rewrite Hs, Hc. assert (Hn : is_null (mq_ip o) = false) by (destruct (mq_ip o); simpl in *; congruence).
  rewrite Hn. cbn. rewrite Hip. cbn. call_step. destruct (Z.eqb_spec r 0) as [->|Hr]; cbn.
  2:{ unfold truthy. rewrite (proj2 (Z.eqb_neq _ _)) by done. cbn. eexists 2, w0, [_]. split; [done|]. by constructor. }
  rewrite Hvh; cbn. rewrite Hus; cbn. rewrite Hpw; cbn. call_step. destruct (Z.eqb_spec r AMQP_RESPONSE_NORMAL) as [->|Hl]; cbn.
  2:{ eexists 3, w1, [_; _]. rewrite <- app_assoc. split; [done|]. by constructor. }
  call_step. destruct r. call_step. pose proof (channel_reply o v r) as Hch.
  destruct (r =? AMQP_RESPONSE_NORMAL); cbn; [eexists 0, w3, _|eexists 4, w3, _]; rewrite <- !app_assoc; (split; [reflexivity|exact Hch]).
Qed.

Lemma mq_ready_opened z o : mq_ready o -> mq_ready (mq_set_opened z o).
Proof. intros []. by split. Qed.

Lemma message_describes `{!JsonOk} n msg : notice_ok n -> notice_message n = Some msg ->
  exists obj, describes obj n /\ msg = cstr (json_object_to_json_string_ext obj JSON_C_TO_STRING_NOSLASHESCAPE).
Proof.
  intros Hn Hm. assert (Hd : exists obj, describes obj n /\ notice_message n = strdup (cstr (json_object_to_json_string_ext obj JSON_C_TO_STRING_NOSLASHESCAPE))).
  { destruct n; eexists; (split; [|reflexivity]); [destruct Hn|..]; (split_and!; [json_get..|]); try json_get.
    eexists _, _. split_and!; [json_get|apply array_get_add|json_get|]. eexists. split; [json_get|].
    rewrite hexdigest_map, zlen_hex, unhex_concat by done. split; [lia|done]. }
  destruct Hd as (obj & Hd & Ht). exists obj. split; [done|]. rewrite Ht in Hm. unfold strdup in Hm. destruct (heap_alloc _); cbn in Hm; congruence.
Qed.
Lemma do_send_spec `{!JsonOk} o v w tr n msg :
  mq_ready o -> login_of o v -> notice_ok n -> notice_message n = Some msg ->
  exists rc w' tr', do_send_message (Some msg) (mk_env (MqAt o) w tr) = (inr rc, mk_env (MqAt o) w' (tr ++ tr')) /\ publishes o v n rc tr'.
Proof.
  intros [_ _ _ _ _ _ [x Hx] [k Hk]] (_ & Hc & _) Hn Hm. destruct (message_describes n msg Hn Hm) as (obj & Hd & ->).
  unfold do_send_message, read_str, options, need, do_call. unfold_SE. call_step.
  rewrite Hc. cbn. rewrite Hx. cbn. rewrite Hk. cbn. call_step.
  eexists r0, w1, _. rewrite <- app_assoc. split; [reflexivity|]. by exists r, x, k, obj.
Qed.

(** The state lemma behind the properties of mq_send. *)
Lemma mq_send_spec `{!JsonOk} n o w tr :
  mq_ready o -> notice_ok n -> is_Some (notice_message n) ->
  exists rc o' w' tr', mq_send n (mk_env (MqAt o) w tr) = (inr rc, mk_env (MqAt o') w' (tr ++ tr')) /\
    mq_ready o' /\ send_outcome o n rc o' tr'.
Proof.
  intros Hr Hn [msg Hm]. destruct (mq_ready_login o Hr) as [v Hv]. rewrite mq_send_unfold, Hm. unfold mq_logged_in, options. unfold_SE.
  unfold truthy. destruct (Z.eqb_spec (mq_connection_opened o) 0) as [Ho|Ho]; cbn [negb e_mq].
  - destruct (open_connection_spec o v w tr Hv) as (rc & w1 & tr1 & E1 & Ha). unfold mbind, SE_bind. rewrite E1.
    destruct (rc =? 0); cbn [negb]; [|exists 1, o, w1, tr1; split; [done|]; split; [done|by econstructor]].
    pose proof (mq_ready_opened 1 o Hr) as Hr1.
    destruct (do_send_spec (mq_set_opened 1 o) v w1 (tr ++ tr1) n msg Hr1 Hv Hn Hm) as (prc & w2 & tr2 & E2 & Hp).
    rewrite E2. eexists _, (mq_set_opened 1 o), w2, (tr1 ++ tr2). rewrite app_assoc. split; [reflexivity|]. split; [done|].
    by apply (send_first o n v).
  - destruct (do_send_spec o v w tr n msg Hr Hv Hn Hm) as (prc & w2 & tr2 & E2 & Hp). unfold mbind, SE_bind. rewrite E2.
    eexists _, o, w2, tr2. split; [reflexivity|]. split; [done|]. by apply (send_again o n v).
Qed.
End Lemmas.

(** The broker code stops the process only through a bad pointer. *)
Section OnlySegv.
Context `{World} `{JsonC} `{Allocator}.
Definition only_segv {A} (m : SE env exit_reason A) : Prop :=
  forall e, match m e with (inl x, _) => x = Segv | _ => True end.
Lemma only_segv_ret {A} (a : A) : only_segv (mret a).
Proof. by intros e. Qed.
Lemma only_segv_bind {A B} (m : SE env exit_reason A) (k : A -> SE env exit_reason B) :
  only_segv m -> (forall a, only_segv (k a)) -> only_segv (m ≫= k).
Proof.
  intros Hm Hk e. specialize (Hm e). unfold mbind, SE_bind. destruct (m e) as [[x|a] e']; [done|].
  apply Hk.
Qed.
Lemma only_segv_call {A} (c : call A) : only_segv (do_call c).
Proof. intros e. unfold do_call. by destruct (ext _ _). Qed.
Lemma only_segv_options : only_segv options.
Proof. intros e. unfold options. by destruct (e_mq e). Qed.
Lemma only_segv_update f : only_segv (update_options f).
Proof. apply only_segv_bind; [apply only_segv_options|by intros o e]. Qed.
Lemma only_segv_need {A} (p : option A) : only_segv (need p).
Proof. by destruct p; intros e. Qed.
Lemma only_segv_read p : only_segv (read_str p).
Proof.
  apply only_segv_bind; [apply only_segv_options|]. intros o. by destruct (mq_str o p); intros e.
Qed.

Ltac segv_step :=
  first [ apply only_segv_ret | apply only_segv_call
        | apply only_segv_options | apply only_segv_update | apply only_segv_need
        | apply only_segv_read | apply only_segv_bind; [|intros ?]
        | match goal with |- only_segv (match ?x with _ => _ end) => destruct x end ].
Lemma only_segv_send n : only_segv (mq_send n).
Proof.
  destruct n; unfold mq_send, mq_send_upload, mq_send_remove, mq_send_rename, mq_logged_in,
    mq_open_connection, do_send_message; repeat segv_step.
Qed.
Lemma only_segv_clean : only_segv clean_mq_config.
Proof.
  unfold clean_mq_config, mq_clean. apply only_segv_bind; [by intros e|]. intros [];
  repeat segv_step; by intros e.
Qed.
End OnlySegv.

(** Objects as the history of their additions, for examples. *)
Inductive demo_json :=
| DStr (s : list Z) | DInt (z : Z) | DObj | DAdd (o : demo_json) (k : list Z) (v : demo_json)
| DArr | DPush (a v : demo_json).
Fixpoint demo_get (o : demo_json) (k : list Z) : option demo_json :=
  match o with
  | DAdd o' k' v => if bytes_eqb k' k then Some v else demo_get o' k
  | _ => None
  end.
Fixpoint demo_text (j : demo_json) : list Z :=
  match j with
  | DStr s => [34] ++ s ++ [34]
  | DInt z => [48 + z mod 10]
  | DObj => [123; 125]
  | DAdd o k v => demo_text o ++ k ++ [58] ++ demo_text v ++ [44]
  | DArr => [91; 93]
  | DPush a v => demo_text a ++ demo_text v
  end.
Definition demo_jsonc : JsonC := {|
  json := demo_json;
  json_object_new_object := DObj;
  json_object_new_array := DArr;
  json_object_new_string := DStr;
  json_object_new_int64 := DInt;
  json_object_object_add := DAdd;
  json_object_array_add := DPush;
  json_object_to_json_string_ext := fun j _ => demo_text j;
  json_object_object_get := demo_get;
  json_object_array_get := fun a i => match a with DPush DArr v => if i =? 0 then Some v else None | _ => None end
|}.
Lemma demo_jsonc_ok : @JsonOk demo_jsonc.
Proof.
  split; simpl.
  - intros o k v. by rewrite bytes_eqb_refl.
  - intros o k k' v Hk. by rewrite (proj2 (bytes_eqb_neq k k') Hk).
  - done.
  - done.
Qed.

(** A digest for examples: the running sum in 32 bytes. *)
Definition demo_sha : Sha256 := {|
  sha_ctx := list Z; indet_ctx := [];
  SHA256_Init := fun _ => (1, []);
  SHA256_Update := fun c d => (1, c ++ d);
  SHA256_Final := fun c => (1, replicate 32 (foldr Z.add 0 c mod 256), c)
|}.
Definition demo_sha_ok : @Sha256Ok demo_sha.
Proof.
  refine (@Build_Sha256Ok demo_sha (fun l => replicate 32 (foldr Z.add 0 l mod 256))
    (fun c l => @eq (list Z) c l) _ _ _ _ _); simpl; try done.
  - by intros c l d ->.
  - by intros c l ->.
  - intros l. by repeat constructor; apply Z.mod_pos_bound.
Defined.

(** ** Properties *)

Section Properties.
Context `{World} `{JsonC} `{Allocator} `{!JsonOk}.

(** C5: with a configuration whose strings, connection and socket are set, and
    memory for the text, a notification does one of three things.  If nobody is
    logged in and the socket, the login or the channel is refused, it makes just
    these calls, up to the refused one, publishes nothing, returns 1 and leaves
    the options as they were.  If nobody is logged in and all three are
    accepted, it then publishes, and marks the session as open.  If the session
    is open it publishes at once.  To publish is to hand the library exactly one
    persistent message, JSON that describes the operation, for the configured
    exchange and routing key on channel 1 of the connection; the result is 0 if
    the library accepts it and 2 if not. *)
Theorem mq_send_publishes_once (n : notice) (o : mq_options_t) (w : world) (tr : list event) :
  mq_ready o -> notice_ok n -> is_Some (notice_message n) ->
  exists rc o' w' tr', mq_send n (mk_env (MqAt o) w tr) =
      (inr rc, mk_env (MqAt o') w' (tr ++ tr')) /\
    mq_ready o' /\ send_outcome o n rc o' tr'.
Proof. apply mq_send_spec. Qed.

Definition send_all (ns : list notice) : SE env exit_reason () :=
  mfold (fun _ n => _ ← mq_send n; mret tt) ns tt.

Lemma send_all_cons n ns e rc e' : mq_send n e = (inr rc, e') -> send_all (n :: ns) e = send_all ns e'.
Proof. intros E. unfold send_all. cbn. unfold mbind, SE_bind. by rewrite E. Qed.
Lemma session_attempt o v b tr : attempt o v b tr -> session_run Closed tr = Some (if b then SessionOpen else Closed).
Proof.
  intros []; cbn; [by rewrite (proj2 (Z.eqb_neq _ _))..|]. by destruct (r =? AMQP_RESPONSE_NORMAL).
Qed.
Lemma session_publishes o v n rc tr : publishes o v n rc tr -> session_run SessionOpen tr = Some SessionOpen.
Proof. by intros (id & x & k & obj & -> & _). Qed.
Lemma session_published o v ns trs : Forall2 (fun n tr => exists rc, publishes o v n rc tr) ns trs ->
  session_run SessionOpen (concat trs) = Some SessionOpen.
Proof. induction 1 as [|n tr ns trs [rc Hp] _ IH]; [done|]. cbn. by rewrite session_run_app, (session_publishes _ _ _ _ _ Hp). Qed.
Lemma session_refused o v ts : Forall (attempt o v false) ts -> session_run Closed (concat ts) = Some Closed.
Proof. induction 1 as [|t ts Ht _ IH]; [done|]. cbn. by rewrite session_run_app, (session_attempt _ _ _ _ Ht). Qed.
Lemma login_opened z o v : login_of (mq_set_opened z o) v = login_of o v.
Proof. done. Qed.
Lemma login_unique o v v' : login_of o v -> login_of o v' -> v = v'.
Proof. destruct v, v'. unfold login_of. cbn. naive_solver congruence. Qed.
Lemma publishes_opened z o v n rc tr : publishes (mq_set_opened z o) v n rc tr -> publishes o v n rc tr.
Proof. done. Qed.

Lemma outcome_cases o v n rc o' tr : login_of o v -> send_outcome o n rc o' tr ->
  (mq_connection_opened o = 0 /\ o' = o /\ attempt o v false tr) \/
  (mq_connection_opened o = 0 /\ o' = mq_set_opened 1 o /\ exists rc t t', tr = t ++ t' /\ attempt o v true t /\ publishes o v n rc t') \/
  (mq_connection_opened o <> 0 /\ o' = o /\ exists rc, publishes o v n rc tr).
Proof. intros Hv [v' t ? Hv'|v' ? ? ? ? Hv'|v' ? ? ? Hv']; rewrite (login_unique o v' v) in * by done; eauto 10. Qed.

(** With the session open every notification is published. *)
Lemma send_all_open ns o v w tr : mq_ready o -> login_of o v -> mq_connection_opened o <> 0 ->
  Forall (fun n => notice_ok n /\ is_Some (notice_message n)) ns ->
  exists w' trs, send_all ns (mk_env (MqAt o) w tr) = (inr tt, mk_env (MqAt o) w' (tr ++ concat trs)) /\
    Forall2 (fun n tr => exists rc, publishes o v n rc tr) ns trs.
Proof.
  intros Hr Hv Ho Hns. revert w tr. induction Hns as [|n ns [Hn Hm] _ IH]; intros w tr.
  - exists w, []. cbn. by rewrite app_nil_r.
  - destruct (mq_send_spec n o w tr Hr Hn Hm) as (rc & o' & w1 & tr1 & E & _ & Hout).
    assert (o' = o /\ exists rc, publishes o v n rc tr1) as [-> Hp].
    { destruct (outcome_cases _ _ _ _ _ _ Hv Hout) as [(? & _)|[(? & _)|(_ & -> & Hp)]]; done. }
    destruct (IH w1 (tr ++ tr1)) as (w2 & trs & E2 & Hp2). exists w2, (tr1 :: trs). split; [|by constructor].
    rewrite (send_all_cons _ _ _ _ _ E), E2. cbn [concat app]. by rewrite <- app_assoc.
Qed.

(** C33: a process that starts without a session and sends any number of
    notifications makes, whatever the broker answers, these calls and no
    others: for each of the first notifications an attempt to log in that is
    refused; then, unless all were refused, one attempt that is accepted, and
    from there on one publication for each of the remaining notifications, with
    no further login.  In particular the calls follow the protocol of a session:
    socket, login, channel, publications. *)
Theorem mq_session_protocol (ns : list notice) (o : mq_options_t) (w : world) :
  mq_ready o -> mq_connection_opened o = 0 -> Forall (fun n => notice_ok n /\ is_Some (notice_message n)) ns ->
  exists v w' o' ns1 ns2 refused accepted published,
    let tr := concat refused ++ accepted ++ concat published in
    login_of o v /\ ns = ns1 ++ ns2 /\ send_all ns (mk_env (MqAt o) w []) = (inr tt, mk_env (MqAt o') w' tr) /\
    Forall (attempt o v false) refused /\ length refused = length ns1 /\
    (if decide (ns2 = []) then accepted = [] else attempt o v true accepted) /\
    Forall2 (fun n tr => exists rc, publishes o v n rc tr) ns2 published /\
    session_run Closed tr = Some (if decide (ns2 = []) then Closed else SessionOpen).
Proof.
  intros Hr Hz Hns. destruct (mq_ready_login o Hr) as [v Hv].
  assert (Hgen : forall w tr, exists w' o' ns1 ns2 refused accepted published, ns = ns1 ++ ns2 /\
    send_all ns (mk_env (MqAt o) w tr) = (inr tt, mk_env (MqAt o') w' (tr ++ concat refused ++ accepted ++ concat published)) /\
    Forall (attempt o v false) refused /\ length refused = length ns1 /\
    (if decide (ns2 = []) then accepted = [] else attempt o v true accepted) /\
    Forall2 (fun n tr => exists rc, publishes o v n rc tr) ns2 published).
  { clear w. induction Hns as [|n ns [Hn Hm] Hns IH]; intros w tr.
    - exists w, o, [], [], [], [], []. cbn. rewrite app_nil_r. by split_and!; repeat constructor.
    - destruct (mq_send_spec n o w tr Hr Hn Hm) as (rc & o1 & w1 & tr1 & E & Hr1 & Hout).
      destruct (outcome_cases _ _ _ _ _ _ Hv Hout) as [(_ & -> & Ha)|[(_ & -> & prc & t & t' & -> & Ha & Hp)|(? & _)]]; [..|done].
      + destruct (IH w1 (tr ++ tr1)) as (w2 & o2 & ns1 & ns2 & refused & accepted & published & -> & E2 & Hre & Hl & Hac & Hpu).
        exists w2, o2, (n :: ns1), ns2, (tr1 :: refused), accepted, published. split_and!; try done; [|by constructor|by cbn; rewrite Hl].
        rewrite (send_all_cons _ _ _ _ _ E), E2. cbn [concat app]. by rewrite <- !app_assoc.
      + destruct (send_all_open ns (mq_set_opened 1 o) v w1 (tr ++ t ++ t') Hr1 Hv ltac:(done) Hns) as (w2 & trs & E2 & Hpu).
        exists w2, (mq_set_opened 1 o), [], (n :: ns), [], t, (t' :: trs). split_and!; try done; [|constructor; [by exists prc|exact Hpu]].
        rewrite (send_all_cons _ _ _ _ _ E), E2. cbn [concat app]. by rewrite <- !app_assoc. }
  destruct (Hgen w []) as (w' & o' & ns1 & ns2 & refused & accepted & published & Hn & E & Hre & Hl & Hac & Hpu).
  exists v, w', o', ns1, ns2, refused, accepted, published. cbv zeta. split_and!; [done..|].
  rewrite session_run_app, (session_refused o v) by done. cbn [mbind option_bind]. destruct (decide (ns2 = [])) as [He|He].
  - subst. apply Forall2_nil_inv_l in Hpu as ->. done.
  - rewrite session_run_app, (session_attempt _ _ _ _ Hac). cbn [mbind option_bind]. by rewrite (session_published _ _ _ _ Hpu).
Qed.

(** Mq_clean never crashes on live options.  When it returns 0 the
    connection pointer is gone and a second call does nothing; any other
    result (1 to 4, the step that failed) leaves the options as they were. *)
Theorem mq_clean_releases (o : mq_options_t) (w : world) (tr : list event) :
  exists rc o' w' tr', mq_clean (mk_env (MqAt o) w tr) =
      (inr rc, mk_env (MqAt o') w' (tr ++ tr')) /\ 0 <= rc <= 4 /\
    (rc = 0 -> mq_conn o' = None /\
       mq_clean (mk_env (MqAt o') w' (tr ++ tr')) = (inr 0, mk_env (MqAt o') w' (tr ++ tr'))) /\
    (rc <> 0 -> o' = o).
Proof.
  unfold mq_clean, update_options, options, do_call. unfold_SE.
  destruct (mq_conn o) as [c|] eqn:Ec; cbn.
  2:{ exists 0, o, w, []. rewrite app_nil_r. split_and!; try done. intros _. by rewrite Ec. }
  call_step. destruct (negb _); cbn; [by exists 1, o, w0; eexists|].
  call_step. destruct (negb _); cbn; [by exists 2, o, w1; eexists; rewrite <- app_assoc|].
  destruct (truthy (mq_ssl o)); cbn; [call_step; destruct (r1 <? 0); cbn|];
    [by exists 3, o, w2; eexists; rewrite <- !app_assoc|..];
    call_step; (destruct (_ <? 0); cbn;
      [eexists 4, o, _, _; rewrite <- !app_assoc; done|
       eexists 0, _, _, _; rewrite <- !app_assoc; done]).
Qed.
End Properties.

(** The hexadecimal checksum of a message has 64 characters and decodes
    to the 32 bytes of the digest. *)
Theorem hexdigest_roundtrip (digest : list Z) :
  zlen digest = MQ_CHECKSUM_SIZE -> Forall is_u8 digest ->
  zlen (hexdigest digest) = 64 /\ unhex (hexdigest digest) = digest.
Proof.
  intros Hl Hd. rewrite hexdigest_map by done. rewrite zlen_hex, Hl. split; [done|by apply unhex_concat].
Qed.

(** ** Examples *)

Definition demo_options : mq_options_t :=
  mk_mq (PBuf 0) (str "cfg" ++ [0] ++ str "10.0.0.1" ++ [0] ++ str "ex" ++ [0] ++ str "key" ++ [0])
    21 PNull (Some 1000) (Some 2000) 0 0 0 0 PNull (PBuf 4) (PBuf 4) 5672 (PBuf 0) (PBuf 0)
    (PBuf 0) (PBuf 13) (PBuf 16) 0.
Lemma demo_options_ready : mq_ready demo_options.
Proof. split; vm_compute; eauto. Qed.
Definition demo_notice : notice := NRename (str "jane") (str "/a") (str "/b").

Lemma mq_send_publishes_once_witness :
  exists rc o' w' tr', @mq_send demo_world demo_jsonc demo_heap demo_notice
      (@mk_env demo_world (MqAt demo_options) tt []) = (inr rc, @mk_env demo_world (MqAt o') w' ([] ++ tr')) /\
    mq_ready o' /\ @send_outcome demo_jsonc demo_options demo_notice rc o' tr'.
Proof.
  refine (@mq_send_publishes_once demo_world demo_jsonc demo_heap demo_jsonc_ok demo_notice
    demo_options tt [] demo_options_ready I _).
  vm_compute. eauto.
Defined.

Lemma mq_session_protocol_witness :
  let ns := [demo_notice; NRemove (str "jane") (str "/b")] in
  exists v w' o' ns1 ns2 refused accepted published,
    let tr := concat refused ++ accepted ++ concat published in
    login_of demo_options v /\ ns = ns1 ++ ns2 /\
    @send_all demo_world demo_jsonc demo_heap ns (@mk_env demo_world (MqAt demo_options) tt []) = (inr tt, @mk_env demo_world (MqAt o') w' tr) /\
    Forall (attempt demo_options v false) refused /\ length refused = length ns1 /\
    (if decide (ns2 = []) then accepted = [] else attempt demo_options v true accepted) /\
    Forall2 (fun n tr => exists rc, @publishes demo_jsonc demo_options v n rc tr) ns2 published /\
    session_run Closed tr = Some (if decide (ns2 = []) then Closed else SessionOpen).
Proof.
  refine (@mq_session_protocol demo_world demo_jsonc demo_heap demo_jsonc_ok _ demo_options tt
    demo_options_ready eq_refl _).
  repeat constructor; vm_compute; eauto.
Defined.

Lemma hexdigest_roundtrip_witness :
  zlen (hexdigest (replicate 32 171)) = 64 /\ unhex (hexdigest (replicate 32 171)) = replicate 32 171.
Proof.
  refine (hexdigest_roundtrip (replicate 32 171) eq_refl _).
  apply Forall_replicate. unfold is_u8. lia.
Defined.
