(* ===== verification/MqWire.v ===== *)
(** * A notification on the wire

    The parts together: mq-notify.c builds a message and calls
    amqp_basic_publish; rabbitmq-c cuts it into frames and sends them; a broker
    that receives the bytes puts the message together again. *)

From stdpp Require Import gmap strings.
From S2P Require Import Prelude Sshbuf World AmqpMem AmqpCodec AmqpTable AmqpPools AmqpFraming AmqpConn AmqpTime AmqpSocket AmqpStream MqNotify.
#[local] Open Scope list_scope.
#[local] Open Scope Z_scope.

(** amqp_basic_properties_t as do_send_message fills it in. *)
Definition props_struct (p : amqp_props) : struct :=
  list_to_map [("_flags"%string, VInt (p_flags p)); ("content_type"%string, VBytes (p_content_type p));
    ("delivery_mode"%string, VInt (p_delivery_mode p)); ("correlation_id"%string, VBytes (p_correlation_id p))].

(** What a broker reads from the frames of one message: the exchange, the
    routing key, the properties, and the body when all of it is there. *)
Record delivery := mk_delivery { d_exchange : list Z; d_key : list Z; d_props : struct; d_body : list Z }.
Fixpoint bodies_of (channel : Z) (fs : list frame) : option (list Z) :=
  match fs with
  | [] => Some []
  | F_body c b :: fs' => if c =? channel then app b <$> bodies_of channel fs' else None
  | _ => None
  end.
Definition message_of (fs : list frame) : option delivery :=
  match fs with
  | F_method c id m :: F_header c' cls size _ p :: fs' =>
      if (id =? AMQP_BASIC_PUBLISH_METHOD) && (c =? c') && (cls =? AMQP_BASIC_CLASS) then
        body ← bodies_of c fs';
        if zlen body =? size then Some (mk_delivery (get_bytes m "exchange") (get_bytes m "routing_key") p body) else None
      else None
  | _ => None
  end.

Lemma bodies_of_map c bs : bodies_of c (map (F_body c) bs) = Some (concat bs).
Proof. induction bs as [|b bs IH]; [done|]. cbn. by rewrite Z.eqb_refl, IH. Qed.

(** A string of the protocol. *)
Definition short_text (s : list Z) : Prop := Forall is_u8 s /\ zlen s <= 255.

Lemma message_props_fit fm id body :
  short_text id -> 527 <= fm -> zlen body < 2 ^ 64 -> fits fm (publish_header 1 (props_struct (message_props id)) body).
Proof.
  intros [Hid Hl] Hfm Hb. set (p := props_struct _).
  assert (E1 : p !! "_flags"%string = Some (VInt 0x9400)) by reflexivity.
  assert (E2 : p !! "content_type"%string = Some (VBytes (str "application/json"))) by reflexivity.
  assert (E3 : p !! "delivery_mode"%string = Some (VInt 2)) by reflexivity.
  assert (E4 : p !! "correlation_id"%string = Some (VBytes id)) by reflexivity.
  assert (El : props_layout encode_basic_properties 0x9400 =
    [Field "content_type" ShortStr; Field "delivery_mode" Octet; Field "correlation_id" ShortStr]) by reflexivity.
  assert (Hi : get_int p "_flags" = 0x9400) by (unfold get_int; by rewrite E1).
  zlen_facts. unfold fits, publish_header. split.
  - unfold valid_frame. cbn [frame_channel]. rewrite (proj2 (in_range_spec 0 (2 ^ 16) 1)) by lia.
    rewrite (proj2 (in_range_spec 0 (2 ^ 16) AMQP_BASIC_CLASS)) by (unfold AMQP_BASIC_CLASS; lia).
    rewrite (proj2 (in_range_spec 0 (2 ^ 64) (zlen body))) by lia. cbn [andb].
    change (case_of encode_class_cases AMQP_BASIC_CLASS) with (Some encode_basic_properties).
    change (class_properties AMQP_BASIC_CLASS) with encode_basic_properties. cbn iota. rewrite bytes_eqb_refl, andb_true_r.
    unfold valid_properties. rewrite Hi, El. cbn zeta. change (one_word 0x9400) with true. cbn [andb].
    unfold valid_struct. apply andb_true_intro. split; [|vm_compute; reflexivity].
    cbn [forallb valid_item]. unfold valid_field. rewrite E1, E2, E3, E4. cbn [valid_value].
    apply is_bytes_spec in Hid. rewrite Hid. change UINT8_MAX with 255. rewrite (proj2 (Z.leb_le (zlen id) 255)) by lia.
    vm_compute. reflexivity.
  - unfold frame_size. cbn [frame_payload]. change (class_properties AMQP_BASIC_CLASS) with encode_basic_properties.
    unfold enc_properties. rewrite Hi, El. cbn [enc_items enc_field]. unfold get_bytes. rewrite E2, E4. cbn iota.
    rewrite !zlen_app, !zlen_amqp_e, zlen_nil. cbn [width_bytes]. change (zlen (str "application/json")) with 16.
    unfold HEADER_SIZE, FOOTER_SIZE. lia.
Qed.

Section wire.
Context {M N : Type} `{ChannelMemTotal M} `{StreamNet N} `{World} `{JsonC} `{Allocator} `{!JsonOk}.

Lemma pubs_attempt o v b tr : attempt o v b tr -> pubs tr = [].
Proof. by intros []. Qed.
(** What is published is the message of the notification. *)
Lemma outcome_publication o n rc o' tr p : send_outcome o n rc o' tr -> p ∈ pubs tr ->
  mq_str o (mq_exchange o) = Some (pub_exchange p) /\ mq_str o (mq_routing_key o) = Some (pub_key p) /\
  (exists id, pub_props p = message_props id) /\
  exists obj, describes obj n /\ pub_body p = cstr (json_object_to_json_string_ext obj JSON_C_TO_STRING_NOSLASHESCAPE).
Proof.
  assert (Hp : forall v rc t, publishes o v n rc t -> p ∈ pubs t ->
    mq_str o (mq_exchange o) = Some (pub_exchange p) /\ mq_str o (mq_routing_key o) = Some (pub_key p) /\
    (exists id, pub_props p = message_props id) /\
    exists obj, describes obj n /\ pub_body p = cstr (json_object_to_json_string_ext obj JSON_C_TO_STRING_NOSLASHESCAPE)).
  { intros v prc t (id & x & k & obj & -> & Hx & Hk & Hd) Hin. cbn in Hin. apply list_elem_of_singleton in Hin as ->. cbn. split_and!; eauto. }
  intros [v t _ _ Ha|v prc t t' _ _ Ha Ht|v prc t _ _ Ht] Hin; [rewrite (pubs_attempt _ _ _ _ Ha) in Hin; inversion Hin| |by eapply Hp].
  unfold pubs in Hin. rewrite omap_app in Hin. fold (pubs t) (pubs t') in Hin. rewrite (pubs_attempt _ _ _ _ Ha) in Hin. by eapply Hp.
Qed.

(** C31: a notification reaches the broker.  mq_send, with usable options, does
    what [send_outcome] says: it publishes the message, or the login was
    refused.  What it publishes, amqp_basic_publish sends, over an open
    connection without heartbeats that has nothing buffered or queued and frames
    of at least 527 bytes, if the exchange, the routing key and the
    correlation id have at most 255 bytes: the socket takes frames from which a
    receiver (again without heartbeats) reads the configured exchange and
    routing key, JSON sent persistently with the correlation id, and a text
    that describes the operation, unchanged. *)
Theorem notification_on_the_wire (n : notice) (o : mq_options_t) (w : world) (tr : list event)
    (fm : Z) (fuel : nat) (c : conn M N) :
  mq_ready o -> notice_ok n -> is_Some (notice_message n) ->
  (forall s, mq_str o (mq_exchange o) = Some s \/ mq_str o (mq_routing_key o) = Some s -> short_text s) ->
  527 <= fm < 2 ^ 30 -> open_connection fm c -> patience (c_net c) + fm + 1 < Z.of_nat fuel ->
  exists rc o' w' tr', mq_send n (mk_env (MqAt o) w tr) = (inr rc, mk_env (MqAt o') w' (tr ++ tr')) /\ send_outcome o n rc o' tr' /\
  forall p, p ∈ pubs tr' -> short_text (p_correlation_id (pub_props p)) -> Forall is_u8 (pub_body p) -> zlen (pub_body p) < 2 ^ 64 ->
  exists c' frames d obj,
    amqp_basic_publish fuel 1 (pub_exchange p) (pub_key p) 0 0 (Some (props_struct (pub_props p))) (pub_body p) c = (inr tt, c') /\
    taken (c_net c') = taken (c_net c) ++ concat (map frame_bytes frames) /\
    message_of frames = Some d /\
    mq_str o (mq_exchange o) = Some (d_exchange d) /\ mq_str o (mq_routing_key o) = Some (d_key d) /\
    d_props d !! "content_type"%string = Some (VBytes (str "application/json")) /\ d_props d !! "delivery_mode"%string = Some (VInt 2) /\
    d_props d !! "correlation_id"%string = Some (VBytes (p_correlation_id (pub_props p))) /\
    describes obj n /\ d_body d = cstr (json_object_to_json_string_ext obj JSON_C_TO_STRING_NOSLASHESCAPE) /\
    forall (d : conn M N) (fuel' : nat), open_connection fm d -> incoming (c_net d) = concat (map frame_bytes frames) ->
      2 * zlen (incoming (c_net d)) + patience (c_net d) + 2 < Z.of_nat fuel' ->
      exists d', receive_frames fuel' (length frames) d = (inr frames, d').
Proof.
  intros Hr Hn Hm Htext Hfm Ho Hf.
  destruct (mq_send_spec n o w tr Hr Hn Hm) as (rc & o' & w' & tr' & E & _ & Hout).
  exists rc, o', w', tr'. split; [exact E|]. split; [exact Hout|]. intros p Hp Hid H8 Hml.
  destruct (outcome_publication _ _ _ _ _ _ Hout Hp) as (Hx & Hk & [id Hprops] & obj & Hd & Hb). rewrite Hprops in *.
  destruct (Htext _ (or_introl Hx)) as [Hx8 Hxl]. destruct (Htext _ (or_intror Hk)) as [Hk8 Hkl].
  destruct (publish_delivers fm fuel 1 (pub_exchange p) (pub_key p) 0 0 (Some (props_struct (message_props id))) (pub_body p) c
    ltac:(lia) Ho ltac:(lia) Hx8 Hxl Hk8 Hkl ltac:(lia) ltac:(lia) H8 (message_props_fit fm id (pub_body p) Hid ltac:(lia) Hml) Hf)
    as (c' & bodies & Hpub & Hbody & _ & Ht & Hrec).
  eexists c', _, _, obj. split; [exact Hpub|]. split; [exact Ht|]. split.
  { cbn [message_of publish_header]. rewrite !Z.eqb_refl. cbn [andb]. rewrite bodies_of_map, Hbody. cbn [mbind option_bind]. by rewrite Z.eqb_refl. }
  cbn [d_exchange d_key d_props d_body]. split_and!; try done.
Qed.
End wire.

(** ** Witness *)

Definition demo_text : list Z := default [] (@notice_message demo_jsonc demo_heap demo_notice).
Lemma notification_on_the_wire_witness :
  exists p c' frames, p ∈ pubs (e_trace (@mq_send demo_world demo_jsonc demo_heap demo_notice
      (@mk_env demo_world (MqAt demo_options) tt [])).2) /\
    @amqp_basic_publish _ _ (@channel_mem demo_grants) pipe_net 700 1 (pub_exchange p) (pub_key p) 0 0
      (Some (props_struct (pub_props p))) (pub_body p) (demo_conn 600 (mk_pipe [] [] 2)) = (inr tt, c') /\
    pub_body p = demo_text /\ is_Some (message_of frames).
Proof.
  destruct (@notification_on_the_wire _ _ (@channel_mem demo_grants) (@channel_mem_ok demo_grants)
    (@channel_mem_total demo_grants demo_grants_total) pipe_net pipe_stream demo_world demo_jsonc demo_heap demo_jsonc_ok
    demo_notice demo_options tt [] 600 700 (demo_conn 600 (mk_pipe [] [] 2))) as (rc & o' & w' & tr' & E & _ & Hp).
  - exact demo_options_ready.
  - exact I.
  - vm_compute. eauto.
  - intros s Hs. vm_compute in Hs. destruct Hs as [Hs|Hs]; injection Hs as <-;
      (split; [apply is_bytes_true; vm_compute; reflexivity|vm_compute; discriminate]).
  - lia.
  - apply demo_open. lia.
  - vm_compute. reflexivity.
  - rewrite E. cbn [snd e_trace app]. vm_compute in E. injection E; intros <- _ _ _.
    edestruct Hp as (c' & frames & d & obj & Hpub & _ & Hmsg & _); [left|..].
    { split; [apply is_bytes_true; vm_compute; reflexivity|vm_compute; discriminate]. }
    { apply is_bytes_true. vm_compute. reflexivity. }
    { vm_compute. reflexivity. }
    eexists _, c', frames. split; [left|]. split; [exact Hpub|]. split; [vm_compute; reflexivity|]. rewrite Hmsg. eauto.
Defined.
