(* ===== verification/MqConfig.v ===== *)
(** * The configuration of the broker connection: mq-config.c

    [load_mq_config] reads the file of the options.  Every string is copied
    into one buffer; when the buffer is too small, it is freed, one of twice
    the size is made, and the file is read again.  The options point into the
    buffer of their time: pointers into a freed one are wild. *)

From S2P Require Import Prelude CText Sshbuf SftpCommon World AmqpUrl MqNotify.

(** ** Fields of the options *)

Inductive sfield :=
| FCfgfile | FDsn | FCacert | FHost | FIp | FVhost | FUsername | FPassword | FExchange | FRoutingKey.
Inductive ifield := FConnectionOpened | FSsl | FVerifyHostname | FVerifyPeer | FPort | FHeartbeat.
#[global] Instance sfield_eq_dec : EqDecision sfield.
Proof. solve_decision. Defined.
#[global] Instance ifield_eq_dec : EqDecision ifield.
Proof. solve_decision. Defined.

Definition get_str (f : sfield) (o : mq_options_t) : ptr :=
  match f with
  | FCfgfile => mq_cfgfile o | FDsn => mq_dsn o | FCacert => mq_cacert o | FHost => mq_host o
  | FIp => mq_ip o | FVhost => mq_vhost o | FUsername => mq_username o | FPassword => mq_password o
  | FExchange => mq_exchange o | FRoutingKey => mq_routing_key o
  end.
Definition get_int (f : ifield) (o : mq_options_t) : Z :=
  match f with
  | FConnectionOpened => mq_connection_opened o | FSsl => mq_ssl o
  | FVerifyHostname => mq_verify_hostname o | FVerifyPeer => mq_verify_peer o
  | FPort => mq_port o | FHeartbeat => mq_heartbeat o
  end.
(** The options with these strings, numbers and buffer, and the connection of [o]. *)
Definition with_fields (buffer : list Z) (buflen : Z) (s : sfield -> ptr) (i : ifield -> Z)
    (o : mq_options_t) : mq_options_t :=
  mk_mq (s FCfgfile) buffer buflen (s FDsn) (mq_conn o) (mq_socket o) (i FConnectionOpened)
    (i FSsl) (i FVerifyHostname) (i FVerifyPeer) (s FCacert) (s FHost) (s FIp) (i FPort)
    (s FVhost) (s FUsername) (s FPassword) (s FExchange) (s FRoutingKey) (i FHeartbeat).
Definition set_str (f : sfield) (p : ptr) (o : mq_options_t) : mq_options_t :=
  with_fields (mq_buffer o) (mq_buflen o) (fun f' => if decide (f' = f) then p else get_str f' o)
    (fun f' => get_int f' o) o.
Definition set_int (f : ifield) (v : Z) (o : mq_options_t) : mq_options_t :=
  with_fields (mq_buffer o) (mq_buflen o) (fun f' => get_str f' o)
    (fun f' => if decide (f' = f) then v else get_int f' o) o.
Definition set_buffer (b : list Z) (o : mq_options_t) : mq_options_t :=
  with_fields b (mq_buflen o) (fun f' => get_str f' o) (fun f' => get_int f' o) o.

(** ** Lines *)

(** What getline returns, line after line, each with its newline. *)
Fixpoint lines (s : list Z) : list (list Z) :=
  match s with
  | [] => []
  | c :: s' =>
      if c =? 10 then [c] :: lines s'
      else match lines s' with
           | [] => [[c]]
           | l :: ls => (c :: l) :: ls
           end
  end.

(** strchr(line, '='): what is left and right of it. *)
Fixpoint split_eq (s : list Z) : option (list Z * list Z) :=
  match s with
  | [] => None
  | c :: s' =>
      if c =? 61 then Some ([], s')
      else '(l, r) ← split_eq s'; Some (c :: l, r)
  end.
(** The loop that moves [end] left over blanks, as long as it is right of
    [key]: the first character is not looked at.  [rs] is the operand from its
    end. *)
Fixpoint trim_left_operand (rs : list Z) : list Z :=
  match rs with
  | [] => []
  | c :: rs' =>
      match rs' with
      | [] => rs
      | _ :: _ => if isspace c then trim_left_operand rs' else rs
      end
  end.
Definition remove_newline (val : list Z) : list Z :=
  match reverse val with
  | c :: rs => if c =? 10 then reverse rs else val
  | [] => val
  end.
(** The key and the value of a line; no value without '='. *)
Definition parse_line (line : list Z) : list Z * option (list Z) :=
  let key := skip_space (cstr line) in
  match split_eq key with
  | Some (l, r) => (reverse (trim_left_operand (reverse l)), Some (remove_newline (skip_space r)))
  | None => (key, None)
  end.

(** ** Reading the file

    The process with the rest of the buffer: where the next string goes
    ([*bufptr]) and how much room there is ([*buflen]). *)

Record cfg `{World} := mk_cfg { c_env : env; c_off : Z; c_left : Z }.
Arguments mk_cfg {_}.
Arguments c_env {_}.
Arguments c_off {_}.
Arguments c_left {_}.

(** How a function of this file ends before its last line. *)
Inductive leave := Return (rc : Z) | Leave (e : exit_reason).

Definition MQ_CFGFILE : list Z := str "/etc/ega/mq.conf".
Definition sizeof_mq_options : Z := 144.

Section Config.
Context `{World} `{Allocator}.

Abbreviation C := (SE cfg leave).

Definition on_env {A} (m : SE env exit_reason A) : C A := fun s =>
  match m (c_env s) with
  | (inl e, env') => (inl (Leave e), mk_cfg env' (c_off s) (c_left s))
  | (inr a, env') => (inr a, mk_cfg env' (c_off s) (c_left s))
  end.
(** A function call: [return] ends the function. *)
Definition returns (m : C Z) : C Z := fun s =>
  match m s with
  | (inl (Return rc), s') => (inr rc, s')
  | r => r
  end.

(** A [char *] that is read: not NULL. *)
Definition deref (p : option (list Z)) : C (list Z) :=
  match p with Some s => mret s | None => throw (Leave Segv) end.

(** copy2buffer into the field [dest]. *)
Definition copy2buffer (data : option (list Z)) (dest : sfield) : C Z :=
  data ← deref data;
  s ← gets (fun s => s);
  let slen := zlen data + 1 in
  if c_left s <? slen then mret (i32 (- slen))
  else
    o ← on_env options;
    if zlen (mq_buffer o) <? c_off s + slen then throw (Leave Segv)
    else
      _ ← on_env (update_options (fun o =>
             set_str dest (PBuf (c_off s)) (set_buffer (zwrite (c_off s) (data ++ [0]) (mq_buffer o)) o)));
      _ ← modify (fun s => mk_cfg (c_env s) (c_off s + slen) (c_left s - slen));
      mret (i32 slen).
Definition COPYVAL (val : option (list Z)) (dest : sfield) : C () :=
  rc ← copy2buffer val dest;
  if rc <? 0 then throw (Return (-1)) else mret tt.
Definition INJECT_OPTION (key : list Z) (ckey : string) (val : option (list Z)) (loc : sfield) : C () :=
  if bytes_eqb key (str ckey) then COPYVAL val loc else mret tt.

(** mq_options->loc = strtol(val, NULL, 10) *)
Definition store_number (val : option (list Z)) (loc : ifield) : C () :=
  v ← deref val;
  on_env (update_options (set_int loc (i32 (fst (strtol v))))).
Definition set_number (key : list Z) (ckey : string) (val : option (list Z)) (loc : ifield) : C () :=
  if bytes_eqb key (str ckey) then store_number val loc else mret tt.

Definition store_yes_no (val : option (list Z)) (loc : ifield) : C () :=
  val ← deref val;
  if strcaseeq val (str "yes") || strcaseeq val (str "true") || bytes_eqb val (str "1") ||
     strcaseeq val (str "on")
  then on_env (update_options (set_int loc 1))
  else if strcaseeq val (str "no") || strcaseeq val (str "false") || bytes_eqb val (str "0") ||
          strcaseeq val (str "off")
  then on_env (update_options (set_int loc 0))
  else mret tt.
Definition set_yes_no_option (key : list Z) (val : option (list Z)) (name : string) (loc : ifield) : C () :=
  if bytes_eqb key (str name) then store_yes_no val loc else mret tt.

(** One turn of the loop over the lines. *)
Definition config_line (line : list Z) : C () :=
  let '(key, val) := parse_line line in
  _ ← INJECT_OPTION key "exchange" val FExchange;
  _ ← INJECT_OPTION key "routing_key" val FRoutingKey;
  _ ← INJECT_OPTION key "connection" val FDsn;
  _ ← INJECT_OPTION key "cacert" val FCacert;
  _ ← set_number key "heartbeat" val FHeartbeat;
  _ ← set_number key "port" val FPort;
  _ ← set_yes_no_option key val "enable_ssl" FSsl;
  _ ← set_yes_no_option key val "verify_peer" FVerifyPeer;
  set_yes_no_option key val "verify_hostname" FVerifyHostname.

(** The string of a field, read by the callee. *)
Definition field_str (f : sfield) : C (list Z) :=
  o ← on_env options; on_env (read_str (get_str f o)).

Definition dsn_parse : C Z := returns (
  o ← on_env options;
  if is_null (mq_dsn o) then mret 2
  else
    dsn ← field_str FDsn;
    url ← deref (strdup dsn);
    let '(r, url) := amqp_parse_url (url ++ [0]) in
    match r with
    | inl e => throw (Leave e)
    | inr (rc, ci) =>
        if truthy rc then mret 1
        else
          _ ← COPYVAL (Some (ci_str url (ci_host ci))) FHost;
          _ ← COPYVAL (Some (ci_str url (ci_vhost ci))) FVhost;
          _ ← COPYVAL (Some (ci_str url (ci_user ci))) FUsername;
          _ ← COPYVAL (Some (ci_str url (ci_password ci))) FPassword;
          _ ← on_env (update_options (set_int FPort (ci_port ci)));
          _ ← on_env (update_options (set_int FSsl (ci_ssl ci)));
          mret 0
    end).

Definition convert_host_to_ip : C Z := returns (
  host ← field_str FHost;
  he ← on_env (do_call (GetHostByName host));
  match he with
  | None => mret 1
  | Some [] => mret 1
  | Some (addr :: _) => _ ← COPYVAL (Some addr) FIp; mret 0
  end).

(** The values set before the file is read: not exchange, routing_key, port. *)
Definition default_options (o : mq_options_t) : mq_options_t :=
  with_fields (mq_buffer o) (mq_buflen o)
    (fun f => match f with
              | FDsn | FCacert | FHost | FVhost | FUsername | FPassword | FIp => PNull
              | f => get_str f o
              end)
    (fun f => match f with
              | FHeartbeat | FConnectionOpened | FSsl | FVerifyPeer | FVerifyHostname => 0
              | f => get_int f o
              end) o.

(** Leave a function with a result that is not 0. *)
Definition fail_on (rc : Z) : C () := if rc =? 0 then mret tt else throw (Return rc).

Definition readconfig (cfgfile contents : list Z) : C Z := returns (
  _ ← on_env (update_options default_options);
  _ ← COPYVAL (Some cfgfile) FCfgfile;
  _ ← mfold (fun _ line => config_line line) (lines contents) tt;
  rc ← dsn_parse;
  _ ← fail_on rc;
  rc ← convert_host_to_ip;
  _ ← fail_on rc;
  rc ← on_env mq_init;
  _ ← fail_on rc;
  mret rc).

(** readconfig on the [size] bytes of the buffer. *)
Definition call_readconfig (cfgfile contents : list Z) (size : Z) : SE env exit_reason Z := fun e =>
  match readconfig cfgfile contents (mk_cfg e 0 size) with
  | (inl (Leave x), s) => (inl x, c_env s)
  | (inl (Return rc), s) => (inr rc, c_env s)
  | (inr rc, s) => (inr rc, c_env s)
  end.

(** A new buffer; what pointed into the old one is wild. *)
Definition wild (p : ptr) : ptr := match p with PBuf _ => PWild | p => p end.
Definition new_buffer (size : Z) (o : mq_options_t) : mq_options_t :=
  with_fields (zfill size) (i32 size) (fun f => wild (get_str f o)) (fun f => get_int f o) o.

(** From the label REALLOC on: [fuel] sizes are tried. *)
Fixpoint realloc (fuel : nat) (cfgfile contents : list Z) (size : Z) : SE env exit_reason bool :=
  match fuel with
  | O => throw Stuck
  | S fuel' =>
      match heap_alloc size with
      | None => throw Segv (* memset(NULL, 0, size) *)
      | Some _ =>
          _ ← update_options (new_buffer size);
          rc ← call_readconfig cfgfile contents size;
          if rc <? 0 then
            r ← do_call Fseek;
            if truthy r then mret false
            else realloc fuel' cfgfile contents (u64 (Z.shiftl size 1))
          else mret true
      end
  end.

(** What malloc gives: the fields the code does not set are whatever was
    there. *)
Definition raw_options (port : Z) : mq_options_t :=
  mk_mq PWild [] 0 PWild None None 0 0 0 0 PWild PWild PWild port PWild PWild PWild PWild PWild 0.

(** Doublings that are enough for a file of this size. *)
Definition buffer_need (cfgfile contents : list Z) : Z := zlen cfgfile + 5 * zlen contents + 100.
Definition realloc_fuel (cfgfile contents : list Z) : nat :=
  S (S (Z.to_nat (Z.log2 (buffer_need cfgfile contents)))).

Definition load_mq_config (indet_port : Z) (cfgfile : option (list Z)) : SE env exit_reason bool :=
  m ← gets e_mq;
  match m with
  | MqAt _ | MqFreed => mret true
  | MqNull =>
      let cfgfile := default MQ_CFGFILE cfgfile in
      '(errno, fp) ← do_call (Fopen cfgfile);
      match fp with
      | None => mret false
      | Some contents =>
          if errno =? EACCES then mret false
          else
            match heap_alloc sizeof_mq_options with
            | None => mret false
            | Some _ =>
                _ ← modify (set_mq (MqAt (raw_options indet_port)));
                realloc (realloc_fuel cfgfile contents) cfgfile contents 100
            end
      end
  end.
End Config.

(** ** The meaning of a configuration file, line by line *)

(** Strings and numbers by field; [None] is a string the file does not set. *)
Record settings := mk_set { st_str : sfield -> option (list Z); st_int : ifield -> Z }.
Definition put_str (f : sfield) (v : list Z) (st : settings) : settings :=
  mk_set (fun f' => if decide (f' = f) then Some v else st_str st f') (st_int st).
Definition put_int (f : ifield) (v : Z) (st : settings) : settings :=
  mk_set (st_str st) (fun f' => if decide (f' = f) then v else st_int st f').

Definition yes_no (old : Z) (v : list Z) : Z :=
  if strcaseeq v (str "yes") || strcaseeq v (str "true") || bytes_eqb v (str "1") ||
     strcaseeq v (str "on") then 1
  else if strcaseeq v (str "no") || strcaseeq v (str "false") || bytes_eqb v (str "0") ||
          strcaseeq v (str "off") then 0
  else old.

(** What the keys of a file mean. *)
Inductive meaning := MStr (f : sfield) | MNum (f : ifield) | MYesNo (f : ifield).
Definition known_keys : list (list Z * meaning) := [
  (str "exchange", MStr FExchange); (str "routing_key", MStr FRoutingKey);
  (str "connection", MStr FDsn); (str "cacert", MStr FCacert);
  (str "heartbeat", MNum FHeartbeat); (str "port", MNum FPort);
  (str "enable_ssl", MYesNo FSsl); (str "verify_peer", MYesNo FVerifyPeer);
  (str "verify_hostname", MYesNo FVerifyHostname)].
Definition meaning_of (key : list Z) : option meaning :=
  snd <$> find (fun km => bytes_eqb key (fst km)) known_keys.

(** A line with a known key sets its field; [None] if it has no value. *)
Definition line_setting (line : list Z) (st : settings) : option settings :=
  let '(key, val) := parse_line line in
  match meaning_of key with
  | None => Some st
  | Some m =>
      v ← val;
      Some (match m with
            | MStr f => put_str f v st
            | MNum f => put_int f (i32 (fst (strtol v))) st
            | MYesNo f => put_int f (yes_no (st_int st f) v) st
            end)
  end.
Fixpoint file_settings (ls : list (list Z)) (st : settings) : option settings :=
  match ls with
  | [] => Some st
  | l :: ls' => line_setting l st ≫= file_settings ls'
  end.
Definition default_settings (port : Z) : settings :=
  mk_set (fun _ => None) (fun f => match f with FPort => port | _ => 0 end).

(** The settings before the first line. *)
Definition initial_settings (cfgfile : list Z) (port : Z) : settings :=
  put_str FCfgfile cfgfile (default_settings port).

(** ** Lemmas on fields *)

Lemma get_str_with b n s i o f : get_str f (with_fields b n s i o) = s f.
Proof. by destruct f. Qed.
Lemma get_int_with b n s i o f : get_int f (with_fields b n s i o) = i f.
Proof. by destruct f. Qed.
Lemma get_str_set f p o f' : get_str f' (set_str f p o) = if decide (f' = f) then p else get_str f' o.
Proof. apply get_str_with. Qed.
Lemma get_int_set f v o f' : get_int f' (set_int f v o) = if decide (f' = f) then v else get_int f' o.
Proof. apply get_int_with. Qed.
Lemma get_str_set_int f v o f' : get_str f' (set_int f v o) = get_str f' o.
Proof. apply get_str_with. Qed.
Lemma get_int_set_str f p o f' : get_int f' (set_str f p o) = get_int f' o.
Proof. apply get_int_with. Qed.
Lemma get_str_set_buffer b o f : get_str f (set_buffer b o) = get_str f o.
Proof. apply get_str_with. Qed.
Lemma get_int_set_buffer b o f : get_int f (set_buffer b o) = get_int f o.
Proof. apply get_int_with. Qed.
Create Rewrite HintDb fields.
#[export] Hint Rewrite get_str_with get_int_with get_str_set get_int_set get_str_set_int get_int_set_str
  get_str_set_buffer get_int_set_buffer : fields.

(** The string [v] is in the buffer of [o] before [bound], and [f] points to it. *)
Definition stored (o : mq_options_t) (bound : Z) (f : sfield) (v : list Z) : Prop :=
  exists off, get_str f o = PBuf off /\ 0 <= off /\ off + zlen v + 1 <= bound /\ no_nul v /\
    ztake (zlen v + 1) (zdrop off (mq_buffer o)) = v ++ [0].

Lemma stored_str o bound f v : stored o bound f v -> mq_str o (get_str f o) = Some v.
Proof.
  intros (off & Hp & _ & _ & Hn & Hv). rewrite Hp. cbn. f_equal.
  rewrite <- (ztake_zdrop (zlen v + 1) (zdrop off (mq_buffer o))), Hv, <- app_assoc.
  by apply cstr_app_nul.
Qed.

(** ** Lemmas on lines *)

Lemma split_eq_app s l r : split_eq s = Some (l, r) -> s = l ++ 61 :: r.
Proof.
  revert l r. induction s as [|c s IH]; intros l r; [done|]. simpl. destruct (Z.eqb_spec c 61) as [->|].
  - by intros [= <- <-].
  - destruct (split_eq s) as [[l' r']|]; [|done]. intros [= <- <-]. simpl. f_equal. by apply IH.
Qed.
Lemma remove_newline_prefix v : exists suf, v = remove_newline v ++ suf.
Proof.
  unfold remove_newline. destruct (reverse v) as [|c rs] eqn:E; [exists []; by rewrite app_nil_r|].
  destruct (c =? 10); [|exists []; by rewrite app_nil_r]. exists [c].
  by rewrite <- (reverse_involutive v), E, reverse_cons.
Qed.
(** A value is a part of its line right of the '='. *)
Lemma parse_line_value line key v :
  parse_line line = (key, Some v) -> no_nul v /\ zlen v + 1 <= zlen line.
Proof.
  unfold parse_line. pose proof (cstr_no_nul line) as Hn. pose proof (zlen_cstr line) as Hl.
  destruct (skip_space_suffix (cstr line)) as [pre Hpre].
  destruct (split_eq (skip_space (cstr line))) as [[l r]|] eqn:E; [|done]. intros [= _ <-].
  apply split_eq_app in E. destruct (skip_space_suffix r) as [pre' Hr].
  destruct (remove_newline_prefix (skip_space r)) as [suf Hsuf].
  rewrite Hpre, E, Hr, Hsuf in Hn, Hl. unfold no_nul in Hn.
  rewrite !Forall_app, Forall_cons, !Forall_app in Hn. split; [by apply Hn|]. zlia.
Qed.
Lemma zlen_lines s : foldr (fun l n => zlen l + n) 0 (lines s) = zlen s.
Proof.
  induction s as [|c s IH]; [done|]. simpl. rewrite zlen_cons. destruct (c =? 10); simpl.
  - rewrite IH, zlen_cons, zlen_nil. lia.
  - destruct (lines s) as [|l ls]; simpl in *; rewrite ?zlen_cons, ?zlen_nil; lia.
Qed.

(** The strings of the settings are values of the lines. *)
Lemma line_setting_strings (P : list Z -> Prop) f line st st' :
  line_setting line st = Some st' -> (forall key v, parse_line line = (key, Some v) -> P v) ->
  (forall v, st_str st f = Some v -> P v) -> forall v, st_str st' f = Some v -> P v.
Proof.
  unfold line_setting. destruct (parse_line line) as [key val]. destruct (meaning_of key) as [m|].
  2:{ by intros [= <-]. }
  destruct val as [v0|]; [|done]. intros [= <-] Hv0 Hst v. destruct m; cbn; [|by apply Hst..].
  destruct (decide (f = f0)); [intros [= <-]; by eapply Hv0|by apply Hst].
Qed.
Lemma file_settings_strings (P : list Z -> Prop) f ls st st' :
  file_settings ls st = Some st' ->
  Forall (fun l => forall key v, parse_line l = (key, Some v) -> P v) ls ->
  (forall v, st_str st f = Some v -> P v) -> forall v, st_str st' f = Some v -> P v.
Proof.
  revert st. induction ls as [|l ls IH]; intros st; simpl; [by intros [= <-]|].
  destruct (line_setting l st) as [st1|] eqn:E; [|done]. cbn. intros Hst [Hl Hls]%Forall_cons Hbase.
  eapply IH; [done..|]. by eapply line_setting_strings.
Qed.
Lemma line_le_contents s : Forall (fun l => zlen l <= zlen s) (lines s).
Proof.
  assert (Hgo : forall ls, Forall (fun l : list Z => zlen l <= foldr (fun l n => zlen l + n) 0 ls) ls).
  { induction ls as [|l ls IH]; [constructor|]. simpl.
    assert (0 <= foldr (fun (l : list Z) n => zlen l + n) 0 ls) by (clear; induction ls; simpl; zlen_facts; lia).
    constructor; [lia|]. eapply Forall_impl; [exact IH|]. intros x Hx. simpl in *. zlen_facts. lia. }
  specialize (Hgo (lines s)). by rewrite zlen_lines in Hgo.
Qed.

(** ** A pass over the file *)

Section Pass.
Context `{World} `{Allocator}.
Abbreviation C := (SE cfg leave).

(** The pass has a buffer of [size] bytes; [big] says that this is enough.
    [fine] says that URL, resolver and sockets work. *)
Context (size : Z) (big fine : Prop).

(** Where the fields point that the file does not set. *)
Definition base (f : sfield) : ptr :=
  match f with
  | FDsn | FCacert | FHost | FVhost | FUsername | FPassword | FIp => PNull
  | FCfgfile | FExchange | FRoutingKey => PWild
  end.

(** The state agrees with [st], and if the buffer is big enough there is room
    for [rem] more bytes. *)
Record agrees (st : settings) (rem : Z) (s : cfg) (o : mq_options_t) : Prop := {
  ag_mq : e_mq (c_env s) = MqAt o;
  ag_buffer : zlen (mq_buffer o) = size;
  ag_off : 0 <= c_off s;
  ag_left : c_off s + c_left s = size;
  ag_room : big -> rem <= c_left s;
  ag_str : forall f v, st_str st f = Some v -> stored o (c_off s) f v;
  ag_base : forall f, st_str st f = None -> get_str f o = base f;
  ag_int : forall f, get_int f o = st_int st f;
  ag_fresh : mq_conn o = None /\ mq_socket o = None
}.
(** A pass that gave up: options that a further pass can start from. *)
Definition gave_up (s : cfg) : Prop :=
  exists o, e_mq (c_env s) = MqAt o /\ mq_conn o = None /\ mq_socket o = None /\
    forall f, base f = PWild -> get_str f o <> PNull.

(** Results other than 0: -1 for want of room, a positive one if something
    does not work. *)
Definition left_early (rc : Z) (s : cfg) : Prop :=
  (rc = -1 /\ ~ big /\ gave_up s) \/ (0 < rc /\ ~ fine /\ exists o, e_mq (c_env s) = MqAt o).
(** [m] returns with [Q], or leaves its function early. *)
Definition passes {A} (Q : A -> cfg -> Prop) (m : C A) (s : cfg) : Prop :=
  match m s with
  | (inr a, s') => Q a s'
  | (inl (Return rc), s') => left_early rc s'
  | (inl (Leave _), _) => False
  end.
Lemma passes_ret {A} (Q : A -> cfg -> Prop) a s : Q a s -> passes Q (mret a) s.
Proof. done. Qed.
Lemma passes_bind {A B} (P : A -> cfg -> Prop) (Q : B -> cfg -> Prop) (m : C A) (k : A -> C B) s :
  passes P m s -> (forall a s', P a s' -> passes Q (k a) s') -> passes Q (m ≫= k) s.
Proof.
  unfold passes, mbind, SE_bind. intros Hm Hk.
  destruct (m s) as [[[rc|e]|a] s']; [done..|]. by apply Hk.
Qed.

Lemma stored_lt o bound f v : stored o bound f v -> forall b, bound <= b -> stored o b f v.
Proof. intros (off & ? & ? & ? & ? & ?) b Hb. exists off. split_and!; [done..|lia|done|done]. Qed.

Lemma agrees_gave_up st rem s o : agrees st rem s o -> gave_up s.
Proof.
  intros Ha. exists o. destruct (ag_fresh _ _ _ _ Ha) as [Hc Hs].
  split_and!; [apply Ha|done..|]. intros f Hb.
  destruct (st_str st f) as [v|] eqn:E.
  - destruct (ag_str _ _ _ _ Ha f v E) as (off & -> & _). done.
  - rewrite (ag_base _ _ _ _ Ha f E), Hb. done.
Qed.

(** Writing at the end of what is stored keeps it. *)
Lemma stored_write o bound data f v :
  0 <= bound -> bound + zlen data <= zlen (mq_buffer o) -> stored o bound f v ->
  stored (set_buffer (zwrite bound data (mq_buffer o)) o) bound f v.
Proof.
  intros Hb Hl (off & Hp & Hpos & Hlt & Hn & Hv). exists off. rewrite get_str_set_buffer.
  split_and!; [done..|]. rewrite <- Hv. cbn [mq_buffer set_buffer with_fields].
  pose proof (zlen_nonneg v). pose proof (zlen_nonneg data).
  assert (Hz : forall l : list Z, ztake (zlen v + 1) (zdrop off l) = zdrop off (ztake (off + (zlen v + 1)) l)).
  { intros l. rewrite zdrop_ztake by lia. f_equal. lia. }
  rewrite !Hz, ztake_zwrite by lia. done.
Qed.

(** The options with [v] copied to [off] for the field [f]. *)
Definition copied (f : sfield) (off : Z) (v : list Z) (o : mq_options_t) : mq_options_t :=
  set_str f (PBuf off) (set_buffer (zwrite off (v ++ [0]) (mq_buffer o)) o).

Lemma copied_agrees st rem s o f v :
  agrees st (zlen v + 1 + rem) s o -> no_nul v -> zlen v + 1 <= c_left s ->
  agrees (put_str f v st) rem
    (mk_cfg (set_mq (MqAt (copied f (c_off s) v o)) (c_env s)) (c_off s + (zlen v + 1)) (c_left s - (zlen v + 1)))
    (copied f (c_off s) v o).
Proof.
  intros Ha Hn Hl. pose proof (zlen_nonneg v).
  pose proof (ag_off _ _ _ _ Ha) as Hoff. pose proof (ag_left _ _ _ _ Ha) as Hleft.
  pose proof (ag_buffer _ _ _ _ Ha) as Hbuf.
  assert (Hlen : zlen (v ++ [0]) = zlen v + 1) by zlia.
  assert (Hb : forall f' p, mq_buffer (set_str f' p (set_buffer (zwrite (c_off s) (v ++ [0]) (mq_buffer o)) o)) =
    zwrite (c_off s) (v ++ [0]) (mq_buffer o)) by done.
  split; cbn [e_mq c_env set_mq c_off c_left]; try done.
  - unfold copied. rewrite Hb, zlen_zwrite by lia. done.
  - lia.
  - lia.
  - intros Hbig. pose proof (ag_room _ _ _ _ Ha Hbig). lia.
  - intros f' v'. unfold put_str. cbn. destruct (decide (f' = f)) as [->|Hne].
    + intros [= <-]. exists (c_off s). unfold copied. rewrite get_str_set, decide_True by done.
      split_and!; [done|lia|lia|done|]. rewrite Hb. unfold zwrite.
      rewrite zdrop_app_exact by (rewrite zlen_ztake; lia). by apply ztake_app_exact.
    + intros Hv'. destruct (stored_write o (c_off s) (v ++ [0]) f' v' Hoff ltac:(lia) (ag_str _ _ _ _ Ha f' v' Hv'))
        as (off & Hp & Hrest). exists off. unfold copied. rewrite get_str_set, decide_False by done.
      split; [done|]. destruct Hrest as (? & ? & ? & Hz). split_and!; [done|lia|done|]. by rewrite Hb.
  - intros f'. unfold put_str. cbn. destruct (decide (f' = f)) as [->|Hne]; [done|]. intros Hf'.
    unfold copied. rewrite get_str_set, decide_False, get_str_set_buffer by done. by apply Ha.
  - intros f'. unfold copied. rewrite get_int_set_str, get_int_set_buffer. apply Ha.
  - apply Ha.
Qed.

Lemma copyval_passes st rem s o f v :
  agrees st (zlen v + 1 + rem) s o -> no_nul v -> zlen v + 1 < 2 ^ 31 -> 0 <= rem ->
  passes (fun _ s' => exists o', agrees (put_str f v st) rem s' o') (COPYVAL (Some v) f) s.
Proof.
  intros Ha Hn Hv Hrem. pose proof (zlen_nonneg v). unfold passes, COPYVAL, copy2buffer, deref. unfold_SE.
  destruct (Z.ltb_spec (c_left s) (zlen v + 1)).
  - rewrite i32_id by lia. rewrite (proj2 (Z.ltb_lt _ 0)) by lia. left. split_and!; [done| |].
    + intros Hbig. pose proof (ag_room _ _ _ _ Ha Hbig). lia.
    + by eapply agrees_gave_up.
  - pose proof (ag_mq _ _ _ _ Ha) as Hmq. pose proof (ag_left _ _ _ _ Ha). pose proof (ag_buffer _ _ _ _ Ha).
    unfold on_env, update_options, options. unfold_SE. rewrite Hmq. cbn.
    rewrite (proj2 (Z.ltb_ge _ _)) by lia. cbn. rewrite Hmq. cbn. rewrite i32_id by lia.
    rewrite (proj2 (Z.ltb_ge _ 0)) by lia. eexists. by apply copied_agrees.
Qed.

Lemma agrees_mono st rem rem' s o : rem' <= rem -> agrees st rem s o -> agrees st rem' s o.
Proof. intros Hr []. split; try done. intros Hbig. specialize (ag_room0 Hbig). lia. Qed.
Lemma set_int_passes st rem s o f v :
  agrees st rem s o ->
  passes (fun _ s' => exists o', agrees (put_int f v st) rem s' o') (on_env (update_options (set_int f v))) s.
Proof.
  intros Ha. unfold passes, on_env, update_options, options. unfold_SE. rewrite (ag_mq _ _ _ _ Ha). cbn.
  exists (set_int f v o). destruct Ha as [Hmq Hb Ho Hl Hr Hs Hn Hi Hf]. split; try done.
  intros f'. rewrite get_int_set. cbn. by destruct (decide (f' = f)).
Qed.

Lemma passes_last {A} (P Q : A -> cfg -> Prop) (m : C A) s :
  passes P m s -> (forall a s', P a s' -> Q a s') -> passes Q m s.
Proof. unfold passes. intros Hm HQ. destruct (m s) as [[[]|] ?]; auto. Qed.

(** What a line does, by the meaning of its key. *)
Definition run_meaning (m : option meaning) (val : option (list Z)) : C () :=
  match m with
  | None => mret tt
  | Some (MStr f) => COPYVAL val f
  | Some (MNum f) => store_number val f
  | Some (MYesNo f) => store_yes_no val f
  end.

(** Either the key is this one, and only this option runs, or go on. *)
Ltac known_case key lit m :=
  destruct (bytes_eqb key (str lit)) eqn:?;
  [ match goal with E : bytes_eqb key (str lit) = true |- _ => apply bytes_eqb_eq in E as -> end;
    cbn [fmap option_fmap option_map snd run_meaning]; cbv beta iota;
    destruct m as [[|[]] ?]; reflexivity
  | cbv beta iota ].
Lemma config_line_meaning line s :
  config_line line s = run_meaning (meaning_of (fst (parse_line line))) (snd (parse_line line)) s.
Proof.
  unfold config_line. destruct (parse_line line) as [key val]. cbn [fst snd].
  unfold meaning_of, known_keys.
  cbn [find fst]. unfold INJECT_OPTION, set_number, set_yes_no_option, mbind, SE_bind, mret, SE_ret.
  known_case key "exchange" constr:(COPYVAL val FExchange s).
  known_case key "routing_key" constr:(COPYVAL val FRoutingKey s).
  known_case key "connection" constr:(COPYVAL val FDsn s).
  known_case key "cacert" constr:(COPYVAL val FCacert s).
  known_case key "heartbeat" constr:(store_number val FHeartbeat s).
  known_case key "port" constr:(store_number val FPort s).
  known_case key "enable_ssl" constr:(store_yes_no val FSsl s).
  known_case key "verify_peer" constr:(store_yes_no val FVerifyPeer s).
  known_case key "verify_hostname" constr:(store_yes_no val FVerifyHostname s).
  reflexivity.
Qed.

(** Keep the value when nothing changes it. *)
Lemma agrees_put_same st rem s o f :
  agrees st rem s o -> agrees (put_int f (st_int st f) st) rem s o.
Proof.
  intros []. split; try done. intros f'. cbn. destruct (decide (f' = f)) as [->|]; auto.
Qed.

Lemma config_line_passes st st' rem s o line :
  agrees st (zlen line + rem) s o -> line_setting line st = Some st' -> zlen line < 2 ^ 31 -> 0 <= rem ->
  passes (fun _ s' => exists o', agrees st' rem s' o') (config_line line) s.
Proof.
  intros Ha Hst Hlen Hrem.
  assert (Ha0 : agrees st rem s o) by (eapply agrees_mono; [|done]; zlen_facts; lia).
  unfold passes. rewrite config_line_meaning. revert Hst. unfold line_setting.
  destruct (parse_line line) as [key val] eqn:Ep. cbn [fst snd].
  destruct (meaning_of key) as [m|]; cbn [run_meaning]; [|intros [= <-]; by exists o].
  destruct val as [v|]; [|done]. apply parse_line_value in Ep as [Hn Hv].
  intros [= <-]. destruct m as [f|f|f].
  - apply (copyval_passes st rem s o f v); [|done|lia|done]. eapply agrees_mono; [|exact Ha]. lia.
  - by apply (set_int_passes st rem s o).
  - unfold store_yes_no, deref, yes_no. rewrite SE_bind_ret_l.
    destruct (_ || strcaseeq v (str "on")); [by apply (set_int_passes st rem s o)|].
    destruct (_ || strcaseeq v (str "off")); [by apply (set_int_passes st rem s o)|].
    exists o. by apply agrees_put_same.
Qed.
Lemma config_lines_passes ls st st' rem s o :
  agrees st (foldr (fun l n => zlen l + n) 0 ls + rem) s o -> file_settings ls st = Some st' ->
  foldr (fun l n => zlen l + n) 0 ls < 2 ^ 31 -> 0 <= rem ->
  passes (fun _ s' => exists o', agrees st' rem s' o') (mfold (fun _ line => config_line line) ls tt) s.
Proof.
  assert (Hpos : forall ls, 0 <= foldr (fun (l : list Z) n => zlen l + n) 0 ls).
  { induction ls0; simpl; zlen_facts; lia. }
  revert st s o. induction ls as [|l ls IH]; intros st s o Ha Hst Hlen Hrem; simpl in *.
  - injection Hst as <-. apply passes_ret. by exists o.
  - specialize (Hpos ls). destruct (line_setting l st) as [st1|] eqn:E1; [|done]. cbn in Hst.
    eapply passes_bind.
    + eapply (config_line_passes st st1 (foldr (fun l n => zlen l + n) 0 ls + rem)); [|done|zlen_facts; lia|lia].
      by rewrite Z.add_assoc.
    + intros [] s1 (o1 & Ha1). eapply IH; [done..|zlen_facts; lia|done].
Qed.

(** A function of the pass: 0 with [Q], or early. *)
Definition calls (Q : cfg -> Prop) (m : C Z) (s : cfg) : Prop :=
  match m s with
  | (inr rc, s') => (rc = 0 /\ Q s') \/ (rc <> 0 /\ left_early rc s')
  | (inl _, _) => False
  end.
Lemma left_early_rc rc s : left_early rc s -> rc <> 0.
Proof. intros [[-> _]|[? _]]; lia. Qed.
Lemma calls_returns Q m s :
  passes (fun rc s' => (rc = 0 /\ Q s') \/ (rc <> 0 /\ left_early rc s')) m s -> calls Q (returns m) s.
Proof.
  unfold passes, calls, returns. destruct (m s) as [[[rc|e]|rc] s']; try done.
  intros Hl. right. split; [by eapply left_early_rc|done].
Qed.
Lemma passes_call {A} (Q : cfg -> Prop) (R : A -> cfg -> Prop) m (k : Z -> C A) s :
  calls Q m s -> (forall s', Q s' -> passes R (k 0) s') ->
  passes R (rc ← m; _ ← fail_on rc; k rc) s.
Proof.
  unfold calls, passes, fail_on. intros Hm Hk. unfold mbind, SE_bind.
  destruct (m s) as [[e|rc] s1]; [done|]. destruct Hm as [[-> HQ]|[Hne Hl]]; [by apply Hk|].
  by rewrite (proj2 (Z.eqb_neq rc 0)).
Qed.

Lemma field_str_passes st rem s o f v :
  agrees st rem s o -> st_str st f = Some v -> field_str f s = (inr v, s).
Proof.
  intros Ha Hv. pose proof (ag_str _ _ _ _ Ha f v Hv) as Hs%stored_str. pose proof (ag_mq _ _ _ _ Ha) as Hmq.
  unfold field_str, on_env, read_str, options. unfold_SE. rewrite Hmq. cbn. rewrite Hmq, Hs. cbn.
  by destruct s.
Qed.

(** The settings with the parts of the URL. *)
Definition with_dsn (ci : connection_info) (m : list Z) (st : settings) : settings :=
  put_int FSsl (ci_ssl ci) (put_int FPort (ci_port ci)
    (put_str FPassword (ci_str m (ci_password ci)) (put_str FUsername (ci_str m (ci_user ci))
      (put_str FVhost (ci_str m (ci_vhost ci)) (put_str FHost (ci_str m (ci_host ci)) st))))).

Lemma ci_str_bound n m p :
  terminated m -> zlen m = n -> in_block n p -> no_nul (ci_str m p) /\ zlen (ci_str m p) <= Z.max 9 (n - 1).
Proof.
  intros Hm Hn Hp. destruct p as [l|off]; cbn in *; [split; [apply Hp|lia]|].
  split; [apply cstr_no_nul|]. pose proof (terminated_cstr m off Hm ltac:(lia)). lia.
Qed.

(** Parts of the URL are copied like values of the file. *)
Definition dsn_need (dsn : list Z) : Z := 4 * (zlen dsn + 10).
Lemma copy_part_passes st rem s o f m p n :
  agrees st (n + 10 + rem) s o -> terminated m -> zlen m = n + 1 -> in_block (n + 1) p ->
  0 <= n < 2 ^ 30 -> 0 <= rem ->
  passes (fun _ s' => exists o', agrees (put_str f (ci_str m p) st) rem s' o')
    (COPYVAL (Some (ci_str m p)) f) s.
Proof.
  intros Ha Hm Hz Hp Hn Hrem. destruct (ci_str_bound _ m p Hm Hz Hp) as [Hnn Hlen].
  eapply copyval_passes; [|done|lia|done]. eapply agrees_mono; [|exact Ha]. lia.
Qed.
Lemma copy_dsn_passes st rem s o ci m n :
  agrees st (4 * (n + 10) + rem) s o -> terminated m -> zlen m = n + 1 -> ci_ok (n + 1) ci ->
  0 <= n < 2 ^ 30 -> 0 <= rem ->
  passes (fun rc s' => rc = 0 /\ exists o', agrees (with_dsn ci m st) rem s' o')
    (_ ← COPYVAL (Some (ci_str m (ci_host ci))) FHost;
     _ ← COPYVAL (Some (ci_str m (ci_vhost ci))) FVhost;
     _ ← COPYVAL (Some (ci_str m (ci_user ci))) FUsername;
     _ ← COPYVAL (Some (ci_str m (ci_password ci))) FPassword;
     _ ← on_env (update_options (set_int FPort (ci_port ci)));
     _ ← on_env (update_options (set_int FSsl (ci_ssl ci)));
     mret 0) s.
Proof.
  intros Ha Hm Hz [] Hn Hrem.
  eapply passes_bind; [eapply (copy_part_passes _ (3 * (n + 10) + rem)); try done; [|lia];
    eapply agrees_mono; [|exact Ha]; lia|]. intros [] s1 (o1 & Ha1).
  eapply passes_bind; [eapply (copy_part_passes _ (2 * (n + 10) + rem)); try done; [|lia];
    eapply agrees_mono; [|exact Ha1]; lia|]. intros [] s2 (o2 & Ha2).
  eapply passes_bind; [eapply (copy_part_passes _ (n + 10 + rem)); try done; [|lia];
    eapply agrees_mono; [|exact Ha2]; lia|]. intros [] s3 (o3 & Ha3).
  eapply passes_bind; [by eapply (copy_part_passes _ rem)|]. intros [] s4 (o4 & Ha4).
  eapply passes_bind; [by eapply set_int_passes|]. intros [] s5 (o5 & Ha5).
  eapply passes_bind; [by eapply set_int_passes|]. intros [] s6 (o6 & Ha6).
  apply passes_ret. split; [done|]. by exists o6.
Qed.
Lemma dsn_parse_calls `{!AllocTotal} st rem s o :
  agrees st (match st_str st FDsn with Some dsn => dsn_need dsn | None => 0 end + rem) s o -> 0 <= rem ->
  (fine -> exists dsn ci m, st_str st FDsn = Some dsn /\
     amqp_parse_url (dsn ++ [0]) = (inr (AMQP_STATUS_OK, ci), m)) ->
  (forall dsn, st_str st FDsn = Some dsn -> no_nul dsn /\ zlen dsn + 10 <= SSHBUF_SIZE_MAX) ->
  calls (fun s' => exists o' dsn ci m, st_str st FDsn = Some dsn /\
    amqp_parse_url (dsn ++ [0]) = (inr (AMQP_STATUS_OK, ci), m) /\ agrees (with_dsn ci m st) rem s' o')
    dsn_parse s.
Proof.
  intros Ha Hrem Hfine Hdsn. apply calls_returns. pose proof (ag_mq _ _ _ _ Ha) as Hmq.
  assert (Ho : on_env options s = (inr o, s)).
  { unfold on_env, options. rewrite Hmq. by destruct s. }
  unfold passes. rewrite (SE_bind_ok _ _ _ _ _ Ho).
  destruct (st_str st FDsn) as [dsn|] eqn:Ed.
  2:{ pose proof (ag_base _ _ _ _ Ha FDsn Ed) as Hb. cbn in Hb. rewrite Hb. cbn.
      right. split; [done|]. right. split; [done|]. split; [|by exists o].
      intros Hf. destruct (Hfine Hf) as (? & ? & ? & ? & _). done. }
  destruct (ag_str _ _ _ _ Ha FDsn dsn Ed) as (off & Hp & _). cbn in Hp. rewrite Hp. cbn [is_null].
  rewrite (SE_bind_ok _ _ _ _ _ (field_str_passes _ _ _ _ FDsn dsn Ha Ed)).
  destruct (Hdsn dsn eq_refl) as [Hnn Hlen]. clear Hdsn.
  assert (Hdup : deref (strdup dsn) s = (inr dsn, s)).
  { unfold strdup. destruct (alloc_total (zlen dsn + 1)) as [x Hx]; [zlen_facts; lia|]. by rewrite Hx. }
  rewrite (SE_bind_ok _ _ _ _ _ Hdup).
  destruct (parse_url_safe dsn) as (rc & ci & m & E & Hrc & Hci & Hm & Hzm). rewrite E.
  destruct Hrc as [->| ->].
  2:{ cbn. right. split; [done|]. right. split; [done|]. split; [|by exists o].
      intros Hf. destruct (Hfine Hf) as (dsn' & ci' & m' & [= <-] & E').
      rewrite E in E'. by injection E'. }
  change (truthy AMQP_STATUS_OK) with false. cbv iota.
  eapply passes_last; [eapply (copy_dsn_passes st rem s o ci m (zlen dsn)); try done|].
  - unfold SSHBUF_SIZE_MAX in Hlen. zlen_facts. lia.
  - intros rc s' [-> (o' & Ha')]. left. split; [done|]. by exists o', dsn, ci, m.
Qed.

(** Calls to the world that leave the options alone. *)
Lemma agrees_world st rem s o w tr :
  agrees st rem s o -> agrees st rem (mk_cfg (mk_env (MqAt o) w tr) (c_off s) (c_left s)) o.
Proof. intros []. by split. Qed.

(** [ip] is the first address that the resolver gave for [host]. *)
Definition resolves (host ip : list Z) : Prop := exists w l, fst (ext (GetHostByName host) w) = Some (ip :: l).
Lemma convert_host_to_ip_calls `{!WorldOk} st rem s o host :
  agrees st (16 + rem) s o -> st_str st FHost = Some host -> 0 <= rem ->
  (fine -> forall w, exists a l, fst (ext (GetHostByName host) w) = Some (a :: l)) ->
  calls (fun s' => exists o' ip, agrees (put_str FIp ip st) rem s' o' /\ resolves host ip) convert_host_to_ip s.
Proof.
  intros Ha Hh Hrem Hfine. apply calls_returns. unfold passes.
  rewrite (SE_bind_ok _ _ _ _ _ (field_str_passes _ _ _ _ FHost host Ha Hh)).
  pose proof (ag_mq _ _ _ _ Ha) as Hmq.
  unfold mbind at 1, SE_bind at 1. unfold on_env at 1, do_call.
  pose proof (answers_ok _ (GetHostByName host) (e_world (c_env s))) as Hans. cbn in Hans.
  assert (Hnone : forall w tr, let s' := mk_cfg (mk_env (e_mq (c_env s)) w tr) (c_off s) (c_left s) in
    ~ fine -> 1 = 0 /\ (exists o' ip, agrees (put_str FIp ip st) rem s' o' /\ resolves host ip) \/ 1 <> 0 /\ left_early 1 s').
  { intros w tr s' Hf. right. split; [done|]. right. split_and!; [done..|]. by exists o. }
  destruct (ext (GetHostByName host) (e_world (c_env s))) as [he w] eqn:Ew. cbn in Hans.
  assert (Hhe : fine -> exists a l, he = Some (a :: l)).
  { intros Hf. destruct (Hfine Hf (e_world (c_env s))) as (a & l & E). rewrite Ew in E. by exists a, l. }
  destruct he as [[|a l]|].
  - apply Hnone. intros Hf. by destruct (Hhe Hf) as (? & ? & ?).
  - apply Forall_cons in Hans as [[Hn Hl] _]. rewrite Hmq.
    set (s1 := mk_cfg _ _ _).
    assert (Hc : passes (fun rc s' => rc = 0 /\ exists o', agrees (put_str FIp a st) rem s' o')
      (_ ← COPYVAL (Some a) FIp; mret 0) s1).
    { eapply passes_bind; [eapply (copyval_passes st rem s1 o); [|done|lia|done]|].
      - eapply agrees_mono; [|apply agrees_world, Ha]. lia.
      - intros [] s2 (o2 & Ha2). apply passes_ret. split; [done|]. by exists o2. }
    eapply passes_last; [exact Hc|]. intros rc s' [-> (o' & Ha')]. left. split; [done|]. exists o', a. split; [done|].
    exists (e_world (c_env s)), l. by rewrite Ew.
  - apply Hnone. intros Hf. by destruct (Hhe Hf) as (? & ? & ?).
Qed.

(** What the options hold when the file was read. *)
Record loaded (st : settings) (o : mq_options_t) : Prop := {
  ld_str : forall f v, st_str st f = Some v -> mq_str o (get_str f o) = Some v;
  ld_base : forall f, st_str st f = None -> get_str f o = base f;
  ld_int : forall f, get_int f o = st_int st f;
  ld_conn : is_Some (mq_conn o);
  ld_socket : is_Some (mq_socket o)
}.
Lemma loaded_conn st rem s o c k :
  agrees st rem s o -> loaded st (mq_set_conn (Some c) (Some k) o).
Proof.
  intros Ha. split; [| |apply Ha|done|done].
  - intros f v Hv. apply (ag_str _ _ _ _ Ha) in Hv. apply stored_str in Hv. by destruct f.
  - intros f Hf. apply (ag_base _ _ _ _ Ha) in Hf. by destruct f.
Qed.

Lemma mq_init_spec o w tr :
  (forall w, is_Some (fst (ext AmqpNewConnection w))) ->
  (is_null (mq_cacert o) = false -> is_Some (mq_str o (mq_cacert o))) ->
  exists rc o' w' tr', mq_init (mk_env (MqAt o) w tr) = (inr rc, mk_env (MqAt o') w' tr') /\
    ((rc = 0 /\ exists c k, o' = mq_set_conn (Some c) (Some k) o) \/
     (rc = 1 /\ exists c w, fst (ext (AmqpTcpSocketNew c) w) = None \/ fst (ext (AmqpSslSocketNew c) w) = None)).
Proof.
  intros Hconn Hca. unfold mq_init, mq_init_amqp, mq_init_amqps, update_options, options, do_call, need. unfold_SE.
  destruct (truthy (mq_ssl o)); cbn; specialize (Hconn w);
    destruct (ext AmqpNewConnection w) as [[c|] w1]; cbn in Hconn; try (by destruct Hconn); cbn.
  - destruct (ext (AmqpSslSocketNew c) w1) as [[k|] w2] eqn:E; cbn.
    2:{ eexists 1, _, _, _. split; [done|]. right. split; [done|]. exists c, w1. right. by rewrite E. }
    destruct (truthy (mq_verify_peer o)); cbn; [destruct (is_null (mq_cacert o)) eqn:En; cbn|];
      try (destruct (Hca eq_refl) as [ca Hs]; unfold read_str, options; unfold_SE;
           change (mq_str _ (mq_cacert _)) with (mq_str o (mq_cacert o)); rewrite Hs; cbn; call_step);
      call_step; call_step; (eexists 0, _, _, _; split; [done|]; left; split; [done|]; by exists c, k).
  - destruct (ext (AmqpTcpSocketNew c) w1) as [[k|] w2] eqn:E; cbn.
    + eexists 0, _, _, _. split; [done|]. left. split; [done|]. by exists c, k.
    + eexists 1, _, _, _. split; [done|]. right. split; [done|]. exists c, w1. left. by rewrite E.
Qed.
Lemma mq_init_calls st rem s o :
  agrees st rem s o -> (forall w, is_Some (fst (ext AmqpNewConnection w))) ->
  (fine -> forall c w, is_Some (fst (ext (AmqpTcpSocketNew c) w)) /\ is_Some (fst (ext (AmqpSslSocketNew c) w))) ->
  calls (fun s' => exists o', e_mq (c_env s') = MqAt o' /\ loaded st o') (on_env mq_init) s.
Proof.
  intros Ha Hconn Hsock. pose proof (ag_mq _ _ _ _ Ha) as Hmq. unfold calls, on_env.
  destruct s as [[mq w tr] off left]. cbn in Hmq. subst mq. cbn [c_env c_off c_left].
  destruct (mq_init_spec o w tr Hconn) as (rc & o' & w' & tr' & -> & Hrc).
  { intros Hnn. destruct (st_str st FCacert) as [v|] eqn:E.
    - exists v. by apply (stored_str o off FCacert), (ag_str _ _ _ _ Ha).
    - pose proof (ag_base _ _ _ _ Ha FCacert E) as Hb. cbn in Hb. by rewrite Hb in Hnn. }
  destruct Hrc as [[-> (c & k & ->)]|[-> (c & w0 & Hnone)]].
  - left. split; [done|]. eexists. split; [done|]. by eapply loaded_conn.
  - right. split; [done|]. right. split_and!; [done| |by eexists]. intros Hf.
    destruct (Hsock Hf c w0) as [[? H1] [? H2]]. destruct Hnone; congruence.
Qed.

(** ** readconfig *)

Lemma default_agrees o rem e :
  e_mq e = MqAt o -> zlen (mq_buffer o) = size -> (big -> rem <= size) -> 0 <= size ->
  mq_conn o = None -> mq_socket o = None -> (forall f, base f = PWild -> get_str f o = PWild) ->
  agrees (default_settings (mq_port o)) rem
    (mk_cfg (set_mq (MqAt (default_options o)) e) 0 size) (default_options o).
Proof.
  intros Hmq Hb Hrem Hpos Hc Hs Hw. split; try done.
  intros f _. unfold default_options. rewrite get_str_with. destruct f; try done; by apply Hw.
Qed.

(** The values a pass ends with. *)
Definition final_settings (cfgfile contents : list Z) (port : Z) (ci : connection_info) (m ip : list Z)
    (st : settings) : Prop :=
  exists st0 dsn, file_settings (lines contents) (initial_settings cfgfile port) = Some st0 /\
    st_str st0 FDsn = Some dsn /\ amqp_parse_url (dsn ++ [0]) = (inr (AMQP_STATUS_OK, ci), m) /\
    st = put_str FIp ip (with_dsn ci m st0) /\ resolves (ci_str m (ci_host ci)) ip.

Lemma readconfig_calls `{!WorldOk} `{!AllocTotal} cfgfile contents e o st0 :
  e_mq e = MqAt o -> zlen (mq_buffer o) = size -> mq_conn o = None -> mq_socket o = None ->
  (forall f, base f = PWild -> get_str f o = PWild) ->
  (big -> buffer_need cfgfile contents <= size) -> 0 <= size ->
  buffer_need cfgfile contents <= 2 ^ 25 -> no_nul cfgfile ->
  file_settings (lines contents) (initial_settings cfgfile (mq_port o)) = Some st0 ->
  (forall w, is_Some (fst (ext AmqpNewConnection w))) ->
  (fine -> exists dsn ci m, st_str st0 FDsn = Some dsn /\
     amqp_parse_url (dsn ++ [0]) = (inr (AMQP_STATUS_OK, ci), m)) ->
  (fine -> forall host w, exists a l, fst (ext (GetHostByName host) w) = Some (a :: l)) ->
  (fine -> forall c w, is_Some (fst (ext (AmqpTcpSocketNew c) w)) /\ is_Some (fst (ext (AmqpSslSocketNew c) w))) ->
  calls (fun s' => exists o' ci m ip st, e_mq (c_env s') = MqAt o' /\ loaded st o' /\
           final_settings cfgfile contents (mq_port o) ci m ip st)
    (readconfig cfgfile contents) (mk_cfg e 0 size).
Proof.
  intros Hmq Hbuf Hc Hs Hw Hbig Hpos Hneed Hnn Hst Hconn Hdsn Hhost Hsock.
  unfold buffer_need in *. pose proof (zlen_nonneg cfgfile). pose proof (zlen_nonneg contents).
  apply calls_returns. set (rem0 := zlen contents + (4 * (zlen contents + 10) + 16)).
  apply (passes_bind (fun _ s' => exists o', agrees (default_settings (mq_port o)) (zlen cfgfile + 1 + rem0) s' o')).
  { unfold passes, on_env, update_options, options. unfold_SE. rewrite Hmq. cbn.
    eexists. apply default_agrees; try done. intros Hb. specialize (Hbig Hb). unfold rem0. lia. }
  intros [] s1 (o1 & Ha1). eapply passes_bind.
  { eapply (copyval_passes _ rem0); [exact Ha1|done|unfold rem0; lia..]. }
  intros [] s2 (o2 & Ha2). eapply passes_bind.
  { eapply (config_lines_passes _ _ _ (4 * (zlen contents + 10) + 16)); [by rewrite zlen_lines|exact Hst| |lia].
    rewrite zlen_lines. lia. }
  intros [] s3 (o3 & Ha3).
  assert (Hdl : forall dsn, st_str st0 FDsn = Some dsn -> no_nul dsn /\ zlen dsn <= zlen contents).
  { intros dsn Hd. revert Hd. eapply (file_settings_strings (fun v => no_nul v /\ zlen v <= zlen contents) FDsn);
      [exact Hst| |done]. eapply Forall_impl; [apply line_le_contents|]. intros l Hl key v Hv.
    apply parse_line_value in Hv as [? ?]. simpl in Hl. split; [done|lia]. }
  eapply passes_call.
  { eapply (dsn_parse_calls st0 16); [| done | exact Hdsn |].
    - eapply agrees_mono; [|exact Ha3]. destruct (st_str st0 FDsn) as [dsn|]; [|lia].
      destruct (Hdl dsn eq_refl). unfold dsn_need. lia.
    - intros dsn Hd. destruct (Hdl dsn Hd). unfold SSHBUF_SIZE_MAX. split; [done|lia]. }
  intros s4 (o4 & dsn & ci & m & Hd & Hp & Ha4). eapply passes_call.
  { eapply (convert_host_to_ip_calls _ 0); [exact Ha4|reflexivity|done|]. intros Hf w. by apply Hhost. }
  intros s5 (o5 & ip & Ha5 & Hip). eapply passes_call.
  { eapply mq_init_calls; [exact Ha5|done..]. }
  intros s6 (o6 & Ho6 & Hl6). apply passes_ret. left. split; [done|].
  exists o6, ci, m, ip. eexists. split_and!; [done..|]. by exists st0, dsn.
Qed.
End Pass.

(** ** Growing the buffer *)

(** The port that was in memory before does not matter to anything else. *)
Definition same_but_port (st st' : settings) : Prop :=
  (forall f, st_str st f = st_str st' f) /\ (forall f, f <> FPort -> st_int st f = st_int st' f).
Lemma line_setting_port line st st' st1 :
  same_but_port st st' -> line_setting line st = Some st1 ->
  exists st1', line_setting line st' = Some st1' /\ same_but_port st1 st1'.
Proof.
  intros [Hs Hi]. unfold line_setting. destruct (parse_line line) as [key val].
  destruct (meaning_of key) as [m|]; [|intros [= <-]; by exists st'].
  destruct val as [v|]; [|done]. intros [= <-]. cbn. eexists. split; [done|].
  destruct m; split; cbn; intros f' *; try done;
    repeat match goal with |- context [decide ?P] => destruct (decide P) as [?|?] end; subst; auto.
  intros Hp. by rewrite Hi.
Qed.
Lemma file_settings_port ls st st' st1 :
  same_but_port st st' -> file_settings ls st = Some st1 ->
  exists st1', file_settings ls st' = Some st1' /\ same_but_port st1 st1'.
Proof.
  revert st st'. induction ls as [|l ls IH]; intros st st' Hp; simpl; [intros [= <-]; by exists st'|].
  destruct (line_setting l st) as [s1|] eqn:E; [|done]. cbn. intros Hf.
  destruct (line_setting_port l st st' s1 Hp E) as (s1' & -> & Hp'). by apply (IH s1).
Qed.

Section Load.
Context `{World} `{Allocator} `{!WorldOk} `{!AllocTotal}.
Context (fine : Prop) (cfgfile contents : list Z) (st0 : settings).

(** What is asked of the file and of the world. *)
Record loadable : Prop := {
  lo_name : no_nul cfgfile;
  lo_need : buffer_need cfgfile contents <= 2 ^ 25;
  lo_settings : file_settings (lines contents) (initial_settings cfgfile 0) = Some st0;
  lo_conn : forall w, is_Some (fst (ext AmqpNewConnection w));
  lo_dsn : fine -> exists dsn ci m, st_str st0 FDsn = Some dsn /\
    amqp_parse_url (dsn ++ [0]) = (inr (AMQP_STATUS_OK, ci), m);
  lo_host : fine -> forall host w, exists a l, fst (ext (GetHostByName host) w) = Some (a :: l);
  lo_socket : fine -> forall c w,
    is_Some (fst (ext (AmqpTcpSocketNew c) w)) /\ is_Some (fst (ext (AmqpSslSocketNew c) w));
  lo_seek : fine -> forall w, fst (ext Fseek w) = 0
}.

(** Options a pass can start from. *)
Record restartable (o : mq_options_t) : Prop := {
  rs_conn : mq_conn o = None;
  rs_socket : mq_socket o = None;
  rs_wild : forall f, base f = PWild -> get_str f o <> PNull
}.
Definition load_done (e : env) : Prop :=
  exists o port ci m ip st, e_mq e = MqAt o /\ loaded st o /\
    final_settings cfgfile contents port ci m ip st.

Lemma new_buffer_wild size o f : restartable o -> base f = PWild -> get_str f (new_buffer size o) = PWild.
Proof.
  intros Ho Hf. unfold new_buffer. rewrite get_str_with. pose proof (rs_wild _ Ho f Hf).
  by destruct (get_str f o).
Qed.

(** One pass: it gives up only if the buffer is too small. *)
Lemma call_readconfig_spec size e o :
  loadable -> restartable o -> 0 <= size ->
  e_mq e = MqAt (new_buffer size o) ->
  exists rc e' o', call_readconfig cfgfile contents size e = (inr rc, e') /\ e_mq e' = MqAt o' /\
    ((rc = 0 /\ load_done e') \/ (0 < rc /\ ~ fine) \/
     (rc = -1 /\ restartable o' /\ size < buffer_need cfgfile contents)).
Proof.
  intros Hlo Ho Hpos Hmq.
  destruct (file_settings_port (lines contents) (initial_settings cfgfile 0)
    (initial_settings cfgfile (mq_port (new_buffer size o))) st0) as (st1 & Hst1 & Hsame & _).
  { split; [done|]. by intros []. }
  { apply Hlo. }
  pose proof (readconfig_calls size (buffer_need cfgfile contents <= size) fine cfgfile contents e
    (new_buffer size o) st1 Hmq (zlen_zfill _ Hpos) (rs_conn _ Ho) (rs_socket _ Ho)
    (fun f => new_buffer_wild size o f Ho) (fun x => x) Hpos (lo_need Hlo) (lo_name Hlo) Hst1 (lo_conn Hlo)) as Hc.
  rewrite <- Hsame in Hc. specialize (Hc (lo_dsn Hlo) (lo_host Hlo) (lo_socket Hlo)).
  unfold calls in Hc. unfold call_readconfig.
  destruct (readconfig cfgfile contents (mk_cfg e 0 size)) as [[x|rc] s']; [done|].
  destruct Hc as [[-> (o' & ci & m & ip & st & Hmq' & Hl & Hf)]|[Hne [(-> & Hbig & o' & Hmq' & Hg)|(Hrc & Hnf & o' & Hmq')]]];
    eexists _, (c_env s'), o'; (split; [done|]); (split; [done|]).
  - left. split; [done|]. by exists o', (mq_port (new_buffer size o)), ci, m, ip, st.
  - right. right. destruct Hg as (? & ? & ?). split_and!; [done|by split|lia].
  - right. by left.
Qed.

Lemma realloc_step fuel size e o :
  e_mq e = MqAt o -> 0 <= size <= SSHBUF_SIZE_MAX ->
  realloc (S fuel) cfgfile contents size e =
    (rc ← call_readconfig cfgfile contents size;
     if rc <? 0 then
       r ← do_call Fseek;
       if truthy r then mret false else realloc fuel cfgfile contents (u64 (Z.shiftl size 1))
     else mret true) (set_mq (MqAt (new_buffer size o)) e).
Proof.
  intros Hmq Hs. cbn [realloc]. destruct (alloc_total size Hs) as [x ->].
  unfold update_options, options. unfold_SE. by rewrite Hmq.
Qed.
(** Doubling reaches a size that is enough. *)
Lemma realloc_spec fuel size e o :
  loadable -> restartable o -> e_mq e = MqAt o -> 0 < size <= 2 * buffer_need cfgfile contents ->
  buffer_need cfgfile contents <= size * 2 ^ Z.of_nat fuel ->
  exists b e' o', realloc (S fuel) cfgfile contents size e = (inr b, e') /\ e_mq e' = MqAt o' /\
    (fine -> b = true /\ load_done e').
Proof.
  intros Hlo. pose proof (lo_need Hlo) as Hneed. revert size e o.
  induction fuel as [|fuel IH]; intros size e o Ho Hmq Hsize Hf;
    rewrite (realloc_step _ _ _ o) by (done || (unfold SSHBUF_SIZE_MAX; lia));
    destruct (call_readconfig_spec size (set_mq (MqAt (new_buffer size o)) e) o Hlo Ho ltac:(lia) eq_refl)
      as (rc & e1 & o1 & E & Hmq1 & [[-> Hd]|[[Hrc Hnf]|(-> & Hr & Hlt)]]);
    rewrite (SE_bind_ok _ _ _ _ _ E).
  1,4: by exists true, e1, o1.
  1,3: rewrite (proj2 (Z.ltb_ge rc 0)) by lia; by exists true, e1, o1.
  - change (2 ^ Z.of_nat 0) with 1 in Hf. lia.
  - change (-1 <? 0) with true. cbv iota. unfold mbind, SE_bind. unfold do_call at 1.
    destruct (ext Fseek (e_world e1)) as [r w] eqn:Es. rewrite Hmq1. destruct (truthy r) eqn:Er.
    { eexists false, _, o1. split; [done|]. split; [done|]. intros Hfine.
      pose proof (lo_seek Hlo Hfine (e_world e1)) as Hz. rewrite Es in Hz. cbn in Hz. by subst r. }
    rewrite Z.shiftl_mul_pow2, Z.pow_1_r by lia. unfold u64. rewrite Z.mod_small by lia.
    apply (IH _ _ o1); [done|done|lia|]. rewrite Nat2Z.inj_succ, Z.pow_succ_r in Hf by lia. lia.
Qed.

Lemma realloc_fuel_enough :
  buffer_need cfgfile contents <= 100 * 2 ^ Z.of_nat (S (Z.to_nat (Z.log2 (buffer_need cfgfile contents)))).
Proof.
  assert (0 < buffer_need cfgfile contents) by (unfold buffer_need; zlen_facts; lia).
  rewrite Nat2Z.inj_succ, Z2Nat.id by apply Z.log2_nonneg.
  pose proof (Z.log2_spec (buffer_need cfgfile contents)). lia.
Qed.
Lemma load_spec port e :
  loadable -> e_mq e = MqNull ->
  (exists errno w, ext (Fopen cfgfile) (e_world e) = ((errno, Some contents), w) /\ errno <> EACCES) ->
  exists b e' o', load_mq_config port (Some cfgfile) e = (inr b, e') /\ e_mq e' = MqAt o' /\
    (fine -> b = true /\ load_done e').
Proof.
  intros Hlo Hmq (errno & w & Ef & Hne). unfold load_mq_config, do_call. unfold_SE. rewrite Hmq. cbn.
  rewrite Ef. cbn -[realloc]. rewrite (proj2 (Z.eqb_neq _ _) Hne).
  destruct (alloc_total sizeof_mq_options) as [x ->]; [done|].
  apply (realloc_spec (S (Z.to_nat (Z.log2 (buffer_need cfgfile contents)))) 100 _ (raw_options port)); try done.
  - split; try done. by intros [].
  - unfold buffer_need. zlen_facts. lia.
  - apply realloc_fuel_enough.
Qed.
End Load.

(** ** What a configuration file says

    Stated on the text of the lines: blanks, a key, blanks, '=', blanks, a value
    and the newline. *)

Definition blanks (b : list Z) : Prop := Forall (fun c => isspace c = true) b.
Definition not_blank (c : option Z) : Prop := match c with Some c => isspace c = false | None => True end.
Definition key_names : list (list Z) :=
  map str ["exchange"; "routing_key"; "connection"; "cacert"; "heartbeat"; "port"; "enable_ssl"; "verify_peer"; "verify_hostname"].

Inductive line_says (line : list Z) : option (list Z * list Z) -> Prop :=
  | LS_set b1 k b2 b3 v nl :
      cstr line = b1 ++ k ++ b2 ++ 61 :: b3 ++ v ++ nl -> blanks b1 -> blanks b2 -> blanks b3 ->
      Forall (fun c => c <> 61) k -> not_blank (head k) -> not_blank (last k) -> not_blank (head v) ->
      nl = [10] \/ (nl = [] /\ last v <> Some 10) ->
      line_says line (Some (k, v))
  | LS_nothing :
      Forall (fun c => c <> 61) (cstr line) ->
      (forall b k, blanks b -> In k key_names -> cstr line <> b ++ k) ->
      line_says line None.

(** The value of the last line with the key. *)
Fixpoint value (key : list Z) (kvs : list (option (list Z * list Z))) : option (list Z) :=
  match kvs with
  | [] => None
  | kv :: kvs' =>
      match value key kvs', kv with
      | Some v, _ => Some v
      | None, Some (k, v) => if decide (k = key) then Some v else None
      | None, None => None
      end
  end.
(** A yes or a no. *)
Definition answer (v : list Z) : option Z :=
  if decide (map lower v ∈ map str ["yes"; "true"; "1"; "on"]) then Some 1
  else if decide (map lower v ∈ map str ["no"; "false"; "0"; "off"]) then Some 0 else None.
(** The last line with the key that is a yes or a no. *)
Fixpoint switch (key : list Z) (kvs : list (option (list Z * list Z))) : option Z :=
  match kvs with
  | [] => None
  | kv :: kvs' =>
      match switch key kvs', kv with
      | Some b, _ => Some b
      | None, Some (k, v) => if decide (k = key) then answer v else None
      | None, None => None
      end
  end.

Lemma skip_blanks b s : blanks b -> skip_space (b ++ s) = skip_space s.
Proof. induction 1 as [|c b Hc _ IH]; [done|]. cbn [app skip_space]. by rewrite Hc. Qed.
Lemma skip_word s : not_blank (head s) -> skip_space s = s.
Proof. destruct s as [|c s]; [done|]. cbn. by intros ->. Qed.
Lemma split_eq_at l r : Forall (fun c => c <> 61) l -> split_eq (l ++ 61 :: r) = Some (l, r).
Proof. induction 1 as [|c l Hc _ IH]; cbn [app split_eq]; [done|]. rewrite (proj2 (Z.eqb_neq _ _)) by done. by rewrite IH. Qed.
Lemma split_eq_none l : Forall (fun c => c <> 61) l -> split_eq l = None.
Proof. induction 1 as [|c l Hc _ IH]; cbn [split_eq]; [done|]. rewrite (proj2 (Z.eqb_neq _ _)) by done. by rewrite IH. Qed.
Lemma blanks_no_equals b : blanks b -> Forall (fun c => c <> 61) b.
Proof. intros Hb. eapply Forall_impl; [exact Hb|]. by intros c Hc ->. Qed.
Lemma trim_blanks b rs : blanks b -> rs <> [] -> not_blank (head rs) -> trim_left_operand (b ++ rs) = rs.
Proof.
  intros Hb Hne Hh. induction Hb as [|c b Hc _ IH]; cbn [app].
  - destruct rs as [|c [|d rs]]; [done..|]. cbn in *. by rewrite Hh.
  - destruct (b ++ rs) as [|d t] eqn:E; [by apply app_nil in E as [_ ->]|]. change (trim_left_operand (c :: d :: t)) with (if isspace c then trim_left_operand (d :: t) else c :: d :: t). by rewrite Hc.
Qed.
Lemma remove_newline_value v nl : not_blank (head v) -> nl = [10] \/ (nl = [] /\ last v <> Some 10) -> remove_newline (skip_space (v ++ nl)) = v.
Proof.
  intros Hv Hnl. destruct v as [|c v]; [by destruct Hnl as [-> | [-> _]]|]. rewrite skip_word by done. unfold remove_newline.
  destruct Hnl as [-> | [-> Hl]]; [by rewrite reverse_snoc, Z.eqb_refl, reverse_involutive|]. rewrite app_nil_r.
  destruct (reverse (c :: v)) as [|d rs] eqn:E; [done|]. apply (f_equal reverse) in E. rewrite reverse_involutive, reverse_cons in E.
  rewrite E, last_snoc in Hl. rewrite (proj2 (Z.eqb_neq _ _)) by congruence. done.
Qed.
Lemma line_says_parse line kv : line_says line kv ->
  match kv with
  | Some (k, v) => parse_line line = (k, Some v)
  | None => parse_line line = (skip_space (cstr line), None)
  end.
Proof.
  unfold parse_line. intros [b1 k b2 b3 v nl -> H1 H2 H3 Hk Hhk Hlk Hv Hnl|Hno _].
  - rewrite skip_blanks by done. destruct k as [|c k].
    { cbn [app]. rewrite skip_blanks, skip_word by done. change (61 :: b3 ++ v ++ nl) with ([] ++ 61 :: b3 ++ v ++ nl).
      rewrite split_eq_at by done. by rewrite skip_blanks, remove_newline_value. }
    rewrite skip_word by done. rewrite app_assoc, split_eq_at by (apply Forall_app; split; [done|by apply blanks_no_equals]).
    rewrite skip_blanks, remove_newline_value by done. rewrite reverse_app, trim_blanks, reverse_involutive; [done|by apply Forall_reverse|rewrite reverse_cons; by destruct (reverse k)|].
    by rewrite head_reverse.
  - destruct (skip_space_suffix (cstr line)) as [pre E].
    assert (Hs : Forall (fun c => c <> 61) (pre ++ skip_space (cstr line))) by (by rewrite <- E). apply Forall_app in Hs as [_ Hs].
    by rewrite split_eq_none.
Qed.

(** Every line with '=' says a key and a value. *)
Lemma blanks_first s : exists b, blanks b /\ s = b ++ skip_space s /\ not_blank (head (skip_space s)).
Proof.
  induction s as [|c s (b & Hb & E & Hh)]; [exists []; by split; [constructor|]|]. cbn. destruct (isspace c) eqn:Ec; [|exists []; by split; [constructor|]].
  exists (c :: b). split; [by constructor|]. split; [cbn; by f_equal|done].
Qed.
Lemma line_says_total line : ~ Forall (fun c => c <> 61) (cstr line) -> exists kv, line_says line (Some kv).
Proof.
  intros Hn. destruct (split_eq (cstr line)) as [[l r]|] eqn:E.
  2:{ destruct Hn. clear -E. induction (cstr line) as [|c s IH]; [done|]. cbn in E. destruct (Z.eqb_spec c 61); [done|].
      destruct (split_eq s) as [[]|]; [done|]. constructor; auto. }
  assert (Hl : Forall (fun c => c <> 61) l).
  { clear -E. revert l r E. induction (cstr line) as [|c s IH]; intros l r E; [done|]. cbn in E. destruct (Z.eqb_spec c 61); [by injection E as <- _|].
    destruct (split_eq s) as [[l' r']|]; [|done]. injection E as <- _. constructor; [done|]. by eapply IH. }
  apply split_eq_app in E. destruct (blanks_first l) as (b1 & Hb1 & El & Hh). destruct (blanks_first (reverse (skip_space l))) as (b2 & Hb2 & Er & Hh2).
  set (k := reverse (skip_space (reverse (skip_space l)))) in *. destruct (blanks_first r) as (b3 & Hb3 & Er3 & Hh3).
  assert (Ek : skip_space l = k ++ reverse b2) by (apply (f_equal reverse) in Er; by rewrite reverse_involutive, reverse_app in Er).
  assert (Hk : k = [] \/ head k = head (skip_space l)) by (rewrite Ek; destruct k; [by left|by right]).
  assert (Hkk : not_blank (last k)) by (unfold k; rewrite last_reverse; exact Hh2).
  assert (Hfk : Forall (fun c => c <> 61) k) by (rewrite El, Ek in Hl; apply Forall_app in Hl as [_ Hl]; by apply Forall_app in Hl as [? _]).
  assert (Hhk : not_blank (head k)) by (destruct Hk as [-> | ->]; done).
  assert (Hv : exists v nl, skip_space r = v ++ nl /\ not_blank (head v) /\ (nl = [10] \/ (nl = [] /\ last v <> Some 10))).
  { destruct (decide (last (skip_space r) = Some 10)) as [Hlast|Hlast]; [|exists (skip_space r), []; rewrite app_nil_r; auto].
    apply last_Some in Hlast as [v Ev]. exists v, [10]. split; [done|]. split; [|by left]. rewrite Ev in Hh3. by destruct v. }
  destruct Hv as (v & nl & Ev & Hv & Hnl). exists (k, v). apply (LS_set line b1 k (reverse b2) b3 v nl); try done; [|by apply Forall_reverse].
  rewrite E, El, Ek, Er3, Ev at 1. by rewrite <- !app_assoc.
Qed.

Lemma one_digit v d : 48 <= d <= 57 -> bytes_eqb v [d] = bytes_eqb (map lower v) [d].
Proof.
  intros Hd. apply eq_true_iff_eq. rewrite !bytes_eqb_eq. unfold lower. destruct v as [|c [|? ?]]; cbn [map]; [done| |done].
  destruct ((65 <=? c) && (c <=? 90)) eqn:E; split; intros [= ?]; f_equal; lia.
Qed.
Lemma decide_mem {A} (w : list Z) l (x y : A) : (if decide (w ∈ l) then x else y) = if existsb (bytes_eqb w) l then x else y.
Proof.
  assert (Hi : existsb (bytes_eqb w) l = true <-> w ∈ l).
  { rewrite existsb_exists, list_elem_of_In. setoid_rewrite bytes_eqb_eq. split; [by intros (? & ? & <-)|eauto]. }
  destruct (decide (w ∈ l)) as [Hw|Hw]; [rewrite (proj2 Hi Hw); reflexivity|]. destruct (existsb (bytes_eqb w) l); [|reflexivity].
  exfalso. apply Hw, Hi. reflexivity.
Qed.
Lemma yes_no_answer old v : yes_no old v = default old (answer v).
Proof.
  unfold yes_no, answer, strcaseeq. change (str "1") with [49]. change (str "0") with [48]. rewrite (one_digit v 49), (one_digit v 48), !decide_mem by lia.
  cbn [map existsb]. set (w := map lower v). clearbody w.
  assert (E : forall t, In t ["yes"; "true"; "on"; "no"; "false"; "off"]%string -> map lower (str t) = str t) by (intros t Ht; repeat (destruct Ht as [<-|Ht]; [reflexivity|]); destruct Ht).
  rewrite !E by (cbn; tauto). rewrite !orb_false_r, !orb_assoc. change (str "1") with [49]. change (str "0") with [48].
  by repeat (match goal with |- context [if ?b then _ else _] => destruct b end).
Qed.

Lemma meaning_of_known k m : meaning_of k = Some m <-> In (k, m) known_keys.
Proof.
  split.
  - unfold meaning_of. destruct (find _ known_keys) as [[k' m']|] eqn:E; [|done]. intros [= ->]. apply find_some in E as [Hi E].
    apply bytes_eqb_eq in E. cbn in E. by subst.
  - intros Hi. cbn in Hi. repeat (destruct Hi as [[= <- <-]|Hi]; [reflexivity|]). destruct Hi.
Qed.
Lemma known_names k m : In (k, m) known_keys -> In k key_names.
Proof. intros Hi. change key_names with (map fst known_keys). apply in_map_iff. by exists (k, m). Qed.
Ltac known_cases := repeat match goal with
  | Hk : In _ known_keys |- _ => cbn in Hk
  | Hk : _ \/ _ |- _ => destruct Hk as [Hk|Hk]
  | Hk : False |- _ => destruct Hk
  | Hk : (_, _) = (_, _) |- _ => injection Hk; clear Hk; intros; subst
  end.
Lemma meaning_inj k k' m : meaning_of k = Some m -> meaning_of k' = Some m -> k = k'.
Proof. rewrite !meaning_of_known. intros H1 H2. known_cases; (reflexivity || discriminate). Qed.
Lemma number_or_switch k k' f : meaning_of k = Some (MNum f) -> meaning_of k' = Some (MYesNo f) -> False.
Proof. rewrite !meaning_of_known. intros H1 H2. known_cases; discriminate. Qed.
Lemma not_named k : meaning_of k <> Some (MStr FCfgfile) /\ meaning_of k <> Some (MNum FConnectionOpened) /\ meaning_of k <> Some (MYesNo FConnectionOpened).
Proof. rewrite !meaning_of_known. split_and!; intros H1; known_cases; discriminate. Qed.

(** What a line that says [kv] makes of the settings. *)
Record sets (kv : option (list Z * list Z)) (st st' : settings) : Prop := {
  sets_str : forall key f, meaning_of key = Some (MStr f) ->
    st_str st' f = match kv with Some (k, v) => if decide (k = key) then Some v else st_str st f | None => st_str st f end;
  sets_num : forall key f, meaning_of key = Some (MNum f) ->
    st_int st' f = match kv with Some (k, v) => if decide (k = key) then i32 (fst (strtol v)) else st_int st f | None => st_int st f end;
  sets_yes : forall key f, meaning_of key = Some (MYesNo f) ->
    st_int st' f = match kv with Some (k, v) => if decide (k = key) then default (st_int st f) (answer v) else st_int st f | None => st_int st f end;
  sets_name : st_str st' FCfgfile = st_str st FCfgfile;
  sets_opened : st_int st' FConnectionOpened = st_int st FConnectionOpened
}.
Lemma line_sets line kv st : line_says line kv -> exists st', line_setting line st = Some st' /\ sets kv st st'.
Proof.
  intros Hs. pose proof (line_says_parse line kv Hs) as Hp. unfold line_setting. destruct kv as [[k v]|]; rewrite Hp; clear Hp.
  - destruct (meaning_of k) as [m|] eqn:Em; cbn [mbind option_bind]; eexists; (split; [reflexivity|]).
    2:{ split; try done; intros key f Hk; rewrite decide_False; [done|congruence|done|congruence|done|congruence]. }
    destruct m as [f|f|f]; split; cbn [put_str put_int st_str st_int]; try done; try (rewrite decide_False; [done|]; intros <-; by destruct (not_named k) as (? & ? & ?)).
    all: intros key f' Hk; try (rewrite <- yes_no_answer).
    all: destruct (decide (k = key)) as [<-|Hne]; [try congruence; rewrite Em in Hk; injection Hk as ->; by rewrite decide_True|].
    all: try (rewrite decide_False; [done|]; intros ->; first [by apply Hne, (meaning_inj k key _ Em) | by eapply number_or_switch]); try done.
  - inversion Hs as [|Hno Hbare]. replace (meaning_of (skip_space (cstr line))) with (@None meaning); [by exists st; split; [|split]|].
    destruct (meaning_of _) as [m|] eqn:Em; [|done]. apply meaning_of_known, known_names in Em. destruct (blanks_first (cstr line)) as (b & Hb & E & _).
    by destruct (Hbare b _ Hb Em).
Qed.
Lemma file_sets ls kvs st : Forall2 line_says ls kvs -> exists st', file_settings ls st = Some st' /\
  (forall key f, meaning_of key = Some (MStr f) -> st_str st' f = match value key kvs with Some v => Some v | None => st_str st f end) /\
  (forall key f, meaning_of key = Some (MNum f) -> st_int st' f = match value key kvs with Some v => i32 (fst (strtol v)) | None => st_int st f end) /\
  (forall key f, meaning_of key = Some (MYesNo f) -> st_int st' f = default (st_int st f) (switch key kvs)) /\
  st_str st' FCfgfile = st_str st FCfgfile /\ st_int st' FConnectionOpened = st_int st FConnectionOpened.
Proof.
  intros Hf. revert st. induction Hf as [|l kv ls kvs Hl _ IH]; intros st; [by exists st|]. destruct (line_sets l kv st Hl) as (st1 & E1 & [Hs Hn Hy Hc Ho]).
  destruct (IH st1) as (st' & E' & Hs' & Hn' & Hy' & Hc' & Ho'). exists st'. cbn [file_settings value switch]. rewrite E1. cbn [mbind option_bind].
  split; [done|]. rewrite Hc', Ho'. split_and!; [..|done|done]; intros key f Hk.
  - rewrite (Hs' key f Hk). destruct (value key kvs); [done|]. rewrite (Hs key f Hk). destruct kv as [[k v]|]; [|done]. by destruct (decide (k = key)).
  - rewrite (Hn' key f Hk). destruct (value key kvs); [done|]. rewrite (Hn key f Hk). destruct kv as [[k v]|]; [|done]. by destruct (decide (k = key)).
  - rewrite (Hy' key f Hk). destruct (switch key kvs); [done|]. rewrite (Hy key f Hk). destruct kv as [[k v]|]; [|done]. by destruct (decide (k = key)).
Qed.

(** ** Properties *)

Section Properties.
Context `{World} `{Allocator} `{!WorldOk} `{!AllocTotal}.

Lemma loaded_ext st st' o :
  (forall f, st_str st' f = st_str st f) -> (forall f, st_int st' f = st_int st f) -> loaded st o -> loaded st' o.
Proof.
  intros Hs Hi []. split; try done; [..|by intros f; rewrite Hi].
  - intros f v. rewrite Hs. apply ld_str0.
  - intros f. rewrite Hs. apply ld_base0.
Qed.
Lemma loaded_ready st ci m ip o :
  loaded (put_str FIp ip (with_dsn ci m st)) o -> is_Some (st_str st FExchange) ->
  is_Some (st_str st FRoutingKey) -> mq_ready o.
Proof.
  intros [Hs _ _ Hc Hk] [x Hx] [k Hkey].
  split; [done..|eexists; by eapply (Hs FIp)|eexists; by eapply (Hs FVhost)|eexists; by eapply (Hs FUsername)
    |eexists; by eapply (Hs FPassword)|eexists; by eapply (Hs FExchange)|eexists; by eapply (Hs FRoutingKey)].
Qed.

(** A configuration file that can be opened, in which every line with a
    known key has a value, is read to the end whatever else it says and
    whatever resolver and sockets answer: load_mq_config returns, no string is
    copied outside the buffer, no wild pointer is used, and the buffer is
    doubled only as often as the size of the file asks for. *)
Theorem load_mq_config_returns (port : Z) (cfgfile contents : list Z) (st : settings) (e : env)
    (errno : Z) (w : world) :
  no_nul cfgfile -> buffer_need cfgfile contents <= 2 ^ 25 ->
  file_settings (lines contents) (initial_settings cfgfile 0) = Some st ->
  (forall w, is_Some (fst (ext AmqpNewConnection w))) ->
  e_mq e = MqNull -> ext (Fopen cfgfile) (e_world e) = ((errno, Some contents), w) -> errno <> EACCES ->
  exists b e' o, load_mq_config port (Some cfgfile) e = (inr b, e') /\ e_mq e' = MqAt o.
Proof.
  intros Hn Hneed Hst Hconn Hmq Hopen Herr.
  destruct (load_spec False cfgfile contents st port e) as (b & e' & o & E & Ho & _);
    [by split|done|by exists errno, w|]. by exists b, e', o.
Qed.

Lemma loaded_str st o f : loaded st o -> mq_str o (get_str f o) = st_str st f.
Proof.
  intros Hl. destruct (st_str st f) as [v|] eqn:E; [by apply (ld_str _ _ Hl)|]. rewrite (ld_base _ _ Hl f E). by destruct f.
Qed.
(** The loaded options by the settings of the file. *)
Lemma load_settings port cfgfile contents st dsn m ci e errno w :
  no_nul cfgfile -> buffer_need cfgfile contents <= 2 ^ 25 ->
  file_settings (lines contents) (initial_settings cfgfile 0) = Some st ->
  st_str st FDsn = Some dsn -> amqp_parse_url (dsn ++ [0]) = (inr (AMQP_STATUS_OK, ci), m) ->
  (forall w, is_Some (fst (ext AmqpNewConnection w))) ->
  (forall c w, is_Some (fst (ext (AmqpTcpSocketNew c) w)) /\ is_Some (fst (ext (AmqpSslSocketNew c) w))) ->
  (forall host w, exists a l, fst (ext (GetHostByName host) w) = Some (a :: l)) ->
  (forall w, fst (ext Fseek w) = 0) ->
  e_mq e = MqNull -> ext (Fopen cfgfile) (e_world e) = ((errno, Some contents), w) -> errno <> EACCES ->
  exists e' o ip, load_mq_config port (Some cfgfile) e = (inr true, e') /\ e_mq e' = MqAt o /\
    loaded (put_str FIp ip (with_dsn ci m st)) o /\ resolves (ci_str m (ci_host ci)) ip.
Proof.
  intros Hn Hneed Hst Hdsn Hurl Hconn Hsock Hhost Hseek Hmq Hopen Herr.
  destruct (load_spec True cfgfile contents st port e) as (b & e' & o & E & _ & Hfine);
    [split; try done; intros _; by exists dsn, ci, m|done|by exists errno, w|].
  destruct (Hfine I) as (-> & o' & p & ci' & m' & ip & st' & Ho & Hl & st1 & dsn' & Hst1 & Hd & Hu & -> & Hip).
  destruct (file_settings_port (lines contents) (initial_settings cfgfile 0) (initial_settings cfgfile p) st)
    as (st2 & Hst2 & Hss & Hii); [split; [done|by intros []]|done|].
  rewrite Hst1 in Hst2. injection Hst2 as <-. rewrite <- Hss, Hdsn in Hd. injection Hd as <-.
  rewrite Hurl in Hu. injection Hu as <- <-. exists e', o', ip. split_and!; [done..| |done].
  eapply loaded_ext; [..|exact Hl]; intros f.
  - cbn. rewrite Hss. done.
  - cbn. destruct (decide (f = FSsl)); [done|]. destruct (decide (f = FPort)); [done|]. by apply Hii.
Qed.

(** C28: A configuration file of up to six megabytes whose lines say [kvs]
    (every file but one with a line that is just a known key, with neither '='
    nor newline) is loaded if the last connection URL in it parses, memory is not refused and
    resolver and sockets work: load_mq_config returns true.  Exchange, routing key, URL
    and CA certificate are then the values of the last lines with these keys,
    blanks around key and '=' and the newline taken off; a CA certificate the
    file does not name is NULL; the heartbeat is the number of its last line, or
    0; verify_peer and verify_hostname are the last yes or no of their lines, or
    no.  Host, virtual host, user, password, port and ssl are those of the URL,
    whatever lines with the keys port and enable_ssl say, and ip is the first
    address that the resolver gave for the host.  With an exchange and a routing
    key in the file the options are ready for the notifications. *)
Theorem load_mq_config_loads (port : Z) (cfgfile contents : list Z) (kvs : list (option (list Z * list Z))) (dsn m : list Z)
    (ci : connection_info) (e : env) (errno : Z) (w : world) :
  no_nul cfgfile -> buffer_need cfgfile contents <= 2 ^ 25 ->
  Forall2 line_says (lines contents) kvs ->
  value (str "connection") kvs = Some dsn -> amqp_parse_url (dsn ++ [0]) = (inr (AMQP_STATUS_OK, ci), m) ->
  (forall w, is_Some (fst (ext AmqpNewConnection w))) ->
  (forall c w, is_Some (fst (ext (AmqpTcpSocketNew c) w)) /\ is_Some (fst (ext (AmqpSslSocketNew c) w))) ->
  (forall host w, exists a l, fst (ext (GetHostByName host) w) = Some (a :: l)) ->
  (forall w, fst (ext Fseek w) = 0) ->
  e_mq e = MqNull -> ext (Fopen cfgfile) (e_world e) = ((errno, Some contents), w) -> errno <> EACCES ->
  exists e' o ip, load_mq_config port (Some cfgfile) e = (inr true, e') /\ e_mq e' = MqAt o /\
    mq_str o (mq_cfgfile o) = Some cfgfile /\ mq_str o (mq_dsn o) = Some dsn /\
    mq_str o (mq_exchange o) = value (str "exchange") kvs /\ mq_str o (mq_routing_key o) = value (str "routing_key") kvs /\
    mq_str o (mq_cacert o) = value (str "cacert") kvs /\ (value (str "cacert") kvs = None -> mq_cacert o = PNull) /\
    mq_str o (mq_host o) = Some (ci_str m (ci_host ci)) /\ mq_str o (mq_vhost o) = Some (ci_str m (ci_vhost ci)) /\
    mq_str o (mq_username o) = Some (ci_str m (ci_user ci)) /\ mq_str o (mq_password o) = Some (ci_str m (ci_password ci)) /\
    mq_port o = ci_port ci /\ mq_ssl o = ci_ssl ci /\ mq_connection_opened o = 0 /\
    mq_heartbeat o = match value (str "heartbeat") kvs with Some v => i32 (fst (strtol v)) | None => 0 end /\
    mq_verify_peer o = default 0 (switch (str "verify_peer") kvs) /\
    mq_verify_hostname o = default 0 (switch (str "verify_hostname") kvs) /\
    mq_str o (mq_ip o) = Some ip /\ (exists w l, fst (ext (GetHostByName (ci_str m (ci_host ci))) w) = Some (ip :: l)) /\
    (is_Some (value (str "exchange") kvs) -> is_Some (value (str "routing_key") kvs) -> mq_ready o).
Proof.
  intros Hn Hneed Hkvs Hdsn Hurl Hconn Hsock Hhost Hseek Hmq Hopen Herr.
  destruct (file_sets _ _ (initial_settings cfgfile 0) Hkvs) as (st & Hst & Hs & Hi & Hy & Hname & Hopened).
  assert (Hstr : forall key f, meaning_of key = Some (MStr f) -> f <> FCfgfile -> st_str st f = value key kvs).
  { intros key f Hk Hf. rewrite (Hs key f Hk). cbn. rewrite decide_False by done. by destruct (value key kvs). }
  destruct (load_settings port cfgfile contents st dsn m ci e errno w) as (e' & o & ip & E & Ho & Hl & Hip); try done; [by rewrite (Hstr (str "connection") FDsn)|].
  pose proof (fun f => loaded_str _ _ f Hl) as Hls. pose proof (ld_int _ _ Hl) as Hli.
  exists e', o, ip. split; [done|]. split; [done|]. split_and!.
  - etrans; [exact (Hls FCfgfile)|]. cbn [put_str put_int with_dsn st_str st_int]. by rewrite Hname.
  - etrans; [exact (Hls FDsn)|]. cbn [put_str put_int with_dsn st_str st_int]. by rewrite (Hstr (str "connection") FDsn).
  - etrans; [exact (Hls FExchange)|]. cbn [put_str put_int with_dsn st_str st_int]. by apply Hstr.
  - etrans; [exact (Hls FRoutingKey)|]. cbn [put_str put_int with_dsn st_str st_int]. by apply Hstr.
  - etrans; [exact (Hls FCacert)|]. cbn [put_str put_int with_dsn st_str st_int]. by apply Hstr.
  - intros Hc. apply (ld_base _ _ Hl FCacert). cbn. by rewrite (Hstr (str "cacert") FCacert).
  - exact (Hls FHost).
  - exact (Hls FVhost).
  - exact (Hls FUsername).
  - exact (Hls FPassword).
  - exact (Hli FPort).
  - exact (Hli FSsl).
  - etrans; [exact (Hli FConnectionOpened)|]. cbn [put_str put_int with_dsn st_str st_int]. by rewrite Hopened.
  - etrans; [exact (Hli FHeartbeat)|]. cbn [put_str put_int with_dsn st_str st_int]. by rewrite (Hi (str "heartbeat") FHeartbeat).
  - etrans; [exact (Hli FVerifyPeer)|]. cbn [put_str put_int with_dsn st_str st_int]. by rewrite (Hy (str "verify_peer") FVerifyPeer).
  - etrans; [exact (Hli FVerifyHostname)|]. cbn [put_str put_int with_dsn st_str st_int]. by rewrite (Hy (str "verify_hostname") FVerifyHostname).
  - exact (Hls FIp).
  - exact Hip.
  - rewrite <- (Hstr (str "exchange") FExchange), <- (Hstr (str "routing_key") FRoutingKey) by done. intros Hx Hy2. by eapply loaded_ready.
Qed.
End Properties.

(** ** Examples *)

(** A world in which every file has these contents. *)
Definition file_ext (contents : list Z) (A : Type) (c : call A) (w : ()) : A * () :=
  match c in call A return A * () with
  | Fopen _ => ((0, Some contents), w)
  | c => (demo_ext _ c, w)
  end.
Definition file_world (contents : list Z) : World :=
  {| world := (); ext := file_ext contents; dir_left := fun _ _ => O |}.
Lemma file_world_ok contents : @WorldOk (file_world contents).
Proof.
  split; simpl; try done. intros A c w.
  destruct c; simpl; try done; try (by zlen_facts; lia).
  - intros. rewrite zlen_zfill; lia.
  - unfold zlen, ztake. rewrite length_take. intros. simpl. lia.
  - by repeat constructor.
Qed.
Definition demo_cfg_heap : Allocator :=
  {| heap_alloc := fun n => if n <=? 2 ^ 38 then Some 4096 else None; page_size := 4096 |}.
Lemma demo_cfg_heap_total : @AllocTotal demo_cfg_heap.
Proof.
  intros n Hn. cbn. unfold SSHBUF_SIZE_MAX in Hn. rewrite (proj2 (Z.leb_le n (2 ^ 38))) by lia. eauto.
Qed.

(** A file that does not fit 100 bytes; the second exchange counts, and the
    port of the URL. *)
Definition demo_dsn : list Z := url_of true (str "ann") (str "p@ss") (str "mq.org") 5671 (str "/ega").
Definition demo_contents : list Z :=
  str "# broker" ++ [10] ++ str " exchange = one" ++ [10] ++ str "routing_key=files.inbox" ++ [10] ++
  str "connection = " ++ demo_dsn ++ [10] ++ str "port = 1" ++ [10] ++ str "verify_peer = YES" ++ [10] ++
  str "exchange=cega" ++ [10].
Definition demo_settings : settings :=
  default (default_settings 0) (file_settings (lines demo_contents) (initial_settings MQ_CFGFILE 0)).

Definition null_env (contents : list Z) : @env (file_world contents) :=
  @mk_env (file_world contents) MqNull tt [].

Lemma load_mq_config_returns_witness :
  exists b e' o, @load_mq_config (file_world demo_contents) demo_cfg_heap 7 (Some MQ_CFGFILE)
    (null_env demo_contents) = (inr b, e') /\ e_mq e' = MqAt o.
Proof.
  refine (@load_mq_config_returns (file_world demo_contents) demo_cfg_heap (file_world_ok demo_contents)
    demo_cfg_heap_total 7 MQ_CFGFILE demo_contents demo_settings (null_env demo_contents) 0 tt _ _ _ _ _ _ _).
  - by repeat constructor.
  - vm_compute. congruence.
  - vm_compute. reflexivity.
  - by eexists.
  - reflexivity.
  - reflexivity.
  - done.
Defined.

Definition demo_kvs : list (option (list Z * list Z)) :=
  [None; Some (str "exchange", str "one"); Some (str "routing_key", str "files.inbox"); Some (str "connection", demo_dsn);
   Some (str "port", str "1"); Some (str "verify_peer", str "YES"); Some (str "exchange", str "cega")].
Lemma no_equals l : forallb (fun c => negb (c =? 61)) l = true -> Forall (fun c => c <> 61) l.
Proof. intros Hl. apply Forall_forall. intros c Hc ->. rewrite forallb_forall in Hl. specialize (Hl 61 (proj1 (list_elem_of_In _ _) Hc)). done. Qed.
Lemma demo_set b1 k b2 b3 v : forallb isspace b1 = true -> forallb isspace b2 = true -> forallb isspace b3 = true ->
  forallb (fun c => negb (c =? 61)) k = true -> not_blank (head k) -> not_blank (last k) -> not_blank (head v) ->
  cstr (b1 ++ k ++ b2 ++ 61 :: b3 ++ v ++ [10]) = b1 ++ k ++ b2 ++ 61 :: b3 ++ v ++ [10] ->
  line_says (b1 ++ k ++ b2 ++ 61 :: b3 ++ v ++ [10]) (Some (k, v)).
Proof.
  assert (Hb : forall b, forallb isspace b = true -> blanks b) by (intros b Hb; apply Forall_forall; intros c Hc; rewrite forallb_forall in Hb; apply Hb; by apply list_elem_of_In).
  intros. eapply (LS_set _ b1 k b2 b3 v [10]); auto. by apply no_equals.
Qed.
Lemma demo_says : Forall2 line_says (lines demo_contents) demo_kvs.
Proof.
  assert (E : lines demo_contents =
    [str "# broker" ++ [10]; [32] ++ str "exchange" ++ [32] ++ 61 :: [32] ++ str "one" ++ [10]; [] ++ str "routing_key" ++ [] ++ 61 :: [] ++ str "files.inbox" ++ [10];
     [] ++ str "connection" ++ [32] ++ 61 :: [32] ++ demo_dsn ++ [10]; [] ++ str "port" ++ [32] ++ 61 :: [32] ++ str "1" ++ [10];
     [] ++ str "verify_peer" ++ [32] ++ 61 :: [32] ++ str "YES" ++ [10]; [] ++ str "exchange" ++ [] ++ 61 :: [] ++ str "cega" ++ [10]]) by (vm_compute; reflexivity).
  rewrite E. clear E. apply Forall2_cons. split.
  - apply LS_nothing; [apply no_equals; vm_compute; reflexivity|]. intros b k Hb Hk Ek. apply (f_equal skip_space) in Ek. rewrite skip_blanks in Ek by done.
    cbn [map key_names In] in Hk. repeat (destruct Hk as [<-|Hk]; [vm_compute in Ek; discriminate|]). destruct Hk.
  - repeat (apply Forall2_cons; split; [apply demo_set; vm_compute; reflexivity || exact I|]). apply Forall2_nil_2.
Qed.

Lemma load_mq_config_loads_witness :
  exists e' o, @load_mq_config (file_world demo_contents) demo_cfg_heap 7 (Some MQ_CFGFILE)
      (null_env demo_contents) = (inr true, e') /\ e_mq e' = MqAt o /\
    mq_str o (mq_exchange o) = Some (str "cega") /\ mq_port o = 5671 /\ mq_verify_peer o = 1 /\ mq_cacert o = PNull /\ mq_ready o.
Proof.
  destruct (@load_mq_config_loads (file_world demo_contents) demo_cfg_heap (file_world_ok demo_contents)
    demo_cfg_heap_total 7 MQ_CFGFILE demo_contents demo_kvs demo_dsn (snd (amqp_parse_url (demo_dsn ++ [0])))
    (match fst (amqp_parse_url (demo_dsn ++ [0])) with inr (_, ci) => ci | inl _ => amqp_default_connection_info end) (null_env demo_contents) 0 tt)
    as (e' & o & ip & E & Ho & _ & _ & Hx & _ & _ & Hca & _ & _ & _ & _ & Hport & _ & _ & _ & Hvp & _ & _ & _ & Hr).
  - by repeat constructor.
  - vm_compute. congruence.
  - exact demo_says.
  - vm_compute. reflexivity.
  - vm_compute. reflexivity.
  - by eexists.
  - intros c w. split; by eexists.
  - intros host w. by eexists _, _.
  - done.
  - reflexivity.
  - reflexivity.
  - done.
  - exists e', o. split; [exact E|]. split; [exact Ho|]. split; [rewrite Hx; vm_compute; reflexivity|]. split; [rewrite Hport; vm_compute; reflexivity|].
    split; [rewrite Hvp; vm_compute; reflexivity|]. split; [apply Hca; vm_compute; reflexivity|]. apply Hr; eexists; vm_compute; reflexivity.
Defined.

(** The result of loading a file, and whether a notification then publishes. *)
Definition load_file (contents : list Z) : (exit_reason + bool) * @env (file_world contents) :=
  @load_mq_config (file_world contents) demo_cfg_heap 7 None (null_env contents).
Definition load_result (contents : list Z) : exit_reason + bool := fst (load_file contents).
Definition first_notice (contents : list Z) : exit_reason + Z :=
  fst (@mq_send (file_world contents) demo_jsonc demo_cfg_heap demo_notice (snd (load_file contents))).

(** Load_mq_config looks only for results below 0 of readconfig, whose
    errors, no connection line, a URL that does not parse, a host without
    address, are positive: it returns true for files that give no usable
    connection, and each later notification returns 1 and is lost. *)
Theorem load_mq_config_accepts_unusable_files :
  load_result [] = inr true /\ first_notice [] = inr 1 /\
  load_result (str "connection = http://mq/") = inr true /\
  first_notice (str "connection = http://mq/") = inr 1.
Proof. split_and!; vm_compute; reflexivity. Qed.

(** A last line that is just a known key, with neither '=' nor newline,
    ends the process: its value is a null pointer. *)
Theorem load_mq_config_crashes_without_value :
  map load_result [str "exchange"; str "heartbeat"; str "verify_peer"] =
  [inl Segv; inl Segv; inl Segv].
Proof. vm_compute. reflexivity. Qed.
