(* ===== verification/Handles.v ===== *)
(** * The handle table of sftp-server.c

    Open files and directories are slots of an array; unused slots form a
    list through [next_unused], headed by [first_unused_handle].  A handle
    travels to the client as four bytes.  A slot outside the array is a crash
    ([Segv]); a failed allocation is fatal(). *)

From stdpp Require Import sets relations.
From S2P Require Import Prelude Sshbuf World MqNotify.

Inductive handle_use := HANDLE_UNUSED | HANDLE_DIR | HANDLE_FILE.
#[global] Instance handle_use_eq_dec : EqDecision handle_use.
Proof. solve_decision. Defined.

Record Handle `{Sha256} := mk_handle {
  h_use : handle_use;
  h_dirp : option Z;
  h_fd : Z;
  h_flags : Z;
  h_name : list Z;
  h_bytes_read : Z;
  h_bytes_write : Z;
  h_next_unused : Z;
  h_md : sha_ctx
}.

Record htab `{Sha256} := mk_htab { handles : list Handle; first_unused_handle : Z }.

Arguments mk_handle {_}.
Arguments mk_htab {_}.

(** sizeof(Handle) on x86-64, with its SHA256_CTX of 112 bytes. *)
Definition sizeof_Handle : Z := 168.

Definition get_u32 (p : list Z) : Z :=
  let b i := Z.land (znth p i) 255 in
  Z.lor (Z.lor (Z.lor (Z.shiftl (b 0) 24) (Z.shiftl (b 1) 16)) (Z.shiftl (b 2) 8)) (b 3).
Definition put_u32 (v : Z) : list Z :=
  let v := u32 v in
  [Z.land (Z.shiftr v 24) 255; Z.land (Z.shiftr v 16) 255; Z.land (Z.shiftr v 8) 255; Z.land v 255].

Section Handles.
Context `{Allocator} `{Sha256}.

Abbreviation M := (SE htab exit_reason).

Definition num_handles (t : htab) : Z := zlen (handles t).

(** handles[i] *)
Definition slot (t : htab) (i : Z) : option Handle :=
  if 0 <=? i then handles t !! Z.to_nat i else None.
Definition get_slot (i : Z) : M Handle := fun t =>
  match slot t i with Some h => (inr h, t) | None => (inl Segv, t) end.
Definition set_slot (i : Z) (h : Handle) : M () := fun t =>
  match slot t i with
  | Some _ => (inr tt, mk_htab (<[Z.to_nat i := h]> (handles t)) (first_unused_handle t))
  | None => (inl Segv, t)
  end.
Definition set_first (i : Z) : M () := modify (fun t => mk_htab (handles t) i).

(** xmalloc, xreallocarray, xstrdup: fatal() when there is no memory. *)
Definition xalloc (n : Z) : M () :=
  match heap_alloc n with Some _ => mret tt | None => throw (Fatal OutOfMemory) end.

(** A slot fresh from reallocarray: its contents are indeterminate. *)
Definition raw_handle : Handle := mk_handle HANDLE_UNUSED None 0 0 [] 0 0 0 indet_ctx.

Definition handle_unused (i : Z) : M () :=
  h ← get_slot i;
  first ← gets first_unused_handle;
  _ ← set_slot i (mk_handle HANDLE_UNUSED (h_dirp h) (h_fd h) (h_flags h) (h_name h)
                    (h_bytes_read h) (h_bytes_write h) first (h_md h));
  set_first i.

(** The body of handle_new once a slot is on the free list. *)
Definition take_slot (use : handle_use) (name : list Z) (fd flags : Z) (dirp : option Z) : M Z :=
  i ← gets first_unused_handle;
  h ← get_slot i;
  _ ← set_first (h_next_unused h);
  _ ← xalloc (zlen name + 1);
  _ ← set_slot i (mk_handle use dirp fd flags name 0 0 (h_next_unused h) (h_md h));
  mret i.

Definition handle_new (use : handle_use) (name : list Z) (fd flags : Z) (dirp : option Z) : M Z :=
  t ← gets id;
  if first_unused_handle t =? -1 then
    if u32 (num_handles t + 1) <=? num_handles t then mret (-1)
    else
      _ ← xalloc (sizeof_Handle * (num_handles t + 1));
      _ ← modify (fun t => mk_htab (handles t ++ [raw_handle]) (first_unused_handle t));
      _ ← handle_unused (i32 (num_handles t));
      take_slot use name fd flags dirp
  else take_slot use name fd flags dirp.

Definition handle_is_ok (t : htab) (i : Z) (type : handle_use) : bool :=
  (0 <=? i) && (i <? num_handles t) &&
  match slot t i with Some h => bool_decide (h_use h = type) | None => false end.

Definition handle_to_string (handle : Z) : list Z := put_u32 handle.

Definition handle_from_string (t : htab) (handle : list Z) : Z :=
  if negb (zlen handle =? 4) then -1
  else
    let val := i32 (get_u32 handle) in
    if handle_is_ok t val HANDLE_FILE || handle_is_ok t val HANDLE_DIR then val else -1.

Definition handle_to_name (t : htab) (handle : Z) : option (list Z) :=
  if handle_is_ok t handle HANDLE_DIR || handle_is_ok t handle HANDLE_FILE
  then h ← slot t handle; Some (h_name h) else None.
Definition handle_to_dir (t : htab) (handle : Z) : option Z :=
  if handle_is_ok t handle HANDLE_DIR then h ← slot t handle; h_dirp h else None.
Definition handle_to_fd (t : htab) (handle : Z) : Z :=
  if handle_is_ok t handle HANDLE_FILE
  then match slot t handle with Some h => h_fd h | None => -1 end else -1.
Definition handle_to_flags (t : htab) (handle : Z) : Z :=
  if handle_is_ok t handle HANDLE_FILE
  then match slot t handle with Some h => h_flags h | None => 0 end else 0.
Definition handle_bytes_read (t : htab) (handle : Z) : Z :=
  if handle_is_ok t handle HANDLE_FILE
  then match slot t handle with Some h => h_bytes_read h | None => 0 end else 0.
Definition handle_bytes_write (t : htab) (handle : Z) : Z :=
  if handle_is_ok t handle HANDLE_FILE
  then match slot t handle with Some h => h_bytes_write h | None => 0 end else 0.

(** handles[handle].field = ...; *)
Definition update_slot (i : Z) (f : Handle -> Handle) : M () :=
  h ← get_slot i; set_slot i (f h).

Definition handle_update_read (handle bytes : Z) : M () :=
  t ← gets id;
  when (handle_is_ok t handle HANDLE_FILE && (0 <? bytes))
    (update_slot handle (fun h =>
       mk_handle (h_use h) (h_dirp h) (h_fd h) (h_flags h) (h_name h)
         (u64 (h_bytes_read h + bytes)) (h_bytes_write h) (h_next_unused h) (h_md h))).
Definition handle_update_write (handle bytes : Z) : M () :=
  t ← gets id;
  when (handle_is_ok t handle HANDLE_FILE && (0 <? bytes))
    (update_slot handle (fun h =>
       mk_handle (h_use h) (h_dirp h) (h_fd h) (h_flags h) (h_name h)
         (h_bytes_read h) (u64 (h_bytes_write h + bytes)) (h_next_unused h) (h_md h))).
Definition set_md (md : sha_ctx) (h : Handle) : Handle :=
  mk_handle (h_use h) (h_dirp h) (h_fd h) (h_flags h) (h_name h)
    (h_bytes_read h) (h_bytes_write h) (h_next_unused h) md.
Definition handle_update_checksum (handle : Z) (data : list Z) (len : Z) : M () :=
  t ← gets id;
  when (handle_is_ok t handle HANDLE_FILE && (0 <? len))
    (update_slot handle (fun h => set_md (snd (checksum_add (h_md h) (ztake len data))) h)).
End Handles.

(** ** Invariant *)

(** A heap of at most 2^38 bytes, so that the table stays below 2^31 slots
    and a slot number fits an int. *)
Class HeapBounded `{Allocator} : Prop := heap_bounded : forall n, 2 ^ 38 < n -> heap_alloc n = None.

Section Invariant.
Context `{Sha256}.

(** The free list from slot [i]. *)
Inductive chain (t : htab) : Z -> list Z -> Prop :=
| chain_nil : chain t (-1) []
| chain_cons i h l :
    slot t i = Some h -> h_use h = HANDLE_UNUSED -> chain t (h_next_unused h) l -> chain t i (i :: l).

(** The free list is acyclic and holds every unused slot. *)
Record htab_inv (t : htab) : Prop := {
  inv_free : exists free, chain t (first_unused_handle t) free /\ NoDup free /\
    forall i h, slot t i = Some h -> h_use h = HANDLE_UNUSED -> i ∈ free;
  inv_num : num_handles t < 2 ^ 31
}.

(** The table as a map: the handles in use. *)
Definition live (t : htab) (i : Z) : option Handle :=
  h ← slot t i; if decide (h_use h = HANDLE_UNUSED) then None else Some h.

Lemma slot_range t i h : slot t i = Some h -> 0 <= i < num_handles t.
Proof.
  unfold slot, num_handles, zlen. destruct (Z.leb_spec 0 i); [|done].
  intros Hi. apply lookup_lt_Some in Hi. lia.
Qed.
Lemma slot_some t i : 0 <= i < num_handles t -> is_Some (slot t i).
Proof.
  intros. unfold slot. rewrite (proj2 (Z.leb_le 0 i)) by lia. apply lookup_lt_is_Some.
  unfold num_handles, zlen in *. lia.
Qed.
Lemma slot_insert t i j h h' f :
  slot t i = Some h' ->
  slot (mk_htab (<[Z.to_nat i:=h]> (handles t)) f) j = if decide (j = i) then Some h else slot t j.
Proof.
  intros Hi. pose proof (slot_range _ _ _ Hi) as [? ?]. unfold slot, num_handles, zlen in *. cbn.
  destruct (decide (j = i)) as [->|Hne].
  - rewrite (proj2 (Z.leb_le 0 i)) by lia. apply list_lookup_insert_eq. lia.
  - destruct (Z.leb_spec 0 j); [|done]. apply list_lookup_insert_ne. lia.
Qed.
Lemma slot_first t f : slot (mk_htab (handles t) f) = slot t.
Proof. done. Qed.
Lemma num_insert t i h f :
  num_handles (mk_htab (<[Z.to_nat i:=h]> (handles t)) f) = num_handles t.
Proof. unfold num_handles, zlen. cbn. by rewrite length_insert. Qed.

Lemma chain_ext t t' i l :
  chain t i l -> (forall j, j ∈ l -> slot t' j = slot t j) -> chain t' i l.
Proof.
  intros Hc. induction Hc as [|i h l Hs Hu Hc IH]; intros Heq; [constructor|].
  econstructor; [rewrite Heq by left; done|done|]. apply IH. intros j Hj. apply Heq. by right.
Qed.
Lemma chain_elem t i l : chain t i l -> forall j, j ∈ l ->
  exists h, slot t j = Some h /\ h_use h = HANDLE_UNUSED.
Proof.
  induction 1 as [|i h l Hs Hu Hc IH]; intros j Hj; [by apply not_elem_of_nil in Hj|].
  apply elem_of_cons in Hj as [->|Hj]; eauto.
Qed.
Lemma chain_first t i l : chain t i l -> i <> -1 -> exists l', l = i :: l'.
Proof. inversion 1; [done|eauto]. Qed.

(** Replacing a slot in use by one in use, with the same link, keeps the
    invariant. *)
Lemma inv_update t i h h' :
  htab_inv t -> slot t i = Some h -> h_use h <> HANDLE_UNUSED -> h_use h' <> HANDLE_UNUSED ->
  htab_inv (mk_htab (<[Z.to_nat i:=h']> (handles t)) (first_unused_handle t)).
Proof.
  intros [(free & Hc & Hnd & Hall) Hn] Hi Hu Hu'. split; [|by rewrite num_insert].
  exists free. split_and!; [|done|].
  - apply (chain_ext t); [done|]. intros j Hj. rewrite (slot_insert _ _ _ _ h) by done.
    case_decide as Hji; [|done]. subst. destruct (chain_elem _ _ _ Hc _ Hj) as (h0 & ? & ?). congruence.
  - intros j h0. rewrite (slot_insert _ _ _ _ h) by done. case_decide; [|apply Hall].
    intros [= <-]. done.
Qed.

(** So does any update that keeps the use and the link of a slot. *)
Lemma chain_update t i h h' first l j :
  slot t i = Some h -> h_use h' = h_use h -> h_next_unused h' = h_next_unused h ->
  chain t j l -> chain (mk_htab (<[Z.to_nat i:=h']> (handles t)) first) j l.
Proof.
  intros Hi Hu Hn. induction 1 as [|j hj l Hs Huj Hc IH]; [constructor|].
  destruct (decide (j = i)) as [->|Hne].
  - rewrite Hi in Hs. injection Hs as <-. econstructor.
    + by rewrite (slot_insert _ _ _ _ h), decide_True.
    + congruence.
    + by rewrite Hn.
  - econstructor; [by rewrite (slot_insert _ _ _ _ h), decide_False|done..].
Qed.
Lemma update_slot_inv t i f :
  (forall h, h_use (f h) = h_use h /\ h_next_unused (f h) = h_next_unused h) -> htab_inv t ->
  match update_slot i f t with
  | (inl e, _) => e = Segv
  | (inr _, t') => htab_inv t'
  end.
Proof.
  intros Hf [(free & Hc & Hnd & Hall) Hn]. unfold update_slot, get_slot, set_slot. unfold_SE.
  destruct (slot t i) as [h|] eqn:Hi; cbn; [|done]. rewrite Hi. destruct (Hf h) as [Hu Hx].
  split; [|by rewrite num_insert]. exists free. split_and!; [by eapply chain_update|done|].
  intros j hj. rewrite (slot_insert _ _ _ _ h) by done. case_decide as Hj; [|apply Hall].
  intros [= <-] Huj. subst j. apply (Hall i h); congruence.
Qed.

(** handle_unused puts a slot that is not on the free list at its head. *)
Lemma handle_unused_gen t i h free :
  chain t (first_unused_handle t) free -> NoDup free -> i ∉ free -> slot t i = Some h ->
  (forall j h, j <> i -> slot t j = Some h -> h_use h = HANDLE_UNUSED -> j ∈ free) ->
  num_handles t < 2 ^ 31 ->
  exists t', handle_unused i t = (inr tt, t') /\ htab_inv t' /\ num_handles t' = num_handles t /\
    first_unused_handle t' = i /\ live t' i = None /\ forall j, j <> i -> slot t' j = slot t j.
Proof.
  intros Hc Hnd Hni Hi Hall Hn.
  unfold handle_unused, get_slot, set_slot, set_first. unfold_SE. rewrite Hi. cbn. rewrite Hi. cbn.
  set (h0 := mk_handle HANDLE_UNUSED _ _ _ _ _ _ _ _).
  assert (Hsl : forall j f, slot (mk_htab (<[Z.to_nat i:=h0]> (handles t)) f) j =
    if decide (j = i) then Some h0 else slot t j) by (intros; by apply (slot_insert _ _ _ _ h)).
  eexists. split; [done|]. split_and!.
  - split; [|by rewrite num_insert]. exists (i :: free). cbn. split_and!.
    + econstructor; [by rewrite Hsl, decide_True by done|done|]. cbn.
      apply (chain_ext t); [done|]. intros j Hj. rewrite Hsl, decide_False; [done|]. by intros ->.
    + by constructor.
    + intros j h1. rewrite Hsl. case_decide; [subst; intros; left|].
      intros ? ?. right. by apply (Hall j h1).
  - apply num_insert.
  - done.
  - unfold live. rewrite Hsl, decide_True by done. done.
  - intros j Hj. by rewrite Hsl, decide_False.
Qed.
Lemma handle_unused_spec t i h :
  htab_inv t -> slot t i = Some h -> h_use h <> HANDLE_UNUSED ->
  exists t', handle_unused i t = (inr tt, t') /\ htab_inv t' /\ num_handles t' = num_handles t /\
    first_unused_handle t' = i /\ live t' i = None /\ forall j, j <> i -> slot t' j = slot t j.
Proof.
  intros [(free & Hc & Hnd & Hall) Hn] Hi Hu. apply (handle_unused_gen t i h free); eauto.
  intros Hin. destruct (chain_elem _ _ _ Hc _ Hin) as (? & ? & ?). congruence.
Qed.

Lemma live_slot t i h : live t i = Some h <-> slot t i = Some h /\ h_use h <> HANDLE_UNUSED.
Proof.
  unfold live. destruct (slot t i) as [h'|]; cbn; [|by split; [|intros []]].
  case_decide; split; try done; [intros [[= ->] ?]|intros [= ->]|intros [[= ->] ?]]; done.
Qed.
Lemma live_ext t t' i : slot t' i = slot t i -> live t' i = live t i.
Proof. unfold live. by intros ->. Qed.

(** What handle_new leaves: handle [i] is new, the others are as before. *)
Definition allocated (t t' : htab) (i : Z) (use : handle_use) (name : list Z) (fd flags : Z)
    (dirp : option Z) : Prop :=
  htab_inv t' /\ live t i = None /\
  (exists next md, live t' i = Some (mk_handle use dirp fd flags name 0 0 next md)) /\
  forall j, j <> i -> live t' j = live t j.

Lemma take_slot_spec `{Allocator} use name fd flags dirp t :
  htab_inv t -> first_unused_handle t <> -1 -> use <> HANDLE_UNUSED ->
  match take_slot use name fd flags dirp t with
  | (inl e, _) => e = Fatal OutOfMemory
  | (inr i, t') => allocated t t' i use name fd flags dirp /\ num_handles t' = num_handles t /\
      i = first_unused_handle t
  end.
Proof.
  intros [(free & Hc & Hnd & Hall) Hn] Hf Huse. destruct (chain_first _ _ _ Hc Hf) as [l ->].
  inversion Hc as [|i h l' Hs Hu Hc' Hi Hl]; subst.
  unfold take_slot, get_slot, set_first, xalloc, set_slot. unfold_SE.
  rewrite Hs. cbn. destruct (heap_alloc _); cbn; [|done]. rewrite slot_first, Hs. cbn.
  set (h0 := mk_handle use _ _ _ _ _ _ _ _). set (i := first_unused_handle t) in *.
  assert (Hsl : forall j f, slot (mk_htab (<[Z.to_nat i:=h0]> (handles t)) f) j =
    if decide (j = i) then Some h0 else slot t j) by (intros; by apply (slot_insert _ _ _ _ h)).
  apply NoDup_cons in Hnd as [Hni Hnd]. split_and!; [|apply num_insert|done].
  unfold allocated. split_and!.
  - split; [|by rewrite num_insert]. exists l. cbn. split_and!; [|done|].
    + apply (chain_ext t); [done|]. intros j Hj. rewrite Hsl, decide_False; [done|]. by intros ->.
    + intros j h1. rewrite Hsl. case_decide as Hji; [by intros [= <-]|].
      intros Hj Hju. specialize (Hall j h1 Hj Hju). apply elem_of_cons in Hall as [|]; done.
  - unfold live. rewrite Hs. cbn. by rewrite decide_True.
  - eexists _, _. apply live_slot. rewrite Hsl, decide_True by done. done.
  - intros j Hj. apply live_ext. by rewrite Hsl, decide_False.
Qed.

Lemma slot_snoc t h f j :
  slot (mk_htab (handles t ++ [h]) f) j =
  if decide (j = num_handles t) then Some h else slot t j.
Proof.
  unfold slot, num_handles, zlen. cbn. destruct (Z.leb_spec 0 j).
  2:{ rewrite decide_False by lia. done. }
  case_decide as Hj.
  - rewrite lookup_app_r by lia. replace (_ - _)%nat with 0%nat by lia. done.
  - destruct (decide (Z.to_nat j < length (handles t))%nat).
    + by rewrite lookup_app_l by lia.
    + rewrite lookup_ge_None_2; [|rewrite length_app; cbn; lia]. by rewrite lookup_ge_None_2 by lia.
Qed.

Lemma handle_new_spec `{HeapBounded} use name fd flags dirp t :
  htab_inv t -> use <> HANDLE_UNUSED ->
  match handle_new use name fd flags dirp t with
  | (inl e, _) => e = Fatal OutOfMemory
  | (inr i, t') => allocated t t' i use name fd flags dirp /\
      (num_handles t' <> num_handles t ->
       num_handles t' = num_handles t + 1 /\ forall j, 0 <= j < num_handles t -> is_Some (live t j))
  end.
Proof.
  intros Hinv Huse. pose proof Hinv as [(free & Hc & Hnd & Hall) Hn].
  unfold handle_new. unfold_SE. cbn. pose proof (zlen_nonneg (handles t)) as Hz.
  fold (num_handles t) in Hz. destruct (Z.eqb_spec (first_unused_handle t) (-1)) as [Hf|Hf].
  2:{ pose proof (take_slot_spec use name fd flags dirp t Hinv Hf Huse) as Ht.
      destruct (take_slot _ _ _ _ _ t) as [[e|i] t']; [done|].
      destruct Ht as (? & ? & _). split; [done|]. congruence. }
  rewrite u32_id by lia. rewrite (proj2 (Z.leb_gt _ _)) by lia.
  unfold xalloc. destruct (heap_alloc _) as [p|] eqn:Ea; cbn; [|done].
  assert (Hnum : num_handles t + 1 < 2 ^ 31).
  { destruct (decide (num_handles t + 1 < 2 ^ 31)) as [|Hge]; [done|].
    rewrite heap_bounded in Ea; [done|]. unfold sizeof_Handle. lia. }
  rewrite i32_id by lia.
  set (t1 := mk_htab (handles t ++ [raw_handle]) (first_unused_handle t)).
  rewrite Hf in Hc. inversion Hc as [|? ? ? Hbad]; subst; [|apply slot_range in Hbad; lia].
  destruct (handle_unused_gen t1 (num_handles t) raw_handle []) as
    (t2 & -> & Hinv2 & Hnum2 & Hf2 & Hl2 & Hs2).
  - unfold t1. cbn. rewrite Hf. constructor.
  - constructor.
  - apply not_elem_of_nil.
  - unfold t1. rewrite slot_snoc, decide_True by done. done.
  - intros j h Hj. unfold t1. rewrite slot_snoc, decide_False by done. intros Hs Hu.
    by specialize (Hall j h Hs Hu).
  - unfold t1, num_handles. cbn. rewrite zlen_app. apply Hnum.
  - assert (Hlive : forall j, live t2 j = live t j).
    { intros j. destruct (decide (j = num_handles t)) as [->|Hj].
      - rewrite Hl2. unfold live. destruct (slot t (num_handles t)) eqn:Es; [|done].
        apply slot_range in Es. lia.
      - apply live_ext. rewrite Hs2 by done. unfold t1. by rewrite slot_snoc, decide_False. }
    pose proof (take_slot_spec use name fd flags dirp t2 Hinv2) as Ht.
    destruct (take_slot _ _ _ _ _ t2) as [[e|i] t']; [apply Ht; [lia|done]|].
    destruct Ht as ((Hi' & Hn' & Hl' & Ho') & Hnum' & Hi); [lia|done|].
    split.
    { unfold allocated. split_and!; [done|by rewrite <- Hlive|done|].
      intros j Hj. by rewrite Ho', Hlive. }
    intros _. split.
    { rewrite Hnum', Hnum2. unfold t1, num_handles. cbn. rewrite zlen_app. done. }
    intros j Hj. destruct (slot_some t j Hj) as [h Hs]. exists h. apply live_slot. split; [done|].
    intros Hu. by apply (not_elem_of_nil j), (Hall j h).
Qed.

(** An update of a live handle that keeps it in use. *)
Lemma update_slot_spec t i h f :
  htab_inv t -> live t i = Some h -> h_use (f h) <> HANDLE_UNUSED ->
  exists t', update_slot i f t = (inr tt, t') /\ htab_inv t' /\ live t' i = Some (f h) /\
    num_handles t' = num_handles t /\ forall j, j <> i -> live t' j = live t j.
Proof.
  intros Hinv Hl Hu. apply live_slot in Hl as [Hs Hu0].
  unfold update_slot, get_slot, set_slot. unfold_SE. rewrite Hs. cbn. rewrite Hs.
  eexists. split; [done|]. split_and!.
  - by apply (inv_update t i h).
  - apply live_slot. rewrite (slot_insert _ _ _ _ h), decide_True by done. done.
  - apply num_insert.
  - intros j Hj. apply live_ext. by rewrite (slot_insert _ _ _ _ h), decide_False.
Qed.

(** handle_is_ok is membership in the map, with the right kind. *)
Lemma handle_is_ok_live t i type :
  type <> HANDLE_UNUSED ->
  handle_is_ok t i type = match live t i with Some h => bool_decide (h_use h = type) | None => false end.
Proof.
  intros Ht. unfold handle_is_ok, live. destruct (slot t i) as [h|] eqn:Es; cbn.
  - apply slot_range in Es. rewrite (proj2 (Z.leb_le _ _)), (proj2 (Z.ltb_lt _ _)) by lia. cbn.
    case_decide; [|done]. rewrite bool_decide_eq_false_2; congruence.
  - by rewrite andb_false_r.
Qed.
End Invariant.

Lemma get_u32_PEEK p : get_u32 p = PEEK_U32 p.
Proof. unfold get_u32, PEEK_U32, u_char_at, u8. by rewrite !land_255, <- !Z.lor_assoc. Qed.
Lemma put_u32_POKE v : put_u32 v = POKE_U32 v.
Proof. done. Qed.
Lemma get_put_u32 v : get_u32 (put_u32 v) = u32 v.
Proof.
  rewrite get_u32_PEEK, put_u32_POKE. by rewrite <- (app_nil_r (POKE_U32 _)), PEEK_POKE_U32.
Qed.
Lemma be_bytes_val l : Forall is_u8 l -> be_bytes (length l) (be_val 0 l) = l.
Proof.
  induction l as [|b l IH] using rev_ind; [done|]. rewrite Forall_app, Forall_singleton.
  intros [Hl [? ?]]. rewrite length_app, be_val_snoc. cbn [length]. rewrite Nat.add_1_r. cbn [be_bytes].
  rewrite Z.div_add_l, Z.div_small, Z.add_0_r by lia.
  rewrite (Z.add_comm (_ * 256)), Z.mod_add, Z.mod_small, IH by (done || lia). done.
Qed.
Lemma put_get_u32 l : zlen l = 4 -> Forall is_u8 l -> put_u32 (get_u32 l) = l.
Proof.
  intros Hl Hu. rewrite put_u32_POKE, get_u32_PEEK.
  rewrite POKE_U32_bytes, u32_id by apply PEEK_U32_range.
  destruct l as [|a [|b [|c [|d [|]]]]]; try (unfold zlen in Hl; simpl in Hl; lia).
  pose proof (be_bytes_val _ Hu) as Hb. rewrite !Forall_cons in Hu.
  destruct Hu as (? & ? & ? & ? & _). rewrite PEEK_U32_val.
  by rewrite (u_char_at_id _ 0 a), (u_char_at_id _ 1 b), (u_char_at_id _ 2 c), (u_char_at_id _ 3 d).
Qed.

(** ** Runs of the table *)

Section Runs.
Context `{Allocator} `{Sha256}.

Definition empty_htab : htab := mk_htab [] (-1).

(** One operation of the server on its table; a slot is released only while
    it is in use, as handle_close does. *)
Inductive htab_step (t : htab) : htab -> Prop :=
| step_new use name fd flags dirp i t' :
    use <> HANDLE_UNUSED -> handle_new use name fd flags dirp t = (inr i, t') -> htab_step t t'
| step_release i t' :
    is_Some (live t i) -> handle_unused i t = (inr tt, t') -> htab_step t t'
| step_read i n t' : handle_update_read i n t = (inr tt, t') -> htab_step t t'
| step_write i n t' : handle_update_write i n t = (inr tt, t') -> htab_step t t'
| step_checksum i data n t' : handle_update_checksum i data n t = (inr tt, t') -> htab_step t t'.

Lemma empty_htab_inv : htab_inv empty_htab.
Proof.
  split; [|done]. exists []. split_and!; [constructor|constructor|].
  intros i h Hs. apply slot_range in Hs. unfold num_handles, empty_htab in Hs. cbn in Hs. zlia.
Qed.

(** The three updates keep the slot in use. *)
Lemma guarded_update_inv t i (c : bool) f r t' :
  htab_inv t -> (forall h, h_use (f h) = h_use h) ->
  when (handle_is_ok t i HANDLE_FILE && c) (update_slot i f) t = (r, t') -> htab_inv t' /\ r = inr tt.
Proof.
  intros Hinv Hf. rewrite handle_is_ok_live by done. unfold when, mret, SE_ret.
  destruct (live t i) as [h|] eqn:El; cbn; [|by intros [= <- <-]].
  destruct (bool_decide _ && c); cbn; [|by intros [= <- <-]].
  destruct (update_slot_spec t i h f Hinv El) as (t1 & -> & Hinv1 & _).
  { rewrite Hf. by apply live_slot in El as [_ ?]. }
  by intros [= <- <-].
Qed.

Lemma htab_step_inv `{!HeapBounded} t t' : htab_inv t -> htab_step t t' -> htab_inv t'.
Proof.
  intros Hinv Hs. destruct Hs as [use name fd flags dirp i t' Hu E|i t' [h Hl] E|i n t' E|i n t' E|i d n t' E].
  - pose proof (handle_new_spec use name fd flags dirp t Hinv Hu) as Hn. rewrite E in Hn. apply Hn.
  - apply live_slot in Hl as [Hl Hu].
    destruct (handle_unused_spec t i h Hinv Hl Hu) as (t1 & E' & Hi & _). congruence.
  - by eapply guarded_update_inv in E as [? _].
  - by eapply guarded_update_inv in E as [? _].
  - by eapply guarded_update_inv in E as [? _].
Qed.

(** The string of an open handle names that handle, and a string names
    a handle only if it is the string of an open one; every other string is
    refused with -1. *)
Theorem handle_string_roundtrip (t : htab) :
  htab_inv t ->
  (forall i, is_Some (live t i) -> handle_from_string t (handle_to_string i) = i) /\
  (forall l, Forall is_u8 l -> handle_from_string t l = -1 \/
     is_Some (live t (handle_from_string t l)) /\ handle_to_string (handle_from_string t l) = l).
Proof.
  intros [_ Hn]. unfold handle_from_string, handle_to_string.
  assert (Hok : forall i, handle_is_ok t i HANDLE_FILE || handle_is_ok t i HANDLE_DIR = true <->
    is_Some (live t i)).
  { intros i. rewrite !handle_is_ok_live by done. destruct (live t i) as [h|] eqn:El; [|by split; [|intros []]].
    apply live_slot in El as [_ Hu]. destruct (h_use h); done. }
  split.
  - intros i Hi. rewrite get_put_u32. destruct Hi as [h Hi]. pose proof Hi as Hi0.
    apply live_slot in Hi0 as [Hs _]. apply slot_range in Hs.
    rewrite u32_id, i32_id by lia. cbn [negb]. change (zlen (put_u32 i) =? 4) with true. cbn.
    by rewrite (proj2 (Hok i)) by eauto.
  - intros l Hl. destruct (Z.eqb_spec (zlen l) 4) as [H4|]; cbn; [|by left].
    destruct (_ || _) eqn:E; [|by left]. right. apply Hok in E. split; [done|].
    destruct E as [h E]. apply live_slot in E as [Hs _]. apply slot_range in Hs.
    rewrite put_u32_POKE. unfold POKE_U32.
    replace (u32 (i32 (get_u32 l))) with (u32 (get_u32 l)); [by apply put_get_u32|].
    unfold i32, u32. rewrite Zminus_mod_idemp_l. f_equal. lia.
Qed.
(** ** The table as a finite map *)

(** What a handle stands for: everything but its place in the free list. *)
Record entry := mk_entry {
  n_use : handle_use; n_dirp : option Z; n_fd : Z; n_flags : Z; n_name : list Z; n_read : Z; n_write : Z; n_md : sha_ctx
}.
Definition entry_of (h : Handle) : entry :=
  mk_entry (h_use h) (h_dirp h) (h_fd h) (h_flags h) (h_name h) (h_bytes_read h) (h_bytes_write h) (h_md h).
Definition entries (t : htab) (i : Z) : option entry := entry_of <$> live t i.
(** [m] with [i] mapped to [e]. *)
Definition upd (m : Z -> option entry) (i : Z) (e : option entry) : Z -> option entry := fun j => if decide (j = i) then e else m j.
Definition is_file (e : option entry) : option entry := e ← e; if decide (n_use e = HANDLE_FILE) then Some e else None.
Definition is_dir (e : option entry) : option entry := e ← e; if decide (n_use e = HANDLE_DIR) then Some e else None.

(** The operations of the table do to the map what their names say. *)
Record implements_map (t : htab) : Prop := {
  im_new use name fd flags dirp : use <> HANDLE_UNUSED ->
    match handle_new use name fd flags dirp t with
    | (inl e, _) => e = Fatal OutOfMemory
    | (inr i, t') => entries t i = None /\ 0 <= i < 2 ^ 31 /\
        (exists md, forall j, entries t' j = upd (entries t) i (Some (mk_entry use dirp fd flags name 0 0 md)) j) /\
        (num_handles t' <> num_handles t ->
         num_handles t' = num_handles t + 1 /\ forall j, 0 <= j < num_handles t -> is_Some (entries t j))
    end;
  im_close i : is_Some (entries t i) ->
    exists t', handle_unused i t = (inr tt, t') /\ forall j, entries t' j = upd (entries t) i None j;
  im_read i n : exists t', handle_update_read i n t = (inr tt, t') /\ forall j, entries t' j =
    match is_file (entries t i) with
    | Some (mk_entry use dirp fd flags name rd wr md) =>
        if 0 <? n then upd (entries t) i (Some (mk_entry use dirp fd flags name ((rd + n) mod 2 ^ 64) wr md)) j else entries t j
    | None => entries t j
    end;
  im_write i n : exists t', handle_update_write i n t = (inr tt, t') /\ forall j, entries t' j =
    match is_file (entries t i) with
    | Some (mk_entry use dirp fd flags name rd wr md) =>
        if 0 <? n then upd (entries t) i (Some (mk_entry use dirp fd flags name rd ((wr + n) mod 2 ^ 64) md)) j else entries t j
    | None => entries t j
    end;
  im_checksum i data n : exists t', handle_update_checksum i data n t = (inr tt, t') /\ forall j, entries t' j =
    match is_file (entries t i) with
    | Some (mk_entry use dirp fd flags name rd wr md) =>
        if 0 <? n then upd (entries t) i (Some (mk_entry use dirp fd flags name rd wr (SHA256_Update md (ztake n data)).2)) j else entries t j
    | None => entries t j
    end;
  im_fd i : handle_to_fd t i = match is_file (entries t i) with Some e => n_fd e | None => -1 end;
  im_flags i : handle_to_flags t i = match is_file (entries t i) with Some e => n_flags e | None => 0 end;
  im_bytes i : handle_bytes_read t i = match is_file (entries t i) with Some e => n_read e | None => 0 end /\
    handle_bytes_write t i = match is_file (entries t i) with Some e => n_write e | None => 0 end;
  im_dir i : handle_to_dir t i = (e ← is_dir (entries t i); n_dirp e);
  im_name i : handle_to_name t i = n_name <$> entries t i;
  im_string i : is_Some (entries t i) -> handle_from_string t (handle_to_string i) = i;
  im_strings l : Forall is_u8 l -> handle_from_string t l = -1 \/
    is_Some (entries t (handle_from_string t l)) /\ handle_to_string (handle_from_string t l) = l
}.

Lemma entries_some t i : is_Some (entries t i) <-> is_Some (live t i).
Proof. unfold entries. by rewrite fmap_is_Some. Qed.
Lemma entries_file t i h : live t i = Some h -> is_file (entries t i) = if decide (h_use h = HANDLE_FILE) then Some (entry_of h) else None.
Proof. unfold entries. by intros ->. Qed.
Lemma entries_dir t i h : live t i = Some h -> is_dir (entries t i) = if decide (h_use h = HANDLE_DIR) then Some (entry_of h) else None.
Proof. unfold entries. by intros ->. Qed.
Lemma entries_none t i : live t i = None -> entries t i = None.
Proof. unfold entries. by intros ->. Qed.
Lemma entries_upd t t' i e : entry_of <$> live t' i = e -> (forall j, j <> i -> live t' j = live t j) -> forall j, entries t' j = upd (entries t) i e j.
Proof. intros <- Ho j. unfold upd, entries. case_decide as Hj; [by rewrite Hj|by rewrite Ho]. Qed.

(** The updates of a file that is open. *)
Lemma guarded_update t i (c : bool) f (g : entry -> entry) :
  htab_inv t -> (forall h, h_use (f h) = h_use h) -> (forall h, entry_of (f h) = g (entry_of h)) ->
  exists t', (t ← gets id; when (handle_is_ok t i HANDLE_FILE && c) (update_slot i f)) t = (inr tt, t') /\
    forall j, entries t' j = match is_file (entries t i) with Some e => if c then upd (entries t) i (Some (g e)) j else entries t j | None => entries t j end.
Proof.
  intros Hinv Hu Hg. rewrite (SE_bind_ok _ _ _ t t) by done. rewrite handle_is_ok_live by done.
  destruct (live t i) as [h|] eqn:El; [|exists t; by rewrite (entries_none _ _ El)].
  rewrite (entries_file _ _ _ El). destruct (decide (h_use h = HANDLE_FILE)) as [Hf|Hf]; [rewrite bool_decide_eq_true_2 by done|rewrite bool_decide_eq_false_2 by done; by exists t].
  destruct c; [|by exists t]. destruct (update_slot_spec t i h f Hinv El) as (t1 & E & _ & Hl & _ & Ho); [rewrite Hu; congruence|].
  exists t1. split; [done|]. apply entries_upd; [by rewrite Hl; cbn; rewrite Hg|done].
Qed.
Lemma guarded_field t i {A} (p : Handle -> A) (q : entry -> A) (d : A) :
  (forall h, q (entry_of h) = p h) ->
  (if handle_is_ok t i HANDLE_FILE then match slot t i with Some h => p h | None => d end else d) =
  match is_file (entries t i) with Some e => q e | None => d end.
Proof.
  intros Hq. rewrite handle_is_ok_live by done. destruct (live t i) as [h|] eqn:El; [|by rewrite (entries_none _ _ El)].
  rewrite (entries_file _ _ _ El). pose proof El as [Hs _]%live_slot. rewrite Hs.
  case_decide; [rewrite bool_decide_eq_true_2 by done; by rewrite Hq|by rewrite bool_decide_eq_false_2].
Qed.

Lemma inv_implements_map `{!HeapBounded} t : htab_inv t -> implements_map t.
Proof.
  intros Hinv. destruct (handle_string_roundtrip t Hinv) as [Hs1 Hs2]. split.
  - intros use name fd flags dirp Hu. pose proof (handle_new_spec use name fd flags dirp t Hinv Hu) as Hn.
    destruct (handle_new _ _ _ _ _ t) as [[e|i] t']; [done|]. destruct Hn as [(Hi & Hfree & (nx & md & Hnew) & Ho) Hgrow].
    split_and!; [by apply entries_none|..].
    + pose proof Hnew as [Hs _]%live_slot. apply slot_range in Hs. lia.
    + apply live_slot in Hnew as Hs. destruct Hs as [Hs _]. apply slot_range in Hs. destruct Hi. lia.
    + exists md. apply entries_upd; [by rewrite Hnew|done].
    + intros Hne. destruct (Hgrow Hne) as [? Hall]. split; [done|]. intros j Hj. by apply entries_some, Hall.
  - intros i [h Hl]%entries_some. pose proof Hl as [Hs Hu]%live_slot.
    destruct (handle_unused_spec t i h Hinv Hs Hu) as (t1 & E & _ & _ & _ & Hn & Ho). exists t1. split; [done|].
    apply entries_upd; [by rewrite Hn|]. intros j Hj. by apply live_ext, Ho.
  - intros i n. destruct (guarded_update t i (0 <? n) (fun h => mk_handle (h_use h) (h_dirp h) (h_fd h) (h_flags h) (h_name h)
         (u64 (h_bytes_read h + n)) (h_bytes_write h) (h_next_unused h) (h_md h))
      (fun e => mk_entry (n_use e) (n_dirp e) (n_fd e) (n_flags e) (n_name e) ((n_read e + n) mod 2 ^ 64) (n_write e) (n_md e)) Hinv ltac:(done) ltac:(done)) as (t' & E & He).
    exists t'. split; [exact E|]. intros j. rewrite He. by destruct (is_file _) as [[]|].
  - intros i n. destruct (guarded_update t i (0 <? n) (fun h => mk_handle (h_use h) (h_dirp h) (h_fd h) (h_flags h) (h_name h)
         (h_bytes_read h) (u64 (h_bytes_write h + n)) (h_next_unused h) (h_md h))
      (fun e => mk_entry (n_use e) (n_dirp e) (n_fd e) (n_flags e) (n_name e) (n_read e) ((n_write e + n) mod 2 ^ 64) (n_md e)) Hinv ltac:(done) ltac:(done)) as (t' & E & He).
    exists t'. split; [exact E|]. intros j. rewrite He. by destruct (is_file _) as [[]|].
  - intros i data n. destruct (guarded_update t i (0 <? n) (fun h => set_md (snd (checksum_add (h_md h) (ztake n data))) h)
      (fun e => mk_entry (n_use e) (n_dirp e) (n_fd e) (n_flags e) (n_name e) (n_read e) (n_write e) (SHA256_Update (n_md e) (ztake n data)).2) Hinv ltac:(done) ltac:(done)) as (t' & E & He).
    exists t'. split; [exact E|]. intros j. rewrite He. by destruct (is_file _) as [[]|].
  - intros i. by apply guarded_field.
  - intros i. by apply guarded_field.
  - intros i. split; by apply guarded_field.
  - intros i. unfold handle_to_dir. rewrite handle_is_ok_live by done. destruct (live t i) as [h|] eqn:El; [|by rewrite (entries_none _ _ El)].
    rewrite (entries_dir _ _ _ El). pose proof El as [Hs _]%live_slot. rewrite Hs.
    case_decide; [by rewrite bool_decide_eq_true_2|by rewrite bool_decide_eq_false_2].
  - intros i. unfold handle_to_name. rewrite !handle_is_ok_live by done. unfold entries. destruct (live t i) as [h|] eqn:El; [|done].
    pose proof El as [Hs Hu]%live_slot. rewrite Hs. destruct (h_use h) eqn:E; by rewrite ?E.
  - intros i Hi. apply Hs1. by apply entries_some.
  - intros l Hl. destruct (Hs2 l Hl) as [?|[? ?]]; [by left|right]. split; [by apply entries_some|done].
Qed.

End Runs.

(** ** Examples *)

Definition demo_heap38 : Allocator :=
  {| heap_alloc := fun n => if n <=? 2 ^ 38 then Some 4096 else None; page_size := 4096 |}.
Lemma demo_heap38_total : @AllocTotal demo_heap38.
Proof.
  intros n Hn. cbn. unfold SSHBUF_SIZE_MAX in Hn. rewrite (proj2 (Z.leb_le n (2 ^ 38))) by lia. eauto.
Qed.
Lemma demo_heap38_bounded : @HeapBounded demo_heap38.
Proof. intros n Hn. cbn. by rewrite (proj2 (Z.leb_gt n (2 ^ 38))). Qed.

Definition demo_htab : @htab demo_sha :=
  snd (@handle_new demo_heap38 demo_sha HANDLE_FILE (str "f") 3 0 None (@empty_htab demo_sha)).
Lemma demo_htab_step : @htab_step demo_heap38 demo_sha (@empty_htab demo_sha) demo_htab.
Proof. by apply (step_new _ HANDLE_FILE (str "f") 3 0 None 0). Qed.
Lemma demo_htab_run : rtc (@htab_step demo_heap38 demo_sha) (@empty_htab demo_sha) demo_htab.
Proof. apply rtc_once, demo_htab_step. Qed.


Lemma handle_string_roundtrip_witness :
  (forall i, is_Some (live demo_htab i) -> handle_from_string demo_htab (handle_to_string i) = i) /\
  (forall l, Forall is_u8 l -> handle_from_string demo_htab l = -1 \/
     is_Some (live demo_htab (handle_from_string demo_htab l)) /\
     handle_to_string (handle_from_string demo_htab l) = l).
Proof.
  refine (@handle_string_roundtrip demo_sha demo_htab _).
  exact (@htab_step_inv demo_heap38 demo_sha demo_heap38_bounded _ _ empty_htab_inv demo_htab_step).
Defined.
