(* ===== verification/SftpServer.v ===== *)
(** * The SFTP server: sftp-server.c

    The process state, the replies, one definition per request handler, the
    dispatch of a packet and one round of the main loop.  Logging is left out
    (it only writes to syslog), and so are [free] and the lifetime of local
    buffers.  A path read from a request is used as the C string it holds. *)

From S2P Require Import Prelude Sshbuf SftpCommon Match World LsFile MqNotify Handles.

(** ** Protocol numbers (sftp.h) *)

Definition SSH2_FILEXFER_VERSION : Z := 3.
Definition SSH2_FXP_INIT : Z := 1.
Definition SSH2_FXP_OPEN : Z := 3.
Definition SSH2_FXP_CLOSE : Z := 4.
Definition SSH2_FXP_READ : Z := 5.
Definition SSH2_FXP_WRITE : Z := 6.
Definition SSH2_FXP_LSTAT : Z := 7.
Definition SSH2_FXP_FSTAT : Z := 8.
Definition SSH2_FXP_SETSTAT : Z := 9.
Definition SSH2_FXP_FSETSTAT : Z := 10.
Definition SSH2_FXP_OPENDIR : Z := 11.
Definition SSH2_FXP_READDIR : Z := 12.
Definition SSH2_FXP_REMOVE : Z := 13.
Definition SSH2_FXP_MKDIR : Z := 14.
Definition SSH2_FXP_RMDIR : Z := 15.
Definition SSH2_FXP_REALPATH : Z := 16.
Definition SSH2_FXP_STAT : Z := 17.
Definition SSH2_FXP_RENAME : Z := 18.
Definition SSH2_FXP_READLINK : Z := 19.
Definition SSH2_FXP_SYMLINK : Z := 20.
Definition SSH2_FXP_VERSION : Z := 2.
Definition SSH2_FXP_STATUS : Z := 101.
Definition SSH2_FXP_HANDLE : Z := 102.
Definition SSH2_FXP_DATA : Z := 103.
Definition SSH2_FXP_NAME : Z := 104.
Definition SSH2_FXP_ATTRS : Z := 105.
Definition SSH2_FXP_EXTENDED : Z := 200.
Definition SSH2_FXP_EXTENDED_REPLY : Z := 201.

Definition SSH2_FXF_READ : Z := 0x00000001.
Definition SSH2_FXF_WRITE : Z := 0x00000002.
Definition SSH2_FXF_APPEND : Z := 0x00000004.
Definition SSH2_FXF_CREAT : Z := 0x00000008.
Definition SSH2_FXF_TRUNC : Z := 0x00000010.
Definition SSH2_FXF_EXCL : Z := 0x00000020.
Definition SSH2_FXE_STATVFS_ST_RDONLY : Z := 0x00000001.
Definition SSH2_FXE_STATVFS_ST_NOSUID : Z := 0x00000002.

(** ** Portable errors and flags *)

Definition errno_to_portable (unixerrno : Z) : Z :=
  if unixerrno =? 0 then SSH2_FX_OK
  else if (unixerrno =? ENOENT) || (unixerrno =? ENOTDIR) || (unixerrno =? EBADF) ||
          (unixerrno =? ELOOP) then SSH2_FX_NO_SUCH_FILE
  else if (unixerrno =? EPERM) || (unixerrno =? EACCES) || (unixerrno =? EFAULT)
  then SSH2_FX_PERMISSION_DENIED
  else if (unixerrno =? ENAMETOOLONG) || (unixerrno =? EINVAL) then SSH2_FX_BAD_MESSAGE
  else if unixerrno =? ENOSYS then SSH2_FX_OP_UNSUPPORTED
  else SSH2_FX_FAILURE.

Definition flags_from_portable (pflags : Z) : Z :=
  let flags :=
    if has pflags SSH2_FXF_READ && has pflags SSH2_FXF_WRITE then O_RDWR
    else if has pflags SSH2_FXF_READ then O_RDONLY
    else if has pflags SSH2_FXF_WRITE then O_WRONLY
    else 0 in
  let flags := if has pflags SSH2_FXF_APPEND then Z.lor flags O_APPEND else flags in
  let flags := if has pflags SSH2_FXF_CREAT then Z.lor flags O_CREAT else flags in
  let flags := if has pflags SSH2_FXF_TRUNC then Z.lor flags O_TRUNC else flags in
  if has pflags SSH2_FXF_EXCL then Z.lor flags O_EXCL else flags.

(** string_from_portable: the names of the flags, separated by commas, in a
    buffer of 128 bytes. *)
Definition PAPPEND (ret : list Z) (s : string) : list Z :=
  let ret := if bool_decide (ret = []) then ret else snprintf 128 (ret ++ str ",") in
  snprintf 128 (ret ++ str s).
Definition string_from_portable (pflags : Z) : list Z :=
  let add (bit : Z) (s : string) ret := if has pflags bit then PAPPEND ret s else ret in
  add SSH2_FXF_EXCL "EXCL" (add SSH2_FXF_TRUNC "TRUNCATE" (add SSH2_FXF_CREAT "CREATE"
    (add SSH2_FXF_APPEND "APPEND" (add SSH2_FXF_WRITE "WRITE" (add SSH2_FXF_READ "READ" []))))).

Definition status_to_message (status : Z) : list Z :=
  let i := Z.min status SSH2_FX_MAX in
  if i =? 0 then str "Success"
  else if i =? 1 then str "End of file"
  else if i =? 2 then str "No such file"
  else if i =? 3 then str "Permission denied"
  else if i =? 4 then str "Failure"
  else if i =? 5 then str "Bad message"
  else if i =? 6 then str "No connection"
  else if i =? 7 then str "Connection lost"
  else if i =? 8 then str "Operation unsupported"
  else str "Unknown error".

(** ** The process *)

(** [struct stat] on the stack that fstat did not fill. *)
Class Indet := indet_stat : stat_t.

(** [struct Stat]: an entry of a name reply. *)
Record name_entry := mk_name { n_name : list Z; n_long_name : list Z; n_attrib : Attrib }.
Definition sizeof_Stat : Z := 56.

Record server `{World} `{Sha256} := mk_server {
  s_iqueue : sshbuf;
  s_oqueue : sshbuf;
  s_version : Z;
  s_init_done : bool;
  s_readonly : bool;
  s_whitelist : option (list Z);
  s_blacklist : option (list Z);
  s_pw_name : list Z;
  s_handles : htab;
  s_caches : caches;
  s_env : env
}.
Arguments mk_server {_ _}.

Section Server.
Context `{Allocator} `{World} `{Sha256} `{JsonC} `{Calendar} `{Indet}.

Abbreviation M := (SE server exit_reason).

(** ** Parts of the state *)

Definition zoom {S T E A} (get : S -> T) (put : T -> S -> S) (m : SE T E A) : SE S E A := fun s =>
  let '(r, t) := m (get s) in (r, put t s).

Definition set_iqueue (b : sshbuf) (s : server) : server :=
  mk_server b (s_oqueue s) (s_version s) (s_init_done s) (s_readonly s) (s_whitelist s)
    (s_blacklist s) (s_pw_name s) (s_handles s) (s_caches s) (s_env s).
Definition set_oqueue (b : sshbuf) (s : server) : server :=
  mk_server (s_iqueue s) b (s_version s) (s_init_done s) (s_readonly s) (s_whitelist s)
    (s_blacklist s) (s_pw_name s) (s_handles s) (s_caches s) (s_env s).
Definition set_version (v : Z) (s : server) : server :=
  mk_server (s_iqueue s) (s_oqueue s) v (s_init_done s) (s_readonly s) (s_whitelist s)
    (s_blacklist s) (s_pw_name s) (s_handles s) (s_caches s) (s_env s).
Definition set_init_done (s : server) : server :=
  mk_server (s_iqueue s) (s_oqueue s) (s_version s) true (s_readonly s) (s_whitelist s)
    (s_blacklist s) (s_pw_name s) (s_handles s) (s_caches s) (s_env s).
Definition set_handles (t : htab) (s : server) : server :=
  mk_server (s_iqueue s) (s_oqueue s) (s_version s) (s_init_done s) (s_readonly s) (s_whitelist s)
    (s_blacklist s) (s_pw_name s) t (s_caches s) (s_env s).
Definition set_caches (c : caches) (s : server) : server :=
  mk_server (s_iqueue s) (s_oqueue s) (s_version s) (s_init_done s) (s_readonly s) (s_whitelist s)
    (s_blacklist s) (s_pw_name s) (s_handles s) c (s_env s).
Definition set_env (e : env) (s : server) : server :=
  mk_server (s_iqueue s) (s_oqueue s) (s_version s) (s_init_done s) (s_readonly s) (s_whitelist s)
    (s_blacklist s) (s_pw_name s) (s_handles s) (s_caches s) e.

(** An operation on a queue; an error is fatal(). *)
Definition buffer_fatal (cause : fatal_cause) (r : Z) : exit_reason :=
  Fatal (if r =? SSH_ERR_ALLOC_FAIL then OutOfMemory else cause).
Definition iq {A} (m : SE sshbuf Z A) : M A :=
  zoom s_iqueue set_iqueue (on_err (buffer_fatal BadInput) m).
Definition oq {A} (m : SE sshbuf Z A) : M A :=
  zoom s_oqueue set_oqueue (on_err (buffer_fatal NoOutputRoom) m).
Definition table {A} (m : SE htab exit_reason A) : M A := zoom s_handles set_handles m.
Definition mq {A} (m : SE env exit_reason A) : M A := zoom s_env set_env m.
Definition sys {A} (c : call A) : M A := mq (do_call c).
Definition get_state : M server := gets (fun s => s).
Definition xmem (n : Z) : M () :=
  match heap_alloc n with Some _ => mret tt | None => throw (Fatal OutOfMemory) end.

Definition get_path : M (list Z) := p ← iq sshbuf_get_cstring; mret (cstr p).
Definition stop_exit (st : stop) : exit_reason :=
  match st with
  | StopRet r => buffer_fatal BadInput r
  | StopFatal => Fatal BadInput
  | StopFuel => Stuck
  end.
Definition get_attrib : M Attrib := zoom s_iqueue set_iqueue (on_err stop_exit decode_attrib).

(** get_handle: the handle a request names, or -1. *)
Definition get_handle : M Z :=
  handle ← iq sshbuf_get_string;
  t ← gets s_handles;
  mret (if zlen handle <? 256 then handle_from_string t handle else -1).

(** sftp_server_cleanup_exit: the broker connection is closed first. *)
Definition sftp_server_cleanup_exit {A} (i : Z) : M A :=
  _ ← mq clean_mq_config; throw (Exited i).

(** ** Replies *)

(** A reply is built in a fresh buffer. *)
Definition build_msg (puts : SE sshbuf Z ()) : M sshbuf :=
  match sshbuf_new with
  | None => throw (Fatal OutOfMemory)
  | Some msg =>
      match puts msg with
      | (inl r, _) => throw (buffer_fatal NoOutputRoom r)
      | (inr _, msg) => mret msg
      end
  end.
Definition send_msg (m : sshbuf) : M () := oq (sshbuf_put_stringb m).

Definition put_str (s : list Z) : SE sshbuf Z () := sshbuf_put_cstring (Some s).

Definition send_status (id status : Z) : M () :=
  version ← gets s_version;
  msg ← build_msg (
    _ ← sshbuf_put_u8 SSH2_FXP_STATUS;
    _ ← sshbuf_put_u32 id;
    _ ← sshbuf_put_u32 status;
    when (3 <=? version) (
      _ ← put_str (status_to_message (u32 status));
      put_str []));
  send_msg msg.

Definition send_data_or_handle (type id : Z) (data : list Z) (dlen : Z) : M () :=
  msg ← build_msg (
    _ ← sshbuf_put_u8 type;
    _ ← sshbuf_put_u32 id;
    sshbuf_put_string data dlen);
  send_msg msg.
Definition send_data (id : Z) (data : list Z) (dlen : Z) : M () :=
  send_data_or_handle SSH2_FXP_DATA id data dlen.
Definition send_handle (id handle : Z) : M () :=
  let string := handle_to_string handle in
  _ ← xmem 4;
  send_data_or_handle SSH2_FXP_HANDLE id string (zlen string).

Definition put_name (e : name_entry) : SE sshbuf Z () :=
  _ ← put_str (n_name e);
  _ ← put_str (n_long_name e);
  encode_attrib (n_attrib e).
Definition send_names (id count : Z) (stats : list name_entry) : M () :=
  msg ← build_msg (
    _ ← sshbuf_put_u8 SSH2_FXP_NAME;
    _ ← sshbuf_put_u32 id;
    _ ← sshbuf_put_u32 count;
    mfold (fun _ e => put_name e) (ztake count stats) tt);
  send_msg msg.

Definition send_attrib (id : Z) (a : Attrib) : M () :=
  msg ← build_msg (
    _ ← sshbuf_put_u8 SSH2_FXP_ATTRS;
    _ ← sshbuf_put_u32 id;
    encode_attrib a);
  send_msg msg.

Definition send_statvfs (id : Z) (st : statvfs_t) : M () :=
  let flag := if has (f_flag st) ST_RDONLY then SSH2_FXE_STATVFS_ST_RDONLY else 0 in
  let flag := Z.lor flag (if has (f_flag st) ST_NOSUID then SSH2_FXE_STATVFS_ST_NOSUID else 0) in
  msg ← build_msg (
    _ ← sshbuf_put_u8 SSH2_FXP_EXTENDED_REPLY;
    _ ← sshbuf_put_u32 id;
    _ ← sshbuf_put_u64 (f_bsize st);
    _ ← sshbuf_put_u64 (f_frsize st);
    _ ← sshbuf_put_u64 (f_blocks st);
    _ ← sshbuf_put_u64 (f_bfree st);
    _ ← sshbuf_put_u64 (f_bavail st);
    _ ← sshbuf_put_u64 (f_files st);
    _ ← sshbuf_put_u64 (f_ffree st);
    _ ← sshbuf_put_u64 (f_favail st);
    _ ← sshbuf_put_u64 (f_fsid st);
    _ ← sshbuf_put_u64 flag;
    sshbuf_put_u64 (f_namemax st));
  send_msg msg.

(** The status of a call: its errno as a portable code. *)
Definition status_of {A} (r : Z + A) : Z :=
  match r with inl e => errno_to_portable e | inr _ => SSH2_FX_OK end.

(** ** Request handlers *)

Definition process_init : M () :=
  v ← iq sshbuf_get_u32;
  _ ← modify (set_version v);
  msg ← build_msg (
    _ ← sshbuf_put_u8 SSH2_FXP_VERSION;
    _ ← sshbuf_put_u32 SSH2_FILEXFER_VERSION;
    _ ← put_str (str "posix-rename@openssh.com");
    _ ← put_str (str "1");
    _ ← put_str (str "statvfs@openssh.com");
    _ ← put_str (str "2");
    _ ← put_str (str "fstatvfs@openssh.com");
    _ ← put_str (str "2");
    _ ← put_str (str "hardlink@openssh.com");
    _ ← put_str (str "1");
    _ ← put_str (str "fsync@openssh.com");
    put_str (str "1"));
  send_msg msg.

Definition open_refused (readonly : bool) (flags : Z) : bool :=
  readonly && (negb (Z.land flags O_ACCMODE =? O_RDONLY) ||
               negb (Z.land flags (Z.lor O_CREAT O_TRUNC) =? 0)).

Definition process_open (id : Z) : M () :=
  name ← get_path;
  pflags ← iq sshbuf_get_u32;
  a ← get_attrib;
  let flags := flags_from_portable pflags in
  let mode := if has (a_flags a) SSH2_FILEXFER_ATTR_PERMISSIONS then a_perm a else 438 in
  readonly ← gets s_readonly;
  status ←
    (if open_refused readonly flags then mret SSH2_FX_PERMISSION_DENIED
     else
       fd ← sys (Open name flags mode);
       match fd with
       | inl e => mret (errno_to_portable e)
       | inr fd =>
           handle ← table (handle_new HANDLE_FILE name fd flags None);
           if handle <? 0 then _ ← sys (Close fd); mret SSH2_FX_FAILURE
           else
             _ ← table (update_slot handle (fun h => set_md (snd (checksum_init (h_md h))) h));
             _ ← send_handle id handle;
             mret SSH2_FX_OK
       end);
  when (negb (status =? SSH2_FX_OK)) (send_status id status).

(** Does closing a file opened with these flags announce an upload? *)
Definition announces_upload (flags : Z) : bool :=
  truthy (Z.land flags (Z.lor (Z.lor O_CREAT O_TRUNC) O_APPEND)) &&
  negb (truthy (Z.land flags O_RDONLY)).

(** The file branch of handle_close: close the descriptor and, if that worked
    and the flags ask for it, announce the upload. *)
Definition close_file (h : Handle) : M (Z + ()) :=
  st ← sys (Fstat (h_fd h));
  ret ← sys (Close (h_fd h));
  user ← gets s_pw_name;
  _ ← (match ret with
       | inr _ =>
           if announces_upload (h_flags h) then
             let digest := snd (fst (checksum_final (h_md h))) in
             let st := match st with inr st => st | inl _ => indet_stat end in
             _ ← mq (mq_send_upload user (h_name h) digest (st_size st) (st_mtime st));
             mret tt
           else mret tt
       | inl _ => mret tt
       end);
  mret ret.
Definition close_dir (h : Handle) : M (Z + ()) :=
  match h_dirp h with
  | Some d => sys (Closedir d)
  | None => throw Segv
  end.

(** handle_close: [inl errno] is a result of -1. *)
Definition handle_close (handle : Z) : M (Z + ()) :=
  t ← gets s_handles;
  if handle_is_ok t handle HANDLE_FILE then
    h ← table (get_slot handle);
    ret ← close_file h;
    _ ← table (handle_unused handle);
    mret ret
  else if handle_is_ok t handle HANDLE_DIR then
    h ← table (get_slot handle);
    ret ← close_dir h;
    _ ← table (handle_unused handle);
    mret ret
  else mret (inl ENOENT).

Definition process_close (id : Z) : M () :=
  handle ← get_handle;
  ret ← handle_close handle;
  send_status id (status_of ret).

Definition process_read (id : Z) : M () :=
  handle ← get_handle;
  off ← iq sshbuf_get_u64;
  len ← iq sshbuf_get_u32;
  let len := if 64 * 1024 <? len then 64 * 1024 else len in
  t ← gets s_handles;
  let fd := handle_to_fd t handle in
  status ←
    (if 0 <=? fd then
       r ← sys (Lseek fd (i64 off));
       match r with
       | inl e => mret (errno_to_portable e)
       | inr _ =>
           r ← sys (Read fd len);
           match r with
           | inl e => mret (errno_to_portable e)
           | inr [] => mret SSH2_FX_EOF
           | inr buf =>
               _ ← send_data id buf (zlen buf);
               _ ← table (handle_update_read handle (zlen buf));
               mret SSH2_FX_OK
           end
       end
     else mret SSH2_FX_FAILURE);
  when (negb (status =? SSH2_FX_OK)) (send_status id status).

Definition process_write (id : Z) : M () :=
  handle ← get_handle;
  off ← iq sshbuf_get_u64;
  data ← iq sshbuf_get_string;
  t ← gets s_handles;
  let fd := handle_to_fd t handle in
  status ←
    (if fd <? 0 then mret SSH2_FX_FAILURE
     else
       r ← (if negb (truthy (Z.land (handle_to_flags t handle) O_APPEND))
            then sys (Lseek fd (i64 off)) else mret (inr tt));
       match r with
       | inl e => mret (errno_to_portable e)
       | inr _ =>
           r ← sys (Write fd data);
           match r with
           | inl e => mret (errno_to_portable e)
           | inr ret =>
               if ret =? zlen data then
                 _ ← table (handle_update_write handle ret);
                 _ ← table (handle_update_checksum handle data ret);
                 mret SSH2_FX_OK
               else mret SSH2_FX_FAILURE
           end
       end);
  send_status id status.

Definition process_do_stat (id : Z) (do_lstat : bool) : M () :=
  name ← get_path;
  r ← (if do_lstat then sys (Lstat name) else sys (Stat name));
  match r with
  | inl e => when (negb (errno_to_portable e =? SSH2_FX_OK)) (send_status id (errno_to_portable e))
  | inr st => send_attrib id (stat_to_attrib st)
  end.
Definition process_stat (id : Z) : M () := process_do_stat id false.
Definition process_lstat (id : Z) : M () := process_do_stat id true.

Definition process_fstat (id : Z) : M () :=
  handle ← get_handle;
  t ← gets s_handles;
  let fd := handle_to_fd t handle in
  status ←
    (if 0 <=? fd then
       r ← sys (Fstat fd);
       match r with
       | inl e => mret (errno_to_portable e)
       | inr st => _ ← send_attrib id (stat_to_attrib st); mret SSH2_FX_OK
       end
     else mret SSH2_FX_FAILURE);
  when (negb (status =? SSH2_FX_OK)) (send_status id status).

(** One attribute of setstat: a failure overwrites the status. *)
Definition set_attr (status : Z) (asked : bool) (c : call (Z + ())) : M Z :=
  if asked then
    r ← sys c;
    mret (match r with inl e => errno_to_portable e | inr _ => status end)
  else mret status.

Definition process_setstat (id : Z) : M () :=
  name ← get_path;
  a ← get_attrib;
  let asked := has (a_flags a) in
  st ← set_attr SSH2_FX_OK (asked SSH2_FILEXFER_ATTR_SIZE) (Truncate name (i64 (a_size a)));
  st ← set_attr st (asked SSH2_FILEXFER_ATTR_PERMISSIONS) (Chmod name (Z.land (a_perm a) 4095));
  st ← set_attr st (asked SSH2_FILEXFER_ATTR_ACMODTIME) (Utimes name (a_atime a) (a_mtime a));
  st ← set_attr st (asked SSH2_FILEXFER_ATTR_UIDGID) (Chown name (a_uid a) (a_gid a));
  send_status id st.

Definition process_fsetstat (id : Z) : M () :=
  handle ← get_handle;
  a ← get_attrib;
  t ← gets s_handles;
  let fd := handle_to_fd t handle in
  status ←
    (if fd <? 0 then mret SSH2_FX_FAILURE
     else
       let asked := has (a_flags a) in
       st ← set_attr SSH2_FX_OK (asked SSH2_FILEXFER_ATTR_SIZE) (Ftruncate fd (i64 (a_size a)));
       st ← set_attr st (asked SSH2_FILEXFER_ATTR_PERMISSIONS) (Fchmod fd (Z.land (a_perm a) 4095));
       st ← set_attr st (asked SSH2_FILEXFER_ATTR_ACMODTIME) (Futimes fd (a_atime a) (a_mtime a));
       set_attr st (asked SSH2_FILEXFER_ATTR_UIDGID) (Fchown fd (a_uid a) (a_gid a)));
  send_status id status.

Definition process_opendir (id : Z) : M () :=
  path ← get_path;
  r ← sys (Opendir path);
  status ←
    (match r with
     | inl e => mret (errno_to_portable e)
     | inr dirp =>
         handle ← table (handle_new HANDLE_DIR path 0 0 (Some dirp));
         if handle <? 0 then _ ← sys (Closedir dirp); mret SSH2_FX_FAILURE
         else _ ← send_handle id handle; mret SSH2_FX_OK
     end);
  when (negb (status =? SSH2_FX_OK)) (send_status id status).

(** The loop of process_readdir: [stats] holds the entries so far, [nstats]
    the room; an entry that lstat refuses is skipped. *)
Fixpoint readdir_loop (fuel : nat) (dirp : Z) (path : list Z) (nstats : Z) (stats : list name_entry)
    : M (list name_entry) :=
  match fuel with
  | O => throw Stuck
  | S fuel' =>
      dp ← sys (Readdir dirp);
      match dp with
      | None => mret stats
      | Some d_name =>
          nstats ← (if nstats <=? zlen stats
                    then _ ← xmem (nstats * 2 * sizeof_Stat); mret (nstats * 2)
                    else mret nstats);
          let pathname := snprintf PATH_MAX
            (path ++ (if bytes_eqb path (str "/") then [] else str "/") ++ d_name) in
          r ← sys (Lstat pathname);
          match r with
          | inl _ => readdir_loop fuel' dirp path nstats stats
          | inr st =>
              _ ← xmem (zlen d_name + 1);
              now ← sys Time;
              long ← zoom s_caches set_caches (ls_file d_name st false false now);
              _ ← xmem (zlen long + 1);
              let stats := stats ++ [mk_name d_name long (stat_to_attrib st)] in
              if zlen stats =? 100 then mret stats
              else readdir_loop fuel' dirp path nstats stats
          end
      end
  end.

Definition process_readdir (id : Z) : M () :=
  handle ← get_handle;
  t ← gets s_handles;
  match handle_to_dir t handle, handle_to_name t handle with
  | Some dirp, Some path =>
      _ ← xmem (10 * sizeof_Stat);
      fuel ← gets (fun s => S (dir_left dirp (e_world (s_env s))));
      stats ← readdir_loop fuel dirp path 10 [];
      if 0 <? zlen stats then send_names id (zlen stats) stats
      else send_status id SSH2_FX_EOF
  | _, _ => send_status id SSH2_FX_FAILURE
  end.

(** Tell the broker; the result of the notification is ignored. *)
Definition notify (m : SE env exit_reason Z) : M () := _ ← mq m; mret tt.

Definition process_remove (id : Z) : M () :=
  name ← get_path;
  r ← sys (Unlink name);
  let status := status_of r in
  _ ← send_status id status;
  user ← gets s_pw_name;
  when (status =? SSH2_FX_OK) (notify (mq_send_remove user name)).

Definition process_mkdir (id : Z) : M () :=
  name ← get_path;
  a ← get_attrib;
  let mode := if has (a_flags a) SSH2_FILEXFER_ATTR_PERMISSIONS
              then Z.land (a_perm a) 4095 else 511 in
  r ← sys (Mkdir name mode);
  send_status id (status_of r).

Definition process_rmdir (id : Z) : M () :=
  name ← get_path;
  r ← sys (Rmdir name);
  send_status id (status_of r).

Definition process_realpath (id : Z) : M () :=
  path ← get_path;
  path ← (if bool_decide (path = []) then _ ← xmem 2; mret (str ".") else mret path);
  r ← sys (Realpath path);
  match r with
  | inl e => send_status id (errno_to_portable e)
  | inr resolvedname => send_names id 1 [mk_name resolvedname resolvedname attrib_clear]
  end.

(** The fallback of rename, without links: stat, then rename. *)
Definition rename_unless_exists (oldpath newpath : list Z) : M Z :=
  st ← sys (Stat newpath);
  match st with
  | inl _ => r ← sys (Rename oldpath newpath); mret (status_of r)
  | inr _ => mret SSH2_FX_FAILURE
  end.
Definition LINK_OPNOTSUPP_ERRNO : Z := EPERM.

Definition do_rename (oldpath newpath : list Z) : M Z :=
  sb ← sys (Lstat oldpath);
  match sb with
  | inl e => mret (errno_to_portable e)
  | inr sb =>
      if S_ISREG (st_mode sb) then
        r ← sys (Link oldpath newpath);
        match r with
        | inl e =>
            if (e =? EOPNOTSUPP) || (e =? ENOSYS) || (e =? EXDEV) || (e =? LINK_OPNOTSUPP_ERRNO)
            then rename_unless_exists oldpath newpath
            else mret (errno_to_portable e)
        | inr _ =>
            r ← sys (Unlink oldpath);
            match r with
            | inl e => _ ← sys (Unlink newpath); mret (errno_to_portable e)
            | inr _ => mret SSH2_FX_OK
            end
        end
      else rename_unless_exists oldpath newpath
  end.
Definition process_rename (id : Z) : M () :=
  oldpath ← get_path;
  newpath ← get_path;
  status ← do_rename oldpath newpath;
  _ ← send_status id status;
  user ← gets s_pw_name;
  when (status =? SSH2_FX_OK) (notify (mq_send_rename user oldpath newpath)).

Definition process_readlink (id : Z) : M () :=
  path ← get_path;
  r ← sys (Readlink path (PATH_MAX - 1));
  match r with
  | inl e => send_status id (errno_to_portable e)
  | inr buf => send_names id 1 [mk_name buf buf attrib_clear]
  end.

Definition process_symlink (id : Z) : M () :=
  oldpath ← get_path;
  newpath ← get_path;
  r ← sys (Symlink oldpath newpath);
  send_status id (status_of r).

Definition process_extended_posix_rename (id : Z) : M () :=
  oldpath ← get_path;
  newpath ← get_path;
  r ← sys (Rename oldpath newpath);
  let status := status_of r in
  _ ← send_status id status;
  user ← gets s_pw_name;
  when (status =? SSH2_FX_OK) (notify (mq_send_rename user oldpath newpath)).

Definition process_extended_statvfs (id : Z) : M () :=
  path ← get_path;
  r ← sys (Statvfs path);
  match r with
  | inl e => send_status id (errno_to_portable e)
  | inr st => send_statvfs id st
  end.

Definition process_extended_fstatvfs (id : Z) : M () :=
  handle ← get_handle;
  t ← gets s_handles;
  let fd := handle_to_fd t handle in
  if fd <? 0 then send_status id SSH2_FX_FAILURE
  else
    r ← sys (Fstatvfs fd);
    match r with
    | inl e => send_status id (errno_to_portable e)
    | inr st => send_statvfs id st
    end.

Definition process_extended_hardlink (id : Z) : M () :=
  oldpath ← get_path;
  newpath ← get_path;
  r ← sys (Link oldpath newpath);
  send_status id (status_of r).

Definition process_extended_fsync (id : Z) : M () :=
  handle ← get_handle;
  t ← gets s_handles;
  let fd := handle_to_fd t handle in
  status ←
    (if fd <? 0 then mret SSH2_FX_NO_SUCH_FILE
     else if handle_is_ok t handle HANDLE_FILE then
       r ← sys (Fsync fd); mret (status_of r)
     else mret SSH2_FX_OP_UNSUPPORTED);
  send_status id status.

(** ** Dispatch *)

Record sftp_handler := mk_handler {
  sh_name : list Z;
  sh_ext_name : list Z;
  sh_type : Z;
  sh_handler : Z -> M ();
  sh_does_write : bool
}.
Definition fxp (name : string) (type : Z) (h : Z -> M ()) (does_write : bool) : sftp_handler :=
  mk_handler (str name) [] type h does_write.
Definition fxe (name ext_name : string) (h : Z -> M ()) (does_write : bool) : sftp_handler :=
  mk_handler (str name) (str ext_name) 0 h does_write.

Definition handlers : list sftp_handler := [
  fxp "open" SSH2_FXP_OPEN process_open false;
  fxp "close" SSH2_FXP_CLOSE process_close false;
  fxp "read" SSH2_FXP_READ process_read false;
  fxp "write" SSH2_FXP_WRITE process_write true;
  fxp "lstat" SSH2_FXP_LSTAT process_lstat false;
  fxp "fstat" SSH2_FXP_FSTAT process_fstat false;
  fxp "setstat" SSH2_FXP_SETSTAT process_setstat true;
  fxp "fsetstat" SSH2_FXP_FSETSTAT process_fsetstat true;
  fxp "opendir" SSH2_FXP_OPENDIR process_opendir false;
  fxp "readdir" SSH2_FXP_READDIR process_readdir false;
  fxp "remove" SSH2_FXP_REMOVE process_remove true;
  fxp "mkdir" SSH2_FXP_MKDIR process_mkdir true;
  fxp "rmdir" SSH2_FXP_RMDIR process_rmdir true;
  fxp "realpath" SSH2_FXP_REALPATH process_realpath false;
  fxp "stat" SSH2_FXP_STAT process_stat false;
  fxp "rename" SSH2_FXP_RENAME process_rename true;
  fxp "readlink" SSH2_FXP_READLINK process_readlink false;
  fxp "symlink" SSH2_FXP_SYMLINK process_symlink true
].
Definition extended_handlers : list sftp_handler := [
  fxe "posix-rename" "posix-rename@openssh.com" process_extended_posix_rename true;
  fxe "statvfs" "statvfs@openssh.com" process_extended_statvfs false;
  fxe "fstatvfs" "fstatvfs@openssh.com" process_extended_fstatvfs false;
  fxe "hardlink" "hardlink@openssh.com" process_extended_hardlink true;
  fxe "fsync" "fsync@openssh.com" process_extended_fsync true
].

Definition request_permitted (s : server) (h : sftp_handler) : bool :=
  let listed l := match fst (match_list (sh_name h) l) with Some _ => true | None => false end in
  if s_readonly s && sh_does_write h then false
  else if match s_blacklist s with Some l => listed l | None => false end then false
  else match s_whitelist s with Some l => listed l | None => true end.

(** A request whose handler is known: refuse it or run it. *)
Definition run_handler (h : sftp_handler) (id : Z) : M () :=
  s ← get_state;
  if negb (request_permitted s h) then send_status id SSH2_FX_PERMISSION_DENIED
  else sh_handler h id.

Definition process_extended (id : Z) : M () :=
  request ← get_path;
  match find (fun h => bytes_eqb request (sh_ext_name h)) extended_handlers with
  | Some h => run_handler h id
  | None => send_status id SSH2_FX_OP_UNSUPPORTED
  end.

(** The switch of process on the packet type. *)
Definition dispatch (type : Z) : M () :=
  init_done ← gets s_init_done;
  if type =? SSH2_FXP_INIT then _ ← process_init; modify set_init_done
  else if type =? SSH2_FXP_EXTENDED then
    _ ← guard_or init_done (Fatal BeforeInit);
    id ← iq sshbuf_get_u32;
    process_extended id
  else
    _ ← guard_or init_done (Fatal BeforeInit);
    id ← iq sshbuf_get_u32;
    match find (fun h => type =? sh_type h) handlers with
    | Some h => run_handler h id
    | None => mret tt
    end.

Definition process : M () :=
  s ← get_state;
  let buf_len := u32 (sshbuf_len (s_iqueue s)) in
  if buf_len <? 5 then mret tt
  else
    let msg_len := get_u32 (sshbuf_ptr (s_iqueue s)) in
    if SFTP_MAX_MSG_LENGTH <? msg_len then sftp_server_cleanup_exit 11
    else if buf_len <? u32 (msg_len + 4) then mret tt
    else
      _ ← iq (sshbuf_consume 4);
      let buf_len := u32 (buf_len - 4) in
      type ← iq sshbuf_get_u8;
      _ ← dispatch type;
      left ← gets (fun s => sshbuf_len (s_iqueue s));
      if buf_len <? left then sftp_server_cleanup_exit 255
      else
        let consumed := u32 (buf_len - left) in
        if msg_len <? consumed then sftp_server_cleanup_exit 255
        else when (consumed <? msg_len) (iq (sshbuf_consume (msg_len - consumed))).

(** ** The main loop: one round *)

Definition STDIN : Z := 0.
Definition STDOUT : Z := 1.
Definition read_size : Z := 4 * 4096.

(** sshbuf_check_reserve: room, no room, or a broken buffer. *)
Definition has_room (b : sshbuf) (len : Z) : M bool :=
  let r := sshbuf_check_reserve b len in
  if r =? 0 then mret true
  else if negb (r =? SSH_ERR_NO_BUFFER_SPACE) then throw (Fatal NoOutputRoom)
  else mret false.

Definition copy_stdin : M () :=
  r ← sys (Read STDIN read_size);
  match r with
  | inl _ => sftp_server_cleanup_exit 1
  | inr [] => sftp_server_cleanup_exit 0
  | inr buf => iq (sshbuf_put buf (zlen buf))
  end.
Definition copy_stdout (olen : Z) : M () :=
  oqueue ← gets s_oqueue;
  r ← sys (Write STDOUT (ztake olen (sshbuf_ptr oqueue)));
  match r with
  | inl _ => sftp_server_cleanup_exit 1
  | inr len => oq (sshbuf_consume len)
  end.

Definition main_round : M () :=
  s ← get_state;
  in_room ← has_room (s_iqueue s) read_size;
  want_in ← (if in_room : bool then has_room (s_oqueue s) SFTP_MAX_MSG_LENGTH else mret false);
  let olen := sshbuf_len (s_oqueue s) in
  let want_out := 0 <? olen in
  r ← sys (Select want_in want_out);
  match r with
  | inl e => if e =? EINTR then mret tt else sftp_server_cleanup_exit 2
  | inr (in_ready, out_ready) =>
      _ ← when (want_in && in_ready) copy_stdin;
      _ ← when (want_out && out_ready) (copy_stdout olen);
      s ← get_state;
      room ← has_room (s_oqueue s) SFTP_MAX_MSG_LENGTH;
      when (room : bool) process
  end.
End Server.

(** ** Examples: a server with scripted input

    The world hands out the chunks of a script on stdin and a new descriptor
    for each open; every other call succeeds. *)

Definition demo_calendar : Calendar := {|
  getpwuid := fun _ => None; getgrgid := fun _ => None; tm := (); localtime := fun _ => None;
  strftime := fun _ _ _ => []; indet_sbuf := []
|}.
Definition demo_indet : Indet := demo_stat.

Record script := mk_script { sc_input : list (list Z); sc_next_fd : Z }.
Definition script_ext (A : Type) (c : call A) (w : script) : A * script :=
  match c in call A return A * script with
  | Open _ _ _ => (inr (Z.max 3 (sc_next_fd w)), mk_script (sc_input w) (Z.max 3 (sc_next_fd w) + 1))
  | Read fd n =>
      if fd =? STDIN
      then (inr (ztake n (default [] (head (sc_input w)))), mk_script (tail (sc_input w)) (sc_next_fd w))
      else (demo_ext _ (Read fd n), w)
  | Select i o => (inr (i && negb (bool_decide (sc_input w = [])), o), w)
  | c => (demo_ext _ c, w)
  end.
Definition script_world : World :=
  {| world := script; ext := script_ext; dir_left := fun _ _ => O |}.

(** The bytes of a packet. *)
Definition demo_packet (type : Z) (payload : list Z) : list Z := enc_string (type :: payload).
Definition demo_init : list Z := demo_packet SSH2_FXP_INIT (POKE_U32 3).
Definition demo_open (id : Z) (name : list Z) (pflags : Z) : list Z :=
  demo_packet SSH2_FXP_OPEN (POKE_U32 id ++ enc_string name ++ POKE_U32 pflags ++ POKE_U32 0).
Definition demo_write (id handle off : Z) (data : list Z) : list Z :=
  demo_packet SSH2_FXP_WRITE (POKE_U32 id ++ enc_string (POKE_U32 handle) ++ POKE_U64 off ++ enc_string data).
Definition demo_close (id handle : Z) : list Z :=
  demo_packet SSH2_FXP_CLOSE (POKE_U32 id ++ enc_string (POKE_U32 handle)).
Definition demo_remove (id : Z) (name : list Z) : list Z :=
  demo_packet SSH2_FXP_REMOVE (POKE_U32 id ++ enc_string name).

Lemma script_world_ok : @WorldOk script_world.
Proof.
  split; simpl; try done. intros A c w.
  destruct c; simpl; try done; try (by zlen_facts; lia).
  - destruct (_ =? STDIN); simpl; intros.
    + unfold zlen, ztake. rewrite length_take. lia.
    + rewrite zlen_zfill; lia.
  - intros. unfold zlen, ztake. rewrite length_take. simpl. lia.
  - by repeat constructor.
Qed.

(** A queue holding some bytes, and a server that has them as input. *)
Definition demo_queue (l : list Z) : sshbuf :=
  match @sshbuf_new demo_heap38 with
  | Some b => snd (@sshbuf_put demo_heap38 l (zlen l) b)
  | None => demo_buf
  end.
Lemma demo_queue_rw l : zlen l < 2 ^ 62 -> buf_rw (demo_queue l).
Proof.
  intros Hl. unfold demo_queue. destruct (@sshbuf_new demo_heap38) as [b|] eqn:E; [|apply demo_buf_rw].
  apply (@sshbuf_new_rw demo_heap38) in E as [Hb _].
  pose proof (@Puts_put demo_heap38 l (zlen l) ltac:(zlen_facts; lia) ltac:(done)) as Hp. by apply Hp.
Qed.

Definition demo_env (w : script) : @env script_world := @mk_env script_world (MqAt demo_options) w [].
Definition demo_server (readonly init_done : bool) (blacklist : option (list Z)) (input : list Z)
    : @server script_world demo_sha :=
  @mk_server script_world demo_sha (demo_queue input) (demo_queue []) 3 init_done readonly None blacklist
    (str "jane") (@empty_htab demo_sha) (mk_caches ncache_init ncache_init) (demo_env (mk_script [] 3)).
