(* ===== verification/SftpReplies.v ===== *)
(** * One reply per request

    A small program logic for the server: [runs Q m] says that [m], started
    in a sane state with room for a message on the output queue, keeps the
    state sane, only consumes input, and sends nothing or one message that
    [Q] accepts.  Every handler is shown to send exactly one reply with the
    identifier of its request; the dispatch and [process] follow. *)

From S2P Require Import Prelude Sshbuf SftpCommon World LsFile MqNotify Handles SftpServer.

(** ** Readers of a buffer only consume *)

Definition Consumes {E A} (m : SE sshbuf E A) : Prop :=
  forall b, buf_rw b ->
    let b' := snd (m b) in
    buf_rw b' /\ b_max_size b' = b_max_size b /\ exists pre, contents b = pre ++ contents b'.

Lemma Consumes_same {E A} (m : SE sshbuf E A) : (forall b, snd (m b) = b) -> Consumes m.
Proof. intros Hm b Hb. simpl. rewrite Hm. split_and!; try done. by exists []. Qed.
Lemma Consumes_ret {E A} (a : A) : Consumes (mret a : SE sshbuf E A).
Proof. by apply Consumes_same. Qed.
Lemma Consumes_gets {E A} (f : sshbuf -> A) : Consumes (gets f : SE sshbuf E A).
Proof. by apply Consumes_same. Qed.
Lemma Consumes_bind {E A B} (m : SE sshbuf E A) (k : A -> SE sshbuf E B) :
  Consumes m -> (forall a, Consumes (k a)) -> Consumes (m ≫= k).
Proof.
  intros Hm Hk b Hb. destruct (Hm b Hb) as (Hb1 & Hm1 & pre & Hp). unfold mbind, SE_bind.
  destruct (m b) as [[e|a] b1]; simpl in *; [by eauto|].
  destruct (Hk a b1 Hb1) as (Hb2 & Hm2 & pre2 & Hp2). split_and!; [done|congruence|].
  exists (pre ++ pre2). by rewrite Hp, Hp2, app_assoc.
Qed.
Lemma Consumes_on_err {E E' A} (f : E -> E') (m : SE sshbuf E A) : Consumes m -> Consumes (on_err f m).
Proof. intros Hm b Hb. specialize (Hm b Hb). unfold on_err. by destruct (m b) as [[]]. Qed.

Lemma Consumes_abs {E A} (m : SE sshbuf E A) :
  (forall b, buf_rw b -> buf_rw (snd (m b)) /\ exists n, 0 <= n <= zlen (contents b) /\
     abs (snd (m b)) = mk_abuf (zdrop n (contents b)) (b_max_size b)) -> Consumes m.
Proof.
  intros Hm b Hb. destruct (Hm b Hb) as (Hb' & n & Hn & [= Hc Hmax]). split_and!; [done..|].
  exists (ztake n (contents b)). by rewrite Hc, ztake_zdrop.
Qed.
Lemma Consumes_consume n : 0 <= n -> Consumes (sshbuf_consume n).
Proof.
  intros Hn. apply Consumes_abs. intros b Hb. destruct (consume_rw b n Hb Hn) as [He Ha].
  pose proof (zlen_nonneg (contents b)). destruct (Z.ltb_spec (zlen (contents b)) n).
  - rewrite He. simpl. split; [done|]. exists 0. rewrite zdrop_0 by done. split; [lia|done].
  - destruct Ha as [Hb' Ha]; [lia|]. split; [done|]. exists n. split; [lia|done].
Qed.
Lemma Consumes_read {A} n (f : list Z -> A) :
  0 <= n -> Consumes (p ← gets sshbuf_ptr; _ ← sshbuf_consume n; mret (f p)).
Proof.
  intros. apply Consumes_bind; [apply Consumes_gets|]. intros.
  apply Consumes_bind; [by apply Consumes_consume|]. intros. apply Consumes_ret.
Qed.
Lemma Consumes_get_string_direct : Consumes sshbuf_get_string_direct.
Proof.
  apply Consumes_abs. intros b Hb. destruct (get_string_direct_rw b Hb) as (_ & Ha & Hb').
  split; [done|]. rewrite Ha. unfold a_get_string. simpl. pose proof (PEEK_U32_range (contents b)).
  pose proof (zlen_nonneg (contents b)).
  destruct (Z.ltb_spec (zlen (contents b)) 4); simpl; [exists 0; rewrite zdrop_0 by done; split; [lia|done]|].
  destruct (_ <? _); simpl; [exists 0; rewrite zdrop_0 by done; split; [lia|done]|].
  destruct (Z.ltb_spec (zlen (contents b) - 4) (PEEK_U32 (contents b))); simpl;
    [exists 0; rewrite zdrop_0 by done; split; [lia|done]|].
  exists (4 + PEEK_U32 (contents b)). split; [lia|done].
Qed.
Lemma Consumes_malloc_copy `{Allocator} p len : Consumes (malloc_copy p len).
Proof. unfold malloc_copy. destruct (heap_alloc _); [apply Consumes_ret|by apply Consumes_same]. Qed.
Lemma Consumes_get_string `{Allocator} : Consumes sshbuf_get_string.
Proof.
  apply Consumes_bind; [apply Consumes_get_string_direct|]. intros [p len]. apply Consumes_malloc_copy.
Qed.
Lemma Consumes_get_cstring `{Allocator} : Consumes sshbuf_get_cstring.
Proof.
  intros b Hb. unfold sshbuf_get_cstring, sshbuf_skip_string, mbind, SE_bind.
  pose proof (Consumes_get_string_direct b Hb) as Hd. simpl in *.
  destruct (sshbuf_peek_string_direct b) as [r|[p len]]; simpl; [by split_and!; try done; exists []|].
  destruct (_ && _); simpl; [by split_and!; try done; exists []|].
  destruct (sshbuf_get_string_direct b) as [[r|x] b1]; simpl in *; [done|].
  unfold malloc_copy. by destruct (heap_alloc _).
Qed.
Create HintDb consumes.
#[export] Hint Resolve Consumes_ret Consumes_bind Consumes_on_err Consumes_consume
  Consumes_get_string Consumes_get_cstring : consumes.
Lemma Consumes_get_u32 : Consumes sshbuf_get_u32.
Proof. by apply Consumes_read. Qed.
Lemma Consumes_get_u64 : Consumes sshbuf_get_u64.
Proof. by apply Consumes_read. Qed.
Lemma Consumes_get_u8 : Consumes sshbuf_get_u8.
Proof. by apply (Consumes_read 1 (fun p => znth p 0)). Qed.
#[export] Hint Resolve Consumes_get_u8 Consumes_get_u32 Consumes_get_u64 : consumes.

Lemma Consumes_skip_extensions `{Allocator} fuel i count : Consumes (skip_extensions fuel i count).
Proof.
  revert i. induction fuel as [|fuel IH]; intros i; simpl; destruct (count <=? i);
    auto with consumes; [by apply Consumes_same|].
  unfold ret_on_err. auto 10 with consumes.
Qed.
Lemma Consumes_if {E A} (c : bool) (m n : SE sshbuf E A) :
  Consumes m -> Consumes n -> Consumes (if c then m else n).
Proof. by destruct c. Qed.
Lemma Consumes_decode_attrib `{Allocator} : Consumes decode_attrib.
Proof.
  unfold decode_attrib, ret_on_err, fatal_on_err.
  repeat first
    [ apply Consumes_bind; [|intros ?]
    | apply Consumes_if
    | apply Consumes_gets
    | apply Consumes_skip_extensions
    | match goal with |- Consumes (match ?x with _ => _ end) => destruct x end
    | solve [auto with consumes] ].
Qed.
#[export] Hint Resolve Consumes_decode_attrib : consumes.

(** ** The logic *)

Section Logic.
Context `{Allocator} `{World} `{Sha256} `{JsonC} `{Calendar} `{Indet}.

Abbreviation M := (SE server exit_reason).

Record srv_inv (s : server) : Prop := {
  inv_iq : buf_rw (s_iqueue s);
  inv_oq : buf_rw (s_oqueue s);
  inv_htab : htab_inv (s_handles s)
}.

(** The main loop processes a packet only when a message of
    SFTP_MAX_MSG_LENGTH bytes fits the output queue. *)
Definition roomy (s : server) : Prop :=
  zlen (contents (s_oqueue s)) + SFTP_MAX_MSG_LENGTH <= b_max_size (s_oqueue s).

Definition same_config (s s' : server) : Prop :=
  s_readonly s' = s_readonly s /\ s_whitelist s' = s_whitelist s /\
  s_blacklist s' = s_blacklist s /\ s_pw_name s' = s_pw_name s.

(** From [s] to [s'], sending [out]. *)
Definition sent (out : option (list Z)) : list Z :=
  match out with Some body => enc_string body | None => [] end.
Record frame (s s' : server) (out : option (list Z)) : Prop := {
  fr_inv : srv_inv s';
  fr_config : same_config s s';
  fr_oq : contents (s_oqueue s') = contents (s_oqueue s) ++ sent out;
  fr_omax : b_max_size (s_oqueue s') = b_max_size (s_oqueue s);
  fr_iq : exists pre, contents (s_iqueue s) = pre ++ contents (s_iqueue s')
}.

(** Exits a correct server never takes. *)
Definition expected (e : exit_reason) : Prop := e <> Stuck /\ e <> Fatal NoOutputRoom.

Definition runs {A} (room : bool) (Q : A -> option (list Z) -> Prop) (m : M A) : Prop :=
  forall s, srv_inv s -> (room = true -> roomy s) ->
    match m s with
    | (inl e, _) => expected e
    | (inr a, s') => exists out, frame s s' out /\ Q a out
    end.
(** [m] sends nothing and returns a value [P] accepts. *)
Definition quiet {A} (P : A -> Prop) (m : M A) : Prop :=
  runs false (fun a out => out = None /\ P a) m.

Lemma frame_refl s : srv_inv s -> frame s s None.
Proof. intros Hs. split; try done; [by simpl; rewrite app_nil_r|by exists []]. Qed.
Lemma frame_trans s s1 s2 out1 out2 :
  frame s s1 out1 -> frame s1 s2 out2 -> (out1 = None \/ out2 = None) ->
  frame s s2 (match out1 with Some _ => out1 | None => out2 end).
Proof.
  intros [I1 C1 O1 M1 [p1 Q1]] [I2 C2 O2 M2 [p2 Q2]] Hor. split.
  - done.
  - unfold same_config in *. intuition congruence.
  - rewrite O2, O1, <- app_assoc. f_equal.
    destruct out1, out2; simpl; rewrite ?app_nil_r; try done. by destruct Hor.
  - congruence.
  - exists (p1 ++ p2). by rewrite Q1, Q2, app_assoc.
Qed.
Lemma roomy_frame s s' : roomy s -> frame s s' None -> roomy s'.
Proof. unfold roomy. intros Hr [_ _ -> -> _]. simpl. by rewrite app_nil_r. Qed.

Lemma runs_ret {A} room (Q : A -> option (list Z) -> Prop) a : Q a None -> runs room Q (mret a).
Proof. intros HQ s Hs _. exists None. split; [by apply frame_refl|done]. Qed.
Lemma runs_throw {A} room (Q : A -> option (list Z) -> Prop) e : expected e -> runs room Q (throw e).
Proof. by intros He s Hs _. Qed.
Lemma runs_mono {A} room (Q Q' : A -> option (list Z) -> Prop) m :
  runs room Q m -> (forall a out, Q a out -> Q' a out) -> runs room Q' m.
Proof.
  intros Hm HQ s Hs Hr. specialize (Hm s Hs Hr). destruct (m s) as [[e|a] s']; [done|].
  destruct Hm as (out & Hf & Ha). eauto.
Qed.
Lemma runs_bind {A B} room (P : A -> option (list Z) -> Prop) (Q : B -> option (list Z) -> Prop) m k :
  runs room P m ->
  (forall a, P a None -> runs room Q (k a)) ->
  (forall a body, P a (Some body) -> quiet (fun b => Q b (Some body)) (k a)) ->
  runs room Q (m ≫= k).
Proof.
  intros Hm Hnone Hsome s Hs Hr. specialize (Hm s Hs Hr). unfold mbind, SE_bind.
  destruct (m s) as [[e|a] s1]; [done|]. destruct Hm as ([body|] & Hf & Ha).
  - specialize (Hsome a body Ha s1 (fr_inv _ _ _ Hf) ltac:(done)).
    destruct (k a s1) as [[e|b] s2]; [done|]. destruct Hsome as (out & Hf2 & -> & HQ).
    exists (Some body). split; [|done]. apply (frame_trans s s1 s2 (Some body) None); auto.
  - specialize (Hnone a Ha s1 (fr_inv _ _ _ Hf)).
    destruct (k a s1) as [[e|b] s2]; [apply Hnone; eauto using roomy_frame|].
    destruct Hnone as (out & Hf2 & HQ); [eauto using roomy_frame|]. exists out. split; [|done].
    apply (frame_trans s s1 s2 None out); auto.
Qed.
Lemma runs_weaken {A} room (Q : A -> option (list Z) -> Prop) m : runs false Q m -> runs room Q m.
Proof. intros Hm s Hs _. by apply Hm. Qed.

(** The common case: what comes first is silent. *)
Lemma runs_quiet {A B} room (P : A -> Prop) (Q : B -> option (list Z) -> Prop) (m : M A) (k : A -> M B) :
  quiet P m -> (forall a, P a -> runs room Q (k a)) -> runs room Q (m ≫= k).
Proof.
  intros Hm Hk. apply (runs_bind room (fun a out => out = None /\ P a)).
  - by apply runs_weaken.
  - intros a [_ Ha]. by apply Hk.
  - by intros a body [? _].
Qed.
Lemma quiet_ret {A} (P : A -> Prop) a : P a -> quiet P (mret a).
Proof. intros. by apply runs_ret. Qed.
Lemma quiet_bind {A B} (P : A -> Prop) (Q : B -> Prop) (m : M A) (k : A -> M B) :
  quiet P m -> (forall a, P a -> quiet Q (k a)) -> quiet Q (m ≫= k).
Proof. intros. by eapply runs_quiet. Qed.
Lemma quiet_mono {A} (P Q : A -> Prop) (m : M A) :
  quiet P m -> (forall a, P a -> Q a) -> quiet Q m.
Proof. intros Hm HQ. apply (runs_mono _ _ _ _ Hm). intros a out [-> ?]. auto. Qed.

Lemma quiet_gets {A} (f : server -> A) : quiet any (gets f).
Proof. intros s Hs _. exists None. split; [by apply frame_refl|done]. Qed.
Lemma quiet_get_state : quiet any get_state.
Proof. apply quiet_gets. Qed.

(** ** The parts of the state *)

Lemma frame_env s e : srv_inv s -> frame s (set_env e s) None.
Proof. intros Hs. split; try done; [by destruct Hs|by rewrite app_nil_r|by exists []]. Qed.
Lemma frame_caches s c : srv_inv s -> frame s (set_caches c s) None.
Proof. intros Hs. split; try done; [by destruct Hs|by rewrite app_nil_r|by exists []]. Qed.
Lemma frame_table s t : srv_inv s -> htab_inv t -> frame s (set_handles t s) None.
Proof. intros Hs Ht. split; try done; [by destruct Hs|by rewrite app_nil_r|by exists []]. Qed.
Lemma frame_iq s b : srv_inv s -> buf_rw b ->
  (exists pre, contents (s_iqueue s) = pre ++ contents b) -> frame s (set_iqueue b s) None.
Proof. intros Hs Hb Hp. split; try done; [by destruct Hs|by rewrite app_nil_r]. Qed.

Lemma quiet_mq {A} (m : SE env exit_reason A) :
  (forall e, match m e with (inl x, _) => expected x | _ => True end) -> quiet any (mq m).
Proof.
  intros Hm s Hs _. unfold mq, zoom. specialize (Hm (s_env s)).
  destruct (m (s_env s)) as [[x|a] e]; [done|]. exists None. split; [by apply frame_env|done].
Qed.
Lemma quiet_sys `{!WorldOk} {A} (c : call A) : quiet (answer_ok c) (sys c).
Proof.
  intros s Hs _. unfold sys, mq, zoom, do_call. pose proof (answers_ok A c (e_world (s_env s))) as Ha.
  destruct (ext c (e_world (s_env s))) as [r w]. exists None. split; [by apply frame_env|done].
Qed.
Lemma quiet_zoom_iq {E A} (f : E -> exit_reason) (m : SE sshbuf E A) :
  Consumes m -> (forall b, buf_rw b -> match m b with (inl x, _) => expected (f x) | _ => True end) ->
  quiet any (zoom s_iqueue set_iqueue (on_err f m)).
Proof.
  intros Hc He s Hs _. unfold zoom, on_err. specialize (He (s_iqueue s) (inv_iq _ Hs)).
  destruct (Hc (s_iqueue s) (inv_iq _ Hs)) as (Hb & _ & Hp).
  destruct (m (s_iqueue s)) as [[x|a] b]; [done|]. exists None. split; [by apply frame_iq|done].
Qed.
Lemma expected_buffer cause r : cause <> NoOutputRoom -> expected (buffer_fatal cause r).
Proof. intros. unfold buffer_fatal. split; [done|]. destruct (_ =? _); congruence. Qed.
Lemma quiet_iq {A} (m : SE sshbuf Z A) : Consumes m -> quiet any (iq m).
Proof.
  intros Hm. apply quiet_zoom_iq; [done|]. intros b _. destruct (m b) as [[]]; [|done].
  by apply expected_buffer.
Qed.
Lemma quiet_get_path : quiet any get_path.
Proof.
  unfold get_path. eapply quiet_bind; [apply quiet_iq, Consumes_get_cstring|].
  intros. by apply quiet_ret.
Qed.
Lemma decode_attrib_stops b : buf_rw b -> fst (decode_attrib b) <> inl StopFuel.
Proof.
  intros Hb. assert (Hs : stops decode_attrib); [|by apply (Hs b Hb)].
  unfold decode_attrib, ret_on_err, fatal_on_err.
  repeat first
    [ apply stops_skip_extensions
    | apply stops_bind; [|intros ?]
    | apply stops_ret
    | apply stops_on_err; [done|auto with inv]
    | match goal with |- stops (match ?x with _ => _ end) => destruct x end ].
Qed.
Lemma quiet_get_attrib : quiet any get_attrib.
Proof.
  apply quiet_zoom_iq; [apply Consumes_decode_attrib|]. intros b Hb.
  pose proof (decode_attrib_stops b Hb) as Hf. destruct (decode_attrib b) as [[[]|]]; try done.
  by apply expected_buffer.
Qed.
Lemma quiet_get_handle : quiet any get_handle.
Proof.
  eapply quiet_bind; [apply quiet_iq, Consumes_get_string|]. intros.
  eapply quiet_bind; [apply quiet_gets|]. intros. by apply quiet_ret.
Qed.
Lemma quiet_xmem n : quiet any (xmem n).
Proof. unfold xmem. destruct (heap_alloc n); [by apply quiet_ret|by apply runs_throw]. Qed.

Lemma quiet_table {A} (P : A -> Prop) (m : SE htab exit_reason A) :
  (forall t, htab_inv t -> match m t with
                           | (inl e, _) => expected e
                           | (inr a, t') => htab_inv t' /\ P a
                           end) ->
  quiet P (table m).
Proof.
  intros Hm s Hs _. unfold table, zoom. specialize (Hm (s_handles s) (inv_htab _ Hs)).
  destruct (m (s_handles s)) as [[e|a] t]; [done|]. destruct Hm. exists None.
  split; [by apply frame_table|done].
Qed.
End Logic.

(** ** Replies *)

Definition reply_types : list Z :=
  [SSH2_FXP_STATUS; SSH2_FXP_HANDLE; SSH2_FXP_DATA; SSH2_FXP_NAME; SSH2_FXP_ATTRS; SSH2_FXP_EXTENDED_REPLY].
(** [body] is a reply to the request [id]. *)
Definition reply_to (id : Z) (body : list Z) : Prop :=
  exists t rest, t ∈ reply_types /\ body = t :: POKE_U32 id ++ rest.

Section Replies.
Context `{Allocator} `{World} `{Sha256} `{JsonC} `{Calendar} `{Indet}.
Context `{!AllocTotal} `{!HeapBounded} `{!WorldOk}.

Abbreviation M := (SE server exit_reason).

(** [m] sends exactly one message, a reply to [id]. *)
Definition answers {A} (id : Z) (m : M A) : Prop :=
  runs true (fun _ out => exists body, out = Some body /\ reply_to id body) m.
(** [m] replies to [id] if it returns SSH2_FX_OK, and else leaves the reply to
    its caller. *)
Definition answers_if_ok (id : Z) (m : M Z) : Prop :=
  runs true (fun status out =>
    match out with
    | Some body => status = SSH2_FX_OK /\ reply_to id body
    | None => status <> SSH2_FX_OK
    end) m.

Lemma send_ok puts data s :
  Appends puts data -> zlen data + 4 <= SFTP_MAX_MSG_LENGTH -> srv_inv s -> roomy s ->
  exists b, (msg ← build_msg puts; send_msg msg) s = (inr tt, set_oqueue b s) /\ buf_rw b /\
    contents b = contents (s_oqueue s) ++ enc_string data /\ b_max_size b = b_max_size (s_oqueue s).
Proof.
  intros Hp Hl Hs Hr. unfold build_msg.
  destruct sshbuf_new_total as [msg En]. rewrite En.
  destruct (sshbuf_new_rw msg En) as [Hrw [= Hc Hm]].
  destruct (Appends_ok _ _ msg Hp Hrw) as (msg' & E1 & Hrw' & [= Hc' _]).
  { rewrite Hc, Hm, zlen_nil. unfold SFTP_MAX_MSG_LENGTH, SSHBUF_SIZE_MAX in *. lia. }
  unfold_SE. rewrite E1. rewrite Hc, app_nil_l in Hc'.
  unfold send_msg, oq, zoom, on_err.
  pose proof (Puts_Appends _ _ (Puts_stringb msg' (rw_wf _ Hrw'))) as Ha. rewrite Hc' in Ha.
  destruct (Appends_ok _ _ (s_oqueue s) Ha (inv_oq _ Hs)) as (b' & E2 & Hb' & [= Hcb Hmb]).
  { rewrite zlen_app, zlen_POKE_U32. unfold roomy in Hr. lia. }
  rewrite E2. by exists b'.
Qed.
Lemma frame_oq s b data :
  srv_inv s -> buf_rw b -> contents b = contents (s_oqueue s) ++ enc_string data ->
  b_max_size b = b_max_size (s_oqueue s) -> frame s (set_oqueue b s) (Some data).
Proof. intros Hs Hb Hc Hm. split; try done; [by destruct Hs|by exists []]. Qed.
Lemma runs_send puts data :
  Appends puts data -> zlen data + 4 <= SFTP_MAX_MSG_LENGTH ->
  runs true (fun _ out => out = Some data) (msg ← build_msg puts; send_msg msg).
Proof.
  intros Hp Hl s Hs Hr. destruct (send_ok puts data s Hp Hl Hs (Hr eq_refl)) as (b & -> & Hb & Hc & Hm).
  exists (Some data). split; [by apply frame_oq|done].
Qed.

Lemma answers_send id puts data :
  Appends puts data -> reply_to id data -> zlen data + 4 <= SFTP_MAX_MSG_LENGTH ->
  answers id (msg ← build_msg puts; send_msg msg).
Proof.
  intros Hp Hr Hl. apply (runs_mono _ _ _ _ (runs_send _ _ Hp Hl)). intros _ out ->. eauto.
Qed.
Lemma reply_to_header id t rest :
  t ∈ reply_types -> reply_to id ([u8 t] ++ POKE_U32 id ++ rest).
Proof.
  intros Ht. exists t, rest. split; [done|]. simpl. do 2 f_equal.
  repeat (apply elem_of_cons in Ht as [->|Ht]; [done|]). by apply not_elem_of_nil in Ht.
Qed.
Lemma zlen_u8 t : zlen [u8 t] = 1.
Proof. done. Qed.
Lemma Appends_put_str v : Appends (put_str v) (enc_string (cstr v)).
Proof. unfold put_str. apply Puts_Appends, Puts_cstring. Qed.
Lemma zlen_enc_string v : zlen (enc_string v) = 4 + zlen v.
Proof. unfold enc_string. by rewrite zlen_app, zlen_POKE_U32. Qed.
Lemma status_to_message_len status : zlen (cstr (status_to_message status)) <= 21.
Proof. unfold status_to_message. repeat destruct (_ =? _); vm_compute; congruence. Qed.

Ltac reply_type := unfold reply_types; repeat first [left | right; left | right]; done.

(** The body of a status reply, by protocol version. *)
Definition status_body (version id status : Z) : list Z :=
  [u8 SSH2_FXP_STATUS] ++ POKE_U32 id ++ POKE_U32 status ++
  (if 3 <=? version then enc_string (cstr (status_to_message (u32 status))) ++ enc_string (cstr []) else []).
Lemma status_body_appends version id status :
  Appends (_ ← sshbuf_put_u8 SSH2_FXP_STATUS; _ ← sshbuf_put_u32 id; _ ← sshbuf_put_u32 status;
           when (3 <=? version) (_ ← put_str (status_to_message (u32 status)); put_str []))
    (status_body version id status).
Proof.
  apply Appends_bind; [apply Puts_Appends, Puts_u8|].
  apply Appends_bind; [apply Puts_Appends, Puts_u32|].
  apply Appends_bind; [apply Puts_Appends, Puts_u32|].
  apply Appends_when. apply Appends_bind; apply Appends_put_str.
Qed.
Lemma status_body_len version id status : zlen (status_body version id status) + 4 <= SFTP_MAX_MSG_LENGTH.
Proof.
  unfold status_body. rewrite !zlen_app, zlen_u8, !zlen_POKE_U32. unfold SFTP_MAX_MSG_LENGTH.
  pose proof (status_to_message_len (u32 status)).
  destruct (3 <=? version); rewrite ?zlen_app, ?zlen_enc_string, ?zlen_nil; [|lia].
  change (zlen (cstr [])) with 0. lia.
Qed.
Lemma send_status_ok id status s :
  srv_inv s -> roomy s ->
  exists b, send_status id status s = (inr tt, set_oqueue b s) /\
    contents b = contents (s_oqueue s) ++ enc_string (status_body (s_version s) id status).
Proof.
  intros Hs Hr. unfold send_status. rewrite (SE_bind_ok _ _ _ (s_version s) s) by done.
  destruct (send_ok _ _ s (status_body_appends (s_version s) id status)
    (status_body_len _ _ _) Hs Hr) as (b & E & _ & Hc & _). by exists b.
Qed.
Lemma answers_status id status : answers id (send_status id status).
Proof.
  unfold send_status. eapply runs_quiet; [apply quiet_gets|]. intros version _.
  eapply answers_send; [apply status_body_appends| |apply status_body_len].
  apply reply_to_header. apply list_elem_of_here.
Qed.

Lemma answers_data_or_handle id t data dlen :
  t ∈ reply_types -> 0 <= dlen <= zlen data -> dlen <= 64 * 1024 ->
  answers id (send_data_or_handle t id data dlen).
Proof.
  intros Ht Hd Hl. unfold send_data_or_handle. eapply answers_send.
  - eapply Appends_bind; [apply Puts_Appends, Puts_u8|].
    eapply Appends_bind; [apply Puts_Appends, Puts_u32|].
    by apply Puts_Appends, Puts_string.
  - by apply reply_to_header.
  - rewrite !zlen_app, zlen_u8, !zlen_POKE_U32, zlen_ztake by lia. unfold SFTP_MAX_MSG_LENGTH. lia.
Qed.
Lemma answers_attrib id a : answers id (send_attrib id a).
Proof.
  eapply answers_send.
  - eapply Appends_bind; [apply Puts_Appends, Puts_u8|].
    eapply Appends_bind; [apply Puts_Appends, Puts_u32|]. apply encode_attrib_appends.
  - apply reply_to_header. do 4 apply list_elem_of_further. apply list_elem_of_here.
  - rewrite !zlen_app, zlen_u8, !zlen_POKE_U32. pose proof (zlen_attrib_bytes a).
    unfold SFTP_MAX_MSG_LENGTH. lia.
Qed.

Definition name_bytes (e : name_entry) : list Z :=
  enc_string (cstr (n_name e)) ++ enc_string (cstr (n_long_name e)) ++ attrib_bytes (n_attrib e).
Lemma Appends_names stats :
  Appends (mfold (fun _ e => put_name e) stats tt) (concat (map name_bytes stats)).
Proof.
  induction stats as [|e stats IH]; [apply Appends_ret|]. cbn [mfold map concat].
  apply Appends_bind; [|done]. unfold put_name, name_bytes.
  apply Appends_bind; [apply Appends_put_str|]. apply Appends_bind; [apply Appends_put_str|].
  apply encode_attrib_appends.
Qed.
(** Names of at most [k] bytes each. *)
Definition names_within (k : Z) (e : name_entry) : Prop := zlen (n_name e) + zlen (n_long_name e) <= k.
Lemma zlen_names k stats :
  Forall (names_within k) stats -> zlen (concat (map name_bytes stats)) <= zlen stats * (40 + k).
Proof.
  induction 1 as [|e stats He _ IH]; [done|]. cbn [map concat]. rewrite zlen_app, zlen_cons.
  unfold name_bytes, names_within in *. rewrite !zlen_app, !zlen_enc_string.
  pose proof (zlen_attrib_bytes (n_attrib e)). pose proof (zlen_cstr (n_name e)).
  pose proof (zlen_cstr (n_long_name e)). lia.
Qed.
Lemma answers_names id k stats :
  Forall (names_within k) stats -> zlen stats * (40 + k) + 13 <= SFTP_MAX_MSG_LENGTH ->
  answers id (send_names id (zlen stats) stats).
Proof.
  intros Hn Hl. unfold send_names. rewrite ztake_all by done. eapply answers_send.
  - eapply Appends_bind; [apply Puts_Appends, Puts_u8|].
    eapply Appends_bind; [apply Puts_Appends, Puts_u32|].
    eapply Appends_bind; [apply Puts_Appends, Puts_u32|]. apply Appends_names.
  - apply reply_to_header. do 3 apply list_elem_of_further. apply list_elem_of_here.
  - rewrite !zlen_app, zlen_u8, !zlen_POKE_U32. pose proof (zlen_names k stats Hn). lia.
Qed.
Lemma answers_one_name id n :
  zlen n < PATH_MAX -> answers id (send_names id 1 [mk_name n n attrib_clear]).
Proof.
  intros Hn. apply (answers_names id (2 * PATH_MAX) [mk_name n n attrib_clear]); [|done].
  constructor; [|done]. unfold names_within. simpl. unfold PATH_MAX in *. lia.
Qed.
Lemma answers_statvfs id st : answers id (send_statvfs id st).
Proof.
  eapply answers_send.
  - eapply Appends_bind; [apply Puts_Appends, Puts_u8|].
    eapply Appends_bind; [apply Puts_Appends, Puts_u32|].
    do 10 (eapply Appends_bind; [apply Puts_Appends, Puts_u64|]). apply Puts_Appends, Puts_u64.
  - apply reply_to_header. do 5 apply list_elem_of_further. apply list_elem_of_here.
  - rewrite !zlen_app, zlen_u8, !zlen_POKE_U32, !zlen_POKE_U64. done.
Qed.
Lemma answers_handle id h : answers id (send_handle id h).
Proof.
  unfold send_handle. eapply runs_quiet; [apply quiet_xmem|]. intros _ _.
  apply answers_data_or_handle; [|done..]. do 1 apply list_elem_of_further. apply list_elem_of_here.
Qed.
Lemma answers_data id buf : zlen buf <= 64 * 1024 -> answers id (send_data id buf (zlen buf)).
Proof.
  intros. apply answers_data_or_handle; [|zlen_facts; lia|done].
  do 2 apply list_elem_of_further. apply list_elem_of_here.
Qed.

(** ** Shapes of handlers *)

Lemma errno_to_portable_ok e : e <> 0 -> errno_to_portable e <> SSH2_FX_OK.
Proof.
  intros He. unfold errno_to_portable. destruct (Z.eqb_spec e 0); [done|].
  repeat destruct (_ || _); try done. by destruct (_ =? _).
Qed.
Lemma answers_status_tail id m :
  answers_if_ok id m ->
  answers id (status ← m; when (negb (status =? SSH2_FX_OK)) (send_status id status)).
Proof.
  intros Hm. apply (runs_bind _ _ _ _ _ Hm).
  - intros status Hs. rewrite (proj2 (Z.eqb_neq _ _) Hs). apply answers_status.
  - intros status body [-> Hr]. apply quiet_ret. eauto.
Qed.
(** A reply, then silent work that ends in success. *)
Lemma answers_then_ok {A} id (m : M A) (k : A -> M Z) :
  answers id m -> (forall a, quiet (fun st => st = SSH2_FX_OK) (k a)) -> answers_if_ok id (m ≫= k).
Proof.
  intros Hm Hk. apply (runs_bind _ _ _ _ _ Hm).
  - by intros a (body & ? & _).
  - intros a body (b & [= <-] & Hr). apply (quiet_mono _ _ _ (Hk a)). by intros st ->.
Qed.
Lemma answers_then {A B} id (m : M A) (k : A -> M B) :
  answers id m -> (forall a, quiet any (k a)) -> answers id (m ≫= k).
Proof.
  intros Hm Hk. apply (runs_bind _ _ _ _ _ Hm).
  - by intros a (body & ? & _).
  - intros a body (b & [= <-] & Hr). apply (quiet_mono _ _ _ (Hk a)). eauto.
Qed.
Lemma quiet_handle_new use name fd flags dirp :
  use <> HANDLE_UNUSED -> quiet any (table (handle_new use name fd flags dirp)).
Proof.
  intros Hu. apply quiet_table. intros t Ht. pose proof (handle_new_spec use name fd flags dirp t Ht Hu) as Hn.
  destruct (handle_new _ _ _ _ _ t) as [[e|i] t']; [by subst|].
  destruct Hn as [(Hi & _) _]. done.
Qed.

(** ** Closing a handle

    Between the lookup of a handle and the release of its slot the table does
    not move. *)

Definition quiet_at {A} (t : htab) (m : M A) : Prop :=
  forall s, srv_inv s -> s_handles s = t ->
    match m s with
    | (inl e, _) => expected e
    | (inr a, s') => frame s s' None /\ s_handles s' = t
    end.
Lemma quiet_at_bind {A B} t (m : M A) (k : A -> M B) :
  quiet_at t m -> (forall a, quiet_at t (k a)) -> quiet_at t (m ≫= k).
Proof.
  intros Hm Hk s Hs Ht. specialize (Hm s Hs Ht). unfold mbind, SE_bind.
  destruct (m s) as [[e|a] s1]; [done|]. destruct Hm as [Hf Ht1].
  specialize (Hk a s1 (fr_inv _ _ _ Hf) Ht1). destruct (k a s1) as [[e|b] s2]; [done|].
  destruct Hk as [Hf2 Ht2]. split; [|done]. apply (frame_trans s s1 s2 None None); auto.
Qed.
Lemma quiet_at_ret {A} t (a : A) : quiet_at t (mret a).
Proof. intros s Hs Ht. split; [by apply frame_refl|done]. Qed.
Lemma quiet_at_gets {A} t (f : server -> A) : quiet_at t (gets f).
Proof. intros s Hs Ht. split; [by apply frame_refl|done]. Qed.
Lemma quiet_at_throw {A} t e : expected e -> quiet_at t (throw e : M A).
Proof. by intros ? s Hs Ht. Qed.
Lemma quiet_at_mq {A} t (m : SE env exit_reason A) : only_segv m -> quiet_at t (mq m).
Proof.
  intros Hm s Hs Ht. unfold mq, zoom. specialize (Hm (s_env s)).
  destruct (m (s_env s)) as [[x|a] e]; [by subst|]. split; [by apply frame_env|done].
Qed.
Lemma quiet_at_sys {A} t (c : call A) : quiet_at t (sys c).
Proof. apply quiet_at_mq, only_segv_call. Qed.
Lemma quiet_at_get_slot t i : quiet_at t (table (get_slot i)).
Proof.
  intros s Hs Ht. unfold table, zoom, get_slot. destruct (slot _ _); [|done].
  split; [by apply frame_table, Hs|done].
Qed.

(** Silent work that leaves the table alone, then the release of a slot in use. *)
Lemma quiet_release {A} t i h (m : M A) s :
  quiet_at t m -> srv_inv s -> s_handles s = t -> live t i = Some h ->
  match (a ← m; _ ← table (handle_unused i); mret a) s with
  | (inl e, _) => expected e
  | (inr a, s') => frame s s' None
  end.
Proof.
  intros Hm Hs Ht Hl. specialize (Hm s Hs Ht). unfold mbind, SE_bind.
  destruct (m s) as [[e|a] s1]; [done|]. destruct Hm as [Hf Ht1].
  apply live_slot in Hl as [Hsl Hu]. pose proof (inv_htab _ (fr_inv _ _ _ Hf)) as Hi. rewrite Ht1 in Hi.
  destruct (handle_unused_spec t i h Hi Hsl Hu) as (t2 & E & Hi2 & _).
  unfold table, zoom. rewrite Ht1, E. cbn.
  apply (frame_trans s s1 _ None None); auto. apply frame_table; [apply Hf|done].
Qed.

Lemma quiet_at_close_file t h : quiet_at t (close_file h).
Proof.
  unfold close_file. apply quiet_at_bind; [apply quiet_at_sys|]. intros st.
  apply quiet_at_bind; [apply quiet_at_sys|]. intros ret.
  apply quiet_at_bind; [apply quiet_at_gets|]. intros user.
  apply quiet_at_bind; [|intros; apply quiet_at_ret].
  destruct ret; [apply quiet_at_ret|]. destruct (announces_upload _); [|apply quiet_at_ret].
  apply quiet_at_bind; [|intros; apply quiet_at_ret].
  apply quiet_at_mq. apply (only_segv_send (NUpload _ _ _ _ _)).
Qed.
Lemma quiet_at_close_dir t h : quiet_at t (close_dir h).
Proof. unfold close_dir. destruct (h_dirp h); [apply quiet_at_sys|by apply quiet_at_throw]. Qed.

Lemma table_get_slot s i h : slot (s_handles s) i = Some h -> table (get_slot i) s = (inr h, s).
Proof. unfold table, zoom, get_slot. intros ->. by destruct s. Qed.

Lemma quiet_handle_close i : quiet any (handle_close i).
Proof.
  intros s Hs _. unfold handle_close. rewrite (SE_bind_ok _ _ _ (s_handles s) s) by done.
  set (t := s_handles s). rewrite !handle_is_ok_live by done.
  destruct (live t i) as [h|] eqn:El; [|exists None; split; [by apply frame_refl|done]].
  pose proof El as Hsl. apply live_slot in Hsl as [Hsl _].
  assert (Hgo : forall m : M (Z + ()), quiet_at t m ->
    match (a ← m; _ ← table (handle_unused i); mret a) s with
    | (inl e, _) => expected e
    | (inr a, s') => exists out, frame s s' out /\ out = None /\ any a
    end).
  { intros m Hm. pose proof (quiet_release t i h m s Hm Hs eq_refl El) as Hr.
    destruct (mbind _ m s) as [[e|a] s']; [done|]. by exists None. }
  destruct (bool_decide (h_use h = HANDLE_FILE)); [|destruct (bool_decide (h_use h = HANDLE_DIR))].
  - rewrite (SE_bind_ok _ _ _ _ _ (table_get_slot s i h Hsl)). apply Hgo, quiet_at_close_file.
  - rewrite (SE_bind_ok _ _ _ _ _ (table_get_slot s i h Hsl)). apply Hgo, quiet_at_close_dir.
  - exists None. split; [by apply frame_refl|done].
Qed.

(** ** The loop of readdir

    [quiet_left n]: silent work that never adds entries to the directory
    stream [d], of which fewer than [n] are left. *)

Definition quiet_left {A} (d : Z) (n : nat) (P : A -> Prop) (m : M A) : Prop :=
  forall s, srv_inv s -> (dir_left d (e_world (s_env s)) < n)%nat ->
    match m s with
    | (inl e, _) => expected e
    | (inr a, s') => frame s s' None /\ (dir_left d (e_world (s_env s')) < n)%nat /\ P a
    end.
Lemma quiet_left_bind {A B} d n (P : A -> Prop) (Q : B -> Prop) (m : M A) (k : A -> M B) :
  quiet_left d n P m -> (forall a, P a -> quiet_left d n Q (k a)) -> quiet_left d n Q (m ≫= k).
Proof.
  intros Hm Hk s Hs Hd. specialize (Hm s Hs Hd). unfold mbind, SE_bind.
  destruct (m s) as [[e|a] s1]; [done|]. destruct Hm as (Hf & Hd1 & Ha).
  specialize (Hk a Ha s1 (fr_inv _ _ _ Hf) Hd1). destruct (k a s1) as [[e|b] s2]; [done|].
  destruct Hk as (Hf2 & ? & ?). split; [|done]. apply (frame_trans s s1 s2 None None); auto.
Qed.
Lemma quiet_left_ret {A} d n (P : A -> Prop) a : P a -> quiet_left d n P (mret a).
Proof. intros Ha s Hs Hd. split; [by apply frame_refl|done]. Qed.
Lemma quiet_left_xmem d n k : quiet_left d n any (xmem k).
Proof.
  unfold xmem. destruct (heap_alloc k); [by apply quiet_left_ret|]. by intros s Hs Hd.
Qed.
Lemma quiet_left_sys {A} d n (c : call A) :
  (forall w, dir_left d (snd (ext c w)) = dir_left d w) -> quiet_left d n any (sys c).
Proof.
  intros Hc s Hs Hd. unfold sys, mq, zoom, do_call. specialize (Hc (e_world (s_env s))).
  destruct (ext c (e_world (s_env s))) as [r w]. cbn in *. rewrite Hc. split; [by apply frame_env|done].
Qed.
Lemma ls_file_spec name st remote si now c :
  match ls_file name st remote si now c with
  | (inl e, _) => e = Segv
  | (inr long, _) => zlen long <= 1023
  end.
Proof.
  unfold ls_file, user_from_uid, group_from_gid, non_null. unfold_SE.
  assert (Hl : forall l : list Z, zlen (snprintf 1024 l) <= 1023).
  { intros l. unfold snprintf, zlen, ztake. rewrite length_take. lia. }
  destruct remote; cbn; [apply Hl|].
  destruct (cached_name _ _ _ (c_uid c)) as [[u|] cu]; cbn;
  destruct (cached_name _ _ _ (c_gid c)) as [[g|] cg]; cbn; try done.
Qed.
Lemma quiet_left_ls_file d n name st now :
  quiet_left d n (fun l => zlen l <= 1023) (zoom s_caches set_caches (ls_file name st false false now)).
Proof.
  intros s Hs Hd. unfold zoom. pose proof (ls_file_spec name st false false now (s_caches s)) as Hl.
  destruct (ls_file _ _ _ _ _ _) as [[e|l] c]; [by subst|]. split; [by apply frame_caches|done].
Qed.

Lemma readdir_step {B} d n (Q : B -> Prop) (k : option (list Z) -> M B) :
  quiet_left d (S n) Q (k None) ->
  (forall name, zlen name <= 255 -> quiet_left d n Q (k (Some name))) ->
  quiet_left d (S n) Q (dp ← sys (Readdir d); k dp).
Proof.
  intros Hn Hs s Hi Hd. unfold mbind, SE_bind. unfold sys at 1, mq, zoom, do_call.
  pose proof (readdir_left d (e_world (s_env s))) as Hl.
  pose proof (answers_ok _ (Readdir d) (e_world (s_env s))) as Ha.
  destruct (ext (Readdir d) (e_world (s_env s))) as [r w] eqn:Ew. cbn in *.
  set (s1 := set_env _ s). assert (Hf : frame s s1 None) by by apply frame_env.
  assert (Hbind : forall (m : M B) j, quiet_left d j Q m -> (j <= S n)%nat ->
      (dir_left d (e_world (s_env s1)) < j)%nat ->
      match m s1 with
      | (inl e, _) => expected e
      | (inr a, s') => frame s s' None /\ (dir_left d (e_world (s_env s')) < S n)%nat /\ Q a
      end).
  { intros m j Hm Hj Hd1. specialize (Hm s1 (fr_inv _ _ _ Hf) Hd1).
    destruct (m s1) as [[e|b] s2]; [done|]. destruct Hm as (Hf2 & ? & ?).
    split_and!; [|lia|done]. apply (frame_trans s s1 s2 None None); auto. }
  destruct r as [name|].
  - apply (Hbind _ n); [by apply Hs|lia|]. cbn. lia.
  - apply (Hbind _ (S n)); [done|lia|]. cbn. lia.
Qed.

(** ** The handlers *)

Lemma quiet_get_u32 : quiet (fun v => 0 <= v < 2 ^ 32) (iq sshbuf_get_u32).
Proof.
  intros s Hs _. pose proof (quiet_iq _ Consumes_get_u32 s Hs ltac:(done)) as Hq.
  assert (Hv : match fst (iq sshbuf_get_u32 s) with inr v => 0 <= v < 2 ^ 32 | inl _ => True end).
  { unfold iq, zoom, on_err, sshbuf_get_u32. unfold_SE. destruct (sshbuf_consume 4 _) as [[r|[]] b]; [done|].
    apply PEEK_U32_range. }
  destruct (iq sshbuf_get_u32 s) as [[e|v] s']; [done|]. destruct Hq as (out & Hf & -> & _). eauto.
Qed.

Lemma answers_quiet {A B} id (P : A -> Prop) (m : M A) (k : A -> M B) :
  quiet P m -> (forall a, P a -> answers id (k a)) -> answers id (m ≫= k).
Proof. apply runs_quiet. Qed.
Lemma if_ok_quiet {A} id (P : A -> Prop) (m : M A) (k : A -> M Z) :
  quiet P m -> (forall a, P a -> answers_if_ok id (k a)) -> answers_if_ok id (m ≫= k).
Proof. apply runs_quiet. Qed.
Lemma if_ok_ret id status : status <> SSH2_FX_OK -> answers_if_ok id (mret status).
Proof. intros. by apply runs_ret. Qed.
Lemma if_ok_errno id e : e <> 0 -> answers_if_ok id (mret (errno_to_portable e)).
Proof. intros. by apply if_ok_ret, errno_to_portable_ok. Qed.

Lemma quiet_update_slot i f :
  (forall h, h_use (f h) = h_use h /\ h_next_unused (f h) = h_next_unused h) ->
  quiet any (table (update_slot i f)).
Proof.
  intros Hf. apply quiet_table. intros t Ht. pose proof (update_slot_inv t i f Hf Ht) as Hu.
  destruct (update_slot i f t) as [[e|a] t']; [by subst|done].
Qed.
Lemma quiet_guarded i (c : htab -> bool) f :
  (forall h, h_use (f h) = h_use h /\ h_next_unused (f h) = h_next_unused h) ->
  quiet any (table (t ← gets id; when (c t) (update_slot i f))).
Proof.
  intros Hf. apply quiet_table. intros t Ht. pose proof (update_slot_inv t i f Hf Ht) as Hu.
  unfold mbind, SE_bind, gets, when. cbn. destruct (c t); [|done].
  destruct (update_slot i f t) as [[e|a] t']; [by subst|done].
Qed.
Lemma quiet_update_read i n : quiet any (table (handle_update_read i n)).
Proof. by apply (quiet_guarded i (fun t => handle_is_ok t i HANDLE_FILE && (0 <? n))). Qed.
Lemma quiet_update_write i n : quiet any (table (handle_update_write i n)).
Proof. by apply (quiet_guarded i (fun t => handle_is_ok t i HANDLE_FILE && (0 <? n))). Qed.
Lemma quiet_update_checksum i d n : quiet any (table (handle_update_checksum i d n)).
Proof. by apply (quiet_guarded i (fun t => handle_is_ok t i HANDLE_FILE && (0 <? n))). Qed.
Lemma quiet_notify n : quiet any (notify (mq_send n)).
Proof.
  eapply quiet_bind; [apply quiet_mq|intros; by apply quiet_ret].
  intros e. pose proof (only_segv_send n e) as Hn. by destruct (mq_send n e) as [[x|] ?]; [subst|].
Qed.
Lemma quiet_set_attr st asked c : quiet any (set_attr st asked c).
Proof.
  unfold set_attr. destruct asked; [|by apply quiet_ret].
  eapply quiet_bind; [apply quiet_sys|]. intros. by apply quiet_ret.
Qed.

Create HintDb quiet.
#[local] Hint Resolve quiet_get_path quiet_get_attrib quiet_get_handle quiet_gets quiet_get_state
  quiet_xmem quiet_sys quiet_handle_close quiet_update_read quiet_update_write
  quiet_update_checksum quiet_set_attr quiet_notify : quiet.
#[local] Hint Extern 1 (quiet _ (iq _)) => apply quiet_iq; auto with consumes : quiet.
#[local] Hint Extern 1 (quiet _ (table (handle_new _ _ _ _ _))) => by apply quiet_handle_new : quiet.

Ltac q_intro := let x := fresh "x" in let Hx := fresh "Hx" in intros x Hx; cbv beta zeta in *.
Ltac q :=
  lazymatch goal with
  | |- answers _ (_ ≫= _) => eapply answers_quiet; [solve [eauto with quiet]|q_intro]
  | |- answers_if_ok _ (_ ≫= _) => eapply if_ok_quiet; [solve [eauto with quiet]|q_intro]
  | |- quiet _ (_ ≫= _) => eapply quiet_bind; [solve [eauto with quiet]|q_intro]
  end.

Lemma answers_any_status id (m : M Z) :
  quiet any m -> answers id (status ← m; send_status id status).
Proof. intros Hm. eapply answers_quiet; [exact Hm|]. intros. apply answers_status. Qed.
Lemma answers_errno id e : e <> 0 ->
  answers id (when (negb (errno_to_portable e =? SSH2_FX_OK)) (send_status id (errno_to_portable e))).
Proof.
  intros He. rewrite (proj2 (Z.eqb_neq _ _) (errno_to_portable_ok e He)). apply answers_status.
Qed.

Lemma answers_process_open id : answers id (process_open id).
Proof.
  unfold process_open. do 4 q. apply answers_status_tail.
  destruct (open_refused _ _); [by apply if_ok_ret|].
  q. destruct x3 as [e|fd]; [by apply if_ok_errno|]. q.
  destruct (_ <? 0); [q; by apply if_ok_ret|].
  eapply if_ok_quiet; [by apply quiet_update_slot|intros ? ?].
  apply answers_then_ok; [apply answers_handle|intros; by apply quiet_ret].
Qed.
Lemma answers_process_close id : answers id (process_close id).
Proof. unfold process_close. repeat q. apply answers_status. Qed.
Lemma answers_process_read id : answers id (process_read id).
Proof.
  unfold process_read. q. q. eapply answers_quiet; [apply quiet_get_u32|intros len Hlen]. q.
  apply answers_status_tail. destruct (0 <=? _); [|by apply if_ok_ret]. q.
  destruct x2 as [e|[]]; [by apply if_ok_errno|]. q.
  destruct x2 as [e|[|b buf]]; [by apply if_ok_errno|by apply if_ok_ret|].
  apply answers_then_ok; [apply answers_data|].
  - cbn in Hx3. destruct (Z.ltb_spec (64 * 1024) len); lia.
  - intros. q. by apply quiet_ret.
Qed.
Lemma answers_process_write id : answers id (process_write id).
Proof.
  unfold process_write. do 4 q. apply answers_any_status. destruct (_ <? 0); [by apply quiet_ret|].
  apply (quiet_bind any).
  { destruct (negb _); [|by apply quiet_ret]. apply (quiet_mono _ _ _ (quiet_sys _)). done. }
  intros [e|[]] _; [by apply quiet_ret|]. q. destruct x3 as [e|n]; [by apply quiet_ret|].
  destruct (_ =? _); [|by apply quiet_ret]. do 2 q. by apply quiet_ret.
Qed.
Lemma answers_process_do_stat id l : answers id (process_do_stat id l).
Proof.
  unfold process_do_stat. q. apply (answers_quiet _ (err_ok any)).
  { destruct l; apply quiet_sys. }
  intros [e|st] Hr; [by apply answers_errno|apply answers_attrib].
Qed.
Lemma answers_process_fstat id : answers id (process_fstat id).
Proof.
  unfold process_fstat. do 2 q. apply answers_status_tail.
  destruct (0 <=? _); [|by apply if_ok_ret]. q. destruct x1; [by apply if_ok_errno|].
  apply answers_then_ok; [apply answers_attrib|intros; by apply quiet_ret].
Qed.
Lemma answers_process_setstat id : answers id (process_setstat id).
Proof. unfold process_setstat. repeat q. apply answers_status. Qed.
Lemma answers_process_fsetstat id : answers id (process_fsetstat id).
Proof.
  unfold process_fsetstat. do 3 q. apply answers_any_status. destruct (_ <? 0); [by apply quiet_ret|].
  repeat q. auto with quiet.
Qed.
Lemma answers_process_opendir id : answers id (process_opendir id).
Proof.
  unfold process_opendir. do 2 q. apply answers_status_tail.
  destruct x0 as [e|d]; [by apply if_ok_errno|]. q. destruct (_ <? 0); [q; by apply if_ok_ret|].
  apply answers_then_ok; [apply answers_handle|intros; by apply quiet_ret].
Qed.

(** Entries of a listing: at most a hundred, with names that fit. *)
Definition listing (l : list name_entry) : Prop :=
  Forall (names_within (255 + 1023)) l /\ zlen l <= 100.

Lemma readdir_loop_spec d path fuel nstats stats :
  listing stats -> zlen stats < 100 -> quiet_left d fuel listing (readdir_loop fuel d path nstats stats).
Proof.
  revert nstats stats. induction fuel as [|fuel IH]; intros nstats stats Hl Hlt.
  { intros s Hs Hd. lia. }
  simpl. apply readdir_step; [by apply quiet_left_ret|]. intros name Hname.
  apply (quiet_left_bind _ _ any).
  { destruct (_ <=? _); [|by apply quiet_left_ret].
    eapply quiet_left_bind; [apply quiet_left_xmem|]. intros. by apply quiet_left_ret. }
  intros nstats' _. eapply quiet_left_bind; [apply quiet_left_sys, lstat_left|].
  intros [e|st] _; [by apply IH|].
  eapply quiet_left_bind; [apply quiet_left_xmem|]. intros [] _.
  eapply quiet_left_bind; [apply quiet_left_sys, time_left|]. intros now _.
  eapply quiet_left_bind; [apply quiet_left_ls_file|]. intros long Hlong. cbv beta in Hlong.
  eapply quiet_left_bind; [apply quiet_left_xmem|]. intros [] _.
  set (stats' := stats ++ _).
  assert (Hl' : listing stats').
  { destruct Hl as [Hf ?]. split; [|unfold stats'; rewrite zlen_app, zlen_cons, zlen_nil; lia].
    apply Forall_app. split; [done|]. constructor; [|done]. unfold names_within. simpl. lia. }
  destruct (Z.eqb_spec (zlen stats') 100); [by apply quiet_left_ret|].
  apply IH; [done|]. destruct Hl'. lia.
Qed.
Lemma answers_process_readdir id : answers id (process_readdir id).
Proof.
  unfold process_readdir. do 2 q. destruct (handle_to_dir _ _) as [d|]; [|apply answers_status].
  destruct (handle_to_name _ _) as [path|]; [|apply answers_status]. q.
  assert (Hq : quiet listing (fuel ← gets (fun s => S (dir_left d (e_world (s_env s))));
                              readdir_loop fuel d path 10 [])).
  { intros s Hs _. rewrite (SE_bind_ok _ _ _ (S (dir_left d (e_world (s_env s)))) s) by done.
    pose proof (readdir_loop_spec d path (S (dir_left d (e_world (s_env s)))) 10 []) as Hr.
    specialize (Hr ltac:(by split) ltac:(done) s Hs ltac:(lia)).
    destruct (readdir_loop _ _ _ _ _ s) as [[e|l] s']; [done|]. destruct Hr as (? & _ & ?). by exists None. }
  intros s Hs Hr. rewrite <- SE_bind_assoc. revert s Hs Hr.
  change (answers id ((fuel ← gets (fun s => S (dir_left d (e_world (s_env s))));
                              readdir_loop fuel d path 10 []) ≫=
    fun stats => if 0 <? zlen stats then send_names id (zlen stats) stats else send_status id SSH2_FX_EOF)).
  eapply answers_quiet; [exact Hq|]. intros stats [Hn Hl].
  destruct (0 <? _); [|apply answers_status]. apply (answers_names _ _ _ Hn).
  unfold SFTP_MAX_MSG_LENGTH. lia.
Qed.
Lemma answers_process_remove id : answers id (process_remove id).
Proof.
  unfold process_remove. do 2 q. apply answers_then; [apply answers_status|]. intros _. q.
  destruct (_ =? _); [apply (quiet_notify (NRemove _ _))|by apply quiet_ret].
Qed.
Lemma answers_process_mkdir id : answers id (process_mkdir id).
Proof. unfold process_mkdir. repeat q. apply answers_status. Qed.
Lemma answers_process_rmdir id : answers id (process_rmdir id).
Proof. unfold process_rmdir. repeat q. apply answers_status. Qed.
Lemma answers_process_realpath id : answers id (process_realpath id).
Proof.
  unfold process_realpath. q. apply (answers_quiet _ any).
  { destruct (bool_decide _); [|by apply quiet_ret]. q. by apply quiet_ret. }
  intros path _. q. destruct x0; [apply answers_status|]. by apply answers_one_name.
Qed.
Lemma quiet_rename_unless_exists old new : quiet any (rename_unless_exists old new).
Proof. unfold rename_unless_exists. q. destruct x; [q|]; by apply quiet_ret. Qed.
Lemma quiet_do_rename old new : quiet any (do_rename old new).
Proof.
  unfold do_rename. q. destruct x as [|sb]; [by apply quiet_ret|].
  destruct (S_ISREG _); [|apply quiet_rename_unless_exists]. q. destruct x as [e|].
  - destruct (_ || _); [apply quiet_rename_unless_exists|by apply quiet_ret].
  - q. destruct x; [q|]; by apply quiet_ret.
Qed.
Lemma answers_process_rename id : answers id (process_rename id).
Proof.
  unfold process_rename. do 2 q. eapply answers_quiet; [apply quiet_do_rename|]. intros st _.
  apply answers_then; [apply answers_status|]. intros _. q.
  destruct (_ =? _); [apply (quiet_notify (NRename _ _ _))|by apply quiet_ret].
Qed.
Lemma answers_process_readlink id : answers id (process_readlink id).
Proof.
  unfold process_readlink. do 2 q. destruct x0; [apply answers_status|]. apply answers_one_name.
  cbn in Hx0. unfold PATH_MAX in *. lia.
Qed.
Lemma answers_process_symlink id : answers id (process_symlink id).
Proof. unfold process_symlink. repeat q. apply answers_status. Qed.
Lemma answers_posix_rename id : answers id (process_extended_posix_rename id).
Proof.
  unfold process_extended_posix_rename. do 3 q. apply answers_then; [apply answers_status|]. intros _. q.
  destruct (_ =? _); [apply (quiet_notify (NRename _ _ _))|by apply quiet_ret].
Qed.
Lemma answers_statvfs_request id : answers id (process_extended_statvfs id).
Proof.
  unfold process_extended_statvfs. do 2 q. destruct x0; [apply answers_status|apply answers_statvfs].
Qed.
Lemma answers_fstatvfs_request id : answers id (process_extended_fstatvfs id).
Proof.
  unfold process_extended_fstatvfs. do 2 q. destruct (_ <? 0); [apply answers_status|]. q.
  destruct x1; [apply answers_status|apply answers_statvfs].
Qed.
Lemma answers_hardlink id : answers id (process_extended_hardlink id).
Proof. unfold process_extended_hardlink. repeat q. apply answers_status. Qed.
Lemma answers_fsync id : answers id (process_extended_fsync id).
Proof.
  unfold process_extended_fsync. do 2 q. apply answers_any_status.
  destruct (_ <? 0); [by apply quiet_ret|]. destruct (handle_is_ok _ _ _); [q|]; by apply quiet_ret.
Qed.

(** ** Dispatch *)

Definition answering (h : sftp_handler) : Prop := forall id, answers id (sh_handler h id).

Lemma handlers_answer : Forall answering handlers.
Proof.
  repeat constructor; intros id; cbn;
  [ apply answers_process_open | apply answers_process_close | apply answers_process_read
  | apply answers_process_write | apply answers_process_do_stat | apply answers_process_fstat
  | apply answers_process_setstat | apply answers_process_fsetstat | apply answers_process_opendir
  | apply answers_process_readdir | apply answers_process_remove | apply answers_process_mkdir
  | apply answers_process_rmdir | apply answers_process_realpath | apply answers_process_do_stat
  | apply answers_process_rename | apply answers_process_readlink | apply answers_process_symlink ].
Qed.
Lemma extended_handlers_answer : Forall answering extended_handlers.
Proof.
  repeat constructor; intros id; cbn;
  [ apply answers_posix_rename | apply answers_statvfs_request | apply answers_fstatvfs_request
  | apply answers_hardlink | apply answers_fsync ].
Qed.
Lemma answers_run_handler l f h id :
  Forall answering l -> find f l = Some h -> answers id (run_handler h id).
Proof.
  intros Hl Hf. unfold run_handler. q. destruct (negb _); [apply answers_status|].
  apply find_some in Hf as [Hin _]. rewrite Forall_forall in Hl. apply Hl. by apply list_elem_of_In.
Qed.
Lemma answers_process_extended id : answers id (process_extended id).
Proof.
  unfold process_extended. q. destruct (find _ _) as [h|] eqn:E; [|apply answers_status].
  eapply answers_run_handler; [apply extended_handlers_answer|exact E].
Qed.

(** The reply to the init packet: our version and the extensions we have. *)
Definition version_body : list Z :=
  [u8 SSH2_FXP_VERSION] ++ POKE_U32 SSH2_FILEXFER_VERSION ++
  concat (map (fun x => enc_string (str x))
    ["posix-rename@openssh.com"; "1"; "statvfs@openssh.com"; "2"; "fstatvfs@openssh.com"; "2";
     "hardlink@openssh.com"; "1"; "fsync@openssh.com"; "1"])%string.

Lemma quiet_modify f :
  (forall s, srv_inv s -> frame s (f s) None) -> quiet any (modify f).
Proof. intros Hf s Hs _. exists None. split; [by apply Hf|done]. Qed.
Lemma runs_process_init :
  runs true (fun _ out => out = Some version_body) (_ ← process_init; modify set_init_done).
Proof.
  apply (runs_bind _ (fun _ out => out = Some version_body)).
  - unfold process_init. eapply runs_quiet; [apply quiet_get_u32|]. intros v _.
    eapply runs_quiet.
    { apply quiet_modify. intros s Hs. split; try done; [by destruct Hs|by rewrite app_nil_r|by exists []]. }
    intros _ _. apply runs_send; [|done]. unfold version_body. cbn [map concat].
    apply Appends_bind; [apply Puts_Appends, Puts_u8|].
    apply Appends_bind; [apply Puts_Appends, Puts_u32|].
    rewrite app_nil_r. repeat (apply Appends_bind; [apply Appends_put_str|]). apply Appends_put_str.
  - done.
  - intros _ body [= ->]. apply (quiet_mono any); [|done]. apply quiet_modify.
    intros s Hs. split; try done; [by destruct Hs|by rewrite app_nil_r|by exists []].
Qed.

(** Packet types that get a reply. *)
Definition handled (type : Z) : bool :=
  (type =? SSH2_FXP_EXTENDED) || existsb (fun h => type =? sh_type h) handlers.

(** What [dispatch] owes a packet of this type, whose payload starts at
    [input] and of which it reads [read]. *)
Definition owed (type : Z) (input read : list Z) (out : option (list Z)) : Prop :=
  if type =? SSH2_FXP_INIT then out = Some version_body
  else 4 <= zlen read /\
    if handled type then exists body, out = Some body /\ reply_to (PEEK_U32 input) body
    else out = None.

Lemma iq_get_u32 s :
  srv_inv s ->
  match iq sshbuf_get_u32 s with
  | (inl e, _) => expected e
  | (inr v, s') => frame s s' None /\ v = PEEK_U32 (contents (s_iqueue s)) /\
      exists pre, contents (s_iqueue s) = pre ++ contents (s_iqueue s') /\ zlen pre = 4
  end.
Proof.
  intros Hs. pose proof (quiet_iq _ Consumes_get_u32 s Hs ltac:(done)) as Hq.
  destruct (Refines_get_u32 (s_iqueue s) (inv_iq _ Hs)) as (Hr & Ha & _).
  unfold iq, zoom, on_err in *. destruct (sshbuf_get_u32 (s_iqueue s)) as [[e|v] b']; [done|].
  destruct Hq as (out & Hf & -> & _). split; [done|]. cbn in *. unfold mbind, SE_bind, a_take in *. cbn in *.
  destruct (Z.ltb_spec (zlen (contents (s_iqueue s))) 4); [done|]. cbn in *.
  injection Hr as ->. injection Ha as Hc Hm. split; [by rewrite PEEK_U32_ztake|].
  exists (ztake 4 (contents (s_iqueue s))). rewrite Hc, ztake_zdrop, zlen_ztake by lia. done.
Qed.

Lemma dispatch_spec type s :
  srv_inv s -> roomy s ->
  match dispatch type s with
  | (inl e, _) => expected e
  | (inr _, s') => exists read out, frame s s' out /\
      contents (s_iqueue s) = read ++ contents (s_iqueue s') /\ owed type (contents (s_iqueue s)) read out
  end.
Proof.
  intros Hs Hr. unfold dispatch. rewrite (SE_bind_ok _ _ _ (s_init_done s) s) by done. unfold owed.
  destruct (Z.eqb_spec type SSH2_FXP_INIT) as [->|Hni].
  { pose proof (runs_process_init s Hs (fun _ => Hr)) as Hi. destruct (mbind _ process_init s) as [[e|a] s']; [done|].
    destruct Hi as (out & Hf & ->). destruct (fr_iq _ _ _ Hf) as [pre Hp]. by exists pre, (Some version_body). }
  assert (Hgo : forall (k : Z -> M ()) P,
    (forall id, runs true (P id) (k id)) ->
    match (_ ← guard_or (s_init_done s) (Fatal BeforeInit); id ← iq sshbuf_get_u32; k id) s with
    | (inl e, _) => expected e
    | (inr _, s') => exists read out, frame s s' out /\
        contents (s_iqueue s) = read ++ contents (s_iqueue s') /\ 4 <= zlen read /\
        P (PEEK_U32 (contents (s_iqueue s))) tt out
    end).
  { intros k P Hk. destruct (s_init_done s); [|done]. rewrite (SE_bind_ok _ _ _ tt s) by done.
    pose proof (iq_get_u32 s Hs) as Hq. unfold mbind, SE_bind.
    destruct (iq sshbuf_get_u32 s) as [[e|id] s1]; [done|]. destruct Hq as (Hf & -> & pre & Hp & Hp4).
    specialize (Hk (PEEK_U32 (contents (s_iqueue s))) s1 (fr_inv _ _ _ Hf)).
    destruct (k _ s1) as [[e|[]] s2]; [apply Hk; eauto using roomy_frame|].
    destruct Hk as (out & Hf2 & HP); [eauto using roomy_frame|]. destruct (fr_iq _ _ _ Hf2) as [pre2 Hp2].
    exists (pre ++ pre2), out. split_and!; [|by rewrite Hp, Hp2, app_assoc|rewrite zlen_app; zlen_facts; lia|done].
    apply (frame_trans s s1 s2 None out); auto. }
  unfold handled. destruct (Z.eqb_spec type SSH2_FXP_EXTENDED) as [->|Hne]; cbn [orb].
  { apply (Hgo process_extended (fun id _ out => exists body, out = Some body /\ reply_to id body)).
    apply answers_process_extended. }
  destruct (find (fun h => type =? sh_type h) handlers) as [h|] eqn:Ef.
  - rewrite (proj2 (existsb_exists _ _)) by (exists h; by apply find_some in Ef).
    apply (Hgo (run_handler h) (fun id _ out => exists body, out = Some body /\ reply_to id body)).
    intros id. eapply answers_run_handler; [apply handlers_answer|exact Ef].
  - replace (existsb _ _) with false.
    2:{ symmetry. apply not_true_is_false. intros (h & Hin & Ht)%existsb_exists.
        pose proof (find_none _ _ Ef h Hin). congruence. }
    apply (Hgo (fun _ => mret tt) (fun _ _ out => out = None)). intros. by apply runs_ret.
Qed.

(** ** A packet *)

(** The input holds no complete packet. *)
Definition incomplete (input : list Z) : Prop :=
  zlen input < 5 \/ PEEK_U32 input <= SFTP_MAX_MSG_LENGTH /\ zlen input < PEEK_U32 input + 4.
(** The input starts with a packet of this type and payload. *)
Definition packet (input : list Z) (type : Z) (payload rest : list Z) : Prop :=
  exists hdr, input = hdr ++ type :: payload ++ rest /\ zlen hdr = 4 /\
    PEEK_U32 input = 1 + zlen payload.

Lemma runs_cleanup_exit {A} i room (Q : A -> option (list Z) -> Prop) :
  runs room Q (sftp_server_cleanup_exit i).
Proof.
  unfold sftp_server_cleanup_exit. eapply runs_quiet.
  - apply quiet_mq. intros e. pose proof (only_segv_clean e) as Hc.
    by destruct (clean_mq_config e) as [[x|] ?]; [subst|].
  - intros. by apply runs_throw.
Qed.
Lemma cleanup_exit_exits {A} i s : srv_inv s ->
  match (sftp_server_cleanup_exit i : M A) s with (inl e, _) => expected e | (inr _, _) => False end.
Proof.
  intros Hs. pose proof (runs_cleanup_exit (A := A) i false (fun _ _ => False) s Hs ltac:(done)) as Hr.
  destruct (sftp_server_cleanup_exit i s) as [[e|a] s']; [done|]. by destruct Hr as (? & _ & []).
Qed.
Lemma iq_consume n s :
  srv_inv s -> 0 <= n <= zlen (contents (s_iqueue s)) ->
  exists s', iq (sshbuf_consume n) s = (inr tt, s') /\ frame s s' None /\
    contents (s_iqueue s') = zdrop n (contents (s_iqueue s)).
Proof.
  intros Hs Hn. destruct (consume_rw (s_iqueue s) n (inv_iq _ Hs)) as [He Ha]; [lia|].
  destruct Ha as [Hb [= Hc Hm]]; [lia|]. rewrite (proj2 (Z.ltb_ge _ _)) in He by lia.
  unfold iq, zoom, on_err. rewrite He. eexists. split; [done|]. split; [|done].
  apply frame_iq; [done..|]. exists (ztake n (contents (s_iqueue s))). by rewrite Hc, ztake_zdrop.
Qed.
Lemma iq_get_u8 s :
  srv_inv s -> 1 <= zlen (contents (s_iqueue s)) ->
  exists s', iq sshbuf_get_u8 s = (inr (znth (contents (s_iqueue s)) 0), s') /\ frame s s' None /\
    contents (s_iqueue s') = zdrop 1 (contents (s_iqueue s)).
Proof.
  intros Hs Hl. pose proof (quiet_iq _ Consumes_get_u8 s Hs ltac:(done)) as Hq.
  destruct (Refines_get_u8 (s_iqueue s) (inv_iq _ Hs)) as (Hr & Ha & _).
  unfold iq, zoom, on_err in *. destruct (sshbuf_get_u8 (s_iqueue s)) as [r b']. cbn in *.
  unfold mbind, SE_bind, a_take in *. cbn in *. rewrite (proj2 (Z.ltb_ge _ _)) in Hr, Ha by lia. cbn in *.
  subst r. injection Ha as Hc _. rewrite znth_ztake by lia. eexists. split; [done|].
  destruct Hq as (out & Hf & -> & _). done.
Qed.

Lemma input_PEEK s : srv_inv s -> 4 <= zlen (contents (s_iqueue s)) ->
  get_u32 (sshbuf_ptr (s_iqueue s)) = PEEK_U32 (contents (s_iqueue s)).
Proof.
  intros Hs Hl. rewrite get_u32_PEEK, sshbuf_ptr_contents by apply Hs.
  rewrite <- (PEEK_U32_ztake 4), ztake_app_l, PEEK_U32_ztake; lia || done.
Qed.

(** The tail of [process]: skip what is left of the packet. *)
Lemma skip_rest s n msg_len total :
  srv_inv s -> zlen (contents (s_iqueue s)) + n = total -> 0 <= n -> 0 <= msg_len <= total ->
  total < 2 ^ 32 ->
  match (left ← gets (fun s => sshbuf_len (s_iqueue s));
         if total <? left then sftp_server_cleanup_exit 255
         else
           let consumed := u32 (total - left) in
           if msg_len <? consumed then sftp_server_cleanup_exit 255
           else when (consumed <? msg_len) (iq (sshbuf_consume (msg_len - consumed)))) s with
  | (inl e, _) => expected e
  | (inr _, s') => n <= msg_len /\ frame s s' None /\
      contents (s_iqueue s') = zdrop (msg_len - n) (contents (s_iqueue s))
  end.
Proof.
  intros Hs Ht Hn Hm Hb. pose proof (zlen_nonneg (contents (s_iqueue s))).
  rewrite (SE_bind_ok _ _ _ (sshbuf_len (s_iqueue s)) s) by done.
  rewrite sshbuf_len_contents by apply Hs. rewrite (proj2 (Z.ltb_ge _ _)) by lia. cbv zeta.
  rewrite u32_id by lia. replace (total - zlen (contents (s_iqueue s))) with n by lia.
  destruct (Z.ltb_spec msg_len n).
  { pose proof (cleanup_exit_exits (A := ()) 255 s Hs) as He.
    by destruct (sftp_server_cleanup_exit 255 s) as [[e|a] s']. }
  destruct (Z.ltb_spec n msg_len); cbn [when].
  - destruct (iq_consume (msg_len - n) s Hs) as (s' & -> & Hf & Hc); [lia|]. done.
  - split; [done|]. split; [by apply frame_refl|]. by rewrite zdrop_0 by lia.
Qed.

Lemma PEEK_U32_app l l' : 4 <= zlen l -> PEEK_U32 (l ++ l') = PEEK_U32 l.
Proof.
  intros Hl. rewrite <- (PEEK_U32_ztake 4 (l ++ l')), ztake_app_l by lia. by apply PEEK_U32_ztake.
Qed.

(** What a packet is owed. *)
Definition reply_owed (type : Z) (payload : list Z) (out : option (list Z)) : Prop :=
  if type =? SSH2_FXP_INIT then out = Some version_body
  else 4 <= zlen payload /\
    if handled type then exists body, out = Some body /\ reply_to (PEEK_U32 payload) body
    else out = None.

(** [process] past its guards: one packet of [msg_len] bytes. *)
Lemma process_packet s msg_len :
  srv_inv s -> roomy s -> let input := contents (s_iqueue s) in
  5 <= zlen input -> PEEK_U32 input = msg_len -> msg_len + 4 <= zlen input ->
  match (_ ← iq (sshbuf_consume 4);
         let buf_len := zlen input - 4 in
         type ← iq sshbuf_get_u8;
         _ ← dispatch type;
         left ← gets (fun s => sshbuf_len (s_iqueue s));
         if buf_len <? left then sftp_server_cleanup_exit 255
         else
           let consumed := u32 (buf_len - left) in
           if msg_len <? consumed then sftp_server_cleanup_exit 255
           else when (consumed <? msg_len) (iq (sshbuf_consume (msg_len - consumed)))) s with
  | (inl e, _) => expected e
  | (inr _, s') => exists type payload out, packet input type payload (contents (s_iqueue s')) /\
      frame s s' out /\ reply_owed type payload out
  end.
Proof.
  intros Hs Hr input Hl Hm Hml. pose proof (PEEK_U32_range input) as Hrange.
  assert (Hmax : zlen input <= SSHBUF_SIZE_MAX).
  { unfold input. pose proof (rw_wf _ (inv_iq _ Hs)) as Hwf. rewrite zlen_contents by done. destruct Hwf. lia. }
  destruct (iq_consume 4 s Hs) as (s1 & E1 & Hf1 & Hc1); [fold input; lia|].
  rewrite (SE_bind_ok _ _ _ _ _ E1). cbv zeta.
  destruct (iq_get_u8 s1 (fr_inv _ _ _ Hf1)) as (s2 & E2 & Hf2 & Hc2); [rewrite Hc1, zlen_zdrop; fold input; lia|].
  rewrite (SE_bind_ok _ _ _ _ _ E2). fold input in Hc1. rewrite Hc1 in *.
  set (type := znth (zdrop 4 input) 0).
  assert (Hsplit : zdrop 4 input = type :: contents (s_iqueue s2)).
  { rewrite Hc2. unfold type. destruct (zdrop 4 input) as [|b l] eqn:E; [|done].
    pose proof (zlen_zdrop 4 input ltac:(lia)) as Hz. rewrite E, zlen_nil in Hz. lia. }
  assert (Hf02 : frame s s2 None) by (apply (frame_trans s s1 s2 None None); auto).
  pose proof (dispatch_spec type s2 (fr_inv _ _ _ Hf2) (roomy_frame _ _ Hr Hf02)) as Hd.
  unfold mbind at 1, SE_bind at 1. destruct (dispatch type s2) as [[e|[]] s3]; [done|].
  destruct Hd as (read & out & Hf3 & Hc3 & Ho).
  assert (Hlen : zlen input = 5 + zlen read + zlen (contents (s_iqueue s3))).
  { pose proof (zlen_zdrop 4 input ltac:(lia)) as Hz. rewrite Hsplit, zlen_cons, Hc3, zlen_app in Hz. lia. }
  pose proof (zlen_nonneg read) as Hread.
  pose proof (skip_rest s3 (1 + zlen read) msg_len (zlen input - 4) (fr_inv _ _ _ Hf3)
    ltac:(lia) ltac:(lia) ltac:(lia) ltac:(unfold SSHBUF_SIZE_MAX in *; lia)) as Hk. cbv zeta in Hk.
  destruct (mbind _ (gets _) s3) as [[e|a] s4]; [done|]. destruct Hk as (Hle & Hf4 & Hc4).
  set (payload := ztake (msg_len - 1) (contents (s_iqueue s2))).
  assert (Hpay : contents (s_iqueue s2) = payload ++ contents (s_iqueue s4)).
  { rewrite Hc4. unfold payload. rewrite <- (ztake_zdrop (msg_len - 1) (contents (s_iqueue s2))) at 1.
    f_equal. rewrite Hc3, zdrop_app_r by lia. f_equal. lia. }
  assert (Hplen : zlen payload = msg_len - 1).
  { unfold payload. apply zlen_ztake. rewrite Hc3, zlen_app. lia. }
  exists type, payload, out. split_and!.
  - exists (ztake 4 input). rewrite <- Hpay, <- Hsplit, ztake_zdrop, zlen_ztake by lia. split_and!; lia || done.
  - apply (frame_trans s s2 s4 None out); auto.
    replace out with (match out with Some _ => out | None => None end) by by destruct out.
    apply (frame_trans s2 s3 s4 out None); auto.
  - unfold owed, reply_owed in *. destruct (type =? SSH2_FXP_INIT); [done|]. destruct Ho as [H4' Ho].
    split; [lia|]. destruct (handled type); [|done]. rewrite Hpay, PEEK_U32_app in Ho by lia. done.
Qed.

Lemma process_spec s :
  srv_inv s -> roomy s ->
  match process s with
  | (inl e, _) => expected e
  | (inr _, s') =>
      (s' = s /\ incomplete (contents (s_iqueue s))) \/
      exists type payload out,
        packet (contents (s_iqueue s)) type payload (contents (s_iqueue s')) /\
        frame s s' out /\ reply_owed type payload out
  end.
Proof.
  intros Hs Hr. unfold process, get_state. rewrite (SE_bind_ok _ _ _ s s) by done. cbv zeta.
  set (input := contents (s_iqueue s)).
  assert (Hmax : 0 <= zlen input <= SSHBUF_SIZE_MAX).
  { split; [apply zlen_nonneg|]. pose proof (rw_wf _ (inv_iq _ Hs)) as Hwf. unfold input.
    rewrite zlen_contents by done. destruct Hwf. lia. }
  rewrite sshbuf_len_contents by apply Hs. fold input.
  rewrite (u32_id (zlen input)) by (unfold SSHBUF_SIZE_MAX in *; lia).
  destruct (Z.ltb_spec (zlen input) 5); [left; split; [done|by left]|].
  rewrite input_PEEK by (done || fold input; lia). fold input. pose proof (PEEK_U32_range input).
  destruct (Z.ltb_spec SFTP_MAX_MSG_LENGTH (PEEK_U32 input)).
  { pose proof (cleanup_exit_exits (A := ()) 11 s Hs) as He.
    by destruct (sftp_server_cleanup_exit 11 s) as [[e|a] s']. }
  rewrite (u32_id (PEEK_U32 input + 4)) by (unfold SFTP_MAX_MSG_LENGTH in *; lia).
  destruct (Z.ltb_spec (zlen input) (PEEK_U32 input + 4)).
  { left. split; [done|]. right. done. }
  rewrite (u32_id (zlen input - 4)) by (unfold SSHBUF_SIZE_MAX in *; lia).
  pose proof (process_packet s (PEEK_U32 input) Hs Hr ltac:(done) eq_refl ltac:(done)) as Hp.
  fold input in Hp. cbv zeta in Hp.
  destruct (mbind _ (iq (sshbuf_consume 4)) s) as [[e|a] s']; [done|]. by right.
Qed.
Lemma process_sane s :
  srv_inv s -> roomy s ->
  match process s with
  | (inl e, _) => expected e
  | (inr _, s') => exists out, frame s s' out
  end.
Proof.
  intros Hs Hr. pose proof (process_spec s Hs Hr) as Hp. destruct (process s) as [[e|a] s']; [done|].
  destruct Hp as [[-> _]|(type & payload & out & _ & Hf & _)]; [exists None; by apply frame_refl|eauto].
Qed.
End Replies.

(** ** Properties *)

Section Properties.
Context `{Allocator} `{World} `{Sha256} `{JsonC} `{Calendar} `{Indet}.
Context `{!AllocTotal} `{!HeapBounded} `{!WorldOk}.

(** C2: from a sane state with room for a message on the output queue,
    [process] either waits for the rest of a packet and changes nothing, or
    takes exactly one packet off the input and sends what it is owed: the
    version reply for an init, one reply carrying the request's identifier
    for every request type of the protocol, nothing for an unknown type.  It
    keeps the buffers, the handle table and the configuration intact.  If it
    ends the process, it is never because a reply did not fit or a loop did
    not end. *)
Theorem process_answers_packet (s : server) :
  srv_inv s -> roomy s ->
  match process s with
  | (inl e, _) => expected e
  | (inr _, s') =>
      (s' = s /\ incomplete (contents (s_iqueue s))) \/
      exists type payload out,
        packet (contents (s_iqueue s)) type payload (contents (s_iqueue s')) /\
        frame s s' out /\ reply_owed type payload out
  end.
Proof.
  apply process_spec.
Qed.
End Properties.

Lemma demo_server_inv readonly init_done bl input :
  zlen input < 2 ^ 62 -> srv_inv (demo_server readonly init_done bl input).
Proof. intros. split; [by apply demo_queue_rw|by apply demo_queue_rw|apply empty_htab_inv]. Qed.

Lemma process_answers_packet_witness :
  match @process demo_heap38 script_world demo_sha demo_jsonc demo_calendar demo_indet
          (demo_server false true None (demo_remove 9 (str "/f"))) with
  | (inl e, _) => expected e
  | (inr _, s') =>
      (s' = demo_server false true None (demo_remove 9 (str "/f")) /\
       incomplete (contents (demo_queue (demo_remove 9 (str "/f"))))) \/
      exists type payload out,
        packet (contents (demo_queue (demo_remove 9 (str "/f")))) type payload (contents (s_iqueue s')) /\
        frame (demo_server false true None (demo_remove 9 (str "/f"))) s' out /\
        @reply_owed demo_heap38 script_world demo_sha demo_jsonc demo_calendar demo_indet type payload out
  end.
Proof.
  refine (@process_answers_packet demo_heap38 script_world demo_sha demo_jsonc demo_calendar demo_indet
    demo_heap38_total demo_heap38_bounded script_world_ok (demo_server false true None (demo_remove 9 (str "/f"))) _ _).
  - apply demo_server_inv. done.
  - unfold roomy. vm_compute. congruence.
Defined.
