(* ===== verification/MainLoop.v ===== *)
(** * The main loop of sftp_server_main

    One round reads at most one chunk from stdin, flushes at most one chunk
    to stdout and processes at most one packet.  The rounds keep the server
    sane for ever, and neither queue loses or reorders bytes. *)

From stdpp Require Import relations.
From S2P Require Import Prelude Sshbuf SftpCommon World LsFile MqNotify Handles SftpServer SftpReplies.

Section Loop.
Context `{Allocator} `{World} `{Sha256} `{JsonC} `{Calendar} `{Indet}.
Context `{!AllocTotal} `{!HeapBounded} `{!WorldOk}.

Abbreviation M := (SE server exit_reason).

(** One round of the queues: [read] came in, [used] was processed, [flushed]
    went out and [out] was sent. *)
Record round_io (s s' : server) (read used flushed : list Z) (out : option (list Z)) : Prop := {
  io_inv : srv_inv s';
  io_config : same_config s s';
  io_in : contents (s_iqueue s) ++ read = used ++ contents (s_iqueue s');
  io_out : contents (s_oqueue s) ++ sent out = flushed ++ contents (s_oqueue s')
}.

Lemma has_room_spec b len s :
  buf_rw b -> 0 <= len -> has_room b len s = (inr (zlen (contents b) + len <=? b_max_size b), s).
Proof.
  intros Hb Hl. unfold has_room. rewrite check_reserve_rw by done.
  destruct (Z.ltb_spec (b_max_size b) (zlen (contents b) + len)); cbn.
  - rewrite (proj2 (Z.leb_gt _ _)) by lia. done.
  - rewrite (proj2 (Z.leb_le _ _)) by lia. done.
Qed.

Lemma sys_spec {A} (c : call A) s :
  exists r e, sys c s = (inr r, set_env e s) /\ answer_ok c r.
Proof.
  unfold sys, mq, zoom, do_call. pose proof (answers_ok _ c (e_world (s_env s))) as Ha.
  destruct (ext c (e_world (s_env s))) as [r w]. cbn. eauto.
Qed.
Lemma set_env_inv e s : srv_inv s -> srv_inv (set_env e s).
Proof. by intros []. Qed.

Lemma exits_never {A} i s (P : server -> Prop) : srv_inv s ->
  match (sftp_server_cleanup_exit i : M A) s with (inl e, _) => expected e | (inr _, s') => P s' end.
Proof.
  intros Hs. pose proof (cleanup_exit_exits (A := A) i s Hs) as He.
  by destruct (sftp_server_cleanup_exit i s) as [[e|a] s'].
Qed.

Lemma copy_stdin_spec s :
  srv_inv s -> zlen (contents (s_iqueue s)) + read_size <= b_max_size (s_iqueue s) ->
  match copy_stdin s with
  | (inl e, _) => expected e
  | (inr _, s') => exists read, round_io s s' read [] [] None /\ s_oqueue s' = s_oqueue s
  end.
Proof.
  intros Hs Hr. unfold copy_stdin. destruct (sys_spec (Read STDIN read_size) s) as (r & e & E & Hok).
  rewrite (SE_bind_ok _ _ _ _ _ E). pose proof (set_env_inv e s Hs) as Hs1.
  destruct r as [errno|[|b buf]]; [by apply exits_never..|].
  cbn in Hok. set (data := b :: buf) in *. specialize (Hok ltac:(done)). pose proof (zlen_nonneg data).
  unfold iq, zoom, on_err. pose proof (Puts_Appends _ _ (Puts_put data (zlen data)
    ltac:(unfold read_size in *; lia) ltac:(lia))) as Ha.
  rewrite ztake_all in Ha by lia.
  destruct (Appends_ok _ _ (s_iqueue s) Ha (inv_iq _ Hs)) as (b' & E' & Hb' & [= Hc Hm]); [lia|].
  cbn [s_iqueue set_env]. rewrite E'. exists data. split; [|done].
  split; [by destruct Hs|done|by cbn; rewrite Hc|by cbn; rewrite app_nil_r].
Qed.

Lemma copy_stdout_spec s :
  srv_inv s ->
  match copy_stdout (zlen (contents (s_oqueue s))) s with
  | (inl e, _) => expected e
  | (inr _, s') => exists flushed, round_io s s' [] [] flushed None /\ s_iqueue s' = s_iqueue s
  end.
Proof.
  intros Hs. unfold copy_stdout. rewrite (SE_bind_ok _ _ _ (s_oqueue s) s) by done.
  rewrite sshbuf_ptr_contents, ztake_app_exact by (done || apply Hs).
  destruct (sys_spec (Write STDOUT (contents (s_oqueue s))) s) as (r & e & E & Hok).
  rewrite (SE_bind_ok _ _ _ _ _ E). pose proof (set_env_inv e s Hs) as Hs1.
  destruct r as [errno|n]; [by apply exits_never|]. cbn in Hok.
  destruct (consume_rw (s_oqueue s) n (inv_oq _ Hs)) as [He Ha]; [lia|].
  destruct Ha as [Hb [= Hc Hm]]; [lia|]. rewrite (proj2 (Z.ltb_ge _ _)) in He by lia.
  unfold oq, zoom, on_err. cbn [s_oqueue set_env]. rewrite He. exists (ztake n (contents (s_oqueue s))).
  split; [|done]. split; [by destruct Hs|done|by cbn; rewrite app_nil_r|].
  cbn. by rewrite Hc, ztake_zdrop, app_nil_r.
Qed.

Lemma process_io s :
  srv_inv s -> roomy s ->
  match process s with
  | (inl e, _) => expected e
  | (inr _, s') => exists used out, round_io s s' [] used [] out
  end.
Proof.
  intros Hs Hr. pose proof (process_sane s Hs Hr) as Hp.
  destruct (process s) as [[e|[]] s']; [done|]. destruct Hp as (out & [Hi Hc Ho _ [used Hu]]).
  exists used, out. split; [done..|by rewrite app_nil_r|done].
Qed.

Lemma round_io_refl s : srv_inv s -> round_io s s [] [] [] None.
Proof. intros. split; [done..|by rewrite app_nil_r|by rewrite app_nil_r]. Qed.
Lemma round_io_trans s s1 s2 read used flushed out :
  round_io s s1 read [] flushed None -> round_io s1 s2 [] used [] out ->
  round_io s s2 read used flushed out.
Proof.
  intros [_ C1 I1 O1] [Inv2 C2 I2 O2]. cbn in *. rewrite app_nil_r in I2, O1. split.
  - done.
  - unfold same_config in *. intuition congruence.
  - congruence.
  - by rewrite O1, <- O2, app_assoc.
Qed.
Lemma round_io_copy s s1 s2 read flushed :
  round_io s s1 read [] [] None -> round_io s1 s2 [] [] flushed None ->
  round_io s s2 read [] flushed None.
Proof.
  intros [_ C1 I1 O1] [Inv2 C2 I2 O2]. cbn in *. rewrite app_nil_r in *. split.
  - done.
  - unfold same_config in *. intuition congruence.
  - cbn. congruence.
  - cbn. rewrite app_nil_r. congruence.
Qed.
Lemma round_io_env s s1 e read used flushed out :
  round_io (set_env e s) s1 read used flushed out -> round_io s s1 read used flushed out.
Proof. by intros []. Qed.

Lemma when_stdin s c :
  srv_inv s ->
  (c = true -> zlen (contents (s_iqueue s)) + read_size <= b_max_size (s_iqueue s)) ->
  match when c copy_stdin s with
  | (inl e, _) => expected e
  | (inr _, s') => exists read, round_io s s' read [] [] None /\ s_oqueue s' = s_oqueue s
  end.
Proof.
  intros Hs Hc. destruct c; [by apply copy_stdin_spec; auto|].
  exists []. split; [by apply round_io_refl|done].
Qed.
Lemma when_stdout s c olen :
  srv_inv s -> olen = zlen (contents (s_oqueue s)) ->
  match when c (copy_stdout olen) s with
  | (inl e, _) => expected e
  | (inr _, s') => exists flushed, round_io s s' [] [] flushed None /\ s_iqueue s' = s_iqueue s
  end.
Proof.
  intros Hs ->. destruct c; [by apply copy_stdout_spec|].
  exists []. split; [by apply round_io_refl|done].
Qed.

Lemma main_round_spec s :
  srv_inv s ->
  match main_round s with
  | (inl e, _) => expected e
  | (inr _, s') => exists read used flushed out, round_io s s' read used flushed out
  end.
Proof.
  intros Hs. unfold main_round, get_state. rewrite (SE_bind_ok _ _ _ s s) by done.
  rewrite (SE_bind_ok _ _ _ _ _ (has_room_spec _ read_size s (inv_iq _ Hs) ltac:(done))).
  set (want_in := (zlen (contents (s_iqueue s)) + read_size <=? b_max_size (s_iqueue s)) &&
    (zlen (contents (s_oqueue s)) + SFTP_MAX_MSG_LENGTH <=? b_max_size (s_oqueue s))).
  assert (Hwant : (if zlen (contents (s_iqueue s)) + read_size <=? b_max_size (s_iqueue s)
    then has_room (s_oqueue s) SFTP_MAX_MSG_LENGTH else mret false) s = (inr want_in, s)).
  { unfold want_in. destruct (_ <=? _); [|done]. apply has_room_spec; [apply Hs|done]. }
  rewrite (SE_bind_ok _ _ _ _ _ Hwant). cbv zeta.
  rewrite sshbuf_len_contents by apply Hs. set (want_out := 0 <? _).
  destruct (sys_spec (Select want_in want_out) s) as (r & e & E & _). rewrite (SE_bind_ok _ _ _ _ _ E).
  pose proof (set_env_inv e s Hs) as Hs0. set (s0 := set_env e s) in *.
  destruct r as [errno|[in_ready out_ready]].
  { destruct (errno =? EINTR); [|by apply exits_never].
    exists [], [], [], None. by apply (round_io_env s s0 e), round_io_refl. }
  pose proof (when_stdin s0 (want_in && in_ready) Hs0) as Hin.
  unfold mbind at 1, SE_bind at 1. destruct (when (want_in && in_ready) copy_stdin s0) as [[x|[]] s1].
  { apply Hin. unfold want_in, s0. cbn. intros [[Hi _]%andb_prop _]%andb_prop. by apply Z.leb_le. }
  destruct Hin as (read & Hio1 & Hoq).
  { unfold want_in, s0. cbn. intros [[Hi _]%andb_prop _]%andb_prop. by apply Z.leb_le. }
  pose proof (when_stdout s1 (want_out && out_ready) (zlen (contents (s_oqueue s))) (io_inv _ _ _ _ _ _ Hio1)) as Hout.
  rewrite Hoq in Hout. specialize (Hout eq_refl).
  unfold mbind at 1, SE_bind at 1. destruct (when (want_out && out_ready) _ s1) as [[x|[]] s2]; [done|].
  destruct Hout as (flushed & Hio2 & Hiq). pose proof (io_inv _ _ _ _ _ _ Hio2) as Hs2.
  rewrite (SE_bind_ok _ _ _ s2 s2) by done.
  rewrite (SE_bind_ok _ _ _ _ _ (has_room_spec _ SFTP_MAX_MSG_LENGTH s2 (inv_oq _ Hs2) ltac:(done))).
  pose proof (round_io_copy _ _ _ _ _ Hio1 Hio2) as Hio.
  destruct (Z.leb_spec (zlen (contents (s_oqueue s2)) + SFTP_MAX_MSG_LENGTH) (b_max_size (s_oqueue s2)));
    cbn [when].
  - pose proof (process_io s2 Hs2 ltac:(done)) as Hp. destruct (process s2) as [[x|[]] s3]; [done|].
    destruct Hp as (used & out & Hio3). exists read, used, flushed, out.
    apply (round_io_env s s3 e). by apply (round_io_trans s0 s2 s3).
  - exists read, [], flushed, None. by apply (round_io_env s s2 e).
Qed.

(** ** Runs *)

(** The process when it enters the loop, with fresh queues. *)
Definition server_start (queue : sshbuf) (readonly : bool) (whitelist blacklist : option (list Z))
    (pw_name : list Z) (e : env) : server :=
  mk_server queue queue 0 false readonly whitelist blacklist pw_name empty_htab
    (mk_caches ncache_init ncache_init) e.
Definition round (s s' : server) : Prop := main_round s = (inr tt, s').

Lemma start_inv queue readonly wl bl pw e :
  sshbuf_new = Some queue -> srv_inv (server_start queue readonly wl bl pw e).
Proof. intros Hq. destruct (sshbuf_new_rw queue Hq) as [Hb _]. split; [done..|apply empty_htab_inv]. Qed.

(** C7: after any number of rounds the buffers and the handle table are
    sane and the access restrictions are those the server was started with;
    the next round, if it returns, has only appended what it read to the
    input, taken processed bytes off its front, appended at most one message
    to the output and taken flushed bytes off its front; and if it ends the
    process, it is not for want of room for a reply, nor for a loop that does
    not end. *)
Theorem server_loop_sound (queue : sshbuf) (readonly : bool) (whitelist blacklist : option (list Z))
    (pw_name : list Z) (e : env) (s : server) :
  sshbuf_new = Some queue ->
  rtc round (server_start queue readonly whitelist blacklist pw_name e) s ->
  srv_inv s /\ same_config (server_start queue readonly whitelist blacklist pw_name e) s /\
  match main_round s with
  | (inl x, _) => expected x
  | (inr _, s') => exists read used flushed out, round_io s s' read used flushed out
  end.
Proof.
  intros Hq Hr. pose proof (start_inv queue readonly whitelist blacklist pw_name e Hq) as Hi.
  assert (Hs : srv_inv s /\ same_config (server_start queue readonly whitelist blacklist pw_name e) s).
  { revert Hi. induction Hr as [s|s s1 s2 Hstep Hr IH]; intros Hi; [done|].
    pose proof (main_round_spec s Hi) as Hm. rewrite Hstep in Hm. destruct Hm as (rd & us & fl & out & Hio).
    destruct (IH (io_inv _ _ _ _ _ _ Hio)) as [? Hc]. split; [done|].
    pose proof (io_config _ _ _ _ _ _ Hio). unfold same_config in *. intuition congruence. }
  destruct Hs as [Hs Hc]. split_and!; [done..|]. by apply main_round_spec.
Qed.
End Loop.

(** ** Examples *)

(** The scripted server, started on one chunk of input. *)
Definition demo_start (readonly : bool) (input : list Z) : @server script_world demo_sha :=
  @server_start script_world demo_sha (demo_queue []) readonly None None (str "jane")
    (demo_env (mk_script [input] 3)).
Definition demo_round : @server script_world demo_sha -> (exit_reason + ()) * @server script_world demo_sha :=
  @main_round demo_heap38 script_world demo_sha demo_jsonc demo_calendar demo_indet.
Fixpoint demo_rounds (n : nat) (s : @server script_world demo_sha) : @server script_world demo_sha :=
  match n with O => s | S n' => demo_rounds n' (snd (demo_round s)) end.
(** Every one of the first [n] rounds returned. *)
Fixpoint demo_rounds_ok (n : nat) (s : @server script_world demo_sha) : bool :=
  match n with
  | O => true
  | S n' =>
      match demo_round s with
      | (inl _, _) => false
      | (inr _, s') => demo_rounds_ok n' s'
      end
  end.
Lemma demo_rounds_rtc n s : demo_rounds_ok n s = true ->
  rtc (@round demo_heap38 script_world demo_sha demo_jsonc demo_calendar demo_indet) s (demo_rounds n s).
Proof.
  revert s. induction n as [|n IH]; intros s; simpl; [constructor|].
  destruct (demo_round s) as [[e|[]] s'] eqn:E; [done|]. intros Hn. econstructor; [exact E|].
  by apply IH.
Qed.

Lemma server_loop_sound_witness :
  @srv_inv script_world demo_sha (demo_rounds 2 (demo_start false (demo_init ++ demo_remove 9 (str "/f")))) /\
  same_config (demo_start false (demo_init ++ demo_remove 9 (str "/f")))
    (demo_rounds 2 (demo_start false (demo_init ++ demo_remove 9 (str "/f")))) /\
  match demo_round (demo_rounds 2 (demo_start false (demo_init ++ demo_remove 9 (str "/f")))) with
  | (inl x, _) => expected x
  | (inr _, s') => exists read used flushed out,
      round_io (demo_rounds 2 (demo_start false (demo_init ++ demo_remove 9 (str "/f")))) s' read used flushed out
  end.
Proof.
  refine (@server_loop_sound demo_heap38 script_world demo_sha demo_jsonc demo_calendar demo_indet
    demo_heap38_total demo_heap38_bounded script_world_ok (demo_queue []) false None None (str "jane")
    (demo_env (mk_script [demo_init ++ demo_remove 9 (str "/f")] 3)) _ _ _).
  - reflexivity.
  - apply (demo_rounds_rtc 2). vm_compute. reflexivity.
Defined.
