(* ===== verification/SftpEvents.v ===== *)
(** * What a handler asks of the outside world

    A relational logic: [rel R m] says that [m] takes every state to one
    related to it by the preorder [R], whether it returns or stops.  For a
    relation that is closed under the moves of the buffers and caches and
    under the calls [okc] allows, each handler is shown to stay within [R]
    when [okc] allows the calls in its text.  The read-only mode and the
    upload checksum are two such relations. *)

From S2P Require Import Prelude Sshbuf SftpCommon World LsFile MqNotify Handles SftpServer.

(** Calls to librabbitmq and libuuid. *)
Definition is_mq_call {A} (c : call A) : bool :=
  match c with
  | AmqpNewConnection | AmqpTcpSocketNew _ | AmqpSslSocketNew _ | AmqpSslSetCacert _ _
  | AmqpSslSetVerifyPeer _ _ | AmqpSslSetVerifyHostname _ _ | AmqpSocketOpen _ _ _
  | AmqpLogin _ _ _ _ _ _ _ | AmqpChannelOpen _ _ | AmqpGetRpcReply _
  | AmqpBasicPublish _ _ _ _ _ _ _ _ | AmqpChannelClose _ _ _ | AmqpConnectionClose _ _
  | AmqpUninitializeSsl | AmqpDestroyConnection _ | UuidGenerate => true
  | _ => false
  end.

Section Events.
Context `{Allocator} `{World} `{Sha256} `{JsonC} `{Calendar} `{Indet}.

Abbreviation M := (SE server exit_reason).

Record rel_ok (R : server -> server -> Prop) (okc : forall A, call A -> Prop) : Prop := {
  ro_refl : forall s, R s s;
  ro_trans : forall s1 s2 s3, R s1 s2 -> R s2 s3 -> R s1 s3;
  ro_iq : forall s b, R s (set_iqueue b s);
  ro_oq : forall s b, R s (set_oqueue b s);
  ro_caches : forall s c, R s (set_caches c s);
  ro_version : forall s v, R s (set_version v s);
  ro_init : forall s, R s (set_init_done s);
  ro_options : forall s m, R s (set_env (set_mq m (s_env s)) s);
  ro_read : forall s i n, R s (snd (table (handle_update_read i n) s));
  ro_call : forall A (c : call A) s, okc A c -> R s (snd (sys c s));
  ro_mq : forall A (c : call A), is_mq_call c = true -> okc A c
}.

Section Rel.
Context (R : server -> server -> Prop) (okc : forall A, call A -> Prop) (HR : rel_ok R okc).

Definition rel {A} (m : M A) : Prop := forall s, R s (snd (m s)).

Lemma rel_ret {A} (a : A) : rel (mret a).
Proof. intros s. apply (ro_refl _ _ HR). Qed.
Lemma rel_throw {A} e : rel (throw e : M A).
Proof. intros s. apply (ro_refl _ _ HR). Qed.
Lemma rel_gets {A} (f : server -> A) : rel (gets f).
Proof. intros s. apply (ro_refl _ _ HR). Qed.
Lemma rel_get_state : rel get_state.
Proof. apply rel_gets. Qed.
Lemma rel_bind {A B} (m : M A) (k : A -> M B) : rel m -> (forall a, rel (k a)) -> rel (m ≫= k).
Proof.
  intros Hm Hk s. specialize (Hm s). unfold mbind, SE_bind. destruct (m s) as [[e|a] s1]; cbn in *; [done|].
  eapply (ro_trans _ _ HR); [exact Hm|apply Hk].
Qed.
Lemma rel_when c (m : M ()) : rel m -> rel (when c m).
Proof. intros. destruct c; [done|apply rel_ret]. Qed.
Lemma rel_guard (c : bool) e : rel (guard_or c e).
Proof. destruct c; [apply rel_ret|apply rel_throw]. Qed.

Lemma rel_zoom_iq {A} (m : SE sshbuf exit_reason A) : rel (zoom s_iqueue set_iqueue m).
Proof. intros s. unfold zoom. destruct (m (s_iqueue s)). apply (ro_iq _ _ HR). Qed.
Lemma rel_iq {A} (m : SE sshbuf Z A) : rel (iq m).
Proof. apply rel_zoom_iq. Qed.
Lemma rel_oq {A} (m : SE sshbuf Z A) : rel (oq m).
Proof. intros s. unfold oq, zoom. destruct (on_err _ m (s_oqueue s)). apply (ro_oq _ _ HR). Qed.
Lemma rel_zoom_caches {A} (m : SE caches exit_reason A) : rel (zoom s_caches set_caches m).
Proof. intros s. unfold zoom. destruct (m (s_caches s)). apply (ro_caches _ _ HR). Qed.
Lemma rel_get_attrib : rel get_attrib.
Proof. apply rel_zoom_iq. Qed.
Lemma rel_get_path : rel get_path.
Proof. apply rel_bind; [apply rel_iq|intros; apply rel_ret]. Qed.
Lemma rel_get_handle : rel get_handle.
Proof.
  apply rel_bind; [apply rel_iq|intros]. apply rel_bind; [apply rel_gets|intros; apply rel_ret].
Qed.
Lemma rel_xmem n : rel (xmem n).
Proof. unfold xmem. destruct (heap_alloc n); [apply rel_ret|apply rel_throw]. Qed.
Lemma rel_sys {A} (c : call A) : okc A c -> rel (sys c).
Proof. intros Hc s. by apply (ro_call _ _ HR). Qed.

(** ** The broker code *)

Lemma mq_bind {A B} (m : SE env exit_reason A) (k : A -> SE env exit_reason B) s :
  mq (m ≫= k) s = (a ← mq m; mq (k a)) s.
Proof.
  unfold mq, zoom, mbind, SE_bind. cbn. destruct (m (s_env s)) as [[e|a] e1]; [done|].
  cbn. destruct (k a e1). done.
Qed.
Definition mrel {A} (m : SE env exit_reason A) : Prop := rel (mq m).
Lemma mrel_bind {A B} (m : SE env exit_reason A) (k : A -> SE env exit_reason B) :
  mrel m -> (forall a, mrel (k a)) -> mrel (m ≫= k).
Proof. intros Hm Hk s. rewrite mq_bind. by apply rel_bind. Qed.
Lemma mrel_same {A} (m : SE env exit_reason A) : (forall e, snd (m e) = e) -> mrel m.
Proof.
  intros Hm s. unfold mq, zoom. specialize (Hm (s_env s)). destruct (m (s_env s)). cbn in *. subst.
  destruct s. apply (ro_refl _ _ HR).
Qed.
Lemma mrel_ret {A} (a : A) : mrel (mret a).
Proof. by apply mrel_same. Qed.
Lemma mrel_call {A} (c : call A) : is_mq_call c = true -> mrel (do_call c).
Proof. intros Hc. apply (rel_sys c), (ro_mq _ _ HR), Hc. Qed.
Lemma mrel_options : mrel options.
Proof. apply mrel_same. intros e. unfold options. by destruct (e_mq e). Qed.
Lemma mrel_set_mq m : mrel (modify (set_mq m)).
Proof. intros s. apply (ro_options _ _ HR). Qed.
Lemma mrel_update f : mrel (update_options f).
Proof. apply mrel_bind; [apply mrel_options|]. intros o. apply mrel_set_mq. Qed.
Lemma mrel_need {A} (p : option A) : mrel (need p).
Proof. by destruct p; apply mrel_same. Qed.
Lemma mrel_read p : mrel (read_str p).
Proof.
  apply mrel_bind; [apply mrel_options|]. intros o. by destruct (mq_str o p); apply mrel_same.
Qed.
Ltac mrel_step :=
  first [ apply mrel_ret | by apply mrel_call | apply mrel_options | apply mrel_update
        | apply mrel_need | apply mrel_read | apply mrel_set_mq | apply mrel_bind; [|intros ?]
        | match goal with |- mrel (match ?x with _ => _ end) => destruct x end ].
Lemma rel_send n : rel (mq (mq_send n)).
Proof.
  change (mrel (mq_send n)).
  destruct n; unfold mq_send, mq_send_upload, mq_send_remove, mq_send_rename, mq_logged_in,
    mq_open_connection, do_send_message; repeat mrel_step.
Qed.
Lemma rel_notify n : rel (notify (mq_send n)).
Proof. apply rel_bind; [apply rel_send|intros; apply rel_ret]. Qed.
Lemma rel_clean : rel (mq clean_mq_config).
Proof.
  change (mrel clean_mq_config). unfold clean_mq_config, mq_clean.
  apply mrel_bind; [by apply mrel_same|]. intros []; repeat mrel_step.
Qed.
Lemma rel_cleanup_exit {A} i : rel (sftp_server_cleanup_exit i : M A).
Proof. apply rel_bind; [apply rel_clean|intros; apply rel_throw]. Qed.

(** ** Replies *)

Lemma rel_build puts : rel (build_msg puts).
Proof.
  unfold build_msg. destruct sshbuf_new; [|apply rel_throw].
  destruct (puts _) as [[]]; [apply rel_throw|apply rel_ret].
Qed.
Lemma rel_reply puts : rel (msg ← build_msg puts; send_msg msg).
Proof. apply rel_bind; [apply rel_build|intros; apply rel_oq]. Qed.
Lemma rel_status id st : rel (send_status id st).
Proof. apply rel_bind; [apply rel_gets|intros; apply rel_reply]. Qed.
Lemma rel_names id n l : rel (send_names id n l).
Proof. apply rel_reply. Qed.
Lemma rel_attrib id a : rel (send_attrib id a).
Proof. apply rel_reply. Qed.
Lemma rel_statvfs id st : rel (send_statvfs id st).
Proof. apply rel_reply. Qed.
Lemma rel_data id d n : rel (send_data id d n).
Proof. apply rel_reply. Qed.
Lemma rel_handle id h : rel (send_handle id h).
Proof. apply rel_bind; [apply rel_xmem|intros; apply rel_reply]. Qed.
End Rel.
End Events.

Create HintDb rel.
#[export] Hint Resolve rel_ret rel_throw rel_gets rel_get_state rel_guard rel_iq rel_zoom_caches
  rel_get_attrib rel_get_path rel_get_handle rel_xmem rel_clean rel_cleanup_exit rel_notify rel_send
  rel_status rel_names rel_attrib rel_statvfs rel_data rel_handle : rel.

(** Walk through a handler; leave the calls it makes. *)
Ltac rel_step :=
  lazymatch goal with
  | |- rel _ (match ?x with _ => _ end) => destruct x
  | |- rel _ (when _ _) => eapply rel_when; [eassumption|]
  | |- rel _ (_ ≫= _) => eapply rel_bind; [eassumption| |intros ?]
  | |- rel _ (sys _) => eapply rel_sys; [eassumption|]
  | |- rel _ (table (handle_update_read _ _)) => intros ?; eapply ro_read; eassumption
  | |- rel _ _ => solve [eauto with rel]
  end.
Ltac rel_walk := repeat rel_step.

(** ** The handlers that leave the handle table alone *)

(** Calls that only look (closing a file is neither), and calls that change
    files other than by writing to an open one. *)
Definition observing {A} (c : call A) : bool :=
  match c with
  | Lseek _ _ | Read _ _ | Stat _ | Lstat _ | Fstat _ | Opendir _ | Readdir _ | Closedir _
  | Realpath _ | Readlink _ _ | Statvfs _ | Fstatvfs _ | Time | Select _ _ => true
  | _ => false
  end.
Definition changing {A} (c : call A) : bool :=
  match c with
  | Truncate _ _ | Ftruncate _ _ | Chmod _ _ | Fchmod _ _ | Utimes _ _ _ | Futimes _ _ _
  | Chown _ _ _ | Fchown _ _ _ | Unlink _ | Mkdir _ _ | Rmdir _ | Link _ _ | Rename _ _
  | Symlink _ _ | Fsync _ => true
  | _ => false
  end.

Section Handlers.
Context `{Allocator} `{World} `{Sha256} `{JsonC} `{Calendar} `{Indet}.
Context (R : server -> server -> Prop) (okc : forall A, call A -> Prop) (HR : rel_ok R okc).
Context (Hobs : forall A (c : call A), observing c = true -> okc A c).

Lemma rel_process_init : rel R process_init.
Proof.
  unfold process_init. eapply rel_bind; [exact HR|eapply rel_iq, HR|intros v].
  eapply rel_bind; [exact HR| |intros _; eapply rel_reply, HR]. intros s. exact (ro_version _ _ HR s v).
Qed.
Lemma rel_set_init_done : rel R (modify set_init_done).
Proof. intros s. exact (ro_init _ _ HR s). Qed.
Lemma rel_process_read id : rel R (process_read id).
Proof. unfold process_read. rel_walk; by apply Hobs. Qed.
Lemma rel_process_do_stat id l : rel R (process_do_stat id l).
Proof. unfold process_do_stat. rel_walk; by apply Hobs. Qed.
Lemma rel_process_fstat id : rel R (process_fstat id).
Proof. unfold process_fstat. rel_walk; by apply Hobs. Qed.
Lemma rel_readdir_loop fuel d path n l : rel R (readdir_loop fuel d path n l).
Proof.
  revert n l. induction fuel as [|fuel IH]; intros n l; cbn [readdir_loop]; [eauto with rel|].
  rel_walk; try (by apply Hobs); apply IH.
Qed.
Lemma rel_process_readdir id : rel R (process_readdir id).
Proof. pose proof rel_readdir_loop. unfold process_readdir. rel_walk. Qed.
Lemma rel_process_realpath id : rel R (process_realpath id).
Proof. unfold process_realpath. rel_walk; by apply Hobs. Qed.
Lemma rel_process_readlink id : rel R (process_readlink id).
Proof. unfold process_readlink. rel_walk; by apply Hobs. Qed.
Lemma rel_statvfs_request id : rel R (process_extended_statvfs id).
Proof. unfold process_extended_statvfs. rel_walk; by apply Hobs. Qed.
Lemma rel_fstatvfs_request id : rel R (process_extended_fstatvfs id).
Proof. unfold process_extended_fstatvfs. rel_walk; by apply Hobs. Qed.
Lemma rel_close_file h : okc _ (Close (h_fd h)) -> rel R (close_file h).
Proof.
  pose proof (fun u n d s m => rel_send R okc HR (NUpload u n d s m)) as Hs. cbn [mq_send] in Hs.
  intros Hc. unfold close_file. rel_walk; first [done|by apply Hobs].
Qed.
Lemma rel_close_dir h : rel R (close_dir h).
Proof. unfold close_dir. rel_walk. by apply Hobs. Qed.

Section Writers.
Context (Hchg : forall A (c : call A), changing c = true -> okc A c).

Lemma rel_set_attr st a c : okc _ c -> rel R (set_attr st a c).
Proof. intros. unfold set_attr. rel_walk. done. Qed.
Lemma rel_process_setstat id : rel R (process_setstat id).
Proof. pose proof rel_set_attr. unfold process_setstat. rel_walk; auto. Qed.
Lemma rel_process_fsetstat id : rel R (process_fsetstat id).
Proof. pose proof rel_set_attr. unfold process_fsetstat. rel_walk; auto. Qed.
Lemma rel_process_remove id : rel R (process_remove id).
Proof.
  pose proof (fun u n => rel_notify R okc HR (NRemove u n)) as Hs. cbn [mq_send] in Hs.
  unfold process_remove. rel_walk. by apply Hchg.
Qed.
Lemma rel_process_mkdir id : rel R (process_mkdir id).
Proof. unfold process_mkdir. rel_walk. by apply Hchg. Qed.
Lemma rel_process_rmdir id : rel R (process_rmdir id).
Proof. unfold process_rmdir. rel_walk. by apply Hchg. Qed.
Lemma rel_process_rename id : rel R (process_rename id).
Proof.
  pose proof (fun u o n => rel_notify R okc HR (NRename u o n)) as Hs. cbn [mq_send] in Hs.
  unfold process_rename, do_rename, rename_unless_exists. rel_walk; first [by apply Hchg | by apply Hobs].
Qed.
Lemma rel_process_symlink id : rel R (process_symlink id).
Proof. unfold process_symlink. rel_walk. by apply Hchg. Qed.
Lemma rel_posix_rename id : rel R (process_extended_posix_rename id).
Proof.
  pose proof (fun u o n => rel_notify R okc HR (NRename u o n)) as Hs. cbn [mq_send] in Hs.
  unfold process_extended_posix_rename. rel_walk. by apply Hchg.
Qed.
Lemma rel_hardlink id : rel R (process_extended_hardlink id).
Proof. unfold process_extended_hardlink. rel_walk. by apply Hchg. Qed.
Lemma rel_fsync id : rel R (process_extended_fsync id).
Proof. unfold process_extended_fsync. rel_walk. by apply Hchg. Qed.
End Writers.
End Handlers.
