(* ===== verification/SftpAccess.v ===== *)
(** * Access control: read-only mode, permitted requests, init first *)

From S2P Require Import Prelude Sshbuf SftpCommon Match World LsFile MqNotify Handles SftpServer SftpReplies SftpEvents.

(** A call that changes a file or a directory, or could: writing, or opening
    with more than read access. *)
Definition modifies {A} (c : call A) : bool :=
  changing c ||
  match c with
  | Write _ _ => true
  | Open _ flags _ =>
      negb (Z.land flags O_ACCMODE =? O_RDONLY) || negb (Z.land flags (Z.lor O_CREAT O_TRUNC) =? 0)
  | _ => false
  end.
Definition harmless (e : event) : Prop := match e with Ev c _ => modifies c = false end.

Section Access.
Context `{Allocator} `{World} `{Sha256} `{JsonC} `{Calendar} `{Indet}.

Abbreviation M := (SE server exit_reason).
Definition trace (s : server) : list event := e_trace (s_env s).

(** A read-only server stays one, and only harmless calls are made. *)
Definition ro_rel (s s' : server) : Prop :=
  s_readonly s = true ->
  s_readonly s' = true /\ exists evs, trace s' = trace s ++ evs /\ Forall harmless evs.
Definition ro_call_ok (A : Type) (c : call A) : Prop := modifies c = false.

Lemma ro_rel_same s s' :
  s_readonly s' = s_readonly s -> trace s' = trace s -> ro_rel s s'.
Proof. intros Hs Ht Hr. rewrite Hs, Ht. split; [done|]. exists []. by rewrite app_nil_r. Qed.
Lemma ro_rel_table s t : ro_rel s (set_handles t s).
Proof. by apply ro_rel_same. Qed.
Lemma rel_table {A} (m : SE htab exit_reason A) : rel ro_rel (table m).
Proof. intros s. unfold table, zoom. destruct (m (s_handles s)). apply ro_rel_table. Qed.
Lemma ro_rel_ok : rel_ok ro_rel ro_call_ok.
Proof.
  split; try (intros; by apply ro_rel_same).
  - intros s1 s2 s3 H12 H23 Hr. destruct (H12 Hr) as (Hr2 & e1 & E1 & F1).
    destruct (H23 Hr2) as (Hr3 & e2 & E2 & F2). split; [done|]. exists (e1 ++ e2).
    rewrite E2, E1, app_assoc, Forall_app. done.
  - intros s i n. apply rel_table.
  - intros A c s Hc Hr. unfold sys, mq, zoom, do_call. destruct (ext c _) as [r w]. split; [done|].
    exists [Ev c r]. split; [done|]. by repeat constructor.
  - intros A c Hc. unfold ro_call_ok. by destruct c.
Qed.
Lemma ro_obs A (c : call A) : observing c = true -> ro_call_ok A c.
Proof. by destruct c. Qed.

Lemma rel_readonly_read {A} (k : bool -> M A) : rel ro_rel (k true) -> rel ro_rel (readonly ← gets s_readonly; k readonly).
Proof.
  intros Hk s Hr. rewrite (SE_bind_ok _ _ _ (s_readonly s) s) by done. rewrite Hr. by apply Hk.
Qed.

#[local] Hint Resolve ro_rel_ok rel_table rel_process_read rel_process_do_stat rel_process_fstat
  rel_process_readdir rel_process_realpath rel_process_readlink rel_statvfs_request
  rel_fstatvfs_request rel_close_file rel_close_dir rel_process_init rel_set_init_done ro_obs : rel.

Lemma ro_process_open id : rel ro_rel (process_open id).
Proof.
  pose proof ro_rel_ok as HR. unfold process_open.
  eapply rel_bind; [exact HR|eauto with rel|intros name].
  eapply rel_bind; [exact HR|eauto with rel|intros pflags].
  eapply rel_bind; [exact HR|eauto with rel|intros a].
  apply rel_readonly_read.
  destruct (open_refused true _) eqn:E; rel_walk; first [done|exact E].
Qed.
Lemma ro_close_file h : rel ro_rel (close_file h).
Proof. by apply (rel_close_file _ _ ro_rel_ok ro_obs). Qed.
#[local] Hint Resolve ro_close_file : rel.
Lemma ro_process_close id : rel ro_rel (process_close id).
Proof.
  pose proof ro_rel_ok as HR. unfold process_close, handle_close. rel_walk.
Qed.
Lemma ro_process_opendir id : rel ro_rel (process_opendir id).
Proof. pose proof ro_rel_ok as HR. unfold process_opendir. rel_walk; done. Qed.

(** Handlers that are not marked as writing are harmless. *)
Lemma ro_handlers :
  Forall (fun h => sh_does_write h = false -> forall id, rel ro_rel (sh_handler h id)) handlers.
Proof.
  repeat (apply Forall_cons_2; [cbn; intros Hw id; try discriminate Hw|]); [..|apply Forall_nil_2];
    eauto using ro_process_open, ro_process_close, ro_process_opendir with rel;
    unfold process_stat, process_lstat; eauto with rel.
Qed.
Lemma ro_extended_handlers :
  Forall (fun h => sh_does_write h = false -> forall id, rel ro_rel (sh_handler h id)) extended_handlers.
Proof.
  repeat (apply Forall_cons_2; [cbn; intros Hw id; try discriminate Hw|]); [..|apply Forall_nil_2];
    eauto with rel.
Qed.

Lemma ro_run_handler h id :
  (sh_does_write h = false -> rel ro_rel (sh_handler h id)) -> rel ro_rel (run_handler h id).
Proof.
  intros Hh s Hr. unfold run_handler, get_state. rewrite (SE_bind_ok _ _ _ s s) by done.
  destruct (request_permitted s h) eqn:E; cbn [negb].
  - apply Hh; [|done]. unfold request_permitted in E. rewrite Hr in E. by destruct (sh_does_write h).
  - by eapply (rel_status _ _ ro_rel_ok).
Qed.
Lemma ro_find l f h id :
  Forall (fun h => sh_does_write h = false -> forall id, rel ro_rel (sh_handler h id)) l ->
  find f l = Some h -> rel ro_rel (run_handler h id).
Proof.
  intros Hl Hf. apply ro_run_handler. intros Hw. apply find_some in Hf as [Hin _].
  rewrite Forall_forall in Hl. apply (Hl h); [by apply list_elem_of_In|done].
Qed.
Lemma ro_process : rel ro_rel process.
Proof.
  pose proof ro_rel_ok as HR.
  assert (Hx : forall id, rel ro_rel (process_extended id)).
  { intros id. unfold process_extended. rel_step; [eauto with rel|].
    destruct (find _ _) eqn:E; [eapply ro_find; [apply ro_extended_handlers|exact E]|eauto with rel]. }
  assert (Hd : forall type, rel ro_rel (dispatch type)).
  { intros type. unfold dispatch. rel_step; [eauto with rel|]. destruct (type =? _); [rel_walk|].
    destruct (type =? _); [rel_walk|]. rel_step; [eauto with rel|]. rel_step; [eauto with rel|].
    destruct (find _ handlers) eqn:E; [eapply ro_find; [apply ro_handlers|exact E]|eauto with rel]. }
  unfold process. rel_walk.
Qed.

(** ** Before the init packet *)

(** On return nothing was asked of the world and no handle was touched. *)
Definition unserved (s s' : server) : Prop := trace s' = trace s /\ s_handles s' = s_handles s.
Definition unserving {A} (m : M A) : Prop :=
  forall s, match m s with (inr _, s') => unserved s s' | _ => True end.

Lemma unserving_bind {A B} (m : M A) (k : A -> M B) :
  unserving m -> (forall a, unserving (k a)) -> unserving (m ≫= k).
Proof.
  intros Hm Hk s. specialize (Hm s). unfold mbind, SE_bind. destruct (m s) as [[e|a] s1]; [done|].
  specialize (Hk a s1). destruct (k a s1) as [[e|b] s2]; [done|]. unfold unserved in *. intuition congruence.
Qed.
Lemma unserving_iq {A} (m : SE sshbuf Z A) : unserving (iq m).
Proof. intros s. unfold iq, zoom. by destruct (on_err _ m (s_iqueue s)) as [[]]. Qed.
Lemma unserving_build puts : unserving (build_msg puts).
Proof. intros s. unfold build_msg. destruct sshbuf_new as [b|]; [|done]. by destruct (puts b) as [[]]. Qed.
Lemma unserving_init : unserving (_ ← process_init; modify set_init_done).
Proof.
  apply unserving_bind; [|by intros _ s]. unfold process_init.
  apply unserving_bind; [apply unserving_iq|intros v]. apply unserving_bind; [by intros s|intros _].
  apply unserving_bind.
  - apply unserving_build.
  - intros msg s. unfold send_msg, oq, zoom. by destruct (on_err _ _ (s_oqueue s)) as [[]].
Qed.
Lemma dispatch_before_init type s :
  s_init_done s = false ->
  match dispatch type s with (inr _, s') => unserved s s' /\ type = SSH2_FXP_INIT | _ => True end.
Proof.
  intros Hi. unfold dispatch. rewrite (SE_bind_ok _ _ _ (s_init_done s) s) by done. rewrite Hi.
  destruct (Z.eqb_spec type SSH2_FXP_INIT) as [->|]; [|by destruct (type =? _)].
  pose proof (unserving_init s) as Hu. by destruct (mbind _ process_init s) as [[e|a] s'].
Qed.
Lemma iq_init_done {A} (m : SE sshbuf Z A) s : s_init_done (snd (iq m s)) = s_init_done s.
Proof. unfold iq, zoom. by destruct (on_err _ m (s_iqueue s)). Qed.
Lemma unserving_skip buf_len msg_len :
  unserving (left ← gets (fun s => sshbuf_len (s_iqueue s));
    if buf_len <? left then sftp_server_cleanup_exit 255
    else
      let consumed := u32 (buf_len - left) in
      if msg_len <? consumed then sftp_server_cleanup_exit 255
      else when (consumed <? msg_len) (iq (sshbuf_consume (msg_len - consumed)))).
Proof.
  assert (Hx : forall i, unserving (sftp_server_cleanup_exit i : M ())).
  { intros i s. unfold sftp_server_cleanup_exit, mbind, SE_bind. by destruct (mq _ s) as [[]]. }
  apply unserving_bind; [by intros s|]. intros left. destruct (_ <? _); [apply Hx|].
  cbv zeta. destruct (_ <? _); [apply Hx|]. destruct (_ <? _); [apply unserving_iq|by intros s].
Qed.

(** ** Properties *)

(** C4: a server started in read-only mode never changes the file system:
    whatever packet [process] finds, and however it ends, the calls it makes
    include no write, no change of a file or directory and no open with write
    access, creation or truncation; and it stays read-only. *)
Theorem readonly_server_changes_nothing (s : server) :
  s_readonly s = true ->
  s_readonly (snd (process s)) = true /\
  exists evs, trace (snd (process s)) = trace s ++ evs /\ Forall harmless evs.
Proof. apply ro_process. Qed.

(** A request is permitted exactly when it does not write or the server
    is not read-only, it is not on the list of refused requests, and it is on
    the list of permitted ones if there is one (the lists being read up to
    their first empty or fortieth entry).  A request that is not permitted
    gets a status of "permission denied" and nothing else happens. *)
Theorem request_permitted_correct (s : server) (h : sftp_handler) (id : Z) :
  sh_name h <> [] -> Forall (fun c => c <> COMMA) (sh_name h) ->
  (request_permitted s h = true <->
    (s_readonly s = true -> sh_does_write h = false) /\
    (forall l, s_blacklist s = Some l -> sh_name h ∉ effective l) /\
    (forall l, s_whitelist s = Some l -> sh_name h ∈ effective l)) /\
  (request_permitted s h = false -> run_handler h id s = send_status id SSH2_FX_PERMISSION_DENIED s).
Proof.
  intros Hn Hc. split.
  - unfold request_permitted.
    assert (Hl : forall l, match fst (match_list (sh_name h) l) with Some _ => true | None => false end
      = bool_decide (sh_name h ∈ effective l)).
    { intros l. rewrite match_list_name by done. by case_bool_decide. }
    destruct (s_readonly s && sh_does_write h) eqn:Erw.
    { apply andb_prop in Erw as [-> Hw]. split; [done|]. intros (Hx & _). by rewrite Hx in Hw. }
    assert (Hro : s_readonly s = true -> sh_does_write h = false) by (intros Hr; by rewrite Hr in Erw).
    destruct (s_blacklist s) as [bl|]; rewrite ?Hl; [case_bool_decide as Hbl|];
      [split; [done|]; intros (_ & Hb & _); by destruct (Hb bl eq_refl)|..];
      (destruct (s_whitelist s) as [wl|]; rewrite ?Hl; [case_bool_decide as Hwl|]);
      split; try done; try (intros _; split_and!; [done|by intros ? [= <-]|by intros ? [= <-]]);
      intros (_ & _ & Hw); by specialize (Hw wl eq_refl).
  - intros E. unfold run_handler, get_state. rewrite (SE_bind_ok _ _ _ s s) by done. by rewrite E.
Qed.

(** Until an init packet has been processed, no request is served: if
    [process] returns, no call was made and no handle changed. *)
Theorem nothing_served_before_init (s : server) :
  s_init_done s = false ->
  match process s with (inr _, s') => unserved s s' | (inl _, _) => True end.
Proof.
  intros Hi. unfold process, get_state. rewrite (SE_bind_ok _ _ _ s s) by done. cbv zeta.
  destruct (_ <? 5); [done|]. destruct (_ <? _).
  { unfold sftp_server_cleanup_exit, mbind, SE_bind. by destruct (mq _ s) as [[]]. }
  destruct (_ <? _); [done|].
  pose proof (unserving_iq (sshbuf_consume 4) s) as U1. pose proof (iq_init_done (sshbuf_consume 4) s) as I1.
  unfold mbind at 1, SE_bind at 1. destruct (iq (sshbuf_consume 4) s) as [[e|a] s1]; [done|]. cbn in I1.
  pose proof (unserving_iq sshbuf_get_u8 s1) as U2. pose proof (iq_init_done sshbuf_get_u8 s1) as I2.
  unfold mbind at 1, SE_bind at 1. destruct (iq sshbuf_get_u8 s1) as [[e|type] s2]; [done|]. cbn in I2.
  pose proof (dispatch_before_init type s2 ltac:(congruence)) as U3.
  unfold mbind at 1, SE_bind at 1. destruct (dispatch type s2) as [[e|b] s3]; [done|].
  match goal with |- context [mbind ?k ?m s3] =>
    pose proof (unserving_skip (u32 (u32 (sshbuf_len (s_iqueue s)) - 4)) (get_u32 (sshbuf_ptr (s_iqueue s))) s3) as U4 end.
  cbv zeta in U4. destruct (mbind _ (gets _) s3) as [[e|c] s4]; [done|].
  unfold unserved in *. intuition congruence.
Qed.
End Access.

(** ** Examples *)

Lemma readonly_server_changes_nothing_witness :
  let s := demo_server true true None (demo_remove 9 (str "/f")) in
  let s' := snd (@process demo_heap38 script_world demo_sha demo_jsonc demo_calendar demo_indet s) in
  s_readonly s' = true /\ exists evs, trace s' = trace s ++ evs /\ Forall harmless evs.
Proof.
  refine (@readonly_server_changes_nothing demo_heap38 script_world demo_sha demo_jsonc demo_calendar
    demo_indet (demo_server true true None (demo_remove 9 (str "/f"))) _). reflexivity.
Defined.

Definition demo_handler : @sftp_handler script_world demo_sha :=
  @fxp script_world demo_sha "remove" SSH2_FXP_REMOVE
    (@process_remove demo_heap38 script_world demo_sha demo_jsonc) true.
Lemma request_permitted_correct_witness :
  let s := demo_server false true (Some (str "rename,remove")) [] in
  (request_permitted s demo_handler = true <->
    (s_readonly s = true -> sh_does_write demo_handler = false) /\
    (forall l, s_blacklist s = Some l -> sh_name demo_handler ∉ effective l) /\
    (forall l, s_whitelist s = Some l -> sh_name demo_handler ∈ effective l)) /\
  (request_permitted s demo_handler = false ->
   @run_handler demo_heap38 script_world demo_sha demo_handler 5 s =
     @send_status demo_heap38 script_world demo_sha 5 SSH2_FX_PERMISSION_DENIED s).
Proof.
  refine (@request_permitted_correct demo_heap38 script_world demo_sha
    (demo_server false true (Some (str "rename,remove")) []) demo_handler 5 _ _).
  - done.
  - repeat constructor; done.
Defined.

Lemma nothing_served_before_init_witness :
  match @process demo_heap38 script_world demo_sha demo_jsonc demo_calendar demo_indet
          (demo_server false false None demo_init) with
  | (inr _, s') => unserved (demo_server false false None demo_init) s'
  | (inl _, _) => True
  end.
Proof.
  refine (@nothing_served_before_init demo_heap38 script_world demo_sha demo_jsonc demo_calendar demo_indet
    (demo_server false false None demo_init) _). reflexivity.
Defined.
