(* ===== verification/SftpUpload.v ===== *)
(** * The checksum of an upload

    While a file is open, its handle holds a SHA-256 context of the bytes the
    server has written to it, in the order of the write requests; closing the
    file announces their digest.  The bytes are read off the trace of the
    calls the server made. *)

From stdpp Require Import relations.
From S2P Require Import Prelude Sshbuf SftpCommon World LsFile MqNotify Handles SftpServer SftpReplies MainLoop SftpEvents SftpAccess.

(** The descriptors of the process: open() returns one that is not in use,
    and only open() and close() change which are. *)
Class FdTable `{World} := {
  fd_open : Z -> world -> bool;
  open_fresh : forall p f m w fd w', ext (Open p f m) w = (inr fd, w') ->
    fd_open fd w = false /\ fd_open fd w' = true /\ forall fd', fd' <> fd -> fd_open fd' w' = fd_open fd' w;
  open_failed : forall p f m w e w' fd, ext (Open p f m) w = (inl e, w') -> fd_open fd w' = fd_open fd w;
  close_other : forall fd w fd', fd' <> fd -> fd_open fd' (snd (ext (Close fd) w)) = fd_open fd' w;
  call_keeps : forall A (c : call A) w fd,
    match c with Open _ _ _ => False | Close _ => False | _ => True end ->
    fd_open fd (snd (ext c w)) = fd_open fd w
}.

(** The bytes written whole to the descriptor [fd] since it was last opened. *)
Definition write_step (fd : Z) (acc : list Z) (e : event) : list Z :=
  match e with
  | Ev c r =>
      match c in call A return A -> list Z with
      | Open _ _ _ => fun r => match r with inr fd' => if fd' =? fd then [] else acc | inl _ => acc end
      | Write fd' d => fun r =>
          match r with
          | inr n => if (fd' =? fd) && (n =? zlen d) then acc ++ d else acc
          | inl _ => acc
          end
      | _ => fun _ => acc
      end r
  end.
Definition written (fd : Z) (tr : list event) : list Z := fold_left (write_step fd) tr [].

Lemma written_snoc fd tr e : written fd (tr ++ [e]) = write_step fd (written fd tr) e.
Proof. unfold written. by rewrite fold_left_app. Qed.

(** Calls that neither open, write nor close. *)
Definition neutral {A} (c : call A) : bool :=
  match c with Open _ _ _ | Write _ _ | Close _ => false | _ => true end.

Section Upload.
Context `{Allocator} `{World} `{Sha256} `{JsonC} `{Calendar} `{Indet}.
Context `{!HeapBounded} `{!FdTable} `{!Sha256Ok} `{!JsonOk}.

Abbreviation M := (SE server exit_reason).
Definition wld (s : server) : world := e_world (s_env s).

(** The descriptor and the context of an open file. *)
Definition files (t : htab) (i : Z) : option (Z * sha_ctx) :=
  h ← slot t i; if decide (h_use h = HANDLE_FILE) then Some (h_fd h, h_md h) else None.

(** Every open file but the one in slot [x] has its context in step with the
    bytes written to it, and a descriptor of its own. *)
Record in_step_but (x : Z) (s : server) : Prop := {
  up_tab : htab_inv (s_handles s);
  up_md : forall i fd md, i <> x -> files (s_handles s) i = Some (fd, md) ->
    ctx_holds md (written fd (trace s)) /\ fd_open fd (wld s) = true /\ fd <> STDOUT;
  up_inj : forall i j fd md md',
    files (s_handles s) i = Some (fd, md) -> files (s_handles s) j = Some (fd, md') -> i = j;
  up_stdout : fd_open STDOUT (wld s) = true
}.
Definition upload_inv (s : server) : Prop := in_step_but (-1) s.

Lemma files_neg t : files t (-1) = None.
Proof. done. Qed.
Lemma in_step_weaken x s : upload_inv s -> in_step_but x s.
Proof.
  intros [It Im Ii Is]. split; try done. intros i fd md _ Hf. apply (Im i); [|done]. intros ->. done.
Qed.
(** Slot [x] is free, or in step again. *)
Lemma in_step_close x s :
  in_step_but x s ->
  match files (s_handles s) x with
  | None => True
  | Some (fd, md) => ctx_holds md (written fd (trace s)) /\ fd_open fd (wld s) = true /\ fd <> STDOUT
  end -> upload_inv s.
Proof.
  intros [It Im Ii Is] Hx. split; try done. intros i fd md _ Hf.
  destruct (decide (i = x)) as [->|Hne]; [by rewrite Hf in Hx|by apply (Im i)].
Qed.
Lemma files_live t i :
  files t i = (h ← live t i; if decide (h_use h = HANDLE_FILE) then Some (h_fd h, h_md h) else None).
Proof.
  unfold files, live. destruct (slot t i) as [h|]; cbn; [|done].
  destruct (decide (h_use h = HANDLE_UNUSED)) as [Hu|]; [|done]. by rewrite decide_False by congruence.
Qed.

(** Moves that do not concern the open files. *)
Record aside (s s' : server) : Prop := {
  as_tab : htab_inv (s_handles s) -> htab_inv (s_handles s');
  as_files : forall i, files (s_handles s') i = files (s_handles s) i;
  as_written : forall fd, written fd (trace s') = written fd (trace s);
  as_fds : forall fd, fd_open fd (wld s') = fd_open fd (wld s)
}.
Definition neutral_ok (A : Type) (c : call A) : Prop := neutral c = true.

Lemma aside_in_step x s s' : aside s s' -> in_step_but x s -> in_step_but x s'.
Proof.
  intros [Ht Hf Hw Ho] [It Im Ii Is]. split.
  - by apply Ht.
  - intros i fd md Hi. rewrite Hf, Hw, Ho. by apply Im.
  - intros i j fd md md'. rewrite !Hf. apply Ii.
  - by rewrite Ho.
Qed.
Lemma aside_same s s' :
  s_handles s' = s_handles s -> trace s' = trace s -> wld s' = wld s -> aside s s'.
Proof. intros Ht Htr Hw. split; by rewrite ?Ht, ?Htr, ?Hw. Qed.

(** An update of a slot that keeps its use and link. *)
Lemma files_update t i f j :
  (forall h, h_use (f h) = h_use h) -> (forall h, h_fd (f h) = h_fd h) ->
  match update_slot i f t with
  | (inr _, t') => files t' j = (if decide (j = i)
      then h ← slot t i; if decide (h_use h = HANDLE_FILE) then Some (h_fd h, h_md (f h)) else None
      else files t j)
  | (inl _, t') => t' = t
  end.
Proof.
  intros Hu Hfd. unfold update_slot, get_slot, set_slot. unfold_SE.
  destruct (slot t i) as [h|] eqn:Hi; cbn; [|done]. rewrite Hi.
  unfold files. rewrite (slot_insert _ _ _ _ h) by done. case_decide; cbn; [|done].
  by rewrite Hu, Hfd.
Qed.
Lemma aside_update s i f :
  (forall h, h_use (f h) = h_use h /\ h_next_unused (f h) = h_next_unused h) ->
  (forall h, h_fd (f h) = h_fd h) -> (forall h, h_md (f h) = h_md h) ->
  aside s (snd (table (update_slot i f) s)).
Proof.
  intros Hu Hfd Hmd. unfold table, zoom.
  pose proof (fun j => files_update (s_handles s) i f j (fun h => proj1 (Hu h)) Hfd) as Hf.
  pose proof (update_slot_inv (s_handles s) i f Hu) as Hi.
  destruct (update_slot i f (s_handles s)) as [[e|[]] t'] eqn:E; cbn.
  - specialize (Hf 0). subst t'. by apply aside_same.
  - split; try done. intros j. cbn. rewrite Hf. case_decide as Hj; [|done]. subst. unfold files.
    destruct (slot (s_handles s) i); cbn; [|done]. by rewrite Hmd.
Qed.
Lemma aside_guarded s i (c : bool) f :
  (forall h, h_use (f h) = h_use h /\ h_next_unused (f h) = h_next_unused h) ->
  (forall h, h_fd (f h) = h_fd h) -> (forall h, h_md (f h) = h_md h) ->
  aside s (snd (table (t ← gets id; when (handle_is_ok t i HANDLE_FILE && c) (update_slot i f)) s)).
Proof.
  intros Hu Hfd Hmd. pose proof (aside_update s i f Hu Hfd Hmd) as Ha. unfold table, zoom in *.
  rewrite (SE_bind_ok _ _ _ (s_handles s) (s_handles s)) by done. unfold when.
  destruct (_ && c); [done|]. by apply aside_same.
Qed.

Lemma aside_ok : rel_ok aside neutral_ok.
Proof.
  split; try (intros; by apply aside_same).
  - intros s1 s2 s3 [T1 F1 W1 O1] [T2 F2 W2 O2].
    split; [by auto|intros; congruence|intros; congruence|intros; congruence].
  - intros s i n. by apply aside_guarded.
  - intros A c s Hc. unfold sys, mq, zoom, do_call.
    pose proof (call_keeps A c (wld s)) as Hk. unfold wld in *.
    destruct (ext c _) as [r w]. cbn in *. split; try done.
    + intros fd. change (written fd (trace s ++ [Ev c r]) = written fd (trace s)).
      rewrite written_snoc. by destruct c.
    + intros fd. apply Hk. by destruct c.
  - intros A c Hc. unfold neutral_ok. by destruct c.
Qed.
Lemma neutral_obs A (c : call A) : observing c = true -> neutral_ok A c.
Proof. by destruct c. Qed.
Lemma neutral_chg A (c : call A) : changing c = true -> neutral_ok A c.
Proof. by destruct c. Qed.

(** [m], if it returns, keeps the invariant. *)
Definition keeps {A} (m : M A) : Prop :=
  forall s, upload_inv s -> match m s with (inr _, s') => upload_inv s' | _ => True end.
Lemma keeps_rel {A} (m : M A) : rel aside m -> keeps m.
Proof.
  intros Hm s Hs. specialize (Hm s). destruct (m s) as [[e|a] s']; [done|]. by eapply aside_in_step.
Qed.
Lemma keeps_bind {A B} (m : M A) (k : A -> M B) : keeps m -> (forall a, keeps (k a)) -> keeps (m ≫= k).
Proof.
  intros Hm Hk s Hs. specialize (Hm s Hs). unfold mbind, SE_bind. destruct (m s) as [[e|a] s1]; [done|].
  by apply Hk.
Qed.

(** ** Opening *)

Lemma keeps_handle_new_dir name d : keeps (table (handle_new HANDLE_DIR name 0 0 (Some d))).
Proof.
  intros s Hs. unfold table, zoom.
  pose proof (handle_new_spec HANDLE_DIR name 0 0 (Some d) (s_handles s) (up_tab _ _ Hs) ltac:(done)) as Hn.
  destruct (handle_new _ _ _ _ _ _) as [[e|i] t']; [done|].
  destruct Hn as [(Hi & Hfree & (nx & md & Hnew) & Hother) _].
  apply (aside_in_step _ s); [|done]. split; try done. intros j. cbn. rewrite !files_live.
  destruct (decide (j = i)) as [->|Hj]; [by rewrite Hnew, Hfree|by rewrite Hother].
Qed.

(** The handle of a fresh descriptor, before its context is initialised. *)
Lemma new_file_in_step s name fd flags :
  upload_inv s -> (forall i md, files (s_handles s) i <> Some (fd, md)) ->
  match table (handle_new HANDLE_FILE name fd flags None) s with
  | (inl _, _) => True
  | (inr i, s') => 0 <= i /\ in_step_but i s' /\ trace s' = trace s /\ wld s' = wld s /\
      exists h, live (s_handles s') i = Some h /\ h_use h = HANDLE_FILE /\ h_fd h = fd
  end.
Proof.
  intros Hs Hfd. unfold table, zoom.
  pose proof (handle_new_spec HANDLE_FILE name fd flags None (s_handles s) (up_tab _ _ Hs) ltac:(done)) as Hn.
  destruct (handle_new _ _ _ _ _ _) as [[e|i] t']; [done|].
  destruct Hn as [(Hi & Hfree & (nx & md & Hnew) & Hother) _].
  assert (Hfiles : forall j, j <> i -> files t' j = files (s_handles s) j).
  { intros j Hj. by rewrite !files_live, Hother. }
  assert (Hnewf : files t' i = Some (fd, md)) by by rewrite files_live, Hnew.
  split_and!; try done.
  - apply live_slot in Hnew as [Hnew _]. by apply slot_range in Hnew as [? _].
  - destruct Hs as [It Im Ii Is]. split; cbn; try done.
    + intros j fd' md' Hj Hf. rewrite Hfiles in Hf by done. apply (Im j); [|done]. by intros ->.
    + intros j k fd' m1 m2 Hj Hk.
      destruct (decide (j = i)) as [->|Hji], (decide (k = i)) as [->|Hki]; try done.
      * rewrite Hnewf in Hj. injection Hj as <- _. rewrite Hfiles in Hk by done. by apply Hfd in Hk.
      * rewrite Hnewf in Hk. injection Hk as <- _. rewrite Hfiles in Hj by done. by apply Hfd in Hj.
      * rewrite Hfiles in Hj, Hk by done. by apply (Ii j k fd' m1 m2).
  - eexists. split; [exact Hnew|done].
Qed.

(** Replacing the context of the open file in slot [i]. *)
Lemma set_md_in_step s i h g :
  in_step_but i s -> live (s_handles s) i = Some h -> h_use h = HANDLE_FILE ->
  ctx_holds (g (h_md h)) (written (h_fd h) (trace s)) -> fd_open (h_fd h) (wld s) = true ->
  h_fd h <> STDOUT ->
  exists s', table (update_slot i (fun h => set_md (g (h_md h)) h)) s = (inr tt, s') /\ upload_inv s'.
Proof.
  intros Hs Hl Hu Hc Ho Hn. unfold table, zoom.
  destruct (update_slot_spec (s_handles s) i h (fun h => set_md (g (h_md h)) h) (up_tab _ _ Hs) Hl) as
    (t' & E & Hi & Hl' & _ & Hother); [by cbn; rewrite Hu|].
  rewrite E. eexists. split; [done|].
  assert (Hfiles : forall j, j <> i -> files t' j = files (s_handles s) j).
  { intros j Hj. by rewrite !files_live, Hother. }
  assert (Hf : files t' i = Some (h_fd h, g (h_md h))).
  { rewrite files_live, Hl'. cbn. by rewrite Hu. }
  assert (Hf0 : files (s_handles s) i = Some (h_fd h, h_md h)).
  { rewrite files_live, Hl. cbn. by rewrite Hu. }
  apply (in_step_close i); [|cbn; by rewrite Hf]. destruct Hs as [It Im Ii Is]. split; cbn; try done.
  - intros j fd md Hj. rewrite Hfiles by done. by apply Im.
  - intros j k fd m1 m2 Hj Hk.
    assert (Hback : forall x m, files t' x = Some (fd, m) -> exists m', files (s_handles s) x = Some (fd, m')).
    { intros x m Hx. destruct (decide (x = i)) as [->|Hxi]; [|rewrite Hfiles in Hx by done; eauto].
      rewrite Hf in Hx. injection Hx as <- _. eauto. }
    destruct (Hback j m1 Hj) as [m1' Hj'], (Hback k m2 Hk) as [m2' Hk']. by apply (Ii j k fd m1' m2').
Qed.

(** open() on a sane server: a failure leaves it sane, a success gives a
    descriptor no open file has, with nothing written to it yet. *)
Lemma sys_open s name flags mode :
  upload_inv s ->
  exists r s', sys (Open name flags mode) s = (inr r, s') /\ upload_inv s' /\
    match r with
    | inl _ => True
    | inr fd => (forall i md, files (s_handles s') i <> Some (fd, md)) /\
        written fd (trace s') = [] /\ fd_open fd (wld s') = true /\ fd <> STDOUT
    end.
Proof.
  intros Hs. unfold sys, mq, zoom, do_call. fold (wld s). fold (trace s).
  destruct (ext (Open name flags mode) (wld s)) as [r w] eqn:Ew. cbn. eexists r, _. split; [done|].
  destruct r as [e|fd].
  - split; [|done]. apply (aside_in_step _ s); [|done]. split; try done.
    + intros fd. unfold trace. cbn [s_env set_env e_trace]. by rewrite written_snoc.
    + intros fd. by eapply open_failed.
  - destruct (open_fresh _ _ _ _ _ _ Ew) as (Hfresh & Hopen & Hother).
    destruct Hs as [It Im Ii Is].
    assert (Hno : forall i md, files (s_handles s) i <> Some (fd, md)).
    { intros i md Hf. destruct (Im i fd md) as (_ & Ho & _); [by intros ->|done|]. congruence. }
    assert (Hne : fd <> STDOUT) by congruence.
    assert (Hw : forall fd', written fd' (trace s ++ [Ev (Open name flags mode) (inr fd)]) =
      if fd =? fd' then [] else written fd' (trace s)) by (intros; by rewrite written_snoc).
    split_and!; try done.
    + split; try done; unfold trace, wld; cbn [s_env set_env e_trace e_world s_handles].
      * intros i fd' md Hi Hf. assert (fd' <> fd) by (intros ->; by apply (Hno i md)).
        fold (trace s). rewrite Hw, (proj2 (Z.eqb_neq fd fd')), Hother by done. by apply (Im i fd' md).
      * rewrite Hother by done. apply Is.
    + unfold trace. cbn [s_env set_env e_trace]. fold (trace s). by rewrite Hw, Z.eqb_refl.
Qed.

Lemma keeps_process_open id : keeps (process_open id).
Proof.
  pose proof aside_ok as HR. unfold process_open.
  apply keeps_bind; [apply keeps_rel; eauto with rel|intros name].
  apply keeps_bind; [apply keeps_rel; eauto with rel|intros pflags].
  apply keeps_bind; [apply keeps_rel; eauto with rel|intros a].
  apply keeps_bind; [apply keeps_rel; eauto with rel|intros readonly].
  apply keeps_bind; [|intros st; apply keeps_rel; rel_walk].
  destruct (open_refused _ _); [apply keeps_rel; eauto with rel|]. intros s Hs.
  set (flags := flags_from_portable _). set (mode := if has _ _ then _ else _).
  destruct (sys_open s name flags mode Hs) as (r & s1 & E1 & Hs1 & Hr). rewrite (SE_bind_ok _ _ _ _ _ E1).
  destruct r as [e|fd]; [done|]. destruct Hr as (Hno & Hw & Ho & Hne).
  pose proof (new_file_in_step s1 name fd flags Hs1 Hno) as Hn. unfold mbind at 1, SE_bind at 1.
  destruct (table (handle_new _ _ _ _ _) s1) as [[e|i] s2]; [done|].
  destruct Hn as (Hi & Hs2 & Htr & Hwld & h & Hl & Hu & Hfd).
  rewrite (proj2 (Z.ltb_ge i 0)) by done.
  destruct (set_md_in_step s2 i h (fun c => snd (checksum_init c)) Hs2 Hl Hu) as (s3 & E3 & Hs3).
  - rewrite Hfd, Htr, Hw. apply init_holds.
  - by rewrite Hfd, Hwld.
  - by rewrite Hfd.
  - rewrite (SE_bind_ok _ _ _ _ _ E3).
    apply (keeps_rel (_ ← send_handle id i; mret SSH2_FX_OK)); [rel_walk|done].
Qed.
Lemma keeps_process_opendir id : keeps (process_opendir id).
Proof.
  pose proof aside_ok as HR. unfold process_opendir.
  apply keeps_bind; [apply keeps_rel; eauto with rel|intros path].
  apply keeps_bind; [apply keeps_rel; rel_walk; done|intros [e|d]].
  - apply keeps_rel. rel_walk.
  - apply keeps_bind; [|intros st; apply keeps_rel; rel_walk].
    apply keeps_bind; [apply keeps_handle_new_dir|]. intros i. apply keeps_rel. rel_walk. done.
Qed.

(** ** Writing *)

Lemma handle_fd_live t i :
  0 <= handle_to_fd t i ->
  exists h, live t i = Some h /\ h_use h = HANDLE_FILE /\ h_fd h = handle_to_fd t i.
Proof.
  unfold handle_to_fd. rewrite handle_is_ok_live by done. intros Hfd.
  destruct (live t i) as [h|] eqn:El; [|done]. case_bool_decide; [|done].
  pose proof El as [Hs _]%live_slot. rewrite Hs in *. by exists h.
Qed.

(** write() of [data] to the open file in slot [i]. *)
Lemma sys_write s i h data :
  upload_inv s -> live (s_handles s) i = Some h -> h_use h = HANDLE_FILE ->
  exists r s', sys (Write (h_fd h) data) s = (inr r, s') /\ s_handles s' = s_handles s /\
    match r with
    | inr n => if n =? zlen data
        then in_step_but i s' /\ written (h_fd h) (trace s') = written (h_fd h) (trace s) ++ data /\
             fd_open (h_fd h) (wld s') = true
        else upload_inv s'
    | inl _ => upload_inv s'
    end.
Proof.
  intros Hs Hl Hu. unfold sys, mq, zoom, do_call. fold (wld s). fold (trace s).
  pose proof (call_keeps _ (Write (h_fd h) data) (wld s)) as Hk.
  destruct (ext (Write (h_fd h) data) (wld s)) as [r w] eqn:Ew. cbn in Hk.
  eexists r, _. split; [done|]. split; [done|]. set (s' := set_env _ s).
  assert (Hfile : files (s_handles s) i = Some (h_fd h, h_md h)).
  { rewrite files_live, Hl. cbn. by rewrite Hu. }
  assert (Haside : (forall fd, written fd (trace s ++ [Ev (Write (h_fd h) data) r]) = written fd (trace s)) ->
    upload_inv s').
  { intros Hw. apply (aside_in_step _ s); [|done]. split; try done.
    intros fd. by apply Hk. }
  destruct r as [e|n]; [apply Haside; intros; by rewrite written_snoc|].
  assert (Hw : forall fd, written fd (trace s ++ [Ev (Write (h_fd h) data) (inr n)]) =
    if (h_fd h =? fd) && (n =? zlen data) then written fd (trace s) ++ data else written fd (trace s))
    by (intros; by rewrite written_snoc).
  destruct (n =? zlen data).
  - destruct Hs as [It Im Ii Is]. split_and!.
    + split; try done; [|unfold wld, s'; cbn; by rewrite Hk].
      intros j fd md Hj Hf. assert (fd <> h_fd h) by (intros ->; by apply Hj, (Ii j i (h_fd h) md (h_md h))).
      unfold trace, wld, s'. cbn [s_env set_env e_trace e_world]. fold (trace s).
      rewrite Hw, (proj2 (Z.eqb_neq (h_fd h) fd)) by done. cbn. rewrite Hk by done.
      apply (Im j); [by intros ->|done].
    + unfold trace, s'. cbn [s_env set_env e_trace]. fold (trace s). by rewrite Hw, Z.eqb_refl.
    + unfold wld, s'. cbn. rewrite Hk by done. by apply (Im i (h_fd h) (h_md h)); [intros ->|].
  - apply Haside. intros. by rewrite Hw, andb_false_r.
Qed.

(** After a whole write, the two updates of the handle bring it in step. *)
Lemma checksum_in_step s i h data old :
  in_step_but i s -> live (s_handles s) i = Some h -> h_use h = HANDLE_FILE ->
  ctx_holds (h_md h) old -> written (h_fd h) (trace s) = old ++ data ->
  fd_open (h_fd h) (wld s) = true -> h_fd h <> STDOUT ->
  match table (handle_update_checksum i data (zlen data)) s with
  | (inr _, s') => upload_inv s'
  | _ => True
  end.
Proof.
  intros Hs Hl Hu Hc Hw Ho Hn. unfold handle_update_checksum, table, zoom.
  rewrite (SE_bind_ok _ _ _ (s_handles s) (s_handles s)) by done.
  rewrite handle_is_ok_live, Hl, bool_decide_eq_true_2 by done. cbn [andb when].
  destruct (Z.ltb_spec 0 (zlen data)) as [Hpos|Hz]; cbn [when].
  - destruct (set_md_in_step s i h (fun c => snd (checksum_add c (ztake (zlen data) data))) Hs Hl Hu)
      as (s' & E & Hs'); [|done..|].
    + rewrite Hw, ztake_all by done. by apply update_holds.
    + unfold table, zoom in E. destruct (update_slot _ _ (s_handles s)). by injection E as -> <-.
  - assert (data = []) as -> by (apply zlen_0_nil; zlen_facts; lia). rewrite app_nil_r in Hw.
    apply (aside_in_step _ s); [by apply aside_same|]. apply (in_step_close i); [done|].
    rewrite files_live, Hl. cbn. by rewrite Hu, decide_True, Hw.
Qed.

Lemma keeps_write_block i fd data t :
  fd = handle_to_fd t i -> 0 <= fd ->
  forall s, upload_inv s -> s_handles s = t ->
  match (r ← sys (Write fd data);
         match r with
         | inl e => mret (errno_to_portable e)
         | inr ret =>
             if ret =? zlen data then
               _ ← table (handle_update_write i ret);
               _ ← table (handle_update_checksum i data ret);
               mret SSH2_FX_OK
             else mret SSH2_FX_FAILURE
         end) s with
  | (inr _, s') => upload_inv s'
  | _ => True
  end.
Proof.
  intros Hfd Hpos s Hs Ht. subst t. destruct (handle_fd_live (s_handles s) i) as (h & Hl & Hu & Hh); [lia|].
  rewrite <- Hh in Hfd. subst fd.
  destruct (sys_write s i h data Hs Hl Hu) as (r & s1 & E1 & Ht1 & Hr). rewrite (SE_bind_ok _ _ _ _ _ E1).
  destruct r as [e|n]; [done|]. destruct (Z.eqb_spec n (zlen data)) as [->|]; [|done].
  destruct Hr as (Hs1 & Hw1 & Ho1).
  assert (Hold : ctx_holds (h_md h) (written (h_fd h) (trace s)) /\ h_fd h <> STDOUT).
  { destruct (up_md _ _ Hs i (h_fd h) (h_md h)) as (? & _ & ?); [|rewrite files_live, Hl; cbn; by rewrite Hu|done].
    intros ->. apply live_slot in Hl as [Hl _]. apply slot_range in Hl. lia. }
  pose proof (aside_guarded s1 i (0 <? zlen data) (fun h =>
       mk_handle (h_use h) (h_dirp h) (h_fd h) (h_flags h) (h_name h)
         (h_bytes_read h) (u64 (h_bytes_write h + zlen data)) (h_next_unused h) (h_md h))
     ltac:(done) ltac:(done) ltac:(done)) as Ha.
  change (aside s1 (snd (table (handle_update_write i (zlen data)) s1))) in Ha.
  unfold mbind at 1, SE_bind at 1.
  destruct (table (handle_update_write i (zlen data)) s1) as [[e|[]] s2]; [done|]. cbn in Ha.
  pose proof (as_files _ _ Ha i) as Hf2. rewrite Ht1 in Hf2.
  rewrite (files_live (s_handles s)), Hl in Hf2. cbn in Hf2. rewrite Hu in Hf2. cbn in Hf2.
  rewrite files_live in Hf2. destruct (live (s_handles s2) i) as [h2|] eqn:Hl2; [|done]. cbn in Hf2.
  destruct (decide (h_use h2 = HANDLE_FILE)) as [Hu2|]; [|done]. injection Hf2 as Hfd2 Hmd2.
  pose proof (checksum_in_step s2 i h2 data (written (h_fd h) (trace s)) (aside_in_step _ _ _ Ha Hs1) Hl2 Hu2) as Hc.
  unfold mbind at 1, SE_bind at 1. destruct (table (handle_update_checksum _ _ _) s2) as [[e|[]] s3]; [done|].
  apply Hc; rewrite ?Hmd2, ?Hfd2; [apply Hold|by rewrite (as_written _ _ Ha)|by rewrite (as_fds _ _ Ha)|apply Hold].
Qed.

Lemma keeps_process_write id : keeps (process_write id).
Proof.
  pose proof aside_ok as HR. unfold process_write.
  apply keeps_bind; [apply keeps_rel; eauto with rel|intros i].
  apply keeps_bind; [apply keeps_rel; eauto with rel|intros off].
  apply keeps_bind; [apply keeps_rel; eauto with rel|intros data]. intros s Hs.
  rewrite (SE_bind_ok _ _ _ (s_handles s) s) by done. cbv zeta. set (fd := handle_to_fd _ _).
  match goal with |- match (?m ≫= _) s with _ => _ end =>
    assert (Hm : match m s with (inr _, s') => upload_inv s' | _ => True end) end.
  2:{ unfold mbind at 1, SE_bind at 1. destruct (_ s) as [[e|st] s1]; [done|].
      apply (keeps_rel (send_status id st)); [rel_walk|done]. }
  destruct (Z.ltb_spec fd 0); [done|].
  match goal with |- match (?m ≫= _) s with _ => _ end =>
    assert (Hseek : exists r s', m s = (inr r, s') /\ upload_inv s' /\ s_handles s' = s_handles s) end.
  { destruct (negb _); [|by exists (inr tt), s].
    pose proof (keeps_rel (sys (Lseek fd (i64 off))) ltac:(rel_walk; done) s Hs) as Hq.
    unfold sys, mq, zoom, do_call in *. destruct (ext _ _) as [r w]. by eexists r, _. }
  destruct Hseek as (r & s1 & E1 & Hs1 & Ht1). rewrite (SE_bind_ok _ _ _ _ _ E1).
  destruct r as [e|[]]; [done|]. by apply (keeps_write_block i fd data (s_handles s)).
Qed.

(** ** Closing *)

Lemma sys_close s i h :
  upload_inv s -> live (s_handles s) i = Some h -> h_use h = HANDLE_FILE ->
  exists r s', sys (Close (h_fd h)) s = (inr r, s') /\ in_step_but i s' /\ s_handles s' = s_handles s.
Proof.
  intros Hs Hl Hu. unfold sys, mq, zoom, do_call. fold (wld s). fold (trace s).
  pose proof (close_other (h_fd h) (wld s)) as Hk.
  destruct (ext (Close (h_fd h)) (wld s)) as [r w] eqn:Ew. cbn in Hk.
  eexists r, _. split; [done|]. split; [|done]. set (s' := set_env _ s).
  assert (Hfile : files (s_handles s) i = Some (h_fd h, h_md h)).
  { rewrite files_live, Hl. cbn. by rewrite Hu. }
  assert (Hi : i <> -1) by by intros ->.
  destruct Hs as [It Im Ii Is]. destruct (Im i _ _ Hi Hfile) as (_ & _ & Hne). split; try done.
  - intros j fd md Hj Hf. assert (fd <> h_fd h) by (intros ->; by apply Hj, (Ii j i (h_fd h) md (h_md h))).
    unfold trace, wld, s'. cbn [s_env set_env e_trace e_world]. fold (trace s).
    rewrite written_snoc, Hk by done. apply (Im j); [by intros ->|done].
  - unfold wld, s'. cbn. by rewrite Hk.
Qed.
Lemma keep_table_sys {A} (c : call A) s : s_handles (snd (sys c s)) = s_handles s.
Proof. unfold sys, mq, zoom, do_call. by destruct (ext _ _). Qed.

Lemma close_file_in_step s i h :
  upload_inv s -> live (s_handles s) i = Some h -> h_use h = HANDLE_FILE ->
  match close_file h s with
  | (inr _, s') => in_step_but i s' /\ s_handles s' = s_handles s
  | _ => True
  end.
Proof.
  intros Hs Hl Hu. pose proof aside_ok as HR. unfold close_file.
  pose proof (keeps_rel (sys (Fstat (h_fd h))) ltac:(rel_walk; done) s Hs) as Hs1.
  pose proof (keep_table_sys (Fstat (h_fd h)) s) as Ht1.
  unfold mbind at 1, SE_bind at 1. destruct (sys (Fstat _) s) as [[e|st] s1]; [done|]. cbn in Ht1.
  destruct (sys_close s1 i h Hs1) as (r & s2 & E2 & Hs2 & Ht2); [by rewrite Ht1|done|].
  rewrite (SE_bind_ok _ _ _ _ _ E2). rewrite (SE_bind_ok _ _ _ (s_pw_name s2) s2) by done.
  destruct r as [e|[]]; [split; [done|congruence]|].
  destruct (announces_upload _); [|split; [done|congruence]].
  set (st' := match st with inr st => st | inl _ => indet_stat end).
  set (n := NUpload (s_pw_name s2) (h_name h) (snd (fst (checksum_final (h_md h)))) (st_size st') (st_mtime st')).
  pose proof (rel_send _ _ HR n s2) as Ha.
  change (mq_send_upload (s_pw_name s2) _ _ _ _) with (mq_send n).
  assert (Htab : s_handles (snd (mq (mq_send n) s2)) = s_handles s2).
  { unfold mq, zoom. by destruct (mq_send n (s_env s2)). }
  unfold mbind, SE_bind. destruct (mq (mq_send n) s2) as [[e|rc] s3]; [done|]. cbn in *.
  split; [by eapply aside_in_step|congruence].
Qed.

(** Releasing the slot of a handle in use. *)
Lemma release_in_step s i h :
  in_step_but i s -> live (s_handles s) i = Some h ->
  exists s', table (handle_unused i) s = (inr tt, s') /\ upload_inv s'.
Proof.
  intros Hs Hl. apply live_slot in Hl as [Hl Hu].
  destruct (handle_unused_spec (s_handles s) i h (up_tab _ _ Hs) Hl Hu) as (t' & E & Hi & _ & _ & Hfree & Hother).
  unfold table, zoom. rewrite E. eexists. split; [done|].
  assert (Hfiles : forall j, j <> i -> files t' j = files (s_handles s) j).
  { intros j Hj. unfold files. by rewrite Hother. }
  assert (Hnone : files t' i = None) by by rewrite files_live, Hfree.
  apply (in_step_close i); [|cbn; by rewrite Hnone]. destruct Hs as [It Im Ii Is]. split; cbn; try done.
  - intros j fd md Hj. rewrite Hfiles by done. by apply Im.
  - intros j k fd m1 m2 Hj Hk.
    rewrite Hfiles in Hj by (intros ->; congruence). rewrite Hfiles in Hk by (intros ->; congruence).
    by apply (Ii j k fd m1 m2).
Qed.

Lemma keeps_handle_close i : keeps (handle_close i).
Proof.
  intros s Hs. pose proof aside_ok as HR. unfold handle_close.
  rewrite (SE_bind_ok _ _ _ (s_handles s) s) by done. rewrite !handle_is_ok_live by done.
  destruct (live (s_handles s) i) as [h|] eqn:El; [|done].
  pose proof El as [Hsl _]%live_slot. pose proof (table_get_slot s i h Hsl) as Eg.
  assert (Hrel : forall (r : Z + ()) s1, in_step_but i s1 -> s_handles s1 = s_handles s ->
    match (_ ← table (handle_unused i); mret r) s1 with (inr _, s') => upload_inv s' | _ => True end).
  { intros r s1 Hs1 Ht1. destruct (release_in_step s1 i h Hs1) as (s2 & E2 & Hs2); [by rewrite Ht1|].
    by rewrite (SE_bind_ok _ _ _ _ _ E2). }
  destruct (decide (h_use h = HANDLE_FILE)) as [Hu|Hu];
    [rewrite bool_decide_eq_true_2 by done|rewrite bool_decide_eq_false_2 by done;
     destruct (bool_decide (h_use h = HANDLE_DIR)); [|exact Hs]]; rewrite (SE_bind_ok _ _ _ _ _ Eg).
  - pose proof (close_file_in_step s i h Hs El Hu) as Hc. unfold mbind at 1, SE_bind at 1.
    destruct (close_file h s) as [[e|r] s1]; [done|]. destruct Hc; by apply Hrel.
  - unfold close_dir. destruct (h_dirp h) as [d|]; [|done].
    pose proof (keeps_rel (sys (Closedir d)) ltac:(rel_walk; done) s Hs) as Hc.
    pose proof (keep_table_sys (Closedir d) s) as Ht. unfold mbind at 1, SE_bind at 1.
    destruct (sys (Closedir d) s) as [[e|r] s1]; [done|]. apply Hrel; [by apply in_step_weaken|done].
Qed.
Lemma keeps_process_close id : keeps (process_close id).
Proof.
  pose proof aside_ok as HR. unfold process_close.
  apply keeps_bind; [apply keeps_rel; eauto with rel|intros i].
  apply keeps_bind; [apply keeps_handle_close|intros r]. apply keeps_rel. rel_walk.
Qed.

(** ** Every packet and every round *)

Lemma keeps_handlers : Forall (fun h => forall id, keeps (sh_handler h id)) handlers.
Proof.
  pose proof aside_ok as HR.
  repeat (apply Forall_cons_2; [cbn; intros id|]); [..|apply Forall_nil_2];
    first [ apply keeps_process_open | apply keeps_process_close | apply keeps_process_write
          | apply keeps_process_opendir
          | apply keeps_rel; unfold process_stat, process_lstat;
            eauto using rel_process_read, rel_process_do_stat, rel_process_fstat, rel_process_readdir,
              rel_process_realpath, rel_process_readlink, rel_process_setstat, rel_process_fsetstat,
              rel_process_remove, rel_process_mkdir, rel_process_rmdir, rel_process_symlink,
              rel_process_rename, neutral_obs, neutral_chg ].
Qed.
Lemma keeps_extended_handlers : Forall (fun h => forall id, keeps (sh_handler h id)) extended_handlers.
Proof.
  pose proof aside_ok as HR.
  repeat (apply Forall_cons_2; [cbn; intros id|]); [..|apply Forall_nil_2]; apply keeps_rel;
    eauto using rel_posix_rename, rel_statvfs_request, rel_fstatvfs_request, rel_hardlink, rel_fsync,
      neutral_obs, neutral_chg.
Qed.
Lemma keeps_run_handler l f h id :
  Forall (fun h => forall id, keeps (sh_handler h id)) l -> find f l = Some h -> keeps (run_handler h id).
Proof.
  pose proof aside_ok as HR. intros Hl Hf. unfold run_handler.
  apply keeps_bind; [apply keeps_rel; eauto with rel|intros s].
  destruct (negb _); [apply keeps_rel; eauto with rel|]. apply find_some in Hf as [Hin _].
  rewrite Forall_forall in Hl. apply Hl. by apply list_elem_of_In.
Qed.
Lemma keeps_process : keeps process.
Proof.
  pose proof aside_ok as HR.
  assert (Hx : forall id, keeps (process_extended id)).
  { intros id. unfold process_extended. apply keeps_bind; [apply keeps_rel; eauto with rel|intros r].
    destruct (find _ _) eqn:E; [eapply keeps_run_handler; [apply keeps_extended_handlers|exact E]|].
    apply keeps_rel; eauto with rel. }
  assert (Hg : forall (b : bool) (k : Z -> M ()), (forall id, keeps (k id)) ->
    keeps (_ ← guard_or b (Fatal BeforeInit); id ← iq sshbuf_get_u32; k id)).
  { intros b k Hk. apply keeps_bind; [apply keeps_rel; eauto with rel|intros _].
    apply keeps_bind; [apply keeps_rel; eauto with rel|done]. }
  assert (Hd : forall type, keeps (dispatch type)).
  { intros type. unfold dispatch. apply keeps_bind; [apply keeps_rel; eauto with rel|intros b].
    destruct (type =? _).
    { apply keeps_rel. eapply rel_bind; [exact HR|by eapply rel_process_init|intros; by eapply rel_set_init_done]. }
    destruct (type =? _); [by apply Hg|].
    destruct (find _ handlers) as [h|] eqn:E; apply Hg; intros id;
      [eapply keeps_run_handler; [apply keeps_handlers|exact E]|apply keeps_rel; eauto with rel]. }
  unfold process. apply keeps_bind; [apply keeps_rel; eauto with rel|intros s]. cbv zeta.
  destruct (_ <? 5); [apply keeps_rel; eauto with rel|].
  destruct (_ <? _); [apply keeps_rel; eauto with rel|].
  destruct (_ <? _); [apply keeps_rel; eauto with rel|].
  apply keeps_bind; [apply keeps_rel; eauto with rel|intros _].
  apply keeps_bind; [apply keeps_rel; eauto with rel|intros type].
  apply keeps_bind; [apply Hd|intros _]. apply keeps_rel. rel_walk.
Qed.

Lemma keeps_copy_stdout olen : keeps (copy_stdout olen).
Proof.
  pose proof aside_ok as HR. unfold copy_stdout.
  apply keeps_bind; [apply keeps_rel; eauto with rel|intros b].
  apply keeps_bind.
  - intros s Hs. unfold sys, mq, zoom, do_call. fold (wld s). fold (trace s).
    set (data := ztake _ _). pose proof (call_keeps _ (Write STDOUT data) (wld s)) as Hk.
    destruct (ext (Write STDOUT data) (wld s)) as [r w]. cbn in Hk. destruct Hs as [It Im Ii Is].
    split; try done; [|unfold wld; cbn; by rewrite Hk].
    intros i fd md Hi Hf. destruct (Im i fd md Hi Hf) as (Hc & Ho & Hne).
    unfold trace, wld. cbn [s_env set_env e_trace e_world]. fold (trace s).
    rewrite written_snoc, Hk by done. split_and!; [|done..].
    cbn [write_step]. rewrite (proj2 (Z.eqb_neq STDOUT fd)) by done. cbn. by destruct r.
  - intros [e|n]; apply keeps_rel; [eauto with rel|]. by eapply rel_oq.
Qed.
Lemma keeps_main_round : keeps main_round.
Proof.
  pose proof aside_ok as HR.
  assert (Hroom : forall b n, keeps (has_room b n)).
  { intros b n. apply keeps_rel. unfold has_room. rel_walk. }
  unfold main_round. apply keeps_bind; [apply keeps_rel; eauto with rel|intros s].
  apply keeps_bind; [apply Hroom|intros b1].
  apply keeps_bind; [destruct b1; [apply Hroom|apply keeps_rel; eauto with rel]|intros b2]. cbv zeta.
  apply keeps_bind; [apply keeps_rel; rel_walk; done|intros [e|[i o]]].
  { apply keeps_rel. rel_walk. }
  apply keeps_bind.
  { apply keeps_rel. unfold copy_stdin. rel_walk; done. }
  intros _. apply keeps_bind.
  { destruct (_ && o); [apply keeps_copy_stdout|apply keeps_rel; eauto with rel]. }
  intros _. apply keeps_bind; [apply keeps_rel; eauto with rel|intros s'].
  apply keeps_bind; [apply Hroom|intros b3]. destruct b3; [apply keeps_process|apply keeps_rel; eauto with rel].
Qed.

Lemma start_upload_inv queue readonly wl bl pw e :
  fd_open STDOUT (e_world e) = true -> upload_inv (server_start queue readonly wl bl pw e).
Proof.
  intros Ho. assert (Hnone : forall i, files empty_htab i = None).
  { intros i. rewrite files_live. unfold live. destruct (slot empty_htab i) eqn:Es; [|done].
    apply slot_range in Es. unfold num_handles, empty_htab in Es. cbn in Es. zlia. }
  split; cbn; [apply empty_htab_inv| | |done]; intros i *; rewrite Hnone; done.
Qed.

(** What is asked of the broker when a file is closed: nothing, if it was not
    opened to create, truncate or append; else [n] is announced. *)
Definition uploaded (o : mq_options_t) (flags : Z) (n : notice) (m : mq_state) (tr : list event) : Prop :=
  if decide (Z.land flags (Z.lor (Z.lor O_CREAT O_TRUNC) O_APPEND) = 0) then tr = []
  else exists rc o', send_outcome o n rc o' tr /\ m = MqAt o'.
Lemma announces_upload_flags flags :
  announces_upload flags = negb (bool_decide (Z.land flags (Z.lor (Z.lor O_CREAT O_TRUNC) O_APPEND) = 0)).
Proof.
  unfold announces_upload. change O_RDONLY with 0. rewrite Z.land_0_r, andb_true_r. unfold truthy. f_equal.
  case_bool_decide as E; [by rewrite E|by apply Z.eqb_neq].
Qed.

(** The trace of closing an open file. *)
Lemma handle_close_announces s i h o :
  upload_inv s -> live (s_handles s) i = Some h -> h_use h = HANDLE_FILE -> e_mq (s_env s) = MqAt o -> mq_ready o ->
  let notice (st : Z + stat_t) :=
    let st := match st with inr st => st | inl _ => indet_stat end in
    NUpload (s_pw_name s) (h_name h) (sha256 (written (h_fd h) (trace s))) (st_size st) (st_mtime st) in
  (forall st, is_Some (notice_message (notice st))) ->
  exists st ret s' tr, handle_close i s = (inr ret, s') /\
    trace s' = trace s ++ [Ev (Fstat (h_fd h)) st; Ev (Close (h_fd h)) ret] ++ tr /\
    match ret with
    | inl _ => tr = []
    | inr _ => uploaded o (h_flags h) (notice st) (e_mq (s_env s')) tr
    end.
Proof.
  intros Hs Hl Hu Hmq Hready notice Hmsg.
  assert (Hdig : snd (fst (checksum_final (h_md h))) = sha256 (written (h_fd h) (trace s))).
  { apply final_digest. destruct (up_md _ _ Hs i (h_fd h) (h_md h)) as (Hc & _); [by intros ->| |done].
    rewrite files_live, Hl. cbn. by rewrite Hu. }
  pose proof Hl as [Hsl _]%live_slot. unfold handle_close.
  rewrite (SE_bind_ok _ _ _ (s_handles s) s) by done.
  rewrite handle_is_ok_live, Hl, bool_decide_eq_true_2 by done.
  rewrite (SE_bind_ok _ _ _ _ _ (table_get_slot s i h Hsl)).
  pose proof (close_file_in_step s i h Hs Hl Hu) as Hstep.
  assert (Hok : forall st, notice_ok (notice st)) by (intros st; split; [apply digest_len|apply digest_u8]).
  revert notice Hmsg Hok. generalize dependent (sha256 (written (h_fd h) (trace s))).
  intros d Hdig notice Hmsg Hok.
  assert (Hclose : exists st ret s1 tr, close_file h s = (inr ret, s1) /\
    trace s1 = trace s ++ [Ev (Fstat (h_fd h)) st; Ev (Close (h_fd h)) ret] ++ tr /\
    match ret with
    | inl _ => tr = []
    | inr _ => uploaded o (h_flags h) (notice st) (e_mq (s_env s1)) tr
    end).
  { destruct (s_env s) as [m w0 tr0] eqn:Ee. cbn in Hmq. subst m.
    unfold trace. rewrite Ee. unfold close_file, sys, mq, do_call, zoom. unfold_SE. rewrite Ee. cbn.
    destruct (ext (Fstat (h_fd h)) w0) as [st w1]. cbn. destruct (ext (Close (h_fd h)) w1) as [ret w2]. cbn.
    exists st, ret. destruct ret as [e|[]]; cbn.
    - eexists _, []. split; [done|]. cbn. by rewrite <- app_assoc.
    - rewrite announces_upload_flags. unfold uploaded. case_decide as Hfl; [rewrite bool_decide_eq_true_2 by done|rewrite bool_decide_eq_false_2 by done]; cbn [negb].
      { eexists _, []. split; [done|]. cbn. by rewrite <- app_assoc. }
      destruct (mq_send_spec (notice st) o w2 ((tr0 ++ [Ev (Fstat (h_fd h)) st]) ++ [Ev (Close (h_fd h)) (inr tt)])
        Hready (Hok st) (Hmsg st)) as (rc & o' & w3 & tr' & E & _ & Hout).
      cbn [mq_send notice] in E. cbn [s_env set_env]. rewrite Hdig, E.
      eexists _, tr'. split; [done|]. cbn. rewrite <- !app_assoc. split; [done|]. eauto. }
  destruct Hclose as (st & ret & s1 & tr & E & Htr & Hret). rewrite (SE_bind_ok _ _ _ _ _ E).
  rewrite E in Hstep. destruct Hstep as [Hs1 Ht1].
  destruct (release_in_step s1 i h Hs1) as (s2 & E2 & _); [by rewrite Ht1|].
  rewrite (SE_bind_ok _ _ _ _ _ E2). exists st, ret, s2, tr. split; [done|].
  rewrite <- Htr. unfold table, zoom in E2. destruct (handle_unused i _). by injection E2 as _ <-.
Qed.
End Upload.

(** ** Properties *)

Section Properties.
Context `{Allocator} `{World} `{Sha256} `{JsonC} `{Calendar} `{Indet}.
Context `{!HeapBounded} `{!FdTable} `{!Sha256Ok} `{!JsonOk}.

End Properties.

(** ** Examples *)

Definition script_fds : @FdTable script_world.
Proof.
  refine (@Build_FdTable script_world (fun fd w => (0 <=? fd) && (fd <? Z.max 3 (sc_next_fd w))) _ _ _ _).
  - intros p f m w fd w' [= <- <-]. cbn. split_and!.
    + rewrite Z.ltb_irrefl. apply andb_false_r.
    + rewrite (proj2 (Z.leb_le _ _)), (proj2 (Z.ltb_lt _ _)) by lia. done.
    + intros fd' Hne. f_equal. destruct (Z.ltb_spec fd' (Z.max 3 (sc_next_fd w))).
      * apply Z.ltb_lt. lia.
      * apply Z.ltb_ge. lia.
  - done.
  - done.
  - intros A c w fd Hc. destruct c; try done. cbn. by destruct (_ =? STDIN).
Defined.

Lemma demo_message_some n obj :
  @notice_object demo_jsonc n = Some obj -> zlen (demo_text obj) < 2 ^ 38 ->
  is_Some (@notice_message demo_jsonc demo_heap38 n).
Proof.
  intros Hn Hl. assert (Hm : @notice_message demo_jsonc demo_heap38 n =
    (obj ← @notice_object demo_jsonc n; @strdup demo_heap38 (cstr (demo_text obj)))) by by destruct n.
  rewrite Hm, Hn. cbn [mbind option_bind]. unfold strdup. cbn [heap_alloc demo_heap38].
  pose proof (zlen_cstr (demo_text obj)). rewrite (proj2 (Z.leb_le _ _)) by lia. by eexists.
Qed.

(** Two files open at once, written to in turn. *)
Definition demo_upload : list Z :=
  demo_init ++ demo_open 1 (str "/a") 0x1A ++ demo_open 2 (str "/b") 0x1A ++
  demo_write 3 0 0 [1; 2] ++ demo_write 4 1 0 [9] ++ demo_write 5 0 2 [3].
Definition demo_uploaded : @server script_world demo_sha := demo_rounds 6 (demo_start false demo_upload).
Definition demo_file : @Handle demo_sha := default raw_handle (live (s_handles demo_uploaded) 0).

