(* ===== verification/SftpNotify.v ===== *)
(** * Removals and renames are announced

    The handlers of SSH2_FXP_REMOVE, SSH2_FXP_RENAME and of the extension
    posix-rename tell the broker exactly when the file system was changed,
    after the reply is on the output queue.  The last part runs the server on
    two requests that show what it does without a configuration, and on a
    read-only server. *)

From S2P Require Import Prelude Sshbuf SftpCommon World LsFile MqNotify Handles SftpServer SftpReplies MainLoop.

(** ** Events of a rename *)

(** [ev] is a successful rename of [old] to [new]; a successful link; a
    successful unlink; a stat that found nothing. *)
Definition renamed (old new : list Z) (ev : event) : bool :=
  match ev with
  | @Ev A c r =>
      match c in call A return A -> bool with
      | Rename o n => fun r => match r with inr _ => bytes_eqb o old && bytes_eqb n new | inl _ => false end
      | _ => fun _ => false
      end r
  end.
Definition linked (old new : list Z) (ev : event) : bool :=
  match ev with
  | @Ev A c r =>
      match c in call A return A -> bool with
      | Link o n => fun r => match r with inr _ => bytes_eqb o old && bytes_eqb n new | inl _ => false end
      | _ => fun _ => false
      end r
  end.
Definition unlinked (path : list Z) (ev : event) : bool :=
  match ev with
  | @Ev A c r =>
      match c in call A return A -> bool with
      | Unlink p => fun r => match r with inr _ => bytes_eqb p path | inl _ => false end
      | _ => fun _ => false
      end r
  end.
Definition stat_failed (path : list Z) (ev : event) : bool :=
  match ev with
  | @Ev A c r =>
      match c in call A return A -> bool with
      | Stat p => fun r => match r with inr _ => false | inl _ => bytes_eqb p path end
      | _ => fun _ => false
      end r
  end.

(** The calls moved [old] to [new]: by rename, or by link and unlink. *)
Fixpoint moved (old new : list Z) (ops : list event) : bool :=
  match ops with
  | [] => false
  | ev :: ops' =>
      renamed old new ev ||
      (linked old new ev && match ops' with ev' :: _ => unlinked old ev' | [] => false end) ||
      moved old new ops'
  end.
(** Every rename that took effect comes right after a stat that did not find
    the new path. *)
Fixpoint careful (old new : list Z) (absent : bool) (ops : list event) : bool :=
  match ops with
  | [] => true
  | ev :: ops' => (negb (renamed old new ev) || absent) && careful old new (stat_failed new ev) ops'
  end.
(** The calls left a second name: a link with neither name unlinked after. *)
Fixpoint doubled (old new : list Z) (ops : list event) : bool :=
  match ops with
  | [] => false
  | ev :: ops' =>
      (linked old new ev && negb (existsb (fun ev' => unlinked old ev' || unlinked new ev') ops')) ||
      doubled old new ops'
  end.
(** An unlink of [path] was refused. *)
Definition unlink_failed (path : list Z) (ev : event) : bool :=
  match ev with
  | @Ev A c r =>
      match c in call A return A -> bool with
      | Unlink p => fun r => match r with inl _ => bytes_eqb p path | inr _ => false end
      | _ => fun _ => false
      end r
  end.

Section Notify.
Context `{Allocator} `{World} `{Sha256} `{JsonC} `{Calendar} `{Indet}.
Context `{!AllocTotal} `{!HeapBounded} `{!WorldOk} `{!JsonOk}.

Abbreviation M := (SE server exit_reason).
Definition evs (s : server) : list event := e_trace (s_env s).

(** The server after some calls answered by the world. *)
Definition after (w : world) (ops : list event) (s : server) : server :=
  set_env (mk_env (e_mq (s_env s)) w (evs s ++ ops)) s.

Lemma after_nil s : after (e_world (s_env s)) [] s = s.
Proof. unfold after, evs. rewrite app_nil_r. by destruct s as [??????????[]]. Qed.
Lemma after_after w w' ops ops' s : after w' ops' (after w ops s) = after w' (ops ++ ops') s.
Proof. unfold after, evs. cbn. by rewrite app_assoc. Qed.
Lemma sys_after {A} (c : call A) s :
  exists r w, sys c s = (inr r, after w [Ev c r] s) /\ answer_ok c r.
Proof.
  unfold sys, mq, zoom, do_call. pose proof (answers_ok A c (e_world (s_env s))) as Ha.
  destruct (ext c _) as [r w]. by exists r, w.
Qed.

Lemma get_path_ok name rest s :
  srv_inv s -> no_nul name -> contents (s_iqueue s) = enc_string name ++ rest ->
  exists b, get_path s = (inr name, set_iqueue b s) /\ buf_rw b /\ contents b = rest.
Proof.
  intros Hs Hn Hc. destruct (Parses_cstring name Hn (s_iqueue s) rest (inv_iq _ Hs) Hc)
    as (b & E & Hb & [= Hrest _]).
  exists b. split; [|done]. unfold get_path.
  rewrite (SE_bind_ok _ _ s name (set_iqueue b s)); [by rewrite cstr_id|].
  unfold iq, zoom, on_err. by rewrite E.
Qed.

(** The broker is told of [n]: the calls [tr], and the options after them. *)
Definition told (o : mq_options_t) (n : notice) (s' : server) (tr : list event) : Prop :=
  exists rc o', send_outcome o n rc o' tr /\ e_mq (s_env s') = MqAt o'.

(** What a handler does once the status is known: reply, then tell. *)
Lemma reply_and_tell id status (n : list Z -> notice) o s :
  srv_inv s -> roomy s -> e_mq (s_env s) = MqAt o -> mq_ready o ->
  notice_ok (n (s_pw_name s)) -> is_Some (notice_message (n (s_pw_name s))) ->
  exists s' tr, (_ ← send_status id status; user ← gets s_pw_name;
                 when (status =? SSH2_FX_OK) (notify (mq_send (n user)))) s = (inr tt, s') /\
    evs s' = evs s ++ tr /\
    contents (s_oqueue s') =
      contents (s_oqueue s) ++ enc_string (status_body (s_version s) id status) /\
    if status =? SSH2_FX_OK then told o (n (s_pw_name s)) s' tr else tr = [].
Proof.
  intros Hs Hr Hmq Hready Hn Hm. destruct (send_status_ok id status s Hs Hr) as (b & E & Hc).
  rewrite (SE_bind_ok _ _ _ _ _ E). rewrite (SE_bind_ok _ _ _ (s_pw_name s) (set_oqueue b s)) by done.
  destruct (status =? SSH2_FX_OK); cbn [when].
  2:{ exists (set_oqueue b s), []. unfold evs. cbn. by rewrite app_nil_r. }
  destruct (s_env s) as [m w tr0] eqn:Ee. cbn in Hmq. subst m.
  destruct (mq_send_spec (n (s_pw_name s)) o w tr0 Hready Hn Hm) as (rc & o' & w' & tr & E' & _ & Hout).
  unfold notify, mq, zoom. unfold_SE. cbn [s_env set_oqueue]. rewrite Ee, E'.
  eexists _, tr. split; [done|]. unfold evs, told. cbn. rewrite Ee. cbn. eauto 6.
Qed.

(** ** The calls of a rename *)

Definition rename_ops (old new : list Z) (status : Z) (ops : list event) : Prop :=
  moved old new ops = (status =? SSH2_FX_OK) /\ careful old new false ops = true /\
  (doubled old new ops = true -> existsb (unlink_failed new) ops = true).

Lemma bytes_eqb_same l : bytes_eqb l l = true.
Proof. apply bytes_eqb_refl. Qed.
Lemma errno_not_ok e : e <> 0 -> (errno_to_portable e =? SSH2_FX_OK) = false.
Proof. intros. by apply Z.eqb_neq, errno_to_portable_ok. Qed.

(** [m] makes calls [ops] of which [Q] holds with its result. *)
Definition makes {A} (Q : A -> list event -> Prop) (m : M A) : Prop :=
  forall s, exists a w ops, m s = (inr a, after w ops s) /\ Q a ops.
Lemma makes_ret {A} (Q : A -> list event -> Prop) a : Q a [] -> makes Q (mret a).
Proof. intros HQ s. exists a, (e_world (s_env s)), []. by rewrite after_nil. Qed.
Lemma makes_call {A B} (c : call A) (Q : B -> list event -> Prop) (k : A -> M B) :
  (forall r, answer_ok c r -> makes (fun b ops => Q b (Ev c r :: ops)) (k r)) ->
  makes Q (r ← sys c; k r).
Proof.
  intros Hk s. destruct (sys_after c s) as (r & w & E & Hr). rewrite (SE_bind_ok _ _ _ _ _ E).
  destruct (Hk r Hr (after w [Ev c r] s)) as (b & w' & ops & E' & HQ).
  exists b, w', (Ev c r :: ops). by rewrite E', after_after.
Qed.

Lemma rename_unless_exists_ops old new pre :
  (forall b ops, careful old new b (pre ++ ops) = careful old new false ops) ->
  (forall ops, moved old new (pre ++ ops) = moved old new ops) ->
  (forall ops, doubled old new (pre ++ ops) = doubled old new ops) ->
  makes (fun status ops => rename_ops old new status (pre ++ ops)) (rename_unless_exists old new).
Proof.
  intros Hc Hm Hd. unfold rename_unless_exists. apply makes_call. intros [e|st] Hr.
  - apply makes_call. intros [e'|[]] Hr'; apply makes_ret; unfold rename_ops; rewrite Hc, Hm, Hd; cbn;
      rewrite ?bytes_eqb_same; [rewrite errno_not_ok by done|]; done.
  - apply makes_ret. unfold rename_ops. rewrite Hc, Hm, Hd. done.
Qed.

Lemma do_rename_ops old new : makes (rename_ops old new) (do_rename old new).
Proof.
  unfold do_rename. apply makes_call. intros [e|sb] Hr.
  { apply makes_ret. unfold rename_ops. cbn. by rewrite errno_not_ok. }
  destruct (S_ISREG (st_mode sb)); [|by apply (rename_unless_exists_ops old new [_])].
  apply makes_call. intros [e|[]] Hl.
  { destruct (_ || _); [by apply (rename_unless_exists_ops old new [_; _])|].
    apply makes_ret. unfold rename_ops. cbn. by rewrite errno_not_ok. }
  apply makes_call. intros [e|[]] Hu.
  - apply makes_call. intros r' _. apply makes_ret. unfold rename_ops. cbn.
    rewrite errno_not_ok, !bytes_eqb_same by done.
    destruct r' as [e'|[]]; cbn; rewrite ?bytes_eqb_same; done || by rewrite orb_true_r.
  - apply makes_ret. unfold rename_ops. cbn. by rewrite !bytes_eqb_same.
Qed.

(** Reading two paths, moving, replying and telling: the shape of both rename
    requests. *)
Lemma rename_request (move : list Z -> list Z -> M Z) (Q : Z -> list event -> Prop)
    id old new rest o s :
  makes Q (move old new) ->
  srv_inv s -> roomy s -> no_nul old -> no_nul new ->
  contents (s_iqueue s) = enc_string old ++ enc_string new ++ rest ->
  e_mq (s_env s) = MqAt o -> mq_ready o -> is_Some (notice_message (NRename (s_pw_name s) old new)) ->
  exists status ops tr s',
    (oldpath ← get_path; newpath ← get_path; status ← move oldpath newpath;
     _ ← send_status id status; user ← gets s_pw_name;
     when (status =? SSH2_FX_OK) (notify (mq_send_rename user oldpath newpath))) s = (inr tt, s') /\
    evs s' = evs s ++ ops ++ tr /\ Q status ops /\
    contents (s_oqueue s') =
      contents (s_oqueue s) ++ enc_string (status_body (s_version s) id status) /\
    if status =? SSH2_FX_OK then told o (NRename (s_pw_name s) old new) s' tr else tr = [].
Proof.
  intros Hmove Hs Hr Hold Hnew Hc Hmq Hready Hm.
  destruct (get_path_ok old (enc_string new ++ rest) s Hs Hold Hc) as (b1 & E1 & Hb1 & Hc1).
  rewrite (SE_bind_ok _ _ _ _ _ E1).
  assert (Hs1 : srv_inv (set_iqueue b1 s)) by (destruct Hs; by split).
  destruct (get_path_ok new rest (set_iqueue b1 s) Hs1 Hnew Hc1) as (b2 & E2 & Hb2 & Hc2).
  rewrite (SE_bind_ok _ _ _ _ _ E2). set (s2 := set_iqueue b2 (set_iqueue b1 s)).
  destruct (Hmove s2) as (status & w & ops & E3 & HQ). rewrite (SE_bind_ok _ _ _ _ _ E3).
  assert (Hs3 : srv_inv (after w ops s2)) by (destruct Hs; by split).
  destruct (reply_and_tell id status (fun user => NRename user old new) o (after w ops s2) Hs3 Hr
    Hmq Hready I Hm) as (s' & tr & E & Htr & Hoq & Hout).
  exists status, ops, tr, s'. split_and!; try done. by rewrite Htr, app_assoc.
Qed.

Lemma posix_rename_calls old new :
  makes (fun status ops => exists r, ops = [Ev (Rename old new) r] /\ status = status_of r /\
           moved old new ops = (status =? SSH2_FX_OK))
    (r ← sys (Rename old new); mret (status_of r)).
Proof.
  apply makes_call. intros r Hr. apply makes_ret. exists r. split_and!; [done..|].
  destruct r as [e|[]]; cbn; [by rewrite errno_not_ok|by rewrite !bytes_eqb_same].
Qed.
End Notify.

(** ** Properties *)

Section Properties.
Context `{Allocator} `{World} `{Sha256} `{JsonC} `{Calendar} `{Indet}.
Context `{!AllocTotal} `{!HeapBounded} `{!WorldOk} `{!JsonOk}.

(** C30: on a server whose configuration of the broker is usable, a remove
    request unlinks the path it names, and nothing else; the client gets one
    status, success exactly when the file was unlinked.  Exactly then, and after
    the call, the broker is told of the removal by this user: the message is
    published, unless the server was not logged in and the broker refuses the
    login now.  When unlink fails nothing is asked of the broker. *)
Theorem remove_announced_iff_removed (id : Z) (name rest : list Z) (o : mq_options_t) (s : server) :
  srv_inv s -> roomy s -> no_nul name -> contents (s_iqueue s) = enc_string name ++ rest ->
  e_mq (s_env s) = MqAt o -> mq_ready o -> is_Some (notice_message (NRemove (s_pw_name s) name)) ->
  exists r tr s', process_remove id s = (inr tt, s') /\
    evs s' = evs s ++ Ev (Unlink name) r :: tr /\
    contents (s_oqueue s') =
      contents (s_oqueue s) ++ enc_string (status_body (s_version s) id (status_of r)) /\
    match r with
    | inr _ => status_of r = SSH2_FX_OK /\ told o (NRemove (s_pw_name s) name) s' tr
    | inl _ => status_of r <> SSH2_FX_OK /\ tr = []
    end.
Proof.
  intros Hs Hr Hn Hc Hmq Hready Hm.
  destruct (get_path_ok name rest s Hs Hn Hc) as (b & E1 & Hb & _).
  unfold process_remove. rewrite (SE_bind_ok _ _ _ _ _ E1).
  destruct (sys_after (Unlink name) (set_iqueue b s)) as (r & w & E2 & Ha).
  rewrite (SE_bind_ok _ _ _ _ _ E2).
  assert (Hs2 : srv_inv (after w [Ev (Unlink name) r] (set_iqueue b s))) by (destruct Hs; by split).
  destruct (reply_and_tell id (status_of r) (fun user => NRemove user name) o _ Hs2 Hr
    Hmq Hready I Hm) as (s' & tr & E & Htr & Hoq & Hout).
  exists r, tr, s'. split_and!; [done| |done|].
  - rewrite Htr. unfold evs. cbn. by rewrite <- app_assoc.
  - destruct r as [e|[]]; [|done]. cbn in Ha, Hout. rewrite errno_not_ok in Hout by done.
    split; [by apply errno_to_portable_ok|done].
Qed.

(** C29: on a server whose configuration of the broker is usable, a rename
    request answers success exactly when its calls moved the old path to the
    new one, by rename or by link and unlink, and exactly then the broker is
    told of the renaming by this user: the message is published, unless the
    server was not logged in and the broker refuses the login now.  A rename
    that took effect follows a stat that did not find the new path, so no file
    known to exist is replaced; and a link made on the way is only left beside
    the old name if removing it was tried and refused. *)
Theorem rename_announced_iff_moved (id : Z) (old new rest : list Z) (o : mq_options_t) (s : server) :
  srv_inv s -> roomy s -> no_nul old -> no_nul new ->
  contents (s_iqueue s) = enc_string old ++ enc_string new ++ rest ->
  e_mq (s_env s) = MqAt o -> mq_ready o -> is_Some (notice_message (NRename (s_pw_name s) old new)) ->
  exists status ops tr s', process_rename id s = (inr tt, s') /\
    evs s' = evs s ++ ops ++ tr /\ rename_ops old new status ops /\
    contents (s_oqueue s') =
      contents (s_oqueue s) ++ enc_string (status_body (s_version s) id status) /\
    if moved old new ops then told o (NRename (s_pw_name s) old new) s' tr else tr = [].
Proof.
  intros Hs Hr Hold Hnew Hc Hmq Hready Hm.
  destruct (rename_request do_rename (rename_ops old new) id old new rest o s (do_rename_ops old new)
    Hs Hr Hold Hnew Hc Hmq Hready Hm) as (status & ops & tr & s' & E & Htr & Hops & Hoq & Hout).
  exists status, ops, tr, s'. split_and!; try done. by rewrite (proj1 Hops).
Qed.

(** Posix-rename makes the one call rename, answers its status, and
    announces the rename exactly when it succeeded. *)
Theorem posix_rename_announced_iff_renamed (id : Z) (old new rest : list Z) (o : mq_options_t)
    (s : server) :
  srv_inv s -> roomy s -> no_nul old -> no_nul new ->
  contents (s_iqueue s) = enc_string old ++ enc_string new ++ rest ->
  e_mq (s_env s) = MqAt o -> mq_ready o -> is_Some (notice_message (NRename (s_pw_name s) old new)) ->
  exists r tr s', process_extended_posix_rename id s = (inr tt, s') /\
    evs s' = evs s ++ Ev (Rename old new) r :: tr /\
    contents (s_oqueue s') =
      contents (s_oqueue s) ++ enc_string (status_body (s_version s) id (status_of r)) /\
    if moved old new [Ev (Rename old new) r] then told o (NRename (s_pw_name s) old new) s' tr else tr = [].
Proof.
  intros Hs Hr Hold Hnew Hc Hmq Hready Hm.
  destruct (rename_request (fun old new => r ← sys (Rename old new); mret (status_of r)) _
    id old new rest o s (posix_rename_calls old new) Hs Hr Hold Hnew Hc Hmq Hready Hm)
    as (status & ops & tr & s' & E & Htr & (r & -> & -> & Hmv) & Hoq & Hout).
  exists r, tr, s'. split_and!; [|done..|by rewrite Hmv].
  rewrite <- E. unfold process_extended_posix_rename. unfold mbind, SE_bind.
  destruct (get_path s) as [[|op] s1]; [done|]. destruct (get_path s1) as [[|np] s2]; [done|].
  by destruct (sys (Rename op np) s2) as [[|r'] s3].
Qed.

(** Without a configuration (sshd does not look at the result of
    load_mq_config, and sftp-server started by itself never calls it) a remove
    request that unlinks its file ends the process at the null options, with
    the reply still on the output queue. *)
Theorem remove_without_configuration_crashes (id : Z) (name rest : list Z) (s : server) :
  srv_inv s -> roomy s -> no_nul name -> contents (s_iqueue s) = enc_string name ++ rest ->
  e_mq (s_env s) = MqNull ->
  exists r res s', process_remove id s = (res, s') /\ evs s' = evs s ++ [Ev (Unlink name) r] /\
    contents (s_oqueue s') =
      contents (s_oqueue s) ++ enc_string (status_body (s_version s) id (status_of r)) /\
    res = match r with inr _ => inl Segv | inl _ => inr tt end.
Proof.
  intros Hs Hr Hn Hc Hmq.
  destruct (get_path_ok name rest s Hs Hn Hc) as (b & E1 & Hb & _).
  unfold process_remove. rewrite (SE_bind_ok _ _ _ _ _ E1).
  destruct (sys_after (Unlink name) (set_iqueue b s)) as (r & w & E2 & Ha).
  rewrite (SE_bind_ok _ _ _ _ _ E2).
  assert (Hs2 : srv_inv (after w [Ev (Unlink name) r] (set_iqueue b s))) by (destruct Hs; by split).
  destruct (send_status_ok id (status_of r) _ Hs2 Hr) as (b' & E3 & Hc3).
  rewrite (SE_bind_ok _ _ _ _ _ E3). rewrite (SE_bind_ok (gets s_pw_name) _ _ _ _ eq_refl).
  unfold after, evs in *. destruct r as [e|[]]; cbn [status_of] in *.
  - cbn in Ha. rewrite errno_not_ok by done. by eexists _, _, _.
  - unfold notify, mq, zoom. unfold_SE. cbn. rewrite Hmq. cbn. eexists (inr tt), _, _. by split_and!.
Qed.
End Properties.

(** ** Examples *)

(** Requests as they are on the input queue once their identifier is read. *)
Definition demo_remove_body : list Z := enc_string (str "/f").
Definition demo_rename_body : list Z := enc_string (str "/a") ++ enc_string (str "/b").
Lemma demo_name_no_nul : no_nul (str "/f") /\ no_nul (str "/a") /\ no_nul (str "/b").
Proof. by repeat constructor. Qed.

Lemma remove_announced_iff_removed_witness :
  exists r tr s', @process_remove demo_heap38 script_world demo_sha demo_jsonc 9
      (demo_server false true None demo_remove_body) = (inr tt, s') /\
    evs s' = [] ++ Ev (Unlink (str "/f")) r :: tr /\
    contents (s_oqueue s') = [] ++ enc_string (status_body 3 9 (status_of r)) /\
    match r with
    | inr _ => status_of r = SSH2_FX_OK /\ @told script_world demo_sha demo_jsonc demo_options (NRemove (str "jane") (str "/f")) s' tr
    | inl _ => status_of r <> SSH2_FX_OK /\ tr = []
    end.
Proof.
  refine (@remove_announced_iff_removed demo_heap38 script_world demo_sha demo_jsonc
    demo_heap38_total script_world_ok demo_jsonc_ok 9 (str "/f") [] demo_options
    (demo_server false true None demo_remove_body) _ _ _ _ _ _ _).
  - by apply demo_server_inv.
  - unfold roomy. vm_compute. congruence.
  - apply demo_name_no_nul.
  - vm_compute. reflexivity.
  - reflexivity.
  - apply demo_options_ready.
  - vm_compute. eauto.
Defined.

Lemma rename_announced_iff_moved_witness :
  exists status ops tr s', @process_rename demo_heap38 script_world demo_sha demo_jsonc 9
      (demo_server false true None demo_rename_body) = (inr tt, s') /\
    evs s' = [] ++ ops ++ tr /\ rename_ops (str "/a") (str "/b") status ops /\
    contents (s_oqueue s') = [] ++ enc_string (status_body 3 9 status) /\
    if moved (str "/a") (str "/b") ops then @told script_world demo_sha demo_jsonc demo_options (NRename (str "jane") (str "/a") (str "/b")) s' tr else tr = [].
Proof.
  refine (@rename_announced_iff_moved demo_heap38 script_world demo_sha demo_jsonc
    demo_heap38_total script_world_ok demo_jsonc_ok 9 (str "/a") (str "/b") [] demo_options
    (demo_server false true None demo_rename_body) _ _ _ _ _ _ _ _).
  - by apply demo_server_inv.
  - unfold roomy. vm_compute. congruence.
  - apply demo_name_no_nul.
  - apply demo_name_no_nul.
  - vm_compute. reflexivity.
  - reflexivity.
  - apply demo_options_ready.
  - vm_compute. eauto.
Defined.

Lemma posix_rename_announced_iff_renamed_witness :
  exists r tr s', @process_extended_posix_rename demo_heap38 script_world demo_sha demo_jsonc 9
      (demo_server false true None demo_rename_body) = (inr tt, s') /\
    evs s' = [] ++ Ev (Rename (str "/a") (str "/b")) r :: tr /\
    contents (s_oqueue s') = [] ++ enc_string (status_body 3 9 (status_of r)) /\
    if moved (str "/a") (str "/b") [Ev (Rename (str "/a") (str "/b")) r]
    then @told script_world demo_sha demo_jsonc demo_options (NRename (str "jane") (str "/a") (str "/b")) s' tr else tr = [].
Proof.
  refine (@posix_rename_announced_iff_renamed demo_heap38 script_world demo_sha demo_jsonc
    demo_heap38_total script_world_ok demo_jsonc_ok 9 (str "/a") (str "/b") [] demo_options
    (demo_server false true None demo_rename_body) _ _ _ _ _ _ _ _).
  - by apply demo_server_inv.
  - unfold roomy. vm_compute. congruence.
  - apply demo_name_no_nul.
  - apply demo_name_no_nul.
  - vm_compute. reflexivity.
  - reflexivity.
  - apply demo_options_ready.
  - vm_compute. eauto.
Defined.

Definition demo_unconfigured : @server script_world demo_sha :=
  set_env (@mk_env script_world MqNull (mk_script [] 3) []) (demo_server false true None demo_remove_body).
Lemma remove_without_configuration_crashes_witness :
  exists r res s', @process_remove demo_heap38 script_world demo_sha demo_jsonc 9 demo_unconfigured = (res, s') /\
    evs s' = [] ++ [Ev (Unlink (str "/f")) r] /\
    contents (s_oqueue s') = [] ++ enc_string (status_body 3 9 (status_of r)) /\
    res = match r with inr _ => inl Segv | inl _ => inr tt end.
Proof.
  refine (@remove_without_configuration_crashes demo_heap38 script_world demo_sha demo_jsonc
    demo_heap38_total script_world_ok 9 (str "/f") [] demo_unconfigured _ _ _ _ _).
  - destruct (demo_server_inv false true None demo_remove_body ltac:(done)). by split.
  - unfold roomy. vm_compute. congruence.
  - apply demo_name_no_nul.
  - vm_compute. reflexivity.
  - reflexivity.
Defined.

(** A client that opens a file for reading and appending, and closes it. *)
Definition demo_peek : list Z := demo_init ++ demo_open 1 (str "/f") 0x5 ++ demo_close 2 0.

(** The guard [!(flags & O_RDONLY)] of handle_close never refuses, since
    O_RDONLY is 0: whether an upload is announced depends on O_CREAT, O_TRUNC
    and O_APPEND alone, whatever the access mode.  So a server started
    read-only announces the upload of a file that a client opened for reading
    with the append flag and never wrote to. *)
Theorem readonly_server_announces_upload :
  (forall flags, announces_upload flags = truthy (Z.land flags (Z.lor (Z.lor O_CREAT O_TRUNC) O_APPEND))) /\
  demo_rounds_ok 3 (demo_start true demo_peek) = true /\
  map (fun p => zlen (pub_body p) <=? 0) (pubs (evs (demo_rounds 3 (demo_start true demo_peek)))) = [false] /\
  existsb (fun ev => match ev with @Ev _ (Write fd _) _ => negb (fd =? STDOUT) | _ => false end)
    (evs (demo_rounds 3 (demo_start true demo_peek))) = false.
Proof.
  split_and!; [|vm_compute; reflexivity..].
  intros flags. unfold announces_upload. change O_RDONLY with 0. by rewrite Z.land_0_r, andb_true_r.
Qed.
